(* ===== verification/_CoqProject ===== *)
-Q . S2P
Prelude.v
Buffer.v
Utf8.v
Scanner.v
Lists.v
Maps.v
Contexts.v
Arenas.v
Interns.v
Sourceloc.v
Arbuff.v
Lambdas.v
Threads.v
Forms.v
Primitives.v
Atoms.v
Filepath.v
Sockets.v
Connections.v
Server.v
Serving.v
Posix.v
Tls.v
Client.v
Reconnecting.v
Modules.v
Signals.v
Jit.v
Runtime.v
Kernel.v
Logs.v
Memory.v
Winsock.v
Platform.v
Pthreads.v
Winthreads.v
