(* ===== verification/Prelude.v ===== *)
(** A verification development of AK24, a C runtime kernel (under [src/kernel]).

    ** The program

    AK24 is a set of modules with a common allocation interface ([AK24_ALLOC],
    [AK24_REALLOC], [AK24_FREE]; [malloc] or a collector behind them): growable
    byte buffers, UTF-8, a scanner over buffers, generic lists and hash maps,
    scoped contexts built on both, bump-allocation arenas, interned strings,
    source locations, a ring buffer shared by threads, and more.

    ** How the code is modelled

    The development is a shallow embedding.  [Prelude] has what every file
    shares.  A C integer is a [Z] with its wrap-around written out ([u32],
    [u64], [i32]).  A computation is an [outcome]: a value, undefined behaviour
    (an access outside its object, the use of a released object), or a loop out
    of fuel.  Code that allocates is in the monad [M], which passes the
    allocator's counters and calls the class [Allocator]: any allocation may
    fail, and new blocks have any contents.  A theorem [wp m Q s] or [wpo m Q]
    says that the code returns, with no undefined behaviour and within its fuel,
    in a state that satisfies [Q]; so a fuel that is too small would make the
    theorem false.  [balance d f s s'] in a result accounts for the live blocks
    and for failed allocations, so that leaks and double releases show.

    ** The files

    - [Buffer]: [buffer.c].  A buffer is a block with count and capacity;
      [contents] is the bytes counted.
    - [Utf8]: [utf8.c].  The reference is [encode], the encoding of one scalar
      value.
    - [Scanner]: [scanner.c], over [Buffer] and [Utf8].
    - [Lists], [Maps]: [list.c], [map.c].  [list_wf l xs] and [entries m] relate
      the C structures to a Rocq list and a finite map.  [Maps] is generic in a
      class of keys with a hash and a comparison.
    - [Contexts]: [context.c], over [Lists] and [Maps].  Contexts are shared, so
      they live in a store; [scopes] is the chain of finite maps seen from one.
    - [Arenas]: [arena.c].  [arena_wf a rs] carries the live regions [rs], which
      are disjoint and inside their blocks.
    - [Interns]: [intern.c].  The table is a global, passed explicitly.
    - [Sourceloc]: [sourceloc.c], over [Interns].  Files are reference-counted
      objects in a store; [split_lines] is the reference for lines.
    - [Arbuff]: [arbuff.c].  Push and pop are programs of atomic operations,
      [step] lets any thread go next, and [conf_ok] is the invariant of all runs.
    - [Lambdas]: [lambda.c] and [box.c].  Lambdas live in a store with the trace
      of the calls they make; a box is a pointer behind a lock.
    - [Threads]: [threads.c], over [Lambdas].  The critical sections of the
      workers, of the creating thread and of clients are the steps of a relation
      between configurations.
    - [Forms]: [forms.c], over [Lists] and [Lambdas].  A form is a tree with the
      reference [tree], without capacities; the affects that copies share live in
      a store.
    - [Primitives]: [forms_primitives.c] and the part of [forms.c] that keeps
      forms in contexts, over [Forms], [Maps] and [Contexts].
    - [Atoms]: [atom.c].  Atoms and the links between them live in a store;
      [graph_ok st L] says that [L] gives each atom the chain of its links.  A bond
      is a program of atomic loads and stores, which threads may interleave.
    - [Filepath]: [filepath.c], over [Buffer] and [Lists], for each of the three
      platforms the code is compiled for.  [resolve] is the reference for paths.
    - [Sockets]: the functions of [tcp_internal.h] as the class [Sockets], with the
      laws the TCP module relies on.  [Connections]: the part of [tcp.c] that is
      about one connection, over [Sockets], [Buffer] and [Contexts].  [Server]: its
      part that is about a server, one function for each critical section.
      [Serving]: the threads of a server as a relation between configurations, over
      [Server] and [Connections], with what they promise in every interleaving.
    - [Posix] and [Tls]: [tcp_posix.c] and [tcp_tls.c].  The system and the TLS
      library are classes of calls on one state, with their documented behaviour as
      laws; [Tls] makes of both an instance of [Sockets] and proves its laws.
    - [Winsock]: [tcp_win.c], over a class of the calls of Winsock with laws in the
      terms of [Posix], so that the sockets of Windows can be compared with those of
      POSIX.
    - [Client]: [tcp_client.c], one function for each critical section and call.
      [Reconnecting]: its thread that connects again and the calls of the program as
      a relation between configurations, over [Client] and the connections of
      [Serving].
    - [Modules]: [modules.c], over [Maps] and [Lambdas].  The loader and the loaded
      libraries are a class with laws; instances and handles live in stores; calls
      while a module is unloaded are the steps of a relation.
    - [Signals]: the signal handlers of [posix.c], over [Lists] and [Lambdas].
    - [Jit]: [cjit.c], over a class of the functions of libtcc.
    - [Runtime]: [runtime.c] and the removal of the lock file, over [Filepath] and a
      class of the files and processes of the system.
    - [Kernel]: [kernel.c], over [Interns], [Sourceloc], [Filepath], [Runtime],
      [Signals], [Lists] and [Lambdas]: start, end and what runs in between.
    - [Platform], [Pthreads], [Winthreads]: the locks and threads of
      [thread_platform.c], [posix.c] and [win.c].  [Platform] has the interface and what
      it promises; the two others prove it, over classes of the calls of the systems.
    - [Logs]: [log.c].  [Memory]: the counters of [nogc.c] and [gc.c].

    ** What the theorems show

    The properties are numbered C1, C2, ... in the doc comments, in order of
    importance.  Refinements: the hash map is a finite map, the ring buffer a
    bounded queue, the signal handlers are a finite map when no allocation fails, a JIT
    unit the state machine of its interface.  The sockets of POSIX and TLS implement the interface that
    connections, server and client are proved against; those of Windows keep the same
    contract, and connecting on POSIX is related to what the system answers for each
    address ([reaches], [misses]).  Locks, condition variables and threads keep one
    contract on POSIX and on Windows, of which the wake-ups are no part; those of the
    thread pool, the server and the client are in their own relations.  Safety: the ring buffer, the thread pool, the TCP
    server, the TCP client and calls of loaded modules under every interleaving,
    unloading, the lock file of a program, and the
    kernel from its start to its end.
    Termination and liveness: the pool drains and its workers leave, a server and a
    client stop, receiving and iteration end.  Invariants: intern table, reference
    counts, the contexts of lambdas, bonds of atoms, limits per address.  Round trips
    and equivalences: UTF-8, loading and unloading, tracked and untracked
    allocation, compatibility of forms.  Bounds:
    the delay between attempts to connect, for its default factor.  Functional behaviour of the other
    operations, errors included.  [ak_tcp_client_races],
    [ak_lock_file_failures], [ak_signal_handlers_failures], and theorems such as [modules_undefined], those with
    [overflow] in their name, [win_static_mutex_undefined], on [ak_arbuff_clear], on ring buffers of one slot, on the
    lost wake-up of [ak_thread_pool_new], on freeing copies of forms, on the affects of
    named forms and on racing bonds, show inputs or runs for which the code does not do
    what it means to.

    ** Bounds and fuel

    Loops that go over an array have one turn more than the array has elements.
    Doubling loops have two turns more than the word has bits: by then the
    capacity is large enough or has wrapped to zero for good.  Sizes are assumed
    to be below the point where the code's own arithmetic wraps; each theorem
    states its bound, and the [overflow] theorems show what happens past it.
    Other conditions are stated with the theorems that need them: loading a module
    an allocator that clears its blocks, comparing forms that no name in them names null,
    stopping a client the default factor and delays below [2 ^ 24] milliseconds.  Runs
    of the ring buffer are shorter than [2 ^ 62] operations, so that tickets do
    not wrap; those of the thread pool enqueue fewer.  The recursion on forms has
    the height of the form as its fuel.

    ** Not modelled

    The memory order of atomics weaker than sequential consistency; the file
    system, of which the answers are parameters; formatting with [snprintf];
    the mutex and the static buffer of
    [tcp_tls.c]; the failure to make a thread, and callbacks of a client or a server
    that call it back; the blocking of threads inside the locks of a system; examples
    and tests.  Locks: a call
    that holds its lock throughout is one step. *)

From Stdlib Require Export ZArith Lia.
From Stdlib Require String Ascii.
From stdpp Require Export base tactics option list list_numbers numbers.

#[export] Set Default Goal Selector "!".
#[global] Open Scope Z_scope.
#[global] Arguments Z.opp : simpl never.

(** * Machine integers

    [size_t], [uint64_t] and pointers are 64 bits wide, [unsigned] and
    [uint32_t] 32 bits, [int] 32 bits in two's complement. *)

Definition u8 (x : Z) : Z := x mod 2 ^ 8.
Definition u32 (x : Z) : Z := x mod 2 ^ 32.
Definition u64 (x : Z) : Z := x mod 2 ^ 64.
Definition i32 (x : Z) : Z := (x + 2 ^ 31) mod 2 ^ 32 - 2 ^ 31.
Definition i64 (x : Z) : Z := (x + 2 ^ 63) mod 2 ^ 64 - 2 ^ 63.

Definition is_byte (b : Z) : Prop := 0 <= b < 256.

(** Characters: bytes that do not end a string. *)
Definition is_char (c : Z) : Prop := 0 < c < 256.
Definition is_size (n : Z) : Prop := 0 <= n < 2 ^ 64.

Lemma u64_small x : 0 <= x < 2 ^ 64 → u64 x = x.
Proof. intros H. unfold u64. by rewrite Z.mod_small. Qed.

Lemma u32_small x : 0 <= x < 2 ^ 32 → u32 x = x.
Proof. intros H. unfold u32. by rewrite Z.mod_small. Qed.

Lemma i32_small x : - 2 ^ 31 <= x < 2 ^ 31 → i32 x = x.
Proof. intros H. unfold i32. rewrite Z.mod_small; lia. Qed.

Lemma i64_small x : - 2 ^ 63 <= x < 2 ^ 63 → i64 x = x.
Proof. intros H. unfold i64. rewrite Z.mod_small; lia. Qed.

Lemma u64_range x : 0 <= u64 x < 2 ^ 64.
Proof. apply Z.mod_pos_bound. lia. Qed.

Lemma u32_range x : 0 <= u32 x < 2 ^ 32.
Proof. apply Z.mod_pos_bound. lia. Qed.

(** * Outcomes of C code

    A computation returns a value, has undefined behaviour (an access outside
    its object), or exhausts the fuel of one of its loops. *)

Inductive outcome (A : Type) : Type :=
| Ret (a : A)
| Undef
| Hang.
Arguments Ret {A} a.
Arguments Undef {A}.
Arguments Hang {A}.

#[export] Instance outcome_ret : MRet outcome := @Ret.
#[export] Instance outcome_bind : MBind outcome := λ A B f m,
  match m with
  | Ret a => f a
  | Undef => Undef
  | Hang => Hang
  end.

(** [wpo o Q]: [o] returns, and its value satisfies [Q]. *)
Definition wpo {A} (o : outcome A) (Q : A → Prop) : Prop :=
  match o with
  | Ret a => Q a
  | Undef | Hang => False
  end.

Lemma wpo_bind {A B} (f : A → outcome B) (m : outcome A) Q :
  wpo m (λ a, wpo (f a) Q) → wpo (m ≫= f) Q.
Proof. by destruct m. Qed.

Lemma wpo_mono {A} (m : outcome A) (P Q : A → Prop) :
  wpo m P → (∀ a, P a → Q a) → wpo m Q.
Proof. destruct m; simpl; auto. Qed.

Lemma wpo_eq {A} (m : outcome A) (v : A) : wpo m (λ a, a = v) ↔ m = Ret v.
Proof. destruct m; simpl; naive_solver. Qed.

(** * Loops

    [loop fuel step s] runs [step] until it answers [inr]; it is the reading
    of a C loop whose body either continues with a new local state or leaves. *)

Fixpoint loop {S R : Type} (fuel : nat) (step : S → outcome (S + R)) (s : S)
    : outcome R :=
  match fuel with
  | O => Hang
  | Datatypes.S fuel =>
      r ← step s;
      match r with
      | inl s' => loop fuel step s'
      | inr v => Ret v
      end
  end.

(** The partial-correctness rule: an invariant. *)
Lemma loop_answers {S R} (I : S → Prop) (Q : R → Prop) (step : S → outcome (S + R)) fuel s v :
  (∀ s r, I s → step s = Ret r → match r with inl s' => I s' | inr v => Q v end) →
  I s → loop fuel step s = Ret v → Q v.
Proof.
  intros Hstep. revert s. induction fuel as [|fuel IH]; intros s HI; simpl; [done|].
  destruct (step s) as [[s'|v']| |] eqn:E; [|intros [= <-]|done..].
  - apply IH. by apply (Hstep s _ HI E).
  - by apply (Hstep s _ HI E).
Qed.

Lemma loop_S {S R} fuel (step : S → outcome (S + R)) s :
  loop (Datatypes.S fuel) step s
  = r ← step s; match r with inl s' => loop fuel step s' | inr v => Ret v end.
Proof. done. Qed.

(** The total-correctness rule: an invariant and a decreasing measure below
    the fuel. *)
Lemma loop_wpo {S R} (I : S → Prop) (μ : S → nat) (Q : R → Prop)
    (step : S → outcome (S + R)) fuel s :
  I s → (μ s < fuel)%nat →
  (∀ s, I s → wpo (step s) (λ r, match r with
                               | inl s' => I s' ∧ (μ s' < μ s)%nat
                               | inr v => Q v
                               end)) →
  wpo (loop fuel step s) Q.
Proof.
  revert s. induction fuel as [|fuel IH]; intros s HI Hμ Hstep; [lia|].
  simpl. specialize (Hstep s HI) as Hs.
  destruct (step s) as [[s'|v]| |]; simpl in *; try done.
  destruct Hs as [HI' Hlt]. apply IH; [done|lia|done].
Qed.

#[global] Arguments loop : simpl never.

(** * Memory

    The allocator ([malloc] or the Boehm collector behind [AK24_ALLOC]) is a
    parameter: whether its [n]-th request succeeds, and what a fresh block
    holds.  The state counts the requests, the live blocks and the requests
    that failed, so that theorems can say that a path leaks nothing and that
    an error is reported only when an allocation failed. *)

Class Allocator := {
  alloc_ok : nat → Z → bool;
  alloc_fill : nat → Z → Z;
}.

Record mem := Mem {
  m_calls : nat;
  m_live : Z;
  m_fails : nat;
}.

Definition M (A : Type) : Type := mem → outcome (A * mem).

#[export] Instance M_ret : MRet M := λ A a s, Ret (a, s).
#[export] Instance M_bind : MBind M := λ A B f m s,
  match m s with
  | Ret (a, s') => f a s'
  | Undef => Undef
  | Hang => Hang
  end.

Definition lift {A} (o : outcome A) : M A := λ s,
  match o with
  | Ret a => Ret (a, s)
  | Undef => Undef
  | Hang => Hang
  end.

(** [wp m Q s]: started in memory [s], [m] returns, and its value and final
    memory satisfy [Q]. *)
Definition wp {A} (m : M A) (Q : A → mem → Prop) (s : mem) : Prop :=
  match m s with
  | Ret (a, s') => Q a s'
  | Undef | Hang => False
  end.

Lemma wp_ret {A} (a : A) Q s : Q a s → wp (mret a) Q s.
Proof. done. Qed.

Lemma wp_bind {A B} (f : A → M B) (m : M A) Q s :
  wp m (λ a, wp (f a) Q) s → wp (m ≫= f) Q s.
Proof. unfold wp, mbind, M_bind. by destruct (m s) as [[a s']| |]. Qed.

Lemma wp_mono {A} (m : M A) (P Q : A → mem → Prop) s :
  wp m P s → (∀ a s', P a s' → Q a s') → wp m Q s.
Proof. unfold wp. destruct (m s) as [[a s']| |]; auto. Qed.

Lemma wp_lift {A} (o : outcome A) Q s : wpo o (λ a, Q a s) → wp (lift o) Q s.
Proof. unfold wp, lift. by destruct o. Qed.

(** A loop whose body allocates. *)
Fixpoint loopM {S R : Type} (fuel : nat) (step : S → M (S + R)) (s : S) : M R :=
  match fuel with
  | O => lift Hang
  | Datatypes.S fuel =>
      r ← step s;
      match r with
      | inl s' => loopM fuel step s'
      | inr v => mret v
      end
  end.

Lemma loopM_wp {S R} (I : S → mem → Prop) (μ : S → nat) (Q : R → mem → Prop)
    (step : S → M (S + R)) fuel s m :
  I s m → (μ s < fuel)%nat →
  (∀ s m, I s m → wp (step s) (λ r m', match r with
                               | inl s' => I s' m' ∧ (μ s' < μ s)%nat
                               | inr v => Q v m'
                               end) m) →
  wp (loopM fuel step s) Q m.
Proof.
  revert s m. induction fuel as [|fuel IH]; intros s m HI Hμ Hstep; [lia|].
  simpl. apply wp_bind. eapply wp_mono; [by apply Hstep|].
  intros [s'|v] m' Hr; simpl in *; [|done].
  destruct Hr as [HI' Hlt]. apply IH; [done|lia|done].
Qed.

#[global] Arguments loopM : simpl never.

(** [answers m Q]: if [m] returns, its value satisfies [Q]; for what holds whatever
    the arguments are. *)
Definition answers {A} (m : M A) (Q : A → Prop) : Prop := ∀ s a s', m s = Ret (a, s') → Q a.

Lemma answers_ret {A} (a : A) Q : Q a → answers (mret a) Q.
Proof. by intros HQ s a' s' [= <- _]. Qed.

Lemma answers_lift {A} (o : outcome A) (Q : A → Prop) : (∀ a, o = Ret a → Q a) → answers (lift o) Q.
Proof. intros HQ s a s'. unfold lift. destruct o; [|done..]. intros [= <- _]. by apply HQ. Qed.

Lemma answers_bind {A B} (f : A → M B) (m : M A) P Q :
  answers m P → (∀ a, P a → answers (f a) Q) → answers (m ≫= f) Q.
Proof.
  intros Hm Hf s b s'. unfold mbind, M_bind. destruct (m s) as [[a s1]| |] eqn:E; [|done..].
  apply Hf. by eapply Hm.
Qed.

(** When the value does not matter. *)
Lemma answers_seq {A B} (f : A → M B) (m : M A) Q : (∀ a, answers (f a) Q) → answers (m ≫= f) Q.
Proof. intros Hf. by apply (answers_bind _ _ (λ _, True)). Qed.

Lemma answers_mono {A} (m : M A) (P Q : A → Prop) : answers m P → (∀ a, P a → Q a) → answers m Q.
Proof. intros Hm HPQ s a s' E. by eapply HPQ, Hm. Qed.

Lemma answers_loop {S R} (I : S → Prop) (Q : R → Prop) (step : S → M (S + R)) fuel s :
  (∀ s, I s → answers (step s) (λ r, match r with inl s' => I s' | inr v => Q v end)) →
  I s → answers (loopM fuel step s) Q.
Proof.
  intros Hstep. revert s. induction fuel as [|fuel IH]; intros s HI.
  - by apply answers_lift.
  - eapply answers_bind; [by apply Hstep|]. intros [s'|v] Hr; [by apply IH|by apply answers_ret].
Qed.

(** * Arrays

    A block of [n] cells is a list of length [n]; an index outside it is
    undefined behaviour. *)

Definition zlen {A} (l : list A) : Z := Z.of_nat (length l).

Definition rd {A} (l : list A) (i : Z) : outcome A :=
  if i <? 0 then Undef
  else match l !! Z.to_nat i with
       | Some x => Ret x
       | None => Undef
       end.

Definition wr {A} (l : list A) (i : Z) (x : A) : outcome (list A) :=
  if (0 <=? i) && (i <? zlen l) then Ret (<[Z.to_nat i := x]> l) else Undef.

(** [memcpy]/[memmove] of [n] cells. *)
Definition blit {A} (dst : list A) (doff : Z) (src : list A) (soff n : Z)
    : outcome (list A) :=
  if (0 <=? doff) && (0 <=? soff) && (0 <=? n)
     && (doff + n <=? zlen dst) && (soff + n <=? zlen src)
  then Ret (take (Z.to_nat doff) dst
              ++ take (Z.to_nat n) (drop (Z.to_nat soff) src)
              ++ drop (Z.to_nat (doff + n)) dst)
  else Undef.

Lemma zlen_nonneg {A} (l : list A) : 0 <= zlen l.
Proof. unfold zlen. lia. Qed.

Lemma zlen_app {A} (l k : list A) : zlen (l ++ k) = zlen l + zlen k.
Proof. unfold zlen. rewrite length_app. lia. Qed.

Lemma zlen_cons {A} (x : A) (l : list A) : zlen (x :: l) = 1 + zlen l.
Proof. unfold zlen. simpl. lia. Qed.

Lemma zlen_nil {A} : zlen (@nil A) = 0.
Proof. done. Qed.

Lemma zlen_take {A} (l : list A) n :
  0 <= n <= zlen l → zlen (take (Z.to_nat n) l) = n.
Proof. unfold zlen. rewrite length_take. lia. Qed.

Lemma zlen_drop {A} (l : list A) n :
  0 <= n <= zlen l → zlen (drop (Z.to_nat n) l) = zlen l - n.
Proof. unfold zlen. rewrite length_drop. lia. Qed.

Lemma zlen_insert {A} (l : list A) i x : zlen (<[i := x]> l) = zlen l.
Proof. unfold zlen. by rewrite length_insert. Qed.

(** Concatenating parts of the items of a list, when one of them changes. *)
Lemma concat_fmap_update {A B} (f : A → list B) (l : list A) i x :
  l !! i = Some x → ∃ rest, concat (f <$> l) ≡ₚ f x ++ rest ∧ ∀ y, concat (f <$> <[i := y]> l) ≡ₚ f y ++ rest.
Proof.
  intros Hi. pose proof (lookup_lt_Some _ _ _ Hi).
  exists (concat (f <$> take i l) ++ concat (f <$> drop (S i) l)).
  assert (∀ y, concat (f <$> <[i := y]> l) ≡ₚ f y ++ concat (f <$> take i l) ++ concat (f <$> drop (S i) l)) as Hy.
  { intros y. rewrite insert_take_drop by done. rewrite fmap_app, concat_app. simpl.
    rewrite !app_assoc. apply Permutation_app_tail, Permutation_app_comm. }
  split; [|done]. rewrite <- (list_insert_id l i x Hi) at 1. apply Hy.
Qed.

Lemma rd_lookup {A} (l : list A) i x :
  0 <= i → l !! Z.to_nat i = Some x → rd l i = Ret x.
Proof. intros Hi Hx. unfold rd. rewrite (proj2 (Z.ltb_ge _ _) Hi). by rewrite Hx. Qed.

Lemma rd_wpo {A} (l : list A) i (Q : A → Prop) :
  0 <= i < zlen l → (∀ x, l !! Z.to_nat i = Some x → Q x) → wpo (rd l i) Q.
Proof.
  intros Hi HQ.
  destruct (lookup_lt_is_Some_2 l (Z.to_nat i)) as [x Hx]; [unfold zlen in Hi; lia|].
  rewrite (rd_lookup _ _ x); [|lia|done]. simpl. auto.
Qed.

Lemma wr_ok {A} (l : list A) i x :
  0 <= i < zlen l → wr l i x = Ret (<[Z.to_nat i := x]> l).
Proof.
  intros Hi. unfold wr. destruct (Z.leb_spec 0 i); [|lia].
  by destruct (Z.ltb_spec i (zlen l)); [|lia].
Qed.

Lemma blit_ok {A} (dst src : list A) doff soff n :
  0 <= doff → 0 <= soff → 0 <= n → doff + n <= zlen dst → soff + n <= zlen src →
  blit dst doff src soff n =
    Ret (take (Z.to_nat doff) dst ++ take (Z.to_nat n) (drop (Z.to_nat soff) src)
           ++ drop (Z.to_nat (doff + n)) dst).
Proof.
  intros. unfold blit.
  by rewrite (proj2 (Z.leb_le 0 doff)), (proj2 (Z.leb_le 0 soff)),
    (proj2 (Z.leb_le 0 n)), (proj2 (Z.leb_le (doff + n) _)),
    (proj2 (Z.leb_le (soff + n) _)) by lia.
Qed.

(** What a copy leaves in the destination block. *)
Record blitted {A} (dst : list A) (doff : Z) (src : list A) (soff n : Z)
    (d : list A) : Prop := {
  blit_len : zlen d = zlen dst;
  blit_pre : take (Z.to_nat (doff + n)) d =
    take (Z.to_nat doff) dst ++ take (Z.to_nat n) (drop (Z.to_nat soff) src);
  blit_post : drop (Z.to_nat (doff + n)) d = drop (Z.to_nat (doff + n)) dst;
  blit_Forall : ∀ P : A → Prop, Forall P dst → Forall P src → Forall P d;
}.

Lemma blit_wpo {A} (dst src : list A) doff soff n Q :
  0 <= doff → 0 <= soff → 0 <= n → doff + n <= zlen dst → soff + n <= zlen src →
  (∀ d, blitted dst doff src soff n d → Q d) →
  wpo (blit dst doff src soff n) Q.
Proof.
  intros H1 H2 H3 H4 H5 HQ. rewrite blit_ok by done. simpl. apply HQ.
  unfold zlen in *.
  assert (length (take (Z.to_nat doff) dst ++ take (Z.to_nat n) (drop (Z.to_nat soff) src))
          = Z.to_nat (doff + n)) as Hlen.
  { rewrite length_app, !length_take, length_drop. lia. }
  split.
  - unfold zlen. rewrite app_assoc, length_app, Hlen, length_drop. lia.
  - rewrite app_assoc. by rewrite take_app_length' by lia.
  - rewrite app_assoc. by rewrite drop_app_length' by lia.
  - intros P HP HP'. rewrite !Forall_app. split_and!.
    + by apply Forall_take.
    + by apply Forall_take, Forall_drop.
    + by apply Forall_drop.
Qed.

(** * Allocation primitives *)

Section alloc.
Context `{Allocator}.

(** The [size] cells of the fresh block number [n]. *)
Definition fresh_bytes (n : nat) (size : Z) : list Z :=
  (λ i, u8 (alloc_fill n i)) <$> seqZ 0 size.

(** [AK24_ALLOC(sizeof(T))]: did it succeed? *)
Definition alloc_obj (size : Z) : M bool := λ s,
  if alloc_ok (m_calls s) size
  then Ret (true, Mem (S (m_calls s)) (m_live s + 1) (m_fails s))
  else Ret (false, Mem (S (m_calls s)) (m_live s) (S (m_fails s))).

(** [AK24_ALLOC(size)] for a block of bytes. *)
Definition alloc_bytes (size : Z) : M (option (list Z)) := λ s,
  match alloc_obj size s with
  | Ret (true, s') => Ret (Some (fresh_bytes (m_calls s) size), s')
  | Ret (false, s') => Ret (None, s')
  | Undef => Undef
  | Hang => Hang
  end.

(** [AK24_REALLOC(old, size)] for a live block of bytes. *)
Definition realloc_bytes (old : list Z) (size : Z) : M (option (list Z)) := λ s,
  if alloc_ok (m_calls s) size
  then Ret (Some (take (Z.to_nat size) old
                    ++ drop (length old) (fresh_bytes (m_calls s) size)),
            Mem (S (m_calls s)) (m_live s) (m_fails s))
  else Ret (None, Mem (S (m_calls s)) (m_live s) (S (m_fails s))).

(** [AK24_FREE(p)]. *)
Definition free_obj : M () := λ s,
  Ret ((), Mem (m_calls s) (m_live s - 1) (m_fails s)).

Lemma length_fresh_bytes n size : 0 <= size → zlen (fresh_bytes n size) = size.
Proof. intros. unfold fresh_bytes, zlen. rewrite length_fmap, length_seqZ. lia. Qed.

Lemma fresh_bytes_byte n size : Forall is_byte (fresh_bytes n size).
Proof.
  unfold fresh_bytes. apply Forall_fmap, Forall_true. intros i.
  apply (Z.mod_pos_bound _ (2 ^ 8)). lia.
Qed.

(** What an allocation request does to the counters. *)
Definition mem_alloc (b : bool) (s s' : mem) : Prop :=
  m_live s' = m_live s + (if b then 1 else 0)
  ∧ m_fails s' = (m_fails s + if b then 0 else 1)%nat.

Lemma wp_alloc_obj size Q s :
  (∀ b s', mem_alloc b s s' → Q b s') → wp (alloc_obj size) Q s.
Proof.
  intros HQ. unfold wp, alloc_obj. destruct (alloc_ok _ _); apply HQ; split; simpl; lia.
Qed.

Lemma wp_alloc_bytes size Q s :
  0 <= size →
  (∀ s', mem_alloc false s s' → Q None s') →
  (∀ d s', mem_alloc true s s' → zlen d = size → Forall is_byte d → Q (Some d) s') →
  wp (alloc_bytes size) Q s.
Proof.
  intros Hs HN HS. unfold wp, alloc_bytes, alloc_obj. destruct (alloc_ok _ _).
  - apply HS; [split; simpl; lia|by apply length_fresh_bytes|apply fresh_bytes_byte].
  - apply HN. split; simpl; lia.
Qed.

Lemma wp_realloc_bytes old size Q s :
  0 <= size → Forall is_byte old →
  (∀ s', m_live s' = m_live s → m_fails s' = S (m_fails s) → Q None s') →
  (∀ d s', m_live s' = m_live s → m_fails s' = m_fails s →
     zlen d = size → Forall is_byte d →
     (∀ n, 0 <= n <= size → n <= zlen old →
        take (Z.to_nat n) d = take (Z.to_nat n) old) → Q (Some d) s') →
  wp (realloc_bytes old size) Q s.
Proof.
  intros Hs Hold HN HS. unfold wp, realloc_bytes. destruct (alloc_ok _ _); [|by apply HN].
  pose proof (length_fresh_bytes (m_calls s) size Hs) as Hlen. unfold zlen in *.
  apply HS; try done.
  - rewrite length_app, length_take, length_drop. lia.
  - apply Forall_app. split; [by apply Forall_take|].
    apply Forall_drop, fresh_bytes_byte.
  - intros n Hn Hn'. rewrite take_app_le by (rewrite length_take; lia).
    rewrite take_take. f_equal. lia.
Qed.

Lemma wp_free_obj Q s :
  (∀ s', m_live s' = m_live s - 1 → m_fails s' = m_fails s → Q () s') →
  wp free_obj Q s.
Proof. intros HQ. unfold wp, free_obj. by apply HQ. Qed.
End alloc.

(** The balance of a call: [d] more live blocks, allocations failed or not. *)
Definition balance (d : Z) (failed : bool) (s s' : mem) : Prop :=
  m_live s' = m_live s + d
  ∧ (if failed then (m_fails s < m_fails s')%nat else m_fails s' = m_fails s).

Lemma balance_refl s : balance 0 false s s.
Proof. split; [lia|done]. Qed.

Lemma balance_trans d1 d2 f1 f2 s1 s2 s3 :
  balance d1 f1 s1 s2 → balance d2 f2 s2 s3 → balance (d1 + d2) (f1 || f2) s1 s3.
Proof. intros [H1 F1] [H2 F2]. split; [lia|]. destruct f1, f2; simpl; lia. Qed.

(** Reduce a [balance] goal to linear arithmetic over the counters. *)
Ltac balance :=
  repeat match goal with
  | H : balance _ _ _ _ |- _ => destruct H
  | H : mem_alloc _ _ _ |- _ => destruct H
  end; split; simpl in *; lia.

(** [live] more blocks, some of them lost if an allocation failed. *)
Record grown (s s' : mem) (live : Z) : Prop := {
  g_fails : (m_fails s <= m_fails s')%nat;
  g_live : m_live s + live <= m_live s';
  g_exact : m_fails s' = m_fails s → m_live s' = m_live s + live;
}.

Lemma grown_trans s1 s2 s3 a b : grown s1 s2 a → grown s2 s3 b → grown s1 s3 (a + b).
Proof.
  intros [F1 L1 E1] [F2 L2 E2]. split; [lia|lia|]. intros E. rewrite E2, E1 by lia. lia.
Qed.

Lemma grown_refl s : grown s s 0.
Proof. split; [lia|lia|]. lia. Qed.

Lemma grown_balance s s' d f : balance d f s s' → grown s s' d.
Proof. intros [HL HF]. split; destruct f; lia. Qed.

Lemma grown_alloc s s' : mem_alloc true s s' → grown s s' 1.
Proof. intros [HL HF]. split; lia. Qed.

(** The counters of a fresh process, and an allocator that always succeeds. *)
Definition mem0 : mem := Mem 0 0 0.

Definition always_alloc : Allocator := {|
  alloc_ok := λ _ _, true;
  alloc_fill := λ _ _, 0;
|}.

(** * Automation *)

(** Case analysis on a Z comparison of the goal, innermost first. *)
Ltac no_if t :=
  lazymatch t with
  | context [if _ then _ else _] => fail
  | _ => idtac
  end.

Ltac zcase :=
  match goal with
  | |- context [?a =? ?b] => no_if a; no_if b; destruct (Z.eqb_spec a b)
  | |- context [?a <? ?b] => no_if a; no_if b; destruct (Z.ltb_spec a b)
  | |- context [?a <=? ?b] => no_if a; no_if b; destruct (Z.leb_spec a b)
  end; simpl.

(** Case analysis on the comparisons of naturals of the goal. *)
Ltac ncase :=
  repeat match goal with
  | |- context [(?a <? ?b)%nat] => destruct (Nat.ltb_spec a b)
  | |- context [(?a <=? ?b)%nat] => destruct (Nat.leb_spec a b)
  | |- context [(?a =? ?b)%nat] => destruct (Nat.eqb_spec a b)
  end; simpl; try done; try lia.

(** One step of a [wp] or [wpo] goal. *)
Ltac wstep :=
  match goal with
  | |- wp (mbind _ _) _ _ => apply wp_bind
  | |- wp (mret _) _ _ => apply wp_ret
  | |- wp (lift _) _ _ => apply wp_lift
  | |- wpo (mbind _ _) _ => apply wpo_bind
  | |- wpo (mret _) _ => simpl
  | |- wpo (Ret _) _ => simpl
  end.
Ltac wsteps := repeat wstep.

Create Rewrite HintDb zl.
#[export] Hint Rewrite @length_app @length_take @length_drop @length_insert
  @length_replicate @length_fmap : zl.

(** Solve goals about list lengths by linear arithmetic. *)
Ltac zl := unfold zlen in *; autorewrite with zl in *; simpl length in *; lia.

(** * C strings *)

Definition sizeof_pointer : Z := 8.

(** A string literal. *)
Definition bytes_of (s : String.string) : list Z :=
  (λ a, Z.of_N (Ascii.N_of_ascii a)) <$> String.list_ascii_of_string s.

(** [strlen], the string being the bytes readable from its pointer. *)
Definition strlen (str : list Z) : outcome Z :=
  loop (S (length str)) (λ len,
    c ← rd str len; if c =? 0 then Ret (inr len) else Ret (inl (len + 1))) 0.

Lemma strlen_ok str l :
  str = l ++ [0] ++ drop (S (length l)) str → Forall (λ c, c ≠ 0) l → strlen str = Ret (zlen l).
Proof.
  intros Hstr HF. apply wpo_eq. unfold strlen.
  assert (length l < length str)%nat as Hlen.
  { apply (f_equal length) in Hstr. rewrite !length_app in Hstr. simpl in Hstr. lia. }
  apply (loop_wpo (λ i, 0 <= i <= zlen l) (λ i, Z.to_nat (zlen l - i)));
    [unfold zlen; lia|unfold zlen; lia|].
  intros i Hi. unfold zlen in *. destruct (decide (i = Z.of_nat (length l))) as [->|Hne].
  - rewrite (rd_lookup _ _ 0); [done|lia|].
    rewrite Hstr, lookup_app_r by lia. by rewrite Nat2Z.id, Nat.sub_diag.
  - destruct (lookup_lt_is_Some_2 l (Z.to_nat i)) as [c Hc]; [lia|].
    rewrite (rd_lookup _ _ c); [|lia|rewrite Hstr; by apply lookup_app_l_Some].
    rewrite Forall_lookup in HF. pose proof (HF _ _ Hc). simpl.
    rewrite (proj2 (Z.eqb_neq c 0)) by done. split; lia.
Qed.

(** * Files *)

(** What the C library answers while one file is read. *)
Record file_io := mk_file_io {
  io_fopen : bool;
  io_seek_end : Z;
  io_ftell : Z;
  io_seek_set : Z;
  io_bytes : list Z;
  io_ferror : bool;
  io_fclose : Z;
}.

(** * Bits of bytes *)

(** A fact about every byte, by evaluation. *)
Lemma byte_forall (P : Z → bool) b :
  forallb P (seqZ 0 256) = true → is_byte b → P b = true.
Proof.
  intros HP Hb. apply Is_true_true, forallb_True in HP.
  rewrite Forall_forall in HP. apply Is_true_true, HP.
  apply list_elem_of_In, elem_of_seqZ. unfold is_byte in Hb. lia.
Qed.

(** A disjunction of disjoint bit fields is a sum. *)
Lemma lor_low n x b :
  0 <= n → x mod 2 ^ n = 0 → 0 <= b < 2 ^ n → Z.lor x b = x + b.
Proof.
  intros Hn Hx Hb. symmetry. apply Z.add_nocarry_lor, Z.bits_inj'. intros i Hi.
  rewrite Z.land_spec, Z.bits_0. destruct (decide (i < n)).
  - rewrite <- (Z.mod_pow2_bits_low x n i), Hx by lia. by rewrite Z.bits_0.
  - rewrite <- (Z.mod_small b (2 ^ n)) by lia.
    rewrite Z.mod_pow2_bits_high by lia. apply andb_false_r.
Qed.

(** Linear arithmetic with division by constants. *)
Ltac dlia := Z.to_euclidean_division_equations; lia.

(** * Floating-point numbers *)

(** The fields of a binary floating-point number with [p] bits of fraction and [e]
    bits of exponent. *)
Definition sign_of (p e x : Z) : Z := x / 2 ^ (p + e).
Definition exponent_of (p e x : Z) : Z := x / 2 ^ p mod 2 ^ e.
Definition fraction_of (p x : Z) : Z := x mod 2 ^ p.

(** The number is the significand times two to the exponent less [bias + p]. *)
Definition significand (p e x : Z) : Z :=
  if exponent_of p e x =? 0 then fraction_of p x else 2 ^ p + fraction_of p x.

(** [n / 2 ^ k], rounded to the nearest, ties to even. *)
Definition round_half_even (n k : Z) : Z :=
  if k <=? 0 then n * 2 ^ (- k) else
  let q := n / 2 ^ k in
  let r := n mod 2 ^ k in
  if (2 ^ (k - 1) <? r) || ((r =? 2 ^ (k - 1)) && Z.odd q) then q + 1 else q.

Lemma round_exact m k : 0 < k → round_half_even (m * 2 ^ k) k = m.
Proof.
  intros Hk. unfold round_half_even. destruct (Z.leb_spec k 0); [lia|].
  pose proof (Z.pow_pos_nonneg 2 k ltac:(lia) ltac:(lia)).
  pose proof (Z.pow_pos_nonneg 2 (k - 1) ltac:(lia) ltac:(lia)).
  rewrite Z.div_mul, Z.mod_mul by lia. destruct (Z.ltb_spec (2 ^ (k - 1)) 0); [lia|].
  destruct (Z.eqb_spec 0 (2 ^ (k - 1))); [lia|done].
Qed.
