(* ===== verification/Buffer.v ===== *)
(** Dynamic byte buffers: [kernel/buffer/src/buffer.c].

    A buffer is its four fields; [b_data] is the block of [b_capacity] bytes
    the C field [data] points to.  [NULL] arguments and results are [None].
    Operations that change a buffer return it.  The theorems give the
    functional behaviour of every operation from any well-formed buffer, its
    allocation balance, and the inputs on which [ak_buffer_split] writes past
    its blocks. *)

From S2P Require Import Prelude.

Definition MIN_BUFFER_SIZE : Z := 16.
Definition sizeof_ak_buffer_t : Z := 32.

Record ak_buffer_t := mk_buffer {
  b_data : list Z;
  b_capacity : Z;
  b_count : Z;
  b_origin_offset : Z;
}.

Record split_buffer_t := mk_split {
  split_left : option ak_buffer_t;
  split_right : option ak_buffer_t;
}.

Section buffer.
Context `{Allocator}.

Definition ak_buffer_new (initial_size : Z) : M (option ak_buffer_t) :=
  buffer ← alloc_obj sizeof_ak_buffer_t;
  if negb buffer then mret None else
  let initial_size :=
    if initial_size <? MIN_BUFFER_SIZE then MIN_BUFFER_SIZE else initial_size in
  data ← alloc_bytes initial_size;
  match data with
  | None => free_obj;; mret None
  | Some data => mret (Some (mk_buffer data initial_size 0 0))
  end.

Definition ak_buffer_free (buffer : option ak_buffer_t) : M () :=
  match buffer with
  | None => mret ()
  | Some _ => free_obj;; free_obj
  end.

(** [fread] puts the first [file_size] bytes the file delivers into the
    block; a read error or a short read discards the buffer. *)
Definition ak_buffer_from_file (filepath : bool) (file : file_io)
    : M (option ak_buffer_t) :=
  if negb filepath then mret None else
  if negb (io_fopen file) then mret None else
  if negb (io_seek_end file =? 0) then mret None else
  let file_size := io_ftell file in
  if file_size <? 0 then mret None else
  if negb (io_seek_set file =? 0) then mret None else
  buffer ← ak_buffer_new (u64 file_size);
  match buffer with
  | None => mret None
  | Some b =>
      let got := take (Z.to_nat file_size) (io_bytes file) in
      let bytes_read := zlen got in
      read ← (if 0 <? file_size then
                data ← lift (blit (b_data b) 0 got 0 bytes_read);
                if io_ferror file then mret None
                else if negb (bytes_read =? u64 file_size) then mret None
                else mret (Some (mk_buffer data (b_capacity b) bytes_read
                                   (b_origin_offset b)))
              else mret (Some b));
      match read with
      | None => ak_buffer_free buffer;; mret None
      | Some b =>
          if negb (io_fclose file =? 0)
          then ak_buffer_free (Some b);; mret None
          else mret (Some b)
      end
  end.

(** The doubling loop of [ak_buffer_copy_to]; after 64 doublings a 64-bit
    value is 0 and stays 0, so 66 turns decide whether the loop ends. *)
Definition grow_capacity (capacity required : Z) : outcome Z :=
  loop 66 (λ new_capacity,
    if new_capacity <? required then Ret (inl (u64 (new_capacity * 2)))
    else Ret (inr new_capacity)) capacity.

Definition ak_buffer_copy_to (buffer : option ak_buffer_t)
    (src : option (list Z)) (len : Z) : M (Z * option ak_buffer_t) :=
  match buffer, src with
  | Some b, Some src =>
      if len =? 0 then mret (0, Some b) else
      let required := u64 (b_count b + len) in
      grown ← (if b_capacity b <? required then
                 new_capacity ← lift (grow_capacity (b_capacity b) required);
                 new_data ← realloc_bytes (b_data b) new_capacity;
                 match new_data with
                 | None => mret None
                 | Some new_data =>
                     mret (Some (mk_buffer new_data new_capacity (b_count b)
                                   (b_origin_offset b)))
                 end
               else mret (Some b));
      match grown with
      | None => mret (-1, Some b)
      | Some b =>
          data ← lift (blit (b_data b) (b_count b) src 0 len);
          mret (0, Some (mk_buffer data (b_capacity b) (u64 (b_count b + len))
                           (b_origin_offset b)))
      end
  | _, _ => mret (-1, buffer)
  end.

Definition ak_buffer_count (buffer : option ak_buffer_t) : Z :=
  match buffer with None => 0 | Some b => b_count b end.

Definition ak_buffer_data (buffer : option ak_buffer_t) : option (list Z) :=
  match buffer with None => None | Some b => Some (b_data b) end.

Definition ak_buffer_clear (buffer : option ak_buffer_t) : option ak_buffer_t :=
  match buffer with
  | None => None
  | Some b => Some (mk_buffer (b_data b) (b_capacity b) 0 (b_origin_offset b))
  end.

Definition ak_buffer_shrink_to_fit (buffer : option ak_buffer_t)
    : M (Z * option ak_buffer_t) :=
  match buffer with
  | None => mret (-1, None)
  | Some b =>
      if b_count b =? 0 then mret (0, Some b) else
      if b_capacity b <=? b_count b then mret (0, Some b) else
      new_data ← realloc_bytes (b_data b) (b_count b);
      match new_data with
      | None => mret (-1, Some b)
      | Some new_data =>
          mret (0, Some (mk_buffer new_data (b_count b) (b_count b)
                           (b_origin_offset b)))
      end
  end.

(** The callback gets the byte it may overwrite, its index and the caller's
    data; it answers its [int] result with the new byte and data.  A result
    other than 0 and 1 is added to the index as a [size_t]. *)
Definition ak_buffer_for_each {D : Type} (fuel : nat) (buffer : ak_buffer_t)
    (fn : Z → Z → D → Z * Z * D) (callback_data : D)
    : outcome (ak_buffer_t * D) :=
  loop fuel (λ '(data, idx, cd),
    if idx <? b_count buffer then
      byte ← rd data idx;
      let '(result, byte', cd') := fn byte idx cd in
      data' ← wr data idx byte';
      if result =? 0 then
        Ret (inr (mk_buffer data' (b_capacity buffer) (b_count buffer)
                    (b_origin_offset buffer), cd'))
      else if result =? 1 then Ret (inl (data', u64 (idx + 1), cd'))
      else Ret (inl (data', u64 (idx + result), cd'))
    else Ret (inr (mk_buffer data (b_capacity buffer) (b_count buffer)
                     (b_origin_offset buffer), cd)))
    (b_data buffer, 0, callback_data).

(** Returns the new buffer and the value stored through [bytes_copied]. *)
Definition ak_buffer_sub_buffer (buffer : option ak_buffer_t)
    (offset length : Z) : M (option ak_buffer_t * Z) :=
  match buffer with
  | None => mret (None, 0)
  | Some b =>
      if b_count b <=? offset then mret (None, 0) else
      let available := u64 (b_count b - offset) in
      let actual_length := if available <? length then available else length in
      if actual_length =? 0 then
        sub ← ak_buffer_new MIN_BUFFER_SIZE;
        match sub with
        | None => mret (None, 0)
        | Some s =>
            mret (Some (mk_buffer (b_data s) (b_capacity s) (b_count s)
                          (u64 (b_origin_offset b + offset))), 0)
        end
      else
        sub ← ak_buffer_new actual_length;
        match sub with
        | None => mret (None, 0)
        | Some s =>
            data ← lift (blit (b_data s) 0 (b_data b) offset actual_length);
            mret (Some (mk_buffer data (b_capacity s) actual_length
                          (u64 (b_origin_offset b + offset))),
                  i32 actual_length)
        end
  end.

Definition ak_buffer_rotate_left (buffer : option ak_buffer_t) (n : Z)
    : M (option ak_buffer_t) :=
  match buffer with
  | None => mret None
  | Some b =>
      if (b_count b =? 0) || (n =? 0) then mret (Some b) else
      let n := n mod b_count b in
      if n =? 0 then mret (Some b) else
      temp ← alloc_bytes n;
      match temp with
      | None => mret (Some b)
      | Some temp =>
          temp ← lift (blit temp 0 (b_data b) 0 n);
          data ← lift (blit (b_data b) 0 (b_data b) n (b_count b - n));
          data ← lift (blit data (b_count b - n) temp 0 n);
          free_obj;;
          mret (Some (mk_buffer data (b_capacity b) (b_count b)
                        (b_origin_offset b)))
      end
  end.

Definition ak_buffer_rotate_right (buffer : option ak_buffer_t) (n : Z)
    : M (option ak_buffer_t) :=
  match buffer with
  | None => mret None
  | Some b =>
      if (b_count b =? 0) || (n =? 0) then mret (Some b) else
      let n := n mod b_count b in
      if n =? 0 then mret (Some b) else
      temp ← alloc_bytes n;
      match temp with
      | None => mret (Some b)
      | Some temp =>
          temp ← lift (blit temp 0 (b_data b) (b_count b - n) n);
          data ← lift (blit (b_data b) n (b_data b) 0 (b_count b - n));
          data ← lift (blit data 0 temp 0 n);
          free_obj;;
          mret (Some (mk_buffer data (b_capacity b) (b_count b)
                        (b_origin_offset b)))
      end
  end.

(** The scan of [ak_buffer_trim_left]: at most [count] turns continue. *)
Definition trim_left_count (b : ak_buffer_t) (byte : Z) : outcome Z :=
  loop (S (length (b_data b))) (λ trim_count,
    if trim_count <? b_count b then
      x ← rd (b_data b) trim_count;
      if x =? byte then Ret (inl (trim_count + 1)) else Ret (inr trim_count)
    else Ret (inr trim_count)) 0.

Definition ak_buffer_trim_left (buffer : option ak_buffer_t) (byte : Z)
    : M (Z * option ak_buffer_t) :=
  match buffer with
  | None => mret (-1, None)
  | Some b =>
      if b_count b =? 0 then mret (0, Some b) else
      trim_count ← lift (trim_left_count b byte);
      if trim_count =? 0 then mret (0, Some b) else
      if trim_count =? b_count b then
        ak_buffer_shrink_to_fit
          (Some (mk_buffer (b_data b) (b_capacity b) 0 (b_origin_offset b)))
      else
        data ← lift (blit (b_data b) 0 (b_data b) trim_count
                       (b_count b - trim_count));
        ak_buffer_shrink_to_fit
          (Some (mk_buffer data (b_capacity b) (b_count b - trim_count)
                   (b_origin_offset b)))
  end.

Definition trim_right_count (b : ak_buffer_t) (byte : Z) : outcome Z :=
  loop (S (length (b_data b))) (λ trim_count,
    if trim_count <? b_count b then
      x ← rd (b_data b) (b_count b - 1 - trim_count);
      if x =? byte then Ret (inl (trim_count + 1)) else Ret (inr trim_count)
    else Ret (inr trim_count)) 0.

Definition ak_buffer_trim_right (buffer : option ak_buffer_t) (byte : Z)
    : M (Z * option ak_buffer_t) :=
  match buffer with
  | None => mret (-1, None)
  | Some b =>
      if b_count b =? 0 then mret (0, Some b) else
      trim_count ← lift (trim_right_count b byte);
      if trim_count =? 0 then mret (0, Some b) else
      ak_buffer_shrink_to_fit
        (Some (mk_buffer (b_data b) (b_capacity b) (b_count b - trim_count)
                 (b_origin_offset b)))
  end.

Definition ak_buffer_copy (buffer : option ak_buffer_t)
    : M (option ak_buffer_t) :=
  match buffer with
  | None => mret None
  | Some b =>
      copy ← ak_buffer_new (b_capacity b);
      match copy with
      | None => mret None
      | Some c =>
          if 0 <? b_count b then
            data ← lift (blit (b_data c) 0 (b_data b) 0 (b_count b));
            mret (Some (mk_buffer data (b_capacity c) (b_count b)
                          (b_origin_offset b)))
          else mret (Some (mk_buffer (b_data c) (b_capacity c) (b_count c)
                             (b_origin_offset b)))
      end
  end.

(** The capacity [ak_buffer_split] asks for one side. *)
Definition split_capacity (content_size limit : Z) : Z :=
  let capacity := if content_size <? limit then content_size else limit in
  if (capacity <? MIN_BUFFER_SIZE) && (0 <? content_size) then MIN_BUFFER_SIZE
  else if (capacity =? 0) && (content_size =? 0) then MIN_BUFFER_SIZE
  else capacity.

(** Copies [n] bytes of [src] at [off] to the start of a fresh side. *)
Definition split_fill (side : ak_buffer_t) (src : list Z) (off n : Z)
    : outcome ak_buffer_t :=
  if 0 <? n then
    data ← blit (b_data side) 0 src off n;
    Ret (mk_buffer data (b_capacity side) n (b_origin_offset side))
  else Ret side.

Definition ak_buffer_split (buffer : option ak_buffer_t) (index l r : Z)
    : M split_buffer_t :=
  match buffer with
  | None => mret (mk_split None None)
  | Some b =>
      if b_count b <? index then mret (mk_split None None) else
      let left_content_size := index in
      let right_content_size := b_count b - index in
      new_left ← ak_buffer_new (split_capacity left_content_size l);
      match new_left with
      | None => mret (mk_split None None)
      | Some lbuf =>
          new_right ← ak_buffer_new (split_capacity right_content_size r);
          match new_right with
          | None => ak_buffer_free (Some lbuf);; mret (mk_split None None)
          | Some rbuf =>
              lbuf ← lift (split_fill lbuf (b_data b) 0 left_content_size);
              rbuf ← lift (split_fill rbuf (b_data b) index right_content_size);
              mret (mk_split (Some lbuf) (Some rbuf))
          end
      end
  end.

Definition ak_split_buffer_free (split : option split_buffer_t)
    : M (option split_buffer_t) :=
  match split with
  | None => mret None
  | Some s =>
      ak_buffer_free (split_left s);;
      ak_buffer_free (split_right s);;
      mret (Some (mk_split None None))
  end.
End buffer.

(** * Well-formed buffers and their contents *)

Record buffer_wf (b : ak_buffer_t) : Prop := {
  wf_block : zlen (b_data b) = b_capacity b;
  wf_count : 0 <= b_count b <= b_capacity b;
  wf_cap : 1 <= b_capacity b < 2 ^ 63;
  wf_bytes : Forall is_byte (b_data b);
  wf_origin : is_size (b_origin_offset b);
}.

Definition contents (b : ak_buffer_t) : list Z :=
  take (Z.to_nat (b_count b)) (b_data b).

(** The bytes left when the leading (trailing) occurrences of [byte] go. *)
Fixpoint drop_while (byte : Z) (l : list Z) : list Z :=
  match l with
  | [] => []
  | x :: l' => if x =? byte then drop_while byte l' else l
  end.

Definition drop_while_end (byte : Z) (l : list Z) : list Z :=
  reverse (drop_while byte (reverse l)).

(** The blocks an optional buffer owns: its struct and its data. *)
Definition owned (ob : option ak_buffer_t) : Z :=
  match ob with None => 0 | Some _ => 2 end.

Lemma length_contents b : buffer_wf b → zlen (contents b) = b_count b.
Proof. intros []. unfold contents. rewrite zlen_take; lia. Qed.

Lemma contents_byte b : buffer_wf b → Forall is_byte (contents b).
Proof. intros []. by apply Forall_take. Qed.

Section proofs.
Context `{Allocator}.

Lemma wp_buffer_new size Q s :
  0 <= size < 2 ^ 63 →
  (∀ s', balance 0 true s s' → Q None s') →
  (∀ d s', balance 2 false s s' → zlen d = Z.max 16 size → Forall is_byte d →
     Q (Some (mk_buffer d (Z.max 16 size) 0 0)) s') →
  wp (ak_buffer_new size) Q s.
Proof.
  intros Hs HN HS. unfold ak_buffer_new. wsteps. apply wp_alloc_obj. intros [] s1 H1; simpl.
  2:{ wsteps. apply HN. balance. }
  assert ((if size <? MIN_BUFFER_SIZE then MIN_BUFFER_SIZE else size) = Z.max 16 size) as ->.
  { unfold MIN_BUFFER_SIZE. zcase; lia. }
  wsteps. apply wp_alloc_bytes; [lia| |].
  - intros s2 H2. wsteps. apply wp_free_obj. intros s3 H3 H3'. wsteps. apply HN. balance.
  - intros d s2 H2 Hd Hb. wsteps. apply HS; [balance|done|done].
Qed.

Lemma wp_buffer_free b Q s :
  (∀ s', balance (-2) false s s' → Q () s') → wp (ak_buffer_free (Some b)) Q s.
Proof.
  intros HQ. unfold ak_buffer_free. wsteps. apply wp_free_obj. intros s1 H1 F1.
  apply wp_free_obj. intros s2 H2 F2. apply HQ. balance.
Qed.

Lemma grow_capacity_ok cap required :
  1 <= cap → required <= 2 ^ 62 → cap < 2 ^ 63 →
  wpo (grow_capacity cap required) (λ c,
    required <= c < 2 ^ 63 ∧ cap <= c ∧ (c = cap ∨ c < 2 * required)).
Proof.
  intros Hc Hr Hcap. unfold grow_capacity.
  apply (loop_wpo (λ c, 1 <= c < 2 ^ 63 ∧ cap <= c ∧ (c = cap ∨ c < 2 * required))
           (λ c, Z.to_nat (63 - Z.log2 c))); [lia| |].
  - pose proof (Z.log2_nonneg cap). lia.
  - intros c (H1 & H2 & H3). zcase; [|lia].
    assert (c < 2 ^ 62) as Hc62 by lia.
    rewrite u64_small by lia. split; [lia|].
    replace (c * 2) with (2 * c) by lia. rewrite Z.log2_double by lia.
    assert (Z.log2 c < 62) by (apply Z.log2_lt_pow2; lia). lia.
Qed.

(** [ak_buffer_copy_to] appends; it fails only when the block has to grow. *)
Lemma copy_to_ok b src len s :
  buffer_wf b → Forall is_byte src → 0 <= len <= zlen src →
  b_count b + len <= 2 ^ 62 →
  wp (ak_buffer_copy_to (Some b) (Some src) len) (λ '(rc, ob) s', ∃ b',
    ob = Some b' ∧ buffer_wf b' ∧
    ((rc = 0 ∧ balance 0 false s s'
      ∧ contents b' = contents b ++ take (Z.to_nat len) src
      ∧ b_origin_offset b' = b_origin_offset b
      ∧ (b_capacity b' = b_capacity b ∨ b_capacity b' < 2 * (b_count b + len)))
     ∨ (rc = -1 ∧ balance 0 true s s' ∧ b' = b ∧ b_capacity b < b_count b + len))) s.
Proof.
  intros Hwf Hsrc Hlen Hmax. pose proof Hwf as [Hblk Hcnt Hcap Hby Horg].
  unfold ak_buffer_copy_to. destruct (Z.eqb_spec len 0) as [->|Hnz].
  { wsteps. exists b. split_and!; [done..|]. left.
    split_and!; [done|apply balance_refl|by rewrite app_nil_r|done|by left]. }
  rewrite u64_small by lia.
  assert (∀ d c s', buffer_wf (mk_buffer d c (b_count b) (b_origin_offset b)) →
    b_count b + len <= c → (c = b_capacity b ∨ c < 2 * (b_count b + len)) →
    take (Z.to_nat (b_count b)) d = contents b → balance 0 false s s' →
    wpo (blit d (b_count b) src 0 len) (λ d', ∃ b',
      Some (mk_buffer d' c (u64 (b_count b + len)) (b_origin_offset b)) = Some b'
      ∧ buffer_wf b' ∧
      ((0 = 0 ∧ balance 0 false s s'
        ∧ contents b' = contents b ++ take (Z.to_nat len) src
        ∧ b_origin_offset b' = b_origin_offset b
        ∧ (b_capacity b' = b_capacity b ∨ b_capacity b' < 2 * (b_count b + len)))
       ∨ (0 = -1 ∧ balance 0 true s s' ∧ b' = b ∧ b_capacity b < b_count b + len)))) as Hcopy.
  { intros d c s' [Hd ? ? Hdb ?] Hc Hgrow Htake Hbal; simpl in *.
    apply blit_wpo; [lia..|]. intros d' [Hl Hpre _ HF]. rewrite u64_small by lia.
    eexists; split; [done|]. split; [split; simpl; [lia|lia|lia|by apply HF|done]|].
    left. split_and!; [done|done| |done|done].
    unfold contents at 1; simpl. rewrite Hpre. by rewrite Htake. }
  wsteps. destruct (Z.ltb_spec (b_capacity b) (b_count b + len)) as [Hgt|Hle].
  - wsteps. eapply wpo_mono; [apply grow_capacity_ok; lia|]. intros c (Hc1 & Hc2 & Hc3).
    wsteps. apply wp_realloc_bytes; [lia|done| |].
    + intros s' HL HF. wsteps. exists b. split_and!; [done..|]. right.
      split_and!; [done| |done|done]. balance.
    + intros d s' HL HF Hd Hdb Htake. wsteps. simpl.
      apply Hcopy; [split; simpl; [done|lia|lia|done|done]|lia|lia| |balance].
      by apply Htake; lia.
  - wsteps. apply Hcopy; [by destruct b|lia|by left|done|apply balance_refl].
Qed.

Lemma buffer_wf_update b d n :
  buffer_wf b → zlen d = zlen (b_data b) → Forall is_byte d →
  0 <= n <= b_capacity b →
  buffer_wf (mk_buffer d (b_capacity b) n (b_origin_offset b)).
Proof. intros [] ???. split; simpl; auto with lia. Qed.

(** A whole-block copy. *)
Lemma blitted_full (t src t' : list Z) off n :
  zlen t = n → 0 <= n → blitted t 0 src off n t' →
  t' = take (Z.to_nat n) (drop (Z.to_nat off) src).
Proof.
  intros Ht Hn [L P _ _]. rewrite Z.add_0_l in P.
  rewrite take_ge in P by (unfold zlen in *; lia). by rewrite P.
Qed.

Lemma rotate_left_blocks (d t d1 d2 : list Z) n c :
  0 <= n <= c → c <= zlen d → zlen t = n →
  blitted d 0 d n (c - n) d1 → blitted d1 (c - n) t 0 n d2 →
  take (Z.to_nat c) d2 = drop (Z.to_nat n) (take (Z.to_nat c) d) ++ t.
Proof.
  intros Hn Hc Ht [L1 P1 _ _] [L2 P2 _ _].
  replace (c - n + n) with c in P2 by lia. rewrite P2. f_equal.
  - rewrite Z.add_0_l in P1. rewrite P1. simpl. rewrite skipn_firstn_comm. f_equal. lia.
  - simpl. rewrite ?drop_0. apply take_ge. unfold zlen in *. lia.
Qed.

Lemma rotate_right_blocks (d t d1 d2 : list Z) n c :
  0 <= n <= c → c <= zlen d → zlen t = n →
  blitted d n d 0 (c - n) d1 → blitted d1 0 t 0 n d2 →
  take (Z.to_nat c) d2 = t ++ take (Z.to_nat (c - n)) (take (Z.to_nat c) d).
Proof.
  intros Hn Hc Ht [L1 P1 _ _] [L2 P2 Q2 _].
  replace (n + (c - n)) with c in P1 by lia. rewrite Z.add_0_l in P2, Q2.
  rewrite (take_ge (drop _ t) (Z.to_nat n)) in P2
    by (rewrite length_drop; unfold zlen in *; lia).
  rewrite <- (take_drop (Z.to_nat n) (take (Z.to_nat c) d2)).
  rewrite take_take, Nat.min_l by lia. rewrite P2. simpl. f_equal.
  rewrite skipn_firstn_comm, Q2, <- skipn_firstn_comm, P1. simpl.
  rewrite drop_app_length' by (rewrite length_take; unfold zlen in *; lia).
  rewrite drop_0, take_take. f_equal. lia.
Qed.

(** What a rotation may answer: the rotated buffer, or after a failed
    allocation the buffer it was given. *)
Definition rotated (b : ak_buffer_t) (k : Z) (s : mem)
    (ob : option ak_buffer_t) (s' : mem) : Prop :=
  ∃ b', ob = Some b' ∧ buffer_wf b' ∧ b_count b' = b_count b ∧
    ((balance 0 false s s' ∧
      contents b' = drop (Z.to_nat k) (contents b) ++ take (Z.to_nat k) (contents b))
     ∨ (balance 0 true s s' ∧ b' = b)).

Lemma rotated_same b s k :
  buffer_wf b → k = 0 ∨ k = b_count b → rotated b k s (Some b) s.
Proof.
  intros Hwf Hk. pose proof (length_contents b Hwf). destruct Hwf.
  exists b. split_and!; [done..|]. left. split; [apply balance_refl|].
  destruct Hk as [-> | ->]; [by rewrite app_nil_r|].
  rewrite drop_ge, take_ge by (unfold zlen in *; lia). done.
Qed.

Lemma wp_rotate_left b n s :
  buffer_wf b → 0 <= n → 0 < b_count b →
  wp (ak_buffer_rotate_left (Some b) n) (rotated b (n mod b_count b) s) s.
Proof.
  intros Hwf Hn Hpos. pose proof Hwf as [Hblk Hcnt Hcap Hby Horg].
  pose proof (Z.mod_pos_bound n (b_count b) Hpos) as Hk.
  unfold ak_buffer_rotate_left.
  rewrite (proj2 (Z.eqb_neq (b_count b) 0)) by lia. simpl.
  destruct (Z.eqb_spec n 0) as [->|Hn0]; [apply rotated_same; auto|].
  set (k := n mod b_count b) in *.
  destruct (Z.eqb_spec k 0) as [Hkz|Hkz]; [apply rotated_same; auto|].
  wsteps. apply wp_alloc_bytes; [lia| |].
  { intros s' []. exists b. split_and!; [done..|]. right. split; [split; lia|done]. }
  intros t s1 [] Ht Htb. wsteps. apply blit_wpo; [lia..|]. intros t' Bt. wsteps.
  pose proof (blit_len _ _ _ _ _ _ Bt) as Lt.
  apply blit_wpo; [lia..|]. intros d1 B1. wsteps.
  pose proof (blit_len _ _ _ _ _ _ B1) as L1.
  apply blit_wpo; [lia..|]. intros d2 B2. wsteps.
  pose proof (blit_len _ _ _ _ _ _ B2) as L2.
  apply wp_free_obj. intros s2 HL HF. eexists. split; [done|].
  split; [apply buffer_wf_update; [done|lia| |lia]|split; [done|left]].
  { apply (blit_Forall _ _ _ _ _ _ B2); [by apply (blit_Forall _ _ _ _ _ _ B1)|].
    by apply (blit_Forall _ _ _ _ _ _ Bt). }
  split; [split; simpl in *; lia|]. unfold contents; simpl.
  rewrite (rotate_left_blocks (b_data b) t' d1 d2 k (b_count b) ltac:(lia) ltac:(lia) ltac:(lia) B1 B2).
  f_equal. rewrite (blitted_full _ _ _ _ _ Ht ltac:(lia) Bt), take_take.
  simpl. rewrite drop_0. f_equal. lia.
Qed.

Lemma wp_rotate_right b n s :
  buffer_wf b → 0 <= n → 0 < b_count b →
  wp (ak_buffer_rotate_right (Some b) n)
    (rotated b (b_count b - n mod b_count b) s) s.
Proof.
  intros Hwf Hn Hpos. pose proof Hwf as [Hblk Hcnt Hcap Hby Horg].
  pose proof (Z.mod_pos_bound n (b_count b) Hpos) as Hk.
  unfold ak_buffer_rotate_right.
  rewrite (proj2 (Z.eqb_neq (b_count b) 0)) by lia. simpl.
  destruct (Z.eqb_spec n 0) as [->|Hn0].
  { apply rotated_same; [done|right]. rewrite Z.mod_0_l; lia. }
  set (k := n mod b_count b) in *.
  destruct (Z.eqb_spec k 0) as [Hkz|Hkz]; [apply rotated_same; auto with lia|].
  wsteps. apply wp_alloc_bytes; [lia| |].
  { intros s' []. exists b. split_and!; [done..|]. right. split; [split; lia|done]. }
  intros t s1 [] Ht Htb. wsteps. apply blit_wpo; [lia..|]. intros t' Bt. wsteps.
  pose proof (blit_len _ _ _ _ _ _ Bt) as Lt.
  apply blit_wpo; [lia..|]. intros d1 B1. wsteps.
  pose proof (blit_len _ _ _ _ _ _ B1) as L1.
  apply blit_wpo; [lia..|]. intros d2 B2. wsteps.
  pose proof (blit_len _ _ _ _ _ _ B2) as L2.
  apply wp_free_obj. intros s2 HL HF. eexists. split; [done|].
  split; [apply buffer_wf_update; [done|lia| |lia]|split; [done|left]].
  { apply (blit_Forall _ _ _ _ _ _ B2); [by apply (blit_Forall _ _ _ _ _ _ B1)|].
    by apply (blit_Forall _ _ _ _ _ _ Bt). }
  split; [split; simpl in *; lia|]. unfold contents; simpl.
  rewrite (rotate_right_blocks (b_data b) t' d1 d2 k (b_count b) ltac:(lia) ltac:(lia) ltac:(lia) B1 B2).
  f_equal. rewrite (blitted_full _ _ _ _ _ Ht ltac:(lia) Bt), skipn_firstn_comm.
  f_equal. lia.
Qed.

(** Rotating left by [n] and then right by [n] gives back the bytes, and
    the left rotation moves the first [n mod count] bytes to the end; when an
    allocation fails the buffer is well formed with the same count. *)
Theorem ak_buffer_rotate_roundtrip b n s :
  buffer_wf b → 0 <= n → 0 < b_count b →
  wp (ob ← ak_buffer_rotate_left (Some b) n;
      ob' ← ak_buffer_rotate_right ob n; mret (ob, ob'))
    (λ '(ob, ob') s', ∃ b1 b2, ob = Some b1 ∧ ob' = Some b2 ∧ buffer_wf b2 ∧
       b_count b2 = b_count b ∧ m_live s' = m_live s ∧
       (m_fails s' = m_fails s →
          contents b1 = drop (Z.to_nat (n mod b_count b)) (contents b)
                          ++ take (Z.to_nat (n mod b_count b)) (contents b)
          ∧ contents b2 = contents b)) s.
Proof.
  intros Hwf Hn Hpos. pose proof (Z.mod_pos_bound n (b_count b) Hpos) as Hk.
  wsteps. eapply wp_mono; [by apply wp_rotate_left|].
  intros ob s1 (b1 & -> & Hwf1 & Hc1 & Hr1). wsteps.
  eapply wp_mono; [apply wp_rotate_right; [done|done|lia]|].
  intros ob s2 (b2 & -> & Hwf2 & Hc2 & Hr2). rewrite Hc1 in *.
  exists b1, b2. split_and!; [done..| |].
  { destruct Hr1 as [[[]]|[[]]], Hr2 as [[[]]|[[]]]; lia. }
  intros HF. destruct Hr1 as [[[_ F1] E1]|[[_ F1] _]];
    [|destruct Hr2 as [[[]]|[[]]]; lia].
  destruct Hr2 as [[[_ F2] E2]|[[_ F2] _]]; [|lia]. split; [done|].
  pose proof (length_contents b Hwf). rewrite E2, E1.
  rewrite drop_app_length', take_app_length'
    by (rewrite length_drop; unfold zlen in *; lia).
  apply take_drop.
Qed.

(** What [ak_buffer_shrink_to_fit] may answer. *)
Definition shrunk (b : ak_buffer_t) (s : mem) (r : Z * option ak_buffer_t)
    (s' : mem) : Prop :=
  ∃ b', r.2 = Some b' ∧ buffer_wf b' ∧ contents b' = contents b
    ∧ b_origin_offset b' = b_origin_offset b
    ∧ ((r.1 = 0 ∧ balance 0 false s s'
        ∧ (0 < b_count b → b_capacity b' = b_count b))
       ∨ (r.1 = -1 ∧ balance 0 true s s' ∧ b' = b)).

Lemma wp_shrink_to_fit b s :
  buffer_wf b → wp (ak_buffer_shrink_to_fit (Some b)) (shrunk b s) s.
Proof.
  intros Hwf. pose proof Hwf as [Hblk Hcnt Hcap Hby Horg].
  unfold ak_buffer_shrink_to_fit. destruct (Z.eqb_spec (b_count b) 0).
  { exists b. split_and!; [done..|]. left. split_and!; [done|apply balance_refl|lia]. }
  destruct (Z.leb_spec (b_capacity b) (b_count b)).
  { exists b. split_and!; [done..|]. left. split_and!; [done|apply balance_refl|lia]. }
  wsteps. apply wp_realloc_bytes; [lia|done| |].
  - intros s' HL HF. exists b. split_and!; [done..|]. right. split_and!; [done|balance|done].
  - intros d s' HL HF Hd Hdb Htake. eexists. split; [done|].
    split; [split; simpl; auto with lia|]. split_and!; [|done|].
    + unfold contents; simpl. apply Htake; lia.
    + left. split_and!; [done|balance|done].
Qed.

Lemma drop_while_split byte k l :
  Forall (λ x, x = byte) (take k l) → (∀ x, l !! k = Some x → x ≠ byte) →
  drop_while byte l = drop k l.
Proof.
  revert k. induction l as [|x l IH]; intros [|k] HF Hk; simpl in *; try done.
  - rewrite (proj2 (Z.eqb_neq x byte)); [done|]. by apply Hk.
  - inversion HF; subst. rewrite Z.eqb_refl. by apply IH.
Qed.

Lemma trim_left_count_spec b byte :
  buffer_wf b →
  wpo (trim_left_count b byte) (λ k, 0 <= k <= b_count b
    ∧ drop_while byte (contents b) = drop (Z.to_nat k) (contents b)).
Proof.
  intros Hwf. pose proof (length_contents b Hwf) as Hlc. destruct Hwf.
  apply (loop_wpo (λ t, 0 <= t <= b_count b
      ∧ Forall (λ x, x = byte) (take (Z.to_nat t) (contents b)))
    (λ t, Z.to_nat (b_count b - t))); [split; [lia|constructor]|unfold zlen in *; lia|].
  intros t [Ht HF]. destruct (Z.ltb_spec t (b_count b)).
  - wsteps. apply rd_wpo; [lia|]. intros x Hx.
    assert (contents b !! Z.to_nat t = Some x) as Hxc.
    { unfold contents. rewrite lookup_take_lt by lia. done. }
    destruct (Z.eqb_spec x byte) as [->|Hne]; simpl.
    + split; [|lia]. split; [lia|]. replace (Z.to_nat (t + 1)) with (S (Z.to_nat t)) by lia.
      erewrite take_S_r by done. apply Forall_app. auto.
    + split; [lia|]. apply drop_while_split; [done|]. intros y Hy. congruence.
  - simpl. split; [lia|]. apply drop_while_split; [done|]. intros y Hy.
    apply lookup_lt_Some in Hy. unfold zlen in *. lia.
Qed.

Lemma trim_right_count_spec b byte :
  buffer_wf b →
  wpo (trim_right_count b byte) (λ k, 0 <= k <= b_count b
    ∧ drop_while_end byte (contents b)
      = take (Z.to_nat (b_count b - k)) (contents b)).
Proof.
  intros Hwf. pose proof (length_contents b Hwf) as Hlc. destruct Hwf.
  assert (∀ k, 0 <= k <= b_count b →
    Forall (λ x, x = byte) (take (Z.to_nat k) (reverse (contents b))) →
    (∀ x, reverse (contents b) !! Z.to_nat k = Some x → x ≠ byte) →
    drop_while_end byte (contents b) = take (Z.to_nat (b_count b - k)) (contents b))
    as Hend.
  { intros k Hk HF Hx. unfold drop_while_end. erewrite drop_while_split by done.
    rewrite reverse_drop, reverse_involutive, length_reverse. f_equal.
    unfold zlen in *. lia. }
  apply (loop_wpo (λ t, 0 <= t <= b_count b
      ∧ Forall (λ x, x = byte) (take (Z.to_nat t) (reverse (contents b))))
    (λ t, Z.to_nat (b_count b - t))); [split; [lia|constructor]|unfold zlen in *; lia|].
  intros t [Ht HF]. destruct (Z.ltb_spec t (b_count b)).
  - wsteps. apply rd_wpo; [lia|]. intros x Hx.
    assert (reverse (contents b) !! Z.to_nat t = Some x) as Hxc.
    { unfold zlen in Hlc. apply reverse_lookup_Some. split; [|lia].
      apply lookup_take_Some. split; [|lia]. rewrite <- Hx. f_equal. lia. }
    destruct (Z.eqb_spec x byte) as [->|Hne]; simpl.
    + split; [|lia]. split; [lia|]. replace (Z.to_nat (t + 1)) with (S (Z.to_nat t)) by lia.
      erewrite take_S_r by done. apply Forall_app. auto.
    + split; [lia|]. apply Hend; [lia|done|]. intros y Hy. congruence.
  - simpl. split; [lia|]. apply Hend; [lia|done|]. intros y Hy.
    apply lookup_lt_Some in Hy. rewrite length_reverse in Hy. unfold zlen in *. lia.
Qed.

(** What a trim may answer: the bytes are trimmed in every case; the result
    is 0, or -1 after the failed reallocation of the shrink. *)
Definition trimmed (l : list Z) (b : ak_buffer_t) (s : mem)
    (r : Z * option ak_buffer_t) (s' : mem) : Prop :=
  ∃ b', r.2 = Some b' ∧ buffer_wf b' ∧ contents b' = l
    ∧ b_origin_offset b' = b_origin_offset b
    ∧ ((r.1 = 0 ∧ balance 0 false s s') ∨ (r.1 = -1 ∧ balance 0 true s s')).

Lemma shrunk_trimmed l b b1 s :
  buffer_wf b1 → contents b1 = l → b_origin_offset b1 = b_origin_offset b →
  wp (ak_buffer_shrink_to_fit (Some b1)) (trimmed l b s) s.
Proof.
  intros Hwf Hc Ho. eapply wp_mono; [by apply wp_shrink_to_fit|].
  intros [rc ob] s' (b' & ? & ? & ? & ? & Hr). exists b'. simpl in *.
  split_and!; [done|done|congruence|congruence|]. tauto.
Qed.

Lemma trimmed_same b s :
  buffer_wf b → trimmed (contents b) b s (0, Some b) s.
Proof.
  intros. exists b. split_and!; [done..|]. left. split; [done|apply balance_refl].
Qed.

(** The trims remove exactly the leading (trailing) occurrences of the
    byte, report 0 (not the number removed), and -1 only when shrinking the
    block failed. *)
Theorem ak_buffer_trim_spec b byte s :
  buffer_wf b →
  wp (ak_buffer_trim_left (Some b) byte)
     (trimmed (drop_while byte (contents b)) b s) s
  ∧ wp (ak_buffer_trim_right (Some b) byte)
     (trimmed (drop_while_end byte (contents b)) b s) s.
Proof.
  intros Hwf. pose proof (length_contents b Hwf) as Hlc. pose proof Hwf as [].
  split; unfold ak_buffer_trim_left, ak_buffer_trim_right.
  all: destruct (Z.eqb_spec (b_count b) 0) as [Hz|Hnz].
  1, 3: assert (contents b = []) as Hnil by (apply nil_length_inv; unfold zlen in *; lia);
    pose proof (trimmed_same b s Hwf) as HT; rewrite Hnil in *; apply HT.
  all: wsteps.
  - eapply wpo_mono; [by apply trim_left_count_spec|]. intros k [Hk ->]. cbv beta.
    destruct (Z.eqb_spec k 0) as [->|Hk0]; [by apply trimmed_same|].
    destruct (Z.eqb_spec k (b_count b)) as [->|Hkc].
    + apply shrunk_trimmed; [apply buffer_wf_update; auto with lia| |done].
      rewrite drop_ge by (unfold zlen in *; lia). done.
    + wsteps. apply blit_wpo; [lia..|]. intros d [L P _ F].
      apply shrunk_trimmed; [apply buffer_wf_update; auto with lia| |done].
      unfold contents at 1; simpl. rewrite Z.add_0_l in P. rewrite P. simpl.
      unfold contents. rewrite skipn_firstn_comm. f_equal. lia.
  - eapply wpo_mono; [by apply trim_right_count_spec|]. intros k [Hk ->]. cbv beta.
    destruct (Z.eqb_spec k 0) as [->|Hk0].
    + rewrite take_ge by (unfold zlen in *; lia). by apply trimmed_same.
    + apply shrunk_trimmed; [apply buffer_wf_update; auto with lia| |done].
      unfold contents; simpl. rewrite take_take. f_equal. lia.
Qed.

(** A sub-buffer holds the bytes of its range, clipped to the end, knows
    its offset in the original, and reports how many bytes it copied; a start
    outside the buffer gives no buffer. *)
Theorem ak_buffer_sub_buffer_spec b offset length s :
  buffer_wf b → is_size offset → 0 <= length →
  b_origin_offset b + offset < 2 ^ 64 →
  wp (ak_buffer_sub_buffer (Some b) offset length) (λ '(ob, copied) s',
    match ob with
    | Some b' =>
        offset < b_count b ∧ buffer_wf b' ∧ balance 2 false s s'
        ∧ contents b' = take (Z.to_nat length) (drop (Z.to_nat offset) (contents b))
        ∧ b_origin_offset b' = b_origin_offset b + offset
        ∧ copied = i32 (b_count b')
    | None =>
        copied = 0 ∧ ((b_count b <= offset ∧ balance 0 false s s')
                      ∨ (offset < b_count b ∧ balance 0 true s s'))
    end) s.
Proof.
  intros Hwf Hoff Hlen Horg. pose proof (length_contents b Hwf) as Hlc.
  pose proof Hwf as []. unfold is_size in *.
  unfold ak_buffer_sub_buffer, MIN_BUFFER_SIZE.
  destruct (Z.leb_spec (b_count b) offset).
  { wsteps. split; [done|]. left. split; [done|apply balance_refl]. }
  rewrite !u64_small by lia.
  set (n := if _ <? _ then _ else _).
  assert (n = Z.min length (b_count b - offset)) as Hn by (subst n; zcase; lia).
  destruct (Z.eqb_spec n 0) as [Hz|Hnz]; wsteps; apply wp_buffer_new.
  all: try lia.
  all: try (intros s' Hb; wsteps; split; [done|by right]).
  all: intros d s' Hb Hd Hdb.
  - simpl. split_and!; [done|split; simpl; auto; unfold is_size; lia|done| |done|done].
    unfold contents at 1; simpl. replace (Z.to_nat length) with 0%nat by lia. done.
  - wsteps. simpl. apply blit_wpo; [lia..|]. intros d' [L P _ F]. simpl.
    split_and!; [done|split; simpl; auto; unfold is_size; lia|done| |done|done].
    unfold contents at 1; simpl. rewrite Z.add_0_l in P. rewrite P. simpl.
    unfold contents. rewrite skipn_firstn_comm, take_take. f_equal. lia.
Qed.

(** A side of a split is filled as long as its block is large enough. *)
Lemma split_fill_ok d c src off n :
  buffer_wf (mk_buffer d c 0 0) → 0 <= off → 0 <= n <= c →
  off + n <= zlen src → Forall is_byte src →
  wpo (split_fill (mk_buffer d c 0 0) src off n) (λ b,
    buffer_wf b ∧ contents b = take (Z.to_nat n) (drop (Z.to_nat off) src)).
Proof.
  intros [Hd _ Hc Hb Ho] Hoff Hn Hs Hsb; simpl in *. unfold split_fill; simpl.
  destruct (Z.ltb_spec 0 n).
  - wsteps. apply blit_wpo; [lia..|]. intros d' [L P _ F].
    split; [split; simpl; auto; lia|]. unfold contents; simpl.
    rewrite Z.add_0_l in P. by rewrite P.
  - simpl. split; [split; simpl; auto; lia|].
    by replace (Z.to_nat n) with 0%nat by lia.
Qed.

Lemma split_capacity_enough n limit :
  0 <= n < 2 ^ 63 → n <= limit ∨ n <= 16 →
  n <= Z.max 16 (split_capacity n limit) ∧ 0 <= split_capacity n limit < 2 ^ 63
  ∨ limit < 0.
Proof. intros. unfold split_capacity, MIN_BUFFER_SIZE. repeat zcase; lia. Qed.

(** A split gives the bytes before and from the index, or after a failed
    allocation neither side and no leak, provided each side's limit covers
    its bytes (or these fit in the minimal block). *)
Theorem ak_buffer_split_spec b index l r s :
  buffer_wf b → 0 <= index <= b_count b → is_size l → is_size r →
  index <= Z.max 16 l → b_count b - index <= Z.max 16 r →
  wp (ak_buffer_split (Some b) index l r) (λ sp s',
    (∃ lb rb, sp = mk_split (Some lb) (Some rb) ∧ buffer_wf lb ∧ buffer_wf rb
       ∧ contents lb = take (Z.to_nat index) (contents b)
       ∧ contents rb = drop (Z.to_nat index) (contents b)
       ∧ balance 4 false s s')
    ∨ (sp = mk_split None None ∧ balance 0 true s s')) s.
Proof.
  intros Hwf Hi Hl Hr HL HR. pose proof Hwf as []. unfold is_size in *.
  pose proof (length_contents b Hwf) as Hlc.
  unfold ak_buffer_split. destruct (Z.ltb_spec (b_count b) index); [lia|].
  destruct (split_capacity_enough index l) as [[Lc Lr]|]; [lia..| |lia].
  destruct (split_capacity_enough (b_count b - index) r) as [[Rc Rr]|]; [lia..| |lia].
  wsteps. apply wp_buffer_new; [lia| |].
  { intros s' Hb. right. split; [done|balance]. }
  intros dl s1 B1 Hdl Hdlb. wsteps. apply wp_buffer_new; [lia| |].
  { intros s' Hb. wsteps. apply wp_buffer_free. intros s2 B2. right. split; [done|balance]. }
  intros dr s2 B2 Hdr Hdrb. wsteps.
  eapply wpo_mono; [apply split_fill_ok; [split; simpl; auto; unfold is_size; lia|lia..|done]|].
  intros lb [Hlb Hlbc]. wsteps.
  eapply wpo_mono; [apply split_fill_ok; [split; simpl; auto; unfold is_size; lia|lia..|done]|].
  intros rb [Hrb Hrbc]. left. exists lb, rb. split_and!; [done|done|done| | |balance].
  - rewrite Hlbc. unfold contents. rewrite drop_0, take_take. f_equal. lia.
  - rewrite Hrbc. unfold contents. rewrite skipn_firstn_comm. f_equal. lia.
Qed.

(** When the left part is longer than both [l] and the minimal block,
    [ak_buffer_split] copies it past the end of a block of [max 16 l] bytes
    (undefined behaviour), whenever the four allocations succeed. *)
Theorem ak_buffer_split_overflow b index l r s :
  buffer_wf b → (∀ n size, alloc_ok n size = true) →
  0 <= l → Z.max 16 l < index → index <= b_count b →
  0 <= r < 2 ^ 63 →
  ak_buffer_split (Some b) index l r s = Undef.
Proof.
  intros Hwf Hok Hl Hi Hc Hr. pose proof Hwf as [].
  assert (∀ size s, 0 <= size < 2 ^ 63 → ∃ d s', zlen d = Z.max 16 size ∧
    ak_buffer_new size s = Ret (Some (mk_buffer d (Z.max 16 size) 0 0), s')) as Hnew.
  { intros size s0 Hsz. pose proof (wp_buffer_new size (λ ob s',
      (∃ d, zlen d = Z.max 16 size ∧ ob = Some (mk_buffer d (Z.max 16 size) 0 0))
      ∨ (ob = None ∧ balance 0 true s0 s')) s0 Hsz) as Hw.
    assert (m_fails <$> (match ak_buffer_new size s0 with Ret (_, s') => Some s' | _ => None end)
            = Some (m_fails s0)) as Hnf.
    { unfold ak_buffer_new, alloc_bytes, alloc_obj, mbind, M_bind. rewrite Hok. simpl.
      rewrite Hok. done. }
    unfold wp in Hw. destruct (ak_buffer_new size s0) as [[ob s']| |].
    - destruct Hw as [(d & Hd & ->)|[_ [_ HF]]]; [by right|intros; left; eauto|eauto|].
      simpl in Hnf. injection Hnf. lia.
    - exfalso. apply Hw; [by right|intros; left; eauto].
    - exfalso. apply Hw; [by right|intros; left; eauto]. }
  assert (split_capacity index l <= Z.max 16 l ∧ 0 <= split_capacity index l) as [Hlc Hlc'].
  { unfold split_capacity, MIN_BUFFER_SIZE. repeat zcase; lia. }
  assert (0 <= split_capacity (b_count b - index) r < 2 ^ 63) as Hrc.
  { unfold split_capacity, MIN_BUFFER_SIZE. repeat zcase; lia. }
  destruct (Hnew (split_capacity index l) s) as (dl & s1 & Hdl & E1); [lia|].
  destruct (Hnew _ s1 Hrc) as (dr & s2 & Hdr & E2).
  unfold ak_buffer_split. rewrite (proj2 (Z.ltb_ge _ _) Hc).
  unfold mbind, M_bind. rewrite E1, E2. unfold split_fill, lift; simpl.
  rewrite (proj2 (Z.ltb_lt 0 index)) by lia. unfold blit.
  rewrite (proj2 (Z.leb_gt (0 + index) (zlen dl))) by lia.
  by rewrite andb_false_r, andb_false_l.
Qed.

(** A copy has the same bytes, offset and capacity in blocks of its own. *)
Lemma ak_buffer_copy_spec b s :
  buffer_wf b →
  wp (ak_buffer_copy (Some b)) (λ ob s',
    (∃ b', ob = Some b' ∧ buffer_wf b' ∧ contents b' = contents b
       ∧ b_origin_offset b' = b_origin_offset b
       ∧ b_capacity b' = Z.max 16 (b_capacity b) ∧ balance 2 false s s')
    ∨ (ob = None ∧ balance 0 true s s')) s.
Proof.
  intros Hwf. pose proof Hwf as []. unfold ak_buffer_copy. wsteps.
  apply wp_buffer_new; [lia|by right|]. intros d s' Hb Hd Hdb. simpl.
  destruct (Z.ltb_spec 0 (b_count b)).
  - wsteps. apply blit_wpo; [lia..|]. intros d' [L P _ F]. left.
    eexists. split_and!; [done|split; simpl; auto with lia| |done|done|done].
    unfold contents; simpl. rewrite Z.add_0_l in P. rewrite P. simpl.
    by rewrite drop_0.
  - left. eexists. split_and!; [done|split; simpl; auto with lia| |done|done|done].
    unfold contents; simpl. by replace (b_count b) with 0 by lia.
Qed.

(** The file is read to the end without an error. *)
Definition file_reads (file : file_io) : Prop :=
  io_fopen file = true ∧ io_seek_end file = 0 ∧ 0 <= io_ftell file
  ∧ io_seek_set file = 0 ∧ io_fclose file = 0
  ∧ (0 < io_ftell file → io_ferror file = false ∧ io_ftell file <= zlen (io_bytes file)).

(** An early [NULL]: nothing was allocated and a call on the file failed. *)
Ltac bail := right; split_and!; [done|done|intros (?&?&?&?&?&?); congruence].

(** [ak_buffer_from_file] gives a buffer with exactly the file's bytes
    when every call on the file succeeds and memory suffices; in every other
    case it gives [NULL] and has released what it allocated. *)
Theorem ak_buffer_from_file_spec file s :
  io_ftell file < 2 ^ 63 → Forall is_byte (io_bytes file) →
  wp (ak_buffer_from_file true file) (λ ob s',
    (∃ b, ob = Some b ∧ file_reads file ∧ buffer_wf b
       ∧ contents b = take (Z.to_nat (io_ftell file)) (io_bytes file)
       ∧ b_count b = io_ftell file ∧ balance 2 false s s')
    ∨ (ob = None ∧ m_live s' = m_live s
       ∧ (file_reads file → (m_fails s < m_fails s')%nat))) s.
Proof.
  intros Hsz Hby. unfold ak_buffer_from_file; simpl.
  destruct (io_fopen file) eqn:Ho; simpl; [|bail].
  destruct (Z.eqb_spec (io_seek_end file) 0); simpl; [|bail].
  destruct (Z.ltb_spec (io_ftell file) 0);
    [right; split_and!; [done|done|intros (?&?&?&?&?&?); lia]|].
  destruct (Z.eqb_spec (io_seek_set file) 0); simpl; [|bail].
  rewrite u64_small by lia. wsteps. apply wp_buffer_new; [lia| |].
  { intros s' []. right. split_and!; [done|lia|done]. }
  intros d s1 Hb Hd Hdb. set (got := take _ _). wsteps. simpl.
  assert (∀ s2, balance 2 false s s2 → ¬ file_reads file →
    wp (ak_buffer_free (Some (mk_buffer d (Z.max 16 (io_ftell file)) 0 0));; mret None)
      (λ ob s', (∃ b, ob = Some b ∧ file_reads file ∧ buffer_wf b
         ∧ contents b = got ∧ b_count b = io_ftell file ∧ balance 2 false s s')
       ∨ (ob = None ∧ m_live s' = m_live s
         ∧ (file_reads file → (m_fails s < m_fails s')%nat))) s2) as Hdiscard.
  { intros s2 [] Hn. wsteps. apply wp_buffer_free. intros s3 []. right.
    split_and!; [done|lia|tauto]. }
  assert (zlen got <= io_ftell file) as Hgl by (subst got; zl).
  destruct (Z.ltb_spec 0 (io_ftell file)); simpl.
  - wsteps. pose proof (zlen_nonneg got). apply blit_wpo; [lia..|].
    intros d' [L P _ F]. destruct (io_ferror file) eqn:Hfe.
    { apply (Hdiscard _ Hb). intros (?&?&?&?&?&HR). destruct HR; [done|congruence]. }
    destruct (Z.eqb_spec (zlen got) (io_ftell file)) as [Hg|Hg]; simpl.
    2:{ apply (Hdiscard _ Hb). intros (?&?&?&?&?&HR). destruct HR; [done|].
        apply Hg. subst got. by apply zlen_take. }
    destruct (Z.eqb_spec (io_fclose file) 0); simpl.
    2:{ wsteps. apply wp_free_obj. intros s2 HL HF. apply wp_free_obj. intros s3 HL3 HF3.
        right. destruct Hb. split_and!; [done|lia|intros (?&?&?&?&?&?); congruence]. }
    left. eexists. split_and!; [done| |split; simpl; auto| |done|done].
    + split_and!; try done. intros _. split; [done|]. subst got. rewrite <- Hg. zl.
    + rewrite L. lia.
    + lia.
    + lia.
    + apply F; [done|by apply Forall_take].
    + unfold is_size. lia.
    + unfold contents; simpl. rewrite Z.add_0_l in P. rewrite P. simpl.
      apply take_ge. unfold zlen. lia.
  - assert (io_ftell file = 0) as Hz by lia.
    destruct (Z.eqb_spec (io_fclose file) 0); simpl.
    2:{ wsteps. apply wp_free_obj. intros s2 HL HF. apply wp_free_obj. intros s3 HL3 HF3.
        right. destruct Hb. split_and!; [done|lia|intros (?&?&?&?&?&?); congruence]. }
    left. eexists. split_and!; [done|split_and!; try done; lia| | |done|done].
    + split; simpl; auto; unfold is_size; lia.
    + subst got. by rewrite Hz.
Qed.
End proofs.

(** The reference of an iteration over the bytes: continue on 1, stop on 0. *)
Fixpoint each_ref {D} (fn : Z → Z → D → Z * Z * D) (l : list Z) (idx : Z) (d : D)
    : list Z * D :=
  match l with
  | [] => ([], d)
  | x :: l' =>
      let '(r, x', d') := fn x idx d in
      if r =? 0 then (x' :: l', d')
      else let '(l'', d'') := each_ref fn l' (idx + 1) d' in (x' :: l'', d'')
  end.

Lemma pair_app_assoc {D} (p : list Z * D) (pre : list Z) x :
  (let '(l, e) := let '(l', e') := p in (x :: l', e') in (pre ++ l, e))
  = (let '(l, e) := p in ((pre ++ [x]) ++ l, e)).
Proof. destruct p. by rewrite <- app_assoc. Qed.

(** With a callback that answers 0 or 1, [ak_buffer_for_each] calls it on
    the bytes in order until it answers 0, keeping the bytes it stores. *)
Theorem ak_buffer_for_each_spec {D} b (fn : Z → Z → D → Z * Z * D) d fuel :
  buffer_wf b → (∀ x i c, (fn x i c).1.1 = 0 ∨ (fn x i c).1.1 = 1) →
  (Z.to_nat (b_count b) < fuel)%nat →
  wpo (ak_buffer_for_each fuel b fn d) (λ '(b', d'),
    (contents b', d') = each_ref fn (contents b) 0 d
    ∧ b_count b' = b_count b ∧ zlen (b_data b') = b_capacity b).
Proof.
  intros Hwf Hfn Hfuel. pose proof (length_contents b Hwf) as Hlc. destruct Hwf.
  unfold ak_buffer_for_each.
  apply (loop_wpo (λ '(data, idx, cd), 0 <= idx <= b_count b ∧ zlen data = b_capacity b
      ∧ ∃ pre, take (Z.to_nat idx) data = pre ∧
          each_ref fn (contents b) 0 d
          = (let '(l, e) := each_ref fn
               (drop (Z.to_nat idx) (take (Z.to_nat (b_count b)) data)) idx cd in (pre ++ l, e)))
    (λ '(data, idx, cd), Z.to_nat (b_count b - idx))).
  - split_and!; [lia|lia|done|]. exists []. split; [done|]. simpl. rewrite drop_0.
    by destruct (each_ref _ _ _ _).
  - simpl. lia.
  - intros [[data idx] cd] (Hidx & Hlen & pre & Hpre & Href).
    destruct (Z.ltb_spec idx (b_count b)).
    + wsteps. apply rd_wpo; [lia|]. intros x Hx.
      rewrite (drop_S _ x) in Href by (by rewrite lookup_take_lt by lia). simpl in Href.
      pose proof (Hfn x idx cd) as Hr. destruct (fn x idx cd) as [[r x'] cd']. simpl in Hr.
      rewrite wr_ok by lia. simpl.
      assert (take (Z.to_nat (idx + 1)) (<[Z.to_nat idx:=x']> data) = pre ++ [x']) as Hpre'.
      { replace (Z.to_nat (idx + 1)) with (S (Z.to_nat idx)) by lia.
        rewrite (take_S_r _ _ x') by (apply list_lookup_insert_eq; unfold zlen in *; lia).
        rewrite take_insert_ge by lia. by rewrite Hpre. }
      assert (drop (Z.to_nat (idx + 1)) (take (Z.to_nat (b_count b)) (<[Z.to_nat idx:=x']> data))
        = drop (S (Z.to_nat idx)) (take (Z.to_nat (b_count b)) data)) as Hdrop.
      { rewrite !skipn_firstn_comm. f_equal; [lia|].
        replace (Z.to_nat (idx + 1)) with (S (Z.to_nat idx)) by lia.
        by rewrite drop_insert_lt by lia. }
      destruct Hr as [-> | ->]; simpl in *.
      * unfold contents at 1; simpl. rewrite Href, zlen_insert. split_and!; [|done|lia].
        f_equal. rewrite <- (take_drop (Z.to_nat (idx + 1))
          (take (Z.to_nat (b_count b)) (<[Z.to_nat idx:=x']> data))).
        rewrite take_take, Nat.min_l by lia. rewrite Hpre', Hdrop.
        by rewrite <- app_assoc.
      * rewrite u64_small by lia. split; [|lia]. split; [lia|]. rewrite zlen_insert.
        split; [done|]. exists (pre ++ [x']). split; [done|]. rewrite Href, Hdrop.
        by rewrite pair_app_assoc.
    + simpl. assert (idx = b_count b) as -> by lia.
      rewrite drop_ge in Href by (rewrite length_take; lia). simpl in Href.
      rewrite Href. unfold contents; simpl. rewrite app_nil_r. by rewrite Hpre.
Qed.

(** * Witnesses *)

Section witnesses.
#[local] Existing Instance always_alloc.

Definition wbuf : ak_buffer_t := mk_buffer ([32; 7; 8; 32] ++ replicate 12 0) 16 4 0.

Ltac bytes := repeat constructor; unfold is_byte; lia.
Ltac wf := split; [done|simpl; lia|simpl; lia|simpl; bytes|unfold is_size; simpl; lia].

Lemma ak_buffer_rotate_roundtrip_witness :
  wp (ob ← ak_buffer_rotate_left (Some wbuf) 5;
      ob' ← ak_buffer_rotate_right ob 5; mret (ob, ob'))
    (λ '(ob, ob') s', m_fails s' = 0%nat → ∃ b1, ob = Some b1
       ∧ contents b1 = [7; 8; 32; 32]) mem0.
Proof.
  eapply wp_mono.
  { apply (ak_buffer_rotate_roundtrip wbuf 5 mem0); [wf|lia|simpl; lia]. }
  intros [ob ob'] s' (b1 & b2 & -> & _ & _ & _ & _ & Hc) Hf. exists b1.
  split; [done|]. by destruct (Hc Hf) as [-> _].
Defined.

Lemma ak_buffer_trim_spec_witness :
  wp (ak_buffer_trim_left (Some wbuf) 32) (trimmed [7; 8; 32] wbuf mem0) mem0
  ∧ wp (ak_buffer_trim_right (Some wbuf) 32) (trimmed [32; 7; 8] wbuf mem0) mem0.
Proof. apply (ak_buffer_trim_spec wbuf 32 mem0). wf. Defined.

Lemma ak_buffer_sub_buffer_spec_witness :
  wp (ak_buffer_sub_buffer (Some wbuf) 1 7) (λ '(ob, copied) _,
    ∀ b', ob = Some b' → contents b' = [7; 8; 32] ∧ b_origin_offset b' = 1) mem0.
Proof.
  eapply wp_mono.
  { apply (ak_buffer_sub_buffer_spec wbuf 1 7 mem0);
      [wf|unfold is_size; lia|lia|simpl; lia]. }
  intros [ob copied] s' H b' ->. by destruct H as (_ & _ & _ & -> & -> & _).
Defined.

Lemma ak_buffer_split_spec_witness :
  wp (ak_buffer_split (Some wbuf) 3 0 0) (λ sp _, ∀ lb, split_left sp = Some lb →
    contents lb = [32; 7; 8]) mem0.
Proof.
  eapply wp_mono.
  { apply (ak_buffer_split_spec wbuf 3 0 0 mem0);
      [wf|simpl; lia|unfold is_size; lia|unfold is_size; lia|simpl; lia|simpl; lia]. }
  intros sp s' [(lb & rb & -> & _ & _ & Hl & _)|[-> _]] lb' [= <-]. by rewrite Hl.
Defined.

Definition wlong : ak_buffer_t := mk_buffer (replicate 20 1) 20 20 0.

Lemma ak_buffer_split_overflow_witness :
  ak_buffer_split (Some wlong) 18 4 4 mem0 = Undef.
Proof. apply (ak_buffer_split_overflow wlong 18 4 4 mem0); [wf|done|lia|lia|simpl; lia|lia]. Defined.

Definition wfile : file_io := mk_file_io true 0 3 0 [5; 6; 7] false 0.

Lemma ak_buffer_from_file_spec_witness :
  wp (ak_buffer_from_file true wfile) (λ ob _, ∀ b, ob = Some b → contents b = [5; 6; 7]) mem0.
Proof.
  eapply wp_mono; [apply (ak_buffer_from_file_spec wfile mem0); [simpl; lia|simpl; bytes]|].
  intros ob s' [(b & -> & _ & _ & Hc & _)|[-> _]] b' [= <-]. by rewrite Hc.
Defined.

(** Double every byte up to the first space. *)
Definition wfn (x i : Z) (c : Z) : Z * Z * Z := (if x =? 32 then 0 else 1, 2 * x, c + x).

Lemma ak_buffer_for_each_spec_witness :
  wpo (ak_buffer_for_each 20 (mk_buffer (7 :: b_data wbuf) 17 5 0) wfn 0) (λ '(b', d'),
    (contents b', d') = ([14; 64; 7; 8; 32], 39)).
Proof.
  eapply wpo_mono.
  { apply (ak_buffer_for_each_spec (mk_buffer (7 :: b_data wbuf) 17 5 0) wfn 0 20);
      [wf|intros x i c; unfold wfn; simpl; destruct (x =? 32); auto|simpl; lia]. }
  intros [b' d'] [-> _]. reflexivity.
Defined.
End witnesses.
