(* ===== verification/Utf8.v ===== *)
(** UTF-8: [kernel/utf8/src/utf8.c].

    A C argument [const uint8_t *data] is [None] for [NULL] or the bytes
    readable from the pointer; reading past them is undefined behaviour.  The
    theorems relate the decoder to the encoding of Unicode scalar values
    ([encode]), in both directions, and bound every traversal. *)

From S2P Require Import Prelude.

Record ak_utf8_decode_result_t := mk_decode {
  codepoint : Z;
  bytes : Z;
  valid : bool;
}.

(** [data[i] & 0xC0) == 0x80] *)
Definition cont_at (data : list Z) (i : Z) : outcome bool :=
  x ← rd data i; Ret (Z.land x 0xC0 =? 0x80).

(** C's [a && b] where evaluating [b] reads memory. *)
Definition and_then (a : bool) (b : outcome bool) : outcome bool :=
  if a then b else Ret false.

Definition ak_utf8_char_len (data : option (list Z)) (max_bytes : Z) : outcome Z :=
  match data with
  | None => Ret 0
  | Some data =>
      if max_bytes =? 0 then Ret 0 else
      first ← rd data 0;
      if Z.land first 0x80 =? 0 then Ret 1 else
      if Z.land first 0xE0 =? 0xC0 then
        ok ← and_then (2 <=? max_bytes) (cont_at data 1);
        Ret (if ok : bool then 2 else 1)
      else
      if Z.land first 0xF0 =? 0xE0 then
        ok1 ← and_then (3 <=? max_bytes) (cont_at data 1);
        ok ← and_then ok1 (cont_at data 2);
        Ret (if ok : bool then 3 else 1)
      else
      if Z.land first 0xF8 =? 0xF0 then
        ok1 ← and_then (4 <=? max_bytes) (cont_at data 1);
        ok2 ← and_then ok1 (cont_at data 2);
        ok ← and_then ok2 (cont_at data 3);
        Ret (if ok : bool then 4 else 1)
      else Ret 1
  end.

Definition ak_utf8_decode (data : option (list Z)) (max_bytes : Z)
    : outcome ak_utf8_decode_result_t :=
  match data with
  | None => Ret (mk_decode 0 0 false)
  | Some data =>
      if max_bytes =? 0 then Ret (mk_decode 0 0 false) else
      first ← rd data 0;
      if Z.land first 0x80 =? 0 then Ret (mk_decode first 1 true) else
      if Z.land first 0xE0 =? 0xC0 then
        ok ← and_then (2 <=? max_bytes) (cont_at data 1);
        if ok : bool then
          d1 ← rd data 1;
          let cp := Z.lor (Z.shiftl (Z.land first 0x1F) 6) (Z.land d1 0x3F) in
          Ret (mk_decode cp 2 (0x80 <=? cp))
        else Ret (mk_decode first 1 false)
      else
      if Z.land first 0xF0 =? 0xE0 then
        ok1 ← and_then (3 <=? max_bytes) (cont_at data 1);
        ok ← and_then ok1 (cont_at data 2);
        if ok : bool then
          d1 ← rd data 1;
          d2 ← rd data 2;
          let cp := Z.lor (Z.lor (Z.shiftl (Z.land first 0x0F) 12)
                                 (Z.shiftl (Z.land d1 0x3F) 6))
                          (Z.land d2 0x3F) in
          Ret (mk_decode cp 3
                 ((0x800 <=? cp) && ((cp <? 0xD800) || (0xDFFF <? cp))))
        else Ret (mk_decode first 1 false)
      else
      if Z.land first 0xF8 =? 0xF0 then
        ok1 ← and_then (4 <=? max_bytes) (cont_at data 1);
        ok2 ← and_then ok1 (cont_at data 2);
        ok ← and_then ok2 (cont_at data 3);
        if ok : bool then
          d1 ← rd data 1;
          d2 ← rd data 2;
          d3 ← rd data 3;
          let cp := Z.lor (Z.lor (Z.lor (Z.shiftl (Z.land first 0x07) 18)
                                        (Z.shiftl (Z.land d1 0x3F) 12))
                                 (Z.shiftl (Z.land d2 0x3F) 6))
                          (Z.land d3 0x3F) in
          Ret (mk_decode cp 4 ((0x10000 <=? cp) && (cp <=? 0x10FFFF)))
        else Ret (mk_decode first 1 false)
      else Ret (mk_decode first 1 false)
  end.

(** [data + pos] for a position inside or at the end of the bytes. *)
Definition at_ (data : list Z) (pos : Z) : option (list Z) :=
  Some (drop (Z.to_nat pos) data).

(** The loops below move by at least one byte, so [byte_len + 1] turns are
    enough. *)
Definition ak_utf8_char_count (data : option (list Z)) (byte_len : Z) : outcome Z :=
  match data with
  | None => Ret 0
  | Some data =>
      loop (S (Z.to_nat byte_len)) (λ '(count, pos),
        if pos <? byte_len then
          char_len ← ak_utf8_char_len (at_ data pos) (byte_len - pos);
          if char_len =? 0 then Ret (inr count)
          else Ret (inl (count + 1, pos + char_len))
        else Ret (inr count)) (0, 0)
  end.

Definition ak_utf8_is_whitespace (codepoint : Z) : bool :=
  if (codepoint =? 0x20) || (codepoint =? 0x09) || (codepoint =? 0x0A)
     || (codepoint =? 0x0D) then true
  else if (codepoint =? 0x00A0) || (codepoint =? 0x1680)
     || ((0x2000 <=? codepoint) && (codepoint <=? 0x200A))
     || (codepoint =? 0x202F) || (codepoint =? 0x205F)
     || (codepoint =? 0x3000) then true
  else false.

(** [codepoint >= lo && codepoint <= hi] *)
Definition between (lo hi codepoint : Z) : bool :=
  (lo <=? codepoint) && (codepoint <=? hi).

Definition ak_utf8_is_digit (codepoint : Z) : bool :=
  if between 0x0030 0x0039 codepoint then true else
  if between 0x0660 0x0669 codepoint then true else
  if between 0x06F0 0x06F9 codepoint then true else
  if between 0x0966 0x096F codepoint then true else
  if between 0x09E6 0x09EF codepoint then true else
  if between 0x0A66 0x0A6F codepoint then true else
  if between 0x0AE6 0x0AEF codepoint then true else
  if between 0x0B66 0x0B6F codepoint then true else
  if between 0x0BE6 0x0BEF codepoint then true else
  if between 0x0C66 0x0C6F codepoint then true else
  if between 0x0CE6 0x0CEF codepoint then true else
  if between 0x0D66 0x0D6F codepoint then true else
  if between 0x0E50 0x0E59 codepoint then true else
  if between 0x0ED0 0x0ED9 codepoint then true else
  if between 0x0F20 0x0F29 codepoint then true else
  if between 0x1040 0x1049 codepoint then true else
  if between 0x17E0 0x17E9 codepoint then true else
  if between 0x1810 0x1819 codepoint then true else
  if between 0xFF10 0xFF19 codepoint then true else
  false.

Definition ak_utf8_is_alpha (codepoint : Z) : bool :=
  if between 0x0041 0x005A codepoint || between 0x0061 0x007A codepoint then true else
  if between 0x00C0 0x00D6 codepoint || between 0x00D8 0x00F6 codepoint
     || between 0x00F8 0x00FF codepoint then true else
  if between 0x0100 0x017F codepoint then true else
  if between 0x0180 0x024F codepoint then true else
  if between 0x0370 0x03FF codepoint then true else
  if between 0x0400 0x04FF codepoint then true else
  if between 0x0500 0x052F codepoint then true else
  if between 0x0531 0x0556 codepoint then true else
  if between 0x0561 0x0587 codepoint then true else
  if between 0x05D0 0x05EA codepoint then true else
  if between 0x05F0 0x05F2 codepoint then true else
  if between 0x0621 0x064A codepoint then true else
  if between 0x066E 0x066F codepoint then true else
  if between 0x0671 0x06D3 codepoint then true else
  if codepoint =? 0x06D5 then true else
  if between 0x06E5 0x06E6 codepoint then true else
  if between 0x06EE 0x06EF codepoint then true else
  if between 0x06FA 0x06FC codepoint then true else
  if codepoint =? 0x06FF then true else
  if between 0x0905 0x0939 codepoint then true else
  if between 0x0958 0x0961 codepoint then true else
  if between 0x0972 0x097F codepoint then true else
  if between 0x0985 0x098C codepoint then true else
  if between 0x098F 0x0990 codepoint then true else
  if between 0x0993 0x09A8 codepoint then true else
  if between 0x09AA 0x09B0 codepoint then true else
  if codepoint =? 0x09B2 then true else
  if between 0x09B6 0x09B9 codepoint then true else
  if between 0x09DC 0x09DD codepoint then true else
  if between 0x09DF 0x09E1 codepoint then true else
  if between 0x09F0 0x09F1 codepoint then true else
  if between 0x3041 0x3096 codepoint then true else
  if between 0x30A1 0x30FA codepoint then true else
  if between 0x4E00 0x9FFF codepoint then true else
  if between 0xAC00 0xD7A3 codepoint then true else
  false.

Definition ak_utf8_is_alnum (codepoint : Z) : bool :=
  ak_utf8_is_alpha codepoint || ak_utf8_is_digit codepoint.

Definition ak_utf8_is_combining_mark (codepoint : Z) : bool :=
  if between 0x0300 0x036F codepoint then true else
  if between 0x1AB0 0x1AFF codepoint then true else
  if between 0x1DC0 0x1DFF codepoint then true else
  if between 0x20D0 0x20FF codepoint then true else
  if between 0xFE20 0xFE2F codepoint then true else
  if between 0x0591 0x05BD codepoint then true else
  if codepoint =? 0x05BF then true else
  if between 0x05C1 0x05C2 codepoint then true else
  if between 0x05C4 0x05C5 codepoint then true else
  if codepoint =? 0x05C7 then true else
  if between 0x0610 0x061A codepoint then true else
  if between 0x064B 0x065F codepoint then true else
  if codepoint =? 0x0670 then true else
  if between 0x06D6 0x06DC codepoint then true else
  if between 0x06DF 0x06E4 codepoint then true else
  if between 0x06E7 0x06E8 codepoint then true else
  if between 0x06EA 0x06ED codepoint then true else
  if between 0x0900 0x0903 codepoint then true else
  if between 0x093A 0x093C codepoint then true else
  if between 0x093E 0x094F codepoint then true else
  if between 0x0951 0x0957 codepoint then true else
  if between 0x0962 0x0963 codepoint then true else
  false.

Definition ak_utf8_is_start_byte (byte : Z) : bool :=
  if Z.land byte 0x80 =? 0 then true else
  if Z.land byte 0xC0 =? 0x80 then false else
  if Z.land byte 0xFE =? 0xFE then false else
  true.

Definition ak_utf8_is_continuation_byte (byte : Z) : bool :=
  Z.land byte 0xC0 =? 0x80.

(** The loop stops after three steps back. *)
Definition ak_utf8_prev_char (data : list Z) (current_pos : Z) : outcome Z :=
  if current_pos =? 0 then Ret 0 else
  loop 4 (λ '(pos, steps),
    if 0 <? pos then
      x ← rd data pos;
      if ak_utf8_is_continuation_byte x && (steps <? 3)
      then Ret (inl (pos - 1, steps + 1))
      else Ret (inr pos)
    else Ret (inr pos)) (current_pos - 1, 0).

Definition ak_utf8_validate (data : option (list Z)) (byte_len : Z) : outcome bool :=
  match data with
  | None => Ret false
  | Some data =>
      loop (S (Z.to_nat byte_len)) (λ pos,
        if pos <? byte_len then
          result ← ak_utf8_decode (at_ data pos) (byte_len - pos);
          if negb (valid result) || (bytes result =? 0) then Ret (inr false)
          else Ret (inl (pos + bytes result))
        else Ret (inr true)) 0
  end.

Definition ak_utf8_grapheme_len (data : option (list Z)) (max_bytes : Z) : outcome Z :=
  match data with
  | None => Ret 0
  | Some d =>
      if max_bytes =? 0 then Ret 0 else
      total_len ← ak_utf8_char_len data max_bytes;
      if (total_len =? 0) || (max_bytes <? total_len) then Ret total_len else
      base ← ak_utf8_decode data max_bytes;
      if negb (valid base) then Ret total_len else
      loop (S (Z.to_nat max_bytes)) (λ '(total_len, pos),
        if pos <? max_bytes then
          next ← ak_utf8_decode (at_ d pos) (max_bytes - pos);
          if negb (valid next) then Ret (inr total_len) else
          if negb (ak_utf8_is_combining_mark (codepoint next))
          then Ret (inr total_len)
          else Ret (inl (total_len + bytes next, pos + bytes next))
        else Ret (inr total_len)) (total_len, total_len)
  end.

Definition ak_utf8_grapheme_count (data : option (list Z)) (byte_len : Z) : outcome Z :=
  match data with
  | None => Ret 0
  | Some data =>
      loop (S (Z.to_nat byte_len)) (λ '(count, pos),
        if pos <? byte_len then
          grapheme_len ← ak_utf8_grapheme_len (at_ data pos) (byte_len - pos);
          if grapheme_len =? 0 then Ret (inr count)
          else Ret (inl (count + 1, pos + grapheme_len))
        else Ret (inr count)) (0, 0)
  end.

Arguments ak_utf8_char_len : simpl never.
Arguments ak_utf8_decode : simpl never.
Arguments ak_utf8_grapheme_len : simpl never.

(** * The encoding of scalar values (RFC 3629) *)

Definition is_scalar (c : Z) : Prop :=
  0 <= c <= 0x10FFFF ∧ ¬ (0xD800 <= c <= 0xDFFF).

Definition encode (c : Z) : list Z :=
  if c <? 0x80 then [c]
  else if c <? 0x800 then [0xC0 + c / 64; 0x80 + c mod 64]
  else if c <? 0x10000 then
    [0xE0 + c / 4096; 0x80 + c / 64 mod 64; 0x80 + c mod 64]
  else [0xF0 + c / 262144; 0x80 + c / 4096 mod 64; 0x80 + c / 64 mod 64;
        0x80 + c mod 64].

Definition encode_all (cs : list Z) : list Z := concat (encode <$> cs).

(** * Byte classes *)

Section byte_classes.
Context (b : Z) (Hb : is_byte b).

Ltac byte :=
  match goal with
  | |- ?l = ?r =>
      let P := eval pattern b in (Z.eqb l r) in
      match P with ?f _ =>
        apply Z.eqb_eq; apply (byte_forall f b); [vm_compute; reflexivity|exact Hb]
      end
  end.
Ltac byteb :=
  match goal with
  | |- ?l = ?r =>
      let P := eval pattern b in (Bool.eqb l r) in
      match P with ?f _ =>
        apply Bool.eqb_prop; apply (byte_forall f b); [vm_compute; reflexivity|exact Hb]
      end
  end.

Lemma ascii_byte : (Z.land b 0x80 =? 0) = (b <? 128).
Proof. byteb. Qed.
Lemma lead2_byte : (Z.land b 0xE0 =? 0xC0) = (192 <=? b) && (b <? 224).
Proof. byteb. Qed.
Lemma lead3_byte : (Z.land b 0xF0 =? 0xE0) = (224 <=? b) && (b <? 240).
Proof. byteb. Qed.
Lemma lead4_byte : (Z.land b 0xF8 =? 0xF0) = (240 <=? b) && (b <? 248).
Proof. byteb. Qed.
Lemma cont_byte : (Z.land b 0xC0 =? 0x80) = (128 <=? b) && (b <? 192).
Proof. byteb. Qed.
Lemma invalid_byte : (Z.land b 0xFE =? 0xFE) = (254 <=? b).
Proof. byteb. Qed.
Lemma low6_byte : Z.land b 0x3F = b mod 64.
Proof. byte. Qed.
Lemma low5_byte : Z.land b 0x1F = b mod 32.
Proof. byte. Qed.
Lemma low4_byte : Z.land b 0x0F = b mod 16.
Proof. byte. Qed.
Lemma low3_byte : Z.land b 0x07 = b mod 8.
Proof. byte. Qed.
End byte_classes.

(** The code points assembled from two, three and four bytes. *)
Lemma codepoint2 b0 b1 : is_byte b0 → is_byte b1 →
  Z.lor (Z.shiftl (Z.land b0 0x1F) 6) (Z.land b1 0x3F) = b0 mod 32 * 64 + b1 mod 64.
Proof.
  intros H0 H1. rewrite low5_byte, low6_byte, Z.shiftl_mul_pow2 by (done || lia).
  apply (lor_low 6); change (2 ^ 6) with 64; [lia|dlia|dlia].
Qed.

Lemma codepoint3 b0 b1 b2 : is_byte b0 → is_byte b1 → is_byte b2 →
  Z.lor (Z.lor (Z.shiftl (Z.land b0 0x0F) 12) (Z.shiftl (Z.land b1 0x3F) 6))
    (Z.land b2 0x3F) = b0 mod 16 * 4096 + b1 mod 64 * 64 + b2 mod 64.
Proof.
  intros H0 H1 H2. rewrite low4_byte, !low6_byte, !Z.shiftl_mul_pow2 by (done || lia).
  change (2 ^ 12) with 4096. change (2 ^ 6) with 64.
  rewrite (lor_low 12 (b0 mod 16 * 4096)) by (change (2 ^ 12) with 4096; dlia).
  apply (lor_low 6); change (2 ^ 6) with 64; dlia.
Qed.

Lemma codepoint4 b0 b1 b2 b3 : is_byte b0 → is_byte b1 → is_byte b2 → is_byte b3 →
  Z.lor (Z.lor (Z.lor (Z.shiftl (Z.land b0 0x07) 18) (Z.shiftl (Z.land b1 0x3F) 12))
          (Z.shiftl (Z.land b2 0x3F) 6)) (Z.land b3 0x3F)
  = b0 mod 8 * 262144 + b1 mod 64 * 4096 + b2 mod 64 * 64 + b3 mod 64.
Proof.
  intros H0 H1 H2 H3. rewrite low3_byte, !low6_byte, !Z.shiftl_mul_pow2 by (done || lia).
  change (2 ^ 18) with 262144. change (2 ^ 12) with 4096. change (2 ^ 6) with 64.
  rewrite (lor_low 18 (b0 mod 8 * 262144)) by (change (2 ^ 18) with 262144; dlia).
  rewrite (lor_low 12 (b0 mod 8 * 262144 + b1 mod 64 * 4096)) by (change (2 ^ 12) with 4096; dlia).
  apply (lor_low 6); change (2 ^ 6) with 64; dlia.
Qed.

Lemma rd_hd {A} (x : A) l : rd (x :: l) 0 = Ret x.
Proof. done. Qed.
Lemma rd_1 {A} (x y : A) l : rd (x :: y :: l) 1 = Ret y.
Proof. done. Qed.
Lemma rd_2 {A} (x y z : A) l : rd (x :: y :: z :: l) 2 = Ret z.
Proof. done. Qed.
Lemma rd_3 {A} (x y z w : A) l : rd (x :: y :: z :: w :: l) 3 = Ret w.
Proof. done. Qed.

(** What a decoder answers for the bytes at hand: it consumes as many bytes as
    [ak_utf8_char_len] measures, and when it answers [valid] these bytes are
    the encoding of the scalar value it answers. *)
Record decoded (data : list Z) (max_bytes : Z) (r : ak_utf8_decode_result_t) : Prop := {
  decoded_bytes : 1 <= bytes r <= Z.min 4 max_bytes;
  decoded_codepoint : 0 <= codepoint r < 2 ^ 21;
  decoded_valid : valid r = true → is_scalar (codepoint r)
    ∧ encode (codepoint r) = take (Z.to_nat (bytes r)) data;
}.

Lemma decoded_invalid data max b n :
  is_byte b → 1 <= n <= Z.min 4 max → decoded data max (mk_decode b n false).
Proof. intros Hb Hn. unfold is_byte in Hb. split; simpl; [done|lia|done]. Qed.

(** Simplify the reads and byte tests of a decoder applied to known bytes. *)
Ltac bytes_step :=
  rewrite ?rd_hd, ?rd_1, ?rd_2, ?rd_3 by done; simpl;
  rewrite ?ascii_byte, ?lead2_byte, ?lead3_byte, ?lead4_byte, ?cont_byte by done.

Lemma decode_decoded data max :
  Forall is_byte data → 1 <= max <= zlen data →
  ∃ r, ak_utf8_decode (Some data) max = Ret r ∧ decoded data max r
    ∧ ak_utf8_char_len (Some data) max = Ret (bytes r).
Proof.
  intros HF Hmax. destruct data as [|b0 l]; [rewrite zlen_nil in Hmax; lia|].
  apply Forall_cons_1 in HF as [H0 HF]. rewrite zlen_cons in Hmax.
  unfold ak_utf8_decode, ak_utf8_char_len.
  rewrite (proj2 (Z.eqb_neq max 0)) by lia. bytes_step.
  pose proof H0 as H0'. unfold is_byte in H0'.
  destruct (Z.ltb_spec b0 128).
  { eexists. split_and!; [done| |done]. split; simpl; [lia|lia|]. intros _.
    split; [unfold is_scalar; lia|]. unfold encode.
    by rewrite (proj2 (Z.ltb_lt b0 0x80)) by lia. }
  destruct ((192 <=? b0) && (b0 <? 224)) eqn:E2.
  { destruct (Z.leb_spec 2 max); simpl;
      [|eexists; split_and!; [done|apply decoded_invalid; [done|lia]|done]].
    destruct l as [|b1 l]; [rewrite zlen_nil in Hmax; lia|].
    apply Forall_cons_1 in HF as [B1 HF]. unfold cont_at. bytes_step.
    destruct ((128 <=? b1) && (b1 <? 192)) eqn:C1; simpl;
      [|eexists; split_and!; [done|apply decoded_invalid; [done|lia]|done]].
    bytes_step. rewrite codepoint2 by done. eexists. split_and!; [done| |done].
    split; simpl; [lia|dlia|]. intros HV.
    assert (0x80 <= b0 mod 32 * 64 + b1 mod 64 < 0x800) by dlia.
    split; [unfold is_scalar; lia|]. unfold encode.
    rewrite (proj2 (Z.ltb_ge _ 0x80)), (proj2 (Z.ltb_lt _ 0x800)) by lia.
    f_equal; [dlia|]. f_equal. dlia. }
  destruct ((224 <=? b0) && (b0 <? 240)) eqn:E3.
  { destruct (Z.leb_spec 3 max); simpl;
      [|eexists; split_and!; [done|apply decoded_invalid; [done|lia]|done]].
    destruct l as [|b1 [|b2 l]]; [rewrite ?zlen_cons, zlen_nil in Hmax; lia..|].
    apply Forall_cons_1 in HF as [B1 [B2 HF]%Forall_cons_1]. unfold cont_at. bytes_step.
    destruct ((128 <=? b1) && (b1 <? 192)) eqn:C1; simpl;
      [|eexists; split_and!; [done|apply decoded_invalid; [done|lia]|done]].
    bytes_step. destruct ((128 <=? b2) && (b2 <? 192)) eqn:C2; simpl;
      [|eexists; split_and!; [done|apply decoded_invalid; [done|lia]|done]].
    bytes_step. rewrite codepoint3 by done. eexists. split_and!; [done| |done].
    split; simpl; [lia|dlia|]. intros HV.
    set (cp := b0 mod 16 * 4096 + b1 mod 64 * 64 + b2 mod 64) in *.
    assert (0x800 <= cp < 0x10000) by (subst cp; dlia).
    split; [unfold is_scalar; lia|]. unfold encode.
    rewrite (proj2 (Z.ltb_ge _ 0x80)), (proj2 (Z.ltb_ge _ 0x800)),
      (proj2 (Z.ltb_lt _ 0x10000)) by lia.
    clear HV. subst cp. f_equal; [dlia|]. f_equal; [dlia|]. f_equal. dlia. }
  destruct ((240 <=? b0) && (b0 <? 248)) eqn:E4;
    [|eexists; split_and!; [done|apply decoded_invalid; [done|lia]|done]].
  destruct (Z.leb_spec 4 max); simpl;
    [|eexists; split_and!; [done|apply decoded_invalid; [done|lia]|done]].
  destruct l as [|b1 [|b2 [|b3 l]]]; [rewrite ?zlen_cons, zlen_nil in Hmax; lia..|].
  apply Forall_cons_1 in HF as [B1 [B2 [B3 HF]%Forall_cons_1]%Forall_cons_1].
  unfold cont_at. bytes_step.
  destruct ((128 <=? b1) && (b1 <? 192)) eqn:C1; simpl;
    [|eexists; split_and!; [done|apply decoded_invalid; [done|lia]|done]].
  bytes_step. destruct ((128 <=? b2) && (b2 <? 192)) eqn:C2; simpl;
    [|eexists; split_and!; [done|apply decoded_invalid; [done|lia]|done]].
  bytes_step. destruct ((128 <=? b3) && (b3 <? 192)) eqn:C3; simpl;
    [|eexists; split_and!; [done|apply decoded_invalid; [done|lia]|done]].
  bytes_step. rewrite codepoint4 by done. eexists. split_and!; [done| |done].
  split; simpl; [lia|dlia|]. intros HV.
  set (cp := b0 mod 8 * 262144 + b1 mod 64 * 4096 + b2 mod 64 * 64 + b3 mod 64) in *.
  assert (0x10000 <= cp <= 0x10FFFF) by lia.
  split; [unfold is_scalar; lia|]. unfold encode.
  rewrite (proj2 (Z.ltb_ge _ 0x80)), (proj2 (Z.ltb_ge _ 0x800)),
    (proj2 (Z.ltb_ge _ 0x10000)) by lia.
  clear HV. subst cp. f_equal; [dlia|]. f_equal; [dlia|]. f_equal; [dlia|]. f_equal. dlia.
Qed.

Lemma encode_bytes c : is_scalar c → Forall is_byte (encode c).
Proof.
  intros [Hc _]. unfold encode.
  repeat (zcase; try lia); repeat constructor; unfold is_byte; dlia.
Qed.

Lemma encode_length c : 1 <= zlen (encode c) <= 4.
Proof. unfold encode, zlen. repeat zcase; lia. Qed.

(** Decide the comparisons of a decoder run on an encoding. *)
Ltac decide_cmp :=
  repeat match goal with
  | |- context [?a <=? ?b] =>
      first [rewrite (proj2 (Z.leb_le a b)) by dlia|rewrite (proj2 (Z.leb_gt a b)) by dlia]
  | |- context [?a <? ?b] =>
      first [rewrite (proj2 (Z.ltb_lt a b)) by dlia|rewrite (proj2 (Z.ltb_ge a b)) by dlia]
  | |- context [?a =? ?b] =>
      first [rewrite (proj2 (Z.eqb_eq a b)) by dlia|rewrite (proj2 (Z.eqb_neq a b)) by dlia]
  end; simpl.

(** Decoding the encoding of a scalar value, whatever bytes follow, gives back
    the value and consumes exactly the encoding. *)
Lemma decode_encode c rest max :
  is_scalar c → zlen (encode c) <= max →
  ak_utf8_decode (Some (encode c ++ rest)) max
    = Ret (mk_decode c (zlen (encode c)) true)
  ∧ ak_utf8_char_len (Some (encode c ++ rest)) max = Ret (zlen (encode c)).
Proof.
  intros Hc Hmax. pose proof (encode_bytes c Hc) as HF. destruct Hc as [Hc Hsur].
  unfold ak_utf8_decode, ak_utf8_char_len, cont_at.
  revert Hmax HF. unfold encode.
  destruct (Z.ltb_spec c 0x80); [|destruct (Z.ltb_spec c 0x800);
    [|destruct (Z.ltb_spec c 0x10000)]];
    rewrite ?zlen_cons, zlen_nil; intros Hmax HF; decide_cmp;
    repeat match goal with H : Forall _ (_ :: _) |- _ =>
      apply Forall_cons_1 in H as [? H] end;
    rewrite ?(proj2 (Z.eqb_neq max 0)) by lia; bytes_step; decide_cmp; [done| | |].
  - bytes_step. decide_cmp. bytes_step. rewrite codepoint2 by done.
    assert ((192 + c / 64) mod 32 * 64 + (128 + c mod 64) mod 64 = c) as -> by dlia.
    decide_cmp. done.
  - bytes_step. decide_cmp. bytes_step. decide_cmp. bytes_step.
    rewrite codepoint3 by done.
    assert ((224 + c / 4096) mod 16 * 4096 + (128 + c / 64 mod 64) mod 64 * 64
      + (128 + c mod 64) mod 64 = c) as -> by dlia.
    destruct (Z.ltb_spec c 55296), (Z.ltb_spec 57343 c); decide_cmp; try done; lia.
  - bytes_step. decide_cmp. bytes_step. decide_cmp. bytes_step. decide_cmp. bytes_step.
    rewrite codepoint4 by done.
    assert ((240 + c / 262144) mod 8 * 262144 + (128 + c / 4096 mod 64) mod 64 * 4096
      + (128 + c / 64 mod 64) mod 64 * 64 + (128 + c mod 64) mod 64 = c) as -> by dlia.
    decide_cmp. done.
Qed.

(** C34: Whatever the bytes, the decoder stays inside the [max] bytes it may
    read, consumes between one and four of them, as many as
    [ak_utf8_char_len] says, and answers a valid code point [c] exactly when
    the bytes start with the encoding of the scalar value [c], which is what it
    then consumes: overlong and truncated forms, surrogates and values past
    U+10FFFF are invalid.  Decoding an encoded scalar value that may be read
    whole gives it back with the length of its encoding, and encoding a code
    point that was decoded gives back the bytes consumed. *)
Theorem ak_utf8_decode_spec data max :
  Forall is_byte data → 1 <= max <= zlen data →
  ∃ r, ak_utf8_decode (Some data) max = Ret r
    ∧ ak_utf8_char_len (Some data) max = Ret (bytes r)
    ∧ 1 <= bytes r <= Z.min 4 max
    ∧ (∀ c, valid r = true ∧ codepoint r = c ↔
        is_scalar c ∧ ∃ rest, take (Z.to_nat max) data = encode c ++ rest)
    ∧ (∀ c rest, is_scalar c → data = encode c ++ rest → zlen (encode c) <= max →
        r = mk_decode c (zlen (encode c)) true)
    ∧ (valid r = true → encode (codepoint r) = take (Z.to_nat (bytes r)) data).
Proof.
  intros HF Hmax. destruct (decode_decoded data max HF Hmax) as (r & Hr & [Hb _ Hv] & Hl).
  assert (∀ c rest, is_scalar c → data = encode c ++ rest → zlen (encode c) <= max →
    r = mk_decode c (zlen (encode c)) true) as Hround.
  { intros c rest Hc -> Hle. destruct (decode_encode c rest max Hc Hle) as [Hd _]. rewrite Hr in Hd. by simplify_eq. }
  exists r. split_and!; [done|done|lia|lia| |done|by intros [_ ?]%Hv]. intros c. split.
  - intros [[Hs He]%Hv <-]. split; [done|].
    exists (drop (Z.to_nat (bytes r)) (take (Z.to_nat max) data)).
    rewrite He, <- (take_drop (Z.to_nat (bytes r)) (take _ _)) at 1.
    rewrite take_take. do 2 f_equal. lia.
  - intros (Hc & rest & He). rewrite (Hround c (rest ++ drop (Z.to_nat max) data)); [done|done| |].
    + by rewrite app_assoc, <- He, take_drop.
    + apply (f_equal zlen) in He. rewrite zlen_take, zlen_app in He by lia.
      pose proof (zlen_nonneg rest). lia.
Qed.

(** * Traversals *)

Lemma encode_all_cons c cs : encode_all (c :: cs) = encode c ++ encode_all cs.
Proof. done. Qed.

Lemma encode_all_app cs ds : encode_all (cs ++ ds) = encode_all cs ++ encode_all ds.
Proof. unfold encode_all. by rewrite fmap_app, concat_app. Qed.

(** Encodings are a prefix code: the decoder reads the first one back. *)
Lemma encode_prefix c d X Y :
  is_scalar c → is_scalar d → encode c ++ X = encode d ++ Y → c = d ∧ X = Y.
Proof.
  intros Hc Hd He.
  pose proof (encode_length c). pose proof (encode_length d).
  destruct (decode_encode c X 4 Hc) as [Hc' _]; [lia|].
  destruct (decode_encode d Y 4 Hd) as [Hd' _]; [lia|].
  rewrite He, Hd' in Hc'. simplify_eq. split; [done|]. by apply (inj (app (encode c))).
Qed.

(** The window of a traversal at [pos]. *)
Lemma window_split {A} (data : list A) pos len :
  0 <= pos <= len → len <= zlen data →
  drop (Z.to_nat pos) data
    = drop (Z.to_nat pos) (take (Z.to_nat len) data) ++ drop (Z.to_nat len) data.
Proof.
  intros. rewrite <- (take_drop (Z.to_nat len) data) at 1.
  apply drop_app_le. rewrite length_take. unfold zlen in *. lia.
Qed.

Lemma decode_at data pos len :
  Forall is_byte data → 0 <= pos < len → len <= zlen data →
  ∃ r, ak_utf8_decode (at_ data pos) (len - pos) = Ret r
    ∧ ak_utf8_char_len (at_ data pos) (len - pos) = Ret (bytes r)
    ∧ 1 <= bytes r <= Z.min 4 (len - pos)
    ∧ (valid r = true → is_scalar (codepoint r) ∧
         drop (Z.to_nat pos) (take (Z.to_nat len) data)
         = encode (codepoint r) ++ drop (Z.to_nat (pos + bytes r)) (take (Z.to_nat len) data))
    ∧ (∀ c X, is_scalar c → drop (Z.to_nat pos) (take (Z.to_nat len) data) = encode c ++ X →
         r = mk_decode c (zlen (encode c)) true).
Proof.
  intros HF Hpos Hlen. pose proof (window_split data pos len ltac:(lia) Hlen) as Hw.
  destruct (decode_decoded (drop (Z.to_nat pos) data) (len - pos))
    as (r & Hr & [Hb Hcp Hv] & Hcl); [by apply Forall_drop|rewrite zlen_drop; lia|].
  exists r. split_and!; [done|done|lia|lia| |].
  - intros [Hs He]%Hv. split; [done|].
    rewrite <- (take_drop (Z.to_nat (bytes r)) (drop _ (take _ _))), drop_drop.
    f_equal; [|f_equal; lia]. rewrite He, Hw, take_app_le; [done|].
    rewrite length_drop, length_take. unfold zlen in *. lia.
  - intros c X Hc He. unfold at_ in Hr. rewrite Hw, He, <- app_assoc in Hr.
    destruct (decode_encode c (X ++ drop (Z.to_nat len) data) (len - pos) Hc)
      as [Hd _]; [|congruence].
    assert (zlen (drop (Z.to_nat pos) (take (Z.to_nat len) data)) = len - pos) as Hz.
    { rewrite zlen_drop; rewrite zlen_take; lia. }
    rewrite He, zlen_app in Hz. pose proof (zlen_nonneg X). lia.
Qed.

(** [ak_utf8_validate] accepts exactly the byte strings that are
    concatenations of encoded scalar values. *)
Theorem ak_utf8_validate_spec data len :
  Forall is_byte data → 0 <= len <= zlen data →
  ∃ b, ak_utf8_validate (Some data) len = Ret b
    ∧ (b = true ↔ ∃ cs, Forall is_scalar cs ∧ take (Z.to_nat len) data = encode_all cs).
Proof.
  intros HF Hlen.
  cut (wpo (ak_utf8_validate (Some data) len) (λ b, b = true ↔
    ∃ cs, Forall is_scalar cs ∧ take (Z.to_nat len) data = encode_all cs)).
  { destruct (ak_utf8_validate _ _) as [b| |]; [eauto|done|done]. }
  unfold ak_utf8_validate.
  apply (loop_wpo (λ pos, 0 <= pos <= len ∧
      ((∃ cs, Forall is_scalar cs ∧ take (Z.to_nat len) data = encode_all cs) ↔
       (∃ cs, Forall is_scalar cs
          ∧ drop (Z.to_nat pos) (take (Z.to_nat len) data) = encode_all cs)))
    (λ pos, Z.to_nat (len - pos))); [split; [lia|done]|lia|].
  intros pos [Hpos Hiff]. destruct (Z.ltb_spec pos len).
  - destruct (decode_at data pos len HF ltac:(lia) ltac:(lia))
      as (r & -> & _ & Hb & Hv & Hc). wsteps.
    rewrite (proj2 (Z.eqb_neq (bytes r) 0)), orb_false_r by lia.
    destruct (valid r) eqn:Hval; simpl.
    + destruct (Hv eq_refl) as [Hs He]. split; [|lia]. split; [lia|]. rewrite Hiff, He.
      split.
      * intros ([|c cs] & Hcs & Heq).
        { pose proof (encode_length (codepoint r)) as HL.
          apply (f_equal zlen) in Heq. rewrite zlen_app in Heq.
          unfold zlen in *. simpl in Heq. lia. }
        apply Forall_cons_1 in Hcs as [Hc' Hcs].
        apply encode_prefix in Heq as [_ Heq]; [|done|done]. eauto.
      * intros (cs & Hcs & ->). exists (codepoint r :: cs). split; [by constructor|done].
    + rewrite Hiff. split; [done|]. intros ([|c cs] & Hcs & Heq).
      * assert (zlen (drop (Z.to_nat pos) (take (Z.to_nat len) data)) = 0) as Hz
          by (by rewrite Heq).
        rewrite zlen_drop in Hz; rewrite zlen_take in *; lia.
      * apply Forall_cons_1 in Hcs as [Hc' _].
        rewrite (Hc c (encode_all cs) Hc' Heq) in Hval. done.
  - simpl. rewrite Hiff. split; [|done]. intros _. exists []. split; [constructor|].
    apply drop_ge. rewrite length_take. lia.
Qed.

(** A decoded prefix of a text. *)
Lemma window_next data pos len c ds :
  0 <= pos → drop (Z.to_nat pos) (take (Z.to_nat len) data) = encode_all (c :: ds) →
  drop (Z.to_nat (pos + zlen (encode c))) (take (Z.to_nat len) data) = encode_all ds.
Proof.
  intros Hpos He. pose proof (zlen_nonneg (encode c)).
  rewrite Z2Nat.inj_add, <- drop_drop, He, encode_all_cons by lia.
  apply drop_app_length'. unfold zlen. lia.
Qed.

(** The end of a text is where no scalar value is left. *)
Lemma window_end {A} (data : list A) pos len :
  0 <= pos → len <= pos → drop (Z.to_nat pos) (take (Z.to_nat len) data) = [].
Proof. intros. apply drop_ge. rewrite length_take. lia. Qed.

Lemma encode_all_nil cs : encode_all cs = [] → cs = [].
Proof.
  destruct cs as [|c cs]; [done|]. intros He. apply (f_equal zlen) in He.
  rewrite encode_all_cons, zlen_app, zlen_nil in He.
  pose proof (encode_length c). pose proof (zlen_nonneg (encode_all cs)). lia.
Qed.

(** [ak_utf8_char_count] stays inside the bytes and ends; every character
    takes one to four bytes, and on a valid text it counts the scalar values. *)
Theorem ak_utf8_char_count_spec data len :
  Forall is_byte data → 0 <= len <= zlen data →
  ∃ n, ak_utf8_char_count (Some data) len = Ret n
    ∧ n <= len <= 4 * n
    ∧ (∀ cs, Forall is_scalar cs → take (Z.to_nat len) data = encode_all cs → n = zlen cs).
Proof.
  intros HF Hlen.
  cut (wpo (ak_utf8_char_count (Some data) len) (λ n, n <= len <= 4 * n ∧
    ∀ cs, Forall is_scalar cs → take (Z.to_nat len) data = encode_all cs → n = zlen cs)).
  { destruct (ak_utf8_char_count _ _) as [n| |]; simpl; [eauto|done|done]. }
  unfold ak_utf8_char_count.
  apply (loop_wpo (λ '(count, pos), 0 <= pos <= len ∧ count <= pos <= 4 * count ∧
      ∀ cs, Forall is_scalar cs → take (Z.to_nat len) data = encode_all cs →
        ∃ ds, Forall is_scalar ds ∧ count + zlen ds = zlen cs ∧
          drop (Z.to_nat pos) (take (Z.to_nat len) data) = encode_all ds)
    (λ '(count, pos), Z.to_nat (len - pos))); [|lia|].
  { split; [lia|]. split; [lia|]. intros cs Hcs He. by exists cs. }
  intros [count pos] (Hpos & Hc & Hcs). destruct (Z.ltb_spec pos len).
  - destruct (decode_at data pos len HF ltac:(lia) ltac:(lia))
      as (r & _ & -> & Hb & _ & Hd). wsteps.
    rewrite (proj2 (Z.eqb_neq (bytes r) 0)) by lia. simpl. split; [|lia].
    split; [lia|]. split; [lia|]. intros cs HS He.
    destruct (Hcs cs HS He) as ([|c ds] & Hds & Hn & Hdrop).
    { apply (f_equal zlen) in Hdrop. change (zlen (encode_all [])) with 0 in Hdrop.
      rewrite zlen_drop in Hdrop; rewrite zlen_take in *; lia. }
    apply Forall_cons_1 in Hds as [Hcc Hds]. exists ds.
    rewrite (Hd c (encode_all ds) Hcc Hdrop). simpl.
    split; [done|]. split; [rewrite <- Hn, zlen_cons; lia|].
    by apply (window_next _ _ _ c); [lia|].
  - simpl. split; [lia|]. intros cs HS He.
    destruct (Hcs cs HS He) as (ds & _ & <- & Hdrop).
    rewrite window_end in Hdrop by lia. symmetry in Hdrop.
    apply encode_all_nil in Hdrop as ->. rewrite zlen_nil. lia.
Qed.

(** ** Graphemes *)

(** A grapheme is a scalar value and the combining marks that follow it; the
    first value of a text starts one even when it is a mark. *)
Fixpoint marks (cs : list Z) : list Z :=
  match cs with
  | c :: cs => if ak_utf8_is_combining_mark c then c :: marks cs else []
  | [] => []
  end.

Definition graphemes (cs : list Z) : Z :=
  match cs with
  | [] => 0
  | _ :: cs => 1 + zlen (filter (λ c, ak_utf8_is_combining_mark c = false) cs)
  end.

Lemma marks_split cs : cs = marks cs ++ drop (length (marks cs)) cs.
Proof.
  induction cs as [|c cs IH]; [done|]. simpl. destruct (ak_utf8_is_combining_mark c); [|done].
  simpl. by rewrite <- IH.
Qed.

Lemma marks_graphemes c cs :
  graphemes (c :: cs) = 1 + graphemes (drop (length (marks cs)) cs).
Proof.
  simpl. f_equal. induction cs as [|d cs IH]; [done|]. simpl.
  destruct (ak_utf8_is_combining_mark d) eqn:E; simpl.
  - rewrite filter_cons_False by congruence. done.
  - rewrite filter_cons_True by done. rewrite zlen_cons. lia.
Qed.


Lemma grapheme_len_ok d max :
  Forall is_byte d → 1 <= max <= zlen d →
  wpo (ak_utf8_grapheme_len (Some d) max) (λ g, 1 <= g <= max ∧
    ∀ c ds, Forall is_scalar (c :: ds) → take (Z.to_nat max) d = encode_all (c :: ds) →
      g = zlen (encode_all (c :: marks ds))).
Proof.
  intros HF Hmax. unfold ak_utf8_grapheme_len.
  rewrite (proj2 (Z.eqb_neq max 0)) by lia.
  destruct (decode_at d 0 max HF ltac:(lia) ltac:(lia)) as (r & Hr & Hl & Hb & _ & Hd).
  unfold at_ in Hr, Hl. rewrite Z.sub_0_r in *.
  change (drop (Z.to_nat 0) d) with d in Hr, Hl. rewrite Hl. wsteps.
  rewrite (proj2 (Z.eqb_neq (bytes r) 0)), (proj2 (Z.ltb_ge max _)) by lia. simpl.
  rewrite Hr. wsteps.
  destruct (valid r) eqn:Hval; cbn [negb].
  2:{ simpl. split; [lia|]. intros c ds Hcs He. apply Forall_cons_1 in Hcs as [Hc _].
      by rewrite (Hd c (encode_all ds) Hc He) in Hval. }
  apply (loop_wpo (λ '(total, p), total = p ∧ 1 <= p <= max ∧
      ∀ c ds, Forall is_scalar (c :: ds) → take (Z.to_nat max) d = encode_all (c :: ds) →
        ∃ es, Forall is_scalar es ∧ drop (Z.to_nat p) (take (Z.to_nat max) d) = encode_all es
          ∧ p + zlen (encode_all (marks es)) = zlen (encode_all (c :: marks ds)))
    (λ '(total, p), Z.to_nat (max - p))); [|lia|].
  { split; [done|]. split; [lia|]. intros c ds Hcs He. exists ds.
    apply Forall_cons_1 in Hcs as [Hc Hds]. rewrite (Hd c (encode_all ds) Hc He). simpl.
    split; [done|]. split; [by apply (window_next _ 0 _ c ds)|].
    by rewrite (encode_all_cons c (marks ds)), zlen_app. }
  clear dependent r. intros [? p] (-> & Hp & Hcs). destruct (Z.ltb_spec p max).
  - destruct (decode_at d p max HF ltac:(lia) ltac:(lia)) as (r & -> & _ & Hb & _ & Hd).
    wsteps.
    assert (∀ c ds, Forall is_scalar (c :: ds) → take (Z.to_nat max) d = encode_all (c :: ds) →
      ∃ e es, Forall is_scalar es ∧ r = mk_decode e (zlen (encode e)) true ∧
        drop (Z.to_nat p) (take (Z.to_nat max) d) = encode_all (e :: es) ∧
        p + zlen (encode_all (marks (e :: es))) = zlen (encode_all (c :: marks ds))) as Hnext.
    { intros c ds HS He. destruct (Hcs c ds HS He) as ([|e es] & Hes & Hdrop & Hn).
      { apply (f_equal zlen) in Hdrop. change (zlen (encode_all [])) with 0 in Hdrop.
        rewrite zlen_drop in Hdrop; rewrite zlen_take in *; lia. }
      apply Forall_cons_1 in Hes as [He1 Hes]. exists e, es.
      by rewrite (Hd e (encode_all es) He1 Hdrop). }
    destruct (valid r) eqn:Hval; simpl.
    2:{ split; [lia|]. intros c ds HS He.
        destruct (Hnext c ds HS He) as (e & es & _ & -> & _). done. }
    destruct (ak_utf8_is_combining_mark (codepoint r)) eqn:Hm; simpl.
    + split; [|lia]. split; [done|]. split; [lia|]. intros c ds HS He.
      destruct (Hnext c ds HS He) as (e & es & Hes & -> & Hdrop & Hn). simpl in *.
      rewrite Hm in Hn. rewrite encode_all_cons, zlen_app in Hn. exists es.
      split; [done|]. split; [by apply (window_next _ _ _ e); [lia|]|lia].
    + split; [lia|]. intros c ds HS He.
      destruct (Hnext c ds HS He) as (e & es & _ & -> & _ & Hn). simpl in *.
      rewrite Hm in Hn. change (zlen (encode_all [])) with 0 in Hn. lia.
  - simpl. split; [lia|]. intros c ds HS He. destruct (Hcs c ds HS He) as (es & _ & Hdrop & Hn).
    rewrite window_end in Hdrop by lia. symmetry in Hdrop.
    apply encode_all_nil in Hdrop as ->. change (zlen (encode_all (marks []))) with 0 in Hn. lia.
Qed.

(** [ak_utf8_grapheme_count] stays inside the bytes and ends, and on a valid
    text counts its graphemes: every combining mark but a leading one belongs to
    the grapheme before it. *)
Theorem ak_utf8_grapheme_count_spec data len :
  Forall is_byte data → 0 <= len <= zlen data →
  ∃ n, ak_utf8_grapheme_count (Some data) len = Ret n
    ∧ 0 <= n <= len
    ∧ (∀ cs, Forall is_scalar cs → take (Z.to_nat len) data = encode_all cs →
         n = graphemes cs).
Proof.
  intros HF Hlen.
  cut (wpo (ak_utf8_grapheme_count (Some data) len) (λ n, 0 <= n <= len ∧
    ∀ cs, Forall is_scalar cs → take (Z.to_nat len) data = encode_all cs →
      n = graphemes cs)).
  { destruct (ak_utf8_grapheme_count _ _) as [n| |]; simpl; [eauto|done|done]. }
  unfold ak_utf8_grapheme_count.
  apply (loop_wpo (λ '(count, pos), 0 <= count <= pos ∧ pos <= len ∧
      ∀ cs, Forall is_scalar cs → take (Z.to_nat len) data = encode_all cs →
        ∃ ds, Forall is_scalar ds ∧ count + graphemes ds = graphemes cs ∧
          drop (Z.to_nat pos) (take (Z.to_nat len) data) = encode_all ds)
    (λ '(count, pos), Z.to_nat (len - pos))); [|lia|].
  { split; [lia|]. split; [lia|]. intros cs Hcs He. by exists cs. }
  intros [count pos] (Hc & Hpos & Hcs). destruct (Z.ltb_spec pos len).
  - unfold at_. wsteps. eapply wpo_mono.
    { apply grapheme_len_ok; [by apply Forall_drop|rewrite zlen_drop; lia]. }
    intros g [Hg Hgs]. wsteps. rewrite (proj2 (Z.eqb_neq g 0)) by lia. simpl.
    split; [|lia]. split; [lia|]. split; [lia|]. intros cs HS He.
    destruct (Hcs cs HS He) as ([|c ds] & Hds & Hn & Hdrop).
    { apply (f_equal zlen) in Hdrop. change (zlen (encode_all [])) with 0 in Hdrop.
      rewrite zlen_drop in Hdrop; rewrite zlen_take in *; lia. }
    rewrite marks_graphemes in Hn. exists (drop (length (marks ds)) ds).
    apply Forall_cons_1 in Hds as [Hcc Hds].
    split; [by apply Forall_drop|]. split; [lia|].
    assert (g = zlen (encode_all (c :: marks ds))) as ->.
    { apply Hgs; [by constructor|]. rewrite <- Hdrop, skipn_firstn_comm.
      f_equal. lia. }
    rewrite Z2Nat.inj_add, <- drop_drop, Hdrop by (apply zlen_nonneg || lia).
    rewrite (marks_split ds) at 2.
    change (c :: marks ds ++ ?x) with ((c :: marks ds) ++ x).
    rewrite encode_all_app. apply drop_app_length'. unfold zlen. lia.
  - simpl. split; [lia|]. intros cs HS He.
    destruct (Hcs cs HS He) as (ds & _ & <- & Hdrop).
    rewrite window_end in Hdrop by lia. symmetry in Hdrop.
    apply encode_all_nil in Hdrop as ->. simpl. lia.
Qed.

(** ** Moving back *)

(** An encoding is a lead byte followed by continuation bytes. *)
Lemma encode_cont c i b :
  is_scalar c → encode c !! i = Some b →
  ak_utf8_is_continuation_byte b = negb (i =? 0)%nat.
Proof.
  intros Hc Hb. assert (is_byte b) as HB.
  { pose proof (encode_bytes c Hc) as HF. rewrite Forall_lookup in HF. eauto. }
  unfold ak_utf8_is_continuation_byte. rewrite cont_byte by done.
  destruct Hc as [Hc _]. revert Hb. unfold encode.
  repeat (zcase; try lia); destruct i as [|[|[|[|i]]]]; simpl; intros Hb;
    simplify_eq; try done; repeat (zcase; try dlia); try done; exfalso; dlia.
Qed.

(** From the end of a character of a valid text, [ak_utf8_prev_char] finds
    its first byte; it reads no byte outside the text. *)
Theorem ak_utf8_prev_char_spec cs c rest :
  is_scalar c →
  ak_utf8_prev_char (encode_all (cs ++ [c]) ++ rest) (zlen (encode_all (cs ++ [c])))
    = Ret (zlen (encode_all cs)).
Proof.
  intros Hc. set (start := zlen (encode_all cs)). set (n := zlen (encode c)).
  assert (zlen (encode_all (cs ++ [c])) = start + n) as ->.
  { subst start n. rewrite encode_all_app, zlen_app, encode_all_cons.
    by rewrite app_nil_r. }
  assert (1 <= n <= 4) as Hn by apply encode_length.
  assert (0 <= start) as Hs by apply zlen_nonneg.
  assert (∀ k, 0 <= k < n → ∃ b, rd (encode_all (cs ++ [c]) ++ rest) (start + k) = Ret b
    ∧ ak_utf8_is_continuation_byte b = negb (k =? 0)) as Hrd.
  { intros k Hk. destruct (lookup_lt_is_Some_2 (encode c) (Z.to_nat k)) as [b Hb];
      [subst n; unfold zlen in Hk; lia|].
    exists b. split.
    - apply rd_lookup; [lia|].
      rewrite encode_all_app, <- app_assoc, lookup_app_r by (subst start; unfold zlen; lia).
      replace (Z.to_nat (start + k) - length (encode_all cs))%nat with (Z.to_nat k)
        by (subst start; unfold zlen; lia).
      rewrite encode_all_cons, <- app_assoc. by apply lookup_app_l_Some.
    - rewrite (encode_cont c _ b Hc Hb). f_equal. destruct (Z.eqb_spec k 0), (Nat.eqb_spec (Z.to_nat k) 0); lia. }
  clearbody n start. apply wpo_eq. unfold ak_utf8_prev_char. rewrite (proj2 (Z.eqb_neq (start + n) 0)) by lia.
  apply (loop_wpo (λ '(pos, steps), ∃ k, pos = start + k ∧ 0 <= k ∧ steps = n - 1 - k
      ∧ 0 <= steps)
    (λ '(pos, steps), Z.to_nat (pos - start))); [exists (n - 1); lia|lia|].
  intros [pos steps] (k & -> & Hk & -> & Hst). destruct (Z.ltb_spec 0 (start + k)).
  - destruct (Hrd k) as (b & -> & Hb); [lia|]. wsteps. rewrite Hb.
    destruct (Z.eqb_spec k 0); simpl; [lia|].
    rewrite (proj2 (Z.ltb_lt _ 3)) by lia. split; [|lia]. exists (k - 1). lia.
  - simpl. lia.
Qed.

(** * Witnesses *)

(** "e", a combining acute accent, the euro sign. *)
Definition wtext : list Z := [0x65; 0xCC; 0x81; 0xE2; 0x82; 0xAC].

Lemma wtext_bytes : Forall is_byte wtext.
Proof. repeat constructor; unfold is_byte; lia. Qed.

Lemma wtext_scalar : Forall is_scalar [0x65; 0x301; 0x20AC].
Proof. repeat constructor; unfold is_scalar; lia. Qed.

Lemma ak_utf8_decode_spec_witness :
  ∃ r, ak_utf8_decode (Some [0xE2; 0x82; 0xAC]) 3 = Ret r ∧ r = mk_decode 0x20AC 3 true.
Proof.
  destruct (ak_utf8_decode_spec [0xE2; 0x82; 0xAC] 3) as (r & Hr & _ & _ & _ & Hc & _).
  - repeat constructor; unfold is_byte; lia.
  - unfold zlen; simpl; lia.
  - exists r. split; [done|]. apply (Hc 0x20AC []); [unfold is_scalar; lia|reflexivity|by vm_compute].
Defined.

Lemma ak_utf8_validate_spec_witness : ∃ b, ak_utf8_validate (Some wtext) 6 = Ret b ∧ b = true.
Proof.
  destruct (ak_utf8_validate_spec wtext 6) as (b & Hb & Hiff);
    [exact wtext_bytes|unfold zlen; simpl; lia|].
  exists b. split; [done|]. apply Hiff. exists [0x65; 0x301; 0x20AC].
  split; [exact wtext_scalar|reflexivity].
Defined.

Lemma ak_utf8_char_count_spec_witness :
  ∃ n, ak_utf8_char_count (Some wtext) 6 = Ret n ∧ n = 3.
Proof.
  destruct (ak_utf8_char_count_spec wtext 6) as (n & Hn & _ & Hcs);
    [exact wtext_bytes|unfold zlen; simpl; lia|].
  exists n. split; [done|]. by apply (Hcs _ wtext_scalar).
Defined.

Lemma ak_utf8_grapheme_count_spec_witness :
  ∃ n, ak_utf8_grapheme_count (Some wtext) 6 = Ret n ∧ n = 2.
Proof.
  destruct (ak_utf8_grapheme_count_spec wtext 6) as (n & Hn & _ & Hcs);
    [exact wtext_bytes|unfold zlen; simpl; lia|].
  exists n. split; [done|]. by apply (Hcs _ wtext_scalar).
Defined.

Lemma ak_utf8_prev_char_spec_witness : ak_utf8_prev_char wtext 6 = Ret 3.
Proof.
  apply (ak_utf8_prev_char_spec [0x65; 0x301] 0x20AC []). unfold is_scalar; lia.
Defined.
