(* ===== verification/Scanner.v ===== *)
(** The lexical scanner: [kernel/scanner/src/scanner.c].

    A scanner borrows a buffer and keeps a position in it.  A token is
    answered as a slice of the buffer, so the pointer [&buf->data[token_start]]
    is the offset [token_start].  The theorems say what is read from a valid
    text, that no byte outside the buffer's contents is touched whatever they
    are, and that a failing call leaves the scanner where it was. *)

From S2P Require Import Prelude Buffer Utf8.

Inductive ak_static_base_e :=
| AK24_STATIC_BASE_NONE
| AK24_STATIC_BASE_INTEGER
| AK24_STATIC_BASE_REAL
| AK24_STATIC_BASE_SYMBOL.

Record ak_static_type_t := mk_static {
  base : ak_static_base_e;
  st_data : option Z;
  byte_length : Z;
}.

Record ak_scanner_t := mk_scanner {
  sc_buffer : option ak_buffer_t;
  position : Z;
}.

Record ak_scanner_static_type_result_t := mk_static_result {
  success : bool;
  start_position : Z;
  error_position : Z;
  data : ak_static_type_t;
}.

Record ak_scanner_find_group_result_t := mk_group {
  group_success : bool;
  index_of_start_symbol : Z;
  index_of_closing_symbol : Z;
}.

(** [None] is a null [stop_symbols] (or a null array in it). *)
Definition ak_scanner_stop_symbols_t : Type := option (list Z).

Inductive parse_state_t :=
| STATE_START
| STATE_SIGN
| STATE_INTEGER
| STATE_REAL
| STATE_SYMBOL
| STATE_ERROR.

#[export] Instance parse_state_eq : EqDecision parse_state_t.
Proof. solve_decision. Defined.
#[export] Instance static_base_eq : EqDecision ak_static_base_e.
Proof. solve_decision. Defined.

Definition sizeof_ak_scanner_t : Z := 16.

Section scanner.
Context `{Allocator}.

Definition ak_scanner_new (buffer : option ak_buffer_t) (pos : Z)
    : M (option ak_scanner_t) :=
  match buffer with
  | None => mret None
  | Some b =>
      if b_count b <? pos then mret None else
      ok ← alloc_obj sizeof_ak_scanner_t;
      mret (if ok : bool then Some (mk_scanner buffer pos) else None)
  end.

Definition ak_scanner_free (scanner : option ak_scanner_t) : M () :=
  match scanner with
  | None => mret ()
  | Some _ => free_obj
  end.
End scanner.

(** [' '], [\t], [\n], [\r] *)
Definition ascii_white (c : Z) : bool :=
  (c =? 0x20) || (c =? 0x09) || (c =? 0x0A) || (c =? 0x0D).

Definition is_whitespace_at (buf : ak_buffer_t) (pos : Z) : outcome bool :=
  if b_count buf <=? pos then Ret false else
  result ← ak_utf8_decode (at_ (b_data buf) pos) (b_count buf - pos);
  if negb (valid result) then
    c ← rd (b_data buf) pos;
    Ret (ascii_white c)
  else Ret (ak_utf8_is_whitespace (codepoint result)).

Definition is_digit_at (buf : ak_buffer_t) (pos : Z) : outcome bool :=
  if b_count buf <=? pos then Ret false else
  result ← ak_utf8_decode (at_ (b_data buf) pos) (b_count buf - pos);
  if negb (valid result) then
    c ← rd (b_data buf) pos;
    Ret ((0x30 <=? c) && (c <=? 0x39))
  else Ret (ak_utf8_is_digit (codepoint result)).

Definition char_byte_len_at (buf : ak_buffer_t) (pos : Z) : outcome Z :=
  if b_count buf <=? pos then Ret 0
  else ak_utf8_char_len (at_ (b_data buf) pos) (b_count buf - pos).

Definition is_stop_symbol (c : Z) (stop_symbols : ak_scanner_stop_symbols_t) : bool :=
  match stop_symbols with
  | None => false
  | Some symbols => existsb (Z.eqb c) symbols
  end.

(** The turns a loop over the buffer may take: each moves by a byte or more. *)
Definition scan_fuel (buf : ak_buffer_t) : nat := S (Z.to_nat (b_count buf)).

(** [while (pos < buf->count && is_whitespace_at(buf, pos)) ...] *)
Definition skip_white (buf : ak_buffer_t) (pos : Z) : outcome Z :=
  loop (scan_fuel buf) (λ pos,
    if pos <? b_count buf then
      white ← is_whitespace_at buf pos;
      if white : bool then
        char_len ← char_byte_len_at buf pos;
        if char_len =? 0 then Ret (inr pos) else Ret (inl (pos + char_len))
      else Ret (inr pos)
    else Ret (inr pos)) pos.

(** The state in which the token at [pos] is read, and where reading starts. *)
Definition first_state (buf : ak_buffer_t) (token_start : Z)
    : outcome (parse_state_t * Z) :=
  first_char ← rd (b_data buf) token_start;
  if (first_char =? 0x2B) || (first_char =? 0x2D) then
    let pos := token_start + 1 in
    if b_count buf <=? pos then Ret (STATE_SYMBOL, token_start + 1) else
    digit ← is_digit_at buf pos;
    if digit : bool then Ret (STATE_INTEGER, pos) else
    white ← is_whitespace_at buf pos;
    if white : bool then Ret (STATE_SYMBOL, token_start + 1)
    else Ret (STATE_SYMBOL, pos)
  else
    digit ← is_digit_at buf token_start;
    if digit : bool then Ret (STATE_INTEGER, token_start)
    else Ret (STATE_SYMBOL, token_start).

(** The body of the state machine's loop. *)
Definition token_step (buf : ak_buffer_t) (stop_symbols : ak_scanner_stop_symbols_t)
    : parse_state_t * Z → outcome (parse_state_t * Z + parse_state_t * Z) :=
  λ '(state, pos),
    if negb ((pos <? b_count buf) && negb (bool_decide (state = STATE_ERROR)))
    then Ret (inr (state, pos)) else
    c ← rd (b_data buf) pos;
    white ← is_whitespace_at buf pos;
    if white : bool then Ret (inr (state, pos)) else
    if is_stop_symbol c stop_symbols then Ret (inr (state, pos)) else
    match state with
    | STATE_INTEGER =>
        digit ← is_digit_at buf pos;
        if digit : bool then Ret (inl (STATE_INTEGER, pos + 1)) else
        if c =? 0x2E then Ret (inl (STATE_REAL, pos + 1))
        else Ret (inl (STATE_ERROR, pos))
    | STATE_REAL =>
        digit ← is_digit_at buf pos;
        if digit : bool then Ret (inl (STATE_REAL, pos + 1))
        else Ret (inl (STATE_ERROR, pos))
    | STATE_SYMBOL =>
        char_len ← char_byte_len_at buf pos;
        if char_len =? 0 then Ret (inl (STATE_ERROR, pos))
        else Ret (inl (STATE_SYMBOL, pos + char_len))
    | _ => Ret (inl (STATE_ERROR, pos))
    end.

Definition no_token : ak_static_type_t := mk_static AK24_STATIC_BASE_NONE None 0.

Definition base_of_state (state : parse_state_t) : ak_static_base_e :=
  match state with
  | STATE_INTEGER => AK24_STATIC_BASE_INTEGER
  | STATE_REAL => AK24_STATIC_BASE_REAL
  | _ => AK24_STATIC_BASE_SYMBOL
  end.

(** The scanner is dereferenced without a check of its buffer. *)
Definition ak_scanner_read_static_base_type (scanner : option ak_scanner_t)
    (stop_symbols : ak_scanner_stop_symbols_t)
    : outcome (ak_scanner_static_type_result_t * option ak_scanner_t) :=
  match scanner with
  | None => Ret (mk_static_result false 0 0 no_token, None)
  | Some sc =>
      let start_pos := position sc in
      match sc_buffer sc with
      | None => Undef
      | Some buf =>
          let fail pos := Ret (mk_static_result false start_pos pos no_token, scanner) in
          pos ← skip_white buf start_pos;
          if b_count buf <=? pos then fail pos else
          c ← rd (b_data buf) pos;
          if is_stop_symbol c stop_symbols then fail pos else
          let token_start := pos in
          '(state, pos) ← first_state buf token_start;
          '(state, pos) ← loop (S (scan_fuel buf)) (token_step buf stop_symbols) (state, pos);
          if bool_decide (state = STATE_ERROR) then fail pos else
          if pos =? token_start then fail pos else
          Ret (mk_static_result true start_pos 0
                 (mk_static (base_of_state state) (Some token_start) (pos - token_start)),
               Some (mk_scanner (Some buf) pos))
      end
  end.

Definition no_group : ak_scanner_find_group_result_t := mk_group false 0 0.

(** One turn of the search for the closing delimiter; [int depth] overflows at
    2^31. *)
Definition group_step (buf : ak_buffer_t) (must_start_with must_end_with : Z)
    (can_escape_with : option Z) (start_index : Z)
    : Z * Z → outcome (Z * Z + option Z) :=
  λ '(pos, depth),
    if pos <? b_count buf then
      current ← rd (b_data buf) pos;
      is_escaped ←
        match can_escape_with with
        | None => Ret false
        | Some esc =>
            if start_index + 1 <? pos then
              prev ← rd (b_data buf) (pos - 1);
              Ret (prev =? esc)
            else Ret false
        end;
      if is_escaped : bool then Ret (inl (pos + 1, depth)) else
      if must_start_with =? must_end_with then
        if current =? must_end_with then Ret (inr (Some pos))
        else Ret (inl (pos + 1, depth))
      else if current =? must_start_with then
        if depth =? 2 ^ 31 - 1 then Undef else Ret (inl (pos + 1, depth + 1))
      else if current =? must_end_with then
        if depth - 1 =? 0 then Ret (inr (Some pos))
        else Ret (inl (pos + 1, depth - 1))
      else Ret (inl (pos + 1, depth))
    else Ret (inr None).

Definition ak_scanner_find_group (scanner : option ak_scanner_t)
    (must_start_with must_end_with : Z) (can_escape_with : option Z)
    (consume_leading_ws : bool)
    : outcome (ak_scanner_find_group_result_t * option ak_scanner_t) :=
  match scanner with
  | None => Ret (no_group, scanner)
  | Some sc =>
      match sc_buffer sc with
      | None => Ret (no_group, scanner)
      | Some buf =>
          if b_count buf <=? position sc then Ret (no_group, scanner) else
          pos ← (if consume_leading_ws then skip_white buf (position sc)
                 else Ret (position sc));
          if consume_leading_ws && (b_count buf <=? pos) then Ret (no_group, scanner) else
          c ← rd (b_data buf) pos;
          if negb (c =? must_start_with) then Ret (no_group, scanner) else
          let start_index := pos in
          closing ← loop (scan_fuel buf)
            (group_step buf must_start_with must_end_with can_escape_with start_index)
            (pos + 1, 1);
          match closing with
          | None => Ret (no_group, scanner)
          | Some pos =>
              Ret (mk_group true start_index pos, Some (mk_scanner (Some buf) pos))
          end
      end
  end.

Definition ak_scanner_goto_next_non_white (scanner : option ak_scanner_t)
    : outcome (bool * option ak_scanner_t) :=
  match scanner with
  | None => Ret (false, scanner)
  | Some sc =>
      match sc_buffer sc with
      | None => Ret (false, scanner)
      | Some buf =>
          pos ← skip_white buf (position sc);
          if b_count buf <=? pos then Ret (false, scanner)
          else Ret (true, Some (mk_scanner (Some buf) pos))
      end
  end.

(** [while (pos < buf->count && buf->data[pos] != stop) pos++;] *)
Definition skip_until (buf : ak_buffer_t) (stop : Z) (pos : Z) : outcome Z :=
  loop (scan_fuel buf) (λ pos,
    if pos <? b_count buf then
      c ← rd (b_data buf) pos;
      if negb (c =? stop) then Ret (inl (pos + 1)) else Ret (inr pos)
    else Ret (inr pos)) pos.

(** One turn: a white character, a comment up to its newline, or the end. *)
Definition skip_step (buf : ak_buffer_t) (pos : Z) : outcome (Z + Z) :=
  if pos <? b_count buf then
    white ← is_whitespace_at buf pos;
    if white : bool then
      char_len ← char_byte_len_at buf pos;
      if char_len =? 0 then Ret (inr pos) else Ret (inl (pos + char_len))
    else
      c ← rd (b_data buf) pos;
      if c =? 0x3B then
        pos ← skip_until buf 0x0A pos;
        if pos <? b_count buf then
          c ← rd (b_data buf) pos;
          Ret (inl (if c =? 0x0A then pos + 1 else pos))
        else Ret (inl pos)
      else Ret (inr pos)
  else Ret (inr pos).

Definition ak_scanner_skip_whitespace_and_comments (scanner : option ak_scanner_t)
    : outcome (bool * option ak_scanner_t) :=
  match scanner with
  | None => Ret (false, scanner)
  | Some sc =>
      match sc_buffer sc with
      | None => Ret (false, scanner)
      | Some buf =>
          pos ← loop (scan_fuel buf) (skip_step buf) (position sc);
          if b_count buf <=? pos then Ret (false, scanner)
          else Ret (true, Some (mk_scanner (Some buf) pos))
      end
  end.

Definition ak_scanner_goto_next_target (scanner : option ak_scanner_t) (target_byte : Z)
    : outcome (bool * option ak_scanner_t) :=
  match scanner with
  | None => Ret (false, scanner)
  | Some sc =>
      match sc_buffer sc with
      | None => Ret (false, scanner)
      | Some buf =>
          let pos := position sc in
          if b_count buf <=? pos then Ret (false, scanner) else
          c ← rd (b_data buf) pos;
          if c =? target_byte then Ret (true, Some (mk_scanner (Some buf) pos)) else
          pos ← skip_until buf target_byte pos;
          if b_count buf <=? pos then Ret (false, scanner)
          else Ret (true, Some (mk_scanner (Some buf) pos))
      end
  end.

Arguments is_whitespace_at : simpl never.
Arguments is_digit_at : simpl never.
Arguments char_byte_len_at : simpl never.

(** * Texts in a buffer *)

(** The bytes from [pos] to the end are the encoding of [cs]. *)
Record text (buf : ak_buffer_t) (pos : Z) (cs : list Z) : Prop := mk_text {
  text_pos : 0 <= pos <= b_count buf;
  text_scalar : Forall is_scalar cs;
  text_bytes : drop (Z.to_nat pos) (contents buf) = encode_all cs;
}.

Lemma text_count buf pos cs :
  buffer_wf buf → text buf pos cs → pos + zlen (encode_all cs) = b_count buf.
Proof.
  intros Hwf [Hpos _ Hb]. pose proof (length_contents buf Hwf) as Hl.
  rewrite <- Hb, zlen_drop; lia.
Qed.

Lemma text_next buf pos c cs :
  buffer_wf buf → text buf pos (c :: cs) → text buf (pos + zlen (encode c)) cs.
Proof.
  intros Hwf Ht. pose proof (text_count _ _ _ Hwf Ht) as Hc. destruct Ht as [Hpos Hs Hb].
  rewrite encode_all_cons, zlen_app in Hc. pose proof (zlen_nonneg (encode_all cs)).
  pose proof (zlen_nonneg (encode c)). apply Forall_cons_1 in Hs as [_ Hs].
  split; [lia|done|]. by apply (window_next _ _ _ c); [lia|].
Qed.

Lemma text_nil buf pos cs : buffer_wf buf → text buf pos cs → b_count buf <= pos → cs = [].
Proof.
  intros Hwf Ht Hge. pose proof (text_count _ _ _ Hwf Ht) as Hc.
  destruct cs as [|c cs]; [done|]. rewrite encode_all_cons, zlen_app in Hc.
  pose proof (encode_length c). pose proof (zlen_nonneg (encode_all cs)). lia.
Qed.

Lemma text_cons buf pos cs :
  buffer_wf buf → text buf pos cs → pos < b_count buf → ∃ c ds, cs = c :: ds ∧ is_scalar c.
Proof.
  intros Hwf Ht Hlt. pose proof (text_count _ _ _ Hwf Ht) as Hc.
  destruct cs as [|c cs]; [change (zlen (encode_all [])) with 0 in Hc; lia|].
  destruct Ht as [_ Hs _]. apply Forall_cons_1 in Hs as [Hs _]. by exists c, cs.
Qed.

(** What the three helpers answer inside the contents. *)
Lemma char_at buf pos :
  buffer_wf buf → 0 <= pos < b_count buf →
  ∃ w d n, is_whitespace_at buf pos = Ret w ∧ is_digit_at buf pos = Ret d
    ∧ char_byte_len_at buf pos = Ret n ∧ 1 <= n <= b_count buf - pos
    ∧ (∀ c cs, text buf pos (c :: cs) →
         w = ak_utf8_is_whitespace c ∧ d = ak_utf8_is_digit c ∧ n = zlen (encode c)).
Proof.
  intros [Hblk Hcnt Hcap HF _] Hpos.
  destruct (decode_at (b_data buf) pos (b_count buf) HF ltac:(lia) ltac:(lia))
    as (r & Hr & Hl & Hb & _ & Hd).
  unfold is_whitespace_at, is_digit_at, char_byte_len_at.
  rewrite (proj2 (Z.leb_gt (b_count buf) pos)), Hr, Hl by lia.
  destruct (lookup_lt_is_Some_2 (b_data buf) (Z.to_nat pos)) as [b Hrd];
    [unfold zlen in Hblk; lia|].
  assert (rd (b_data buf) pos = Ret b) as -> by (apply rd_lookup; [lia|done]).
  simpl. destruct (valid r) eqn:Hv; simpl; do 3 eexists; (split_and!; [done..|lia|lia|]);
    intros c cs [_ Hs Ht]; apply Forall_cons_1 in Hs as [Hc _];
    rewrite (Hd c (encode_all cs) Hc Ht) in *; done.
Qed.

(** The first byte of a character. *)
Lemma text_rd buf pos c cs :
  buffer_wf buf → text buf pos (c :: cs) →
  ∃ b, rd (b_data buf) pos = Ret b ∧ is_byte b ∧ encode c !! 0%nat = Some b
    ∧ (c < 128 → b = c) ∧ (128 <= c → 192 <= b).
Proof.
  intros Hwf Ht. pose proof (text_count _ _ _ Hwf Ht) as Hc. destruct Ht as [Hpos Hs Hb].
  apply Forall_cons_1 in Hs as [Hc1 _]. destruct Hwf.
  destruct (encode c) as [|b l] eqn:E; [pose proof (encode_length c) as HL; rewrite E, zlen_nil in HL; lia|].
  exists b. assert (is_byte b) as HB.
  { pose proof (encode_bytes c Hc1) as HB. rewrite E in HB. by apply Forall_cons_1 in HB as []. }
  split_and!; [|done|done| |].
  - apply rd_lookup; [lia|]. rewrite encode_all_cons, E in Hb.
    rewrite <- (Nat.add_0_r (Z.to_nat pos)), <- (lookup_take_lt _ (Z.to_nat (b_count buf))).
    + rewrite <- lookup_drop. unfold contents in Hb. by rewrite Hb.
    + rewrite encode_all_cons, E, zlen_app, zlen_cons in Hc.
      pose proof (zlen_nonneg (encode_all cs)). pose proof (zlen_nonneg l). lia.
  - intros Hlt. unfold encode in E. rewrite (proj2 (Z.ltb_lt c 0x80)) in E by lia. by simplify_eq.
  - intros Hge. unfold encode in E. destruct Hc1 as [Hr _].
    rewrite (proj2 (Z.ltb_ge c 0x80)) in E by lia.
    destruct (Z.ltb_spec c 0x800); [simplify_eq; dlia|].
    destruct (Z.ltb_spec c 0x10000); simplify_eq; dlia.
Qed.

(** Inside a multi-byte character nothing is white, a digit or ASCII. *)
Lemma text_inside buf pos c cs :
  buffer_wf buf → text buf pos (c :: cs) → 128 <= c →
  pos + 1 < b_count buf ∧ ∃ b, rd (b_data buf) (pos + 1) = Ret b ∧ 128 <= b
    ∧ is_whitespace_at buf (pos + 1) = Ret false ∧ is_digit_at buf (pos + 1) = Ret false.
Proof.
  intros Hwf Ht Hge. pose proof (text_count _ _ _ Hwf Ht) as Hc. destruct Ht as [Hpos Hs Hb].
  apply Forall_cons_1 in Hs as [Hc1 _]. destruct Hwf.
  assert (2 <= zlen (encode c)) as Hl2.
  { unfold encode. rewrite (proj2 (Z.ltb_ge c 0x80)) by lia. repeat zcase; unfold zlen; simpl; lia. }
  rewrite encode_all_cons, zlen_app in Hc. pose proof (zlen_nonneg (encode_all cs)).
  destruct (lookup_lt_is_Some_2 (encode c) 1) as [b Hb1]; [unfold zlen in Hl2; lia|].
  pose proof (encode_cont c 1 b Hc1 Hb1) as Hcont. simpl in Hcont.
  assert (is_byte b) as HB.
  { pose proof (encode_bytes c Hc1) as HB. rewrite Forall_lookup in HB. eauto. }
  unfold ak_utf8_is_continuation_byte in Hcont. rewrite cont_byte in Hcont by done.
  assert (drop (Z.to_nat (pos + 1)) (b_data buf) !! 0%nat = Some b) as Hd.
  { rewrite lookup_drop, Nat.add_0_r, <- (lookup_take_lt _ (Z.to_nat (b_count buf))) by lia.
    replace (Z.to_nat (pos + 1)) with (Z.to_nat pos + 1)%nat by lia.
    rewrite <- lookup_drop. unfold contents in Hb. rewrite Hb, encode_all_cons.
    by apply lookup_app_l_Some. }
  split; [lia|]. exists b. split; [|split; [lia|]].
  { apply rd_lookup; [lia|]. by rewrite lookup_drop, Nat.add_0_r in Hd. }
  assert (ak_utf8_decode (at_ (b_data buf) (pos + 1)) (b_count buf - (pos + 1))
    = Ret (mk_decode b 1 false)) as Hdec.
  { unfold ak_utf8_decode, at_. rewrite (proj2 (Z.eqb_neq _ 0)) by lia.
    destruct (drop (Z.to_nat (pos + 1)) (b_data buf)) as [|b' l]; simpl in Hd; [done|].
    simplify_eq. rewrite rd_hd. simpl.
    rewrite ascii_byte, lead2_byte, lead3_byte, lead4_byte by done. decide_cmp. done. }
  assert (rd (b_data buf) (pos + 1) = Ret b) as Hrd.
  { apply rd_lookup; [lia|]. by rewrite lookup_drop, Nat.add_0_r in Hd. }
  unfold is_whitespace_at, is_digit_at. rewrite (proj2 (Z.leb_gt _ (pos + 1))), Hdec by lia.
  simpl. rewrite Hrd. simpl. unfold ascii_white. decide_cmp. done.
Qed.

(** * Skipping *)

Fixpoint drop_white (cs : list Z) : list Z :=
  match cs with
  | c :: ds => if ak_utf8_is_whitespace c then drop_white ds else cs
  | [] => []
  end.

(** White characters and comments, from [;] to the end of the line. *)
Fixpoint drop_blank (in_comment : bool) (cs : list Z) : list Z :=
  match cs with
  | [] => []
  | c :: ds =>
      if in_comment then drop_blank (negb (c =? 0x0A)) ds
      else if ak_utf8_is_whitespace c then drop_blank false ds
      else if c =? 0x3B then drop_blank true ds
      else cs
  end.

(** Where the scanner stands when [cs] is left to read. *)
Definition pos_of (buf : ak_buffer_t) (cs : list Z) : Z :=
  b_count buf - zlen (encode_all cs).

Lemma text_pos_of buf pos cs : buffer_wf buf → text buf pos cs → pos = pos_of buf cs.
Proof. intros Hwf Ht. pose proof (text_count _ _ _ Hwf Ht). unfold pos_of. lia. Qed.

Lemma skip_white_ok buf pos :
  buffer_wf buf → 0 <= pos →
  wpo (skip_white buf pos) (λ q, pos <= q <= Z.max pos (b_count buf)
    ∧ (q < b_count buf → is_whitespace_at buf q = Ret false)
    ∧ (∀ cs, text buf pos cs → text buf q (drop_white cs))).
Proof.
  intros Hwf Hpos. unfold skip_white, scan_fuel. pose proof Hwf as [].
  apply (loop_wpo (λ q, pos <= q <= Z.max pos (b_count buf)
      ∧ ∀ cs, text buf pos cs → ∃ ds, text buf q ds ∧ drop_white ds = drop_white cs)
    (λ q, Z.to_nat (b_count buf - q))); [split; [lia|eauto]|lia|].
  intros q [Hq Ht]. destruct (Z.ltb_spec q (b_count buf)).
  - destruct (char_at buf q Hwf) as (w & d & n & Hwq & _ & Hn & Hb & Hc); [lia|].
    rewrite Hwq. wsteps. destruct w.
    + rewrite Hn. wsteps. rewrite (proj2 (Z.eqb_neq n 0)) by lia. simpl. split; [|lia].
      split; [lia|]. intros cs Hcs. destruct (Ht cs Hcs) as (ds & Hds & <-).
      destruct (text_cons _ _ _ Hwf Hds) as (c & es & -> & _); [done|].
      destruct (Hc _ _ Hds) as (Hw & _ & ->). exists es. split; [by apply text_next|].
      simpl. by rewrite <- Hw.
    + simpl. split; [lia|]. split; [done|]. intros cs Hcs.
      destruct (Ht cs Hcs) as (ds & Hds & <-).
      destruct (text_cons _ _ _ Hwf Hds) as (c & es & -> & _); [done|].
      destruct (Hc _ _ Hds) as (Hw & _). simpl. by rewrite <- Hw.
  - simpl. split; [lia|]. split; [lia|]. intros cs Hcs.
    destruct (Ht cs Hcs) as (ds & Hds & <-).
    pose proof (text_nil _ _ _ Hwf Hds ltac:(lia)) as ->. done.
Qed.

Lemma skip_until_ok buf stop pos :
  buffer_wf buf → 0 <= pos <= b_count buf →
  wpo (skip_until buf stop pos) (λ q, pos <= q <= b_count buf
    ∧ (∀ k b, pos <= k < q → contents buf !! Z.to_nat k = Some b → b ≠ stop)
    ∧ (q < b_count buf → contents buf !! Z.to_nat q = Some stop ∧ rd (b_data buf) q = Ret stop)).
Proof.
  intros Hwf Hpos. unfold skip_until, scan_fuel. pose proof Hwf as [].
  apply (loop_wpo (λ q, pos <= q <= b_count buf
      ∧ (∀ k b, pos <= k < q → contents buf !! Z.to_nat k = Some b → b ≠ stop))
    (λ q, Z.to_nat (b_count buf - q))); [split; [lia|lia]|lia|].
  intros q [Hq Hk]. destruct (Z.ltb_spec q (b_count buf)).
  - destruct (lookup_lt_is_Some_2 (b_data buf) (Z.to_nat q)) as [b Hb];
      [unfold zlen in *; lia|].
    assert (contents buf !! Z.to_nat q = Some b) as Hcb.
    { unfold contents. by rewrite lookup_take_lt by lia. }
    pose proof (rd_lookup (b_data buf) q b ltac:(lia) Hb) as Hrd. rewrite Hrd. wsteps.
    destruct (Z.eqb_spec b stop) as [->|Hne]; simpl.
    + done.
    + split; [|lia]. split; [lia|]. intros k b' Hkq Hb'.
      destruct (decide (k = q)) as [->|]; [congruence|]. apply (Hk k); [lia|done].
  - simpl. split; [lia|]. split; [done|lia].
Qed.

Lemma text_lookup buf pos c cs i b :
  text buf pos (c :: cs) → encode c !! i = Some b →
  contents buf !! (Z.to_nat pos + i)%nat = Some b.
Proof.
  intros [_ _ Hb] Hi. rewrite <- lookup_drop, Hb, encode_all_cons.
  by apply lookup_app_l_Some.
Qed.

(** An ASCII byte is only found as a character of its own. *)
Lemma encode_ascii c i b : is_scalar c → encode c !! i = Some b → b < 128 → b = c ∧ i = 0%nat.
Proof.
  intros [Hc _] Hi Hb. revert Hi. unfold encode.
  repeat (zcase; try lia); destruct i as [|[|[|[|i]]]]; simpl; intros Hi;
    simplify_eq; try done; dlia.
Qed.

Lemma newline_at buf pos cs q :
  buffer_wf buf → text buf pos cs → pos <= q <= b_count buf →
  (∀ k b, pos <= k < q → contents buf !! Z.to_nat k = Some b → b ≠ 0x0A) →
  (q < b_count buf → contents buf !! Z.to_nat q = Some 0x0A) →
  (q = b_count buf ∧ drop_blank true cs = []) ∨
  (∃ ds, text buf q (0x0A :: ds) ∧ drop_blank true cs = drop_blank false ds).
Proof.
  intros Hwf. revert pos. induction cs as [|c cs IH]; intros pos Ht Hq Hbefore Hat.
  - pose proof (text_count _ _ _ Hwf Ht) as Hc. change (zlen (encode_all [])) with 0 in Hc.
    left. split; [lia|done].
  - pose proof (text_next _ _ _ _ Hwf Ht) as Hn. pose proof (encode_length c) as Hl.
    pose proof Ht as [Hpos Hs _]. apply Forall_cons_1 in Hs as [Hsc _].
    simpl. destruct (Z.eqb_spec c 0x0A) as [->|Hne]; simpl.
    + right. exists cs. split; [|done]. assert (q = pos) as ->; [|done].
      destruct (decide (q = pos)); [done|].
      exfalso. apply (Hbefore pos 0x0A); [lia| |done].
      pose proof (text_lookup _ _ _ _ 0%nat 0x0A Ht eq_refl) as Hx. by rewrite Nat.add_0_r in Hx.
    + assert (pos + zlen (encode c) <= q) as Hge.
      { destruct (decide (pos + zlen (encode c) <= q)) as [|Hlt]; [done|]. exfalso.
        pose proof (text_count _ _ _ Hwf Ht) as Hcnt. rewrite encode_all_cons, zlen_app in Hcnt.
        pose proof (zlen_nonneg (encode_all cs)).
        destruct (lookup_lt_is_Some_2 (encode c) (Z.to_nat (q - pos))) as [b Hb];
          [unfold zlen in *; lia|].
        pose proof (text_lookup _ _ _ _ _ _ Ht Hb) as Hx.
        replace (Z.to_nat pos + Z.to_nat (q - pos))%nat with (Z.to_nat q) in Hx by lia.
        rewrite Hat in Hx by lia. simplify_eq.
        apply (encode_ascii c _ 10 Hsc) in Hb as [? _]; [congruence|lia]. }
      apply (IH (pos + zlen (encode c))); [done|lia| |done].
      intros k b Hk. apply Hbefore. lia.
Qed.

Lemma skip_blank_ok buf pos :
  buffer_wf buf → 0 <= pos →
  wpo (loop (scan_fuel buf) (skip_step buf) pos) (λ q, pos <= q <= Z.max pos (b_count buf)
    ∧ (∀ cs, text buf pos cs → text buf q (drop_blank false cs))).
Proof.
  intros Hwf Hpos. pose proof Hwf as []. unfold scan_fuel.
  apply (loop_wpo (λ q, pos <= q <= Z.max pos (b_count buf)
      ∧ ∀ cs, text buf pos cs → ∃ ds, text buf q ds ∧ drop_blank false ds = drop_blank false cs)
    (λ q, Z.to_nat (b_count buf - q))); [split; [lia|eauto]|lia|].
  intros q [Hq Ht]. unfold skip_step. destruct (Z.ltb_spec q (b_count buf)) as [Hlt|Hge].
  2:{ simpl. split; [lia|]. intros cs Hcs. destruct (Ht cs Hcs) as (ds & Hds & <-).
      pose proof (text_nil _ _ _ Hwf Hds Hge) as ->. done. }
  destruct (char_at buf q Hwf) as (w & d & n & -> & _ & Hn & Hb & Hc); [lia|]. wsteps.
  destruct w.
  { rewrite Hn. wsteps. rewrite (proj2 (Z.eqb_neq n 0)) by lia. simpl. split; [|lia].
    split; [lia|]. intros cs Hcs. destruct (Ht cs Hcs) as (ds & Hds & <-).
    destruct (text_cons _ _ _ Hwf Hds) as (c & es & -> & _); [done|].
    destruct (Hc _ _ Hds) as (Hw & _ & ->). exists es. split; [by apply text_next|].
    simpl. by rewrite <- Hw. }
  wsteps. apply rd_wpo; [lia|]. intros b Hbq.
  assert (contents buf !! Z.to_nat q = Some b) as Hcb.
  { unfold contents. by rewrite lookup_take_lt by lia. }
  destruct (Z.eqb_spec b 0x3B) as [->|Hne].
  - wsteps. eapply wpo_mono; [apply skip_until_ok; [done|lia]|].
    intros q' (Hq' & Hbefore & Hat).
    assert (q < q') as Hlt'.
    { destruct (decide (q = q')) as [->|]; [|lia]. destruct Hat as [Hat _]; [lia|].
      rewrite Hat in Hcb. done. }
    assert (∀ cs, text buf pos cs → ∃ ds, text buf (q + 1) ds ∧
      drop_blank true ds = drop_blank false cs) as Hcomment.
    { intros cs Hcs. destruct (Ht cs Hcs) as (ds & Hds & <-).
      destruct (text_cons _ _ _ Hwf Hds) as (c & es & -> & Hsc); [done|].
      destruct (Hc _ _ Hds) as (Hw & _).
      assert (c = 0x3B) as ->.
      { destruct (text_rd _ _ _ _ Hwf Hds) as (b & Hrd & _ & Hb0 & Hasc & _).
        pose proof (text_lookup _ _ _ _ 0%nat b Hds Hb0) as Hx. rewrite Nat.add_0_r in Hx.
        rewrite Hcb in Hx. simplify_eq.
        by apply (encode_ascii c 0 0x3B Hsc) in Hb0 as [<- _]. }
      exists es. split; [by apply (text_next buf q 0x3B)|]. done. }
    destruct (Z.ltb_spec q' (b_count buf)) as [Hin|Hout].
    + destruct (Hat Hin) as [Hat1 ->]. wsteps. simpl. split; [|lia]. split; [lia|].
      intros cs Hcs. destruct (Hcomment cs Hcs) as (ds & Hds & <-).
      destruct (newline_at buf (q + 1) ds q' Hwf Hds) as [[? _]|(es & Hes & ->)];
        [lia|intros k ? ?; apply Hbefore; lia|done|lia|].
      exists es. split; [by apply (text_next buf q' 0x0A)|done].
    + simpl. split; [|lia]. split; [lia|].
      intros cs Hcs. destruct (Hcomment cs Hcs) as (ds & Hds & <-).
      destruct (newline_at buf (q + 1) ds q' Hwf Hds) as [[_ ->]|(es & Hes & _)];
        [lia|intros k ? ?; apply Hbefore; lia|lia| |].
      * exists []. split; [|done]. split; [lia|constructor|].
        unfold contents. by apply window_end; lia.
      * pose proof (text_nil _ _ _ Hwf Hes Hout). done.
  - simpl. split; [lia|]. intros cs Hcs. destruct (Ht cs Hcs) as (ds & Hds & <-).
    destruct (text_cons _ _ _ Hwf Hds) as (c & es & -> & Hsc); [done|].
    destruct (Hc _ _ Hds) as (Hw & _). simpl. rewrite <- Hw.
    destruct (text_rd _ _ _ _ Hwf Hds) as (b' & _ & _ & Hb0 & Hasc & _).
    pose proof (text_lookup _ _ _ _ 0%nat b' Hds Hb0) as Hx. rewrite Nat.add_0_r, Hcb in Hx.
    simplify_eq. destruct (Z.eqb_spec c 0x3B); [|done]. subst c. exfalso. apply Hne, Hasc. lia.
Qed.

(** The answer of a skip that leaves [ds] to read. *)
Definition skipped (buf : ak_buffer_t) (sc : ak_scanner_t) (ds : list Z)
    : bool * option ak_scanner_t :=
  match ds with
  | [] => (false, Some sc)
  | _ :: _ => (true, Some (mk_scanner (Some buf) (pos_of buf ds)))
  end.

Lemma skipped_at buf sc q ds :
  buffer_wf buf → text buf q ds →
  (if b_count buf <=? q then Ret (false, Some sc)
   else Ret (true, Some (mk_scanner (Some buf) q))) = Ret (skipped buf sc ds).
Proof.
  intros Hwf Ht. destruct (Z.leb_spec (b_count buf) q) as [Hge|Hlt].
  - by rewrite (text_nil _ _ _ Hwf Ht Hge).
  - destruct (text_cons _ _ _ Hwf Ht Hlt) as (c & es & -> & _).
    by rewrite (text_pos_of _ _ _ Hwf Ht).
Qed.

(** On a valid text, [ak_scanner_goto_next_non_white] moves to the first
    character that is not white, [ak_scanner_skip_whitespace_and_comments] to
    the first that is neither white nor in a comment from [;] to the end of its
    line; when nothing is left both answer false and do not move. *)
Theorem ak_scanner_skip_spec buf pos cs :
  buffer_wf buf → text buf pos cs →
  let sc := mk_scanner (Some buf) pos in
  ak_scanner_goto_next_non_white (Some sc) = Ret (skipped buf sc (drop_white cs))
  ∧ ak_scanner_skip_whitespace_and_comments (Some sc)
    = Ret (skipped buf sc (drop_blank false cs)).
Proof.
  intros Hwf Ht sc. pose proof (text_pos _ _ _ Ht). split; apply wpo_eq; simpl; wsteps.
  - eapply wpo_mono; [apply skip_white_ok; [done|lia]|].
    intros q (_ & _ & Hq). by rewrite (skipped_at buf sc q _ Hwf (Hq _ Ht)).
  - eapply wpo_mono; [apply skip_blank_ok; [done|lia]|].
    intros q (_ & Hq). by rewrite (skipped_at buf sc q _ Hwf (Hq _ Ht)).
Qed.

(** [ak_scanner_goto_next_target] moves to the first occurrence of the byte
    from the position on, and answers false, without moving, when there is
    none. *)
Theorem ak_scanner_goto_next_target_spec buf pos target :
  buffer_wf buf → 0 <= pos →
  ∃ ok sc', ak_scanner_goto_next_target (Some (mk_scanner (Some buf) pos)) target
    = Ret (ok, Some sc')
  ∧ (ok = true → ∃ pre post, drop (Z.to_nat pos) (contents buf) = pre ++ target :: post
       ∧ (target ∉ pre) ∧ sc' = mk_scanner (Some buf) (pos + zlen pre))
  ∧ (ok = false → sc' = mk_scanner (Some buf) pos
       ∧ target ∉ drop (Z.to_nat pos) (contents buf)).
Proof.
  intros Hwf Hpos. pose proof Hwf as []. pose proof (length_contents buf Hwf) as Hl.
  unfold ak_scanner_goto_next_target. simpl.
  destruct (Z.leb_spec (b_count buf) pos) as [Hge|Hlt].
  { do 2 eexists. split; [done|]. split; [done|]. intros _. split; [done|].
    rewrite drop_ge by (unfold zlen in Hl; lia). apply not_elem_of_nil. }
  pose proof (skip_until_ok buf target pos Hwf ltac:(lia)) as Hu.
  destruct (lookup_lt_is_Some_2 (b_data buf) (Z.to_nat pos)) as [b Hb];
    [unfold zlen in *; lia|].
  assert (contents buf !! Z.to_nat pos = Some b) as Hcb.
  { unfold contents. by rewrite lookup_take_lt by lia. }
  rewrite (rd_lookup _ _ b) by (done || lia). simpl.
  destruct (Z.eqb_spec b target) as [->|Hne].
  { do 2 eexists. split; [done|]. split; [|done]. intros _.
    exists [], (drop (S (Z.to_nat pos)) (contents buf)).
    split; [by apply drop_S|]. split; [apply not_elem_of_nil|]. rewrite zlen_nil. by rewrite Z.add_0_r. }
  destruct (skip_until buf target pos) as [q| |]; [|done|done]. simpl in Hu.
  destruct Hu as (Hq & Hbefore & Hat). simpl.
  assert (target ∉ take (Z.to_nat (q - pos)) (drop (Z.to_nat pos) (contents buf))) as Hpre.
  { intros [i Hi]%list_elem_of_lookup. apply lookup_take_Some in Hi as [Hi Hlt'].
    rewrite lookup_drop in Hi. apply (Hbefore (pos + Z.of_nat i) target); [lia| |done].
    by replace (Z.to_nat (pos + Z.of_nat i)) with (Z.to_nat pos + i)%nat by lia. }
  destruct (Z.leb_spec (b_count buf) q) as [Hout|Hin].
  - do 2 eexists. split; [done|]. split; [done|]. intros _. split; [done|].
    by rewrite take_ge in Hpre by (rewrite length_drop; unfold zlen in Hl; lia).
  - destruct (Hat Hin) as [Hat1 _]. do 2 eexists. split; [done|]. split; [|done]. intros _.
    eexists _, (drop (S (Z.to_nat q)) (contents buf)). split_and!; [|exact Hpre|].
    + rewrite <- (take_drop (Z.to_nat (q - pos)) (drop (Z.to_nat pos) (contents buf))) at 1.
      f_equal. rewrite drop_drop. replace (Z.to_nat pos + Z.to_nat (q - pos))%nat with (Z.to_nat q) by lia.
      by apply drop_S.
    + f_equal. rewrite zlen_take by (rewrite zlen_drop; lia). lia.
Qed.

(** * Groups *)

Section groups.
Context (buf : ak_buffer_t) (must_start_with must_end_with : Z).
Context (can_escape_with : option Z) (start_index : Z).

(** The byte at [k] of the contents, and whether the byte before it escapes
    it. *)
Definition is_at (b k : Z) : bool := bool_decide (contents buf !! Z.to_nat k = Some b).

Definition escaped (k : Z) : bool :=
  match can_escape_with with
  | None => false
  | Some esc => (start_index + 1 <? k) && is_at esc (k - 1)
  end.

(** How the byte at [k] changes the nesting depth; when the delimiters are the
    same byte, it only closes. *)
Definition nesting (k : Z) : Z :=
  if escaped k then 0
  else if is_at must_end_with k && (must_start_with =? must_end_with) then -1
  else if is_at must_start_with k then 1
  else if is_at must_end_with k then -1
  else 0.

(** The depth after the byte at [k], the opening delimiter being at
    [start_index]. *)
Definition depth_at (k : Z) : Z :=
  1 + foldr Z.add 0 (nesting <$> seqZ (start_index + 1) (k - start_index)).

Lemma depth_at_start : depth_at start_index = 1.
Proof. unfold depth_at. by rewrite Z.sub_diag. Qed.

Lemma foldr_add_app l x : foldr Z.add 0 (l ++ [x]) = foldr Z.add 0 l + x.
Proof. induction l as [|y l IH]; simpl; [lia|]. rewrite IH. lia. Qed.

Lemma depth_at_next k : start_index < k → depth_at k = depth_at (k - 1) + nesting k.
Proof.
  intros Hk. unfold depth_at.
  replace (k - start_index) with ((k - 1 - start_index) + 1) at 1 by lia.
  rewrite seqZ_app by lia. rewrite fmap_app. simpl.
  replace (start_index + 1 + (k - 1 - start_index)) with k by lia.
  change (seqZ k 1) with [0 + k]. simpl fmap. rewrite foldr_add_app, Z.add_0_l. lia.
Qed.

Lemma nesting_range k : -1 <= nesting k <= 1.
Proof. unfold nesting. repeat case_match; lia. Qed.

Lemma rd_contents k :
  buffer_wf buf → 0 <= k < b_count buf →
  ∃ b, rd (b_data buf) k = Ret b ∧ ∀ x, is_at x k = (b =? x).
Proof.
  intros [] Hk. destruct (lookup_lt_is_Some_2 (b_data buf) (Z.to_nat k)) as [b Hb];
    [unfold zlen in *; lia|].
  exists b. split; [apply rd_lookup; [lia|done]|]. intros x.
  unfold is_at, contents. rewrite lookup_take_lt, Hb by lia.
  destruct (Z.eqb_spec b x) as [->|]; [by apply bool_decide_eq_true|].
  apply bool_decide_eq_false. congruence.
Qed.

(** One turn of the search adds [nesting]. *)
Lemma group_step_ok pos depth Q :
  buffer_wf buf → 0 <= start_index < pos → pos < b_count buf → 0 < depth < 2 ^ 31 - 1 →
  (0 < depth + nesting pos → Q (inl (pos + 1, depth + nesting pos))) →
  (depth + nesting pos = 0 ∨ (must_start_with = must_end_with ∧ nesting pos = -1) →
     Q (inr (Some pos))) →
  wpo (group_step buf must_start_with must_end_with can_escape_with start_index (pos, depth)) Q.
Proof.
  intros Hwf Hs Hlt Hd Hnext Hdone. unfold group_step. rewrite (proj2 (Z.ltb_lt _ _) Hlt).
  destruct (rd_contents pos Hwf) as (b & -> & Hb); [lia|]. wsteps.
  eapply (wpo_mono _ (λ e, e = escaped pos)).
  { unfold escaped. destruct can_escape_with as [esc|]; [|done].
    destruct (Z.ltb_spec (start_index + 1) pos); [|done].
    destruct (rd_contents (pos - 1) Hwf) as (b' & -> & Hb'); [lia|]. simpl. by rewrite Hb'. }
  intros e ->. revert Hnext Hdone. unfold nesting.
  destruct (escaped pos); [rewrite Z.add_0_r; intros Hn _; simpl; apply Hn; lia|].
  rewrite !Hb. destruct (Z.eqb_spec must_start_with must_end_with) as [->|Hne].
  - rewrite andb_true_r. destruct (Z.eqb_spec b must_end_with) as [->|].
    + intros _ Hdone. apply Hdone. by right.
    + rewrite Z.add_0_r. intros Hn _. apply Hn. lia.
  - rewrite andb_false_r. destruct (Z.eqb_spec b must_start_with) as [->|].
    + rewrite (proj2 (Z.eqb_neq depth _)) by lia. intros Hn _. apply Hn. lia.
    + destruct (Z.eqb_spec b must_end_with); simpl.
      * destruct (Z.eqb_spec (depth - 1) 0); intros Hn Hdone; simpl; [apply Hdone; lia|].
        apply Hn. lia.
      * intros Hn _. rewrite Z.add_0_r in Hn. apply Hn. lia.
Qed.

Lemma same_depth pos :
  must_start_with = must_end_with → nesting pos <= 0.
Proof.
  unfold nesting. intros ->. rewrite Z.eqb_refl, andb_true_r.
  destruct (escaped pos), (is_at must_end_with pos); lia.
Qed.

Lemma find_closing_ok :
  buffer_wf buf → 0 <= start_index < b_count buf → b_count buf < 2 ^ 31 - 1 →
  wpo (loop (scan_fuel buf)
    (group_step buf must_start_with must_end_with can_escape_with start_index)
    (start_index + 1, 1))
  (λ r, match r with
        | Some j => start_index < j < b_count buf ∧ depth_at j = 0
            ∧ ∀ k, start_index <= k < j → 0 < depth_at k
        | None => ∀ k, start_index <= k < b_count buf → 0 < depth_at k
        end).
Proof.
  intros Hwf Hs Hsmall. unfold scan_fuel.
  apply (loop_wpo (λ '(pos, depth), start_index < pos <= b_count buf
      ∧ depth = depth_at (pos - 1) ∧ 0 < depth <= pos - start_index
      ∧ (must_start_with = must_end_with → depth = 1)
      ∧ ∀ k, start_index <= k < pos → 0 < depth_at k)
    (λ '(pos, depth), Z.to_nat (b_count buf - pos))); [|lia|].
  { replace (start_index + 1 - 1) with start_index by lia. rewrite depth_at_start.
    split_and!; try lia. intros k Hk. replace k with start_index by lia.
    rewrite depth_at_start. lia. }
  intros [pos depth] (Hp & Hdep & Hd & Hsame & Hk).
  destruct (decide (pos < b_count buf)) as [Hlt|Hge].
  - pose proof (depth_at_next pos ltac:(lia)) as Hnext. rewrite <- Hdep in Hnext.
    pose proof (nesting_range pos).
    apply group_step_ok; [done|lia|lia|lia| |].
    + intros Hpos. split; [|lia]. split_and!; try lia.
      * by replace (pos + 1 - 1) with pos by lia.
      * intros He. specialize (Hsame He). pose proof (same_depth pos He). lia.
      * intros k Hk'. destruct (decide (k = pos)) as [->|]; [lia|]. apply Hk. lia.
    + intros Hz. split; [lia|]. split; [|done]. rewrite Hnext.
      destruct Hz as [?|[He ?]]; [done|]. specialize (Hsame He). lia.
  - unfold group_step. rewrite (proj2 (Z.ltb_ge _ _)) by lia. simpl.
    intros k Hk'. apply Hk. lia.
Qed.
End groups.

Arguments group_step : simpl never.

(** [ak_scanner_find_group] finds the first byte after the opening delimiter
    where the nesting depth comes back to zero, escaped bytes not counting; it
    fails when the depth stays positive to the end, or when the first byte (past
    the white ones, if asked) is not the opening delimiter, and then does not
    move. *)
Theorem ak_scanner_find_group_spec buf pos b e esc ws :
  buffer_wf buf → 0 <= pos → b_count buf < 2 ^ 31 - 1 →
  ∃ r sc' i,
    ak_scanner_find_group (Some (mk_scanner (Some buf) pos)) b e esc ws = Ret (r, sc')
    ∧ (if ws then skip_white buf pos else Ret pos) = Ret i ∧
    let depth := depth_at buf b e esc i in
    if group_success r then
      is_at buf b i = true ∧ index_of_start_symbol r = i
      ∧ (∃ j, index_of_closing_symbol r = j ∧ i < j < b_count buf ∧ depth j = 0
           ∧ (∀ k, i <= k < j → 0 < depth k) ∧ sc' = Some (mk_scanner (Some buf) j))
    else sc' = Some (mk_scanner (Some buf) pos)
      ∧ (is_at buf b i = true → ∀ k, i <= k < b_count buf → 0 < depth k).
Proof.
  intros Hwf Hpos Hsmall. simpl.
  assert (∃ i, (if ws then skip_white buf pos else Ret pos) = Ret i ∧ pos <= i
    ∧ (ws = false → i = pos)) as (i & Hi & Hpi & Hws).
  { destruct ws; [|by exists pos]. pose proof (skip_white_ok buf pos Hwf Hpos) as H.
    destruct (skip_white buf pos) as [i| |]; [|done|done]. destruct H as [? _].
    exists i. split; [done|]. split; [lia|done]. }
  rewrite Hi. destruct (Z.leb_spec (b_count buf) pos) as [Hge|Hlt].
  { do 3 eexists. split; [done|]. split; [done|]. split; [done|]. lia. }
  simpl. destruct (ws && (b_count buf <=? i)) eqn:E.
  { do 3 eexists. split; [done|]. split; [done|]. split; [done|]. lia. }
  assert (i < b_count buf) as Hi' by (destruct ws; [simpl in E; lia|rewrite Hws; [lia|done]]).
  destruct (rd_contents buf i Hwf) as (x & -> & Hx); [lia|]. simpl. specialize (Hx b).
  destruct (Z.eqb_spec x b); simpl.
  2:{ do 3 eexists. split; [done|]. split; [done|]. split; [done|]. congruence. }
  pose proof (find_closing_ok buf b e esc i Hwf ltac:(lia) Hsmall) as Hj.
  destruct (loop _ _ _) as [[j|]| |]; [| |done|done]; simpl;
    (do 3 eexists; split; [done|split; [done|]]); simpl.
  - destruct Hj as (? & ? & ?). split; [done|]. split; [done|]. by exists j.
  - done.
Qed.

(** * Tokens *)

(** Stop symbols that are ASCII and not digits. *)
Definition plain_stops (stops : ak_scanner_stop_symbols_t) : Prop :=
  match stops with
  | None => True
  | Some symbols => Forall (λ c, c < 128 ∧ ak_utf8_is_digit c = false) symbols
  end.

Definition ends_token (stops : ak_scanner_stop_symbols_t) (c : Z) : bool :=
  ak_utf8_is_whitespace c || is_stop_symbol c stops.

Fixpoint take_token (stops : ak_scanner_stop_symbols_t) (cs : list Z) : list Z :=
  match cs with
  | c :: ds => if ends_token stops c then [] else c :: take_token stops ds
  | [] => []
  end.

(** Digits of an unsigned number, with at most one period after the first. *)
Fixpoint classify_number (real : bool) (cs : list Z) : option ak_static_base_e :=
  match cs with
  | [] => Some (if real then AK24_STATIC_BASE_REAL else AK24_STATIC_BASE_INTEGER)
  | c :: ds =>
      if (0x30 <=? c) && (c <=? 0x39) then classify_number real ds
      else if (c =? 0x2E) && negb real then classify_number true ds
      else None
  end.

(** The type of a token: an optional sign and a number when a digit comes
    first, otherwise a symbol; [None] is a malformed number. *)
Definition classify (tok : list Z) : option ak_static_base_e :=
  match tok with
  | [] => None
  | c :: ds =>
      if (c =? 0x2B) || (c =? 0x2D) then
        match ds with
        | d :: _ => if ak_utf8_is_digit d then classify_number false ds
                    else Some AK24_STATIC_BASE_SYMBOL
        | [] => Some AK24_STATIC_BASE_SYMBOL
        end
      else if ak_utf8_is_digit c then classify_number false tok
      else Some AK24_STATIC_BASE_SYMBOL
  end.

(** How many bytes of a malformed number are read before its error: up to the character
    that does not fit, and the first byte of it when it is a digit of several bytes. *)
Fixpoint bad_offset (real : bool) (cs : list Z) : Z :=
  match cs with
  | [] => 0
  | c :: ds =>
      if (0x30 <=? c) && (c <=? 0x39) then 1 + bad_offset real ds
      else if (c =? 0x2E) && negb real then 1 + bad_offset true ds
      else if ak_utf8_is_digit c then 1 else 0
  end.

Definition error_offset (tok : list Z) : Z :=
  match tok with
  | [] => 0
  | c :: ds => if (c =? 0x2B) || (c =? 0x2D) then 1 + bad_offset false ds else bad_offset false tok
  end.

Lemma digit_ascii c : c < 128 → ak_utf8_is_digit c = (0x30 <=? c) && (c <=? 0x39).
Proof.
  intros Hc. unfold ak_utf8_is_digit, between.
  destruct ((48 <=? c) && (c <=? 57)); [done|]. decide_cmp. by rewrite ?andb_false_l.
Qed.

Lemma white_not_digit c : ak_utf8_is_whitespace c = true → ak_utf8_is_digit c = false.
Proof.
  intros Hw. destruct (ak_utf8_is_digit c) eqn:Hd; [|done]. exfalso.
  unfold ak_utf8_is_whitespace in Hw. unfold ak_utf8_is_digit, between in Hd.
  repeat match goal with
  | H : context [if ?b then true else _] |- _ => destruct b eqn:?; [|]
  end; try done; lia.
Qed.

Lemma stop_high stops c : plain_stops stops → 128 <= c → is_stop_symbol c stops = false.
Proof.
  intros Hs Hc. destruct stops as [l|]; [|done]. simpl in *.
  induction Hs as [|x l [Hx _] _ IH]; [done|]. simpl. rewrite IH.
  rewrite (proj2 (Z.eqb_neq c x)) by lia. done.
Qed.

Lemma stop_not_digit stops c :
  plain_stops stops → ak_utf8_is_digit c = true → is_stop_symbol c stops = false.
Proof.
  intros Hs Hc. destruct stops as [l|]; [|done]. simpl in *.
  induction Hs as [|x l [_ Hx] _ IH]; [done|]. simpl. rewrite IH.
  destruct (Z.eqb_spec c x); [congruence|done].
Qed.

Section tokens.
Context (buf : ak_buffer_t) (stops : ak_scanner_stop_symbols_t).
Context (Hwf : buffer_wf buf) (Hstops : plain_stops stops).

(** What the state machine sees at a character. *)
Lemma token_char q c es :
  text buf q (c :: es) →
  ∃ b, rd (b_data buf) q = Ret b ∧ q < b_count buf
    ∧ is_whitespace_at buf q = Ret (ak_utf8_is_whitespace c)
    ∧ is_digit_at buf q = Ret (ak_utf8_is_digit c)
    ∧ char_byte_len_at buf q = Ret (zlen (encode c))
    ∧ is_stop_symbol b stops = is_stop_symbol c stops
    ∧ (∀ x, x < 128 → (b =? x) = (c =? x)).
Proof.
  intros Ht. pose proof (text_count _ _ _ Hwf Ht) as Hc.
  rewrite encode_all_cons, zlen_app in Hc. pose proof (encode_length c).
  pose proof (zlen_nonneg (encode_all es)). pose proof (text_pos _ _ _ Ht).
  destruct (char_at buf q Hwf) as (w & d & n & Hw & Hd & Hn & _ & Hcs); [lia|].
  destruct (Hcs c es Ht) as (-> & -> & ->).
  destruct (text_rd _ _ _ _ Hwf Ht) as (b & Hb & _ & _ & Hlo & Hhi).
  exists b. split_and!; [done|lia|done|done|done| |].
  - destruct (decide (c < 128)) as [|]; [by rewrite Hlo|].
    by rewrite !stop_high by (done || lia).
  - intros x Hx. destruct (decide (c < 128)); [by rewrite Hlo|].
    rewrite (proj2 (Z.eqb_neq b x)), (proj2 (Z.eqb_neq c x)) by lia. done.
Qed.

(** The rest of a character whose first byte was taken for a digit. *)
Definition inside (q : Z) : Prop :=
  q < b_count buf ∧ ∃ b, rd (b_data buf) q = Ret b ∧ 128 <= b
    ∧ is_whitespace_at buf q = Ret false ∧ is_digit_at buf q = Ret false.

(** The type of the token when [tok] is left to read in a state. *)
Definition type_from (st : parse_state_t) (tok : list Z) : option ak_static_base_e :=
  match st with
  | STATE_INTEGER => classify_number false tok
  | STATE_REAL => classify_number true tok
  | _ => Some AK24_STATIC_BASE_SYMBOL
  end.

Definition error_from (st : parse_state_t) (tok : list Z) : Z :=
  match st with
  | STATE_INTEGER => bad_offset false tok
  | STATE_REAL => bad_offset true tok
  | _ => 0
  end.

Definition busy (st : parse_state_t) : Prop :=
  st = STATE_INTEGER ∨ st = STATE_REAL ∨ st = STATE_SYMBOL.

(** The invariant of the loop: [e] is where the token ends, [R] its type, and [x] where
    its error is if it has none. *)
Definition reading (e x : Z) (R : option ak_static_base_e) (s : parse_state_t * Z) : Prop :=
  (s.1 = STATE_ERROR ∧ R = None ∧ s.2 = x)
  ∨ (s.1 ≠ STATE_SYMBOL ∧ busy s.1 ∧ R = None ∧ inside s.2 ∧ s.2 = x)
  ∨ (busy s.1 ∧ ∃ ds, text buf s.2 ds ∧ s.2 + zlen (encode_all (take_token stops ds)) = e
       ∧ type_from s.1 (take_token stops ds) = R
       ∧ (R = None → s.2 + error_from s.1 (take_token stops ds) = x)).

Definition token_read (e x : Z) (R : option ak_static_base_e) (s : parse_state_t * Z) : Prop :=
  match R with
  | Some base => s.1 ≠ STATE_ERROR ∧ base_of_state s.1 = base ∧ s.2 = e
  | None => s.1 = STATE_ERROR ∧ s.2 = x
  end.

Definition token_measure (s : parse_state_t * Z) : nat :=
  if decide (s.1 = STATE_ERROR) then 0%nat else S (Z.to_nat (b_count buf - s.2)).

(** At a character that ends the token, or at the end of the buffer. *)
Lemma reading_end e x R st q ds :
  busy st → q + zlen (encode_all (take_token stops ds)) = e →
  type_from st (take_token stops ds) = R → take_token stops ds = [] →
  token_read e x R (st, q).
Proof.
  intros Hst He <- Hnil. rewrite Hnil in *. change (zlen (encode_all [])) with 0 in He.
  destruct Hst as [-> |[-> | ->]]; (split; [done|split; [done|simpl; lia]]).
Qed.

(** One turn in the number states. *)
Lemma number_turn real q c es :
  let st := if real : bool then STATE_REAL else STATE_INTEGER in
  text buf q (c :: es) →
  ∀ e x R, q + zlen (encode_all (c :: take_token stops es)) = e →
  classify_number real (c :: take_token stops es) = R →
  (R = None → q + bad_offset real (c :: take_token stops es) = x) →
  if ak_utf8_is_digit c then reading e x R (st, q + 1)
  else if (c =? 0x2E) && negb real then reading e x R (STATE_REAL, q + 1)
  else R = None ∧ q = x.
Proof.
  intros st Ht e x R He <- Hx. pose proof (text_next _ _ _ _ Hwf Ht) as Hn.
  assert (busy st) as Hbusy by (subst st; destruct real; unfold busy; auto).
  assert (type_from st = classify_number real) as Htf by (subst st; by destruct real).
  assert (error_from st = bad_offset real) as Hef by (subst st; by destruct real).
  rewrite encode_all_cons, zlen_app in He. simpl in Hx |- *.
  destruct (decide (c < 128)) as [Hlo|Hhi].
  - assert (zlen (encode c) = 1) as Hl.
    { unfold encode. rewrite (proj2 (Z.ltb_lt c 0x80)) by lia. done. }
    rewrite Hl in *. rewrite digit_ascii in Hx |- * by done.
    destruct ((48 <=? c) && (c <=? 57)).
    + right; right. split; [done|]. exists es. cbn [fst snd]. rewrite Htf, Hef.
      split_and!; [done|lia|done|]. intros HN. specialize (Hx HN). lia.
    + destruct ((c =? 46) && negb real); [|split; [done|]; specialize (Hx eq_refl); lia]. right; right. split; [right; by left|].
      exists es. split_and!; [done|simpl; lia|done|]. intros HN. specialize (Hx HN). simpl. lia.
  - rewrite (proj2 (Z.leb_gt c 57)), andb_false_r, (proj2 (Z.eqb_neq c 46)) in Hx |- * by lia. simpl in Hx |- *.
    specialize (Hx eq_refl). destruct (ak_utf8_is_digit c); [|split; [done|lia]].
    destruct (text_inside _ _ _ _ Hwf Ht ltac:(lia)) as (? & b & ? & ? & ? & ?).
    right; left. split; [subst st; by destruct real|]. split; [done|]. split; [done|].
    split; [|simpl; lia]. split; [done|]. by exists b.
Qed.

Lemma token_measure_lt st q st' q' :
  st ≠ STATE_ERROR → q < b_count buf → (st' = STATE_ERROR ∨ q < q') →
  (token_measure (st', q') < token_measure (st, q))%nat.
Proof.
  intros Hst Hq Hlt. unfold token_measure. simpl. rewrite (decide_False (P := st = _)) by done.
  destruct (decide (st' = STATE_ERROR)); [lia|]. destruct Hlt; [done|lia].
Qed.

(** In the middle of a character the number states give up. *)
Lemma inside_turn st q :
  busy st → st ≠ STATE_SYMBOL → inside q →
  token_step buf stops (st, q) = Ret (inl (STATE_ERROR, q)).
Proof.
  intros Hst Hsym (Hq & b & Hb & Hge & Hw & Hd). unfold token_step.
  rewrite (proj2 (Z.ltb_lt _ _) Hq), bool_decide_eq_false_2
    by (destruct Hst as [-> |[-> | ->]]; done).
  simpl. rewrite Hb. simpl. rewrite Hw. simpl. rewrite stop_high by done.
  destruct Hst as [-> |[-> |?]]; [| |done]; rewrite Hd; simpl; [|done].
  by rewrite (proj2 (Z.eqb_neq b 46)) by lia.
Qed.

(** At a character of the token: the successor state, and its position. *)
Lemma char_turn st q c es :
  busy st → text buf q (c :: es) → ends_token stops c = false →
  ∃ st' q', token_step buf stops (st, q) = Ret (inl (st', q'))
    ∧ 0 <= q' <= b_count buf ∧ (st' = STATE_ERROR ∨ q < q')
    ∧ (∀ e x R, q + zlen (encode_all (c :: take_token stops es)) = e →
         type_from st (c :: take_token stops es) = R → (R = None → q + error_from st (c :: take_token stops es) = x) →
         reading e x R (st', q')).
Proof.
  intros Hst Ht Hne. pose proof (text_next _ _ _ _ Hwf Ht) as Hn.
  pose proof (encode_length c) as Hl. pose proof (text_pos _ _ _ Ht).
  pose proof (text_pos _ _ _ Hn).
  destruct (token_char q c es Ht) as (b & Hb & Hq & Hw & Hd & Hlen & Hs & Hx).
  apply orb_false_iff in Hne as [Hnw Hns]. unfold token_step.
  rewrite (proj2 (Z.ltb_lt _ _) Hq), bool_decide_eq_false_2
    by (destruct Hst as [-> |[-> | ->]]; done).
  simpl. rewrite Hb. simpl. rewrite Hw, Hs, Hnw, Hns. simpl. rewrite Hd, (Hx 46) by lia. simpl.
  pose proof (number_turn false q c es Ht) as HI. pose proof (number_turn true q c es Ht) as HR.
  destruct Hst as [-> |[-> | ->]].
  - destruct (ak_utf8_is_digit c).
    + do 2 eexists. split_and!; [done|lia|lia|lia|]. apply HI.
    + destruct (c =? 46).
      * do 2 eexists. split_and!; [done|lia|lia|lia|]. apply HI.
      * do 2 eexists. split_and!; [done|lia|lia|by left|]. intros e x R He HR' Hx'. left.
        split; [done|]. by apply (HI e x R).
  - destruct (ak_utf8_is_digit c).
    + do 2 eexists. split_and!; [done|lia|lia|lia|]. apply HR.
    + rewrite andb_false_r in HR.
      do 2 eexists. split_and!; [done|lia|lia|by left|]. intros e x R He HR' Hx'. left.
      split; [done|]. by apply (HR e x R).
  - rewrite Hlen. simpl. rewrite (proj2 (Z.eqb_neq _ 0)) by lia.
    do 2 eexists. split_and!; [done|lia|lia|lia|]. intros e x R He <- _. right; right.
    split; [by do 2 right|]. exists es. rewrite encode_all_cons, zlen_app in He.
    split; [done|]. split; [simpl; lia|done].
Qed.

Lemma token_step_ok e x R s :
  reading e x R s → 0 <= s.2 <= b_count buf →
  wpo (token_step buf stops s) (λ r,
    match r with
    | inl s' => (reading e x R s' ∧ 0 <= s'.2 <= b_count buf)
                ∧ (token_measure s' < token_measure s)%nat
    | inr v => token_read e x R v
    end).
Proof.
  destruct s as [st q]. cbn [fst snd].
  intros [(Hst & -> & Hpx)|[(Hsym & Hst & -> & Hin & Hpx)|(Hst & ds & Ht & He & HR & HX)]] Hq; cbn [fst snd] in *.
  - subst st. unfold token_step. by rewrite bool_decide_eq_true_2, andb_false_r by done.
  - rewrite inside_turn by done. simpl. split; [split; [by left|done]|].
    apply token_measure_lt; [|by destruct Hin|by left].
    destruct Hst as [-> |[-> | ->]]; done.
  - destruct (decide (q < b_count buf)) as [Hlt|Hge].
    + destruct (text_cons _ _ _ Hwf Ht Hlt) as (c & es & -> & _). simpl in He, HR, HX.
      destruct (ends_token stops c) eqn:Hends.
      * destruct (token_char q c es Ht) as (b & Hb & _ & Hw & _ & _ & Hs & _).
        unfold token_step. rewrite (proj2 (Z.ltb_lt _ _) Hlt), bool_decide_eq_false_2
          by (destruct Hst as [-> |[-> | ->]]; done). simpl. rewrite Hb. simpl. rewrite Hw, Hs.
        simpl. assert (token_read e x R (st, q)) as Hread.
        { apply (reading_end e x R st q (c :: es)); [done|..]; simpl; by rewrite Hends. }
        destruct (ak_utf8_is_whitespace c) eqn:Hwc; [done|]. unfold ends_token in Hends.
        rewrite Hwc in Hends. simpl in Hends. by rewrite Hends.
      * destruct (char_turn st q c es Hst Ht Hends) as (st' & q' & -> & Hq' & Hdec & Hread).
        simpl. split; [split; [by apply Hread|done]|]. apply token_measure_lt; [|done|done].
        destruct Hst as [-> |[-> | ->]]; done.
    + unfold token_step. rewrite (proj2 (Z.ltb_ge _ _)) by lia. simpl.
      pose proof (text_nil _ _ _ Hwf Ht ltac:(lia)) as ->.
      by apply (reading_end e x R st q []).
Qed.
Lemma token_loop_ok e x R s :
  reading e x R s → 0 <= s.2 <= b_count buf →
  wpo (loop (S (scan_fuel buf)) (token_step buf stops) s) (token_read e x R).
Proof.
  intros Hr Hq. apply (loop_wpo (λ s, reading e x R s ∧ 0 <= s.2 <= b_count buf) token_measure).
  - done.
  - unfold token_measure, scan_fuel. case_decide; lia.
  - intros s' [Hr' Hq']. by apply token_step_ok.
Qed.

(** The state chosen from the first character fits the token. *)
Lemma first_state_ok p ds :
  text buf p ds → take_token stops ds ≠ [] →
  wpo (first_state buf p) (λ s, 0 <= s.2 <= b_count buf ∧
    reading (p + zlen (encode_all (take_token stops ds))) (p + error_offset (take_token stops ds)) (classify (take_token stops ds)) s).
Proof.
  intros Ht Hne. destruct ds as [|c es]; [done|]. simpl in *.
  destruct (ends_token stops c) eqn:Hends; [done|].
  destruct (token_char p c es Ht) as (b & Hb & Hp & Hw & Hd & _ & _ & Hx).
  pose proof (text_pos _ _ _ Ht) as Hpos. unfold first_state. rewrite Hb. wsteps.
  rewrite (Hx 0x2B), (Hx 0x2D) by lia. cbn [classify error_offset].
  assert (∀ st, busy st → type_from st (c :: take_token stops es) =
      classify (c :: take_token stops es) →
    (classify (c :: take_token stops es) = None → error_from st (c :: take_token stops es) = error_offset (c :: take_token stops es)) →
    reading (p + zlen (encode_all (c :: take_token stops es))) (p + error_offset (c :: take_token stops es))
      (classify (c :: take_token stops es)) (st, p)) as Hhere.
  { intros st Hst Hty Her. right; right. split; [done|]. exists (c :: es). simpl take_token. rewrite Hends.
    split_and!; [done|done|done|]. intros HN. simpl fst. by rewrite (Her HN). }
  cbn [classify error_offset] in Hhere. destruct ((c =? 0x2B) || (c =? 0x2D)) eqn:Hsign.
  - pose proof (text_next _ _ _ _ Hwf Ht) as Hn.
    assert (zlen (encode c) = 1) as Hl.
    { apply orb_true_iff in Hsign as [->%Z.eqb_eq| ->%Z.eqb_eq]; done. }
    rewrite Hl in Hn.
    assert (∀ st, busy st → type_from st (take_token stops es) =
        classify (c :: take_token stops es) →
      (classify (c :: take_token stops es) = None → error_from st (take_token stops es) = bad_offset false (take_token stops es)) →
      reading (p + zlen (encode_all (c :: take_token stops es))) (p + error_offset (c :: take_token stops es))
        (classify (c :: take_token stops es)) (st, p + 1)) as Hthere.
    { intros st Hst Hty Her. right; right. split; [done|]. exists es. cbn [fst snd].
      rewrite encode_all_cons, zlen_app, Hl. split_and!; [done|lia|done|]. intros HN. rewrite (Her HN). cbn [error_offset].
      rewrite Hsign. lia. }
    cbn [classify error_offset] in Hthere. rewrite Hsign in Hthere.
    destruct (Z.leb_spec (b_count buf) (p + 1)) as [Hge|Hlt].
    { pose proof (text_nil _ _ _ Hwf Hn Hge) as ->. split; [simpl; lia|].
      by apply Hthere; [do 2 right|..]. }
    destruct (text_cons _ _ _ Hwf Hn Hlt) as (d & fs & -> & _).
    destruct (token_char _ d fs Hn) as (_ & _ & _ & Hw' & Hd' & _). rewrite Hd'. wsteps.
    destruct (ak_utf8_is_digit d) eqn:Hdig.
    + simpl. split; [lia|]. apply Hthere; [by left| |done]. simpl. unfold ends_token.
      rewrite stop_not_digit by done.
      destruct (ak_utf8_is_whitespace d) eqn:Hwd;
        [by rewrite white_not_digit in Hdig|]. simpl. by rewrite Hdig.
    + rewrite Hw'. wsteps. simpl in Hthere.
      destruct (ak_utf8_is_whitespace d); (split; [simpl; lia|]);
        (apply Hthere; [by do 2 right|..]; destruct (ends_token stops d); (done || by rewrite Hdig)).
  - rewrite Hd. wsteps. cbn [bad_offset classify_number] in Hhere. revert Hhere.
    destruct (ak_utf8_is_digit c) eqn:Hdg; intros Hhere; simpl in Hhere |- *; (split; [lia|]);
      (apply Hhere; [unfold busy; auto|done|simpl; by rewrite ?Hdg]).
Qed.
End tokens.

(** The answer for a token [tok] at [p], when reading starts at [start]. *)
Definition token_answer (buf : ak_buffer_t) (start p : Z) (tok : list Z)
    (r : ak_scanner_static_type_result_t * option ak_scanner_t) : Prop :=
  match classify tok with
  | Some base =>
      r = (mk_static_result true start 0 (mk_static base (Some p) (zlen (encode_all tok))),
           Some (mk_scanner (Some buf) (p + zlen (encode_all tok))))
  | None => r = (mk_static_result false start (p + error_offset tok) no_token, Some (mk_scanner (Some buf) start))
  end.

(** C10: On a valid text, with stop symbols that are ASCII and not digits,
    [ak_scanner_read_static_base_type] skips the white
    characters, takes the longest run of characters that are neither white nor
    stop symbols, classifies it as [classify] does and answers it as a slice of
    the buffer, moving past it.  On an empty token or a malformed number it fails: it
    answers where the error is, the character that does not fit, and leaves the scanner
    where it was (the header says that it is left at the error). *)
Theorem ak_scanner_read_static_base_type_spec buf pos cs stops :
  buffer_wf buf → plain_stops stops → text buf pos cs →
  ∃ r, ak_scanner_read_static_base_type (Some (mk_scanner (Some buf) pos)) stops = Ret r
    ∧ token_answer buf pos (pos_of buf (drop_white cs)) (take_token stops (drop_white cs)) r.
Proof.
  intros Hwf Hst Ht. pose proof (text_pos _ _ _ Ht).
  cut (wpo (ak_scanner_read_static_base_type (Some (mk_scanner (Some buf) pos)) stops)
    (token_answer buf pos (pos_of buf (drop_white cs)) (take_token stops (drop_white cs)))).
  { destruct (ak_scanner_read_static_base_type _ _) as [r| |]; [eauto|done|done]. }
  cbn [ak_scanner_read_static_base_type sc_buffer position]. wsteps.
  eapply wpo_mono; [apply skip_white_ok; [done|lia]|]. intros p (Hp & _ & Htp).
  specialize (Htp cs Ht). rewrite <- (text_pos_of _ _ _ Hwf Htp).
  assert (∀ tok, tok = [] → token_answer buf pos p tok
    (mk_static_result false pos p no_token, Some (mk_scanner (Some buf) pos))) as Hfail.
  { intros tok ->. unfold token_answer. simpl. by rewrite Z.add_0_r. }
  destruct (Z.leb_spec (b_count buf) p) as [Hge|Hlt].
  { simpl. apply Hfail. by rewrite (text_nil _ _ _ Hwf Htp Hge). }
  destruct (text_cons _ _ _ Hwf Htp Hlt) as (c & es & He & _).
  assert (text buf p (c :: es)) as Htc by (by rewrite <- He).
  destruct (token_char buf stops Hwf Hst p c es Htc) as (b & Hb & _ & _ & _ & _ & Hs & _).
  rewrite Hb. wsteps. rewrite Hs.
  destruct (is_stop_symbol c stops) eqn:Hstop.
  { simpl. apply Hfail. rewrite He. simpl. unfold ends_token. by rewrite Hstop, orb_true_r. }
  wsteps. assert (take_token stops (drop_white cs) ≠ []) as Hne.
  { rewrite He. simpl. unfold ends_token. rewrite Hstop.
    assert (ak_utf8_is_whitespace c = false) as ->; [|done].
    clear -He. induction cs as [|d cs IH]; simpl in He; [done|].
    destruct (ak_utf8_is_whitespace d) eqn:E; [auto|congruence]. }
  eapply wpo_mono; [by apply (first_state_ok buf stops Hwf Hst p (drop_white cs))|].
  intros [st q] [Hq Hr]. wsteps.
  eapply wpo_mono; [by apply token_loop_ok|]. intros [st' q'] Hread.
  unfold token_answer, token_read in *.
  destruct (classify (take_token stops (drop_white cs))) as [bs|]; cbn [fst snd] in Hread.
  - destruct Hread as (Hst' & <- & ->). rewrite bool_decide_eq_false_2 by done.
    assert (1 <= zlen (encode_all (take_token stops (drop_white cs)))).
    { destruct (take_token _ _) as [|x l]; [done|]. rewrite encode_all_cons, zlen_app.
      pose proof (encode_length x). pose proof (zlen_nonneg (encode_all l)). lia. }
    rewrite (proj2 (Z.eqb_neq _ p)) by lia. simpl. do 3 f_equal. f_equal. lia.
  - destruct Hread as [-> ->]. simpl. done.
Qed.

(** * Witnesses *)

(** [ ;x\n-7.5)(a)] *)
Definition wsrc : list Z :=
  [0x20; 0x3B; 0x78; 0x0A; 0x2D; 0x37; 0x2E; 0x35; 0x29; 0x28; 0x61; 0x29].
Definition wsbuf : ak_buffer_t := mk_buffer (wsrc ++ replicate 4 0) 16 12 0.

Lemma wsbuf_wf : buffer_wf wsbuf.
Proof.
  split; [done|simpl; lia|simpl; lia| |unfold is_size; simpl; lia].
  simpl. repeat constructor; unfold is_byte; lia.
Qed.

Lemma wsbuf_text n : (n <= 12)%nat → text wsbuf (Z.of_nat n) (drop n wsrc).
Proof.
  intros Hn. split; [simpl; lia| |].
  - apply Forall_drop. repeat constructor; unfold is_scalar; lia.
  - rewrite Nat2Z.id. do 13 (destruct n as [|n]; [reflexivity|]). lia.
Qed.

Lemma ak_scanner_skip_spec_witness :
  let sc := mk_scanner (Some wsbuf) 0 in
  ak_scanner_goto_next_non_white (Some sc) = Ret (true, Some (mk_scanner (Some wsbuf) 1))
  ∧ ak_scanner_skip_whitespace_and_comments (Some sc)
    = Ret (true, Some (mk_scanner (Some wsbuf) 4)).
Proof. apply (ak_scanner_skip_spec wsbuf 0 wsrc); [exact wsbuf_wf|apply (wsbuf_text 0); lia]. Defined.

Lemma ak_scanner_goto_next_target_spec_witness :
  ∃ ok sc', ak_scanner_goto_next_target (Some (mk_scanner (Some wsbuf) 0)) 0x28
    = Ret (ok, Some sc') ∧ ok = true.
Proof.
  destruct (ak_scanner_goto_next_target_spec wsbuf 0 0x28) as (ok & sc' & Hr & _ & Hf);
    [exact wsbuf_wf|lia|].
  exists ok, sc'. split; [done|]. vm_compute in Hr. by injection Hr as <- _.
Defined.

Lemma ak_scanner_find_group_spec_witness :
  ∃ r sc', ak_scanner_find_group (Some (mk_scanner (Some wsbuf) 9)) 0x28 0x29 None true
    = Ret (r, sc') ∧ index_of_closing_symbol r = 11.
Proof.
  destruct (ak_scanner_find_group_spec wsbuf 9 0x28 0x29 None true)
    as (r & sc' & i & Hr & _ & _); [exact wsbuf_wf|lia|simpl; lia|].
  exists r, sc'. split; [done|]. vm_compute in Hr. by injection Hr as <- _.
Defined.

Lemma ak_scanner_read_static_base_type_spec_witness :
  ∃ r, ak_scanner_read_static_base_type (Some (mk_scanner (Some wsbuf) 4)) (Some [0x28; 0x29])
    = Ret (r, Some (mk_scanner (Some wsbuf) 8))
  ∧ base (data r) = AK24_STATIC_BASE_REAL.
Proof.
  destruct (ak_scanner_read_static_base_type_spec wsbuf 4 (drop 4 wsrc) (Some [0x28; 0x29]))
    as (r & -> & ->); [exact wsbuf_wf|repeat constructor; lia|apply (wsbuf_text 4); lia|].
  by eexists.
Defined.
