(* ===== verification/Lists.v ===== *)
(** Growable lists of owned items: [kernel/list/src/list.c].

    [items] is a block of slots; every used slot holds a pointer to an
    allocated copy of a value, so a slot is [Some v], and an unused one either
    never written or left over from an item that moved or was released, which
    the code never follows.  The theorems refine every operation to an
    operation on the Rocq list of the values. *)

From S2P Require Import Prelude.

Definition LIST_INITIAL_CAPACITY : Z := 8.

Record list_base_t (T : Type) := mk_list {
  items : option (list (option T));
  capacity : Z;
  count : Z;
  item_size : Z;
}.
Arguments mk_list {T}.
Arguments items {T}.
Arguments capacity {T}.
Arguments count {T}.
Arguments item_size {T}.

Record list_iter_t := mk_list_iter {
  li_index : Z;
  li_valid : Z;
}.

Section list.
Context `{Allocator} {T : Type}.

Definition list_init (size : Z) : list_base_t T := mk_list None 0 0 size.

(** The slots of [l->items]; reading through a null pointer is undefined. *)
Definition block (l : list_base_t T) : outcome (list (option T)) :=
  match items l with
  | Some b => Ret b
  | None => Undef
  end.

(** [AK24_REALLOC(items, sizeof(void * ) * n)] *)
Definition realloc_items (old : option (list (option T))) (n : Z)
    : M (option (list (option T))) :=
  ok ← alloc_obj (8 * n);
  if ok : bool then
    match old with
    | None => mret (Some (replicate (Z.to_nat n) None))
    | Some b => _ ← free_obj; mret (Some (resize (Z.to_nat n) None b))
    end
  else mret None.

(** Doubling, in 32 bits; 32 doublings reach any capacity or zero. *)
Definition list_grow (start required : Z) : outcome Z :=
  loop 34 (λ new_capacity,
    if new_capacity <? required then Ret (inl (u32 (new_capacity * 2)))
    else Ret (inr new_capacity)) start.

Definition list_ensure_capacity_ (l : list_base_t T) (required : Z)
    : M (Z * list_base_t T) :=
  if required <=? capacity l then mret (0, l) else
  new_capacity ← lift (list_grow
    (if capacity l =? 0 then LIST_INITIAL_CAPACITY else capacity l) required);
  new_items ← realloc_items (items l) new_capacity;
  match new_items with
  | None => mret (-1, l)
  | Some b => mret (0, mk_list (Some b) new_capacity (count l) (item_size l))
  end.

(** [if (l->items[i]) AK24_FREE(l->items[i])] for every used slot. *)
Definition free_items (b : list (option T)) (n : Z) : M () :=
  loopM (S (Z.to_nat n)) (λ i,
    if i <? n then
      x ← lift (rd b i);
      match x with
      | Some _ => _ ← free_obj; mret (inl (i + 1))
      | None => lift Undef
      end
    else mret (inr ())) 0.

Definition list_deinit_ (l : list_base_t T) : M (list_base_t T) :=
  _ ← match items l with
      | Some b => _ ← free_items b (count l); free_obj
      | None => mret ()
      end;
  mret (mk_list None 0 0 (item_size l)).

Definition list_push_ (l : list_base_t T) (value : T) (vsize : Z)
    : M (Z * list_base_t T) :=
  '(rc, l) ← list_ensure_capacity_ l (u32 (count l + 1));
  if negb (rc =? 0) then mret (-1, l) else
  item ← alloc_obj vsize;
  if negb item then mret (-1, l) else
  b ← lift (block l);
  b ← lift (wr b (count l) (Some value));
  mret (0, mk_list (Some b) (capacity l) (u32 (count l + 1)) (item_size l)).

(** The item is handed over to the caller. *)
Definition list_pop_ (l : list_base_t T) : outcome (option T * list_base_t T) :=
  if count l =? 0 then Ret (None, l) else
  let l := mk_list (items l) (capacity l) (u32 (count l - 1)) (item_size l) in
  b ← block l;
  x ← rd b (count l);
  match x with
  | Some v => Ret (Some v, l)
  | None => Undef
  end.

Definition list_get_ (l : list_base_t T) (index : Z) : outcome (option T) :=
  if count l <=? index then Ret None else
  b ← block l;
  x ← rd b index;
  match x with
  | Some v => Ret (Some v)
  | None => Undef
  end.

Definition list_set_ (l : list_base_t T) (index : Z) (value : T) (vsize : Z)
    : outcome (Z * list_base_t T) :=
  if count l <=? index then Ret (-1, l) else
  b ← block l;
  x ← rd b index;
  match x with
  | Some _ =>
      b ← wr b index (Some value);
      Ret (0, mk_list (Some b) (capacity l) (count l) (item_size l))
  | None => Undef
  end.

(** [for (i = last; i > index; i--) items[i] = items[i - 1];] *)
Definition shift_up (b : list (option T)) (last index : Z) : outcome (list (option T)) :=
  loop (S (Z.to_nat last)) (λ '(b, i),
    if index <? i then
      x ← rd b (i - 1);
      b ← wr b i x;
      Ret (inl (b, i - 1))
    else Ret (inr b)) (b, last).

Definition list_insert_ (l : list_base_t T) (index : Z) (value : T) (vsize : Z)
    : M (Z * list_base_t T) :=
  if count l <? index then mret (-1, l) else
  '(rc, l) ← list_ensure_capacity_ l (u32 (count l + 1));
  if negb (rc =? 0) then mret (-1, l) else
  item ← alloc_obj vsize;
  if negb item then mret (-1, l) else
  b ← lift (block l);
  b ← lift (shift_up b (count l) index);
  b ← lift (wr b index (Some value));
  mret (0, mk_list (Some b) (capacity l) (u32 (count l + 1)) (item_size l)).

(** [for (i = first; i < last; i++) items[i] = items[i + n];] *)
Definition shift_down (b : list (option T)) (first last n : Z)
    : outcome (list (option T)) :=
  loop (S (Z.to_nat (last - first))) (λ '(b, i),
    if i <? last then
      x ← rd b (i + n);
      b ← wr b i x;
      Ret (inl (b, i + 1))
    else Ret (inr b)) (b, first).

Definition list_remove_ (l : list_base_t T) (index : Z) : M (Z * list_base_t T) :=
  if count l <=? index then mret (-1, l) else
  b ← lift (block l);
  x ← lift (rd b index);
  match x with
  | None => lift Undef
  | Some _ =>
      _ ← free_obj;
      b ← lift (shift_down b index (u32 (count l - 1)) 1);
      mret (0, mk_list (Some b) (capacity l) (u32 (count l - 1)) (item_size l))
  end.

Definition list_clear_ (l : list_base_t T) : M (list_base_t T) :=
  _ ← match items l with
      | Some b => free_items b (count l)
      | None => if count l =? 0 then mret () else lift Undef
      end;
  mret (mk_list (items l) (capacity l) 0 (item_size l)).

Definition list_iter_ : list_iter_t := mk_list_iter 0 1.

Definition list_next_ (l : list_base_t T) (iter : list_iter_t)
    : outcome (option T * list_iter_t) :=
  if (li_valid iter =? 0) || (count l <=? li_index iter)
  then Ret (None, mk_list_iter (li_index iter) 0) else
  b ← block l;
  x ← rd b (li_index iter);
  match x with
  | Some v => Ret (Some v, mk_list_iter (u32 (li_index iter + 1)) (li_valid iter))
  | None => Undef
  end.

(** [for (i = 0; i < n; i++) dst[doff + i] = src[soff + i];] *)
Definition copy_slots (dst : list (option T)) (doff : Z) (src : list (option T))
    (soff n : Z) : outcome (list (option T)) :=
  loop (S (Z.to_nat n)) (λ '(dst, i),
    if i <? n then
      x ← rd src (soff + i);
      dst ← wr dst (doff + i) x;
      Ret (inl (dst, i + 1))
    else Ret (inr dst)) (dst, 0).

Definition list_rotate_left_ (l : list_base_t T) (n : Z) : M (Z * list_base_t T) :=
  if (count l =? 0) || (n =? 0) then mret (0, l) else
  let n := n mod count l in
  if n =? 0 then mret (0, l) else
  ok ← alloc_obj (8 * n);
  if negb ok then mret (-1, l) else
  b ← lift (block l);
  temp ← lift (copy_slots (replicate (Z.to_nat n) None) 0 b 0 n);
  b ← lift (shift_down b 0 (u32 (count l - n)) n);
  b ← lift (copy_slots b (u32 (count l - n)) temp 0 n);
  _ ← free_obj;
  mret (0, mk_list (Some b) (capacity l) (count l) (item_size l)).

(** [for (i = last; i >= n; i--) items[i] = items[i - n];] with [n > 0] *)
Definition shift_right (b : list (option T)) (last n : Z) : outcome (list (option T)) :=
  loop (S (S (Z.to_nat last))) (λ '(b, i),
    if n <=? i then
      x ← rd b (i - n);
      b ← wr b i x;
      Ret (inl (b, i - 1))
    else Ret (inr b)) (b, last).

Definition list_rotate_right_ (l : list_base_t T) (n : Z) : M (Z * list_base_t T) :=
  if (count l =? 0) || (n =? 0) then mret (0, l) else
  let n := n mod count l in
  if n =? 0 then mret (0, l) else
  ok ← alloc_obj (8 * n);
  if negb ok then mret (-1, l) else
  b ← lift (block l);
  temp ← lift (copy_slots (replicate (Z.to_nat n) None) 0 b (u32 (count l - n)) n);
  b ← lift (shift_right b (u32 (count l - 1)) n);
  b ← lift (copy_slots b 0 temp 0 n);
  _ ← free_obj;
  mret (0, mk_list (Some b) (capacity l) (count l) (item_size l)).
End list.

(** * Representation *)

(** A capacity is zero or eight doubled some number of times. *)
Definition cap_ok (c : Z) : Prop := c = 0 ∨ ∃ k, 3 <= k <= 31 ∧ c = 2 ^ k.

Definition slots {T} (l : list_base_t T) : list (option T) := default [] (items l).

(** [l] holds the values [xs]. *)
Record list_wf {T} (l : list_base_t T) (xs : list T) : Prop := mk_list_wf {
  lw_cap : cap_ok (capacity l);
  lw_slots : zlen (slots l) = capacity l;
  lw_null : items l = None → capacity l = 0;
  lw_vals : ∃ junk, slots l = (Some <$> xs) ++ junk;
  lw_count : count l = zlen xs;
}.

(** The blocks a list owns: its array and one per item. *)
Definition owned {T} (l : list_base_t T) : Z :=
  (match items l with Some _ => 1 | None => 0 end) + count l.

Lemma cap_ok_range c : cap_ok c → 0 <= c <= 2 ^ 31.
Proof.
  intros [->|(k & Hk & ->)]; [lia|]. split; [apply Z.pow_nonneg; lia|].
  apply Z.pow_le_mono_r; lia.
Qed.

Lemma list_wf_count {T} (l : list_base_t T) xs : list_wf l xs → 0 <= count l <= capacity l.
Proof.
  intros [_ Hs _ [junk Hj] Hc]. rewrite Hj, zlen_app in Hs. unfold zlen in *.
  rewrite length_fmap in Hs. lia.
Qed.

Lemma slots_used {T} (l : list_base_t T) xs i :
  list_wf l xs → (i < length xs)%nat → slots l !! i = Some <$> (xs !! i).
Proof.
  intros [_ _ _ [junk ->] _] Hi.
  rewrite lookup_app_l by (rewrite length_fmap; lia). by rewrite list_lookup_fmap.
Qed.

(** Growing *)

Lemma list_grow_ok start required :
  cap_ok start → 0 < start → required <= 2 ^ 31 →
  wpo (list_grow start required) (λ c, cap_ok c ∧ required <= c ∧ start <= c
    ∧ (c = start ∨ c < 2 * required)).
Proof.
  intros Hs Hpos Hreq. unfold list_grow.
  apply (loop_wpo (λ c, cap_ok c ∧ start <= c ∧ (c = start ∨ c < 2 * required))
    (λ c, Z.to_nat (31 - Z.log2 c))).
  - split; [done|]. split; [lia|by left].
  - destruct Hs as [->|(k & Hk & ->)]; [lia|]. rewrite Z.log2_pow2; lia.
  - intros c (Hc & Hge & Hlt). destruct (Z.ltb_spec c required); [|by simpl].
    simpl. pose proof (cap_ok_range c Hc). destruct Hc as [->|(k & Hk & ->)]; [lia|].
    assert (k < 31) as Hk' by (apply (Z.pow_lt_mono_r_iff 2); lia).
    assert (2 ^ k * 2 = 2 ^ (k + 1)) as Hdbl by (rewrite Z.pow_add_r; lia).
    assert (2 ^ (k + 1) <= 2 ^ 31) by (apply Z.pow_le_mono_r; lia).
    rewrite u32_small, Hdbl by lia. rewrite !Z.log2_pow2 by lia.
    split; [|lia]. split; [right; exists (k + 1); split; [lia|done]|]. lia.
Qed.

Section proofs.
Context `{Allocator} {T : Type}.
Implicit Types (l : list_base_t T) (xs : list T).

Lemma wp_ensure_capacity l xs required s Q :
  list_wf l xs → 0 < required <= 2 ^ 31 →
  (∀ l' b s', items l' = Some b → required <= capacity l' → count l' = count l →
     list_wf l' xs → balance (owned l' - owned l) false s s' → Q (0, l') s') →
  (∀ s', balance 0 true s s' → Q (-1, l) s') →
  wp (list_ensure_capacity_ l required) Q s.
Proof.
  intros Hwf Hreq Hok Hfail. unfold list_ensure_capacity_.
  destruct Hwf as [Hcap Hslots Hnull [junk Hvals] Hcount] eqn:E; clear E.
  destruct (Z.leb_spec required (capacity l)) as [Hle|Hlt].
  { wsteps. destruct (items l) as [b|] eqn:Hb; [|rewrite Hnull in Hle by done; lia].
    apply (Hok l b); [done|done|done|done|]. balance. }
  wsteps. eapply wpo_mono.
  { apply list_grow_ok; [| |lia].
    - destruct (Z.eqb_spec (capacity l) 0); [|done]. right. by exists 3.
    - destruct (Z.eqb_spec (capacity l) 0); [done|]. pose proof (cap_ok_range _ Hcap). lia. }
  intros c (Hc & Hge & Hge' & _). pose proof (cap_ok_range _ Hc).
  pose proof (cap_ok_range _ Hcap).
  wsteps. unfold realloc_items. wsteps. apply wp_alloc_obj. intros [|] s1 Hm1.
  2:{ wsteps. apply Hfail. balance. }
  assert (list_wf (mk_list (Some (resize (Z.to_nat c) None (slots l))) c (count l) (item_size l)) xs)
    as Hwf'.
  { split; simpl; [done| |done| |done].
    - unfold slots at 1, zlen. simpl. rewrite length_resize. lia.
    - assert (length (slots l) <= Z.to_nat c)%nat by (unfold zlen in Hslots; lia).
      unfold slots at 1. simpl. rewrite resize_ge by done. rewrite Hvals, <- app_assoc.
      by eexists. }
  unfold slots in *. destruct (items l) as [b|] eqn:Hb; simpl in *.
  - wsteps. apply wp_free_obj. intros s2 HL HF. wsteps.
    eapply Hok; [done|simpl; lia|done|exact Hwf'|].
    unfold owned. rewrite Hb. balance.
  - wsteps. rewrite resize_nil in Hwf'.
    eapply Hok; [done|simpl; lia|done|exact Hwf'|].
    unfold owned. rewrite Hb. balance.
Qed.

(** Moving slots *)

(** [b'] is [b] with the slots in [P] taken from elsewhere. *)
Definition moved (b b' : list (option T)) (P : nat → bool) (f : nat → nat) : Prop :=
  length b' = length b ∧ ∀ j, b' !! j = b !! (if P j then f j else j).

Lemma moved_refl b P f : (∀ j, P j = false) → moved b b P f.
Proof. intros HP. split; [done|]. intros j. by rewrite HP. Qed.

(** One assignment [b[i] = b[k]] of a loop, [k] not yet overwritten. *)
Lemma moved_step b b' P P' f i k (Q : list (option T) → Prop) :
  moved b b' P f → 0 <= i < zlen b → 0 <= k < zlen b →
  f (Z.to_nat i) = Z.to_nat k → P (Z.to_nat k) = false →
  (∀ j, P' j = P j || (j =? Z.to_nat i)%nat) →
  (∀ b'', moved b b'' P' f → Q b'') →
  wpo (x ← rd b' k; wr b' i x) Q.
Proof.
  intros [Hlen Hb] Hi Hk Hf HPk HP' HQ. wsteps. apply rd_wpo; [unfold zlen in *; lia|].
  intros x Hx. rewrite wr_ok by (unfold zlen in *; lia). simpl. apply HQ.
  split; [by rewrite length_insert|]. intros j. rewrite HP'.
  destruct (Nat.eqb_spec j (Z.to_nat i)) as [->|Hne].
  - rewrite orb_true_r, list_lookup_insert_eq by (unfold zlen in *; lia).
    rewrite Hf, <- Hx, Hb. by rewrite HPk.
  - rewrite orb_false_r, list_lookup_insert_ne by done. apply Hb.
Qed.

Lemma wpo_bind_assoc {A B C} (m : outcome A) (f : A → outcome B) (g : B → outcome C) Q :
  wpo (x ← m; f x) (λ y, wpo (g y) Q) → wpo (x ← m; y ← f x; g y) Q.
Proof. destruct m as [a| |]; simpl; [|done|done]. by destruct (f a). Qed.

Lemma shift_up_ok b last index :
  0 <= index <= last → last < zlen b →
  wpo (shift_up b last index) (λ b', moved b b'
    (λ j, (Z.to_nat index <? j)%nat && (j <=? Z.to_nat last)%nat) (λ j, (j - 1)%nat)).
Proof.
  intros Hi Hl. unfold shift_up.
  apply (loop_wpo (λ '(b', i), index <= i <= last ∧ moved b b'
      (λ j, (Z.to_nat i <? j)%nat && (j <=? Z.to_nat last)%nat) (λ j, (j - 1)%nat))
    (λ '(b', i), Z.to_nat i)); [|lia|].
  - split; [lia|]. apply moved_refl. intros j. cbv beta. ncase.
  - intros [b' i] [Hi' Hm]. destruct (Z.ltb_spec index i).
    + apply wpo_bind_assoc. eapply moved_step; [exact Hm|lia|lia|cbv beta; lia|cbv beta; ncase|
        intros j; reflexivity|].
      intros b'' [Hlen Hb]. simpl. split; [|lia]. split; [lia|]. split; [done|].
      intros j. rewrite Hb. f_equal.
      destruct (Nat.eqb_spec j (Z.to_nat i)), (Nat.ltb_spec (Z.to_nat i) j),
        (Nat.ltb_spec (Z.to_nat (i - 1)) j), (Nat.leb_spec j (Z.to_nat last)); simpl; lia.
    + simpl. by replace index with i by lia.
Qed.

Lemma shift_down_ok b first last n :
  0 <= first <= last → 0 < n → last + n <= zlen b →
  wpo (shift_down b first last n) (λ b', moved b b'
    (λ j, (Z.to_nat first <=? j)%nat && (j <? Z.to_nat last)%nat) (λ j, (j + Z.to_nat n)%nat)).
Proof.
  intros Hi Hn Hl. unfold shift_down.
  apply (loop_wpo (λ '(b', i), first <= i <= last ∧ moved b b'
      (λ j, (Z.to_nat first <=? j)%nat && (j <? Z.to_nat i)%nat) (λ j, (j + Z.to_nat n)%nat))
    (λ '(b', i), Z.to_nat (last - i))); [|lia|].
  - split; [lia|]. apply moved_refl. intros j. cbv beta. ncase.
  - intros [b' i] [Hi' Hm]. destruct (Z.ltb_spec i last).
    + apply wpo_bind_assoc. eapply moved_step; [exact Hm|lia|lia|cbv beta; lia|cbv beta; ncase|
        intros j; reflexivity|].
      intros b'' [Hlen Hb]. simpl. split; [|lia]. split; [lia|]. split; [done|].
      intros j. rewrite Hb. f_equal.
      destruct (Nat.eqb_spec j (Z.to_nat i)), (Nat.leb_spec (Z.to_nat first) j),
        (Nat.ltb_spec j (Z.to_nat i)), (Nat.ltb_spec j (Z.to_nat (i + 1))); simpl; lia.
    + simpl. by replace last with i by lia.
Qed.

Lemma shift_right_ok b last n :
  0 < n <= last → last < zlen b →
  wpo (shift_right b last n) (λ b', moved b b'
    (λ j, (Z.to_nat n <=? j)%nat && (j <=? Z.to_nat last)%nat) (λ j, (j - Z.to_nat n)%nat)).
Proof.
  intros Hn Hl. unfold shift_right.
  apply (loop_wpo (λ '(b', i), n - 1 <= i <= last ∧ moved b b'
      (λ j, (Z.to_nat i <? j)%nat && (j <=? Z.to_nat last)%nat) (λ j, (j - Z.to_nat n)%nat))
    (λ '(b', i), Z.to_nat (i + 1))); [|lia|].
  - split; [lia|]. apply moved_refl. intros j. cbv beta. ncase.
  - intros [b' i] [Hi' Hm]. destruct (Z.leb_spec n i).
    + apply wpo_bind_assoc. eapply moved_step; [exact Hm|lia|lia|cbv beta; lia|cbv beta; ncase|
        intros j; reflexivity|].
      intros b'' [Hlen Hb]. simpl. split; [|lia]. split; [lia|]. split; [done|].
      intros j. rewrite Hb. f_equal.
      destruct (Nat.eqb_spec j (Z.to_nat i)), (Nat.ltb_spec (Z.to_nat i) j),
        (Nat.ltb_spec (Z.to_nat (i - 1)) j), (Nat.leb_spec j (Z.to_nat last)); simpl; lia.
    + simpl. destruct Hm as [Hlen Hb]. split; [done|]. intros j. rewrite Hb. f_equal.
      destruct (Nat.ltb_spec (Z.to_nat i) j), (Nat.leb_spec (Z.to_nat n) j); simpl; lia.
Qed.

Lemma copy_slots_ok (dst : list (option T)) doff src soff n :
  0 <= doff → 0 <= soff → 0 <= n → doff + n <= zlen dst → soff + n <= zlen src →
  wpo (copy_slots dst doff src soff n) (λ d, length d = length dst ∧
    ∀ j, d !! j = if (Z.to_nat doff <=? j)%nat && (j <? Z.to_nat (doff + n))%nat
                  then src !! (Z.to_nat soff + (j - Z.to_nat doff))%nat else dst !! j).
Proof.
  intros Hd Hs Hn Hdl Hsl. unfold copy_slots.
  apply (loop_wpo (λ '(d, i), 0 <= i <= n ∧ length d = length dst ∧
      ∀ j, d !! j = if (Z.to_nat doff <=? j)%nat && (j <? Z.to_nat (doff + i))%nat
                    then src !! (Z.to_nat soff + (j - Z.to_nat doff))%nat else dst !! j)
    (λ '(d, i), Z.to_nat (n - i))); [|lia|].
  - split; [lia|]. split; [done|]. intros j.
    by destruct (Nat.leb_spec (Z.to_nat doff) j), (Nat.ltb_spec j (Z.to_nat (doff + 0))); try lia.
  - intros [d i] (Hi & Hlen & Hj). destruct (Z.ltb_spec i n).
    + wsteps. apply rd_wpo; [lia|]. intros x Hx. wsteps.
      rewrite wr_ok by (unfold zlen in *; lia). simpl. split; [|lia]. split; [lia|].
      rewrite length_insert. split; [done|]. intros j.
      destruct (decide (j = Z.to_nat (doff + i))) as [->|Hne].
      * rewrite list_lookup_insert_eq by (unfold zlen in *; lia).
        rewrite (proj2 (Nat.leb_le _ _)), (proj2 (Nat.ltb_lt _ _)) by lia. simpl.
        rewrite <- Hx. f_equal. lia.
      * rewrite list_lookup_insert_ne by done. rewrite Hj.
        destruct (Nat.leb_spec (Z.to_nat doff) j), (Nat.ltb_spec j (Z.to_nat (doff + i))),
          (Nat.ltb_spec j (Z.to_nat (doff + (i + 1)))); simpl; try done; lia.
    + simpl. replace n with i by lia. done.
Qed.

Lemma list_wf_block b cap n sz (ys : list T) :
  cap_ok cap → zlen b = cap → zlen ys <= zlen b → n = zlen ys →
  (∀ i, (i < length ys)%nat → b !! i = Some <$> ys !! i) →
  list_wf (mk_list (Some b) cap n sz) ys.
Proof.
  intros Hcap Hb Hlen -> Hys. split; [done|done|done| |done].
  exists (drop (length ys) b). unfold slots. simpl. rewrite <- (take_drop (length ys) b) at 1.
  f_equal. apply list_eq. intros i. rewrite list_lookup_fmap.
  destruct (decide (i < length ys)%nat) as [Hi|Hi].
  - by rewrite lookup_take_lt, Hys by done.
  - rewrite lookup_take_ge, lookup_ge_None_2 by lia. done.
Qed.

(** [xs] with [v] inserted at [i]. *)
Definition insert_at (i : nat) (v : T) (xs : list T) : list T := take i xs ++ v :: drop i xs.

Lemma insert_at_lookup i v xs j :
  (i <= length xs)%nat →
  insert_at i v xs !! j =
    if (j <? i)%nat then xs !! j else if (j =? i)%nat then Some v else xs !! (j - 1)%nat.
Proof.
  intros Hi. unfold insert_at. ncase.
  - by rewrite lookup_app_l, lookup_take_lt by (rewrite ?length_take; lia).
  - subst. rewrite lookup_app_r by (rewrite length_take; lia).
    rewrite length_take. by replace (i - i `min` length xs)%nat with 0%nat by lia.
  - rewrite lookup_app_r by (rewrite length_take; lia). rewrite length_take.
    replace (j - i `min` length xs)%nat with (S (j - i - 1)) by lia. simpl.
    rewrite lookup_drop. f_equal. lia.
Qed.

Lemma insert_at_end v xs : insert_at (length xs) v xs = xs ++ [v].
Proof. unfold insert_at. by rewrite take_ge, drop_ge by lia. Qed.

Lemma length_insert_at i v xs : zlen (insert_at i v xs) = zlen xs + 1.
Proof. unfold insert_at, zlen. rewrite length_app. simpl. rewrite length_take, length_drop. lia. Qed.

(** The slots after [v] is stored at [index] and the later ones moved up. *)
Lemma insert_block l xs b b' index v :
  list_wf l xs → items l = Some b → count l < capacity l → count l < 2 ^ 31 →
  0 <= index <= count l →
  moved b b' (λ j, (Z.to_nat index <? j)%nat && (j <=? Z.to_nat (count l))%nat) (λ j, (j - 1)%nat) →
  wpo (wr b' index (Some v)) (λ b'',
    list_wf (mk_list (Some b'') (capacity l) (u32 (count l + 1)) (item_size l))
      (insert_at (Z.to_nat index) v xs)).
Proof.
  intros Hwf Hb Hroom Hsmall Hi [Hlen Hm]. pose proof (list_wf_count _ _ Hwf).
  pose proof (slots_used l xs) as Hused. unfold slots in Hused. rewrite Hb in Hused. simpl in Hused.
  pose proof Hwf as [Hcap Hs _ _ Hc]. unfold slots in Hs. rewrite Hb in Hs. simpl in Hs.
  rewrite wr_ok by (unfold zlen in *; lia). simpl.
  apply list_wf_block; [done| |rewrite length_insert_at|rewrite length_insert_at|].
  - rewrite zlen_insert. unfold zlen in *. lia.
  - rewrite zlen_insert. unfold zlen in *. lia.
  - rewrite u32_small by lia. lia.
  - intros i Hlt. pose proof (length_insert_at (Z.to_nat index) v xs). unfold zlen in *.
    rewrite insert_at_lookup by lia. ncase.
    + rewrite list_lookup_insert_ne by lia. rewrite Hm. ncase. apply Hused; [done|lia].
    + subst. by rewrite list_lookup_insert_eq by lia.
    + rewrite list_lookup_insert_ne by lia. rewrite Hm. ncase. apply Hused; [done|lia].
Qed.

(** What an insertion answers. *)
Definition inserted l xs ys (s : mem) (r : Z * list_base_t T) (s' : mem) : Prop :=
  (r.1 = 0 ∧ list_wf r.2 ys ∧ balance (owned r.2 - owned l) false s s')
  ∨ (r.1 = -1 ∧ list_wf r.2 xs ∧ balance (owned r.2 - owned l) true s s').

Lemma list_insert_ok l xs index v vsize s :
  list_wf l xs → count l < 2 ^ 31 → 0 <= index <= count l →
  wp (list_insert_ l index v vsize)
     (inserted l xs (insert_at (Z.to_nat index) v xs) s) s.
Proof.
  intros Hwf Hsmall Hi. unfold list_insert_. pose proof (list_wf_count _ _ Hwf).
  rewrite (proj2 (Z.ltb_ge _ _)), u32_small by lia. wsteps.
  apply (wp_ensure_capacity l xs); [done|lia| |].
  2:{ intros s' Hb. wsteps. right. split; [done|]. split; [done|]. simpl. by rewrite Z.sub_diag. }
  intros l' b s1 Hb Hroom Hcount Hwf' Hbal. simpl. wsteps. apply wp_alloc_obj.
  intros [|] s2 Hm; simpl.
  2:{ wsteps. right. split; [done|]. split; [done|]. simpl. balance. }
  unfold block. rewrite Hb. wsteps. eapply wpo_mono.
  { pose proof Hwf' as [_ Hs _ _ _]. unfold slots in Hs. rewrite Hb in Hs. simpl in Hs.
    apply shift_up_ok; lia. }
  intros b' Hmv. wsteps. eapply wpo_mono; [eapply insert_block; [exact Hwf'|done|lia|lia|lia|done]|].
  intros b'' Hres. wsteps. left. split; [done|]. split; [done|].
  unfold owned in *. rewrite Hb in Hbal. simpl. rewrite u32_small by lia. balance.
Qed.

Lemma list_push_ok l xs v vsize s :
  list_wf l xs → count l < 2 ^ 31 →
  wp (list_push_ l v vsize) (inserted l xs (xs ++ [v]) s) s.
Proof.
  intros Hwf Hsmall. unfold list_push_. pose proof (list_wf_count _ _ Hwf).
  rewrite u32_small by lia. wsteps.
  apply (wp_ensure_capacity l xs); [done|lia| |].
  2:{ intros s' Hb. wsteps. right. split; [done|]. split; [done|]. simpl. by rewrite Z.sub_diag. }
  intros l' b s1 Hb Hroom Hcount Hwf' Hbal. simpl. wsteps. apply wp_alloc_obj.
  intros [|] s2 Hm; simpl.
  2:{ wsteps. right. split; [done|]. split; [done|]. simpl. balance. }
  unfold block. rewrite Hb. wsteps. eapply wpo_mono.
  { eapply (insert_block l' xs b b (count l')); [done|done|lia|lia|lia|].
    apply moved_refl. intros j. cbv beta. ncase. }
  intros b'' Hres. wsteps. left. split; [done|]. pose proof Hwf' as [_ _ _ _ Hc].
  split; [|unfold owned in *; rewrite Hb in Hbal; simpl; rewrite u32_small by lia; balance].
  simpl. rewrite <- insert_at_end. replace (length xs) with (Z.to_nat (count l')); [done|].
  unfold zlen in Hc. lia.
Qed.

(** Accessing and removing *)

Lemma wf_block l xs i :
  list_wf l xs → 0 <= i < count l →
  ∃ b v, items l = Some b ∧ zlen b = capacity l ∧ rd b i = Ret (Some v)
    ∧ xs !! Z.to_nat i = Some v.
Proof.
  intros Hwf Hi. pose proof (list_wf_count _ _ Hwf). pose proof Hwf as [_ Hs Hnull _ Hc].
  pose proof (slots_used l xs (Z.to_nat i) Hwf) as Hused. unfold slots in Hs, Hused.
  destruct (items l) as [b|]; [|specialize (Hnull eq_refl); lia]. simpl in *.
  destruct (lookup_lt_is_Some_2 xs (Z.to_nat i)) as [v Hv]; [unfold zlen in *; lia|].
  exists b, v. split_and!; [done|done| |done]. apply rd_lookup; [lia|].
  rewrite Hused, Hv; [done|]. unfold zlen in *. lia.
Qed.

Lemma wf_lookup l xs b i :
  list_wf l xs → items l = Some b → (i < length xs)%nat → b !! i = Some <$> xs !! i.
Proof.
  intros Hwf Hb Hi. pose proof (slots_used l xs i Hwf Hi) as Hu. unfold slots in Hu.
  by rewrite Hb in Hu.
Qed.

Lemma list_get_ok l xs i :
  list_wf l xs → 0 <= i → list_get_ l i = Ret (xs !! Z.to_nat i).
Proof.
  intros Hwf Hi. unfold list_get_. pose proof Hwf as [_ _ _ _ Hc].
  destruct (Z.leb_spec (count l) i) as [Hge|Hlt].
  - rewrite lookup_ge_None_2; [done|]. unfold zlen in Hc. lia.
  - destruct (wf_block l xs i Hwf) as (b & v & Hb & _ & Hrd & ->); [lia|].
    unfold block. rewrite Hb. simpl. by rewrite Hrd.
Qed.

Lemma list_set_ok l xs i v vsize :
  list_wf l xs → 0 <= i →
  wpo (list_set_ l i v vsize) (λ '(rc, l'),
    if bool_decide (i < count l) then rc = 0 ∧ list_wf l' (<[Z.to_nat i := v]> xs)
      ∧ owned l' = owned l
    else rc = -1 ∧ l' = l).
Proof.
  intros Hwf Hi. unfold list_set_. destruct (Z.leb_spec (count l) i) as [Hge|Hlt].
  - rewrite bool_decide_eq_false_2 by lia. done.
  - rewrite bool_decide_eq_true_2 by done.
    destruct (wf_block l xs i Hwf) as (b & w & Hb & Hlen & Hrd & Hw); [lia|].
    unfold block. rewrite Hb. simpl. rewrite Hrd. wsteps.
    pose proof (list_wf_count _ _ Hwf). rewrite wr_ok by lia. simpl.
    split; [done|]. split; [|unfold owned; by rewrite Hb].
    pose proof Hwf as [Hcap _ _ _ Hc].
    apply list_wf_block; [done| | |by rewrite zlen_insert|]; rewrite ?zlen_insert; [done|lia|].
    rewrite length_insert. intros j Hj. destruct (decide (j = Z.to_nat i)) as [->|].
    + by rewrite !list_lookup_insert_eq by (unfold zlen in *; lia).
    + rewrite !list_lookup_insert_ne by done. by apply (wf_lookup l).
Qed.

Lemma list_pop_ok l xs :
  list_wf l xs → count l < 2 ^ 32 →
  wpo (list_pop_ l) (λ '(r, l'),
    (xs = [] ∧ r = None ∧ l' = l)
    ∨ ∃ ys v, xs = ys ++ [v] ∧ r = Some v ∧ list_wf l' ys ∧ owned l' = owned l - 1).
Proof.
  intros Hwf Hsm. unfold list_pop_. pose proof (list_wf_count _ _ Hwf).
  pose proof Hwf as [Hcap _ _ _ Hc]. destruct (Z.eqb_spec (count l) 0) as [He|Hne].
  { left. split; [|done]. destruct xs; [done|]. rewrite zlen_cons in Hc.
    pose proof (zlen_nonneg xs). lia. }
  destruct (wf_block l xs (count l - 1) Hwf) as (b & v & Hb & Hlen & Hrd & Hv); [lia|].
  unfold block. simpl. rewrite Hb. simpl. rewrite u32_small by lia. rewrite Hrd. simpl. right.
  exists (take (Z.to_nat (count l - 1)) xs), v.
  assert (zlen (take (Z.to_nat (count l - 1)) xs) = count l - 1) as Hz by (apply zlen_take; lia).
  split.
  { rewrite <- take_S_r by done. rewrite take_ge; [done|]. unfold zlen in Hc. lia. }
  split; [done|]. split; [|unfold owned; simpl; rewrite Hb; lia].
  apply list_wf_block; [done|done|lia|lia|]. intros j Hj.
  unfold zlen in *. rewrite lookup_take_lt by lia. apply (wf_lookup l); [done|done|lia].
Qed.

Lemma delete_lookup (xs : list T) i j :
  delete i xs !! j = if (j <? i)%nat then xs !! j else xs !! S j.
Proof. ncase; [by rewrite list_lookup_delete_lt|by rewrite list_lookup_delete_ge]. Qed.

Lemma list_remove_ok l xs i s :
  list_wf l xs → 0 <= i → count l < 2 ^ 32 →
  wp (list_remove_ l i) (λ '(rc, l') s',
    if bool_decide (i < count l) then rc = 0 ∧ list_wf l' (delete (Z.to_nat i) xs)
      ∧ balance (owned l' - owned l) false s s' ∧ owned l' = owned l - 1
    else rc = -1 ∧ l' = l ∧ s' = s) s.
Proof.
  intros Hwf Hi Hsm. unfold list_remove_. destruct (Z.leb_spec (count l) i) as [Hge|Hlt].
  { rewrite bool_decide_eq_false_2 by lia. wsteps. done. }
  rewrite bool_decide_eq_true_2 by done. pose proof (list_wf_count _ _ Hwf).
  destruct (wf_block l xs i Hwf) as (b & w & Hb & Hlen & Hrd & Hw); [lia|].
  unfold block. rewrite Hb. wsteps. simpl. rewrite Hrd. wsteps. apply wp_free_obj.
  intros s1 Hl Hf. wsteps. rewrite u32_small by lia.
  eapply wpo_mono; [apply shift_down_ok; lia|]. intros b' [Hlen' Hm]. wsteps.
  split; [done|]. pose proof Hwf as [Hcap _ _ _ Hc].
  assert (S (length (delete (Z.to_nat i) xs)) = length xs) as Hdel.
  { pose proof (length_delete xs (Z.to_nat i)) as HL. rewrite HL by (by eexists).
    unfold zlen in *. lia. }
  split; [|unfold owned; simpl; rewrite Hb; split; [balance|lia]].
  apply list_wf_block; [done|unfold zlen in *; lia|unfold zlen in *; lia|unfold zlen in *; lia|].
  intros j Hj. rewrite Hm, delete_lookup. unfold zlen in *. ncase.
  - apply (wf_lookup l); [done|done|lia].
  - replace (j + Z.to_nat 1)%nat with (S j) by lia. apply (wf_lookup l); [done|done|lia].
Qed.

(** Releasing *)

Lemma free_items_ok l xs b s Q :
  list_wf l xs → items l = Some b →
  (∀ s', balance (- count l) false s s' → Q () s') → wp (free_items b (count l)) Q s.
Proof.
  intros Hwf Hb HQ. unfold free_items. pose proof (list_wf_count _ _ Hwf).
  apply (loopM_wp (λ i s', 0 <= i <= count l ∧ balance (- i) false s s')
    (λ i, Z.to_nat (count l - i))); [|lia|].
  { split; [lia|]. balance. }
  intros i s1 [Hi Hbal]. destruct (Z.ltb_spec i (count l)).
  - destruct (wf_block l xs i Hwf) as (b' & w & Hb' & _ & Hrd & _); [lia|]. simplify_eq.
    wsteps. rewrite Hrd. wsteps. apply wp_free_obj. intros s2 HL HF. wsteps.
    split; [|lia]. split; [lia|]. balance.
  - wsteps. apply HQ. replace (count l) with i by lia. done.
Qed.

Lemma list_clear_ok l xs s :
  list_wf l xs →
  wp (list_clear_ l) (λ l' s', list_wf l' [] ∧ balance (owned l' - owned l) false s s'
    ∧ owned l' <= 1) s.
Proof.
  intros Hwf. unfold list_clear_. pose proof Hwf as [Hcap Hs Hnull _ Hc].
  assert (list_wf (mk_list (items l) (capacity l) 0 (item_size l)) []) as Hwf'.
  { split; [done|done|done| |done]. by exists (slots l). }
  destruct (items l) as [b|] eqn:Hb.
  - wsteps. eapply free_items_ok; [done|done|]. intros s' Hbal. wsteps. split; [done|].
    unfold owned. rewrite Hb. simpl. split; [balance|lia].
  - pose proof (list_wf_count _ _ Hwf). specialize (Hnull eq_refl).
    rewrite (proj2 (Z.eqb_eq (count l) 0)) by lia. wsteps. split; [done|].
    unfold owned. rewrite Hb. simpl. split; [balance|lia].
Qed.

Lemma list_deinit_ok l xs s :
  list_wf l xs →
  wp (list_deinit_ l) (λ l' s', list_wf l' [] ∧ owned l' = 0
    ∧ balance (- owned l) false s s') s.
Proof.
  intros Hwf. unfold list_deinit_. pose proof Hwf as [Hcap Hs Hnull _ Hc].
  assert (list_wf (mk_list (@None (list (option T))) 0 0 (item_size l)) []) as Hwf'.
  { split; [by left|done|done| |done]. by exists []. }
  unfold owned. destruct (items l) as [b|] eqn:Hb; wsteps.
  - eapply free_items_ok; [done|done|]. intros s1 Hbal. apply wp_free_obj. intros s2 HL HF.
    wsteps. simpl. split; [done|]. split; [done|]. balance.
  - pose proof (list_wf_count _ _ Hwf). specialize (Hnull eq_refl).
    simpl. split; [done|]. split; [done|]. balance.
Qed.

(** Rotating *)

Definition rotate_by (n : nat) (xs : list T) : list T := drop n xs ++ take n xs.

Lemma rotate_by_lookup n xs j :
  (n <= length xs)%nat → (j < length xs)%nat →
  rotate_by n xs !! j = xs !! (if (j <? length xs - n)%nat then (j + n)%nat
                               else (j - (length xs - n))%nat).
Proof.
  intros Hn Hj. unfold rotate_by. ncase.
  - rewrite lookup_app_l by (rewrite length_drop; lia). rewrite lookup_drop. f_equal. lia.
  - rewrite lookup_app_r by (rewrite length_drop; lia). rewrite length_drop.
    by rewrite lookup_take_lt by lia.
Qed.

Lemma length_rotate_by n xs : length (rotate_by n xs) = length xs.
Proof. unfold rotate_by. rewrite length_app, length_drop, length_take. lia. Qed.

(** What a rotation answers. *)
Definition rotated l xs ys (s : mem) (r : Z * list_base_t T) (s' : mem) : Prop :=
  owned r.2 = owned l ∧
  ((r.1 = 0 ∧ list_wf r.2 ys ∧ balance 0 false s s')
   ∨ (r.1 = -1 ∧ r.2 = l ∧ balance 0 true s s')).

Lemma rotated_none l xs s : list_wf l xs → rotated l xs (rotate_by 0 xs) s (0, l) s.
Proof.
  intros Hwf. split; [done|]. left. split; [done|]. unfold rotate_by.
  rewrite drop_0, take_0, app_nil_r. split; [done|balance].
Qed.

Lemma rotate_block l xs b b' (ys : list T) :
  list_wf l xs → items l = Some b → length b' = length b → length ys = length xs →
  (∀ j, (j < length xs)%nat → b' !! j = Some <$> ys !! j) →
  list_wf (mk_list (Some b') (capacity l) (count l) (item_size l)) ys.
Proof.
  intros Hwf Hb Hlen Hys Hj. pose proof (list_wf_count _ _ Hwf).
  pose proof Hwf as [Hcap Hs _ _ Hc]. unfold slots in Hs. rewrite Hb in Hs. simpl in Hs.
  unfold zlen in *. apply list_wf_block; unfold zlen; [done|lia|lia|lia|].
  intros j. rewrite Hys. apply Hj.
Qed.

Lemma list_rotate_left_ok l xs n s :
  list_wf l xs → 0 <= n →
  wp (list_rotate_left_ l n)
     (rotated l xs (rotate_by (Z.to_nat (if count l =? 0 then 0 else n mod count l)) xs) s) s.
Proof.
  intros Hwf Hn. unfold list_rotate_left_. pose proof (list_wf_count _ _ Hwf).
  pose proof (cap_ok_range _ (lw_cap _ _ Hwf)).
  destruct (Z.eqb_spec (count l) 0); simpl; [wsteps; by apply rotated_none|].
  destruct (Z.eqb_spec n 0) as [->|]; [rewrite Z.mod_0_l by done; wsteps; by apply rotated_none|].
  pose proof (Z.mod_pos_bound n (count l) ltac:(lia)).
  set (k := n mod count l) in *. clearbody k.
  destruct (Z.eqb_spec k 0) as [->|]; [wsteps; by apply rotated_none|].
  wsteps. apply wp_alloc_obj. intros [|] s1 Hm; simpl.
  2:{ wsteps. split; [done|]. right. split; [done|]. split; [done|]. balance. }
  destruct (wf_block l xs 0 Hwf) as (b & _ & Hb & Hblen & _ & _); [lia|].
  unfold block. rewrite Hb. wsteps. rewrite !u32_small by lia.
  eapply wpo_mono; [apply copy_slots_ok; rewrite ?(zlen_take b); unfold zlen in *;
    rewrite ?length_replicate; lia|].
  intros temp [Ht1 Ht2]. wsteps. rewrite length_replicate in Ht1.
  eapply wpo_mono; [apply shift_down_ok; lia|]. intros b1 [Hl1 Hb1]. wsteps.
  eapply wpo_mono; [apply copy_slots_ok; unfold zlen in *; lia|]. intros b2 [Hl2 Hb2]. wsteps.
  apply wp_free_obj. intros s2 HL HF. wsteps. split; [unfold owned; simpl; by rewrite Hb|].
  left. split; [done|]. split; [|balance]. pose proof (lw_count _ _ Hwf) as Hc. unfold zlen in *.
  apply (rotate_block l xs b); [done|done|lia|apply length_rotate_by|].
  intros j Hj. rewrite rotate_by_lookup by lia. rewrite Hb2, Ht2, Hb1.
  ncase; (rewrite <- (wf_lookup l xs b) by (done || lia)); f_equal; lia.
Qed.

Lemma list_rotate_right_ok l xs n s :
  list_wf l xs → 0 <= n →
  wp (list_rotate_right_ l n)
     (rotated l xs (rotate_by (Z.to_nat (if count l =? 0 then 0 else (- n) mod count l)) xs) s) s.
Proof.
  intros Hwf Hn. unfold list_rotate_right_. pose proof (list_wf_count _ _ Hwf).
  pose proof (cap_ok_range _ (lw_cap _ _ Hwf)).
  destruct (Z.eqb_spec (count l) 0) as [|Hne]; simpl; [wsteps; by apply rotated_none|].
  destruct (Z.eqb_spec n 0) as [->|]; [rewrite Z.mod_0_l by done; wsteps; by apply rotated_none|].
  pose proof (Z.mod_pos_bound n (count l) ltac:(lia)).
  destruct (Z.eqb_spec (n mod count l) 0) as [Hk|Hk].
  { rewrite Z.mod_opp_l_z by done. wsteps. by apply rotated_none. }
  rewrite Z.mod_opp_l_nz by done. set (k := n mod count l) in *. clearbody k.
  wsteps. apply wp_alloc_obj. intros [|] s1 Hm; simpl.
  2:{ wsteps. split; [done|]. right. split; [done|]. split; [done|]. balance. }
  destruct (wf_block l xs 0 Hwf) as (b & _ & Hb & Hblen & _ & _); [lia|].
  unfold block. rewrite Hb. wsteps. rewrite !u32_small by lia.
  eapply wpo_mono; [apply copy_slots_ok; unfold zlen in *; rewrite ?length_replicate; lia|].
  intros temp [Ht1 Ht2]. wsteps. rewrite length_replicate in Ht1.
  eapply wpo_mono; [apply shift_right_ok; lia|]. intros b1 [Hl1 Hb1]. wsteps.
  eapply wpo_mono; [apply copy_slots_ok; unfold zlen in *; lia|]. intros b2 [Hl2 Hb2]. wsteps.
  apply wp_free_obj. intros s2 HL HF. wsteps. split; [unfold owned; simpl; by rewrite Hb|].
  left. split; [done|]. split; [|balance]. pose proof (lw_count _ _ Hwf) as Hc. unfold zlen in *.
  apply (rotate_block l xs b); [done|done|lia|apply length_rotate_by|].
  intros j Hj. rewrite rotate_by_lookup by lia. rewrite Hb2, Ht2, Hb1.
  ncase; (rewrite <- (wf_lookup l xs b) by (done || lia)); f_equal; lia.
Qed.

(** Iterating: [while ((x = list_next(l, &iter))) ...] *)

Definition list_drain (l : list_base_t T) (iter : list_iter_t) : outcome (list T) :=
  loop (S (Z.to_nat (count l))) (λ '(iter, acc),
    '(x, iter) ← list_next_ l iter;
    match x with
    | Some v => Ret (inl (iter, acc ++ [v]))
    | None => Ret (inr acc)
    end) (iter, []).

Lemma list_drain_ok l xs : list_wf l xs → list_drain l list_iter_ = Ret xs.
Proof.
  intros Hwf. apply wpo_eq. unfold list_drain. pose proof (list_wf_count _ _ Hwf).
  pose proof (cap_ok_range _ (lw_cap _ _ Hwf)). pose proof (lw_count _ _ Hwf) as Hc.
  apply (loop_wpo (λ '(iter, acc), 0 <= li_index iter <= count l ∧ li_valid iter = 1
      ∧ acc = take (Z.to_nat (li_index iter)) xs)
    (λ '(iter, acc), Z.to_nat (count l - li_index iter))); [simpl; split_and!; lia||done|simpl; lia|].
  intros [[i v] acc] (Hi & Hv & Hacc). simpl in Hi, Hv, Hacc. subst v. unfold list_next_. simpl.
  destruct (Z.leb_spec (count l) i) as [Hge|Hlt]; simpl.
  - rewrite Hacc, take_ge; [done|]. unfold zlen in Hc. lia.
  - destruct (wf_block l xs i Hwf) as (b & w & Hb & _ & Hrd & Hw); [lia|].
    unfold block. rewrite Hb. simpl. rewrite Hrd. simpl. rewrite u32_small by lia.
    split; [|lia]. split; [lia|]. split; [done|]. rewrite Hacc.
    replace (Z.to_nat (i + 1)) with (S (Z.to_nat i)) by lia. by rewrite (take_S_r _ _ w).
Qed.

(** A loop over a list that may return early ([inr]), the body running in [M]. *)
Definition list_while {S R} (l : list_base_t T) (body : T → S → M (S + R)) (acc : S) : M (S + R) :=
  loopM (Datatypes.S (Z.to_nat (count l))) (λ '(iter, acc),
    '(x, iter) ← lift (list_next_ l iter);
    match x with
    | None => mret (inr (inl acc))
    | Some v =>
        r ← body v acc;
        mret (match r with
              | inl acc => inl (iter, acc)
              | inr res => inr (inr res)
              end)
    end) (list_iter_, acc).

(** The same over the values. *)
Fixpoint each {S R} (xs : list T) (body : T → S → M (S + R)) (acc : S) : M (S + R) :=
  match xs with
  | [] => mret (inl acc)
  | x :: xs =>
      r ← body x acc;
      match r with
      | inl acc => each xs body acc
      | inr res => mret (inr res)
      end
  end.

(** The next value, when [i] have been seen. *)
Lemma list_next_ok l xs i :
  list_wf l xs → (i <= length xs)%nat →
  list_next_ l (mk_list_iter (Z.of_nat i) 1)
  = Ret (match xs !! i with
         | Some v => (Some v, mk_list_iter (Z.of_nat (S i)) 1)
         | None => (None, mk_list_iter (Z.of_nat i) 0)
         end).
Proof.
  intros Hwf Hi. pose proof (list_wf_count _ _ Hwf). pose proof (cap_ok_range _ (lw_cap _ _ Hwf)).
  pose proof (lw_count _ _ Hwf) as Hc. unfold list_next_. simpl.
  destruct (Z.leb_spec (count l) (Z.of_nat i)) as [Hge|Hlt].
  - rewrite lookup_ge_None_2; [done|]. unfold zlen in Hc. lia.
  - destruct (wf_block l xs (Z.of_nat i) Hwf) as (b & w & Hb & _ & Hrd & Hw); [lia|].
    unfold block. rewrite Hb. simpl. rewrite Hrd. simpl. rewrite Nat2Z.id in Hw. rewrite Hw.
    rewrite u32_small by lia. by rewrite Nat2Z.inj_succ.
Qed.

Lemma list_while_each {S R} l xs (body : T → S → M (S + R)) acc s :
  list_wf l xs → list_while l body acc s = each xs body acc s.
Proof.
  intros Hwf. unfold list_while.
  assert (∀ n i acc s, n = (length xs - i)%nat → (i <= length xs)%nat →
    loopM (Datatypes.S n) (λ '(iter, acc),
      '(x, iter) ← lift (list_next_ l iter);
      match x with
      | None => mret (inr (inl acc))
      | Some v =>
          r ← body v acc;
          mret (match r with
                | inl acc => inl (iter, acc)
                | inr res => inr (inr res)
                end)
      end) (mk_list_iter (Z.of_nat i) 1, acc) s = each (drop i xs) body acc s) as Hall.
  { clear acc s. induction n as [|n IH]; intros i acc s Hn Hi; unfold loopM; fold (@loopM (list_iter_t * S) (S + R));
      unfold mbind, M_bind, lift; rewrite (list_next_ok l xs i Hwf Hi).
    - by rewrite lookup_ge_None_2, drop_ge by lia.
    - destruct (lookup_lt_is_Some_2 xs i) as [v Hv]; [lia|]. rewrite Hv, (drop_S _ v i Hv). simpl.
      unfold mbind, M_bind. destruct (body v acc s) as [[[acc'|res] s']| |]; simpl; try done.
      apply IH; lia. }
  rewrite (lw_count _ _ Hwf). unfold zlen. rewrite Nat2Z.id.
  apply (Hall (length xs) 0%nat acc s); lia.
Qed.

Lemma wp_list_while {S R} (l : list_base_t T) xs (body : T → S → M (S + R)) acc Q s :
  list_wf l xs → wp (each xs body acc) Q s → wp (list_while l body acc) Q s.
Proof. intros Hwf Hw. unfold wp in *. by rewrite (list_while_each l xs). Qed.

(** One more item, if there was room. *)
Lemma push_grown (l : list_base_t T) xs v s :
  list_wf l xs → zlen xs < 2 ^ 31 →
  wp (list_push_ l v sizeof_pointer) (λ '(rc, l') s', ∃ ys,
    list_wf l' ys ∧ grown s s' (owned l' - owned l)
    ∧ (ys = xs ++ [v] ∨ (ys = xs ∧ m_fails s < m_fails s')%nat)) s.
Proof.
  intros Hwf Hs. eapply wp_mono; [apply (list_push_ok _ xs)|]; [done|by rewrite (lw_count _ _ Hwf)|].
  intros [rc l'] s' [Hbal|Hbal]; destruct Hbal as (_ & Hw & Hb).
  - exists (xs ++ [v]). split; [done|]. split; [by eapply grown_balance|]. by left.
  - exists xs. split_and!; [done|by eapply grown_balance|]. right. split; [done|]. apply Hb.
Qed.

(** * The operations of a list *)

(** [list_push_] appends and [list_insert_] inserts at its index, growing
    the block when it is full; when an allocation fails the list holds what it
    held, and no block is lost. *)
Theorem list_insert_spec l xs index v vsize s :
  list_wf l xs → count l < 2 ^ 31 → 0 <= index →
  wp (list_push_ l v vsize) (inserted l xs (xs ++ [v]) s) s
  ∧ (index <= count l →
      wp (list_insert_ l index v vsize)
         (inserted l xs (insert_at (Z.to_nat index) v xs) s) s)
  ∧ (count l < index → list_insert_ l index v vsize s = Ret ((-1, l), s)).
Proof.
  intros Hwf Hsm Hi. split_and!.
  - by apply list_push_ok.
  - intros Hle. by apply list_insert_ok.
  - intros Hlt. unfold list_insert_. by rewrite (proj2 (Z.ltb_lt _ _) Hlt).
Qed.

(** [list_get_], [list_set_], [list_remove_] and [list_pop_] read, replace,
    delete and take the item at their index (the last one), and answer an error
    and change nothing when there is no such item; removing releases exactly the
    item, popping hands it over to the caller. *)
Theorem list_access_spec l xs i v vsize s :
  list_wf l xs → 0 <= i →
  list_get_ l i = Ret (xs !! Z.to_nat i)
  ∧ wpo (list_set_ l i v vsize) (λ '(rc, l'),
      if bool_decide (i < count l)
      then rc = 0 ∧ list_wf l' (<[Z.to_nat i := v]> xs) ∧ owned l' = owned l
      else rc = -1 ∧ l' = l)
  ∧ wp (list_remove_ l i) (λ '(rc, l') s',
      if bool_decide (i < count l)
      then rc = 0 ∧ list_wf l' (delete (Z.to_nat i) xs)
           ∧ balance (owned l' - owned l) false s s' ∧ owned l' = owned l - 1
      else rc = -1 ∧ l' = l ∧ s' = s) s
  ∧ wpo (list_pop_ l) (λ '(r, l'),
      (xs = [] ∧ r = None ∧ l' = l)
      ∨ ∃ ys w, xs = ys ++ [w] ∧ r = Some w ∧ list_wf l' ys ∧ owned l' = owned l - 1).
Proof.
  intros Hwf Hi. pose proof (list_wf_count _ _ Hwf).
  pose proof (cap_ok_range _ (lw_cap _ _ Hwf)). split_and!.
  - by apply list_get_ok.
  - by apply list_set_ok.
  - apply list_remove_ok; [done|done|lia].
  - apply list_pop_ok; [done|lia].
Qed.

(** Rotating left by [n] moves the first [n mod count] items to the end, and
    rotating right moves that many from the end to the front; an allocation
    failure leaves the list as it was. *)
Theorem list_rotate_spec l xs n s :
  list_wf l xs → 0 <= n → 0 < count l →
  wp (list_rotate_left_ l n) (rotated l xs (rotate_by (Z.to_nat (n mod count l)) xs) s) s
  ∧ wp (list_rotate_right_ l n)
      (rotated l xs (rotate_by (Z.to_nat ((- n) mod count l)) xs) s) s
  ∧ rotate_by (Z.to_nat ((- n) mod count l)) (rotate_by (Z.to_nat (n mod count l)) xs) = xs.
Proof.
  intros Hwf Hn Hc. pose proof (list_rotate_left_ok l xs n s Hwf Hn) as HL.
  pose proof (list_rotate_right_ok l xs n s Hwf Hn) as HR.
  rewrite (proj2 (Z.eqb_neq _ 0)) in HL, HR by lia. split_and!; [done|done|].
  pose proof (lw_count _ _ Hwf) as Hcount. unfold zlen in Hcount.
  pose proof (Z.mod_pos_bound n (count l) Hc). pose proof (Z.mod_pos_bound (- n) (count l) Hc).
  assert (n mod count l = 0 ∧ (- n) mod count l = 0
    ∨ (- n) mod count l = count l - n mod count l) as Hk.
  { destruct (Z.eq_dec (n mod count l) 0) as [E|E]; [left; split; [done|]|right].
    - apply Z.mod_opp_l_z; [lia|done].
    - apply Z.mod_opp_l_nz; [lia|done]. }
  apply list_eq. intros j. destruct (decide (j < length xs)%nat) as [Hj|Hj].
  - rewrite rotate_by_lookup by (rewrite length_rotate_by; lia). rewrite length_rotate_by.
    rewrite rotate_by_lookup by (ncase). f_equal. ncase.
  - by rewrite !lookup_ge_None_2 by (rewrite ?length_rotate_by; lia).
Qed.

(** Iterating from [list_iter_] answers the items in order, each once, and
    then [NULL]; clearing and releasing a list free every item it owns, and
    releasing frees the block too. *)
Theorem list_lifetime_spec l xs s :
  list_wf l xs →
  list_drain l list_iter_ = Ret xs
  ∧ wp (list_clear_ l) (λ l' s', list_wf l' [] ∧ balance (owned l' - owned l) false s s'
      ∧ owned l' <= 1) s
  ∧ wp (list_deinit_ l) (λ l' s', list_wf l' [] ∧ owned l' = 0
      ∧ balance (- owned l) false s s') s.
Proof.
  intros Hwf. split_and!;
    [by apply list_drain_ok|by apply (list_clear_ok l xs)|by apply (list_deinit_ok l xs)].
Qed.
End proofs.

(** * Witnesses *)

Section witnesses.
#[local] Existing Instance always_alloc.

Definition wlist : list_base_t Z :=
  mk_list (Some (Some <$> [10; 20; 30; 40; 50; 60; 70; 80])) 8 8 4.

Lemma wlist_wf : list_wf wlist [10; 20; 30; 40; 50; 60; 70; 80].
Proof. split; [right; by exists 3|done|done|by exists []|done]. Qed.

Lemma list_insert_spec_witness :
  wp (list_insert_ wlist 2 25 4) (λ '(rc, l') _,
    rc = 0 → list_wf l' [10; 20; 25; 30; 40; 50; 60; 70; 80]) mem0.
Proof.
  destruct (list_insert_spec wlist _ 2 25 4 mem0 wlist_wf) as (_ & H & _); [done|lia|].
  eapply wp_mono; [by apply H|]. intros [rc l'] s' [(_ & ? & _)|(? & _)] Hrc; [done|].
  simpl in *. lia.
Defined.

Lemma list_access_spec_witness :
  list_get_ wlist 7 = Ret (Some 80) ∧
  wp (list_remove_ wlist 0) (λ '(rc, l') _, list_wf l' [20; 30; 40; 50; 60; 70; 80]) mem0.
Proof.
  split; [apply (list_access_spec wlist _ 7 0 4 mem0 wlist_wf); lia|].
  eapply wp_mono; [apply (list_access_spec wlist _ 0 0 4 mem0 wlist_wf); lia|].
  intros [rc l'] s'. simpl. by intros (_ & ? & _).
Defined.

Lemma list_rotate_spec_witness :
  wp (list_rotate_right_ wlist 11) (λ '(rc, l') _,
    rc = 0 → list_wf l' [60; 70; 80; 10; 20; 30; 40; 50]) mem0.
Proof.
  destruct (list_rotate_spec wlist _ 11 mem0 wlist_wf) as (_ & H & _); [lia|done|].
  eapply wp_mono; [exact H|]. intros [rc l'] s' [_ [(_ & ? & _)|(? & _)]] Hrc; [done|].
  simpl in *. lia.
Defined.

Lemma list_lifetime_spec_witness :
  list_drain wlist list_iter_ = Ret [10; 20; 30; 40; 50; 60; 70; 80]
  ∧ wp (list_deinit_ wlist) (λ _ s', m_live s' = -9) mem0.
Proof.
  destruct (list_lifetime_spec wlist _ mem0 wlist_wf) as (H1 & _ & H3).
  split; [exact H1|]. eapply wp_mono; [exact H3|]. by intros l' s' (_ & _ & [? _]).
Defined.
End witnesses.
