(* ===== verification/Maps.v ===== *)
(** Hash maps with separate chaining: [kernel/map/src/map.c].

    The keys of a map come with the hash and the comparison the map was
    initialised with ([MapKey]); the theorems need only that the comparison
    decides equality ([MapKeyLaws]).  A bucket's linked chain is the list of
    its nodes, and the [map_node_t **] that [map_getref] answers is a bucket
    and a position in its chain.  Every operation is refined to one on the
    finite map of the entries ([entries]). *)

From stdpp Require Import gmap.
From S2P Require Import Prelude.

Class MapKey (K : Type) := {
  hash_fn : K → Z;
  cmp_fn : K → K → Z;
}.

Class MapKeyLaws (K : Type) `{MapKey K} := {
  hash_fn_u32 k : 0 <= hash_fn k < 2 ^ 32;
  cmp_fn_eq a b : cmp_fn a b = 0 ↔ a = b;
}.

(** * Hash and comparison functions *)

(** A [char] of a string, widened to [unsigned]. *)
Definition char_u32 (c : Z) : Z := u32 (if c <? 128 then c else c - 256).

(** A string is the list of its bytes before the terminator. *)
Definition map_hash_str (key : list Z) : Z :=
  fold_left (λ hash c, Z.lxor (u32 (u32 (Z.shiftl hash 5) + hash)) (char_u32 c)) key 5381.

Definition map_hash_i8 (key : Z) : Z := u32 key.
Definition map_hash_i16 (key : Z) : Z := u32 key.
Definition map_hash_i32 (key : Z) : Z := u32 key.
Definition map_hash_i64 (key : Z) : Z := u32 (Z.lxor key (Z.shiftr key 32)).
Definition map_hash_u8 (key : Z) : Z := key.
Definition map_hash_u16 (key : Z) : Z := key.
Definition map_hash_u32 (key : Z) : Z := key.
Definition map_hash_u64 (key : Z) : Z := u32 (Z.lxor key (Z.shiftr key 32)).
(** Of the bits of a floating-point key. *)
Definition map_hash_f32 (bits : Z) : Z := bits.
Definition map_hash_f64 (bits : Z) : Z := u32 (Z.lxor bits (Z.shiftr bits 32)).
Definition map_hash_bool (key : Z) : Z := key.

(** [strcmp] on strings given by their bytes, [memcmp] on blocks of the same
    size: the difference of the first bytes that differ. *)
Fixpoint strcmp (a b : list Z) : Z :=
  match a, b with
  | [], [] => 0
  | [], y :: _ => - y
  | x :: _, [] => x
  | x :: a', y :: b' => if x =? y then strcmp a' b' else x - y
  end.

Definition map_cmp_str (a b : list Z) : Z := strcmp a b.

Fixpoint memcmp (a b : list Z) (n : nat) : outcome Z :=
  match n with
  | O => Ret 0
  | S n =>
      match a, b with
      | x :: a', y :: b' => if x =? y then memcmp a' b' n else Ret (x - y)
      | _, _ => Undef
      end
  end.

Definition map_cmp_mem (a b : list Z) (ksize : Z) : outcome Z :=
  memcmp a b (Z.to_nat ksize).

(** * Maps *)

Record map_node_t (K V : Type) := mk_node {
  n_hash : Z;
  n_key : K;
  n_value : V;
}.
Arguments mk_node {K V}.
Arguments n_hash {K V}.
Arguments n_key {K V}.
Arguments n_value {K V}.

Record map_base_t (K V : Type) := mk_map {
  buckets : option (list (list (map_node_t K V)));
  nbuckets : Z;
  nnodes : Z;
  ksize : Z;
}.
Arguments mk_map {K V}.
Arguments buckets {K V}.
Arguments nbuckets {K V}.
Arguments nnodes {K V}.
Arguments ksize {K V}.

(** The node of an iterator is the rest of its chain; none is [NULL]. *)
Record map_iter_t (K V : Type) := mk_map_iter {
  bucketidx : Z;
  it_node : list (map_node_t K V);
}.
Arguments mk_map_iter {K V}.
Arguments bucketidx {K V}.
Arguments it_node {K V}.

Definition sizeof_map_node_t : Z := 24.

(** Where the value lies after the key of a node: the next multiple of 8. *)
Definition map_voffset (ksize : Z) : Z := i32 (ksize + u64 (8 - ksize) mod 8).

Section map.
Context `{Allocator} {K V : Type} `{MapKey K}.
Abbreviation node := (map_node_t K V).
Abbreviation map := (map_base_t K V).

Definition map_init_generic (keysize : Z) : map := mk_map None 0 0 keysize.

Definition map_newnode (m : map) (key : K) (value : V) (vsize : Z) : M (option node) :=
  ok ← alloc_obj (sizeof_map_node_t + map_voffset (ksize m) + vsize);
  mret (if ok : bool then Some (mk_node (hash_fn key) key value) else None).

Definition map_bucketidx (nbuckets hash : Z) : Z := Z.land hash (u32 (nbuckets - 1)).

(** Push a node on its chain. *)
Definition map_addnode (bs : list (list node)) (nbuckets : Z) (n : node)
    : outcome (list (list node)) :=
  let idx := map_bucketidx nbuckets (n_hash n) in
  chain ← rd bs idx;
  wr bs idx (n :: chain).

Fixpoint add_nodes (bs : list (list node)) (nbuckets : Z) (ns : list node)
    : outcome (list (list node)) :=
  match ns with
  | [] => Ret bs
  | n :: ns => bs ← map_addnode bs nbuckets n; add_nodes bs nbuckets ns
  end.

(** All the nodes, from the last bucket to the first, each pushed on the list. *)
Definition unlink_nodes (bs : list (list node)) : list node :=
  fold_left (λ acc chain, fold_left (λ acc n, n :: acc) chain acc) (reverse bs) [].

(** [AK24_REALLOC(m->buckets, sizeof * n)]: did it succeed? *)
Definition realloc_buckets (old : option (list (list node))) (n : Z) : M bool :=
  ok ← alloc_obj (8 * n);
  if ok : bool then
    match old with
    | None => mret true
    | Some _ => _ ← free_obj; mret true
    end
  else mret false.

Definition map_resize (m : map) (n : Z) : M (Z * map) :=
  let nodes := unlink_nodes (default [] (buckets m)) in
  ok ← realloc_buckets (buckets m) n;
  if ok : bool then
    bs ← lift (add_nodes (replicate (Z.to_nat n) []) n nodes);
    mret (0, mk_map (Some bs) n (nnodes m) (ksize m))
  else
    match buckets m with
    | Some _ =>
        bs ← lift (add_nodes (replicate (Z.to_nat (nbuckets m)) []) (nbuckets m) nodes);
        mret (-1, mk_map (Some bs) (nbuckets m) (nnodes m) (ksize m))
    | None => mret (-1, m)
    end.

(** The position in a chain of the node with this hash and key. *)
Fixpoint find_node (chain : list node) (hash : Z) (key : K) : option nat :=
  match chain with
  | [] => None
  | n :: chain =>
      if (n_hash n =? hash) && (cmp_fn (n_key n) key =? 0) then Some 0%nat
      else S <$> find_node chain hash key
  end.

Definition map_getref (m : map) (key : K) : outcome (option (Z * nat)) :=
  let hash := hash_fn key in
  if 0 <? nbuckets m then
    match buckets m with
    | None => Undef
    | Some bs =>
        let idx := map_bucketidx (nbuckets m) hash in
        chain ← rd bs idx;
        Ret ((λ p, (idx, p)) <$> find_node chain hash key)
    end
  else Ret None.

(** The chain and the node a reference points to. *)
Definition deref (m : map) (ref : Z * nat) : outcome (list (list node) * list node * node) :=
  match buckets m with
  | None => Undef
  | Some bs =>
      chain ← rd bs ref.1;
      match chain !! ref.2 with
      | Some n => Ret (bs, chain, n)
      | None => Undef
      end
  end.

(** [i] calls of [AK24_FREE]. *)
Fixpoint free_nodes (ns : list node) : M () :=
  match ns with
  | [] => mret ()
  | _ :: ns => _ ← free_obj; free_nodes ns
  end.

Fixpoint free_chains (bs : list (list node)) : M () :=
  match bs with
  | [] => mret ()
  | chain :: bs => _ ← free_nodes chain; free_chains bs
  end.

(** The buckets from the last to the first, then the block ([free(NULL)] does
    nothing). *)
Definition map_deinit_ (m : map) : M () :=
  _ ← free_chains (reverse (take (Z.to_nat (nbuckets m)) (default [] (buckets m))));
  match buckets m with
  | Some _ => free_obj
  | None => mret ()
  end.

Definition map_get_ (m : map) (key : K) : outcome (option V) :=
  next ← map_getref m key;
  match next with
  | Some ref => '(_, _, n) ← deref m ref; Ret (Some (n_value n))
  | None => Ret None
  end.

Definition map_set_ (m : map) (key : K) (value : V) (vsize : Z) : M (Z * map) :=
  next ← lift (map_getref m key);
  match next with
  | Some ref =>
      '(bs, chain, n) ← lift (deref m ref);
      let n := mk_node (n_hash n) (n_key n) value in
      bs ← lift (wr bs ref.1 (<[ref.2 := n]> chain));
      mret (0, mk_map (Some bs) (nbuckets m) (nnodes m) (ksize m))
  | None =>
      node ← map_newnode m key value vsize;
      match node with
      | None => mret (-1, m)
      | Some n =>
          '(err, m) ← (if nbuckets m <=? nnodes m then
              map_resize m (if 0 <? nbuckets m then u32 (Z.shiftl (nbuckets m) 1) else 1)
            else mret (0, m));
          if negb (err =? 0) then _ ← free_obj; mret (-1, m) else
          match buckets m with
          | None => lift Undef
          | Some bs =>
              bs ← lift (map_addnode bs (nbuckets m) n);
              mret (0, mk_map (Some bs) (nbuckets m) (u32 (nnodes m + 1)) (ksize m))
          end
      end
  end.

Definition map_remove_ (m : map) (key : K) : M map :=
  next ← lift (map_getref m key);
  match next with
  | Some ref =>
      '(bs, chain, _) ← lift (deref m ref);
      bs ← lift (wr bs ref.1 (delete ref.2 chain));
      _ ← free_obj;
      mret (mk_map (Some bs) (nbuckets m) (u32 (nnodes m - 1)) (ksize m))
  | None => mret m
  end.

Definition map_iter_ : map_iter_t K V := mk_map_iter (2 ^ 32 - 1) [].

(** The [do ... while] that looks for the next bucket with a node. *)
Definition next_bucket (m : map) (idx : Z) : outcome (option K * map_iter_t K V) :=
  loop (S (S (Z.to_nat (nbuckets m)))) (λ idx,
    let idx := u32 (idx + 1) in
    if nbuckets m <=? idx then Ret (inr (None, mk_map_iter idx [])) else
    match buckets m with
    | None => Undef
    | Some bs =>
        chain ← rd bs idx;
        match chain with
        | [] => Ret (inl idx)
        | n :: _ => Ret (inr (Some (n_key n), mk_map_iter idx chain))
        end
    end) idx.

Definition map_next_ (m : map) (iter : map_iter_t K V)
    : outcome (option K * map_iter_t K V) :=
  match it_node iter with
  | _ :: ((n :: _) as rest) => Ret (Some (n_key n), mk_map_iter (bucketidx iter) rest)
  | _ => next_bucket m (bucketidx iter)
  end.
End map.

(** * Representation *)

Definition nodes {K V} (m : map_base_t K V) : list (map_node_t K V) :=
  concat (default [] (buckets m)).

(** The finite map of the keys and values of some nodes. *)
Definition node_map {K V} `{Countable K} (ns : list (map_node_t K V)) : gmap K V :=
  list_to_map ((λ n, (n_key n, n_value n)) <$> ns).

Definition entries {K V} `{Countable K} (m : map_base_t K V) : gmap K V :=
  node_map (nodes m).

(** A bucket count is zero or a power of two. *)
Definition nbuckets_ok (n : Z) : Prop := n = 0 ∨ ∃ k, 0 <= k <= 30 ∧ n = 2 ^ k.

(** Every node is in the bucket of its hash. *)
Definition placed {K V} `{MapKey K} (nb : Z) (bs : list (list (map_node_t K V))) : Prop :=
  ∀ i chain, bs !! i = Some chain →
    Forall (λ n, n_hash n = hash_fn (n_key n)
                 ∧ Z.to_nat (map_bucketidx nb (n_hash n)) = i) chain.

Record map_wf {K V} `{MapKey K} (m : map_base_t K V) : Prop := mk_map_wf {
  mw_nbuckets : nbuckets_ok (nbuckets m);
  mw_block : zlen (default [] (buckets m)) = nbuckets m;
  mw_null : buckets m = None ↔ nbuckets m = 0;
  mw_placed : placed (nbuckets m) (default [] (buckets m));
  mw_nodup : NoDup (n_key <$> nodes m);
  mw_nnodes : nnodes m = zlen (nodes m);
  mw_load : nnodes m <= nbuckets m;
}.

(** The blocks a map owns: its bucket array and its nodes. *)
Definition owned {K V} (m : map_base_t K V) : Z :=
  (match buckets m with Some _ => 1 | None => 0 end) + nnodes m.

Lemma nbuckets_ok_range n : nbuckets_ok n → 0 <= n <= 2 ^ 30.
Proof.
  intros [->|(k & Hk & ->)]; [lia|]. split; [apply Z.pow_nonneg; lia|].
  apply Z.pow_le_mono_r; lia.
Qed.

(** A hash masked with a power of two less one is a bucket. *)
Lemma bucketidx_range nb h :
  nbuckets_ok nb → 0 < nb → 0 <= h < 2 ^ 32 → 0 <= map_bucketidx nb h < nb.
Proof.
  intros Hnb Hpos Hh. pose proof (nbuckets_ok_range nb Hnb). unfold map_bucketidx.
  rewrite u32_small by lia. destruct Hnb as [->|(k & Hk & ->)]; [lia|].
  replace (2 ^ k - 1) with (Z.ones k) by (rewrite Z.ones_equiv; lia).
  rewrite Z.land_ones by lia. apply Z.mod_pos_bound. lia.
Qed.

Section node_map.
Context {K V : Type} `{Countable K}.
Implicit Types ns : list (map_node_t K V).

Lemma node_map_perm ns ns' :
  NoDup (n_key <$> ns) → ns ≡ₚ ns' → node_map ns = node_map ns'.
Proof.
  intros Hnd Hp. unfold node_map. apply list_to_map_proper.
  - rewrite <- list_fmap_compose. by erewrite list_fmap_ext; [exact Hnd|].
  - by apply fmap_Permutation.
Qed.

Lemma node_map_cons n ns : node_map (n :: ns) = <[n_key n := n_value n]> (node_map ns).
Proof. done. Qed.

Lemma node_map_none ns k : k ∉ n_key <$> ns → node_map ns !! k = None.
Proof.
  intros Hk. apply not_elem_of_list_to_map_1. intros Hin. apply Hk.
  by rewrite <- list_fmap_compose in Hin.
Qed.
End node_map.

(** * Buckets *)

Section buckets.
Context {K V : Type} `{MapKey K, !MapKeyLaws K}.
Implicit Types (n : map_node_t K V) (bs : list (list (map_node_t K V))).

Definition other_buckets (i : nat) bs : list (map_node_t K V) :=
  concat (take i bs) ++ concat (drop (S i) bs).

Lemma concat_bucket bs i chain :
  bs !! i = Some chain → concat bs ≡ₚ chain ++ other_buckets i bs.
Proof.
  intros Hi. rewrite <- (take_drop_middle bs i chain Hi) at 1. unfold other_buckets.
  rewrite concat_app. simpl. rewrite !app_assoc. by rewrite (Permutation_app_comm _ chain).
Qed.

Lemma concat_update bs i chain chain' :
  bs !! i = Some chain → concat (<[i := chain']> bs) ≡ₚ chain' ++ other_buckets i bs.
Proof.
  intros Hi. apply lookup_lt_Some in Hi as Hlt. rewrite insert_take_drop by done.
  unfold other_buckets. rewrite concat_app. simpl. rewrite !app_assoc.
  by rewrite (Permutation_app_comm _ chain').
Qed.

(** A node of the right hash belongs to bucket [i]. *)
Definition belongs (nb : Z) (i : nat) n : Prop :=
  n_hash n = hash_fn (n_key n) ∧ Z.to_nat (map_bucketidx nb (n_hash n)) = i.

Lemma placed_update nb bs i chain' :
  placed nb bs → Forall (belongs nb i) chain' → placed nb (<[i := chain']> bs).
Proof.
  intros Hp Hc j chain Hj. destruct (decide (j = i)) as [->|Hne].
  - destruct (decide (i < length bs)%nat).
    + rewrite list_lookup_insert_eq in Hj by done. by simplify_eq.
    + rewrite lookup_ge_None_2 in Hj; [done|]. rewrite length_insert. lia.
  - rewrite list_lookup_insert_ne in Hj by done. by apply Hp.
Qed.

Lemma placed_empty nb k : placed nb (replicate k (@nil (map_node_t K V))).
Proof. intros i chain [-> _]%lookup_replicate. constructor. Qed.

Lemma map_addnode_ok nb bs n :
  nbuckets_ok nb → 0 < nb → zlen bs = nb → placed nb bs → n_hash n = hash_fn (n_key n) →
  ∃ bs', map_addnode bs nb n = Ret bs' ∧ zlen bs' = nb ∧ placed nb bs'
    ∧ concat bs' ≡ₚ n :: concat bs.
Proof.
  intros Hnb Hpos Hlen Hp Hh. unfold map_addnode.
  assert (0 <= n_hash n < 2 ^ 32) as Hrange by (rewrite Hh; apply hash_fn_u32).
  pose proof (bucketidx_range nb (n_hash n) Hnb Hpos Hrange) as Hi.
  set (i := map_bucketidx nb (n_hash n)) in *.
  destruct (lookup_lt_is_Some_2 bs (Z.to_nat i)) as [chain Hc]; [unfold zlen in Hlen; lia|].
  rewrite (rd_lookup _ _ chain) by (done || lia). simpl. rewrite wr_ok by lia.
  eexists. split; [done|]. split; [by rewrite zlen_insert|]. split.
  - apply placed_update; [done|]. constructor; [done|]. by apply Hp.
  - rewrite (concat_update _ _ _ _ Hc), (concat_bucket _ _ _ Hc). done.
Qed.

Lemma add_nodes_ok nb ns bs :
  nbuckets_ok nb → 0 < nb → zlen bs = nb → placed nb bs →
  Forall (λ n, n_hash n = hash_fn (n_key n)) ns →
  ∃ bs', add_nodes bs nb ns = Ret bs' ∧ zlen bs' = nb ∧ placed nb bs'
    ∧ concat bs' ≡ₚ ns ++ concat bs.
Proof.
  intros Hnb Hpos Hlen Hp Hns. revert bs Hlen Hp.
  induction Hns as [|n ns Hn _ IH]; intros bs Hlen Hp; [by exists bs|].
  destruct (map_addnode_ok nb bs n) as (bs1 & Hadd & Hlen1 & Hp1 & Hperm1); [done..|].
  destruct (IH bs1 Hlen1 Hp1) as (bs2 & Hadd2 & Hlen2 & Hp2 & Hperm2).
  exists bs2. simpl. rewrite Hadd. simpl. split; [done|]. split; [done|]. split; [done|].
  rewrite Hperm2, Hperm1. by rewrite Permutation_middle.
Qed.

Lemma unlink_nodes_perm bs : unlink_nodes bs ≡ₚ concat bs.
Proof.
  assert (∀ chain acc, fold_left (λ acc n, n :: acc) chain acc = reverse chain ++ acc) as Hrev.
  { induction chain as [|n chain IH]; intros acc; [done|]. simpl.
    rewrite IH, reverse_cons, <- app_assoc. done. }
  assert (∀ l acc, fold_left (λ acc chain, fold_left (λ acc n, n :: acc) chain acc) l acc
    ≡ₚ concat l ++ acc) as Hfold.
  { induction l as [|chain l IH]; intros acc; [done|]. simpl. rewrite IH, Hrev.
    rewrite (reverse_Permutation chain), <- app_assoc.
    rewrite !app_assoc. by rewrite (Permutation_app_comm (concat l)). }
  unfold unlink_nodes. rewrite Hfold, app_nil_r.
  induction bs as [|chain bs IH]; [done|]. simpl.
  rewrite reverse_cons, concat_app, IH. simpl. rewrite app_nil_r.
  by rewrite Permutation_app_comm.
Qed.

(** What a lookup in a chain answers. *)
Lemma find_node_ok nb i chain key :
  Forall (belongs nb i) chain →
  match find_node chain (hash_fn key) key with
  | Some p => ∃ n, chain !! p = Some n ∧ n_key n = key
  | None => key ∉ n_key <$> chain
  end.
Proof.
  induction 1 as [|n chain [Hh _] _ IH]; [apply not_elem_of_nil|]. simpl.
  destruct ((n_hash n =? hash_fn key) && (cmp_fn (n_key n) key =? 0)) eqn:E.
  - apply andb_true_iff in E as [_ E%Z.eqb_eq%cmp_fn_eq]. by exists n.
  - destruct (find_node chain (hash_fn key) key) as [p|]; simpl; [done|].
    apply not_elem_of_cons. split; [|done]. intros ->.
    rewrite Hh, Z.eqb_refl in E. simpl in E.
    rewrite (proj2 (cmp_fn_eq _ _) eq_refl) in E. done.
Qed.
End buckets.

(** * Operations *)

Section proofs.
Context `{Allocator} {K V : Type} `{!EqDecision K, !Countable K}.
Context `{!MapKey K, !MapKeyLaws K}.
Implicit Types (m : map_base_t K V).

Lemma nodes_hashed m : map_wf m → Forall (λ n, n_hash n = hash_fn (n_key n)) (nodes m).
Proof.
  intros [_ _ _ Hp _ _ _]. unfold nodes. rewrite Forall_concat. apply Forall_lookup_2. intros i chain Hi.
  eapply Forall_impl; [|exact (Hp _ _ Hi)]. by intros n [? _].
Qed.

Lemma nodup_wf nb (ns : list (map_node_t K V)) bs nn ks :
  nbuckets_ok nb → 0 < nb → zlen bs = nb → placed nb bs →
  NoDup (n_key <$> ns) → concat bs ≡ₚ ns → nn = zlen ns → nn <= nb →
  map_wf (mk_map (Some bs) nb nn ks).
Proof.
  intros Hnb Hpos Hlen Hp Hnd Hperm Hnn Hload. split; try done; unfold nodes; simpl.
  - split; [done|lia].
  - by rewrite Hperm.
  - rewrite Hnn. unfold zlen. by rewrite Hperm.
Qed.

(** A key that is mapped is in the chain of its hash, and only there. *)
Lemma getref_ok m key :
  map_wf m →
  (map_getref m key = Ret None ∧ key ∉ n_key <$> nodes m)
  ∨ ∃ bs i p chain n, map_getref m key = Ret (Some (i, p)) ∧ buckets m = Some bs
      ∧ 0 <= i < nbuckets m ∧ bs !! Z.to_nat i = Some chain ∧ chain !! p = Some n
      ∧ n_key n = key ∧ deref m (i, p) = Ret (bs, chain, n)
      ∧ Forall (belongs (nbuckets m) (Z.to_nat i)) chain.
Proof.
  intros Hwf. pose proof Hwf as [Hnb Hblk Hnull Hp _ Hnn Hload]. unfold map_getref.
  pose proof (nbuckets_ok_range _ Hnb). destruct (Z.ltb_spec 0 (nbuckets m)) as [Hpos|Hz].
  2:{ left. split; [done|]. destruct (nodes m); [apply not_elem_of_nil|].
      rewrite zlen_cons in Hnn. pose proof (zlen_nonneg l). lia. }
  destruct (buckets m) as [bs|] eqn:Hbs; [|pose proof (proj1 Hnull eq_refl); lia]. simpl in Hblk, Hp.
  pose proof (bucketidx_range _ _ Hnb Hpos (hash_fn_u32 key)) as Hi.
  set (i := map_bucketidx (nbuckets m) (hash_fn key)) in *.
  destruct (lookup_lt_is_Some_2 bs (Z.to_nat i)) as [chain Hc]; [unfold zlen in Hblk; lia|].
  rewrite (rd_lookup _ _ chain) by (done || lia). simpl.
  pose proof (find_node_ok (nbuckets m) (Z.to_nat i) chain key (Hp _ _ Hc)) as Hfind.
  destruct (find_node chain (hash_fn key) key) as [p|]; simpl.
  - right. destruct Hfind as (n & Hn & Hk). exists bs, i, p, chain, n.
    split_and!; try done; [lia|lia| |exact (Hp _ _ Hc)]. unfold deref. rewrite Hbs. simpl.
    rewrite (rd_lookup _ _ chain) by (done || lia). simpl. by rewrite Hn.
  - left. split; [done|]. intros (n & -> & Hin)%list_elem_of_fmap. unfold nodes in Hin.
    rewrite Hbs in Hin. simpl in Hin.
    apply list_elem_of_In, in_concat in Hin as (chain' & Hc' & Hn).
    apply list_elem_of_In, list_elem_of_lookup in Hc' as [j Hj].
    apply list_elem_of_In in Hn. pose proof (Hp _ _ Hj) as Hpl. rewrite Forall_forall in Hpl.
    destruct (Hpl n (proj1 (list_elem_of_In _ _) Hn)) as [Hh Hidx]. rewrite Hh in Hidx. fold i in Hidx. subst j.
    simplify_eq. apply Hfind. by apply list_elem_of_fmap_2.
Qed.

(** The nodes of a map around the one a reference points to. *)
Lemma nodes_split m bs i p chain n :
  buckets m = Some bs → bs !! i = Some chain → chain !! p = Some n →
  nodes m ≡ₚ n :: (take p chain ++ drop (S p) chain) ++ other_buckets i bs.
Proof.
  intros Hb Hi Hp. unfold nodes. rewrite Hb. simpl. rewrite (concat_bucket _ _ _ Hi).
  rewrite <- (take_drop_middle chain p n Hp) at 1. by rewrite <- Permutation_middle.
Qed.

Lemma map_get_ok m key : map_wf m → map_get_ m key = Ret (entries m !! key).
Proof.
  intros Hwf. unfold map_get_, entries. pose proof (mw_nodup _ Hwf) as Hnd.
  destruct (getref_ok m key Hwf) as [[-> Hno]|(bs & i & p & chain & n & -> & Hb & Hi & Hc & Hn & Hk & Hd & _)].
  - simpl. by rewrite node_map_none.
  - simpl. rewrite Hd. simpl. rewrite (node_map_perm _ _ Hnd (nodes_split _ _ _ _ _ _ Hb Hc Hn)).
    rewrite node_map_cons, <- Hk. by rewrite lookup_insert_eq.
Qed.

Lemma map_remove_ok m key s :
  map_wf m →
  wp (map_remove_ m key) (λ m' s', map_wf m' ∧ entries m' = delete key (entries m)
    ∧ balance (owned m' - owned m) false s s') s.
Proof.
  intros Hwf. unfold map_remove_. pose proof Hwf as [Hnb Hblk _ Hp Hnd Hnn Hload].
  pose proof (nbuckets_ok_range _ Hnb).
  destruct (getref_ok m key Hwf) as [[-> Hno]|(bs & i & p & chain & n & -> & Hb & Hi & Hc & Hn & Hk & Hd & Hbel)].
  - wsteps. split; [done|]. split; [|balance]. symmetry. apply delete_id.
    by apply node_map_none.
  - wsteps. rewrite Hd. wsteps. rewrite Hb in Hblk, Hp. simpl in Hblk, Hp.
    rewrite wr_ok by (simpl; lia). simpl. wsteps. apply wp_free_obj. intros s1 HL HF. wsteps.
    pose proof (nodes_split _ _ _ _ _ _ Hb Hc Hn) as Hperm.
    assert (concat (<[Z.to_nat i := delete p chain]> bs)
      ≡ₚ (take p chain ++ drop (S p) chain) ++ other_buckets (Z.to_nat i) bs) as Hperm'.
    { rewrite (concat_update _ _ _ _ Hc). by rewrite delete_take_drop. }
    pose proof Hnd as Hnd'. rewrite Hperm in Hnd'. simpl in Hnd'.
    apply list.NoDup_cons in Hnd' as [Hnew Hnd'].
    assert (nnodes m = 1 + zlen ((take p chain ++ drop (S p) chain) ++ other_buckets (Z.to_nat i) bs))
      as Hnn'. { rewrite Hnn, <- zlen_cons with (x := n). unfold zlen. by rewrite Hperm. }
    pose proof (zlen_nonneg ((take p chain ++ drop (S p) chain) ++ other_buckets (Z.to_nat i) bs)).
    rewrite u32_small by lia. split.
    + eapply nodup_wf; [done|lia|by rewrite zlen_insert| |exact Hnd'|exact Hperm'|lia|lia].
      apply placed_update; [done|]. by apply Forall_delete.
    + split; [|unfold owned; simpl; rewrite Hb; balance].
      unfold entries. unfold nodes at 1. simpl. rewrite (node_map_perm _ _ Hnd Hperm).
      rewrite node_map_cons, Hk, delete_insert_id; [|apply node_map_none; by rewrite <- Hk].
      apply node_map_perm; [by rewrite Hperm'|done].
Qed.

(** ** Storing *)

Lemma nodes_none m : map_wf m → buckets m = None → nodes m = [] ∧ nnodes m = 0.
Proof.
  intros Hwf Hb. pose proof (mw_nnodes _ Hwf) as Hnn. unfold nodes in *. rewrite Hb in *. done.
Qed.

Lemma map_resize_ok m n s :
  map_wf m → nbuckets_ok n → 0 < n → nbuckets m <= n →
  wp (map_resize m n) (λ '(rc, m') s', map_wf m' ∧ nodes m' ≡ₚ nodes m
    ∧ nnodes m' = nnodes m
    ∧ ((rc = 0 ∧ nbuckets m' = n ∧ balance (owned m' - owned m) false s s')
       ∨ (rc = -1 ∧ balance (owned m' - owned m) true s s'))) s.
Proof.
  intros Hwf Hn Hpos Hle. unfold map_resize. pose proof Hwf as [Hnb Hblk Hnull Hp Hnd Hnn Hload].
  pose proof (nodes_hashed m Hwf) as Hh. pose proof (unlink_nodes_perm (default [] (buckets m))) as Hun.
  fold (nodes m) in Hun.
  assert (Forall (λ n : map_node_t K V, n_hash n = hash_fn (n_key n))
    (unlink_nodes (default [] (buckets m)))) as Hh' by (by rewrite Hun).
  assert (∀ nb, nbuckets_ok nb → 0 < nb → nbuckets m <= nb → ∃ bs',
    add_nodes (replicate (Z.to_nat nb) []) nb (unlink_nodes (default [] (buckets m))) = Ret bs'
    ∧ map_wf (mk_map (Some bs') nb (nnodes m) (ksize m)) ∧ concat bs' ≡ₚ nodes m) as Hadd.
  { intros nb Hnb' Hpos' Hle'.
    destruct (add_nodes_ok nb (unlink_nodes (default [] (buckets m))) (replicate (Z.to_nat nb) []))
      as (bs' & Ha & Hl & Hpl & Hperm); [done|done| |apply placed_empty|done|].
    { unfold zlen. rewrite length_replicate. lia. }
    assert (concat (replicate (Z.to_nat nb) (@nil (map_node_t K V))) = []) as Hnil.
    { clear. induction (Z.to_nat nb) as [|k IH]; [done|]. by simpl. }
    rewrite Hnil, app_nil_r, Hun in Hperm. exists bs'. split; [done|]. split; [|done].
    by eapply nodup_wf; [| | | |exact Hnd|exact Hperm| |lia]. }
  wsteps. unfold realloc_buckets. wsteps. apply wp_alloc_obj. intros [|] s1 Hm; simpl.
  - destruct (Hadd n) as (bs' & -> & Hwf' & Hperm); [done|done|done|].
    assert (owned (mk_map (Some bs') n (nnodes m) (ksize m)) - owned m
      = match buckets m with Some _ => 0 | None => 1 end) as Hown.
    { unfold owned. simpl. destruct (buckets m); lia. }
    destruct (buckets m) as [bs|] eqn:Hb; wsteps.
    + apply wp_free_obj. intros s2 HL HF. wsteps. split; [done|]. split; [done|]. split; [done|].
      left. split; [done|]. split; [done|]. rewrite Hown. balance.
    + split; [done|]. split; [done|]. split; [done|]. left. split; [done|]. split; [done|].
      rewrite Hown. balance.
  - wsteps. destruct (buckets m) as [bs|] eqn:Hb; simpl in *.
    + assert (0 < nbuckets m) as Hpos'.
      { pose proof (nbuckets_ok_range _ Hnb). destruct (decide (nbuckets m = 0)) as [Hz|]; [|lia].
        by apply Hnull in Hz. }
      destruct (Hadd (nbuckets m)) as (bs' & -> & Hwf' & Hperm); [done|done|lia|].
      wsteps. split; [done|]. split; [done|]. split; [done|]. right. split; [done|].
      unfold owned. rewrite Hb. simpl. balance.
    + wsteps. split; [done|]. split; [done|]. split; [done|]. right. split; [done|].
      rewrite Z.sub_diag. balance.
Qed.

Lemma nnodes_size m : map_wf m → nnodes m = Z.of_nat (size (entries m)).
Proof.
  intros Hwf. rewrite (mw_nnodes _ Hwf). unfold entries, node_map, zlen.
  rewrite map_size_list_to_map; [by rewrite length_fmap|].
  rewrite <- list_fmap_compose. by apply mw_nodup.
Qed.

(** What storing answers. *)
Definition stored m (key : K) (value : V) (s : mem) (r : Z * map_base_t K V) (s' : mem) : Prop :=
  map_wf r.2 ∧
  ((r.1 = 0 ∧ entries r.2 = <[key := value]> (entries m)
    ∧ balance (owned r.2 - owned m) false s s')
   ∨ (r.1 = -1 ∧ entries r.2 = entries m ∧ balance (owned r.2 - owned m) true s s')).

Lemma map_overwrite_ok m key value bs i p chain n s :
  map_wf m → buckets m = Some bs → 0 <= i < nbuckets m → bs !! Z.to_nat i = Some chain →
  chain !! p = Some n → n_key n = key → Forall (belongs (nbuckets m) (Z.to_nat i)) chain →
  stored m key value s
    (0, mk_map (Some (<[Z.to_nat i := <[p := mk_node (n_hash n) (n_key n) value]> chain]> bs))
          (nbuckets m) (nnodes m) (ksize m)) s.
Proof.
  intros Hwf Hb Hi Hc Hn <- Hbel. pose proof Hwf as [Hnb Hblk _ Hp Hnd Hnn Hload].
  rewrite Hb in Hblk, Hp. simpl in Hblk, Hp.
  set (n' := mk_node (n_hash n) (n_key n) value).
  pose proof (nodes_split _ _ _ _ _ _ Hb Hc Hn) as Hperm.
  assert (concat (<[Z.to_nat i := <[p := n']> chain]> bs)
    ≡ₚ n' :: (take p chain ++ drop (S p) chain) ++ other_buckets (Z.to_nat i) bs) as Hperm'.
  { rewrite (concat_update _ _ _ _ Hc). apply lookup_lt_Some in Hn.
    rewrite insert_take_drop by done. by rewrite <- Permutation_middle. }
  assert (NoDup (n_key <$> n' :: (take p chain ++ drop (S p) chain)
    ++ other_buckets (Z.to_nat i) bs)) as Hnd'. { by rewrite Hperm in Hnd. }
  split; [|left; split; [done|split; [|unfold owned; simpl; rewrite Hb; balance]]]; simpl.
  - eapply nodup_wf; [done|lia|by rewrite zlen_insert| |exact Hnd'|exact Hperm'| |lia].
    + apply placed_update; [done|]. apply Forall_insert; [done|].
      rewrite Forall_lookup in Hbel. exact (Hbel _ _ Hn).
    + rewrite Hnn. unfold zlen. by rewrite Hperm.
  - unfold entries. unfold nodes at 1. simpl.
    rewrite (node_map_perm (nodes m) _ Hnd Hperm), node_map_cons, insert_insert_eq.
    apply (node_map_perm _ (n' :: _)); [by rewrite Hperm'|done].
Qed.

Lemma map_set_ok m key value vsize s :
  map_wf m → nnodes m < 2 ^ 30 → wp (map_set_ m key value vsize) (stored m key value s) s.
Proof.
  intros Hwf Hsm. unfold map_set_.
  destruct (getref_ok m key Hwf) as [[-> Hno]|(bs & i & p & chain & n & -> & Hb & Hi & Hc & Hn & Hk & Hd & Hbel)].
  2:{ wsteps. rewrite Hd. wsteps. pose proof (mw_block _ Hwf) as Hblk. rewrite Hb in Hblk.
      simpl in Hblk. rewrite wr_ok by (simpl; lia). simpl. wsteps.
      by apply map_overwrite_ok. }
  pose proof Hwf as [Hnb _ _ _ Hnd Hnn Hload]. pose proof (nbuckets_ok_range _ Hnb) as Hrange.
  wsteps. unfold map_newnode. wsteps. apply wp_alloc_obj. intros [|] s1 Hm; wsteps.
  2:{ split; [done|]. right. split; [done|]. split; [done|]. simpl. rewrite Z.sub_diag. balance. }
  eapply (wp_mono _ (λ r s2, map_wf r.2 ∧ nodes r.2 ≡ₚ nodes m ∧ nnodes r.2 = nnodes m ∧
    ((r.1 = 0 ∧ nnodes m < nbuckets r.2 ∧ balance (owned r.2 - owned m) false s1 s2)
     ∨ (r.1 = -1 ∧ balance (owned r.2 - owned m) true s1 s2)))).
  { destruct (Z.leb_spec (nbuckets m) (nnodes m)).
    - eapply wp_mono; [apply map_resize_ok; [done| | |]|].
      + destruct (Z.ltb_spec 0 (nbuckets m)); [|right; by exists 0].
        rewrite Z.shiftl_mul_pow2, u32_small by lia. right.
        destruct Hnb as [?|(k & Hk & Hk')]; [lia|]. exists (k + 1).
        assert (k < 30) by (apply (Z.pow_lt_mono_r_iff 2); lia).
        split; [lia|]. rewrite Hk', Z.pow_add_r; lia.
      + destruct (Z.ltb_spec 0 (nbuckets m)); [|lia]. rewrite Z.shiftl_mul_pow2, u32_small; lia.
      + destruct (Z.ltb_spec 0 (nbuckets m)); [|lia]. rewrite Z.shiftl_mul_pow2, u32_small; lia.
      + intros [rc m'] s2 (Hwf' & Hperm & Hn' & Hr). simpl. split; [done|]. split; [done|].
        split; [done|]. destruct Hr as [(? & Hnb' & ?)|?]; [left|by right].
        split; [done|]. split; [|done]. rewrite Hnb'.
        destruct (Z.ltb_spec 0 (nbuckets m)); [|lia].
        rewrite Z.shiftl_mul_pow2, u32_small; lia.
    - wsteps. split; [done|]. split; [done|]. split; [done|]. left. split; [done|].
      split; [done|]. rewrite Z.sub_diag. balance. }
  intros [err m'] s2 (Hwf' & Hperm & Hn' & Hr). cbn [fst snd] in *.
  destruct Hr as [(-> & Hroom & Hbal)|(-> & Hbal)]; simpl.
  2:{ wsteps. apply wp_free_obj. intros s3 HL HF. wsteps. split; [done|]. right.
      split; [done|]. split; [|simpl; balance].
      apply node_map_perm; [by rewrite Hperm|done]. }
  pose proof Hwf' as [Hnb' Hblk' Hnull' Hp' Hnd' _ _].
  destruct (buckets m') as [bs|] eqn:Hb; [|pose proof (proj1 Hnull' eq_refl);
    pose proof (zlen_nonneg (nodes m)); lia].
  pose proof (zlen_nonneg (nodes m)). simpl in Hblk', Hp'.
  destruct (map_addnode_ok (nbuckets m') bs (mk_node (hash_fn key) key value))
    as (bs' & -> & Hl & Hpl & Hperm'); [done|lia|done|done|done|].
  wsteps. unfold nodes in Hperm at 1. rewrite Hb in Hperm. simpl in Hperm. rewrite Hperm in Hperm'.
  assert (NoDup (n_key <$> mk_node (hash_fn key) key value :: nodes m)) as Hnd2.
  { simpl. apply NoDup_cons_2; [done|done]. }
  split; [|left; split; [done|split]]; cbn [fst snd].
  - eapply nodup_wf; [done|lia|done|done|exact Hnd2|exact Hperm'| |];
      rewrite u32_small by lia; [rewrite zlen_cons; lia|lia].
  - unfold entries. unfold nodes at 1. simpl.
    rewrite (node_map_perm _ (mk_node (hash_fn key) key value :: nodes m)) by (by rewrite ?Hperm').
    done.
  - unfold owned in *. rewrite Hb in Hbal. simpl. rewrite u32_small by lia. balance.
Qed.

(** ** Iterating *)

(** The nodes an iterator has still to visit. *)
Definition to_visit m (iter : map_iter_t K V) : list (map_node_t K V) :=
  tail (it_node iter)
    ++ concat (drop (Z.to_nat (u32 (bucketidx iter + 1))) (default [] (buckets m))).

Definition iter_ok m (iter : map_iter_t K V) : Prop :=
  u32 (bucketidx iter + 1) <= nbuckets m.

Lemma next_bucket_ok m idx :
  map_wf m → u32 (idx + 1) <= nbuckets m →
  wpo (next_bucket m idx) (λ '(r, iter),
    match concat (drop (Z.to_nat (u32 (idx + 1))) (default [] (buckets m))) with
    | [] => r = None
    | n :: ns => r = Some (n_key n) ∧ iter_ok m iter ∧ to_visit m iter = ns
    end).
Proof.
  intros Hwf Hidx. unfold next_bucket. pose proof Hwf as [Hnb Hblk Hnull _ _ _ _].
  pose proof (nbuckets_ok_range _ Hnb). pose proof (u32_range (idx + 1)).
  apply (loop_wpo (λ i, u32 (i + 1) <= nbuckets m ∧
      concat (drop (Z.to_nat (u32 (i + 1))) (default [] (buckets m)))
      = concat (drop (Z.to_nat (u32 (idx + 1))) (default [] (buckets m))))
    (λ i, Z.to_nat (nbuckets m - u32 (i + 1)))); [done|lia|].
  intros i [Hi <-]. pose proof (u32_range (i + 1)). set (j := u32 (i + 1)) in *.
  destruct (Z.leb_spec (nbuckets m) j) as [Hge|Hlt].
  - simpl. rewrite drop_ge; [done|]. unfold zlen in Hblk. lia.
  - destruct (buckets m) as [bs|] eqn:Hb; [|pose proof (proj1 Hnull eq_refl); lia]. simpl in *.
    destruct (lookup_lt_is_Some_2 bs (Z.to_nat j)) as [chain Hc]; [unfold zlen in Hblk; lia|].
    rewrite (rd_lookup _ _ chain) by (done || lia). simpl.
    rewrite (drop_S bs chain) by done. simpl.
    assert (u32 (j + 1) = j + 1) as Hj by (apply u32_small; lia).
    assert (Z.to_nat (j + 1) = S (Z.to_nat j)) as Hj' by lia.
    destruct chain as [|n chain]; simpl.
    + rewrite Hj, Hj'. split; [split; [lia|done]|lia].
    + split; [done|]. unfold iter_ok, to_visit. simpl. rewrite Hj, Hj', Hb. split; [lia|done].
Qed.

Lemma map_next_ok m iter :
  map_wf m → iter_ok m iter →
  wpo (map_next_ m iter) (λ '(r, iter'),
    match to_visit m iter with
    | [] => r = None
    | n :: ns => r = Some (n_key n) ∧ iter_ok m iter' ∧ to_visit m iter' = ns
    end).
Proof.
  intros Hwf Hok. unfold map_next_, to_visit.
  destruct (it_node iter) as [|x [|n ns]] eqn:E; simpl; [by apply next_bucket_ok..|].
  by split.
Qed.

(** [while ((k = map_next(m, &iter))) ...]: the keys in the order visited. *)
Definition map_drain m (iter : map_iter_t K V) : outcome (list K) :=
  loop (S (Z.to_nat (nnodes m))) (λ '(iter, acc),
    '(k, iter) ← map_next_ m iter;
    match k with
    | Some k => Ret (inl (iter, acc ++ [k]))
    | None => Ret (inr acc)
    end) (iter, []).

Lemma map_drain_ok m : map_wf m → map_drain m map_iter_ = Ret (n_key <$> nodes m).
Proof.
  intros Hwf. apply wpo_eq. unfold map_drain. pose proof (nbuckets_ok_range _ (mw_nbuckets _ Hwf)).
  pose proof (mw_nnodes _ Hwf) as Hnn.
  apply (loop_wpo (λ '(iter, acc), iter_ok m iter
      ∧ acc ++ (n_key <$> to_visit m iter) = n_key <$> nodes m)
    (λ '(iter, acc), length (to_visit m iter))).
  - split; [|done]. unfold iter_ok. change (u32 (bucketidx map_iter_ + 1)) with 0. lia.
  - change (to_visit m map_iter_) with (nodes m). unfold zlen in Hnn. lia.
  - intros [iter acc] [Hok Hacc]. wsteps. eapply wpo_mono; [by apply map_next_ok|].
    intros [r iter'] Hr. destruct (to_visit m iter) as [|n ns].
    + subst r. simpl. rewrite <- Hacc. simpl. by rewrite app_nil_r.
    + destruct Hr as (-> & Hok' & <-). simpl. split; [|lia]. split; [done|].
      rewrite <- Hacc, <- app_assoc. done.
Qed.

(** ** Releasing *)

Lemma free_nodes_ok (ns : list (map_node_t K V)) s Q :
  (∀ s', balance (- zlen ns) false s s' → Q () s') → wp (free_nodes ns) Q s.
Proof.
  revert s Q. induction ns as [|n ns IH]; intros s Q HQ; simpl.
  - apply wp_ret, HQ. change (zlen _) with 0. balance.
  - apply wp_bind, wp_free_obj. intros s1 HL HF. apply IH. intros s2 Hb. apply HQ.
    rewrite zlen_cons. balance.
Qed.

Lemma free_chains_ok (bs : list (list (map_node_t K V))) s Q :
  (∀ s', balance (- zlen (concat bs)) false s s' → Q () s') → wp (free_chains bs) Q s.
Proof.
  revert s Q. induction bs as [|chain bs IH]; intros s Q HQ; simpl.
  - apply wp_ret, HQ. change (zlen _) with 0. balance.
  - apply wp_bind, free_nodes_ok. intros s1 H1. apply IH. intros s2 H2. apply HQ.
    change (concat (chain :: bs)) with (chain ++ concat bs). rewrite zlen_app. balance.
Qed.

Lemma zlen_concat_reverse {A} (l : list (list A)) : zlen (concat (reverse l)) = zlen (concat l).
Proof.
  induction l as [|x l IH]; [done|]. rewrite reverse_cons, concat_app. simpl.
  rewrite app_nil_r, !zlen_app, IH. lia.
Qed.

Lemma map_deinit_ok m s :
  map_wf m → wp (map_deinit_ m) (λ _ s', balance (- owned m) false s s') s.
Proof.
  intros Hwf. unfold map_deinit_. pose proof Hwf as [_ Hblk _ _ _ Hnn _].
  wsteps. apply free_chains_ok. intros s1 H1.
  rewrite take_ge in H1 by (unfold zlen in Hblk; lia).
  assert (zlen (concat (reverse (default [] (buckets m)))) = nnodes m) as Hz.
  { rewrite Hnn. apply zlen_concat_reverse. }
  rewrite Hz in H1. unfold owned. destruct (buckets m); wsteps.
  - apply wp_free_obj. intros s2 HL HF. balance.
  - balance.
Qed.

(** * The operations of a map *)

(** C2: On the finite map of a map's entries, [map_get_] looks up, [map_set_]
    inserts or replaces and [map_remove_] deletes; a failed allocation makes
    [map_set_] answer -1 and leaves every entry as it was, and each call
    allocates and frees exactly the blocks that its result owns. *)
Theorem map_refines_gmap m key value vsize s :
  map_wf m → nnodes m < 2 ^ 30 →
  map_get_ m key = Ret (entries m !! key)
  ∧ wp (map_set_ m key value vsize) (stored m key value s) s
  ∧ wp (map_remove_ m key) (λ m' s', map_wf m' ∧ entries m' = delete key (entries m)
      ∧ balance (owned m' - owned m) false s s') s.
Proof.
  intros Hwf Hsm.
  split_and!; [by apply map_get_ok|by apply map_set_ok|by apply map_remove_ok].
Qed.

(** Moving every node to a larger array of buckets keeps all the entries,
    and so does an allocation failure, which puts the nodes back. *)
Theorem map_resize_spec m n s :
  map_wf m → nbuckets_ok n → 0 < n → nbuckets m <= n →
  wp (map_resize m n) (λ '(rc, m') s', map_wf m' ∧ entries m' = entries m
    ∧ ((rc = 0 ∧ nbuckets m' = n ∧ balance (owned m' - owned m) false s s')
       ∨ (rc = -1 ∧ balance (owned m' - owned m) true s s'))) s.
Proof.
  intros Hwf Hn Hpos Hle. eapply wp_mono; [by apply map_resize_ok|].
  intros [rc m'] s' (Hwf' & Hperm & _ & Hr). split; [done|]. split; [|naive_solver].
  apply node_map_perm; [|done]. rewrite Hperm. by apply mw_nodup.
Qed.

(** Iterating from [map_iter_] visits the key of every entry exactly once
    and then answers [NULL]; releasing a map frees every block it owns. *)
Theorem map_iteration_spec m s :
  map_wf m →
  (∃ ks, map_drain m map_iter_ = Ret ks ∧ NoDup ks
     ∧ ∀ key, key ∈ ks ↔ is_Some (entries m !! key))
  ∧ wp (map_deinit_ m) (λ _ s', balance (- owned m) false s s') s.
Proof.
  intros Hwf. split; [|by apply map_deinit_ok]. exists (n_key <$> nodes m).
  split; [by apply map_drain_ok|]. split; [by apply mw_nodup|]. intros key.
  unfold entries, node_map. split.
  - intros (n & -> & Hn)%list_elem_of_fmap. exists (n_value n).
    apply elem_of_list_to_map_1.
    + rewrite <- list_fmap_compose. by apply mw_nodup.
    + apply list_elem_of_fmap. by exists n.
  - intros [v Hv%elem_of_list_to_map_2]. apply list_elem_of_fmap in Hv as (n & [= -> _] & Hn).
    by apply list_elem_of_fmap_2.
Qed.
End proofs.

(** * String keys *)

(** The bytes of a C string: none is the terminator. *)
Record cstr := mk_cstr {
  chars : list Z;
  chars_ok : forallb (λ c, (0 <? c) && (c <? 256)) chars = true;
}.

Lemma cstr_eq a b : chars a = chars b → a = b.
Proof. destruct a as [l Hl], b as [k Hk]. simpl. intros ->. f_equal. apply proof_irrel. Qed.

#[export] Instance cstr_eq_dec : EqDecision cstr.
Proof.
  intros a b. destruct (decide (chars a = chars b)) as [E|E].
  - left. by apply cstr_eq.
  - right. congruence.
Defined.

#[export] Instance cstr_countable : Countable cstr.
Proof.
  refine (inj_countable chars (λ l,
    match decide (forallb (λ c, (0 <? c) && (c <? 256)) l = true) with
    | left H => Some (mk_cstr l H)
    | right _ => None
    end) _).
  intros [l Hl]. simpl. case_decide; [|done]. f_equal. by apply cstr_eq.
Defined.

#[export] Instance cstr_key : MapKey cstr := {|
  hash_fn s := map_hash_str (chars s);
  cmp_fn a b := map_cmp_str (chars a) (chars b);
|}.

Lemma u32_xor a b : 0 <= a < 2 ^ 32 → 0 <= b < 2 ^ 32 → 0 <= Z.lxor a b < 2 ^ 32.
Proof.
  intros Ha Hb. assert (0 <= Z.lxor a b) as Hn by (apply Z.lxor_nonneg; lia). split; [done|].
  destruct (decide (Z.lxor a b = 0)) as [->|Hne]; [lia|]. apply Z.log2_lt_pow2; [lia|].
  pose proof (Z.log2_lxor a b ltac:(lia) ltac:(lia)) as Hl.
  assert (∀ x, 0 <= x < 2 ^ 32 → Z.log2 x < 32) as Hlog.
  { intros x Hx. destruct (decide (x = 0)) as [->|]; [done|]. apply Z.log2_lt_pow2; lia. }
  pose proof (Hlog a Ha). pose proof (Hlog b Hb). lia.
Qed.

Lemma map_hash_str_range l : 0 <= map_hash_str l < 2 ^ 32.
Proof.
  unfold map_hash_str. assert (0 <= 5381 < 2 ^ 32) as H0 by lia. revert H0. generalize 5381.
  induction l as [|c l IH]; intros h Hh; [done|]. simpl. apply IH, u32_xor; apply u32_range.
Qed.

Lemma strcmp_eq a b :
  forallb (λ c, (0 <? c) && (c <? 256)) a = true →
  forallb (λ c, (0 <? c) && (c <? 256)) b = true → strcmp a b = 0 ↔ a = b.
Proof.
  revert b. induction a as [|x a IH]; intros [|y b] Ha Hb; simpl in *; [done|..].
  - split; [lia|done].
  - split; [lia|done].
  - apply andb_true_iff in Ha as [_ Ha], Hb as [_ Hb]. destruct (Z.eqb_spec x y) as [->|Hne].
    + rewrite IH by done. split; congruence.
    + split; [lia|congruence].
Qed.

Lemma strcmp_chars a b :
  Forall is_char a → Forall is_char b → (strcmp a b =? 0) = bool_decide (a = b).
Proof.
  assert (∀ l, Forall is_char l → forallb (λ c, (0 <? c) && (c <? 256)) l = true) as Hf.
  { intros l Hl. apply Is_true_true, forallb_True. revert Hl. apply Forall_impl. unfold is_char. intros x Hx.
    apply Is_true_true, andb_true_intro. split; apply Z.ltb_lt; lia. }
  intros Ha Hb. apply Hf in Ha, Hb. pose proof (strcmp_eq a b Ha Hb) as He.
  case_bool_decide as E; [apply Z.eqb_eq; by apply He|apply Z.eqb_neq; by intros ?%He].
Qed.

#[export] Instance cstr_key_laws : MapKeyLaws cstr.
Proof.
  split.
  - intros s. apply map_hash_str_range.
  - intros [a Ha] [b Hb]. simpl. unfold map_cmp_str. rewrite strcmp_eq by done.
    split; [intros ->; by apply cstr_eq|by intros [= ->]].
Qed.

(** * Witnesses *)

Section witnesses.
#[local] Existing Instance always_alloc.

Definition wa : cstr := mk_cstr [0x61] eq_refl.
Definition wb : cstr := mk_cstr [0x62] eq_refl.

Definition wmap : map_base_t cstr Z :=
  mk_map (Some [[mk_node (map_hash_str [0x61]) wa 1]]) 1 1 8.

Lemma wmap_wf : map_wf wmap.
Proof.
  split.
  - right. by exists 0.
  - done.
  - done.
  - intros [|i] chain Hc; [|done]. simpl in Hc. simplify_eq. repeat constructor.
  - apply NoDup_singleton.
  - done.
  - done.
Qed.

Lemma map_refines_gmap_witness :
  wp (map_set_ wmap wb 2 8) (λ '(rc, m') _, rc = 0 → map_get_ m' wa = Ret (Some 1)) mem0.
Proof.
  destruct (map_refines_gmap wmap wb 2 8 mem0 wmap_wf) as (_ & H & _); [done|].
  eapply wp_mono; [exact H|]. intros [rc m'] s' [Hwf [(_ & He & _)|(? & _)]] Hrc;
    [|simpl in *; lia].
  simpl in *. rewrite map_get_ok, He by done. by rewrite lookup_insert_ne.
Defined.

Lemma map_resize_spec_witness :
  wp (map_resize wmap 4) (λ '(rc, m') _, entries m' !! wa = Some 1) mem0.
Proof.
  eapply wp_mono.
  { apply (map_resize_spec wmap 4 mem0 wmap_wf); [right; by exists 2|lia|done]. }
  intros [rc m'] s' (_ & -> & _). vm_compute. reflexivity.
Defined.

Lemma map_iteration_spec_witness :
  ∃ ks, map_drain wmap map_iter_ = Ret ks ∧ wa ∈ ks.
Proof.
  destruct (map_iteration_spec wmap mem0 wmap_wf) as [(ks & Hks & _ & Hin) _].
  exists ks. split; [done|]. apply Hin. by exists 1.
Defined.
End witnesses.
