(* ===== verification/Contexts.v ===== *)
(** Scoped environments: [kernel/context/src/context.c].

    Contexts are shared objects: several children may point to one parent, and
    popping a child writes to it.  So they live in a store, addressed by
    pointers, and every operation takes and answers the store.  Each context
    owns a map from names to values ([Maps]) and a queue of names to hoist
    ([Lists]); the theorems speak of the scopes seen from a context, its own
    entries first. *)

From stdpp Require Import gmap.
From S2P Require Import Prelude Lists Maps.

(** A [void *] value: zero is [NULL]. *)
Definition value_t : Type := Z.

Record ak_context_t := mk_context {
  parent : option positive;
  data : map_base_t cstr value_t;
  hoist_queue : list_base_t cstr;
}.

(** The live contexts; addresses are handed out in increasing order. *)
Record store := mk_store {
  next_addr : positive;
  objects : gmap positive ak_context_t;
}.

Definition sizeof_ak_context_t : Z := 136.
Definition sizeof_ptr : Z := 8.

(** [*p]: using a released context is undefined. *)
Definition deref (st : store) (p : positive) : outcome ak_context_t :=
  match objects st !! p with
  | Some c => Ret c
  | None => Undef
  end.

Definition update (st : store) (p : positive) (c : ak_context_t) : store :=
  mk_store (next_addr st) (<[p := c]> (objects st)).

Section context.
Context `{Allocator}.

Definition ak_context_new (st : store) : M (option positive * store) :=
  ok ← alloc_obj sizeof_ak_context_t;
  if ok : bool then
    let p := next_addr st in
    mret (Some p, mk_store (Pos.succ p)
      (<[p := mk_context None (map_init_generic sizeof_ptr) (list_init sizeof_ptr)]> (objects st)))
  else mret (None, st).

Definition ak_context_push (st : store) (ctx : option positive)
    : M (option positive * store) :=
  match ctx with
  | None => mret (None, st)
  | Some p =>
      '(child, st) ← ak_context_new st;
      match child with
      | None => mret (None, st)
      | Some q =>
          c ← lift (deref st q);
          mret (Some q, update st q (mk_context (Some p) (data c) (hoist_queue c)))
      end
  end.

(** The loop of [ak_context_pop]: the bindings of the queued names go to the
    parent, whatever [map_set] answers. *)
Definition hoist_bindings (c : ak_context_t) (q : positive) (st : store) : M store :=
  loopM (S (Z.to_nat (count (hoist_queue c)))) (λ '(iter, st),
    '(key_ptr, iter) ← lift (list_next_ (hoist_queue c) iter);
    match key_ptr with
    | None => mret (inr st)
    | Some key =>
        value_ptr ← lift (map_get_ (data c) key);
        match value_ptr with
        | None => mret (inl (iter, st))
        | Some value =>
            pc ← lift (deref st q);
            '(_, d) ← map_set_ (data pc) key value sizeof_ptr;
            mret (inl (iter, update st q (mk_context (parent pc) d (hoist_queue pc))))
        end
    end) (list_iter_, st).

Definition ak_context_free (st : store) (ctx : option positive) : M store :=
  match ctx with
  | None => mret st
  | Some p =>
      c ← lift (deref st p);
      _ ← map_deinit_ (data c);
      _ ← list_deinit_ (hoist_queue c);
      _ ← free_obj;
      mret (mk_store (next_addr st) (delete p (objects st)))
  end.

Definition ak_context_pop (st : store) (ctx : option positive)
    : M (option positive * store) :=
  match ctx with
  | None => mret (None, st)
  | Some p =>
      c ← lift (deref st p);
      st ← match parent c with
           | None => mret st
           | Some q => hoist_bindings c q st
           end;
      _ ← map_deinit_ (data c);
      _ ← list_deinit_ (hoist_queue c);
      _ ← free_obj;
      mret (parent c, mk_store (next_addr st) (delete p (objects st)))
  end.

Definition ak_context_set (st : store) (ctx : option positive) (key : option cstr)
    (value : value_t) : M (Z * store) :=
  match ctx, key with
  | Some p, Some key =>
      c ← lift (deref st p);
      '(rc, d) ← map_set_ (data c) key value sizeof_ptr;
      mret (rc, update st p (mk_context (parent c) d (hoist_queue c)))
  | _, _ => mret (-1, st)
  end.

(** The walk up the parents; a parent is older than its child, so the walk from
    [p] is no longer than [p]. *)
Definition walk {A : Type} (st : store) (key : cstr) (p : positive)
    (found : positive → value_t → A) (missing : A) : outcome A :=
  loop (S (S (Pos.to_nat p))) (λ current,
    match current with
    | None => Ret (inr missing)
    | Some p =>
        c ← deref st p;
        value ← map_get_ (data c) key;
        match value with
        | Some v => Ret (inr (found p v))
        | None => Ret (inl (parent c))
        end
    end) (Some p).

Definition ak_context_get (st : store) (ctx : option positive) (key : option cstr)
    : outcome value_t :=
  match ctx, key with
  | Some p, Some key => walk st key p (λ _ v, v) 0
  | _, _ => Ret 0
  end.

Definition ak_context_get_local (st : store) (ctx : option positive) (key : option cstr)
    : outcome value_t :=
  match ctx, key with
  | Some p, Some key =>
      c ← deref st p;
      value ← map_get_ (data c) key;
      Ret (default 0 value)
  | _, _ => Ret 0
  end.

Definition ak_context_get_containing_context (st : store) (ctx : option positive)
    (key : option cstr) : outcome (option positive) :=
  match ctx, key with
  | Some p, Some key => walk st key p (λ p _, Some p) None
  | _, _ => Ret None
  end.

Definition ak_context_has (st : store) (ctx : option positive) (key : option cstr)
    : outcome Z :=
  match ctx, key with
  | Some p, Some key => walk st key p (λ _ _, 1) 0
  | _, _ => Ret 0
  end.

Definition ak_context_has_local (st : store) (ctx : option positive) (key : option cstr)
    : outcome Z :=
  match ctx, key with
  | Some p, Some key =>
      c ← deref st p;
      value ← map_get_ (data c) key;
      Ret (match value with Some _ => 1 | None => 0 end)
  | _, _ => Ret 0
  end.

(** Is the name queued already? *)
Definition queued (l : list_base_t cstr) (key : cstr) : outcome bool :=
  loop (S (Z.to_nat (count l))) (λ iter,
    '(existing, iter) ← list_next_ l iter;
    match existing with
    | None => Ret (inr false)
    | Some k => if strcmp (chars k) (chars key) =? 0 then Ret (inr true) else Ret (inl iter)
    end) list_iter_.

Definition ak_context_hoist (st : store) (ctx : option positive) (key : option cstr)
    : M (Z * store) :=
  match ctx, key with
  | Some p, Some key =>
      c ← lift (deref st p);
      match parent c with
      | None => mret (-1, st)
      | Some _ =>
          found ← lift (queued (hoist_queue c) key);
          if found : bool then mret (0, st) else
          '(rc, l) ← list_push_ (hoist_queue c) key sizeof_ptr;
          mret (rc, update st p (mk_context (parent c) (data c) l))
      end
  | _, _ => mret (-1, st)
  end.

Definition ak_context_depth (st : store) (ctx : option positive) : outcome Z :=
  loop (S (match ctx with Some p => S (Pos.to_nat p) | None => 0%nat end)) (λ '(depth, current),
    match current with
    | None => Ret (inr depth)
    | Some p => c ← deref st p; Ret (inl (u32 (depth + 1), parent c))
    end) (0, ctx).
End context.

(** * Stores and scopes *)

(** A live context: its map and queue are well formed, it is older than the next
    one, and its parent is alive and older. *)
Record live (st : store) (p : positive) (c : ak_context_t) (queue : list cstr) : Prop := {
  live_data : map_wf (data c);
  live_queue : list_wf (hoist_queue c) queue;
  live_addr : (p < next_addr st)%positive;
  live_parent : ∀ q, parent c = Some q → (q < p)%positive ∧ is_Some (objects st !! q);
}.

Definition store_wf (st : store) : Prop :=
  ∀ p c, objects st !! p = Some c → ∃ queue, live st p c queue.

(** The scopes seen from a context, innermost first. *)
Inductive scopes (st : store) : option positive → list (positive * gmap cstr value_t) → Prop :=
| scopes_root : scopes st None []
| scopes_child p c ss :
    objects st !! p = Some c → scopes st (parent c) ss →
    scopes st (Some p) ((p, entries (data c)) :: ss).

(** The innermost binding of a name, and the context that holds it. *)
Fixpoint find_binding (key : cstr) (ss : list (positive * gmap cstr value_t))
    : option (positive * value_t) :=
  match ss with
  | [] => None
  | (p, g) :: ss =>
      match g !! key with
      | Some v => Some (p, v)
      | None => find_binding key ss
      end
  end.

Definition ptr_rank (ctx : option positive) : nat :=
  match ctx with Some p => Pos.to_nat p | None => 0%nat end.

Section proofs.
Context `{Allocator}.
Implicit Types (st : store) (p q : positive).

Lemma scopes_total st p :
  store_wf st → is_Some (objects st !! p) → ∃ ss, scopes st (Some p) ss.
Proof.
  intros Hwf. cut (∀ n p, (Pos.to_nat p < n)%nat → is_Some (objects st !! p) →
    ∃ ss, scopes st (Some p) ss); [intros Hn; apply (Hn (S (Pos.to_nat p))); lia|].
  clear p. induction n as [|n IH]; intros p Hp [c Hc]; [lia|].
  destruct (Hwf p c Hc) as (queue & Hl). destruct (parent c) as [q|] eqn:Hq.
  - destruct (live_parent _ _ _ _ Hl q Hq) as [Hlt Hq'].
    destruct (IH q ltac:(lia) Hq') as [ss Hss].
    exists ((p, entries (data c)) :: ss). constructor; [done|by rewrite Hq].
  - exists [(p, entries (data c))]. constructor; [done|]. rewrite Hq. constructor.
Qed.

(** The parents come before. *)
Lemma parent_rank st p c queue :
  live st p c queue → (ptr_rank (parent c) < Pos.to_nat p)%nat.
Proof.
  intros Hl. destruct (parent c) as [q|] eqn:Hq; simpl; [|lia].
  destruct (live_parent _ _ _ _ Hl q Hq). lia.
Qed.

Lemma deref_ok st p c : objects st !! p = Some c → deref st p = Ret c.
Proof. unfold deref. by intros ->. Qed.

Lemma walk_ok {A} st key p (found : positive → value_t → A) missing ss :
  store_wf st → scopes st (Some p) ss →
  walk st key p found missing
  = Ret (match find_binding key ss with Some (q, v) => found q v | None => missing end).
Proof.
  intros Hwf Hss. apply wpo_eq. unfold walk.
  apply (loop_wpo (λ cur, ∃ ss', scopes st cur ss' ∧ find_binding key ss' = find_binding key ss)
    (λ cur, match cur with Some p => S (Pos.to_nat p) | None => 0%nat end)); [eauto|simpl; lia|].
  intros cur (ss' & Hs & <-). destruct Hs as [|p' c ss' Hc Hs]; [done|].
  rewrite (deref_ok _ _ _ Hc). simpl. destruct (Hwf _ _ Hc) as (queue & Hl).
  rewrite map_get_ok by apply Hl. simpl.
  destruct (entries (data c) !! key) as [v|]; simpl; [done|]. split; [by eauto|].
  pose proof (parent_rank _ _ _ _ Hl). destruct (parent c); simpl in *; lia.
Qed.

Lemma depth_ok st ctx ss :
  store_wf st → scopes st ctx ss → zlen ss < 2 ^ 32 → ak_context_depth st ctx = Ret (zlen ss).
Proof.
  intros Hwf Hss Hlen. apply wpo_eq. unfold ak_context_depth.
  apply (loop_wpo (λ '(depth, cur), ∃ ss', scopes st cur ss' ∧ 0 <= depth
      ∧ depth + zlen ss' = zlen ss)
    (λ '(depth, cur), match cur with Some p => S (Pos.to_nat p) | None => 0%nat end)).
  - exists ss. split; [done|lia].
  - destruct ctx; lia.
  - intros [depth cur] (ss' & Hs & Hd & He). destruct Hs as [|p' c ss' Hc Hs].
    + simpl. rewrite zlen_nil in He. lia.
    + rewrite (deref_ok _ _ _ Hc). simpl. destruct (Hwf _ _ Hc) as (queue & Hl).
      rewrite zlen_cons in He. pose proof (zlen_nonneg ss').
      rewrite u32_small by lia. split; [exists ss'; split; [done|lia]|].
      pose proof (parent_rank _ _ _ _ Hl). destruct (parent c); simpl in *; lia.
Qed.

(** C8: A name is looked up in the context itself and then in its parents:
    [ak_context_get] answers the innermost binding, [ak_context_has] whether
    there is one and [ak_context_get_containing_context] the context that holds
    it; the local variants look at the first scope only, and the depth counts
    the scopes. *)
Theorem ak_context_lookup_spec st p key g ss :
  store_wf st → scopes st (Some p) ((p, g) :: ss) → zlen ss < 2 ^ 32 - 1 →
  let b := find_binding key ((p, g) :: ss) in
  ak_context_get st (Some p) (Some key) = Ret (default 0 (snd <$> b))
  ∧ ak_context_has st (Some p) (Some key) = Ret (match b with Some _ => 1 | None => 0 end)
  ∧ ak_context_get_containing_context st (Some p) (Some key) = Ret (fst <$> b)
  ∧ ak_context_get_local st (Some p) (Some key) = Ret (default 0 (g !! key))
  ∧ ak_context_has_local st (Some p) (Some key) = Ret (match g !! key with Some _ => 1 | None => 0 end)
  ∧ ak_context_depth st (Some p) = Ret (1 + zlen ss).
Proof.
  intros Hwf Hss Hlen b. unfold ak_context_get, ak_context_has,
    ak_context_get_containing_context, ak_context_get_local, ak_context_has_local.
  rewrite !(walk_ok _ _ _ _ _ _ Hwf Hss). fold b.
  rewrite (depth_ok _ _ _ Hwf Hss) by (rewrite zlen_cons; lia). rewrite zlen_cons.
  inversion Hss as [|? c ? Hc Hs]; subst. rewrite (deref_ok _ _ _ Hc). simpl.
  destruct (Hwf _ _ Hc) as (queue & Hl). rewrite map_get_ok by apply Hl. simpl.
  split_and!; try done; destruct b as [[q v]|]; done.
Qed.

(** Updating an object *)

Lemma live_update st p c' q c queue :
  live st q c queue → live (update st p c') q c queue.
Proof.
  intros [Hd Hq Ha Hp]. split; [done|done|done|]. intros r Hr.
  destruct (Hp r Hr) as [Hlt Hin]. split; [done|]. simpl.
  destruct (decide (p = r)) as [->|Hne]; [rewrite lookup_insert_eq; by eexists|].
  by rewrite lookup_insert_ne.
Qed.

Lemma store_wf_update st p c' queue :
  store_wf st → live st p c' queue → store_wf (update st p c').
Proof.
  intros Hwf Hl q c Hq. simpl in Hq. destruct (decide (p = q)) as [->|Hne].
  - rewrite lookup_insert_eq in Hq. simplify_eq. exists queue. by apply live_update.
  - rewrite lookup_insert_ne in Hq by done. destruct (Hwf q c Hq) as [queue' Hl'].
    exists queue'. by apply live_update.
Qed.

(** The scopes above a context do not see it. *)
Lemma scopes_update st p c' cur ss :
  store_wf st → scopes st cur ss → (ptr_rank cur < Pos.to_nat p)%nat →
  scopes (update st p c') cur ss.
Proof.
  intros Hwf Hss. induction Hss as [|q c ss Hc Hss IH]; intros Hlt; [constructor|].
  constructor.
  - simpl in *. rewrite lookup_insert_ne; [done|]. intros ->. lia.
  - apply IH. destruct (Hwf _ _ Hc) as [queue Hl]. pose proof (parent_rank _ _ _ _ Hl).
    simpl in Hlt. lia.
Qed.

Lemma scopes_cons_inv st cur p g ss :
  scopes st cur ((p, g) :: ss) →
  ∃ c, objects st !! p = Some c ∧ g = entries (data c) ∧ scopes st (parent c) ss ∧ cur = Some p.
Proof. intros Hss. inversion Hss as [|? c ? Hc Hs]; subst. eauto. Qed.

(** [ak_context_set] binds the name in the context's own scope, where it
    shadows the parents' bindings; no other context changes, and when an
    allocation fails no binding does. *)
Theorem ak_context_set_spec st p key v g ss s :
  store_wf st → scopes st (Some p) ((p, g) :: ss) → Z.of_nat (size g) < 2 ^ 30 →
  wp (ak_context_set st (Some p) (Some key) v) (λ '(rc, st') s',
    store_wf st'
    ∧ (∀ q, q ≠ p → objects st' !! q = objects st !! q)
    ∧ ((rc = 0 ∧ m_fails s' = m_fails s
        ∧ scopes st' (Some p) ((p, <[key := v]> g) :: ss)
        ∧ ak_context_get st' (Some p) (Some key) = Ret v)
       ∨ (rc = -1 ∧ (m_fails s < m_fails s')%nat ∧ scopes st' (Some p) ((p, g) :: ss)))) s.
Proof.
  intros Hwf Hss Hsz. destruct (scopes_cons_inv _ _ _ _ _ Hss) as (c & Hc & -> & Hs & _).
  destruct (Hwf _ _ Hc) as [queue Hl]. simpl. wsteps. rewrite (deref_ok _ _ _ Hc). wsteps.
  eapply wp_mono; [apply map_set_ok; [apply Hl|rewrite nnodes_size by apply Hl; done]|].
  intros [rc d] s' [Hd Hr]. simpl in Hd, Hr. wsteps.
  set (c' := mk_context (parent c) d (hoist_queue c)).
  assert (store_wf (update st p c')) as Hwf'.
  { apply (store_wf_update _ _ _ queue); [done|]. destruct Hl. by split. }
  assert (scopes (update st p c') (Some p) ((p, entries d) :: ss)) as Hs'.
  { apply (scopes_child _ p c'); [by apply lookup_insert_eq|].
    apply scopes_update; [done|done|]. by apply (parent_rank st p c queue). }
  split; [done|]. split; [intros q Hq; simpl; by rewrite lookup_insert_ne|].
  destruct Hr as [(-> & He & [_ Hf])|(-> & He & [_ Hf])]; rewrite He in Hs'; [left|by right].
  split; [done|]. split; [done|]. split; [done|].
  unfold ak_context_get. rewrite (walk_ok _ _ _ _ _ _ Hwf' Hs'). simpl.
  by rewrite lookup_insert_eq.
Qed.

Lemma empty_map_wf : map_wf (map_init_generic (K := cstr) (V := value_t) sizeof_ptr).
Proof. split; try done; [by left|constructor]. Qed.

Lemma empty_list_wf : list_wf (list_init (T := cstr) sizeof_ptr) [].
Proof. split; try done; [by left|by exists []]. Qed.

Lemma fresh_addr st : store_wf st → objects st !! next_addr st = None.
Proof.
  intros Hwf. destruct (objects st !! next_addr st) as [c|] eqn:Hc; [|done].
  destruct (Hwf _ _ Hc) as [queue Hl]. pose proof (live_addr _ _ _ _ Hl). lia.
Qed.

(** Adding a fresh context. *)
Lemma store_wf_new st (par : option positive) :
  store_wf st → (∀ q, par = Some q → is_Some (objects st !! q)) →
  store_wf (mk_store (Pos.succ (next_addr st)) (<[next_addr st :=
    mk_context par (map_init_generic sizeof_ptr) (list_init sizeof_ptr)]> (objects st))).
Proof.
  intros Hwf Hpar p c Hc. simpl in Hc. destruct (decide (next_addr st = p)) as [<-|Hne].
  - rewrite lookup_insert_eq in Hc. simplify_eq. exists []. split; simpl.
    + apply empty_map_wf.
    + apply empty_list_wf.
    + lia.
    + intros q Hq. destruct (Hpar q Hq) as [d Hd]. destruct (Hwf _ _ Hd) as [queue Hl].
      pose proof (live_addr _ _ _ _ Hl). split; [lia|]. rewrite lookup_insert_ne by lia.
      by exists d.
  - rewrite lookup_insert_ne in Hc by done. destruct (Hwf _ _ Hc) as [queue [Hd Hq Ha Hp]].
    exists queue. split; [done|done|simpl; lia|]. intros r Hr.
    destruct (Hp r Hr) as [Hlt [d Hr']]. split; [done|]. simpl.
    destruct (Hwf _ _ Hr') as [queue' Hl']. pose proof (live_addr _ _ _ _ Hl').
    rewrite lookup_insert_ne by lia. by exists d.
Qed.

Lemma scopes_fresh st r c n cur ss :
  objects st !! r = None → scopes st cur ss →
  scopes (mk_store n (<[r := c]> (objects st))) cur ss.
Proof.
  intros Hr. induction 1 as [|q d ss Hd _ IH]; constructor; [|done]. simpl.
  rewrite lookup_insert_ne; [done|congruence].
Qed.

(** [ak_context_push] opens an empty scope over the parent's scopes; it
    changes no context. *)
Theorem ak_context_push_spec st p ss s :
  store_wf st → scopes st (Some p) ss →
  wp (ak_context_push st (Some p)) (λ '(child, st') s',
    store_wf st' ∧ (∀ q, is_Some (objects st !! q) → objects st' !! q = objects st !! q)
    ∧ match child with
      | Some q => m_fails s' = m_fails s ∧ objects st !! q = None
                  ∧ scopes st' (Some q) ((q, ∅) :: ss)
      | None => (m_fails s < m_fails s')%nat ∧ st' = st
      end) s.
Proof.
  intros Hwf Hss. simpl. unfold ak_context_new. wsteps. apply wp_alloc_obj. intros [|] s1 [_ Hf].
  2:{ wsteps. split; [done|]. split; [done|]. split; [lia|done]. }
  pose proof (fresh_addr st Hwf) as Hfresh. wsteps. unfold deref. simpl.
  rewrite lookup_insert_eq. wsteps. unfold update. simpl. rewrite insert_insert_eq.
  assert (is_Some (objects st !! p)) as Hp by (inversion Hss; subst; by eexists).
  split; [apply store_wf_new; [done|]; by intros q [= <-]|].
  split.
  { intros q [c Hc]. simpl. rewrite lookup_insert_ne; [done|congruence]. }
  split; [lia|]. split; [done|].
  apply (scopes_child _ _ (mk_context (Some p) (map_init_generic sizeof_ptr) (list_init sizeof_ptr)));
    simpl; [by apply lookup_insert_eq|].
  by apply scopes_fresh.
Qed.

(** ** Hoisting *)

Lemma queued_ok l key queue :
  list_wf l queue → queued l key = Ret (bool_decide (key ∈ queue)).
Proof.
  intros Hwf. apply wpo_eq. unfold queued. pose proof (list_wf_count _ _ Hwf).
  pose proof (cap_ok_range _ (lw_cap _ _ Hwf)). pose proof (lw_count _ _ Hwf) as Hc.
  apply (loop_wpo (λ iter, 0 <= li_index iter <= count l ∧ li_valid iter = 1
      ∧ key ∉ take (Z.to_nat (li_index iter)) queue)
    (λ iter, Z.to_nat (count l - li_index iter))).
  - simpl. split; [lia|]. split; [done|]. apply not_elem_of_nil.
  - simpl. lia.
  - intros [i v] (Hi & Hv & Hno). simpl in Hi, Hv, Hno. subst v. unfold list_next_. simpl.
    destruct (Z.leb_spec (count l) i) as [Hge|Hlt]; simpl.
    + rewrite bool_decide_eq_false_2; [done|].
      by rewrite take_ge in Hno by (unfold zlen in Hc; lia).
    + destruct (wf_block l queue i Hwf) as (b & w & Hb & _ & Hrd & Hw); [lia|].
      unfold block. rewrite Hb. simpl. rewrite Hrd. simpl.
      destruct (Z.eqb_spec (strcmp (chars w) (chars key)) 0) as [He|Hne]; simpl.
      * apply strcmp_eq in He; [|apply chars_ok..]. apply cstr_eq in He as ->.
        rewrite bool_decide_eq_true_2; [done|]. by eapply list_elem_of_lookup_2.
      * rewrite u32_small by lia. split; [|lia]. split; [lia|]. split; [done|].
        replace (Z.to_nat (i + 1)) with (S (Z.to_nat i)) by lia.
        rewrite (take_S_r _ _ w) by done. rewrite elem_of_app, list_elem_of_singleton.
        intros [?| ->]; [done|]. apply Hne, strcmp_eq; [apply chars_ok..|done].
Qed.

(** [ak_context_hoist] queues the name once, changing no binding, and refuses
    in a context without parent. *)
Theorem ak_context_hoist_spec st p c key queue s :
  store_wf st → objects st !! p = Some c → live st p c queue → zlen queue < 2 ^ 31 →
  wp (ak_context_hoist st (Some p) (Some key)) (λ '(rc, st') s',
    store_wf st' ∧ (∀ q, q ≠ p → objects st' !! q = objects st !! q)
    ∧ ∃ c' queue', objects st' !! p = Some c' ∧ live st' p c' queue'
        ∧ data c' = data c ∧ parent c' = parent c
        ∧ ((rc = 0 ∧ parent c ≠ None
            ∧ queue' = if bool_decide (key ∈ queue) then queue else queue ++ [key])
           ∨ (rc = -1 ∧ queue' = queue
              ∧ (parent c = None ∨ (m_fails s < m_fails s')%nat)))) s.
Proof.
  intros Hwf Hc Hl Hlen. simpl. wsteps. rewrite (deref_ok _ _ _ Hc). wsteps.
  destruct (parent c) as [q|] eqn:Hq.
  2:{ wsteps. split; [done|]. split; [done|]. exists c, queue. naive_solver. }
  wsteps. rewrite (queued_ok _ _ _ (live_queue _ _ _ _ Hl)). wsteps.
  case_bool_decide as Hin.
  { wsteps. split; [done|]. split; [done|]. exists c, queue. split; [done|]. naive_solver. }
  wsteps. pose proof (live_queue _ _ _ _ Hl) as Hlq.
  eapply wp_mono; [apply (list_push_ok _ queue); [done|]|].
  { pose proof (lw_count _ _ Hlq). lia. }
  intros [rc l] s1 Hr. wsteps. set (c' := mk_context (Some q) (data c) l).
  assert (∀ ks, list_wf l ks → live st p c' ks) as Hl'.
  { intros ks Hks. destruct Hl as [Hd _ Ha Hp]. split; [done|done|done|].
    intros r Hr'. apply Hp. rewrite Hq. by simpl in Hr'. }
  assert (∃ queue', list_wf l queue' ∧
    ((rc = 0 ∧ queue' = queue ++ [key]) ∨ (rc = -1 ∧ queue' = queue ∧ (m_fails s < m_fails s1)%nat)))
    as (queue' & Hwfq & Hcase).
  { destruct Hr as [(? & ? & _)|(? & ? & [_ ?])]; simpl in *; [exists (queue ++ [key])|exists queue]; auto 6. }
  split; [by apply (store_wf_update _ _ _ queue'), Hl'|].
  split; [intros r Hr'; simpl; by rewrite lookup_insert_ne|].
  exists c', queue'. split; [apply lookup_insert_eq|].
  split; [by apply live_update, Hl'|]. split; [done|]. split; [done|].
  destruct Hcase as [[-> ->]|(-> & -> & ?)]; [left|right]; auto.
Qed.

(** ** Popping *)

(** The parent of a context being popped, part of the queue having been treated:
    [g] is the context's scope, [gq] the parent's scope before. *)
Record hoisting st p q (c pc : ak_context_t) (done : list cstr) (s : mem)
    (st1 : store) (pc1 : ak_context_t) (s1 : mem) : Prop := {
  ho_wf : store_wf st1;
  ho_next : next_addr st1 = next_addr st;
  ho_others : ∀ r, r ≠ q → objects st1 !! r = objects st !! r;
  ho_parent : objects st1 !! q = Some pc1;
  ho_same : parent pc1 = parent pc ∧ hoist_queue pc1 = hoist_queue pc;
  ho_size : Z.of_nat (size (entries (data pc1))) <= Z.of_nat (size (entries (data pc))) + zlen done;
  ho_only : ∀ k, entries (data pc1) !! k = entries (data pc) !! k
    ∨ (k ∈ done ∧ is_Some (entries (data c) !! k)
       ∧ entries (data pc1) !! k = entries (data c) !! k);
  ho_all : m_fails s1 = m_fails s → ∀ k, k ∈ done → is_Some (entries (data c) !! k) →
    entries (data pc1) !! k = entries (data c) !! k;
  ho_mem : (m_fails s <= m_fails s1)%nat
    ∧ m_live s1 - m_live s = Maps.owned (data pc1) - Maps.owned (data pc);
}.

(** One name of the queue. *)
Lemma hoisting_step st p q c pc ks key v s st1 pc1 s1 Q :
  hoisting st p q c pc ks s st1 pc1 s1 → entries (data c) !! key = Some v →
  Z.of_nat (size (entries (data pc))) + zlen ks < 2 ^ 30 →
  (∀ rc d s2, hoisting st p q c pc (ks ++ [key]) s
     (update st1 q (mk_context (parent pc1) d (hoist_queue pc1)))
     (mk_context (parent pc1) d (hoist_queue pc1)) s2 → Q (rc, d) s2) →
  wp (map_set_ (data pc1) key v sizeof_ptr) Q s1.
Proof.
  intros [Hwf Hn Ho Hpar Hs Hsz Hon Hall Hm] Hv Hsmall HQ.
  destruct (Hwf _ _ Hpar) as [queue Hl]. pose proof (live_data _ _ _ _ Hl) as Hd.
  eapply wp_mono; [apply map_set_ok; [done|rewrite nnodes_size by done; lia]|].
  intros [rc d] s2 [Hd' Hr]. simpl in Hd', Hr. apply HQ. split; simpl.
  - apply (store_wf_update _ _ _ queue); [done|]. destruct Hl. by split.
  - done.
  - intros r Hr'. rewrite lookup_insert_ne by done. by apply Ho.
  - apply lookup_insert_eq.
  - done.
  - rewrite zlen_app. unfold zlen at 2. simpl.
    destruct Hr as [(_ & -> & _)|(_ & -> & _)]; [|lia].
    rewrite map_size_insert. destruct (entries (data pc1) !! key); unfold id; lia.
  - intros k. setoid_rewrite elem_of_app. setoid_rewrite list_elem_of_singleton.
    destruct Hr as [(_ & -> & _)|(_ & -> & _)]; [|destruct (Hon k) as [?|(?&?&?)]; [by left|by right; auto]].
    destruct (decide (k = key)) as [->|Hne].
    + rewrite lookup_insert_eq, Hv. right. split; [by right|]. by split; [eexists|].
    + rewrite lookup_insert_ne by done. destruct (Hon k) as [?|(?&?&?)]; [by left|by right; auto].
  - intros Hf k Hk Hsome. destruct Hr as [(_ & -> & [_ Hb])|(_ & _ & [_ Hb])]; [|lia].
    destruct (decide (k = key)) as [->|Hne]; [by rewrite lookup_insert_eq|].
    rewrite lookup_insert_ne by done. apply Hall; [lia| |done].
    apply elem_of_app in Hk as [?|?%list_elem_of_singleton]; done.
  - destruct Hm, Hr as [(_ & _ & [Hb1 Hb2])|(_ & _ & [Hb1 Hb2])]; lia.
Qed.

Lemma hoist_bindings_ok st p q c pc queue s Q :
  store_wf st → live st p c queue → objects st !! q = Some pc → q ≠ p →
  Z.of_nat (size (entries (data pc))) + zlen queue < 2 ^ 30 →
  (∀ st1 pc1 s1, hoisting st p q c pc queue s st1 pc1 s1 → Q st1 s1) →
  wp (hoist_bindings c q st) Q s.
Proof.
  intros Hwf Hl Hpc Hqp Hsmall HQ. pose proof (live_queue _ _ _ _ Hl) as Hlq.
  pose proof (live_data _ _ _ _ Hl) as Hd. unfold hoist_bindings.
  pose proof (list_wf_count _ _ Hlq). pose proof (cap_ok_range _ (lw_cap _ _ Hlq)).
  pose proof (lw_count _ _ Hlq) as Hcount.
  apply (loopM_wp (λ '(iter, st1) s1, 0 <= li_index iter <= count (hoist_queue c)
      ∧ li_valid iter = 1
      ∧ ∃ pc1, hoisting st p q c pc (take (Z.to_nat (li_index iter)) queue) s st1 pc1 s1)
    (λ '(iter, st1), Z.to_nat (count (hoist_queue c) - li_index iter))); [|simpl; lia|].
  { simpl. split; [lia|]. split; [done|]. exists pc. change (take (Z.to_nat 0) queue) with (@nil cstr). split; try done.
    - rewrite zlen_nil. lia.
    - intros k. by left.
    - intros _ k Hk. by apply not_elem_of_nil in Hk.
    - split; lia. }
  intros [[i v] st1] s1 (Hi & Hv & pc1 & Ho). simpl in Hi, Hv, Ho. subst v.
  wsteps. unfold list_next_. simpl.
  destruct (Z.leb_spec (count (hoist_queue c)) i) as [Hge|Hlt]; simpl.
  { wsteps. apply (HQ _ pc1). by rewrite take_ge in Ho by (unfold zlen in Hcount; lia). }
  destruct (wf_block _ _ i Hlq) as (b & key & Hb & _ & Hrd & Hw); [lia|].
  unfold block. rewrite Hb. simpl. rewrite Hrd. simpl. rewrite u32_small by lia. wsteps.
  rewrite map_get_ok by done. wsteps.
  assert (take (Z.to_nat (i + 1)) queue = take (Z.to_nat i) queue ++ [key]) as Htake.
  { replace (Z.to_nat (i + 1)) with (S (Z.to_nat i)) by lia. by apply take_S_r. }
  destruct (entries (data c) !! key) as [v|] eqn:Hkey.
  - wsteps. rewrite (deref_ok _ _ _ (ho_parent _ _ _ _ _ _ _ _ _ _ Ho)). wsteps.
    eapply hoisting_step; [exact Ho|done| |].
    + rewrite zlen_take by lia. lia.
    + intros rc d s2 Ho2. wsteps. split; [|simpl; lia]. simpl. split; [lia|]. split; [done|].
      rewrite Htake. eauto.
  - wsteps. split; [|simpl; lia]. simpl. split; [lia|]. split; [done|]. exists pc1.
    rewrite Htake. destruct Ho as [? ? ? ? ? Hsz Hon Hall ?]. split; try done.
    + rewrite zlen_app. unfold zlen at 2. simpl. lia.
    + intros k. destruct (Hon k) as [?|(? & ? & ?)]; [by left|right].
      split; [apply elem_of_app; by left|done].
    + intros Hf k [?| ->%list_elem_of_singleton]%elem_of_app [v Hsome]; [|congruence].
      apply Hall; [done|done|by exists v].
Qed.

(** No live context has [p] as its parent. *)
Definition leaf st p : Prop := ∀ r c, objects st !! r = Some c → parent c ≠ Some p.

Lemma store_wf_delete st p :
  store_wf st → leaf st p → store_wf (mk_store (next_addr st) (delete p (objects st))).
Proof.
  intros Hwf Hleaf r c Hrc. simpl in Hrc. apply lookup_delete_Some in Hrc as [Hne Hr].
  destruct (Hwf r c Hr) as [queue [Hd Hq Ha Hp]]. exists queue. split; [done|done|done|].
  intros q Hq'. destruct (Hp q Hq') as [Hlt Hin]. split; [done|]. simpl.
  rewrite lookup_delete_ne; [done|]. intros ->. by apply (Hleaf r c Hr).
Qed.

Lemma scopes_delete st p cur ss :
  leaf st p → cur ≠ Some p → scopes st cur ss →
  scopes (mk_store (next_addr st) (delete p (objects st))) cur ss.
Proof.
  intros Hleaf Hne Hss. induction Hss as [|q c ss Hc Hss IH]; constructor.
  - simpl. rewrite lookup_delete_ne; [done|congruence].
  - apply IH. by eapply Hleaf.
Qed.

(** Popping a context releases it and answers its parent; the parent's scope
    takes the context's bindings of the names in the hoist queue, and no other
    binding, and no other context changes.  An allocation failure can only make
    it miss some of them. *)
Theorem ak_context_pop_spec st p q g gq ss c queue s :
  store_wf st → scopes st (Some p) ((p, g) :: (q, gq) :: ss) → leaf st p →
  objects st !! p = Some c → live st p c queue →
  Z.of_nat (size gq) + zlen queue < 2 ^ 30 →
  wp (ak_context_pop st (Some p)) (λ '(r, st') s', r = Some q ∧ store_wf st'
    ∧ objects st' !! p = None
    ∧ (∀ x, x ≠ p → x ≠ q → objects st' !! x = objects st !! x)
    ∧ ∃ gq', scopes st' (Some q) ((q, gq') :: ss)
      ∧ (∀ k, gq' !! k = gq !! k ∨ (k ∈ queue ∧ is_Some (g !! k) ∧ gq' !! k = g !! k))
      ∧ (m_fails s' = m_fails s → ∀ k, k ∈ queue → is_Some (g !! k) → gq' !! k = g !! k)) s.
Proof.
  intros Hwf Hss Hleaf Hc Hl Hsmall.
  destruct (scopes_cons_inv _ _ _ _ _ Hss) as (c' & Hc' & -> & Hs & _). simplify_eq.
  destruct (scopes_cons_inv _ _ _ _ _ Hs) as (pc & Hpc & -> & Hs' & Hq).
  destruct (live_parent _ _ _ _ Hl q Hq) as [Hlt _].
  assert (q ≠ p) as Hqp by lia. simpl. wsteps. rewrite (deref_ok _ _ _ Hc). wsteps. rewrite Hq.
  eapply hoist_bindings_ok; [done|done|done|done|done|].
  intros st1 pc1 s1 Ho. wsteps.
  eapply wp_mono; [apply map_deinit_ok, Hl|]. intros _ s2 [_ Hf2]. wsteps.
  eapply wp_mono; [apply (list_deinit_ok _ queue), Hl|]. intros _ s3 (_ & _ & [_ Hf3]). wsteps.
  apply wp_free_obj. intros s4 _ Hf4. wsteps.
  destruct Ho as [Hwf1 Hn1 Hoth Hpar1 [Hsame _] _ Hon Hall _].
  assert (leaf st1 p) as Hleaf1.
  { intros r d Hr. destruct (decide (r = q)) as [->|Hne].
    - simplify_eq. rewrite Hsame. by apply (Hleaf q).
    - rewrite Hoth in Hr by done. by apply (Hleaf r). }
  split; [done|]. split; [by apply store_wf_delete|]. split; [apply lookup_delete_eq|].
  split.
  { intros x Hxp Hxq. simpl. rewrite lookup_delete_ne by done. by apply Hoth. }
  exists (entries (data pc1)). split; [|split; [done|]].
  - apply scopes_delete; [done|congruence|]. constructor; [done|]. rewrite Hsame.
    destruct (Hwf1 _ _ Hpar1) as [queue1 Hl1].
    assert (∀ cur ss', scopes st cur ss' → (ptr_rank cur < Pos.to_nat q)%nat →
      scopes st1 cur ss') as Hup.
    { intros cur ss' H'. induction H' as [|x d ss' Hd _ IH]; intros Hrk; [constructor|].
      constructor.
      - simpl in Hrk. rewrite Hoth; [done|]. intros ->. lia.
      - apply IH. destruct (Hwf _ _ Hd) as [qx Hlx]. pose proof (parent_rank _ _ _ _ Hlx).
        simpl in Hrk. lia. }
    apply Hup; [done|]. destruct (Hwf _ _ Hpc) as [queueq Hlq]. by apply (parent_rank st q pc queueq).
  - intros Hf. apply Hall. lia.
Qed.
End proofs.

(** * Witnesses *)

Section witnesses.
#[local] Existing Instance always_alloc.

(** A root that binds [a] and a child that binds [a] again and hoists it. *)
Definition wnode (v : value_t) : map_base_t cstr value_t :=
  mk_map (Some [[mk_node (map_hash_str [0x61]) wa v]]) 1 1 8.
Definition wqueue : list_base_t cstr := mk_list (Some (Some wa :: replicate 7 None)) 8 1 8.
Definition wroot : ak_context_t := mk_context None (wnode 1) (list_init 8).
Definition wchild : ak_context_t := mk_context (Some 1%positive) (wnode 5) wqueue.
Definition wstore : store :=
  mk_store 3 (<[1%positive := wroot]> (<[2%positive := wchild]> ∅)).

Lemma wnode_wf v : map_wf (wnode v).
Proof.
  split; [right; by exists 0|done|done| |apply NoDup_singleton|done|done].
  intros [|i] chain Hc; [|done]. simpl in Hc. simplify_eq. repeat constructor.
Qed.

Lemma wstore_get p c : objects wstore !! p = Some c →
  (p = 1%positive ∧ c = wroot) ∨ (p = 2%positive ∧ c = wchild).
Proof.
  simpl. intros Hc. apply lookup_insert_Some in Hc as [[<- <-]|[Hne Hc]]; [by left|].
  apply lookup_insert_Some in Hc as [[<- <-]|[Hne' Hc]]; [by right|].
  by rewrite lookup_empty in Hc.
Qed.

Lemma wchild_live : live wstore 2 wchild [wa].
Proof.
  split; [apply wnode_wf| |simpl; lia|].
  - split; [right; by exists 3|done|done|by exists (replicate 7 None)|done].
  - intros q [= <-]. split; [lia|]. by exists wroot.
Qed.

Lemma wstore_wf : store_wf wstore.
Proof.
  intros p c [[-> ->]|[-> ->]]%wstore_get; [|exists [wa]; apply wchild_live].
  exists []. split; [apply wnode_wf| |simpl; lia|done].
  split; [by left|done|done|by exists []|done].
Qed.

Lemma wstore_scopes : scopes wstore (Some 2%positive)
  [(2%positive, entries (wnode 5)); (1%positive, entries (wnode 1))].
Proof.
  apply (scopes_child _ _ wchild); [done|]. apply (scopes_child _ _ wroot); [done|].
  constructor.
Qed.

Lemma ak_context_lookup_spec_witness :
  ak_context_get wstore (Some 2%positive) (Some wa) = Ret 5
  ∧ ak_context_depth wstore (Some 2%positive) = Ret 2.
Proof.
  destruct (ak_context_lookup_spec wstore 2 wa _ _ wstore_wf wstore_scopes)
    as (H1 & _ & _ & _ & _ & H6); [done|].
  split; [exact H1|exact H6].
Defined.

Lemma ak_context_set_spec_witness :
  wp (ak_context_set wstore (Some 2%positive) (Some wa) 9) (λ '(rc, st') _,
    rc = 0 → ak_context_get st' (Some 2%positive) (Some wa) = Ret 9) mem0.
Proof.
  eapply wp_mono; [apply (ak_context_set_spec wstore 2 wa 9 _ _ mem0 wstore_wf wstore_scopes);
    vm_compute; done|].
  intros [rc st'] s' (_ & _ & [(_ & _ & _ & H)|(? & _)]) Hrc; [done|lia].
Defined.

Lemma ak_context_push_spec_witness :
  wp (ak_context_push wstore (Some 2%positive)) (λ '(child, st') _,
    ∀ q, child = Some q → objects wstore !! q = None) mem0.
Proof.
  eapply wp_mono; [apply (ak_context_push_spec wstore 2 _ mem0 wstore_wf wstore_scopes)|].
  intros [child st'] s' (_ & _ & H) q ->. by destruct H as (_ & H & _).
Defined.

Lemma ak_context_hoist_spec_witness :
  wp (ak_context_hoist wstore (Some 2%positive) (Some wb)) (λ '(rc, st') _,
    rc = 0 → ∃ c', objects st' !! 2%positive = Some c' ∧ live st' 2 c' [wa; wb]) mem0.
Proof.
  eapply wp_mono; [apply (ak_context_hoist_spec wstore 2 wchild wb [wa] mem0 wstore_wf eq_refl
    wchild_live); done|].
  intros [rc st'] s' (_ & _ & c' & queue' & Hc & Hl & _ & _ & [(_ & _ & Hq)|(? & _)]) Hrc; [|lia].
  exists c'. split; [done|]. by rewrite Hq in Hl.
Defined.

Lemma ak_context_pop_spec_witness :
  wp (ak_context_pop wstore (Some 2%positive)) (λ '(r, st') s',
    m_fails s' = 0%nat → ∃ g, scopes st' r [(1%positive, g)] ∧ g !! wa = Some 5) mem0.
Proof.
  eapply wp_mono.
  { apply (ak_context_pop_spec wstore 2 1 _ _ _ wchild [wa] mem0 wstore_wf wstore_scopes).
    - intros r c [[-> ->]|[-> ->]]%wstore_get; done.
    - done.
    - exact wchild_live.
    - vm_compute. done. }
  intros [r st'] s' (-> & _ & _ & _ & gq & Hs & _ & Hall) Hf. exists gq. split; [done|].
  rewrite Hall; [done|done|by apply list_elem_of_singleton|by exists 5].
Defined.
End witnesses.
