(* ===== verification/Arenas.v ===== *)
(** Region allocation: [kernel/arena/src/arena.c].

    The chain of blocks is a list and the current block an index in it; linking
    a new block after the current one cuts off the blocks behind it, as the
    assignment to [block->next] does.  A pointer into the arena is the number of
    its block, unique in an arena, and an offset.  The theorems say that live
    regions never overlap, and that a restored snapshot frees exactly what was
    allocated since. *)

From stdpp Require Import relations.
From S2P Require Import Prelude.

Definition AK_ARENA_DEFAULT_BLOCK_SIZE : Z := 64 * 1024.
Definition AK_ARENA_DEFAULT_ALIGNMENT : Z := 8.
Definition sizeof_arena_block_t : Z := 40.
Definition sizeof_ak_arena_t : Z := 48.

Record arena_block_t := mk_block {
  blk_data : list Z;
  blk_size : Z;
  blk_used : Z;
  blk_num : Z;
}.

Record ak_arena_t := mk_arena {
  blocks : list arena_block_t;
  current_block : nat;
  block_size : Z;
  total_allocated : Z;
  total_used : Z;
  next_block_num : Z;
}.

(** [mark.block] is known by the number of the block it points to. *)
Record ak_arena_mark_t := mk_mark {
  mark_block : option Z;
  mark_offset : Z;
  mark_num : Z;
}.

(** A pointer into a block. *)
Record ptr := mk_ptr {
  p_block : Z;
  p_off : Z;
}.

Definition align_up (value align : Z) : Z :=
  Z.land (u64 (value + align - 1)) (u64 (Z.lnot (align - 1))).

Definition set_used (b : arena_block_t) (used : Z) : arena_block_t :=
  mk_block (blk_data b) (blk_size b) used (blk_num b).

(** The block an address is in. *)
Fixpoint find_block (bs : list arena_block_t) (num : Z) : option nat :=
  match bs with
  | [] => None
  | b :: bs => if blk_num b =? num then Some 0%nat else S <$> find_block bs num
  end.

(** Write [bytes] at a pointer, or read [n] bytes from it. *)
Definition store_bytes (bs : list arena_block_t) (p : ptr) (src : list Z) (n : Z)
    : outcome (list arena_block_t) :=
  match find_block bs (p_block p) with
  | None => Undef
  | Some i =>
      match bs !! i with
      | None => Undef
      | Some b =>
          d ← blit (blk_data b) (p_off p) src 0 n;
          Ret (<[i := mk_block d (blk_size b) (blk_used b) (blk_num b)]> bs)
      end
  end.

Definition load_bytes (bs : list arena_block_t) (p : ptr) (n : Z) : outcome (list Z) :=
  match find_block bs (p_block p) with
  | None => Undef
  | Some i =>
      match bs !! i with
      | None => Undef
      | Some b => blit (replicate (Z.to_nat n) 0) 0 (blk_data b) (p_off p) n
      end
  end.

Definition with_blocks (a : ak_arena_t) (bs : list arena_block_t) : ak_arena_t :=
  mk_arena bs (current_block a) (block_size a) (total_allocated a) (total_used a)
    (next_block_num a).

Section arena.
Context `{Allocator}.

Definition allocate_block (size block_num : Z) : M (option arena_block_t) :=
  ok ← alloc_obj sizeof_arena_block_t;
  if negb ok then mret None else
  data ← alloc_bytes size;
  match data with
  | None => _ ← free_obj; mret None
  | Some d => mret (Some (mk_block d size 0 block_num))
  end.

Fixpoint free_block_chain (bs : list arena_block_t) : M () :=
  match bs with
  | [] => mret ()
  | _ :: bs => _ ← free_obj; _ ← free_obj; free_block_chain bs
  end.

Definition ak_arena_new (size : Z) : M (option ak_arena_t) :=
  if size =? 0 then mret None else
  ok ← alloc_obj sizeof_ak_arena_t;
  if negb ok then mret None else
  block ← allocate_block size 0;
  match block with
  | None => _ ← free_obj; mret None
  | Some b => mret (Some (mk_arena [b] 0 size size 0 1))
  end.

Definition ak_arena_new_default : M (option ak_arena_t) :=
  ak_arena_new AK_ARENA_DEFAULT_BLOCK_SIZE.

Definition ak_arena_free (arena : option ak_arena_t) : M () :=
  match arena with
  | None => mret ()
  | Some a => _ ← free_block_chain (blocks a); free_obj
  end.

Definition ak_arena_alloc_aligned (arena : option ak_arena_t) (size align : Z)
    : M (option ptr * option ak_arena_t) :=
  match arena with
  | None => mret (None, arena)
  | Some a =>
      if size =? 0 then mret (None, arena) else
      if (align =? 0) || negb (Z.land align (align - 1) =? 0) then mret (None, arena) else
      match blocks a !! current_block a with
      | None => lift Undef
      | Some block =>
          let aligned_offset := align_up (blk_used block) align in
          let needed := u64 (aligned_offset - blk_used block + size) in
          if blk_size block <? u64 (blk_used block + needed) then
            let new_block_size :=
              if block_size a <? size then align_up size (block_size a) else block_size a in
            new_block ← allocate_block new_block_size (next_block_num a);
            let next := u64 (next_block_num a + 1) in
            match new_block with
            | None =>
                mret (None, Some (mk_arena (blocks a) (current_block a) (block_size a)
                                    (total_allocated a) (total_used a) next))
            | Some nb =>
                mret (Some (mk_ptr (blk_num nb) 0),
                  Some (mk_arena (take (S (current_block a)) (blocks a) ++ [set_used nb size])
                          (S (current_block a)) (block_size a)
                          (u64 (total_allocated a + new_block_size))
                          (u64 (total_used a + size)) next))
            end
          else
            mret (Some (mk_ptr (blk_num block) aligned_offset),
              Some (mk_arena
                      (<[current_block a := set_used block (u64 (aligned_offset + size))]> (blocks a))
                      (current_block a) (block_size a) (total_allocated a)
                      (u64 (total_used a + needed)) (next_block_num a)))
      end
  end.

Definition ak_arena_alloc (arena : option ak_arena_t) (size : Z)
    : M (option ptr * option ak_arena_t) :=
  ak_arena_alloc_aligned arena size AK_ARENA_DEFAULT_ALIGNMENT.

(** [memcpy(p, src, n)] into a block just handed out. *)
Definition fill (r : option ptr * option ak_arena_t) (src : list Z) (n : Z)
    : outcome (option ptr * option ak_arena_t) :=
  match r with
  | (Some p, Some a) =>
      bs ← store_bytes (blocks a) p src n;
      Ret (Some p, Some (with_blocks a bs))
  | _ => Ret r
  end.

Definition ak_arena_calloc (arena : option ak_arena_t) (nmemb size : Z)
    : M (option ptr * option ak_arena_t) :=
  match arena with
  | None => mret (None, arena)
  | Some _ =>
      if (nmemb =? 0) || (size =? 0) then mret (None, arena) else
      let total_size := u64 (nmemb * size) in
      if negb (total_size / nmemb =? size) then mret (None, arena) else
      r ← ak_arena_alloc arena total_size;
      lift (fill r (replicate (Z.to_nat total_size) 0) total_size)
  end.

Definition ak_arena_realloc (arena : option ak_arena_t) (p : option ptr)
    (old_size new_size : Z) : M (option ptr * option ak_arena_t) :=
  match arena with
  | None => mret (None, arena)
  | Some a =>
      if new_size =? 0 then mret (None, arena) else
      match p with
      | None => ak_arena_alloc arena new_size
      | Some q =>
          if new_size <=? old_size then mret (p, arena) else
          match blocks a !! current_block a with
          | None => lift Undef
          | Some block =>
              let additional := new_size - old_size in
              if (p_block q =? blk_num block) && (p_off q + old_size =? blk_used block)
                 && (u64 (blk_used block + additional) <=? blk_size block) then
                mret (p, Some (mk_arena
                  (<[current_block a := set_used block (u64 (blk_used block + additional))]> (blocks a))
                  (current_block a) (block_size a) (total_allocated a)
                  (u64 (total_used a + additional)) (next_block_num a)))
              else
                '(new_ptr, arena') ← ak_arena_alloc arena new_size;
                match new_ptr, arena' with
                | Some np, Some a' =>
                    src ← lift (load_bytes (blocks a') q old_size);
                    lift (fill (new_ptr, arena') src old_size)
                | _, _ => mret (None, arena')
                end
          end
      end
  end.

Definition ak_arena_reset (arena : option ak_arena_t) : option ak_arena_t :=
  match arena with
  | None => None
  | Some a => Some (mk_arena ((λ b, set_used b 0) <$> blocks a) 0 (block_size a)
                      (total_allocated a) 0 (next_block_num a))
  end.

Definition ak_arena_snapshot (arena : option ak_arena_t) : outcome ak_arena_mark_t :=
  match arena with
  | None => Ret (mk_mark None 0 0)
  | Some a =>
      match blocks a !! current_block a with
      | None => Undef
      | Some b => Ret (mk_mark (Some (blk_num b)) (blk_used b) (blk_num b))
      end
  end.

(** The block of the mark is alive as long as the arena is; one that is no
    longer in the chain is not found. *)
Definition ak_arena_restore (arena : option ak_arena_t) (mark : ak_arena_mark_t)
    : option ak_arena_t :=
  match arena, mark_block mark with
  | Some a, Some num =>
      if negb (num =? mark_num mark) then arena else
      match find_block (blocks a) num with
      | None => arena
      | Some i =>
          match blocks a !! i with
          | None => arena
          | Some block =>
              let later := drop (S i) (blocks a) in
              let reclaimed := u64 (foldl (λ acc b, u64 (acc + blk_used b)) 0 later
                                    + (blk_used block - mark_offset mark)) in
              Some (mk_arena
                (take i (blocks a) ++ set_used block (mark_offset mark)
                   :: ((λ b, set_used b 0) <$> later))
                i (block_size a) (total_allocated a) (u64 (total_used a - reclaimed))
                (next_block_num a))
          end
      end
  | _, _ => arena
  end.

Definition ak_arena_stats (arena : option ak_arena_t) : Z * Z :=
  match arena with
  | None => (0, 0)
  | Some a => (total_allocated a, total_used a)
  end.

Definition ak_arena_strdup (arena : option ak_arena_t) (str : option (list Z))
    : M (option ptr * option ak_arena_t) :=
  match arena, str with
  | Some _, Some s =>
      len ← lift (strlen s);
      r ← ak_arena_alloc arena (u64 (len + 1));
      lift (fill r s (len + 1))
  | _, _ => mret (None, arena)
  end.

Definition ak_arena_strndup (arena : option ak_arena_t) (str : option (list Z)) (n : Z)
    : M (option ptr * option ak_arena_t) :=
  match arena, str with
  | Some _, Some s =>
      len ← lift (loop (S (length s)) (λ len,
        if len <? n then
          c ← rd s len; if negb (c =? 0) then Ret (inl (len + 1)) else Ret (inr len)
        else Ret (inr len)) 0);
      r ← ak_arena_alloc arena (u64 (len + 1));
      lift (fill r (take (Z.to_nat len) s ++ [0]) (len + 1))
  | _, _ => mret (None, arena)
  end.
End arena.

(** * Alignment *)

Lemma land_le_r x m : 0 <= m → 0 <= Z.land x m <= m.
Proof.
  intros Hm. apply Z.ldiff_le; [done|]. apply Z.bits_inj'. intros i Hi.
  rewrite Z.ldiff_spec, Z.land_spec, Z.bits_0.
  by destruct (Z.testbit x i), (Z.testbit m i).
Qed.

Lemma ldiff_sub x m : Z.ldiff x m = x - Z.land x m.
Proof.
  rewrite Z.sub_nocarry_ldiff; apply Z.bits_inj'; intros i Hi;
    rewrite ?Z.bits_0, !Z.ldiff_spec, Z.land_spec;
    by destruct (Z.testbit x i), (Z.testbit m i).
Qed.

(** Clearing the bits of a mask in 64 bits. *)
Lemma land_lnot_u64 x m :
  0 <= x < 2 ^ 64 → 0 <= m → Z.land x (u64 (Z.lnot m)) = Z.ldiff x m.
Proof.
  intros Hx Hm. unfold u64. rewrite <- Z.land_ones, Z.land_assoc, <- Z.ldiff_land by lia.
  rewrite Z.land_ones by lia. apply Z.mod_small.
  assert (0 <= Z.ldiff x m) by (apply Z.ldiff_nonneg; lia).
  pose proof (ldiff_sub x m). assert (0 <= Z.land x m) by (apply Z.land_nonneg; lia). lia.
Qed.

(** Aligning never goes below the value, and by less than the alignment above. *)
Lemma align_up_range v a :
  0 <= v → 0 < a → v + a - 1 < 2 ^ 64 → v <= align_up v a <= v + a - 1.
Proof.
  intros Hv Ha Hb. unfold align_up. rewrite u64_small, land_lnot_u64 by lia.
  pose proof (land_le_r (v + a - 1) (a - 1) ltac:(lia)). rewrite ldiff_sub. lia.
Qed.

Lemma align_up_divide v k :
  0 <= v → 0 <= k → v + 2 ^ k - 1 < 2 ^ 64 → (2 ^ k | align_up v (2 ^ k)).
Proof.
  intros Hv Hk Hb. pose proof (Z.pow_pos_nonneg 2 k). unfold align_up.
  rewrite u64_small, land_lnot_u64 by lia.
  replace (2 ^ k - 1) with (Z.ones k) by (rewrite Z.ones_equiv; lia).
  rewrite Z.ldiff_ones_r, Z.shiftl_mul_pow2 by lia. apply Z.divide_factor_r.
Qed.

(** The code's test of a power of two. *)
Lemma pow2_test a : 0 < a → Z.land a (a - 1) = 0 ↔ a = 2 ^ Z.log2 a.
Proof.
  intros Ha. pose proof (Z.log2_spec a Ha) as Hl. rewrite Z.pow_succ_r in Hl by apply Z.log2_nonneg.
  pose proof (Z.log2_nonneg a). split.
  - intros H0. destruct (decide (a = 2 ^ Z.log2 a)) as [|Hne]; [done|exfalso].
    assert (Z.log2 (a - 1) = Z.log2 a) as Hlog.
    { apply Z.log2_unique; [done|]. rewrite Z.pow_succ_r by done. lia. }
    assert (Z.testbit (Z.land a (a - 1)) (Z.log2 a) = true) as Hbit.
    { rewrite Z.land_spec, Z.bit_log2 by done. rewrite <- Hlog. apply Z.bit_log2.
      pose proof (Z.pow_pos_nonneg 2 (Z.log2 a)). lia. }
    by rewrite H0, Z.bits_0 in Hbit.
  - intros He. rewrite He at 2. rewrite He at 1.
    replace (2 ^ Z.log2 a - 1) with (Z.ones (Z.log2 a)) by (rewrite Z.ones_equiv; lia).
    rewrite Z.land_ones by done. apply Z.mod_same. lia.
Qed.

(** * Arenas and their regions *)

(** A region handed out: where it starts and its length. *)
Definition region : Type := ptr * Z.

Definition disjoint (r1 r2 : region) : Prop :=
  p_block r1.1 ≠ p_block r2.1 ∨ p_off r1.1 + r1.2 <= p_off r2.1
  ∨ p_off r2.1 + r2.2 <= p_off r1.1.

Fixpoint pairwise_disjoint (rs : list region) : Prop :=
  match rs with
  | [] => True
  | r :: rs => Forall (disjoint r) rs ∧ pairwise_disjoint rs
  end.

(** The region lies in the used part of the block. *)
Definition in_block (b : arena_block_t) (r : region) : Prop :=
  blk_num b = p_block r.1 ∧ 0 <= p_off r.1 ∧ 0 < r.2 ∧ p_off r.1 + r.2 <= blk_used b.

Definition sum (f : arena_block_t → Z) (bs : list arena_block_t) : Z :=
  foldr (λ b acc, f b + acc) 0 bs.

Record block_ok (next : Z) (b : arena_block_t) : Prop := {
  bo_data : zlen (blk_data b) = blk_size b;
  bo_used : 0 <= blk_used b <= blk_size b;
  bo_num : 0 <= blk_num b < next;
}.

(** Only the blocks up to the current one are used, and the statistics count
    their used bytes. *)
Record arena_wf (a : ak_arena_t) (rs : list region) : Prop := mk_arena_wf {
  aw_current : (current_block a < length (blocks a))%nat;
  aw_blocks : Forall (block_ok (next_block_num a)) (blocks a);
  aw_later : Forall (λ b, blk_used b = 0) (drop (S (current_block a)) (blocks a));
  aw_nums : NoDup (blk_num <$> blocks a);
  aw_size : 0 < block_size a < 2 ^ 62;
  aw_total_used : total_used a = sum blk_used (blocks a);
  aw_total_allocated : sum blk_size (blocks a) <= total_allocated a < 2 ^ 63;
  aw_next : next_block_num a < 2 ^ 63;
  aw_regions : Forall (λ r, ∃ j b, blocks a !! j = Some b ∧ in_block b r) rs;
  aw_disjoint : pairwise_disjoint rs;
}.

Lemma sum_app f bs cs : sum f (bs ++ cs) = sum f bs + sum f cs.
Proof. induction bs as [|b bs IH]; simpl; [lia|]. rewrite IH. lia. Qed.

Lemma sum_nonneg f bs : Forall (λ b, 0 <= f b) bs → 0 <= sum f bs.
Proof. induction 1; simpl; lia. Qed.

Lemma sum_zero f bs : Forall (λ b, f b = 0) bs → sum f bs = 0.
Proof. induction 1; simpl; lia. Qed.

Lemma sum_le f g bs : Forall (λ b, f b <= g b) bs → sum f bs <= sum g bs.
Proof. induction 1; simpl; lia. Qed.

Lemma sum_split f bs i b :
  bs !! i = Some b → sum f bs = sum f (take i bs) + f b + sum f (drop (S i) bs).
Proof.
  intros Hi. rewrite <- (take_drop_middle bs i b Hi) at 1. rewrite sum_app. simpl. lia.
Qed.

Lemma sum_insert f bs i b b' :
  bs !! i = Some b → sum f (<[i := b']> bs) = sum f bs - f b + f b'.
Proof.
  intros Hi. rewrite (sum_split f bs i b Hi). apply lookup_lt_Some in Hi.
  rewrite insert_take_drop, sum_app by done. simpl. lia.
Qed.

Lemma find_block_ok bs i b :
  NoDup (blk_num <$> bs) → bs !! i = Some b → find_block bs (blk_num b) = Some i.
Proof.
  revert i. induction bs as [|c bs IH]; intros [|i] Hnd Hi; simplify_eq/=.
  - by rewrite Z.eqb_refl.
  - apply list.NoDup_cons in Hnd as [Hc Hnd]. rewrite (IH i Hnd Hi).
    destruct (Z.eqb_spec (blk_num c) (blk_num b)) as [E|E]; [|done]. exfalso. apply Hc.
    rewrite E. apply list_elem_of_fmap_2. by eapply list_elem_of_lookup_2.
Qed.

Section proofs.
Context `{Allocator}.
Implicit Types (a : ak_arena_t) (rs : list region).

Lemma sum_used_bound a rs : arena_wf a rs →
  0 <= sum blk_used (blocks a) <= sum blk_size (blocks a).
Proof.
  intros Hwf. split.
  - apply sum_nonneg. eapply Forall_impl; [|apply Hwf]. intros b Hb. simpl in Hb.
    destruct Hb. lia.
  - apply sum_le. eapply Forall_impl; [|apply Hwf]. intros b Hb. simpl in Hb. destruct Hb. lia.
Qed.

Lemma wf_nth a rs i b : arena_wf a rs → blocks a !! i = Some b → block_ok (next_block_num a) b.
Proof. intros Hwf Hi. pose proof (aw_blocks _ _ Hwf) as HF. rewrite Forall_lookup in HF. eauto. Qed.

Lemma blk_num_inj a rs i j b c :
  arena_wf a rs → blocks a !! i = Some b → blocks a !! j = Some c → blk_num b = blk_num c → i = j.
Proof.
  intros Hwf Hi Hj He. eapply (NoDup_lookup (blk_num <$> blocks a) i j (blk_num b));
    [apply Hwf|by rewrite list_lookup_fmap, Hi|by rewrite list_lookup_fmap, Hj, He].
Qed.

(** No region lies behind the current block. *)
Lemma region_index a rs r j b :
  arena_wf a rs → in_block b r → blocks a !! j = Some b → (j <= current_block a)%nat.
Proof.
  intros Hwf (_ & Hoff & Hlen & Hu) Hj. destruct (decide (j <= current_block a)%nat) as [|Hgt]; [done|].
  pose proof (aw_later _ _ Hwf) as HF. rewrite Forall_lookup in HF.
  assert (blk_used b = 0); [|lia]. apply (HF (j - S (current_block a))%nat).
  rewrite lookup_drop. rewrite <- Hj. f_equal. lia.
Qed.

Lemma block_size_le a rs i b :
  arena_wf a rs → blocks a !! i = Some b → blk_size b <= sum blk_size (blocks a).
Proof.
  intros Hwf Hb. pose proof (aw_blocks _ _ Hwf) as Hblk. rewrite (sum_split _ _ _ _ Hb).
  assert (∀ l, Forall (block_ok (next_block_num a)) l → 0 <= sum blk_size l) as Hnn.
  { intros l Hl. apply sum_nonneg. eapply Forall_impl; [|exact Hl].
    intros c Hc. simpl in Hc. destruct Hc. lia. }
  pose proof (Hnn _ (Forall_take _ i _ Hblk)).
  pose proof (Hnn _ (Forall_drop _ (S i) _ Hblk)). lia.
Qed.

(** Growing the used part of the current block. *)
Lemma wf_grow a rs b used' (newr : list region) :
  arena_wf a rs → blocks a !! current_block a = Some b → blk_used b <= used' <= blk_size b →
  Forall (in_block (set_used b used')) newr → pairwise_disjoint (newr ++ rs) →
  arena_wf (mk_arena (<[current_block a := set_used b used']> (blocks a)) (current_block a)
    (block_size a) (total_allocated a) (u64 (total_used a + (used' - blk_used b)))
    (next_block_num a)) (newr ++ rs).
Proof.
  intros Hwf Hb Hu Hnew Hdis. pose proof (sum_used_bound _ _ Hwf) as Hbound.
  pose proof (block_size_le _ _ _ _ Hwf Hb) as Hbs. pose proof (wf_nth _ _ _ _ Hwf Hb) as [Hd Hub Hn].
  pose proof (sum_insert blk_size _ _ _ (set_used b used') Hb) as Hsz.
  pose proof (sum_insert blk_used _ _ _ (set_used b used') Hb) as Hus. simpl in Hsz, Hus.
  destruct Hwf as [Hcur Hblk Hlater Hnums Hsize Htu Hta Hnext Hreg Hdisj].
  assert (sum blk_used (blocks a) - blk_used b <= sum blk_size (blocks a) - blk_size b).
  { rewrite !(sum_split _ _ _ _ Hb).
    assert (∀ l, Forall (block_ok (next_block_num a)) l → sum blk_used l <= sum blk_size l) as Hle.
    { intros l Hl. apply sum_le. eapply Forall_impl; [|exact Hl].
      intros c Hc. simpl in Hc. destruct Hc. lia. }
    pose proof (Hle _ (Forall_take _ (current_block a) _ Hblk)).
    pose proof (Hle _ (Forall_drop _ (S (current_block a)) _ Hblk)). lia. }
  split; simpl; try done.
  - by rewrite length_insert.
  - apply Forall_insert; [done|]. by split; simpl; [|lia|].
  - by rewrite drop_insert_lt by lia.
  - rewrite list_fmap_insert. simpl. rewrite list_insert_id; [done|].
    by rewrite list_lookup_fmap, Hb.
  - rewrite u64_small, Hus; lia.
  - lia.
  - apply Forall_app. split.
    + eapply Forall_impl; [|exact Hnew]. intros r Hr. simpl in Hr.
      exists (current_block a), (set_used b used'). split; [|done].
      by apply list_lookup_insert_eq.
    + eapply Forall_impl; [|exact Hreg]. intros r (j & c & Hj & Hin). simpl in *.
      destruct (decide (j = current_block a)) as [->|Hne].
      * simplify_eq. exists (current_block a), (set_used b used').
        split; [by apply list_lookup_insert_eq|].
        destruct Hin as (? & ? & ? & ?). by split_and!; simpl; try lia.
      * exists j, c. split; [by rewrite list_lookup_insert_ne|done].
Qed.

(** Linking a new block after the current one. *)
Lemma wf_link a rs d size num used' (newr : list region) :
  arena_wf a rs → num = next_block_num a → num < 2 ^ 63 - 1 → zlen d = size →
  0 <= used' <= size → total_allocated a + size < 2 ^ 63 →
  Forall (in_block (mk_block d size used' num)) newr →
  pairwise_disjoint (newr ++ rs) →
  arena_wf (mk_arena (take (S (current_block a)) (blocks a) ++ [mk_block d size used' num])
    (S (current_block a)) (block_size a) (u64 (total_allocated a + size))
    (u64 (total_used a + used')) (u64 (num + 1))) (newr ++ rs).
Proof.
  intros Hwf -> Hnum Hd Hu Hta' Hnew Hdis. pose proof (sum_used_bound _ _ Hwf) as Hbound.
  pose proof (λ r j b, region_index a rs r j b Hwf) as Hidx.
  destruct Hwf as [Hcur Hblk Hlater Hnums Hsize Htu Hta Hnext Hreg Hdisj].
  set (bs := take (S (current_block a)) (blocks a)).
  assert (length bs = S (current_block a)) as Hlen by (subst bs; rewrite length_take; lia).
  assert (sum blk_size (blocks a) = sum blk_size bs
    + sum blk_size (drop (S (current_block a)) (blocks a))) as Hsz.
  { rewrite <- sum_app. subst bs. by rewrite take_drop. }
  assert (0 <= sum blk_size (drop (S (current_block a)) (blocks a))).
  { apply sum_nonneg. eapply Forall_impl; [|apply (Forall_drop _ _ _ Hblk)].
    intros c Hc. simpl in Hc. destruct Hc. lia. }
  assert (sum blk_used (blocks a) = sum blk_used bs) as Hus.
  { subst bs. rewrite <- (take_drop (S (current_block a)) (blocks a)) at 1.
    rewrite sum_app, (sum_zero _ (drop _ _)) by done. lia. }
  assert (0 <= next_block_num a) as Hn0.
  { destruct (lookup_lt_is_Some_2 _ _ Hcur) as [b Hb]. rewrite Forall_lookup in Hblk.
    destruct (Hblk _ _ Hb). lia. }
  split; simpl; try done.
  - rewrite length_app, Hlen. simpl. lia.
  - apply Forall_app. split; [|constructor; [|done]].
    + eapply Forall_impl; [|apply (Forall_take _ (S (current_block a)) _ Hblk)].
      intros b Hb. simpl in Hb. destruct Hb. split; [done|done|]. rewrite u64_small; lia.
    + split; simpl; [done|lia|]. rewrite u64_small; lia.
  - rewrite drop_ge; [done|]. rewrite length_app, Hlen. simpl. lia.
  - rewrite fmap_app. apply list.NoDup_app. split; [|split; [|apply NoDup_singleton]].
    + eapply sublist_NoDup; [exact Hnums|]. subst bs. rewrite fmap_take. apply sublist_take.
    + intros x (b & -> & Hb)%list_elem_of_fmap Hx%list_elem_of_singleton.
      apply list_elem_of_lookup in Hb as [j Hj]. subst bs. apply lookup_take_Some in Hj as [Hj _].
      rewrite Forall_lookup in Hblk. destruct (Hblk _ _ Hj). simpl in *. lia.
  - rewrite sum_app. simpl. rewrite Z.add_0_r, <- Hus, u64_small; lia.
  - rewrite sum_app. simpl. rewrite u64_small; lia.
  - rewrite u64_small; lia.
  - apply Forall_app. split.
    + eapply Forall_impl; [|exact Hnew]. intros r Hr. simpl in Hr.
      exists (S (current_block a)). eexists. split; [|exact Hr].
      rewrite lookup_app_r by lia. by rewrite Hlen, Nat.sub_diag.
    + eapply Forall_impl; [|exact Hreg]. intros r (j & c & Hj & Hin). simpl in *.
      pose proof (Hidx r j c Hin Hj). exists j, c. split; [|done].
      rewrite lookup_app_l by lia. subst bs. by rewrite lookup_take_lt by lia.
Qed.

(** ** Allocating *)

(** What a call that hands out regions keeps: the blocks before the current one
    and the used bytes of the current one. *)
Definition shape (b : arena_block_t) : Z * Z * Z := (blk_num b, blk_size b, blk_used b).

Record later (a a' : ak_arena_t) : Prop := mk_later {
  la_current : (current_block a <= current_block a')%nat;
  la_before : ∀ j b, (j < current_block a)%nat → blocks a !! j = Some b →
    ∃ b', blocks a' !! j = Some b' ∧ shape b' = shape b;
  la_block : ∀ b, blocks a !! current_block a = Some b →
    ∃ b', blocks a' !! current_block a = Some b' ∧ blk_num b' = blk_num b
      ∧ blk_size b' = blk_size b ∧ blk_used b <= blk_used b';
}.

Lemma later_refl a : later a a.
Proof. split; [done|eauto|]. intros b Hb. exists b. split_and!; done || lia. Qed.

Lemma later_trans a1 a2 a3 : later a1 a2 → later a2 a3 → later a1 a3.
Proof.
  intros [C1 B1 L1] [C2 B2 L2]. split; [lia| |].
  - intros j b Hj Hb. destruct (B1 j b Hj Hb) as (b' & Hb' & He).
    destruct (B2 j b' ltac:(lia) Hb') as (b'' & Hb'' & He'). exists b''. split; [done|congruence].
  - intros b Hb. destruct (L1 b Hb) as (b' & Hb' & Hn & Hs & Hu).
    destruct (decide (current_block a1 = current_block a2)) as [E|E].
    + rewrite E in *. destruct (L2 b' Hb') as (b'' & Hb'' & Hn' & Hs' & Hu').
      exists b''. split_and!; [done|congruence|congruence|lia].
    + destruct (B2 (current_block a1) b' ltac:(lia) Hb') as (b'' & Hb'' & He'). exists b''.
      unfold shape in He'. simplify_eq. split_and!; [done|congruence|congruence|lia].
Qed.

(** The bytes of the regions stay as they are. *)
Definition same_bytes rs a a' : Prop :=
  Forall (λ r, load_bytes (blocks a') r.1 r.2 = load_bytes (blocks a) r.1 r.2) rs.

Definition is_pow2 (align : Z) : Prop := ∃ k, 0 <= k < 62 ∧ align = 2 ^ k.

(** What an allocation of [size] bytes answers. *)
Definition allocated a rs (size align : Z) (s : mem) (r : option ptr * option ak_arena_t)
    (s' : mem) : Prop :=
  ∃ a', r.2 = Some a' ∧ later a a' ∧ block_size a' = block_size a ∧
    match r.1 with
    | Some p => arena_wf a' ((p, size) :: rs) ∧ same_bytes rs a a' ∧ (align | p_off p)
        ∧ total_used a + size <= total_used a' ∧ m_fails s' = m_fails s
        ∧ next_block_num a' <= next_block_num a + 1
        ∧ total_allocated a' <= total_allocated a + size + block_size a
    | None => arena_wf a' rs ∧ blocks a' = blocks a ∧ total_used a' = total_used a
        ∧ balance 0 true s s'
        ∧ next_block_num a' <= next_block_num a + 1
        ∧ total_allocated a' = total_allocated a
    end.

Lemma load_at bs p n j b :
  NoDup (blk_num <$> bs) → bs !! j = Some b → blk_num b = p_block p →
  load_bytes bs p n = blit (replicate (Z.to_nat n) 0) 0 (blk_data b) (p_off p) n.
Proof.
  intros Hnd Hj Hb. unfold load_bytes. rewrite <- Hb, (find_block_ok _ _ _ Hnd Hj). by rewrite Hj.
Qed.

Lemma same_bytes_intro a rs a' :
  arena_wf a rs → NoDup (blk_num <$> blocks a') →
  (∀ j b, (j <= current_block a)%nat → blocks a !! j = Some b →
     ∃ b', blocks a' !! j = Some b' ∧ blk_num b' = blk_num b ∧ blk_data b' = blk_data b) →
  same_bytes rs a a'.
Proof.
  intros Hwf Hnd Hsame. pose proof (aw_regions _ _ Hwf) as Hreg. unfold same_bytes.
  eapply Forall_impl; [|exact Hreg]. intros r (j & b & Hj & Hin). simpl in *.
  pose proof (region_index _ _ _ _ _ Hwf Hin Hj) as Hle.
  destruct (Hsame j b Hle Hj) as (b' & Hj' & Hn & Hd). destruct Hin as [Hb _].
  rewrite (load_at _ _ _ _ _ Hnd Hj') by congruence.
  rewrite (load_at _ _ _ _ _ (aw_nums _ _ Hwf) Hj) by congruence. by rewrite Hd.
Qed.

Lemma disjoint_above a rs b p size :
  arena_wf a rs → blocks a !! current_block a = Some b → p_block p = blk_num b →
  blk_used b <= p_off p → pairwise_disjoint ((p, size) :: rs).
Proof.
  intros Hwf Hb Hp Hoff. split; [|apply Hwf].
  eapply Forall_impl; [|exact (aw_regions _ _ Hwf)]. intros r (j & c & Hj & Hin).
  destruct Hin as (Hn & ? & ? & ?). unfold disjoint. simpl.
  destruct (decide (p_block p = p_block r.1)) as [E|E]; [|by left]. right; right.
  assert (j = current_block a) as -> by (eapply (blk_num_inj a rs); eauto; congruence).
  simplify_eq. lia.
Qed.

Lemma disjoint_fresh a rs num off size :
  arena_wf a rs → num = next_block_num a → pairwise_disjoint ((mk_ptr num off, size) :: rs).
Proof.
  intros Hwf ->. split; [|apply Hwf].
  eapply Forall_impl; [|exact (aw_regions _ _ Hwf)]. intros r (j & c & Hj & Hin).
  destruct Hin as (Hn & _). left. simpl. pose proof (wf_nth _ _ _ _ Hwf Hj) as []. lia.
Qed.

Lemma wp_allocate_block size num s Q :
  0 <= size →
  (∀ s', balance 0 true s s' → Q None s') →
  (∀ d s', balance 2 false s s' → zlen d = size → Q (Some (mk_block d size 0 num)) s') →
  wp (allocate_block size num) Q s.
Proof.
  intros Hs HN HS. unfold allocate_block. wsteps. apply wp_alloc_obj. intros [|] s1 H1; simpl.
  2:{ wsteps. apply HN. balance. }
  wsteps. apply wp_alloc_bytes; [done| |].
  - intros s2 H2. wsteps. apply wp_free_obj. intros s3 HL HF. wsteps. apply HN. balance.
  - intros d s2 H2 Hd _. wsteps. apply HS; [balance|done].
Qed.

Lemma alloc_here_ok a rs b size k :
  arena_wf a rs → blocks a !! current_block a = Some b → 0 < size < 2 ^ 61 → 0 <= k < 62 →
  align_up (blk_used b) (2 ^ k) + size <= blk_size b →
  let off := align_up (blk_used b) (2 ^ k) in
  let a' := mk_arena (<[current_block a := set_used b (off + size)]> (blocks a))
              (current_block a) (block_size a) (total_allocated a)
              (u64 (total_used a + (off + size - blk_used b))) (next_block_num a) in
  arena_wf a' ((mk_ptr (blk_num b) off, size) :: rs) ∧ same_bytes rs a a'
  ∧ (2 ^ k | off) ∧ later a a' ∧ total_used a + size <= total_used a'.
Proof.
  intros Hwf Hb Hsz Hk Hfit off a'. pose proof (wf_nth _ _ _ _ Hwf Hb) as [Hd Hu Hn].
  pose proof (sum_used_bound _ _ Hwf) as Hbound.
  assert (0 < 2 ^ k) by (apply Z.pow_pos_nonneg; lia).
  assert (2 ^ k <= 2 ^ 62) by (apply Z.pow_le_mono_r; lia).
  assert (blk_size b <= total_allocated a < 2 ^ 63) as Hbs.
  { pose proof (block_size_le _ _ _ _ Hwf Hb). destruct Hwf. lia. }
  pose proof (align_up_range (blk_used b) (2 ^ k) ltac:(lia) ltac:(lia) ltac:(lia)) as Ha.
  fold off in Ha, Hfit.
  assert (arena_wf a' ((mk_ptr (blk_num b) off, size) :: rs)) as Hwf'.
  { apply (wf_grow a rs b (off + size) [(mk_ptr (blk_num b) off, size)]); [done|done|lia| |].
    - constructor; [|done]. by split_and!; simpl; try lia.
    - apply (disjoint_above a rs b); [done|done|done|simpl; lia]. }
  split; [done|]. split.
  { apply same_bytes_intro; [done|apply Hwf'|]. intros j c Hj Hc. simpl.
    destruct (decide (j = current_block a)) as [->|Hne].
    - simplify_eq. eexists. split; [apply list_lookup_insert_eq, Hwf|done].
    - rewrite list_lookup_insert_ne by done. eauto. }
  split; [apply align_up_divide; lia|]. split.
  - split; simpl; [done| |].
    + intros j c Hj Hc. rewrite list_lookup_insert_ne by lia. eauto.
    + intros c Hc. simplify_eq. eexists. split; [apply list_lookup_insert_eq, Hwf|].
      split_and!; simpl; done || lia.
  - simpl. pose proof (aw_total_used _ _ Hwf). pose proof (aw_total_allocated _ _ Hwf).
    pose proof (aw_total_used _ _ Hwf') as Htu. simpl in Htu.
    rewrite (sum_insert _ _ _ _ _ Hb) in Htu. simpl in Htu. lia.
Qed.

Lemma alloc_next_ok a rs d nsize size :
  arena_wf a rs → next_block_num a < 2 ^ 63 - 1 → zlen d = nsize → 0 < size <= nsize →
  total_allocated a + nsize < 2 ^ 63 →
  let a' := mk_arena (take (S (current_block a)) (blocks a)
                        ++ [mk_block d nsize size (next_block_num a)])
              (S (current_block a)) (block_size a) (u64 (total_allocated a + nsize))
              (u64 (total_used a + size)) (u64 (next_block_num a + 1)) in
  arena_wf a' ((mk_ptr (next_block_num a) 0, size) :: rs) ∧ same_bytes rs a a'
  ∧ later a a' ∧ total_used a + size <= total_used a'.
Proof.
  intros Hwf Hnum Hd Hsz Hroom a'. pose proof (sum_used_bound _ _ Hwf) as Hbound.
  assert (arena_wf a' ((mk_ptr (next_block_num a) 0, size) :: rs)) as Hwf'.
  { apply (wf_link a rs d nsize (next_block_num a) size [(mk_ptr (next_block_num a) 0, size)]);
      [done|done|done|done|lia|done| |].
    - constructor; [|done]. by split_and!; simpl; try lia.
    - by apply (disjoint_fresh a rs). }
  assert (length (take (S (current_block a)) (blocks a)) = S (current_block a)) as Hlen.
  { rewrite length_take. pose proof (aw_current _ _ Hwf). lia. }
  assert (∀ j, (j <= current_block a)%nat → blocks a' !! j = blocks a !! j) as Hsame.
  { intros j Hj. simpl. rewrite lookup_app_l by lia. by rewrite lookup_take_lt by lia. }
  split; [done|]. split; [|split].
  - apply same_bytes_intro; [done|apply Hwf'|]. intros j c Hj Hc. rewrite Hsame by done. eauto.
  - split; simpl; [lia| |].
    + intros j c Hj Hc. exists c. split; [|done]. rewrite <- Hc. apply (Hsame j). lia.
    + intros c Hc. exists c. split_and!; [|done|done|lia]. rewrite <- Hc. by apply Hsame.
  - simpl. pose proof (aw_total_used _ _ Hwf). pose proof (aw_total_allocated _ _ Hwf).
    rewrite u64_small by lia. lia.
Qed.

Lemma alloc_ok a rs size align s :
  arena_wf a rs → 0 < size < 2 ^ 61 → is_pow2 align →
  total_allocated a + size + block_size a < 2 ^ 63 → next_block_num a < 2 ^ 63 - 1 →
  wp (ak_arena_alloc_aligned (Some a) size align) (allocated a rs size align s) s.
Proof.
  intros Hwf Hsz (k & Hk & ->) Hroom Hnum. unfold ak_arena_alloc_aligned.
  assert (0 < 2 ^ k) by (apply Z.pow_pos_nonneg; lia).
  assert (2 ^ k <= 2 ^ 62) by (apply Z.pow_le_mono_r; lia).
  rewrite (proj2 (Z.eqb_neq size 0)), (proj2 (Z.eqb_neq (2 ^ k) 0)) by lia.
  rewrite (proj2 (pow2_test (2 ^ k) ltac:(lia))) by (rewrite Z.log2_pow2; lia). simpl.
  destruct (lookup_lt_is_Some_2 _ _ (aw_current _ _ Hwf)) as [b Hb]. rewrite Hb.
  pose proof (wf_nth _ _ _ _ Hwf Hb) as [Hd Hu Hn].
  pose proof (block_size_le _ _ _ _ Hwf Hb) as Hbs. pose proof (aw_total_allocated _ _ Hwf).
  pose proof (align_up_range (blk_used b) (2 ^ k) ltac:(lia) ltac:(lia) ltac:(lia)) as Ha.
  set (off := align_up (blk_used b) (2 ^ k)) in *.
  rewrite (u64_small (off - blk_used b + size)) by lia.
  rewrite (u64_small (blk_used b + _)) by lia.
  replace (blk_used b + (off - blk_used b + size)) with (off + size) by lia.
  destruct (Z.ltb_spec (blk_size b) (off + size)) as [Hfull|Hfit].
  - set (nsize := if block_size a <? size then align_up size (block_size a) else block_size a).
    pose proof (aw_size _ _ Hwf).
    assert (size <= nsize <= size + block_size a) as Hns.
    { subst nsize. destruct (Z.ltb_spec (block_size a) size); [|lia].
      pose proof (align_up_range size (block_size a) ltac:(lia) ltac:(lia) ltac:(lia)). lia. }
    clearbody nsize. wsteps. apply wp_allocate_block; [lia| |].
    + intros s1 Hbal. wsteps. eexists. split; [done|]. simpl.
      rewrite (u64_small (next_block_num a + 1)) by lia.
      split; [|split; [done|split; [|split; [done|split; [done|split; [done|split; [lia|done]]]]]]].
      * split; simpl; [done|eauto|]. intros c Hc. exists c. split_and!; done || lia.
      * destruct Hwf. split; simpl; try done; [|lia].
        eapply Forall_impl; [|exact aw_blocks0]. intros c [? ? ?]. split; [done|done|lia].
    + intros d s1 Hbal Hd'. wsteps.
      destruct (alloc_next_ok a rs d nsize size Hwf Hnum Hd' ltac:(lia) ltac:(lia))
        as (Hwf' & Hsame & Hlater & Htu).
      eexists. split; [done|]. split; [done|]. split; [done|]. simpl.
      split; [done|]. split; [done|]. split; [apply Z.divide_0_r|]. split; [done|].
      split; [by destruct Hbal|]. rewrite !u64_small by lia. split; lia.
  - wsteps. rewrite (u64_small (off + size)) by lia.
    replace (off - blk_used b + size) with (off + size - blk_used b) by lia.
    destruct (alloc_here_ok a rs b size k Hwf Hb Hsz Hk Hfit) as (Hwf' & Hsame & Hdiv & Hlater & Htu).
    eexists. split; [done|]. split; [done|]. split; [done|]. simpl.
    split; [done|]. split; [done|]. split; [done|]. split; [done|]. split; [done|]. pose proof (aw_size _ _ Hwf). lia.
Qed.

(** ** Snapshots *)

Lemma foldl_u64 bs acc :
  Forall (λ b, 0 <= blk_used b) bs → 0 <= acc → acc + sum blk_used bs < 2 ^ 64 →
  foldl (λ acc b, u64 (acc + blk_used b)) acc bs = acc + sum blk_used bs.
Proof.
  intros HF. revert acc. induction HF as [|b bs Hb HF IH]; intros acc Hacc Hlt; simpl in *; [lia|].
  pose proof (sum_nonneg blk_used bs HF). rewrite u64_small by lia. rewrite IH by lia. lia.
Qed.

Lemma sum_ext f bs cs :
  length bs = length cs → (∀ j b c, bs !! j = Some b → cs !! j = Some c → f b = f c) →
  sum f bs = sum f cs.
Proof.
  revert cs. induction bs as [|b bs IH]; intros [|c cs] Hlen Hf; simplify_eq/=; [done|].
  rewrite (Hf 0%nat b c) by done. rewrite (IH cs); [done|done|].
  intros j x y. apply (Hf (S j)).
Qed.

Lemma wf_used_nonneg a rs : arena_wf a rs → Forall (λ b, 0 <= blk_used b) (blocks a).
Proof.
  intros Hwf. eapply Forall_impl; [|exact (aw_blocks _ _ Hwf)]. intros b Hb. simpl in Hb.
  destruct Hb. lia.
Qed.

(** The used bytes before a block that a later arena still has. *)
Lemma later_sum a a' rs rs' :
  arena_wf a rs → arena_wf a' rs' → later a a' →
  sum blk_used (take (current_block a) (blocks a')) = sum blk_used (take (current_block a) (blocks a)).
Proof.
  intros Hwf Hwf' [Hc Hb _]. pose proof (aw_current _ _ Hwf). pose proof (aw_current _ _ Hwf').
  apply sum_ext; [rewrite !length_take; lia|].
  intros j x y [Hx Hj]%lookup_take_Some [Hy _]%lookup_take_Some.
  destruct (Hb j y Hj Hy) as (x' & Hx' & He). unfold shape in He. by simplify_eq.
Qed.

Lemma restore_eq a a' rs rs' mark :
  arena_wf a rs → arena_wf a' rs' → later a a' →
  ak_arena_snapshot (Some a) = Ret mark →
  ∃ b b', blocks a !! current_block a = Some b ∧ blocks a' !! current_block a = Some b'
    ∧ blk_num b' = blk_num b ∧ blk_size b' = blk_size b ∧
  ak_arena_restore (Some a') mark = Some (mk_arena
    (take (current_block a) (blocks a') ++ set_used b' (blk_used b)
       :: ((λ b, set_used b 0) <$> drop (S (current_block a)) (blocks a')))
    (current_block a) (block_size a') (total_allocated a') (total_used a) (next_block_num a')).
Proof.
  intros Hwf Hwf' Hl Hsnap. destruct (lookup_lt_is_Some_2 _ _ (aw_current _ _ Hwf)) as [b Hb].
  simpl in Hsnap. rewrite Hb in Hsnap. simplify_eq.
  destruct (la_block _ _ Hl b Hb) as (b' & Hb' & Hn & Hs & Hu).
  exists b, b'. split; [done|]. split; [done|]. split; [done|]. split; [done|].
  unfold ak_arena_restore. simpl. rewrite Z.eqb_refl. simpl.
  rewrite <- Hn, (find_block_ok _ _ _ (aw_nums _ _ Hwf') Hb'), Hb'. do 2 f_equal.
  pose proof (later_sum _ _ _ _ Hwf Hwf' Hl) as Hsum.
  pose proof (sum_split blk_used _ _ _ Hb) as H1. pose proof (sum_split blk_used _ _ _ Hb') as H2.
  rewrite (sum_zero _ (drop _ (blocks a))) in H1 by apply Hwf.
  pose proof (sum_used_bound _ _ Hwf'). pose proof (sum_used_bound _ _ Hwf).
  pose proof (wf_used_nonneg _ _ Hwf') as Hnn. pose proof (aw_total_allocated _ _ Hwf').
  pose proof (sum_nonneg blk_used _ (Forall_drop _ (S (current_block a)) _ Hnn)).
  pose proof (sum_nonneg blk_used _ (Forall_take _ (current_block a) _ Hnn)).
  pose proof (aw_total_used _ _ Hwf). pose proof (aw_total_used _ _ Hwf').
  pose proof (wf_nth _ _ _ _ Hwf Hb) as [_ Hub _].
  rewrite foldl_u64 by (by apply Forall_drop || lia). rewrite Z.add_0_l.
  rewrite (u64_small (sum blk_used _ + _)), u64_small by lia. lia.
Qed.

Lemma lookup_restored (bs : list arena_block_t) i b j :
  (i < length bs)%nat →
  (take i bs ++ b :: ((λ b, set_used b 0) <$> drop (S i) bs)) !! j =
    if (j <? i)%nat then bs !! j else if (j =? i)%nat then Some b
    else (λ b, set_used b 0) <$> bs !! j.
Proof.
  intros Hi. assert (length (take i bs) = i) as Hlen by (rewrite length_take; lia). ncase.
  - by rewrite lookup_app_l, lookup_take_lt by lia.
  - subst. by rewrite lookup_app_r, Hlen, Nat.sub_diag by lia.
  - rewrite lookup_app_r, Hlen by lia. replace (j - i)%nat with (S (j - S i)) by lia. simpl.
    rewrite list_lookup_fmap, lookup_drop. do 2 f_equal. lia.
Qed.

Lemma restore_wf a a' rs rs' mark :
  arena_wf a rs → arena_wf a' rs' → later a a' → ak_arena_snapshot (Some a) = Ret mark →
  ∃ a'', ak_arena_restore (Some a') mark = Some a'' ∧ arena_wf a'' rs
    ∧ total_used a'' = total_used a ∧ total_allocated a'' = total_allocated a'
    ∧ current_block a'' = current_block a
    ∧ (∀ j b, (j <= current_block a)%nat → blocks a' !! j = Some b →
         ∃ b'', blocks a'' !! j = Some b'' ∧ blk_num b'' = blk_num b ∧ blk_data b'' = blk_data b).
Proof.
  intros Hwf Hwf' Hl Hsnap.
  destruct (restore_eq _ _ _ _ _ Hwf Hwf' Hl Hsnap) as (b & b' & Hb & Hb' & Hn & Hs & ->).
  assert (current_block a < length (blocks a'))%nat as Hcl by (by eapply lookup_lt_Some).
  pose proof (λ j, lookup_restored (blocks a') (current_block a) (set_used b' (blk_used b)) j Hcl) as Hlk.
  pose proof (wf_nth _ _ _ _ Hwf Hb) as [_ Hub _].
  set (bs := take (current_block a) (blocks a') ++ _).
  assert (∀ j c, bs !! j = Some c → ∃ c', blocks a' !! j = Some c' ∧ blk_num c = blk_num c'
    ∧ blk_size c = blk_size c' ∧ blk_data c = blk_data c') as Hback.
  { intros j c Hj. subst bs. rewrite Hlk in Hj. revert Hj. ncase; intros Hj.
    - by exists c.
    - simplify_eq. by exists b'.
    - destruct (blocks a' !! j) as [c'|]; [|done]. simplify_eq/=. by exists c'. }
  assert (blk_num <$> bs = blk_num <$> blocks a') as Hnums.
  { apply list_eq. intros j. rewrite !list_lookup_fmap. subst bs. rewrite Hlk. ncase.
    - subst. by rewrite Hb'.
    - by destruct (blocks a' !! j). }
  assert (sum blk_used bs = total_used a) as Hused.
  { subst bs. rewrite sum_app. simpl. rewrite (later_sum _ _ _ _ Hwf Hwf' Hl).
    rewrite (sum_zero _ (_ <$> _)) by (apply Forall_fmap, Forall_true; done).
    rewrite (aw_total_used _ _ Hwf), (sum_split _ _ _ _ Hb).
    rewrite (sum_zero _ (drop _ (blocks a))) by apply Hwf. lia. }
  assert (sum blk_size bs = sum blk_size (blocks a')) as Hsize.
  { apply sum_ext.
    - apply (f_equal length) in Hnums. by rewrite !length_fmap in Hnums.
    - intros j x y Hx Hy. destruct (Hback j x Hx) as (c' & Hc' & _ & ? & _). congruence. }
  eexists. split; [done|]. split; [|split; [done|split; [done|split; [done|]]]].
  - pose proof (sum_used_bound _ _ Hwf). split; simpl.
    + by apply (f_equal length) in Hnums; rewrite !length_fmap in Hnums; lia.
    + apply Forall_lookup_2. intros j c Hj. destruct (Hback j c Hj) as (c' & Hc' & E1 & E2 & E3).
      pose proof (wf_nth _ _ _ _ Hwf' Hc') as [Hd Hu Hm]. split; [congruence| |by rewrite E1].
      subst bs. rewrite Hlk in Hj. revert Hj. ncase; intros Hj; simplify_eq.
      * lia.
      * simpl. lia.
      * rewrite Hc' in Hj. simplify_eq/=. lia.
    + apply Forall_lookup_2. intros j c Hj. rewrite lookup_drop in Hj.
      destruct (Hback _ c Hj) as (c' & Hc' & _). subst bs. rewrite Hlk, Hc' in Hj.
      revert Hj. ncase. intros Hj. by simplify_eq/=.
    + rewrite Hnums. apply Hwf'.
    + apply Hwf'.
    + by rewrite Hused.
    + rewrite Hsize. apply Hwf'.
    + apply Hwf'.
    + eapply Forall_impl; [|exact (aw_regions _ _ Hwf)]. intros r (j & c & Hj & Hin). simpl in *.
      pose proof (region_index _ _ _ _ _ Hwf Hin Hj) as Hle. exists j. subst bs.
      setoid_rewrite Hlk. destruct Hin as (E1 & E2 & E3 & E4). ncase.
      * destruct (la_before _ _ Hl j c ltac:(lia) Hj) as (c' & Hc' & He). exists c'.
        unfold shape in He. simplify_eq. split; [done|]. split_and!; congruence || lia.
      * subst j. simplify_eq. eexists. split; [done|]. split_and!; simpl; congruence || lia.
    + apply Hwf.
  - intros j c Hj Hc. simpl. subst bs. setoid_rewrite Hlk. ncase; [by exists c|].
    subst j. simplify_eq. by eexists.
Qed.

(** ** Reading and writing regions *)

Lemma load_region a rs p n k :
  arena_wf a rs → (p, n) ∈ rs → 0 <= k <= n →
  ∃ j b, blocks a !! j = Some b ∧ blk_num b = p_block p
    ∧ 0 <= p_off p ∧ p_off p + n <= zlen (blk_data b)
    ∧ load_bytes (blocks a) p k
      = Ret (take (Z.to_nat k) (drop (Z.to_nat (p_off p)) (blk_data b))).
Proof.
  intros Hwf Hin Hk. pose proof (aw_regions _ _ Hwf) as HF.
  rewrite list.Forall_forall in HF. destruct (HF _ Hin) as (j & b & Hj & E1 & E2 & E3 & E4).
  simpl in *. pose proof (wf_nth _ _ _ _ Hwf Hj) as [Hd Hu _]. exists j, b.
  split_and!; [done|done|done|lia|].
  rewrite (load_at _ _ _ _ _ (aw_nums _ _ Hwf) Hj) by congruence.
  rewrite blit_ok; unfold zlen in *; rewrite ?length_replicate; try lia.
  simpl. rewrite (drop_ge (replicate _ _)); [by rewrite app_nil_r|]. rewrite length_replicate. lia.
Qed.

(** A copy leaves the bytes outside its target as they were. *)
Lemma blit_elsewhere (d d' src : list Z) off m q n :
  blit d off src 0 m = Ret d' → 0 <= off → 0 <= m → 0 <= q → 0 <= n →
  (q + n <= off ∨ off + m <= q) →
  take (Z.to_nat n) (drop (Z.to_nat q) d') = take (Z.to_nat n) (drop (Z.to_nat q) d).
Proof.
  intros Hb Ho Hm Hq Hn Hsep. unfold blit in Hb. destruct (_ && _) eqn:E; [|done].
  rewrite !andb_true_iff, !Z.leb_le in E. destruct E as [[_ E] E']. simplify_eq.
  unfold zlen in *. apply list_eq. intros i.
  destruct (decide (i < Z.to_nat n)%nat) as [Hi|Hi].
  2:{ by rewrite !lookup_take_ge by lia. }
  rewrite !lookup_take_lt, !lookup_drop by lia. destruct Hsep as [Hs|Hs].
  - rewrite lookup_app_l by (rewrite length_take; lia). by rewrite lookup_take_lt by lia.
  - rewrite lookup_app_r by (rewrite length_take; lia).
    rewrite lookup_app_r by (rewrite !length_take, length_drop; lia).
    rewrite !length_take, length_drop, lookup_drop. f_equal. lia.
Qed.

(** A block with other bytes. *)
Definition set_data (b : arena_block_t) (d : list Z) : arena_block_t :=
  mk_block d (blk_size b) (blk_used b) (blk_num b).

Lemma set_data_lookup (bs : list arena_block_t) j b d i c :
  bs !! j = Some b → bs !! i = Some c →
  <[j := set_data b d]> bs !! i = Some (if decide (i = j) then set_data b d else c).
Proof.
  intros Hj Hi. case_decide as E.
  - subst. apply list_lookup_insert_eq. by eapply lookup_lt_Some.
  - by rewrite list_lookup_insert_ne.
Qed.

Lemma set_data_wf a rs j b d :
  arena_wf a rs → blocks a !! j = Some b → zlen d = zlen (blk_data b) →
  arena_wf (with_blocks a (<[j := set_data b d]> (blocks a))) rs
  ∧ later a (with_blocks a (<[j := set_data b d]> (blocks a))).
Proof.
  intros Hwf Hj Hd. pose proof (wf_nth _ _ _ _ Hwf Hj) as [Hbd Hbu Hbn].
  pose proof (λ i c, set_data_lookup (blocks a) j b d i c Hj) as Hlk.
  assert (∀ i c, blocks a !! i = Some c →
    shape (if decide (i = j) then set_data b d else c) = shape c) as Hsh.
  { intros i c Hi. case_decide; [|done]. by simplify_eq. }
  split.
  - destruct Hwf as [Hc Hbl Hla Hno Hsz Htu Hta Hnx Hrg Hdj]. split; simpl; try done.
    + by rewrite length_insert.
    + apply Forall_insert; [done|]. split; simpl; [congruence|done|done].
    + apply Forall_lookup_2. intros i c Hi. rewrite lookup_drop in Hi.
      rewrite Forall_lookup in Hla.
      destruct (lookup_lt_is_Some_2 (blocks a) (S (current_block a) + i)) as [c0 Hc0].
      { apply lookup_lt_Some in Hi. by rewrite length_insert in Hi. }
      rewrite (Hlk _ _ Hc0) in Hi. injection Hi as <-. pose proof (Hsh _ _ Hc0) as He.
      unfold shape in He. injection He as _ _ ->. apply (Hla i). by rewrite lookup_drop.
    + rewrite list_fmap_insert. simpl. rewrite list_insert_id; [done|].
      by rewrite list_lookup_fmap, Hj.
    + rewrite (sum_insert _ _ _ _ _ Hj). simpl. lia.
    + rewrite (sum_insert _ _ _ _ _ Hj). simpl. lia.
    + eapply Forall_impl; [|exact Hrg]. intros r (i & c & Hi & F1 & F2 & F3 & F4).
      exists i. eexists. split; [by apply Hlk|]. pose proof (Hsh _ _ Hi) as He.
      unfold shape in He. injection He as E1 E2 E3. split_and!; congruence || lia.
  - split; simpl; [done| |].
    + intros i c _ Hi. eexists. split; [by apply Hlk|by apply Hsh].
    + intros c Hc. eexists. split; [by apply Hlk|]. pose proof (Hsh _ _ Hc) as He.
      unfold shape in He. injection He as E1 E2 E3. split_and!; congruence || lia.
Qed.

Lemma region_size a rs r : arena_wf a rs → r ∈ rs → 0 < r.2.
Proof.
  intros Hwf Hr. pose proof (aw_regions _ _ Hwf) as HF. rewrite list.Forall_forall in HF.
  destruct (HF r Hr) as (? & ? & _ & _ & _ & ? & _). lia.
Qed.

Lemma store_ok a rs p n src m :
  arena_wf a ((p, n) :: rs) → 0 <= m <= n → m <= zlen src →
  ∃ bs, store_bytes (blocks a) p src m = Ret bs
    ∧ arena_wf (with_blocks a bs) ((p, n) :: rs)
    ∧ same_bytes rs a (with_blocks a bs) ∧ later a (with_blocks a bs)
    ∧ load_bytes bs p m = Ret (take (Z.to_nat m) src).
Proof.
  intros Hwf Hm Hsrc.
  destruct (load_region a _ p n n Hwf) as (j & b & Hj & Hn & Ho & Hl & _);
    [apply list_elem_of_here|lia|].
  unfold store_bytes. rewrite <- Hn, (find_block_ok _ _ _ (aw_nums _ _ Hwf) Hj), Hj.
  destruct (blit (blk_data b) (p_off p) src 0 m) as [d| |] eqn:Hblit;
    [|rewrite blit_ok in Hblit by lia; done|rewrite blit_ok in Hblit by lia; done].
  assert (blitted (blk_data b) (p_off p) src 0 m d) as [Hd Hpre _ _].
  { pose proof (blit_wpo (blk_data b) src (p_off p) 0 m (blitted (blk_data b) (p_off p) src 0 m)) as Hw.
    rewrite Hblit in Hw. apply Hw; done || lia. }
  simpl. change (mk_block d _ _ _) with (set_data b d).
  destruct (set_data_wf _ _ _ _ d Hwf Hj Hd) as [Hwf' Hlater].
  eexists. split; [done|]. split; [done|].
  assert (∀ q k, (q, k) ∈ (p, n) :: rs → ∃ i c, blocks a !! i = Some c ∧ blk_num c = p_block q
    ∧ 0 <= p_off q
    ∧ load_bytes (blocks a) q k = Ret (take (Z.to_nat k) (drop (Z.to_nat (p_off q)) (blk_data c)))
    ∧ ∀ k', 0 <= k' <= k → load_bytes (<[j:=set_data b d]> (blocks a)) q k' = Ret (take (Z.to_nat k')
        (drop (Z.to_nat (p_off q)) (blk_data (if decide (i = j) then set_data b d else c))))) as Hload.
  { intros q k Hin. pose proof (region_size _ _ _ Hwf Hin). simpl in *.
    destruct (load_region a _ q k k Hwf Hin ltac:(lia)) as (i & c & Hi & Hcn & Hco & _ & Hld).
    exists i, c. split; [done|]. split; [done|]. split; [done|]. split; [done|]. intros k' Hk'.
    destruct (load_region _ _ q k k' Hwf' Hin Hk') as (i' & c' & Hi' & Hcn' & _ & _ & Hld').
    simpl in Hi', Hld'. rewrite Hld'. pose proof (set_data_lookup _ _ _ d _ _ Hj Hi) as Hlk.
    assert (i = i') as <-.
    { eapply (blk_num_inj _ _ _ _ _ _ Hwf' Hlk Hi'). rewrite Hcn', <- Hcn.
      case_decide; [by simplify_eq|done]. }
    by simplify_eq. }
  split; [|split; [done|]].
  - apply list.Forall_forall. intros [q k] Hr. simpl.
    pose proof (region_size _ _ (q, k) Hwf ltac:(by right)). simpl in *.
    destruct (Hload q k) as (i & c & Hi & Hcn & Hco & -> & Hld); [by right|].
    rewrite Hld by lia. f_equal. case_decide as E; [|done]. simplify_eq. simpl.
    destruct (aw_disjoint _ _ Hwf) as [HF _]. rewrite list.Forall_forall in HF.
    eapply blit_elsewhere; [exact Hblit|done|lia|done|lia|].
    destruct (HF _ Hr) as [Hx|[Hx|Hx]]; simpl in Hx; [congruence|right; lia|left; lia].
  - destruct (Hload p n) as (i & c & Hi & Hcn & _ & _ & Hld); [apply list_elem_of_here|].
    rewrite Hld by lia. assert (i = j) as ->.
    { eapply (blk_num_inj _ _ _ _ _ _ Hwf Hi Hj). congruence. }
    rewrite decide_True by done. simpl. f_equal.
    apply (f_equal (drop (Z.to_nat (p_off p)))) in Hpre.
    rewrite drop_app_length' in Hpre by (rewrite length_take; unfold zlen in *; lia).
    rewrite skipn_firstn_comm in Hpre. rewrite drop_0 in Hpre.
    replace (Z.to_nat (p_off p + m) - Z.to_nat (p_off p))%nat with (Z.to_nat m) in Hpre by lia.
    done.
Qed.

(** * The operations of an arena *)

(** The sizes and counters stay far from overflow. *)
Definition roomy a (size : Z) : Prop :=
  0 < size < 2 ^ 61 ∧ total_allocated a + size + block_size a < 2 ^ 63
  ∧ next_block_num a < 2 ^ 63 - 1.

(** A new arena has one empty block; when the second or third allocation
    fails, what was allocated is released. *)
Theorem ak_arena_new_spec size s :
  0 < size < 2 ^ 62 →
  wp (ak_arena_new size) (λ oa s',
    match oa with
    | Some a => arena_wf a [] ∧ total_allocated a = size ∧ total_used a = 0
        ∧ block_size a = size ∧ balance 3 false s s'
        ∧ wp (ak_arena_free (Some a)) (λ _ s'', m_live s'' = m_live s) s'
    | None => balance 0 true s s'
    end) s.
Proof.
  intros Hsz. unfold ak_arena_new. rewrite (proj2 (Z.eqb_neq size 0)) by lia. wsteps.
  apply wp_alloc_obj. intros [|] s1 H1; simpl; [|wsteps; balance].
  wsteps. apply wp_allocate_block; [lia| |].
  - intros s2 H2. wsteps. apply wp_free_obj. intros s3 HL HF. wsteps. balance.
  - intros d s2 H2 Hd. wsteps. split; [|split; [done|split; [done|split; [done|split; [balance|]]]]].
    + split; simpl; try done; try lia.
      * constructor; [|done]. split; simpl; done || lia.
      * apply NoDup_singleton.
    + simpl. wsteps. apply wp_free_obj. intros s3 HL3 _. wsteps. apply wp_free_obj.
      intros s4 HL4 _. wsteps. apply wp_free_obj. intros s5 HL5 _.
      destruct H1, H2. simpl in *. lia.
Qed.

(** C9: [ak_arena_alloc_aligned] answers a region of the size asked for, at a
    multiple of the alignment in its block, that overlaps no region handed out
    before, whose bytes it leaves alone; it fails only when an allocation does,
    and then changes no block.  An alignment that is not a power of two, or a
    size of zero, is refused. *)
Theorem ak_arena_alloc_aligned_spec a rs size align s :
  arena_wf a rs → roomy a size →
  (is_pow2 align →
     wp (ak_arena_alloc_aligned (Some a) size align) (allocated a rs size align s) s)
  ∧ (0 <= align → align ≠ 2 ^ Z.log2 align →
     ak_arena_alloc_aligned (Some a) size align s = Ret ((None, Some a), s)).
Proof.
  intros Hwf (Hsz & Hroom & Hnum). split; [intros Hal; by apply alloc_ok|].
  intros Ha Hne. unfold ak_arena_alloc_aligned. rewrite (proj2 (Z.eqb_neq size 0)) by lia.
  destruct (Z.eqb_spec align 0) as [|Hz]; [done|]. simpl.
  destruct (Z.eqb_spec (Z.land align (align - 1)) 0) as [E|]; [|done].
  exfalso. apply Hne, pow2_test; [lia|done].
Qed.

(** The test for room in the current block wraps around: for a size close to
    2^64 the block is found large enough, and the arena hands out a pointer to
    fewer bytes than asked for, the next allocations overlapping the earlier
    ones. *)
Theorem ak_arena_alloc_overflow a rs b size s :
  arena_wf a rs → blocks a !! current_block a = Some b → 8 <= blk_used b → (8 | blk_used b) →
  2 ^ 64 - blk_used b <= size < 2 ^ 64 →
  ∃ a' b', ak_arena_alloc (Some a) size s = Ret ((Some (mk_ptr (blk_num b) (blk_used b)), Some a'), s)
    ∧ blocks a' !! current_block a' = Some b' ∧ blk_used b' = blk_used b + size - 2 ^ 64
    ∧ blk_used b' < blk_used b.
Proof.
  intros Hwf Hb Hu8 [q Hdiv] Hsz. unfold ak_arena_alloc, ak_arena_alloc_aligned,
    AK_ARENA_DEFAULT_ALIGNMENT. pose proof (wf_nth _ _ _ _ Hwf Hb) as [_ Hu _].
  pose proof (block_size_le _ _ _ _ Hwf Hb). pose proof (aw_total_allocated _ _ Hwf).
  assert (align_up (blk_used b) 8 = blk_used b) as Hal.
  { pose proof (align_up_range (blk_used b) 8 ltac:(lia) ltac:(lia) ltac:(lia)).
    destruct (align_up_divide (blk_used b) 3) as [k Hk]; [lia|lia|lia|].
    change (2 ^ 3) with 8 in Hk. lia. }
  rewrite (proj2 (Z.eqb_neq size 0)) by lia. simpl. rewrite Hb, Hal.
  rewrite (u64_small (blk_used b - blk_used b + size)) by lia.
  assert (u64 (blk_used b + (blk_used b - blk_used b + size)) = blk_used b + size - 2 ^ 64) as Hw.
  { unfold u64. replace (blk_used b + (blk_used b - blk_used b + size))
      with (blk_used b + size - 2 ^ 64 + 1 * 2 ^ 64) by lia.
    rewrite Z.mod_add by lia. rewrite Z.mod_small; lia. }
  rewrite Hw, (proj2 (Z.ltb_ge (blk_size b) _)) by lia.
  do 2 eexists. split; [done|]. simpl. split; [apply list_lookup_insert_eq, Hwf|]. simpl.
  assert (u64 (blk_used b + size) = blk_used b + size - 2 ^ 64) as ->; [|lia].
  rewrite <- Hw. f_equal. lia.
Qed.

(** ** Snapshots over a history of allocations *)

(** Allocations, successful or not. *)
Inductive arena_step : ak_arena_t * list region → ak_arena_t * list region → Prop :=
| step_alloc a rs size align s p a' s' :
    roomy a size → is_pow2 align →
    ak_arena_alloc_aligned (Some a) size align s = Ret ((p, Some a'), s') →
    arena_step (a, rs) (a', match p with Some p => (p, size) :: rs | None => rs end).

Lemma steps_later a rs a' rs' :
  arena_wf a rs → rtc arena_step (a, rs) (a', rs') →
  arena_wf a' rs' ∧ later a a' ∧ same_bytes rs a a' ∧ block_size a' = block_size a
  ∧ ∃ new, rs' = new ++ rs.
Proof.
  intros Hwf Hsteps. remember (a, rs) as c eqn:Ec. remember (a', rs') as c' eqn:Ec'.
  revert a rs Hwf Ec. induction Hsteps as [c|c1 c2 c3 Hstep Hsteps IH]; intros a rs Hwf ->.
  - simplify_eq. split; [done|]. split; [apply later_refl|]. split; [|split; [done|by exists []]].
    apply list.Forall_forall. done.
  - inversion Hstep as [a0 rs0 size align s p a1 s' (Hsz & Hroom & Hnum) Hal Heq]; subst.
    pose proof (alloc_ok a rs size align s Hwf Hsz Hal Hroom Hnum) as Hw.
    unfold wp in Hw. rewrite Heq in Hw. destruct Hw as (a2 & [= <-] & Hl & Hbs & Hr). simpl in Hr.
    assert (arena_wf a1 (match p with Some p => (p, size) :: rs | None => rs end)
      ∧ same_bytes rs a a1) as [Hwf1 Hsame].
    { destruct p as [p|]; [by destruct Hr as (? & ? & _)|]. destruct Hr as (? & He & _).
      split; [done|]. apply list.Forall_forall. intros r _. by rewrite He. }
    destruct (IH eq_refl a1 _ Hwf1 eq_refl) as (Hwf' & Hl' & Hsame' & Hbs' & new & ->).
    split; [done|]. split; [by eapply later_trans|]. split; [|split; [congruence|]].
    + apply list.Forall_forall. intros r Hr'. unfold same_bytes in *.
      rewrite list.Forall_forall in Hsame, Hsame'. rewrite <- (Hsame r Hr'). apply Hsame'.
      destruct p; [by right|done].
    + destruct p as [p|]; [exists (new ++ [(p, size)]); by rewrite <- app_assoc|by exists new].
Qed.

(** Restoring a snapshot after any history of allocations brings back the
    regions that were live when it was taken, with their bytes, and the number
    of used bytes; everything allocated since is free again. *)
Theorem ak_arena_restore_spec a rs a' rs' mark :
  arena_wf a rs → ak_arena_snapshot (Some a) = Ret mark →
  rtc arena_step (a, rs) (a', rs') →
  ∃ a'', ak_arena_restore (Some a') mark = Some a'' ∧ arena_wf a'' rs
    ∧ total_used a'' = total_used a ∧ total_allocated a'' = total_allocated a'
    ∧ current_block a'' = current_block a ∧ same_bytes rs a a''.
Proof.
  intros Hwf Hsnap Hsteps.
  destruct (steps_later _ _ _ _ Hwf Hsteps) as (Hwf' & Hl & Hsame & _ & new & ->).
  destruct (restore_wf _ _ _ _ _ Hwf Hwf' Hl Hsnap) as (a'' & Hr & Hwf'' & Htu & Hta & Hc & Hkeep).
  exists a''. split; [done|]. split; [done|]. split; [done|]. split; [done|]. split; [done|].
  apply list.Forall_forall. intros r Hr'. unfold same_bytes in Hsame.
  rewrite list.Forall_forall in Hsame. rewrite <- (Hsame r Hr').
  pose proof (aw_regions _ _ Hwf) as HF. rewrite list.Forall_forall in HF.
  destruct (HF r Hr') as (j & b & Hj & Hin). pose proof (region_index _ _ _ _ _ Hwf Hin Hj) as Hle.
  assert (∃ b', blocks a' !! j = Some b' ∧ blk_num b' = blk_num b) as (b' & Hb' & Hn').
  { destruct (decide (j = current_block a)) as [->|Hne].
    - destruct (la_block _ _ Hl b Hj) as (b' & ? & ? & _). by exists b'.
    - destruct (la_before _ _ Hl j b ltac:(lia) Hj) as (b' & ? & He). exists b'.
      unfold shape in He. by simplify_eq. }
  destruct (Hkeep j b' Hle Hb') as (b'' & Hb'' & Hn'' & Hd''). destruct Hin as [Hbn _].
  rewrite (load_at _ _ _ _ _ (aw_nums _ _ Hwf'') Hb'') by congruence.
  rewrite (load_at _ _ _ _ _ (aw_nums _ _ Hwf') Hb') by congruence. by rewrite Hd''.
Qed.

(** ** Moving and growing *)

Lemma wf_weaken a r rs : arena_wf a (r :: rs) → arena_wf a rs.
Proof.
  intros [? ? ? ? ? ? ? ? Hrg [_ Hdj]]. apply Forall_cons_1 in Hrg as [_ Hrg]. by split.
Qed.

(** The last region of the current block can grow. *)
Lemma grow_last_ok a rs b q old new :
  arena_wf a ((q, old) :: rs) → blocks a !! current_block a = Some b → p_block q = blk_num b →
  p_off q + old = blk_used b → old < new → blk_used b + (new - old) <= blk_size b →
  let a' := mk_arena (<[current_block a := set_used b (blk_used b + (new - old))]> (blocks a))
              (current_block a) (block_size a) (total_allocated a)
              (u64 (total_used a + (new - old))) (next_block_num a) in
  arena_wf a' ((q, new) :: rs) ∧ same_bytes rs a a'
  ∧ (∀ k, load_bytes (blocks a') q k = load_bytes (blocks a) q k).
Proof.
  intros Hwf Hb Hq Hend Hnew Hfit a'.
  pose proof (region_size _ _ (q, old) Hwf ltac:(apply list_elem_of_here)) as Hold. simpl in Hold.
  destruct (load_region a _ q old old Hwf) as (j & c & Hj & Hcn & Ho & _ & _);
    [apply list_elem_of_here|lia|].
  assert (arena_wf a' ((q, new) :: rs)) as Hwf'.
  { pose proof (wf_grow a rs b (blk_used b + (new - old)) [(q, new)]) as Hg.
    replace (blk_used b + (new - old) - blk_used b) with (new - old) in Hg by lia.
    apply Hg; [by eapply wf_weaken|done|lia| |].
    - constructor; [|done]. by split_and!; simpl; try lia.
    - pose proof (aw_disjoint _ _ Hwf) as [HF Hdj]. split; [|done].
      rewrite list.Forall_forall in HF |- *. intros r Hr.
      pose proof (aw_regions _ _ Hwf) as HR. rewrite list.Forall_forall in HR.
      destruct (HR r) as (i & d & Hi & F1 & F2 & F3 & F4); [by right|].
      destruct (HF r Hr) as [Hd|[Hd|Hd]]; simpl in Hd; unfold disjoint; simpl.
      + by left.
      + destruct (decide (p_block q = p_block r.1)) as [E|E]; [|by left].
        assert (i = current_block a) as -> by (eapply (blk_num_inj a); eauto; congruence).
        simplify_eq. lia.
      + by right; right. }
  pose proof (wf_weaken _ _ _ Hwf) as Hwf0.
  assert (∀ i d, blocks a !! i = Some d → ∃ d', blocks a' !! i = Some d' ∧
    blk_num d' = blk_num d ∧ blk_data d' = blk_data d) as Hkeep.
  { intros i d Hi. simpl. destruct (decide (i = current_block a)) as [->|Hne].
    - simplify_eq. eexists. split; [apply list_lookup_insert_eq, Hwf|done].
    - rewrite list_lookup_insert_ne by done. eauto. }
  split; [done|]. split.
  - apply same_bytes_intro; [done|apply Hwf'|]. intros i d _ Hi. by apply Hkeep.
  - intros k. destruct (Hkeep _ _ Hb) as (b' & Hb' & Hn' & Hd').
    rewrite (load_at _ _ _ _ _ (aw_nums _ _ Hwf') Hb') by congruence.
    rewrite (load_at _ _ _ _ _ (aw_nums _ _ Hwf) Hb) by congruence. by rewrite Hd'.
Qed.

(** Reallocating a region to a smaller size keeps it; to a larger one, it
    grows in place when it is the last one and there is room, and otherwise its
    bytes are copied to a new region, the old one keeping them too.  In every
    case the bytes up to the old size are at the pointer answered, and no other
    region changes. *)
Theorem ak_arena_realloc_spec a rs q old new s :
  arena_wf a ((q, old) :: rs) → roomy a new →
  wp (ak_arena_realloc (Some a) (Some q) old new) (λ '(p, oa) s', ∃ a', oa = Some a' ∧
    match p with
    | Some p =>
        load_bytes (blocks a') p (Z.min old new) = load_bytes (blocks a) q (Z.min old new)
        ∧ same_bytes rs a a'
        ∧ ((new <= old ∧ p = q ∧ a' = a)
           ∨ (old < new ∧ p = q ∧ arena_wf a' ((q, new) :: rs))
           ∨ (old < new ∧ arena_wf a' ((p, new) :: (q, old) :: rs)))
    | None => arena_wf a' ((q, old) :: rs) ∧ blocks a' = blocks a ∧ (m_fails s < m_fails s')%nat
    end) s.
Proof.
  intros Hwf (Hsz & Hroom & Hnum). unfold ak_arena_realloc.
  pose proof (region_size _ _ (q, old) Hwf ltac:(apply list_elem_of_here)) as Hold. simpl in Hold.
  rewrite (proj2 (Z.eqb_neq new 0)) by lia.
  destruct (Z.leb_spec new old) as [Hle|Hlt].
  { wsteps. exists a. split; [done|]. split; [done|]. split; [|by left].
    apply list.Forall_forall. done. }
  rewrite Z.min_l by lia.
  destruct (lookup_lt_is_Some_2 _ _ (aw_current _ _ Hwf)) as [b Hb]. rewrite Hb.
  pose proof (wf_nth _ _ _ _ Hwf Hb) as [_ Hu _]. pose proof (aw_total_allocated _ _ Hwf).
  pose proof (block_size_le _ _ _ _ Hwf Hb). pose proof (aw_size _ _ Hwf).
  destruct ((p_block q =? blk_num b) && (p_off q + old =? blk_used b)
    && (u64 (blk_used b + (new - old)) <=? blk_size b)) eqn:E.
  - rewrite u64_small in E |- * by lia.
    rewrite !andb_true_iff, !Z.eqb_eq, Z.leb_le in E. destruct E as [[E1 E2] E3].
    destruct (grow_last_ok a rs b q old new Hwf Hb E1 E2 Hlt E3) as (Hwf' & Hsame & Hload).
    wsteps. eexists. split; [done|]. split; [apply Hload|]. split; [done|]. by right; left.
  - wsteps. eapply wp_mono; [apply (alloc_ok a ((q, old) :: rs)); [done|done| |done|done]|].
    { by exists 3. }
    intros [p oa] s1 (a1 & Hoa & Hlater & _ & Hr). cbn [fst snd] in Hoa, Hr. subst oa.
    destruct p as [p|].
    2:{ wsteps. exists a1. split; [done|]. destruct Hr as (? & ? & _ & [_ ?] & _). done. }
    destruct Hr as (Hwf1 & Hsame1 & _). unfold same_bytes in Hsame1.
    rewrite list.Forall_forall in Hsame1.
    destruct (load_region a1 _ q old old Hwf1) as (j & c & Hj & Hcn & Ho & Hin & Hld);
      [by right; left|lia|].
    wsteps. rewrite Hld. wsteps.
    set (src := take (Z.to_nat old) (drop (Z.to_nat (p_off q)) (blk_data c))) in *.
    assert (zlen src = old) as Hsl.
    { subst src. rewrite zlen_take; [done|]. rewrite zlen_drop; lia. }
    unfold fill. destruct (store_ok a1 _ p new src old Hwf1 ltac:(lia) ltac:(lia))
      as (bs & -> & Hwf2 & Hsame2 & _ & Hld2).
    simpl. eexists. split; [done|]. split; [|split; [|by right; right]].
    + simpl. rewrite Hld2. pose proof (Hsame1 (q, old) ltac:(apply list_elem_of_here)) as Hq.
      simpl in Hq. rewrite <- Hq, Hld. f_equal. apply take_ge. unfold zlen in Hsl. lia.
    + apply list.Forall_forall. intros r Hr. unfold same_bytes in Hsame2.
      rewrite list.Forall_forall in Hsame2. rewrite <- (Hsame1 r) by (by right).
      apply Hsame2. by right.
Qed.

(** ** Filled regions *)

Lemma alloc_fill_ok a rs size src m s :
  arena_wf a rs → roomy a size → 0 <= m <= size → m <= zlen src →
  wp (r ← ak_arena_alloc (Some a) size; lift (fill r src m)) (λ '(p, oa) s', ∃ a', oa = Some a' ∧
    match p with
    | Some p => arena_wf a' ((p, size) :: rs) ∧ same_bytes rs a a'
        ∧ load_bytes (blocks a') p m = Ret (take (Z.to_nat m) src)
    | None => arena_wf a' rs ∧ blocks a' = blocks a ∧ (m_fails s < m_fails s')%nat
    end) s.
Proof.
  intros Hwf (Hsz & Hroom & Hnum) Hm Hsrc. wsteps.
  eapply wp_mono; [apply (alloc_ok a rs); [done|done| |done|done]|].
  { by exists 3. }
  intros [p oa] s1 (a1 & Hoa & Hlater & _ & Hr). cbn [fst snd] in Hoa, Hr. subst oa.
  wsteps. destruct p as [p|]; simpl.
  - destruct Hr as (Hwf1 & Hsame1 & _).
    destruct (store_ok a1 rs p size src m Hwf1 Hm Hsrc) as (bs & -> & Hwf2 & Hsame2 & _ & Hld).
    simpl. eexists. split; [done|]. split; [done|]. split; [|done].
    unfold same_bytes in *. rewrite list.Forall_forall in *. intros r Hr'.
    rewrite <- (Hsame1 r Hr'). by apply Hsame2.
  - exists a1. split; [done|]. destruct Hr as (? & ? & _ & [_ ?] & _). done.
Qed.

(** [ak_arena_calloc] answers a region of zeroes, refusing a size that
    overflows; [ak_arena_strdup] one that holds the string and its terminator;
    both leave the other regions alone. *)
Theorem ak_arena_fill_spec a rs nmemb size l rest s :
  arena_wf a rs → 0 < nmemb < 2 ^ 64 → 0 < size < 2 ^ 64 →
  (2 ^ 64 <= nmemb * size →
     ak_arena_calloc (Some a) nmemb size s = Ret ((None, Some a), s))
  ∧ (roomy a (nmemb * size) →
     wp (ak_arena_calloc (Some a) nmemb size) (λ '(p, oa) _, ∀ p', p = Some p' → ∃ a',
       oa = Some a' ∧ arena_wf a' ((p', nmemb * size) :: rs) ∧ same_bytes rs a a'
       ∧ load_bytes (blocks a') p' (nmemb * size)
         = Ret (replicate (Z.to_nat (nmemb * size)) 0)) s)
  ∧ (roomy a (zlen l + 1) → Forall (λ c, c ≠ 0) l →
     wp (ak_arena_strdup (Some a) (Some (l ++ 0 :: rest))) (λ '(p, oa) _, ∀ p', p = Some p' →
       ∃ a', oa = Some a' ∧ arena_wf a' ((p', zlen l + 1) :: rs) ∧ same_bytes rs a a'
       ∧ load_bytes (blocks a') p' (zlen l + 1) = Ret (l ++ [0])) s).
Proof.
  intros Hwf Hn Hs. split; [|split].
  - intros Hover. unfold ak_arena_calloc.
    rewrite (proj2 (Z.eqb_neq nmemb 0)), (proj2 (Z.eqb_neq size 0)) by lia. simpl.
    assert (u64 (nmemb * size) / nmemb < size) as Hlt.
    { apply Z.div_lt_upper_bound; [lia|]. unfold u64.
      pose proof (Z.mod_pos_bound (nmemb * size) (2 ^ 64) ltac:(lia)). lia. }
    by rewrite (proj2 (Z.eqb_neq _ size)) by lia.
  - intros Hroom. pose proof Hroom as (Hsz & _). unfold ak_arena_calloc.
    rewrite (proj2 (Z.eqb_neq nmemb 0)), (proj2 (Z.eqb_neq size 0)), u64_small by lia.
    rewrite Z.mul_comm, Z.div_mul, Z.eqb_refl by lia. rewrite (Z.mul_comm size). simpl.
    eapply wp_mono.
    { apply (alloc_fill_ok a rs); [done|done|lia|]. unfold zlen. rewrite length_replicate. lia. }
    intros [p oa] s1 (a' & -> & Hr) p' ->. destruct Hr as (H1 & H2 & H3).
    exists a'. split; [done|]. split; [done|]. split; [done|]. rewrite H3. f_equal.
    apply take_ge. rewrite length_replicate. lia.
  - intros Hroom HF. pose proof Hroom as (Hsz & _). unfold ak_arena_strdup.
    rewrite (strlen_ok _ l); [|rewrite drop_app_ge by lia|done].
    2:{ replace (S (length l) - length l)%nat with 1%nat by lia. done. }
    simpl lift. apply wp_bind. unfold wp at 1. cbn [lift]. rewrite u64_small by lia.
    eapply wp_mono.
    { apply (alloc_fill_ok a rs); [done|done|lia|]. rewrite zlen_app, zlen_cons.
      pose proof (zlen_nonneg rest). lia. }
    intros [p oa] s1 (a' & -> & Hr) p' ->. destruct Hr as (H1 & H2 & H3).
    exists a'. split; [done|]. split; [done|]. split; [done|]. rewrite H3. f_equal.
    replace (Z.to_nat (zlen l + 1)) with (length l + 1)%nat by (unfold zlen; lia).
    by rewrite take_app_add.
Qed.
End proofs.

(** * Witnesses *)

Section witnesses.
#[local] Existing Instance always_alloc.

(** An arena with one region of 16 bytes. *)
Definition wblock : arena_block_t := mk_block (replicate 64 7) 64 16 0.
Definition warena : ak_arena_t := mk_arena [wblock] 0 64 64 16 1.
Definition wregion : region := (mk_ptr 0 0, 16).

Lemma warena_wf : arena_wf warena [wregion].
Proof.
  split; simpl; try done; try lia.
  - constructor; [|done]. split; simpl; done || lia.
  - apply NoDup_singleton.
  - constructor; [|done]. exists 0%nat, wblock. split; [done|]. by split_and!; simpl; try lia.
Qed.

Lemma warena_roomy n : 0 < n < 2 ^ 60 → roomy warena n.
Proof. intros Hn. split_and!; simpl; lia. Qed.

Lemma ak_arena_new_spec_witness :
  wp (ak_arena_new 64) (λ oa _, ∀ a, oa = Some a → total_used a = 0) mem0.
Proof.
  eapply wp_mono; [apply (ak_arena_new_spec 64 mem0); lia|].
  intros oa s' H a ->. apply H.
Defined.

Lemma ak_arena_alloc_aligned_spec_witness :
  wp (ak_arena_alloc_aligned (Some warena) 10 32) (λ '(p, oa) _, ∀ p', p = Some p' → ∃ a',
    oa = Some a' ∧ arena_wf a' [(p', 10); wregion]) mem0.
Proof.
  destruct (ak_arena_alloc_aligned_spec warena [wregion] 10 32 mem0 warena_wf) as [H _];
    [apply warena_roomy; lia|].
  eapply wp_mono; [apply H; by exists 5|].
  intros [p oa] s' (a' & Hoa & _ & _ & Hr) p' ->. simpl in Hoa, Hr. subst oa. exists a'. split; [done|]. by destruct Hr.
Defined.

Lemma ak_arena_alloc_overflow_witness :
  ∃ a' b', ak_arena_alloc (Some warena) (2 ^ 64 - 8) mem0 = Ret ((Some (mk_ptr 0 16), Some a'), mem0)
    ∧ blocks a' !! current_block a' = Some b' ∧ blk_used b' = 8.
Proof.
  destruct (ak_arena_alloc_overflow warena [wregion] wblock (2 ^ 64 - 8) mem0 warena_wf)
    as (a' & b' & H1 & H2 & H3 & _); [done|simpl; lia|by exists 2|simpl; lia|].
  exists a', b'. split; [exact H1|]. split; [exact H2|]. exact H3.
Defined.

Lemma ak_arena_restore_spec_witness :
  ∃ a' a'', (∃ rs', rtc arena_step (warena, [wregion]) (a', rs') ∧ rs' ≠ [wregion])
    ∧ ak_arena_restore (Some a') (mk_mark (Some 0) 16 0) = Some a''
    ∧ arena_wf a'' [wregion] ∧ total_used a'' = 16.
Proof.
  eexists. eassert (rtc arena_step (warena, [wregion]) _) as Hst.
  { eapply rtc_once, (step_alloc warena [wregion] 100 8 mem0 (Some (mk_ptr 1 0)));
      [apply warena_roomy; lia|by exists 3|].
    vm_compute. reflexivity. }
  destruct (ak_arena_restore_spec warena [wregion] _ _ (mk_mark (Some 0) 16 0) warena_wf eq_refl Hst)
    as (a'' & Hr & Hwf & Hu & _).
  exists a''. split; [eexists; split; [exact Hst|done]|]. split; [exact Hr|]. split; [exact Hwf|exact Hu].
Defined.

Lemma ak_arena_realloc_spec_witness :
  wp (ak_arena_realloc (Some warena) (Some (mk_ptr 0 0)) 16 40) (λ '(p, oa) _,
    ∀ p', p = Some p' → ∃ a', oa = Some a'
      ∧ load_bytes (blocks a') p' 16 = load_bytes (blocks warena) (mk_ptr 0 0) 16) mem0.
Proof.
  eapply wp_mono.
  { apply (ak_arena_realloc_spec warena [] (mk_ptr 0 0) 16 40 mem0);
      [exact warena_wf|apply warena_roomy; lia]. }
  intros [p oa] s' (a' & -> & Hr) p' ->. exists a'. split; [done|]. by destruct Hr as [Hr _].
Defined.

Lemma ak_arena_fill_spec_witness :
  wp (ak_arena_strdup (Some warena) (Some [0x61; 0x62; 0])) (λ '(p, oa) _,
    ∀ p', p = Some p' → ∃ a', oa = Some a' ∧ load_bytes (blocks a') p' 3 = Ret [0x61; 0x62; 0]) mem0.
Proof.
  destruct (ak_arena_fill_spec warena [wregion] 1 1 [0x61; 0x62] [] mem0 warena_wf)
    as (_ & _ & H); [lia|lia|].
  eapply wp_mono; [apply H; [apply warena_roomy; unfold zlen; simpl; lia|repeat constructor; lia]|].
  intros [p oa] s' Hr p' ->. destruct (Hr p' eq_refl) as (a' & -> & _ & _ & Hl).
  by exists a'.
Defined.
End witnesses.
