(* ===== verification/Interns.v ===== *)
(** String interning: [kernel/intern/src/intern.c].

    The table is global state, passed explicitly; every operation runs under
    its lock, so operations are atomic.  An entry owns a copy of its string, at
    an address of its own: the theorems say that two strings get the same
    pointer exactly when they have the same bytes. *)

From S2P Require Import Prelude.

Definition FNV_OFFSET_BASIS : Z := 14695981039346656037.
Definition FNV_PRIME : Z := 1099511628211.
Definition INITIAL_TABLE_SIZE : Z := 1024.
Definition sizeof_intern_entry_t : Z := 32.

(** [e_str] is the address of the copy, [e_bytes] what it holds before the
    terminator. *)
Record intern_entry_t := mk_entry {
  e_str : positive;
  e_bytes : list Z;
  e_len : Z;
  e_hash : Z;
}.

(** [next_str] stands for the allocator's supply of addresses: no two live
    copies share one. *)
Record intern_table_t := mk_table {
  buckets : list (list intern_entry_t);
  bucket_count : Z;
  string_count : Z;
  total_bytes : Z;
  initialized : bool;
  next_str : positive;
}.

(** The zeroed global. *)
Definition g_intern_table : intern_table_t := mk_table [] 0 0 0 false 1.

Definition hash_string (str : list Z) (len : Z) : outcome Z :=
  loop (S (Z.to_nat len)) (λ '(hash, i),
    if i <? len then
      c ← rd str i;
      Ret (inl (u64 (Z.lxor hash c * FNV_PRIME), i + 1))
    else Ret (inr hash)) (FNV_OFFSET_BASIS, 0).

Definition bucket_idx (t : intern_table_t) (hash : Z) : Z :=
  Z.land hash (u64 (bucket_count t - 1)).

(** [memcmp(a, b, n) == 0] *)
Definition mem_eq (a b : list Z) (n : Z) : outcome bool :=
  loop (S (Z.to_nat n)) (λ i,
    if i <? n then
      x ← rd a i;
      y ← rd b i;
      if x =? y then Ret (inl (i + 1)) else Ret (inr false)
    else Ret (inr true)) 0.

Fixpoint find_in_chain (chain : list intern_entry_t) (str : list Z) (len hash : Z)
    : outcome (option intern_entry_t) :=
  match chain with
  | [] => Ret None
  | e :: chain =>
      same ← (if (e_hash e =? hash) && (e_len e =? len) then mem_eq (e_bytes e) str len
              else Ret false);
      if same : bool then Ret (Some e) else find_in_chain chain str len hash
  end.

Definition find_entry (t : intern_table_t) (str : list Z) (len hash : Z)
    : outcome (option intern_entry_t) :=
  chain ← rd (buckets t) (bucket_idx t hash);
  find_in_chain chain str len hash.

Section intern.
Context `{Allocator}.

Definition create_entry (t : intern_table_t) (str : list Z) (len hash : Z)
    : M (option intern_entry_t * intern_table_t) :=
  ok ← alloc_obj sizeof_intern_entry_t;
  if negb ok then mret (None, t) else
  str_copy ← alloc_bytes (u64 (len + 1));
  match str_copy with
  | None => _ ← free_obj; mret (None, t)
  | Some d =>
      d ← lift (blit d 0 str 0 len);
      d ← lift (wr d len 0);
      let e := mk_entry (next_str t) (take (Z.to_nat len) d) len hash in
      let idx := bucket_idx t hash in
      chain ← lift (rd (buckets t) idx);
      bs ← lift (wr (buckets t) idx (e :: chain));
      mret (Some e, mk_table bs (bucket_count t) (u64 (string_count t + 1))
                      (u64 (total_bytes t + (len + 1))) (initialized t)
                      (Pos.succ (next_str t)))
  end.

Definition ak_intern_init (t : intern_table_t) : M intern_table_t :=
  if initialized t then mret t else
  ok ← alloc_obj (INITIAL_TABLE_SIZE * 8);
  if negb ok then mret (mk_table [] (bucket_count t) (string_count t) (total_bytes t)
                          (initialized t) (next_str t)) else
  mret (mk_table (replicate (Z.to_nat INITIAL_TABLE_SIZE) []) INITIAL_TABLE_SIZE 0 0 true
          (next_str t)).

(** Every entry and its copy. *)
Fixpoint free_entries (es : list intern_entry_t) : M () :=
  match es with
  | [] => mret ()
  | _ :: es => _ ← free_obj; _ ← free_obj; free_entries es
  end.

Definition ak_intern_shutdown (t : intern_table_t) : M intern_table_t :=
  if negb (initialized t) then mret t else
  _ ← free_entries (concat (buckets t));
  _ ← free_obj;
  mret (mk_table [] 0 0 0 false (next_str t)).

Definition ak_intern_n (t : intern_table_t) (str : option (list Z)) (len : Z)
    : M (option positive * intern_table_t) :=
  match str with
  | None => mret (None, t)
  | Some s =>
      if negb (initialized t) then mret (None, t) else
      hash ← lift (hash_string s len);
      existing ← lift (find_entry t s len hash);
      match existing with
      | Some e => mret (Some (e_str e), t)
      | None =>
          '(e, t) ← create_entry t s len hash;
          mret (e_str <$> e, t)
      end
  end.

Definition ak_intern (t : intern_table_t) (str : option (list Z))
    : M (option positive * intern_table_t) :=
  match str with
  | None => mret (None, t)
  | Some s => len ← lift (strlen s); ak_intern_n t str len
  end.

Definition ak_intern_stats (t : intern_table_t) : Z * Z :=
  if negb (initialized t) then (0, 0) else (string_count t, total_bytes t).

Definition ak_intern_clear (t : intern_table_t) : M intern_table_t :=
  if negb (initialized t) then mret t else
  _ ← free_entries (concat (buckets t));
  mret (mk_table (replicate (length (buckets t)) []) (bucket_count t) 0 0 true (next_str t)).
End intern.

Definition ak_intern_eq (a b : option positive) : bool := bool_decide (a = b).

(** * Well-formed tables *)

(** FNV-1a. *)
Definition fnv (l : list Z) : Z :=
  fold_left (λ hash c, u64 (Z.lxor hash c * FNV_PRIME)) l FNV_OFFSET_BASIS.

Definition entries (t : intern_table_t) : list intern_entry_t := concat (buckets t).

Definition entry_bytes (es : list intern_entry_t) : Z :=
  foldr (λ e acc, e_len e + 1 + acc) 0 es.

Record entry_ok (t : intern_table_t) (i : nat) (e : intern_entry_t) : Prop := {
  eo_hash : e_hash e = fnv (e_bytes e);
  eo_len : e_len e = zlen (e_bytes e);
  eo_place : Z.to_nat (bucket_idx t (e_hash e)) = i;
  eo_addr : (e_str e < next_str t)%positive;
}.

Record table_wf (t : intern_table_t) : Prop := mk_table_wf {
  tw_init : initialized t = true;
  tw_count : bucket_count t = INITIAL_TABLE_SIZE;
  tw_buckets : zlen (buckets t) = INITIAL_TABLE_SIZE;
  tw_entries : ∀ i chain, buckets t !! i = Some chain → Forall (entry_ok t i) chain;
  tw_strs : NoDup (e_str <$> entries t);
  tw_bytes : NoDup (e_bytes <$> entries t);
  tw_string_count : string_count t = u64 (zlen (entries t));
  tw_total_bytes : total_bytes t = u64 (entry_bytes (entries t));
}.

(** The string [l] is interned at [p]. *)
Definition interned (t : intern_table_t) (l : list Z) (p : positive) : Prop :=
  ∃ e, e ∈ entries t ∧ e_bytes e = l ∧ e_str e = p.

Lemma interned_inj t l1 l2 p1 p2 :
  table_wf t → interned t l1 p1 → interned t l2 p2 → p1 = p2 ↔ l1 = l2.
Proof.
  intros Hwf (e1 & H1 & <- & <-) (e2 & H2 & <- & <-).
  apply list_elem_of_lookup in H1 as [i Hi], H2 as [j Hj]. split; intros He.
  - assert (i = j) as <-; [|congruence].
    eapply (NoDup_lookup (e_str <$> entries t)); [apply Hwf|by rewrite list_lookup_fmap, Hi|].
    by rewrite list_lookup_fmap, Hj, He.
  - assert (i = j) as <-; [|congruence].
    eapply (NoDup_lookup (e_bytes <$> entries t)); [apply Hwf|by rewrite list_lookup_fmap, Hi|].
    by rewrite list_lookup_fmap, Hj, He.
Qed.

Lemma hash_string_ok str len :
  0 <= len <= zlen str → hash_string str len = Ret (fnv (take (Z.to_nat len) str)).
Proof.
  intros Hlen. apply wpo_eq. unfold hash_string.
  apply (loop_wpo (λ '(h, i), 0 <= i <= len
      ∧ fold_left (λ hash c, u64 (Z.lxor hash c * FNV_PRIME))
          (drop (Z.to_nat i) (take (Z.to_nat len) str)) h = fnv (take (Z.to_nat len) str))
    (λ '(h, i), Z.to_nat (len - i))); [split; [lia|done]|lia|].
  intros [h i] [Hi Hf]. destruct (Z.ltb_spec i len).
  - wsteps. apply rd_wpo; [lia|]. intros c Hc.
    rewrite (drop_S _ c) in Hf by (by rewrite lookup_take_lt by lia). simpl in Hf.
    split; [|lia]. split; [lia|]. by replace (Z.to_nat (i + 1)) with (S (Z.to_nat i)) by lia.
  - simpl. rewrite <- Hf, drop_ge; [done|]. rewrite length_take. lia.
Qed.

Lemma mem_eq_ok a b n :
  0 <= n → n <= zlen a → n <= zlen b →
  mem_eq a b n = Ret (bool_decide (take (Z.to_nat n) a = take (Z.to_nat n) b)).
Proof.
  intros Hn Ha Hb. apply wpo_eq. unfold mem_eq.
  apply (loop_wpo (λ i, 0 <= i <= n ∧ take (Z.to_nat i) a = take (Z.to_nat i) b)
    (λ i, Z.to_nat (n - i))); [split; [lia|done]|lia|].
  intros i [Hi He]. destruct (Z.ltb_spec i n).
  - wsteps. apply rd_wpo; [lia|]. intros x Hx. wsteps. apply rd_wpo; [lia|]. intros y Hy.
    destruct (Z.eqb_spec x y) as [->|Hne]; simpl.
    + split; [|lia]. split; [lia|]. replace (Z.to_nat (i + 1)) with (S (Z.to_nat i)) by lia.
      by rewrite (take_S_r a _ y), (take_S_r b _ y), He by done.
    + rewrite bool_decide_eq_false_2; [done|]. intros Heq. apply Hne.
      apply (f_equal (.!! Z.to_nat i)) in Heq. rewrite !lookup_take_lt in Heq by lia. congruence.
  - simpl. replace n with i by lia. by rewrite bool_decide_eq_true_2.
Qed.

Lemma bucket_idx_range t h : table_wf t → 0 <= bucket_idx t h < INITIAL_TABLE_SIZE.
Proof.
  intros Hwf. unfold bucket_idx. rewrite (tw_count _ Hwf).
  change (u64 (INITIAL_TABLE_SIZE - 1)) with (Z.ones 10). rewrite Z.land_ones by lia.
  change INITIAL_TABLE_SIZE with (2 ^ 10). apply Z.mod_pos_bound. lia.
Qed.

Lemma find_in_chain_ok t i chain str len :
  Forall (entry_ok t i) chain → 0 <= len <= zlen str →
  let l := take (Z.to_nat len) str in
  wpo (find_in_chain chain str len (fnv l)) (λ r,
    match r with
    | Some e => e ∈ chain ∧ e_bytes e = l
    | None => ∀ e, e ∈ chain → e_bytes e ≠ l
    end).
Proof.
  intros HF Hlen l. induction HF as [|e chain [Hh Hl _ _] HF IH]; simpl.
  - intros e He. by apply not_elem_of_nil in He.
  - assert (zlen l = len) as Hll by (by apply zlen_take).
    wsteps. eapply (wpo_mono _ (λ b, b = bool_decide (e_bytes e = l))).
    { destruct ((e_hash e =? fnv l) && (e_len e =? len)) eqn:E.
      - apply andb_true_iff in E as [_ E%Z.eqb_eq]. rewrite mem_eq_ok by lia. simpl.
        rewrite (take_ge (e_bytes e)); [done|]. unfold zlen in *. lia.
      - simpl. rewrite bool_decide_eq_false_2; [done|]. intros He. rewrite Hh, Hl, He, Hll in E.
        by rewrite !Z.eqb_refl in E. }
    intros b ->. case_bool_decide as He; simpl; [split; [apply list_elem_of_here|done]|].
    eapply wpo_mono; [exact IH|]. intros [e'|] Hr.
    + destruct Hr. split; [by right|done].
    + intros e' [->|?]%elem_of_cons; [done|by apply Hr].
Qed.

Lemma entries_lookup t e :
  e ∈ entries t ↔ ∃ i chain, buckets t !! i = Some chain ∧ e ∈ chain.
Proof.
  unfold entries. rewrite list_elem_of_In, in_concat. split.
  - intros (chain & Hc & He). apply list_elem_of_In in Hc, He.
    apply list_elem_of_lookup in Hc as [i Hi]. eauto.
  - intros (i & chain & Hi & He). exists chain. rewrite <- !list_elem_of_In.
    split; [|done]. by eapply list_elem_of_lookup_2.
Qed.

Lemma find_entry_ok t str len :
  table_wf t → 0 <= len <= zlen str →
  let l := take (Z.to_nat len) str in
  wpo (find_entry t str len (fnv l)) (λ r,
    match r with
    | Some e => e ∈ entries t ∧ e_bytes e = l
    | None => ∀ e, e ∈ entries t → e_bytes e ≠ l
    end).
Proof.
  intros Hwf Hlen l. unfold find_entry. pose proof (bucket_idx_range t (fnv l) Hwf) as Hi.
  wsteps. apply rd_wpo; [by rewrite (tw_buckets _ Hwf)|]. intros chain Hc.
  eapply wpo_mono; [eapply find_in_chain_ok; [by eapply tw_entries|done]|].
  intros [e|] Hr.
  - destruct Hr as [He Hb]. split; [|done]. apply entries_lookup. eauto.
  - intros e (i & chain' & Hc' & He)%entries_lookup Hb.
    pose proof (tw_entries _ Hwf _ _ Hc') as HF. rewrite list.Forall_forall in HF.
    destruct (HF e He) as [Hh _ Hp _]. rewrite Hh, Hb in Hp. subst i. simplify_eq.
    by apply (Hr e).
Qed.

Lemma concat_insert {A} (bs : list (list A)) i chain x :
  bs !! i = Some chain → concat (<[i := x :: chain]> bs) ≡ₚ x :: concat bs.
Proof.
  intros Hi. pose proof (lookup_lt_Some _ _ _ Hi). rewrite insert_take_drop by done.
  rewrite <- (take_drop_middle bs i chain Hi) at 3. rewrite !concat_app. simpl.
  symmetry. apply Permutation_middle.
Qed.

Lemma entry_bytes_perm es es' : es ≡ₚ es' → entry_bytes es = entry_bytes es'.
Proof. induction 1; simpl; lia. Qed.

Section proofs.
Context `{Allocator}.

(** What a new entry makes of the table. *)
Lemma table_wf_add t str len d chain :
  let l := take (Z.to_nat len) str in
  let idx := bucket_idx t (fnv l) in
  let e := mk_entry (next_str t) (take (Z.to_nat len) d) len (fnv l) in
  let t' := mk_table (<[Z.to_nat idx := e :: chain]> (buckets t)) (bucket_count t)
              (u64 (string_count t + 1)) (u64 (total_bytes t + (len + 1))) (initialized t)
              (Pos.succ (next_str t)) in
  table_wf t → 0 <= len <= zlen str → take (Z.to_nat len) d = l →
  buckets t !! Z.to_nat idx = Some chain → (∀ e, e ∈ entries t → e_bytes e ≠ l) →
  table_wf t' ∧ interned t' l (next_str t) ∧ (∀ k p, interned t k p → interned t' k p)
  ∧ entries t' ≡ₚ e :: entries t.
Proof.
  intros l idx e t' Hwf Hlen Hd Hc Hnew.
  assert (entries t' ≡ₚ e :: entries t) as Hperm by (by apply concat_insert).
  assert (zlen l = len) as Hll by (by apply zlen_take).
  assert (∀ e', e' ∈ entries t → (e_str e' < next_str t)%positive) as Hold.
  { intros e' (i & chain' & Hc' & He')%entries_lookup. pose proof (tw_entries _ Hwf _ _ Hc') as HF.
    rewrite list.Forall_forall in HF. by destruct (HF e' He'). }
  split; [|split; [|split; [|done]]].
  - assert (∀ i e', entry_ok t i e' → entry_ok t' i e') as Hmono.
    { intros i e' [? ? ? ?]. split; try done. simpl. lia. }
    destruct Hwf as [Hin Hcnt Hb He Hs Hby Hsc Htb]. split; simpl; try done.
    + by rewrite zlen_insert.
    + intros i chain' Hc'. destruct (decide (i = Z.to_nat idx)) as [->|Hne].
      * rewrite list_lookup_insert_eq in Hc' by (by eapply lookup_lt_Some). simplify_eq.
        constructor.
        -- split; simpl; [by rewrite Hd|by rewrite Hd|done|lia].
        -- eapply Forall_impl; [|exact (He _ _ Hc)]. intros e' He'. by apply Hmono.
      * rewrite list_lookup_insert_ne in Hc' by done.
        eapply Forall_impl; [|exact (He _ _ Hc')]. intros e' He'. by apply Hmono.
    + rewrite Hperm. simpl. apply NoDup_cons_2; [|done].
      intros (e' & E & He')%list_elem_of_fmap. pose proof (Hold e' He'). lia.
    + rewrite Hperm. simpl. apply NoDup_cons_2; [|done].
      intros (e' & E & He')%list_elem_of_fmap. apply (Hnew e' He'). congruence.
    + rewrite Hsc. unfold zlen. rewrite Hperm. simpl length. unfold u64.
      rewrite Zplus_mod_idemp_l. f_equal. lia.
    + rewrite Htb, (entry_bytes_perm _ _ Hperm). simpl. unfold u64.
      rewrite Zplus_mod_idemp_l. f_equal. lia.
  - exists e. split; [|done]. rewrite Hperm. apply list_elem_of_here.
  - intros k p (e' & He' & ? & ?). exists e'. split; [|done]. rewrite Hperm. by right.
Qed.

(** What interning a string answers. *)
Definition intern_answer (t : intern_table_t) (l : list Z) (s : mem)
    (r : option positive * intern_table_t) (s' : mem) : Prop :=
  table_wf r.2 ∧ (∀ k p, interned t k p → interned r.2 k p) ∧
  match r.1 with
  | Some p => interned r.2 l p ∧
      ((interned t l p ∧ r.2 = t ∧ s' = s)
       ∨ ((∀ q, ¬ interned t l q) ∧ balance 2 false s s'
          ∧ zlen (entries r.2) = zlen (entries t) + 1))
  | None => (∀ q, ¬ interned t l q) ∧ r.2 = t ∧ balance 0 true s s'
  end.

Lemma ak_intern_n_ok t str len s :
  table_wf t → 0 <= len <= zlen str → len < 2 ^ 64 - 1 →
  wp (ak_intern_n t (Some str) len) (intern_answer t (take (Z.to_nat len) str) s) s.
Proof.
  intros Hwf Hlen Hsm. unfold ak_intern_n. rewrite (tw_init _ Hwf). simpl.
  set (l := take (Z.to_nat len) str). wsteps. rewrite hash_string_ok by done. wsteps.
  eapply wpo_mono; [by apply find_entry_ok|]. fold l. intros [e|] Hr; wsteps.
  { destruct Hr as [He Hb]. assert (interned t l (e_str e)) as Hi by (by exists e).
    split; [done|]. split; [done|]. split; [done|]. by left. }
  assert (∀ q, ¬ interned t l q) as Hno by (intros q (e & He & Hb & _); by apply (Hr e)).
  unfold create_entry. wsteps. apply wp_alloc_obj. intros [|] s1 H1; simpl.
  2:{ wsteps. split; [done|]. split; [done|]. split; [done|]. split; [done|]. balance. }
  rewrite (u64_small (len + 1)) by lia. wsteps. apply wp_alloc_bytes; [lia| |].
  { intros s2 H2. wsteps. apply wp_free_obj. intros s3 HL HF. wsteps.
    split; [done|]. split; [done|]. split; [done|]. split; [done|]. balance. }
  intros d s2 H2 Hd _. wsteps. apply blit_wpo; [lia|lia|lia|lia|lia|].
  intros d1 [Hd1 Hpre _ _]. wsteps. rewrite wr_ok by lia. wsteps.
  pose proof (bucket_idx_range t (fnv l) Hwf) as Hi.
  apply rd_wpo; [by rewrite (tw_buckets _ Hwf)|]. intros chain Hc. wsteps.
  rewrite wr_ok by (by rewrite (tw_buckets _ Hwf)). wsteps.
  destruct (table_wf_add t str len (<[Z.to_nat len := 0]> d1) chain Hwf Hlen)
    as (Hwf' & Hin & Hkeep & Hperm); [|done|done|].
  { rewrite take_insert_ge by lia. rewrite Z.add_0_l in Hpre. by rewrite Hpre. }
  split; [done|]. split; [done|]. split; [done|]. right. split; [done|]. split; [balance|].
  etrans; [apply (f_equal Z.of_nat), (Permutation_length Hperm)|]. unfold zlen. simpl. lia.
Qed.

(** C35: Interning two strings one after the other answers the same pointer
    exactly when they have the same bytes, so comparing pointers compares
    strings; a null answer means that an allocation failed. *)
Theorem ak_intern_eq_spec t a la b lb s :
  table_wf t → 0 <= la <= zlen a → 0 <= lb <= zlen b → la < 2 ^ 64 - 1 → lb < 2 ^ 64 - 1 →
  wp ('(p, t1) ← ak_intern_n t (Some a) la;
      '(q, t2) ← ak_intern_n t1 (Some b) lb; mret (p, q, t2))
    (λ '(p, q, t2) s', table_wf t2
      ∧ (p ≠ None → q ≠ None →
         ak_intern_eq p q = bool_decide (take (Z.to_nat la) a = take (Z.to_nat lb) b))
      ∧ (p = None ∨ q = None → (m_fails s < m_fails s')%nat)) s.
Proof.
  intros Hwf Ha Hb Hla Hlb. wsteps. eapply wp_mono; [by apply ak_intern_n_ok|].
  intros [p t1] s1 (Hwf1 & _ & H1). cbn [fst snd] in *. wsteps.
  eapply wp_mono; [by apply ak_intern_n_ok|].
  intros [q t2] s2 (Hwf2 & Hkeep & H2). cbn [fst snd] in *. wsteps.
  split; [done|]. split.
  - intros Hp Hq. destruct p as [p|]; [|done]. destruct q as [q|]; [|done].
    destruct H1 as [H1 _], H2 as [H2 _]. apply Hkeep in H1.
    pose proof (interned_inj _ _ _ _ _ Hwf2 H1 H2) as Hiff. unfold ak_intern_eq.
    apply bool_decide_ext. rewrite <- Hiff. split; congruence.
  - assert (m_fails s <= m_fails s1 ∧ m_fails s1 <= m_fails s2)%nat as [Hm1 Hm2].
    { split.
      - destruct p; [destruct H1 as [_ [(_ & _ & ->)|(_ & [_ ?] & _)]]; lia|].
        destruct H1 as (_ & _ & [_ ?]). lia.
      - destruct q; [destruct H2 as [_ [(_ & _ & ->)|(_ & [_ ?] & _)]]; lia|].
        destruct H2 as (_ & _ & [_ ?]). lia. }
    intros [->| ->]; [destruct H1 as (_ & _ & [_ ?])|destruct H2 as (_ & _ & [_ ?])]; lia.
Qed.
Lemma free_entries_ok es s :
  wp (free_entries es) (λ _ s', balance (- (2 * zlen es)) false s s') s.
Proof.
  revert s. induction es as [|e es IH]; intros s; simpl.
  - wsteps. split; [unfold zlen; simpl; lia|done].
  - wsteps. apply wp_free_obj. intros s1 ? ?. wsteps. apply wp_free_obj. intros s2 ? ?.
    eapply wp_mono; [apply IH|]. intros [] s' H'. rewrite zlen_cons. balance.
Qed.

Lemma concat_replicate_nil {A} n : concat (replicate n ([] : list A)) = [].
Proof. by induction n. Qed.

(** A table of empty buckets. *)
Lemma table_wf_empty next :
  let t := mk_table (replicate (Z.to_nat INITIAL_TABLE_SIZE) []) INITIAL_TABLE_SIZE 0 0 true next in
  table_wf t ∧ entries t = [].
Proof.
  intros t. assert (entries t = []) as He by apply concat_replicate_nil. split; [|done].
  split; rewrite ?He; try done; try constructor.
  intros i chain [-> _]%lookup_replicate. constructor.
Qed.

Lemma uninitialized_null t str len :
  initialized t = false → ak_intern_n t str len = mret (None, t).
Proof. intros H0. unfold ak_intern_n. destruct str; [by rewrite H0|done]. Qed.

(** The life of the table.  Initialising the zeroed table makes an empty
    one, or fails and leaves interning off; the counters are those of the
    strings held; clearing frees every entry and its copy and keeps the table;
    shutting down frees the table as well, after which every call answers null. *)
Theorem ak_intern_lifecycle_spec t s :
  wp (ak_intern_init g_intern_table) (λ t' s',
    (table_wf t' ∧ entries t' = [] ∧ balance 1 false s s')
    ∨ (t' = g_intern_table ∧ balance 0 true s s')) s
  ∧ (initialized t = false → ak_intern_stats t = (0, 0)
     ∧ ∀ str len, ak_intern_n t str len = mret (None, t))
  ∧ (table_wf t →
     ak_intern_stats t = (u64 (zlen (entries t)), u64 (entry_bytes (entries t)))
     ∧ ak_intern_init t = mret t
     ∧ wp (ak_intern_clear t) (λ t' s', table_wf t' ∧ entries t' = []
          ∧ balance (- (2 * zlen (entries t))) false s s') s
     ∧ wp (ak_intern_shutdown t) (λ t' s', initialized t' = false
          ∧ balance (- (2 * zlen (entries t) + 1)) false s s') s).
Proof.
  split; [|split].
  - unfold ak_intern_init. simpl. wsteps. apply wp_alloc_obj. intros [|] s1 H1; wsteps.
    + left. destruct (table_wf_empty 1) as [? ?]. split; [done|]. split; [done|]. balance.
    + right. split; [done|]. balance.
  - intros H0. split; [unfold ak_intern_stats; by rewrite H0|].
    intros str len. by apply uninitialized_null.
  - intros Hwf. pose proof (tw_init _ Hwf) as Hi. split; [|split; [|split]].
    + unfold ak_intern_stats. rewrite Hi. simpl. by rewrite (tw_string_count _ Hwf),
        (tw_total_bytes _ Hwf).
    + unfold ak_intern_init. by rewrite Hi.
    + unfold ak_intern_clear. rewrite Hi. simpl. wsteps.
      eapply wp_mono; [apply free_entries_ok|]. intros [] s1 H1. wsteps.
      pose proof (tw_buckets _ Hwf) as Hb. unfold zlen in Hb.
      replace (length (buckets t)) with (Z.to_nat INITIAL_TABLE_SIZE) by lia.
      rewrite (tw_count _ Hwf). destruct (table_wf_empty (next_str t)) as [? ?].
      split; [done|]. split; [done|]. exact H1.
    + unfold ak_intern_shutdown. rewrite Hi. simpl. wsteps.
      eapply wp_mono; [apply free_entries_ok|]. intros [] s1 H1. wsteps.
      apply wp_free_obj. intros s2 ? ?. wsteps. split; [done|]. unfold entries. balance.
Qed.
End proofs.

(** * Witnesses *)

Section witnesses.
#[local] Existing Instance always_alloc.

Definition wtable : intern_table_t :=
  mk_table (replicate (Z.to_nat INITIAL_TABLE_SIZE) []) INITIAL_TABLE_SIZE 0 0 true 1.

Lemma wtable_wf : table_wf wtable.
Proof. apply table_wf_empty. Qed.

Lemma ak_intern_eq_spec_witness :
  wp ('(p, t1) ← ak_intern_n wtable (Some [97; 98; 99]) 2;
      '(q, t2) ← ak_intern_n t1 (Some [97; 98; 100]) 2; mret (p, q, t2))
    (λ '(p, q, _) _, p ≠ None → q ≠ None → ak_intern_eq p q = true) mem0.
Proof.
  eapply wp_mono; [apply (ak_intern_eq_spec wtable [97; 98; 99] 2 [97; 98; 100] 2 mem0 wtable_wf);
    vm_compute; try done; split; done|].
  intros [[p q] t2] s' (_ & H & _). exact H.
Defined.

Lemma ak_intern_lifecycle_spec_witness :
  ak_intern_stats g_intern_table = (0, 0)
  ∧ wp (ak_intern_shutdown wtable) (λ t' s', initialized t' = false
      ∧ balance (-1) false mem0 s') mem0.
Proof.
  split.
  - destruct (ak_intern_lifecycle_spec g_intern_table mem0) as (_ & H & _).
    destruct (H eq_refl) as [Hs _]. exact Hs.
  - destruct (ak_intern_lifecycle_spec wtable mem0) as (_ & _ & H).
    destruct (H wtable_wf) as (_ & _ & _ & Hs). exact Hs.
Defined.
End witnesses.
