(* ===== verification/Sourceloc.v ===== *)
(** Source locations: [kernel/sourceloc/src/sourceloc.c].

    A source file is a reference-counted object, addressed by a pointer; the
    module also counts the live files and their bytes in a global, and interns
    file names ([Interns]).  The reference for lines is [split_lines]: the
    text cut after every line feed but one that ends the text. *)

From stdpp Require Import gmap.
From S2P Require Import Prelude Interns.

(** [line_starts] is a block of [uint32_t]; [None] is a word not written yet. *)
Record ak_source_file_s := mk_file {
  filename : positive;
  contents : list Z;
  length_ : Z;
  line_starts : list (option Z);
  line_count : Z;
  ref_count : Z;
}.

Record sourceloc_system_t := mk_system {
  file_count : Z;
  sl_total_bytes : Z;
  sl_initialized : bool;
}.

(** The two globals and the live files. *)
Record world := mk_world {
  w_table : intern_table_t;
  w_system : sourceloc_system_t;
  w_files : gmap positive ak_source_file_s;
  w_next : positive;
}.

Record ak_source_loc_t := mk_loc {
  file : option positive;
  line : Z;
  column : Z;
  offset : Z;
}.

Record ak_source_range_t := mk_range {
  start : ak_source_loc_t;
  end_ : ak_source_loc_t;
}.

Definition sizeof_ak_source_file_t : Z := 88.
Definition LF : Z := 10.
Definition CR : Z := 13.

(** A write of [*file] or of the statistics. *)
Definition with_file (w : world) (p : positive) (f : ak_source_file_s) : world :=
  mk_world (w_table w) (w_system w) (<[p := f]> (w_files w)) (w_next w).
Definition with_system (w : world) (sys : sourceloc_system_t) : world :=
  mk_world (w_table w) sys (w_files w) (w_next w).

(** [*file]: using a released file is undefined. *)
Definition deref_file (w : world) (p : positive) : outcome ak_source_file_s :=
  match w_files w !! p with
  | Some f => Ret f
  | None => Undef
  end.

(** A word of [line_starts]: reading one that was not written is undefined. *)
Definition rd_start (starts : list (option Z)) (i : Z) : outcome Z :=
  v ← rd starts i;
  match v with
  | Some x => Ret x
  | None => Undef
  end.

(** The bytes [str[base], ..., str[base + byte_len - 1]]. *)
Definition utf8_strlen (str : list Z) (base byte_len : Z) : outcome Z :=
  loop (S (Z.to_nat byte_len)) (λ '(count, s),
    if s <? byte_len then
      c ← rd str (base + s);
      if c =? 0 then Ret (inr count) else
      let count := u64 (count + 1) in
      if Z.land c 128 =? 0 then Ret (inl (count, s + 1))
      else if Z.land c 224 =? 192 then Ret (inl (count, s + 2))
      else if Z.land c 240 =? 224 then Ret (inl (count, s + 3))
      else if Z.land c 248 =? 240 then Ret (inl (count, s + 4))
      else Ret (inl (count, s + 1))
    else Ret (inr count)) (0, 0).

(** [file->contents[i] == '\n' && i + 1 < file->length] *)
Definition line_break (text : list Z) (len i : Z) : outcome bool :=
  c ← rd text i; Ret ((c =? LF) && (i + 1 <? len)).

Definition count_lines (text : list Z) (len : Z) : outcome Z :=
  loop (S (Z.to_nat len)) (λ '(line_count, i),
    if i <? len then
      b ← line_break text len i;
      Ret (inl (if b : bool then u32 (line_count + 1) else line_count, i + 1))
    else Ret (inr line_count)) (1, 0).

Definition fill_starts (text : list Z) (len : Z) (starts : list (option Z))
    : outcome (list (option Z)) :=
  starts ← wr starts 0 (Some 0);
  loop (S (Z.to_nat len)) (λ '(starts, line_idx, i),
    if i <? len then
      b ← line_break text len i;
      if b : bool then
        starts ← wr starts line_idx (Some (u32 (i + 1)));
        Ret (inl (starts, u32 (line_idx + 1), i + 1))
      else Ret (inl (starts, line_idx, i + 1))
    else Ret (inr starts)) (starts, 1, 0).

Section sourceloc.
Context `{Allocator}.

Definition compute_line_starts (text : list Z) (len : Z) : M (option (list (option Z) * Z)) :=
  line_count ← lift (count_lines text len);
  ok ← alloc_obj (line_count * 4);
  if negb ok then mret None else
  starts ← lift (fill_starts text len (replicate (Z.to_nat line_count) None));
  mret (Some (starts, line_count)).

(** [fseek]'s answers are not looked at. *)
Definition read_file (io : file_io) : M (option (list Z * Z)) :=
  if negb (io_fopen io) then mret None else
  let size := io_ftell io in
  if size <? 0 then mret None else
  buffer ← alloc_bytes (u64 (size + 1));
  match buffer with
  | None => mret None
  | Some d =>
      let got := take (Z.to_nat size) (io_bytes io) in
      let bytes_read := zlen got in
      d ← lift (blit d 0 got 0 bytes_read);
      d ← lift (wr d bytes_read 0);
      mret (Some (d, bytes_read))
  end.

Definition ak_sourceloc_init (w : world) : world :=
  if sl_initialized (w_system w) then w else with_system w (mk_system 0 0 true).

Definition ak_sourceloc_shutdown (w : world) : world :=
  if negb (sl_initialized (w_system w)) then w else with_system w (mk_system 0 0 false).

(** [lock_ok]: initialising the file's mutex succeeds. *)
Definition ak_source_file_new (w : world) (lock_ok : bool) (name text : option (list Z))
    (len : Z) : M (option positive * world) :=
  match name, text with
  | Some _, Some text =>
      ok ← alloc_obj sizeof_ak_source_file_t;
      if negb ok then mret (None, w) else
      if negb lock_ok then _ ← free_obj; mret (None, w) else
      '(interned, t) ← ak_intern (w_table w) name;
      let w := mk_world t (w_system w) (w_files w) (w_next w) in
      match interned with
      | None => _ ← free_obj; mret (None, w)
      | Some fname =>
          copy ← alloc_bytes (u64 (len + 1));
          match copy with
          | None => _ ← free_obj; mret (None, w)
          | Some d =>
              d ← lift (blit d 0 text 0 len);
              d ← lift (wr d len 0);
              lines ← compute_line_starts d len;
              match lines with
              | None => _ ← free_obj; _ ← free_obj; mret (None, w)
              | Some (starts, count) =>
                  let f := mk_file fname d len starts count 1 in
                  let sys := w_system w in
                  let sys :=
                    if sl_initialized sys
                    then mk_system (u64 (file_count sys + 1)) (u64 (sl_total_bytes sys + len)) true
                    else sys in
                  mret (Some (w_next w),
                        mk_world t sys (<[w_next w := f]> (w_files w)) (Pos.succ (w_next w)))
              end
          end
      end
  | _, _ => mret (None, w)
  end.

Definition ak_source_file_from_path (w : world) (lock_ok : bool) (path : option (list Z))
    (io : file_io) : M (option positive * world) :=
  match path with
  | None => mret (None, w)
  | Some _ =>
      r ← read_file io;
      match r with
      | None => mret (None, w)
      | Some (text, len) =>
          '(p, w) ← ak_source_file_new w lock_ok path (Some text) len;
          _ ← free_obj;
          mret (p, w)
      end
  end.

Definition ak_source_file_retain (w : world) (fp : option positive)
    : outcome (option positive * world) :=
  match fp with
  | None => Ret (None, w)
  | Some p =>
      f ← deref_file w p;
      Ret (fp, with_file w p (mk_file (filename f) (contents f) (length_ f) (line_starts f)
                                (line_count f) (u32 (ref_count f + 1))))
  end.

Definition ak_source_file_release (w : world) (fp : option positive) : M world :=
  match fp with
  | None => mret w
  | Some p =>
      f ← lift (deref_file w p);
      let n := u32 (ref_count f - 1) in
      let w := with_file w p (mk_file (filename f) (contents f) (length_ f) (line_starts f)
                                (line_count f) n) in
      if n =? 0 then
        let sys := w_system w in
        let sys :=
          if sl_initialized sys
          then mk_system (u64 (file_count sys - 1)) (u64 (sl_total_bytes sys - length_ f)) true
          else sys in
        _ ← free_obj; _ ← free_obj; _ ← free_obj;
        mret (mk_world (w_table w) sys (delete p (w_files w)) (w_next w))
      else mret w
  end.
End sourceloc.

Definition ak_source_file_contents (w : world) (fp : option positive) : outcome (option (list Z)) :=
  match fp with
  | None => Ret None
  | Some p => f ← deref_file w p; Ret (Some (contents f))
  end.

Definition ak_source_file_length (w : world) (fp : option positive) : outcome Z :=
  match fp with
  | None => Ret 0
  | Some p => f ← deref_file w p; Ret (length_ f)
  end.

Definition ak_source_file_name (w : world) (fp : option positive) : outcome (option positive) :=
  match fp with
  | None => Ret None
  | Some p => f ← deref_file w p; Ret (Some (filename f))
  end.

Definition ak_source_loc_new (fp : option positive) (line column offset : Z) : ak_source_loc_t :=
  mk_loc fp line column offset.

Definition null_loc : ak_source_loc_t := mk_loc None 0 0 0.

(** The last line that starts at or before [offset]. *)
Definition find_line (f : ak_source_file_s) (offset : Z) : outcome Z :=
  loop (S (S (Z.to_nat (line_count f)))) (λ '(left_, right_, line_idx),
    if left_ <=? right_ then
      let mid := u32 (left_ + u32 (right_ - left_) / 2) in
      s ← rd_start (line_starts f) mid;
      if s <=? offset then
        if mid =? right_ then Ret (inr mid) else Ret (inl (u32 (mid + 1), right_, mid))
      else if mid =? 0 then Ret (inr line_idx)
      else Ret (inl (left_, u32 (mid - 1), line_idx))
    else Ret (inr line_idx)) (0, u32 (line_count f - 1), 0).

Definition ak_source_loc_from_offset (w : world) (fp : option positive) (offset : Z)
    : outcome ak_source_loc_t :=
  match fp with
  | None => Ret null_loc
  | Some p =>
      f ← deref_file w p;
      if length_ f <? offset then Ret null_loc else
      line_idx ← find_line f offset;
      line_start ← rd_start (line_starts f) line_idx;
      let byte_offset_in_line := u32 (offset - line_start) in
      chars ← utf8_strlen (contents f) line_start byte_offset_in_line;
      Ret (mk_loc fp (u32 (line_idx + 1)) (u32 (u32 chars + 1)) offset)
  end.

Definition ak_source_range_new (start end_ : ak_source_loc_t) : ak_source_range_t :=
  mk_range start end_.

Definition ak_source_range_contains (range : option ak_source_range_t) (loc : ak_source_loc_t)
    : bool :=
  match range with
  | None => false
  | Some r =>
      match file (start r), file loc with
      | Some p, Some q =>
          if negb (bool_decide (p = q)) then false else
          (offset (start r) <=? offset loc) && (offset loc <? offset (end_ r))
      | _, _ => false
      end
  end.

Definition ak_source_range_overlaps (a b : option ak_source_range_t) : bool :=
  match a, b with
  | Some a, Some b =>
      match file (start a), file (start b) with
      | Some p, Some q =>
          if negb (bool_decide (p = q)) then false else
          (offset (start a) <? offset (end_ b)) && (offset (start b) <? offset (end_ a))
      | _, _ => false
      end
  | _, _ => false
  end.

Definition ak_source_extract `{Allocator} (w : world) (range : ak_source_range_t)
    : M (option (list Z)) :=
  match file (start range), file (end_ range) with
  | Some p, Some q =>
      if negb (bool_decide (p = q)) then mret None else
      f ← lift (deref_file w p);
      if (length_ f <? offset (start range)) || (length_ f <? offset (end_ range))
      then mret None else
      if offset (end_ range) <? offset (start range) then mret None else
      let len := u32 (offset (end_ range) - offset (start range)) in
      text ← alloc_bytes (u64 (len + 1));
      match text with
      | None => mret None
      | Some d =>
          d ← lift (blit d 0 (contents f) (offset (start range)) len);
          d ← lift (wr d len 0);
          mret (Some d)
      end
  | _, _ => mret None
  end.

(** The answer points into the file's text: its index there. *)
Definition ak_source_get_line (w : world) (fp : option positive) (line : Z) : outcome (option Z) :=
  match fp with
  | None => Ret None
  | Some p =>
      f ← deref_file w p;
      if (line =? 0) || (line_count f <? line) then Ret None else
      s ← rd_start (line_starts f) (u32 (line - 1));
      Ret (Some s)
  end.

(** [line_end] less a line feed before it and a carriage return before that,
    neither taken at or before [floor]. *)
Definition trim_eol (text : list Z) (line_end floor : Z) : outcome Z :=
  if negb (floor <? line_end) then Ret line_end else
  c ← rd text (u32 (line_end - 1));
  if negb (c =? LF) then Ret line_end else
  let line_end := u32 (line_end - 1) in
  if negb (floor <? line_end) then Ret line_end else
  c ← rd text (u32 (line_end - 1));
  if negb (c =? CR) then Ret line_end else Ret (u32 (line_end - 1)).

Definition ak_source_get_line_len (w : world) (fp : option positive) (line : Z) : outcome Z :=
  match fp with
  | None => Ret 0
  | Some p =>
      f ← deref_file w p;
      if (line =? 0) || (line_count f <? line) then Ret 0 else
      let line_idx := u32 (line - 1) in
      line_start ← rd_start (line_starts f) line_idx;
      line_end ← (if u32 (line_idx + 1) <? line_count f then
                    line_end ← rd_start (line_starts f) (u32 (line_idx + 1));
                    trim_eol (contents f) line_end 0
                  else trim_eol (contents f) (u32 (length_ f)) line_start);
      Ret (if line_start <? line_end then u32 (line_end - line_start) else 0)
  end.

Definition ak_sourceloc_stats (w : world) : Z * Z :=
  let sys := w_system w in
  if negb (sl_initialized sys) then (0, 0) else (file_count sys, sl_total_bytes sys).

(** * Lines *)

(** The text cut after every line feed but one that ends it. *)
Fixpoint split_lines (text : list Z) : list (list Z) :=
  match text with
  | [] => [[]]
  | c :: text' =>
      if (c =? LF) && negb (bool_decide (text' = [])) then [c] :: split_lines text'
      else match split_lines text' with
           | [] => []
           | p :: ps => (c :: p) :: ps
           end
  end.

(** Where the pieces start. *)
Fixpoint offsets (i : Z) (pieces : list (list Z)) : list Z :=
  match pieces with
  | [] => []
  | p :: ps => i :: offsets (i + zlen p) ps
  end.

(** [l] without the byte [c] it ends with, if it does. *)
Definition drop_last (c : Z) (l : list Z) : option (list Z) :=
  match reverse l with
  | x :: l' => if x =? c then Some (reverse l') else None
  | [] => None
  end.

(** A line without its terminator, a line feed or both bytes. *)
Definition strip_eol (l : list Z) : list Z :=
  match drop_last LF l with
  | Some l1 => default l1 (drop_last CR l1)
  | None => l
  end.

Example split_lines_ex :
  split_lines [97; 10; 10; 98; 13; 10] = [[97; 10]; [10]; [98; 13; 10]]
  ∧ offsets 0 (split_lines [97; 10; 10; 98; 13; 10]) = [0; 2; 3]
  ∧ strip_eol [98; 13; 10] = [98] ∧ split_lines [] = [[]].
Proof. repeat split. Qed.

(** The line starts after the first one. *)
Fixpoint breaks (i : Z) (text : list Z) : list Z :=
  match text with
  | [] => []
  | c :: text' =>
      if (c =? LF) && negb (bool_decide (text' = [])) then (i + 1) :: breaks (i + 1) text'
      else breaks (i + 1) text'
  end.

Lemma offsets_breaks i text : offsets i (split_lines text) = i :: breaks i text.
Proof.
  revert i. induction text as [|c text IH]; intros i; simpl; [done|].
  destruct ((c =? LF) && negb (bool_decide (text = []))); simpl.
  - f_equal. replace (i + zlen [c]) with (i + 1) by done. apply IH.
  - specialize (IH (i + 1)). destruct (split_lines text) as [|p ps]; [done|]. simpl in *.
    injection IH as IH. rewrite <- IH. f_equal. f_equal. rewrite zlen_cons. lia.
Qed.

Lemma split_lines_join text : concat (split_lines text) = text.
Proof.
  induction text as [|c text IH]; simpl; [done|].
  destruct (_ && _); simpl; [by rewrite IH|].
  destruct (split_lines text) as [|p ps] eqn:E; simpl in *; [|by rewrite IH].
  pose proof (offsets_breaks 0 text) as Ho. by rewrite E in Ho.
Qed.

(** A line that ends with its line feed, of which it has no other. *)
Definition full_line (l : list Z) : Prop := ∃ p, l = p ++ [LF] ∧ LF ∉ p.
(** The last line. *)
Definition last_line (l : list Z) : Prop := LF ∉ l ∨ full_line l.

Lemma split_lines_shape text :
  ∃ ps p, split_lines text = ps ++ [p] ∧ Forall full_line ps ∧ last_line p.
Proof.
  induction text as [|c text (ps & p & Hs & HF & Hp)]; simpl.
  - exists [], []. split; [done|]. split; [constructor|]. left. apply not_elem_of_nil.
  - rewrite Hs. destruct (Z.eqb_spec c LF) as [->|Hc]; simpl.
    + case_bool_decide as Ht; simpl.
      * subst text. simpl in Hs. destruct ps as [|? [|? ?]]; simplify_eq/=.
        exists [], [LF]. split; [done|]. split; [constructor|]. right. exists [].
        split; [done|apply not_elem_of_nil].
      * exists ([LF] :: ps), p. split; [done|]. split; [|done]. constructor; [|done].
        exists []. split; [done|apply not_elem_of_nil].
    + destruct ps as [|q ps]; simpl.
      * exists [], (c :: p). split; [done|]. split; [constructor|].
        destruct Hp as [Hp|(p' & -> & Hp)]; [left|right; exists (c :: p'); split; [done|]];
          apply not_elem_of_cons; done.
      * exists ((c :: q) :: ps), p. split; [done|]. apply Forall_cons_1 in HF as [(q' & -> & Hq) HF].
        split; [|done]. constructor; [|done]. exists (c :: q'). split; [done|].
        by apply not_elem_of_cons.
Qed.

(** * The line table *)

Lemma breaks_step text i c :
  0 <= i → text !! Z.to_nat i = Some c →
  breaks i (drop (Z.to_nat i) text) =
    if (c =? LF) && (i + 1 <? zlen text) then (i + 1) :: breaks (i + 1) (drop (Z.to_nat (i + 1)) text)
    else breaks (i + 1) (drop (Z.to_nat (i + 1)) text).
Proof.
  intros Hi Hc. rewrite (drop_S _ c) by done. simpl.
  replace (Z.to_nat (i + 1)) with (S (Z.to_nat i)) by lia.
  replace (negb (bool_decide (drop (S (Z.to_nat i)) text = []))) with (i + 1 <? zlen text); [done|].
  assert (length (drop (S (Z.to_nat i)) text) = length text - S (Z.to_nat i))%nat as Hl
    by apply length_drop.
  pose proof (lookup_lt_Some _ _ _ Hc). unfold zlen. case_bool_decide as Hd; simpl.
  - rewrite Hd in Hl. simpl in Hl. apply Z.ltb_ge. lia.
  - apply Z.ltb_lt. destruct (drop (S (Z.to_nat i)) text); simpl in *; [done|lia].
Qed.

Lemma breaks_length i text : zlen (breaks i text) <= Z.max 0 (zlen text - 1).
Proof.
  revert i. induction text as [|c text IH]; intros i; simpl; [unfold zlen; simpl; lia|].
  specialize (IH (i + 1)). destruct (c =? LF); simpl; [|rewrite zlen_cons; lia].
  case_bool_decide as Ht; simpl; rewrite ?zlen_cons; [lia|].
  destruct text; [done|]. rewrite !zlen_cons in *. pose proof (zlen_nonneg text). lia.
Qed.

Lemma line_break_ok text tail i c :
  0 <= i → text !! Z.to_nat i = Some c →
  line_break (text ++ tail) (zlen text) i = Ret ((c =? LF) && (i + 1 <? zlen text)).
Proof.
  intros Hi Hc. unfold line_break. rewrite (rd_lookup _ _ c); [done|lia|]. by apply lookup_app_l_Some.
Qed.

Lemma lookup_Z {A} (l : list A) i : 0 <= i < zlen l → ∃ x, l !! Z.to_nat i = Some x.
Proof. intros Hi. unfold zlen in Hi. apply lookup_lt_is_Some_2. lia. Qed.

Lemma count_lines_ok text tail :
  zlen text < 2 ^ 32 → count_lines (text ++ tail) (zlen text) = Ret (1 + zlen (breaks 0 text)).
Proof.
  intros Hsm. apply wpo_eq. unfold count_lines. pose proof (breaks_length 0 text).
  apply (loop_wpo (λ '(n, i), 0 <= i <= zlen text ∧ 0 <= n
      ∧ n + zlen (breaks i (drop (Z.to_nat i) text)) = 1 + zlen (breaks 0 text))
    (λ '(n, i), Z.to_nat (zlen text - i))); [pose proof (zlen_nonneg text); done|lia|].
  intros [n i] (Hi & Hn0 & Hn). destruct (Z.ltb_spec i (zlen text)).
  - destruct (lookup_Z text i) as [c Hc]; [lia|].
    rewrite (line_break_ok _ _ _ c) by (done || lia). simpl.
    rewrite (breaks_step _ _ c) in Hn by (done || lia). split; [|lia]. split; [lia|].
    destruct (_ && _); [|done]. rewrite zlen_cons in Hn.
    pose proof (zlen_nonneg (breaks (i + 1) (drop (Z.to_nat (i + 1)) text))).
    rewrite u32_small by lia. lia.
  - simpl. replace (Z.to_nat i) with (length text) in Hn by (unfold zlen in *; lia).
    rewrite drop_all in Hn. simpl in Hn. rewrite zlen_nil in Hn. lia.
Qed.

Lemma fill_starts_ok text tail :
  zlen text < 2 ^ 32 →
  fill_starts (text ++ tail) (zlen text) (replicate (Z.to_nat (1 + zlen (breaks 0 text))) None)
  = Ret (Some <$> 0 :: breaks 0 text).
Proof.
  intros Hsm. apply wpo_eq. unfold fill_starts. pose proof (breaks_length 0 text).
  pose proof (zlen_nonneg (breaks 0 text)). pose proof (zlen_nonneg text).
  rewrite wr_ok by (unfold zlen in *; rewrite length_replicate; lia). simpl.
  apply (loop_wpo (λ '(starts, n, i), 0 <= i <= zlen text ∧ ∃ pre,
      pre ++ breaks i (drop (Z.to_nat i) text) = 0 :: breaks 0 text ∧ zlen pre = n
      ∧ starts = (Some <$> pre) ++ replicate (length (breaks i (drop (Z.to_nat i) text))) None)
    (λ '(starts, n, i), Z.to_nat (zlen text - i))); [|lia|].
  - split; [lia|]. exists [0]. split; [done|]. split; [done|]. simpl. rewrite drop_0.
    replace (Z.to_nat (1 + zlen (breaks 0 text))) with (S (length (breaks 0 text)))
      by (unfold zlen; lia). done.
  - intros [[starts n] i] (Hi & pre & Hpre & Hn & ->). destruct (Z.ltb_spec i (zlen text)).
    + destruct (lookup_Z text i) as [c Hc]; [lia|].
      rewrite (line_break_ok _ _ _ c) by (done || lia). simpl.
      rewrite (breaks_step _ _ c) in Hpre by (done || lia).
      rewrite (breaks_step _ _ c) by (done || lia). destruct (_ && _); simpl.
      * assert (zlen pre + 1 + zlen (breaks (i + 1) (drop (Z.to_nat (i + 1)) text))
                = 1 + zlen (breaks 0 text)) as Hlen.
        { apply (f_equal zlen) in Hpre. rewrite zlen_app, !zlen_cons in Hpre. lia. }
        pose proof (zlen_nonneg (breaks (i + 1) (drop (Z.to_nat (i + 1)) text))).
        pose proof (zlen_nonneg pre).
        rewrite wr_ok by (unfold zlen in *; rewrite length_app, length_fmap; simpl;
          rewrite length_replicate; lia).
        simpl. split; [|lia]. split; [lia|]. exists (pre ++ [i + 1]).
        rewrite <- app_assoc. split; [done|]. rewrite !u32_small by lia.
        split; [rewrite zlen_app; unfold zlen; simpl; unfold zlen in *; lia|].
        rewrite fmap_app. rewrite insert_app_r_alt by (rewrite length_fmap; unfold zlen in *; lia).
        rewrite length_fmap. replace (Z.to_nat n - length pre)%nat with 0%nat
          by (unfold zlen in *; lia). simpl. by rewrite <- app_assoc.
      * split; [|lia]. split; [lia|]. by exists pre.
    + simpl. replace (Z.to_nat i) with (length text) in * by (unfold zlen in *; lia).
      rewrite drop_all in *. simpl in Hpre. rewrite app_nil_r in Hpre. subst pre.
      by rewrite app_nil_r.
Qed.

(** A file whose line table is that of its text. *)
Record file_wf (f : ak_source_file_s) (text : list Z) : Prop := mk_file_wf {
  fw_len : length_ f = zlen text;
  fw_small : zlen text < 2 ^ 32 - 1;
  fw_contents : contents f = text ++ [0];
  fw_starts : line_starts f = Some <$> offsets 0 (split_lines text);
  fw_count : line_count f = zlen (split_lines text);
}.

Lemma offsets_length i ps : zlen (offsets i ps) = zlen ps.
Proof. revert i. induction ps as [|p ps IH]; intros i; simpl; [done|]. by rewrite !zlen_cons, IH. Qed.

Lemma compute_line_starts_ok `{Allocator} text s :
  zlen text < 2 ^ 32 →
  wp (compute_line_starts (text ++ [0]) (zlen text)) (λ r s',
    match r with
    | Some (starts, count) => balance 1 false s s'
        ∧ starts = Some <$> offsets 0 (split_lines text) ∧ count = zlen (split_lines text)
    | None => balance 0 true s s'
    end) s.
Proof.
  intros Hsm. unfold compute_line_starts. rewrite count_lines_ok by done. wsteps.
  apply wp_alloc_obj. intros [|] s1 H1; wsteps; [|balance].
  rewrite fill_starts_ok by done. wsteps. split; [balance|].
  rewrite <- (offsets_length 0), offsets_breaks. split; [done|]. by rewrite zlen_cons.
Qed.

(** * Files and the statistics *)

Definition sum_lengths (fs : list (positive * ak_source_file_s)) : Z :=
  foldr (λ pf acc, length_ pf.2 + acc) 0 fs.

(** The bytes of all live files. *)
Definition live_bytes (files : gmap positive ak_source_file_s) : Z :=
  sum_lengths (map_to_list files).

Lemma sum_lengths_perm fs fs' : fs ≡ₚ fs' → sum_lengths fs = sum_lengths fs'.
Proof. induction 1; simpl; lia. Qed.

Lemma live_bytes_insert files p f :
  files !! p = None → live_bytes (<[p := f]> files) = length_ f + live_bytes files.
Proof.
  intros Hp. unfold live_bytes. by rewrite (sum_lengths_perm _ _ (map_to_list_insert files p f Hp)).
Qed.

Lemma live_bytes_delete files p f :
  files !! p = Some f → live_bytes files = length_ f + live_bytes (delete p files).
Proof.
  intros Hp. rewrite <- (insert_delete_id files p f Hp) at 1.
  apply live_bytes_insert, lookup_delete_eq.
Qed.

Record world_wf (w : world) : Prop := mk_world_wf {
  ww_table : table_wf (w_table w);
  ww_files : ∀ p f, w_files w !! p = Some f →
    (p < w_next w)%positive ∧ (∃ text, file_wf f text) ∧ 1 <= ref_count f < 2 ^ 32;
  ww_stats : sl_initialized (w_system w) = true →
    file_count (w_system w) = u64 (Z.of_nat (size (w_files w)))
    ∧ sl_total_bytes (w_system w) = u64 (live_bytes (w_files w));
}.

Lemma u64_add_l x y : u64 (u64 x + y) = u64 (x + y).
Proof. unfold u64. by rewrite Zplus_mod_idemp_l. Qed.

(** The statistics after a file is added. *)
Lemma world_wf_add w t f text :
  world_wf w → table_wf t → file_wf f text → ref_count f = 1 →
  let sys := w_system w in
  let sys' := if sl_initialized sys
              then mk_system (u64 (file_count sys + 1)) (u64 (sl_total_bytes sys + length_ f)) true
              else sys in
  world_wf (mk_world t sys' (<[w_next w := f]> (w_files w)) (Pos.succ (w_next w)))
  ∧ w_files w !! w_next w = None.
Proof.
  intros [Ht Hf Hs] Htw Hfw Hrc sys sys'.
  assert (w_files w !! w_next w = None) as Hfresh.
  { destruct (w_files w !! w_next w) eqn:E; [|done]. apply Hf in E as [? _]. lia. }
  split; [|done]. split; simpl; [done| |].
  - intros p f' [[<- <-]|[? Hp]]%lookup_insert_Some.
    + split; [lia|]. split; [by exists text|lia].
    + destruct (Hf _ _ Hp) as (? & ? & ?). split; [lia|done].
  - subst sys'. destruct (sl_initialized sys) eqn:Hi; [|intros ?; unfold sys in *; congruence].
    intros _. destruct (Hs Hi) as [Hc Hb]. simpl. unfold sys. rewrite Hc, Hb, !u64_add_l.
    rewrite map_size_insert_None, live_bytes_insert by done. split; f_equal; lia.
Qed.

Section proofs.
Context `{Allocator}.

(** What creating a file from the bytes [text] makes of the world; the strings
    interned on the way stay. *)
Definition file_made (w : world) (lock_ok : bool) (name text : list Z) (s : mem)
    (r : option positive * world) (s' : mem) : Prop :=
  world_wf r.2 ∧
  m_live s' = m_live s + 2 * (zlen (entries (w_table r.2)) - zlen (entries (w_table w)))
              + (match r.1 with Some _ => 3 | None => 0 end) ∧
  match r.1 with
  | Some p => w_files w !! p = None ∧ ∃ f, w_files r.2 = <[p := f]> (w_files w)
      ∧ file_wf f text ∧ ref_count f = 1 ∧ interned (w_table r.2) name (filename f)
  | None => w_files r.2 = w_files w ∧ w_system r.2 = w_system w
      ∧ (lock_ok = true → (m_fails s < m_fails s')%nat)
  end.

Lemma world_wf_table w t : world_wf w → table_wf t →
  world_wf (mk_world t (w_system w) (w_files w) (w_next w)).
Proof. intros [? ? ?] ?. by split. Qed.

Lemma file_new_ok w lock_ok name l text len s :
  world_wf w → name = l ++ [0] ++ drop (S (length l)) name → Forall (λ c, c ≠ 0) l →
  zlen l < 2 ^ 64 - 1 → 0 <= len <= zlen text → len < 2 ^ 32 - 1 →
  wp (ak_source_file_new w lock_ok (Some name) (Some text) len)
    (file_made w lock_ok l (take (Z.to_nat len) text) s) s.
Proof.
  intros Hw Hname Hnz Hlsm Hlen Hsm. unfold ak_source_file_new. pose proof Hw as [Ht _ _].
  wsteps. apply wp_alloc_obj. intros [|] s1 [H1 F1]; simpl; wsteps.
  2:{ split; [done|]. simpl. split; [lia|]. split; [done|]. split; [done|]. intros; lia. }
  destruct lock_ok; simpl; wsteps.
  2:{ apply wp_free_obj. intros s2 ? ?. wsteps. split; [done|]. simpl. split; [lia|]. done. }
  unfold ak_intern. rewrite (strlen_ok _ l) by done. wsteps.
  assert (take (Z.to_nat (zlen l)) name = l) as Hl.
  { rewrite Hname. by rewrite take_app_length' by (unfold zlen; lia). }
  assert (zlen l <= zlen name) as Hln.
  { rewrite Hname, zlen_app. pose proof (zlen_nonneg ([0] ++ drop (S (length l)) name)). lia. }
  pose proof (zlen_nonneg l). eapply wp_mono; [apply ak_intern_n_ok; [done|lia|lia]|].
  rewrite Hl. intros [r t] s2 (Htw & _ & Hr). simpl in *.
  pose proof (world_wf_table w t Hw Htw) as Hw'.
  destruct r as [fname|]; wsteps.
  2:{ destruct Hr as (_ & -> & [? ?]). apply wp_free_obj. intros s3 ? ?. wsteps.
      split; [done|]. simpl. split; [lia|]. split; [done|]. split; [done|]. intros; lia. }
  destruct Hr as [Hin Hr].
  assert (m_live s2 = m_live s1 + 2 * (zlen (entries t) - zlen (entries (w_table w)))
          ∧ m_fails s2 = m_fails s1) as [H2 F2].
  { destruct Hr as [(_ & -> & ->)|(_ & [? ?] & ->)]; lia. }
  rewrite u64_small by lia. wsteps. apply wp_alloc_bytes; [lia| |].
  { intros s3 [? ?]. wsteps. apply wp_free_obj. intros s4 ? ?. wsteps.
    split; [done|]. simpl. split; [lia|]. split; [done|]. split; [done|]. intros; lia. }
  intros d s3 [H3 F3] Hd _. wsteps. apply blit_wpo; [lia..|]. intros d1 [Hd1 Hpre _ _]. wsteps.
  rewrite wr_ok by lia. wsteps. set (txt := take (Z.to_nat len) text) in *.
  assert (<[Z.to_nat len := 0]> d1 = txt ++ [0]) as Htxt.
  { rewrite Z.add_0_l in Hpre. simpl in Hpre. unfold zlen in *.
    rewrite insert_take_drop by lia. rewrite Hpre, (drop_ge d1) by lia. done. }
  assert (zlen txt = len) as Htl by (by apply zlen_take). rewrite Htxt. rewrite <- Htl at 1.
  eapply wp_mono; [apply compute_line_starts_ok; lia|]. intros [[starts count]|] s4 Hst; wsteps.
  2:{ apply wp_free_obj. intros s5 ? ?. wsteps. apply wp_free_obj. intros s6 ? ?. wsteps.
      destruct Hst. split; [done|]. simpl. split; [lia|]. split; [done|]. split; [done|].
      intros; lia. }
  destruct Hst as ([H4 F4] & -> & ->). simpl.
  set (f := mk_file fname (txt ++ [0]) len (Some <$> offsets 0 (split_lines txt))
              (zlen (split_lines txt)) 1).
  assert (file_wf f txt) as Hfw by (by split; simpl; [| |done|done|done]; lia).
  destruct (world_wf_add w t f txt Hw Htw Hfw eq_refl) as [Hww Hfresh].
  split; [exact Hww|]. simpl. split; [lia|]. split; [done|]. by exists f.
Qed.

(** [ak_source_file_new] copies the text, gives it the line table of its
    lines and a count of one, interns the name, and adds to the statistics;
    when an allocation fails it answers null, changes no file and no count, and
    has released what it took (an interned name stays in the table). *)
Theorem ak_source_file_new_spec w lock_ok name l text len s :
  world_wf w → name = l ++ [0] ++ drop (S (length l)) name → Forall (λ c, c ≠ 0) l →
  zlen l < 2 ^ 64 - 1 → 0 <= len <= zlen text → len < 2 ^ 32 - 1 →
  wp (ak_source_file_new w lock_ok (Some name) (Some text) len)
    (file_made w lock_ok l (take (Z.to_nat len) text) s) s.
Proof. apply file_new_ok. Qed.

Definition set_count (f : ak_source_file_s) (n : Z) : ak_source_file_s :=
  mk_file (filename f) (contents f) (length_ f) (line_starts f) (line_count f) n.

Lemma live_bytes_same files p f f' :
  files !! p = Some f → length_ f' = length_ f → live_bytes (<[p := f']> files) = live_bytes files.
Proof.
  intros Hp Hl. rewrite (live_bytes_delete _ _ _ Hp), <- insert_delete_eq.
  rewrite live_bytes_insert by apply lookup_delete_eq. lia.
Qed.

(** A count that changes within bounds. *)
Lemma world_wf_count w p f n :
  world_wf w → w_files w !! p = Some f → 1 <= n < 2 ^ 32 →
  world_wf (with_file w p (set_count f n)).
Proof.
  intros [Ht Hf Hs] Hp Hn. split; simpl; [done| |].
  - intros q f' [[<- <-]|[? Hq]]%lookup_insert_Some; [|by apply Hf].
    destruct (Hf _ _ Hp) as (? & (text & []) & ?). split; [done|]. split; [by exists text|done].
  - intros Hi. rewrite map_size_insert_Some by (by eexists).
    rewrite (live_bytes_same _ _ f) by done. by apply Hs.
Qed.

(** The statistics after the last reference to a file is dropped. *)
Lemma world_wf_drop w p f :
  world_wf w → w_files w !! p = Some f →
  let sys := w_system w in
  let sys' := if sl_initialized sys
              then mk_system (u64 (file_count sys - 1)) (u64 (sl_total_bytes sys - length_ f)) true
              else sys in
  world_wf (mk_world (w_table w) sys' (delete p (w_files w)) (w_next w)).
Proof.
  intros [Ht Hf Hs] Hp sys sys'. split; simpl; [done| |].
  - intros q f' [_ Hq]%lookup_delete_Some. by apply Hf.
  - subst sys'. destruct (sl_initialized sys) eqn:Hi; [|intros ?; unfold sys in *; congruence].
    intros _. destruct (Hs Hi) as [Hc Hb]. simpl. unfold sys.
    rewrite Hc, Hb. rewrite <- !Z.add_opp_r, !u64_add_l, map_size_delete_Some, (live_bytes_delete _ _ _ Hp)
      by (by eexists).
    pose proof (map_size_ne_0_lookup_2 _ _ (mk_is_Some _ _ Hp)). split; f_equal; lia.
Qed.

Lemma release_ok w p f s :
  world_wf w → w_files w !! p = Some f →
  wp (ak_source_file_release w (Some p)) (λ w' s', world_wf w' ∧
    if ref_count f =? 1
    then w_files w' = delete p (w_files w) ∧ balance (-3) false s s'
    else w' = with_file w p (set_count f (ref_count f - 1)) ∧ s' = s) s.
Proof.
  intros Hw Hp. pose proof (ww_files _ Hw _ _ Hp) as (_ & _ & Hn).
  unfold ak_source_file_release, deref_file. rewrite Hp. wsteps. rewrite u32_small by lia.
  destruct (Z.eqb_spec (ref_count f) 1) as [H1|H1].
  - rewrite H1. simpl. wsteps. apply wp_free_obj. intros s1 ? ?. wsteps. apply wp_free_obj.
    intros s2 ? ?. wsteps. apply wp_free_obj. intros s3 ? ?. wsteps.
    rewrite delete_insert_eq. split; [by apply world_wf_drop|]. split; [done|]. balance.
  - rewrite (proj2 (Z.eqb_neq _ 0)) by lia. wsteps. split; [|done].
    apply (world_wf_count w p f); [done|done|lia].
Qed.

Lemma with_file_again w p f f' :
  w_files w !! p = Some f → with_file (with_file w p f') p f = w.
Proof.
  intros Hp. destruct w as [t sys fs next]. unfold with_file. simpl in *. f_equal.
  by rewrite insert_insert_eq, insert_id.
Qed.

(** C37: The life of a file.  The statistics count the live files and their
    bytes; retaining raises the count and a release undoes it; the release of
    the last reference, and no other, frees the file's three blocks and takes
    it off the statistics. *)
Theorem ak_source_file_lifetime_spec w p f s :
  world_wf w → w_files w !! p = Some f →
  (sl_initialized (w_system w) = true →
   ak_sourceloc_stats w = (u64 (Z.of_nat (size (w_files w))), u64 (live_bytes (w_files w))))
  ∧ (ref_count f < 2 ^ 32 - 1 → ∃ w', ak_source_file_retain w (Some p) = Ret (Some p, w')
      ∧ world_wf w' ∧ w_files w' = <[p := set_count f (ref_count f + 1)]> (w_files w)
      ∧ wp (ak_source_file_release w' (Some p)) (λ w'' s', w'' = w ∧ s' = s) s)
  ∧ wp (ak_source_file_release w (Some p)) (λ w' s', world_wf w' ∧
      if ref_count f =? 1
      then w_files w' = delete p (w_files w) ∧ balance (-3) false s s'
      else w_files w' = <[p := set_count f (ref_count f - 1)]> (w_files w) ∧ s' = s) s.
Proof.
  intros Hw Hp. pose proof (ww_files _ Hw _ _ Hp) as (_ & _ & Hn). split; [|split].
  - intros Hi. unfold ak_sourceloc_stats. rewrite Hi. simpl.
    by destruct (ww_stats _ Hw Hi) as [-> ->].
  - intros Hsm. exists (with_file w p (set_count f (ref_count f + 1))).
    unfold ak_source_file_retain, deref_file. rewrite Hp. simpl. rewrite u32_small by lia.
    assert (world_wf (with_file w p (set_count f (ref_count f + 1)))) as Hw'
      by (apply world_wf_count; [done|done|lia]).
    split; [done|]. split; [done|]. split; [done|].
    assert (w_files (with_file w p (set_count f (ref_count f + 1))) !! p
            = Some (set_count f (ref_count f + 1))) as Hp' by (by apply lookup_insert_eq).
    eapply wp_mono; [exact (release_ok _ _ _ s Hw' Hp')|].
    intros w'' s' [_ Hr]. simpl in Hr. rewrite (proj2 (Z.eqb_neq _ 1)) in Hr by lia.
    destruct Hr as [-> ->]. split; [|done]. simpl.
    assert (∀ m, m = ref_count f → set_count (set_count f (ref_count f + 1)) m = f) as ->;
      [by destruct f; intros ? ->|by apply with_file_again|lia].
  - eapply wp_mono; [by apply release_ok|]. intros w' s' [Hw' Hr]. split; [done|].
    destruct (ref_count f =? 1); [done|]. by destruct Hr as [-> ->].
Qed.
End proofs.

(** * Locations *)

(** [l] is the line number [k], from 0, it starts at [base], and [off] is in
    it; the end of the text is in the last line. *)
Definition line_at (pieces : list (list Z)) (k : Z) (l : list Z) (base off : Z) : Prop :=
  ∃ before after, pieces = before ++ l :: after ∧ zlen before = k
  ∧ base = zlen (concat before) ∧ base <= off ∧ (off < base + zlen l ∨ after = []).

(** How many bytes a character takes, by its first byte. *)
Definition seq_width (c : Z) : Z :=
  if c <? 192 then 1 else if c <? 224 then 2 else if c <? 240 then 3
  else if c <? 248 then 4 else 1.

(** The bytes of one character, other than NUL. *)
Definition utf8_seq (cs : list Z) : Prop :=
  ∃ c tl, cs = c :: tl ∧ c ≠ 0 ∧ is_byte c ∧ zlen cs = seq_width c.

(** What may follow the characters that are counted: nothing, a character cut short,
    or a NUL with anything after it. *)
Definition utf8_part (part : list Z) : Prop :=
  part = [] ∨ (∃ rest, part = 0 :: rest) ∨ ∃ rest, utf8_seq (part ++ rest) ∧ part ≠ [].

(** A character cut short takes a column, a NUL and what follows it none. *)
Definition part_columns (part : list Z) : Z :=
  match part with
  | [] => 0
  | c :: _ => if c =? 0 then 0 else 1
  end.

Lemma offsets_app i ps qs :
  offsets i (ps ++ qs) = offsets i ps ++ offsets (i + zlen (concat ps)) qs.
Proof.
  revert i. induction ps as [|p ps IH]; intros i; simpl.
  - unfold zlen. simpl. by rewrite Z.add_0_r.
  - rewrite IH, zlen_app. do 2 f_equal. f_equal. lia.
Qed.

Lemma offsets_lookup ps k s :
  offsets 0 ps !! k = Some s → ∃ before l after, ps = before ++ l :: after
    ∧ length before = k ∧ s = zlen (concat before)
    ∧ offsets 0 ps !! S k = (match after with [] => None | _ => Some (s + zlen l) end).
Proof.
  intros Hs. assert (k < length ps)%nat as Hk.
  { pose proof (offsets_length 0 ps). apply lookup_lt_Some in Hs. unfold zlen in *. lia. }
  destruct (lookup_lt_is_Some_2 ps k Hk) as [l Hl].
  pose proof (take_drop_middle _ _ _ Hl) as Heq. exists (take k ps), l, (drop (S k) ps).
  assert (length (take k ps) = k) as Hlk by (rewrite length_take; lia).
  split; [done|]. split; [done|]. rewrite <- Heq in Hs. rewrite <- Heq at 2.
  rewrite offsets_app in Hs |- *.
  assert (length (offsets 0 (take k ps)) = k) as Hok.
  { pose proof (offsets_length 0 (take k ps)). unfold zlen in *. lia. }
  rewrite lookup_app_r in Hs by lia. rewrite Hok, Nat.sub_diag in Hs. simpl in Hs.
  rewrite lookup_app_r by lia. rewrite Hok. replace (S k - k)%nat with 1%nat by lia. simpl.
  injection Hs as <-. split; [lia|]. by destruct (drop (S k) ps).
Qed.

Lemma offsets_ge i ps k s : offsets i ps !! k = Some s → i <= s.
Proof.
  revert i k. induction ps as [|p ps IH]; intros i [|k] Hs; simpl in *; try done.
  - injection Hs as <-. lia.
  - apply IH in Hs. pose proof (zlen_nonneg p). lia.
Qed.

Lemma offsets_mono i ps j k a b :
  (j <= k)%nat → offsets i ps !! j = Some a → offsets i ps !! k = Some b → a <= b.
Proof.
  revert i j k. induction ps as [|p ps IH]; intros i j k Hjk Ha Hb; [done|].
  destruct j as [|j].
  - injection Ha as <-. by apply offsets_ge in Hb.
  - destruct k as [|k]; [lia|]. apply (IH (i + zlen p) j k); [lia|done|done].
Qed.

Lemma rd_start_ok starts i s :
  0 <= i → starts !! Z.to_nat i = Some s → rd_start (Some <$> starts) i = Ret s.
Proof.
  intros Hi Hs. unfold rd_start. rewrite (rd_lookup _ _ (Some s)); [done|done|].
  by rewrite list_lookup_fmap, Hs.
Qed.

Lemma lines_count text : 1 <= zlen (split_lines text) <= Z.max 1 (zlen text).
Proof.
  rewrite <- (offsets_length 0), offsets_breaks, zlen_cons.
  pose proof (breaks_length 0 text). pose proof (zlen_nonneg (breaks 0 text)). lia.
Qed.

Lemma find_line_ok f text off :
  file_wf f text → 0 <= off →
  wpo (find_line f off) (λ k, 0 <= k < line_count f ∧ ∃ s,
    offsets 0 (split_lines text) !! Z.to_nat k = Some s ∧ s <= off
    ∧ ∀ j s', k < j → offsets 0 (split_lines text) !! Z.to_nat j = Some s' → off < s').
Proof.
  intros [Hlen Hsm _ Hst Hcnt] Hoff. pose proof (lines_count text) as Hn.
  assert (zlen (split_lines text) < 2 ^ 32) as Hn32 by lia.
  rewrite <- Hcnt in Hn, Hn32. pose proof (offsets_length 0 (split_lines text)) as Hol.
  rewrite <- Hcnt in Hol. unfold find_line. rewrite Hst.
  assert (offsets 0 (split_lines text) !! 0%nat = Some 0) as H0 by (by rewrite offsets_breaks).
  set (O := offsets 0 (split_lines text)) in *. set (n := line_count f) in *.
  apply (loop_wpo (λ '(lo, hi, idx), 0 <= lo <= hi + 1 ∧ 0 <= hi < n ∧ 0 <= idx < n
      ∧ (lo = 0 ∧ idx = 0 ∨ lo = idx + 1)
      ∧ (∃ s, O !! Z.to_nat idx = Some s ∧ s <= off)
      ∧ (∀ j s', hi < j → O !! Z.to_nat j = Some s' → off < s'))
    (λ '(lo, hi, idx), Z.to_nat (hi + 1 - lo))).
  - rewrite u32_small by lia. split; [lia|]. split; [lia|]. split; [lia|]. split; [by left|].
    split; [by exists 0|]. intros j s' Hj Hs'. apply lookup_lt_Some in Hs'. unfold zlen in Hol. lia.
  - rewrite u32_small by lia. lia.
  - intros [[lo hi] idx] (Hlo & Hhi & Hidx & Hli & Hs & Hab). destruct (Z.leb_spec lo hi).
    2:{ simpl. split; [lia|]. destruct Hs as (s & Hs & Hle). exists s. split; [done|].
        split; [done|]. intros j s' Hj. apply Hab. lia. }
    assert (lo <= lo + (hi - lo) / 2 <= hi) as Hmid by dlia.
    rewrite (u32_small (hi - lo)), u32_small by lia. set (mid := lo + (hi - lo) / 2) in *.
    destruct (lookup_Z O mid) as [s Hm]; [lia|]. rewrite (rd_start_ok _ _ s) by (done || lia). simpl.
    destruct (Z.leb_spec s off).
    + destruct (Z.eqb_spec mid hi) as [E|E]; simpl.
      * split; [lia|]. exists s. split; [done|]. split; [done|]. intros j s' Hj. apply Hab. lia.
      * rewrite u32_small by lia. split; [|lia]. split; [lia|]. split; [lia|]. split; [lia|].
        split; [by right|]. split; [by exists s|done].
    + destruct (Z.eqb_spec mid 0) as [E|E]; simpl; [rewrite E in Hm; change (Z.to_nat 0) with 0%nat in Hm; rewrite H0 in Hm; injection Hm; lia|].
      rewrite u32_small by lia. split; [|lia]. split; [lia|]. split; [lia|]. split; [lia|].
      split; [done|]. split; [done|]. intros j s' Hj Hs'.
      assert (s <= s'); [|lia]. by apply (offsets_mono 0 (split_lines text) (Z.to_nat mid) (Z.to_nat j));
        [lia| |].
Qed.

(** The tests on the first byte give its width. *)
Lemma width_tests c {A} (k : Z → A) :
  is_byte c →
  (if Z.land c 128 =? 0 then k 1 else if Z.land c 224 =? 192 then k 2
   else if Z.land c 240 =? 224 then k 3 else if Z.land c 248 =? 240 then k 4 else k 1)
  = k (seq_width c).
Proof.
  intros Hc.
  assert ((if Z.land c 128 =? 0 then 1 else if Z.land c 224 =? 192 then 2
           else if Z.land c 240 =? 224 then 3 else if Z.land c 248 =? 240 then 4 else 1)
          = seq_width c) as <-.
  { apply Z.eqb_eq. by apply (byte_forall (λ c, (if Z.land c 128 =? 0 then 1
      else if Z.land c 224 =? 192 then 2 else if Z.land c 240 =? 224 then 3
      else if Z.land c 248 =? 240 then 4 else 1) =? seq_width c)). }
  repeat case_match; done.
Qed.

Lemma seq_width_range c : 1 <= seq_width c <= 4.
Proof. unfold seq_width. repeat case_match; lia. Qed.

(** It always answers, at most one character a byte. *)
Lemma utf8_strlen_total str base n :
  0 <= base → 0 <= n < 2 ^ 32 → base + n <= zlen str →
  ∃ k, utf8_strlen str base n = Ret k ∧ 0 <= k <= n.
Proof.
  intros Hb Hn Hl. enough (wpo (utf8_strlen str base n) (λ k, 0 <= k <= n)) as Hw.
  { destruct (utf8_strlen str base n) as [k| |]; simpl in *; [by exists k|done|done]. }
  unfold utf8_strlen.
  apply (loop_wpo (λ '(count, s), 0 <= count <= s ∧ count <= n) (λ '(count, s), Z.to_nat (n - s)));
    [lia|lia|].
  intros [count s] [Hc Hcn]. destruct (Z.ltb_spec s n); [|simpl; lia].
  wsteps. apply rd_wpo; [lia|]. intros c _. destruct (c =? 0); [simpl; lia|].
  rewrite u64_small by lia. repeat case_match; simpl; lia.
Qed.

Lemma utf8_seq_width cs c tl : utf8_seq cs → cs = c :: tl → c ≠ 0 ∧ is_byte c ∧ zlen cs = seq_width c.
Proof. intros (c' & tl' & -> & ? & ? & ?) [= <- <-]. done. Qed.

Lemma chars_le_bytes cs : Forall utf8_seq cs → zlen cs <= zlen (concat cs).
Proof.
  induction 1 as [|x cs (c & tl & -> & _) _ IH]; [done|].
  simpl. rewrite !zlen_cons, zlen_app. pose proof (zlen_nonneg tl). lia.
Qed.

(** The bytes of the slice are those the loop reads. *)
Lemma rd_slice (str : list Z) base n l s c :
  0 <= base → 0 <= s → take (Z.to_nat n) (drop (Z.to_nat base) str) = l →
  l !! Z.to_nat s = Some c → rd str (base + s) = Ret c.
Proof.
  intros Hb Hs <- Hc. apply rd_lookup; [lia|]. pose proof (lookup_lt_Some _ _ _ Hc) as Hlt.
  rewrite length_take in Hlt. rewrite lookup_take_lt, lookup_drop in Hc by lia.
  by replace (Z.to_nat (base + s)) with (Z.to_nat base + Z.to_nat s)%nat by lia.
Qed.

Lemma utf8_strlen_chars str base n cs part :
  0 <= base → 0 <= n < 2 ^ 32 → base + n <= zlen str →
  take (Z.to_nat n) (drop (Z.to_nat base) str) = concat cs ++ part →
  Forall utf8_seq cs → utf8_part part →
  utf8_strlen str base n = Ret (zlen cs + part_columns part).
Proof.
  intros Hb Hn Hl Heq Hcs Hpart.
  assert (zlen (concat cs) + zlen part = n) as Hlen.
  { rewrite <- zlen_app, <- Heq. apply zlen_take. rewrite zlen_drop; lia. }
  assert (∀ s c, 0 <= s → (concat cs ++ part) !! Z.to_nat s = Some c →
    rd str (base + s) = Ret c) as Hrd by (intros; by eapply rd_slice).
  apply wpo_eq. unfold utf8_strlen.
  set (total := zlen cs + part_columns part).
  apply (loop_wpo (λ '(count, s),
      (∃ pre post, cs = pre ++ post ∧ count = zlen pre ∧ s = zlen (concat pre))
      ∨ (count = total ∧ n <= s)) (λ '(count, s), Z.to_nat (n - s))); [|lia|].
  { left. by exists [], cs. }
  pose proof (zlen_nonneg part) as Hp0.
  intros [count s] [(pre & post & E & -> & ->)|[-> Hs]].
  2:{ rewrite (proj2 (Z.ltb_ge _ _)) by lia. done. }
  pose proof (zlen_nonneg (concat pre)) as Hpre0.
  assert (zlen (concat pre) + zlen (concat post) + zlen part = n) as Hlen'.
  { rewrite E, concat_app, zlen_app in Hlen. lia. }
  pose proof (zlen_nonneg (concat post)).
  destruct (Z.ltb_spec (zlen (concat pre)) n) as [Hlt|Hge].
  - destruct post as [|x post].
    + rewrite app_nil_r in E. subst pre. destruct Hpart as [->|[(rest & ->)|(rest & Hseq & Hne)]].
      { rewrite zlen_nil in Hlen. lia. }
      { rewrite (Hrd _ 0); [|lia|].
        - simpl. unfold total. simpl. lia.
        - rewrite lookup_app_r by (unfold zlen; lia).
          by replace (Z.to_nat (zlen (concat cs)) - length (concat cs))%nat with 0%nat by (unfold zlen; lia). }
      destruct part as [|c part]; [done|]. simpl app in Hseq.
      destruct (utf8_seq_width _ c _ Hseq eq_refl) as (Hc0 & Hcb & Hw).
      rewrite (Hrd _ c) by (try lia; rewrite lookup_app_r by (unfold zlen; lia);
        by replace (Z.to_nat (zlen (concat cs)) - length (concat cs))%nat with 0%nat
          by (unfold zlen; lia)).
      simpl. rewrite (proj2 (Z.eqb_neq c 0)) by done.
      rewrite (width_tests c (λ w, Ret (inl (_, _ + w)))) by done. simpl.
      rewrite !zlen_cons, zlen_app in Hw. rewrite zlen_cons in *. pose proof (zlen_nonneg rest).
      pose proof (zlen_nonneg cs). pose proof (chars_le_bytes _ Hcs).
      split; [|lia]. right. split; [|lia]. rewrite u64_small by lia. unfold total. simpl.
      by rewrite (proj2 (Z.eqb_neq c 0)).
    + rewrite E in Hcs. apply Forall_app in Hcs as [Hpre Hpost].
      apply Forall_cons_1 in Hpost as [Hseq Hpost]. pose proof Hseq as (c & tl & -> & Hc0 & Hcb & Hw).
      rewrite (Hrd _ c).
      2:{ lia. }
      2:{ rewrite E, concat_app, <- app_assoc, lookup_app_r by (unfold zlen; lia).
          by replace (Z.to_nat (zlen (concat pre)) - length (concat pre))%nat with 0%nat
            by (unfold zlen; lia). }
      simpl. rewrite (proj2 (Z.eqb_neq c 0)) by done.
      rewrite (width_tests c (λ w, Ret (inl (_, _ + w)))) by done. simpl.
      pose proof (chars_le_bytes _ Hpre).
      pose proof (zlen_nonneg pre). pose proof (seq_width_range c).
      split; [|lia]. left. exists (pre ++ [c :: tl]), post. rewrite <- app_assoc. split; [done|].
      rewrite u64_small by lia. rewrite zlen_app, concat_app, zlen_app. simpl. rewrite app_nil_r.
      split; [done|lia].
  - simpl. assert (part = []) as ->.
    { destruct part; [done|]. rewrite zlen_cons in *. pose proof (zlen_nonneg part). lia. }
    assert (post = []) as ->.
    { destruct post as [|x post]; [done|]. rewrite E in Hcs.
      apply Forall_app in Hcs as [_ Hpost]. apply Forall_cons_1 in Hpost as [(c & tl & -> & _) _].
      simpl in Hlen'. rewrite zlen_cons, zlen_app, zlen_nil in Hlen'. pose proof (zlen_nonneg tl).
      pose proof (zlen_nonneg (concat post)). lia. }
    unfold total. rewrite E, app_nil_r. simpl. lia.
Qed.

(** The line of a line table entry. *)
Lemma line_at_start text k s off :
  offsets 0 (split_lines text) !! Z.to_nat k = Some s → 0 <= k → s <= off →
  (∀ s', offsets 0 (split_lines text) !! S (Z.to_nat k) = Some s' → off < s') →
  ∃ l, line_at (split_lines text) k l s off.
Proof.
  intros Hs Hk Hle Hnext. destruct (offsets_lookup _ _ _ Hs) as (before & l & after & E & Hl & -> & Hn).
  exists l, before, after. split; [done|]. split; [unfold zlen; lia|]. split; [done|].
  split; [done|]. destruct after as [|q after]; [by right|]. left. by apply Hnext.
Qed.

Lemma line_at_slice text l k base off tail :
  line_at (split_lines text) k l base off → off <= zlen text →
  take (Z.to_nat (off - base)) (drop (Z.to_nat base) (text ++ tail))
  = take (Z.to_nat (off - base)) l.
Proof.
  intros (before & after & E & _ & -> & Hle & Hin) Hoff.
  rewrite <- (split_lines_join text) in Hoff |- *. rewrite E in Hoff |- *.
  rewrite concat_app in Hoff |- *. simpl in *. rewrite !zlen_app in Hoff.
  rewrite <- !app_assoc, drop_app_length' by (unfold zlen; lia).
  rewrite take_app_le; [done|]. destruct Hin as [Hin| ->]; unfold zlen in *; simpl in *; lia.
Qed.

(** C36: The location of an offset.  Past the end of the text it is the null
    location; otherwise the line is the one the offset is in, counted from one.
    The column is one more than the number of characters between the start of
    the line and the offset, up to the first NUL: a character is as many bytes as
    its first one announces, one that the offset cuts short counts, and a NUL
    and all that follows it on the line do not, since the code stops there. *)
Theorem ak_source_loc_from_offset_spec w p f text off :
  w_files w !! p = Some f → file_wf f text → 0 <= off →
  if zlen text <? off then ak_source_loc_from_offset w (Some p) off = Ret null_loc else
  ∃ k l base col,
    ak_source_loc_from_offset w (Some p) off = Ret (mk_loc (Some p) (k + 1) col off)
    ∧ line_at (split_lines text) k l base off
    ∧ ∀ cs part, take (Z.to_nat (off - base)) l = concat cs ++ part → Forall utf8_seq cs →
        utf8_part part → col = 1 + zlen cs + part_columns part.
Proof.
  intros Hp Hf Hoff. pose proof Hf as [Hlen Hsm Hcon Hst Hcnt]. unfold ak_source_loc_from_offset, deref_file.
  rewrite Hp. simpl. rewrite Hlen. destruct (Z.ltb_spec (zlen text) off) as [Hout|Hin]; [done|].
  pose proof (find_line_ok f text off Hf Hoff) as Hfl.
  destruct (find_line f off) as [k| |]; simpl in *; try done.
  destruct Hfl as (Hk & s & Hs & Hle & Hab). rewrite Hst, (rd_start_ok _ _ s) by (done || lia). simpl.
  destruct (line_at_start text k s off) as [l Hl]; [done|lia|done| |].
  { intros s' Hs'. apply (Hab (k + 1)); [lia|].
    by replace (Z.to_nat (k + 1)) with (S (Z.to_nat k)) by lia. }
  pose proof (line_at_slice _ _ _ _ _ [0] Hl Hin) as Hsl.
  assert (0 <= s) as Hs0 by (by apply offsets_ge in Hs).
  rewrite (u32_small (off - s)) by lia. rewrite Hcon.
  assert (zlen (text ++ [0]) = zlen text + 1) as Hz by (by rewrite zlen_app).
  destruct (utf8_strlen_total (text ++ [0]) s (off - s)) as (n & Hn & Hnr); [lia|lia|lia|].
  rewrite Hn. simpl. pose proof (lines_count text).
  rewrite (u32_small n), (u32_small (n + 1)), (u32_small (k + 1)) by lia.
  exists k, l, s, (n + 1). split; [done|]. split; [done|]. intros cs part Heq Hcs Hpart.
  rewrite (utf8_strlen_chars _ _ _ cs part) in Hn by (done || lia || by rewrite Hsl).
  injection Hn as Hn. lia.
Qed.

(** * The text of lines and ranges *)

Lemma drop_last_snoc c x l : drop_last c (l ++ [x]) = if x =? c then Some l else None.
Proof. unfold drop_last. rewrite reverse_app. simpl. by rewrite reverse_involutive. Qed.

Lemma trim_eol_ok text base l rest floor :
  0 <= floor <= base → base + zlen l < 2 ^ 32 → base <= zlen text →
  drop (Z.to_nat base) text = l ++ rest →
  (floor = base ∨ (l ≠ [] ∧ text !! Z.to_nat (base - 1) = Some LF)) →
  trim_eol text (base + zlen l) floor = Ret (base + zlen (strip_eol l)).
Proof.
  intros Hfl Hsm Hbase Hdrop Hprev. unfold trim_eol.
  assert (∀ i c, 0 <= i → l !! Z.to_nat i = Some c → rd text (base + i) = Ret c) as Hrd.
  { intros i c Hi Hc. apply rd_lookup; [lia|].
    replace (Z.to_nat (base + i)) with (Z.to_nat base + Z.to_nat i)%nat by lia.
    rewrite <- lookup_drop, Hdrop. by apply lookup_app_l_Some. }
  assert (∀ (k : list Z) c, (k ++ [c]) !! Z.to_nat (zlen k) = Some c) as Hlast.
  { intros k c. rewrite lookup_app_r by (unfold zlen; lia).
    by replace (Z.to_nat (zlen k) - length k)%nat with 0%nat by (unfold zlen; lia). }
  destruct l as [|c l1 _] using rev_ind.
  { destruct Hprev as [->|[? _]]; [|done]. rewrite zlen_nil, Z.add_0_r.
    rewrite (proj2 (Z.ltb_ge base base)) by lia. simpl. f_equal. change (zlen (strip_eol [])) with 0. lia. }
  pose proof (zlen_nonneg l1). rewrite zlen_app in *. change (zlen [c]) with 1 in *.
  rewrite (proj2 (Z.ltb_lt floor _)) by lia. simpl.
  replace (base + (zlen l1 + 1) - 1) with (base + zlen l1) by lia.
  rewrite (u32_small (base + zlen l1)), (Hrd _ c) by (done || lia). simpl.
  unfold strip_eol. rewrite drop_last_snoc.
  destruct (Z.eqb_spec c LF) as [->|Hc]; simpl; [|by rewrite zlen_app].
  destruct l1 as [|c2 l2 _] using rev_ind.
  - rewrite zlen_nil, Z.add_0_r. simpl. rewrite zlen_nil, Z.add_0_r.
    destruct Hprev as [->|[_ Hprev]]; [by rewrite (proj2 (Z.ltb_ge base base)) by lia|].
    destruct (Z.ltb_spec floor base); simpl; [|done]. rewrite u32_small by lia.
    by rewrite (rd_lookup _ _ LF) by (done || lia).
  - pose proof (zlen_nonneg l2). rewrite drop_last_snoc. rewrite zlen_app in *.
    change (zlen [c2]) with 1 in *. rewrite (proj2 (Z.ltb_lt floor _)) by lia. simpl.
    replace (base + (zlen l2 + 1) - 1) with (base + zlen l2) by lia.
    rewrite (u32_small (base + zlen l2)) by lia.
    rewrite (Hrd _ c2) by (lia || by apply lookup_app_l_Some). simpl.
    destruct (Z.eqb_spec c2 CR); simpl; [done|]. by rewrite zlen_app.
Qed.

(** A line of a file: its place in the table and in the text. *)
Lemma file_line f text before l after :
  file_wf f text → split_lines text = before ++ l :: after →
  let base := zlen (concat before) in
  let k := zlen before in
  k < line_count f ∧ base + zlen l <= zlen text
  ∧ rd_start (line_starts f) k = Ret base
  ∧ drop (Z.to_nat base) (contents f) = l ++ concat after ++ [0]
  ∧ (after = [] → base + zlen l = zlen text)
  ∧ (after ≠ [] → rd_start (line_starts f) (k + 1) = Ret (base + zlen l) ∧ k + 1 < line_count f).
Proof.
  intros [Hlen Hsm Hcon Hst Hcnt] E base k.
  assert (text = concat before ++ l ++ concat after) as Ht.
  { by rewrite <- (split_lines_join text), E, concat_app. }
  assert (zlen text = base + zlen l + zlen (concat after)) as Hz.
  { rewrite Ht, !zlen_app. unfold base. lia. }
  pose proof (zlen_nonneg (concat after)). pose proof (zlen_nonneg before). pose proof (zlen_nonneg after).
  rewrite E, zlen_app, zlen_cons in Hcnt.
  assert (length (offsets 0 before) = length before) as Hob.
  { pose proof (offsets_length 0 before). unfold zlen in *. lia. }
  split; [lia|]. split; [lia|]. split; [|split; [|split]].
  - rewrite Hst. apply rd_start_ok; [done|]. rewrite E, offsets_app.
    rewrite lookup_app_r by (unfold k, zlen; lia).
    replace (Z.to_nat k - _)%nat with 0%nat by (unfold k, zlen; lia). done.
  - rewrite Hcon, Ht, <- !app_assoc. by rewrite drop_app_length' by (unfold base, zlen; lia).
  - intros ->. change (zlen (concat [])) with 0 in Hz. lia.
  - intros Hne. destruct after as [|q after]; [done|]. rewrite zlen_cons in *.
    pose proof (zlen_nonneg after). split; [|lia].
    rewrite Hst. apply rd_start_ok; [lia|]. rewrite E, offsets_app.
    rewrite lookup_app_r by (unfold k, zlen; lia).
    by replace (Z.to_nat (k + 1) - _)%nat with 1%nat by (unfold k, zlen; lia).
Qed.

(** The byte before a line that is not the first is a line feed, and a line
    before another is not empty. *)
Lemma file_line_prev text before l after :
  split_lines text = before ++ l :: after →
  (before = [] ∨ text !! Z.to_nat (zlen (concat before) - 1) = Some LF)
  ∧ (after ≠ [] → l ≠ []).
Proof.
  intros E. destruct (split_lines_shape text) as (ps & q & E' & HF & _). split.
  - destruct before as [|b before _] using rev_ind; [by left|right].
    assert (full_line b) as (b' & -> & _).
    { rewrite E in E'. rewrite <- app_assoc in E'. rewrite Forall_forall in HF. apply HF.
      assert (b ∈ before ++ b :: l :: after) as Hin
        by (apply elem_of_app; right; apply list_elem_of_here).
      destruct after as [|a after _] using rev_ind.
      - replace (before ++ [b] ++ [l]) with ((before ++ [b]) ++ [l]) in E' by (by rewrite <- app_assoc).
        apply app_inj_tail in E' as [<- _]. apply in_or_app. right. by left.
      - replace (before ++ [b] ++ l :: after ++ [a]) with ((before ++ [b] ++ l :: after) ++ [a]) in E'
          by (by rewrite <- !app_assoc).
        apply app_inj_tail in E' as [<- _]. apply in_or_app. right. by left. }
    rewrite <- (split_lines_join text), E, !concat_app. simpl. rewrite app_nil_r, !zlen_app.
    change (zlen [LF]) with 1. rewrite <- !app_assoc, lookup_app_r by (unfold zlen; lia).
    rewrite lookup_app_r by (unfold zlen; lia).
    by replace (_ - _ - _)%nat with 0%nat by (unfold zlen; lia).
  - intros Hne ->. destruct after as [|a after _] using rev_ind; [done|].
    rewrite E in E'. replace (before ++ [] :: after ++ [a]) with ((before ++ [] :: after) ++ [a]) in E'
      by (by rewrite <- !app_assoc).
    apply app_inj_tail in E' as [<- _]. apply Forall_app in HF as [_ HF].
    apply Forall_cons_1 in HF as [(b & Hb & _) _]. by destruct b.
Qed.

Lemma strip_eol_le l : 0 <= zlen (strip_eol l) <= zlen l.
Proof.
  split; [apply zlen_nonneg|]. unfold strip_eol.
  destruct l as [|c l _] using rev_ind; [done|]. rewrite drop_last_snoc, zlen_app.
  change (zlen [c]) with 1. destruct (c =? LF); simpl; [|rewrite zlen_app; change (zlen [c]) with 1; lia].
  destruct l as [|d l _] using rev_ind; [unfold zlen; simpl; lia|].
  rewrite drop_last_snoc, zlen_app. change (zlen [d]) with 1.
  destruct (d =? CR); simpl; rewrite ?zlen_app; change (zlen [d]) with 1; lia.
Qed.

(** [ak_source_get_line] points at the line with the given number,
    counted from one, and [ak_source_get_line_len] is its length without the
    line feed, or the carriage return and line feed, that ends it; a number that
    is no line gives null and zero. *)
Theorem ak_source_get_line_spec w p f text line :
  w_files w !! p = Some f → file_wf f text → 0 <= line < 2 ^ 32 →
  if (line =? 0) || (zlen (split_lines text) <? line)
  then ak_source_get_line w (Some p) line = Ret None
       ∧ ak_source_get_line_len w (Some p) line = Ret 0
  else ∃ before l after, split_lines text = before ++ l :: after ∧ line = zlen before + 1
       ∧ ak_source_get_line w (Some p) line = Ret (Some (zlen (concat before)))
       ∧ ak_source_get_line_len w (Some p) line = Ret (zlen (strip_eol l)).
Proof.
  intros Hp Hf Hline. pose proof Hf as [Hlen Hsm Hcon Hst Hcnt].
  unfold ak_source_get_line, ak_source_get_line_len, deref_file. rewrite Hp. simpl. rewrite Hcnt.
  destruct (Z.eqb_spec line 0) as [|H0]; simpl; [done|].
  destruct (Z.ltb_spec (zlen (split_lines text)) line) as [|Hle]; [done|].
  destruct (lookup_Z (split_lines text) (line - 1)) as [l Hl]; [lia|].
  pose proof (take_drop_middle _ _ _ Hl) as E. symmetry in E.
  set (before := take (Z.to_nat (line - 1)) (split_lines text)) in *.
  set (after := drop (S (Z.to_nat (line - 1))) (split_lines text)) in *.
  assert (zlen before = line - 1) as Hk by (apply zlen_take; lia).
  exists before, l, after. split; [done|]. split; [lia|].
  destruct (file_line f text before l after Hf E) as (_ & Hfit & Hrd & Hdrop & Hlast & Hnext).
  destruct (file_line_prev text before l after E) as [Hprev Hne].
  pose proof (zlen_nonneg (concat before)). pose proof (zlen_nonneg l). pose proof (strip_eol_le l).
  rewrite Hk in Hrd. rewrite (u32_small (line - 1)) by lia. rewrite Hrd. simpl. split; [done|].
  rewrite <- Hcnt. rewrite u32_small by lia. rewrite Hk in Hnext.
  assert (zlen (contents f) = zlen text + 1) as Hcz by (rewrite Hcon; by rewrite zlen_app).
  assert (before = [] → concat before = []) as Hb0 by (by intros ->).
  destruct (decide (after = [])) as [Ha|Ha].
  - rewrite (proj2 (Z.ltb_ge _ _)).
    2:{ rewrite Hcnt, E, Ha, zlen_app, zlen_cons. change (zlen (@nil (list Z))) with 0. lia. }
    rewrite u32_small by lia. rewrite Hlen, <- (Hlast Ha).
    erewrite trim_eol_ok; [|lia|lia|lia|exact Hdrop|by left]. simpl.
    destruct (Z.ltb_spec (zlen (concat before)) (zlen (concat before) + zlen (strip_eol l)));
      [rewrite u32_small by lia|]; f_equal; lia.
  - destruct (Hnext Ha) as [Hrd' Hlt]. replace (line - 1 + 1) with line in * by lia.
    rewrite (proj2 (Z.ltb_lt _ _)) by done. rewrite Hrd'. simpl.
    erewrite trim_eol_ok; [|lia|lia|lia|exact Hdrop|]; simpl.
    + destruct (Z.ltb_spec (zlen (concat before)) (zlen (concat before) + zlen (strip_eol l)));
        [rewrite u32_small by lia|]; f_equal; lia.
    + destruct Hprev as [->|Hprev]; [by left|]. right. split; [by apply Hne|].
      rewrite Hcon. by apply lookup_app_l_Some.
Qed.

(** The bytes [off] to [off + n - 1]. *)
Definition slice (text : list Z) (off n : Z) : list Z :=
  take (Z.to_nat n) (drop (Z.to_nat off) text).

(** The byte [x] is inside the range. *)
Definition in_range (r : ak_source_range_t) (x : Z) : Prop :=
  offset (start r) <= x < offset (end_ r).

(** Ranges in one file.  Containment is membership of the offset, two
    non-empty ranges overlap exactly when they share an offset, and extraction
    answers a fresh copy of the bytes in the range, terminated; a range that is
    reversed or leaves the text gives null. *)
Theorem ak_source_range_spec `{Allocator} w p f text a b s :
  w_files w !! p = Some f → file_wf f text →
  file (start a) = Some p → file (end_ a) = Some p → file (start b) = Some p →
  0 <= offset (start a) < 2 ^ 32 → 0 <= offset (end_ a) < 2 ^ 32 →
  (∀ line col x, ak_source_range_contains (Some a) (mk_loc (Some p) line col x) = true
     ↔ in_range a x)
  ∧ (offset (start a) < offset (end_ a) → offset (start b) < offset (end_ b) →
     ak_source_range_overlaps (Some a) (Some b) = true ↔ ∃ x, in_range a x ∧ in_range b x)
  ∧ (if (offset (start a) <=? offset (end_ a)) && (offset (end_ a) <=? zlen text)
     then wp (ak_source_extract w a) (λ r s', match r with
            | Some d => balance 1 false s s' ∧
                d = slice text (offset (start a)) (offset (end_ a) - offset (start a)) ++ [0]
            | None => balance 0 true s s'
            end) s
     else ak_source_extract w a s = Ret (None, s)).
Proof.
  intros Hp [Hlen Hsm Hcon _ _] Hsa Hea Hsb Ha Hb. split; [|split].
  - intros line col x. unfold ak_source_range_contains, in_range. rewrite Hsa. simpl.
    rewrite bool_decide_eq_true_2 by done. simpl. rewrite andb_true_iff, Z.leb_le, Z.ltb_lt. lia.
  - intros Hna Hnb. unfold ak_source_range_overlaps, in_range. rewrite Hsa, Hsb. simpl.
    rewrite bool_decide_eq_true_2 by done. simpl. rewrite andb_true_iff, !Z.ltb_lt. split.
    + intros [? ?]. exists (Z.max (offset (start a)) (offset (start b))). lia.
    + intros (x & ? & ?). lia.
  - unfold ak_source_extract, deref_file. rewrite Hsa, Hea, Hp, bool_decide_eq_true_2 by done. simpl.
    set (o := offset (start a)) in *. set (e := offset (end_ a)) in *.
    destruct (Z.leb_spec o e); simpl.
    2:{ unfold mbind, M_bind, lift. simpl. rewrite Hlen. destruct (_ || _); [done|].
        by rewrite (proj2 (Z.ltb_lt e o)). }
    destruct (Z.leb_spec e (zlen text)); simpl.
    2:{ unfold mbind, M_bind, lift. simpl. rewrite Hlen, (proj2 (Z.ltb_lt (zlen text) e)) by done.
        by rewrite orb_true_r. }
    wsteps. rewrite Hlen, (proj2 (Z.ltb_ge (zlen text) o)), (proj2 (Z.ltb_ge (zlen text) e)),
      (proj2 (Z.ltb_ge e o)) by lia. simpl. rewrite u32_small, u64_small by lia. wsteps.
    apply wp_alloc_bytes; [lia| |]; [intros s1 Hs1; wsteps; balance|].
    intros d s1 Hs1 Hd _. wsteps.
    assert (zlen (contents f) = zlen text + 1) as Hcz by (rewrite Hcon; by rewrite zlen_app).
    apply blit_wpo; [lia..|]. intros d1 [Hd1 Hpre _ _]. wsteps. rewrite wr_ok by lia. wsteps.
    split; [balance|]. rewrite Z.add_0_l in Hpre. simpl in Hpre.
    assert (take (Z.to_nat (e - o)) (drop (Z.to_nat o) (contents f)) = slice text o (e - o)) as Hs.
    { unfold slice. rewrite Hcon, drop_app_le, take_app_le by (unfold zlen in *; rewrite ?length_drop; lia).
      done. }
    unfold zlen in *. rewrite insert_take_drop by lia.
    rewrite Hpre, Hs, (drop_ge d1) by lia. done.
Qed.

(** * Witnesses *)

Section witnesses.
#[local] Existing Instance always_alloc.

(** The text ["a\n\303\251b\r\n"], two lines, the second with a two-byte
    character. *)
Definition wtext : list Z := [97; 10; 195; 169; 98; 13; 10].
Definition wfile : ak_source_file_s := mk_file 1 (wtext ++ [0]) 7 [Some 0; Some 2] 2 1.
Definition wtable : intern_table_t :=
  mk_table (replicate (Z.to_nat INITIAL_TABLE_SIZE) []) INITIAL_TABLE_SIZE 0 0 true 2.
Definition wworld : world :=
  mk_world wtable (mk_system 1 7 true) {[ 1%positive := wfile ]} 2.

Lemma wfile_wf : file_wf wfile wtext.
Proof. by split. Qed.

Lemma wworld_wf : world_wf wworld.
Proof.
  split; [apply table_wf_empty| |].
  - intros p f Hp. simpl in Hp. apply lookup_singleton_Some in Hp as [<- <-]. split; [done|]. split; [exists wtext; apply wfile_wf|done].
  - intros _. done.
Qed.

Lemma ak_source_file_new_spec_witness :
  wp (ak_source_file_new wworld true (Some [102; 0]) (Some wtext) 7)
    (file_made wworld true [102] wtext mem0) mem0.
Proof.
  apply (ak_source_file_new_spec wworld true [102; 0] [102] wtext 7 mem0 wworld_wf eq_refl);
    [repeat constructor; lia|done|done|done].
Defined.

Lemma ak_source_file_lifetime_spec_witness :
  ak_sourceloc_stats wworld = (1, 7)
  ∧ wp (ak_source_file_release wworld (Some 1%positive)) (λ w' s',
      w_files w' = ∅ ∧ balance (-3) false mem0 s') mem0.
Proof.
  destruct (ak_source_file_lifetime_spec wworld 1 wfile mem0 wworld_wf eq_refl) as (H1 & _ & H3).
  split; [exact (H1 eq_refl)|]. eapply wp_mono; [exact H3|].
  intros w' s' [_ [-> Hb]]. split; [done|exact Hb].
Defined.

(** After a NUL all offsets of a line have the same column. *)
Lemma source_loc_after_nul : utf8_strlen [97; 0; 98; 0] 0 2 = Ret 1 ∧ utf8_strlen [97; 0; 98; 0] 0 1 = Ret 1.
Proof. done. Qed.

Lemma ak_source_loc_from_offset_spec_witness :
  ∃ k l base col, ak_source_loc_from_offset wworld (Some 1%positive) 5
      = Ret (mk_loc (Some 1%positive) (k + 1) col 5)
    ∧ line_at (split_lines wtext) k l base 5.
Proof.
  destruct (ak_source_loc_from_offset_spec wworld 1 wfile wtext 5 eq_refl wfile_wf)
    as (k & l & base & col & H1 & H2 & _); [done|]. by exists k, l, base, col.
Defined.

Lemma ak_source_get_line_spec_witness :
  ∃ l, [[97; 10]] ++ [l] = split_lines wtext
    ∧ ak_source_get_line_len wworld (Some 1%positive) 2 = Ret (zlen (strip_eol l)).
Proof.
  destruct (ak_source_get_line_spec wworld 1 wfile wtext 2 eq_refl wfile_wf)
    as (before & l & after & E & Hk & _ & H); [done|].
  exists [195; 169; 98; 13; 10]. split; [done|]. rewrite H.
  destruct before as [|b1 [|b2 before]]; unfold zlen in Hk; simpl in Hk; [lia| |lia].
  by injection E as _ <- _.
Defined.

(** The second line, and the start of it. *)
Definition wrange : ak_source_range_t :=
  mk_range (mk_loc (Some 1%positive) 2 1 2) (mk_loc (Some 1%positive) 2 4 7).

Lemma ak_source_range_spec_witness :
  (∃ x, in_range wrange x ∧ in_range wrange x)
  ∧ wp (ak_source_extract wworld wrange) (λ r _, ∀ d, r = Some d → d = [195; 169; 98; 13; 10; 0]) mem0.
Proof.
  destruct (ak_source_range_spec wworld 1 wfile wtext wrange wrange mem0 eq_refl wfile_wf
    eq_refl eq_refl eq_refl) as (_ & H2 & H3); [done|done|]. split.
  - apply H2; [done|done|reflexivity].
  - eapply wp_mono; [exact H3|]. intros [d|] s' Hd d' [= <-]. by destruct Hd as [_ ->].
Defined.
End witnesses.
