(* ===== verification/Arbuff.v ===== *)
(** The ring buffer shared by threads: [kernel/arbuff/src/arbuff.c].

    Push and pop are programs of atomic operations: [thread_step] performs the
    next one of a thread, and [step] lets any thread go next, so that the
    theorem on runs covers every interleaving of any number of producers and
    consumers.  Atomic operations take effect one after the other (sequential
    consistency); a weak compare-exchange may fail for no reason.  Run alone, a
    call is [run].  The position of a push or a pop, its ticket, is the value of
    [head] or [tail] it claimed. *)

From stdpp Require Import gmap relations.
From S2P Require Import Prelude.

Record ak_arbuff_slot_t := mk_slot {
  value : Z;
  sequence : Z;
}.

Record ak_arbuff_t := mk_arbuff {
  slots : list ak_arbuff_slot_t;
  capacity : Z;
  mask : Z;
  head : Z;
  tail : Z;
}.

Definition sizeof_ak_arbuff_t : Z := 40.
Definition sizeof_ak_arbuff_slot_t : Z := 16.

Definition next_power_of_2 (n : Z) : Z :=
  if n =? 0 then 1 else
  let n := u64 (n - 1) in
  let n := Z.lor n (Z.shiftr n 1) in
  let n := Z.lor n (Z.shiftr n 2) in
  let n := Z.lor n (Z.shiftr n 4) in
  let n := Z.lor n (Z.shiftr n 8) in
  let n := Z.lor n (Z.shiftr n 16) in
  let n := Z.lor n (Z.shiftr n 32) in
  u64 (n + 1).

(** The block has as many slots as the size asked for holds; its words are
    written before they are read. *)
Definition ak_arbuff_new `{Allocator} (capacity : Z) : M (option ak_arbuff_t) :=
  if capacity =? 0 then mret None else
  let capacity := next_power_of_2 capacity in
  ok ← alloc_obj sizeof_ak_arbuff_t;
  if negb ok then mret None else
  let size := u64 (sizeof_ak_arbuff_slot_t * capacity) in
  ok ← alloc_obj size;
  if negb ok then _ ← free_obj; mret None else
  let block := replicate (Z.to_nat (size / sizeof_ak_arbuff_slot_t)) (mk_slot 0 0) in
  slots ← lift (loop (S (Z.to_nat capacity)) (λ '(slots, i),
    if i <? capacity then
      slots ← wr slots i (mk_slot 0 i); Ret (inl (slots, i + 1))
    else Ret (inr slots)) (block, 0));
  mret (Some (mk_arbuff slots capacity (u64 (capacity - 1)) 0 0)).

Definition ak_arbuff_free `{Allocator} (arbuff : option ak_arbuff_t) : M () :=
  match arbuff with
  | None => mret ()
  | Some _ => _ ← free_obj; free_obj
  end.

(** Where a thread is in a call: what it does next, and what it has loaded. *)
Inductive pc : Type :=
| Push_head (item : Z)
| Push_seq (item head : Z)
| Push_cas (item head : Z)
| Push_value (item head : Z)
| Push_publish (item head : Z)
| Pushed (r : Z)
| Pop_tail
| Pop_seq (tail : Z)
| Pop_cas (tail : Z)
| Pop_value (tail : Z)
| Pop_publish (tail item : Z)
| Popped (item : Z).

Definition slot_of (a : ak_arbuff_t) (ticket : Z) : outcome ak_arbuff_slot_t :=
  rd (slots a) (Z.land ticket (mask a)).

Definition set_slot (a : ak_arbuff_t) (ticket : Z) (s : ak_arbuff_slot_t) : outcome ak_arbuff_t :=
  slots ← wr (slots a) (Z.land ticket (mask a)) s;
  Ret (mk_arbuff slots (capacity a) (mask a) (head a) (tail a)).

Definition set_head (a : ak_arbuff_t) (h : Z) : ak_arbuff_t :=
  mk_arbuff (slots a) (capacity a) (mask a) h (tail a).
Definition set_tail (a : ak_arbuff_t) (t : Z) : ak_arbuff_t :=
  mk_arbuff (slots a) (capacity a) (mask a) (head a) t.

(** [(intptr_t)x - (intptr_t)y] *)
Definition ptr_diff (x y : Z) : Z := i64 (i64 x - i64 y).

(** One atomic operation; [spurious]: a compare-exchange fails without cause. *)
Definition thread_step (spurious : bool) (a : ak_arbuff_t) (p : pc) : outcome (ak_arbuff_t * pc) :=
  match p with
  | Push_head item => Ret (a, Push_seq item (head a))
  | Push_seq item h =>
      s ← slot_of a h;
      let diff := ptr_diff (sequence s) h in
      Ret (a, if diff =? 0 then Push_cas item h
              else if diff <? 0 then Pushed (-1) else Push_head item)
  | Push_cas item h =>
      if negb spurious && (head a =? h) then Ret (set_head a (u64 (h + 1)), Push_value item h)
      else Ret (a, Push_head item)
  | Push_value item h =>
      s ← slot_of a h;
      a ← set_slot a h (mk_slot item (sequence s));
      Ret (a, Push_publish item h)
  | Push_publish item h =>
      s ← slot_of a h;
      a ← set_slot a h (mk_slot (value s) (u64 (h + 1)));
      Ret (a, Pushed 0)
  | Pop_tail => Ret (a, Pop_seq (tail a))
  | Pop_seq t =>
      s ← slot_of a t;
      let diff := ptr_diff (sequence s) (u64 (t + 1)) in
      Ret (a, if diff =? 0 then Pop_cas t
              else if diff <? 0 then Popped 0 else Pop_tail)
  | Pop_cas t =>
      if negb spurious && (tail a =? t) then Ret (set_tail a (u64 (t + 1)), Pop_value t)
      else Ret (a, Pop_tail)
  | Pop_value t =>
      s ← slot_of a t;
      Ret (a, Pop_publish t (value s))
  | Pop_publish t item =>
      s ← slot_of a t;
      a ← set_slot a t (mk_slot (value s) (u64 (t + mask a + 1)));
      Ret (a, Popped item)
  | Pushed _ | Popped _ => Ret (a, p)
  end.

(** A call run alone to its return. *)
Definition run (fuel : nat) (a : ak_arbuff_t) (p : pc) : outcome (ak_arbuff_t * Z) :=
  loop fuel (λ '(a, p),
    match p with
    | Pushed r | Popped r => Ret (inr (a, r))
    | _ => r ← thread_step false a p; Ret (inl r)
    end) (a, p).

(** A call alone takes at most five steps, or never returns. *)
Definition call_fuel : nat := 6.

Definition ak_arbuff_push (a : option ak_arbuff_t) (item : Z) : outcome (option ak_arbuff_t * Z) :=
  match a with
  | None => Ret (None, -1)
  | Some a => '(a, r) ← run call_fuel a (Push_head item); Ret (Some a, r)
  end.

Definition ak_arbuff_pop (a : option ak_arbuff_t) : outcome (option ak_arbuff_t * Z) :=
  match a with
  | None => Ret (None, 0)
  | Some a => '(a, r) ← run call_fuel a Pop_tail; Ret (Some a, r)
  end.

Definition ak_arbuff_peek (a : option ak_arbuff_t) : outcome Z :=
  match a with
  | None => Ret 0
  | Some a =>
      s ← slot_of a (tail a);
      Ret (if ptr_diff (sequence s) (u64 (tail a + 1)) =? 0 then value s else 0)
  end.

Definition ak_arbuff_count (a : option ak_arbuff_t) : Z :=
  match a with
  | None => 0
  | Some a => if tail a <=? head a then u64 (head a - tail a) else 0
  end.

Definition ak_arbuff_capacity (a : option ak_arbuff_t) : Z :=
  match a with
  | None => 0
  | Some a => capacity a
  end.

Definition ak_arbuff_is_empty (a : option ak_arbuff_t) : Z :=
  match a with
  | None => 1
  | Some a => if head a =? tail a then 1 else 0
  end.

Definition ak_arbuff_is_full (a : option ak_arbuff_t) : Z :=
  match a with
  | None => 0
  | Some a => if capacity a <=? u64 (head a - tail a) then 1 else 0
  end.

Definition ak_arbuff_clear (a : option ak_arbuff_t) : outcome (option ak_arbuff_t) :=
  match a with
  | None => Ret None
  | Some a =>
      let h := head a in
      slots ← loop (S (Z.to_nat (capacity a))) (λ '(slots, i),
        if i <? capacity a then
          slots ← wr slots i (mk_slot 0 (u64 (h + i))); Ret (inl (slots, i + 1))
        else Ret (inr slots)) (slots a, 0);
      Ret (Some (mk_arbuff slots (capacity a) (mask a) h h))
  end.

(** * Threads *)

(** The shared buffer and the threads.  Two lists record the history: the items
    of the successful pushes, by ticket, and the tickets and items of the pops. *)
Record conf := mk_conf {
  buf : ak_arbuff_t;
  threads : gmap nat pc;
  claimed : list Z;
  returned : list (Z * Z);
}.

Definition claim (p p' : pc) : list Z :=
  match p, p' with
  | Push_cas item _, Push_value _ _ => [item]
  | _, _ => []
  end.

Definition taken (p p' : pc) : list (Z * Z) :=
  match p, p' with
  | Pop_value t, Pop_publish _ item => [(t, item)]
  | _, _ => []
  end.

Definition finished (p : pc) : bool :=
  match p with
  | Pushed _ | Popped _ => true
  | _ => false
  end.

(** A thread that is in no call starts one, or one in a call goes on. *)
Inductive step : conf → conf → Prop :=
| step_call c tid p :
    (∀ q, threads c !! tid = Some q → finished q = true) →
    (p = Pop_tail ∨ ∃ item, p = Push_head item) →
    step c (mk_conf (buf c) (<[tid := p]> (threads c)) (claimed c) (returned c))
| step_thread c tid p spurious a' p' :
    threads c !! tid = Some p → thread_step spurious (buf c) p = Ret (a', p') →
    step c (mk_conf a' (<[tid := p']> (threads c)) (claimed c ++ claim p p')
              (returned c ++ taken p p')).

(** * The invariant *)

(** The slot of a ticket. *)
Definition slot_at (a : ak_arbuff_t) (k : Z) : option ak_arbuff_slot_t :=
  slots a !! Z.to_nat (k mod capacity a).

(** The state of the slot of ticket [k], one of the last [capacity] tickets
    pushes have claimed or skipped.  Not yet claimed by a pop: its item is still
    being written, or it is there.  Claimed by a pop: its item is still being
    read, or the slot is free for the next ticket. *)
Definition ticket_ok (a : ak_arbuff_t) (L : list Z) (k : Z) : Prop :=
  ∃ s, slot_at a k = Some s ∧
  if tail a <=? k
  then sequence s = k ∨ (sequence s = k + 1 ∧ L !! Z.to_nat k = Some (value s))
  else (sequence s = k + 1 ∧ 0 <= k ∧ L !! Z.to_nat k = Some (value s))
       ∨ sequence s = k + capacity a.

Record buf_ok (a : ak_arbuff_t) (L : list Z) : Prop := mk_buf_ok {
  bo_cap : ∃ m, 1 <= m <= 59 ∧ capacity a = 2 ^ m;
  bo_mask : mask a = capacity a - 1;
  bo_slots : zlen (slots a) = capacity a;
  bo_head : head a = zlen L;
  bo_small : head a < 2 ^ 62;
  bo_tail : 0 <= tail a <= head a;
  bo_room : head a <= tail a + capacity a;
  bo_tickets : ∀ k, head a - capacity a <= k < head a → ticket_ok a L k;
}.

(** What a thread knows between two operations. *)
Definition thread_ok (a : ak_arbuff_t) (L : list Z) (p : pc) : Prop :=
  match p with
  | Push_seq _ h => 0 <= h <= head a
  | Push_cas _ h => 0 <= h <= head a ∧ (h = head a → sequence <$> slot_at a h = Some h)
  | Push_value item k => 0 <= k < head a ∧ L !! Z.to_nat k = Some item
      ∧ sequence <$> slot_at a k = Some k
  | Push_publish item k => 0 <= k < head a ∧ L !! Z.to_nat k = Some item
      ∧ slot_at a k = Some (mk_slot item k)
  | Pop_seq t => 0 <= t <= tail a
  | Pop_cas t => 0 <= t <= tail a ∧ (t = tail a → sequence <$> slot_at a t = Some (t + 1))
  | Pop_value k => 0 <= k < tail a ∧ ∃ item, L !! Z.to_nat k = Some item
      ∧ slot_at a k = Some (mk_slot item (k + 1))
  | Pop_publish k item => 0 <= k < tail a ∧ L !! Z.to_nat k = Some item
      ∧ sequence <$> slot_at a k = Some (k + 1)
  | Push_head _ | Pushed _ | Pop_tail | Popped _ => True
  end.

(** The ticket a thread holds. *)
Definition push_ticket (p : pc) : option Z :=
  match p with
  | Push_value _ k | Push_publish _ k => Some k
  | _ => None
  end.
Definition pop_ticket (p : pc) : option Z :=
  match p with
  | Pop_value k | Pop_publish k _ => Some k
  | _ => None
  end.

Definition apart (p q : pc) : Prop :=
  (∀ k, push_ticket p = Some k → push_ticket q ≠ Some k)
  ∧ (∀ k, pop_ticket p = Some k → pop_ticket q ≠ Some k).

Section tickets.
Context (a : ak_arbuff_t) (L : list Z) (Hok : buf_ok a L).

Lemma cap_range : 2 <= capacity a <= 2 ^ 59.
Proof.
  destruct (bo_cap _ _ Hok) as (m & Hm & ->). split.
  - change 2 with (2 ^ 1) at 1. apply Z.pow_le_mono_r; lia.
  - apply Z.pow_le_mono_r; lia.
Qed.

Lemma slot_index k : Z.land k (mask a) = k mod capacity a.
Proof.
  rewrite (bo_mask _ _ Hok). destruct (bo_cap _ _ Hok) as (m & Hm & ->).
  rewrite <- Z.land_ones by lia. by rewrite Z.ones_equiv, Z.sub_1_r.
Qed.

Lemma slot_ex k : ∃ s, slot_at a k = Some s ∧ slot_of a k = Ret s
  ∧ ∀ s', set_slot a k s' = Ret (mk_arbuff (<[Z.to_nat (k mod capacity a) := s']> (slots a))
                                  (capacity a) (mask a) (head a) (tail a)).
Proof.
  pose proof cap_range. pose proof (bo_slots _ _ Hok) as Hl.
  assert (0 <= k mod capacity a < capacity a) as Hm by (apply Z.mod_pos_bound; lia).
  destruct (lookup_lt_is_Some_2 (slots a) (Z.to_nat (k mod capacity a))) as [s Hs];
    [unfold zlen in Hl; lia|].
  exists s. unfold slot_of, set_slot. rewrite slot_index. split; [done|].
  split; [by apply rd_lookup; [lia|]|]. intros s'. by rewrite wr_ok by lia.
Qed.

(** Close tickets with one slot are equal, and successive ones have two. *)
Lemma same_slot j k :
  j mod capacity a = k mod capacity a → k <= j < k + capacity a → j = k.
Proof.
  pose proof cap_range. intros E Hr.
  assert ((j - k) mod capacity a = 0) as H0 by (by rewrite Zminus_mod, E, Z.sub_diag, Z.mod_0_l by lia).
  rewrite Z.mod_small in H0 by lia. lia.
Qed.

Lemma next_slot k : (k + 1) mod capacity a ≠ k mod capacity a.
Proof. pose proof cap_range. intros E. apply same_slot in E; lia. Qed.

Lemma slot_period k : (k + capacity a) mod capacity a = k mod capacity a.
Proof. pose proof cap_range. rewrite <- (Z.mul_1_l (capacity a)) at 1. apply Z.mod_add. lia. Qed.

(** Every slot belongs to one ticket of the window. *)
Lemma window k : ∃ k', head a - capacity a <= k' < head a ∧ k' mod capacity a = k mod capacity a.
Proof.
  pose proof cap_range. set (b := head a - capacity a).
  exists (b + (k - b) mod capacity a).
  pose proof (Z.mod_pos_bound (k - b) (capacity a)). split; [unfold b in *; lia|].
  rewrite Z.add_mod_idemp_r by lia. f_equal. lia.
Qed.

(** What the sequence of a slot says about its ticket. *)
Lemma seq_push k :
  0 <= k < head a → sequence <$> slot_at a k = Some k →
  tail a <= k ∧ head a - capacity a <= k.
Proof.
  pose proof cap_range. intros Hk Hs. destruct (window k) as (k' & Hw & E).
  destruct (bo_tickets _ _ Hok k' Hw) as (s & Hs' & Hst). unfold slot_at in *. rewrite E in Hs'.
  rewrite Hs' in Hs. injection Hs as Hs. pose proof (next_slot k').
  destruct (Z.leb_spec (tail a) k'); destruct Hst as [Hst|Hst]; rewrite ?Hs in Hst.
  - lia.
  - destruct Hst as [Hst _]. congruence.
  - destruct Hst as [Hst _]. congruence.
  - lia.
Qed.

Lemma seq_pop k :
  0 <= k < tail a → sequence <$> slot_at a k = Some (k + 1) → head a - capacity a <= k.
Proof.
  pose proof cap_range. intros Hk Hs. destruct (window k) as (k' & Hw & E).
  destruct (bo_tickets _ _ Hok k' Hw) as (s & Hs' & Hst). unfold slot_at in *. rewrite E in Hs'.
  rewrite Hs' in Hs. injection Hs as Hs. pose proof (next_slot k). pose proof (slot_period k').
  destruct (Z.leb_spec (tail a) k'); destruct Hst as [Hst|Hst]; rewrite ?Hs in Hst.
  - congruence.
  - lia.
  - lia.
  - congruence.
Qed.

(** The next ticket's slot is free when its sequence says so. *)
Lemma seq_head : sequence <$> slot_at a (head a) = Some (head a) → head a < tail a + capacity a.
Proof.
  pose proof cap_range. intros Hs. pose proof (bo_room _ _ Hok).
  destruct (bo_tickets _ _ Hok (head a - capacity a)) as (s & Hs' & Hst); [lia|].
  unfold slot_at in *. rewrite <- slot_period, Z.sub_add in Hs'.
  rewrite Hs' in Hs. injection Hs as Hs. destruct (Z.leb_spec (tail a) (head a - capacity a)); lia.
Qed.

Lemma seq_tail :
  sequence <$> slot_at a (tail a) = Some (tail a + 1) → tail a < head a
  ∧ ∃ item, slot_at a (tail a) = Some (mk_slot item (tail a + 1))
      ∧ L !! Z.to_nat (tail a) = Some item.
Proof.
  pose proof cap_range. intros Hs. pose proof (bo_room _ _ Hok). pose proof (bo_tail _ _ Hok).
  destruct (decide (tail a = head a)) as [E|].
  - destruct (bo_tickets _ _ Hok (head a - capacity a)) as (s & Hs' & Hst); [lia|].
    unfold slot_at in *. rewrite E in Hs. rewrite <- slot_period, Z.sub_add in Hs'.
    rewrite Hs' in Hs. injection Hs as Hs.
    destruct (Z.leb_spec (tail a) (head a - capacity a)); lia.
  - split; [lia|]. destruct (bo_tickets _ _ Hok (tail a)) as (s & Hs' & Hst); [lia|].
    rewrite Z.leb_refl in Hst. rewrite Hs' in Hs. injection Hs as Hs.
    destruct Hst as [Hst|[_ Hst]]; [lia|]. exists (value s). destruct s. simpl in *. by subst.
Qed.
End tickets.

(** * The transitions keep the invariant *)

(** The buffer with another slot for a ticket. *)
Definition upd (a : ak_arbuff_t) (k : Z) (s : ak_arbuff_slot_t) : ak_arbuff_t :=
  mk_arbuff (<[Z.to_nat (k mod capacity a) := s]> (slots a)) (capacity a) (mask a) (head a) (tail a).

(** Thread [p] holds ticket [k], to write or to read its slot. *)
Definition holds (a : ak_arbuff_t) (p : pc) (k : Z) : Prop :=
  (push_ticket p = Some k ∧ 0 <= k < head a ∧ sequence <$> slot_at a k = Some k)
  ∨ (pop_ticket p = Some k ∧ 0 <= k < tail a ∧ sequence <$> slot_at a k = Some (k + 1)).

Section transitions.
Context (a : ak_arbuff_t) (L : list Z) (Hok : buf_ok a L).

Lemma slot_at_upd k s : slot_at (upd a k s) k = Some s.
Proof.
  pose proof (cap_range a L Hok). pose proof (bo_slots _ _ Hok) as Hl.
  pose proof (Z.mod_pos_bound k (capacity a)). unfold slot_at, upd. simpl.
  apply list_lookup_insert_eq. unfold zlen in Hl. lia.
Qed.

Lemma slot_at_upd_ne k s j :
  j mod capacity a ≠ k mod capacity a → slot_at (upd a k s) j = slot_at a j.
Proof.
  intros Hne. pose proof (cap_range a L Hok). unfold slot_at, upd. simpl.
  pose proof (Z.mod_pos_bound k (capacity a)). pose proof (Z.mod_pos_bound j (capacity a)).
  apply list_lookup_insert_ne. lia.
Qed.

Lemma slot_at_same k j : j mod capacity a = k mod capacity a → slot_at a j = slot_at a k.
Proof. intros E. unfold slot_at. by rewrite E. Qed.

Lemma holds_window p k : holds a p k → head a - capacity a <= k < head a.
Proof.
  pose proof (bo_tail _ _ Hok).
  intros [(_ & Hk & Hs)|(_ & Hk & Hs)].
  - apply (seq_push a L Hok) in Hs; [|done]. lia.
  - apply (seq_pop a L Hok) in Hs; [|done]. lia.
Qed.

Lemma buf_ok_upd p k s :
  holds a p k → ticket_ok (upd a k s) L k → buf_ok (upd a k s) L.
Proof.
  intros Hh Hk. pose proof (holds_window _ _ Hh) as Hw. destruct Hok. split; simpl; try done.
  - by rewrite zlen_insert.
  - intros j Hj. destruct (decide (j mod capacity a = k mod capacity a)) as [E|Hne].
    + assert (j = k) as ->; [|done]. destruct (decide (k <= j)).
      * apply (same_slot a L Hok); [done|lia].
      * symmetry. apply (same_slot a L Hok); [done|lia].
    + unfold ticket_ok. rewrite slot_at_upd_ne by done. by apply bo_tickets0.
Qed.

(** A thread that does not hold the ticket keeps what it knows. *)
Lemma thread_ok_upd p k s q :
  holds a p k → apart p q → thread_ok a L q → thread_ok (upd a k s) L q.
Proof.
  intros Hh [Hpush Hpop] Hq.
  assert (∀ j σ, sequence <$> slot_at a j = Some σ → j mod capacity a = k mod capacity a →
    (push_ticket p = Some k ∧ σ = k ∧ k < head a) ∨ (pop_ticket p = Some k ∧ σ = k + 1 ∧ k < tail a))
    as Hsame.
  { intros j σ Hs E. rewrite (slot_at_same _ _ E) in Hs.
    destruct Hh as [(? & ? & Hs')|(? & ? & Hs')]; rewrite Hs' in Hs; injection Hs as <-;
      [left|right]; (split; [done|]; split; [done|]; lia). }
  pose proof (next_slot a L Hok k) as Hn. pose proof (bo_tail _ _ Hok).
  assert (∀ j, sequence <$> slot_at a j = Some j → (push_ticket q = Some j ∨ j = head a) →
    slot_at (upd a k s) j = slot_at a j) as Kpush.
  { intros j Hs Hj. apply slot_at_upd_ne. intros E.
    destruct (Hsame _ _ Hs E) as [(Hp & -> & ?)|(_ & -> & _)]; [|done].
    destruct Hj as [Hj|]; [by apply (Hpush k)|lia]. }
  assert (∀ j, sequence <$> slot_at a j = Some (j + 1) → (pop_ticket q = Some j ∨ j = tail a) →
    slot_at (upd a k s) j = slot_at a j) as Kpop.
  { intros j Hs Hj. apply slot_at_upd_ne. intros E.
    destruct (Hsame _ _ Hs E) as [(_ & Ej & _)|(Hp & Ej & ?)].
    - rewrite <- Ej in E. by apply (next_slot a L Hok j).
    - assert (j = k) as -> by lia. destruct Hj as [Hj|]; [by apply (Hpop k)|lia]. }
  destruct q; simpl in *; try done.
  - destruct Hq as [Hr Hq]. split; [done|]. intros E. rewrite Kpush by (try (by right); by apply Hq).
    by apply Hq.
  - destruct Hq as (? & ? & Hq). rewrite Kpush by (by auto). done.
  - destruct Hq as (? & ? & Hq). rewrite Kpush by (try (by left); by rewrite Hq). done.
  - destruct Hq as [Hr Hq]. split; [done|]. intros E. rewrite Kpop by (try (by right); by apply Hq).
    by apply Hq.
  - destruct Hq as (? & item & ? & Hq). split; [done|]. exists item.
    rewrite Kpop by (try (by left); by rewrite Hq). done.
  - destruct Hq as (? & ? & Hq). rewrite Kpop by (by auto). done.
Qed.

Lemma lookup_claimed k (item : Z) item' :
  0 <= k < head a → L !! Z.to_nat k = Some item → (L ++ [item']) !! Z.to_nat k = Some item.
Proof. intros _ Hk. by apply lookup_app_l_Some. Qed.

(** A push claims the next ticket. *)
Lemma buf_ok_claim item :
  head a + 1 < 2 ^ 62 → sequence <$> slot_at a (head a) = Some (head a) →
  buf_ok (set_head a (head a + 1)) (L ++ [item])
  ∧ (∀ q, thread_ok a L q → thread_ok (set_head a (head a + 1)) (L ++ [item]) q)
  ∧ (L ++ [item]) !! Z.to_nat (head a) = Some item.
Proof.
  intros Hsm Hs. pose proof (seq_head a L Hok Hs). pose proof Hok as [Hc Hm Hl Hh _ Ht Hr Hk].
  assert ((L ++ [item]) !! Z.to_nat (head a) = Some item) as Hnew.
  { rewrite lookup_app_r by (unfold zlen in *; lia).
    by replace (Z.to_nat (head a) - length L)%nat with 0%nat by (unfold zlen in *; lia). }
  split; [|split; [|done]].
  - split; simpl; try done; try lia.
    + rewrite zlen_app, <- Hh. done.
    + intros k Hw. unfold ticket_ok, slot_at. simpl.
      destruct (decide (k = head a)) as [->|Hne].
      * destruct (slot_at a (head a)) as [s|] eqn:E; [|done]. injection Hs as Hs. exists s.
        split; [done|]. rewrite (proj2 (Z.leb_le _ _)) by lia. by left.
      * destruct (Hk k) as (s & Hs' & Hst); [lia|]. exists s. split; [done|].
        destruct (tail a <=? k); destruct Hst as [Hst|Hst]; try (by left); try (by right).
        -- destruct Hst. right. split; [done|]. by apply lookup_app_l_Some.
        -- destruct Hst as (? & ? & ?). left. split; [done|]. split; [done|].
           by apply lookup_app_l_Some.
  - assert (∀ k x, L !! k = Some x → (L ++ [item]) !! k = Some x) as HL
      by (intros; by apply lookup_app_l_Some).
    intros q Hq. destruct q; simpl in *; try done.
    + lia.
    + split; [lia|]. intros ->. lia.
    + destruct Hq as (? & ? & ?). split; [lia|]. by auto.
    + destruct Hq as (? & ? & ?). split; [lia|]. by auto.
    + destruct Hq as (? & x & ? & ?). split; [done|]. exists x. by auto.
    + destruct Hq as (? & ? & ?). by auto.
Qed.

(** A pop claims the next ticket. *)
Lemma buf_ok_take :
  sequence <$> slot_at a (tail a) = Some (tail a + 1) →
  buf_ok (set_tail a (tail a + 1)) L
  ∧ (∀ q, thread_ok a L q → thread_ok (set_tail a (tail a + 1)) L q).
Proof.
  intros Hs. destruct (seq_tail a L Hok Hs) as (Hlt & item & Hs' & Hi).
  pose proof Hok as [Hc Hm Hl Hh Hsm Ht Hr Hk]. split.
  - split; simpl; try done; try lia.
    intros k Hw. unfold ticket_ok, slot_at. simpl. destruct (Hk k Hw) as (s & Hsk & Hst).
    destruct (decide (k = tail a)) as [->|Hne].
    + exists s. split; [done|]. rewrite (proj2 (Z.leb_gt _ _)) by lia. left.
      rewrite Hs' in Hsk. injection Hsk as <-. simpl. split; [done|]. split; [lia|done].
    + exists s. split; [done|]. destruct (Z.leb_spec (tail a) k).
      * by rewrite (proj2 (Z.leb_le _ _)) by lia.
      * by rewrite (proj2 (Z.leb_gt _ _)) by lia.
  - intros q Hq. destruct q; simpl in *; try done.
    + lia.
    + split; [lia|]. intros ->. lia.
    + destruct Hq as (? & ?). split; [lia|done].
    + destruct Hq as (? & ?). split; [lia|done].
Qed.
End transitions.

Lemma ptr_diff_small x y : 0 <= x < 2 ^ 63 → 0 <= y < 2 ^ 63 → ptr_diff x y = x - y.
Proof. intros Hx Hy. unfold ptr_diff. rewrite (i64_small x), (i64_small y), i64_small by lia. done. Qed.

Lemma seq_range a L k s :
  buf_ok a L → slot_at a k = Some s → 0 <= sequence s < 2 ^ 63.
Proof.
  intros Hok Hs. pose proof (cap_range a L Hok). pose proof (bo_tail _ _ Hok).
  pose proof (bo_small _ _ Hok). pose proof (bo_room _ _ Hok).
  destruct (window a L Hok k) as (k' & Hw & E). destruct (bo_tickets _ _ Hok k' Hw) as (s' & Hs' & Hst).
  unfold slot_at in *. rewrite E, Hs in Hs'. injection Hs' as <-.
  assert (2 ^ 62 + 2 ^ 59 < 2 ^ 63) by done.
  destruct (Z.leb_spec (tail a) k'); destruct Hst as [Hst|Hst].
  - lia.
  - destruct Hst. lia.
  - destruct Hst as (? & ? & _). lia.
  - lia.
Qed.

Lemma apart_sym p q : apart p q → apart q p.
Proof. intros [H1 H2]. split; intros k Hk Hk'; [by apply (H1 k)|by apply (H2 k)]. Qed.

(** What a step means for the history of pops: nothing, a pop claims the next
    ticket, or it reads the item of its ticket. *)
Definition log_step (a a' : ak_arbuff_t) (p p' : pc) : Prop :=
  (tail a' = tail a ∧ taken p p' = [] ∧ ∀ k, p ≠ Pop_value k ∧ p' ≠ Pop_value k)
  ∨ (tail a' = tail a + 1 ∧ taken p p' = [] ∧ p' = Pop_value (tail a) ∧ ∀ k, p ≠ Pop_value k)
  ∨ (tail a' = tail a ∧ ∃ k item, p = Pop_value k ∧ p' = Pop_publish k item).

(** A step of a thread, in a buffer in order. *)
Definition steps_ok (a : ak_arbuff_t) (L : list Z) (p : pc) (a' : ak_arbuff_t) (p' : pc) : Prop :=
  buf_ok a' (L ++ claim p p') ∧ thread_ok a' (L ++ claim p p') p'
  ∧ head a <= head a' <= head a + 1 ∧ log_step a a' p p'
  ∧ (∀ q, thread_ok a L q → apart p q → thread_ok a' (L ++ claim p p') q ∧ apart p' q).

Section thread_steps.
Context (a : ak_arbuff_t) (L : list Z) (Hok : buf_ok a L).

(** A step that writes nothing and holds no other ticket. *)
Lemma steps_ok_same p p' :
  thread_ok a L p' → claim p p' = [] → taken p p' = [] →
  (∀ k, p ≠ Pop_value k ∧ p' ≠ Pop_value k) → push_ticket p' = None → pop_ticket p' = None →
  steps_ok a L p a p'.
Proof.
  intros Hp Hc Ht Hv H1 H2. unfold steps_ok. rewrite Hc, app_nil_r. split; [done|]. split; [done|].
  split; [lia|]. split; [by left|]. intros q Hq _. split; [done|]. split; congruence.
Qed.

(** A step that writes the slot of the ticket it holds. *)
Lemma steps_ok_upd p p' k s :
  holds a p k → ticket_ok (upd a k s) L k → thread_ok (upd a k s) L p' → claim p p' = [] →
  taken p p' = [] → (∀ k, p ≠ Pop_value k ∧ p' ≠ Pop_value k) →
  (push_ticket p' = None ∨ push_ticket p' = push_ticket p) → pop_ticket p' = None →
  steps_ok a L p (upd a k s) p'.
Proof.
  intros Hh Hk Hp Hc Ht Hv H1 H2. unfold steps_ok. rewrite Hc, app_nil_r.
  split; [by eapply buf_ok_upd|]. split; [done|]. split; [simpl; lia|]. split; [by left|].
  intros q Hq Hap. split; [by eapply thread_ok_upd|]. destruct Hap as [Hpush Hpop]. split; [|congruence].
  intros j Hj. apply Hpush. destruct H1; congruence.
Qed.

Lemma step_push_value item k : thread_ok a L (Push_value item k) →
  ∃ a' p', thread_step false a (Push_value item k) = Ret (a', p')
    ∧ steps_ok a L (Push_value item k) a' p'.
Proof.
  intros (Hk & Hi & Hs). destruct (slot_ex a L Hok k) as (s & Hs' & Hsl & Hset). simpl.
  rewrite Hsl. simpl. rewrite Hset. simpl. rewrite Hs' in Hs. injection Hs as Hs.
  eexists _, _. split; [done|]. fold (upd a k (mk_slot item (sequence s))). rewrite Hs.
  assert (holds a (Push_value item k) k) as Hh by (left; rewrite Hs'; simpl; by rewrite Hs).
  destruct (seq_push a L Hok k Hk) as [Ht _]; [rewrite Hs'; simpl; by rewrite Hs|].
  apply steps_ok_upd; try done; [| |by right].
  - exists (mk_slot item k). rewrite slot_at_upd with (L := L) by done. split; [done|]. simpl.
    rewrite (proj2 (Z.leb_le _ _)) by done. by left.
  - simpl. split; [done|]. split; [done|]. by apply slot_at_upd with (L := L).
Qed.

Lemma step_push_publish item k : thread_ok a L (Push_publish item k) →
  ∃ a' p', thread_step false a (Push_publish item k) = Ret (a', p')
    ∧ steps_ok a L (Push_publish item k) a' p'.
Proof.
  intros (Hk & Hi & Hs). pose proof (bo_small _ _ Hok).
  destruct (slot_ex a L Hok k) as (s & Hs' & Hsl & Hset). simpl.
  rewrite Hsl. simpl. rewrite Hset. simpl. rewrite Hs in Hs'. injection Hs' as <-.
  eexists _, _. split; [done|]. rewrite u64_small by lia. fold (upd a k (mk_slot item (k + 1))).
  assert (holds a (Push_publish item k) k) as Hh by (left; by rewrite Hs).
  destruct (seq_push a L Hok k Hk) as [Ht _]; [by rewrite Hs|].
  apply steps_ok_upd; try done; [|by left].
  exists (mk_slot item (k + 1)). rewrite slot_at_upd with (L := L) by done. split; [done|]. simpl.
  rewrite (proj2 (Z.leb_le _ _)) by done. by right.
Qed.

Lemma step_pop_publish item k : thread_ok a L (Pop_publish k item) →
  ∃ a' p', thread_step false a (Pop_publish k item) = Ret (a', p')
    ∧ steps_ok a L (Pop_publish k item) a' p'.
Proof.
  intros (Hk & Hi & Hs). pose proof (bo_small _ _ Hok). pose proof (bo_tail _ _ Hok).
  pose proof (cap_range a L Hok).
  destruct (slot_ex a L Hok k) as (s & Hs' & Hsl & Hset). simpl.
  rewrite Hsl. simpl. rewrite Hset. simpl. eexists _, _. split; [done|].
  assert (u64 (k + mask a + 1) = k + capacity a) as ->
    by (rewrite (bo_mask _ _ Hok), u64_small; lia).
  fold (upd a k (mk_slot (value s) (k + capacity a))).
  assert (holds a (Pop_publish k item) k) as Hh by (by right).
  apply steps_ok_upd; try done; [|by left].
  exists (mk_slot (value s) (k + capacity a)). rewrite slot_at_upd with (L := L) by done.
  split; [done|]. simpl. rewrite (proj2 (Z.leb_gt _ _)) by lia. by right.
Qed.

Lemma step_push_seq item h : thread_ok a L (Push_seq item h) →
  ∃ a' p', thread_step false a (Push_seq item h) = Ret (a', p')
    ∧ steps_ok a L (Push_seq item h) a' p'.
Proof.
  intros Hh. pose proof (bo_small _ _ Hok). destruct (slot_ex a L Hok h) as (s & Hs & Hsl & _).
  simpl in *. rewrite Hsl. simpl. pose proof (seq_range _ _ _ _ Hok Hs).
  rewrite ptr_diff_small by lia. eexists _, _. split; [done|].
  destruct (Z.eqb_spec (sequence s - h) 0); [|destruct (_ <? _)]; apply steps_ok_same; try done.
  simpl. split; [done|]. intros _. rewrite Hs. simpl. f_equal. lia.
Qed.

Lemma step_pop_seq t : thread_ok a L (Pop_seq t) →
  ∃ a' p', thread_step false a (Pop_seq t) = Ret (a', p') ∧ steps_ok a L (Pop_seq t) a' p'.
Proof.
  intros Hh. pose proof (bo_small _ _ Hok). pose proof (bo_tail _ _ Hok).
  destruct (slot_ex a L Hok t) as (s & Hs & Hsl & _).
  simpl in *. rewrite Hsl. simpl. pose proof (seq_range _ _ _ _ Hok Hs).
  rewrite u64_small, ptr_diff_small by lia. eexists _, _. split; [done|].
  destruct (Z.eqb_spec (sequence s - (t + 1)) 0); [|destruct (_ <? _)]; apply steps_ok_same; try done.
  simpl. split; [done|]. intros _. rewrite Hs. simpl. f_equal. lia.
Qed.

Lemma step_push_cas sp item h : head a + 1 < 2 ^ 62 → thread_ok a L (Push_cas item h) →
  ∃ a' p', thread_step sp a (Push_cas item h) = Ret (a', p') ∧ steps_ok a L (Push_cas item h) a' p'.
Proof.
  intros Hsm [Hr Hs]. simpl. destruct sp; simpl; [eexists _, _; split; [done|]; by apply steps_ok_same|].
  destruct (Z.eqb_spec (head a) h) as [<-|]; eexists _, _; (split; [done|]);
    [|by apply steps_ok_same].
  rewrite u64_small by lia.
  destruct (buf_ok_claim a L Hok item Hsm (Hs eq_refl)) as (Hb & Hq & Hi).
  split; [done|]. split; [|split; [simpl; lia|split; [by left|]]].
  - simpl. split; [lia|]. split; [done|]. by apply Hs.
  - intros q Hqo _. split; [by apply Hq|]. split; [|done].
    intros k [= <-] Hk. destruct q; simplify_eq/=; lia.
Qed.

Lemma step_pop_cas sp t : thread_ok a L (Pop_cas t) →
  ∃ a' p', thread_step sp a (Pop_cas t) = Ret (a', p') ∧ steps_ok a L (Pop_cas t) a' p'.
Proof.
  intros [Hr Hs]. simpl. pose proof (bo_tail _ _ Hok). pose proof (bo_small _ _ Hok).
  destruct sp; simpl; [eexists _, _; split; [done|]; by apply steps_ok_same|].
  destruct (Z.eqb_spec (tail a) t) as [<-|]; eexists _, _; (split; [done|]);
    [|by apply steps_ok_same].
  rewrite u64_small by lia. specialize (Hs eq_refl).
  destruct (buf_ok_take a L Hok Hs) as [Hb Hq]. destruct (seq_tail a L Hok Hs) as (? & item & Hsl & Hi).
  unfold steps_ok. simpl. rewrite app_nil_r.
  split; [done|]. split; [|split; [simpl; lia|split; [right; by left|]]].
  - simpl. split; [lia|]. by exists item.
  - intros q Hqo _. split; [by apply Hq|]. split; [done|].
    intros k [= <-] Hk. destruct q; simplify_eq/=; lia.
Qed.

Lemma step_pop_value k : thread_ok a L (Pop_value k) →
  ∃ a' p', thread_step false a (Pop_value k) = Ret (a', p') ∧ steps_ok a L (Pop_value k) a' p'.
Proof.
  intros (Hk & item & Hi & Hs). destruct (slot_ex a L Hok k) as (s & Hs' & Hsl & _). simpl.
  rewrite Hsl. simpl. rewrite Hs in Hs'. injection Hs' as <-. eexists _, _. split; [done|].
  unfold steps_ok. simpl. rewrite app_nil_r. split; [done|]. split; [by rewrite Hs|].
  split; [lia|]. split; [right; right; split; [done|]; by exists k, item|].
  intros q Hq Hap. by split.
Qed.

(** Every step of a thread is defined and keeps the invariant. *)
Lemma thread_step_ok sp p :
  head a + 1 < 2 ^ 62 → thread_ok a L p → finished p = false →
  ∃ a' p', thread_step sp a p = Ret (a', p') ∧ steps_ok a L p a' p'.
Proof.
  intros Hsm Hp Hf. pose proof (bo_tail _ _ Hok).
  destruct p; try done.
  - eexists _, _. split; [done|]. apply steps_ok_same; try done. simpl. lia.
  - by apply step_push_seq.
  - by apply step_push_cas.
  - by apply step_push_value.
  - by apply step_push_publish.
  - eexists _, _. split; [done|]. apply steps_ok_same; try done. simpl. lia.
  - by apply step_pop_seq.
  - by apply step_pop_cas.
  - by apply step_pop_value.
  - by apply step_pop_publish.
Qed.
End thread_steps.

(** * Runs *)

Record conf_ok (c : conf) : Prop := mk_conf_ok {
  co_buf : buf_ok (buf c) (claimed c);
  co_threads : ∀ tid p, threads c !! tid = Some p → thread_ok (buf c) (claimed c) p;
  co_apart : ∀ tid tid' p q, tid ≠ tid' → threads c !! tid = Some p → threads c !! tid' = Some q →
    apart p q;
  co_once : NoDup (returned c).*1;
  co_items : ∀ k v, (k, v) ∈ returned c →
    0 <= k < tail (buf c) ∧ claimed c !! Z.to_nat k = Some v;
  co_reading : ∀ tid k, threads c !! tid = Some (Pop_value k) → k ∉ (returned c).*1;
  co_all : ∀ k, 0 <= k < tail (buf c) →
    k ∈ (returned c).*1 ∨ ∃ tid, threads c !! tid = Some (Pop_value k);
}.

Lemma returned_in (R : list (Z * Z)) k : k ∈ R.*1 → ∃ v, (k, v) ∈ R.
Proof. intros ([k' v] & -> & Hin)%list_elem_of_fmap. by exists v. Qed.

(** A thread starts a call. *)
Lemma conf_ok_call c tid p :
  conf_ok c → (∀ q, threads c !! tid = Some q → finished q = true) →
  (p = Pop_tail ∨ ∃ item, p = Push_head item) →
  conf_ok (mk_conf (buf c) (<[tid := p]> (threads c)) (claimed c) (returned c)).
Proof.
  intros [Hb Ht Ha Ho Hi Hr Hl] Hold Hp.
  assert (∀ q, apart p q) as Hap by (intros q; destruct Hp as [->|[item ->]]; done).
  assert (∀ k, p ≠ Pop_value k) as Hpv by (intros k; destruct Hp as [->|[item ->]]; done).
  split; simpl; try done.
  - intros tid' q [[<- <-]|[_ Hq]]%lookup_insert_Some; [|by eapply Ht].
    destruct Hp as [->|[item ->]]; done.
  - intros t1 t2 q1 q2 Hne [[<- <-]|[? H1]]%lookup_insert_Some [[<- <-]|[? H2]]%lookup_insert_Some.
    + done.
    + done.
    + by apply apart_sym.
    + by eapply (Ha t1 t2).
  - intros tid' k [[<- E]|[_ Hq]]%lookup_insert_Some; [by apply Hpv in E|by eapply Hr].
  - intros k Hk. destruct (Hl k Hk) as [|[tid' Hq]]; [by left|right]. exists tid'.
    rewrite lookup_insert_ne; [done|]. intros <-. by apply Hold in Hq.
Qed.

(** The history of pops after a step. *)
Lemma history_step c tid p a' p' :
  conf_ok c → threads c !! tid = Some p → log_step (buf c) a' p p' →
  thread_ok a' (claimed c ++ claim p p') p' →
  let c' := mk_conf a' (<[tid := p']> (threads c)) (claimed c ++ claim p p')
              (returned c ++ taken p p') in
  NoDup (returned c').*1
  ∧ (∀ k v, (k, v) ∈ returned c' → 0 <= k < tail (buf c') ∧ claimed c' !! Z.to_nat k = Some v)
  ∧ (∀ tid k, threads c' !! tid = Some (Pop_value k) → k ∉ (returned c').*1)
  ∧ (∀ k, 0 <= k < tail (buf c') →
     k ∈ (returned c').*1 ∨ ∃ tid, threads c' !! tid = Some (Pop_value k)).
Proof.
  intros [Hb Ht Ha Ho Hi Hr Hl] Hp Hlog Hok'. simpl.
  assert (∀ k v, (k, v) ∈ returned c → (claimed c ++ claim p p') !! Z.to_nat k = Some v) as Hkeep
    by (intros k v Hkv; apply lookup_app_l_Some; by apply Hi).
  destruct Hlog as [(-> & -> & Hno)|[(-> & -> & -> & Hno)|(-> & k & item & -> & ->)]]; simpl.
  - rewrite app_nil_r. split; [done|]. split; [|split].
    + intros k v Hkv. split; [by apply Hi in Hkv as [? _]|by apply Hkeep].
    + intros tid' k [[_ E]|[_ Hq]]%lookup_insert_Some; [by apply Hno in E|by eapply Hr].
    + intros k Hk. destruct (Hl k Hk) as [|[tid' Hq]]; [by left|right]. exists tid'.
      rewrite lookup_insert_ne; [done|]. intros <-. rewrite Hp in Hq. injection Hq as Hq.
      by apply Hno in Hq.
  - rewrite app_nil_r. split; [done|]. split; [|split].
    + intros k v Hkv. split; [apply Hi in Hkv; lia|by apply Hkeep].
    + intros tid' k [[_ E]|[_ Hq]]%lookup_insert_Some; [|by eapply Hr]. injection E as <-.
      intros [v Hv]%returned_in. apply Hi in Hv. lia.
    + intros k Hk. destruct (decide (k = tail (buf c))) as [->|].
      { right. exists tid. by rewrite lookup_insert_eq. }
      destruct (Hl k) as [|[tid' Hq]]; [lia|by left|right]. exists tid'.
      rewrite lookup_insert_ne; [done|]. intros <-. rewrite Hp in Hq. injection Hq as Hq.
      by apply Hno in Hq.
  - destruct (Hok') as (Hk & Hi' & _). pose proof (Hr _ _ Hp) as Hnew.
    rewrite fmap_app. simpl. split; [|split; [|split]].
    + apply list.NoDup_app. split; [done|]. split; [|apply NoDup_singleton].
      intros x Hx ->%list_elem_of_singleton. done.
    + intros j v [Hkv|E%list_elem_of_singleton]%elem_of_app.
      * split; [by apply Hi in Hkv as [? _]|by apply Hkeep].
      * injection E as -> ->. destruct (Ht _ _ Hp) as [? _]. done.
    + intros tid' j [[_ E]|[Hne Hq]]%lookup_insert_Some; [done|].
      intros [Hj|Hj%list_elem_of_singleton]%elem_of_app; [by eapply Hr|]. subst j.
      destruct (Ha tid tid' _ _ Hne Hp Hq) as [_ Hap]. by apply (Hap k).
    + intros j Hj. destruct (Hl j Hj) as [Hin|[tid' Hq]].
      { left. apply elem_of_app. by left. }
      destruct (decide (tid' = tid)) as [->|].
      * rewrite Hp in Hq. injection Hq as ->. left. apply elem_of_app. right. by apply list_elem_of_singleton.
      * right. exists tid'. by rewrite lookup_insert_ne by done.
Qed.

(** Every step keeps the configuration in order. *)
Lemma conf_ok_step c c' :
  conf_ok c → head (buf c) + 1 < 2 ^ 62 → step c c' →
  conf_ok c' ∧ head (buf c') <= head (buf c) + 1.
Proof.
  intros Hc Hsm Hstep. destruct Hstep as [c tid p Hold Hp|c tid p sp a' p' Hp Hs].
  { split; [by apply conf_ok_call|simpl; lia]. }
  destruct (finished p) eqn:Hf.
  { assert (a' = buf c ∧ p' = p ∧ claim p p = [] ∧ taken p p = []) as (-> & -> & -> & ->)
      by (destruct p; try done; simpl in Hs; by injection Hs as <- <-).
    rewrite !app_nil_r, insert_id by done. destruct c. split; [exact Hc|simpl; lia]. }
  pose proof Hc as [Hb Ht Ha _ _ _ _].
  destruct (thread_step_ok _ _ Hb sp p Hsm (Ht _ _ Hp) Hf) as (a'' & p'' & Hs' & Hok).
  rewrite Hs in Hs'. injection Hs' as <- <-. destruct Hok as (Hb' & Hp' & Hh & Hlog & Hoth).
  split; [|simpl; lia].
  destruct (history_step c tid p a' p' Hc Hp Hlog Hp') as (? & ? & ? & ?). split; try done; simpl.
  - intros tid' q [[_ <-]|[Hne Hq]]%lookup_insert_Some; [done|].
    apply Hoth; [by eapply Ht|by eapply (Ha tid tid')].
  - intros t1 t2 q1 q2 Hne [[<- <-]|[? Hq1]]%lookup_insert_Some [[<- <-]|[? Hq2]]%lookup_insert_Some.
    + done.
    + apply Hoth; [by eapply Ht|by eapply (Ha tid t2)].
    + apply apart_sym, Hoth; [by eapply Ht|by eapply (Ha tid t1)].
    + by eapply (Ha t1 t2).
Qed.

Lemma conf_ok_run n c c' :
  conf_ok c → head (buf c) + Z.of_nat n < 2 ^ 62 → nsteps step n c c' → conf_ok c'.
Proof.
  intros Hc Hn Hrun. induction Hrun as [c|n c c1 c2 Hs _ IH]; [done|].
  destruct (conf_ok_step c c1 Hc) as [Hc1 Hh]; [lia|done|]. apply IH; [done|lia].
Qed.

(** * New buffers *)

(** [x] has its bits [p - w + 1] to [p] set and none above. *)
Definition smeared (p w x : Z) : Prop :=
  ∀ i, 0 <= i → (p < i → Z.testbit x i = false) ∧ (p - w < i <= p → Z.testbit x i = true).

Lemma smear p w x : 0 <= w → smeared p w x → smeared p (w + w) (Z.lor x (Z.shiftr x w)).
Proof.
  intros Hw Hx i Hi. rewrite Z.lor_spec, Z.shiftr_spec by done. split; intros H.
  - rewrite (proj1 (Hx i Hi)) by lia. by rewrite (proj1 (Hx (i + w) ltac:(lia))) by lia.
  - destruct (decide (p - w < i)).
    + by rewrite (proj2 (Hx i Hi)) by lia.
    + rewrite (proj2 (Hx (i + w) ltac:(lia))) by lia. apply orb_true_r.
Qed.

Lemma next_power_of_2_ok n : 1 <= n <= 2 ^ 63 → next_power_of_2 n = 2 ^ Z.log2_up n.
Proof.
  intros Hn. unfold next_power_of_2. rewrite (proj2 (Z.eqb_neq _ _)) by lia.
  rewrite (u64_small (n - 1)) by lia. destruct (decide (n = 1)) as [->|]; [done|].
  set (p := Z.log2 (n - 1)). assert (0 <= p < 63) as Hp.
  { split; [apply Z.log2_nonneg|]. apply Z.log2_lt_pow2; lia. }
  assert (smeared p 1 (n - 1)) as H1.
  { intros i Hi. split; intros H; [apply Z.bits_above_log2; unfold p in *; lia|].
    assert (i = p) as -> by lia. apply Z.bit_log2. lia. }
  apply smear in H1; [|lia]. apply smear in H1; [|lia]. apply smear in H1; [|lia].
  apply smear in H1; [|lia]. apply smear in H1; [|lia]. apply smear in H1; [|lia]. simpl in H1.
  match type of H1 with smeared _ _ ?x => set (y := x) in * end.
  change (u64 (y + 1) = 2 ^ Z.log2_up n).
  assert (y = Z.ones (p + 1)) as ->.
  { apply Z.bits_inj'. intros i Hi. destruct (decide (i < p + 1)).
    - rewrite Z.ones_spec_low by lia. apply (proj2 (H1 i Hi)). lia.
    - rewrite Z.ones_spec_high by lia. apply (proj1 (H1 i Hi)). lia. }
  rewrite Z.ones_equiv. assert (2 ^ (p + 1) <= 2 ^ 63) by (apply Z.pow_le_mono_r; lia).
  assert (0 < 2 ^ (p + 1)) by (apply Z.pow_pos_nonneg; lia).
  rewrite u64_small by lia. unfold Z.log2_up. rewrite (proj2 (Z.compare_lt_iff 1 n)) by lia.
  rewrite <- (Z.sub_1_r n). fold p. change (Z.succ p) with (p + 1). lia.
Qed.

(** The loop that numbers the slots. *)
Lemma number_slots (block : list ak_arbuff_slot_t) n (f : Z → ak_arbuff_slot_t) :
  0 <= n → zlen block = n →
  wpo (loop (S (Z.to_nat n)) (λ '(slots, i),
         if i <? n then slots ← wr slots i (f i); Ret (inl (slots, i + 1)) else Ret (inr slots))
       (block, 0))
    (λ slots, zlen slots = n ∧ ∀ i, 0 <= i < n → slots !! Z.to_nat i = Some (f i)).
Proof.
  intros Hn Hb. apply (loop_wpo (λ '(slots, i), 0 <= i <= n ∧ zlen slots = n
      ∧ ∀ j, 0 <= j < i → slots !! Z.to_nat j = Some (f j)) (λ '(slots, i), Z.to_nat (n - i)));
    [split; [lia|]; split; [done|]; intros; lia|lia|].
  intros [sl i] (Hi & Hl & Hs). destruct (Z.ltb_spec i n).
  - rewrite wr_ok by lia. simpl. split; [|lia]. split; [lia|]. rewrite zlen_insert. split; [done|].
    intros j Hj. destruct (decide (j = i)) as [->|].
    + apply list_lookup_insert_eq. unfold zlen in Hl. lia.
    + rewrite list_lookup_insert_ne by lia. apply Hs. lia.
  - simpl. split; [done|]. intros j Hj. apply Hs. lia.
Qed.

(** The numbered slots make a buffer in order, at any position that is a
    multiple of the capacity. *)
Lemma buf_ok_start sl m L :
  1 <= m <= 59 → zlen sl = 2 ^ m → zlen L < 2 ^ 62 → zlen L mod 2 ^ m = 0 →
  (∀ i, 0 <= i < 2 ^ m → sl !! Z.to_nat i = Some (mk_slot 0 (zlen L + i))) →
  buf_ok (mk_arbuff sl (2 ^ m) (2 ^ m - 1) (zlen L) (zlen L)) L.
Proof.
  intros Hm Hl Hsm Hmod Hs. assert (0 < 2 ^ m) by (apply Z.pow_pos_nonneg; lia).
  pose proof (zlen_nonneg L). split; simpl; try done; try lia; [by exists m|].
  intros k Hk. exists (mk_slot 0 (k + 2 ^ m)). unfold slot_at. simpl. split.
  - assert (k mod 2 ^ m = k + 2 ^ m - zlen L) as ->.
    { symmetry. apply (Z.mod_unique _ _ (zlen L / 2 ^ m - 1)); [lia|].
      pose proof (Z.div_mod (zlen L) (2 ^ m)). nia. }
    rewrite Hs by lia. do 2 f_equal. lia.
  - rewrite (proj2 (Z.leb_gt _ _)) by lia. by right.
Qed.

Section new.
Context `{Allocator}.

(** The capacity of a new buffer is the smallest power of two that is
    enough; from two slots up, as far as a block can hold them, the buffer is
    empty and in order, with two blocks, and freeing it releases them. *)
Theorem ak_arbuff_new_spec n s :
  2 <= n <= 2 ^ 59 →
  wp (ak_arbuff_new n) (λ r s',
    match r with
    | Some a => buf_ok a [] ∧ capacity a = 2 ^ Z.log2_up n ∧ n <= capacity a < 2 * n
        ∧ balance 2 false s s'
        ∧ wp (ak_arbuff_free (Some a)) (λ _ s'', balance 0 false s s'') s'
    | None => balance 0 true s s'
    end) s.
Proof.
  intros Hn. unfold ak_arbuff_new. rewrite (proj2 (Z.eqb_neq n 0)) by lia.
  rewrite next_power_of_2_ok by lia.
  assert (1 <= Z.log2_up n <= 59) as Hm.
  { split; [change 1 with (Z.log2_up 2)|change 59 with (Z.log2_up (2 ^ 59))];
      apply Z.log2_up_le_mono; lia. }
  destruct (Z.log2_up_spec n) as [Hlo Hhi]; [lia|].
  assert (2 ^ Z.log2_up n = 2 * 2 ^ Z.pred (Z.log2_up n)) as Hp.
  { rewrite <- Z.pow_succ_r by lia. f_equal. lia. }
  set (cap := 2 ^ Z.log2_up n) in *.
  assert (2 <= cap <= 2 ^ 59) as Hc.
  { split; [lia|]. apply Z.pow_le_mono_r; lia. }
  wsteps. apply wp_alloc_obj. intros [|] s1 H1; simpl; wsteps; [|balance].
  apply wp_alloc_obj. intros [|] s2 H2; simpl; wsteps.
  2:{ apply wp_free_obj. intros s3 ? ?. wsteps. balance. }
  unfold sizeof_ak_arbuff_slot_t. rewrite u64_small by lia.
  replace (16 * cap / 16) with cap by (rewrite Z.mul_comm, Z.div_mul; lia).
  eapply wpo_mono; [apply (number_slots _ cap (λ i, mk_slot 0 i));
    [lia|unfold zlen; rewrite length_replicate; lia]|].
  intros sl [Hl Hs]. wsteps. rewrite u64_small by lia.
  split; [by apply (buf_ok_start sl (Z.log2_up n) [])|]. simpl. split; [done|]. split; [lia|].
  split; [balance|]. wsteps. apply wp_free_obj. intros s3 ? ?. wsteps. apply wp_free_obj.
  intros s4 ? ?. balance.
Qed.
End new.

(** No thread is in a call. *)
Definition idle (a : ak_arbuff_t) (L : list Z) : conf := mk_conf a ∅ L [].

Lemma conf_ok_idle a : buf_ok a [] → tail a = 0 → conf_ok (idle a []).
Proof.
  intros Hb Ht. split; simpl; try done; try (by constructor).
  - intros k v Hkv. by apply not_elem_of_nil in Hkv.
  - intros k Hk. lia.
Qed.

(** C1: Producers and consumers in any number, their operations interleaved in
    any order, compare-exchanges failing at will.  In every run from a new buffer
    that is short enough for the tickets to stay below [2 ^ 62]: no operation is
    undefined; the pops that have returned an item hold different tickets, and
    the pop with ticket [k] returns the item of the [k]-th push that succeeded,
    so that nothing is lost, duplicated or reordered; every ticket claimed by a
    pop belongs to one that has its item or is about to read it; and the pushes
    never run ahead of the pops by more than the capacity. *)
Theorem ak_arbuff_runs_spec a n c :
  buf_ok a [] → nsteps step n (idle a []) c → Z.of_nat n < 2 ^ 62 - 1 →
  (∀ tid p, threads c !! tid = Some p → ∀ spurious, ∃ r, thread_step spurious (buf c) p = Ret r)
  ∧ NoDup (returned c).*1
  ∧ (∀ k v, (k, v) ∈ returned c → claimed c !! Z.to_nat k = Some v)
  ∧ (∀ k, 0 <= k < tail (buf c) →
      k ∈ (returned c).*1 ∨ ∃ tid, threads c !! tid = Some (Pop_value k))
  ∧ head (buf c) = zlen (claimed c)
  ∧ tail (buf c) <= head (buf c) <= tail (buf c) + capacity (buf c).
Proof.
  intros Hb Hrun Hn. pose proof (bo_head _ _ Hb) as Hh0. pose proof (bo_tail _ _ Hb).
  rewrite zlen_nil in Hh0.
  assert (conf_ok (idle a [])) as Hc0 by (apply conf_ok_idle; [done|lia]).
  assert (conf_ok c) as Hc by (apply (conf_ok_run n (idle a [])); [done|simpl; lia|done]).
  assert (∀ n c1 c2, conf_ok c1 → head (buf c1) + Z.of_nat n < 2 ^ 62 → nsteps step n c1 c2 →
    head (buf c2) <= head (buf c1) + Z.of_nat n) as Hheads.
  { clear. intros n c1 c2 Hc Hn Hrun. induction Hrun as [c|n c c1 c2 Hs _ IH]; [lia|].
    destruct (conf_ok_step c c1 Hc) as [Hc1 Hh]; [lia|done|]. specialize (IH Hc1). lia. }
  assert (head (buf c) <= head (buf (idle a [])) + Z.of_nat n) as Hh
    by (apply Hheads; [done|simpl; lia|done]). simpl in Hh.
  destruct Hc as [Hcb Ht _ Ho Hi _ Hl]. split; [|split; [done|split; [|split; [done|split]]]].
  - intros tid p Hp sp. destruct (finished p) eqn:Hf; [destruct p; try done; by eexists|].
    destruct (thread_step_ok _ _ Hcb sp p) as (a' & p' & -> & _);
      [lia|by eapply Ht|done|by eexists].
  - intros k v Hkv. by apply Hi.
  - apply Hcb.
  - pose proof (bo_tail _ _ Hcb). pose proof (bo_room _ _ Hcb). lia.
Qed.

(** * One thread at a time *)

(** Between calls: the buffer holds the items [q], oldest first. *)
Record queue (a : ak_arbuff_t) (L q : list Z) : Prop := mk_queue {
  qu_ok : buf_ok a L;
  qu_items : q = drop (Z.to_nat (tail a)) L;
  qu_quiet : ∀ k, head a - capacity a <= k < head a →
    sequence <$> slot_at a k = Some (if tail a <=? k then k + 1 else k + capacity a);
}.

Lemma queue_length a L q : queue a L q → zlen q = head a - tail a.
Proof.
  intros [Hok -> _]. pose proof (bo_tail _ _ Hok). rewrite (bo_head _ _ Hok).
  rewrite zlen_drop; [lia|]. rewrite <- (bo_head _ _ Hok). lia.
Qed.

(** The sequence of the next slot tells whether there is room. *)
Lemma queue_next a L q :
  queue a L q → sequence <$> slot_at a (head a)
    = Some (if head a - tail a <? capacity a then head a else head a - capacity a + 1).
Proof.
  intros [Hok _ Hq]. pose proof (cap_range a L Hok). pose proof (bo_room _ _ Hok).
  pose proof (Hq (head a - capacity a)) as Hs.
  rewrite (slot_at_same _ (head a)) in Hs by (by rewrite <- (slot_period a L Hok), Z.sub_add).
  rewrite Hs by lia. destruct (Z.ltb_spec (head a - tail a) (capacity a)).
  - rewrite (proj2 (Z.leb_gt _ _)) by lia. f_equal. lia.
  - by rewrite (proj2 (Z.leb_le _ _)) by lia.
Qed.

(** The sequence of the oldest slot tells whether there is an item. *)
Lemma queue_oldest a L q :
  queue a L q →
  match q with
  | x :: _ => slot_at a (tail a) = Some (mk_slot x (tail a + 1))
  | [] => sequence <$> slot_at a (tail a) = Some (tail a)
  end.
Proof.
  intros Hqu. pose proof (queue_length _ _ _ Hqu) as Hl. pose proof (queue_next _ _ _ Hqu) as Hn.
  destruct Hqu as [Hok E Hq]. pose proof (cap_range a L Hok). pose proof (bo_room _ _ Hok).
  destruct q as [|x q].
  - rewrite zlen_nil in Hl. replace (tail a) with (head a) in * by lia.
    rewrite Hn. by rewrite (proj2 (Z.ltb_lt _ _)) by lia.
  - rewrite zlen_cons in Hl. pose proof (zlen_nonneg q).
    pose proof (Hq (tail a)) as Hs. rewrite Z.leb_refl in Hs.
    destruct (seq_tail a L Hok) as (_ & item & Hsl & Hi); [apply Hs; lia|].
    rewrite Hsl. do 2 f_equal. apply (f_equal (.!! 0%nat)) in E.
    rewrite lookup_drop, Nat.add_0_r, Hi in E. by injection E as ->.
Qed.

Lemma slot_of_at a L k s : buf_ok a L → slot_at a k = Some s → slot_of a k = Ret s.
Proof.
  intros Hok Hs. destruct (slot_ex a L Hok k) as (s' & Hs' & -> & _). congruence.
Qed.

Lemma set_slot_upd a L k s : buf_ok a L → set_slot a k s = Ret (upd a k s).
Proof. intros Hok. by destruct (slot_ex a L Hok k) as (_ & _ & _ & ->). Qed.

(** The buffer in the course of a push that finds room: after the claim, and
    after the item is written. *)
Lemma queue_push_steps a L q item :
  queue a L q → head a - tail a < capacity a → head a + 1 < 2 ^ 62 →
  let a1 := set_head a (head a + 1) in
  let a2 := upd a1 (head a) (mk_slot item (head a)) in
  slot_at a (head a) ≠ None ∧ sequence <$> slot_at a (head a) = Some (head a)
  ∧ buf_ok a1 (L ++ [item]) ∧ buf_ok a2 (L ++ [item])
  ∧ slot_at a2 (head a) = Some (mk_slot item (head a)).
Proof.
  intros Hqu Hroom Hsm a1 a2. pose proof (queue_next _ _ _ Hqu) as Hn.
  rewrite (proj2 (Z.ltb_lt _ _)) in Hn by done.
  destruct Hqu as [Hok _ _]. destruct (buf_ok_claim a L Hok item Hsm Hn) as (Hok1 & _ & _).
  fold a1 in Hok1. pose proof (bo_tail _ _ Hok) as Ht.
  assert (slot_at a2 (head a) = Some (mk_slot item (head a))) as Hs2
    by (by apply slot_at_upd with (L := L ++ [item])).
  split; [by destruct (slot_at a (head a))|]. split; [done|]. split; [done|]. split; [|done].
  eapply (buf_ok_upd a1 _ Hok1 (Push_value item (head a))).
  - left. split; [done|]. split; [simpl; lia|done].
  - exists (mk_slot item (head a)). split; [done|]. simpl.
    rewrite (proj2 (Z.leb_le _ _)) by lia. by left.
Qed.

(** A push that finds room, from its claim on. *)
Lemma queue_push a L q item :
  queue a L q → head a - tail a < capacity a → head a + 1 < 2 ^ 62 →
  queue (upd (upd (set_head a (head a + 1)) (head a) (mk_slot item (head a))) (head a)
           (mk_slot item (head a + 1))) (L ++ [item]) (q ++ [item]).
Proof.
  intros Hqu Hroom Hsm.
  destruct (queue_push_steps a L q item Hqu Hroom Hsm) as (_ & _ & Hok1 & Hok2 & Hs2).
  destruct Hqu as [Hok -> Hq]. set (h := head a) in *. set (a1 := set_head a (h + 1)) in *.
  pose proof (bo_tail _ _ Hok) as Ht. fold h in Ht. pose proof (cap_range a L Hok).
  set (a2 := upd a1 h (mk_slot item h)) in *.
  split.
  - eapply (buf_ok_upd a2 _ Hok2 (Push_publish item h)).
    + left. split; [done|]. split; [simpl; lia|by rewrite Hs2].
    + exists (mk_slot item (h + 1)). rewrite slot_at_upd with (L := L ++ [item]) by done.
      split; [done|]. simpl. rewrite (proj2 (Z.leb_le _ _)) by lia. right. split; [done|].
      destruct (buf_ok_claim a L Hok item Hsm) as (_ & _ & Hi); [|done].
      pose proof (queue_next a L (drop (Z.to_nat (tail a)) L)) as Hn. fold h in Hn.
      rewrite (proj2 (Z.ltb_lt _ _)) in Hn by done. by apply Hn.
  - simpl. rewrite drop_app_le; [done|]. pose proof (bo_head _ _ Hok) as Hlen. unfold zlen in Hlen. lia.
  - simpl. intros k Hk. destruct (decide (k = h)) as [->|Hne].
    + rewrite slot_at_upd with (L := L ++ [item]) by done. simpl.
      by rewrite (proj2 (Z.leb_le _ _)) by lia.
    + assert (k mod capacity a ≠ h mod capacity a) as Hm.
      { intros E. apply Hne. symmetry. apply (same_slot a L Hok); [done|lia]. }
      rewrite slot_at_upd_ne with (L := L ++ [item]) by done. unfold a2.
      rewrite slot_at_upd_ne with (L := L ++ [item]) by done. apply Hq. lia.
Qed.

(** A pop that finds an item, from its claim on. *)
Lemma queue_pop a L x q :
  queue a L (x :: q) →
  queue (upd (set_tail a (tail a + 1)) (tail a) (mk_slot x (tail a + capacity a))) L q.
Proof.
  intros Hqu. pose proof (queue_oldest _ _ _ Hqu) as Hs. pose proof (queue_length _ _ _ Hqu) as Hl.
  simpl in Hs. destruct Hqu as [Hok E Hq]. rewrite zlen_cons in Hl. pose proof (zlen_nonneg q).
  destruct (buf_ok_take a L Hok) as [Hok1 _]; [by rewrite Hs|].
  pose proof (bo_tail _ _ Hok) as Ht. pose proof (cap_range a L Hok). pose proof (bo_room _ _ Hok).
  set (t := tail a) in *. set (a1 := set_tail a (t + 1)) in *.
  assert (holds a1 (Pop_publish t x) t) as Hh1.
  { right. split; [done|]. split; [simpl; lia|]. change (slot_at a1 t) with (slot_at a t). by rewrite Hs. }
  assert (ticket_ok (upd a1 t (mk_slot x (t + capacity a))) L t) as Ht2.
  { exists (mk_slot x (t + capacity a)). rewrite slot_at_upd with (L := L) by done. split; [done|].
    simpl. rewrite (proj2 (Z.leb_gt _ _)) by lia. by right. }
  split.
  - by eapply buf_ok_upd.
  - simpl. apply (f_equal (drop 1)) in E. rewrite drop_drop in E. simpl in E. rewrite drop_0 in E.
    rewrite E. f_equal. lia.
  - simpl. intros k Hk. destruct (decide (k = t)) as [->|Hne].
    + rewrite slot_at_upd with (L := L) by done. simpl. by rewrite (proj2 (Z.leb_gt _ _)) by lia.
    + assert (k mod capacity a ≠ t mod capacity a) as Hm.
      { intros E'. apply Hne. destruct (decide (t <= k)).
        - apply (same_slot a L Hok); [done|lia].
        - symmetry. apply (same_slot a L Hok); [done|lia]. }
      rewrite slot_at_upd_ne with (L := L) by done.
      change (slot_at a1 k) with (slot_at a k). rewrite Hq by done. fold t. f_equal.
      destruct (Z.leb_spec t k); [rewrite (proj2 (Z.leb_le _ _)) by lia|
        rewrite (proj2 (Z.leb_gt _ _)) by lia]; done.
Qed.

Lemma queue_new a : buf_ok a [] → queue a [] [].
Proof.
  intros Hok. pose proof (bo_head _ _ Hok) as Hh. pose proof (bo_tail _ _ Hok).
  rewrite zlen_nil in Hh. split; [done|by rewrite drop_nil|].
  intros k Hk. destruct (bo_tickets _ _ Hok k Hk) as (s & Hs & Hst). rewrite Hs. simpl. f_equal.
  rewrite (proj2 (Z.leb_gt _ _)) in Hst |- * by lia.
  destruct Hst as [(_ & ? & _)|?]; [lia|done].
Qed.

(** A call, one operation at a time. *)
Lemma run_step fuel a p :
  finished p = false → run (S fuel) a p = '(a', p') ← thread_step false a p; run fuel a' p'.
Proof.
  intros Hf. unfold run at 1. rewrite loop_S.
  assert (match p with
          | Pushed r | Popped r => Ret (inr (a, r))
          | _ => r ← thread_step false a p; Ret (inl r)
          end = (r ← thread_step false a p; Ret (inl r) : outcome (ak_arbuff_t * pc + ak_arbuff_t * Z)))
    as -> by (by destruct p).
  by destruct (thread_step false a p) as [[? ?]| |].
Qed.

#[local] Arguments slot_of : simpl never.
#[local] Arguments set_slot : simpl never.
#[local] Arguments run : simpl never.

Lemma run_push a L q item :
  queue a L q → head a + 1 < 2 ^ 62 →
  if zlen q <? capacity a
  then ∃ a', ak_arbuff_push (Some a) item = Ret (Some a', 0) ∧ queue a' (L ++ [item]) (q ++ [item])
       ∧ capacity a' = capacity a ∧ head a' = head a + 1
  else ak_arbuff_push (Some a) item = Ret (Some a, -1).
Proof.
  intros Hqu Hsm. pose proof (queue_length _ _ _ Hqu) as Hl. pose proof (queue_next _ _ _ Hqu) as Hn.
  pose proof (qu_ok _ _ _ Hqu) as Hok. pose proof (cap_range a L Hok). pose proof (bo_tail _ _ Hok).
  destruct (slot_at a (head a)) as [s|] eqn:Hs; [|done]. injection Hn as Hn. rewrite <- Hl in Hn.
  unfold ak_arbuff_push, call_fuel. rewrite run_step by done. simpl.
  rewrite run_step by done. simpl. rewrite (slot_of_at _ _ _ _ Hok Hs). simpl. rewrite Hn.
  destruct (Z.ltb_spec (zlen q) (capacity a)).
  2:{ rewrite ptr_diff_small by lia.
      rewrite (proj2 (Z.eqb_neq _ _)), (proj2 (Z.ltb_lt _ _)) by lia. done. }
  destruct (queue_push_steps a L q item Hqu) as (_ & _ & Hok1 & Hok2 & Hs2); [lia|done|].
  rewrite ptr_diff_small, Z.sub_diag by lia. simpl. rewrite run_step by done. simpl.
  rewrite Z.eqb_refl. simpl. rewrite u64_small by lia. rewrite run_step by done. simpl.
  rewrite (slot_of_at _ _ _ s Hok1) by exact Hs. simpl. rewrite Hn.
  rewrite (set_slot_upd _ _ _ _ Hok1). simpl. rewrite run_step by done. simpl.
  rewrite (slot_of_at _ _ _ _ Hok2 Hs2). simpl. rewrite u64_small by lia.
  rewrite (set_slot_upd _ _ _ _ Hok2). simpl.
  eexists. split; [done|]. split; [apply queue_push; [done|lia|done]|done].
Qed.

Lemma run_pop a L q :
  queue a L q →
  match q with
  | x :: q' => ∃ a', ak_arbuff_pop (Some a) = Ret (Some a', x) ∧ queue a' L q'
      ∧ capacity a' = capacity a ∧ head a' = head a
  | [] => ak_arbuff_pop (Some a) = Ret (Some a, 0)
  end.
Proof.
  intros Hqu. pose proof (queue_oldest _ _ _ Hqu) as Hs. pose proof (qu_ok _ _ _ Hqu) as Hok.
  pose proof (cap_range a L Hok). pose proof (bo_tail _ _ Hok). pose proof (bo_small _ _ Hok).
  unfold ak_arbuff_pop, call_fuel. rewrite run_step by done. simpl.
  rewrite run_step by done. simpl. destruct q as [|x q].
  - destruct (slot_at a (tail a)) as [s|] eqn:Hsl; [|done]. injection Hs as Hs.
    rewrite (slot_of_at _ _ _ _ Hok Hsl). simpl. rewrite Hs, u64_small, ptr_diff_small by lia.
    rewrite (proj2 (Z.eqb_neq _ _)), (proj2 (Z.ltb_lt _ _)) by lia. done.
  - rewrite (slot_of_at _ _ _ _ Hok Hs). simpl. rewrite u64_small, ptr_diff_small, Z.sub_diag by lia.
    simpl. rewrite run_step by done. simpl. rewrite Z.eqb_refl. simpl. rewrite u64_small by lia.
    destruct (buf_ok_take a L Hok) as [Hok1 _]; [by rewrite Hs|].
    rewrite run_step by done. simpl.
    rewrite (slot_of_at _ _ _ (mk_slot x (tail a + 1)) Hok1) by exact Hs. simpl.
    rewrite run_step by done. simpl.
    rewrite (slot_of_at _ _ _ (mk_slot x (tail a + 1)) Hok1) by exact Hs. simpl.
    assert (u64 (tail a + mask a + 1) = tail a + capacity a) as ->
      by (rewrite (bo_mask _ _ Hok), u64_small; lia).
    rewrite (set_slot_upd _ _ _ _ Hok1). simpl. eexists. split; [done|].
    split; [by apply queue_pop|done].
Qed.

(** Used by one thread, the buffer is a bounded first-in first-out queue:
    a push adds its item at the back, or answers -1 and changes nothing exactly
    when the queue is full; a pop takes the front item, or answers null when
    there is none; peeking shows the front item; and the queries report the
    number of items, the capacity, and whether the queue is empty or full. *)
Theorem ak_arbuff_queue_spec a L q item :
  queue a L q → head a + 1 < 2 ^ 62 →
  (if zlen q <? capacity a
   then ∃ a', ak_arbuff_push (Some a) item = Ret (Some a', 0) ∧ queue a' (L ++ [item]) (q ++ [item])
        ∧ capacity a' = capacity a ∧ head a' = head a + 1
   else ak_arbuff_push (Some a) item = Ret (Some a, -1))
  ∧ match q with
    | x :: q' => ak_arbuff_peek (Some a) = Ret x ∧
        ∃ a', ak_arbuff_pop (Some a) = Ret (Some a', x) ∧ queue a' L q'
        ∧ capacity a' = capacity a ∧ head a' = head a
    | [] => ak_arbuff_peek (Some a) = Ret 0 ∧ ak_arbuff_pop (Some a) = Ret (Some a, 0)
    end
  ∧ ak_arbuff_count (Some a) = zlen q
  ∧ ak_arbuff_is_empty (Some a) = (if bool_decide (q = []) then 1 else 0)
  ∧ ak_arbuff_is_full (Some a) = (if zlen q =? capacity a then 1 else 0).
Proof.
  intros Hqu Hsm. pose proof (queue_length _ _ _ Hqu) as Hl. pose proof (queue_oldest _ _ _ Hqu) as Hs.
  pose proof (qu_ok _ _ _ Hqu) as Hok. pose proof (cap_range a L Hok). pose proof (bo_tail _ _ Hok).
  pose proof (bo_room _ _ Hok). split; [by apply run_push|]. split; [|split; [|split]].
  - pose proof (run_pop _ _ _ Hqu) as Hpop. destruct q as [|x q]; (split; [|done]); simpl.
    + destruct (slot_at a (tail a)) as [s|] eqn:Hsl; [|done]. injection Hs as Hs.
      rewrite (slot_of_at _ _ _ _ Hok Hsl). simpl. rewrite Hs, u64_small, ptr_diff_small by lia.
      by rewrite (proj2 (Z.eqb_neq _ _)) by lia.
    + rewrite (slot_of_at _ _ _ _ Hok Hs). simpl. by rewrite u64_small, ptr_diff_small, Z.sub_diag by lia.
  - simpl. rewrite (proj2 (Z.leb_le _ _)), u64_small by lia. done.
  - simpl. case_bool_decide as Hq.
    + subst q. rewrite zlen_nil in Hl. by rewrite (proj2 (Z.eqb_eq _ _)) by lia.
    + destruct q as [|x q]; [done|]. rewrite zlen_cons in Hl. pose proof (zlen_nonneg q).
      by rewrite (proj2 (Z.eqb_neq _ _)) by lia.
  - simpl. rewrite u64_small, <- Hl by lia. destruct (Z.eqb_spec (zlen q) (capacity a)).
    + by rewrite (proj2 (Z.leb_le _ _)) by lia.
    + by rewrite (proj2 (Z.leb_gt _ _)) by lia.
Qed.

(** * Clearing, and buffers of one slot *)

(** A call that comes back to where it was never returns. *)
Lemma run_spins fuel a p p' :
  finished p = false → finished p' = false → thread_step false a p = Ret (a, p') →
  thread_step false a p' = Ret (a, p) → run fuel a p = Hang.
Proof.
  intros Hp Hp' Hs Hs'. revert p p' Hp Hp' Hs Hs'. induction fuel as [|fuel IH]; intros; [done|].
  rewrite run_step, Hs by done. simpl. by apply (IH p' p).
Qed.

Lemma ak_arbuff_clear_slots a L :
  buf_ok a L → ∃ sl, ak_arbuff_clear (Some a) = Ret (Some (mk_arbuff sl (capacity a) (mask a) (head a) (head a)))
    ∧ zlen sl = capacity a
    ∧ ∀ i, 0 <= i < capacity a → sl !! Z.to_nat i = Some (mk_slot 0 (head a + i)).
Proof.
  intros Hok. pose proof (cap_range a L Hok). pose proof (bo_small _ _ Hok). pose proof (bo_tail _ _ Hok).
  unfold ak_arbuff_clear.
  pose proof (number_slots (slots a) (capacity a) (λ i, mk_slot 0 (u64 (head a + i))) ltac:(lia)
    (bo_slots _ _ Hok)) as Hw.
  destruct (loop _ _ _) as [sl| |]; simpl in Hw; try done. destruct Hw as [Hl Hs]. simpl.
  exists sl. split; [done|]. split; [done|]. intros i Hi. rewrite Hs by done.
  by rewrite u64_small by lia.
Qed.

(** [ak_arbuff_clear] empties the buffer when the number of pushes so far is
    a multiple of the capacity.  Otherwise it numbers the slots from the wrong
    one: the next push finds a sequence beyond its ticket and tries forever. *)
Theorem ak_arbuff_clear_spec a L q :
  queue a L q →
  ∃ a', ak_arbuff_clear (Some a) = Ret (Some a') ∧
  if head a mod capacity a =? 0
  then queue a' L [] ∧ capacity a' = capacity a
  else ∀ item fuel, run fuel a' (Push_head item) = Hang.
Proof.
  intros [Hok _ _]. pose proof (cap_range a L Hok) as Hc. pose proof (bo_small _ _ Hok).
  pose proof (bo_tail _ _ Hok). pose proof (bo_head _ _ Hok) as Hh.
  destruct (ak_arbuff_clear_slots a L Hok) as (sl & -> & Hl & Hs).
  set (a' := mk_arbuff sl (capacity a) (mask a) (head a) (head a)). exists a'. split; [done|].
  destruct (Z.eqb_spec (head a mod capacity a) 0) as [Hz|Hnz].
  - split; [|done]. assert (buf_ok a' L) as Hok'.
    { unfold a'. destruct (bo_cap _ _ Hok) as (m & Hm & E). rewrite (bo_mask _ _ Hok), E, Hh in *.
      by apply buf_ok_start. }
    split; [done| |].
    + simpl. rewrite drop_ge; [done|]. unfold zlen in Hh. lia.
    + intros k Hk. simpl in Hk. destruct (bo_tickets _ _ Hok' k Hk) as (s & Hs' & Hst).
      rewrite Hs'. simpl in *. rewrite (proj2 (Z.leb_gt _ _)) in Hst |- * by lia.
      f_equal. destruct Hst as [(Hst & H0k & _)|Hst]; [|done].
      unfold slot_at, a' in Hs'. simpl in Hs'.
      pose proof (Z.mod_pos_bound k (capacity a) ltac:(lia)). rewrite Hs in Hs' by lia.
      injection Hs' as <-. simpl in Hst. destruct (next_slot a L Hok k).
      assert (k + 1 = head a) as -> by lia. lia.
  - intros item fuel. set (r := head a mod capacity a) in *.
    assert (0 < r < capacity a) as Hr by (pose proof (Z.mod_pos_bound (head a) (capacity a)); lia).
    apply (run_spins _ _ _ (Push_seq item (head a))); [done|done|done|]. simpl.
    unfold slot_of. simpl. rewrite (slot_index a L Hok). fold r.
    rewrite (rd_lookup _ _ (mk_slot 0 (head a + r))) by (lia || (apply Hs; lia)). simpl.
    rewrite ptr_diff_small by lia.
    by rewrite (proj2 (Z.eqb_neq _ _)), (proj2 (Z.ltb_ge _ _)) by lia.
Qed.

(** A buffer made for one item accepts a second one over the first, counts
    two, and the next pop never returns. *)
Theorem ak_arbuff_one_slot x y :
  ∃ a, (∃ s', ak_arbuff_new (H := always_alloc) 1 mem0 = Ret (Some a, s')) ∧
  ∃ a1 a2, ak_arbuff_push (Some a) x = Ret (Some a1, 0)
    ∧ ak_arbuff_push (Some a1) y = Ret (Some a2, 0)
    ∧ ak_arbuff_count (Some a2) = 2 ∧ ak_arbuff_capacity (Some a2) = 1
    ∧ ∀ fuel, run fuel a2 Pop_tail = Hang.
Proof.
  exists (mk_arbuff [mk_slot 0 0] 1 0 0 0). split; [eexists; by vm_compute|].
  exists (mk_arbuff [mk_slot x 1] 1 0 1 0), (mk_arbuff [mk_slot y 2] 1 0 2 0).
  split; [done|]. split; [done|]. split; [done|]. split; [done|].
  intros fuel. by apply (run_spins _ _ _ (Pop_seq 0)).
Qed.

(** * Witnesses *)

(** An empty buffer of two slots, and one that went once around and holds 7. *)
Definition wempty : ak_arbuff_t := mk_arbuff [mk_slot 0 0; mk_slot 0 1] 2 1 0 0.
Definition wseven : ak_arbuff_t := mk_arbuff [mk_slot 7 3; mk_slot 6 3] 2 1 3 2.

Lemma wempty_ok : buf_ok wempty [].
Proof.
  split; try done.
  - by exists 1.
  - intros k Hk. simpl in Hk. assert (k = -2 ∨ k = -1) as [->| ->] by lia; eexists; split; try done; by right.
Qed.

Lemma wseven_queue : queue wseven [5; 6; 7] [7].
Proof.
  split; [|done|].
  - split; try done.
    + by exists 1.
    + intros k Hk. simpl in Hk. assert (k = 1 ∨ k = 2) as [->| ->] by lia; eexists; split; try done;
        by right.
  - intros k Hk. simpl in Hk. assert (k = 1 ∨ k = 2) as [->| ->] by lia; done.
Qed.

Lemma ak_arbuff_new_spec_witness :
  wp (ak_arbuff_new (H := always_alloc) 3) (λ r s', ∀ a, r = Some a → buf_ok a [] ∧ capacity a = 4) mem0.
Proof.
  eapply wp_mono; [apply (ak_arbuff_new_spec 3 mem0); done|].
  intros [a|] s' Ha a' [= <-]. destruct Ha as (H1 & H2 & _). split; [exact H1|exact H2].
Defined.

(** A run: thread 1 starts to push 5, and thread 3 to pop. *)
Definition wconf : conf :=
  mk_conf wempty (<[3%nat := Pop_tail]> (<[1%nat := Push_seq 5 0]> (<[1%nat := Push_head 5]> ∅))) [] [].

Lemma wconf_run : nsteps step 3 (idle wempty []) wconf.
Proof.
  eapply nsteps_l; [apply (step_call _ 1 (Push_head 5)); [done|right; by exists 5]|].
  eapply nsteps_l; [apply (step_thread _ 1 (Push_head 5) false wempty (Push_seq 5 0)); done|].
  eapply nsteps_l; [apply (step_call _ 3 Pop_tail); [done|by left]|]. apply nsteps_O.
Qed.

Lemma ak_arbuff_runs_spec_witness :
  (∀ tid p, threads wconf !! tid = Some p → ∀ spurious, ∃ r, thread_step spurious wempty p = Ret r)
  ∧ head (buf wconf) = zlen (claimed wconf).
Proof.
  destruct (ak_arbuff_runs_spec wempty 3 wconf wempty_ok wconf_run) as (H1 & _ & _ & _ & H2 & _);
    [done|]. split; [exact H1|exact H2].
Defined.

Lemma ak_arbuff_queue_spec_witness :
  ∃ a', ak_arbuff_push (Some wseven) 8 = Ret (Some a', 0) ∧ queue a' [5; 6; 7; 8] [7; 8].
Proof.
  destruct (ak_arbuff_queue_spec wseven [5; 6; 7] [7] 8 wseven_queue) as [(a' & H1 & H2 & _) _];
    [done|]. exists a'. split; [exact H1|exact H2].
Defined.

Lemma ak_arbuff_clear_spec_witness :
  ∃ a', ak_arbuff_clear (Some wseven) = Ret (Some a')
    ∧ ∀ item fuel, run fuel a' (Push_head item) = Hang.
Proof. exact (ak_arbuff_clear_spec wseven [5; 6; 7] [7] wseven_queue). Defined.
