(* ===== verification/Lambdas.v ===== *)
(** Closures and boxes: [kernel/lambda/src/lambda.c] and [kernel/box/src/box.c].

    Lambdas are shared by pointer, so they live in a store.  The functions a
    lambda points to are the caller's: calling one, to run the lambda or to clean
    up a captured context, is an event of the [trace].  A box is one pointer
    under a lock; each call on it is one step. *)

From stdpp Require Import gmap relations.
From S2P Require Import Prelude.

(** Pointers to functions and contexts; zero is [NULL]. *)
Record ak_lambda_t := mk_lambda {
  fn : Z;
  captured_ctx : Z;
  ctx_free : Z;
}.

Inductive event : Type :=
| Invoked (fn ctx args : Z)
| Cleaned (free ctx : Z).

#[export] Instance event_eq_dec : EqDecision event.
Proof. solve_decision. Defined.

(** The live lambdas, the next address, and the calls made so far, newest last. *)
Record lstore := mk_lstore {
  lambdas : gmap positive ak_lambda_t;
  next_lambda : positive;
  trace : list event;
}.

Definition sizeof_ak_lambda_t : Z := 24.

Definition deref_lambda (st : lstore) (p : positive) : outcome ak_lambda_t :=
  match lambdas st !! p with
  | Some l => Ret l
  | None => Undef
  end.

Definition called (st : lstore) (es : list event) : lstore :=
  mk_lstore (lambdas st) (next_lambda st) (trace st ++ es).

(** [if (captured_ctx && ctx_free) ctx_free(captured_ctx)] *)
Definition clean_up (l : ak_lambda_t) : list event :=
  if negb (captured_ctx l =? 0) && negb (ctx_free l =? 0)
  then [Cleaned (ctx_free l) (captured_ctx l)] else [].

Section lambda.
Context `{Allocator}.

Definition add_lambda (st : lstore) (l : ak_lambda_t) : M (option positive * lstore) :=
  ok ← alloc_obj sizeof_ak_lambda_t;
  if ok : bool
  then mret (Some (next_lambda st), mk_lstore (<[next_lambda st := l]> (lambdas st))
                                      (Pos.succ (next_lambda st)) (trace st))
  else mret (None, st).

Definition ak_lambda_new (st : lstore) (fn captured_ctx ctx_free : Z)
    : M (option positive * lstore) :=
  if fn =? 0 then mret (None, st) else
  add_lambda st (mk_lambda fn captured_ctx ctx_free).

Definition ak_lambda_invoke (st : lstore) (lambda : option positive) (invoke_args : Z)
    : outcome lstore :=
  match lambda with
  | None => Ret st
  | Some p =>
      l ← deref_lambda st p;
      if fn l =? 0 then Ret st else Ret (called st [Invoked (fn l) (captured_ctx l) invoke_args])
  end.

Definition ak_lambda_free (st : lstore) (lambda : option positive) : M lstore :=
  match lambda with
  | None => mret st
  | Some p =>
      l ← lift (deref_lambda st p);
      let st := called st (clean_up l) in
      _ ← free_obj;
      mret (mk_lstore (delete p (lambdas st)) (next_lambda st) (trace st))
  end.

Definition ak_lambda_clone (st : lstore) (lambda : option positive)
    : M (option positive * lstore) :=
  match lambda with
  | None => mret (None, st)
  | Some p =>
      l ← lift (deref_lambda st p);
      add_lambda st (mk_lambda (fn l) (captured_ctx l) 0)
  end.

Definition ak_lambda_has_context (st : lstore) (lambda : option positive) : outcome Z :=
  match lambda with
  | None => Ret 0
  | Some p => l ← deref_lambda st p; Ret (if captured_ctx l =? 0 then 0 else 1)
  end.

Definition ak_lambda_get_context (st : lstore) (lambda : option positive) : outcome Z :=
  match lambda with
  | None => Ret 0
  | Some p => l ← deref_lambda st p; Ret (captured_ctx l)
  end.

Definition ak_lambda_set_context (st : lstore) (lambda : option positive)
    (ctx free : Z) : outcome (Z * lstore) :=
  match lambda with
  | None => Ret (-1, st)
  | Some p =>
      l ← deref_lambda st p;
      let st := called st (clean_up l) in
      Ret (0, mk_lstore (<[p := mk_lambda (fn l) ctx free]> (lambdas st)) (next_lambda st) (trace st))
  end.

(** * Boxes *)

Record ak_box_t := mk_box { data : Z }.
Definition sizeof_ak_box_t : Z := 48.

(** [lock_ok]: initialising the mutex succeeds. *)
Definition ak_box_new (lock_ok : bool) (data : Z) : M (option ak_box_t) :=
  ok ← alloc_obj sizeof_ak_box_t;
  if negb ok then mret None else
  if negb lock_ok then _ ← free_obj; mret None else mret (Some (mk_box data)).

Definition ak_box_free (box : option ak_box_t) : M () :=
  match box with
  | None => mret ()
  | Some _ => free_obj
  end.
End lambda.

Definition ak_box_swap (box : option ak_box_t) (new_data : Z) : Z * option ak_box_t :=
  match box with
  | None => (0, None)
  | Some b => (data b, Some (mk_box new_data))
  end.

Definition ak_box_get (box : option ak_box_t) : Z :=
  match box with
  | None => 0
  | Some b => data b
  end.

(** The lambda runs under the box's lock. *)
Definition ak_box_visit (st : lstore) (box : option ak_box_t) (lambda : option positive)
    : outcome (Z * lstore) :=
  match box, lambda with
  | Some b, Some _ => st ← ak_lambda_invoke st lambda (data b); Ret (0, st)
  | _, _ => Ret (-1, st)
  end.

(** * Ownership of captured contexts *)

(** A lambda that will clean up the context [c]. *)
Definition owns (c : Z) (l : ak_lambda_t) : bool :=
  (captured_ctx l =? c) && negb (c =? 0) && negb (ctx_free l =? 0).

Definition owners (st : lstore) (c : Z) : nat :=
  length (filter (λ pl, owns c pl.2 = true) (map_to_list (lambdas st))).

Definition cleans (c : Z) (e : event) : bool :=
  match e with
  | Cleaned _ x => x =? c
  | _ => false
  end.

Definition cleaned (es : list event) (c : Z) : nat :=
  length (filter (λ e, cleans c e = true) es).

(** How often [c] has been handed over with a function to clean it up. *)
Definition given (c ctx free : Z) : nat := if owns c (mk_lambda 1 ctx free) then 1 else 0.

(** A call on the store, with how often it hands over [c]. *)
Inductive lambda_step `{Allocator} (c : Z) : lstore * nat → lstore * nat → Prop :=
| step_new st n f ctx free p st' s s' :
    ak_lambda_new st f ctx free s = Ret ((Some p, st'), s') →
    lambda_step c (st, n) (st', n + given c ctx free)%nat
| step_fail st n f ctx free st' s s' :
    ak_lambda_new st f ctx free s = Ret ((None, st'), s') → lambda_step c (st, n) (st', n)
| step_invoke st n p args st' :
    ak_lambda_invoke st p args = Ret st' → lambda_step c (st, n) (st', n)
| step_free st n p st' s s' :
    ak_lambda_free st p s = Ret (st', s') → lambda_step c (st, n) (st', n)
| step_clone st n p r st' s s' :
    ak_lambda_clone st p s = Ret ((r, st'), s') → lambda_step c (st, n) (st', n)
| step_set st n p ctx free st' :
    ak_lambda_set_context st (Some p) ctx free = Ret (0, st') →
    lambda_step c (st, n) (st', n + given c ctx free)%nat.

Record store_ok (c : Z) (sn : lstore * nat) : Prop := {
  so_fresh : ∀ p l, lambdas sn.1 !! p = Some l → (p < next_lambda sn.1)%positive;
  so_count : (owners sn.1 c + cleaned (trace sn.1) c)%nat = sn.2;
}.

Lemma owners_insert p l st next tr c :
  lambdas st !! p = None →
  owners (mk_lstore (<[p := l]> (lambdas st)) next tr) c
  = ((if owns c l then 1 else 0) + owners st c)%nat.
Proof.
  intros Hp. unfold owners. simpl. rewrite (map_to_list_insert _ _ l Hp), filter_cons. simpl.
  by destruct (owns c l); case_decide.
Qed.

Lemma owners_delete p l st next tr c :
  lambdas st !! p = Some l →
  owners st c = ((if owns c l then 1 else 0)
                 + owners (mk_lstore (delete p (lambdas st)) next tr) c)%nat.
Proof.
  intros Hp. rewrite <- (owners_insert p l (mk_lstore (delete p (lambdas st)) next tr) next tr c)
    by apply lookup_delete_eq.
  unfold owners. simpl. by rewrite insert_delete_id.
Qed.

Lemma owners_called st es c : owners (called st es) c = owners st c.
Proof. done. Qed.

Lemma cleaned_app es es' c : cleaned (es ++ es') c = (cleaned es c + cleaned es' c)%nat.
Proof. unfold cleaned. by rewrite list.filter_app, length_app. Qed.

(** Cleaning up happens for the context the lambda owns, and no other. *)
Lemma cleaned_clean_up l c : cleaned (clean_up l) c = if owns c l then 1%nat else 0%nat.
Proof.
  unfold clean_up, owns. destruct (Z.eqb_spec (captured_ctx l) 0) as [E|]; simpl.
  - rewrite E. destruct (Z.eqb_spec 0 c) as [<-|]; [done|]. done.
  - destruct (Z.eqb_spec (ctx_free l) 0); simpl; [by rewrite andb_false_r|].
    unfold cleaned. simpl. destruct (Z.eqb_spec (captured_ctx l) c) as [<-|Hne]; simpl.
    + rewrite filter_cons_True by (simpl; apply Z.eqb_refl).
      by rewrite (proj2 (Z.eqb_neq (captured_ctx l) 0)).
    + rewrite filter_cons_False; [done|]. simpl. by rewrite (proj2 (Z.eqb_neq _ _)).
Qed.

Section ownership.
Context `{Allocator}.

Lemma add_lambda_ok c st l r st' s s' :
  (∀ p l, lambdas st !! p = Some l → (p < next_lambda st)%positive) →
  add_lambda st l s = Ret ((r, st'), s') →
  (∀ p l, lambdas st' !! p = Some l → (p < next_lambda st')%positive) ∧ trace st' = trace st
  ∧ owners st' c = match r with
                   | Some _ => ((if owns c l then 1 else 0) + owners st c)%nat
                   | None => owners st c
                   end.
Proof.
  intros Hf Hr. unfold add_lambda, mbind, M_bind, alloc_obj in Hr.
  destruct (alloc_ok _ _); injection Hr as <- <- <-; [|done]. simpl. split; [|split; [done|]].
  - intros p l' [[<- _]|[_ Hp]]%lookup_insert_Some; [lia|]. apply Hf in Hp. lia.
  - apply owners_insert. destruct (lambdas st !! next_lambda st) eqn:E; [|done].
    apply Hf in E. lia.
Qed.

(** Freeing a live lambda takes it, and one block, away. *)
Lemma wp_lambda_free st x s :
  is_Some (lambdas st !! x) →
  wp (ak_lambda_free st (Some x)) (λ st' s', lambdas st' = delete x (lambdas st)
    ∧ next_lambda st' = next_lambda st ∧ m_live s' = m_live s - 1 ∧ m_fails s' = m_fails s) s.
Proof. intros [l Hl]. unfold ak_lambda_free, deref_lambda. rewrite Hl. by wsteps. Qed.

Lemma lambda_step_ok c sn sn' : store_ok c sn → lambda_step c sn sn' → store_ok c sn'.
Proof.
  intros [Hf Hc] Hstep. destruct Hstep as [st n f ctx free p st' s s' Hs|st n f ctx free st' s s' Hs
    |st n p args st' Hs|st n p st' s s' Hs|st n p r st' s s' Hs|st n p ctx free st' Hs]; simpl in *.
  - unfold ak_lambda_new in Hs. destruct (f =? 0); [done|].
    destruct (add_lambda_ok c _ _ _ _ _ _ Hf Hs) as (Hf' & Ht & Ho). simpl in Ho.
    split; simpl; [done|]. rewrite Ht, Ho. unfold given.
    replace (owns c (mk_lambda 1 ctx free)) with (owns c (mk_lambda f ctx free)) by done. lia.
  - unfold ak_lambda_new in Hs. destruct (f =? 0); [by injection Hs as <- _|].
    destruct (add_lambda_ok c _ _ _ _ _ _ Hf Hs) as (Hf' & Ht & Ho). simpl in Ho.
    split; simpl; [done|]. by rewrite Ht, Ho.
  - destruct p as [p|]; simpl in Hs; [|by injection Hs as <-]. unfold deref_lambda in Hs.
    destruct (lambdas st !! p) as [l|]; simpl in Hs; [|done].
    destruct (fn l =? 0); injection Hs as <-; [done|]. split; simpl; [done|].
    rewrite cleaned_app. unfold cleaned at 2. simpl. rewrite owners_called. lia.
  - destruct p as [p|]; simpl in Hs; [|by injection Hs as <- _]. unfold deref_lambda in Hs.
    unfold mbind, M_bind, lift, free_obj in Hs.
    destruct (lambdas st !! p) as [l|] eqn:Hp; simpl in Hs; [|done]. injection Hs as <- <-.
    split; simpl.
    + intros q l' [_ Hq]%lookup_delete_Some. by eapply Hf.
    + rewrite cleaned_app, cleaned_clean_up. rewrite (owners_delete p l st (next_lambda st)
        (trace st ++ clean_up l) c Hp) in Hc. lia.
  - destruct p as [p|]; simpl in Hs; [|by injection Hs as _ <- _]. unfold deref_lambda in Hs.
    unfold mbind, M_bind, lift in Hs.
    destruct (lambdas st !! p) as [l|] eqn:Hp; simpl in Hs; [|done].
    destruct (add_lambda_ok c _ _ _ _ _ _ Hf Hs) as (Hf' & Ht & Ho).
    split; simpl; [done|]. rewrite Ht, Ho. unfold owns. simpl. rewrite andb_false_r.
    destruct r; lia.
  - unfold deref_lambda in Hs. destruct (lambdas st !! p) as [l|] eqn:Hp; simpl in Hs; [|done].
    injection Hs as <-. split; simpl.
    + intros q l' [[<- _]|[_ Hq]]%lookup_insert_Some; by eapply Hf.
    + set (tr := trace st ++ clean_up l).
      pose proof (owners_delete p l st (next_lambda st) tr c Hp) as Hd. rewrite Hd in Hc.
      rewrite <- (insert_delete_eq (lambdas st) p).
      pose proof (owners_insert p (mk_lambda (fn l) ctx free)
        (mk_lstore (delete p (lambdas st)) (next_lambda st) tr) (next_lambda st) tr c
        (lookup_delete_eq _ _)) as Ho. simpl in Ho. rewrite Ho.
      assert (cleaned tr c = cleaned (trace st) c + if owns c l then 1 else 0)%nat as ->
        by (unfold tr; by rewrite cleaned_app, cleaned_clean_up).
      unfold given.
      replace (owns c (mk_lambda 1 ctx free)) with (owns c (mk_lambda (fn l) ctx free)) by done. lia.
Qed.

(** Captured contexts.  In every history of calls, a context has been cleaned
    up as often as it was handed over with a function to do so, less the lambdas
    that still own it: handed over once, it is cleaned up at most once, and
    exactly once when no lambda is left.  Clones never clean it up. *)
Theorem ak_lambda_ownership c st n st' n' :
  store_ok c (st, n) → rtc (lambda_step c) (st, n) (st', n') →
  (cleaned (trace st') c + owners st' c)%nat = n' ∧ (lambdas st' = ∅ → cleaned (trace st') c = n').
Proof.
  intros Hok Hrun.
  assert (store_ok c (st', n')) as [_ Hc].
  { remember (st, n) as sn. remember (st', n') as sn'. clear Heqsn Heqsn'.
    induction Hrun as [|sn sn1 sn2 Hs _ IH]; [done|]. by apply IH, lambda_step_ok with sn. }
  simpl in Hc. split; [lia|]. intros E. unfold owners in Hc. rewrite E, map_to_list_empty in Hc.
  simpl in Hc. lia.
Qed.
End ownership.

(** * Witness *)

#[local] Existing Instance always_alloc.

Definition wstore0 : lstore := mk_lstore ∅ 1 [].
Definition wstore1 : lstore := mk_lstore {[ 1%positive := mk_lambda 7 5 9 ]} 2 [].
Definition wstore2 : lstore := mk_lstore ∅ 2 [Cleaned 9 5].

Lemma ak_lambda_ownership_witness : cleaned (trace wstore2) 5 = 1%nat.
Proof.
  apply (ak_lambda_ownership 5 wstore0 0 wstore2 1); [by split| |done].
  eapply rtc_l; [apply (step_new 5 wstore0 0 7 5 9 1 wstore1 mem0 (Mem 1 1 0)); done|].
  eapply rtc_l; [apply (step_free 5 wstore1 1 (Some 1%positive) wstore2 mem0 (Mem 0 (-1) 0)); done|].
  apply rtc_refl.
Defined.
