(* ===== verification/Threads.v ===== *)
(** The thread pool: [kernel/threads/src/threads.c].

    Every access to the pool happens in a critical section under its mutex, save
    one; a section is one function here and one step of [pool_step], which lets
    any worker or client go next.  A worker that is about to sleep still holds the
    mutex ([W_sleepy]); a signal wakes one sleeping worker, a broadcast all, and
    sleepers may wake for no reason.  Lambdas are those of [Lambdas]; running one
    is an event of its trace. *)

From Stdlib Require String.
Import Stdlib.Strings.String.StringSyntax.
#[local] Delimit Scope string_scope with str.
From stdpp Require Import gmap relations.
From S2P Require Import Prelude Lambdas.

Inductive ak_task_state_t : Type :=
| AK24_TASK_STATE_PENDING
| AK24_TASK_STATE_RUNNING
| AK24_TASK_STATE_COMPLETED
| AK24_TASK_STATE_CANCELLED
| AK24_TASK_STATE_FAILED.

#[export] Instance task_state_eq_dec : EqDecision ak_task_state_t.
Proof. solve_decision. Defined.

Inductive ak_pool_state_t : Type :=
| AK24_POOL_STATE_INITIALIZING
| AK24_POOL_STATE_RUNNING
| AK24_POOL_STATE_SHUTTING_DOWN
| AK24_POOL_STATE_TERMINATED.

#[export] Instance pool_state_eq_dec : EqDecision ak_pool_state_t.
Proof. solve_decision. Defined.

Record ak_task_t := mk_task {
  task_lambda : positive;
  completion_callback : option positive;
  task_state : ak_task_state_t;
}.

Record ak_thread_pool_config_t := mk_config {
  cfg_max_workers : Z;
  cfg_max_queue_size : Z;
}.

(** The linked list of nodes, oldest first, and its length as the code keeps it. *)
Record ak_thread_pool_t := mk_pool {
  max_workers : Z;
  max_queue_size : Z;
  worker_count : Z;
  active_count : Z;
  queue : list ak_task_t;
  queue_size : Z;
  state : ak_pool_state_t;
}.

Definition sizeof_ak_task_t : Z := 64.
Definition sizeof_ak_task_node_t : Z := 16.
Definition sizeof_ak_thread_pool_t : Z := 200.
Definition sizeof_ak_thread_t : Z := 8.

(** The number the callback finds behind its argument. *)
Definition task_state_code (s : ak_task_state_t) : Z :=
  match s with
  | AK24_TASK_STATE_PENDING => 0
  | AK24_TASK_STATE_RUNNING => 1
  | AK24_TASK_STATE_COMPLETED => 2
  | AK24_TASK_STATE_CANCELLED => 3
  | AK24_TASK_STATE_FAILED => 4
  end.

Definition pool_state_code (s : ak_pool_state_t) : Z :=
  match s with
  | AK24_POOL_STATE_INITIALIZING => 0
  | AK24_POOL_STATE_RUNNING => 1
  | AK24_POOL_STATE_SHUTTING_DOWN => 2
  | AK24_POOL_STATE_TERMINATED => 3
  end.

(** Any number may come as a state. *)
Definition ak_task_state_str (state : Z) : String.string :=
  if state =? task_state_code AK24_TASK_STATE_PENDING then "PENDING"%str
  else if state =? task_state_code AK24_TASK_STATE_RUNNING then "RUNNING"%str
  else if state =? task_state_code AK24_TASK_STATE_COMPLETED then "COMPLETED"%str
  else if state =? task_state_code AK24_TASK_STATE_CANCELLED then "CANCELLED"%str
  else if state =? task_state_code AK24_TASK_STATE_FAILED then "FAILED"%str
  else "UNKNOWN"%str.

Definition ak_pool_state_str (state : Z) : String.string :=
  if state =? pool_state_code AK24_POOL_STATE_INITIALIZING then "INITIALIZING"%str
  else if state =? pool_state_code AK24_POOL_STATE_RUNNING then "RUNNING"%str
  else if state =? pool_state_code AK24_POOL_STATE_SHUTTING_DOWN then "SHUTTING_DOWN"%str
  else if state =? pool_state_code AK24_POOL_STATE_TERMINATED then "TERMINATED"%str
  else "UNKNOWN"%str.

Definition set_task_state (t : ak_task_t) (s : ak_task_state_t) : ak_task_t :=
  mk_task (task_lambda t) (completion_callback t) s.

Definition with_state (p : ak_thread_pool_t) (s : ak_pool_state_t) : ak_thread_pool_t :=
  mk_pool (max_workers p) (max_queue_size p) (worker_count p) (active_count p) (queue p)
    (queue_size p) s.

Definition with_active (p : ak_thread_pool_t) (n : Z) : ak_thread_pool_t :=
  mk_pool (max_workers p) (max_queue_size p) (worker_count p) n (queue p) (queue_size p) (state p).

Definition with_queue (p : ak_thread_pool_t) (q : list ak_task_t) (n : Z) : ak_thread_pool_t :=
  mk_pool (max_workers p) (max_queue_size p) (worker_count p) (active_count p) q n (state p).

Definition task_transition_state (t : ak_task_t) (from to : ak_task_state_t) : Z * ak_task_t :=
  if negb (bool_decide (task_state t = from)) then (-1, t) else (0, set_task_state t to).

Definition task_get_state (task : option ak_task_t) : ak_task_state_t :=
  match task with
  | None => AK24_TASK_STATE_FAILED
  | Some t => task_state t
  end.

(** [task_execute] up to the call of the lambda; false when it gives up. *)
Definition task_begin (st : lstore) (t : ak_task_t) : outcome (bool * lstore * ak_task_t) :=
  let '(rc, t) := task_transition_state t AK24_TASK_STATE_PENDING AK24_TASK_STATE_RUNNING in
  if negb (rc =? 0) then Ret (false, st, t) else
  st ← ak_lambda_invoke st (Some (task_lambda t)) 0;
  Ret (true, st, t).

(** The rest of it. *)
Definition task_complete (st : lstore) (t : ak_task_t) : outcome (lstore * ak_task_t) :=
  let '(rc, t) := task_transition_state t AK24_TASK_STATE_RUNNING AK24_TASK_STATE_COMPLETED in
  let t := if negb (rc =? 0) then set_task_state t AK24_TASK_STATE_FAILED else t in
  match completion_callback t with
  | None => Ret (st, t)
  | Some cb =>
      let final_state := task_get_state (Some t) in
      st ← ak_lambda_invoke st (Some cb) (task_state_code final_state);
      Ret (st, t)
  end.

Definition task_execute (st : lstore) (t : ak_task_t) : outcome (lstore * ak_task_t) :=
  '(go, st, t) ← task_begin st t;
  if go : bool then task_complete st t else Ret (st, t).

Section pool.
Context `{Allocator}.

(** [lock_ok]: initialising the mutex succeeds. *)
Definition task_new (lock_ok : bool) (lambda : option positive) (callback : option positive)
    : M (option ak_task_t) :=
  match lambda with
  | None => mret None
  | Some l =>
      ok ← alloc_obj sizeof_ak_task_t;
      if negb ok then mret None else
      if negb lock_ok then _ ← free_obj; mret None else
      mret (Some (mk_task l callback AK24_TASK_STATE_PENDING))
  end.

Definition task_free (st : lstore) (task : option ak_task_t) : M lstore :=
  match task with
  | None => mret st
  | Some t =>
      st ← ak_lambda_free st (Some (task_lambda t));
      st ← ak_lambda_free st (completion_callback t);
      _ ← free_obj;
      mret st
  end.

Definition pool_dequeue_task (p : ak_thread_pool_t) : M (option ak_task_t * ak_thread_pool_t) :=
  match queue p with
  | [] => mret (None, p)
  | t :: q => _ ← free_obj; mret (Some t, with_queue p q (u64 (queue_size p - 1)))
  end.

(** What a worker does after its first critical section. *)
Inductive verdict : Type :=
| Sleep
| Leave
| Run (task : option ak_task_t).

(** The worker's first critical section, up to the wait if there is one. *)
Definition worker_section (p : ak_thread_pool_t) : M (verdict * ak_thread_pool_t) :=
  let running := bool_decide (state p = AK24_POOL_STATE_RUNNING) in
  if running && (queue_size p =? 0) then mret (Sleep, p) else
  if negb running && (queue_size p =? 0) then mret (Leave, p) else
  '(task, p) ← pool_dequeue_task p;
  mret (Run task, with_active p (u64 (active_count p + 1))).

(** Its second one; true when it wakes the threads that wait for the pool. *)
Definition worker_done (p : ak_thread_pool_t) : bool * ak_thread_pool_t :=
  let p := with_active p (u64 (active_count p - 1)) in
  ((queue_size p =? 0) && (active_count p =? 0), p).

Definition ak_thread_pool_config_default : ak_thread_pool_config_t := mk_config 8 0.

(** What the system answers to the initialisations. *)
Record inits := mk_inits {
  init_mutex : bool;
  init_work_available : bool;
  init_work_complete : bool;
}.

(** [ak_thread_pool_new] up to the first thread. *)
Definition pool_init (config : option ak_thread_pool_config_t) (sys : inits)
    : M (option ak_thread_pool_t) :=
  let config := default ak_thread_pool_config_default config in
  if cfg_max_workers config =? 0 then mret None else
  ok ← alloc_obj sizeof_ak_thread_pool_t;
  if negb ok then mret None else
  if negb (init_mutex sys) then _ ← free_obj; mret None else
  if negb (init_work_available sys) then _ ← free_obj; mret None else
  if negb (init_work_complete sys) then _ ← free_obj; mret None else
  ok ← alloc_obj (u64 (sizeof_ak_thread_t * cfg_max_workers config));
  if negb ok then _ ← free_obj; mret None else
  mret (Some (mk_pool (cfg_max_workers config) (cfg_max_queue_size config)
                (cfg_max_workers config) 0 [] 0 AK24_POOL_STATE_RUNNING)).

(** The critical section of [ak_thread_pool_enqueue]. *)
Definition ak_thread_pool_enqueue (st : lstore) (p : ak_thread_pool_t) (lock_ok : bool)
    (task_lambda callback : option positive) : M (Z * lstore * ak_thread_pool_t) :=
  match task_lambda with
  | None => mret (-1, st, p)
  | Some _ =>
      if negb (bool_decide (state p = AK24_POOL_STATE_RUNNING)) then mret (-1, st, p) else
      if (0 <? max_queue_size p) && (max_queue_size p <=? queue_size p) then mret (-1, st, p) else
      task ← task_new lock_ok task_lambda callback;
      match task with
      | None => mret (-1, st, p)
      | Some t =>
          ok ← alloc_obj sizeof_ak_task_node_t;
          if negb ok then st ← task_free st (Some t); mret (-1, st, p) else
          mret (0, st, with_queue p (queue p ++ [t]) (u64 (queue_size p + 1)))
      end
  end.

(** [while (queue_size > 0 || active_count > 0)] *)
Definition ak_thread_pool_wait (p : ak_thread_pool_t) : bool :=
  (0 <? queue_size p) || (0 <? active_count p).

Definition ak_thread_pool_pending_count (pool : option ak_thread_pool_t) : Z :=
  match pool with None => 0 | Some p => queue_size p end.
Definition ak_thread_pool_active_count (pool : option ak_thread_pool_t) : Z :=
  match pool with None => 0 | Some p => active_count p end.
Definition ak_thread_pool_get_state (pool : option ak_thread_pool_t) : ak_pool_state_t :=
  match pool with None => AK24_POOL_STATE_TERMINATED | Some p => state p end.

(** The end of [ak_thread_pool_free]: what is left in the queue goes. *)
Fixpoint free_queue (st : lstore) (q : list ak_task_t) : M lstore :=
  match q with
  | [] => mret st
  | t :: q => _ ← free_obj; st ← task_free st (Some t); free_queue st q
  end.

Definition pool_destroy (st : lstore) (p : ak_thread_pool_t) : M (lstore * ak_thread_pool_t) :=
  let p := with_state p AK24_POOL_STATE_TERMINATED in
  st ← free_queue st (queue p);
  _ ← free_obj;
  _ ← free_obj;
  mret (st, with_queue p [] (u64 (queue_size p - zlen (queue p)))).

(** The end of [ak_thread_pool_new] when a thread did not start. *)
Definition pool_abandon : M () := _ ← free_obj; free_obj.
End pool.

#[local] Arguments task_free : simpl never.
#[local] Arguments ak_lambda_free : simpl never.

(** * Threads *)

(** Where a worker is. *)
Inductive worker : Type :=
| W_top                          (* about to lock *)
| W_sleepy                       (* found nothing to do, holds the mutex *)
| W_waiting                      (* in [ak_cond_wait] *)
| W_run (t : ak_task_t)          (* about to execute *)
| W_ran (t : ak_task_t)          (* the lambda has run *)
| W_over (t : ak_task_t)         (* executed, about to free the task *)
| W_done                         (* about to lock again *)
| W_exited.

#[export] Instance task_eq_dec : EqDecision ak_task_t.
Proof. solve_decision. Defined.
#[export] Instance worker_eq_dec : EqDecision worker.
Proof. solve_decision. Defined.

(** Where the thread that creates and frees the pool is. *)
Inductive main : Type :=
| M_creating (i : nat)           (* about to start worker [i] *)
| M_failing                      (* a thread did not start *)
| M_failed_set                   (* the state is set, the broadcast to come *)
| M_fail_join                    (* waits for the workers it started *)
| M_ready                        (* the pool is in use *)
| M_stop_join                    (* [ak_thread_pool_free] waits for the workers *)
| M_gone.

(** A client in [ak_thread_pool_wait]. *)
Inductive waiter : Type :=
| C_check
| C_waiting
| C_returned.

(** [enqueued] and [started] record the tasks accepted and the tasks begun. *)
Record conf := mk_conf {
  c_pool : ak_thread_pool_t;
  c_workers : list worker;
  c_main : main;
  c_waiters : list waiter;
  c_lambdas : lstore;
  c_mem : mem;
  enqueued : list ak_task_t;
  started : list ak_task_t;
}.

Definition wake_worker (w : worker) : worker :=
  match w with
  | W_waiting => W_top
  | _ => w
  end.

Definition wake_waiter (w : waiter) : waiter :=
  match w with
  | C_waiting => C_check
  | _ => w
  end.

(** [ak_cond_signal]: one sleeping worker wakes, if there is one. *)
Inductive signal (ws : list worker) : list worker → Prop :=
| signal_one i : ws !! i = Some W_waiting → signal ws (<[i := W_top]> ws)
| signal_none : W_waiting ∉ ws → signal ws ws.

(** No worker holds the mutex. *)
Definition unlocked (c : conf) : Prop := W_sleepy ∉ c_workers c.

Definition accepted (rc : Z) (p p' : ak_thread_pool_t) : list ak_task_t :=
  if rc =? 0 then drop (length (queue p)) (queue p') else [].

Definition begun (v : verdict) : list ak_task_t :=
  match v with
  | Run (Some t) => [t]
  | _ => []
  end.

Definition after_section (v : verdict) : worker :=
  match v with
  | Sleep => W_sleepy
  | Leave => W_exited
  | Run (Some t) => W_run t
  | Run None => W_done
  end.

(** A step of a worker. *)
Inductive worker_step `{Allocator} : conf → conf → Prop :=
| ws_section p ws m cs st s en sd i v p' s' :
    ws !! i = Some W_top → W_sleepy ∉ ws → worker_section p s = Ret ((v, p'), s') →
    worker_step (mk_conf p ws m cs st s en sd)
      (mk_conf p' (<[i := after_section v]> ws) m cs st s' en (sd ++ begun v))
| ws_sleep p ws m cs st s en sd i :
    ws !! i = Some W_sleepy →
    worker_step (mk_conf p ws m cs st s en sd) (mk_conf p (<[i := W_waiting]> ws) m cs st s en sd)
| ws_begin p ws m cs st s en sd i t go st' t' :
    ws !! i = Some (W_run t) → task_begin st t = Ret (go, st', t') →
    worker_step (mk_conf p ws m cs st s en sd)
      (mk_conf p (<[i := if go : bool then W_ran t' else W_over t']> ws) m cs st' s en sd)
| ws_complete p ws m cs st s en sd i t st' t' :
    ws !! i = Some (W_ran t) → task_complete st t = Ret (st', t') →
    worker_step (mk_conf p ws m cs st s en sd) (mk_conf p (<[i := W_over t']> ws) m cs st' s en sd)
| ws_free p ws m cs st s en sd i t st' s' :
    ws !! i = Some (W_over t) → task_free st (Some t) s = Ret (st', s') →
    worker_step (mk_conf p ws m cs st s en sd) (mk_conf p (<[i := W_done]> ws) m cs st' s' en sd)
| ws_done p ws m cs st s en sd i wake p' :
    ws !! i = Some W_done → W_sleepy ∉ ws → worker_done p = (wake, p') →
    worker_step (mk_conf p ws m cs st s en sd)
      (mk_conf p' (<[i := W_top]> ws) m (if wake : bool then wake_waiter <$> cs else cs) st s en sd).

(** A step of the thread that creates and frees the pool.  When a thread does not
    start, the state is set and the broadcast sent without the mutex. *)
Inductive main_step `{Allocator} : conf → conf → Prop :=
| ms_start p ws i cs st s en sd :
    Z.of_nat i < worker_count p →
    main_step (mk_conf p ws (M_creating i) cs st s en sd)
      (mk_conf p (ws ++ [W_top]) (M_creating (S i)) cs st s en sd)
| ms_start_fails p ws i cs st s en sd :
    Z.of_nat i < worker_count p →
    main_step (mk_conf p ws (M_creating i) cs st s en sd) (mk_conf p ws M_failing cs st s en sd)
| ms_ready p ws i cs st s en sd :
    worker_count p <= Z.of_nat i →
    main_step (mk_conf p ws (M_creating i) cs st s en sd) (mk_conf p ws M_ready cs st s en sd)
| ms_fail_set p ws cs st s en sd :
    main_step (mk_conf p ws M_failing cs st s en sd)
      (mk_conf (with_state p AK24_POOL_STATE_SHUTTING_DOWN) ws M_failed_set cs st s en sd)
| ms_fail_broadcast p ws cs st s en sd :
    main_step (mk_conf p ws M_failed_set cs st s en sd)
      (mk_conf p (wake_worker <$> ws) M_fail_join cs st s en sd)
| ms_stop p ws cs st s en sd :
    W_sleepy ∉ ws →
    main_step (mk_conf p ws M_ready cs st s en sd)
      (mk_conf (with_state p AK24_POOL_STATE_SHUTTING_DOWN) (wake_worker <$> ws) M_stop_join
         cs st s en sd)
| ms_stop_joined p ws cs st s en sd st' p' s' :
    Forall (.= W_exited) ws → pool_destroy st p s = Ret ((st', p'), s') →
    main_step (mk_conf p ws M_stop_join cs st s en sd) (mk_conf p' ws M_gone cs st' s' en sd)
| ms_fail_joined p ws cs st s en sd s' :
    Forall (.= W_exited) ws → pool_abandon s = Ret ((), s') →
    main_step (mk_conf p ws M_fail_join cs st s en sd) (mk_conf p ws M_gone cs st s' en sd).

(** The lambdas of the tasks in the pool. *)
Definition task_ptrs (t : ak_task_t) : list positive :=
  task_lambda t :: option_list (completion_callback t).

Definition held_task (w : worker) : list ak_task_t :=
  match w with
  | W_run t | W_ran t | W_over t => [t]
  | _ => []
  end.

Definition tasks_of (p : ak_thread_pool_t) (ws : list worker) : list ak_task_t :=
  concat (held_task <$> ws) ++ queue p.

Definition in_pool (c : conf) : list positive :=
  concat (task_ptrs <$> tasks_of (c_pool c) (c_workers c)).

(** A step of a client.  It hands over lambdas of its own, live and different, and
    that no task of the pool has; it may make new ones, and free those it owns. *)
Inductive client_step `{Allocator} : conf → conf → Prop :=
| cs_enqueue p ws ws' m cs st s en sd lock_ok l cb rc st' p' s' :
    m = M_ready ∨ m = M_stop_join → W_sleepy ∉ ws →
    (∀ x, x ∈ l :: option_list cb →
       is_Some (lambdas st !! x) ∧ x ∉ in_pool (mk_conf p ws m cs st s en sd)) →
    NoDup (l :: option_list cb) →
    ak_thread_pool_enqueue st p lock_ok (Some l) cb s = Ret ((rc, st', p'), s') →
    (if rc =? 0 then signal ws ws' else ws' = ws) →
    client_step (mk_conf p ws m cs st s en sd)
      (mk_conf p' ws' m cs st' s' (en ++ accepted rc p p') sd)
| cs_lambda p ws m cs st s en sd f ctx free r st' s' :
    ak_lambda_new st f ctx free s = Ret ((r, st'), s') →
    client_step (mk_conf p ws m cs st s en sd) (mk_conf p ws m cs st' s' en sd)
| cs_free p ws m cs st s en sd x st' s' :
    x ∉ in_pool (mk_conf p ws m cs st s en sd) → ak_lambda_free st (Some x) s = Ret (st', s') →
    client_step (mk_conf p ws m cs st s en sd) (mk_conf p ws m cs st' s' en sd)
| cs_wait_call p ws m cs st s en sd :
    m = M_ready →
    client_step (mk_conf p ws m cs st s en sd) (mk_conf p ws m (cs ++ [C_check]) st s en sd)
| cs_wait_check p ws m cs st s en sd i :
    m = M_ready ∨ m = M_stop_join → W_sleepy ∉ ws → cs !! i = Some C_check →
    client_step (mk_conf p ws m cs st s en sd)
      (mk_conf p ws m (<[i := if ak_thread_pool_wait p then C_waiting else C_returned]> cs) st s en sd).

(** A sleeper wakes without cause. *)
Inductive spurious : conf → conf → Prop :=
| sp_worker p ws m cs st s en sd i :
    ws !! i = Some W_waiting →
    spurious (mk_conf p ws m cs st s en sd) (mk_conf p (<[i := W_top]> ws) m cs st s en sd)
| sp_waiter p ws m cs st s en sd i :
    cs !! i = Some C_waiting →
    spurious (mk_conf p ws m cs st s en sd) (mk_conf p ws m (<[i := C_check]> cs) st s en sd).

Inductive pool_step `{Allocator} : conf → conf → Prop :=
| ps_worker c c' : worker_step c c' → pool_step c c'
| ps_main c c' : main_step c c' → pool_step c c'
| ps_client c c' : client_step c c' → pool_step c c'
| ps_spurious c c' : spurious c c' → pool_step c c'.

(** The pool as [pool_init] leaves it. *)
Definition start (p : ak_thread_pool_t) (st : lstore) (s : mem) : conf :=
  mk_conf p [] (M_creating 0) [] st s [] [].

(** * Sums over the workers *)

Definition total (f : worker → Z) (ws : list worker) : Z := foldr (λ w acc, f w + acc) 0 ws.

Lemma total_app f ws ws' : total f (ws ++ ws') = total f ws + total f ws'.
Proof. induction ws; simpl; lia. Qed.

Lemma total_insert f ws i w w' :
  ws !! i = Some w → total f (<[i := w']> ws) = total f ws - f w + f w'.
Proof.
  revert i. induction ws as [|x ws IH]; intros [|i] Hi; simplify_eq/=; [lia|].
  rewrite (IH i Hi). lia.
Qed.

Lemma total_fmap f g ws : (∀ w, f (g w) = f w) → total f (g <$> ws) = total f ws.
Proof. intros Hg. induction ws as [|x ws IH]; [done|]. rewrite fmap_cons. simpl. by rewrite Hg, IH. Qed.

Lemma total_nonneg f ws : (∀ w, 0 <= f w) → 0 <= total f ws.
Proof. intros Hf. induction ws as [|x ws IH]; simpl; [lia|]. pose proof (Hf x). lia. Qed.

Lemma total_ge f ws i w : (∀ w, 0 <= f w) → ws !! i = Some w → f w <= total f ws.
Proof.
  intros Hf. revert i. induction ws as [|x ws IH]; intros [|i] Hi; simplify_eq/=.
  - pose proof (total_nonneg f ws Hf). lia.
  - specialize (IH i Hi). pose proof (Hf x). lia.
Qed.

(** Workers between their two critical sections, and workers about to lock. *)
Definition active (w : worker) : Z :=
  match w with
  | W_run _ | W_ran _ | W_over _ | W_done => 1
  | _ => 0
  end.

Definition top (w : worker) : Z :=
  match w with
  | W_top => 1
  | _ => 0
  end.

Lemma active_range w : 0 <= active w <= 1.
Proof. destruct w; simpl; lia. Qed.

Lemma top_range w : 0 <= top w <= 1.
Proof. destruct w; simpl; lia. Qed.

Lemma total_le f ws : (∀ w, 0 <= f w <= 1) → 0 <= total f ws <= zlen ws.
Proof.
  intros Hf. induction ws as [|x ws IH]; [done|]. rewrite zlen_cons. pose proof (Hf x). simpl. lia.
Qed.

(** The tasks the workers hold, when one of them changes. *)
Lemma held_update ws i w :
  ws !! i = Some w → ∃ rest, concat (held_task <$> ws) ≡ₚ held_task w ++ rest
    ∧ ∀ w', concat (held_task <$> <[i := w']> ws) ≡ₚ held_task w' ++ rest.
Proof. apply concat_fmap_update. Qed.

Lemma held_fmap g ws :
  (∀ w, held_task (g w) = held_task w) → concat (held_task <$> (g <$> ws)) = concat (held_task <$> ws).
Proof. intros Hg. induction ws as [|w ws IH]; [done|]. rewrite !fmap_cons. simpl. by rewrite Hg, IH. Qed.

Lemma wake_worker_active w : active (wake_worker w) = active w.
Proof. by destruct w. Qed.
Lemma wake_worker_held w : held_task (wake_worker w) = held_task w.
Proof. by destruct w. Qed.

Lemma elem_insert_inv {A} (l : list A) i x y : x ∈ <[i := y]> l → x = y ∨ x ∈ l.
Proof.
  revert i. induction l as [|z l IH]; intros [|i]; simpl; [tauto|tauto| |];
    rewrite !elem_of_cons; [tauto|]. intros [->|Hx]; [tauto|]. destruct (IH i Hx); tauto.
Qed.

(** * What the operations do *)

Definition ptrs_of (ts : list ak_task_t) : list positive := concat (task_ptrs <$> ts).

#[export] Instance ptrs_of_perm : Proper ((≡ₚ) ==> (≡ₚ)) ptrs_of.
Proof.
  intros ts ts' Hts. unfold ptrs_of. induction Hts as [|t ts ts' _ IH|t t' ts|ts1 ts2 ts3 _ IH1 _ IH2];
    rewrite ?fmap_cons; cbn [concat].
  - done.
  - by rewrite IH.
  - rewrite !app_assoc. apply (Permutation_app_tail _ (Permutation_app_comm _ _)).
  - by rewrite IH1.
Qed.

Lemma ptrs_of_app ts ts' : ptrs_of (ts ++ ts') = ptrs_of ts ++ ptrs_of ts'.
Proof. unfold ptrs_of. by rewrite fmap_app, concat_app. Qed.

(** The number of blocks that are not lambdas. *)
Definition others (st : lstore) (s : mem) : Z := m_live s - Z.of_nat (size (lambdas st)).

Section operations.
Context `{Allocator}.

Lemma ak_lambda_free_ok st x s :
  is_Some (lambdas st !! x) → ∃ st' s', ak_lambda_free st (Some x) s = Ret (st', s')
    ∧ lambdas st' = delete x (lambdas st) ∧ next_lambda st' = next_lambda st
    ∧ others st' s' = others st s.
Proof.
  intros [l Hl]. unfold ak_lambda_free, deref_lambda, mbind, M_bind, lift, free_obj, others.
  rewrite Hl. simpl. do 2 eexists. split; [done|]. simpl. split_and!; [done..|].
  rewrite (map_size_delete_Some x (lambdas st)) by done.
  assert (size (lambdas st) ≠ 0%nat) by (apply map_size_ne_0_lookup; eauto). lia.
Qed.

Lemma task_free_ok st t s :
  NoDup (task_ptrs t) → Forall (λ x, is_Some (lambdas st !! x)) (task_ptrs t) →
  ∃ st' s', task_free st (Some t) s = Ret (st', s')
    ∧ (∀ x, x ∈ task_ptrs t → lambdas st' !! x = None)
    ∧ (∀ x, x ∉ task_ptrs t → lambdas st' !! x = lambdas st !! x)
    ∧ next_lambda st' = next_lambda st ∧ others st' s' = others st s - 1.
Proof.
  unfold task_ptrs. intros [Hx Hcb]%list.NoDup_cons [Hl Hls]%Forall_cons_1.
  destruct (ak_lambda_free_ok st (task_lambda t) s Hl) as (st1 & s1 & E1 & Hd1 & Hn1 & Ho1).
  assert (∃ st2 s2, ak_lambda_free st1 (completion_callback t) s1 = Ret (st2, s2)
    ∧ lambdas st2 = foldr delete (lambdas st1) (option_list (completion_callback t))
    ∧ next_lambda st2 = next_lambda st1 ∧ others st2 s2 = others st1 s1)
    as (st2 & s2 & E2 & Hd2 & Hn2 & Ho2).
  { destruct (completion_callback t) as [cb|]; simpl in *; [|by eexists _, _].
    apply Forall_cons_1 in Hls as [Hc _]. apply ak_lambda_free_ok. rewrite Hd1.
    rewrite lookup_delete_ne; [done|]. intros E. apply Hx. rewrite E. by left. }
  exists st2, (Mem (m_calls s2) (m_live s2 - 1) (m_fails s2)).
  unfold task_free, mbind, M_bind. rewrite E1, E2. split; [done|].
  split_and!; [| |congruence|unfold others in *; simpl; lia]; intros x; rewrite Hd2, Hd1.
  - destruct (completion_callback t) as [cb|]; simpl; rewrite elem_of_cons.
    + rewrite list_elem_of_singleton. intros [->| ->]; [|apply lookup_delete_eq].
      destruct (decide (cb = task_lambda t)) as [->|]; [apply lookup_delete_eq|].
      rewrite lookup_delete_ne by done. apply lookup_delete_eq.
    + intros [->|[]%not_elem_of_nil]. apply lookup_delete_eq.
  - rewrite not_elem_of_cons. intros [H1 H2]. destruct (completion_callback t) as [cb|]; simpl in *.
    + apply not_elem_of_cons in H2 as [H2 _]. by rewrite !lookup_delete_ne.
    + by rewrite lookup_delete_ne.
Qed.

(** What [ak_thread_pool_enqueue] may answer. *)
Lemma enqueue_cases st p ok l cb s rc st' p' s' :
  ak_thread_pool_enqueue st p ok (Some l) cb s = Ret ((rc, st', p'), s') →
  let t := mk_task l cb AK24_TASK_STATE_PENDING in
  (rc = 0 ∧ st' = st ∧ p' = with_queue p (queue p ++ [t]) (u64 (queue_size p + 1))
   ∧ state p = AK24_POOL_STATE_RUNNING ∧ (0 < max_queue_size p → queue_size p < max_queue_size p)
   ∧ m_live s' = m_live s + 2)
  ∨ (rc = -1 ∧ p' = p ∧ ((st' = st ∧ m_live s' = m_live s)
     ∨ ∃ s1, task_free st (Some t) s1 = Ret (st', s') ∧ m_live s1 = m_live s + 1)).
Proof.
  intros Hr t. unfold ak_thread_pool_enqueue in Hr.
  destruct (bool_decide_reflect (state p = AK24_POOL_STATE_RUNNING)) as [Hrun|]; simpl in Hr;
    [|right; injection Hr as <- <- <- <-; auto].
  destruct ((0 <? max_queue_size p) && (max_queue_size p <=? queue_size p)) eqn:Hfull; simpl in Hr;
    [right; injection Hr as <- <- <- <-; auto|].
  unfold mbind, M_bind, task_new, alloc_obj, free_obj, mret, M_ret in Hr. simpl in Hr.
  unfold mbind, M_bind in Hr. destruct (alloc_ok (m_calls s) sizeof_ak_task_t); simpl in Hr;
    [|right; injection Hr as <- <- <- <-; auto].
  destruct ok; simpl in Hr; [|right; injection Hr as <- <- <- <-; simpl; split_and!; [done..|left; split; [done|lia]]].
  destruct (alloc_ok (S (m_calls s)) sizeof_ak_task_node_t).
  - left. injection Hr as <- <- <- <-. simpl. split_and!; [done..| |lia]. intros Hm.
    apply andb_false_iff in Hfull as [?%Z.ltb_ge|?%Z.leb_gt]; lia.
  - right. cbn [negb] in Hr.
    destruct (task_free st _ (Mem (S (S (m_calls s))) (m_live s + 1) (S (m_fails s))))
      as [[st1 s1]| |] eqn:E; simpl in Hr; [|done..]. injection Hr as <- <- <- <-.
    split; [done|]. split; [done|]. right. eexists. split; [exact E|]. simpl. lia.
Qed.

(** What a worker does under the mutex. *)
Lemma worker_section_cases p s v p' s' :
  queue_size p = zlen (queue p) → worker_section p s = Ret ((v, p'), s') →
  (queue p = [] ∧ p' = p ∧ s' = s
   ∧ v = if decide (state p = AK24_POOL_STATE_RUNNING) then Sleep else Leave)
  ∨ ∃ t q, queue p = t :: q ∧ v = Run (Some t) ∧ m_live s' = m_live s - 1
    ∧ p' = with_active (with_queue p q (u64 (queue_size p - 1))) (u64 (active_count p + 1)).
Proof.
  intros Hq. unfold worker_section. rewrite Hq. destruct (queue p) as [|t q] eqn:E.
  - change (zlen [] =? 0) with true. rewrite !andb_true_r.
    destruct (decide _) as [Hs|Hs].
    + rewrite (bool_decide_eq_true_2 _ Hs). intros [= <- <- <-]. by left.
    + rewrite (bool_decide_eq_false_2 _ Hs). intros [= <- <- <-]. by left.
  - rewrite zlen_cons. pose proof (zlen_nonneg q).
    rewrite (proj2 (Z.eqb_neq _ _)), !andb_false_r by lia.
    unfold pool_dequeue_task. rewrite E. intros [= <- <- <-]. right. exists t, q.
    rewrite Hq, zlen_cons. by split_and!.
Qed.
End operations.

(** * The invariants *)

(** The numbers the pool keeps. *)
Record counts_ok (c : conf) : Prop := {
  k_queue : queue_size (c_pool c) = zlen (queue (c_pool c));
  k_active : active_count (c_pool c) = total active (c_workers c);
  k_workers : 1 <= worker_count (c_pool c) < 2 ^ 64;
  k_created : zlen (c_workers c) <= worker_count (c_pool c);
  k_main : match c_main c with
           | M_creating i => zlen (c_workers c) = Z.of_nat i
           | M_ready | M_stop_join => zlen (c_workers c) = worker_count (c_pool c)
           | _ => True
           end;
  k_fifo : enqueued c = started c ++ queue (c_pool c);
  k_bound : 0 < max_queue_size (c_pool c) → zlen (queue (c_pool c)) <= max_queue_size (c_pool c);
}.

Definition worker_task_ok (w : worker) : Prop :=
  match w with
  | W_run t => task_state t = AK24_TASK_STATE_PENDING
  | W_ran t => task_state t = AK24_TASK_STATE_RUNNING
  | W_over t => task_state t = AK24_TASK_STATE_COMPLETED
  | _ => True
  end.

(** The blocks of the pool itself. *)
Definition pool_blocks (m : main) : Z :=
  match m with
  | M_gone => 0
  | _ => 2
  end.

(** The tasks, their lambdas, and the memory: [b] blocks are someone else's. *)
Record tasks_ok (b : Z) (c : conf) : Prop := {
  t_queued : Forall (λ t, task_state t = AK24_TASK_STATE_PENDING) (queue (c_pool c));
  t_held : Forall worker_task_ok (c_workers c);
  t_nodup : NoDup (in_pool c);
  t_live : ∀ x, x ∈ in_pool c → is_Some (lambdas (c_lambdas c) !! x);
  t_fresh : ∀ x l, lambdas (c_lambdas c) !! x = Some l → (x < next_lambda (c_lambdas c))%positive;
  t_mem : others (c_lambdas c) (c_mem c) = b + pool_blocks (c_main c)
          + zlen (queue (c_pool c)) + zlen (tasks_of (c_pool c) (c_workers c));
}.

Definition running (m : main) : bool :=
  match m with
  | M_creating _ | M_failing | M_ready => true
  | _ => false
  end.

(** Before any client has the pool. *)
Definition private (m : main) : bool :=
  match m with
  | M_creating _ | M_failing | M_failed_set | M_fail_join => true
  | _ => false
  end.

Definition stopping (m : main) : bool :=
  match m with
  | M_stop_join | M_gone => true
  | _ => false
  end.

(** Who sleeps, and why.  The last-but-two says that no wake-up is lost: while a
    worker sleeps, every task in the queue has a worker about to look for it. *)
Record control_ok (c : conf) : Prop := {
  o_state : c_main c ≠ M_gone →
    state (c_pool c) = if running (c_main c) then AK24_POOL_STATE_RUNNING else AK24_POOL_STATE_SHUTTING_DOWN;
  o_private : private (c_main c) = true → queue (c_pool c) = [] ∧ c_waiters c = [];
  o_exited : W_exited ∈ c_workers c → running (c_main c) = false ∧ queue (c_pool c) = [];
  o_sleepy : W_sleepy ∈ c_workers c → queue (c_pool c) = [];
  o_stop : stopping (c_main c) = true → (W_sleepy ∉ c_workers c) ∧ (W_waiting ∉ c_workers c);
  o_awake : W_waiting ∈ c_workers c → zlen (queue (c_pool c)) <= total top (c_workers c);
  o_wait : C_waiting ∈ c_waiters c → queue (c_pool c) ≠ [] ∨ 0 < total active (c_workers c);
  o_gone : c_main c = M_gone → queue (c_pool c) = [] ∧ Forall (.= W_exited) (c_workers c);
}.

Definition conf_ok (b : Z) (c : conf) : Prop := counts_ok c ∧ tasks_ok b c ∧ control_ok c.

(** The tasks of the pool, when a worker changes. *)
Lemma tasks_update p ws i w :
  ws !! i = Some w → ∃ rest, tasks_of p ws ≡ₚ held_task w ++ rest ++ queue p
    ∧ ∀ w' p', tasks_of p' (<[i := w']> ws) ≡ₚ held_task w' ++ rest ++ queue p'.
Proof.
  intros Hi. destruct (held_update ws i w Hi) as (rest & H1 & H2). exists rest. unfold tasks_of.
  split; [|intros w' p']; [rewrite H1|rewrite H2]; by rewrite app_assoc.
Qed.

Lemma in_pool_perm c ts : tasks_of (c_pool c) (c_workers c) ≡ₚ ts → in_pool c ≡ₚ ptrs_of ts.
Proof. apply ptrs_of_perm. Qed.

Lemma zlen_perm {A} (l l' : list A) : l ≡ₚ l' → zlen l = zlen l'.
Proof. intros Hl. unfold zlen. by rewrite Hl. Qed.

(** A change of one worker that leaves the pool and its tasks as they were. *)
Lemma tasks_ok_same b c c' :
  tasks_ok b c → queue (c_pool c') = queue (c_pool c) → Forall worker_task_ok (c_workers c') →
  in_pool c' ≡ₚ in_pool c → zlen (tasks_of (c_pool c') (c_workers c')) = zlen (tasks_of (c_pool c) (c_workers c)) →
  lambdas (c_lambdas c') = lambdas (c_lambdas c) → next_lambda (c_lambdas c') = next_lambda (c_lambdas c) →
  m_live (c_mem c') = m_live (c_mem c) → pool_blocks (c_main c') = pool_blocks (c_main c) →
  tasks_ok b c'.
Proof.
  intros [H1 H2 H3 H4 H5 H6] Hq Hw Hp Hz Hl Hn Hm Hb. unfold others in H6.
  split; rewrite ?Hq, ?Hp, ?Hz, ?Hl, ?Hn, ?Hb; try done.
  - intros x Hx. rewrite Hp in Hx. by apply H4.
  - unfold others. by rewrite Hl, Hm.
Qed.

Section steps.
Context `{Allocator}.

(** ** The counts *)

Lemma counts_worker c c' :
  zlen (enqueued c) < 2 ^ 62 → counts_ok c → worker_step c c' → counts_ok c'.
Proof.
  intros Hlen [K1 K2 K3 K4 K5 K6 K7] Hstep.
  destruct Hstep as [p ws m cs st s en sd i v p' s' Hi _ Hs|p ws m cs st s en sd i Hi
    |p ws m cs st s en sd i t go st' t' Hi Hs|p ws m cs st s en sd i t st' t' Hi Hs
    |p ws m cs st s en sd i t st' s' Hi Hs|p ws m cs st s en sd i wake p' Hi _ Hs]; simpl in *;
    pose proof (total_insert active ws i _ W_top Hi) as Ht;
    pose proof (total_insert active ws i _ W_done Hi) as Ht';
    pose proof (total_le active ws active_range) as Hr;
    pose proof (total_le active (<[i:=W_done]> ws) active_range) as Hr'; rewrite zlen_insert in Hr'; simpl in *.
  - destruct (worker_section_cases _ _ _ _ _ K1 Hs)
      as [(Hq & -> & _ & ->)|(t & q & Hq & -> & _ & ->)].
    + split; simpl; rewrite ?zlen_insert; try done.
      * rewrite (total_insert _ _ _ _ _ Hi). destruct (decide _); simpl; lia.
      * destruct (decide _); by rewrite app_nil_r.
    + assert (queue_size p - 1 = zlen q) as Hq' by (rewrite K1, Hq, zlen_cons; lia).
      rewrite K6, zlen_app, Hq, zlen_cons in Hlen. pose proof (zlen_nonneg sd). pose proof (zlen_nonneg q).
      split; simpl; rewrite ?zlen_insert; try done.
      * rewrite Hq'. apply u64_small. lia.
      * rewrite (total_insert _ _ _ _ _ Hi), K2. simpl. rewrite u64_small; lia.
      * by rewrite K6, Hq, <- app_assoc.
      * rewrite Hq, zlen_cons in K7. intros Hm. specialize (K7 Hm). lia.
  - split; simpl; rewrite ?zlen_insert, ?(total_insert _ _ _ _ _ Hi); try done. simpl. lia.
  - split; simpl; rewrite ?zlen_insert, ?(total_insert _ _ _ _ _ Hi); try done. destruct go; simpl; lia.
  - split; simpl; rewrite ?zlen_insert, ?(total_insert _ _ _ _ _ Hi); try done. simpl. lia.
  - split; simpl; rewrite ?zlen_insert, ?(total_insert _ _ _ _ _ Hi); try done. simpl. lia.
  - injection Hs as <- <-. split; simpl; rewrite ?zlen_insert; try done.
    pose proof (total_ge active ws i _ (λ w, proj1 (active_range w)) Hi) as Hge. simpl in Hge.
    rewrite K2, Ht, u64_small; lia.
Qed.

Lemma counts_main c c' : control_ok c → counts_ok c → main_step c c' → counts_ok c'.
Proof.
  intros Hctl [K1 K2 K3 K4 K5 K6 K7] Hstep.
  destruct Hstep as [p ws i cs st s en sd Hi|p ws i cs st s en sd Hi|p ws i cs st s en sd Hi
    |p ws cs st s en sd|p ws cs st s en sd|p ws cs st s en sd Hu|p ws cs st s en sd st' p' s' Hx Hs
    |p ws cs st s en sd s' Hx Hs]; simpl in *; try done.
  - split; simpl; rewrite ?total_app, ?zlen_app; try done; change (zlen [W_top]) with 1; simpl; lia.
  - split; simpl; try done. lia.
  - split; simpl; try done; [|unfold zlen in *; by rewrite length_fmap].
    by rewrite (total_fmap _ _ _ wake_worker_active).
  - split; simpl; try done; [|unfold zlen in *; rewrite length_fmap; lia..].
    by rewrite (total_fmap _ _ _ wake_worker_active).
  - (* an exited worker has left an empty queue *)
    assert (queue p = []) as Hq.
    { destruct ws as [|w ws]; [change (zlen []) with 0 in K5; lia|].
      apply Forall_cons_1 in Hx as [-> _]. apply (o_exited _ Hctl). by left. }
    unfold pool_destroy in Hs. simpl in Hs. rewrite Hq in Hs. injection Hs as <- <- <-.
    split; simpl; rewrite ?K1, ?Hq; try done; [by rewrite K6, Hq|by rewrite Hq in K7].
Qed.

Lemma counts_client c c' :
  zlen (enqueued c') < 2 ^ 62 → counts_ok c → client_step c c' → counts_ok c'.
Proof.
  intros Hlen [K1 K2 K3 K4 K5 K6 K7] Hstep.
  destruct Hstep as [p ws ws' m cs st s en sd ok l cb rc st' p' s' Hm Hu Hl Hnd Hs Hsig
    |p ws m cs st s en sd f ctx free r st' s' Hs|p ws m cs st s en sd x st' s' Hx Hs|p ws m cs st s en sd Hm
    |p ws m cs st s en sd i Hm Hu Hi]; simpl in *; try done.
  assert (zlen ws' = zlen ws ∧ total active ws' = total active ws) as [Hz Ha].
  { destruct (rc =? 0); [|by subst]. destruct Hsig as [i Hi|]; [|done].
    rewrite zlen_insert, (total_insert _ _ _ _ _ Hi). simpl. lia. }
  destruct (enqueue_cases _ _ _ _ _ _ _ _ _ _ Hs) as [(-> & -> & -> & Hst & Hroom & _)|(-> & -> & _)].
  - unfold accepted in *. simpl in *. rewrite drop_app_length in *.
    rewrite zlen_app, K6, zlen_app in Hlen. change (zlen [_]) with 1 in Hlen.
    pose proof (zlen_nonneg sd). pose proof (zlen_nonneg (queue p)).
    split; simpl; rewrite ?Hz, ?Ha, ?zlen_app; change (zlen [_]) with 1; try done.
    + rewrite u64_small; lia.
    + by rewrite K6, app_assoc.
    + intros Hm'. specialize (Hroom Hm'). lia.
  - change (accepted (-1) p p) with (@nil ak_task_t). split; simpl; rewrite ?Hz, ?Ha, ?app_nil_r; done.
Qed.

Lemma counts_spurious c c' : counts_ok c → spurious c c' → counts_ok c'.
Proof.
  intros [K1 K2 K3 K4 K5 K6 K7] Hstep.
  destruct Hstep as [p ws m cs st s en sd i Hi|p ws m cs st s en sd i Hi]; simpl in *; [|by split].
  split; simpl; rewrite ?zlen_insert, ?(total_insert _ _ _ _ _ Hi); try done. simpl. lia.
Qed.
(** ** The tasks *)

(** A worker changes, and holds the same lambdas as before. *)
Lemma tasks_ok_worker b p ws m cs st s en sd i w p' w' cs' st' en' sd' :
  tasks_ok b (mk_conf p ws m cs st s en sd) → ws !! i = Some w →
  ptrs_of (held_task w') = ptrs_of (held_task w) → length (held_task w') = length (held_task w) →
  worker_task_ok w' → queue p' = queue p → lambdas st' = lambdas st → next_lambda st' = next_lambda st →
  tasks_ok b (mk_conf p' (<[i := w']> ws) m cs' st' s en' sd').
Proof.
  intros Ht Hi Hp Hz Hw Hq Hl Hn. destruct (tasks_update p ws i w Hi) as (rest & H1 & H2).
  specialize (H2 w' p'). rewrite Hq in H2. apply (tasks_ok_same _ _ _ Ht); simpl; try done.
  - apply Forall_insert; [|done]. apply (t_held _ _ Ht).
  - rewrite (in_pool_perm (mk_conf p ws m cs st s en sd) _ H1).
    rewrite (in_pool_perm (mk_conf p' (<[i:=w']> ws) m cs' st' s en' sd') _ H2).
    by rewrite !ptrs_of_app, Hp.
  - rewrite (zlen_perm _ _ H1), (zlen_perm _ _ H2). unfold zlen. rewrite !length_app. lia.
Qed.

Lemma ak_lambda_invoke_same st x a st' :
  ak_lambda_invoke st x a = Ret st' → lambdas st' = lambdas st ∧ next_lambda st' = next_lambda st.
Proof.
  destruct x as [x|]; simpl; [|by intros [= <-]]. unfold deref_lambda.
  destruct (lambdas st !! x); simpl; [|done]. destruct (fn _ =? 0); by intros [= <-].
Qed.

Lemma task_begin_inv st t go st' t' :
  task_state t = AK24_TASK_STATE_PENDING → task_begin st t = Ret (go, st', t') →
  go = true ∧ t' = set_task_state t AK24_TASK_STATE_RUNNING
  ∧ lambdas st' = lambdas st ∧ next_lambda st' = next_lambda st.
Proof.
  intros Ht. unfold task_begin, task_transition_state. rewrite Ht.
  rewrite bool_decide_eq_true_2 by done. cbn -[ak_lambda_invoke].
  destruct (ak_lambda_invoke st (Some _) _) as [st1| |] eqn:E; simpl; [|done..]. intros [= <- <- <-].
  split; [done|]. split; [done|]. by eapply ak_lambda_invoke_same.
Qed.

Lemma task_complete_inv st t st' t' :
  task_state t = AK24_TASK_STATE_RUNNING → task_complete st t = Ret (st', t') →
  t' = set_task_state t AK24_TASK_STATE_COMPLETED
  ∧ lambdas st' = lambdas st ∧ next_lambda st' = next_lambda st.
Proof.
  intros Ht. unfold task_complete, task_transition_state. rewrite Ht.
  rewrite bool_decide_eq_true_2 by done. cbn -[ak_lambda_invoke].
  destruct (completion_callback t) as [cb|]; [|by intros [= <- <-]].
  destruct (ak_lambda_invoke st (Some _) _) as [st1| |] eqn:E; cbn -[ak_lambda_invoke]; [|done..].
  intros [= <- <-]. split; [done|]. by eapply ak_lambda_invoke_same.
Qed.

(** A worker frees its task. *)
Lemma tasks_free b p ws m cs st s en sd i t st' s' :
  tasks_ok b (mk_conf p ws m cs st s en sd) → ws !! i = Some (W_over t) →
  task_free st (Some t) s = Ret (st', s') →
  tasks_ok b (mk_conf p (<[i := W_done]> ws) m cs st' s' en sd).
Proof.
  intros [T1 T2 T3 T4 T5 T6] Hi Hs. destruct (tasks_update p ws i _ Hi) as (rest & H1 & H2).
  specialize (H2 W_done p). simpl in *.
  pose proof (in_pool_perm (mk_conf p ws m cs st s en sd) _ H1) as P1.
  pose proof (in_pool_perm (mk_conf p (<[i:=W_done]> ws) m cs st' s' en sd) _ H2) as P2.
  change (t :: rest ++ queue p) with ([t] ++ (rest ++ queue p)) in P1. rewrite ptrs_of_app in P1.
  assert (ptrs_of [t] = task_ptrs t) as Et by apply app_nil_r. rewrite Et in P1.
  rewrite P1 in T3. apply list.NoDup_app in T3 as (Nt & Nd & Nr).
  assert (∀ x, x ∈ task_ptrs t ∨ x ∈ ptrs_of (rest ++ queue p) → is_Some (lambdas st !! x)) as Hlive.
  { intros x Hx. apply T4. rewrite P1. by apply elem_of_app. }
  destruct (task_free_ok st t s) as (st1 & s1 & E & Hin & Hout & Hn & Ho); [done| |].
  { apply list.Forall_forall. intros x Hx. apply Hlive. by left. }
  rewrite E in Hs. injection Hs as -> ->.
  split; simpl; try done.
  - by apply Forall_insert.
  - by rewrite P2.
  - intros x Hx. rewrite P2 in Hx. rewrite Hout; [apply Hlive; by right|]. intros Hx'. by apply (Nd x).
  - intros x l Hl. rewrite Hn. apply (T5 x l). destruct (decide (x ∈ task_ptrs t)) as [Hx|Hx].
    + by rewrite (Hin x Hx) in Hl.
    + by rewrite (Hout x Hx) in Hl.
  - rewrite Ho, T6, (zlen_perm _ _ H1), (zlen_perm _ _ H2), zlen_cons. lia.
Qed.

Lemma tasks_worker b c c' : counts_ok c → tasks_ok b c → worker_step c c' → tasks_ok b c'.
Proof.
  intros K T Hstep. pose proof (t_held _ _ T) as Hheld. pose proof (k_queue _ K) as K1.
  destruct Hstep as [p ws m cs st s en sd i v p' s' Hi _ Hs|p ws m cs st s en sd i Hi
    |p ws m cs st s en sd i t go st' t' Hi Hs|p ws m cs st s en sd i t st' t' Hi Hs
    |p ws m cs st s en sd i t st' s' Hi Hs|p ws m cs st s en sd i wake p' Hi _ Hs]; simpl in *;
    pose proof (Forall_lookup_1 _ _ _ _ Hheld Hi) as Hw; simpl in Hw.
  - destruct (worker_section_cases _ _ _ _ _ K1 Hs)
      as [(_ & -> & -> & ->)|(t & q & Hq & -> & Hm & ->)].
    { by destruct (decide _); apply (tasks_ok_worker b p ws m cs st s en sd i W_top). }
    destruct T as [T1 T2 T3 T4 T5 T6]. simpl in *. rewrite Hq in T1. apply Forall_cons_1 in T1 as [Ht T1].
    destruct (tasks_update p ws i _ Hi) as (rest & H1 & H2).
    specialize (H2 (W_run t) (with_active (with_queue p q (u64 (queue_size p - 1))) (u64 (active_count p + 1)))).
    simpl in H2. rewrite Hq in H1. simpl in H1.
    pose proof (in_pool_perm (mk_conf p ws m cs st s en sd) _ H1) as P1.
    assert (rest ++ t :: q ≡ₚ t :: rest ++ q) as Hperm by (symmetry; apply Permutation_middle).
    rewrite Hperm in P1, H1.
    pose proof (in_pool_perm (mk_conf (with_active (with_queue p q (u64 (queue_size p - 1)))
      (u64 (active_count p + 1))) (<[i:=W_run t]> ws) m cs st s' en (sd ++ [t])) _ H2) as P2.
    split; simpl; try done.
    + by apply Forall_insert.
    + by rewrite P2, <- P1.
    + intros x. rewrite P2, <- P1. apply T4.
    + rewrite (zlen_perm _ _ H2), <- (zlen_perm _ _ H1). rewrite Hq, zlen_cons in T6.
      unfold others in *. lia.
  - by apply (tasks_ok_worker b p ws m cs st s en sd i W_sleepy).
  - destruct (task_begin_inv _ _ _ _ _ Hw Hs) as (-> & -> & Hl & Hn).
    by apply (tasks_ok_worker b p ws m cs st s en sd i (W_run t)).
  - destruct (task_complete_inv _ _ _ _ Hw Hs) as (-> & Hl & Hn).
    by apply (tasks_ok_worker b p ws m cs st s en sd i (W_ran t)).
  - by apply (tasks_free b p ws m cs st s en sd i t).
  - injection Hs as _ <-. by apply (tasks_ok_worker b p ws m cs st s en sd i W_done).
Qed.
Lemma joined_empty c :
  counts_ok c → control_ok c → c_main c = M_stop_join → Forall (.= W_exited) (c_workers c) →
  queue (c_pool c) = [].
Proof.
  intros K O Hm Hx. pose proof (k_main _ K) as K5. pose proof (k_workers _ K) as K3. rewrite Hm in K5.
  destruct (c_workers c) as [|w ws] eqn:Ew; [change (zlen []) with 0 in K5; lia|].
  apply Forall_cons_1 in Hx as [-> _]. apply (o_exited _ O). rewrite Ew. by left.
Qed.

Lemma exited_hold_nothing p ws : Forall (.= W_exited) ws → queue p = [] → tasks_of p ws = [].
Proof.
  intros Hx Hq. unfold tasks_of. rewrite Hq, app_nil_r.
  induction Hx as [|w ws -> _ IH]; [done|]. by rewrite fmap_cons.
Qed.

(** The pool is gone. *)
Lemma tasks_gone b p ws m cs st s en sd p' s' :
  tasks_ok b (mk_conf p ws m cs st s en sd) → m ≠ M_gone → Forall (.= W_exited) ws →
  queue p = [] → queue p' = [] → m_live s' = m_live s - 2 →
  tasks_ok b (mk_conf p' ws M_gone cs st s' en sd).
Proof.
  intros [T1 T2 T3 T4 T5 T6] Hm Hx Hq Hq' Hs. simpl in *.
  pose proof (exited_hold_nothing p' ws Hx Hq') as E'.
  assert (in_pool (mk_conf p' ws M_gone cs st s' en sd) = []) as Ei by (unfold in_pool; simpl; by rewrite E').
  split; simpl; rewrite ?Ei, ?E', ?Hq'; try done.
  - apply NoDup_nil_2.
  - intros x Hxx. by apply elem_of_nil in Hxx.
  - rewrite (exited_hold_nothing p ws Hx Hq), Hq in T6. unfold others in *. destruct m; simpl in *; try done;
      change (zlen []) with 0 in *; lia.
Qed.

Lemma tasks_of_wake p p' ws : queue p' = queue p → tasks_of p' (wake_worker <$> ws) = tasks_of p ws.
Proof. intros Hq. unfold tasks_of. by rewrite Hq, (held_fmap _ _ wake_worker_held). Qed.

Lemma worker_task_ok_wake ws : Forall worker_task_ok ws → Forall worker_task_ok (wake_worker <$> ws).
Proof. intros Hws. apply Forall_fmap. by induction Hws as [|[] ws]; constructor. Qed.

Lemma tasks_main b c c' :
  counts_ok c → control_ok c → tasks_ok b c → main_step c c' → tasks_ok b c'.
Proof.
  intros K O T Hstep. pose proof (t_held _ _ T) as Hheld.
  destruct Hstep as [p ws i cs st s en sd Hi|p ws i cs st s en sd Hi|p ws i cs st s en sd Hi
    |p ws cs st s en sd|p ws cs st s en sd|p ws cs st s en sd Hu|p ws cs st s en sd st' p' s' Hx Hs
    |p ws cs st s en sd s' Hx Hs]; simpl in *; try by apply (tasks_ok_same _ _ _ T).
  - assert (tasks_of p (ws ++ [W_top]) = tasks_of p ws) as E
      by (unfold tasks_of; rewrite fmap_app, concat_app; simpl; by rewrite app_nil_r).
    apply (tasks_ok_same _ _ _ T); simpl; try done.
    + apply Forall_app. by repeat constructor.
    + unfold in_pool. simpl. by rewrite E.
    + by rewrite E.
  - apply (tasks_ok_same _ _ _ T); simpl; try done.
    + by apply worker_task_ok_wake.
    + unfold in_pool. simpl. by rewrite (tasks_of_wake p).
    + by rewrite (tasks_of_wake p).
  - apply (tasks_ok_same _ _ _ T); simpl; try done.
    + by apply worker_task_ok_wake.
    + unfold in_pool. simpl. by rewrite (tasks_of_wake p).
    + by rewrite (tasks_of_wake p).
  - pose proof (joined_empty _ K O eq_refl Hx) as Hq. simpl in Hq.
    unfold pool_destroy in Hs. simpl in Hs. rewrite Hq in Hs. injection Hs as <- <- <-.
    apply (tasks_gone b p ws M_stop_join cs st s); try done. simpl. lia.
  - injection Hs as <-. pose proof (proj1 (o_private _ O eq_refl)) as Hq. simpl in Hq.
    apply (tasks_gone b p ws M_fail_join cs st s); try done. simpl. lia.
Qed.

(** Lambdas that no task of the pool has come and go. *)
Lemma tasks_ok_lambdas b p ws m cs st s en sd st' s' :
  tasks_ok b (mk_conf p ws m cs st s en sd) →
  (∀ x, x ∈ in_pool (mk_conf p ws m cs st s en sd) → is_Some (lambdas st' !! x)) →
  (∀ x l, lambdas st' !! x = Some l → (x < next_lambda st')%positive) →
  others st' s' = others st s → tasks_ok b (mk_conf p ws m cs st' s' en sd).
Proof. intros [T1 T2 T3 T4 T5 T6] Hl Hf Ho. simpl in *. split; simpl; try done. congruence. Qed.

Lemma ak_lambda_new_inv st f ctx free s r st' s' :
  ak_lambda_new st f ctx free s = Ret ((r, st'), s') →
  (st' = st ∧ m_live s' = m_live s)
  ∨ (lambdas st' = <[next_lambda st := mk_lambda f ctx free]> (lambdas st)
     ∧ next_lambda st' = Pos.succ (next_lambda st) ∧ m_live s' = m_live s + 1).
Proof.
  unfold ak_lambda_new. destruct (f =? 0); [intros [= _ <- <-]; by left|].
  unfold add_lambda, mbind, M_bind, alloc_obj. destruct (alloc_ok _ _); intros [= _ <- <-].
  - by right.
  - by left.
Qed.

Lemma tasks_lambda_new b p ws m cs st s en sd f ctx free r st' s' :
  tasks_ok b (mk_conf p ws m cs st s en sd) → ak_lambda_new st f ctx free s = Ret ((r, st'), s') →
  tasks_ok b (mk_conf p ws m cs st' s' en sd).
Proof.
  intros T Hs. pose proof (t_fresh _ _ T) as Hf. pose proof (t_live _ _ T) as Hlive. simpl in *.
  destruct (ak_lambda_new_inv _ _ _ _ _ _ _ _ Hs) as [[-> Hm]|(Hl & Hn & Hm)].
  - apply (tasks_ok_lambdas _ _ _ _ _ st s); try done. unfold others. lia.
  - apply (tasks_ok_lambdas _ _ _ _ _ st s); try done.
    + intros x Hx. rewrite Hl. apply lookup_insert_is_Some'. right. by apply Hlive.
    + intros x l. rewrite Hl, Hn. intros [[<- _]|[_ Hx]]%lookup_insert_Some; [lia|].
      apply Hf in Hx. lia.
    + unfold others. rewrite Hl, map_size_insert_None; [lia|].
      destruct (lambdas st !! next_lambda st) eqn:E; [|done]. apply Hf in E. lia.
Qed.
(** The signal leaves what the workers hold. *)
Lemma signal_held ws ws' :
  signal ws ws' → Forall worker_task_ok ws →
  concat (held_task <$> ws') ≡ₚ concat (held_task <$> ws) ∧ Forall worker_task_ok ws'.
Proof.
  intros [i Hi|] Hw; [|done]. destruct (held_update ws i _ Hi) as (rest & H1 & H2).
  split; [|by apply Forall_insert]. rewrite H1. apply (H2 W_top).
Qed.

Lemma tasks_enqueue b p ws ws' m cs st s en sd l cb p' s' en' :
  tasks_ok b (mk_conf p ws m cs st s en sd) →
  (∀ x, x ∈ l :: option_list cb →
     is_Some (lambdas st !! x) ∧ x ∉ in_pool (mk_conf p ws m cs st s en sd)) →
  NoDup (l :: option_list cb) → signal ws ws' →
  queue p' = queue p ++ [mk_task l cb AK24_TASK_STATE_PENDING] → m_live s' = m_live s + 2 →
  tasks_ok b (mk_conf p' ws' m cs st s' en' sd).
Proof.
  intros [T1 T2 T3 T4 T5 T6] Hown Hnd Hsig Hq Hs. simpl in *.
  destruct (signal_held _ _ Hsig T2) as [Hheld Hw].
  set (t := mk_task l cb AK24_TASK_STATE_PENDING) in *.
  assert (tasks_of p' ws' ≡ₚ [t] ++ tasks_of p ws) as Hts.
  { unfold tasks_of. rewrite Hheld, Hq, app_assoc. apply Permutation_app_comm. }
  assert (in_pool (mk_conf p' ws' m cs st s' en' sd)
    ≡ₚ (l :: option_list cb) ++ in_pool (mk_conf p ws m cs st s en sd)) as Hp.
  { rewrite (in_pool_perm (mk_conf p' ws' m cs st s' en' sd) _ Hts), ptrs_of_app.
    assert (ptrs_of [t] = l :: option_list cb) as -> by apply app_nil_r. done. }
  split; simpl; try done.
  - rewrite Hq. apply Forall_app. by repeat constructor.
  - rewrite Hp. apply list.NoDup_app. split_and!; [done| |done]. intros x Hx. by apply Hown.
  - intros x Hx. rewrite Hp in Hx. apply elem_of_app in Hx as [Hx|Hx]; [by apply Hown|by apply T4].
  - rewrite Hq, (zlen_perm _ _ Hts), !zlen_app. change (zlen [t]) with 1. unfold others in *. lia.
Qed.

(** Lambdas that no task of the pool has are freed. *)
Lemma tasks_lambdas_freed b p ws m cs st s en sd st' s' (xs : list positive) :
  tasks_ok b (mk_conf p ws m cs st s en sd) →
  (∀ x, x ∈ xs → x ∉ in_pool (mk_conf p ws m cs st s en sd)) →
  (∀ x, x ∈ xs → lambdas st' !! x = None) → (∀ x, x ∉ xs → lambdas st' !! x = lambdas st !! x) →
  next_lambda st' = next_lambda st → others st' s' = others st s →
  tasks_ok b (mk_conf p ws m cs st' s' en sd).
Proof.
  intros T Hxs Hin Hout Hn Ho. pose proof (t_fresh _ _ T) as Hf. pose proof (t_live _ _ T) as Hlive.
  simpl in *. apply (tasks_ok_lambdas _ _ _ _ _ st s); try done.
  - intros x Hx. rewrite Hout; [by apply Hlive|]. intros Hx'. by apply (Hxs x).
  - intros x l' Hx. rewrite Hn. apply (Hf x l'). destruct (decide (x ∈ xs)) as [Hi|Hi].
    + by rewrite (Hin x Hi) in Hx.
    + by rewrite (Hout x Hi) in Hx.
Qed.

Lemma tasks_client b c c' : tasks_ok b c → client_step c c' → tasks_ok b c'.
Proof.
  intros T Hstep.
  destruct Hstep as [p ws ws' m cs st s en sd ok l cb rc st' p' s' Hm Hu Hl Hnd Hs Hsig
    |p ws m cs st s en sd f ctx free r st' s' Hs|p ws m cs st s en sd x st' s' Hx Hs|p ws m cs st s en sd Hm
    |p ws m cs st s en sd i Hm Hu Hi]; simpl in *; try by apply (tasks_ok_same _ _ _ T); try apply T.
  - destruct (enqueue_cases _ _ _ _ _ _ _ _ _ _ Hs)
      as [(-> & -> & -> & Hst & _ & Hmem)|(-> & -> & Hcase)].
    { by apply (tasks_enqueue b p ws ws' m cs st s en sd l cb). }
    simpl in Hsig. subst ws'. change (accepted (-1) p p) with (@nil ak_task_t). rewrite app_nil_r.
    destruct Hcase as [[-> Hmem]|(s1 & Hf & Hmem)].
    { by apply (tasks_ok_same _ _ _ T); try apply T. }
    destruct (task_free_ok st (mk_task l cb AK24_TASK_STATE_PENDING) s1) as (st1 & s2 & E & Hin & Hout & Hn & Ho).
    { done. }
    { apply list.Forall_forall. intros x Hx. by apply Hl. }
    rewrite E in Hf. injection Hf as -> ->.
    apply (tasks_lambdas_freed b p ws m cs st s en sd _ _ (l :: option_list cb)); try done.
    + intros x Hx. by apply Hl.
    + rewrite Ho. unfold others. lia.
  - by eapply tasks_lambda_new.
  - assert (is_Some (lambdas st !! x)) as Hlive.
    { unfold ak_lambda_free, deref_lambda, mbind, M_bind, lift in Hs.
      destruct (lambdas st !! x); [by eexists|done]. }
    destruct (ak_lambda_free_ok st x s Hlive) as (st1 & s1 & E & Hd & Hn & Ho).
    rewrite E in Hs. injection Hs as -> ->.
    apply (tasks_lambdas_freed b p ws m cs st s en sd _ _ [x]); try done.
    + intros y ->%list_elem_of_singleton. done.
    + intros y ->%list_elem_of_singleton. rewrite Hd. apply lookup_delete_eq.
    + intros y Hy. rewrite Hd. apply lookup_delete_ne. intros ->. apply Hy. by left.
Qed.

Lemma tasks_spurious b c c' : tasks_ok b c → spurious c c' → tasks_ok b c'.
Proof.
  intros T Hstep. destruct Hstep as [p ws m cs st s en sd i Hi|p ws m cs st s en sd i Hi].
  - by apply (tasks_ok_worker b p ws m cs st s en sd i W_waiting).
  - by apply (tasks_ok_same _ _ _ T); try apply T.
Qed.
(** ** Control *)

Lemma not_gone c i w :
  control_ok c → c_workers c !! i = Some w → w ≠ W_exited → c_main c ≠ M_gone.
Proof.
  intros O Hi Hw Hm. destruct (o_gone _ O Hm) as [_ Hx]. apply Hw.
  by apply (Forall_lookup_1 _ _ _ _ Hx Hi).
Qed.

Lemma top_nonneg ws : 0 <= total top ws.
Proof. apply (total_le top ws top_range). Qed.

Lemma active_nonneg ws : 0 <= total active ws.
Proof. apply (total_le active ws active_range). Qed.

(** A worker goes on with its task. *)
Lemma control_busy p ws m cs st s en sd i w w' st' s' :
  control_ok (mk_conf p ws m cs st s en sd) → ws !! i = Some w →
  active w = 1 → active w' = 1 → control_ok (mk_conf p (<[i := w']> ws) m cs st' s' en sd).
Proof.
  intros O Hi Hw Hw'.
  assert (m ≠ M_gone) as Hm by (apply (not_gone _ i w O Hi); by intros ->).
  assert (∀ x, active x = 0 → x ∈ <[i:=w']> ws → x ∈ ws) as Hold.
  { intros x Hx [->|]%elem_insert_inv; [lia|done]. }
  destruct O as [O1 O2 O3 O4 O5 O6 O7 O8]. simpl in *. split; simpl; try done.
  - intros Hx. by apply O3, Hold.
  - intros Hx. by apply O4, Hold.
  - intros Hs. destruct (O5 Hs) as [Ha Hb]. split; [intros Hx; apply Ha|intros Hx; apply Hb]; by apply Hold.
  - intros Hx. rewrite (total_insert _ _ _ _ _ Hi).
    specialize (O6 (Hold W_waiting eq_refl Hx)). destruct w, w'; simpl in *; lia.
  - intros Hx. rewrite (total_insert _ _ _ _ _ Hi). destruct (O7 Hx); [by left|right; lia].
Qed.

Lemma control_section p ws m cs st s en sd i v p' s' :
  queue_size p = zlen (queue p) → control_ok (mk_conf p ws m cs st s en sd) →
  ws !! i = Some W_top → W_sleepy ∉ ws → worker_section p s = Ret ((v, p'), s') →
  control_ok (mk_conf p' (<[i := after_section v]> ws) m cs st s' en (sd ++ begun v)).
Proof.
  intros K1 O Hi Hu Hs. assert (m ≠ M_gone) as Hm by (by apply (not_gone _ i _ O Hi)).
  destruct O as [O1 O2 O3 O4 O5 O6 O7 O8]. simpl in *. specialize (O1 Hm).
  pose proof (top_nonneg (<[i:=after_section v]> ws)) as Htop.
  pose proof (active_nonneg ws) as Hact.
  destruct (worker_section_cases _ _ _ _ _ K1 Hs) as [(Hq & -> & -> & ->)|(t & q & Hq & -> & _ & ->)].
  - assert (total active (<[i:=after_section (if decide (state p = AK24_POOL_STATE_RUNNING)
      then Sleep else Leave)]> ws) = total active ws) as Ha.
    { rewrite (total_insert _ _ _ _ _ Hi). destruct (decide _); simpl; lia. }
    split; simpl; rewrite ?Ha; try done.
    + intros [Hx|Hx]%elem_insert_inv; [|by apply O3]. split; [|done].
      rewrite O1 in Hx. by destruct (running m); [case_decide|].
    + intros Hstop. destruct (O5 Hstop) as [_ Hw]. assert (running m = false) as Hr by (by destruct m).
      split; intros [Hx|Hx]%elem_insert_inv; try done; rewrite O1, Hr in Hx; by case_decide.
    + intros _. rewrite Hq. done.
  - split; simpl; try done.
    + intros Hp. destruct (O2 Hp) as [E _]. by rewrite E in Hq.
    + intros [?|Hx]%elem_insert_inv; [done|]. destruct (O3 Hx) as [_ E]. by rewrite E in Hq.
    + by intros [?|Hx]%elem_insert_inv.
    + intros Hstop. destruct (O5 Hstop) as [_ Hw]. by split; intros [?|Hx]%elem_insert_inv.
    + intros [?|Hx]%elem_insert_inv; [done|]. specialize (O6 Hx).
      rewrite (total_insert _ _ _ _ _ Hi), Hq, zlen_cons in *. simpl in *. lia.
    + intros _. right. rewrite (total_insert _ _ _ _ _ Hi). simpl. lia.
Qed.

Lemma control_worker c c' : counts_ok c → control_ok c → worker_step c c' → control_ok c'.
Proof.
  intros K O Hstep. pose proof (k_queue _ K) as K1. pose proof (k_active _ K) as K2.
  destruct Hstep as [p ws m cs st s en sd i v p' s' Hi Hu Hs|p ws m cs st s en sd i Hi
    |p ws m cs st s en sd i t go st' t' Hi Hs|p ws m cs st s en sd i t st' t' Hi Hs
    |p ws m cs st s en sd i t st' s' Hi Hs|p ws m cs st s en sd i wake p' Hi Hu Hs]; simpl in *.
  - by apply (control_section p ws m cs st s).
  - assert (m ≠ M_gone) as Hm by (by apply (not_gone _ i _ O Hi)).
    assert (W_sleepy ∈ ws) as Hsl by (by eapply list_elem_of_lookup_2).
    pose proof (top_nonneg (<[i:=W_waiting]> ws)) as Htop.
    destruct O as [O1 O2 O3 O4 O5 O6 O7 O8]. simpl in *. specialize (O4 Hsl). split; simpl; try done.
    + intros [?|Hx]%elem_insert_inv; [done|by apply O3].
    + intros Hstop. by destruct (O5 Hstop).
    + intros _. by rewrite O4.
    + intros Hx. rewrite (total_insert _ _ _ _ _ Hi). destruct (O7 Hx); [by left|right; simpl; lia].
  - destruct go; by apply (control_busy p ws m cs st s en sd i (W_run t)).
  - by apply (control_busy p ws m cs st s en sd i (W_ran t)).
  - by apply (control_busy p ws m cs st s en sd i (W_over t)).
  - assert (m ≠ M_gone) as Hm by (by apply (not_gone _ i _ O Hi)). injection Hs as <- <-.
    destruct O as [O1 O2 O3 O4 O5 O6 O7 O8]. simpl in *.
    pose proof (total_insert active ws i _ W_top Hi) as Ha. simpl in Ha.
    pose proof (active_nonneg (<[i:=W_top]> ws)) as Hpos.
    split; simpl; try done.
    + intros Hp. destruct (O2 Hp) as [-> ->]. by destruct (_ && _).
    + intros [?|Hx]%elem_insert_inv; [done|by apply O3].
    + by intros [?|Hx]%elem_insert_inv.
    + intros Hstop. destruct (O5 Hstop) as [_ Hw]. by split; intros [?|Hx]%elem_insert_inv.
    + intros [?|Hx]%elem_insert_inv; [done|]. specialize (O6 Hx).
      rewrite (total_insert _ _ _ _ _ Hi). simpl. lia.
    + rewrite K1, K2. destruct (queue p) as [|t q] eqn:Eq; [|by left].
      change (zlen [] =? 0) with true. simpl. destruct (u64 _ =? 0) eqn:E.
      * intros [[] [? _]]%list_elem_of_fmap; done.
      * intros _. right. rewrite Ha. rewrite Ha in Hpos.
        destruct (decide (total active ws - 1 = 0)) as [E0|]; [|lia]. by rewrite E0 in E.
Qed.
Lemma elem_wake w (ws : list worker) : w ∈ wake_worker <$> ws → w ≠ W_waiting ∧ (w = W_top ∨ w ∈ ws).
Proof. intros [x [-> Hx]]%list_elem_of_fmap. destruct x; simpl; auto. Qed.

Lemma total_exited f ws : f W_exited = 0 → Forall (.= W_exited) ws → total f ws = 0.
Proof. intros Hf Hx. induction Hx as [|w ws -> _ IH]; simpl; lia. Qed.

(** A broadcast to the workers, and perhaps a new state. *)
Lemma control_broadcast p p' ws m m' cs st s en sd :
  control_ok (mk_conf p ws m cs st s en sd) → m ≠ M_gone → m' ≠ M_gone →
  state p' = (if running m' then AK24_POOL_STATE_RUNNING else AK24_POOL_STATE_SHUTTING_DOWN) →
  queue p' = queue p → private m' = private m → (running m' = true → running m = true) →
  (stopping m' = true → W_sleepy ∉ ws) →
  control_ok (mk_conf p' (wake_worker <$> ws) m' cs st s en sd).
Proof.
  intros [O1 O2 O3 O4 O5 O6 O7 O8] Hm Hm' Hst Hq Hp Hr Hsl. simpl in *.
  split; simpl; rewrite ?Hq, ?Hp; try done.
  - intros [_ [?|Hx]]%elem_wake; [done|]. destruct (O3 Hx) as [Hr' ?]. split; [|done].
    destruct (running m'); [|done]. by rewrite Hr in Hr'.
  - intros [_ [?|Hx]]%elem_wake; [done|by apply O4].
  - intros Hstop. specialize (Hsl Hstop). by split; intros [? [?|?]]%elem_wake.
  - by intros [? _]%elem_wake.
  - by rewrite (total_fmap _ _ _ wake_worker_active).
Qed.

(** The pool is freed. *)
Lemma control_gone p p' ws m cs st s en sd st' s' :
  control_ok (mk_conf p ws m cs st s en sd) → Forall (.= W_exited) ws → queue p = [] →
  queue p' = [] → control_ok (mk_conf p' ws M_gone cs st' s' en sd).
Proof.
  intros [O1 O2 O3 O4 O5 O6 O7 O8] Hx Hq Hq'. simpl in *.
  rewrite Hq, (total_exited active ws eq_refl Hx) in O7.
  assert (∀ w, w ∈ ws → w = W_exited) as Hall by (by apply list.Forall_forall).
  split; simpl; try done.
  - intros _. split; intros Hw; by apply Hall in Hw.
  - intros Hw. by apply Hall in Hw.
  - intros Hw. destruct (O7 Hw); [done|lia].
Qed.

Lemma control_main c c' : counts_ok c → control_ok c → main_step c c' → control_ok c'.
Proof.
  intros K O Hstep. pose proof O as O'.
  destruct Hstep as [p ws i cs st s en sd Hi|p ws i cs st s en sd Hi|p ws i cs st s en sd Hi
    |p ws cs st s en sd|p ws cs st s en sd|p ws cs st s en sd Hu|p ws cs st s en sd st' p' s' Hx Hs
    |p ws cs st s en sd s' Hx Hs]; simpl in *;
    destruct O' as [O1 O2 O3 O4 O5 O6 O7 O8]; simpl in *.
  - assert (∀ w, w ∈ ws ++ [W_top] → w = W_top ∨ w ∈ ws) as Hold.
    { intros w [?|?%list_elem_of_singleton]%elem_of_app; auto. }
    split; simpl; rewrite ?total_app; try done.
    + intros _. by apply O1.
    + intros [?|Hx]%Hold; [done|by apply O3].
    + by intros [?|Hx]%Hold; [|apply O4].
    + intros [?|Hx]%Hold; [done|]. specialize (O6 Hx). simpl. lia.
    + intros Hx. destruct (O7 Hx); [by left|right; simpl; lia].
  - split; simpl; try done. intros _. by apply O1.
  - split; simpl; try done. intros _. by apply O1.
  - split; simpl; try done. intros Hx. by destruct (O3 Hx).
  - apply (control_broadcast p p ws M_failed_set M_fail_join); try done. by apply O1.
  - by apply (control_broadcast p _ ws M_ready M_stop_join).
  - pose proof (joined_empty _ K O eq_refl Hx) as Hq. simpl in Hq.
    apply (control_gone p p' ws M_stop_join cs st s); try done.
    unfold pool_destroy in Hs. simpl in Hs. rewrite Hq in Hs. by injection Hs as _ <- _.
  - destruct (O2 eq_refl) as [Hq _]. by apply (control_gone p p ws M_fail_join cs st s).
Qed.

Lemma control_client c c' : counts_ok c → control_ok c → client_step c c' → control_ok c'.
Proof.
  intros K O Hstep. pose proof (k_queue _ K) as K1. pose proof (k_active _ K) as K2.
  destruct O as [O1 O2 O3 O4 O5 O6 O7 O8].
  destruct Hstep as [p ws ws' m cs st s en sd ok l cb rc st' p' s' Hm Hu Hl Hnd Hs Hsig
    |p ws m cs st s en sd f ctx free r st' s' Hs|p ws m cs st s en sd x st' s' Hx Hs|p ws m cs st s en sd Hm
    |p ws m cs st s en sd i Hm Hu Hi]; simpl in *; try done.
  - destruct (enqueue_cases _ _ _ _ _ _ _ _ _ _ Hs) as [(-> & -> & -> & Hst & _)|(-> & -> & _)].
    2:{ simpl in Hsig. by subst. }
    simpl in Hsig. assert (m = M_ready) as ->.
    { destruct Hm as [->| ->]; [done|]. rewrite O1 in Hst by done. done. }
    assert (∀ w, w ∈ ws' → w = W_top ∨ w ∈ ws) as Hold.
    { intros w. destruct Hsig; [apply elem_insert_inv|by right]. }
    split; simpl; try done.
    + intros [?|Hx]%Hold; [done|]. by destruct (O3 Hx).
    + by intros [?|Hx]%Hold.
    + intros Hx. rewrite zlen_app. change (zlen [_]) with 1. destruct Hsig as [i Hi|Hn]; [|done].
      rewrite (total_insert _ _ _ _ _ Hi). simpl.
      assert (W_waiting ∈ ws) as Hw by (by eapply list_elem_of_lookup_2). specialize (O6 Hw). lia.
    + intros _. left. by destruct (queue p).
  - subst m. split; simpl; try done.
    intros [Hx|?%list_elem_of_singleton]%elem_of_app; [by apply O7|done].
  - split; simpl; try done.
    + intros Hp. by destruct Hm as [->| ->].
    + unfold ak_thread_pool_wait. rewrite K1, K2. intros [Hx|Hx]%elem_insert_inv; [|by apply O7].
      destruct (queue p) as [|t q]; [|by left]. right. change (0 <? zlen []) with false in Hx.
      simpl in Hx. by destruct (Z.ltb_spec 0 (total active ws)).
Qed.

Lemma control_spurious c c' : control_ok c → spurious c c' → control_ok c'.
Proof.
  intros O Hstep. pose proof O as O'. destruct O' as [O1 O2 O3 O4 O5 O6 O7 O8].
  destruct Hstep as [p ws m cs st s en sd i Hi|p ws m cs st s en sd i Hi]; simpl in *.
  - assert (m ≠ M_gone) as Hm by (by apply (not_gone _ i _ O Hi)). split; simpl; try done.
    + intros [?|Hx]%elem_insert_inv; [done|by apply O3].
    + intros [?|Hx]%elem_insert_inv; [done|by apply O4].
    + intros Hstop. destruct (O5 Hstop). by split; intros [?|Hx]%elem_insert_inv.
    + intros [?|Hx]%elem_insert_inv; [done|]. specialize (O6 Hx).
      rewrite (total_insert _ _ _ _ _ Hi). simpl. lia.
    + intros Hx. rewrite (total_insert _ _ _ _ _ Hi). destruct (O7 Hx); [by left|right; simpl; lia].
  - split; simpl; try done.
    + intros Hp. destruct (O2 Hp) as [? ->]. by destruct i.
    + intros [?|Hx]%elem_insert_inv; [done|by apply O7].
Qed.

(** ** Every run *)

Lemma step_enqueued c c' : pool_step c c' → zlen (enqueued c) <= zlen (enqueued c').
Proof.
  intros [? ? Hs|? ? Hs|? ? Hs|? ? Hs]; destruct Hs; simpl; try lia.
  rewrite zlen_app. pose proof (zlen_nonneg (accepted rc p p')). lia.
Qed.

Lemma pool_ok_step b c c' :
  zlen (enqueued c') < 2 ^ 62 → conf_ok b c → pool_step c c' → conf_ok b c'.
Proof.
  intros Hlen (K & T & O) Hstep. pose proof (step_enqueued _ _ Hstep) as He.
  destruct Hstep as [c c' Hs|c c' Hs|c c' Hs|c c' Hs]; split_and!.
  - apply (counts_worker c); [lia|done..].
  - by apply (tasks_worker b c).
  - by apply (control_worker c).
  - by apply (counts_main c).
  - by apply (tasks_main b c).
  - by apply (control_main c).
  - by apply (counts_client c).
  - by apply (tasks_client b c).
  - by apply (control_client c).
  - by apply (counts_spurious c).
  - by apply (tasks_spurious b c).
  - by apply (control_spurious c).
Qed.

Lemma run_enqueued c c' : rtc pool_step c c' → zlen (enqueued c) <= zlen (enqueued c').
Proof. induction 1 as [c|c c1 c2 Hs _ IH]; [lia|]. pose proof (step_enqueued _ _ Hs). lia. Qed.

Lemma pool_ok_run b c c' :
  zlen (enqueued c') < 2 ^ 62 → conf_ok b c → rtc pool_step c c' → conf_ok b c'.
Proof.
  intros Hlen Hok Hrun. induction Hrun as [c|c c1 c2 Hs Hr IH]; [done|].
  apply (IH Hlen), (pool_ok_step b c); try done. pose proof (run_enqueued _ _ Hr). lia.
Qed.

(** The pool as [ak_thread_pool_new] sets it up. *)
Lemma pool_init_inv config sys s p s' :
  pool_init config sys s = Ret (Some p, s') →
  let cfg := default ak_thread_pool_config_default config in
  p = mk_pool (cfg_max_workers cfg) (cfg_max_queue_size cfg) (cfg_max_workers cfg) 0 [] 0
        AK24_POOL_STATE_RUNNING
  ∧ cfg_max_workers cfg ≠ 0 ∧ m_live s' = m_live s + 2.
Proof.
  intros Hs cfg. unfold pool_init in Hs. fold cfg in Hs. clearbody cfg. destruct cfg as [mw mq].
  simpl in *. destruct (Z.eqb_spec mw 0) as [|Hmw]; [done|].
  unfold mbind, M_bind, alloc_obj, free_obj, mret, M_ret in Hs. simpl in Hs.
  destruct (alloc_ok _ _); simpl in Hs; [|done].
  destruct (init_mutex sys); simpl in Hs; [|done]. destruct (init_work_available sys); simpl in Hs; [|done].
  destruct (init_work_complete sys); simpl in Hs; [|done].
  destruct (alloc_ok _ _); simpl in Hs; [|done]. injection Hs as <- <-. simpl. split_and!; [done..|lia].
Qed.

Lemma pool_init_ok config sys st s p s' :
  (∀ cfg, config = Some cfg → is_size (cfg_max_workers cfg)) →
  (∀ x l, lambdas st !! x = Some l → (x < next_lambda st)%positive) →
  pool_init config sys s = Ret (Some p, s') → conf_ok (others st s) (start p st s').
Proof.
  intros Hcfg Hf Hs. destruct (pool_init_inv _ _ _ _ _ Hs) as (-> & Hmw & Hm).
  assert (is_size (cfg_max_workers (default ak_thread_pool_config_default config))) as Hsz.
  { destruct config as [cfg|]; simpl; [by apply Hcfg|unfold is_size; lia]. }
  unfold is_size in Hsz. split; [split; unfold zlen; simpl; done || lia|split].
  2:{ by split; simpl; try done; intros ?%elem_of_nil. }
  split; simpl; try done.
  - apply NoDup_nil_2.
  - intros x Hx. by apply elem_of_nil in Hx.
  - unfold others. simpl. change (zlen []) with 0. change (zlen (tasks_of _ _)) with 0. lia.
Qed.
End steps.

(** * What holds of every run *)

(** The call of a live lambda. *)
Definition invocation (st : lstore) (x : positive) (args : Z) : list event :=
  match lambdas st !! x with
  | Some l => if fn l =? 0 then [] else [Invoked (fn l) (captured_ctx l) args]
  | None => []
  end.

Lemma called_nil st : called st [] = st.
Proof. destruct st. unfold called. simpl. by rewrite app_nil_r. Qed.

Lemma ak_lambda_invoke_live st x a :
  is_Some (lambdas st !! x) → ak_lambda_invoke st (Some x) a = Ret (called st (invocation st x a)).
Proof.
  intros [l Hl]. simpl. unfold deref_lambda, invocation. rewrite Hl. simpl.
  destruct (fn l =? 0); [by rewrite called_nil|done].
Qed.

Section runs.
Context `{Allocator}.

Lemma held_in_pool c i w t :
  c_workers c !! i = Some w → held_task w = [t] → ∀ x, x ∈ task_ptrs t → x ∈ in_pool c.
Proof.
  intros Hi Hw x Hx. destruct (tasks_update (c_pool c) _ i w Hi) as (rest & H1 & _).
  rewrite (in_pool_perm c _ H1), Hw, ptrs_of_app. apply elem_of_app. left.
  assert (ptrs_of [t] = task_ptrs t) as -> by apply app_nil_r. done.
Qed.

Lemma held_live b c i w t :
  tasks_ok b c → c_workers c !! i = Some w → held_task w = [t] →
  Forall (λ x, is_Some (lambdas (c_lambdas c) !! x)) (task_ptrs t) ∧ NoDup (task_ptrs t).
Proof.
  intros T Hi Hw. split.
  - apply list.Forall_forall. intros x Hx. apply (t_live _ _ T). by eapply held_in_pool.
  - pose proof (t_nodup _ _ T) as Hn. destruct (tasks_update (c_pool c) _ i w Hi) as (rest & H1 & _).
    rewrite (in_pool_perm c _ H1), Hw, ptrs_of_app in Hn.
    assert (ptrs_of [t] = task_ptrs t) as Et by apply app_nil_r. rewrite Et in Hn.
    by apply list.NoDup_app in Hn as [Hn _].
Qed.

(** A worker runs its task, its callback, and frees it. *)
Lemma held_begin b c i t :
  tasks_ok b c → c_workers c !! i = Some (W_run t) →
  task_begin (c_lambdas c) t
  = Ret (true, called (c_lambdas c) (invocation (c_lambdas c) (task_lambda t) 0),
         set_task_state t AK24_TASK_STATE_RUNNING).
Proof.
  intros T Hi. destruct (held_live b c i _ t T Hi eq_refl) as [Hl _].
  apply Forall_cons_1 in Hl as [Hl _].
  pose proof (Forall_lookup_1 _ _ _ _ (t_held _ _ T) Hi) as Ht. simpl in Ht.
  unfold task_begin, task_transition_state. rewrite Ht, bool_decide_eq_true_2 by done.
  cbn -[ak_lambda_invoke]. by rewrite ak_lambda_invoke_live.
Qed.

Lemma held_complete b c i t :
  tasks_ok b c → c_workers c !! i = Some (W_ran t) →
  task_complete (c_lambdas c) t
  = Ret (called (c_lambdas c) (match completion_callback t with
                               | Some cb => invocation (c_lambdas c) cb 2
                               | None => []
                               end),
         set_task_state t AK24_TASK_STATE_COMPLETED).
Proof.
  intros T Hi. destruct (held_live b c i _ t T Hi eq_refl) as [Hl _].
  apply Forall_cons_1 in Hl as [_ Hl].
  pose proof (Forall_lookup_1 _ _ _ _ (t_held _ _ T) Hi) as Ht. simpl in Ht.
  unfold task_complete, task_transition_state. rewrite Ht, bool_decide_eq_true_2 by done.
  cbn -[ak_lambda_invoke]. destruct (completion_callback t) as [cb|]; simpl in Hl; [|by rewrite called_nil].
  apply Forall_cons_1 in Hl as [Hl _]. by rewrite ak_lambda_invoke_live.
Qed.

Lemma held_free b c i t :
  tasks_ok b c → c_workers c !! i = Some (W_over t) →
  ∃ st' s', task_free (c_lambdas c) (Some t) (c_mem c) = Ret (st', s')
    ∧ ∀ x, x ∈ task_ptrs t → lambdas st' !! x = None.
Proof.
  intros T Hi. destruct (held_live b c i _ t T Hi eq_refl) as [Hl Hn].
  destruct (task_free_ok (c_lambdas c) t (c_mem c) Hn Hl) as (st' & s' & E & Hin & _).
  by exists st', s'.
Qed.

(** A worker that is neither asleep nor gone can go on. *)
Lemma worker_goes_on b c i w :
  conf_ok b c → c_workers c !! i = Some w → w ≠ W_waiting → w ≠ W_exited →
  ∃ c', worker_step c c'.
Proof.
  intros (K & T & O) Hi Hw Hx. destruct (decide (W_sleepy ∈ c_workers c)) as [Hs|Hs].
  { destruct (list_elem_of_lookup_1 _ _ Hs) as [j Hj]. destruct c. simpl in *. eexists. by eapply ws_sleep. }
  pose proof (held_begin b c i) as Hb. pose proof (held_complete b c i) as Hc.
  pose proof (held_free b c i) as Hf. pose proof (k_queue _ K) as K1.
  destruct c as [p ws m cs st s en sd]. simpl in *. destruct w as [| | |t|t|t| |]; try done.
  - assert (∃ v p' s', worker_section p s = Ret ((v, p'), s')) as (v & p' & s' & E).
    { unfold worker_section. destruct (_ && _); [by do 3 eexists|]. destruct (_ && _); [by do 3 eexists|].
      unfold pool_dequeue_task. destruct (queue p); by do 3 eexists. }
    eexists. by eapply ws_section.
  - by eapply list_elem_of_lookup_2 in Hi.
  - eexists. eapply ws_begin; [done|by apply Hb].
  - eexists. eapply ws_complete; [done|by apply Hc].
  - destruct (Hf t T Hi) as (st' & s' & E & _). eexists. by eapply ws_free.
  - destruct (worker_done p) as [wake p'] eqn:E. eexists. by eapply ws_done.
Qed.
End runs.

(** * The theorems *)

(** How many steps of workers are left once the pool is being freed. *)
Definition steps_left (w : worker) : Z :=
  match w with
  | W_run _ => 5
  | W_ran _ => 4
  | W_over _ => 3
  | W_done => 2
  | W_top => 1
  | _ => 0
  end.

Definition stop_measure (c : conf) : Z :=
  5 * zlen (queue (c_pool c)) + total steps_left (c_workers c).

Lemma steps_left_nonneg ws : 0 <= total steps_left ws.
Proof. apply total_nonneg. intros []; simpl; lia. Qed.

Section theorems.
Context `{Allocator}.

Lemma total_pos f ws : 0 < total f ws → ∃ i w, ws !! i = Some w ∧ 0 < f w.
Proof.
  induction ws as [|w ws IH]; simpl; [lia|]. intros Hp. destruct (decide (0 < f w)).
  - by exists 0%nat, w.
  - destruct IH as (i & x & Hi & Hx); [lia|]. by exists (S i), x.
Qed.

(** No wake-up is lost: while there is work, some worker can go on. *)
Lemma work_goes_on b c :
  conf_ok b c → c_main c = M_ready → ak_thread_pool_wait (c_pool c) = true → ∃ c', worker_step c c'.
Proof.
  intros Hok Hm Hw. pose proof Hok as (K & T & O). pose proof (k_main _ K) as K5. rewrite Hm in K5.
  unfold ak_thread_pool_wait in Hw. rewrite (k_queue _ K), (k_active _ K) in Hw.
  destruct (decide (0 < total active (c_workers c))) as [Ha|Ha].
  { destruct (total_pos _ _ Ha) as (i & w & Hi & Hx).
    apply (worker_goes_on b c i w Hok Hi); intros ->; simpl in Hx; lia. }
  rewrite (proj2 (Z.ltb_ge 0 (total active (c_workers c)))), orb_false_r in Hw by lia. apply Z.ltb_lt in Hw.
  destruct (decide (W_waiting ∈ c_workers c)) as [Hs|Hs].
  - pose proof (o_awake _ O Hs). destruct (total_pos top (c_workers c)) as (i & w & Hi & Hx); [lia|].
    apply (worker_goes_on b c i w Hok Hi); intros ->; simpl in Hx; lia.
  - pose proof (k_workers _ K). destruct (c_workers c !! 0%nat) as [w|] eqn:Hi.
    + apply (worker_goes_on b c 0 w Hok Hi); intros ->; apply list_elem_of_lookup_2 in Hi; [done|].
      destruct (o_exited _ O Hi) as [_ E]. by rewrite E in Hw.
    + destruct (c_workers c); [change (zlen []) with 0 in K5; lia|done].
Qed.

(** [c] is reached from the pool that [ak_thread_pool_new] sets up. *)
Record reached (config : option ak_thread_pool_config_t) (st : lstore) (s : mem) (c : conf) : Prop := {
  r_config : ∀ cfg, config = Some cfg → is_size (cfg_max_workers cfg);
  r_fresh : ∀ x l, lambdas st !! x = Some l → (x < next_lambda st)%positive;
  r_run : ∃ sys p s0, pool_init config sys s = Ret (Some p, s0) ∧ rtc pool_step (start p st s0) c;
  r_bound : zlen (enqueued c) < 2 ^ 62;
}.

Lemma reached_ok config st s c : reached config st s c → conf_ok (others st s) c.
Proof.
  intros [Hc Hf (sys & p & s0 & Hi & Hr) Hb].
  pose proof (pool_init_ok _ _ _ _ _ _ Hc Hf Hi) as Hok. by eapply pool_ok_run.
Qed.

(** C3: the thread pool, in every interleaving of workers, clients and the
    creator.  Accepted tasks begin in the order of acceptance, each once; the two
    counts are right and the queue keeps its limit; a task that a worker holds is
    executed without undefined behaviour, its lambda and its callback called with
    the right arguments, its lambdas freed once; while there is work a worker can
    go on.  The signals of the clients and of the workers reach who waits for them:
    while a worker sleeps every queued task has a worker that is about to look for it;
    a client sleeps in [ak_thread_pool_wait] only while a task is queued or active; and
    no worker sleeps once the pool is being freed.  Waiting ends only when all is done,
    and when the pool is gone every accepted task has begun and all its memory is
    released.  (The broadcast of a creator that cannot start a thread can be lost:
    [ak_thread_pool_new_lost_wakeup].) *)
Theorem ak_thread_pool_runs_spec config st s c :
  reached config st s c →
  enqueued c = started c ++ queue (c_pool c)
  ∧ ak_thread_pool_pending_count (Some (c_pool c)) = zlen (queue (c_pool c))
  ∧ ak_thread_pool_active_count (Some (c_pool c)) = total active (c_workers c)
  ∧ (0 < max_queue_size (c_pool c) → zlen (queue (c_pool c)) <= max_queue_size (c_pool c))
  ∧ (∀ i t, c_workers c !! i = Some (W_run t) →
       task_begin (c_lambdas c) t
       = Ret (true, called (c_lambdas c) (invocation (c_lambdas c) (task_lambda t) 0),
              set_task_state t AK24_TASK_STATE_RUNNING))
  ∧ (∀ i t, c_workers c !! i = Some (W_ran t) →
       task_complete (c_lambdas c) t
       = Ret (called (c_lambdas c) (match completion_callback t with
                                    | Some cb => invocation (c_lambdas c) cb 2
                                    | None => []
                                    end),
              set_task_state t AK24_TASK_STATE_COMPLETED))
  ∧ (∀ i t, c_workers c !! i = Some (W_over t) →
       ∃ st' s', task_free (c_lambdas c) (Some t) (c_mem c) = Ret (st', s')
         ∧ ∀ x, x ∈ task_ptrs t → lambdas st' !! x = None)
  ∧ (c_main c = M_ready → ak_thread_pool_wait (c_pool c) = true → ∃ c', worker_step c c')
  ∧ (W_waiting ∈ c_workers c → zlen (queue (c_pool c)) <= total top (c_workers c))
  ∧ (C_waiting ∈ c_waiters c → ak_thread_pool_wait (c_pool c) = true)
  ∧ (stopping (c_main c) = true → W_waiting ∉ c_workers c)
  ∧ (ak_thread_pool_wait (c_pool c) = false →
       started c = enqueued c ∧ Forall (λ w, active w = 0) (c_workers c))
  ∧ (c_main c = M_gone → started c = enqueued c ∧ Forall (.= W_exited) (c_workers c)
       ∧ others (c_lambdas c) (c_mem c) = others st s).
Proof.
  intros Hr. destruct (reached_ok _ _ _ _ Hr) as (K & T & O).
  assert (queue (c_pool c) = [] → started c = enqueued c) as Hall.
  { intros Hq. by rewrite (k_fifo _ K), Hq, app_nil_r. }
  split_and!; [apply K|apply K|apply K|apply K| | | | |apply O| |apply O| |].
  - intros i t. by apply held_begin with (b := others st s).
  - intros i t. by apply held_complete with (b := others st s).
  - intros i t. by apply held_free with (b := others st s).
  - by apply (work_goes_on (others st s)); [split_and!|..].
  - intros Hw. unfold ak_thread_pool_wait. rewrite (k_queue _ K), (k_active _ K). destruct (o_wait _ O Hw) as [Hq|Ha].
    + destruct (queue (c_pool c)) as [|x q]; [done|]. rewrite zlen_cons. pose proof (zlen_nonneg q). by rewrite (proj2 (Z.ltb_lt _ _)) by lia.
    + rewrite (proj2 (Z.ltb_lt 0 (total active _)) Ha). apply orb_true_r.
  - unfold ak_thread_pool_wait. rewrite (k_queue _ K), (k_active _ K).
    intros [Hq Ha]%orb_false_iff. apply Z.ltb_ge in Hq, Ha. split.
    + apply Hall. destruct (queue (c_pool c)); [done|]. rewrite zlen_cons in Hq.
      pose proof (zlen_nonneg l). lia.
    + apply Forall_lookup. intros i w Hi.
      pose proof (total_ge active _ i w (λ w, proj1 (active_range w)) Hi). pose proof (active_range w). lia.
  - intros Hm. destruct (o_gone _ O Hm) as [Hq Hx]. split_and!; [by apply Hall|done|].
    rewrite (t_mem _ _ T), Hm, (exited_hold_nothing _ _ Hx Hq), Hq. change (zlen []) with 0. simpl.
    change (zlen []) with 0. lia.
Qed.

Lemma wake_all_steps_left ws : W_waiting ∉ ws → total steps_left (wake_worker <$> ws) = total steps_left ws.
Proof.
  induction ws as [|w ws IH]; [done|]. rewrite not_elem_of_cons. intros [Hw Hws].
  rewrite fmap_cons. simpl. rewrite IH by done. by destruct w.
Qed.

(** Every step of a worker counts down once the pool is being freed. *)
Lemma worker_counts_down b c c' :
  conf_ok b c → stopping (c_main c) = true → worker_step c c' →
  stop_measure c' < stop_measure c ∧ c_main c' = c_main c ∧ enqueued c' = enqueued c.
Proof.
  intros (K & T & O) Hm Hstep. unfold stop_measure. pose proof (k_queue _ K) as K1.
  destruct (o_stop _ O Hm) as [Hsl Hw]. pose proof (t_held _ _ T) as Hheld.
  destruct Hstep as [p ws m cs st s en sd i v p' s' Hi Hu Hs|p ws m cs st s en sd i Hi
    |p ws m cs st s en sd i t go st' t' Hi Hs|p ws m cs st s en sd i t st' t' Hi Hs
    |p ws m cs st s en sd i t st' s' Hi Hs|p ws m cs st s en sd i wake p' Hi Hu Hs]; simpl in *;
    pose proof (Forall_lookup_1 _ _ _ _ Hheld Hi) as Ht;
    (split; [|done]); rewrite (total_insert _ _ _ _ _ Hi); simpl.
  - destruct (worker_section_cases _ _ _ _ _ K1 Hs) as [(Hq & -> & -> & ->)|(t & q & Hq & -> & _ & ->)].
    + destruct (decide _); simpl; lia.
    + rewrite Hq, zlen_cons. simpl. lia.
  - by eapply list_elem_of_lookup_2 in Hi.
  - destruct (task_begin_inv _ _ _ _ _ Ht Hs) as (-> & _). simpl. lia.
  - lia.
  - lia.
  - injection Hs as _ <-. simpl. lia.
Qed.

(** While it is being freed, the pool waits for nothing but its workers. *)
Lemma stop_progress b c :
  conf_ok b c → c_main c = M_stop_join →
  (∃ c', worker_step c c') ∨ ∃ c', main_step c c' ∧ c_main c' = M_gone ∧ enqueued c' = enqueued c.
Proof.
  intros Hok Hm. pose proof Hok as (K & T & O).
  destruct (decide (Forall (.= W_exited) (c_workers c))) as [Hx|Hx].
  - right. pose proof (joined_empty c K O Hm Hx) as Hq. destruct c as [p ws m cs st s en sd].
    simpl in *. subst m. eexists. split; [apply ms_stop_joined; [done|]|done].
    unfold pool_destroy. simpl. by rewrite Hq.
  - left. apply not_Forall_Exists in Hx; [|solve_decision].
    apply Exists_exists in Hx as (w & Hin & Hw).
    apply list_elem_of_In, list_elem_of_lookup_1 in Hin as [i Hi].
    apply (worker_goes_on b c i w Hok Hi); [|done]. intros ->.
    destruct (o_stop _ O) as [_ Hn]; [by rewrite Hm|]. apply Hn. by eapply list_elem_of_lookup_2.
Qed.

Lemma stop_runs b c :
  conf_ok b c → zlen (enqueued c) < 2 ^ 62 → c_main c = M_stop_join →
  ∃ c', rtc pool_step c c' ∧ c_main c' = M_gone ∧ enqueued c' = enqueued c.
Proof.
  remember (Z.to_nat (stop_measure c)) as n eqn:En. revert c En.
  induction n as [n IH] using (well_founded_induction lt_wf). intros c En Hok Hlen Hm.
  destruct (stop_progress b c Hok Hm) as [[c1 Hs]|(c' & Hs & Hg & He)].
  2:{ exists c'. split; [|done]. by apply rtc_once, ps_main. }
  destruct (worker_counts_down b c c1 Hok) as (Hlt & Hm1 & He1); [by rewrite Hm|done|].
  assert (0 <= stop_measure c1).
  { unfold stop_measure. pose proof (zlen_nonneg (queue (c_pool c1))).
    pose proof (steps_left_nonneg (c_workers c1)). lia. }
  destruct (IH (Z.to_nat (stop_measure c1)) ltac:(lia) c1 eq_refl) as (c' & Hrun & Hg & He).
  - apply (pool_ok_step b c); [by rewrite He1|done|by apply ps_worker].
  - by rewrite He1.
  - congruence.
  - exists c'. split; [|by rewrite He, He1]. by eapply rtc_l; [apply ps_worker|].
Qed.

(** Clients cannot delay the end: what they offer is refused. *)
Lemma client_stop_measure b c c' :
  conf_ok b c → c_main c = M_stop_join → client_step c c' →
  c_main c' = M_stop_join ∧ stop_measure c' <= stop_measure c.
Proof.
  intros (K & T & O) Hm Hs. pose proof (o_state _ O) as O1.
  destruct Hs as [p ws ws' m cs st s en sd ok l cb rc st' p' s' _ _ _ _ Hs Hsig|?|?|?|?];
    simpl in *; subst; unfold stop_measure; simpl; try (split; [done|lia]).
  destruct (enqueue_cases _ _ _ _ _ _ _ _ _ _ Hs) as [(-> & -> & -> & Hst & _)|(-> & -> & _)].
  - rewrite O1 in Hst; done.
  - simpl in Hsig. subst. split; [done|lia].
Qed.

(** C7: shutting down ends.  Once [ak_thread_pool_free] waits for the workers,
    no step delays them, each step of a worker counts down, and there is one until
    all have left: so all accepted tasks run, and the pool is freed. *)
Theorem ak_thread_pool_free_terminates config st s c :
  reached config st s c → c_main c = M_stop_join →
  (∃ c', rtc pool_step c c' ∧ c_main c' = M_gone ∧ started c' = enqueued c)
  ∧ ((∃ c', worker_step c c') ∨ ∃ c', main_step c c' ∧ c_main c' = M_gone)
  ∧ (∀ c', worker_step c c' → 0 <= stop_measure c' < stop_measure c)
  ∧ (∀ c', pool_step c c' →
       c_main c' = M_gone ∨ (c_main c' = M_stop_join ∧ stop_measure c' <= stop_measure c)).
Proof.
  intros Hr Hm. pose proof (reached_ok _ _ _ _ Hr) as Hok. pose proof Hok as (K & T & O).
  assert (∀ c', 0 <= stop_measure c') as Hpos.
  { intros c'. unfold stop_measure. pose proof (zlen_nonneg (queue (c_pool c'))).
    pose proof (steps_left_nonneg (c_workers c')). lia. }
  split_and!.
  - destruct (stop_runs _ c Hok (r_bound _ _ _ _ Hr) Hm) as (c' & Hrun & Hgone & He). exists c'. split_and!; [done..|].
    rewrite <- He. assert (conf_ok (others st s) c') as (K' & _ & O').
    { eapply pool_ok_run; [|done..]. rewrite He. apply Hr. }
    destruct (o_gone _ O' Hgone) as [Hq _]. by rewrite (k_fifo _ K'), Hq, app_nil_r.
  - destruct (stop_progress _ c Hok Hm) as [Hw|(c' & Hs & Hg & _)]; [by left|right; by exists c'].
  - intros c' Hs. split; [done|]. apply (worker_counts_down _ c c' Hok); [by rewrite Hm|done].
  - intros c' Hstep. destruct Hstep as [c1 c2 Hs|c1 c2 Hs|c1 c2 Hs|c1 c2 Hs].
    + right. destruct (worker_counts_down _ c1 c2 Hok) as (Hlt & Hm' & _); [by rewrite Hm|done|].
      split; [congruence|lia].
    + left. by destruct Hs.
    + right. by apply (client_stop_measure (others st s)).
    + right. destruct Hs; simpl in *; [|done]. destruct (o_stop _ O) as [_ Hw]; [by rewrite Hm|].
      exfalso. apply Hw. by eapply list_elem_of_lookup_2.
Qed.

(** A step that is not a spurious wake-up. *)
Definition caused_step (c c' : conf) : Prop := worker_step c c' ∨ main_step c c' ∨ client_step c c'.

(** The creator waits for a worker that sleeps. *)
Definition stuck (c : conf) : Prop := c_main c = M_fail_join ∧ c_workers c = [W_waiting].

Lemma stuck_step c c' : stuck c → caused_step c c' → stuck c'.
Proof.
  intros [Hm Hw] Hstep. unfold stuck.
  assert (∀ i w, c_workers c !! i = Some w → w = W_waiting) as Hall.
  { intros i w. rewrite Hw. by destruct i as [|i]; [intros [= <-]|]. }
  destruct Hstep as [Hs|[Hs|Hs]]; destruct Hs; simpl in *; simplify_eq;
    try (match goal with Hi : _ !! _ = Some _ |- _ => by apply Hall in Hi end); try done.
  - match goal with Hx : Forall _ _ |- _ => by apply Forall_cons_1 in Hx as [? _] end.
  - match goal with Hx : _ ∨ _ |- _ => by destruct Hx end.
Qed.

Lemma stuck_run c c' : rtc caused_step c c' → stuck c → stuck c'.
Proof. induction 1 as [|c c1 c2 Hs _ IH]; [done|]. intros Hc. by apply IH, (stuck_step c). Qed.

(** A thread that does not start can hang [ak_thread_pool_new].  The first
    worker finds nothing to do; before it waits, the creator sets the state and
    broadcasts, without the mutex; the worker then waits, the creator joins it,
    and nothing but a spurious wake-up ever moves them. *)
Theorem ak_thread_pool_new_lost_wakeup config sys st s p s0 :
  pool_init config sys s = Ret (Some p, s0) →
  2 <= cfg_max_workers (default ak_thread_pool_config_default config) →
  ∃ c, rtc caused_step (start p st s0) c ∧ c_main c = M_fail_join
    ∧ ∀ c', rtc caused_step c c' → c_main c' = M_fail_join ∧ c_workers c' = [W_waiting].
Proof.
  intros Hi Hw. destruct (pool_init_inv _ _ _ _ _ Hi) as (Hp & _ & _).
  assert (worker_section p s0 = Ret ((Sleep, p), s0)) as Hsec.
  { by rewrite Hp. }
  set (p' := with_state p AK24_POOL_STATE_SHUTTING_DOWN).
  exists (mk_conf p' [W_waiting] M_fail_join [] st s0 [] []). split; [|split; [done|]].
  - eapply rtc_l; [right; left; apply ms_start; rewrite Hp; simpl; lia|].
    eapply rtc_l; [left; apply (ws_section _ _ _ _ _ _ _ _ 0); [done| |done]|].
    { intros ?%list_elem_of_singleton. done. }
    eapply rtc_l; [right; left; apply ms_start_fails; rewrite Hp; simpl; lia|].
    eapply rtc_l; [right; left; apply ms_fail_set|].
    eapply rtc_l; [right; left; apply ms_fail_broadcast|].
    eapply rtc_l; [left; by apply (ws_sleep _ _ _ _ _ _ _ _ 0)|]. apply rtc_refl.
  - intros c' Hrun. apply (stuck_run _ _ Hrun). by split.
Qed.
End theorems.

(** * Witnesses *)

#[local] Existing Instance always_alloc.

Definition w_config : ak_thread_pool_config_t := mk_config 1 4.
Definition w_inits : inits := mk_inits true true true.
Definition w_pool : ak_thread_pool_t := mk_pool 1 4 1 0 [] 0 AK24_POOL_STATE_RUNNING.
Definition w_task : ak_task_t := mk_task 1 None AK24_TASK_STATE_PENDING.

(** One worker, one task accepted, and the worker has taken it. *)
Definition w_running : conf :=
  mk_conf (mk_pool 1 4 1 1 [] 0 AK24_POOL_STATE_RUNNING) [W_run w_task] M_ready [] wstore1
    (Mem 4 3 0) [w_task] [w_task].

Lemma w_running_run : rtc pool_step (start w_pool wstore1 (Mem 2 2 0)) w_running.
Proof.
  eapply rtc_l; [apply ps_main, ms_start; simpl; lia|].
  eapply rtc_l; [apply ps_main, ms_ready; simpl; lia|].
  eapply rtc_l; [apply ps_client; eapply (cs_enqueue w_pool [W_top] [W_top] _ _ _ _ _ _ true 1 None)|].
  - by left.
  - intros ?%list_elem_of_singleton. done.
  - intros x ->%list_elem_of_singleton. split; [by eexists|]. intros Hx. by apply elem_of_nil in Hx.
  - apply NoDup_singleton.
  - reflexivity.
  - simpl. apply signal_none. intros ?%list_elem_of_singleton. done.
  - eapply rtc_l; [apply ps_worker; apply (ws_section _ _ _ _ _ _ _ _ 0); [done| |done]|].
    { intros ?%list_elem_of_singleton. done. }
    apply rtc_refl.
Qed.

Lemma w_reached c : rtc pool_step w_running c → zlen (enqueued c) < 2 ^ 62 →
  reached (Some w_config) wstore1 mem0 c.
Proof.
  intros Hc Hb. split; [| | |done].
  - intros cfg [= <-]. unfold is_size. simpl. lia.
  - intros x l. simpl. intros [<- _]%lookup_singleton_Some. lia.
  - exists w_inits, w_pool, (Mem 2 2 0). split; [done|]. by transitivity w_running; [apply w_running_run|].
Qed.

Lemma ak_thread_pool_runs_spec_witness :
  enqueued w_running = started w_running ++ queue (c_pool w_running)
  ∧ task_begin wstore1 w_task = Ret (true, called wstore1 [Invoked 7 5 0], set_task_state w_task AK24_TASK_STATE_RUNNING).
Proof.
  destruct (ak_thread_pool_runs_spec (Some w_config) wstore1 mem0 w_running
    (w_reached w_running (rtc_refl _ _) ltac:(reflexivity))) as (H1 & _ & _ & _ & H2 & _).
  split; [exact H1|]. exact (H2 0%nat w_task eq_refl).
Defined.

(** The same pool, being freed. *)
Definition w_stopping : conf :=
  mk_conf (mk_pool 1 4 1 1 [] 0 AK24_POOL_STATE_SHUTTING_DOWN) [W_run w_task] M_stop_join [] wstore1
    (Mem 4 3 0) [w_task] [w_task].

Lemma w_stopping_run : rtc pool_step w_running w_stopping.
Proof.
  eapply rtc_l; [apply ps_main, ms_stop|apply rtc_refl]. intros ?%list_elem_of_singleton. done.
Qed.

Lemma ak_thread_pool_free_terminates_witness :
  ∃ c', rtc pool_step w_stopping c' ∧ c_main c' = M_gone ∧ started c' = [w_task].
Proof.
  destruct (ak_thread_pool_free_terminates (Some w_config) wstore1 mem0 w_stopping
    (w_reached w_stopping w_stopping_run ltac:(reflexivity)) eq_refl) as (H1 & _).
  exact H1.
Defined.

Lemma ak_thread_pool_new_lost_wakeup_witness :
  ∃ c, rtc caused_step (start (mk_pool 8 0 8 0 [] 0 AK24_POOL_STATE_RUNNING) wstore0 (Mem 2 2 0)) c
    ∧ c_main c = M_fail_join
    ∧ ∀ c', rtc caused_step c c' → c_main c' = M_fail_join ∧ c_workers c' = [W_waiting].
Proof.
  apply (ak_thread_pool_new_lost_wakeup None w_inits wstore0 mem0); [reflexivity|simpl; lia].
Defined.
