(* ===== verification/Forms.v ===== *)
(** Forms, the types of values: [kernel/forms/src/forms.c].

    A form is a tree: the constructors copy the forms they are given, so a form
    is passed by value here, and a null pointer is [None].  What trees do share
    is the affects: a form has a list of pointers to them, so they live in a
    store, with the lambdas they own ([Lambdas]).  Strings are [cstr]; those that
    a form owns count as a block each.

    The recursive functions have the height of the tree as their fuel.  [tree] is
    a form without capacities and unused slots, and [rep] relates the two. *)

From Stdlib Require String.
From stdpp Require Import gmap.
From S2P Require Import Prelude Lists Maps Lambdas.
Import Stdlib.Strings.String.StringSyntax.
#[local] Delimit Scope string_scope with str.

Definition is_none_str : cstr := mk_cstr (bytes_of "is_none"%str) eq_refl.
Definition is_some_str : cstr := mk_cstr (bytes_of "is_some"%str) eq_refl.
Definition append_str : cstr := mk_cstr (bytes_of "append"%str) eq_refl.
Definition pop_str : cstr := mk_cstr (bytes_of "pop"%str) eq_refl.
Definition push_str : cstr := mk_cstr (bytes_of "push"%str) eq_refl.
Definition rest_str : cstr := mk_cstr (bytes_of "rest"%str) eq_refl.
Definition iterate_str : cstr := mk_cstr (bytes_of "iterate"%str) eq_refl.
Definition index_str : cstr := mk_cstr (bytes_of "index"%str) eq_refl.
Definition length_str : cstr := mk_cstr (bytes_of "length"%str) eq_refl.
Definition get_str : cstr := mk_cstr (bytes_of "get"%str) eq_refl.
Definition set_str : cstr := mk_cstr (bytes_of "set"%str) eq_refl.
Definition has_str : cstr := mk_cstr (bytes_of "has"%str) eq_refl.

Inductive ak_form_primitive_type_e : Type :=
| AK_FORM_PRIMITIVE_BYTE
| AK_FORM_PRIMITIVE_U8
| AK_FORM_PRIMITIVE_U16
| AK_FORM_PRIMITIVE_U32
| AK_FORM_PRIMITIVE_U64
| AK_FORM_PRIMITIVE_I8
| AK_FORM_PRIMITIVE_I16
| AK_FORM_PRIMITIVE_I32
| AK_FORM_PRIMITIVE_I64
| AK_FORM_PRIMITIVE_F32
| AK_FORM_PRIMITIVE_F64
| AK_FORM_PRIMITIVE_CHAR.

#[export] Instance primitive_eq_dec : EqDecision ak_form_primitive_type_e.
Proof. solve_decision. Defined.

Inductive ak_form_kind_e : Type :=
| AK_FORM_PRIMITIVE
| AK_FORM_COMPOUND
| AK_FORM_OPTIONAL
| AK_FORM_REPEATABLE
| AK_FORM_STRUCT
| AK_FORM_LIST
| AK_FORM_MAP
| AK_FORM_NAMED.

#[export] Instance kind_eq_dec : EqDecision ak_form_kind_e.
Proof. solve_decision. Defined.

(** The kind selects the member of the union. *)
Inductive ak_form_t : Type :=
| mk_form (name : option cstr) (data : form_data) (affects : list_base_t positive)
with form_data : Type :=
| D_primitive (type : ak_form_primitive_type_e)
| D_compound (parts : list_base_t (option ak_form_t))
| D_optional (inner : option ak_form_t)
| D_repeatable (inner : option ak_form_t)
| D_struct (pattern : option ak_form_t) (field_names : list_base_t cstr)
| D_list (element_type : option ak_form_t)
| D_map (key_type : ak_form_primitive_type_e) (value_type : option ak_form_t)
| D_named (actual_form : option ak_form_t).

Definition form_name (f : ak_form_t) : option cstr := let 'mk_form n _ _ := f in n.
Definition data (f : ak_form_t) : form_data := let 'mk_form _ d _ := f in d.
Definition affects (f : ak_form_t) : list_base_t positive := let 'mk_form _ _ a := f in a.

Definition kind (f : ak_form_t) : ak_form_kind_e :=
  match data f with
  | D_primitive _ => AK_FORM_PRIMITIVE
  | D_compound _ => AK_FORM_COMPOUND
  | D_optional _ => AK_FORM_OPTIONAL
  | D_repeatable _ => AK_FORM_REPEATABLE
  | D_struct _ _ => AK_FORM_STRUCT
  | D_list _ => AK_FORM_LIST
  | D_map _ _ => AK_FORM_MAP
  | D_named _ => AK_FORM_NAMED
  end.

(** Parameter and return forms are pointers that are never followed. *)
Record ak_affect_t := mk_affect {
  affect_name : option cstr;
  lambda : option positive;
  parameter_forms : list_base_t Z;
  return_form : Z;
  also_includes : list_base_t cstr;
}.

(** The live affects and the lambdas. *)
Record fstore := mk_fstore {
  affect_objs : gmap positive ak_affect_t;
  next_affect : positive;
  lambdas_of : lstore;
}.

Definition sizeof_ak_form_t : Z := 120.
Definition sizeof_ak_affect_t : Z := 112.

Definition deref_affect (st : fstore) (a : positive) : outcome ak_affect_t :=
  match affect_objs st !! a with
  | Some x => Ret x
  | None => Undef
  end.

(** The height of a form, slots of no use included: a bound for the recursion. *)
Fixpoint height (f : ak_form_t) : nat :=
  let child o := match o with Some f => height f | None => 0%nat end in
  match f with
  | mk_form _ d _ =>
      S match d with
        | D_primitive _ => 0
        | D_compound parts =>
            match items parts with
            | Some b => foldr (λ slot acc, match slot with
                                           | Some o => Nat.max (child o) acc
                                           | None => acc
                                           end) 0%nat b
            | None => 0
            end
        | D_optional o | D_repeatable o | D_struct o _ | D_list o | D_map _ o | D_named o => child o
        end
  end.

Definition height_of (form : option ak_form_t) : nat :=
  match form with
  | Some f => height f
  | None => 0
  end.

Section forms.
Context `{Allocator}.

(** [AK24_ALLOC(strlen(s) + 1)], then [strcpy]. *)
Definition copy_string (s : cstr) : M (option cstr) :=
  ok ← alloc_obj (u64 (zlen (chars s) + 1));
  mret (if ok : bool then Some s else None).

(** [list_push] of every item of a list, whatever it answers. *)
Definition push_all {T : Type} (l dst : list_base_t T) : M (list_base_t T) :=
  r ← list_while (R := False) l (λ x acc,
    '(_, acc) ← list_push_ acc x sizeof_pointer; mret (inl acc)) dst;
  mret (match r with inl acc => acc | inr e => False_rect _ e end).

(** Clones of the parts that could be cloned. *)
Definition clone_parts (clone : option ak_form_t → M (option ak_form_t))
    (parts : list_base_t (option ak_form_t)) : M (list_base_t (option ak_form_t)) :=
  r ← list_while (R := False) parts (λ part acc,
    part_clone ← clone part;
    match part_clone with
    | Some _ => '(_, acc) ← list_push_ acc part_clone sizeof_pointer; mret (inl acc)
    | None => mret (inl acc)
    end) (list_init sizeof_pointer);
  mret (match r with inl acc => acc | inr e => False_rect _ e end).

Fixpoint ak_form_clone (fuel : nat) (form : option ak_form_t) : M (option ak_form_t) :=
  match fuel with
  | O => lift Hang
  | S fuel =>
      match form with
      | None => mret None
      | Some (mk_form name data affects) =>
          ok ← alloc_obj sizeof_ak_form_t;
          if negb ok then mret None else
          name ← match name with
                 | None => mret None
                 | Some s => copy_string s
                 end;
          data ← match data with
                 | D_primitive type => mret (D_primitive type)
                 | D_compound parts =>
                     parts ← clone_parts (ak_form_clone fuel) parts; mret (D_compound parts)
                 | D_optional inner => inner ← ak_form_clone fuel inner; mret (D_optional inner)
                 | D_repeatable inner => inner ← ak_form_clone fuel inner; mret (D_repeatable inner)
                 | D_struct pattern field_names =>
                     pattern ← ak_form_clone fuel pattern;
                     field_names ← push_all field_names (list_init sizeof_pointer);
                     mret (D_struct pattern field_names)
                 | D_list element_type =>
                     element_type ← ak_form_clone fuel element_type; mret (D_list element_type)
                 | D_map key_type value_type =>
                     value_type ← ak_form_clone fuel value_type; mret (D_map key_type value_type)
                 | D_named actual_form =>
                     actual_form ← ak_form_clone fuel actual_form; mret (D_named actual_form)
                 end;
          affects ← push_all affects (list_init sizeof_pointer);
          mret (Some (mk_form name data affects))
      end
  end.

Definition clone (form : option ak_form_t) : M (option ak_form_t) :=
  ak_form_clone (S (height_of form)) form.

Definition ak_form_new_primitive (type : ak_form_primitive_type_e) : M (option ak_form_t) :=
  ok ← alloc_obj sizeof_ak_form_t;
  mret (if ok : bool then Some (mk_form None (D_primitive type) (list_init sizeof_pointer)) else None).

(** The height that covers every part. *)
Definition parts_height (parts : list_base_t (option ak_form_t)) : nat :=
  height (mk_form None (D_compound parts) (list_init sizeof_pointer)).

Definition ak_form_new_compound (parts : option (list_base_t (option ak_form_t)))
    : M (option ak_form_t) :=
  match parts with
  | None => mret None
  | Some parts =>
      ok ← alloc_obj sizeof_ak_form_t;
      if negb ok then mret None else
      parts ← clone_parts (ak_form_clone (parts_height parts)) parts;
      mret (Some (mk_form None (D_compound parts) (list_init sizeof_pointer)))
  end.

Definition ak_form_new_optional (inner : option ak_form_t) : M (option ak_form_t) :=
  if inner is None then mret None else
  ok ← alloc_obj sizeof_ak_form_t;
  if negb ok then mret None else
  inner ← clone inner;
  match inner with
  | None => _ ← free_obj; mret None
  | Some _ => mret (Some (mk_form None (D_optional inner) (list_init sizeof_pointer)))
  end.

Definition ak_form_new_repeatable (inner : option ak_form_t) : M (option ak_form_t) :=
  if inner is None then mret None else
  ok ← alloc_obj sizeof_ak_form_t;
  if negb ok then mret None else
  inner ← clone inner;
  match inner with
  | None => _ ← free_obj; mret None
  | Some _ => mret (Some (mk_form None (D_repeatable inner) (list_init sizeof_pointer)))
  end.

Definition ak_form_new_struct (pattern : option ak_form_t) (field_names : option (list_base_t cstr))
    : M (option ak_form_t) :=
  match pattern, field_names with
  | Some _, Some field_names =>
      ok ← alloc_obj sizeof_ak_form_t;
      if negb ok then mret None else
      pattern ← clone pattern;
      match pattern with
      | None => _ ← free_obj; mret None
      | Some _ =>
          field_names ← push_all field_names (list_init sizeof_pointer);
          mret (Some (mk_form None (D_struct pattern field_names) (list_init sizeof_pointer)))
      end
  | _, _ => mret None
  end.

Definition ak_form_new_list (element_type : option ak_form_t) : M (option ak_form_t) :=
  if element_type is None then mret None else
  ok ← alloc_obj sizeof_ak_form_t;
  if negb ok then mret None else
  element_type ← clone element_type;
  match element_type with
  | None => _ ← free_obj; mret None
  | Some _ => mret (Some (mk_form None (D_list element_type) (list_init sizeof_pointer)))
  end.

Definition ak_form_new_map (key_type : ak_form_primitive_type_e) (value_type : option ak_form_t)
    : M (option ak_form_t) :=
  if value_type is None then mret None else
  ok ← alloc_obj sizeof_ak_form_t;
  if negb ok then mret None else
  value_type ← clone value_type;
  match value_type with
  | None => _ ← free_obj; mret None
  | Some _ => mret (Some (mk_form None (D_map key_type value_type) (list_init sizeof_pointer)))
  end.

Definition ak_form_new_named (name : option cstr) (form : option ak_form_t) : M (option ak_form_t) :=
  match name, form with
  | Some name, Some _ =>
      ok ← alloc_obj sizeof_ak_form_t;
      if negb ok then mret None else
      name ← copy_string name;
      match name with
      | None => _ ← free_obj; mret None
      | Some _ =>
          actual_form ← clone form;
          match actual_form with
          | None => _ ← free_obj; _ ← free_obj; mret None
          | Some _ => mret (Some (mk_form name (D_named actual_form) (list_init sizeof_pointer)))
          end
      end
  | _, _ => mret None
  end.

Definition ak_affect_free (st : fstore) (affect : option positive) : M fstore :=
  match affect with
  | None => mret st
  | Some a =>
      x ← lift (deref_affect st a);
      _ ← match affect_name x with
          | Some _ => free_obj
          | None => mret ()
          end;
      lambdas ← ak_lambda_free (lambdas_of st) (lambda x);
      _ ← list_deinit_ (parameter_forms x);
      _ ← list_deinit_ (also_includes x);
      _ ← free_obj;
      mret (mk_fstore (delete a (affect_objs st)) (next_affect st) lambdas)
  end.

(** A call for every item of a list. *)
Definition free_all {T : Type} (f : fstore → T → M fstore) (st : fstore) (l : list_base_t T) : M fstore :=
  r ← list_while (R := False) l (λ x st, st ← f st x; mret (inl st)) st;
  mret (match r with inl st => st | inr e => False_rect _ e end).

Fixpoint ak_form_free (fuel : nat) (st : fstore) (form : option ak_form_t) : M fstore :=
  match fuel with
  | O => lift Hang
  | S fuel =>
      match form with
      | None => mret st
      | Some (mk_form name data affects) =>
          _ ← match name with
              | Some _ => free_obj
              | None => mret ()
              end;
          st ← match data with
               | D_primitive _ => mret st
               | D_compound parts =>
                   st ← free_all (ak_form_free fuel) st parts;
                   _ ← list_deinit_ parts;
                   mret st
               | D_optional inner => ak_form_free fuel st inner
               | D_repeatable inner => ak_form_free fuel st inner
               | D_struct pattern field_names =>
                   st ← ak_form_free fuel st pattern;
                   _ ← list_deinit_ field_names;
                   mret st
               | D_list element_type => ak_form_free fuel st element_type
               | D_map _ value_type => ak_form_free fuel st value_type
               | D_named actual_form => ak_form_free fuel st actual_form
               end;
          st ← free_all (λ st a, ak_affect_free st (Some a)) st affects;
          _ ← list_deinit_ affects;
          _ ← free_obj;
          mret st
      end
  end.

Definition form_free (st : fstore) (form : option ak_form_t) : M fstore :=
  ak_form_free (S (height_of form)) st form.

(** ** Comparing *)

(** [if (form->kind == AK_FORM_NAMED) form = form->data.named.actual_form], and
    the form is read next. *)
Definition current (f : ak_form_t) : outcome ak_form_t :=
  match data f with
  | D_named (Some g) => Ret g
  | D_named None => Undef
  | _ => Ret f
  end.

Definition parts_equal (equal : option ak_form_t → option ak_form_t → outcome Z)
    (parts1 parts2 : list_base_t (option ak_form_t)) : outcome Z :=
  loop (S (Z.to_nat (count parts1))) (λ i,
    if i <? count parts1 then
      part1 ← list_get_ parts1 i;
      part2 ← list_get_ parts2 i;
      match part1, part2 with
      | Some part1, Some part2 =>
          e ← equal part1 part2;
          if e =? 0 then Ret (inr 0) else Ret (inl (u32 (i + 1)))
      | _, _ => Ret (inr 0)
      end
    else Ret (inr 1)) 0.

Fixpoint forms_structurally_equal (fuel : nat) (form1 form2 : option ak_form_t) : outcome Z :=
  match fuel with
  | O => Hang
  | S fuel =>
      match form1, form2 with
      | Some form1, Some form2 =>
          form1 ← current form1;
          form2 ← current form2;
          if negb (bool_decide (kind form1 = kind form2)) then Ret 0 else
          match data form1, data form2 with
          | D_primitive p1, D_primitive p2 => Ret (if bool_decide (p1 = p2) then 1 else 0)
          | D_compound parts1, D_compound parts2 =>
              if negb (count parts1 =? count parts2) then Ret 0 else
              parts_equal (forms_structurally_equal fuel) parts1 parts2
          | D_optional inner1, D_optional inner2 => forms_structurally_equal fuel inner1 inner2
          | D_repeatable inner1, D_repeatable inner2 => forms_structurally_equal fuel inner1 inner2
          | D_struct pattern1 names1, D_struct pattern2 names2 =>
              if negb (count names1 =? count names2) then Ret 0 else
              forms_structurally_equal fuel pattern1 pattern2
          | D_list type1, D_list type2 => forms_structurally_equal fuel type1 type2
          | D_map key1 value1, D_map key2 value2 =>
              if negb (bool_decide (key1 = key2)) then Ret 0 else
              forms_structurally_equal fuel value1 value2
          | _, _ => Ret 0
          end
      | _, _ => Ret 0
      end
  end.

Definition ak_form_matches_pattern (form pattern : option ak_form_t) : outcome Z :=
  match form, pattern with
  | Some _, Some _ => forms_structurally_equal (S (height_of form)) form pattern
  | _, _ => Ret 0
  end.

Definition ak_form_is_compatible (form1 form2 : option ak_form_t) : outcome Z :=
  match form1, form2 with
  | Some _, Some _ => forms_structurally_equal (S (height_of form1)) form1 form2
  | _, _ => Ret 0
  end.

(** ** Affects *)

Definition ak_affect_new (st : fstore) (name : option cstr) (lambda : option positive)
    (params : option (list_base_t Z)) (return_type : Z) : M (option positive * fstore) :=
  match name with
  | None => mret (None, st)
  | Some name =>
      ok ← alloc_obj sizeof_ak_affect_t;
      if negb ok then mret (None, st) else
      name ← copy_string name;
      match name with
      | None => _ ← free_obj; mret (None, st)
      | Some _ =>
          parameter_forms ← match params with
                            | None => mret (list_init sizeof_pointer)
                            | Some params => push_all params (list_init sizeof_pointer)
                            end;
          let a := next_affect st in
          mret (Some a, mk_fstore
            (<[a := mk_affect name lambda parameter_forms return_type (list_init sizeof_pointer)]>
               (affect_objs st)) (Pos.succ a) (lambdas_of st))
      end
  end.

Definition ak_form_add_affect (form : option ak_form_t) (affect : option positive)
    : M (Z * option ak_form_t) :=
  match form, affect with
  | Some (mk_form name data affects), Some a =>
      '(rc, affects) ← list_push_ affects a sizeof_pointer;
      mret (rc, Some (mk_form name data affects))
  | _, _ => mret (-1, form)
  end.

(** [strcmp(affect->name, name) == 0] *)
Definition affect_named (st : fstore) (a : positive) (name : cstr) : outcome bool :=
  x ← deref_affect st a;
  match affect_name x with
  | Some n => Ret (strcmp (chars n) (chars name) =? 0)
  | None => Undef
  end.

Definition ak_form_get_affect (st : fstore) (form : option ak_form_t) (name : option cstr)
    : M (option positive) :=
  match form, name with
  | Some form, Some name =>
      current ← lift (current form);
      r ← list_while (affects current) (λ a acc,
        found ← lift (affect_named st a name);
        mret (if found : bool then inr a else inl acc)) ();
      mret (match r with inl _ => None | inr a => Some a end)
  | _, _ => mret None
  end.

Definition ak_form_has_affect (st : fstore) (form : option ak_form_t) (name : option cstr) : M Z :=
  r ← ak_form_get_affect st form name;
  mret (match r with Some _ => 1 | None => 0 end).

Definition ak_affect_add_also (st : fstore) (affect : option positive) (other_name : option cstr)
    : M (Z * fstore) :=
  match affect, other_name with
  | Some a, Some other_name =>
      name_copy ← copy_string other_name;
      match name_copy with
      | None => mret (-1, st)
      | Some name_copy =>
          x ← lift (deref_affect st a);
          '(rc, l) ← list_push_ (also_includes x) name_copy sizeof_pointer;
          mret (rc, mk_fstore
            (<[a := mk_affect (affect_name x) (lambda x) (parameter_forms x) (return_form x) l]>
               (affect_objs st)) (next_affect st) (lambdas_of st))
      end
  | _, _ => mret (-1, st)
  end.

(** ** Affordances *)

Definition optional_names : list cstr := [is_none_str; is_some_str].
Definition repeatable_names : list cstr := [append_str; pop_str; push_str; rest_str; iterate_str].
Definition list_names : list cstr := [index_str; iterate_str; length_str].
Definition map_names : list cstr := [get_str; set_str; has_str; iterate_str].

Definition is_one_of (name : cstr) (names : list cstr) : bool :=
  existsb (λ s, strcmp (chars name) (chars s) =? 0) names.

Definition form_has_structural_affordance (form : option ak_form_t) (affordance_name : option cstr)
    : M Z :=
  match form, affordance_name with
  | Some form, Some name =>
      current ← lift (current form);
      match data current with
      | D_optional _ => mret (if is_one_of name optional_names then 1 else 0)
      | D_repeatable _ => mret (if is_one_of name repeatable_names then 1 else 0)
      | D_list _ => mret (if is_one_of name list_names then 1 else 0)
      | D_map _ _ => mret (if is_one_of name map_names then 1 else 0)
      | D_struct _ field_names =>
          r ← list_while field_names (λ field acc,
            mret (if strcmp (chars name) (chars field) =? 0 then inr 1 else inl acc)) ();
          mret (match r with inl _ => 0 | inr v => v end)
      | _ => mret 0
      end
  | _, _ => mret 0
  end.

Definition ak_form_has_affordance (st : fstore) (form : option ak_form_t)
    (affordance_name : option cstr) : M Z :=
  match form, affordance_name with
  | Some _, Some _ =>
      h ← ak_form_has_affect st form affordance_name;
      if negb (h =? 0) then mret 1 else form_has_structural_affordance form affordance_name
  | _, _ => mret 0
  end.

(** A copy of a name at the end of the list, if there is memory for it. *)
Definition push_copy (s : cstr) (acc : list_base_t cstr) : M (list_base_t cstr) :=
  name ← copy_string s;
  match name with
  | Some name => '(_, acc) ← list_push_ acc name sizeof_pointer; mret acc
  | None => mret acc
  end.

Fixpoint push_copies (names : list cstr) (acc : list_base_t cstr) : M (list_base_t cstr) :=
  match names with
  | [] => mret acc
  | s :: names => acc ← push_copy s acc; push_copies names acc
  end.

Definition ak_form_get_affordances (st : fstore) (form : option ak_form_t) : M (list_base_t cstr) :=
  let affordances := list_init sizeof_pointer in
  match form with
  | None => mret affordances
  | Some form =>
      current ← lift (current form);
      r ← list_while (R := False) (affects current) (λ a acc,
        x ← lift (deref_affect st a);
        match affect_name x with
        | Some n => acc ← push_copy n acc; mret (inl acc)
        | None => lift Undef
        end) affordances;
      let affordances := match r with inl acc => acc | inr e => False_rect _ e end in
      match data current with
      | D_optional _ =>
          is_none ← copy_string is_none_str;
          is_some ← copy_string is_some_str;
          match is_none, is_some with
          | Some is_none, Some is_some =>
              '(_, affordances) ← list_push_ affordances is_none sizeof_pointer;
              '(_, affordances) ← list_push_ affordances is_some sizeof_pointer;
              mret affordances
          | _, _ => mret affordances
          end
      | D_repeatable _ => push_copies repeatable_names affordances
      | D_list _ => push_copies list_names affordances
      | D_map _ _ => push_copies map_names affordances
      | D_struct _ field_names =>
          r ← list_while (R := False) field_names (λ field acc,
            acc ← push_copy field acc; mret (inl acc)) affordances;
          mret (match r with inl acc => acc | inr e => False_rect _ e end)
      | _ => mret affordances
      end
  end.
End forms.


(** * Trees *)

(** A form that has one form inside. *)
Inductive one : Type :=
| O_optional
| O_repeatable
| O_struct (field_names : list cstr)
| O_list
| O_map (key : ak_form_primitive_type_e)
| O_named.

Inductive tree : Type :=
| mk_tree (name : option cstr) (affects : list positive) (n : node)
with node : Type :=
| N_primitive (p : ak_form_primitive_type_e)
| N_compound (ts : list tree)
| N_one (o : one) (inner : option tree).

Definition node_of (t : tree) : node := let 'mk_tree _ _ n := t in n.

Section tree_induction.
Variable P : tree → Prop.
Hypothesis P_primitive : ∀ n a p, P (mk_tree n a (N_primitive p)).
Hypothesis P_compound : ∀ n a ts, Forall P ts → P (mk_tree n a (N_compound ts)).
Hypothesis P_null : ∀ n a o, P (mk_tree n a (N_one o None)).
Hypothesis P_one : ∀ n a o t, P t → P (mk_tree n a (N_one o (Some t))).

Fixpoint tree_induction (t : tree) : P t :=
  match t with
  | mk_tree n a nd =>
      match nd with
      | N_primitive p => P_primitive n a p
      | N_compound ts => P_compound n a ts
          ((fix go ts : Forall P ts :=
              match ts with
              | [] => List.Forall_nil _
              | t :: ts => List.Forall_cons _ _ _ (tree_induction t) (go ts)
              end) ts)
      | N_one o None => P_null n a o
      | N_one o (Some t) => P_one n a o t (tree_induction t)
      end
  end.
End tree_induction.

(** [d] is of the sort [o] with [c] inside, and owns [b] blocks of its own. *)
Definition holds (o : one) (d : form_data) (c : option ak_form_t) (b : Z) : Prop :=
  match o with
  | O_optional => d = D_optional c ∧ b = 0
  | O_repeatable => d = D_repeatable c ∧ b = 0
  | O_struct xs => ∃ l, d = D_struct c l ∧ list_wf l xs ∧ b = Lists.owned l
  | O_list => d = D_list c ∧ b = 0
  | O_map k => d = D_map k c ∧ b = 0
  | O_named => d = D_named c ∧ b = 0
  end.

Definition name_blocks (name : option cstr) : Z :=
  match name with
  | Some _ => 1
  | None => 0
  end.

Definition sum (bs : list Z) : Z := foldr Z.add 0 bs.

(** [f] stands for the tree [t] and owns [b] blocks, affects apart. *)
Inductive rep : tree → ak_form_t → Z → Prop :=
| rep_form name affs n d al b :
    list_wf al affs → rep_node n d b →
    rep (mk_tree name affs n) (mk_form name d al) (1 + name_blocks name + Lists.owned al + b)
with rep_node : node → form_data → Z → Prop :=
| rep_primitive p : rep_node (N_primitive p) (D_primitive p) 0
| rep_compound ts (fbs : list (ak_form_t * Z)) parts :
    list_wf parts ((λ fb, Some fb.1) <$> fbs) → Forall2 (λ t fb, rep t fb.1 fb.2) ts fbs →
    rep_node (N_compound ts) (D_compound parts) (Lists.owned parts + sum (fbs.*2))
| rep_null o d b : holds o d None b → rep_node (N_one o None) d b
| rep_some o d t f b b' : holds o d (Some f) b → rep t f b' → rep_node (N_one o (Some t)) d (b + b').

(** The same of a pointer. *)
Inductive rep_opt : option tree → option ak_form_t → Z → Prop :=
| rep_opt_none : rep_opt None None 0
| rep_opt_some t f b : rep t f b → rep_opt (Some t) (Some f) b.

Lemma rep_one_inv o c d b :
  rep_node (N_one o c) d b → ∃ fc b1 b2, holds o d fc b1 ∧ rep_opt c fc b2 ∧ b = b1 + b2.
Proof.
  intros Hn. inversion Hn as [| |o' d' b1 Hh|o' d' t' f' b1 b2 Hh Hr]; subst.
  - exists None, b, 0. split_and!; [done|constructor|lia].
  - exists (Some f'), b1, b2. split_and!; [done|by constructor|done].
Qed.

Lemma rep_one_intro o c d fc b1 b2 :
  holds o d fc b1 → rep_opt c fc b2 → rep_node (N_one o c) d (b1 + b2).
Proof.
  intros Hh Hr. destruct Hr; [|by eapply rep_some]. rewrite Z.add_0_r. by apply rep_null.
Qed.

(** Heights go down. *)
Lemma height_child o d f b name al :
  holds o d (Some f) b → (height f < height (mk_form name d al))%nat.
Proof. destruct o; simpl; try (intros [-> _]; simpl; lia). intros (l & -> & _). simpl. lia. Qed.

Lemma height_part (fs : list ak_form_t) parts f name al :
  list_wf parts (Some <$> fs) → f ∈ fs → (height f < height (mk_form name (D_compound parts) al))%nat.
Proof.
  intros Hwf [i Hi]%list_elem_of_lookup_1. pose proof (slots_used _ _ i Hwf) as Hs.
  rewrite length_fmap, list_lookup_fmap, Hi in Hs. specialize (Hs (lookup_lt_Some _ _ _ Hi)).
  unfold slots in Hs. simpl in *. destruct (items parts) as [b|]; [|done]. simpl in Hs. clear -Hs.
  revert i Hs. induction b as [|[x|] b IH]; intros [|i] Hs; simplify_eq/=.
  - lia.
  - specialize (IH i Hs). lia.
  - specialize (IH i Hs). lia.
Qed.

(** * Comparing *)

#[warnings="-register-all"]
Inductive shape : Type :=
| S_primitive (p : ak_form_primitive_type_e)
| S_compound (ss : list shape)
| S_optional (s : shape)
| S_repeatable (s : shape)
| S_struct (fields : nat) (s : shape)
| S_list (s : shape)
| S_map (key : ak_form_primitive_type_e) (s : shape).

Definition is_named (t : tree) : bool :=
  match node_of t with
  | N_one O_named _ => true
  | _ => false
  end.

(** What comparison sees of a form: no names, no affects, of the fields only how
    many; none when a form is missing or a named form names a named form. *)
Fixpoint shape_of (t : tree) : option shape :=
  match t with
  | mk_tree _ _ n =>
      match n with
      | N_primitive p => Some (S_primitive p)
      | N_compound ts => S_compound <$>
          ((fix go ts := match ts with
                         | [] => Some []
                         | t :: ts => s ← shape_of t; ss ← go ts; Some (s :: ss)
                         end) ts)
      | N_one o None => None
      | N_one o (Some t) =>
          match o with
          | O_optional => S_optional <$> shape_of t
          | O_repeatable => S_repeatable <$> shape_of t
          | O_struct xs => S_struct (length xs) <$> shape_of t
          | O_list => S_list <$> shape_of t
          | O_map k => S_map k <$> shape_of t
          | O_named => if is_named t then None else shape_of t
          end
      end
  end.

(** No named form names a null pointer. *)
Fixpoint sane (t : tree) : Prop :=
  match t with
  | mk_tree _ _ n =>
      match n with
      | N_primitive _ => True
      | N_compound ts => (fix go ts := match ts with
                                       | [] => True
                                       | t :: ts => sane t ∧ go ts
                                       end) ts
      | N_one o None => o ≠ O_named
      | N_one o (Some t) => sane t
      end
  end.

Definition same_shape (t1 t2 : tree) : Prop :=
  ∃ s, shape_of t1 = Some s ∧ shape_of t2 = Some s.

Fixpoint shapes_of (ts : list tree) : option (list shape) :=
  match ts with
  | [] => Some []
  | t :: ts => s ← shape_of t; ss ← shapes_of ts; Some (s :: ss)
  end.

Lemma shape_of_compound n a ts : shape_of (mk_tree n a (N_compound ts)) = S_compound <$> shapes_of ts.
Proof. done. Qed.

Lemma sane_compound n a ts : sane (mk_tree n a (N_compound ts)) ↔ Forall sane ts.
Proof.
  simpl. induction ts as [|t ts IH]; [by split|]. by rewrite list.Forall_cons, IH.
Qed.

Lemma shapes_of_same ts1 ts2 :
  Forall2 same_shape ts1 ts2 ↔ ∃ ss, shapes_of ts1 = Some ss ∧ shapes_of ts2 = Some ss.
Proof.
  split.
  - induction 1 as [|t1 t2 ts1 ts2 (s & E1 & E2) _ (ss & F1 & F2)]; [by exists []|].
    exists (s :: ss). simpl. by rewrite E1, E2, F1, F2.
  - revert ts2. induction ts1 as [|t1 ts1 IH]; intros [|t2 ts2] (ss & E1 & E2); simpl in *; simplify_eq.
    + constructor.
    + by destruct (shape_of t2), (shapes_of ts2).
    + by destruct (shape_of t1), (shapes_of ts1).
    + destruct (shape_of t1) as [s1|] eqn:F1, (shapes_of ts1) as [ss1|] eqn:G1; simplify_eq/=.
      destruct (shape_of t2) as [s2|] eqn:F2, (shapes_of ts2) as [ss2|] eqn:G2; simplify_eq/=.
      constructor; [by exists s1|]. apply IH. by exists ss1.
Qed.

(** The answer [e] says whether [P]. *)
Definition says (e : Z) (P : Prop) : Prop := (e = 1 ∧ P) ∨ (e = 0 ∧ ¬ P).

Lemma says_iff e P Q : says e P → (P ↔ Q) → says e Q.
Proof. unfold says. tauto. Qed.

Definition wrap (o : one) (s : shape) : option shape :=
  match o with
  | O_optional => Some (S_optional s)
  | O_repeatable => Some (S_repeatable s)
  | O_struct xs => Some (S_struct (length xs) s)
  | O_list => Some (S_list s)
  | O_map k => Some (S_map k s)
  | O_named => None
  end.

Lemma shape_of_one n a o c :
  o ≠ O_named → shape_of (mk_tree n a (N_one o c)) = ((c ≫= shape_of) ≫= wrap o).
Proof. intros Ho. destruct c as [t|]; [|done]. simpl. by destruct o, (shape_of t). Qed.

Definition tree_kind (t : tree) : ak_form_kind_e :=
  match node_of t with
  | N_primitive _ => AK_FORM_PRIMITIVE
  | N_compound _ => AK_FORM_COMPOUND
  | N_one O_optional _ => AK_FORM_OPTIONAL
  | N_one O_repeatable _ => AK_FORM_REPEATABLE
  | N_one (O_struct _) _ => AK_FORM_STRUCT
  | N_one O_list _ => AK_FORM_LIST
  | N_one (O_map _) _ => AK_FORM_MAP
  | N_one O_named _ => AK_FORM_NAMED
  end.

Definition shape_kind (s : shape) : ak_form_kind_e :=
  match s with
  | S_primitive _ => AK_FORM_PRIMITIVE
  | S_compound _ => AK_FORM_COMPOUND
  | S_optional _ => AK_FORM_OPTIONAL
  | S_repeatable _ => AK_FORM_REPEATABLE
  | S_struct _ _ => AK_FORM_STRUCT
  | S_list _ => AK_FORM_LIST
  | S_map _ _ => AK_FORM_MAP
  end.

Lemma holds_kind o d c b name al n a t :
  holds o d c b → kind (mk_form name d al) = tree_kind (mk_tree n a (N_one o t)).
Proof. destruct o; simpl; try by intros [-> _]. by intros (l & -> & _). Qed.

Lemma rep_kind t f b : rep t f b → kind f = tree_kind t.
Proof.
  intros [name affs n d al b' _ Hn]. destruct Hn; [done|done|by eapply holds_kind|by eapply holds_kind].
Qed.

Lemma shape_kind_ok t s : is_named t = false → shape_of t = Some s → shape_kind s = tree_kind t.
Proof.
  destruct t as [n a [p|ts|o c]]; intros Hn Hs.
  - by injection Hs as <-.
  - rewrite shape_of_compound in Hs. destruct (shapes_of ts); [by injection Hs as <-|done].
  - assert (o ≠ O_named) as Ho by (by intros ->). rewrite shape_of_one in Hs by done.
    destruct (c ≫= shape_of) as [s'|]; [|done]. destruct o; simpl in *; by simplify_eq/=.
Qed.

(** The form that comparison looks at. *)
Lemma current_ok t f b :
  rep t f b → sane t → ∃ u g b', current f = Ret g ∧ rep u g b' ∧ sane u
    ∧ (height g <= height f)%nat ∧ shape_of t = if is_named u then None else shape_of u.
Proof.
  intros Hr Hs. destruct (is_named t) eqn:En.
  - destruct Hr as [name affs n d al b' Hal Hn]. destruct n as [p|ts|o c]; [done|done|].
    destruct o; try done. inversion Hn as [| |o' d' b1 Hh|o' d' t' f' b1 b2 Hh Hr']; subst; [done|].
    destruct Hh as [-> ->].
    exists t', f', b2. split_and!; [done|done|done|simpl; lia|done].
  - exists t, f, b. split_and!; [|done|done|lia|by rewrite En].
    pose proof (rep_kind _ _ _ Hr) as Hk. destruct f as [name d al]. unfold current. simpl.
    destruct d; try done. destruct t as [n a [p|ts|[] c]]; done.
Qed.

Section compare.
Variables (fuel : nat) (equal : option ak_form_t → option ak_form_t → outcome Z).

(** Comparing the parts, when comparing two of them is right. *)
Lemma parts_equal_ok ts1 ts2 fs1 fs2 parts1 parts2 :
  list_wf parts1 (Some <$> fs1) → list_wf parts2 (Some <$> fs2) →
  length ts1 = length fs1 → length ts2 = length fs2 → length fs1 = length fs2 →
  (∀ i t1 t2 f1 f2, ts1 !! i = Some t1 → ts2 !! i = Some t2 → fs1 !! i = Some f1 → fs2 !! i = Some f2 →
     wpo (equal (Some f1) (Some f2)) (λ e, says e (same_shape t1 t2))) →
  wpo (parts_equal equal parts1 parts2) (λ e, says e (Forall2 same_shape ts1 ts2)).
Proof.
  intros Hw1 Hw2 L1 L2 L Heq. unfold parts_equal.
  pose proof (lw_count _ _ Hw1) as C1. pose proof (list_wf_count _ _ Hw1) as Hc.
  pose proof (cap_ok_range _ (lw_cap _ _ Hw1)) as Hr. unfold zlen in C1. rewrite length_fmap in C1.
  apply (loop_wpo (λ i, 0 <= i <= count parts1
      ∧ Forall2 same_shape (take (Z.to_nat i) ts1) (take (Z.to_nat i) ts2))
    (λ i, Z.to_nat (count parts1 - i))); [split; [lia|constructor]|lia|].
  intros i [Hi Hall]. destruct (Z.ltb_spec i (count parts1)) as [Hlt|Hge].
  - rewrite (list_get_ok parts1 _ i Hw1), (list_get_ok parts2 _ i Hw2) by lia.
    rewrite !list_lookup_fmap.
    destruct (lookup_lt_is_Some_2 fs1 (Z.to_nat i)) as [f1 E1]; [lia|].
    destruct (lookup_lt_is_Some_2 fs2 (Z.to_nat i)) as [f2 E2]; [lia|].
    destruct (lookup_lt_is_Some_2 ts1 (Z.to_nat i)) as [t1 T1]; [lia|].
    destruct (lookup_lt_is_Some_2 ts2 (Z.to_nat i)) as [t2 T2]; [lia|].
    rewrite E1, E2. simpl. apply wpo_bind. eapply wpo_mono; [by eapply Heq|].
    intros e [[-> Hs]|[-> Hs]]; simpl.
    + rewrite u32_small by lia. split; [|lia]. split; [lia|].
      replace (Z.to_nat (i + 1)) with (S (Z.to_nat i)) by lia.
      rewrite (take_S_r _ _ t1), (take_S_r _ _ t2) by done. by apply Forall2_app; [|constructor].
    + right. split; [done|]. intros HF. by apply Hs, (Forall2_lookup_lr _ _ _ _ _ _ HF T1 T2).
  - simpl. left. split; [done|]. by rewrite !take_ge in Hall by lia.
Qed.
End compare.

(** The shapes of what is inside. *)
Definition same_inner (c1 c2 : option tree) : Prop :=
  ∃ s, c1 ≫= shape_of = Some s ∧ c2 ≫= shape_of = Some s.

Lemma not_same_kind u1 u2 :
  is_named u1 = false → is_named u2 = false → tree_kind u1 ≠ tree_kind u2 → ¬ same_shape u1 u2.
Proof.
  intros N1 N2 Hk (s & E1 & E2). apply Hk.
  by rewrite <- (shape_kind_ok _ _ N1 E1), <- (shape_kind_ok _ _ N2 E2).
Qed.

Lemma same_compound n1 a1 ts1 n2 a2 ts2 :
  same_shape (mk_tree n1 a1 (N_compound ts1)) (mk_tree n2 a2 (N_compound ts2))
  ↔ Forall2 same_shape ts1 ts2.
Proof.
  rewrite shapes_of_same. unfold same_shape. rewrite !shape_of_compound. split.
  - intros (s & E1 & E2). destruct (shapes_of ts1) as [ss1|], (shapes_of ts2) as [ss2|]; simplify_eq/=.
    by eexists.
  - intros (ss & -> & ->). by exists (S_compound ss).
Qed.

(** Two sorts that say the same, given the same inside. *)
Definition same_one (o1 o2 : one) : Prop :=
  match o1, o2 with
  | O_optional, O_optional | O_repeatable, O_repeatable | O_list, O_list => True
  | O_struct xs, O_struct ys => length xs = length ys
  | O_map k1, O_map k2 => k1 = k2
  | _, _ => False
  end.

Lemma same_one_inner n1 a1 o1 c1 n2 a2 o2 c2 :
  o1 ≠ O_named → o2 ≠ O_named →
  same_shape (mk_tree n1 a1 (N_one o1 c1)) (mk_tree n2 a2 (N_one o2 c2))
  ↔ same_one o1 o2 ∧ same_inner c1 c2.
Proof.
  intros H1 H2. unfold same_shape, same_inner. rewrite !shape_of_one by done. split.
  - intros (s & E1 & E2). destruct (c1 ≫= shape_of) as [s1|]; [|done].
    destruct (c2 ≫= shape_of) as [s2|]; [|done].
    destruct o1, o2; simplify_eq/=; (split; [done|]); by eexists.
  - intros [Ho (s & -> & ->)]. simpl. destruct o1, o2; simpl in *; try done; subst;
      [by eexists..|rewrite Ho; by eexists|by eexists|by eexists].
Qed.

Section equal.
Variable fuel : nat.
Hypothesis IH : ∀ t1 f1 b1 t2 f2 b2, rep t1 f1 b1 → rep t2 f2 b2 → sane t1 → sane t2 →
  (height f1 < fuel)%nat →
  wpo (forms_structurally_equal fuel (Some f1) (Some f2)) (λ e, says e (same_shape t1 t2)).

Definition inner_height (c : option ak_form_t) : nat :=
  match c with
  | Some f => height f
  | None => 0
  end.

Lemma inner_equal c1 c2 f1 f2 k1 k2 :
  rep_opt c1 f1 k1 → rep_opt c2 f2 k2 → (∀ t, c1 = Some t → sane t) → (∀ t, c2 = Some t → sane t) →
  (inner_height f1 < fuel)%nat →
  wpo (forms_structurally_equal fuel f1 f2) (λ e, says e (same_inner c1 c2)).
Proof.
  intros H1 H2 S1 S2 Hf. destruct H1 as [|t1 g1 b1 R1].
  - destruct fuel; [simpl in Hf; lia|]. simpl. right. split; [done|]. by intros (s & E & _).
  - destruct H2 as [|t2 g2 b2 R2].
    + destruct fuel; [simpl in Hf; lia|]. simpl. right. split; [done|]. by intros (s & _ & E).
    + eapply IH; eauto.
Qed.
(** The comparison of two forms that are not wrapped in a name. *)
Definition equal_body (g1 g2 : ak_form_t) : outcome Z :=
  if negb (bool_decide (kind g1 = kind g2)) then Ret 0 else
  match data g1, data g2 with
  | D_primitive p1, D_primitive p2 => Ret (if bool_decide (p1 = p2) then 1 else 0)
  | D_compound parts1, D_compound parts2 =>
      if negb (count parts1 =? count parts2) then Ret 0 else
      parts_equal (forms_structurally_equal fuel) parts1 parts2
  | D_optional inner1, D_optional inner2 => forms_structurally_equal fuel inner1 inner2
  | D_repeatable inner1, D_repeatable inner2 => forms_structurally_equal fuel inner1 inner2
  | D_struct pattern1 names1, D_struct pattern2 names2 =>
      if negb (count names1 =? count names2) then Ret 0 else
      forms_structurally_equal fuel pattern1 pattern2
  | D_list type1, D_list type2 => forms_structurally_equal fuel type1 type2
  | D_map key1 value1, D_map key2 value2 =>
      if negb (bool_decide (key1 = key2)) then Ret 0 else
      forms_structurally_equal fuel value1 value2
  | _, _ => Ret 0
  end.

Lemma compound_equal ts1 fbs1 parts1 ts2 fbs2 parts2 name al :
  list_wf parts1 ((λ fb, Some fb.1) <$> fbs1) → Forall2 (λ t fb, rep t fb.1 fb.2) ts1 fbs1 →
  list_wf parts2 ((λ fb, Some fb.1) <$> fbs2) → Forall2 (λ t fb, rep t fb.1 fb.2) ts2 fbs2 →
  Forall sane ts1 → Forall sane ts2 → (height (mk_form name (D_compound parts1) al) <= fuel)%nat →
  wpo (if negb (count parts1 =? count parts2) then Ret 0 else
       parts_equal (forms_structurally_equal fuel) parts1 parts2)
    (λ e, says e (Forall2 same_shape ts1 ts2)).
Proof.
  intros Hw1 R1 Hw2 R2 S1 S2 Hf.
  assert (∀ fbs : list (ak_form_t * Z), (λ fb, Some fb.1) <$> fbs = Some <$> fbs.*1) as Hmap.
  { intros fbs. by rewrite <- list_fmap_compose. }
  rewrite Hmap in Hw1, Hw2. pose proof (Forall2_length R1) as L1.
  pose proof (Forall2_length R2) as L2.
  pose proof (lw_count _ _ Hw1) as C1. pose proof (lw_count _ _ Hw2) as C2.
  unfold zlen in C1, C2. rewrite !length_fmap in C1, C2.
  destruct (Z.eqb_spec (count parts1) (count parts2)) as [E|E]; simpl.
  - eapply parts_equal_ok; [done|done|rewrite length_fmap; lia..|rewrite !length_fmap; lia|].
    intros i t1 t2 f1 f2 T1 T2 F1 F2.
    apply list_lookup_fmap_Some in F1 as ([f1' b1] & -> & F1), F2 as ([f2' b2] & -> & F2).
    eapply IH.
    + apply (Forall2_lookup_lr _ _ _ _ _ _ R1 T1 F1).
    + apply (Forall2_lookup_lr _ _ _ _ _ _ R2 T2 F2).
    + by apply (Forall_lookup_1 _ _ _ _ S1 T1).
    + by apply (Forall_lookup_1 _ _ _ _ S2 T2).
    + eapply Nat.lt_le_trans; [|exact Hf]. apply (height_part fbs1.*1); [done|].
      apply (list_elem_of_lookup_2 _ i). by rewrite list_lookup_fmap, F1.
  - right. split; [done|]. intros HF. apply Forall2_length in HF. lia.
Qed.

Lemma inner_height_child o d fc b name al :
  holds o d fc b → (inner_height fc < height (mk_form name d al))%nat.
Proof. destruct fc as [f|]; [apply height_child|]. intros _. simpl. lia. Qed.

Lemma one_equal o1 c1 d1 f1 b1 k1 o2 c2 d2 f2 b2 k2 name al name' al' n1 a1 n2 a2 :
  holds o1 d1 f1 b1 → rep_opt c1 f1 k1 → holds o2 d2 f2 b2 → rep_opt c2 f2 k2 →
  (∀ t, c1 = Some t → sane t) → (∀ t, c2 = Some t → sane t) → o1 ≠ O_named → o2 ≠ O_named →
  tree_kind (mk_tree n1 a1 (N_one o1 c1)) = tree_kind (mk_tree n2 a2 (N_one o2 c2)) →
  (height (mk_form name d1 al) <= fuel)%nat →
  wpo (equal_body (mk_form name d1 al) (mk_form name' d2 al')) (λ e, says e (same_one o1 o2 ∧ same_inner c1 c2)).
Proof.
  intros H1 I1 H2 I2 S1 S2 N1 N2 Hk Hf. unfold equal_body.
  rewrite (holds_kind _ _ _ _ name al n1 a1 c1 H1), (holds_kind _ _ _ _ name' al' n2 a2 c2 H2), Hk.
  rewrite bool_decide_eq_true_2 by done. pose proof (inner_height_child _ _ _ _ name al H1) as Hlt.
  assert (wpo (forms_structurally_equal fuel f1 f2) (λ e, says e (same_inner c1 c2))) as Hin
    by (apply (inner_equal c1 c2 f1 f2 k1 k2); try done; lia).
  destruct o1 as [| |xs| |k|], o2 as [| |ys| |k'|]; try done.
  1,2,4: destruct H1 as [-> _], H2 as [-> _]; simpl; eapply wpo_mono; [exact Hin|];
    intros e He; apply (says_iff _ _ _ He); simpl; tauto.
  - destruct H1 as (l1 & -> & W1 & _), H2 as (l2 & -> & W2 & _). simpl.
    pose proof (lw_count _ _ W1) as E1. pose proof (lw_count _ _ W2) as E2. unfold zlen in E1, E2.
    destruct (Z.eqb_spec (count l1) (count l2)) as [Hc|Hc]; simpl.
    + eapply wpo_mono; [exact Hin|]. intros e He. apply (says_iff _ _ _ He). simpl.
      assert (length xs = length ys) by lia. tauto.
    + right. split; [done|]. simpl. lia.
  - destruct H1 as [-> _], H2 as [-> _]. simpl. destruct (bool_decide_reflect (k = k')) as [->|]; simpl.
    + eapply wpo_mono; [exact Hin|]. intros e He. apply (says_iff _ _ _ He). simpl. tauto.
    + right. split; [done|]. tauto.
Qed.

Lemma body_equal u1 g1 b1 u2 g2 b2 :
  rep u1 g1 b1 → rep u2 g2 b2 → sane u1 → sane u2 → is_named u1 = false → is_named u2 = false →
  (height g1 <= fuel)%nat → wpo (equal_body g1 g2) (λ e, says e (same_shape u1 u2)).
Proof.
  intros R1 R2 S1 S2 N1 N2 Hf.
  destruct (decide (tree_kind u1 = tree_kind u2)) as [Hk|Hk].
  2:{ unfold equal_body. rewrite (rep_kind _ _ _ R1), (rep_kind _ _ _ R2), bool_decide_eq_false_2 by done.
      simpl. right. split; [done|]. by apply not_same_kind. }
  destruct R1 as [name1 affs1 n1 d1 al1 b1 _ R1], R2 as [name2 affs2 n2 d2 al2 b2 _ R2].
  destruct n1 as [p1|ts1|o1 c1], n2 as [p2|ts2|o2 c2];
    try (unfold tree_kind in Hk; simpl in Hk; first [done|by destruct o1|by destruct o2]).
  - inversion R1; inversion R2; subst. unfold equal_body. simpl.
    destruct (bool_decide_reflect (p1 = p2)) as [->|Hp]; [left|right]; split; try done.
    + by exists (S_primitive p2).
    + intros (s & E1 & E2). simplify_eq/=.
  - rewrite !sane_compound in *. inversion R1; inversion R2; subst. unfold equal_body. simpl.
    eapply wpo_mono; [by eapply (compound_equal ts1 fbs parts ts2 fbs0 parts0 name1 al1)|].
    intros e He. apply (says_iff _ _ _ He). symmetry. apply same_compound.
  - destruct (rep_one_inv _ _ _ _ R1) as (fc1 & k1 & l1 & H1 & I1 & _).
    destruct (rep_one_inv _ _ _ _ R2) as (fc2 & k2 & l2 & H2 & I2 & _).
    assert (o1 ≠ O_named) by (by intros ->). assert (o2 ≠ O_named) by (by intros ->).
    eapply wpo_mono; [eapply (one_equal o1 c1 d1 fc1 k1 l1 o2 c2 d2 fc2 k2 l2); try done|].
    + by intros t ->.
    + by intros t ->.
    + intros e He. apply (says_iff _ _ _ He). symmetry. by apply same_one_inner.
Qed.
End equal.

Lemma named_data u g k : rep u g k → is_named u = true → ∃ c, data g = D_named c.
Proof.
  intros [name affs n d al b _ Hn] Hu. destruct n as [| |[] c]; try done.
  destruct (rep_one_inv _ _ _ _ Hn) as (fc & b1 & b2 & [-> _] & _). by eexists.
Qed.

Lemma named_unequal fuel u1 g1 k1 u2 g2 k2 :
  rep u1 g1 k1 → rep u2 g2 k2 → is_named u1 = true ∨ is_named u2 = true → equal_body fuel g1 g2 = Ret 0.
Proof.
  intros R1 R2 Hn. unfold equal_body. destruct (bool_decide_reflect (kind g1 = kind g2)) as [Hk|]; simpl; [|done].
  unfold kind in Hk. destruct Hn as [Hn|Hn].
  - destruct (named_data _ _ _ R1 Hn) as [c E]. rewrite E in *. by destruct (data g2).
  - destruct (named_data _ _ _ R2 Hn) as [c E]. rewrite E in *. by destruct (data g1).
Qed.

Lemma equal_ok fuel t1 f1 b1 t2 f2 b2 :
  rep t1 f1 b1 → rep t2 f2 b2 → sane t1 → sane t2 → (height f1 < fuel)%nat →
  wpo (forms_structurally_equal fuel (Some f1) (Some f2)) (λ e, says e (same_shape t1 t2)).
Proof.
  revert t1 f1 b1 t2 f2 b2. induction fuel as [|fuel IH]; intros t1 f1 b1 t2 f2 b2 R1 R2 S1 S2 Hf; [lia|].
  destruct (current_ok _ _ _ R1 S1) as (u1 & g1 & k1 & E1 & R1' & S1' & Hh & Hs1).
  destruct (current_ok _ _ _ R2 S2) as (u2 & g2 & k2 & E2 & R2' & S2' & _ & Hs2).
  change (forms_structurally_equal (S fuel) (Some f1) (Some f2))
    with (g1 ← current f1; g2 ← current f2; equal_body fuel g1 g2).
  rewrite E1, E2. simpl. unfold same_shape. rewrite Hs1, Hs2.
  destruct (is_named u1) eqn:N1; [|destruct (is_named u2) eqn:N2].
  - rewrite (named_unequal fuel u1 g1 k1 u2 g2 k2) by auto. right. split; [done|]. by intros (s & ? & _).
  - rewrite (named_unequal fuel u1 g1 k1 u2 g2 k2) by auto. right. split; [done|]. by intros (s & _ & ?).
  - eapply body_equal; eauto. lia.
Qed.

(** * Copying *)

Section copying.
Context `{Allocator}.

(** What copying the items of a list gives. *)
Definition pushed {T} (dst : list_base_t T) (ys xs : list T) (s : mem) (l' : list_base_t T) (s' : mem) : Prop :=
  ∃ zs, list_wf l' zs ∧ zlen zs <= zlen ys + zlen xs ∧ grown s s' (Lists.owned l' - Lists.owned dst)
    ∧ (m_fails s' = m_fails s → zs = ys ++ xs).

Lemma push_all_ok {T} (l dst : list_base_t T) xs ys s :
  list_wf l xs → list_wf dst ys → zlen ys + zlen xs <= 2 ^ 31 →
  wp (push_all l dst) (pushed dst ys xs s) s.
Proof.
  intros Hl Hdst Hlen. unfold push_all. apply wp_bind, (wp_list_while l xs); [done|]. clear Hl l.
  revert dst ys s Hdst Hlen. induction xs as [|x xs IH]; intros dst ys s Hdst Hlen; simpl.
  - wsteps. exists ys. split_and!; [done|unfold zlen; simpl; lia| |intros _; by rewrite app_nil_r].
    rewrite Z.sub_diag. apply grown_refl.
  - rewrite zlen_cons in Hlen. pose proof (zlen_nonneg xs). wsteps.
    eapply wp_mono; [apply (push_grown dst ys); [done|lia]|].
    intros [rc l1] s1 (ys1 & Hw1 & Hg1 & Hys1). wsteps.
    assert (zlen ys1 <= zlen ys + 1) as Hz.
    { destruct Hys1 as [->|[-> _]]; [rewrite zlen_app; change (zlen [x]) with 1|]; lia. }
    eapply wp_mono; [apply (IH l1 ys1); [done|lia]|].
    intros r s2 Hr. unfold wp, mret, M_ret in *. destruct r as [l2|[]].
    destruct Hr as (zs & Hw2 & Hz2 & Hg2 & Hex). exists zs. split_and!; [done|rewrite zlen_cons; lia| |].
    + replace (Lists.owned l2 - Lists.owned dst)
        with ((Lists.owned l1 - Lists.owned dst) + (Lists.owned l2 - Lists.owned l1)) by lia.
      by eapply grown_trans.
    + intros E. pose proof (g_fails _ _ _ Hg1). pose proof (g_fails _ _ _ Hg2).
      rewrite Hex by lia. destruct Hys1 as [->|[_ ?]]; [by rewrite <- app_assoc|lia].
Qed.

Lemma copy_string_ok n s :
  wp (copy_string n) (λ r s', (r = Some n ∧ mem_alloc true s s')
    ∨ (r = None ∧ m_live s' = m_live s ∧ (m_fails s < m_fails s')%nat)) s.
Proof.
  unfold copy_string. wsteps. apply wp_alloc_obj. intros [|] s1 Hm; wsteps.
  - by left.
  - right. destruct Hm as [HL HF]. split_and!; [done|lia|lia].
Qed.

(** What a clone of [t] is: with no failed allocation it is [t]. *)
Definition cloned (t : option tree) (s : mem) (c : option ak_form_t) (s' : mem) : Prop :=
  ∃ t' b, rep_opt t' c b ∧ grown s s' b ∧ (m_fails s' = m_fails s → t' = t)
    ∧ (c = None → m_live s' = m_live s).

(** Parts: pairs of forms and what they own. *)
Definition parts_rep (l : list_base_t (option ak_form_t)) (ts : list tree) (fbs : list (ak_form_t * Z)) : Prop :=
  list_wf l ((λ fb, Some fb.1) <$> fbs) ∧ Forall2 (λ t fb, rep t fb.1 fb.2) ts fbs.

Lemma sum_blocks_app bs cs : sum (bs ++ cs) = sum bs + sum cs.
Proof. induction bs as [|b bs IH]; simpl; lia. Qed.

Lemma sum_cons b bs : sum (b :: bs) = b + sum bs.
Proof. done. Qed.

Lemma owned_nonneg {T} (l : list_base_t T) xs : list_wf l xs → 0 <= Lists.owned l.
Proof. intros Hwf. pose proof (list_wf_count _ _ Hwf). unfold Lists.owned. destruct (items l); lia. Qed.

Lemma holds_nonneg o d c b : holds o d c b → 0 <= b.
Proof. destruct o; simpl; try (intros [_ ->]; lia). intros (l & _ & Hw & ->). by eapply owned_nonneg. Qed.

Lemma rep_nonneg t f b : rep t f b → 0 <= b.
Proof.
  revert f b. induction t as [n a p|n a ts IH|n a o|n a o t IH] using tree_induction; intros f b Hr;
    inversion Hr as [name affs n' d al b' Hal Hn]; subst; pose proof (owned_nonneg _ _ Hal);
    assert (0 <= name_blocks n) by (destruct n; simpl; lia); inversion Hn; subst.
  - lia.
  - match goal with H : list_wf parts _ |- _ => pose proof (owned_nonneg _ _ H) end.
    assert (0 <= sum (fbs.*2)); [|lia].
    match goal with H : Forall2 _ _ _ |- _ => clear -IH H; induction H as [|t fb ts fbs Hh _ IH2] end; [done|].
    rewrite fmap_cons, sum_cons.
    apply Forall_cons_1 in IH as [IHt IHts]. specialize (IH2 IHts). specialize (IHt _ _ Hh). lia.
  - match goal with H : holds _ _ _ _ |- _ => apply holds_nonneg in H end. lia.
  - match goal with H : holds _ _ _ _ |- _ => apply holds_nonneg in H end.
    match goal with H : rep _ _ _ |- _ => apply IH in H end. lia.
Qed.

(** Blocks that were lost. *)
Lemma grown_lost s s' b a : grown s s' (b + a) → 0 <= b → (m_fails s < m_fails s')%nat → grown s s' a.
Proof. intros [F L E] Hb Hf. split; lia. Qed.

Lemma each_clone_ok (clone : option ak_form_t → M (option ak_form_t)) (ts : list tree)
    (fbs : list (ak_form_t * Z)) acc ts0 fbs0 s :
  Forall2 (λ t fb, ∀ s, wp (clone (Some fb.1)) (cloned (Some t) s) s) ts fbs →
  parts_rep acc ts0 fbs0 → zlen fbs0 + zlen fbs <= 2 ^ 31 →
  wp (each (R := False) ((λ fb, Some fb.1) <$> fbs) (λ part acc,
      part_clone ← clone part;
      match part_clone with
      | Some _ => '(_, acc) ← list_push_ acc part_clone sizeof_pointer; mret (inl acc)
      | None => mret (inl acc)
      end) acc)
    (λ r s', ∃ l ts' fbs', r = inl l ∧ parts_rep l ts' fbs'
      ∧ grown s s' (Lists.owned l - Lists.owned acc + (sum (fbs'.*2) - sum (fbs0.*2)))
      ∧ (m_fails s' = m_fails s → ts' = ts0 ++ ts)) s.
Proof.
  intros Hall. revert acc ts0 fbs0 s.
  induction Hall as [|t fb ts fbs Hclone _ IH]; intros acc ts0 fbs0 s [Hwf Hrep] Hlen; simpl.
  { wsteps. exists acc, ts0, fbs0. split_and!; [done|done| |by rewrite app_nil_r].
    rewrite !Z.sub_diag. apply grown_refl. }
  rewrite zlen_cons in Hlen. pose proof (zlen_nonneg fbs). pose proof (zlen_nonneg fbs0).
  apply wp_bind, wp_bind. eapply wp_mono; [apply Hclone|].
  intros c s1 (t' & b & Hr & Hg1 & Hex1 & _). destruct Hr as [|t' f' b Hr].
  { wsteps. eapply wp_mono; [apply (IH acc ts0 fbs0); [done|lia]|].
    intros r s2 (l & ts' & fbs' & -> & Hp & Hg2 & Hex2). exists l, ts', fbs'. split_and!; [done|done| |].
    - apply (grown_trans _ _ _ _ _ Hg1 Hg2).
    - intros E. pose proof (g_fails _ _ _ Hg1). pose proof (g_fails _ _ _ Hg2). by specialize (Hex1 ltac:(lia)). }
  wsteps. eapply wp_mono; [apply (push_grown acc ((λ fb, Some fb.1) <$> fbs0)); [done|]|].
  { unfold zlen in *. rewrite length_fmap. lia. }
  intros [rc acc1] s2 (ys & Hw1 & Hg2 & Hys). wsteps. pose proof (rep_nonneg _ _ _ Hr) as Hb.
  assert (∃ ts1 fbs1, parts_rep acc1 ts1 fbs1 ∧ zlen fbs1 <= zlen fbs0 + 1
    ∧ grown s s2 (Lists.owned acc1 - Lists.owned acc + (sum (fbs1.*2) - sum (fbs0.*2)))
    ∧ (m_fails s2 = m_fails s → ts1 = ts0 ++ [t])) as (ts1 & fbs1 & Hp1 & Hz1 & Hg & Hex).
  { pose proof (grown_trans _ _ _ _ _ Hg1 Hg2) as Hg. pose proof (g_fails _ _ _ Hg1). pose proof (g_fails _ _ _ Hg2).
    destruct Hys as [->|[-> Hf]].
    - exists (ts0 ++ [t']), (fbs0 ++ [(f', b)]). split_and!.
      + split; [by rewrite fmap_app|]. apply Forall2_app; [done|]. by constructor.
      + rewrite zlen_app. change (zlen [_]) with 1. lia.
      + rewrite fmap_app, sum_blocks_app. simpl.
        replace (Lists.owned acc1 - Lists.owned acc + (sum fbs0.*2 + (b + 0) - sum fbs0.*2))
          with (b + (Lists.owned acc1 - Lists.owned acc)) by lia. done.
      + intros E. specialize (Hex1 ltac:(lia)). by injection Hex1 as ->.
    - exists ts0, fbs0. split_and!; [done|lia| |lia]. rewrite Z.sub_diag, Z.add_0_r.
      eapply grown_lost; [exact Hg|done|lia]. }
  eapply wp_mono; [apply (IH acc1 ts1 fbs1 s2 Hp1); lia|].
  intros r s3 (l & ts' & fbs' & -> & Hp & Hg3 & Hex3). exists l, ts', fbs'. split_and!; [done|done| |].
  - pose proof (grown_trans _ _ _ _ _ Hg Hg3) as Hgg.
    match type of Hgg with grown _ _ ?a => match goal with |- grown _ _ ?b => replace b with a by lia end end. done.
  - intros E. pose proof (g_fails _ _ _ Hg). pose proof (g_fails _ _ _ Hg3).
    rewrite Hex3, Hex by lia. by rewrite <- app_assoc.
Qed.

Lemma list_init_wf {T} : list_wf (list_init (T := T) sizeof_pointer) [].
Proof. split; [by left|done|done|by exists []|done]. Qed.

Lemma clone_parts_ok (clone : option ak_form_t → M (option ak_form_t)) parts (ts : list tree)
    (fbs : list (ak_form_t * Z)) s :
  parts_rep parts ts fbs →
  Forall2 (λ t fb, ∀ s, wp (clone (Some fb.1)) (cloned (Some t) s) s) ts fbs →
  wp (clone_parts clone parts) (λ l s', ∃ ts' fbs', parts_rep l ts' fbs'
    ∧ grown s s' (Lists.owned l + sum (fbs'.*2)) ∧ (m_fails s' = m_fails s → ts' = ts)) s.
Proof.
  intros [Hwf Hrep] Hclone. unfold clone_parts. apply wp_bind.
  pose proof (list_wf_count _ _ Hwf) as Hc. pose proof (cap_ok_range _ (lw_cap _ _ Hwf)) as Hr.
  assert (zlen fbs <= 2 ^ 31) as Hlen.
  { pose proof (lw_count _ _ Hwf) as E. unfold zlen in *. rewrite length_fmap in E. lia. }
  eapply (wp_list_while parts); [exact Hwf|].
  eapply wp_mono; [apply (each_clone_ok clone ts fbs _ [] []); [done| |]|].
  - split; [apply list_init_wf|constructor].
  - unfold zlen in *. simpl. lia.
  - intros r s' (l & ts' & fbs' & -> & Hp & Hg & Hex). wsteps. exists ts', fbs'. split_and!; [done| |done].
    unfold Lists.owned in Hg at 2. simpl in Hg. by rewrite !Z.sub_0_r in Hg.
Qed.

(** What a copy of the union is. *)
Definition cloned_node (n : node) (s : mem) (d : form_data) (s' : mem) : Prop :=
  ∃ n' b, rep_node n' d b ∧ grown s s' b ∧ (m_fails s' = m_fails s → n' = n).

(** A form with one inside: [K] builds the union. *)
Lemma clone_one fuel o c fc b (K : option ak_form_t → form_data) s :
  (∀ x, holds o (K x) x 0) → rep_opt c fc b →
  (∀ s, wp (ak_form_clone fuel fc) (cloned c s) s) →
  wp (inner ← ak_form_clone fuel fc; mret (K inner)) (cloned_node (N_one o c) s) s.
Proof.
  intros HK Hr Hc. wsteps. eapply wp_mono; [apply Hc|]. intros c' s' (t' & b' & Hr' & Hg & Hex & _).
  wsteps. exists (N_one o t'), (0 + b'). split_and!; [by apply (rep_one_intro o t' (K c') c')|done|].
  intros E. by rewrite Hex.
Qed.

Lemma clone_struct fuel xs c fc b l s :
  list_wf l xs → rep_opt c fc b → (∀ s, wp (ak_form_clone fuel fc) (cloned c s) s) →
  wp (pattern ← ak_form_clone fuel fc; field_names ← push_all l (list_init sizeof_pointer);
      mret (D_struct pattern field_names)) (cloned_node (N_one (O_struct xs) c) s) s.
Proof.
  intros Hl Hr Hc. wsteps. eapply wp_mono; [apply Hc|]. intros c' s1 (t' & b' & Hr' & Hg & Hex & _).
  wsteps. pose proof (list_wf_count _ _ Hl). pose proof (cap_ok_range _ (lw_cap _ _ Hl)).
  eapply wp_mono; [apply (push_all_ok l _ xs []); [done|apply list_init_wf|]|].
  { rewrite <- (lw_count _ _ Hl). change (zlen []) with 0. lia. }
  intros l' s2 (zs & Hw & _ & Hg2 & Hex2). wsteps. unfold Lists.owned in Hg2 at 2. simpl in Hg2.
  rewrite Z.add_0_r, Z.sub_0_r in Hg2. pose proof (g_fails _ _ _ Hg). pose proof (g_fails _ _ _ Hg2).
  exists (N_one (O_struct zs) t'), (Lists.owned l' + b'). split_and!.
  - eapply (rep_one_intro (O_struct zs) t' _ c'); [|done]. by exists l'.
  - rewrite Z.add_comm. by eapply grown_trans.
  - intros E. rewrite Hex, Hex2 by lia. done.
Qed.

Lemma parts_fmap (fbs : list (ak_form_t * Z)) : (λ fb, Some fb.1) <$> fbs = Some <$> fbs.*1.
Proof. by rewrite <- list_fmap_compose. Qed.

Lemma part_height (fbs : list (ak_form_t * Z)) parts fb name al :
  list_wf parts ((λ fb, Some fb.1) <$> fbs) → fb ∈ fbs →
  (height fb.1 < height (mk_form name (D_compound parts) al))%nat.
Proof.
  rewrite parts_fmap. intros Hw Hin. apply (height_part fbs.*1); [done|]. by apply list_elem_of_fmap_2.
Qed.

Lemma Forall2_elem {A B} (P Q : A → B → Prop) xs ys :
  Forall2 P xs ys → (∀ x y, y ∈ ys → P x y → Q x y) → Forall2 Q xs ys.
Proof.
  induction 1 as [|x y xs ys Hp _ IH]; intros HQ; constructor.
  - apply HQ; [by left|done].
  - apply IH. intros x' y' Hy. apply HQ. by right.
Qed.

(** The copy of the union, as in [ak_form_clone]. *)
Definition clone_data (fuel : nat) (data : form_data) : M form_data :=
  match data with
  | D_primitive type => mret (D_primitive type)
  | D_compound parts => parts ← clone_parts (ak_form_clone fuel) parts; mret (D_compound parts)
  | D_optional inner => inner ← ak_form_clone fuel inner; mret (D_optional inner)
  | D_repeatable inner => inner ← ak_form_clone fuel inner; mret (D_repeatable inner)
  | D_struct pattern field_names =>
      pattern ← ak_form_clone fuel pattern;
      field_names ← push_all field_names (list_init sizeof_pointer);
      mret (D_struct pattern field_names)
  | D_list element_type => element_type ← ak_form_clone fuel element_type; mret (D_list element_type)
  | D_map key_type value_type => value_type ← ak_form_clone fuel value_type; mret (D_map key_type value_type)
  | D_named actual_form => actual_form ← ak_form_clone fuel actual_form; mret (D_named actual_form)
  end.

Lemma clone_data_ok fuel n d b s name al :
  rep_node n d b → (height (mk_form name d al) <= fuel)%nat →
  (∀ c fc b s, rep_opt c fc b → (inner_height fc < fuel)%nat → wp (ak_form_clone fuel fc) (cloned c s) s) →
  wp (clone_data fuel d) (cloned_node n s) s.
Proof.
  intros Hn Hf IH. destruct n as [p|ts|o c].
  - inversion Hn; subst. simpl. wsteps. exists (N_primitive p), 0.
    split_and!; [constructor|apply grown_refl|done].
  - inversion Hn as [|ts' fbs parts Hw Hrep| |]; subst. simpl. wsteps.
    eapply wp_mono; [apply (clone_parts_ok _ _ ts fbs); [done|]|].
    + apply (Forall2_elem _ _ _ _ Hrep). intros t fb Hin Hr s0.
      apply (IH (Some t) (Some fb.1) fb.2); [by constructor|]. simpl.
      pose proof (part_height fbs parts fb name al Hw Hin). lia.
    + intros l s3 (ts' & fbs' & [Hw' Hrep'] & Hg & Hex). wsteps.
      exists (N_compound ts'), (Lists.owned l + sum (fbs'.*2)).
      split_and!; [by constructor|done|]. intros E. by rewrite Hex.
  - destruct (rep_one_inv _ _ _ _ Hn) as (fc & b1 & b2 & Hh & Hr & ->).
    pose proof (inner_height_child _ _ _ _ name al Hh) as Hlt.
    assert (∀ s, wp (ak_form_clone fuel fc) (cloned c s) s) as Hc by (intros s0; eapply IH; [done|lia]).
    destruct o as [| |xs| |k|]; simpl in Hh.
    3:{ destruct Hh as (l & -> & Hl & ->). by apply (clone_struct fuel xs c fc b2). }
    all: destruct Hh as [-> ->].
    + by apply (clone_one fuel O_optional c fc b2 D_optional).
    + by apply (clone_one fuel O_repeatable c fc b2 D_repeatable).
    + by apply (clone_one fuel O_list c fc b2 D_list).
    + by apply (clone_one fuel (O_map k) c fc b2 (D_map k)).
    + by apply (clone_one fuel O_named c fc b2 D_named).
Qed.

Lemma copy_name_ok name s :
  wp (match name with None => mret None | Some n => copy_string n end)
    (λ name' s', grown s s' (name_blocks name') ∧ (m_fails s' = m_fails s → name' = name)) s.
Proof.
  destruct name as [nm|]; [|wsteps; split; [apply grown_refl|done]].
  eapply wp_mono; [apply copy_string_ok|]. intros r s2 [[-> Hg]|(-> & HL & HF)].
  - split; [by apply grown_alloc|done].
  - split; [split; simpl; lia|lia].
Qed.

(** The copy of the affects' pointers. *)
Lemma copy_affects_ok (al : list_base_t positive) affs s :
  list_wf al affs →
  wp (push_all al (list_init sizeof_pointer)) (λ al' s', ∃ affs', list_wf al' affs'
    ∧ grown s s' (Lists.owned al') ∧ (m_fails s' = m_fails s → affs' = affs)) s.
Proof.
  intros Hl. pose proof (list_wf_count _ _ Hl). pose proof (cap_ok_range _ (lw_cap _ _ Hl)).
  eapply wp_mono; [apply (push_all_ok al _ affs []); [done|apply list_init_wf|]|].
  { rewrite <- (lw_count _ _ Hl). change (zlen []) with 0. lia. }
  intros l' s2 (zs & Hw & _ & Hg2 & Hex2). unfold Lists.owned in Hg2 at 2. simpl in Hg2.
  rewrite Z.add_0_r, Z.sub_0_r in Hg2. by exists zs.
Qed.

Lemma clone_ok fuel c fc b s :
  rep_opt c fc b → (inner_height fc < fuel)%nat → wp (ak_form_clone fuel fc) (cloned c s) s.
Proof.
  revert c fc b s. induction fuel as [|fuel IH]; intros c fc b s Hr Hf; [lia|].
  destruct Hr as [|t f b Hr].
  { simpl. wsteps. exists None, 0. split_and!; [constructor|apply grown_refl|done|done]. }
  destruct Hr as [name affs n d al b' Hal Hn]. simpl. wsteps. apply wp_alloc_obj.
  intros [|] s1 Hm; simpl; wsteps.
  2:{ destruct Hm as [HL HF]. exists None, 0. split_and!; [constructor|split; lia|lia|lia]. }
  apply grown_alloc in Hm.
  eapply wp_mono; [apply copy_name_ok|]. intros name' s2 [Hg2 Hex2]. wsteps.
  eapply wp_mono; [apply (clone_data_ok fuel n d b' s2 name al Hn); [unfold inner_height in Hf; lia|]|].
  { intros c fc b0 s0. apply IH. }
  intros d' s3 (n' & bd & Hn' & Hg3 & Hex3). wsteps.
  eapply wp_mono; [by apply copy_affects_ok|]. intros al' s4 (affs' & Hw' & Hg4 & Hex4). wsteps.
  exists (Some (mk_tree name' affs' n')), (1 + name_blocks name' + Lists.owned al' + bd).
  split_and!; [by constructor; constructor| | |done].
  - pose proof (grown_trans _ _ _ _ _ (grown_trans _ _ _ _ _ (grown_trans _ _ _ _ _ Hm Hg2) Hg3) Hg4) as Hg.
    match type of Hg with grown _ _ ?a => match goal with |- grown _ _ ?b => replace b with a by lia end end. done.
  - intros E. destruct Hm, Hg2, Hg3, Hg4. rewrite Hex2, Hex3, Hex4 by lia. done.
Qed.

(** A form made of a name, a union and no affects. *)
Definition bare (n : node) : tree := mk_tree None [] n.

Lemma rep_bare name n d b :
  rep_node n d b → rep (mk_tree name [] n) (mk_form name d (list_init sizeof_pointer)) (1 + name_blocks name + b).
Proof.
  intros Hn. replace (1 + name_blocks name + b)
    with (1 + name_blocks name + Lists.owned (list_init (T := positive) sizeof_pointer) + b)
    by (unfold Lists.owned; simpl; lia).
  constructor; [apply list_init_wf|done].
Qed.

(** A constructor with a clone inside. *)
Lemma new_one o t f b (K : option ak_form_t → form_data) s :
  (∀ x, holds o (K x) x 0) → rep t f b →
  wp (ok ← alloc_obj sizeof_ak_form_t;
      if negb ok then mret None else
      inner ← clone (Some f);
      match inner with
      | None => _ ← free_obj; mret None
      | Some _ => mret (Some (mk_form None (K inner) (list_init sizeof_pointer)))
      end) (cloned (Some (bare (N_one o (Some t)))) s) s.
Proof.
  intros HK Hr. wsteps. apply wp_alloc_obj. intros [|] s1 Hm; simpl; wsteps.
  2:{ destruct Hm as [HL HF]. exists None, 0. split_and!; [constructor|split; lia|lia|lia]. }
  eapply wp_mono; [apply (clone_ok _ (Some t) (Some f) b); [by constructor|simpl; lia]|].
  intros c s2 (t' & b' & Hr' & Hg & Hex & Hnull). destruct Hr' as [|t' f' b' Hr']; wsteps.
  - apply wp_free_obj. intros s3 HL3 HF3. wsteps. destruct Hm as [HL HF].
    specialize (Hnull eq_refl). assert (m_fails s2 ≠ m_fails s1) as Hne by (intros E; by apply Hex in E).
    pose proof (g_fails _ _ _ Hg). exists None, 0. split_and!; [constructor|split; lia|lia|lia].
  - apply grown_alloc in Hm.
    exists (Some (bare (N_one o (Some t')))), (1 + 0 + (0 + b')). split_and!.
    + constructor. apply (rep_bare None). apply (rep_one_intro o (Some t') _ (Some f')); [apply HK|by constructor].
    + replace (1 + 0 + (0 + b')) with (1 + b') by lia. by eapply grown_trans.
    + intros E. destruct Hm, Hg. specialize (Hex ltac:(lia)). by injection Hex as ->.
    + done.
Qed.

Lemma new_struct t f b l xs s :
  rep t f b → list_wf l xs →
  wp (ak_form_new_struct (Some f) (Some l)) (cloned (Some (bare (N_one (O_struct xs) (Some t)))) s) s.
Proof.
  intros Hr Hl. unfold ak_form_new_struct. wsteps. apply wp_alloc_obj. intros [|] s1 Hm; simpl; wsteps.
  2:{ destruct Hm as [HL HF]. exists None, 0. split_and!; [constructor|split; lia|lia|lia]. }
  eapply wp_mono; [apply (clone_ok _ (Some t) (Some f) b); [by constructor|simpl; lia]|].
  intros c s2 (t' & b' & Hr' & Hg & Hex & Hnull). destruct Hr' as [|t' f' b' Hr']; wsteps.
  - apply wp_free_obj. intros s3 HL3 HF3. wsteps. destruct Hm as [HL HF].
    specialize (Hnull eq_refl). assert (m_fails s2 ≠ m_fails s1) as Hne by (intros E; by apply Hex in E).
    pose proof (g_fails _ _ _ Hg). exists None, 0. split_and!; [constructor|split; lia|lia|lia].
  - apply grown_alloc in Hm. pose proof (list_wf_count _ _ Hl). pose proof (cap_ok_range _ (lw_cap _ _ Hl)).
    eapply wp_mono; [apply (push_all_ok l _ xs []); [done|apply list_init_wf|]|].
    { rewrite <- (lw_count _ _ Hl). change (zlen []) with 0. lia. }
    intros l' s3 (zs & Hw & _ & Hg2 & Hex2). wsteps. unfold Lists.owned in Hg2 at 2. simpl in Hg2.
    rewrite Z.add_0_r, Z.sub_0_r in Hg2.
    exists (Some (bare (N_one (O_struct zs) (Some t')))), (1 + 0 + (Lists.owned l' + b')). split_and!.
    + constructor. apply (rep_bare None). apply (rep_one_intro (O_struct zs) (Some t') _ (Some f'));
        [by exists l'|by constructor].
    + replace (1 + 0 + (Lists.owned l' + b')) with (1 + b' + Lists.owned l') by lia.
      by eapply grown_trans; [eapply grown_trans|].
    + intros E. destruct Hm, Hg, Hg2. specialize (Hex ltac:(lia)). injection Hex as ->. by rewrite Hex2 by lia.
    + done.
Qed.

Lemma new_named t f b name s :
  rep t f b →
  wp (ak_form_new_named (Some name) (Some f))
    (cloned (Some (mk_tree (Some name) [] (N_one O_named (Some t)))) s) s.
Proof.
  intros Hr. unfold ak_form_new_named. wsteps. apply wp_alloc_obj. intros [|] s1 Hm; simpl; wsteps.
  2:{ destruct Hm as [HL HF]. exists None, 0. split_and!; [constructor|split; lia|lia|lia]. }
  eapply wp_mono; [apply copy_string_ok|]. intros nm s2 [[-> Hg2]|(-> & HL2 & HF2)]; wsteps.
  2:{ apply wp_free_obj. intros s3 HL3 HF3. wsteps. destruct Hm as [HL HF].
      exists None, 0. split_and!; [constructor|split; lia|lia|lia]. }
  eapply wp_mono; [apply (clone_ok _ (Some t) (Some f) b); [by constructor|simpl; lia]|].
  intros c s3 (t' & b' & Hr' & Hg & Hex & Hnull). destruct Hr' as [|t' f' b' Hr']; wsteps.
  - apply wp_free_obj. intros s4 HL4 HF4. wsteps. apply wp_free_obj. intros s5 HL5 HF5. wsteps.
    destruct Hm as [HL HF]. specialize (Hnull eq_refl).
    assert (m_fails s3 ≠ m_fails s2) as Hne by (intros E; by apply Hex in E).
    pose proof (g_fails _ _ _ Hg). destruct Hg2 as [HL2 HF2].
    exists None, 0. split_and!; [constructor|split; lia|lia|lia].
  - apply grown_alloc in Hm, Hg2.
    exists (Some (mk_tree (Some name) [] (N_one O_named (Some t')))), (1 + 1 + (0 + b')). split_and!.
    + constructor. apply (rep_bare (Some name)). by apply (rep_one_intro O_named (Some t') _ (Some f')); [|constructor].
    + replace (1 + 1 + (0 + b')) with (1 + 1 + b') by lia. by eapply grown_trans; [eapply grown_trans|].
    + intros E. destruct Hm, Hg, Hg2. specialize (Hex ltac:(lia)). by injection Hex as ->.
    + done.
Qed.

Lemma new_compound parts ts fbs s :
  parts_rep parts ts fbs →
  wp (ak_form_new_compound (Some parts)) (cloned (Some (bare (N_compound ts))) s) s.
Proof.
  intros [Hw Hrep]. unfold ak_form_new_compound. wsteps. apply wp_alloc_obj. intros [|] s1 Hm; cbn [negb]; wsteps.
  2:{ destruct Hm as [HL HF]. exists None, 0. split_and!; [constructor|split; lia|lia|lia]. }
  apply grown_alloc in Hm. eapply wp_mono; [apply (clone_parts_ok _ _ ts fbs); [done|]|].
  { apply (Forall2_elem _ _ _ _ Hrep). intros t fb Hin Hr s0.
    apply (clone_ok _ (Some t) (Some fb.1) fb.2); [by constructor|]. unfold inner_height, parts_height.
    apply (part_height fbs parts fb None (list_init sizeof_pointer) Hw Hin). }
  intros l s2 (ts' & fbs' & [Hw' Hrep'] & Hg & Hex). wsteps.
  exists (Some (bare (N_compound ts'))), (1 + 0 + (Lists.owned l + sum (fbs'.*2))). split_and!.
  - constructor. apply (rep_bare None). by constructor.
  - replace (1 + 0 + (Lists.owned l + sum fbs'.*2)) with (1 + (Lists.owned l + sum fbs'.*2)) by lia.
    by eapply grown_trans.
  - intros E. destruct Hm, Hg. by rewrite Hex by lia.
  - done.
Qed.

Lemma new_primitive p s : wp (ak_form_new_primitive p) (cloned (Some (bare (N_primitive p))) s) s.
Proof.
  unfold ak_form_new_primitive. wsteps. apply wp_alloc_obj. intros [|] s1 Hm; simpl; wsteps.
  - apply grown_alloc in Hm. exists (Some (bare (N_primitive p))), (1 + 0 + 0).
    split_and!; [constructor; apply (rep_bare None); constructor|done|done|done].
  - destruct Hm as [HL HF]. exists None, 0. split_and!; [constructor|split; lia|lia|lia].
Qed.
End copying.

(** * Affordances *)

Section affordances.
Context `{Allocator}.

(** Copies of [names] at the end of a list of copies. *)
Definition copied (acc : list_base_t cstr) (ys names : list cstr) (s : mem) (l : list_base_t cstr) (s' : mem)
    : Prop :=
  ∃ zs, list_wf l (ys ++ zs) ∧ sublist zs names
    ∧ grown s s' (Lists.owned l - Lists.owned acc + zlen zs) ∧ (m_fails s' = m_fails s → zs = names).

Lemma copied_refl acc ys s : list_wf acc ys → copied acc ys [] s acc s.
Proof.
  intros Hw. exists []. rewrite app_nil_r. split_and!; [done|constructor| |done].
  change (zlen []) with 0. rewrite Z.sub_diag. apply grown_refl.
Qed.

Lemma copied_trans acc ys n1 n2 s1 l1 s2 l2 s3 z1 :
  sublist z1 n1 → grown s1 s2 (Lists.owned l1 - Lists.owned acc + zlen z1) →
  (m_fails s2 = m_fails s1 → z1 = n1) → copied l1 (ys ++ z1) n2 s2 l2 s3 →
  copied acc ys (n1 ++ n2) s1 l2 s3.
Proof.
  intros S1 G1 E1 (z2 & W2 & S2 & G2 & E2). exists (z1 ++ z2). rewrite app_assoc.
  split_and!; [done|by apply sublist_app| |].
  - rewrite zlen_app. replace (Lists.owned l2 - Lists.owned acc + (zlen z1 + zlen z2))
      with (Lists.owned l1 - Lists.owned acc + zlen z1 + (Lists.owned l2 - Lists.owned l1 + zlen z2)) by lia.
    by eapply grown_trans.
  - intros E. destruct G1, G2. rewrite E1, E2 by lia. done.
Qed.

Lemma push_copy_ok n acc ys s :
  list_wf acc ys → zlen ys < 2 ^ 31 → wp (push_copy n acc) (copied acc ys [n] s) s.
Proof.
  intros Hw Hlen. unfold push_copy. wsteps. eapply wp_mono; [apply copy_string_ok|].
  intros r s1 [[-> Hm]|(-> & HL & HF)].
  2:{ wsteps. exists []. rewrite app_nil_r. split_and!; [done|apply sublist_nil_l| |lia].
      change (zlen []) with 0. split; lia. }
  apply grown_alloc in Hm. wsteps. eapply wp_mono; [by apply (push_grown acc ys)|].
  intros [rc l] s2 (zs & Hw2 & Hg & Hcase). wsteps.
  pose proof (grown_trans _ _ _ _ _ Hm Hg) as Hgg. pose proof (g_fails _ _ _ Hm).
  destruct Hcase as [->|[-> Hf]].
  - exists [n]. split_and!; [done|done| |done]. change (zlen [n]) with 1. by rewrite Z.add_comm.
  - exists []. rewrite app_nil_r. split_and!; [done|apply sublist_nil_l| |lia].
    change (zlen []) with 0. rewrite Z.add_0_r. eapply grown_lost; [exact Hgg|lia|lia].
Qed.

Lemma sublist_zlen {A} (xs ys : list A) : sublist xs ys → zlen xs <= zlen ys.
Proof. intros Hs. apply sublist_length in Hs. unfold zlen. lia. Qed.

Lemma push_copies_ok names acc ys s :
  list_wf acc ys → zlen ys + zlen names <= 2 ^ 31 → wp (push_copies names acc) (copied acc ys names s) s.
Proof.
  revert acc ys s. induction names as [|n names IH]; intros acc ys s Hw Hlen; simpl.
  { wsteps. by apply copied_refl. }
  rewrite zlen_cons in Hlen. pose proof (zlen_nonneg names). wsteps.
  eapply wp_mono; [apply (push_copy_ok n acc ys); [done|lia]|]. intros l1 s1 (z1 & W1 & S1 & G1 & E1).
  pose proof (sublist_zlen _ _ S1) as Hz. change (zlen [n]) with 1 in Hz.
  eapply wp_mono; [apply (IH l1 (ys ++ z1)); [done|rewrite zlen_app; lia]|]. intros l2 s2 H2.
  by apply (copied_trans acc ys [n] names s l1 s1 l2 s2 z1).
Qed.

(** The names of live affects. *)
Definition affect_names (st : fstore) (affs : list positive) (names : list cstr) : Prop :=
  Forall2 (λ a n, ∃ x, affect_objs st !! a = Some x ∧ affect_name x = Some n) affs names.

Lemma each_name st affs names acc ys s :
  affect_names st affs names → list_wf acc ys → zlen ys + zlen names <= 2 ^ 31 →
  wp (each (R := False) affs (λ a acc,
      x ← lift (deref_affect st a);
      match affect_name x with
      | Some n => acc ← push_copy n acc; mret (inl acc)
      | None => lift Undef
      end) acc) (λ r s', ∃ l, r = inl l ∧ copied acc ys names s l s') s.
Proof.
  intros Hall. revert acc ys s.
  induction Hall as [|a n affs names (x & Hx & Hn) _ IH]; intros acc ys s Hw Hlen; simpl.
  { wsteps. exists acc. split; [done|by apply copied_refl]. }
  rewrite zlen_cons in Hlen. pose proof (zlen_nonneg names).
  wsteps. unfold deref_affect. rewrite Hx. wsteps. rewrite Hn. wsteps.
  eapply wp_mono; [apply (push_copy_ok n acc ys); [done|lia]|]. intros l1 s1 (z1 & W1 & S1 & G1 & E1).
  pose proof (sublist_zlen _ _ S1) as Hz. change (zlen [n]) with 1 in Hz. wsteps.
  eapply wp_mono; [apply (IH l1 (ys ++ z1)); [done|rewrite zlen_app; lia]|].
  intros r s2 (l2 & -> & H2). exists l2. split; [done|].
  by apply (copied_trans acc ys [n] names s l1 s1 l2 s2 z1).
Qed.

Lemma each_field names acc ys s :
  list_wf acc ys → zlen ys + zlen names <= 2 ^ 31 →
  wp (each (R := False) names (λ field acc, acc ← push_copy field acc; mret (inl acc)) acc)
    (λ r s', ∃ l, r = inl l ∧ copied acc ys names s l s') s.
Proof.
  revert acc ys s. induction names as [|n names IH]; intros acc ys s Hw Hlen; simpl.
  { wsteps. exists acc. split; [done|by apply copied_refl]. }
  rewrite zlen_cons in Hlen. pose proof (zlen_nonneg names). wsteps.
  eapply wp_mono; [apply (push_copy_ok n acc ys); [done|lia]|]. intros l1 s1 (z1 & W1 & S1 & G1 & E1).
  pose proof (sublist_zlen _ _ S1) as Hz. change (zlen [n]) with 1 in Hz. wsteps.
  eapply wp_mono; [apply (IH l1 (ys ++ z1)); [done|rewrite zlen_app; lia]|].
  intros r s2 (l2 & -> & H2). exists l2. split; [done|].
  by apply (copied_trans acc ys [n] names s l1 s1 l2 s2 z1).
Qed.

(** What the kind of a form affords. *)
Definition structural (u : tree) : list cstr :=
  match node_of u with
  | N_one O_optional _ => optional_names
  | N_one O_repeatable _ => repeatable_names
  | N_one O_list _ => list_names
  | N_one (O_map _) _ => map_names
  | N_one (O_struct xs) _ => xs
  | _ => []
  end.

Definition affects_of (u : tree) : list positive := let 'mk_tree _ a _ := u in a.

(** The form that a name stands for. *)
Definition target (t : tree) : tree :=
  match node_of t with
  | N_one O_named (Some u) => u
  | _ => t
  end.

Lemma current_target t f b :
  rep t f b → sane t → ∃ g b', current f = Ret g ∧ rep (target t) g b'.
Proof.
  intros Hr Hs. destruct (is_named t) eqn:En.
  - destruct Hr as [name affs n d al b' Hal Hn]. destruct n as [| |[] c]; try done.
    destruct (rep_one_inv _ _ _ _ Hn) as (fc & b1 & b2 & [-> _] & Ho & _).
    destruct Ho as [|t f b2 Ho]; [by simpl in Hs|]. by exists f, b2.
  - exists f, b. assert (target t = t) as -> by (by destruct t as [? ? [| |[] [|]]]).
    split; [|done]. pose proof (rep_kind _ _ _ Hr) as Hk. destruct f as [name d al]. unfold current. simpl.
    destruct d; try done. destruct t as [n a [p|ts|[] c]]; done.
Qed.

(** The two names of an optional form: both or none. *)
Lemma push_optional acc ys s :
  list_wf acc ys → zlen ys + 2 <= 2 ^ 31 →
  wp (is_none ← copy_string is_none_str;
      is_some ← copy_string is_some_str;
      match is_none, is_some with
      | Some is_none, Some is_some =>
          '(_, acc) ← list_push_ acc is_none sizeof_pointer;
          '(_, acc) ← list_push_ acc is_some sizeof_pointer;
          mret acc
      | _, _ => mret acc
      end) (copied acc ys optional_names s) s.
Proof.
  intros Hw Hlen. wsteps. eapply wp_mono; [apply copy_string_ok|]. intros r1 s1 H1. wsteps.
  eapply wp_mono; [apply copy_string_ok|]. intros r2 s2 H2. wsteps.
  assert (r1 = None ∨ r2 = None → copied acc ys optional_names s acc s2) as Hnone.
  { intros Hr. exists []. rewrite app_nil_r. change (zlen []) with 0.
    destruct H1 as [[-> [HL1 HF1]]|(-> & HL1 & HF1)], H2 as [[-> [HL2 HF2]]|(-> & HL2 & HF2)];
      try (by destruct Hr); (split_and!; [done|apply sublist_nil_l|split; lia|lia]). }
  destruct H1 as [[-> Hm1]|(-> & _)]; [|wsteps; apply Hnone; by left].
  destruct H2 as [[-> Hm2]|(-> & _)]; [|wsteps; apply Hnone; by right].
  apply grown_alloc in Hm1, Hm2. wsteps.
  eapply wp_mono; [apply (push_grown acc ys); [done|lia]|]. intros [rc l1] s3 (z1 & W1 & G1 & C1). wsteps.
  assert (zlen z1 <= zlen ys + 1) as Hz.
  { destruct C1 as [->|[-> _]]; [rewrite zlen_app; change (zlen [_]) with 1|]; lia. }
  eapply wp_mono; [apply (push_grown l1 z1); [done|lia]|]. intros [rc' l2] s4 (z2 & W2 & G2 & C2). wsteps.
  pose proof (grown_trans _ _ _ _ _ (grown_trans _ _ _ _ _ (grown_trans _ _ _ _ _ Hm1 Hm2) G1) G2) as Hg.
  pose proof (g_fails _ _ _ Hm1). pose proof (g_fails _ _ _ Hm2).
  pose proof (g_fails _ _ _ G1). pose proof (g_fails _ _ _ G2).
  destruct C1 as [->|[-> F1]], C2 as [->|[-> F2]].
  - exists [is_none_str; is_some_str]. rewrite <- app_assoc in W2. split_and!; [done|done| |done].
    change (zlen _) with 2. replace (Lists.owned l2 - Lists.owned acc + 2)
      with (1 + 1 + (Lists.owned l1 - Lists.owned acc) + (Lists.owned l2 - Lists.owned l1)) by lia. done.
  - exists [is_none_str]. split_and!; [done|by apply sublist_skip, sublist_nil_l| |lia].
    change (zlen _) with 1. eapply (grown_lost _ _ 1); [|lia|lia].
    replace (1 + (Lists.owned l2 - Lists.owned acc + 1))
      with (1 + 1 + (Lists.owned l1 - Lists.owned acc) + (Lists.owned l2 - Lists.owned l1)) by lia. done.
  - exists [is_some_str]. split_and!; [done|by apply sublist_cons| |lia].
    change (zlen _) with 1. eapply (grown_lost _ _ 1); [|lia|lia].
    replace (1 + (Lists.owned l2 - Lists.owned acc + 1))
      with (1 + 1 + (Lists.owned l1 - Lists.owned acc) + (Lists.owned l2 - Lists.owned l1)) by lia. done.
  - exists []. rewrite app_nil_r. split_and!; [done|apply sublist_nil_l| |lia].
    change (zlen _) with 0. eapply (grown_lost _ _ 2); [|lia|lia].
    replace (2 + (Lists.owned l2 - Lists.owned acc + 0))
      with (1 + 1 + (Lists.owned l1 - Lists.owned acc) + (Lists.owned l2 - Lists.owned l1)) by lia. done.
Qed.

(** The second part of [ak_form_get_affordances]. *)
Lemma push_structural u g b acc ys s :
  rep u g b → list_wf acc ys → zlen ys + zlen (structural u) <= 2 ^ 31 →
  wp (match data g with
      | D_optional _ =>
          is_none ← copy_string is_none_str;
          is_some ← copy_string is_some_str;
          match is_none, is_some with
          | Some is_none, Some is_some =>
              '(_, acc) ← list_push_ acc is_none sizeof_pointer;
              '(_, acc) ← list_push_ acc is_some sizeof_pointer;
              mret acc
          | _, _ => mret acc
          end
      | D_repeatable _ => push_copies repeatable_names acc
      | D_list _ => push_copies list_names acc
      | D_map _ _ => push_copies map_names acc
      | D_struct _ field_names =>
          r ← list_while (R := False) field_names (λ field acc,
            acc ← push_copy field acc; mret (inl acc)) acc;
          mret (match r with inl acc => acc | inr e => False_rect _ e end)
      | _ => mret acc
      end) (copied acc ys (structural u) s) s.
Proof.
  intros [name affs n d al b' _ Hn] Hw Hlen. destruct n as [p|ts|o c].
  - inversion Hn; subst. wsteps. by apply copied_refl.
  - inversion Hn; subst. wsteps. by apply copied_refl.
  - destruct (rep_one_inv _ _ _ _ Hn) as (fc & b1 & b2 & Hh & _ & _). destruct o as [| |xs| |k|]; simpl in Hh.
    3:{ destruct Hh as (l & -> & Hl & _). simpl in *. apply wp_bind, (wp_list_while _ xs); [done|].
        eapply wp_mono; [by apply (each_field xs acc ys)|]. intros r s' (l' & -> & Hc). by wsteps. }
    all: destruct Hh as [-> _]; simpl in *.
    + by apply push_optional.
    + apply (push_copies_ok repeatable_names acc ys s Hw Hlen).
    + apply (push_copies_ok list_names acc ys s Hw Hlen).
    + apply (push_copies_ok map_names acc ys s Hw Hlen).
    + wsteps. by apply copied_refl.
Qed.

Lemma get_affordances_ok st t f b names s :
  rep t f b → sane t → affect_names st (affects_of (target t)) names →
  zlen names + zlen (structural (target t)) <= 2 ^ 31 →
  wp (ak_form_get_affordances st (Some f)) (λ l s',
    ∃ zs, list_wf l zs ∧ sublist zs (names ++ structural (target t))
      ∧ grown s s' (Lists.owned l + zlen zs)
      ∧ (m_fails s' = m_fails s → zs = names ++ structural (target t))) s.
Proof.
  intros Hr Hs Hn Hlen. destruct (current_target _ _ _ Hr Hs) as (g & b' & E & Hr').
  unfold ak_form_get_affordances. wsteps. rewrite E. wsteps.
  pose proof (zlen_nonneg (structural (target t))). pose proof (zlen_nonneg names).
  destruct (target t) as [nm affs n] eqn:Et. simpl in Hn.
  assert (list_wf (affects g) affs) as Hal by (by inversion Hr').
  apply (wp_list_while _ affs); [done|].
  eapply wp_mono; [apply (each_name st affs names _ []); [done|apply list_init_wf|change (zlen []) with 0; lia]|].
  intros r s1 (l1 & -> & (z1 & W1 & S1 & G1 & E1)). simpl in W1. pose proof (sublist_zlen _ _ S1) as Hz.
  eapply wp_mono; [by apply (push_structural _ _ _ l1 z1 s1 Hr' W1); lia|]. intros l s2 H2.
  pose proof (copied_trans _ [] names _ s l1 s1 l s2 z1 S1 G1 E1 H2) as (zs & W & S & G & Ex).
  exists zs. split_and!; [done|done| |done]. unfold Lists.owned in G at 2. simpl in G.
  by rewrite Z.sub_0_r in G.
Qed.

#[local] Arguments is_one_of : simpl never.
#[local] Arguments form_has_structural_affordance : simpl never.

Lemma strcmp_cstr (a b : cstr) : (strcmp (chars a) (chars b) =? 0) = bool_decide (a = b).
Proof.
  pose proof (cmp_fn_eq a b) as Hc. destruct (Z.eqb_spec (strcmp (chars a) (chars b)) 0) as [E|E];
    symmetry; [apply bool_decide_eq_true_2|apply bool_decide_eq_false_2]; by rewrite <- Hc.
Qed.

(** Searching the affects: the first with the name. *)
Lemma find_affect st affs names n s :
  affect_names st affs names →
  wp (each affs (λ a acc,
        found ← lift (affect_named st a n);
        mret (if found : bool then inr a else inl acc)) ())
    (λ r s', s' = s ∧ match r with
                      | inl _ => n ∉ names
                      | inr a => ∃ i, affs !! i = Some a ∧ names !! i = Some n
                          ∧ ∀ j, (j < i)%nat → names !! j ≠ Some n
                      end) s.
Proof.
  induction 1 as [|a m affs names (x & Hx & Hm) _ IH]; simpl.
  { wsteps. split; [done|apply not_elem_of_nil]. }
  wsteps. unfold affect_named, deref_affect. rewrite Hx. simpl. rewrite Hm, strcmp_cstr. simpl.
  destruct (bool_decide_reflect (m = n)) as [->|Hne]; wsteps.
  { split; [done|]. exists 0%nat. split_and!; [done|done|lia]. }
  eapply wp_mono; [exact IH|]. intros r s' [-> Hr]. split; [done|]. destruct r as [[]|a'].
  - apply not_elem_of_cons. split; [congruence|done].
  - destruct Hr as (i & H1 & H2 & H3). exists (S i). split_and!; [done|done|].
    intros [|j] Hj; simpl; [congruence|]. apply H3. lia.
Qed.

Lemma is_one_of_ok n names : is_one_of n names = bool_decide (n ∈ names).
Proof.
  induction names as [|m names IH]; [done|]. unfold is_one_of in *. simpl. rewrite IH, strcmp_cstr. destruct (bool_decide_reflect (n = m)) as [->|Hne]; simpl.
  - symmetry. apply bool_decide_eq_true_2. by left.
  - apply bool_decide_ext. rewrite elem_of_cons. tauto.
Qed.

Lemma find_field names n s :
  wp (each names (λ field (acc : ()), mret (if strcmp (chars n) (chars field) =? 0 then inr 1 else inl acc)) ())
    (λ r s', s' = s ∧ r = if bool_decide (n ∈ names) then inr 1 else inl ()) s.
Proof.
  induction names as [|m names IH]; simpl; wsteps; [done|]. rewrite strcmp_cstr.
  destruct (bool_decide_reflect (n = m)) as [->|Hne]; wsteps.
  - split; [done|]. rewrite bool_decide_eq_true_2; [done|by left].
  - eapply wp_mono; [exact IH|]. intros r s' [-> ->]. split; [done|].
    assert (bool_decide (n ∈ m :: names) = bool_decide (n ∈ names)) as ->; [|done].
    apply bool_decide_ext. rewrite elem_of_cons. tauto.
Qed.

Lemma get_affect_ok st t f b names n s :
  rep t f b → sane t → affect_names st (affects_of (target t)) names →
  wp (ak_form_get_affect st (Some f) (Some n))
    (λ r s', s' = s ∧ match r with
                      | None => n ∉ names
                      | Some a => ∃ i, affects_of (target t) !! i = Some a ∧ names !! i = Some n
                          ∧ ∀ j, (j < i)%nat → names !! j ≠ Some n
                      end) s.
Proof.
  intros Hr Hs Hn. destruct (current_target _ _ _ Hr Hs) as (g & b' & E & Hr').
  unfold ak_form_get_affect. wsteps. rewrite E. wsteps. destruct (target t) as [nm affs nd] eqn:Et.
  simpl in *. apply (wp_list_while _ affs); [by inversion Hr'|].
  eapply wp_mono; [by apply find_affect|]. intros [[]|a] s' [-> Hres]; wsteps; done.
Qed.

Lemma structural_ok t f b n s :
  rep t f b → sane t →
  wp (form_has_structural_affordance (Some f) (Some n))
    (λ r s', s' = s ∧ r = if bool_decide (n ∈ structural (target t)) then 1 else 0) s.
Proof.
  intros Hr Hs. destruct (current_target _ _ _ Hr Hs) as (g & b' & E & Hr').
  unfold form_has_structural_affordance. wsteps. rewrite E. wsteps.
  destruct Hr' as [nm affs nd d al b1 _ Hn]. simpl data. destruct nd as [p|ts|o c].
  - inversion Hn; subst. wsteps. split; [done|]. rewrite bool_decide_eq_false_2; [done|apply not_elem_of_nil].
  - inversion Hn; subst. wsteps. split; [done|]. rewrite bool_decide_eq_false_2; [done|apply not_elem_of_nil].
  - destruct (rep_one_inv _ _ _ _ Hn) as (fc & b2 & b3 & Hh & _ & _). destruct o as [| |xs| |k|]; simpl in Hh.
    3:{ destruct Hh as (l & -> & Hl & _). apply wp_bind, (wp_list_while _ xs); [done|].
        eapply wp_mono; [apply find_field|]. intros r s' [-> ->]. wsteps. split; [done|].
        unfold structural. simpl. by case_bool_decide. }
    all: destruct Hh as [-> _]; wsteps; (split; [done|]); rewrite ?is_one_of_ok; try done.
Qed.

Lemma has_affordance_ok st t f b names n s :
  rep t f b → sane t → affect_names st (affects_of (target t)) names →
  wp (ak_form_has_affordance st (Some f) (Some n))
    (λ r s', s' = s ∧ r = if bool_decide (n ∈ names ++ structural (target t)) then 1 else 0) s.
Proof.
  intros Hr Hs Hn. unfold ak_form_has_affordance, ak_form_has_affect. wsteps.
  eapply wp_mono; [by eapply get_affect_ok|]. intros [a|] s' [-> Hres]; apply wp_ret; simpl.
  - destruct Hres as (i & _ & Hi & _). apply wp_ret. split; [done|]. rewrite bool_decide_eq_true_2; [done|].
    apply elem_of_app. left. by eapply list_elem_of_lookup_2.
  - eapply wp_mono; [by eapply structural_ok|]. intros r s' [-> ->]. split; [done|].
    assert (bool_decide (n ∈ names ++ structural (target t)) = bool_decide (n ∈ structural (target t))) as ->; [|done].
    apply bool_decide_ext. rewrite elem_of_app. tauto.
Qed.
End affordances.

(** * Releasing *)

#[local] Arguments ak_affect_free : simpl never.

Section releasing.
Context `{Allocator}.

Definition lambda_blocks (x : ak_affect_t) : Z :=
  match lambda x with
  | Some _ => 1
  | None => 0
  end.

Definition affect_blocks (x : ak_affect_t) : Z :=
  1 + name_blocks (affect_name x) + lambda_blocks x + Lists.owned (parameter_forms x)
  + Lists.owned (also_includes x).

Definition affect_ok (x : ak_affect_t) : Prop :=
  (∃ ps, list_wf (parameter_forms x) ps) ∧ ∃ qs, list_wf (also_includes x) qs.

(** The lambdas of some affects. *)
Definition lambdas_in (st : fstore) (affs : list positive) : list positive :=
  concat ((λ a, option_list (affect_objs st !! a ≫= lambda)) <$> affs).

(** Live affects, each once, and so their lambdas. *)
Record owns_affects (st : fstore) (affs : list positive) : Prop := {
  oa_live : ∀ a, a ∈ affs → ∃ x, affect_objs st !! a = Some x ∧ affect_ok x;
  oa_nodup : NoDup affs;
  oa_lambdas : NoDup (lambdas_in st affs);
  oa_lambda_live : ∀ l, l ∈ lambdas_in st affs → is_Some (lambdas (lambdas_of st) !! l);
}.

Definition blocks_of (st : fstore) (affs : list positive) : Z :=
  sum ((λ a, match affect_objs st !! a with Some x => affect_blocks x | None => 0 end) <$> affs).

(** The affects [affs], their lambdas and [d] other blocks are released. *)
Record freed (st : fstore) (affs : list positive) (d : Z) (s : mem) (st' : fstore) (s' : mem) : Prop := {
  fr_gone : ∀ a, a ∈ affs → affect_objs st' !! a = None;
  fr_kept : ∀ a, a ∉ affs → affect_objs st' !! a = affect_objs st !! a;
  fr_lambda_gone : ∀ l, l ∈ lambdas_in st affs → lambdas (lambdas_of st') !! l = None;
  fr_lambda_kept : ∀ l, l ∉ lambdas_in st affs →
    lambdas (lambdas_of st') !! l = lambdas (lambdas_of st) !! l;
  fr_live : m_live s' = m_live s - d - blocks_of st affs;
  fr_fails : m_fails s' = m_fails s;
}.

Lemma lambdas_in_app st as1 as2 : lambdas_in st (as1 ++ as2) = lambdas_in st as1 ++ lambdas_in st as2.
Proof. unfold lambdas_in. by rewrite fmap_app, concat_app. Qed.

Lemma blocks_of_app st as1 as2 : blocks_of st (as1 ++ as2) = blocks_of st as1 + blocks_of st as2.
Proof. unfold blocks_of. by rewrite fmap_app, sum_blocks_app. Qed.

Lemma lambdas_in_same st st' affs :
  (∀ a, a ∈ affs → affect_objs st' !! a = affect_objs st !! a) → lambdas_in st' affs = lambdas_in st affs.
Proof.
  induction affs as [|a affs IH]; intros Hs; [done|]. unfold lambdas_in in *.
  rewrite !fmap_cons, !concat_cons, (Hs a) by (by left). f_equal. apply IH. intros a' Ha. apply Hs. by right.
Qed.

Lemma blocks_of_same st st' affs :
  (∀ a, a ∈ affs → affect_objs st' !! a = affect_objs st !! a) → blocks_of st' affs = blocks_of st affs.
Proof.
  induction affs as [|a affs IH]; intros Hs; [done|]. unfold blocks_of in *.
  rewrite !fmap_cons, !sum_cons, (Hs a) by (by left). f_equal. apply IH. intros a' Ha. apply Hs. by right.
Qed.

Lemma freed_refl st s : freed st [] 0 s st s.
Proof. split; try done; [by intros a ?%elem_of_nil..|]. unfold blocks_of. simpl. lia. Qed.

(** One batch after another. *)
Lemma owns_rest st as1 as2 d s st1 s1 :
  owns_affects st (as1 ++ as2) → freed st as1 d s st1 s1 →
  owns_affects st1 as2 ∧ lambdas_in st1 as2 = lambdas_in st as2 ∧ blocks_of st1 as2 = blocks_of st as2.
Proof.
  intros [O1 O2 O3 O4] [F1 F2 F3 F4 F5 F6]. apply list.NoDup_app in O2 as (N1 & N2 & N3).
  rewrite lambdas_in_app in O3, O4. apply list.NoDup_app in O3 as (M1 & M2 & M3).
  assert (∀ a, a ∈ as2 → affect_objs st1 !! a = affect_objs st !! a) as Hs.
  { intros a Ha. apply F2. intros Ha'. by apply (N2 a). }
  pose proof (lambdas_in_same st st1 as2 Hs) as El. split_and!; [|done|by apply blocks_of_same].
  split; [|done|by rewrite El|].
  - intros a Ha. rewrite Hs by done. apply O1, elem_of_app. by right.
  - intros l Hl. rewrite El in Hl. rewrite F4; [apply O4, elem_of_app; by right|]. intros Hl'. by apply (M2 l).
Qed.

Lemma freed_trans st as1 as2 d1 d2 s st1 s1 st2 s2 :
  owns_affects st (as1 ++ as2) → freed st as1 d1 s st1 s1 → freed st1 as2 d2 s1 st2 s2 →
  freed st (as1 ++ as2) (d1 + d2) s st2 s2.
Proof.
  intros Ho F G. destruct (owns_rest _ _ _ _ _ _ _ Ho F) as (_ & El & Eb).
  destruct F as [F1 F2 F3 F4 F5 F6], G as [G1 G2 G3 G4 G5 G6]. rewrite El in G3, G4. split.
  - intros a [Ha|Ha]%elem_of_app; [|by apply G1]. destruct (decide (a ∈ as2)) as [|Hn]; [by apply G1|].
    rewrite G2 by done. by apply F1.
  - intros a [H1 H2]%not_elem_of_app. by rewrite G2, F2.
  - intros l. rewrite lambdas_in_app. intros [Hl|Hl]%elem_of_app; [|by apply G3].
    destruct (decide (l ∈ lambdas_in st as2)) as [|Hn]; [by apply G3|]. rewrite G4 by done. by apply F3.
  - intros l. rewrite lambdas_in_app. intros [H1 H2]%not_elem_of_app. by rewrite G4, F4.
  - rewrite blocks_of_app. lia.
  - congruence.
Qed.

Lemma owns_prefix st as1 as2 : owns_affects st (as1 ++ as2) → owns_affects st as1.
Proof.
  intros [O1 O2 O3 O4]. apply list.NoDup_app in O2 as (N1 & _ & _). rewrite lambdas_in_app in O3, O4.
  apply list.NoDup_app in O3 as (M1 & _ & _). split; [|done|done|].
  - intros a Ha. apply O1, elem_of_app. by left.
  - intros l Hl. apply O4, elem_of_app. by left.
Qed.

(** More blocks that are not affects. *)
Lemma freed_more st affs d e s s0 st' s' s'' :
  freed st affs d s0 st' s' → m_live s0 = m_live s → m_fails s0 = m_fails s →
  m_live s'' = m_live s' - e → m_fails s'' = m_fails s' → freed st affs (d + e) s st' s''.
Proof. intros [F1 F2 F3 F4 F5 F6] H1 H2 H3 H4. split; try done; [lia|congruence]. Qed.

Lemma affect_free_ok st a s :
  owns_affects st [a] → wp (ak_affect_free st (Some a)) (λ st' s', freed st [a] 0 s st' s') s.
Proof.
  intros [O1 _ _ O4]. destruct (O1 a) as (x & Hx & (ps & Hps) & (qs & Hqs)); [by left|].
  assert (lambdas_in st [a] = option_list (lambda x)) as El.
  { unfold lambdas_in. simpl. by rewrite Hx, app_nil_r. }
  rewrite El in O4. unfold ak_affect_free, deref_affect. rewrite Hx. wsteps.
  eapply (wp_mono _ (λ _ s1, m_live s1 = m_live s - name_blocks (affect_name x) ∧ m_fails s1 = m_fails s)).
  { destruct (affect_name x); [apply wp_free_obj; by intros|wsteps; simpl; lia]. }
  intros _ s1 [HL1 HF1]. wsteps.
  eapply (wp_mono _ (λ lams s2, (∀ l, l ∈ option_list (lambda x) → lambdas lams !! l = None)
    ∧ (∀ l, l ∉ option_list (lambda x) → lambdas lams !! l = lambdas (lambdas_of st) !! l)
    ∧ m_live s2 = m_live s1 - lambda_blocks x ∧ m_fails s2 = m_fails s1)).
  { unfold lambda_blocks. destruct (lambda x) as [l|]; simpl in *.
    - eapply wp_mono; [apply wp_lambda_free, O4; by left|]. intros lams s2 (-> & _ & HL & HF).
      split_and!; [|..|done|done].
      + intros k ->%list_elem_of_singleton. apply lookup_delete_eq.
      + intros k Hk. apply lookup_delete_ne. intros ->. apply Hk. by left.
    - wsteps. split_and!; [by intros l ?%elem_of_nil|done|lia|done]. }
  intros lams s2 (Hin & Hout & HL2 & HF2). wsteps.
  eapply wp_mono; [by apply (list_deinit_ok _ ps)|]. intros _ s3 (_ & _ & HL3 & HF3). wsteps.
  eapply wp_mono; [by apply (list_deinit_ok _ qs)|]. intros _ s4 (_ & _ & HL4 & HF4). wsteps.
  apply wp_free_obj. intros s5 HL5 HF5. wsteps. split; simpl; rewrite ?El.
  - intros b ->%list_elem_of_singleton. apply lookup_delete_eq.
  - intros b Hb. apply lookup_delete_ne. intros ->. apply Hb. by left.
  - done.
  - done.
  - unfold blocks_of. simpl. rewrite Hx. unfold affect_blocks. lia.
  - congruence.
Qed.

Lemma free_affects_ok st (al : list_base_t positive) affs s :
  list_wf al affs → owns_affects st affs →
  wp (free_all (λ st a, ak_affect_free st (Some a)) st al) (λ st' s', freed st affs 0 s st' s') s.
Proof.
  intros Hal Ho. unfold free_all. apply wp_bind, (wp_list_while al affs); [done|]. clear Hal al.
  revert st s Ho. induction affs as [|a affs IH]; intros st s Ho; simpl; wsteps; [apply freed_refl|].
  change (a :: affs) with ([a] ++ affs) in *. pose proof (owns_prefix _ _ _ Ho) as Ha.
  eapply wp_mono; [by apply affect_free_ok|]. intros st1 s1 F1. wsteps.
  destruct (owns_rest _ _ _ _ _ _ _ Ho F1) as (Ho' & _).
  eapply wp_mono; [by apply IH|]. intros [st2|[]] s2 F2; wsteps; unfold wp, mret, M_ret in *.
  apply (freed_trans st [a] affs 0 0 s st1 s1 st2 s2 Ho F1 F2).
Qed.

(** The affects of a form, in the order in which they are freed. *)
Fixpoint all_affects (t : tree) : list positive :=
  match t with
  | mk_tree _ affs n =>
      match n with
      | N_primitive _ => []
      | N_compound ts => (fix go ts := match ts with
                                       | [] => []
                                       | t :: ts => all_affects t ++ go ts
                                       end) ts
      | N_one _ None => []
      | N_one _ (Some t) => all_affects t
      end ++ affs
  end.

Definition inner_affects (c : option tree) : list positive :=
  match c with
  | Some t => all_affects t
  | None => []
  end.

Definition node_affects (n : node) : list positive :=
  match n with
  | N_primitive _ => []
  | N_compound ts => concat (all_affects <$> ts)
  | N_one _ c => inner_affects c
  end.

Lemma all_affects_node name affs n : all_affects (mk_tree name affs n) = node_affects n ++ affs.
Proof.
  destruct n as [p|ts|o [t|]]; try done. simpl. f_equal. induction ts as [|t ts IH]; [done|].
  rewrite fmap_cons. cbn [concat]. by rewrite <- IH.
Qed.

(** Releasing something that is not an affect, afterwards. *)
Lemma wp_freed_obj st affs d s st' s' :
  freed st affs d s st' s' → wp free_obj (λ _ s'', freed st affs (d + 1) s st' s'') s'.
Proof. intros Hf. apply wp_free_obj. intros s'' HL HF. by apply (freed_more _ _ _ _ _ s _ s'). Qed.

Lemma wp_freed_list {T} (l : list_base_t T) xs st affs d s st' s' :
  freed st affs d s st' s' → list_wf l xs →
  wp (list_deinit_ l) (λ _ s'', freed st affs (d + Lists.owned l) s st' s'') s'.
Proof.
  intros Hf Hl. eapply wp_mono; [by apply (list_deinit_ok l xs)|]. intros _ s'' (_ & _ & HL & HF).
  apply (freed_more _ _ _ _ _ s _ s'); [done|done|done|lia|done].
Qed.

(** The parts of a compound form, when each can be freed. *)
Lemma free_parts_ok fuel (ts : list tree) (fbs : list (ak_form_t * Z)) parts st s :
  list_wf parts ((λ fb, Some fb.1) <$> fbs) →
  Forall2 (λ t fb, ∀ st s, owns_affects st (all_affects t) →
    wp (ak_form_free fuel st (Some fb.1)) (λ st' s', freed st (all_affects t) fb.2 s st' s') s) ts fbs →
  owns_affects st (concat (all_affects <$> ts)) →
  wp (free_all (ak_form_free fuel) st parts)
    (λ st' s', freed st (concat (all_affects <$> ts)) (sum (fbs.*2)) s st' s') s.
Proof.
  intros Hw Hall Ho. unfold free_all. apply wp_bind. eapply wp_list_while; [exact Hw|]. clear Hw parts.
  revert st s Ho. induction Hall as [|t fb ts fbs Hfree _ IH]; intros st s Ho.
  { simpl. wsteps. apply freed_refl. }
  rewrite !fmap_cons in *. cbn [concat] in *. cbn [each]. rewrite sum_cons. wsteps.
  eapply wp_mono; [apply Hfree; by eapply owns_prefix|]. intros st1 s1 F1. wsteps.
  destruct (owns_rest _ _ _ _ _ _ _ Ho F1) as (Ho' & _).
  eapply wp_mono; [by apply IH|]. intros [st2|[]] s2 F2; unfold wp, mret, M_ret in *.
  by apply (freed_trans st _ _ _ _ s st1 s1 st2 s2 Ho F1 F2).
Qed.

(** The union, as in [ak_form_free]. *)
Definition free_data (fuel : nat) (st : fstore) (data : form_data) : M fstore :=
  match data with
  | D_primitive _ => mret st
  | D_compound parts => st ← free_all (ak_form_free fuel) st parts; _ ← list_deinit_ parts; mret st
  | D_optional inner => ak_form_free fuel st inner
  | D_repeatable inner => ak_form_free fuel st inner
  | D_struct pattern field_names =>
      st ← ak_form_free fuel st pattern; _ ← list_deinit_ field_names; mret st
  | D_list element_type => ak_form_free fuel st element_type
  | D_map _ value_type => ak_form_free fuel st value_type
  | D_named actual_form => ak_form_free fuel st actual_form
  end.

Lemma free_data_ok fuel n d b st s name al :
  rep_node n d b → (height (mk_form name d al) <= fuel)%nat →
  (∀ c fc b st s, rep_opt c fc b → (inner_height fc < fuel)%nat → owns_affects st (inner_affects c) →
     wp (ak_form_free fuel st fc) (λ st' s', freed st (inner_affects c) b s st' s') s) →
  owns_affects st (node_affects n) →
  wp (free_data fuel st d) (λ st' s', freed st (node_affects n) b s st' s') s.
Proof.
  intros Hn Hf IH Ho. destruct n as [p|ts|o c].
  - inversion Hn; subst. simpl. wsteps. apply freed_refl.
  - inversion Hn as [|ts' fbs parts Hw Hrep| |]; subst. simpl. wsteps.
    eapply wp_mono; [apply (free_parts_ok fuel ts fbs); [done| |done]|].
    + apply (Forall2_elem _ _ _ _ Hrep). intros t fb Hin Hr st0 s0 Ho0.
      apply (IH (Some t) (Some fb.1) fb.2); [by constructor| |done]. simpl.
      pose proof (part_height fbs parts fb name al Hw Hin). lia.
    + intros st1 s1 F1. wsteps. eapply wp_mono; [apply (wp_freed_list _ _ _ _ _ _ _ _ F1 Hw)|]. intros ? s2 F2. wsteps.
      by rewrite Z.add_comm.
  - destruct (rep_one_inv _ _ _ _ Hn) as (fc & b1 & b2 & Hh & Hr & ->). simpl in Ho.
    pose proof (inner_height_child _ _ _ _ name al Hh) as Hlt.
    assert (wp (ak_form_free fuel st fc) (λ st' s', freed st (inner_affects c) b2 s st' s') s) as Hc
      by (eapply IH; [done|lia|done]).
    destruct o as [| |xs| |k|]; simpl in Hh; try (destruct Hh as [-> ->]; simpl; by rewrite ?Z.add_0_l).
    destruct Hh as (l & -> & Hl & ->). simpl. wsteps. eapply wp_mono; [exact Hc|]. intros st1 s1 F1. wsteps.
    eapply wp_mono; [apply (wp_freed_list _ _ _ _ _ _ _ _ F1 Hl)|]. intros ? s2 F2. wsteps. by rewrite Z.add_comm.
Qed.

Lemma free_ok fuel c fc b st s :
  rep_opt c fc b → (inner_height fc < fuel)%nat → owns_affects st (inner_affects c) →
  wp (ak_form_free fuel st fc) (λ st' s', freed st (inner_affects c) b s st' s') s.
Proof.
  revert c fc b st s. induction fuel as [|fuel IH]; intros c fc b st s Hr Hf Ho; [lia|].
  destruct Hr as [|t f b Hr]; [simpl; wsteps; apply freed_refl|].
  destruct Hr as [name affs n d al b' Hal Hn]. unfold inner_affects in *. rewrite all_affects_node in *.
  change (ak_form_free (S fuel) st (Some (mk_form name d al))) with
    (_ ← match name with Some _ => free_obj | None => mret () end;
     st ← free_data fuel st d;
     st ← free_all (λ st a, ak_affect_free st (Some a)) st al;
     _ ← list_deinit_ al;
     _ ← free_obj;
     mret st). wsteps.
  eapply (wp_mono _ (λ _ s1, m_live s1 = m_live s - name_blocks name ∧ m_fails s1 = m_fails s)).
  { destruct name; [apply wp_free_obj; by intros|wsteps; simpl; lia]. }
  intros _ s1 [HL1 HF1]. wsteps.
  eapply wp_mono; [apply (free_data_ok fuel n d b' st s1 name al Hn)|].
  { unfold inner_height in Hf. lia. }
  { intros c0 fc0 b0 st0 s0. apply IH. }
  { by eapply owns_prefix. }
  intros st2 s2 F2. wsteps. destruct (owns_rest _ _ _ _ _ _ _ Ho F2) as (Ho' & _).
  eapply wp_mono; [by eapply free_affects_ok|]. intros st3 s3 F3. wsteps.
  pose proof (freed_trans _ _ _ _ _ _ _ _ _ _ Ho F2 F3) as F.
  eapply wp_mono; [apply (wp_freed_list _ _ _ _ _ _ _ _ F Hal)|]. intros ? s4 F4. wsteps.
  eapply wp_mono; [apply (wp_freed_obj _ _ _ _ _ _ F4)|]. intros ? s5 [G1 G2 G3 G4 G5 G6]. wsteps.
  split; try done; [lia|congruence].
Qed.

(** ** Affects that are gone *)

Definition all_dead (st : fstore) (affs : list positive) : Prop :=
  ∀ a, a ∈ affs → affect_objs st !! a = None.

(** A run that follows a dead pointer, however it starts. *)
Definition undefined {A} (m : M A) (s : mem) : Prop := m s = Undef.

Lemma undefined_bind {A B} (f : A → M B) (m : M A) s : undefined m s → undefined (m ≫= f) s.
Proof. unfold undefined, mbind, M_bind. by intros ->. Qed.

Lemma undefined_after {A B} (f : A → M B) (m : M A) Q s :
  wp m Q s → (∀ a s', Q a s' → undefined (f a) s') → undefined (m ≫= f) s.
Proof. unfold wp, undefined, mbind, M_bind. destruct (m s) as [[a s']| |]; auto; done. Qed.

Lemma no_affects st : owns_affects st [].
Proof. split; [by intros a ?%elem_of_nil|constructor|constructor|by intros l ?%elem_of_nil]. Qed.

Lemma all_dead_freed st s st' s' d affs : freed st [] d s st' s' → all_dead st affs → all_dead st' affs.
Proof. intros F Hd a Ha. rewrite (fr_kept _ _ _ _ _ _ F); [by apply Hd|apply not_elem_of_nil]. Qed.

(** [f] on [x] follows a dead pointer when some affect of [affs] is to be freed and
    all are gone, and is harmless when there is none. *)
Definition dead_or_none {T} (f : fstore → T → M fstore) (x : T) (affs : list positive) : Prop :=
  (∀ st s, all_dead st affs → affs ≠ [] → undefined (f st x) s)
  ∧ (∀ st s, affs = [] → wp (f st x) (λ st' s', ∃ d, freed st [] d s st' s') s).

Lemma free_all_dead {T} (f : fstore → T → M fstore) l xs ass st s :
  list_wf l xs → Forall2 (dead_or_none f) xs ass → all_dead st (concat ass) → concat ass ≠ [] →
  undefined (free_all f st l) s.
Proof.
  intros Hl Hall Hd Hne. unfold free_all. apply undefined_bind. unfold undefined.
  rewrite (list_while_each l xs) by done. clear Hl l. revert st s Hd Hne.
  induction Hall as [|x affs xs ass [Hbad Hgood] _ IH]; intros st s Hd Hne; [done|].
  cbn [concat each] in *. destruct affs as [|a affs].
  - apply (undefined_after _ _ (λ r s', ∃ st' d, r = inl st' ∧ freed st [] d s st' s')).
    + apply wp_bind. eapply wp_mono; [by apply Hgood|]. intros st' s' [d Hf].
      apply wp_ret. by exists st', d.
    + intros r s' (st' & d & -> & Hf). apply IH; [|done]. by eapply all_dead_freed.
  - apply undefined_bind, undefined_bind, Hbad; [|done].
    intros b Hb. apply Hd, elem_of_app. by left.
Qed.

Lemma concat_singletons {A} (xs : list A) : concat ((λ x, [x]) <$> xs) = xs.
Proof. induction xs as [|x xs IH]; [done|]. rewrite fmap_cons. cbn [concat]. by rewrite IH. Qed.

Lemma free_affects_dead st (al : list_base_t positive) affs s :
  list_wf al affs → all_dead st affs → affs ≠ [] →
  undefined (free_all (λ st a, ak_affect_free st (Some a)) st al) s.
Proof.
  intros Hal Hd Hne. apply (free_all_dead _ al affs ((λ a, [a]) <$> affs)); rewrite ?concat_singletons; try done.
  apply Forall2_fmap_r, Forall_Forall2_diag, Forall_true. intros a. split; [|done].
  intros st0 s0 Ha _. unfold ak_affect_free, deref_affect. apply undefined_bind. unfold undefined, lift.
  by rewrite (Ha a) by (by left).
Qed.

(** Freeing a form whose affects are gone follows a dead pointer. *)
Lemma free_dead fuel c fc b st s :
  rep_opt c fc b → (inner_height fc < fuel)%nat → all_dead st (inner_affects c) → inner_affects c ≠ [] →
  undefined (ak_form_free fuel st fc) s.
Proof.
  revert c fc b st s. induction fuel as [|fuel IH]; intros c fc b st s Hr Hf Hd Hne; [lia|].
  destruct Hr as [|t f b Hr]; [done|].
  destruct Hr as [name affs n d al b' Hal Hn]. unfold inner_affects in *. rewrite all_affects_node in *.
  change (ak_form_free (S fuel) st (Some (mk_form name d al))) with
    (_ ← match name with Some _ => free_obj | None => mret () end;
     st ← free_data fuel st d;
     st ← free_all (λ st a, ak_affect_free st (Some a)) st al;
     _ ← list_deinit_ al;
     _ ← free_obj;
     mret st).
  apply (undefined_after _ _ (λ _ _, True)).
  { destruct name; [by apply wp_free_obj|by apply wp_ret]. }
  intros _ s1 _. destruct (decide (node_affects n = [])) as [E|E].
  - apply (undefined_after _ _ (λ st' s', freed st [] b' s1 st' s')).
    + rewrite <- E. apply (free_data_ok fuel n d b' st s1 name al Hn).
      * unfold inner_height in Hf. lia.
      * intros c0 fc0 b0 st0 s0. apply free_ok.
      * rewrite E. apply no_affects.
    + intros st2 s2 F2. apply undefined_bind. rewrite E in Hd, Hne. apply (free_affects_dead _ _ affs); [done| |done].
      by eapply all_dead_freed.
  - apply undefined_bind. assert (all_dead st (node_affects n)) as Hd'.
    { intros a Ha. apply Hd, elem_of_app. by left. }
    clear Hd Hne. destruct n as [p|ts|o c].
    + done.
    + inversion Hn as [|ts' fbs parts Hw Hrep| |]; subst. cbn [node_affects free_data] in *. apply undefined_bind.
      apply (free_all_dead _ parts _ (all_affects <$> ts) _ _ Hw); [|done|done].
      apply Forall2_fmap_l, Forall2_fmap_r, Forall2_flip.
      apply (Forall2_elem _ _ _ _ Hrep). intros t fb Hin Hr.
      pose proof (part_height fbs parts fb name al Hw Hin) as Hlt. unfold inner_height in Hf.
      split; intros st0 s0.
      * apply (IH (Some t) (Some fb.1) fb.2); [by constructor|simpl; lia].
      * intros Ea. eapply wp_mono; [apply (free_ok fuel (Some t) (Some fb.1) fb.2)|].
        -- by constructor.
        -- simpl. lia.
        -- simpl. rewrite Ea. apply no_affects.
        -- intros st' s' Hfr. simpl in Hfr. rewrite Ea in Hfr. by exists fb.2.
    + destruct (rep_one_inv _ _ _ _ Hn) as (fc & b1 & b2 & Hh & Hr & ->).
      pose proof (inner_height_child _ _ _ _ name al Hh) as Hlt. cbn [node_affects] in *.
      assert (undefined (ak_form_free fuel st fc) s1) as Hu by (eapply IH; [done|unfold inner_height in Hf; lia|done..]).
      destruct o as [| |xs| |k|]; simpl in Hh; try (destruct Hh as [-> ->]; exact Hu).
      destruct Hh as (l & -> & Hl & ->). by apply undefined_bind.
Qed.
End releasing.

(** * The theorems *)

Section theorems.
Context `{Allocator}.

(** C40: Comparison of two forms in which no named form names null ([sane]).  A copy made
    while an allocation fails may have one that does, and comparing it is undefined.
    The forms are compatible, and match as patterns, exactly when both have a shape
    and it is the same one: names and affects do not count, of field names only the
    number, and a named form stands for what it names, one level deep.  A named form
    that names a named form has no shape, nor has a form in which something is
    missing, so a form that contains one is compatible with nothing, itself
    included. *)
Theorem ak_form_is_compatible_spec t1 f1 b1 t2 f2 b2 :
  rep t1 f1 b1 → rep t2 f2 b2 → sane t1 → sane t2 →
  ∃ e, ak_form_is_compatible (Some f1) (Some f2) = Ret e
    ∧ ak_form_matches_pattern (Some f1) (Some f2) = Ret e
    ∧ ((e = 1 ∧ same_shape t1 t2) ∨ (e = 0 ∧ ¬ same_shape t1 t2)).
Proof.
  intros R1 R2 S1 S2. pose proof (equal_ok (S (height f1)) t1 f1 b1 t2 f2 b2 R1 R2 S1 S2 ltac:(lia)) as Hw.
  unfold ak_form_is_compatible, ak_form_matches_pattern, height_of.
  destruct (forms_structurally_equal _ _ _) as [e| |]; [|done..]. by exists e.
Qed.

(** The constructors.  Each answers a form of its kind around a copy of what it
    is given: the same tree, in blocks of its own, which are exactly the blocks
    allocated when no allocation fails.  If one fails the answer is a null pointer
    and nothing is kept, or a well-formed form that lacks something. *)
Theorem ak_form_new_spec t f b s :
  rep t f b →
  wp (ak_form_new_optional (Some f)) (cloned (Some (bare (N_one O_optional (Some t)))) s) s
  ∧ wp (ak_form_new_repeatable (Some f)) (cloned (Some (bare (N_one O_repeatable (Some t)))) s) s
  ∧ wp (ak_form_new_list (Some f)) (cloned (Some (bare (N_one O_list (Some t)))) s) s
  ∧ (∀ k, wp (ak_form_new_map k (Some f)) (cloned (Some (bare (N_one (O_map k) (Some t)))) s) s)
  ∧ (∀ name, wp (ak_form_new_named (Some name) (Some f))
       (cloned (Some (mk_tree (Some name) [] (N_one O_named (Some t)))) s) s)
  ∧ (∀ l xs, list_wf l xs → wp (ak_form_new_struct (Some f) (Some l))
       (cloned (Some (bare (N_one (O_struct xs) (Some t)))) s) s)
  ∧ (∀ parts ts fbs, parts_rep parts ts fbs → wp (ak_form_new_compound (Some parts))
       (cloned (Some (bare (N_compound ts))) s) s)
  ∧ (∀ p, wp (ak_form_new_primitive p) (cloned (Some (bare (N_primitive p))) s) s).
Proof.
  intros Hr. split_and!.
  - by apply (new_one O_optional t f b D_optional).
  - by apply (new_one O_repeatable t f b D_repeatable).
  - by apply (new_one O_list t f b D_list).
  - intros k. by apply (new_one (O_map k) t f b (D_map k)).
  - intros name. by eapply new_named.
  - intros l xs Hl. by eapply new_struct.
  - intros parts ts fbs Hp. by eapply new_compound.
  - intros p. apply new_primitive.
Qed.

(** Affordances.  A form affords a name exactly when the list of its affordances
    has it: the names of its affects, then those of its kind.  The list is made of
    copies; a failed allocation leaves names out and nothing else. *)
Theorem ak_form_affordances_spec st t f b names s :
  rep t f b → sane t → affect_names st (affects_of (target t)) names →
  zlen names + zlen (structural (target t)) <= 2 ^ 31 →
  (∀ n s, wp (ak_form_has_affordance st (Some f) (Some n))
     (λ r s', s' = s ∧ r = if bool_decide (n ∈ names ++ structural (target t)) then 1 else 0) s)
  ∧ wp (ak_form_get_affordances st (Some f)) (λ l s', ∃ zs, list_wf l zs
      ∧ sublist zs (names ++ structural (target t)) ∧ grown s s' (Lists.owned l + zlen zs)
      ∧ (m_fails s' = m_fails s → zs = names ++ structural (target t))) s.
Proof.
  intros Hr Hs Hn Hlen. split; [|by eapply get_affordances_ok].
  intros n s0. by eapply has_affordance_ok.
Qed.

(** Freeing.  A form is freed with all its blocks, its affects and their
    lambdas, each once.  A copy of it then has affects that are gone, and to free
    the copy as well is undefined: copies share affects. *)
Theorem ak_form_free_spec st t f b g b' s :
  rep t f b → rep t g b' → owns_affects st (all_affects t) →
  wp (form_free st (Some f)) (λ st' s', freed st (all_affects t) b s st' s'
    ∧ (all_affects t ≠ [] → form_free st' (Some g) s' = Undef)) s.
Proof.
  intros Rf Rg Ho. eapply wp_mono; [apply (free_ok _ (Some t) (Some f) b); [by constructor|simpl; lia|done]|].
  intros st' s' Hf. split; [done|]. intros Hne. apply (free_dead _ (Some t) (Some g) b'); [by constructor|simpl; lia| |done].
  intros a Ha. by apply (fr_gone _ _ _ _ _ _ Hf).
Qed.
End theorems.

(** * Witnesses *)

#[local] Existing Instance always_alloc.

Definition w_byte : ak_form_t := mk_form None (D_primitive AK_FORM_PRIMITIVE_BYTE) (list_init 8).
Definition w_affects : list_base_t positive := mk_list (Some (Some 1%positive :: replicate 7 None)) 8 1 8.
Definition w_optional : ak_form_t := mk_form None (D_optional (Some w_byte)) w_affects.
Definition w_byte_tree : tree := bare (N_primitive AK_FORM_PRIMITIVE_BYTE).
Definition w_tree : tree := mk_tree None [1%positive] (N_one O_optional (Some w_byte_tree)).
Definition w_affect : ak_affect_t := mk_affect (Some get_str) None (list_init 8) 0 (list_init 8).
Definition w_fstore : fstore := mk_fstore {[ 1%positive := w_affect ]} 2 wstore0.

Lemma w_byte_rep : rep w_byte_tree w_byte 1.
Proof. apply (rep_bare None _ _ 0). constructor. Qed.

Lemma w_affects_wf : list_wf w_affects [1%positive].
Proof.
  split; [right; by exists 3|done|done| |done]. by exists (replicate 7 None).
Qed.

Lemma w_rep : rep w_tree w_optional 4.
Proof.
  apply (rep_form None _ _ _ w_affects 1); [apply w_affects_wf|].
  apply (rep_some O_optional _ _ w_byte 0 1); [done|apply w_byte_rep].
Qed.

Lemma ak_form_is_compatible_spec_witness :
  ∃ e, ak_form_is_compatible (Some w_optional) (Some w_byte) = Ret e
    ∧ ak_form_matches_pattern (Some w_optional) (Some w_byte) = Ret e
    ∧ ((e = 1 ∧ same_shape w_tree w_byte_tree) ∨ (e = 0 ∧ ¬ same_shape w_tree w_byte_tree)).
Proof.
  apply (ak_form_is_compatible_spec w_tree w_optional 4 w_byte_tree w_byte 1);
    [apply w_rep|apply w_byte_rep|done|done].
Defined.

Lemma ak_form_new_spec_witness :
  wp (ak_form_new_optional (Some w_optional)) (cloned (Some (bare (N_one O_optional (Some w_tree)))) mem0) mem0.
Proof. apply (ak_form_new_spec w_tree w_optional 4 mem0 w_rep). Defined.

Lemma w_names : affect_names w_fstore [1%positive] [get_str].
Proof. constructor; [|constructor]. by exists w_affect. Qed.

Lemma ak_form_affordances_spec_witness :
  wp (ak_form_has_affordance w_fstore (Some w_optional) (Some get_str))
    (λ r s', s' = mem0 ∧ r = if bool_decide (get_str ∈ [get_str; is_none_str; is_some_str]) then 1 else 0) mem0.
Proof.
  destruct (ak_form_affordances_spec w_fstore w_tree w_optional 4 [get_str] mem0 w_rep) as [Hh _];
    [done|apply w_names|done|]. apply (Hh get_str mem0).
Defined.

Lemma w_owns : owns_affects w_fstore [1%positive].
Proof.
  split.
  - intros a ->%list_elem_of_singleton. exists w_affect. split; [done|]. split; exists []; apply list_init_wf.
  - apply NoDup_singleton.
  - constructor.
  - intros l Hl. by apply elem_of_nil in Hl.
Qed.

Lemma ak_form_free_spec_witness :
  wp (form_free w_fstore (Some w_optional)) (λ st' s', freed w_fstore [1%positive] 4 mem0 st' s'
    ∧ ([1%positive] ≠ [] → form_free st' (Some w_optional) s' = Undef)) mem0.
Proof. apply (ak_form_free_spec w_fstore w_tree w_optional 4 w_optional 4 mem0 w_rep w_rep w_owns). Defined.

(** When the inner allocation fails, a named form may come to name nothing, and
    comparing it then follows a null pointer. *)
Definition fails_at (k : nat) : Allocator := {|
  alloc_ok n _ := negb (n =? k)%nat;
  alloc_fill _ _ := 0;
|}.

Example clone_of_named_form :
  match @ak_form_new_optional (fails_at 2) (Some (mk_form None (D_named (Some w_byte)) (list_init 8))) mem0 with
  | Ret (Some (mk_form _ (D_optional (Some f)) _), _) => ak_form_is_compatible (Some f) (Some w_byte) = Undef
  | _ => False
  end.
Proof. reflexivity. Qed.
