(* ===== verification/Primitives.v ===== *)
(** Built-in forms and the values of forms: [kernel/forms/src/forms_primitives.c],
    and the part of [forms.c] that keeps forms in a context.

    A context maps names to pointers to forms ([Contexts]), so the forms a root
    context creates live in a store, [world].  The functions of the built-in
    affects are given the object behind their captured context: the cell for the
    result, [None] when the context is null. *)

From stdpp Require Import gmap.
From S2P Require Import Prelude Lists Maps Contexts Lambdas Forms.
From Stdlib Require String.
Import Stdlib.Strings.String.StringSyntax.
#[local] Delimit Scope string_scope with str.

(** * Forms in contexts *)

(** A pointer as the value of a binding, and back. *)
Definition to_value (p : positive) : Contexts.value_t := Z.pos p.
Definition of_value (v : Contexts.value_t) : option positive :=
  match v with
  | Z.pos p => Some p
  | _ => None
  end.

Section registry.
Context `{Allocator}.

Definition ak_form_register (st : Contexts.store) (ctx : option positive) (name : option cstr)
    (form : option positive) : M (Z * Contexts.store) :=
  match ctx, name, form with
  | Some _, Some _, Some p => Contexts.ak_context_set st ctx name (to_value p)
  | _, _, _ => mret (-1, st)
  end.

Definition ak_form_lookup (st : Contexts.store) (ctx : option positive) (name : option cstr)
    : outcome (option positive) :=
  match ctx, name with
  | Some _, Some _ => v ← Contexts.ak_context_get st ctx name; Ret (of_value v)
  | _, _ => Ret None
  end.

Definition ak_form_lookup_local (st : Contexts.store) (ctx : option positive) (name : option cstr)
    : outcome (option positive) :=
  match ctx, name with
  | Some _, Some _ => v ← Contexts.ak_context_get_local st ctx name; Ret (of_value v)
  | _, _ => Ret None
  end.

(** * Root contexts *)

Record root_form_ctx_t := mk_root { root_ctx : option positive }.

Record world := mk_world {
  w_contexts : Contexts.store;
  w_forms : gmap positive ak_form_t;
  next_form : positive;
  w_affects : fstore;
}.

Definition sizeof_root_form_ctx_t : Z := 8.

Definition with_contexts (w : world) (st : Contexts.store) : world :=
  mk_world st (w_forms w) (next_form w) (w_affects w).

Definition deref_form (w : world) (p : positive) : outcome ak_form_t :=
  match w_forms w !! p with
  | Some f => Ret f
  | None => Undef
  end.

(** [ak_form_free] of a form in the store. *)
Definition free_form_at (w : world) (p : positive) : M world :=
  f ← lift (deref_form w p);
  st ← form_free (w_affects w) (Some f);
  mret (mk_world (w_contexts w) (delete p (w_forms w)) (next_form w) st).

Definition ak_root_form_ctx_new (w : world) : M (option root_form_ctx_t * world) :=
  ok ← alloc_obj sizeof_root_form_ctx_t;
  if negb ok then mret (None, w) else
  '(ctx, st) ← Contexts.ak_context_new (w_contexts w);
  match ctx with
  | None => _ ← free_obj; mret (None, w)
  | Some _ => mret (Some (mk_root ctx), with_contexts w st)
  end.

(** Every key of the map, and the form bound to it. *)
Definition free_bound_forms (w : world) (m : map_base_t cstr Contexts.value_t) : M world :=
  loopM (S (length (nodes m))) (λ '(iter, w),
    '(key, iter) ← lift (map_next_ m iter);
    match key with
    | None => mret (inr w)
    | Some key =>
        value ← lift (map_get_ m key);
        match value ≫= of_value with
        | Some p => w ← free_form_at w p; mret (inl (iter, w))
        | None => mret (inl (iter, w))
        end
    end) (map_iter_, w).

Definition ak_root_form_ctx_free (w : world) (root : option root_form_ctx_t) : M world :=
  match root with
  | None => mret w
  | Some root =>
      w ← match root_ctx root with
          | None => mret w
          | Some p =>
              c ← lift (Contexts.deref (w_contexts w) p);
              w ← free_bound_forms w (Contexts.data c);
              st ← Contexts.ak_context_free (w_contexts w) (Some p);
              mret (with_contexts w st)
          end;
      _ ← free_obj;
      mret w
  end.

Definition root_form_ctx_get_or_create (w : world) (root : option root_form_ctx_t) (name : cstr)
    (type : ak_form_primitive_type_e) : M (option positive * world) :=
  match root ≫= root_ctx with
  | None => mret (None, w)
  | Some c =>
      form ← lift (ak_form_lookup_local (w_contexts w) (Some c) (Some name));
      match form with
      | Some p => mret (Some p, w)
      | None =>
          form ← ak_form_new_primitive type;
          match form with
          | None => mret (None, w)
          | Some f =>
              let p := next_form w in
              let w := mk_world (w_contexts w) (<[p := f]> (w_forms w)) (Pos.succ p) (w_affects w) in
              '(rc, st) ← ak_form_register (w_contexts w) (Some c) (Some name) (Some p);
              let w := with_contexts w st in
              if negb (rc =? 0) then w ← free_form_at w p; mret (None, w) else
              mret (Some p, w)
          end
      end
  end.

Definition ak_root_form_ctx_get_bool w root := root_form_ctx_get_or_create w root
  (mk_cstr (bytes_of "bool"%str) eq_refl) AK_FORM_PRIMITIVE_U8.
Definition ak_root_form_ctx_get_u8 w root := root_form_ctx_get_or_create w root
  (mk_cstr (bytes_of "u8"%str) eq_refl) AK_FORM_PRIMITIVE_U8.
Definition ak_root_form_ctx_get_u16 w root := root_form_ctx_get_or_create w root
  (mk_cstr (bytes_of "u16"%str) eq_refl) AK_FORM_PRIMITIVE_U16.
Definition ak_root_form_ctx_get_u32 w root := root_form_ctx_get_or_create w root
  (mk_cstr (bytes_of "u32"%str) eq_refl) AK_FORM_PRIMITIVE_U32.
Definition ak_root_form_ctx_get_u64 w root := root_form_ctx_get_or_create w root
  (mk_cstr (bytes_of "u64"%str) eq_refl) AK_FORM_PRIMITIVE_U64.
Definition ak_root_form_ctx_get_i8 w root := root_form_ctx_get_or_create w root
  (mk_cstr (bytes_of "i8"%str) eq_refl) AK_FORM_PRIMITIVE_I8.
Definition ak_root_form_ctx_get_i16 w root := root_form_ctx_get_or_create w root
  (mk_cstr (bytes_of "i16"%str) eq_refl) AK_FORM_PRIMITIVE_I16.
Definition ak_root_form_ctx_get_i32 w root := root_form_ctx_get_or_create w root
  (mk_cstr (bytes_of "i32"%str) eq_refl) AK_FORM_PRIMITIVE_I32.
Definition ak_root_form_ctx_get_i64 w root := root_form_ctx_get_or_create w root
  (mk_cstr (bytes_of "i64"%str) eq_refl) AK_FORM_PRIMITIVE_I64.
Definition ak_root_form_ctx_get_f32 w root := root_form_ctx_get_or_create w root
  (mk_cstr (bytes_of "f32"%str) eq_refl) AK_FORM_PRIMITIVE_F32.
Definition ak_root_form_ctx_get_f64 w root := root_form_ctx_get_or_create w root
  (mk_cstr (bytes_of "f64"%str) eq_refl) AK_FORM_PRIMITIVE_F64.

Definition ak_primitive_bool := ak_form_new_primitive AK_FORM_PRIMITIVE_U8.
Definition ak_primitive_u8 := ak_form_new_primitive AK_FORM_PRIMITIVE_U8.
Definition ak_primitive_u16 := ak_form_new_primitive AK_FORM_PRIMITIVE_U16.
Definition ak_primitive_u32 := ak_form_new_primitive AK_FORM_PRIMITIVE_U32.
Definition ak_primitive_u64 := ak_form_new_primitive AK_FORM_PRIMITIVE_U64.
Definition ak_primitive_i8 := ak_form_new_primitive AK_FORM_PRIMITIVE_I8.
Definition ak_primitive_i16 := ak_form_new_primitive AK_FORM_PRIMITIVE_I16.
Definition ak_primitive_i32 := ak_form_new_primitive AK_FORM_PRIMITIVE_I32.
Definition ak_primitive_i64 := ak_form_new_primitive AK_FORM_PRIMITIVE_I64.
Definition ak_primitive_f32 := ak_form_new_primitive AK_FORM_PRIMITIVE_F32.
Definition ak_primitive_f64 := ak_form_new_primitive AK_FORM_PRIMITIVE_F64.
End registry.

(** * Values of forms *)

(** Keys of a map of values: pointers, compared as blocks of 8 bytes. *)
Definition pointer_bytes (v : Z) : list Z := (λ i, Z.land (Z.shiftr v (8 * i)) 255) <$> seqZ 0 8.

Record pointer := mk_pointer { address : Z }.

#[export] Instance pointer_key : MapKey pointer := {|
  hash_fn p := map_hash_u64 (address p);
  cmp_fn p q := match map_cmp_mem (pointer_bytes (address p)) (pointer_bytes (address q)) 8 with
                | Ret r => r
                | Undef | Hang => 1
                end;
|}.

Record ak_optional_instance_t := mk_optional_instance {
  opt_form : Z;
  is_present : Z;
  opt_value : Z;
}.

Record ak_repeatable_instance_t := mk_repeatable_instance {
  rep_form : Z;
  rep_items : list_base_t Z;
}.

Record ak_list_instance_t := mk_list_instance {
  list_form : Z;
  list_items : list_base_t Z;
}.

Record ak_map_instance_t := mk_map_instance {
  map_form : Z;
  map_items : map_base_t pointer Z;
}.

Definition sizeof_ak_optional_instance_t : Z := 24.
Definition sizeof_ak_repeatable_instance_t : Z := 48.
Definition sizeof_ak_list_instance_t : Z := 48.
Definition sizeof_ak_map_instance_t : Z := 64.

(** What a built-in leaves in [affect_result_t]: a number in a block of its own, a
    pointer, or a new instance. *)
Inductive result : Type :=
| R_int (v : Z)
| R_unsigned (v : Z)
| R_pointer (v : Z)
| R_repeatable (inst : ak_repeatable_instance_t).

(** The cell behind the captured context. *)
Record affect_result_t := mk_result { cell : result }.

Section instances.
Context `{Allocator}.

Definition ak_optional_instance_new (form : Z) : M (option ak_optional_instance_t) :=
  ok ← alloc_obj sizeof_ak_optional_instance_t;
  mret (if ok : bool then Some (mk_optional_instance form 0 0) else None).

Definition ak_optional_instance_free (inst : option ak_optional_instance_t) : M () :=
  match inst with
  | None => mret ()
  | Some _ => free_obj
  end.

Definition ak_optional_instance_set (inst : option ak_optional_instance_t) (value : Z)
    : option ak_optional_instance_t :=
  match inst with
  | None => None
  | Some i => Some (mk_optional_instance (opt_form i) 1 value)
  end.

Definition ak_optional_instance_get (inst : option ak_optional_instance_t) : Z :=
  match inst with
  | None => 0
  | Some i => if is_present i =? 0 then 0 else opt_value i
  end.

Definition ak_repeatable_instance_new (form : Z) : M (option ak_repeatable_instance_t) :=
  ok ← alloc_obj sizeof_ak_repeatable_instance_t;
  mret (if ok : bool then Some (mk_repeatable_instance form (list_init sizeof_pointer)) else None).

Definition ak_repeatable_instance_free (inst : option ak_repeatable_instance_t) : M () :=
  match inst with
  | None => mret ()
  | Some i => _ ← list_deinit_ (rep_items i); free_obj
  end.

Definition ak_list_instance_new (form : Z) : M (option ak_list_instance_t) :=
  ok ← alloc_obj sizeof_ak_list_instance_t;
  mret (if ok : bool then Some (mk_list_instance form (list_init sizeof_pointer)) else None).

Definition ak_list_instance_free (inst : option ak_list_instance_t) : M () :=
  match inst with
  | None => mret ()
  | Some i => _ ← list_deinit_ (list_items i); free_obj
  end.

Definition ak_map_instance_new (form : Z) : M (option ak_map_instance_t) :=
  ok ← alloc_obj sizeof_ak_map_instance_t;
  mret (if ok : bool then Some (mk_map_instance form (map_init_generic sizeof_pointer)) else None).

Definition ak_map_instance_free (inst : option ak_map_instance_t) : M () :=
  match inst with
  | None => mret ()
  | Some i => _ ← map_deinit_ (map_items i); free_obj
  end.

(** * The built-in functions *)

(** [result->result = r] *)
Definition set_result (captured_ctx : option affect_result_t) (r : result)
    : outcome (option affect_result_t) :=
  match captured_ctx with
  | None => Undef
  | Some _ => Ret (Some (mk_result r))
  end.

(** An argument that is dereferenced. *)
Definition arg {A} (inst : option A) : outcome A :=
  match inst with
  | Some i => Ret i
  | None => Undef
  end.

(** [AK24_ALLOC(size)], written to at once. *)
Definition alloc_unchecked (size : Z) : M () :=
  ok ← alloc_obj size; if ok : bool then mret () else lift Undef.

Definition builtin_is_none_fn (captured_ctx : option affect_result_t)
    (inst : option ak_optional_instance_t) : M (option affect_result_t) :=
  _ ← alloc_unchecked 4;
  i ← lift (arg inst);
  lift (set_result captured_ctx (R_int (if is_present i =? 0 then 1 else 0))).

Definition builtin_is_some_fn (captured_ctx : option affect_result_t)
    (inst : option ak_optional_instance_t) : M (option affect_result_t) :=
  _ ← alloc_unchecked 4;
  i ← lift (arg inst);
  lift (set_result captured_ctx (R_int (is_present i))).

Definition builtin_append_fn (inst : option ak_repeatable_instance_t) (value : Z)
    : M ak_repeatable_instance_t :=
  i ← lift (arg inst);
  '(_, l) ← list_push_ (rep_items i) value sizeof_pointer;
  mret (mk_repeatable_instance (rep_form i) l).

Definition builtin_pop_fn (captured_ctx : option affect_result_t)
    (inst : option ak_repeatable_instance_t)
    : outcome (option affect_result_t * ak_repeatable_instance_t) :=
  i ← arg inst;
  if 0 <? count (rep_items i) then
    '(item, l) ← list_pop_ (rep_items i);
    ctx ← set_result captured_ctx (R_pointer (default 0 item));
    Ret (ctx, mk_repeatable_instance (rep_form i) l)
  else
    ctx ← set_result captured_ctx (R_pointer 0);
    Ret (ctx, i).

Definition builtin_push_fn (inst : option ak_repeatable_instance_t) (value : Z)
    : M ak_repeatable_instance_t :=
  i ← lift (arg inst);
  '(_, l) ← list_push_ (rep_items i) value sizeof_pointer;
  mret (mk_repeatable_instance (rep_form i) l).

(** [for (i = 1; i < count; i++)] over the items *)
Definition push_rest (items dst : list_base_t Z) : M (list_base_t Z) :=
  loopM (S (Z.to_nat (count items))) (λ '(i, dst),
    if i <? count items then
      item ← lift (list_get_ items i);
      match item with
      | Some v => '(_, dst) ← list_push_ dst v sizeof_pointer; mret (inl (u32 (i + 1), dst))
      | None => mret (inl (u32 (i + 1), dst))
      end
    else mret (inr dst)) (1, dst).

Definition builtin_rest_fn (captured_ctx : option affect_result_t)
    (inst : option ak_repeatable_instance_t) : M (option affect_result_t) :=
  _ ← alloc_unchecked sizeof_ak_repeatable_instance_t;
  i ← lift (arg inst);
  l ← push_rest (rep_items i) (list_init sizeof_pointer);
  lift (set_result captured_ctx (R_repeatable (mk_repeatable_instance (rep_form i) l))).

Definition builtin_list_index_fn (captured_ctx : option affect_result_t)
    (inst : option ak_list_instance_t) (index : Z) : outcome (option affect_result_t) :=
  i ← arg inst;
  if index <? count (list_items i) then
    item ← list_get_ (list_items i) index;
    set_result captured_ctx (R_pointer (default 0 item))
  else set_result captured_ctx (R_pointer 0).

Definition builtin_list_length_fn (captured_ctx : option affect_result_t)
    (inst : option ak_list_instance_t) : M (option affect_result_t) :=
  _ ← alloc_unchecked 4;
  i ← lift (arg inst);
  lift (set_result captured_ctx (R_unsigned (count (list_items i)))).

Definition builtin_map_get_fn (captured_ctx : option affect_result_t)
    (inst : option ak_map_instance_t) (key : Z) : outcome (option affect_result_t) :=
  i ← arg inst;
  value ← map_get_ (map_items i) (mk_pointer key);
  set_result captured_ctx (R_pointer (default 0 value)).

Definition builtin_map_set_fn (inst : option ak_map_instance_t) (key value : Z)
    : M ak_map_instance_t :=
  i ← lift (arg inst);
  '(_, m) ← map_set_ (map_items i) (mk_pointer key) value sizeof_pointer;
  mret (mk_map_instance (map_form i) m).

Definition builtin_map_has_fn (captured_ctx : option affect_result_t)
    (inst : option ak_map_instance_t) (key : Z) : M (option affect_result_t) :=
  i ← lift (arg inst);
  value ← lift (map_get_ (map_items i) (mk_pointer key));
  _ ← alloc_unchecked 4;
  lift (set_result captured_ctx (R_int (match value with Some _ => 1 | None => 0 end))).

(** ** Their lambdas *)

(** The addresses of the functions: different, and none is null. *)
Definition is_none_addr : Z := 1.
Definition is_some_addr : Z := 2.
Definition append_addr : Z := 3.
Definition pop_addr : Z := 4.
Definition push_addr : Z := 5.
Definition rest_addr : Z := 6.
Definition list_index_addr : Z := 7.
Definition list_length_addr : Z := 8.
Definition map_get_addr : Z := 9.
Definition map_set_addr : Z := 10.
Definition map_has_addr : Z := 11.

Definition ak_builtin_is_none (st : lstore) := ak_lambda_new st is_none_addr 0 0.
Definition ak_builtin_is_some (st : lstore) := ak_lambda_new st is_some_addr 0 0.
Definition ak_builtin_append (st : lstore) := ak_lambda_new st append_addr 0 0.
Definition ak_builtin_pop (st : lstore) := ak_lambda_new st pop_addr 0 0.
Definition ak_builtin_push (st : lstore) := ak_lambda_new st push_addr 0 0.
Definition ak_builtin_rest (st : lstore) := ak_lambda_new st rest_addr 0 0.
Definition ak_builtin_list_index (st : lstore) := ak_lambda_new st list_index_addr 0 0.
Definition ak_builtin_list_length (st : lstore) := ak_lambda_new st list_length_addr 0 0.
Definition ak_builtin_map_get (st : lstore) := ak_lambda_new st map_get_addr 0 0.
Definition ak_builtin_map_set (st : lstore) := ak_lambda_new st map_set_addr 0 0.
Definition ak_builtin_map_has (st : lstore) := ak_lambda_new st map_has_addr 0 0.

(** [ak_affect_new(name, builtin(), NULL, NULL)] *)
Definition new_builtin_affect (st : fstore) (name : cstr)
    (builtin : lstore → M (option positive * lstore)) : M (option positive * fstore) :=
  '(l, lams) ← builtin (lambdas_of st);
  ak_affect_new (mk_fstore (affect_objs st) (next_affect st) lams) (Some name) l None 0.

(** All the affects are made, then added in the same order. *)
Fixpoint new_builtin_affects (st : fstore)
    (bs : list (cstr * (lstore → M (option positive * lstore))))
    : M (list (option positive) * fstore) :=
  match bs with
  | [] => mret ([], st)
  | (name, builtin) :: bs =>
      '(a, st) ← new_builtin_affect st name builtin;
      '(rest, st) ← new_builtin_affects st bs;
      mret (a :: rest, st)
  end.

Fixpoint add_affects (form : option ak_form_t) (as_ : list (option positive))
    : M (option ak_form_t) :=
  match as_ with
  | [] => mret form
  | a :: as_ => '(_, form) ← ak_form_add_affect form a; add_affects form as_
  end.

(** The built-ins of a kind. *)
Definition builtins (current : ak_form_t) : list (cstr * (lstore → M (option positive * lstore))) :=
  match data current with
  | D_optional _ => [(is_none_str, ak_builtin_is_none); (is_some_str, ak_builtin_is_some)]
  | D_repeatable _ => [(append_str, ak_builtin_append); (pop_str, ak_builtin_pop);
                       (push_str, ak_builtin_push); (rest_str, ak_builtin_rest)]
  | D_list _ => [(index_str, ak_builtin_list_index); (length_str, ak_builtin_list_length)]
  | D_map _ _ => [(get_str, ak_builtin_map_get); (set_str, ak_builtin_map_set);
                  (has_str, ak_builtin_map_has)]
  | _ => []
  end.

Definition ak_form_attach_builtin_affects (st : fstore) (form : option ak_form_t)
    : M (option ak_form_t * fstore) :=
  match form with
  | None => mret (None, st)
  | Some f =>
      current ← lift (current f);
      '(as_, st) ← new_builtin_affects st (builtins current);
      form ← add_affects form as_;
      mret (form, st)
  end.
End instances.

(** * Attaching the built-ins *)

Definition affects_fresh (st : fstore) : Prop :=
  ∀ a x, affect_objs st !! a = Some x → (a < next_affect st)%positive.

(** What was there is there still. *)
Definition keeps (st st' : fstore) : Prop :=
  ∀ a x, affect_objs st !! a = Some x → affect_objs st' !! a = Some x.

(** The names of the built-ins of a kind. *)
Definition builtin_names (u : tree) : list cstr :=
  match node_of u with
  | N_one O_optional _ => [is_none_str; is_some_str]
  | N_one O_repeatable _ => [append_str; pop_str; push_str; rest_str]
  | N_one O_list _ => [index_str; length_str]
  | N_one (O_map _) _ => [get_str; set_str; has_str]
  | _ => []
  end.

Section attaching.
Context `{Allocator}.

Lemma affect_names_keeps st st' affs names :
  keeps st st' → affect_names st affs names → affect_names st' affs names.
Proof.
  intros Hk Hn. apply (Forall2_elem _ _ _ _ Hn). intros a n _ (x & Hx & Hname). exists x.
  split; [by apply Hk|done].
Qed.

Lemma wp_lambda_new st addr s :
  addr ≠ 0 → wp (ak_lambda_new st addr 0 0) (λ '(r, st') s', (m_fails s <= m_fails s')%nat) s.
Proof.
  intros Ha. unfold ak_lambda_new. rewrite (proj2 (Z.eqb_neq addr 0)) by done. unfold add_lambda.
  wsteps. apply wp_alloc_obj. intros [|] s1 [_ HF]; wsteps; lia.
Qed.

(** A new affect with a name and no parameters. *)
Lemma wp_affect_new st name l s :
  affects_fresh st →
  wp (ak_affect_new st (Some name) l None 0) (λ '(a, st') s',
    affects_fresh st' ∧ keeps st st' ∧ (m_fails s <= m_fails s')%nat
    ∧ (m_fails s' = m_fails s → ∃ p, a = Some p ∧ affect_names st' [p] [name])) s.
Proof.
  intros Hf. unfold ak_affect_new. wsteps. apply wp_alloc_obj. intros [|] s1 [_ HF]; cbn [negb]; wsteps.
  2:{ split_and!; [done|by intros a x|lia|lia]. }
  eapply wp_mono; [apply copy_string_ok|]. intros nm s2 [[-> [_ HF2]]|(-> & _ & HF2)]; wsteps.
  2:{ apply wp_free_obj. intros s3 _ HF3. wsteps. split_and!; [done|by intros a x|lia|lia]. }
  assert (affect_objs st !! next_affect st = None) as Hnone.
  { destruct (affect_objs st !! next_affect st) eqn:E; [|done]. apply Hf in E. lia. }
  split_and!; [| |lia|].
  - intros a x. simpl. intros [[<- _]|[_ Hx]]%lookup_insert_Some; [lia|]. apply Hf in Hx. lia.
  - intros a x Hx. simpl. rewrite lookup_insert_ne; [done|]. intros <-. by rewrite Hnone in Hx.
  - intros _. eexists. split; [done|]. constructor; [|constructor]. eexists. simpl.
    by rewrite lookup_insert_eq.
Qed.

Definition is_builtin (b : cstr * (lstore → M (option positive * lstore))) : Prop :=
  ∃ addr, addr ≠ 0 ∧ b.2 = λ st, ak_lambda_new st addr 0 0.

Lemma new_builtin_affects_ok bs st s :
  Forall is_builtin bs → affects_fresh st →
  wp (new_builtin_affects st bs) (λ '(as_, st') s',
    affects_fresh st' ∧ keeps st st' ∧ (m_fails s <= m_fails s')%nat ∧ length as_ = length bs
    ∧ (m_fails s' = m_fails s → ∃ ps, as_ = Some <$> ps ∧ affect_names st' ps (bs.*1))) s.
Proof.
  intros Hbs. revert st s. induction Hbs as [|[name builtin] bs (addr & Ha & Hb) _ IH]; intros st s Hf; simpl.
  { wsteps. split_and!; [done|by intros a x|lia|done|]. intros _. exists []. by split; [|constructor]. }
  simpl in Hb. subst builtin. unfold new_builtin_affect. wsteps.
  eapply wp_mono; [by apply wp_lambda_new|]. intros [l lams] s1 HF1. wsteps.
  eapply wp_mono; [by apply wp_affect_new|]. intros [a st1] s2 (Hf1 & Hk1 & HF2 & Hex1). wsteps.
  eapply wp_mono; [by apply IH|]. intros [as_ st2] s3 (Hf2 & Hk2 & HF3 & Hlen & Hex2). wsteps.
  split_and!; [done|by intros b x Hx; apply Hk2, Hk1|lia|simpl; lia|]. intros E.
  destruct (Hex1 ltac:(lia)) as (p & -> & Hp). destruct (Hex2 ltac:(lia)) as (ps & -> & Hps).
  exists (p :: ps). split; [done|]. pose proof (affect_names_keeps _ _ _ _ Hk2 Hp) as Hp2.
  inversion Hp2; subst. by constructor.
Qed.

Lemma add_affects_ok as_ name d al affs s :
  list_wf al affs → zlen affs + zlen as_ <= 2 ^ 31 →
  wp (add_affects (Some (mk_form name d al)) as_) (λ r s', ∃ al' new,
    r = Some (mk_form name d al') ∧ list_wf al' (affs ++ new) ∧ (m_fails s <= m_fails s')%nat
    ∧ (m_fails s' = m_fails s → ∀ ps, as_ = Some <$> ps → new = ps)) s.
Proof.
  revert al affs s. induction as_ as [|a as_ IH]; intros al affs s Hw Hlen; simpl.
  { wsteps. exists al, []. rewrite app_nil_r. split_and!; [done|done|lia|]. by intros _ [|p ps]. }
  rewrite zlen_cons in Hlen. pose proof (zlen_nonneg as_). destruct a as [p|]; simpl; wsteps.
  - eapply wp_mono; [apply (push_grown al affs); [done|lia]|].
    intros [rc al1] s1 (ys & Hw1 & Hg & Hys). wsteps.
    assert (zlen ys <= zlen affs + 1) as Hz.
    { destruct Hys as [->|[-> _]]; [rewrite zlen_app; change (zlen [p]) with 1|]; lia. }
    eapply wp_mono; [apply (IH al1 ys); [done|lia]|].
    intros r s2 (al' & new & -> & Hw2 & HF2 & Hex). pose proof (g_fails _ _ _ Hg) as HF1.
    destruct Hys as [->|[-> Hf]].
    + exists al', (p :: new). rewrite <- app_assoc in Hw2. split_and!; [done|done|lia|].
      intros E [|q ps] Hps; [done|]. injection Hps as -> Hps. f_equal. apply Hex; [lia|done].
    + exists al', new. split_and!; [done|done|lia|lia].
  - eapply wp_mono; [apply (IH al affs); [done|lia]|].
    intros r s2 (al' & new & -> & Hw2 & HF2 & Hex). exists al', new. split_and!; [done|done|lia|].
    by intros _ [|q ps].
Qed.

Lemma builtins_ok u g b : rep u g b → Forall is_builtin (builtins g) ∧ (builtins g).*1 = builtin_names u.
Proof.
  intros [name affs n d al b' _ Hn]. unfold builtins, builtin_names. simpl.
  assert (∀ s addr, addr ≠ 0 → is_builtin (s, λ st, ak_lambda_new st addr 0 0)) as Hb by (intros; by eexists).
  destruct n as [p|ts|o c]; [inversion Hn; subst; by split; [constructor|]..|].
  destruct (rep_one_inv _ _ _ _ Hn) as (fc & b1 & b2 & Hh & _ & _).
  destruct o as [| |xs| |k|]; simpl in Hh; try (destruct Hh as [-> _]); try (destruct Hh as (l & -> & _));
    (split; [|done]); repeat (constructor; [by apply Hb|]); constructor.
Qed.

(** The built-in affects.  Attaching them to a form adds, for its kind, one
    affect for each built-in, after those it has; the form then has each of them.
    But on a named form they are added to the name, and looked for in the form it
    names: what the named form has does not change. *)
Theorem ak_form_attach_builtin_affects_spec st t f b names s :
  rep t f b → sane t → affects_fresh st → affect_names st (affects_of t) names →
  zlen (affects_of t) + 4 <= 2 ^ 31 →
  wp (ak_form_attach_builtin_affects st (Some f)) (λ '(r, st') s', ∃ al' new,
    r = Some (mk_form (form_name f) (data f) al') ∧ list_wf al' (affects_of t ++ new) ∧ keeps st st'
    ∧ (m_fails s' = m_fails s → affect_names st' new (builtin_names (target t)))
    ∧ (m_fails s' = m_fails s → is_named t = false → ∀ n s0, n ∈ builtin_names t →
         wp (ak_form_has_affect st' r (Some n)) (λ h s1, h = 1 ∧ s1 = s0) s0)
    ∧ (is_named t = true → ∀ n s0,
         ak_form_get_affect st' r n s0 = ak_form_get_affect st' (Some f) n s0)) s.
Proof.
  intros Hr Hs Hf Hn Hlen. destruct (current_target _ _ _ Hr Hs) as (g & b' & E & Hr').
  destruct (builtins_ok _ _ _ Hr') as [Hb Hbn]. unfold ak_form_attach_builtin_affects. wsteps. rewrite E. wsteps.
  eapply wp_mono; [by apply new_builtin_affects_ok|]. intros [as_ st1] s1 (Hf1 & Hk & HF1 & Hl & Hex1). wsteps.
  pose proof Hr as Hr0. destruct Hr0 as [name affs n d al b0 Hal Hnode]. simpl in Hlen, Hn.
  assert (zlen as_ <= 4) as Hz.
  { unfold zlen. rewrite Hl, <- (length_fmap fst), Hbn.
    unfold builtin_names. destruct (node_of _) as [| |[] ]; simpl; lia. }
  eapply wp_mono; [apply (add_affects_ok as_ name d al affs); [done|lia]|].
  intros r s2 (al' & new & -> & Hw & HF2 & Hex2). wsteps.
  assert (m_fails s2 = m_fails s → affect_names st1 new (builtin_names (target (mk_tree name affs n)))) as Hnew.
  { intros E2. destruct (Hex1 ltac:(lia)) as (ps & -> & Hps). rewrite (Hex2 ltac:(lia) ps eq_refl).
    by rewrite <- Hbn. }
  exists al', new. split_and!; [done|done|done|done| |].
  - intros E2 Hnm m s0 Hm. specialize (Hnew E2).
    assert (target (mk_tree name affs n) = mk_tree name affs n) as Et by (by destruct n as [| |[] [|]]).
    rewrite Et in Hnew. unfold ak_form_has_affect. wsteps.
    assert (rep (mk_tree name (affs ++ new) n) (mk_form name d al') (1 + name_blocks name + Lists.owned al' + b0))
      as Hr2 by (by constructor).
    assert (target (mk_tree name (affs ++ new) n) = mk_tree name (affs ++ new) n) as Et2
      by (by destruct n as [| |[] [|]]).
    eapply wp_mono; [apply (get_affect_ok st1 _ _ _ (names ++ builtin_names (mk_tree name affs n)) m s0 Hr2)|].
    + done.
    + rewrite Et2. simpl. apply Forall2_app; [|done]. by eapply affect_names_keeps.
    + intros [a|] s3 [-> Hres]; wsteps; [done|]. exfalso. apply Hres, elem_of_app. by right.
  - intros Hnm m s0. destruct n as [| |[] c]; try done.
    destruct (rep_one_inv _ _ _ _ Hnode) as (fc & b1 & b2 & [-> _] & _ & _). by destruct m.
Qed.
End attaching.

(** * Witness *)

#[local] Existing Instance always_alloc.

Lemma w_fresh : affects_fresh w_fstore.
Proof. intros a x Hx. simpl in Hx. by apply lookup_singleton_Some in Hx as [<- _]. Qed.

Lemma ak_form_attach_builtin_affects_spec_witness :
  wp (ak_form_attach_builtin_affects w_fstore (Some w_optional)) (λ '(r, st') s', ∃ al' new,
    r = Some (mk_form None (data w_optional) al') ∧ list_wf al' ([1%positive] ++ new) ∧ keeps w_fstore st'
    ∧ (m_fails s' = m_fails mem0 → affect_names st' new [is_none_str; is_some_str])
    ∧ (m_fails s' = m_fails mem0 → is_named w_tree = false → ∀ n s0, n ∈ [is_none_str; is_some_str] →
         wp (ak_form_has_affect st' r (Some n)) (λ h s1, h = 1 ∧ s1 = s0) s0)
    ∧ (is_named w_tree = true → ∀ n s0,
         ak_form_get_affect st' r n s0 = ak_form_get_affect st' (Some w_optional) n s0)) mem0.
Proof.
  apply (ak_form_attach_builtin_affects_spec w_fstore w_tree w_optional 4 [get_str] mem0 w_rep);
    [done|apply w_fresh|apply w_names|done].
Defined.
