(* ===== verification/Atoms.v ===== *)
(** Atoms, values bonded into a graph: [kernel/atoms/src/atom.c].

    Atoms and the links of their lists of neighbors are heap objects, as in the
    code: an atom has a pointer to its first link, a link one to the next.
    [graph_ok] relates the heap to the adjacency lists.  [ak_atom_bond] is a
    program of atomic operations, run alone in the sequential theorems and
    interleaved in the one on threads.  A [value] is the pattern of the 64 bits of
    a union, low bytes first; [float] and [double] are patterns as well. *)

From stdpp Require Import gmap relations.
From S2P Require Import Prelude.

Inductive ak_atom_type_e : Type :=
| AK24_ATOM_BYTE
| AK24_ATOM_U8
| AK24_ATOM_U16
| AK24_ATOM_U32
| AK24_ATOM_U64
| AK24_ATOM_I8
| AK24_ATOM_I16
| AK24_ATOM_I32
| AK24_ATOM_I64
| AK24_ATOM_F32
| AK24_ATOM_F64
| AK24_ATOM_CHAR
| AK24_ATOM_CLUSTER.

#[export] Instance atom_type_eq_dec : EqDecision ak_atom_type_e.
Proof. solve_decision. Defined.

Record ak_atom_neighbor_t := mk_neighbor {
  n_atom : positive;
  n_next : option positive;
}.

Record ak_atom_t := mk_atom {
  type : ak_atom_type_e;
  dimensionality : Z;
  neighbors : option positive;
  value : Z;
}.

Record ak_atom_cluster_t := mk_cluster {
  c_atoms : list (option positive);
  c_count : Z;
  c_capacity : Z;
}.

Record store := mk_store {
  atoms : gmap positive ak_atom_t;
  links : gmap positive ak_atom_neighbor_t;
  next_atom : positive;
  next_link : positive;
}.

Definition sizeof_ak_atom_t : Z := 32.
Definition sizeof_ak_atom_neighbor_t : Z := 16.
Definition sizeof_ak_atom_cluster_t : Z := 24.

Definition deref_atom (st : store) (a : positive) : outcome ak_atom_t :=
  match atoms st !! a with
  | Some x => Ret x
  | None => Undef
  end.

Definition deref_link (st : store) (n : positive) : outcome ak_atom_neighbor_t :=
  match links st !! n with
  | Some x => Ret x
  | None => Undef
  end.

(** [atomic_store_explicit(&atom->neighbors, head)] *)
Definition set_neighbors (st : store) (a : positive) (head : option positive) : outcome store :=
  x ← deref_atom st a;
  Ret (mk_store (<[a := mk_atom (type x) (dimensionality x) head (value x)]> (atoms st))
         (links st) (next_atom st) (next_link st)).

(** [atomic_store_explicit(&neighbor->next, next)] *)
Definition set_next (st : store) (n : positive) (next : option positive) : outcome store :=
  x ← deref_link st n;
  Ret (mk_store (atoms st) (<[n := mk_neighbor (n_atom x) next]> (links st))
         (next_atom st) (next_link st)).

(** * Values *)

(** The member of [w] bits of a union, and writing it. *)
Definition member (w v : Z) : Z := v mod 2 ^ w.
Definition with_member (w old x : Z) : Z := old - old mod 2 ^ w + x mod 2 ^ w.

(** [(double)x]: exact; a NaN is made quiet. *)
Definition double_of_float (x : Z) : Z :=
  sign_of 23 8 x * 2 ^ 63 +
  if exponent_of 23 8 x =? 255 then
    2047 * 2 ^ 52 + if fraction_of 23 x =? 0 then 0 else Z.lor (2 ^ 51) (fraction_of 23 x * 2 ^ 29)
  else
    let m := significand 23 8 x in
    if m =? 0 then 0 else
    let l := Z.log2 m in
    (Z.max (exponent_of 23 8 x) 1 - 150 + l - 52 + 1074) * 2 ^ 52 + m * 2 ^ (52 - l).

(** [(float)x], in the default rounding mode. *)
Definition float_of_double (x : Z) : Z :=
  sign_of 52 11 x * 2 ^ 31 +
  if exponent_of 52 11 x =? 2047 then
    255 * 2 ^ 23 + if fraction_of 52 x =? 0 then 0 else Z.lor (2 ^ 22) (fraction_of 52 x / 2 ^ 29)
  else
    let m := significand 52 11 x in
    if m =? 0 then 0 else
    let e := Z.max (exponent_of 52 11 x) 1 - 1075 in
    let q := Z.max (e + Z.log2 m + 1 - 24) (-149) in
    Z.min (255 * 2 ^ 23) ((q + 149) * 2 ^ 23 + round_half_even m (q - e)).

(** [atom->value.m = value.m] for the member [m] of a type.  That of [F64] is a
    [double] in the atom, and a [float] in [ak_atom_value_u]. *)
Definition store_value (t : ak_atom_type_e) (old v : Z) : Z :=
  match t with
  | AK24_ATOM_BYTE | AK24_ATOM_U8 | AK24_ATOM_I8 | AK24_ATOM_CHAR => with_member 8 old (member 8 v)
  | AK24_ATOM_U16 | AK24_ATOM_I16 => with_member 16 old (member 16 v)
  | AK24_ATOM_U32 | AK24_ATOM_I32 | AK24_ATOM_F32 => with_member 32 old (member 32 v)
  | AK24_ATOM_U64 | AK24_ATOM_I64 | AK24_ATOM_CLUSTER => with_member 64 old (member 64 v)
  | AK24_ATOM_F64 => with_member 64 old (double_of_float (member 32 v))
  end.

(** [result.m = atom->value.m] *)
Definition load_value (t : ak_atom_type_e) (result v : Z) : Z :=
  match t with
  | AK24_ATOM_BYTE | AK24_ATOM_U8 | AK24_ATOM_I8 | AK24_ATOM_CHAR => with_member 8 result (member 8 v)
  | AK24_ATOM_U16 | AK24_ATOM_I16 => with_member 16 result (member 16 v)
  | AK24_ATOM_U32 | AK24_ATOM_I32 | AK24_ATOM_F32 => with_member 32 result (member 32 v)
  | AK24_ATOM_U64 | AK24_ATOM_I64 | AK24_ATOM_CLUSTER => with_member 64 result (member 64 v)
  | AK24_ATOM_F64 => with_member 32 result (float_of_double (member 64 v))
  end.

(** The word of some bytes. *)
Fixpoint word (bs : list Z) : Z :=
  match bs with
  | [] => 0
  | b :: bs => b + 256 * word bs
  end.

Section atoms.
Context `{Allocator}.

(** The union starts at byte 24 of the block. *)
Definition ak_atom_new (st : store) (t : ak_atom_type_e) (v dim : Z)
    : M (option positive * store) :=
  block ← alloc_bytes sizeof_ak_atom_t;
  match block with
  | None => mret (None, st)
  | Some block =>
      let a := next_atom st in
      mret (Some a, mk_store
        (<[a := mk_atom t dim None (store_value t (word (drop 24 block)) v)]> (atoms st))
        (links st) (Pos.succ a) (next_link st))
  end.

(** [while (neighbor) { next = neighbor->next; AK24_FREE(neighbor); ... }] *)
Definition free_links (st : store) (head : option positive) : M store :=
  loopM (S (size (links st))) (λ '(neighbor, st),
    match neighbor with
    | None => mret (inr st)
    | Some n =>
        x ← lift (deref_link st n);
        _ ← free_obj;
        mret (inl (n_next x, mk_store (atoms st) (delete n (links st)) (next_atom st) (next_link st)))
    end) (head, st).

Definition ak_atom_free (st : store) (atom : option positive) : M store :=
  match atom with
  | None => mret st
  | Some a =>
      x ← lift (deref_atom st a);
      st ← free_links st (neighbors x);
      _ ← free_obj;
      mret (mk_store (delete a (atoms st)) (links st) (next_atom st) (next_link st))
  end.

Definition ak_atom_get_value (st : store) (atom : option positive) : outcome Z :=
  match atom with
  | None => Ret 0
  | Some a => x ← deref_atom st a; Ret (load_value (type x) 0 (value x))
  end.

Definition ak_atom_set_value (st : store) (atom : option positive) (v : Z) : outcome store :=
  match atom with
  | None => Ret st
  | Some a =>
      x ← deref_atom st a;
      Ret (mk_store (<[a := mk_atom (type x) (dimensionality x) (neighbors x)
                              (store_value (type x) (value x) v)]> (atoms st))
             (links st) (next_atom st) (next_link st))
  end.

Definition ak_atom_get_type (st : store) (atom : option positive) : outcome ak_atom_type_e :=
  match atom with
  | None => Ret AK24_ATOM_BYTE
  | Some a => x ← deref_atom st a; Ret (type x)
  end.

Definition ak_atom_get_dimensionality (st : store) (atom : option positive) : outcome Z :=
  match atom with
  | None => Ret 0
  | Some a => x ← deref_atom st a; Ret (dimensionality x)
  end.

(** * Bonds *)

(** What a call of [ak_atom_bond] does next, once it has its two links. *)
Inductive bond_pc : Type :=
| Load1
| Store1 (old_neighbors1 : option positive)
| Load2
| Store2 (old_neighbors2 : option positive)
| Bonded.

Record bond_call := mk_bond {
  atom1 : positive;
  atom2 : positive;
  neighbor1 : positive;
  neighbor2 : positive;
  bond_at : bond_pc;
}.

Definition goto (c : bond_call) (p : bond_pc) : bond_call :=
  mk_bond (atom1 c) (atom2 c) (neighbor1 c) (neighbor2 c) p.

(** One atomic operation.  A link is its thread's until it is stored in the list,
    so [atomic_init] of its pointers goes with the store that follows. *)
Definition bond_step (st : store) (c : bond_call) : outcome (store * bond_call) :=
  match bond_at c with
  | Load1 => x ← deref_atom st (atom1 c); Ret (st, goto c (Store1 (neighbors x)))
  | Store1 old =>
      st ← set_next st (neighbor1 c) old;
      st ← set_neighbors st (atom1 c) (Some (neighbor1 c));
      Ret (st, goto c Load2)
  | Load2 => x ← deref_atom st (atom2 c); Ret (st, goto c (Store2 (neighbors x)))
  | Store2 old =>
      st ← set_next st (neighbor2 c) old;
      st ← set_neighbors st (atom2 c) (Some (neighbor2 c));
      Ret (st, goto c Bonded)
  | Bonded => Ret (st, c)
  end.

(** The call with its links allocated: [atomic_init(&neighbor1->atom, atom2)]. *)
Definition bond_start (st : store) (a1 a2 : positive) : store * bond_call :=
  let n1 := next_link st in
  let n2 := Pos.succ n1 in
  (mk_store (atoms st) (<[n2 := mk_neighbor a1 None]> (<[n1 := mk_neighbor a2 None]> (links st)))
     (next_atom st) (Pos.succ n2),
   mk_bond a1 a2 n1 n2 Load1).

Definition run_bond (st : store) (c : bond_call) : outcome store :=
  loop 5 (λ '(st, c),
    match bond_at c with
    | Bonded => Ret (inr st)
    | _ => r ← bond_step st c; Ret (inl r)
    end) (st, c).

Definition ak_atom_bond (st : store) (atom1 atom2 : option positive) : M (Z * store) :=
  match atom1, atom2 with
  | Some a1, Some a2 =>
      neighbor1 ← alloc_obj sizeof_ak_atom_neighbor_t;
      neighbor2 ← alloc_obj sizeof_ak_atom_neighbor_t;
      if negb neighbor1 || negb neighbor2 then
        _ ← if neighbor1 : bool then free_obj else mret ();
        _ ← if neighbor2 : bool then free_obj else mret ();
        mret (-1, st)
      else
        let '(st, c) := bond_start st a1 a2 in
        st ← lift (run_bond st c);
        mret (0, st)
  | _, _ => mret (-1, st)
  end.

(** One of the two loops: the first link of [atom] to [other] is taken out. *)
Definition unlink_first (st : store) (atom other : positive) : M store :=
  x ← lift (deref_atom st atom);
  loopM (S (size (links st))) (λ '(prev, current),
    match current with
    | None => mret (inr st)
    | Some n =>
        x ← lift (deref_link st n);
        if bool_decide (n_atom x = other) then
          st ← lift (match prev with
                     | Some p => set_next st p (n_next x)
                     | None => set_neighbors st atom (n_next x)
                     end);
          _ ← free_obj;
          mret (inr (mk_store (atoms st) (delete n (links st)) (next_atom st) (next_link st)))
        else mret (inl (Some n, n_next x))
    end) (None, neighbors x).

Definition ak_atom_unbond (st : store) (atom1 atom2 : option positive) : M (Z * store) :=
  match atom1, atom2 with
  | Some a1, Some a2 =>
      st ← unlink_first st a1 a2;
      st ← unlink_first st a2 a1;
      mret (0, st)
  | _, _ => mret (-1, st)
  end.

(** * Clusters *)

(** An array of pointers in a block of [size] bytes. *)
Definition pointers (size : Z) : nat := Z.to_nat (size / sizeof_pointer).

Definition ak_atom_cluster_new (initial_capacity : Z) : M (option ak_atom_cluster_t) :=
  ok ← alloc_obj sizeof_ak_atom_cluster_t;
  if negb ok then mret None else
  let size := u64 (sizeof_pointer * initial_capacity) in
  ok ← alloc_obj size;
  if negb ok then _ ← free_obj; mret None else
  mret (Some (mk_cluster (replicate (pointers size) None) 0 initial_capacity)).

Definition ak_atom_cluster_free (cluster : option ak_atom_cluster_t) : M () :=
  match cluster with
  | None => mret ()
  | Some _ => _ ← free_obj; free_obj
  end.

Definition ak_atom_cluster_add (cluster : option ak_atom_cluster_t) (atom : option positive)
    : M (Z * option ak_atom_cluster_t) :=
  match cluster, atom with
  | Some c, Some a =>
      r ← if c_capacity c <=? c_count c then
            let new_capacity := u64 (c_capacity c * 2) in
            let size := u64 (sizeof_pointer * new_capacity) in
            ok ← alloc_obj size;
            if negb ok then mret None else
            _ ← free_obj;
            mret (Some (mk_cluster (resize (pointers size) None (c_atoms c)) (c_count c) new_capacity))
          else mret (Some c);
      match r with
      | None => mret (-1, Some c)
      | Some c =>
          slots ← lift (wr (c_atoms c) (c_count c) (Some a));
          mret (0, Some (mk_cluster slots (u64 (c_count c + 1)) (c_capacity c)))
      end
  | _, _ => mret (-1, cluster)
  end.

Definition ak_atom_cluster_get (cluster : option ak_atom_cluster_t) (index : Z)
    : outcome (option positive) :=
  match cluster with
  | None => Ret None
  | Some c => if c_count c <=? index then Ret None else rd (c_atoms c) index
  end.

Definition ak_atom_cluster_count (cluster : option ak_atom_cluster_t) : Z :=
  match cluster with
  | None => 0
  | Some c => c_count c
  end.

(** * Neighbors at a distance *)

(** What the recursion carries: the cluster and the array of visited atoms. *)
Record search := mk_search {
  cluster : option ak_atom_cluster_t;
  visited : list (option positive);
  visited_count : Z;
}.

(** [for (i = 0; i < *visited_count; i++) if (visited[i] == atom) return;] *)
Definition is_visited (s : search) (a : positive) : outcome bool :=
  loop (S (Z.to_nat (visited_count s))) (λ i,
    if i <? visited_count s then
      v ← rd (visited s) i;
      if bool_decide (v = Some a) then Ret (inr true) else Ret (inl (u64 (i + 1)))
    else Ret (inr false)) 0.

(** [while (neighbor) { visit(neighbor->atom); neighbor = neighbor->next; }] *)
Definition walk_links (st : store) (visit : positive → search → M search)
    (head : option positive) (s : search) : M search :=
  loopM (S (size (links st))) (λ '(neighbor, s),
    match neighbor with
    | None => mret (inr s)
    | Some n =>
        x ← lift (deref_link st n);
        s ← visit (n_atom x) s;
        mret (inl (n_next x, s))
    end) (head, s).

Fixpoint ak_atom_neighbors_recursive (fuel : nat) (st : store)
    (distance current_distance visited_capacity : Z) (a : positive) (s : search) : M search :=
  match fuel with
  | O => lift Hang
  | S fuel =>
      if distance <? current_distance then mret s else
      seen ← lift (is_visited s a);
      if seen : bool then mret s else
      s ← lift (if visited_count s <? visited_capacity then
                  v ← wr (visited s) (visited_count s) (Some a);
                  Ret (mk_search (cluster s) v (u64 (visited_count s + 1)))
                else Ret s);
      if (current_distance =? distance) && (0 <? current_distance) then
        '(_, c) ← ak_atom_cluster_add (cluster s) (Some a);
        mret (mk_search c (visited s) (visited_count s))
      else
        x ← lift (deref_atom st a);
        walk_links st
          (ak_atom_neighbors_recursive fuel st distance (u64 (current_distance + 1)) visited_capacity)
          (neighbors x) s
  end.

Definition ak_atom_neighbors (st : store) (atom : option positive) (distance : Z)
    : M (option ak_atom_cluster_t) :=
  match atom with
  | None => mret None
  | Some a =>
      c ← ak_atom_cluster_new 16;
      match c with
      | None => mret None
      | Some _ =>
          if distance =? 0 then
            '(_, c) ← ak_atom_cluster_add c (Some a);
            mret c
          else
            let visited_capacity := 1024 in
            let size := sizeof_pointer * visited_capacity in
            ok ← alloc_obj size;
            if negb ok then _ ← ak_atom_cluster_free c; mret None else
            s ← ak_atom_neighbors_recursive (S (S (Z.to_nat distance))) st distance 0
                  visited_capacity a (mk_search c (replicate (pointers size) None) 0);
            _ ← free_obj;
            mret (cluster s)
      end
  end.
End atoms.

(** * Values come back *)

(** The bits of a value that a type keeps: its member of the union. *)
Definition width (t : ak_atom_type_e) : Z :=
  match t with
  | AK24_ATOM_BYTE | AK24_ATOM_U8 | AK24_ATOM_I8 | AK24_ATOM_CHAR => 8
  | AK24_ATOM_U16 | AK24_ATOM_I16 => 16
  | AK24_ATOM_U32 | AK24_ATOM_I32 | AK24_ATOM_F32 | AK24_ATOM_F64 => 32
  | AK24_ATOM_U64 | AK24_ATOM_I64 | AK24_ATOM_CLUSTER => 64
  end.

Definition is_nan (x : Z) : Prop := exponent_of 23 8 x = 255 ∧ fraction_of 23 x ≠ 0.

Lemma member_with w old x : 0 <= w → member w (with_member w old (member w x)) = member w x.
Proof.
  intros Hw. unfold member, with_member. pose proof (Z.pow_pos_nonneg 2 w ltac:(lia) Hw).
  rewrite Z.mod_mod by lia. rewrite (Z.div_mod old (2 ^ w)) at 1 by lia.
  replace (2 ^ w * (old / 2 ^ w) + old mod 2 ^ w - old mod 2 ^ w + x mod 2 ^ w)
    with (x mod 2 ^ w + old / 2 ^ w * 2 ^ w) by lia.
  by rewrite Z.mod_add, Z.mod_mod by lia.
Qed.

Lemma with_member_zero w x : 0 <= w → with_member w 0 (member w x) = member w x.
Proof.
  intros Hw. unfold member, with_member. pose proof (Z.pow_pos_nonneg 2 w ltac:(lia) Hw).
  rewrite Z.mod_mod, Z.mod_0_l; lia.
Qed.

(** A pattern put together from its fields. *)
Lemma fields p e s x m :
  0 <= p → 0 <= e → 0 <= x < 2 ^ e → 0 <= m < 2 ^ p →
  sign_of p e (s * 2 ^ (p + e) + (x * 2 ^ p + m)) = s
  ∧ exponent_of p e (s * 2 ^ (p + e) + (x * 2 ^ p + m)) = x
  ∧ fraction_of p (s * 2 ^ (p + e) + (x * 2 ^ p + m)) = m.
Proof.
  intros Hp He Hx Hm. unfold sign_of, exponent_of, fraction_of.
  assert (0 < 2 ^ p) by (by apply Z.pow_pos_nonneg).
  assert (0 < 2 ^ e) by (by apply Z.pow_pos_nonneg).
  rewrite Z.pow_add_r by lia.
  assert ((s * (2 ^ p * 2 ^ e) + (x * 2 ^ p + m)) / 2 ^ p = s * 2 ^ e + x) as Hd.
  { symmetry. apply (Z.div_unique_pos _ _ _ m); [lia|ring]. }
  split_and!.
  - symmetry. apply (Z.div_unique_pos _ _ _ (x * 2 ^ p + m)); [nia|ring].
  - rewrite Hd. symmetry. apply (Z.mod_unique_pos _ _ s); [lia|ring].
  - symmetry. apply (Z.mod_unique_pos _ _ (s * 2 ^ e + x)); [lia|ring].
Qed.

(** Every pattern is put together so. *)
Lemma unfields p e x :
  0 <= p → 0 <= e → x = sign_of p e x * 2 ^ (p + e) + (exponent_of p e x * 2 ^ p + fraction_of p x).
Proof.
  intros Hp He. unfold sign_of, exponent_of, fraction_of.
  assert (0 < 2 ^ p) by (by apply Z.pow_pos_nonneg).
  assert (0 < 2 ^ e) by (by apply Z.pow_pos_nonneg).
  rewrite Z.pow_add_r, <- Z.div_div by lia.
  rewrite (Z.div_mod x (2 ^ p)) at 1 by lia. rewrite (Z.div_mod (x / 2 ^ p) (2 ^ e)) at 1 by lia. ring.
Qed.

(** The significand of a [float] that is not zero. *)
Lemma significand_range E f :
  0 <= E < 255 → 0 <= f < 2 ^ 23 →
  let m := if E =? 0 then f else 2 ^ 23 + f in
  m ≠ 0 → 0 <= Z.log2 m <= 23 ∧ 2 ^ Z.log2 m <= m < 2 * 2 ^ Z.log2 m
    ∧ (Z.max E 1 - 1) * 2 ^ 23 + m = E * 2 ^ 23 + f
    ∧ Z.max (Z.max E 1 + Z.log2 m - 173) (-149) = Z.max E 1 - 150.
Proof.
  intros HE Hf m Hm. assert (0 < m) as Hpos by (unfold m; destruct (Z.eqb_spec E 0); lia).
  pose proof (Z.log2_spec m Hpos) as [Hlo Hhi]. rewrite Z.pow_succ_r in Hhi by apply Z.log2_nonneg.
  pose proof (Z.log2_nonneg m). assert (0 < E → Z.log2 m = 23) as Hn.
  { intros HE'. unfold m. destruct (Z.eqb_spec E 0); [lia|]. apply Z.log2_unique; lia. }
  assert (E = 0 → Z.log2 m <= 22) as Hz.
  { intros ->. change m with f in *. enough (Z.log2 f < 23) by lia. apply Z.log2_lt_pow2; lia. }
  split_and!; try lia; unfold m; destruct (Z.eqb_spec E 0) as [->|]; lia.
Qed.

(** A [double] that holds a [float] gives it back. *)
Lemma float_of_double_of_float x :
  0 <= x < 2 ^ 32 → ¬ is_nan x →
  0 <= double_of_float x < 2 ^ 64 ∧ float_of_double (double_of_float x) = x.
Proof.
  intros Hx Hn. unfold is_nan in Hn. rewrite (unfields 23 8 x) at 4 by lia. unfold double_of_float, significand.
  assert (0 <= sign_of 23 8 x < 2) as Hs by (unfold sign_of; dlia).
  assert (0 <= exponent_of 23 8 x < 256) as HE by (apply Z.mod_pos_bound; lia).
  assert (0 <= fraction_of 23 x < 2 ^ 23) as Hf by (apply Z.mod_pos_bound; lia).
  revert Hn Hs HE Hf. generalize (sign_of 23 8 x) (exponent_of 23 8 x) (fraction_of 23 x).
  intros s E f Hn Hs HE Hf. unfold float_of_double. destruct (Z.eqb_spec E 255) as [->|HEn].
  { destruct (Z.eqb_spec f 0) as [->|]; [|by destruct Hn].
    destruct (fields 52 11 s 2047 0) as (Es & Ee & Ef); [lia..|].
    change (52 + 11) with 63 in *. rewrite Es, Ee, Ef. split; [lia|done]. }
  set (m := if E =? 0 then f else 2 ^ 23 + f). destruct (Z.eqb_spec m 0) as [Hm|Hm].
  { destruct (fields 52 11 s 0 0) as (Es & Ee & Ef); [lia..|].
    change (0 * 2 ^ 52 + 0) with 0 in *. change (52 + 11) with 63 in *. unfold significand. rewrite Es, Ee, Ef. simpl.
    unfold m in Hm. destruct (Z.eqb_spec E 0) as [->|]; lia. }
  destruct (significand_range E f ltac:(lia) Hf Hm) as (Hl & Hm2 & Hback & Hq). fold m in Hl, Hm2, Hback, Hq.
  set (l := Z.log2 m) in *. set (n := m * 2 ^ (52 - l)).
  assert (2 ^ 52 = 2 ^ l * 2 ^ (52 - l)) as H52 by (rewrite <- Z.pow_add_r by lia; f_equal; lia).
  assert (2 ^ 52 <= n < 2 * 2 ^ 52) as Hnr.
  { unfold n. rewrite H52. pose proof (Z.pow_pos_nonneg 2 (52 - l)). nia. }
  set (Q := Z.max E 1 - 150 + l - 52 + 1074).
  assert (0 < Q + 1 < 2047) as HQ by lia. split; [lia|].
  replace (Q * 2 ^ 52 + n) with ((Q + 1) * 2 ^ 52 + (n - 2 ^ 52)) by ring.
  destruct (fields 52 11 s (Q + 1) (n - 2 ^ 52)) as (Es & Ee & Ef); [lia..|].
  change (52 + 11) with 63 in *. unfold significand. rewrite Es, Ee, Ef.
  rewrite (proj2 (Z.eqb_neq (Q + 1) 2047)), (proj2 (Z.eqb_neq (Q + 1) 0)) by lia.
  replace (2 ^ 52 + (n - 2 ^ 52)) with n by lia. rewrite (proj2 (Z.eqb_neq n 0)) by lia.
  assert (Z.log2 n = 52) as -> by (apply Z.log2_unique; lia).
  replace (Z.max (Q + 1) 1 - 1075 + 52 + 1 - 24) with (Z.max E 1 + l - 173) by lia. rewrite Hq.
  replace (Z.max E 1 - 150 - (Z.max (Q + 1) 1 - 1075)) with (52 - l) by lia.
  unfold n. rewrite round_exact by lia. replace (Z.max E 1 - 150 + 149) with (Z.max E 1 - 1) by lia.
  rewrite Hback. change (23 + 8) with 31. lia.
Qed.

Lemma value_stored t old v :
  (t = AK24_ATOM_F64 → ¬ is_nan (member 32 v)) →
  load_value t 0 (store_value t old v) = member (width t) v.
Proof.
  intros Hn. destruct t; simpl; try (by rewrite member_with, with_member_zero by lia).
  destruct (float_of_double_of_float (member 32 v)) as [Hd Hf]; [apply Z.mod_pos_bound; lia|by apply Hn|].
  assert (member 64 (double_of_float (member 32 v)) = double_of_float (member 32 v)) as E
    by (by apply Z.mod_small).
  rewrite <- E at 1. rewrite member_with, E, Hf by lia. unfold with_member. rewrite Z.mod_0_l by lia.
  unfold member. rewrite Z.mod_mod by lia. lia.
Qed.

(** * The graph *)

(** The lists of the atoms: links, and the atoms they point to. *)
#[warnings="-notation-for-abbreviation"]
Notation lists := (gmap positive (list (positive * positive))).

Definition adj (L : lists) (a : positive) : list positive := (L !!! a).*2.

(** From [p] the links of [l] lead to [q]. *)
Fixpoint seg (ls : gmap positive ak_atom_neighbor_t) (p : option positive)
    (l : list (positive * positive)) (q : option positive) : Prop :=
  match l with
  | [] => p = q
  | (n, b) :: l => p = Some n ∧ ∃ next, ls !! n = Some (mk_neighbor b next) ∧ seg ls next l q
  end.

(** The heap has these lists, and besides them the links [loose], which point to
    the atoms it gives. *)
Record heap_ok (st : store) (L : lists) (loose : gmap positive positive) : Prop := {
  h_dom : dom (atoms st) = dom L;
  h_chain : ∀ a x, atoms st !! a = Some x → seg (links st) (neighbors x) (L !!! a) None;
  h_nodup : ∀ a, NoDup (L !!! a).*1;
  h_apart : ∀ a b n, n ∈ (L !!! a).*1 → n ∈ (L !!! b).*1 → a = b;
  h_loose : ∀ n b, loose !! n = Some b →
    (∃ next, links st !! n = Some (mk_neighbor b next)) ∧ ∀ a, n ∉ (L !!! a).*1;
  h_owned : ∀ n y, links st !! n = Some y → is_Some (loose !! n) ∨ ∃ a, n ∈ (L !!! a).*1;
  h_atoms : ∀ a x, atoms st !! a = Some x → (a < next_atom st)%positive;
  h_links : ∀ n y, links st !! n = Some y → (n < next_link st)%positive;
}.

(** How often [b] is a neighbor of [a]. *)
Definition times (L : lists) (a b : positive) : nat := count_occ Pos.eq_dec (adj L a) b.

Record graph_ok (st : store) (L : lists) : Prop := {
  g_heap : heap_ok st L ∅;
  g_live : ∀ a b, b ∈ adj L a → b ∈ dom L;
  g_sym : ∀ a b, times L a b = times L b a;
}.

(** The atoms but for their lists. *)
Definition same_values (st st' : store) : Prop :=
  ∀ a, (λ x, (type x, dimensionality x, value x)) <$> atoms st' !! a
       = (λ x, (type x, dimensionality x, value x)) <$> atoms st !! a.

Lemma seg_app ls p l1 l2 q : seg ls p (l1 ++ l2) q ↔ ∃ r, seg ls p l1 r ∧ seg ls r l2 q.
Proof.
  revert p. induction l1 as [|[n b] l1 IH]; intros p; simpl.
  - split; [by exists p|by intros (r & -> & Hr)].
  - setoid_rewrite IH. split.
    + intros (-> & next & Hn & r & H1 & H2). exists r. split; [|done]. split; [done|]. by exists next.
    + intros (r & (-> & next & Hn & H1) & H2). split; [done|]. exists next. split; [done|]. by exists r.
Qed.

Lemma seg_frame ls ls' p l q :
  (∀ n, n ∈ l.*1 → ls' !! n = ls !! n) → seg ls p l q → seg ls' p l q.
Proof.
  revert p. induction l as [|[n b] l IH]; intros p Heq; simpl; [done|].
  intros (-> & next & Hn & Hl). split; [done|]. exists next. split; [by rewrite Heq by (by left)|].
  apply IH; [|done]. intros m Hm. apply Heq. by right.
Qed.

Lemma seg_links ls p l q n : seg ls p l q → n ∈ l.*1 → is_Some (ls !! n).
Proof.
  revert p. induction l as [|[m b] l IH]; intros p; simpl; [by intros _ ?%elem_of_nil|].
  intros (-> & next & Hn & Hl) [->|Hin]%elem_of_cons; [by eexists|by eapply IH].
Qed.

(** A list without repetitions has no more links than the heap. *)
Lemma seg_length ls p l q : seg ls p l q → NoDup l.*1 → (length l <= size ls)%nat.
Proof.
  intros Hs Hnd. rewrite <- (size_dom (D := gset positive)), <- (length_fmap fst), <- (size_list_to_set (C := gset positive)) by done.
  apply subseteq_size. intros n Hn%elem_of_list_to_set. apply elem_of_dom. by eapply seg_links.
Qed.

Lemma heap_atom st L loose a : heap_ok st L loose → a ∈ dom L → ∃ x, atoms st !! a = Some x.
Proof. intros Hh Ha. rewrite <- (h_dom _ _ _ Hh) in Ha. by apply elem_of_dom in Ha. Qed.

Lemma wpo_deref_atom st a x Q : atoms st !! a = Some x → Q x → wpo (deref_atom st a) Q.
Proof. intros Hx. unfold deref_atom. by rewrite Hx. Qed.

Lemma wpo_deref_link st n x Q : links st !! n = Some x → Q x → wpo (deref_link st n) Q.
Proof. intros Hx. unfold deref_link. by rewrite Hx. Qed.

Lemma adj_insert L a l c : adj (<[a := l]> L) c = if decide (c = a) then l.*2 else adj L c.
Proof.
  unfold adj. destruct (decide (c = a)) as [->|].
  - by rewrite lookup_total_insert_eq.
  - by rewrite lookup_total_insert_ne.
Qed.

(** [n], pointing to [b], becomes the first link of [a]. *)
Definition push (a n b : positive) (L : lists) : lists := <[a := (n, b) :: L !!! a]> L.

Lemma dom_push a n b L : a ∈ dom L → dom (push a n b L) = dom L.
Proof. intros Ha. unfold push. by rewrite dom_insert_lookup_L by by apply elem_of_dom. Qed.

Lemma push_links a n b L c : (push a n b L !!! c).*1 = if decide (c = a) then n :: (L !!! c).*1 else (L !!! c).*1.
Proof.
  unfold push. destruct (decide (c = a)) as [->|].
  - by rewrite lookup_total_insert_eq.
  - by rewrite lookup_total_insert_ne.
Qed.

Lemma adj_push a n b L c : adj (push a n b L) c = if decide (c = a) then b :: adj L c else adj L c.
Proof. unfold push. rewrite adj_insert. by destruct (decide (c = a)) as [->|]. Qed.

(** A loose link is stored at the head of a list: the two stores of half a bond. *)
Lemma publish st L loose a x n b :
  heap_ok st L loose → atoms st !! a = Some x → loose !! n = Some b →
  wpo (st ← set_next st n (neighbors x); set_neighbors st a (Some n)) (λ st',
    heap_ok st' (push a n b L) (delete n loose) ∧ same_values st st'
    ∧ dom (links st') = dom (links st) ∧ next_link st' = next_link st).
Proof.
  intros Hh Ha Hn. destruct (h_loose _ _ _ Hh n b Hn) as [[next Hl] Hnot].
  unfold set_next, set_neighbors. wsteps. apply (wpo_deref_link _ _ _ _ Hl). simpl. wsteps.
  apply (wpo_deref_atom _ _ x); [done|]. simpl.
  assert (∀ c m, m ∈ (push a n b L !!! c).*1 ↔ (c = a ∧ m = n) ∨ m ∈ (L !!! c).*1) as Hin.
  { intros c m. rewrite push_links. destruct (decide (c = a)) as [->|]; [rewrite elem_of_cons|]; tauto. }
  assert (a ∈ dom L) as Had by (rewrite <- (h_dom _ _ _ Hh); by eapply elem_of_dom_2).
  split_and!; [split; simpl| |by rewrite dom_insert_lookup_L by by eexists|done].
  - rewrite dom_push by done. rewrite dom_insert_lookup_L by by eexists. apply Hh.
  - intros c y Hc. unfold push. destruct (decide (c = a)) as [->|Hca].
    + rewrite lookup_insert_eq in Hc. injection Hc as <-. rewrite lookup_total_insert_eq. simpl. split; [done|].
      exists (neighbors x). rewrite lookup_insert_eq. split; [done|].
      eapply seg_frame; [|by apply Hh]. intros m Hm. rewrite lookup_insert_ne; [done|]. intros <-. by apply Hnot in Hm.
    + rewrite lookup_insert_ne in Hc by done. rewrite lookup_total_insert_ne by done.
      eapply seg_frame; [|by apply Hh]. intros m Hm. rewrite lookup_insert_ne; [done|]. intros <-. by eapply Hnot.
  - intros c. rewrite push_links. destruct (decide (c = a)); [|apply Hh]. constructor; [apply Hnot|apply Hh].
  - intros c d m Hc%Hin Hd%Hin. destruct Hc as [[-> ->]|Hc], Hd as [[-> Hm]|Hd]; subst; try done.
    + by apply Hnot in Hd.
    + by apply Hnot in Hc.
    + by eapply Hh.
  - intros m d [Hne Hm]%lookup_delete_Some. destruct (h_loose _ _ _ Hh m d Hm) as [Hnx Hno].
    rewrite lookup_insert_ne by done. split; [done|]. intros c [[-> ->]|Hc]%Hin; [done|by apply (Hno c)].
  - intros m y [[<- _]|[Hne Hm]]%lookup_insert_Some; [right; exists a; apply Hin; by left|].
    destruct (h_owned _ _ _ Hh m y Hm) as [Hlo|[c Hc]].
    + left. by rewrite lookup_delete_ne.
    + right. exists c. apply Hin. by right.
  - intros c y [[<- _]|[_ Hc]]%lookup_insert_Some; by eapply Hh.
  - intros m y [[<- _]|[_ Hm]]%lookup_insert_Some; by eapply Hh.
  - intros c. simpl. destruct (decide (c = a)) as [->|]; [by rewrite lookup_insert_eq, Ha|by rewrite lookup_insert_ne].
Qed.

Lemma wpo_publish {B} st L loose a x n b (k : store → outcome B) (Q : B → Prop) :
  heap_ok st L loose → atoms st !! a = Some x → loose !! n = Some b →
  (∀ st', heap_ok st' (push a n b L) (delete n loose) → same_values st st' →
     dom (links st') = dom (links st) → wpo (k st') Q) →
  wpo (set_next st n (neighbors x)) (λ st', wpo (set_neighbors st' a (Some n) ≫= k) Q).
Proof.
  intros Hh Ha Hn HQ. pose proof (publish _ _ _ _ _ _ _ Hh Ha Hn) as Hp.
  destruct (set_next _ _ _) as [st1| |]; simpl in *; [|done..]. apply wpo_bind.
  eapply wpo_mono; [exact Hp|]. intros st' (H1 & H2 & H3 & _). by apply HQ.
Qed.

(** One turn of [run_bond]. *)
Ltac bond_turn :=
  rewrite loop_S; unfold goto; cbn [bond_at]; wsteps; unfold bond_step at 1;
  cbn [bond_at atom1 atom2 neighbor1 neighbor2]; wsteps.

Lemma loose_link st L loose n b :
  heap_ok st L loose → next_link st = n →
  heap_ok (mk_store (atoms st) (<[n := mk_neighbor b None]> (links st)) (next_atom st) (Pos.succ n))
    L (<[n := b]> loose).
Proof.
  intros Hh <-. set (n := next_link st).
  assert (links st !! n = None) as Hnone.
  { destruct (links st !! n) as [y|] eqn:E; [|done]. apply (h_links _ _ _ Hh) in E. lia. }
  assert (∀ a, n ∉ (L !!! a).*1) as Hnot.
  { intros a Hin. destruct (atoms st !! a) as [x|] eqn:Ea.
    - destruct (seg_links _ _ _ _ n (h_chain _ _ _ Hh _ _ Ea) Hin) as [y Hy]. by rewrite Hnone in Hy.
    - apply not_elem_of_dom in Ea. rewrite (h_dom _ _ _ Hh) in Ea. apply not_elem_of_dom in Ea.
      rewrite lookup_total_alt, Ea in Hin. by apply elem_of_nil in Hin. }
  split; simpl; try by apply Hh.
  - intros a x Ha. eapply seg_frame; [|by apply Hh]. intros m Hm. rewrite lookup_insert_ne; [done|].
    intros <-. by apply (Hnot a).
  - intros m c [[<- <-]|[Hne Hm]]%lookup_insert_Some.
    + split; [|done]. exists None. by rewrite lookup_insert_eq.
    + rewrite lookup_insert_ne by done. by apply Hh.
  - intros m y [[<- _]|[Hne Hm]]%lookup_insert_Some; [left; by rewrite lookup_insert_eq; eexists|].
    rewrite lookup_insert_ne by done. by eapply Hh.
  - intros m y [[<- _]|[_ Hm]]%lookup_insert_Some; [lia|]. apply (h_links _ _ _ Hh) in Hm. lia.
Qed.

Lemma run_bond_ok st L a b :
  heap_ok st L ∅ → a ∈ dom L → b ∈ dom L →
  let '(st1, c) := bond_start st a b in
  wpo (run_bond st1 c) (λ st',
    heap_ok st' (push b (neighbor2 c) a (push a (neighbor1 c) b L)) ∅
    ∧ same_values st st' ∧ size (links st') = (2 + size (links st))%nat).
Proof.
  intros Hh Ha Hb. unfold bond_start. set (n1 := next_link st). set (n2 := Pos.succ n1). simpl.
  pose proof (loose_link _ _ _ n1 b Hh eq_refl) as H1.
  pose proof (loose_link _ _ _ n2 a H1 eq_refl) as H2. simpl in H2.
  set (st1 := mk_store _ _ _ _) in H2 |- *. unfold run_bond.
  destruct (heap_atom _ _ _ a H2 Ha) as [x Hx].
  bond_turn. apply (wpo_deref_atom _ _ x); [done|]. wsteps.
  assert (n1 ≠ n2) as Hne by lia. bond_turn.
  eapply (wpo_publish _ L _ a x n1 b); [done|done|by rewrite lookup_insert_ne, lookup_insert_eq|].
  intros st2 H3 Hv2 Hd2. wsteps.
  destruct (heap_atom _ _ _ b H3) as [y Hy]; [by rewrite dom_push|].
  bond_turn. apply (wpo_deref_atom _ _ y); [done|]. wsteps. bond_turn.
  eapply (wpo_publish _ _ _ b y n2 a); [done|done|by rewrite lookup_delete_ne, lookup_insert_eq|].
  intros st3 H4 Hv3 Hd3. wsteps.
  split_and!.
  - replace (delete n2 (delete n1 (<[n2:=a]> (<[n1:=b]> ∅)))) with (∅ : gmap positive positive) in H4; [done|].
    rewrite delete_insert_ne by done. by rewrite (delete_insert_id ∅ n1), delete_insert_id.
  - intros c. rewrite (Hv3 c), (Hv2 c). done.
  - rewrite <- !(size_dom (D := gset positive)), Hd3, Hd2, !(size_dom (D := gset positive)). unfold st1. simpl.
    rewrite !map_size_insert_None; [done| |rewrite lookup_insert_ne by done];
      apply eq_None_not_Some; intros [z Hz]; apply (h_links _ _ _ Hh) in Hz; lia.
Qed.

(** A link taken out of a list: the links before it lead past it now. *)
Lemma removed st st' L a x head l1 n b nx l2 :
  heap_ok st L ∅ → L !!! a = l1 ++ (n, b) :: l2 → atoms st !! a = Some x →
  links st !! n = Some (mk_neighbor b nx) →
  atoms st' = <[a := mk_atom (type x) (dimensionality x) head (value x)]> (atoms st) →
  (∀ m, m ∉ l1.*1 → links st' !! m = links st !! m) → dom (links st') = dom (links st) →
  seg (links st') head l1 nx →
  heap_ok (mk_store (atoms st') (delete n (links st')) (next_atom st) (next_link st))
    (<[a := l1 ++ l2]> L) ∅.
Proof.
  intros Hh HL Ha Hn Hat Hout Hdom Hseg.
  assert (a ∈ dom L) as Had by (rewrite <- (h_dom _ _ _ Hh); by eapply elem_of_dom_2).
  pose proof (h_nodup _ _ _ Hh a) as Hnd. rewrite HL, fmap_app, fmap_cons in Hnd. simpl in Hnd.
  apply list.NoDup_app in Hnd as (Hnd1 & Hdis & [Hn2 Hnd2]%list.NoDup_cons).
  assert (n ∉ l1.*1) as Hn1 by (intros Hin; apply (Hdis n Hin); by left).
  assert (∀ c m, m ∈ (<[a := l1 ++ l2]> L !!! c).*1 ↔ m ∈ (L !!! c).*1 ∧ m ≠ n) as Hin.
  { intros c m. destruct (decide (c = a)) as [->|Hca].
    - rewrite lookup_total_insert_eq, HL, !fmap_app, fmap_cons, !elem_of_app, elem_of_cons. simpl.
      split; [|tauto]. intros [Hm|Hm]; (split; [tauto|]); by intros ->.
    - rewrite lookup_total_insert_ne by done. split; [|tauto]. intros Hm. split; [done|]. intros ->.
      apply Hca. eapply (h_apart _ _ _ Hh); [exact Hm|]. rewrite HL, fmap_app. apply elem_of_app. right. by left. }
  split; simpl; try by apply Hh.
  - rewrite Hat, !dom_insert_lookup_L; [apply Hh|by apply elem_of_dom|by eexists].
  - intros c y Hc. rewrite Hat in Hc. destruct (decide (c = a)) as [->|Hca].
    + rewrite lookup_insert_eq in Hc. injection Hc as <-. rewrite lookup_total_insert_eq. simpl.
      apply seg_app. exists nx. split.
      * eapply seg_frame; [|exact Hseg]. intros m Hm. rewrite lookup_delete_ne; [done|]. by intros <-.
      * pose proof (h_chain _ _ _ Hh a x Ha) as Hch. rewrite HL in Hch.
        apply seg_app in Hch as (r & _ & -> & next & Hn' & Hch). rewrite Hn in Hn'. injection Hn' as <-.
        eapply seg_frame; [|exact Hch]. intros m Hm. rewrite lookup_delete_ne by (by intros <-).
        apply Hout. intros Hm1. apply (Hdis m Hm1). by right.
    + rewrite lookup_insert_ne in Hc by done. rewrite lookup_total_insert_ne by done.
      eapply seg_frame; [|by apply Hh]. intros m Hm.
      assert (m ∉ (L !!! a).*1) as Hma by (intros Hma; apply Hca; by eapply Hh).
      rewrite HL, fmap_app, fmap_cons, not_elem_of_app, not_elem_of_cons in Hma.
      rewrite lookup_delete_ne by (intros <-; tauto). apply Hout. tauto.
  - intros c. destruct (decide (c = a)) as [->|]; [rewrite lookup_total_insert_eq|rewrite lookup_total_insert_ne by done; apply Hh].
    rewrite fmap_app. apply list.NoDup_app. split_and!; [done| |done]. intros m Hm1 Hm2. apply (Hdis m Hm1). by right.
  - intros c d m [Hc _]%Hin [Hd _]%Hin. by eapply Hh.
  - intros m d Hm. by rewrite lookup_empty in Hm.
  - intros m y [Hne Hm]%lookup_delete_Some. right. assert (is_Some (links st !! m)) as [z Hz].
    { apply elem_of_dom. rewrite <- Hdom. by eapply elem_of_dom_2. }
    destruct (h_owned _ _ _ Hh m z Hz) as [[? He]|[c Hc]]; [by rewrite lookup_empty in He|].
    exists c. by apply Hin.
  - intros c y Hc. rewrite Hat in Hc. apply lookup_insert_Some in Hc as [[<- _]|[_ Hc]]; by eapply Hh.
  - intros m y [_ Hm]%lookup_delete_Some. assert (is_Some (links st !! m)) as [z Hz].
    { apply elem_of_dom. rewrite <- Hdom. by eapply elem_of_dom_2. }
    by eapply Hh.
Qed.

Fixpoint drop_first (b : positive) (l : list positive) : list positive :=
  match l with
  | [] => []
  | c :: l => if decide (c = b) then l else c :: drop_first b l
  end.

Lemma drop_first_not b l : b ∉ l → drop_first b l = l.
Proof.
  induction l as [|c l IH]; simpl; [done|]. intros [Hne Hl]%not_elem_of_cons.
  rewrite decide_False by done. by rewrite IH.
Qed.

Lemma drop_first_middle b l1 l2 : b ∉ l1 → drop_first b (l1 ++ b :: l2) = l1 ++ l2.
Proof.
  induction l1 as [|c l1 IH]; simpl; [by rewrite decide_True|]. intros [Hne Hl]%not_elem_of_cons.
  rewrite decide_False by done. by rewrite IH.
Qed.

Lemma count_drop_first b l c :
  count_occ Pos.eq_dec (drop_first b l) c = (count_occ Pos.eq_dec l c - if decide (c = b) then 1 else 0)%nat.
Proof.
  induction l as [|d l IH]; simpl; [by destruct (decide _)|].
  destruct (decide (d = b)) as [->|Hdb].
  - destruct (Pos.eq_dec b c) as [->|Hbc]; [rewrite decide_True by done; lia|].
    rewrite decide_False by congruence. lia.
  - simpl. destruct (Pos.eq_dec d c) as [->|Hdc]; rewrite IH; [|done].
    rewrite decide_False by done. lia.
Qed.

(** What one of the loops does: heap, live blocks for each link, lists. *)
Record unlinked (st : store) (L : lists) (a b : positive) (s : mem) (st' : store) (L' : lists) (s' : mem) : Prop := {
  u_heap : heap_ok st' L' ∅;
  u_dom : dom L' = dom L;
  u_adj : ∀ c, adj L' c = if decide (c = a) then drop_first b (adj L a) else adj L c;
  u_values : same_values st st';
  u_live : m_live s' - Z.of_nat (size (links st')) = m_live s - Z.of_nat (size (links st));
  u_fails : m_fails s' = m_fails s;
}.

(** The link before the next one. *)
Definition last_link (l : list (positive * positive)) : option positive :=
  match reverse l with
  | [] => None
  | (n, _) :: _ => Some n
  end.

Lemma size_delete_link (ls ls' : gmap positive ak_atom_neighbor_t) n :
  dom ls' = dom ls → is_Some (ls !! n) → S (size (delete n ls')) = size ls.
Proof.
  intros Hd Hn. rewrite <- (size_dom ls (D := gset positive)), <- Hd, size_dom.
  assert (is_Some (ls' !! n)) as Hn' by (apply elem_of_dom; rewrite Hd; by apply elem_of_dom).
  rewrite map_size_delete_Some by done. destruct Hn' as [y Hy].
  pose proof (map_size_ne_0_lookup_2 ls' n ltac:(by eexists)). lia.
Qed.

Lemma taken_out st L a x l1 n b l2 nx s :
  heap_ok st L ∅ → L !!! a = l1 ++ (n, b) :: l2 → atoms st !! a = Some x → b ∉ l1.*2 →
  links st !! n = Some (mk_neighbor b nx) → seg (links st) (neighbors x) l1 (Some n) →
  wpo (match last_link l1 with
       | Some p => set_next st p nx
       | None => set_neighbors st a nx
       end) (λ st', ∀ s', m_live s' = m_live s - 1 → m_fails s' = m_fails s →
    ∃ L', unlinked st L a b s
            (mk_store (atoms st') (delete n (links st')) (next_atom st') (next_link st')) L' s').
Proof.
  intros Hh HL Ha Hb Hn Hseg.
  assert (∀ st' s', heap_ok st' (<[a := l1 ++ l2]> L) ∅ → same_values st st' →
    S (size (links st')) = size (links st) → m_live s' = m_live s - 1 → m_fails s' = m_fails s →
    ∃ L', unlinked st L a b s st' L' s') as Hend.
  { intros st' s' Hh' Hv Hsz Hl Hf. exists (<[a := l1 ++ l2]> L). split; [done| | |done|lia|done].
    - rewrite dom_insert_lookup_L; [done|]. apply elem_of_dom. rewrite <- (h_dom _ _ _ Hh). by eapply elem_of_dom_2.
    - intros c. rewrite adj_insert. destruct (decide (c = a)); [|done]. unfold adj. rewrite HL, !fmap_app.
      simpl. by rewrite drop_first_middle. }
  unfold last_link. destruct l1 as [|[p d] l0 _] using rev_ind; simpl in *.
  - unfold set_neighbors. wsteps. apply (wpo_deref_atom _ _ x); [done|]. simpl. intros s' Hl Hf.
    eapply Hend; [|intros c; simpl| |done|done].
    + eapply (removed _ (mk_store _ (links st) (next_atom st) (next_link st)) L a x nx []); [done|done|done|done|done|done|done|done].
    + destruct (decide (c = a)) as [->|]; [by rewrite lookup_insert_eq, Ha|by rewrite lookup_insert_ne].
    + simpl. apply size_delete_link; [done|by eexists].
  - rewrite reverse_snoc. unfold set_next. wsteps.
    apply seg_app in Hseg as (r & Hl0 & -> & next & Hp & [= ->]).
    apply (wpo_deref_link _ _ _ _ Hp). cbn [wpo n_atom]. intros s' Hl Hf.
    eapply Hend; [|done| |done|done].
    + refine (removed st (mk_store (atoms st) (<[p := mk_neighbor d nx]> (links st)) (next_atom st) (next_link st))
        L a x (neighbors x) (l0 ++ [(p, d)]) n b nx l2 Hh HL Ha Hn _ _ _ _); cbn [atoms links].
      * symmetry. apply insert_id. rewrite Ha. by destruct x.
      * intros m Hm. rewrite lookup_insert_ne; [done|]. intros <-. apply Hm. rewrite fmap_app, elem_of_app. right. by left.
      * rewrite dom_insert_lookup_L; [done|by eexists].
      * apply seg_app. exists (Some p). split.
        -- eapply seg_frame; [|exact Hl0]. intros m Hm. rewrite lookup_insert_ne; [done|]. intros <-.
           pose proof (h_nodup _ _ _ Hh a) as Hnd. rewrite HL, !fmap_app in Hnd.
           apply list.NoDup_app in Hnd as (Hnd & _). apply list.NoDup_app in Hnd as (_ & Hnd & _).
           apply (Hnd p Hm). by left.
        -- split; [done|]. exists nx. by rewrite lookup_insert_eq.
    + simpl. apply size_delete_link; [|by eexists]. rewrite dom_insert_lookup_L; [done|by eexists].
Qed.

(** How many links a graph has. *)
Definition links_of (g : positive → list positive) (l : list positive) : nat :=
  length (concat (g <$> l)).

Lemma links_of_ext g h l : (∀ a, g a = h a) → links_of g l = links_of h l.
Proof. intros E. unfold links_of. f_equal. f_equal. apply list_fmap_ext. intros i a _. apply E. Qed.

Lemma NoDup_concat_fmap {A B} (f : A → list B) l :
  NoDup l → (∀ a, NoDup (f a)) → (∀ a b n, n ∈ f a → n ∈ f b → a = b) → NoDup (concat (f <$> l)).
Proof.
  intros Hl Hf Hap. induction Hl as [|a l Ha _ IH]; simpl; [constructor|].
  apply list.NoDup_app. split_and!; [apply Hf| |done].
  intros n Hn Hin. apply list_elem_of_In, in_concat in Hin as (k & Hk%list_elem_of_In & Hnk%list_elem_of_In).
  apply list_elem_of_fmap in Hk as (b & -> & Hb). by rewrite (Hap a b n Hn Hnk) in Ha.
Qed.

Lemma heap_size st L : heap_ok st L ∅ → size (links st) = links_of (adj L) (elements (dom L)).
Proof.
  intros Hh. set (f a := (L !!! a).*1).
  assert (links_of (adj L) (elements (dom L)) = length (concat (f <$> elements (dom L)))) as ->.
  { unfold links_of. rewrite !length_concat, <- !list_fmap_compose. f_equal. apply list_fmap_ext.
    intros i a _. unfold adj, f. simpl. by rewrite !length_fmap. }
  assert (NoDup (concat (f <$> elements (dom L)))) as Hnd.
  { apply NoDup_concat_fmap; [apply NoDup_elements|apply Hh|apply Hh]. }
  rewrite <- (size_list_to_set (C := gset positive)), <- (size_dom (D := gset positive)) by done.
  f_equal. apply set_eq. intros n. rewrite elem_of_dom, elem_of_list_to_set, list_elem_of_In, in_concat. split.
  - intros [y Hy]. destruct (h_owned _ _ _ Hh n y Hy) as [[? He]|[a Ha]]; [by rewrite lookup_empty in He|].
    exists (f a). split; [|by apply list_elem_of_In]. apply list_elem_of_In, list_elem_of_fmap. exists a. split; [done|].
    apply elem_of_elements, elem_of_dom. destruct (L !! a) eqn:E; [by eexists|].
    rewrite lookup_total_alt, E in Ha. by apply elem_of_nil in Ha.
  - intros (k & Hk%list_elem_of_In & Hn%list_elem_of_In). apply list_elem_of_fmap in Hk as (a & -> & Ha%elem_of_elements).
    destruct (heap_atom _ _ _ _ Hh Ha) as [x Hx]. eapply seg_links; [by apply Hh|done].
Qed.

Section graph.
Context `{Allocator}.

Lemma loopM_S {S R} fuel (step : S → M (S + R)) (x : S) :
  loopM (Datatypes.S fuel) step x
  = r ← step x; match r with inl x' => loopM fuel step x' | inr v => mret v end.
Proof. done. Qed.

Lemma unlink_first_ok st L a b s :
  heap_ok st L ∅ → a ∈ dom L →
  wp (unlink_first st a b) (λ st' s', ∃ L', unlinked st L a b s st' L' s') s.
Proof.
  intros Hh Ha. destruct (heap_atom _ _ _ _ Hh Ha) as [x Hx].
  unfold unlink_first. wsteps. apply (wpo_deref_atom _ _ x); [done|].
  pose proof (h_chain _ _ _ Hh _ _ Hx) as Hch.
  pose proof (seg_length _ _ _ _ Hch (h_nodup _ _ _ Hh a)) as Hlen.
  assert (∀ l2 l1 cur fuel, L !!! a = l1 ++ l2 → b ∉ l1.*2 → seg (links st) (neighbors x) l1 cur →
    seg (links st) cur l2 None → (length l2 < fuel)%nat →
    wp (loopM fuel (λ '(prev, current),
      match current with
      | None => mret (inr st)
      | Some n =>
          x ← lift (deref_link st n);
          if bool_decide (n_atom x = b) then
            st ← lift (match prev with
                       | Some p => set_next st p (n_next x)
                       | None => set_neighbors st a (n_next x)
                       end);
            _ ← free_obj;
            mret (inr (mk_store (atoms st) (delete n (links st)) (next_atom st) (next_link st)))
          else mret (inl (Some n, n_next x))
      end) (last_link l1, cur)) (λ st' s', ∃ L', unlinked st L a b s st' L' s') s) as Hloop.
  { induction l2 as [|[n c] l2 IH]; intros l1 cur fuel HL Hb Hseg Hrest Hf;
      (destruct fuel as [|fuel]; [simpl in Hf; lia|]); rewrite loopM_S; simpl in Hrest.
    - subst cur. wsteps. exists L. rewrite app_nil_r in HL. split; try done. intros d.
      destruct (decide (d = a)) as [->|]; [|done]. unfold adj. by rewrite HL, drop_first_not.
    - destruct Hrest as (-> & nx & Hn & Hrest). wsteps. apply (wpo_deref_link _ _ _ _ Hn). cbn [n_atom n_next].
      case_bool_decide as Hc; wsteps.
      + subst c. eapply wpo_mono; [by eapply taken_out|]. intros st' Hst'. wsteps. apply wp_free_obj. intros s' Hl Hfl.
        wsteps. by apply Hst'.
      + replace (Some n) with (last_link (l1 ++ [(n, c)])) by (unfold last_link; by rewrite reverse_snoc).
        apply IH; [by rewrite <- app_assoc| | |done|simpl in Hf; lia].
        * rewrite fmap_app, not_elem_of_app. split; [done|]. simpl. apply not_elem_of_cons. split; [done|apply not_elem_of_nil].
        * apply seg_app. exists (Some n). split; [done|]. split; [done|]. by exists nx. }
  apply (Hloop (L !!! a) [] (neighbors x)); [done|apply not_elem_of_nil|done|done|lia].
Qed.

Lemma times_adj L a b : times L a b = count_occ Pos.eq_dec (adj L a) b.
Proof. done. Qed.

Lemma elem_drop_first b c l : c ∈ drop_first b l → c ∈ l.
Proof.
  induction l as [|d l IH]; simpl; [done|]. destruct (decide (d = b)); [by right|].
  intros [->|Hc]%elem_of_cons; [by left|right; by apply IH].
Qed.

(** What [ak_atom_unbond] does to the lists: [b] leaves that of [a], then [a] that
    of [b]. *)
Definition without (a b : positive) (g : positive → list positive) : positive → list positive :=
  let g' c := if decide (c = a) then drop_first b (g a) else g c in
  λ c, if decide (c = b) then drop_first a (g' b) else g' c.

(** And [ak_atom_bond]. *)
Definition bonded (a b : positive) (g : positive → list positive) : positive → list positive :=
  let g' c := if decide (c = a) then b :: g a else g c in
  λ c, if decide (c = b) then a :: g' b else g' c.

Lemma without_bonded a b g c : without a b (bonded a b g) c = g c.
Proof.
  unfold without, bonded.
  repeat (destruct (decide _); subst; simpl; try done; try congruence).
Qed.

(** One when [c] is [a] and [d] is [b]. *)
Definition pair_count (a b c d : positive) : nat := if decide (c = a ∧ d = b) then 1 else 0.

Ltac same_atom :=
  repeat match goal with
  | |- context [decide ?P] => destruct (decide P); simpl
  | |- context [Pos.eq_dec ?x ?y] => destruct (Pos.eq_dec x y); simpl
  end; subst; try tauto; try lia; try congruence.

Lemma count_bonded a b g c d :
  count_occ Pos.eq_dec (bonded a b g c) d
  = (count_occ Pos.eq_dec (g c) d + pair_count a b c d + pair_count b a c d)%nat.
Proof. unfold bonded, pair_count. same_atom. Qed.

Lemma count_without a b g c d :
  count_occ Pos.eq_dec (without a b g c) d
  = (count_occ Pos.eq_dec (g c) d - pair_count a b c d - pair_count b a c d)%nat.
Proof.
  unfold without, pair_count. destruct (decide (c = b)) as [->|Hb].
  - rewrite count_drop_first. destruct (decide (b = a)) as [->|Ha]; [rewrite count_drop_first|]; same_atom.
  - destruct (decide (c = a)) as [->|Ha]; [rewrite count_drop_first|]; same_atom.
Qed.

Lemma pair_count_swap a b c d : pair_count a b c d = pair_count b a d c.
Proof. unfold pair_count. same_atom. Qed.

Lemma graph_ok_adj st L st' L' :
  graph_ok st L → heap_ok st' L' ∅ → dom L' = dom L →
  (∀ c, c ∈ dom L → ∀ d, d ∈ adj L' c → d ∈ dom L) →
  (∀ c d, times L' c d = times L' d c) → graph_ok st' L'.
Proof.
  intros Hg Hh Hd Hlive Hsym. split; [done| |done]. intros c d Hin. rewrite Hd. apply (Hlive c); [|done].
  destruct (L' !! c) as [l|] eqn:E; [rewrite <- Hd; by eapply elem_of_dom_2|].
  unfold adj in Hin. rewrite lookup_total_alt, E in Hin. by apply elem_of_nil in Hin.
Qed.

Lemma adj_bonded L a b n1 n2 c : adj (push b n2 a (push a n1 b L)) c = bonded a b (adj L) c.
Proof.
  rewrite !adj_push. unfold bonded.
  destruct (decide (c = b)) as [->|]; [|by destruct (decide (c = a)) as [->|]].
  by destruct (decide (b = a)) as [->|].
Qed.

Lemma ak_atom_bond_ok st L a b s :
  graph_ok st L → a ∈ dom L → b ∈ dom L →
  wp (ak_atom_bond st (Some a) (Some b)) (λ '(rc, st') s',
    (rc = -1 ∧ st' = st ∧ balance 0 true s s') ∨
    (rc = 0 ∧ balance 2 false s s' ∧ size (links st') = (2 + size (links st))%nat ∧ same_values st st'
     ∧ ∃ L', graph_ok st' L' ∧ dom L' = dom L ∧ ∀ c, adj L' c = bonded a b (adj L) c)) s.
Proof.
  intros Hg Ha Hb. unfold ak_atom_bond. wsteps. apply wp_alloc_obj. intros ok1 s1 HA1.
  wsteps. apply wp_alloc_obj. intros ok2 s2 HA2. destruct ok1, ok2; simpl; wsteps.
  - pose proof (run_bond_ok st L a b (g_heap _ _ Hg) Ha Hb) as Hrun. unfold bond_start in Hrun.
    eapply wpo_mono; [exact Hrun|]. intros st' (Hh & Hv & Hsz). wsteps. right.
    split_and!; [done|balance|done|done|]. set (n1 := neighbor1 _) in *. set (n2 := neighbor2 _) in *.
    assert (dom (push b n2 a (push a n1 b L)) = dom L) as Hdom.
    { rewrite dom_push, dom_push; [done|done|]. by rewrite dom_push. }
    exists (push b n2 a (push a n1 b L)). split_and!; [|done|].
    + eapply graph_ok_adj; [done|done|done| |].
      * intros d Hd e. rewrite !adj_push. destruct (decide (d = b)), (decide (b = a)), (decide (d = a));
          rewrite ?elem_of_cons; intros He; destruct_or?; subst; try done; by eapply Hg.
      * intros d e. unfold times. rewrite !adj_bonded, !count_bonded, (pair_count_swap a b d e), (pair_count_swap b a d e).
        pose proof (g_sym _ _ Hg d e) as Hs. unfold times in Hs. lia.
    + intros x. apply adj_bonded.
  - apply wp_free_obj. intros s3 HL3 HF3. wsteps. left. split_and!; [done|done|balance].
  - apply wp_free_obj. intros s3 HL3 HF3. wsteps. left. split_and!; [done|done|balance].
  - left. split_and!; [done|done|balance].
Qed.

Lemma ak_atom_unbond_ok st L a b s :
  graph_ok st L → a ∈ dom L → b ∈ dom L →
  wp (ak_atom_unbond st (Some a) (Some b)) (λ '(rc, st') s',
    rc = 0 ∧ m_fails s' = m_fails s ∧ same_values st st'
    ∧ m_live s' - Z.of_nat (size (links st')) = m_live s - Z.of_nat (size (links st))
    ∧ ∃ L', graph_ok st' L' ∧ dom L' = dom L ∧ ∀ c, adj L' c = without a b (adj L) c) s.
Proof.
  intros Hg Ha Hb. unfold ak_atom_unbond. wsteps.
  eapply wp_mono; [apply (unlink_first_ok _ L); [apply Hg|done]|]. intros st1 s1 (L1 & H1). wsteps.
  eapply wp_mono; [apply (unlink_first_ok _ L1); [apply H1|by rewrite (u_dom _ _ _ _ _ _ _ _ H1)]|].
  intros st2 s2 (L2 & H2). wsteps.
  assert (∀ c, adj L2 c = without a b (adj L) c) as Hadj.
  { intros c. rewrite (u_adj _ _ _ _ _ _ _ _ H2), !(u_adj _ _ _ _ _ _ _ _ H1). done. }
  split_and!; [done| |intros c; rewrite (u_values _ _ _ _ _ _ _ _ H2), (u_values _ _ _ _ _ _ _ _ H1); done| |].
  - by rewrite (u_fails _ _ _ _ _ _ _ _ H2), (u_fails _ _ _ _ _ _ _ _ H1).
  - by rewrite (u_live _ _ _ _ _ _ _ _ H2), (u_live _ _ _ _ _ _ _ _ H1).
  - assert (dom L2 = dom L) as Hd by (by rewrite (u_dom _ _ _ _ _ _ _ _ H2), (u_dom _ _ _ _ _ _ _ _ H1)).
    exists L2. split_and!; [|done|done]. eapply graph_ok_adj; [done|apply H2|done| |].
    + intros c Hc d. rewrite Hadj. unfold without. intros Hin. apply (g_live _ _ Hg c).
      destruct (decide (c = b)) as [->|]; [apply elem_drop_first in Hin|];
        (destruct (decide _) as [->|]; [by apply elem_drop_first in Hin|done]).
    + intros c d. unfold times. rewrite !Hadj, !count_without, (pair_count_swap a b c d), (pair_count_swap b a c d).
      pose proof (g_sym _ _ Hg c d) as Hs. unfold times in Hs. lia.
Qed.

Lemma free_links_ok l : ∀ p st fuel s,
  seg (links st) p l None → NoDup l.*1 → (length l < fuel)%nat →
  wp (loopM fuel (λ '(neighbor, st),
    match neighbor with
    | None => mret (inr st)
    | Some n =>
        x ← lift (deref_link st n);
        _ ← free_obj;
        mret (inl (n_next x, mk_store (atoms st) (delete n (links st)) (next_atom st) (next_link st)))
    end) (p, st)) (λ st' s',
    atoms st' = atoms st ∧ next_atom st' = next_atom st ∧ next_link st' = next_link st
    ∧ (∀ m, links st' !! m = if decide (m ∈ l.*1) then None else links st !! m)
    ∧ m_live s' = m_live s - zlen l ∧ m_fails s' = m_fails s) s.
Proof.
  induction l as [|[n b] l IH]; intros p st fuel s Hseg Hnd Hf;
    (destruct fuel as [|fuel]; [simpl in Hf; lia|]); rewrite loopM_S; simpl in Hseg.
  - subst p. wsteps. change (zlen []) with 0. split_and!; [done..| |lia|done]. intros m. by rewrite decide_False by apply not_elem_of_nil.
  - destruct Hseg as (-> & nx & Hn & Hseg). simpl in Hnd. apply list.NoDup_cons in Hnd as [Hn' Hnd]. wsteps.
    apply (wpo_deref_link _ _ _ _ Hn). wsteps. apply wp_free_obj. intros s1 HL HF. wsteps.
    eapply wp_mono; [apply IH|].
    + cbn [links]. eapply seg_frame; [|exact Hseg]. intros m Hm. rewrite lookup_delete_ne; [done|]. by intros <-.
    + done.
    + simpl in Hf. lia.
    + intros st' s' (Ha & Hna & Hnl & Hl & HL' & HF'). cbn [atoms links next_atom next_link] in *.
      rewrite zlen_cons. split_and!; [done|done|done| |lia|lia]. intros m. rewrite Hl.
      destruct (decide (m ∈ l.*1)) as [Hm|Hm]; [by rewrite decide_True by (by right)|].
      destruct (decide (m = n)) as [->|Hmn].
      * rewrite lookup_delete_eq, decide_True; [done|by left].
      * rewrite lookup_delete_ne, decide_False; [done| |done]. by intros [->|?]%elem_of_cons.
Qed.

Lemma ak_atom_free_ok st L a s :
  graph_ok st L → a ∈ dom L →
  wp (ak_atom_free st (Some a)) (λ st' s',
    heap_ok st' (delete a L) ∅ ∧ (adj L a = [] → graph_ok st' (delete a L))
    ∧ m_live s' = m_live s - 1 - zlen (adj L a) ∧ m_fails s' = m_fails s) s.
Proof.
  intros Hg Ha. pose proof (g_heap _ _ Hg) as Hh. destruct (heap_atom _ _ _ _ Hh Ha) as [x Hx].
  unfold ak_atom_free. wsteps. apply (wpo_deref_atom _ _ x); [done|]. wsteps.
  pose proof (h_chain _ _ _ Hh _ _ Hx) as Hch. unfold free_links.
  eapply wp_mono; [apply (free_links_ok (L !!! a)); [done|apply Hh|]|].
  { pose proof (seg_length _ _ _ _ Hch (h_nodup _ _ _ Hh a)). lia. }
  intros st1 s1 (Hat & Hna & Hnl & Hl & HL & HF). wsteps. apply wp_free_obj. intros s2 HL2 HF2. wsteps.
  assert (∀ c, c ≠ a → delete a L !!! c = L !!! c) as Hin by (intros c Hc; by rewrite lookup_total_delete_ne).
  assert (∀ c m, m ∈ (delete a L !!! c).*1 ↔ c ≠ a ∧ m ∈ (L !!! c).*1) as Hel.
  { intros c m. destruct (decide (c = a)) as [->|Hc]; [|rewrite Hin by done; tauto].
    rewrite lookup_total_delete_eq. split; [by intros ?%elem_of_nil|tauto]. }
  assert (heap_ok (mk_store (delete a (atoms st1)) (links st1) (next_atom st1) (next_link st1)) (delete a L) ∅) as Hh'.
  { split; cbn [atoms links next_atom next_link]; rewrite ?Hat, ?Hna, ?Hnl.
    - rewrite !dom_delete_L. by rewrite (h_dom _ _ _ Hh).
    - intros c y [Hne Hc]%lookup_delete_Some. rewrite Hin by done. eapply seg_frame; [|by apply Hh].
      intros m Hm. rewrite Hl, decide_False; [done|]. intros Hma. apply Hne. symmetry. by eapply Hh.
    - intros c. destruct (decide (c = a)) as [->|Hc]; [rewrite lookup_total_delete_eq; constructor|rewrite Hin by done; apply Hh].
    - intros c d m [_ Hc]%Hel [_ Hd]%Hel. by eapply Hh.
    - intros m d Hm. by rewrite lookup_empty in Hm.
    - intros m y Hm. rewrite Hl in Hm. destruct (decide (m ∈ (L !!! a).*1)) as [|Hma]; [done|].
      destruct (h_owned _ _ _ Hh m y Hm) as [[? He]|[c Hc]]; [by rewrite lookup_empty in He|].
      right. exists c. apply Hel. split; [|done]. by intros ->.
    - intros c y [_ Hc]%lookup_delete_Some. by eapply Hh.
    - intros m y Hm. rewrite Hl in Hm. destruct (decide _); [done|]. by eapply Hh. }
  split_and!; [done| |unfold adj; unfold zlen in *; rewrite length_fmap; lia|lia].
  intros Hnil. assert (∀ c, a ∉ adj L c) as Hno.
  { intros c Hc. apply list_elem_of_In, (count_occ_In Pos.eq_dec) in Hc.
    pose proof (g_sym _ _ Hg c a) as Hs. unfold times in Hs. rewrite Hnil in Hs. simpl in Hs. lia. }
  assert (∀ c, adj (delete a L) c = adj L c) as Hadj.
  { intros c. unfold adj. destruct (decide (c = a)) as [->|Hc]; [|by rewrite Hin].
    rewrite lookup_total_delete_eq. symmetry. exact Hnil. }
  split; [done| |].
  - intros c d. rewrite Hadj, dom_delete_L. intros Hd. apply elem_of_difference.
    split; [by eapply Hg|]. intros ->%elem_of_singleton. by apply (Hno c).
  - intros c d. unfold times. rewrite !Hadj. apply Hg.
Qed.

Lemma ak_atom_new_ok st L t v dim s :
  graph_ok st L →
  wp (ak_atom_new st t v dim) (λ '(r, st') s',
    match r with
    | None => st' = st ∧ balance 0 true s s'
    | Some a => (a ∉ dom L) ∧ graph_ok st' (<[a := []]> L) ∧ balance 1 false s s'
        ∧ ak_atom_get_type st' (Some a) = Ret t ∧ ak_atom_get_dimensionality st' (Some a) = Ret dim
        ∧ ∃ old, ak_atom_get_value st' (Some a) = Ret (load_value t 0 (store_value t old v))
    end) s.
Proof.
  intros Hg. pose proof (g_heap _ _ Hg) as Hh. unfold ak_atom_new. wsteps.
  apply wp_alloc_bytes; [done| |].
  { intros s' HA. wsteps. split; [done|balance]. }
  intros block s' HA _ _. wsteps. set (a := next_atom st).
  assert (a ∉ dom L) as Hfr.
  { rewrite <- (h_dom _ _ _ Hh). intros [x Hx]%elem_of_dom. apply (h_atoms _ _ _ Hh) in Hx. unfold a in Hx. lia. }
  assert (∀ c, (<[a := []]> L) !!! c = L !!! c) as Hin.
  { intros c. destruct (decide (c = a)) as [->|]; [|by rewrite lookup_total_insert_ne].
    rewrite lookup_total_insert_eq, lookup_total_alt. apply not_elem_of_dom in Hfr. by rewrite Hfr. }
  unfold ak_atom_get_type, ak_atom_get_dimensionality, ak_atom_get_value, deref_atom. cbn [atoms].
  rewrite lookup_insert_eq. cbn.
  split_and!; [done| |balance|done|done|by eexists].
  split; [split; cbn [atoms links next_atom next_link]; try (intros; rewrite ?Hin in *; by eapply Hh)|..].
  - rewrite !dom_insert_L. by rewrite (h_dom _ _ _ Hh).
  - intros c x [[<- <-]|[Hne Hc]]%lookup_insert_Some; rewrite Hin.
    + simpl. apply not_elem_of_dom in Hfr. by rewrite lookup_total_alt, Hfr.
    + by apply Hh.
  - intros m d Hm. by rewrite lookup_empty in Hm.
  - intros m y Hm. destruct (h_owned _ _ _ Hh m y Hm) as [|[c Hc]]; [by left|right]. exists c. by rewrite Hin.
  - intros c x [[<- _]|[_ Hc]]%lookup_insert_Some; [lia|]. apply (h_atoms _ _ _ Hh) in Hc. unfold a. lia.
  - intros c d. unfold adj. rewrite Hin, dom_insert_L. intros Hd. apply elem_of_union. right. by eapply Hg.
  - intros c d. unfold times, adj. rewrite !Hin. apply Hg.
Qed.
End graph.

(** * Searching *)

(** The search without capacities: the atoms visited and those found. *)
Fixpoint dfs (g : positive → list positive) (k : nat) (a : positive)
    (vr : list positive * list positive) : list positive * list positive :=
  if decide (a ∈ vr.1) then vr else
  match k with
  | O => (vr.1 ++ [a], vr.2 ++ [a])
  | S k => fold_left (λ vr b, dfs g k b vr) (g a) (vr.1 ++ [a], vr.2)
  end.

(** A cluster of the atoms [xs]. *)
Record cluster_ok (c : ak_atom_cluster_t) (xs : list positive) : Prop := {
  c_slots : zlen (c_atoms c) = c_capacity c;
  c_cap : 0 < c_capacity c <= 2 ^ 60;
  c_number : c_count c = zlen xs;
  c_fits : zlen xs <= c_capacity c;
  c_values : take (length xs) (c_atoms c) = Some <$> xs;
}.

Section search.
Context `{Allocator}.

Lemma cluster_new_ok n s :
  0 < n <= 2 ^ 60 →
  wp (ak_atom_cluster_new n) (λ r s', match r with
    | None => balance 0 true s s'
    | Some c => cluster_ok c [] ∧ balance 2 false s s'
    end) s.
Proof.
  intros Hn. unfold ak_atom_cluster_new. wsteps. apply wp_alloc_obj. intros [|] s1 HA1; simpl; wsteps; [|balance].
  apply wp_alloc_obj. intros [|] s2 HA2; simpl; wsteps.
  - split; [|balance]. split; simpl; try done.
    + unfold zlen, pointers, sizeof_pointer. rewrite length_replicate, u64_small by lia. dlia.
    + change (zlen []) with 0. lia.
  - apply wp_free_obj. intros s3 HL HF. wsteps. balance.
Qed.

Lemma take_push (slots : list (option positive)) xs a :
  take (length xs) slots = Some <$> xs → zlen xs < zlen slots →
  take (length (xs ++ [a])) (<[Z.to_nat (zlen xs) := Some a]> slots) = Some <$> (xs ++ [a]).
Proof.
  intros Ht Hlt. unfold zlen in *. rewrite Nat2Z.id, length_app. simpl.
  rewrite Nat.add_1_r, (take_S_r _ _ (Some a)), take_insert_ge, Ht, fmap_app; [done|done|].
  rewrite list_lookup_insert_eq; [done|lia].
Qed.

Lemma put_ok c xs a :
  cluster_ok c xs → zlen xs < c_capacity c → ∃ slots,
    wr (c_atoms c) (c_count c) (Some a) = Ret slots
    ∧ cluster_ok (mk_cluster slots (u64 (c_count c + 1)) (c_capacity c)) (xs ++ [a]).
Proof.
  intros [Hs Hcap Hcnt Hf Ht] Hlt. pose proof (zlen_nonneg xs). rewrite wr_ok by lia. eexists. split; [done|].
  rewrite Hcnt. split; simpl; rewrite ?zlen_app; change (zlen [a]) with 1.
  - by rewrite zlen_insert.
  - done.
  - by rewrite u64_small by lia.
  - lia.
  - apply take_push; [done|lia].
Qed.

(** A cluster grows by the atom, or stays as it is. *)
Lemma cluster_add_ok c xs a s :
  cluster_ok c xs → zlen xs < 2 ^ 59 →
  wp (ak_atom_cluster_add (Some c) (Some a)) (λ '(rc, r) s', ∃ c', r = Some c' ∧
    ((rc = 0 ∧ cluster_ok c' (xs ++ [a]) ∧ balance 0 false s s')
     ∨ (rc = -1 ∧ c' = c ∧ balance 0 true s s'))) s.
Proof.
  intros Hc Hlen. pose proof (zlen_nonneg xs). unfold ak_atom_cluster_add. wsteps.
  destruct (Z.leb_spec (c_capacity c) (c_count c)) as [Hle|Hgt].
  - pose proof Hc as [Hs Hcap Hcnt Hf Ht]. rewrite (u64_small (c_capacity c * 2)) by lia.
    assert (pointers (u64 (sizeof_pointer * (c_capacity c * 2))) = Z.to_nat (c_capacity c * 2)) as ->.
    { unfold pointers, sizeof_pointer. rewrite u64_small by lia. f_equal. dlia. }
    wsteps. apply wp_alloc_obj. intros [|] s1 HA; simpl; wsteps.
    + apply wp_free_obj. intros s2 HL HF. wsteps.
      edestruct (put_ok (mk_cluster (resize (Z.to_nat (c_capacity c * 2)) None (c_atoms c)) (c_count c) (c_capacity c * 2)) xs a)
        as (slots & Hw & Hc2); [|simpl; lia|].
      * split; simpl; [| |done|lia|].
        -- unfold zlen. rewrite length_resize. lia.
        -- lia.
        -- rewrite resize_ge by (unfold zlen in *; lia). rewrite take_app_le by (unfold zlen in *; lia). done.
      * rewrite Hw. wsteps. eexists. split; [done|]. left. split_and!; [done|done|balance].
    + exists c. split; [done|]. right. split_and!; [done|done|balance].
  - destruct (put_ok c xs a) as (slots & Hw & Hc2); [done|destruct Hc; lia|]. wsteps. rewrite Hw. wsteps.
    eexists. split; [done|]. left. split_and!; [done|done|balance].
Qed.

(** The state of a search that began in memory [m0]: [V] are visited, [R] found,
    those there was memory for in the cluster. *)
Record searching (st : store) (L : lists) (m0 : mem) (s : search) (V R : list positive) (m : mem) : Prop := {
  s_array : zlen (visited s) = 1024;
  s_count : visited_count s = zlen V;
  s_visited : take (length V) (visited s) = Some <$> V;
  s_nodup : NoDup V;
  s_known : ∀ a, a ∈ V → a ∈ dom L;
  s_few : (length R <= length V)%nat;
  s_found : ∃ c zs, cluster s = Some c ∧ cluster_ok c zs ∧ sublist zs R
    ∧ (m_fails m = m_fails m0 → zs = R);
  s_live : m_live m = m_live m0;
  s_fails : (m_fails m0 <= m_fails m)%nat;
}.

Section with_graph.
Context (st : store) (L : lists) (m0 : mem).
Hypothesis Hg : graph_ok st L.
Hypothesis Hsize : (size L <= 1024)%nat.

Lemma room V : NoDup V → (∀ a, a ∈ V → a ∈ dom L) → (length V <= 1024)%nat.
Proof.
  intros Hnd Hin. rewrite <- (size_list_to_set (C := gset positive)) by done.
  etrans; [apply (subseteq_size _ (dom L))|by rewrite size_dom].
  intros a Ha%elem_of_list_to_set. by apply Hin.
Qed.

Lemma slot_visited s V R m i x :
  searching st L m0 s V R m → V !! i = Some x → rd (visited s) (Z.of_nat i) = Ret (Some x).
Proof.
  intros Hs Hi. apply rd_lookup; [lia|]. rewrite Nat2Z.id. pose proof (lookup_lt_Some _ _ _ Hi) as Hlt.
  rewrite <- (lookup_take_lt _ (length V)), (s_visited _ _ _ _ _ _ _ Hs) by done.
  by rewrite list_lookup_fmap, Hi.
Qed.

Lemma is_visited_ok s V R m a :
  searching st L m0 s V R m → wpo (is_visited s a) (λ b, b = bool_decide (a ∈ V)).
Proof.
  intros Hs. unfold is_visited. rewrite (s_count _ _ _ _ _ _ _ Hs).
  pose proof (room V (s_nodup _ _ _ _ _ _ _ Hs) (s_known _ _ _ _ _ _ _ Hs)) as Hr.
  apply (loop_wpo (λ i, 0 <= i <= zlen V ∧ a ∉ take (Z.to_nat i) V) (λ i, Z.to_nat (zlen V - i))).
  - split; [pose proof (zlen_nonneg V); lia|]. apply not_elem_of_nil.
  - pose proof (zlen_nonneg V). lia.
  - intros i [Hi Hno]. unfold zlen in *. destruct (Z.ltb_spec i (Z.of_nat (length V))) as [Hlt|Hge].
    + destruct (lookup_lt_is_Some_2 V (Z.to_nat i)) as [x Hx]; [lia|].
      wsteps. rewrite <- (Z2Nat.id i) by lia. rewrite (slot_visited _ _ _ _ _ _ Hs Hx). wsteps.
      case_bool_decide as Ha; simpl.
      * injection Ha as ->. rewrite bool_decide_eq_true_2; [done|]. by eapply list_elem_of_lookup_2.
      * rewrite u64_small by lia. split; [split; [lia|]|lia].
        rewrite Z2Nat.inj_add, Nat2Z.id, Nat.add_1_r, (take_S_r _ _ x) by (done || lia).
        rewrite not_elem_of_app. split; [done|]. intros ->%list_elem_of_singleton. by apply Ha.
    + wsteps. rewrite bool_decide_eq_false_2; [done|]. intros Ha. apply Hno. by rewrite take_ge by lia.
Qed.

Lemma mark_ok s V R m a :
  searching st L m0 s V R m → a ∈ dom L → a ∉ V →
  wpo (if visited_count s <? 1024 then
         v ← wr (visited s) (visited_count s) (Some a);
         Ret (mk_search (cluster s) v (u64 (visited_count s + 1)))
       else Ret s) (λ s', searching st L m0 s' (V ++ [a]) R m).
Proof.
  intros Hs Ha HV. pose proof Hs as [H1 H2 H3 H4 H5 H6 H7 H8 H9].
  assert (NoDup (V ++ [a])) as Hnd.
  { apply list.NoDup_app. split_and!; [done| |apply NoDup_singleton]. by intros x Hx ->%list_elem_of_singleton. }
  assert (∀ b, b ∈ V ++ [a] → b ∈ dom L) as Hin.
  { intros b [Hb| ->%list_elem_of_singleton]%elem_of_app; [by apply H5|done]. }
  pose proof (room _ Hnd Hin) as Hr. rewrite length_app in Hr. simpl in Hr. unfold zlen in *.
  destruct (Z.ltb_spec (visited_count s) 1024); [|lia]. wsteps. rewrite wr_ok by (unfold zlen; lia). simpl.
  split; simpl; try done.
  - by rewrite zlen_insert.
  - rewrite H2, u64_small by (unfold zlen in *; lia). rewrite zlen_app. done.
  - rewrite H2. apply take_push; [done|unfold zlen in *; lia].
  - rewrite length_app. lia.
Qed.

Lemma add_found s V R m a :
  searching st L m0 s V R m → (length R < length V)%nat →
  wp ('(_, c) ← ak_atom_cluster_add (cluster s) (Some a);
      mret (mk_search c (visited s) (visited_count s))) (λ s' m', searching st L m0 s' V (R ++ [a]) m') m.
Proof.
  intros Hs Hlt. pose proof Hs as [H1 H2 H3 H4 H5 H6 (c & zs & Hc & Hok & Hsub & Hex) H8 H9].
  wsteps. rewrite Hc. pose proof (room V H4 H5) as Hr. pose proof (sublist_length _ _ Hsub).
  eapply wp_mono; [apply (cluster_add_ok c zs); [done|unfold zlen; lia]|].
  intros [rc r] m' (c' & -> & Hcase). wsteps.
  destruct Hcase as [(_ & Hok' & [HL HF])|(_ & -> & [HL HF])]; split; simpl; try done; try lia;
    try (rewrite length_app; simpl; lia).
  - exists c', (zs ++ [a]). split_and!; [done|done|by apply sublist_app|]. intros E. f_equal. apply Hex. lia.
  - exists c, zs. split_and!; [done|done|by apply sublist_inserts_r|lia].
Qed.

Lemma walk_links_ok (visit : positive → search → M search) f l : ∀ p fuel s V R m,
  seg (links st) p l None → (length l < fuel)%nat →
  (∀ b s V R m, b ∈ l.*2 → searching st L m0 s V R m →
     wp (visit b s) (λ s' m', let '(V', R') := f (V, R) b in searching st L m0 s' V' R' m') m) →
  searching st L m0 s V R m →
  wp (loopM fuel (λ '(neighbor, s),
    match neighbor with
    | None => mret (inr s)
    | Some n => x ← lift (deref_link st n); s ← visit (n_atom x) s; mret (inl (n_next x, s))
    end) (p, s)) (λ s' m', let '(V', R') := fold_left f l.*2 (V, R) in searching st L m0 s' V' R' m') m.
Proof.
  induction l as [|[n b] l IH]; intros p fuel s V R m Hseg Hf Hvisit Hs;
    (destruct fuel as [|fuel]; [simpl in Hf; lia|]); rewrite loopM_S; simpl in Hseg.
  - subst p. wsteps. done.
  - destruct Hseg as (-> & nx & Hn & Hseg). wsteps. apply (wpo_deref_link _ _ _ _ Hn). wsteps.
    eapply wp_mono; [apply (Hvisit b); [by left|exact Hs]|]. intros s1 m1 Hs1. wsteps.
    change (fold_left f ((n, b) :: l).*2 (V, R)) with (fold_left f l.*2 (f (V, R) b)).
    destruct (f (V, R) b) as [V1 R1]. simpl in Hf.
    apply IH; [done|lia| |done]. intros c s2 V2 R2 m2 Hc. apply Hvisit. by right.
Qed.

Lemma dfs_visited g k a V R : a ∈ V → dfs g k a (V, R) = (V, R).
Proof. intros Ha. destruct k; simpl; by rewrite decide_True. Qed.

(** The recursion is the search. *)
Lemma recursive_ok distance k : ∀ fuel cur a s V R m,
  distance = cur + Z.of_nat k → 0 <= cur → 1 <= distance < 2 ^ 64 - 1 → (k < fuel)%nat →
  a ∈ dom L → searching st L m0 s V R m →
  wp (ak_atom_neighbors_recursive fuel st distance cur 1024 a s) (λ s' m',
    let '(V', R') := dfs (adj L) k a (V, R) in searching st L m0 s' V' R' m') m.
Proof.
  induction k as [|k IH]; intros [|fuel] cur a s V R m Hd Hcur Hr Hf Ha Hs; try lia; simpl ak_atom_neighbors_recursive;
    (destruct (Z.ltb_spec distance cur); [lia|]); wsteps; (eapply wpo_mono; [by eapply is_visited_ok|]);
    intros b ->; (case_bool_decide as HV; [rewrite dfs_visited by done; by wsteps|]); wsteps;
    (eapply wpo_mono; [by apply mark_ok|]); intros s1 Hs1; wsteps; cbn [dfs fst snd]; rewrite decide_False by done.
  - rewrite (proj2 (Z.eqb_eq cur distance)), (proj2 (Z.ltb_lt 0 cur)) by lia. simpl.
    apply add_found; [done|]. rewrite length_app. simpl. pose proof (s_few _ _ _ _ _ _ _ Hs). lia.
  - rewrite (proj2 (Z.eqb_neq cur distance)) by lia. simpl.
    destruct (heap_atom _ _ _ _ (g_heap _ _ Hg) Ha) as [x Hx]. wsteps. apply (wpo_deref_atom _ _ x); [done|]. wsteps.
    pose proof (h_chain _ _ _ (g_heap _ _ Hg) _ _ Hx) as Hch. unfold walk_links.
    apply (walk_links_ok _ (λ vr b, dfs (adj L) k b vr) (L !!! a)); [done| | |done].
    + pose proof (seg_length _ _ _ _ Hch (h_nodup _ _ _ (g_heap _ _ Hg) a)). lia.
    + intros b s2 V2 R2 m2 Hb Hs2. apply IH; [rewrite u64_small by lia; lia|rewrite u64_small by lia; lia|done|lia| |done].
      by apply (g_live _ _ Hg a).
Qed.
End with_graph.
End search.

(** * Paths *)

Section paths.
Context (g : positive → list positive).

(** From an atom, through the atoms listed, to the last of them. *)
Inductive path : positive → list positive → positive → Prop :=
| path_here a : path a [] a
| path_step a b vs c : b ∈ g a → path b vs c → path a (b :: vs) c.

Definition simple_path (a : positive) (vs : list positive) (c : positive) : Prop :=
  path a vs c ∧ NoDup (a :: vs).

Lemma path_end a vs c : path a vs c → c ∈ a :: vs.
Proof. induction 1 as [|a b vs c Hb _ IH]; [by left|by right]. Qed.

Lemma path_app a vs b ws c : path a vs b → path b ws c → path a (vs ++ ws) c.
Proof. induction 1 as [|a b' vs b Hb _ IH]; [done|]. intros Hc. econstructor; [done|by apply IH]. Qed.

(** What a search from [a] adds to the visited [V]. *)
Record adds (k : nat) (starts V nV nR : list positive) : Prop := {
  a_sub : sublist nR nV;
  a_zero : k = O → nR = nV;
  a_nodup : NoDup nV;
  a_fresh : ∀ x, x ∈ nV → x ∉ V;
  a_starts : ∀ a, a ∈ starts → a ∈ V ∨ a ∈ nV;
  a_near : ∀ x, x ∈ nV → ∃ a vs, a ∈ starts ∧ simple_path a vs x ∧ (∀ y, y ∈ a :: vs → y ∉ V);
  a_exact : ∀ x, x ∈ nR → ∃ a vs, a ∈ starts ∧ simple_path a vs x ∧ (∀ y, y ∈ a :: vs → y ∉ V) ∧ length vs = k;
}.

Lemma adds_nil k V : adds k [] V [] [].
Proof. split; try done; try (by intros x ?%elem_of_nil); constructor. Qed.

Lemma adds_visited k a V : a ∈ V → adds k [a] V [] [].
Proof.
  intros Ha. split;
    [constructor|done|constructor|by intros x ?%elem_of_nil| |by intros x ?%elem_of_nil|by intros x ?%elem_of_nil].
  intros b ->%list_elem_of_singleton. by left.
Qed.

Lemma adds_app k as1 as2 V nV1 nR1 nV2 nR2 :
  adds k as1 V nV1 nR1 → adds k as2 (V ++ nV1) nV2 nR2 → adds k (as1 ++ as2) V (nV1 ++ nV2) (nR1 ++ nR2).
Proof.
  intros [S1 Z1 N1 F1 T1 P1 E1] [S2 Z2 N2 F2 T2 P2 E2]. split.
  - by apply sublist_app.
  - intros ->. by rewrite Z1, Z2.
  - apply list.NoDup_app. split_and!; [done| |done]. intros x H1 H2. apply (F2 x H2), elem_of_app. by right.
  - intros x [Hx|Hx]%elem_of_app; [by apply F1|]. intros HV. apply (F2 x Hx), elem_of_app. by left.
  - intros a [Ha|Ha]%elem_of_app; rewrite elem_of_app; [destruct (T1 a Ha); tauto|].
    destruct (T2 a Ha) as [[HV|HV]%elem_of_app|HV]; tauto.
  - intros x [Hx|Hx]%elem_of_app.
    + destruct (P1 x Hx) as (a & vs & Ha & Hp & Hy). exists a, vs. rewrite elem_of_app. tauto.
    + destruct (P2 x Hx) as (a & vs & Ha & Hp & Hy). exists a, vs. rewrite elem_of_app. split_and!; [tauto|done|].
      intros y Hy' HV. apply (Hy y Hy'), elem_of_app. by left.
  - intros x [Hx|Hx]%elem_of_app.
    + destruct (E1 x Hx) as (a & vs & Ha & Hp & Hy & Hl). exists a, vs. rewrite elem_of_app. tauto.
    + destruct (E2 x Hx) as (a & vs & Ha & Hp & Hy & Hl). exists a, vs. rewrite elem_of_app. split_and!; [tauto|done| |done].
      intros y Hy' HV. apply (Hy y Hy'), elem_of_app. by left.
Qed.

(** A search of the neighbors is one of the atom, a step shorter. *)
Lemma adds_step k a V nV nR :
  a ∉ V → adds k (g a) (V ++ [a]) nV nR → adds (S k) [a] V (a :: nV) nR.
Proof.
  intros Ha [S N Z F T P E]. 
  assert (∀ x b vs, b ∈ g a → simple_path b vs x → (∀ y, y ∈ b :: vs → y ∉ V ++ [a]) →
    simple_path a (b :: vs) x ∧ (∀ y, y ∈ a :: b :: vs → y ∉ V)) as Hgo.
  { intros x b vs Hb [Hp Hnd] Hy. split.
    - split; [by econstructor|]. apply list.NoDup_cons. split; [|done]. intros Hin. apply (Hy a Hin), elem_of_app. right. by left.
    - intros y [->|Hin]%elem_of_cons; [done|]. intros HV. apply (Hy y Hin), elem_of_app. by left. }
  split.
  - by apply sublist_cons.
  - done.
  - apply list.NoDup_cons. split; [|done]. intros Hin. apply (F a Hin), elem_of_app. right. by left.
  - intros x [->|Hx]%elem_of_cons; [done|]. intros HV. apply (F x Hx), elem_of_app. by left.
  - intros b ->%list_elem_of_singleton. right. by left.
  - intros x [->|Hx]%elem_of_cons.
    + exists a, []. split_and!; [by left|split; [constructor|apply NoDup_singleton]|]. by intros y ->%list_elem_of_singleton.
    + destruct (P x Hx) as (b & vs & Hb & Hp & Hy). destruct (Hgo x b vs Hb Hp Hy). exists a, (b :: vs). split; [by left|done].
  - intros x Hx. destruct (E x Hx) as (b & vs & Hb & Hp & Hy & Hl). destruct (Hgo x b vs Hb Hp Hy).
    exists a, (b :: vs). split_and!; [by left|done..|]. simpl. by rewrite Hl.
Qed.

Lemma fold_adds k bs : ∀ V R,
  (∀ b V R, ∃ nV nR, dfs g k b (V, R) = (V ++ nV, R ++ nR) ∧ adds k [b] V nV nR) →
  ∃ nV nR, fold_left (λ vr b, dfs g k b vr) bs (V, R) = (V ++ nV, R ++ nR) ∧ adds k bs V nV nR.
Proof.
  induction bs as [|b bs IH]; intros V R Hdfs; simpl.
  - exists [], []. rewrite !app_nil_r. split; [done|apply adds_nil].
  - destruct (Hdfs b V R) as (nV1 & nR1 & -> & H1). destruct (IH (V ++ nV1) (R ++ nR1) Hdfs) as (nV2 & nR2 & -> & H2).
    exists (nV1 ++ nV2), (nR1 ++ nR2). rewrite !app_assoc. split; [done|]. by apply (adds_app k [b] bs).
Qed.

Lemma dfs_adds k : ∀ a V R, ∃ nV nR, dfs g k a (V, R) = (V ++ nV, R ++ nR) ∧ adds k [a] V nV nR.
Proof.
  induction k as [|k IH]; intros a V R; simpl; (destruct (decide (a ∈ V)) as [Ha|Ha];
    [exists [], []; rewrite !app_nil_r; split; [done|by apply adds_visited]|]).
  - exists [a], [a]. split; [done|]. split; try done.
    + apply NoDup_singleton.
    + by intros x ->%list_elem_of_singleton.
    + intros b ->%list_elem_of_singleton. right. by left.
    + intros x ->%list_elem_of_singleton. exists a, []. split_and!; [by left|split; [constructor|apply NoDup_singleton]|].
      by intros y ->%list_elem_of_singleton.
    + intros x ->%list_elem_of_singleton. exists a, []. split_and!; [by left|split; [constructor|apply NoDup_singleton]| |done].
      by intros y ->%list_elem_of_singleton.
  - destruct (fold_adds k (g a) (V ++ [a]) R IH) as (nV & nR & -> & Hadds).
    exists (a :: nV), nR. rewrite <- app_assoc. split; [done|]. by apply adds_step.
Qed.

(** From [r] there is at most one simple path to each atom, as in a tree. *)
Definition one_path (r : positive) : Prop :=
  ∀ vs ws c, simple_path r vs c → simple_path r ws c → vs = ws.

Section tree.
Context (r : positive) (Hone : one_path r).

(** Beyond the path [ps] from [r], all simple paths through [b] have atoms not yet
    visited, or were searched. *)
Definition ahead (k : nat) (ps : list positive) (b : positive) (V R : list positive) : Prop :=
  (∀ vs x, path b vs x → NoDup (r :: ps ++ b :: vs) → x ∉ V)
  ∨ (b ∈ V ∧ ∀ vs x, path b vs x → NoDup (r :: ps ++ b :: vs) → length vs = k → x ∈ R).

Lemma ahead_next k ps b c V R nV nR a :
  path r ps a → b ∈ g a → c ∈ g a → (∀ y, y ∈ r :: ps → y ∈ V) →
  adds k [b] V nV nR → b ≠ c → ahead k ps c V R → ahead k ps c (V ++ nV) (R ++ nR).
Proof.
  intros Hps Hb Hc HV Hadds Hne [Hno|[Hin Hfound]].
  - left. intros vs x Hvs Hnd [Hx|Hx]%elem_of_app; [by eapply Hno|].
    destruct (a_near _ _ _ _ _ Hadds x Hx) as (b' & ws & ->%list_elem_of_singleton & [Hws Hnw] & Hfr).
    assert (ps ++ c :: vs = ps ++ b :: ws) as E.
    { apply (Hone _ _ x); (split; [by eapply path_app; [done|by econstructor]|]); [done|].
      change (r :: ps ++ b :: ws) with ((r :: ps) ++ b :: ws). apply list.NoDup_app. split_and!; [|by intros y Hy Hy'; apply (Hfr y Hy'), HV|done].
      change (r :: ps ++ c :: vs) with ((r :: ps) ++ c :: vs) in Hnd. by apply list.NoDup_app in Hnd as (? & _). }
    apply app_inv_head in E. by injection E as ->.
  - right. split; [apply elem_of_app; by left|]. intros vs x Hvs Hnd Hl. apply elem_of_app. left. by eapply Hfound.
Qed.

Definition complete (k : nat) : Prop := ∀ ps b V R nV nR,
  path r ps b → NoDup (r :: ps) → (∀ vs x, path b vs x → NoDup (r :: ps ++ vs) → x ∉ V) →
  (∀ y, y ∈ r :: ps → y ≠ b → y ∈ V) → dfs g k b (V, R) = (V ++ nV, R ++ nR) →
  ∀ vs x, path b vs x → NoDup (r :: ps ++ vs) → length vs = k → x ∈ R ++ nR.

Lemma fold_complete k ps a bs : ∀ V R V' R',
  complete k → path r ps a → NoDup (r :: ps) → (∀ y, y ∈ r :: ps → y ∈ V) →
  (∀ b, b ∈ bs → b ∈ g a) → (∀ b, b ∈ bs → ahead k ps b V R) →
  fold_left (λ vr b, dfs g k b vr) bs (V, R) = (V', R') →
  (∀ x, x ∈ R → x ∈ R') ∧
  ∀ b vs x, b ∈ bs → path b vs x → NoDup (r :: ps ++ b :: vs) → length vs = k → x ∈ R'.
Proof.
  induction bs as [|b bs IH]; intros V R V' R' Hk Hps Hnd HV Hg Ha Hfold; simpl in Hfold.
  { injection Hfold as <- <-. split; [done|]. by intros b vs x ?%elem_of_nil. }
  destruct (dfs_adds k b V R) as (nV & nR & E & Hadds). rewrite E in Hfold.
  assert (∀ vs x, path b vs x → NoDup (r :: ps ++ b :: vs) → length vs = k → x ∈ R ++ nR) as Hb.
  { intros vs x Hvs Hn Hl. destruct (Ha b) as [Hno|[_ Hfound]]; [by left| |apply elem_of_app; left; by eapply Hfound].
    apply (Hk (ps ++ [b]) b V R nV nR) with (vs := vs).
    - eapply path_app; [done|]. econstructor; [apply Hg; by left|constructor].
    - change (r :: ps ++ b :: vs) with ((r :: ps) ++ [b] ++ vs) in Hn. rewrite app_assoc in Hn.
      by apply list.NoDup_app in Hn as (? & _).
    - intros ws y Hws. rewrite <- app_assoc. by apply Hno.
    - intros y [->|Hy]%elem_of_cons Hyb; [apply HV; by left|].
      apply elem_of_app in Hy as [Hy| ->%list_elem_of_singleton]; [apply HV; by right|done].
    - done.
    - done.
    - by rewrite <- app_assoc.
    - done. }
  destruct (IH (V ++ nV) (R ++ nR) V' R') as [Hmono Hrest]; [done|done|done| | | |done|].
  - intros y Hy. apply elem_of_app. left. by apply HV.
  - intros c Hc. apply Hg. by right.
  - intros c Hc. destruct (decide (b = c)) as [<-|Hne].
    + right. split; [|done]. apply elem_of_app, (a_starts _ _ _ _ _ Hadds). by left.
    + eapply ahead_next; [done|apply Hg; by left|apply Hg; by right|done|done|done|apply Ha; by right].
  - split; [intros x Hx; apply Hmono, elem_of_app; by left|].
    intros c vs x [->|Hc]%elem_of_cons; [|by apply Hrest]. intros Hvs Hn Hl. apply Hmono. by eapply Hb.
Qed.

Lemma dfs_complete k : complete k.
Proof.
  induction k as [|k IH]; intros ps a V R nV nR Hps Hnd Hno HV E vs x Hvs Hn Hl; simpl in E;
    (rewrite decide_False in E by (apply (Hno [] a); [constructor|by rewrite app_nil_r])).
  - injection E as _ E. rewrite <- E. destruct vs; [|done]. inversion Hvs. apply elem_of_app. right. by left.
  - destruct vs as [|b vs]; [done|]. injection Hl as Hl. inversion Hvs as [|? ? ? ? Hb Hvs']; subst.
    assert (∀ y, y ∈ r :: ps → y ∈ V ++ [a]) as HV1.
    { intros y Hy. apply elem_of_app. destruct (decide (y = a)) as [->|]; [right; by left|left; by apply HV]. }
    destruct (fold_complete (length vs) ps a (g a) (V ++ [a]) R (V ++ nV) (R ++ nR) IH Hps Hnd HV1) as [_ Hfound];
      [done| |done|by eapply Hfound].
    intros c Hc. left. intros ws y Hws Hn' [Hy| ->%list_elem_of_singleton]%elem_of_app.
    + by apply (Hno (c :: ws) y); [econstructor|..].
    + change (r :: ps ++ c :: ws) with ((r :: ps) ++ c :: ws) in Hn'. apply list.NoDup_app in Hn' as (_ & Hd & _).
      apply (Hd a); [by apply path_end|by apply path_end].
Qed.
End tree.

(** The atoms a search finds are at the ends of simple paths of the length, each
    found once. *)
Lemma dfs_sound k r V R :
  dfs g k r ([], []) = (V, R) → NoDup R ∧ ∀ x, x ∈ R → ∃ vs, simple_path r vs x ∧ length vs = k.
Proof.
  intros E. destruct (dfs_adds k r [] []) as (nV & nR & E' & Hadds). rewrite E' in E. injection E as <- <-. split.
  - eapply sublist_NoDup; [apply Hadds|apply Hadds].
  - intros x Hx. destruct (a_exact _ _ _ _ _ Hadds x Hx) as (a & vs & ->%list_elem_of_singleton & Hp & _ & Hl). by exists vs.
Qed.

Lemma dfs_tree k r V R vs x :
  one_path r → dfs g k r ([], []) = (V, R) → simple_path r vs x → length vs = k → x ∈ R.
Proof.
  intros Hone E [Hp Hnd] Hl. destruct (dfs_adds k r [] []) as (nV & nR & E' & _).
  rewrite E' in E. injection E as <- <-.
  apply (dfs_complete r Hone k [] r [] [] nV nR) with (vs := vs); try done.
  - constructor.
  - apply NoDup_singleton.
  - intros ws y _ _. apply not_elem_of_nil.
  - by intros y ->%list_elem_of_singleton.
Qed.

(** One step away, in any graph. *)
Lemma dfs_one r V R x : dfs g 1 r ([], []) = (V, R) → x ∈ R ↔ x ∈ g r ∧ x ≠ r.
Proof.
  intros E. split.
  - intros Hx. destruct (dfs_sound _ _ _ _ E) as [_ Hs]. destruct (Hs x Hx) as (vs & [Hp Hnd] & Hl).
    destruct vs as [|b [|]]; try done. inversion Hp as [|? ? ? ? Hb Hp']; subst. inversion Hp'; subst. split; [done|].
    intros ->. apply list.NoDup_cons in Hnd as [Hnd _]. apply Hnd. by left.
  - intros [Hx Hne]. change (dfs g 1 r ([], [])) with
      (if decide (r ∈ []) then ([], []) else fold_left (λ vr b, dfs g 0 b vr) (g r) ([r], [])) in E.
    rewrite decide_False in E by apply not_elem_of_nil.
    destruct (fold_adds 0 (g r) [r] [] (dfs_adds 0)) as (nV & nR & E' & Hadds). rewrite E' in E. injection E as <- <-.
    rewrite (a_zero _ _ _ _ _ Hadds eq_refl). destruct (a_starts _ _ _ _ _ Hadds x Hx) as [Hin|]; [|done].
    by apply list_elem_of_singleton in Hin.
Qed.
End paths.

(** * The theorems *)

#[local] Arguments ak_atom_neighbors_recursive : simpl never.

Section theorems.
Context `{Allocator}.

(** C38: bonds.  The lists of neighbors are chains of links that no two atoms share,
    and each atom is in the list of another as often as the other in its own.
    Bonding puts each atom at the head of the list of the other, or fails for want
    of memory and changes nothing; unbonding takes each out once, if it is there.
    So unbonding atoms just bonded gives back the lists and the memory. *)
Theorem ak_atom_bond_spec st L a b s :
  graph_ok st L → a ∈ dom L → b ∈ dom L →
  wp (ak_atom_bond st (Some a) (Some b)) (λ '(rc, st') s',
    (rc = -1 ∧ st' = st ∧ balance 0 true s s') ∨
    (rc = 0 ∧ balance 2 false s s' ∧ same_values st st'
     ∧ (∃ L', graph_ok st' L' ∧ dom L' = dom L ∧ ∀ c, adj L' c = bonded a b (adj L) c)
     ∧ wp (ak_atom_unbond st' (Some a) (Some b)) (λ '(rc', st'') s'',
         rc' = 0 ∧ balance 0 false s s'' ∧ same_values st st''
         ∧ ∃ L'', graph_ok st'' L'' ∧ dom L'' = dom L ∧ ∀ c, adj L'' c = adj L c) s')) s
  ∧ wp (ak_atom_unbond st (Some a) (Some b)) (λ '(rc, st') s',
      rc = 0 ∧ m_fails s' = m_fails s ∧ same_values st st'
      ∧ m_live s' - Z.of_nat (size (links st')) = m_live s - Z.of_nat (size (links st))
      ∧ ∃ L', graph_ok st' L' ∧ dom L' = dom L ∧ ∀ c, adj L' c = without a b (adj L) c) s.
Proof.
  intros Hg Ha Hb. split; [|by apply ak_atom_unbond_ok].
  eapply wp_mono; [by apply (ak_atom_bond_ok st L)|].
  intros [rc st'] s' [|(-> & [HL HF] & Hsz & Hv & L' & Hg' & Hd & Hadj)]; [by left|right].
  split_and!; [done|done|done|by exists L'|].
  eapply wp_mono; [apply (ak_atom_unbond_ok st' L'); [done|by rewrite Hd..]|].
  intros [rc' st''] s'' (-> & HF' & Hv' & HL' & L'' & Hg'' & Hd'' & Hadj'').
  assert (∀ c, adj L'' c = adj L c) as Hback.
  { intros c. rewrite Hadj'', <- (without_bonded a b (adj L) c). unfold without. by rewrite !Hadj. }
  assert (dom L'' = dom L) as Hdom by (by rewrite Hd'').
  pose proof (heap_size _ _ (g_heap _ _ Hg)) as S0. pose proof (heap_size _ _ (g_heap _ _ Hg'')) as S2.
  rewrite Hdom, (links_of_ext _ _ _ Hback) in S2.
  split_and!; [done|split; lia|intros c; by rewrite (Hv' c), (Hv c)|by exists L''].
Qed.

(** The atoms at a distance.  The atoms found are at the ends of simple paths of
    that many bonds, each found once; at distance one they are the neighbors, the
    atom itself apart; and where no two simple paths from the atom meet, as in a
    chain or a tree, they are all the atoms at that distance.  Failed allocations
    leave atoms out.  The array of visited atoms has 1024 places, and the graph no
    more atoms. *)
Theorem ak_atom_neighbors_spec st L a distance s :
  graph_ok st L → a ∈ dom L → (size L <= 1024)%nat → 0 <= distance < 2 ^ 64 - 1 →
  wp (ak_atom_neighbors st (Some a) distance) (λ r s', match r with
    | None => balance 0 true s s'
    | Some c => m_live s' = m_live s + 2 ∧ ∃ xs, cluster_ok c xs ∧ NoDup xs
        ∧ (∀ x, x ∈ xs → ∃ vs, simple_path (adj L) a vs x ∧ Z.of_nat (length vs) = distance)
        ∧ (m_fails s' = m_fails s → distance = 1 → ∀ x, x ∈ xs ↔ x ∈ adj L a ∧ x ≠ a)
        ∧ (m_fails s' = m_fails s → one_path (adj L) a → ∀ vs x,
             simple_path (adj L) a vs x → Z.of_nat (length vs) = distance → x ∈ xs)
    end) s.
Proof.
  intros Hg Ha Hsize Hd. unfold ak_atom_neighbors. wsteps.
  eapply wp_mono; [by apply (cluster_new_ok 16)|]. intros [c|] s1; [intros [Hc HB1]|intros HB1]; wsteps; [|done].
  destruct (Z.eqb_spec distance 0) as [->|Hd0]; wsteps.
  - eapply wp_mono; [by apply (cluster_add_ok c [] a)|]. intros [rc r] s2 (c' & -> & Hcase). wsteps.
    assert (∀ vs x, simple_path (adj L) a vs x → Z.of_nat (length vs) = 0 → x = a) as Hself.
    { intros [|v vs] x [Hp _] Hl; [by inversion Hp|simpl in Hl; lia]. }
    destruct Hcase as [(_ & Hc' & HB2)|(_ & -> & HB2)]; (split; [destruct HB1, HB2; lia|]).
    + exists [a]. split_and!; [done|apply NoDup_singleton| |done|].
      * intros x ->%list_elem_of_singleton. exists []. split; [|done]. split; [constructor|apply NoDup_singleton].
      * intros _ _ vs x Hp Hl. rewrite (Hself vs x Hp Hl). by left.
    + exists []. split_and!; [done|constructor|by intros x ?%elem_of_nil|done|destruct HB1, HB2; lia].
  - apply wp_alloc_obj. intros [|] s2 HA2; simpl; wsteps.
    2:{ apply wp_free_obj. intros s3 HL3 HF3. apply wp_free_obj. intros s4 HL4 HF4. wsteps. balance. }
    destruct (dfs (adj L) (Z.to_nat distance) a ([], [])) as [V R] eqn:E.
    eapply wp_mono; [apply (recursive_ok st L s2 Hg Hsize distance (Z.to_nat distance) _ 0 a _ [] [] s2); try lia|].
    + done.
    + split; simpl; try done; [constructor|by intros x ?%elem_of_nil|]. by exists c, [].
    + rewrite E. intros s' s3 Hs. wsteps. apply wp_free_obj. intros s4 HL4 HF4. wsteps.
      destruct (s_found _ _ _ _ _ _ _ Hs) as (c' & zs & -> & Hc' & Hsub & Hex).
      pose proof (s_live _ _ _ _ _ _ _ Hs). pose proof (s_fails _ _ _ _ _ _ _ Hs).
      destruct (dfs_sound _ _ _ _ _ E) as [Hnd Hsound]. split; [destruct HB1, HA2; lia|].
      assert (m_fails s4 = m_fails s → zs = R) as Hall by (destruct HB1, HA2; intros; apply Hex; lia).
      exists zs. split_and!; [done|by eapply sublist_NoDup| | |].
      * intros x Hx. destruct (Hsound x) as (vs & Hp & Hl); [by eapply elem_of_sublist|]. exists vs. split; [done|lia].
      * intros Hf -> x. rewrite (Hall Hf). by apply (dfs_one _ _ V).
      * intros Hf Hone vs x Hp Hl. rewrite (Hall Hf). apply (dfs_tree _ _ _ _ _ vs _ Hone E Hp). lia.
Qed.

(** Values and lifetimes.  A new atom is no other, has no neighbors, and its
    value is read as it was given, cut to the width of its type: also for [F64],
    which is a [float] to its callers.  Setting the value changes nothing else.  An
    atom without neighbors is freed and the rest of the graph stays. *)
Theorem ak_atom_value_spec st L t v dim s :
  graph_ok st L → (t = AK24_ATOM_F64 → ¬ is_nan (member 32 v)) →
  wp (ak_atom_new st t v dim) (λ '(r, st') s', match r with
    | None => st' = st ∧ balance 0 true s s'
    | Some a => (a ∉ dom L) ∧ graph_ok st' (<[a := []]> L) ∧ balance 1 false s s'
        ∧ ak_atom_get_type st' (Some a) = Ret t ∧ ak_atom_get_dimensionality st' (Some a) = Ret dim
        ∧ ak_atom_get_value st' (Some a) = Ret (member (width t) v)
    end) s
  ∧ (∀ a, a ∈ dom L → ak_atom_get_type st (Some a) = Ret t →
       wpo (ak_atom_set_value st (Some a) v) (λ st', graph_ok st' L
         ∧ ak_atom_get_value st' (Some a) = Ret (member (width t) v)
         ∧ ∀ b, b ≠ a → ak_atom_get_value st' (Some b) = ak_atom_get_value st (Some b)))
  ∧ (∀ a, a ∈ dom L → wp (ak_atom_free st (Some a)) (λ st' s',
       (adj L a = [] → graph_ok st' (delete a L))
       ∧ m_live s' = m_live s - 1 - zlen (adj L a) ∧ m_fails s' = m_fails s) s).
Proof.
  intros Hg Hn. split_and!.
  - eapply wp_mono; [by apply (ak_atom_new_ok st L)|]. intros [[a|] st'] s'; [|done].
    intros (H1 & H2 & H3 & H4 & H5 & old & H6). split_and!; try done. by rewrite H6, value_stored.
  - intros a Ha Ht. destruct (heap_atom _ _ _ _ (g_heap _ _ Hg) Ha) as [x Hx].
    unfold ak_atom_get_type, deref_atom in Ht. rewrite Hx in Ht. injection Ht as <-.
    unfold ak_atom_set_value. wsteps. apply (wpo_deref_atom _ _ x); [done|]. cbn [wpo].
    unfold ak_atom_get_value, deref_atom. cbn [atoms]. rewrite lookup_insert_eq. cbn. rewrite value_stored by done.
    split_and!; [|done|intros b Hb; by rewrite lookup_insert_ne].
    destruct Hg as [Hh Hl Hs]. split; [|done|done]. destruct Hh. split; cbn [atoms links next_atom next_link]; try done.
    + by rewrite dom_insert_lookup_L by by eexists.
    + intros c y [[<- <-]|[_ Hc]]%lookup_insert_Some; [by apply h_chain0 in Hx|by apply h_chain0].
    + intros c y [[<- _]|[_ Hc]]%lookup_insert_Some; by eapply h_atoms0.
  - intros a Ha. eapply wp_mono; [by apply (ak_atom_free_ok st L)|]. intros st' s' (_ & H1 & H2 & H3). done.
Qed.
End theorems.

(** * Threads *)

(** Any thread goes next. *)
Inductive bonds_step : store * gmap nat bond_call → store * gmap nat bond_call → Prop :=
| bonds_thread st cs tid c st' c' :
    cs !! tid = Some c → bond_step st c = Ret (st', c') → bonds_step (st, cs) (st', <[tid := c']> cs).

(** The threads in the order given. *)
Fixpoint run_threads (tids : list nat) (st : store) (cs : gmap nat bond_call) : outcome (store * gmap nat bond_call) :=
  match tids with
  | [] => Ret (st, cs)
  | tid :: tids =>
      match cs !! tid with
      | Some c => '(st, c) ← bond_step st c; run_threads tids st (<[tid := c]> cs)
      | None => Undef
      end
  end.

Lemma run_threads_steps tids : ∀ st cs r, run_threads tids st cs = Ret r → rtc bonds_step (st, cs) r.
Proof.
  induction tids as [|tid tids IH]; intros st cs r; simpl; [by intros [= <-]|].
  destruct (cs !! tid) as [c|] eqn:Hc; [|done]. destruct (bond_step st c) as [[st' c']| |] eqn:E; simpl; [|done..].
  intros Hr. eapply rtc_l; [by econstructor|by apply IH].
Qed.

(** * Witnesses *)

#[local] Existing Instance always_alloc.

Definition w_atoms (n : nat) : store :=
  foldl (λ st _, match ak_atom_new st AK24_ATOM_I32 0 1 mem0 with
                 | Ret (_, st, _) => st
                 | _ => st
                 end) (mk_store ∅ ∅ 1 1) (seq 0 n).
Definition w_bonds (n : nat) (es : list (positive * positive)) : store :=
  foldl (λ st e, match ak_atom_bond st (Some e.1) (Some e.2) mem0 with
                 | Ret (_, st, _) => st
                 | _ => st
                 end) (w_atoms n) es.
Definition w_found (st : store) (a : positive) (d : Z) : list (option positive) :=
  match ak_atom_neighbors st (Some a) d mem0 with
  | Ret (Some c, _) => take (Z.to_nat (c_count c)) (c_atoms c)
  | _ => []
  end.

(** In a triangle with a tail, 1 - 2 - 3 - 1 and 3 - 4, the atom found two steps
    from 1 is 3, a neighbor of 1, and not 4. *)
Example neighbors_detour : w_found (w_bonds 4 [(1, 3); (1, 2); (2, 3); (3, 4)]%positive) 1 2 = [Some 3%positive].
Proof. vm_compute. reflexivity. Qed.

Definition w_bond1 := bond_start (w_atoms 3) 1 2.
Definition w_bond2 := bond_start w_bond1.1 1 3.
Definition w_raced : store :=
  match run_threads [0; 1; 1; 1; 1; 0; 0; 0]%nat w_bond2.1 {[ 0%nat := w_bond1.2; 1%nat := w_bond2.2 ]} with
  | Ret (st, _) => st
  | _ => w_bond2.1
  end.

(** Bonds are not made atomically.  Two threads that bond the same atom, 1 with
    2 and 1 with 3, can both return with success and the second bond be lost on one
    side: 1 is a neighbor of 3, and 3 none of 1. *)
Theorem ak_atom_bond_race :
  ∃ st1 c1 st2 c2 st',
    bond_start (w_atoms 3) 1 2 = (st1, c1) ∧ bond_start st1 1 3 = (st2, c2)
    ∧ rtc bonds_step (st2, {[ 0%nat := c1; 1%nat := c2 ]}) (st', {[ 0%nat := goto c1 Bonded; 1%nat := goto c2 Bonded ]})
    ∧ w_found st' 1 1 = [Some 2%positive] ∧ w_found st' 2 1 = [Some 1%positive] ∧ w_found st' 3 1 = [Some 1%positive].
Proof.
  exists w_bond1.1, w_bond1.2, w_bond2.1, w_bond2.2, w_raced. split_and!; [done|done| |vm_compute; done..].
  apply (run_threads_steps [0; 1; 1; 1; 1; 0; 0; 0]%nat). vm_compute. reflexivity.
Qed.

Definition w_atom : ak_atom_t := mk_atom AK24_ATOM_I32 1 None 0.
Definition w_two : store := mk_store {[ 1%positive := w_atom; 2%positive := w_atom ]} ∅ 3 1.
Definition w_lists : lists := {[ 1%positive := []; 2%positive := [] ]}.

Lemma w_lists_nil a : w_lists !!! a = [].
Proof.
  unfold w_lists. rewrite lookup_total_alt. destruct (decide (a = 1%positive)) as [->|]; [done|].
  rewrite lookup_insert_ne by done. destruct (decide (a = 2%positive)) as [->|]; [done|].
  by rewrite lookup_singleton_ne.
Qed.

Lemma w_two_ok : graph_ok w_two w_lists.
Proof.
  split; [split; cbn [atoms links w_two next_atom next_link]|..]; intros; rewrite ?lookup_empty in *; try done;
    unfold adj, times in *; unfold adj in *; rewrite ?w_lists_nil in *.
  - match goal with Hx : _ !! _ = Some _ |- _ => apply lookup_insert_Some in Hx as [[<- <-]|[_ [<- <-]%lookup_singleton_Some]] end;
      done.
  - constructor.
  - by match goal with Hx : _ ∈ _ |- _ => apply elem_of_nil in Hx end.
  - match goal with Hx : _ !! _ = Some _ |- _ => apply lookup_insert_Some in Hx as [[<- <-]|[_ [<- <-]%lookup_singleton_Some]] end;
      done.
  - by match goal with Hx : _ ∈ _ |- _ => apply elem_of_nil in Hx end.
  - done.
Qed.

Lemma w_dom : (1%positive ∈ dom w_lists) ∧ (2%positive ∈ dom w_lists).
Proof. split; apply elem_of_dom; by eexists. Qed.

Lemma ak_atom_bond_spec_witness :
  wp (ak_atom_bond w_two (Some 1%positive) (Some 2%positive)) (λ '(rc, st') s',
    (rc = -1 ∧ st' = w_two ∧ balance 0 true mem0 s') ∨
    (rc = 0 ∧ balance 2 false mem0 s' ∧ same_values w_two st'
     ∧ (∃ L', graph_ok st' L' ∧ dom L' = dom w_lists ∧ ∀ c, adj L' c = bonded 1 2 (adj w_lists) c)
     ∧ wp (ak_atom_unbond st' (Some 1%positive) (Some 2%positive)) (λ '(rc', st'') s'',
         rc' = 0 ∧ balance 0 false mem0 s'' ∧ same_values w_two st''
         ∧ ∃ L'', graph_ok st'' L'' ∧ dom L'' = dom w_lists ∧ ∀ c, adj L'' c = adj w_lists c) s')) mem0.
Proof. apply (ak_atom_bond_spec w_two w_lists 1 2 mem0 w_two_ok); apply w_dom. Defined.

(** The two atoms bonded. *)
Definition w_pair : store := w_bonds 2 [(1, 2)]%positive.

Lemma w_bonded : ∃ L, graph_ok w_pair L ∧ dom L = dom w_lists ∧ adj L 1%positive = [2%positive].
Proof.
  pose proof (ak_atom_bond_ok w_two w_lists 1 2 mem0 w_two_ok (proj1 w_dom) (proj2 w_dom)) as Hb.
  assert (ak_atom_bond w_two (Some 1%positive) (Some 2%positive) mem0 = Ret (0, w_pair, Mem 2 2 0)) as E
    by (vm_compute; reflexivity).
  unfold wp in Hb. rewrite E in Hb. destruct Hb as [[? _]|(_ & _ & _ & _ & L & Hg & Hd & Hadj)]; [done|].
  exists L. split_and!; [done|done|]. by rewrite Hadj.
Qed.

Lemma ak_atom_neighbors_spec_witness :
  ∃ L, adj L 1%positive = [2%positive] ∧
  wp (ak_atom_neighbors w_pair (Some 1%positive) 1) (λ r s', match r with
    | None => balance 0 true mem0 s'
    | Some c => m_live s' = m_live mem0 + 2 ∧ ∃ xs, cluster_ok c xs ∧ NoDup xs
        ∧ (∀ x, x ∈ xs → ∃ vs, simple_path (adj L) 1 vs x ∧ Z.of_nat (length vs) = 1)
        ∧ (m_fails s' = m_fails mem0 → 1 = 1 → ∀ x, x ∈ xs ↔ x ∈ adj L 1%positive ∧ x ≠ 1%positive)
        ∧ (m_fails s' = m_fails mem0 → one_path (adj L) 1 → ∀ vs x,
             simple_path (adj L) 1 vs x → Z.of_nat (length vs) = 1 → x ∈ xs)
    end) mem0.
Proof.
  destruct w_bonded as (L & Hg & Hd & Hadj). exists L. split; [done|].
  apply (ak_atom_neighbors_spec w_pair L 1 1 mem0 Hg); [rewrite Hd; apply w_dom| |done].
  rewrite <- (size_dom (D := gset positive)), Hd. vm_compute. lia.
Defined.

Lemma ak_atom_value_spec_witness :
  wpo (ak_atom_set_value w_two (Some 1%positive) 7) (λ st', graph_ok st' w_lists
    ∧ ak_atom_get_value st' (Some 1%positive) = Ret (member (width AK24_ATOM_I32) 7)
    ∧ ∀ b, b ≠ 1%positive → ak_atom_get_value st' (Some b) = ak_atom_get_value w_two (Some b)).
Proof.
  destruct (ak_atom_value_spec w_two w_lists AK24_ATOM_I32 7 1 mem0 w_two_ok) as (_ & Hset & _); [done|].
  apply Hset; [apply w_dom|done].
Defined.
