(* ===== verification/Filepath.v ===== *)
(** File paths: [kernel/filepath/src/filepath.c].

    The three platforms the code is compiled for are a parameter, [platform], and
    the global state is passed explicitly.  A [const char *] is the list of its
    characters before the terminator, [None] when null; a pointer into a string is
    the rest of it.  What [getenv], [getpwuid] and [getcwd] answer is in the record
    [environment]. *)

From Stdlib Require String.
From S2P Require Import Prelude Buffer Lists Maps.
Import Stdlib.Strings.String.StringSyntax.
#[local] Delimit Scope string_scope with str.

Inductive platform : Type :=
| Linux
| Apple
| Windows.

Record filepath_state_t := mk_state {
  initialized : bool;
  separator : Z;
  list_separator : Z;
}.

(** The answers of the system. *)
Record environment := mk_environment {
  getenv : String.string → option cstr;
  pw_dir : option cstr;
  getcwd : Z → option cstr;
}.

Definition PATH_MAX (p : platform) : Z :=
  match p with
  | Linux => 4096
  | Apple => 1024
  | Windows => 260
  end.

(** The state a program starts with. *)
Definition g_filepath_state : filepath_state_t := mk_state false 0 0.

Definition ak_filepath_init (p : platform) (g : filepath_state_t) : filepath_state_t :=
  if initialized g then g else
  match p with
  | Windows => mk_state true 0x5C 0x3B
  | _ => mk_state true 0x2F 0x3A
  end.

Definition ak_filepath_shutdown (g : filepath_state_t) : filepath_state_t :=
  mk_state false (separator g) (list_separator g).

Definition ak_filepath_separator (g : filepath_state_t) : Z := separator g.

Definition ak_filepath_list_separator (g : filepath_state_t) : Z := list_separator g.

Definition is_separator (p : platform) (c : Z) : bool :=
  match p with
  | Windows => (c =? 0x2F) || (c =? 0x5C)
  | _ => c =? 0x2F
  end.

(** The string at the start of a block. *)
Fixpoint c_string (block : list Z) : outcome (list Z) :=
  match block with
  | [] => Undef
  | c :: block => if c =? 0 then Ret [] else s ← c_string block; Ret (c :: s)
  end.

Section filepath.
Context `{Allocator} (p : platform) (g : filepath_state_t) (env : environment).

Definition buffer_from_str (str : option (list Z)) : M (option ak_buffer_t) :=
  match str with
  | None => mret None
  | Some str =>
      let len := zlen str in
      buf ← ak_buffer_new (u64 (len + 1));
      match buf with
      | None => mret None
      | Some _ =>
          '(rc, buf) ← ak_buffer_copy_to buf (Some str) len;
          if negb (rc =? 0) then _ ← ak_buffer_free buf; mret None else mret buf
      end
  end.

Definition buffer_append_str (buf : option ak_buffer_t) (str : option (list Z))
    : M (Z * option ak_buffer_t) :=
  match buf, str with
  | Some b, Some str =>
      let len := zlen str in
      let old_count := b_count b in
      grown ← (if b_capacity b <? u64 (old_count + len) then
                 let new_capacity := u64 (u64 (old_count + len) * 2) in
                 new_data ← alloc_bytes new_capacity;
                 match new_data with
                 | None => mret None
                 | Some new_data =>
                     new_data ← lift (blit new_data 0 (b_data b) 0 old_count);
                     _ ← free_obj;
                     mret (Some (mk_buffer new_data new_capacity (b_count b) (b_origin_offset b)))
                 end
               else mret (Some b));
      match grown with
      | None => mret (-1, Some b)
      | Some b =>
          data ← lift (blit (b_data b) old_count str 0 len);
          mret (0, Some (mk_buffer data (b_capacity b) (u64 (old_count + len)) (b_origin_offset b)))
      end
  | _, _ => mret (-1, buf)
  end.

Definition buffer_append_char (buf : option ak_buffer_t) (c : Z) : M (Z * option ak_buffer_t) :=
  buffer_append_str buf (Some (if c =? 0 then [] else [c])).

(** The string, and the buffer it is in. *)
Definition buffer_to_cstr (buf : option ak_buffer_t) : M (option (list Z) * option ak_buffer_t) :=
  match buf with
  | None => mret (None, None)
  | Some b =>
      let count := b_count b in
      grown ← (if b_capacity b <? u64 (count + 1) then
                 new_data ← alloc_bytes (u64 (count + 1));
                 match new_data with
                 | None => mret None
                 | Some new_data =>
                     new_data ← lift (blit new_data 0 (b_data b) 0 count);
                     _ ← free_obj;
                     mret (Some (mk_buffer new_data (u64 (count + 1)) (b_count b) (b_origin_offset b)))
                 end
               else mret (Some b));
      match grown with
      | None => mret (None, Some b)
      | Some b =>
          data ← lift (wr (b_data b) count 0);
          str ← lift (c_string data);
          mret (Some str, Some (mk_buffer data (b_capacity b) (b_count b) (b_origin_offset b)))
      end
  end.

(** * Joining *)

(** One turn of the loop over the arguments. *)
Definition join_component (result : option ak_buffer_t) (component : option (list Z))
    : M (option ak_buffer_t) :=
  match component with
  | None | Some [] => mret result
  | Some (c :: rest) =>
      let result_count := ak_buffer_count result in
      if result_count =? 0 then
        '(_, result) ← buffer_append_str result component; mret result
      else
        last ← lift (match ak_buffer_data result with
                     | Some result_data => rd result_data (result_count - 1)
                     | None => Undef
                     end);
        let needs_sep := negb (is_separator p last) in
        let component_starts_with_sep := is_separator p c in
        '(result, component) ←
          if needs_sep && negb component_starts_with_sep then
            '(_, result) ← buffer_append_char result (separator g); mret (result, c :: rest)
          else if negb needs_sep && component_starts_with_sep then mret (result, rest)
          else mret (result, c :: rest);
        '(_, result) ← buffer_append_str result (Some component);
        mret result
  end.

Fixpoint join_components (result : option ak_buffer_t) (args : list (option (list Z)))
    : M (option ak_buffer_t) :=
  match args with
  | [] => mret result
  | component :: args => result ← join_component result component; join_components result args
  end.

Definition ak_filepath_join (args : list (option (list Z))) : M (option ak_buffer_t) :=
  if negb (initialized g) then mret None else
  result ← ak_buffer_new 256;
  match result with
  | None => mret None
  | Some _ => join_components result args
  end.

(** * Normalizing *)

Definition ak_filepath_is_absolute (path : option (list Z)) : bool :=
  match path with
  | None | Some [] => false
  | Some (c :: rest) =>
      match p with
      | Windows =>
          match rest with
          | [] => false
          | d :: _ =>
              if (((0x41 <=? c) && (c <=? 0x5A)) || ((0x61 <=? c) && (c <=? 0x7A))) && (d =? 0x3A)
              then true
              else is_separator p c && is_separator p d
          end
      | _ => c =? 0x2F
      end
  end.

Definition dot : list Z := [0x2E].
Definition dotdot : list Z := [0x2E; 0x2E].

(** The component in [component_buf] is complete. *)
Definition end_component (component_buf : list Z) (comp_idx : Z) (components : list_base_t (list Z))
    : M (list Z * list_base_t (list Z)) :=
  component_buf ← lift (wr component_buf comp_idx 0);
  component ← lift (c_string component_buf);
  if strcmp component dot =? 0 then mret (component_buf, components)
  else if strcmp component dotdot =? 0 then
    if 0 <? count components then
      '(last, components) ← lift (list_pop_ components);
      match last with
      | Some _ => _ ← free_obj; mret (component_buf, components)
      | None => mret (component_buf, components)
      end
    else mret (component_buf, components)
  else
    ok ← alloc_obj (u64 (comp_idx + 1));
    if ok : bool then
      '(_, components) ← list_push_ components component sizeof_pointer;
      mret (component_buf, components)
    else mret (component_buf, components).

(** [while ( *p) ...] *)
Fixpoint parse_components (path component_buf : list Z) (comp_idx : Z)
    (components : list_base_t (list Z)) : M (list Z * Z * list_base_t (list Z)) :=
  match path with
  | [] => mret (component_buf, comp_idx, components)
  | c :: path =>
      if is_separator p c then
        if 0 <? comp_idx then
          '(component_buf, components) ← end_component component_buf comp_idx components;
          parse_components path component_buf 0 components
        else parse_components path component_buf comp_idx components
      else if comp_idx <? PATH_MAX p - 1 then
        component_buf ← lift (wr component_buf comp_idx c);
        parse_components path component_buf (comp_idx + 1) components
      else parse_components path component_buf comp_idx components
  end.

(** One turn of the loop over the components. *)
Definition append_component (comp : list Z) (acc : option ak_buffer_t * bool)
    : M (option ak_buffer_t * bool) :=
  let '(result, first) := acc in
  result ← if negb first then
             '(_, result) ← buffer_append_char result (separator g); mret result
           else mret result;
  '(_, result) ← buffer_append_str result (Some comp);
  _ ← free_obj;
  mret (result, false).

(** What is built from the components. *)
Definition build_path (is_absolute : bool) (components : list_base_t (list Z))
    : M (option ak_buffer_t) :=
  result ← ak_buffer_new 256;
  match result with
  | None =>
      _ ← list_while (R := False) components (λ _ _, _ ← free_obj; mret (inl ())) ();
      _ ← list_deinit_ components;
      mret None
  | Some _ =>
      result ← if is_absolute then
                 '(_, result) ← buffer_append_char result (separator g); mret result
               else mret result;
      r ← list_while (R := False) components (λ comp acc,
        acc ← append_component comp acc; mret (inl acc)) (result, true);
      let result := match r with inl (result, _) => result | inr e => False_rect _ e end in
      _ ← list_deinit_ components;
      if (ak_buffer_count result =? 0) && negb is_absolute then
        '(_, result) ← buffer_append_str result (Some dot); mret result
      else mret result
  end.

Definition ak_filepath_normalize (path : option (list Z)) : M (option ak_buffer_t) :=
  match path with
  | None => mret None
  | Some path_ =>
      if negb (initialized g) then mret None else
      let is_absolute := ak_filepath_is_absolute path in
      '(component_buf, comp_idx, components) ←
        parse_components path_ (fresh_bytes 0 (PATH_MAX p)) 0 (list_init sizeof_pointer);
      components ← if 0 <? comp_idx then
                     '(_, components) ← end_component component_buf comp_idx components;
                     mret components
                   else mret components;
      build_path is_absolute components
  end.

(** * Parts of a path *)

(** The last character of a kind, from index [i] on. *)
Fixpoint find_last (f : Z → bool) (str : list Z) (i : Z) (last : option Z) : option Z :=
  match str with
  | [] => last
  | c :: str => find_last f str (i + 1) (if f c then Some i else last)
  end.

Definition ak_filepath_basename (path : option (list Z)) : M (option ak_buffer_t) :=
  match path with
  | None | Some [] => mret None
  | Some path_ =>
      if negb (initialized g) then mret None else
      match find_last (is_separator p) path_ 0 None with
      | None => buffer_from_str path
      | Some last_sep => buffer_from_str (Some (drop (Z.to_nat (last_sep + 1)) path_))
      end
  end.

Definition ak_filepath_dirname (path : option (list Z)) : M (option ak_buffer_t) :=
  match path with
  | None | Some [] => mret None
  | Some path_ =>
      if negb (initialized g) then mret None else
      match find_last (is_separator p) path_ 0 None with
      | None => buffer_from_str (Some dot)
      | Some last_sep =>
          if last_sep =? 0 then
            buffer_from_str (Some (if separator g =? 0 then [] else [separator g]))
          else
            let len := last_sep in
            buf ← ak_buffer_new (u64 (len + 1));
            match buf with
            | None => mret None
            | Some _ => '(_, buf) ← ak_buffer_copy_to buf path len; mret buf
            end
      end
  end.

Definition ak_filepath_extension (path : option (list Z)) : M (option ak_buffer_t) :=
  match path with
  | None | Some [] => mret None
  | Some _ =>
      if negb (initialized g) then mret None else
      base ← ak_filepath_basename path;
      match base with
      | None => mret None
      | Some _ =>
          '(base_str, base) ← buffer_to_cstr base;
          match base_str with
          | None => _ ← ak_buffer_free base; mret None
          | Some base_str =>
              match find_last (λ c, c =? 0x2E) base_str 0 None with
              | None => _ ← ak_buffer_free base; mret None
              | Some last_dot =>
                  if last_dot =? 0 then _ ← ak_buffer_free base; mret None else
                  ext ← buffer_from_str (Some (drop (Z.to_nat last_dot) base_str));
                  _ ← ak_buffer_free base;
                  mret ext
              end
          end
      end
  end.

(** * Directories of the system *)

(** [var && *var] *)
Definition set_variable (name : String.string) : option (list Z) :=
  match getenv env name with
  | Some v => match chars v with [] => None | s => Some s end
  | None => None
  end.

Definition ak_filepath_home : M (option ak_buffer_t) :=
  if negb (initialized g) then mret None else
  match p with
  | Windows =>
      match set_variable "USERPROFILE"%str with
      | Some userprofile => buffer_from_str (Some userprofile)
      | None =>
          match getenv env "HOMEDRIVE"%str, getenv env "HOMEPATH"%str with
          | Some homedrive, Some homepath => ak_filepath_join [Some (chars homedrive); Some (chars homepath)]
          | _, _ => mret None
          end
      end
  | _ =>
      match set_variable "HOME"%str with
      | Some home => buffer_from_str (Some home)
      | None =>
          match pw_dir env with
          | Some dir => buffer_from_str (Some (chars dir))
          | None => mret None
          end
      end
  end.

(** [ak_filepath_join(2, buffer_to_cstr(home), name)] *)
Definition under_home (name : String.string) : M (option ak_buffer_t) :=
  home ← ak_filepath_home;
  match home with
  | None => mret None
  | Some _ =>
      '(home_str, home) ← buffer_to_cstr home;
      dir ← ak_filepath_join [home_str; Some (bytes_of name)];
      _ ← ak_buffer_free home;
      mret dir
  end.

(** A directory from a variable, or one under [home] where the platform has it. *)
Definition from_variable (name : String.string) (otherwise : M (option ak_buffer_t)) : M (option ak_buffer_t) :=
  match set_variable name with
  | Some v => buffer_from_str (Some v)
  | None => otherwise
  end.

Definition ak_filepath_cache : M (option ak_buffer_t) :=
  if negb (initialized g) then mret None else
  match p with
  | Windows => from_variable "LOCALAPPDATA"%str (mret None)
  | Apple => under_home "Library/Caches"%str
  | Linux => from_variable "XDG_CACHE_HOME"%str (under_home ".cache"%str)
  end.

Definition ak_filepath_config : M (option ak_buffer_t) :=
  if negb (initialized g) then mret None else
  match p with
  | Windows => from_variable "APPDATA"%str (mret None)
  | Apple => under_home "Library/Application Support"%str
  | Linux => from_variable "XDG_CONFIG_HOME"%str (under_home ".config"%str)
  end.

Definition ak_filepath_data : M (option ak_buffer_t) :=
  if negb (initialized g) then mret None else
  match p with
  | Windows => from_variable "LOCALAPPDATA"%str (mret None)
  | Apple => ak_filepath_config
  | Linux => from_variable "XDG_DATA_HOME"%str (under_home ".local/share"%str)
  end.

Definition ak_filepath_temp : M (option ak_buffer_t) :=
  if negb (initialized g) then mret None else
  match p with
  | Windows =>
      from_variable "TEMP"%str (from_variable "TMP"%str (buffer_from_str (Some (bytes_of "C:\Temp"%str))))
  | _ => from_variable "TMPDIR"%str (buffer_from_str (Some (bytes_of "/tmp"%str)))
  end.

Definition ak_filepath_cwd : M (option ak_buffer_t) :=
  if negb (initialized g) then mret None else
  ok ← alloc_obj (PATH_MAX p);
  if negb ok then mret None else
  match getcwd env (PATH_MAX p) with
  | None => _ ← free_obj; mret None
  | Some cwd =>
      result ← buffer_from_str (Some (chars cwd));
      _ ← free_obj;
      mret result
  end.

(** One character of [ak_filepath_to_native]. *)
Fixpoint append_native (result : option ak_buffer_t) (path : list Z) : M (option ak_buffer_t) :=
  match path with
  | [] => mret result
  | c :: path =>
      '(_, result) ← buffer_append_char result (if is_separator p c then separator g else c);
      append_native result path
  end.

Definition ak_filepath_to_native (path : option (list Z)) : M (option ak_buffer_t) :=
  match path with
  | None => mret None
  | Some path =>
      if negb (initialized g) then mret None else
      result ← ak_buffer_new (u64 (zlen path + 1));
      match result with
      | None => mret None
      | Some _ => append_native result path
      end
  end.
End filepath.

#[local] Arguments ak_filepath_is_absolute : simpl never.
#[local] Arguments buffer_append_str : simpl never.
#[local] Arguments buffer_append_char : simpl never.

(** * Strings in buffers *)

Lemma chars_bytes str : Forall is_char str → Forall is_byte str.
Proof. apply Forall_impl. unfold is_char, is_byte. lia. Qed.

Lemma cstr_chars (c : cstr) : Forall is_char (chars c).
Proof.
  destruct c as [l Hl]. simpl. apply Is_true_true, forallb_True in Hl. revert Hl.
  apply Forall_impl. intros x Hx. unfold is_char. apply Is_true_true, andb_prop in Hx as [H1%Z.ltb_lt H2%Z.ltb_lt]. lia.
Qed.

Lemma c_string_ok str rest : Forall is_char str → c_string (str ++ 0 :: rest) = Ret str.
Proof.
  induction 1 as [|c str Hc _ IH]; [done|]. simpl. rewrite (proj2 (Z.eqb_neq c 0)) by (unfold is_char in Hc; lia).
  by rewrite IH.
Qed.

Section strings.
Context `{Allocator}.

(** The buffer holds [xs], unless an allocation failed since [s0]; it has at most [n]
    bytes. *)
Record holding (s0 : mem) (xs : list Z) (n : Z) (b : ak_buffer_t) (s : mem) : Prop := {
  ho_wf : buffer_wf b;
  ho_count : b_count b <= n;
  ho_fails : (m_fails s0 <= m_fails s)%nat;
  ho_exact : m_fails s = m_fails s0 → contents b = xs;
}.

Definition building (s0 : mem) (xs : list Z) (b : ak_buffer_t) (s : mem) : Prop :=
  holding s0 xs (zlen xs) b s.

Lemma full_blit (d src str : list Z) n :
  0 <= n → n + zlen str <= zlen d → take (Z.to_nat n) d = src →
  wpo (blit d n str 0 (zlen str)) (λ d', zlen d' = zlen d ∧ take (Z.to_nat (n + zlen str)) d' = src ++ str
    ∧ (Forall is_byte d → Forall is_byte str → Forall is_byte d')).
Proof.
  intros Hn Hlen Ht. pose proof (zlen_nonneg str). apply blit_wpo; [lia..|]. intros d' [Hl Hpre _ HF].
  split_and!; [done| |apply HF]. rewrite Hpre, Ht. f_equal. unfold zlen. rewrite Nat2Z.id. simpl. by rewrite firstn_all.
Qed.

Lemma append_str_ok b str s :
  buffer_wf b → Forall is_char str → b_count b + zlen str < 2 ^ 61 →
  wp (buffer_append_str (Some b) (Some str)) (λ '(rc, r) s', ∃ b', r = Some b' ∧ buffer_wf b' ∧
    ((rc = 0 ∧ balance 0 false s s' ∧ contents b' = contents b ++ str)
     ∨ (rc = -1 ∧ balance 0 true s s' ∧ b' = b))) s.
Proof.
  intros Hwf Hstr Hlen. pose proof Hwf as [Hblk Hcnt Hcap Hby Horg]. pose proof (zlen_nonneg str).
  apply chars_bytes in Hstr. unfold buffer_append_str. rewrite (u64_small (b_count b + zlen str)) by lia.
  assert (∀ d c s', buffer_wf (mk_buffer d c (b_count b) (b_origin_offset b)) → b_count b + zlen str <= c →
    take (Z.to_nat (b_count b)) d = contents b → balance 0 false s s' →
    wpo (blit d (b_count b) str 0 (zlen str)) (λ d', ∃ b',
      Some (mk_buffer d' c (b_count b + zlen str) (b_origin_offset b)) = Some b' ∧ buffer_wf b' ∧
      ((0 = 0 ∧ balance 0 false s s' ∧ contents b' = contents b ++ str)
       ∨ (0 = -1 ∧ balance 0 true s s' ∧ b' = b)))) as Hput.
  { intros d c s' [Hd ? ? Hdb ?] Hc Ht Hb. simpl in *. eapply wpo_mono; [apply (full_blit d (contents b)); [lia|lia|done]|].
    intros d' (Hl & Htk & HF). eexists. split; [done|]. split; [split; simpl; [lia|lia|lia|by apply HF|done]|].
    left. split_and!; [done|done|]. unfold contents at 1. simpl. done. }
  wsteps. destruct (Z.ltb_spec (b_capacity b) (b_count b + zlen str)) as [Hgt|Hle].
  - rewrite (u64_small ((b_count b + zlen str) * 2)) by lia. wsteps. apply wp_alloc_bytes; [lia| |].
    + intros s' HA. wsteps. exists b. split_and!; [done|done|]. right. split_and!; [done|balance|done].
    + intros d s' HA Hd Hdb. wsteps.
      apply blit_wpo; [lia..|]. intros d1 [Hl1 Hp1 _ HF1]. wsteps. apply wp_free_obj. intros s2 HL HF. wsteps.
      apply Hput; [split; simpl; [lia|lia|lia|by apply HF1|done]|simpl; lia| |balance].
      rewrite Z.add_0_l in Hp1. simpl in Hp1. exact Hp1.
  - wsteps. apply Hput; [by destruct b|lia|done|apply balance_refl].
Qed.

Lemma append_holding s0 xs n str b s :
  holding s0 xs n b s → Forall is_char str → n + zlen str < 2 ^ 61 →
  wp (buffer_append_str (Some b) (Some str)) (λ '(_, r) s', ∃ b', r = Some b'
    ∧ holding s0 (xs ++ str) (n + zlen str) b' s' ∧ m_live s' = m_live s) s.
Proof.
  intros [Hwf Hc Hf Hex] Hstr Hlen. pose proof (zlen_nonneg str).
  eapply wp_mono; [apply append_str_ok; [done|done|lia]|]. intros [rc r] s' (b' & -> & Hwf' & Hcase).
  exists b'. split; [done|].
  destruct Hcase as [(_ & [HL HF] & Hct)|(_ & [HL HF] & ->)]; (split; [split; [done| |lia|]|lia]).
  - rewrite <- (length_contents b'), Hct, zlen_app, (length_contents b) by done. lia.
  - intros E. by rewrite Hct, Hex by lia.
  - lia.
  - lia.
Qed.

Lemma append_building s0 xs str b s :
  building s0 xs b s → Forall is_char str → zlen xs + zlen str < 2 ^ 61 →
  wp (buffer_append_str (Some b) (Some str)) (λ '(_, r) s', ∃ b', r = Some b'
    ∧ building s0 (xs ++ str) b' s' ∧ m_live s' = m_live s) s.
Proof. intros. unfold building. rewrite zlen_app. by apply append_holding. Qed.

Lemma append_char_building s0 xs c b s :
  building s0 xs b s → is_char c → zlen xs < 2 ^ 60 →
  wp (buffer_append_char (Some b) c) (λ '(_, r) s', ∃ b', r = Some b'
    ∧ building s0 (xs ++ [c]) b' s' ∧ m_live s' = m_live s) s.
Proof.
  intros Hb Hc Hlen. unfold buffer_append_char. rewrite (proj2 (Z.eqb_neq c 0)) by (unfold is_char in Hc; lia).
  apply append_building; [done|by constructor|change (zlen [c]) with 1; lia].
Qed.

Lemma from_str_ok str s :
  Forall is_char str → zlen str < 2 ^ 61 →
  wp (buffer_from_str (Some str)) (λ r s', match r with
    | None => balance 0 true s s'
    | Some b => buffer_wf b ∧ contents b = str ∧ balance 2 false s s'
    end) s.
Proof.
  intros Hstr Hlen. pose proof (zlen_nonneg str). unfold buffer_from_str. wsteps. rewrite u64_small by lia.
  apply wp_buffer_new; [lia|by intros s' Hb; wsteps|]. intros d s1 Hb1 Hd Hdb. wsteps.
  eapply wp_mono; [apply (copy_to_ok _ str (zlen str))|].
  - split; simpl; [lia|lia|lia|done|unfold is_size; lia].
  - by apply chars_bytes.
  - lia.
  - simpl. lia.
  - intros [rc ob] s2 (b & -> & Hwf & Hcase). destruct Hcase as [(-> & HB & Hc & _)|(-> & HB & -> & _)]; simpl; wsteps.
    + split_and!; [done| |balance]. rewrite Hc. unfold zlen. rewrite Nat2Z.id, firstn_all. done.
    + apply wp_free_obj. intros s3 HL HF. apply wp_free_obj. intros s4 HL4 HF4. wsteps. balance.
Qed.

(** Writing the terminator after the contents. *)
Lemma terminate_ok b d c :
  buffer_wf b → Forall is_char (contents b) → zlen d = c → b_count b < c → c < 2 ^ 63 →
  Forall is_byte d → take (Z.to_nat (b_count b)) d = contents b →
  ∃ d', wr d (b_count b) 0 = Ret d' ∧ c_string d' = Ret (contents b)
    ∧ buffer_wf (mk_buffer d' c (b_count b) (b_origin_offset b))
    ∧ contents (mk_buffer d' c (b_count b) (b_origin_offset b)) = contents b.
Proof.
  intros Hwf Hstr Hd Hc Hcs Hdb Ht. pose proof Hwf as [Hblk Hcnt Hcap Hby Horg]. rewrite wr_ok by lia.
  assert (<[Z.to_nat (b_count b) := 0]> d = contents b ++ 0 :: drop (S (Z.to_nat (b_count b))) d) as E.
  { rewrite insert_take_drop by (unfold zlen in *; lia). by rewrite Ht. }
  assert (length (contents b) = Z.to_nat (b_count b)) as Hl by (pose proof (length_contents b Hwf); unfold zlen in *; lia).
  eexists. split_and!; [done|by rewrite E, c_string_ok|split; simpl|].
  - by rewrite zlen_insert.
  - lia.
  - lia.
  - apply Forall_insert; [done|unfold is_byte; lia].
  - done.
  - unfold contents at 1. simpl. rewrite E, <- Hl. by rewrite take_app_length.
Qed.

Lemma to_cstr_ok b s :
  buffer_wf b → Forall is_char (contents b) → b_count b < 2 ^ 61 →
  wp (buffer_to_cstr (Some b)) (λ '(r, ob) s', ∃ b', ob = Some b' ∧ buffer_wf b' ∧ contents b' = contents b
    ∧ ((r = Some (contents b) ∧ balance 0 false s s') ∨ (r = None ∧ balance 0 true s s'))) s.
Proof.
  intros Hwf Hstr Hlen. pose proof Hwf as [Hblk Hcnt Hcap Hby Horg]. unfold buffer_to_cstr.
  rewrite (u64_small (b_count b + 1)) by lia. wsteps. destruct (Z.ltb_spec (b_capacity b) (b_count b + 1)) as [Hgt|Hle].
  - wsteps. apply wp_alloc_bytes; [lia| |].
    + intros s' HA. wsteps. exists b. split_and!; [done|done|done|]. right. split; [done|balance].
    + intros d s' HA Hd Hdb. wsteps. apply blit_wpo; [lia..|]. intros d1 [Hl1 Hp1 _ HF1]. wsteps.
      apply wp_free_obj. intros s2 HL HF. wsteps. cbn [b_data b_count b_capacity b_origin_offset].
      destruct (terminate_ok b d1 (b_count b + 1)) as (d' & -> & Hs & Hwf' & Hct); try done; try lia; [by apply HF1|].
      wsteps. rewrite Hs. wsteps. eexists. split_and!; [done|done|done|]. left. split; [done|balance].
  - wsteps. destruct (terminate_ok b (b_data b) (b_capacity b)) as (d' & -> & Hs & Hwf' & Hct); try done; try lia.
    wsteps. rewrite Hs. wsteps. eexists. split_and!; [done|done|done|]. left. split; [done|apply balance_refl].
Qed.
End strings.

(** * What paths mean *)

(** The longest runs of characters that are not separators, the first one begun
    with [cur]. *)
Fixpoint runs (f : Z → bool) (cur str : list Z) : list (list Z) :=
  match str with
  | [] => match cur with [] => [] | _ => [cur] end
  | c :: str =>
      if f c then match cur with [] => runs f [] str | _ => cur :: runs f [] str end
      else runs f (cur ++ [c]) str
  end.

Definition segments (p : platform) (str : list Z) : list (list Z) := runs (is_separator p) [] str.

(** A component as it fits the buffer of the code. *)
Definition cut (p : platform) (c : list Z) : list Z := take (Z.to_nat (PATH_MAX p - 1)) c.

(** [.] stays, [..] goes up; counted are the components taken away. *)
Definition resolve_step (st : list (list Z) * Z) (c : list Z) : list (list Z) * Z :=
  if decide (c = dot) then st
  else if decide (c = dotdot) then
    match st.1 with
    | [] => st
    | cs => (take (pred (length cs)) cs, st.2 + 1)
    end
  else (st.1 ++ [c], st.2).

Definition resolve (p : platform) (str : list Z) : list (list Z) * Z :=
  fold_left resolve_step (cut p <$> segments p str) ([], 0).

(** The components with separators between them. *)
Definition separated (sep : Z) (cs : list (list Z)) : list Z :=
  match cs with
  | [] => []
  | c :: cs => c ++ concat ((λ c, sep :: c) <$> cs)
  end.

Definition normal (p : platform) (sep : Z) (str : list Z) : list Z :=
  let cs := (resolve p str).1 in
  if ak_filepath_is_absolute p (Some str) then sep :: separated sep cs
  else match cs with
       | [] => dot
       | _ => separated sep cs
       end.

Lemma path_max_range p : 260 <= PATH_MAX p <= 4096.
Proof. destruct p; simpl; lia. Qed.

Lemma cut_nil p c : cut p c = [] ↔ c = [].
Proof.
  pose proof (path_max_range p). unfold cut. destruct c as [|x c]; [by rewrite take_nil|].
  destruct (Z.to_nat (PATH_MAX p - 1)) eqn:E; [lia|done].
Qed.

(** A component of a path that is normal. *)
Definition proper (p : platform) (c : list Z) : Prop :=
  c ≠ [] ∧ c ≠ dot ∧ c ≠ dotdot ∧ Forall (λ x, is_char x ∧ is_separator p x = false) c ∧ zlen c < PATH_MAX p.

Lemma cut_proper p c :
  c ≠ [] → Forall (λ x, is_char x ∧ is_separator p x = false) c →
  cut p c = dot ∨ cut p c = dotdot ∨ proper p (cut p c).
Proof.
  intros Hne Hc. pose proof (path_max_range p). destruct (decide (cut p c = dot)) as [|Hd]; [by left|].
  destruct (decide (cut p c = dotdot)) as [|Hdd]; [by right; left|]. right. right. split_and!; [by rewrite cut_nil|done|done| |].
  - by apply Forall_take.
  - unfold cut, zlen. rewrite length_take. lia.
Qed.

Lemma runs_chars p cur str :
  Forall is_char str → Forall (λ x, is_char x ∧ is_separator p x = false) cur →
  Forall (λ c, c ≠ [] ∧ Forall (λ x, is_char x ∧ is_separator p x = false) c) (runs (is_separator p) cur str).
Proof.
  intros Hs. revert cur. induction Hs as [|x str Hx _ IH]; intros cur Hcur; simpl.
  - destruct cur; constructor; [done|constructor].
  - destruct (is_separator p x) eqn:E.
    + destruct cur; [by apply IH|]. constructor; [done|by apply IH].
    + apply IH, Forall_app. split; [done|]. by constructor.
Qed.

Lemma resolve_step_proper p st c :
  Forall (proper p) st.1 → c = dot ∨ c = dotdot ∨ proper p c → Forall (proper p) (resolve_step st c).1.
Proof.
  intros Hst Hc. unfold resolve_step. destruct (decide (c = dot)) as [->|Hd]; [done|].
  destruct (decide (c = dotdot)) as [->|Hdd].
  - destruct st.1 eqn:E; [by rewrite E|]. rewrite <- E. simpl. rewrite E. by apply Forall_take.
  - simpl. apply Forall_app. split; [done|]. constructor; [|done]. destruct Hc as [|[|]]; done.
Qed.

Lemma resolve_fold_proper p cs st :
  Forall (proper p) st.1 → Forall (λ c, c ≠ [] ∧ Forall (λ x, is_char x ∧ is_separator p x = false) c) cs →
  Forall (proper p) (fold_left resolve_step (cut p <$> cs) st).1.
Proof.
  intros Hst Hcs. revert st Hst. induction Hcs as [|c cs [Hne Hc] _ IH]; intros st Hst; [done|].
  simpl. apply IH, resolve_step_proper; [done|]. by apply cut_proper.
Qed.

Lemma resolve_proper p str : Forall is_char str → Forall (proper p) (resolve p str).1.
Proof. intros Hs. apply resolve_fold_proper; [constructor|]. by apply runs_chars. Qed.

(** * Normalizing *)

Section normalizing.
Context `{Allocator} (p : platform).

(** The components collected since [s0], when [n] have been seen: with no failed
    allocation they and the number taken away are [st].  Each has a block for its
    characters. *)
Record parsed (s0 : mem) (st : list (list Z) * Z) (n : Z) (components : list_base_t (list Z)) (s : mem) : Prop := {
  pa_list : ∃ ys, list_wf components ys ∧ zlen ys <= n ∧ Forall (proper p) ys
    ∧ m_live s0 + Lists.owned components + zlen ys <= m_live s
    ∧ (m_fails s = m_fails s0 → ys = st.1 ∧ m_live s = m_live s0 + Lists.owned components + zlen ys + st.2);
  pa_fails : (m_fails s0 <= m_fails s)%nat;
}.

(** The component buffer holds the beginning of [cur] that fits. *)
Record collecting (cur block : list Z) (idx : Z) : Prop := {
  co_size : zlen block = PATH_MAX p;
  co_idx : idx = zlen (cut p cur);
  co_block : take (length (cut p cur)) block = cut p cur;
  co_chars : Forall (λ x, is_char x ∧ is_separator p x = false) cur;
}.

Lemma end_component_ok s0 st n cur block idx components s :
  collecting cur block idx → cur ≠ [] → parsed s0 st n components s → n < 2 ^ 31 →
  wp (end_component block idx components) (λ '(block', components') s',
    zlen block' = PATH_MAX p ∧ parsed s0 (resolve_step st (cut p cur)) (n + 1) components' s') s.
Proof.
  intros [Hsz Hidx Hblk Hch] Hne [(ys & Hw & Hn & Hp & Hlow & Hex) Hf] Hlim.
  pose proof (path_max_range p) as Hpm. unfold end_component. wsteps.
  assert (zlen (cut p cur) < PATH_MAX p) as Hlt by (unfold cut, zlen; rewrite length_take; lia).
  pose proof (zlen_nonneg (cut p cur)). rewrite wr_ok by lia. wsteps.
  assert (Forall is_char (cut p cur)) as Hcc.
  { apply Forall_take. revert Hch. apply Forall_impl. by intros x [? _]. }
  assert (<[Z.to_nat idx := 0]> block = cut p cur ++ 0 :: drop (S (Z.to_nat idx)) block) as ->.
  { rewrite insert_take_drop by (unfold zlen in *; lia). f_equal. rewrite Hidx. unfold zlen. by rewrite Nat2Z.id. }
  rewrite c_string_ok by done. wsteps. rewrite !strcmp_chars by (done || by repeat constructor).
  assert (zlen (cut p cur ++ 0 :: drop (S (Z.to_nat idx)) block) = PATH_MAX p) as Hsz'.
  { rewrite zlen_app, zlen_cons. rewrite <- Hsz. unfold zlen in *. rewrite length_drop. lia. }
  unfold resolve_step. case_bool_decide as Hd; [rewrite decide_True by done|rewrite decide_False by done].
  { wsteps. split; [done|]. split; [|done]. exists ys. split_and!; [done|lia|done|done|done]. }
  case_bool_decide as Hdd; [rewrite decide_True by done|rewrite decide_False by done].
  - pose proof (lw_count _ _ Hw) as Hc. destruct (Z.ltb_spec 0 (count components)) as [Hpos|Hzero].
    + wsteps. eapply wpo_mono; [apply (list_pop_ok _ ys); [done|lia]|]. intros [last comps'] [(-> & _)|(zs & v & -> & -> & Hw' & Ho)].
      { change (zlen []) with 0 in Hc. lia. }
      wsteps. apply wp_free_obj. intros s' HL HF. wsteps. split; [done|].
      rewrite zlen_app in *. change (zlen [v]) with 1 in *. apply Forall_app in Hp as [Hp _].
      split; [|lia]. exists zs. split_and!; [done|lia|done|lia|]. intros E. destruct Hex as [Hys Hlive]; [lia|].
      rewrite <- Hys. destruct (zs ++ [v]) as [|y l] eqn:El; [by destruct zs|]. simpl. split; [|lia].
      assert (length l = length zs) as Hll by (apply (f_equal length) in El; rewrite length_app in El; simpl in El; lia).
      rewrite Hll, <- El. by rewrite take_app_length.
    + wsteps. split; [done|]. assert (ys = []) as -> by (destruct ys; [done|rewrite zlen_cons in Hc; pose proof (zlen_nonneg ys); lia]).
      split; [|done]. exists []. split_and!; [done|lia|done|done|]. intros E. destruct (Hex E) as [Hst Hlive].
      destruct st as [cs k]. simpl in *. by subst cs.
  - wsteps. apply wp_alloc_obj. intros [|] s1 [HL1 HF1]; wsteps.
    2:{ split; [done|]. split; [|lia]. exists ys. split_and!; [done|lia|done|lia|lia]. }
    eapply wp_mono; [apply (push_grown components ys); [done|lia]|]. intros [rc comps'] s2 (zs & Hw' & [GF GL GE] & Hzs).
    wsteps. split; [done|]. split; [|lia]. exists zs.
    assert (proper p (cut p cur)) as Hpc by (destruct (cut_proper p cur Hne Hch) as [|[|]]; done).
    destruct Hzs as [->|[-> Hfail]].
    + rewrite zlen_app in *. change (zlen [_]) with 1. split_and!; [done|lia|by apply Forall_app; split; [|constructor]|lia|].
      intros E. destruct Hex as [-> Hlive]; [lia|]. split; [done|]. simpl. lia.
    + split_and!; [done|lia|done|lia|lia].
Qed.

Lemma collecting_nil block : zlen block = PATH_MAX p → collecting [] block 0.
Proof. intros Hb. split; [done|by unfold cut; rewrite take_nil|by unfold cut; rewrite take_nil|constructor]. Qed.

(** One more character. *)
Lemma collect_char cur block idx c :
  collecting cur block idx → is_char c → is_separator p c = false →
  if idx <? PATH_MAX p - 1
  then wpo (wr block idx c) (λ block', collecting (cur ++ [c]) block' (idx + 1))
  else collecting (cur ++ [c]) block idx.
Proof.
  intros [Hsz Hidx Hblk Hch] Hc Hs. pose proof (path_max_range p) as Hpm.
  assert (Forall (λ x, is_char x ∧ is_separator p x = false) (cur ++ [c])) as Hch'
    by (apply Forall_app; split; [done|by constructor]).
  pose proof (zlen_nonneg (cut p cur)). destruct (Z.ltb_spec idx (PATH_MAX p - 1)) as [Hlt|Hge].
  - assert (cut p cur = cur) as Hcut.
    { unfold cut in *. apply take_ge. unfold zlen in *. rewrite length_take in *. lia. }
    assert (cut p (cur ++ [c]) = cur ++ [c]) as Hcut'.
    { unfold cut in *. apply take_ge. unfold zlen in *. rewrite length_take in *. rewrite length_app. simpl. lia. }
    rewrite Hcut in *. rewrite wr_ok by lia. simpl. split; rewrite ?Hcut'; [by rewrite zlen_insert| | |done].
    + rewrite zlen_app. change (zlen [c]) with 1. lia.
    + rewrite Hidx. unfold zlen in *. rewrite Nat2Z.id, length_app. simpl. rewrite Nat.add_1_r, (take_S_r _ _ c).
      * by rewrite take_insert_ge, Hblk.
      * rewrite list_lookup_insert_eq; [done|lia].
  - assert (cut p (cur ++ [c]) = cut p cur) as Hcut.
    { unfold cut in *. rewrite take_app_le; [done|]. unfold zlen in *. rewrite length_take in *. lia. }
    split; rewrite ?Hcut; done.
Qed.

Lemma parse_ok s0 path : ∀ cur block idx comps st n s,
  Forall is_char path → collecting cur block idx → parsed s0 st n comps s → n + zlen path < 2 ^ 31 →
  wp (parse_components p path block idx comps) (λ '(block', idx', comps') s', ∃ cur' st' n',
    collecting cur' block' idx' ∧ parsed s0 st' n' comps' s' ∧ n' <= n + zlen path
    ∧ fold_left resolve_step (cut p <$> runs (is_separator p) cur path) st
      = match cur' with [] => st' | _ => resolve_step st' (cut p cur') end) s.
Proof.
  induction path as [|c path IH]; intros cur block idx comps st n s Hpath Hco Hpa Hn; cbn [parse_components runs].
  - wsteps. exists cur, st, n. split_and!; [done|done|change (zlen []) with 0; lia|]. by destruct cur.
  - rewrite zlen_cons in Hn. apply Forall_cons_1 in Hpath as [Hc Hpath]. pose proof (zlen_nonneg path).
    destruct (is_separator p c) eqn:Es.
    + destruct (Z.ltb_spec 0 idx) as [Hpos|Hzero].
      * assert (cur ≠ []) as Hne.
        { intros ->. destruct Hco as [_ Hi _ _]. unfold cut in Hi. rewrite take_nil in Hi. change (zlen []) with 0 in Hi. lia. }
        wsteps. eapply wp_mono; [apply (end_component_ok s0 st n cur); [done|done|done|lia]|].
        intros [block' comps'] s' [Hb Hpa']. wsteps.
        eapply wp_mono; [apply (IH [] block' 0 comps' (resolve_step st (cut p cur)) (n + 1)); [done|by apply collecting_nil|done|lia]|].
        intros [[block2 idx2] comps2] s2 (cur' & st' & n' & H1 & H2 & H3 & H4). exists cur', st', n'.
        rewrite zlen_cons. split_and!; [done|done|lia|]. rewrite <- H4. by destruct cur.
      * assert (cur = []) as ->.
        { apply (cut_nil p). destruct (cut p cur) eqn:E; [done|]. destruct Hco as [_ Hi _ _]. rewrite E, zlen_cons in Hi.
          pose proof (zlen_nonneg l). lia. }
        eapply wp_mono; [apply (IH [] block idx comps st n); [done|done|done|lia]|].
        intros [[block2 idx2] comps2] s2 (cur' & st' & n' & H1 & H2 & H3 & H4). exists cur', st', n'.
        rewrite zlen_cons. split_and!; [done|done|lia|done].
    + pose proof (collect_char cur block idx c Hco Hc Es) as Hadd.
      destruct (idx <? PATH_MAX p - 1); wsteps.
      * eapply wpo_mono; [exact Hadd|]. intros block' Hco'. wsteps.
        eapply wp_mono; [apply (IH (cur ++ [c]) block' _ comps st n); [done|done|done|lia]|].
        intros [[block2 idx2] comps2] s2 (cur' & st' & n' & H1 & H2 & H3 & H4). exists cur', st', n'.
        rewrite zlen_cons. split_and!; [done|done|lia|done].
      * eapply wp_mono; [apply (IH (cur ++ [c]) block _ comps st n); [done|done|done|lia]|].
        intros [[block2 idx2] comps2] s2 (cur' & st' & n' & H1 & H2 & H3 & H4). exists cur', st', n'.
        rewrite zlen_cons. split_and!; [done|done|lia|done].
Qed.

(** What is appended for the components, the first of all or not. *)
Definition appended (sep : Z) (first : bool) (cs : list (list Z)) : list Z :=
  if first then separated sep cs else concat ((λ c, sep :: c) <$> cs).

Lemma appended_cons sep (first : bool) c cs :
  appended sep first (c :: cs) = ((if first then [] else [sep]) ++ c) ++ appended sep false cs.
Proof. by destruct first. Qed.

Lemma proper_chars c : proper p c → Forall is_char c.
Proof. intros (_ & _ & _ & Hc & _). revert Hc. apply Forall_impl. by intros x [? _]. Qed.

Lemma append_component_ok g s0 xs b (first : bool) c s :
  is_char (separator g) → building s0 xs b s → proper p c → zlen xs < 2 ^ 59 →
  wp (append_component g c (Some b, first)) (λ '(r, first') s', ∃ b', r = Some b' ∧ first' = false
    ∧ building s0 (xs ++ (if first then [] else [separator g]) ++ c) b' s' ∧ m_live s' = m_live s - 1) s.
Proof.
  intros Hsep Hb Hc Hlen. pose proof (zlen_nonneg xs).
  assert (zlen c < 4096) as Hcl by (destruct Hc as (_ & _ & _ & _ & ?); pose proof (path_max_range p); lia).
  assert (∀ xs1 b1 s1, building s0 xs1 b1 s1 → zlen xs1 <= zlen xs + 1 → m_live s1 = m_live s →
    wp (buffer_append_str (Some b1) (Some c)) (λ '(_, r) s2, wp (@free_obj) (λ _ s', ∃ b', r = Some b'
      ∧ building s0 (xs1 ++ c) b' s' ∧ m_live s' = m_live s - 1) s2) s1) as Hrest.
  { intros xs1 b1 s1 Hb1 Hl1 Hm1.
    eapply wp_mono; [apply (append_building s0 xs1 c); [done|by apply proper_chars|lia]|].
    intros [rc r] s2 (b2 & -> & [W C F E] & Hm2). apply wp_free_obj. intros s3 HL HF.
    exists b2. split_and!; [done| |lia]. split; [done|done|lia|]. intros E3. apply E. lia. }
  unfold append_component. wsteps. destruct first; cbn [negb app]; wsteps.
  - eapply wp_mono; [apply (Hrest xs b s); [done|lia|done]|]. intros [rc r] s2 Hf. wsteps.
    eapply wp_mono; [exact Hf|]. intros _ s3 (b' & -> & Hb' & Hm). wsteps. by exists b'.
  - eapply wp_mono; [apply (append_char_building s0 xs (separator g)); [done|done|lia]|].
    intros [rc r] s1 (b1 & -> & Hb1 & Hm1). wsteps.
    eapply wp_mono; [apply (Hrest (xs ++ [separator g]) b1 s1); [done| |done]|].
    { rewrite zlen_app. change (zlen [_]) with 1. lia. }
    intros [rc' r] s2 Hf. wsteps.
    eapply wp_mono; [exact Hf|]. intros _ s3 (b' & -> & Hb' & Hm). wsteps. exists b'. by rewrite <- app_assoc in Hb'.
Qed.

Lemma append_components_ok g s0 ys : ∀ xs b first s,
  is_char (separator g) → building s0 xs b s → Forall (proper p) ys → zlen xs + 5000 * zlen ys < 2 ^ 59 →
  wp (each (R := False) ys (λ comp acc, acc ← append_component g comp acc; mret (inl acc)) (Some b, first))
    (λ r s', ∃ b' first', r = inl (Some b', first')
      ∧ building s0 (xs ++ appended (separator g) first ys) b' s' ∧ m_live s' = m_live s - zlen ys) s.
Proof.
  induction ys as [|c ys IH]; intros xs b first s Hsep Hb Hys Hlen; cbn [each].
  - wsteps. exists b, first. split_and!; [done| |change (zlen []) with 0; lia]. destruct first; simpl; by rewrite app_nil_r.
  - apply Forall_cons_1 in Hys as [Hc Hys]. rewrite zlen_cons in *. pose proof (zlen_nonneg ys). pose proof (zlen_nonneg xs).
    assert (zlen c < 4096) as Hcl by (destruct Hc as (_ & _ & _ & _ & ?); pose proof (path_max_range p); lia).
    wsteps. eapply wp_mono; [apply (append_component_ok g s0 xs); [done|done|done|lia]|].
    intros [r first'] s1 (b1 & -> & -> & Hb1 & Hm1). wsteps.
    eapply wp_mono; [apply (IH (xs ++ (if first then [] else [separator g]) ++ c) b1 false s1); [done|exact Hb1|done|]|].
    { rewrite !zlen_app. destruct first; [change (zlen []) with 0|change (zlen [_]) with 1]; lia. }
    intros r s2 (b' & first' & -> & Hb' & Hm'). exists b', first'. split_and!; [done| |lia].
    rewrite appended_cons. by rewrite <- !app_assoc in *.
Qed.

Lemma free_components_ok ys : ∀ s,
  wp (each (R := False) ys (λ (_ : list Z) (_ : ()), _ ← free_obj; mret (inl ())) ())
    (λ _ s', m_live s' = m_live s - zlen ys ∧ m_fails s' = m_fails s) s.
Proof.
  induction ys as [|y ys IH]; intros s; cbn [each]; wsteps; [change (zlen []) with 0; lia|].
  apply wp_free_obj. intros s1 HL HF. wsteps. eapply wp_mono; [apply IH|]. intros r s2 [H1 H2]. rewrite zlen_cons. lia.
Qed.

(** What [ak_filepath_normalize] leaves, begun in [s0]. *)
Definition normalized (s0 : mem) (sep : Z) (path : list Z) (r : option ak_buffer_t) (s : mem) : Prop :=
  match r with
  | None => (m_fails s0 < m_fails s)%nat ∧ m_live s0 <= m_live s
  | Some b => buffer_wf b ∧ (m_fails s0 <= m_fails s)%nat ∧ m_live s0 + 2 <= m_live s
      ∧ (m_fails s = m_fails s0 →
         contents b = normal p sep path ∧ m_live s = m_live s0 + 2 + (resolve p path).2)
  end.

Lemma build_path_ok g s0 path N components s :
  is_char (separator g) → parsed s0 (resolve p path) N components s → N < 2 ^ 31 →
  wp (build_path g (ak_filepath_is_absolute p (Some path)) components) (normalized s0 (separator g) path) s.
Proof.
  intros Hsep [(ys & Hw & Hn & Hp & Hlow & Hex) Hf] HN. pose proof (zlen_nonneg ys). unfold build_path. wsteps.
  apply wp_buffer_new; [lia| |].
  - intros s1 [HL HF]. wsteps. eapply wp_list_while; [exact Hw|].
    eapply wp_mono; [apply free_components_ok|]. intros _ s2 [HL2 HF2]. wsteps.
    eapply wp_mono; [by apply (list_deinit_ok components ys)|]. intros l' s3 (_ & _ & HL3 & HF3). wsteps.
    unfold normalized. lia.
  - intros d s1 [HL HF] Hd Hdb. wsteps.
    set (abs := ak_filepath_is_absolute p (Some path)). set (b0 := mk_buffer d (Z.max 16 256) 0 0).
    assert (building s1 [] b0 s1) as Hb0.
    { split; [split; simpl; [lia|lia|lia|done|unfold is_size; lia]|simpl; change (zlen []) with 0; lia|lia|done]. }
    eapply (wp_mono _ (λ r s2, ∃ b, r = Some b ∧ building s1 (if abs then [separator g] else []) b s2 ∧ m_live s2 = m_live s1)).
    { destruct abs; wsteps; [|by exists b0]. eapply wp_mono; [by apply (append_char_building s1 [] (separator g) b0)|].
      intros [rc r] s2 (b & -> & Hb & Hm). wsteps. by exists b. }
    intros r s2 (b & -> & Hb & Hm). wsteps. eapply wp_list_while; [exact Hw|].
    eapply wp_mono; [apply (append_components_ok g s1 ys (if abs then [separator g] else []) b true); [done|exact Hb|done|]|].
    { destruct abs; [change (zlen [_]) with 1|change (zlen []) with 0]; lia. }
    intros r s3 (b' & first' & -> & Hb' & Hm'). wsteps.
    eapply wp_mono; [by apply (list_deinit_ok components ys)|]. intros l' s4 (_ & _ & HL4 & HF4). wsteps.
    assert (building s1 ((if abs then [separator g] else []) ++ separated (separator g) ys) b' s4) as Hb4.
    { destruct Hb' as [W C F E]. split; [done|done|lia|]. intros E4. apply E. lia. }
    clear Hb' HF4. destruct ((ak_buffer_count (Some b') =? 0) && negb abs) eqn:Edot.
    + apply andb_true_iff in Edot as [Ez%Z.eqb_eq Eabs%negb_true_iff]. simpl in Ez. wsteps.
      destruct Hb4 as [W C F E].
      eapply wp_mono; [apply append_str_ok; [done|by repeat constructor|change (zlen dot) with 1; lia]|].
      intros [rc r] s5 (b5 & -> & Hwf5 & Hcase). wsteps. rewrite Eabs in *. simpl in *.
      destruct Hcase as [(_ & [HL5 HF5] & Hct)|(_ & [HL5 HF5] & ->)]; (split_and!; [done|lia|lia|intros E5]); [|lia].
      destruct Hex as [-> Hlive]; [lia|]. split; [|lia].
      assert (contents b' = []) as Hnil.
      { pose proof (length_contents b' W). destruct (contents b'); [done|]. rewrite zlen_cons in *.
        pose proof (zlen_nonneg l). lia. }
      rewrite Hct, Hnil. simpl. unfold normal, abs in *. rewrite E in Hnil by lia. rewrite Eabs.
      destruct (resolve p path).1 as [|c cs]; [done|].
      apply Forall_cons_1 in Hp as [[Hc _] _]. simpl in Hnil. by destruct c.
    + wsteps. destruct Hb4 as [W C F E]. unfold normalized. split_and!; [done|lia|lia|]. intros E4.
      destruct Hex as [-> Hlive]; [lia|]. split; [|lia]. rewrite E by lia. unfold normal, abs in *.
      destruct (ak_filepath_is_absolute p (Some path)) eqn:Eabs; simpl in *; [done|].
      rewrite andb_true_r in Edot.
      destruct (resolve p path).1 as [|c cs] eqn:Er; [|done]. exfalso.
      assert (m_fails s4 = m_fails s1) as E5 by lia. specialize (E E5). simpl in E.
      pose proof (length_contents b' W) as Hl. rewrite E in Hl. change (zlen []) with 0 in Hl.
      apply Z.eqb_neq in Edot. lia.
Qed.

Lemma normalize_ok g path s :
  initialized g = true → is_char (separator g) → Forall is_char path → zlen path < 2 ^ 30 →
  wp (ak_filepath_normalize p g (Some path)) (normalized s (separator g) path) s.
Proof.
  intros Hi Hsep Hpath Hlen. pose proof (zlen_nonneg path). pose proof (path_max_range p).
  unfold ak_filepath_normalize. rewrite Hi. simpl negb. cbv iota zeta. wsteps.
  assert (parsed s ([], 0) 0 (list_init sizeof_pointer) s) as Hinit.
  { split; [|done]. exists []. split_and!; [split; [by left|done|done|by exists []|done]|change (zlen []) with 0; lia|constructor| |].
    all: change (Lists.owned (list_init sizeof_pointer)) with 0; change (zlen []) with 0; simpl; try lia. all: intros _; split; [done|lia]. }
  eapply wp_mono; [apply (parse_ok s path []); [done| |exact Hinit|lia]|].
  { apply collecting_nil. apply length_fresh_bytes. lia. }
  intros [[block idx] comps] s1 (cur & st & n & Hco & Hpa & Hn & Hfold). wsteps.
  eapply (wp_mono _ (λ comps s2, parsed s (resolve p path) (n + 1) comps s2)).
  - unfold resolve, segments. rewrite Hfold. destruct (Z.ltb_spec 0 idx) as [Hpos|Hzero].
    + wsteps. destruct cur as [|c cur].
      { destruct Hco as [_ Hidx _ _]. unfold cut in Hidx. rewrite take_nil in Hidx. change (zlen []) with 0 in Hidx. lia. }
      eapply wp_mono; [by apply (end_component_ok s st n (c :: cur)); [done| |done|lia]|].
      intros [block' comps'] s2 [_ Hpa']. by wsteps.
    + assert (cur = []) as ->.
      { apply (cut_nil p). destruct (cut p cur) eqn:E; [done|]. destruct Hco as [_ Hidx _ _]. rewrite E, zlen_cons in Hidx.
        pose proof (zlen_nonneg l). lia. }
      wsteps. destruct Hpa as [(ys & ? & ? & Hrest) ?]. split; [|done]. exists ys. split_and!; try lia; apply Hrest || done.
  - intros comps' s2 Hpa'. apply (build_path_ok g s path (n + 1)); [done|done|lia].
Qed.
End normalizing.

(** * Normal paths *)

(** The state of a program that has initialised the library. *)
Definition ready (p : platform) : filepath_state_t := ak_filepath_init p g_filepath_state.

Lemma ready_separator p :
  initialized (ready p) = true ∧ is_char (separator (ready p)) ∧ is_separator p (separator (ready p)) = true.
Proof. destruct p; (split_and!; [done|unfold is_char; simpl; lia|done]). Qed.

Lemma runs_component f c rest :
  Forall (λ x, f x = false) c → runs f [] (c ++ rest) = runs f c rest.
Proof.
  intros Hc. rewrite <- (app_nil_l c) at 2. generalize (@nil Z). induction Hc as [|x c Hx _ IH]; intros cur; simpl.
  - by rewrite app_nil_r.
  - rewrite Hx, IH. by rewrite <- app_assoc.
Qed.

Lemma runs_separated f sep cs :
  f sep = true → Forall (λ c, c ≠ [] ∧ Forall (λ x, f x = false) c) cs → runs f [] (separated sep cs) = cs.
Proof.
  intros Hsep Hall. destruct Hall as [|c cs [Hne Hc] Hcs]; [done|]. simpl. rewrite runs_component by done. clear Hc.
  revert c Hne. induction Hcs as [|d cs [Hd Hdc] _ IH]; intros c Hne; simpl.
  - by destruct c.
  - rewrite Hsep. destruct c as [|x c]; [done|]. f_equal. rewrite runs_component by done. by apply IH.
Qed.

Lemma proper_run p c : proper p c → c ≠ [] ∧ Forall (λ x, is_separator p x = false) c.
Proof. intros (Hne & _ & _ & Hc & _). split; [done|]. revert Hc. apply Forall_impl. by intros x [_ ?]. Qed.

Lemma resolve_proper_id p cs st :
  Forall (proper p) cs → fold_left resolve_step (cut p <$> cs) st = (st.1 ++ cs, st.2).
Proof.
  intros Hcs. revert st. induction Hcs as [|c cs Hc _ IH]; intros st; simpl.
  - rewrite app_nil_r. by destruct st.
  - destruct Hc as (_ & Hd & Hdd & _ & Hl).
    assert (cut p c = c) as -> by (apply take_ge; unfold zlen in Hl; lia).
    rewrite IH. unfold resolve_step. rewrite !decide_False by done. simpl. by rewrite <- app_assoc.
Qed.

(** A normal path has the components it was made from. *)
Lemma resolve_normal p sep path :
  is_separator p sep = true → Forall is_char path → resolve p (normal p sep path) = ((resolve p path).1, 0).
Proof.
  intros Hsep Hpath. pose proof (resolve_proper p path Hpath) as Hp. unfold normal.
  assert (∀ cs, Forall (proper p) cs → segments p (separated sep cs) = cs) as Hseg.
  { intros cs Hcs. apply runs_separated; [done|]. revert Hcs. apply Forall_impl. apply proper_run. }
  destruct (ak_filepath_is_absolute p (Some path)).
  - unfold resolve at 1, segments. simpl. rewrite Hsep. fold (segments p (separated sep (resolve p path).1)).
    rewrite Hseg, resolve_proper_id by done. done.
  - destruct (resolve p path).1 as [|c cs] eqn:E; [by destruct p|]. rewrite <- E in *.
    unfold resolve at 1. rewrite Hseg, resolve_proper_id by done. done.
Qed.

Lemma normal_absolute p path :
  p ≠ Windows → Forall is_char path →
  ak_filepath_is_absolute p (Some (normal p (separator (ready p)) path)) = ak_filepath_is_absolute p (Some path).
Proof.
  intros Hw Hpath. pose proof (resolve_proper p path Hpath) as Hp. unfold normal.
  destruct (ak_filepath_is_absolute p (Some path)); [by destruct p|].
  destruct Hp as [|c cs (Hne & _ & _ & Hc & _) _]; [by destruct p|].
  destruct c as [|x c]; [done|]. apply Forall_cons_1 in Hc as [[_ Hx] _]. simpl. by destruct p.
Qed.

Lemma normal_idempotent p path :
  p ≠ Windows → Forall is_char path → let sep := separator (ready p) in
  normal p sep (normal p sep path) = normal p sep path.
Proof.
  intros Hw Hpath sep. unfold normal at 1. rewrite resolve_normal by (done || apply ready_separator).
  rewrite normal_absolute by done. done.
Qed.

(** * What joining does *)

Definition join_two (p : platform) (sep : Z) (path component : list Z) : list Z :=
  match component, list.last path with
  | [], _ => path
  | _, None => component
  | c :: rest, Some y =>
      match is_separator p y, is_separator p c with
      | true, true => path ++ rest
      | false, false => path ++ sep :: component
      | _, _ => path ++ component
      end
  end.

Definition joined (p : platform) (sep : Z) (args : list (option (list Z))) : list Z :=
  fold_left (join_two p sep) (omap id args) [].

Lemma runs_split f x a b : f x = true → ∀ cur, runs f cur (a ++ x :: b) = runs f cur a ++ runs f [] b.
Proof.
  intros Hx. induction a as [|y a IH]; intros cur; simpl.
  - rewrite Hx. by destruct cur.
  - destruct (f y); [|apply IH]. rewrite IH. by destruct cur.
Qed.

Lemma segments_split p x a b :
  is_separator p x = true → segments p (a ++ x :: b) = segments p a ++ segments p b.
Proof. intros Hx. by apply runs_split. Qed.

Lemma segments_lead p x b : is_separator p x = true → segments p (x :: b) = segments p b.
Proof. intros Hx. apply (segments_split p x [] b Hx). Qed.

Lemma segments_trail p x a : is_separator p x = true → segments p (a ++ [x]) = segments p a.
Proof. intros Hx. rewrite segments_split by done. apply app_nil_r. Qed.

(** Joining keeps the components, in order. *)
Lemma segments_join_two p sep a c :
  is_separator p sep = true → segments p (join_two p sep a c) = segments p a ++ segments p c.
Proof.
  intros Hsep. destruct c as [|x c]; [by rewrite app_nil_r|]. simpl.
  destruct a as [|y a _] using rev_ind; [done|]. rewrite last_snoc.
  destruct (is_separator p y) eqn:Ey, (is_separator p x) eqn:Ex.
  - rewrite segments_trail, segments_lead, <- app_assoc by done. by apply segments_split.
  - rewrite segments_trail, <- app_assoc by done. by apply segments_split.
  - rewrite segments_lead by done. by apply segments_split.
  - by apply segments_split.
Qed.

Lemma segments_joined p sep args :
  is_separator p sep = true → segments p (joined p sep args) = concat (segments p <$> omap id args).
Proof.
  intros Hsep. unfold joined. generalize (omap id args). intros cs.
  cut (∀ a, segments p (fold_left (join_two p sep) cs a) = segments p a ++ concat (segments p <$> cs)).
  { intros Hall. apply (Hall []). }
  induction cs as [|c cs IH]; intros a; simpl; [by rewrite app_nil_r|].
  by rewrite IH, segments_join_two, <- app_assoc.
Qed.

Section joining.
Context `{Allocator} (p : platform) (g : filepath_state_t).
Hypothesis Hsep : is_char (separator g).

Lemma holding_self b n s : buffer_wf b → b_count b <= n → holding s (contents b) n b s.
Proof. intros Hwf Hn. by split. Qed.

(** What is done to the contents, when they are not known. *)
Lemma holding_trans s0 s s' xs n n' b b' (f : list Z → list Z) :
  holding s0 xs n b s → holding s (f (contents b)) n' b' s' → holding s0 (f xs) n' b' s'.
Proof.
  intros [W C F E] [W' C' F' E']. split; [done|done|lia|]. intros E1. rewrite E' by lia. by rewrite E by lia.
Qed.

Lemma last_byte b :
  buffer_wf b → b_count b ≠ 0 → ∃ y, rd (b_data b) (b_count b - 1) = Ret y ∧ list.last (contents b) = Some y.
Proof.
  intros [Hblk Hcnt Hcap Hby Horg] Hne.
  destruct (lookup_lt_is_Some_2 (b_data b) (Z.to_nat (b_count b - 1))) as [y Hy]; [unfold zlen in *; lia|].
  exists y. split; [apply rd_lookup; [lia|done]|]. rewrite last_lookup. unfold contents, zlen in *.
  rewrite lookup_take, length_take, Nat.min_l by lia. rewrite decide_True by lia. by rewrite <- Hy; f_equal; lia.
Qed.

Lemma join_component_ok s0 xs n b c s :
  holding s0 xs n b s → Forall is_char c → n + zlen c < 2 ^ 60 →
  wp (join_component p g (Some b) (Some c)) (λ r s', ∃ b', r = Some b'
    ∧ holding s0 (join_two p (separator g) xs c) (n + 1 + zlen c) b' s' ∧ m_live s' = m_live s) s.
Proof.
  intros Hh Hc Hn. pose proof (zlen_nonneg c).
  assert (0 <= n) as Hn0 by (destruct Hh as [[_ ? _ _ _] ? _ _]; lia).
  eapply (wp_mono _ (λ r s', ∃ b' m, r = Some b' ∧ m <= n + 1 + zlen c
    ∧ holding s (join_two p (separator g) (contents b) c) m b' s' ∧ m_live s' = m_live s)).
  2:{ intros r s' (b' & m & -> & Hm & Hh' & Hl). exists b'. split; [done|]. split; [|done].
      destruct (holding_trans s0 s s' xs n m b b' (λ xs, join_two p (separator g) xs c) Hh Hh') as [W C F E].
      split; [done|lia|done|done]. }
  destruct Hh as [Hwf Hcnt _ _]. pose proof (holding_self b n s Hwf Hcnt) as Hb. clear Hcnt xs s0.
  pose proof (length_contents b Hwf) as Hlen.
  destruct c as [|c rest]; simpl; [wsteps; exists b, n; rewrite zlen_nil; split_and!; [done|lia|done|done]|].
  destruct (Z.eqb_spec (b_count b) 0) as [Hz|Hnz].
  - assert (contents b = []) as Hnil.
    { destruct (contents b); [done|]. rewrite zlen_cons in Hlen. pose proof (zlen_nonneg l). lia. }
    wsteps. eapply wp_mono; [apply (append_holding s (contents b) n); [done|done|lia]|].
    intros [rc r] s1 (b1 & -> & Hb1 & Hm). wsteps. exists b1, (n + zlen (c :: rest)). rewrite Hnil in *. simpl in *.
    split_and!; [done|lia|done|done].
  - wsteps. destruct (last_byte b Hwf Hnz) as (y & -> & Hy). wsteps. rewrite Hy.
    apply Forall_cons_1 in Hc as [Hc Hrest].
    destruct (is_separator p y) eqn:Ey, (is_separator p c) eqn:Ec; cbn [negb andb]; wsteps.
    + eapply wp_mono; [apply (append_holding s (contents b) n); [done|done|rewrite zlen_cons in *; lia]|].
      intros [rc r] s1 (b1 & -> & Hb1 & Hm). wsteps. exists b1, (n + zlen rest). rewrite zlen_cons in *.
      split_and!; [done|lia|done|done].
    + eapply wp_mono; [apply (append_holding s (contents b) n); [done|by constructor|lia]|].
      intros [rc r] s1 (b1 & -> & Hb1 & Hm). wsteps. exists b1, (n + zlen (c :: rest)).
      split_and!; [done|lia|done|done].
    + eapply wp_mono; [apply (append_holding s (contents b) n); [done|by constructor|lia]|].
      intros [rc r] s1 (b1 & -> & Hb1 & Hm). wsteps. exists b1, (n + zlen (c :: rest)).
      split_and!; [done|lia|done|done].
    + unfold buffer_append_char. rewrite (proj2 (Z.eqb_neq (separator g) 0)) by (unfold is_char in Hsep; lia).
      eapply wp_mono; [apply (append_holding s (contents b) n [separator g]); [done|by constructor|change (zlen [_]) with 1; lia]|].
      intros [rc r] s1 (b1 & -> & Hb1 & Hm). wsteps.
      eapply wp_mono; [apply (append_holding s _ _ (c :: rest) b1 s1 Hb1); [by constructor|change (zlen [separator g]) with 1; lia]|].
      intros [rc' r] s2 (b2 & -> & Hb2 & Hm2). wsteps. exists b2, (n + 1 + zlen (c :: rest)).
      rewrite <- app_assoc in Hb2. split_and!; [done|lia|done|lia].
Qed.

Lemma join_components_ok s0 args : ∀ xs n b s,
  holding s0 xs n b s → Forall (Forall is_char) (omap id args) →
  n + zlen (omap id args) + zlen (concat (omap id args)) < 2 ^ 60 →
  wp (join_components p g (Some b) args) (λ r s', ∃ b' n', r = Some b'
    ∧ holding s0 (fold_left (join_two p (separator g)) (omap id args) xs) n' b' s' ∧ m_live s' = m_live s) s.
Proof.
  induction args as [|c args IH]; intros xs n b s Hh Hch Hn; cbn [join_components].
  - wsteps. by exists b, n.
  - wsteps. destruct c as [c|].
    + change (omap id (Some c :: args)) with (c :: omap id args) in *. simpl in Hn.
      apply Forall_cons_1 in Hch as [Hc Hch]. rewrite zlen_cons, zlen_app in Hn.
      pose proof (zlen_nonneg (omap id args)). pose proof (zlen_nonneg (concat (omap id args))).
      eapply wp_mono; [by apply (join_component_ok s0 xs n b c s Hh Hc); lia|].
      intros r s1 (b1 & -> & Hb1 & Hm1).
      eapply wp_mono; [apply (IH _ _ b1 s1 Hb1); [done|lia]|]. intros r s2 (b2 & n2 & -> & Hb2 & Hm2).
      exists b2, n2. split_and!; [done|done|lia].
    + by apply (IH xs n).
Qed.
End joining.

(** * The last component *)

(** [base] is what follows the last separator, [pre] what comes before, the
    separator included. *)
Definition last_component (p : platform) (path pre base : list Z) : Prop :=
  path = pre ++ base ∧ Forall (λ x, is_separator p x = false) base
  ∧ (pre = [] ∨ ∃ d x, pre = d ++ [x] ∧ is_separator p x = true).

(** The directory of a path: what comes before the last separator. *)
Definition directory (sep : Z) (pre : list Z) : list Z :=
  match pre with
  | [] => dot
  | [_] => [sep]
  | _ => take (pred (length pre)) pre
  end.

(** [ext] is the end of a name from its last dot on, which is not its first
    character. *)
Definition extension_of (base ext : list Z) : Prop :=
  ∃ stem tail, base = stem ++ ext ∧ ext = 0x2E :: tail ∧ stem ≠ [] ∧ Forall (λ c, c ≠ 0x2E) tail.

Lemma find_last_spec f str : ∀ i acc,
  match find_last f str i acc with
  | Some j => (acc = Some j ∧ Forall (λ x, f x = false) str)
      ∨ ∃ a x b, str = a ++ x :: b ∧ j = i + zlen a ∧ f x = true ∧ Forall (λ x, f x = false) b
  | None => acc = None ∧ Forall (λ x, f x = false) str
  end.
Proof.
  induction str as [|c str IH]; intros i acc; simpl; [destruct acc; auto|].
  specialize (IH (i + 1) (if f c then Some i else acc)). destruct (find_last f str (i + 1) _) as [j|].
  - destruct IH as [[E Hf]|(a & x & b & -> & -> & Hx & Hb)].
    + destruct (f c) eqn:Ec; [|left; by split; [|constructor]]. injection E as <-. right.
      exists [], c, str. change (zlen []) with 0. split_and!; [done|lia|done|done].
    + right. exists (c :: a), x, b. rewrite zlen_cons. split_and!; [done|lia|done|done].
  - destruct IH as [E Hf]. destruct (f c) eqn:Ec; [done|]. by split; [|constructor].
Qed.

Lemma find_last_none f str :
  find_last f str 0 None = None → Forall (λ x, f x = false) str.
Proof. intros E. pose proof (find_last_spec f str 0 None) as H. rewrite E in H. apply H. Qed.

Lemma find_last_some f str j :
  find_last f str 0 None = Some j →
  ∃ a x b, str = a ++ x :: b ∧ j = zlen a ∧ f x = true ∧ Forall (λ x, f x = false) b.
Proof.
  intros E. pose proof (find_last_spec f str 0 None) as H. rewrite E in H. by destruct H as [[? _]|H].
Qed.

(** The last separator splits a path in one way. *)
Lemma last_split f (a a' : list Z) x x' b b' :
  a ++ x :: b = a' ++ x' :: b' → f x = true → f x' = true →
  Forall (λ x, f x = false) b → Forall (λ x, f x = false) b' → a = a' ∧ x = x' ∧ b = b'.
Proof.
  revert a'. induction a as [|y a IH]; intros [|y' a'] E Hx Hx' Hb Hb'; injection E as Ey E; subst.
  - done.
  - exfalso. apply Forall_app in Hb as [_ Hb]. apply Forall_cons_1 in Hb as [? _]. congruence.
  - exfalso. apply Forall_app in Hb' as [_ Hb']. apply Forall_cons_1 in Hb' as [? _]. congruence.
  - destruct (IH a' E Hx Hx' Hb Hb') as (-> & -> & ->). done.
Qed.

(** A new buffer holding [xs], or none for want of memory. *)
Definition made (s : mem) (xs : list Z) (r : option ak_buffer_t) (s' : mem) : Prop :=
  match r with
  | None => balance 0 true s s'
  | Some b => buffer_wf b ∧ contents b = xs ∧ balance 2 false s s'
  end.

Section parts.
Context `{Allocator} (p : platform).
Abbreviation g := (ready p).

Lemma find_last_component path pre base :
  last_component p path pre base →
  match find_last (is_separator p) path 0 None with
  | None => pre = [] ∧ base = path
  | Some j => ∃ d x, pre = d ++ [x] ∧ path = d ++ x :: base ∧ j = zlen d
  end.
Proof.
  intros (-> & Hb & Hpre). destruct (find_last (is_separator p) (pre ++ base) 0 None) as [j|] eqn:E.
  - apply find_last_some in E as (d & x & b & Ep & -> & Hx & Hnb).
    destruct Hpre as [->|(d' & x' & -> & Hx')].
    { exfalso. simpl in Ep. subst base. apply Forall_app in Hb as [_ Hb]. apply Forall_cons_1 in Hb as [? _]. congruence. }
    rewrite <- app_assoc in Ep. apply (last_split (is_separator p)) in Ep as (-> & -> & ->); [|done..].
    exists d, x. by rewrite <- app_assoc.
  - apply find_last_none in E. destruct Hpre as [->|(d & x & -> & Hx)]; [done|].
    exfalso. apply Forall_app in E as [E _]. apply Forall_app in E as [_ E]. apply Forall_cons_1 in E as [? _]. congruence.
Qed.

Lemma basename_ok path pre base s :
  path ≠ [] → Forall is_char path → zlen path < 2 ^ 60 → last_component p path pre base →
  wp (ak_filepath_basename p g (Some path)) (made s base) s.
Proof.
  intros Hne Hch Hl Hlast. pose proof (find_last_component path pre base Hlast) as Hf.
  destruct (ready_separator p) as (Hi & _ & _). unfold ak_filepath_basename. rewrite Hi.
  destruct path as [|c rest]; [done|]. simpl negb. cbv iota.
  destruct (find_last (is_separator p) (c :: rest) 0 None) as [j|].
  - destruct Hf as (d & x & -> & E & ->). rewrite E in *. apply Forall_app in Hch as [_ [_ Hb]%Forall_cons_1].
    rewrite cons_middle, app_assoc. pose proof (zlen_nonneg d).
    rewrite zlen_app, zlen_cons in Hl. replace (Z.to_nat (zlen d + 1)) with (length (d ++ [x])).
    + rewrite drop_app_length. apply from_str_ok; [done|lia].
    + rewrite length_app. unfold zlen. simpl. lia.
  - destruct Hf as [_ ->]. apply from_str_ok; [done|lia].
Qed.

Lemma dirname_ok path pre base s :
  path ≠ [] → Forall is_char path → zlen path < 2 ^ 60 → last_component p path pre base →
  wp (ak_filepath_dirname p g (Some path)) (made s (directory (separator g) pre)) s.
Proof.
  intros Hne Hch Hl Hlast. pose proof (find_last_component path pre base Hlast) as Hf.
  destruct (ready_separator p) as (Hi & Hsep & _). unfold ak_filepath_dirname. rewrite Hi.
  destruct path as [|c rest]; [done|]. cbn [negb]. cbv iota.
  destruct (find_last (is_separator p) (c :: rest) 0 None) as [j|].
  2:{ destruct Hf as [-> _]. apply from_str_ok; [by repeat constructor|done]. }
  destruct Hf as (d & x & -> & E & ->). pose proof (zlen_nonneg d). pose proof (zlen_nonneg base).
  destruct (Z.eqb_spec (zlen d) 0) as [Hz|Hnz].
  - assert (d = []) as -> by (destruct d; [done|rewrite zlen_cons in Hz; pose proof (zlen_nonneg d); lia]).
    rewrite (proj2 (Z.eqb_neq (separator g) 0)) by (unfold is_char in Hsep; lia).
    apply from_str_ok; [by constructor|done].
  - assert (directory (separator g) (d ++ [x]) = d) as ->.
    { unfold directory. destruct d as [|y d]; [done|]. simpl. destruct (d ++ [x]) eqn:Ed; [by destruct d|].
      rewrite <- Ed, length_app. simpl. rewrite Nat.add_1_r. simpl. by rewrite take_app_length. }
    rewrite E in *. rewrite zlen_app, zlen_cons in Hl. wsteps. rewrite u64_small by lia.
    apply wp_buffer_new; [lia|by intros s' Hb; wsteps|]. intros dd s1 Hb1 Hd Hdb. wsteps.
    eapply wp_mono; [apply (copy_to_ok _ (d ++ x :: base) (zlen d))|].
    + split; simpl; [lia|lia|lia|done|unfold is_size; lia].
    + by apply chars_bytes.
    + rewrite zlen_app, zlen_cons. lia.
    + simpl. lia.
    + intros [rc ob] s2 (b & -> & Hwf & Hcase). wsteps. unfold zlen in Hcase. rewrite Nat2Z.id, take_app_length in Hcase.
      destruct Hcase as [(-> & HB & Hc & _)|(_ & _ & _ & Hfull)]; [|simpl in Hfull; lia].
      split_and!; [done|done|balance].
Qed.

Lemma extension_ok path pre base s :
  path ≠ [] → Forall is_char path → zlen path < 2 ^ 60 → last_component p path pre base →
  wp (ak_filepath_extension p g (Some path)) (λ r s', match r with
    | None => balance 0 true s s' ∨ balance 0 false s s' ∧ ∀ e, ¬ extension_of base e
    | Some b => buffer_wf b ∧ balance 2 false s s' ∧ extension_of base (contents b)
    end) s.
Proof.
  intros Hne Hch Hl Hlast. pose proof (basename_ok path pre base s Hne Hch Hl Hlast) as Hbase.
  assert (Forall is_char base ∧ zlen base <= zlen path) as [Hbc Hbl].
  { destruct Hlast as (-> & _). apply Forall_app in Hch as [_ Hch]. rewrite zlen_app. pose proof (zlen_nonneg pre). split; [done|lia]. }
  destruct (ready_separator p) as (Hi & _ & _). unfold ak_filepath_extension. rewrite Hi.
  destruct path as [|c rest]; [done|]. cbn [negb]. cbv iota. wsteps.
  eapply wp_mono; [exact Hbase|]. clear Hbase. intros [b|] s1; wsteps.
  2:{ intros Hb. by left. }
  intros (Hwf & Hct & Hb1). wsteps. rewrite <- Hct in *. pose proof (length_contents b Hwf).
  eapply wp_mono; [apply (to_cstr_ok b); [done|done|lia]|]. intros [r ob] s2 (b2 & -> & Hwf2 & Hct2 & Hcase). wsteps.
  destruct Hcase as [[-> Hb2]|[-> Hb2]]; wsteps.
  2:{ apply wp_buffer_free. intros s3 Hb3. wsteps. left. balance. }
  destruct (find_last (λ c, c =? 0x2E) (contents b) 0 None) as [j|] eqn:E.
  2:{ wsteps. apply wp_buffer_free. intros s3 Hb3. wsteps. right. split; [balance|]. apply find_last_none in E.
      intros e (stem & tail & Ec & -> & _). rewrite Ec in E. apply Forall_app in E as [_ E].
      by apply Forall_cons_1 in E as [E _]. }
  apply find_last_some in E as (d & x & t & Ec & -> & ->%Z.eqb_eq & Ht). pose proof (zlen_nonneg d).
  rewrite Ec in *. destruct (Z.eqb_spec (zlen d) 0) as [Hz|Hnz].
  - wsteps. apply wp_buffer_free. intros s3 Hb3. wsteps. right. split; [balance|].
    assert (d = []) as -> by (destruct d; [done|rewrite zlen_cons in Hz; pose proof (zlen_nonneg d); lia]).
    intros e (stem & tail & Ee & -> & Hstem & _). destruct stem as [|y stem]; [done|].
    injection Ee as <- Ee. rewrite Ee in Ht. apply Forall_app in Ht as [_ Ht]. by apply Forall_cons_1 in Ht as [Ht _].
  - wsteps. unfold zlen at 1. rewrite Nat2Z.id, drop_app_length. rewrite zlen_app in *.
    eapply wp_mono; [apply (from_str_ok (0x2E :: t)); [by apply Forall_app in Hbc as [_ Hbc]|lia]|].
    intros r s3 Hr. wsteps. apply wp_buffer_free. intros s4 Hb4. wsteps. destruct r as [b'|]; [|left; balance].
    destruct Hr as (Hwf' & Hct' & Hb3). split_and!; [done|balance|]. rewrite Hct'. exists d, t.
    split_and!; [done|done|by intros ->|]. revert Ht. apply Forall_impl. intros c' Hc'. by apply Z.eqb_neq.
Qed.
End parts.

(** * The operations on paths *)

(** C39: [ak_filepath_normalize] of a path of less than 2^30 bytes.  Each component is first
    cut at [PATH_MAX] - 1 bytes, 4095 or on Windows 259; those that are [.] are left
    out, and a [..] takes away the one before it, or nothing when there is none,
    in a relative path too.  With no failed allocation the buffer holds exactly the
    components left, after the root when the path is absolute and [.] when none is
    left, and for each component taken away a block of the list is lost.  The
    components left are neither empty, [.] nor [..], and, off Windows, normalizing
    again changes nothing.  On Windows a drive letter is a component like others:
    a separator is put in front of it and it stays ([windows_users]), where the
    Windows branch of [runtime_tests.c] expects it to be gone. *)
Theorem ak_filepath_normalize_spec `{Allocator} p path s :
  Forall is_char path → zlen path < 2 ^ 30 →
  let sep := separator (ready p) in
  wp (ak_filepath_normalize p (ready p) (Some path)) (λ r s', match r with
    | None => (m_fails s < m_fails s')%nat ∧ m_live s <= m_live s'
    | Some b => buffer_wf b ∧ (m_fails s <= m_fails s')%nat ∧ m_live s + 2 <= m_live s'
        ∧ (m_fails s' = m_fails s →
           contents b = normal p sep path ∧ m_live s' = m_live s + 2 + (resolve p path).2)
    end) s
  ∧ Forall (proper p) (resolve p path).1
  ∧ resolve p (normal p sep path) = ((resolve p path).1, 0)
  ∧ (p ≠ Windows → normal p sep (normal p sep path) = normal p sep path).
Proof.
  intros Hch Hl sep. destruct (ready_separator p) as (Hi & Hsep & His). split_and!.
  - by apply normalize_ok.
  - by apply resolve_proper.
  - by apply resolve_normal.
  - intros Hw. by apply normal_idempotent.
Qed.

(** [ak_filepath_join] puts one separator between its arguments where neither
    side has one and keeps one where both have: the components of the result are the
    components of the arguments, in order. *)
Theorem ak_filepath_join_spec `{Allocator} p args s :
  Forall (Forall is_char) (omap id args) →
  zlen (omap id args) + zlen (concat (omap id args)) < 2 ^ 59 →
  let sep := separator (ready p) in
  wp (ak_filepath_join p (ready p) args) (λ r s', match r with
    | None => balance 0 true s s'
    | Some b => buffer_wf b ∧ m_live s' = m_live s + 2 ∧ (m_fails s <= m_fails s')%nat
        ∧ (m_fails s' = m_fails s → contents b = joined p sep args)
    end) s
  ∧ segments p (joined p sep args) = concat (segments p <$> omap id args).
Proof.
  intros Hch Hl sep. destruct (ready_separator p) as (Hi & Hsep & His). split; [|by apply segments_joined].
  unfold ak_filepath_join. rewrite Hi. cbn [negb]. cbv iota. wsteps.
  apply wp_buffer_new; [lia|by intros s' Hb; wsteps|]. intros d s1 [HL1 HF1] Hd Hdb. wsteps.
  set (b0 := mk_buffer d (Z.max 16 256) 0 0).
  assert (holding s1 [] 0 b0 s1) as Hb0.
  { split; [split; simpl; [lia|lia|lia|done|unfold is_size; lia]|simpl; lia|done|done]. }
  eapply wp_mono; [apply (join_components_ok p (ready p) Hsep s1 args [] 0 b0 s1 Hb0 Hch); lia|].
  intros r s2 (b & n & -> & [W C F E] & Hm). split_and!; [done|lia|lia|]. intros E2. apply E. lia.
Qed.

(** [ak_filepath_basename], [ak_filepath_dirname] and [ak_filepath_extension] take
    a path apart at its last separator, and the name at its last dot; each gives a new
    buffer or none for want of memory, and a name without an extension has none. *)
Theorem ak_filepath_parts_spec `{Allocator} p path pre base s :
  path ≠ [] → Forall is_char path → zlen path < 2 ^ 60 → last_component p path pre base →
  wp (ak_filepath_basename p (ready p) (Some path)) (λ r s', match r with
    | None => balance 0 true s s'
    | Some b => buffer_wf b ∧ contents b = base ∧ balance 2 false s s'
    end) s
  ∧ wp (ak_filepath_dirname p (ready p) (Some path)) (λ r s', match r with
    | None => balance 0 true s s'
    | Some b => buffer_wf b ∧ contents b = directory (separator (ready p)) pre ∧ balance 2 false s s'
    end) s
  ∧ wp (ak_filepath_extension p (ready p) (Some path)) (λ r s', match r with
    | None => balance 0 true s s' ∨ balance 0 false s s' ∧ ∀ e, ¬ extension_of base e
    | Some b => buffer_wf b ∧ balance 2 false s s' ∧ extension_of base (contents b)
    end) s.
Proof.
  intros Hne Hch Hl Hlast.
  split_and!; [by apply (basename_ok p path pre)|by apply (dirname_ok p path pre base)|by apply (extension_ok p path pre)].
Qed.

(** * Witnesses *)

Section witnesses.
#[local] Existing Instance always_alloc.

(** [/a/./b/../c//d.txt] *)
Definition w_path : list Z := bytes_of "/a/./b/../c//d.txt"%str.

Example normal_path : normal Linux 0x2F w_path = bytes_of "/a/c/d.txt"%str.
Proof. reflexivity. Qed.

(** A drive letter gets a separator in front. *)
Example windows_drive : normal Windows 0x5C (bytes_of "C:\x"%str) = bytes_of "\C:\x"%str.
Proof. reflexivity. Qed.

(** The path of the Windows test, which expects [\home\file.txt]. *)
Example windows_users :
  normal Windows 0x5C (bytes_of "C:\Users\..\home\.\file.txt"%str) = bytes_of "\C:\home\file.txt"%str.
Proof. reflexivity. Qed.

(** A [..] with nothing to take away is dropped from a relative path too. *)
Example leading_dotdot : normal Linux 0x2F (bytes_of "../a"%str) = bytes_of "a"%str.
Proof. reflexivity. Qed.

Lemma bytes_chars str : forallb (λ c, (0 <? c) && (c <? 256)) (bytes_of str) = true → Forall is_char (bytes_of str).
Proof.
  intros E. apply Is_true_true, forallb_True in E. revert E. apply Forall_impl. intros x Hx.
  apply Is_true_true, andb_prop in Hx as [H1%Z.ltb_lt H2%Z.ltb_lt]. unfold is_char. lia.
Qed.

Lemma ak_filepath_normalize_spec_witness :
  wp (ak_filepath_normalize Linux (ready Linux) (Some w_path)) (λ r s',
    m_fails s' = 0%nat → m_live s' = 3 ∧ ∃ b, r = Some b ∧ contents b = bytes_of "/a/c/d.txt"%str) mem0.
Proof.
  destruct (ak_filepath_normalize_spec Linux w_path mem0) as [Hn _]; [by apply bytes_chars|done|].
  eapply wp_mono; [exact Hn|]. intros [b|] s'; [|simpl; lia].
  intros (_ & _ & _ & Hc) E. destruct (Hc E) as [Hcb ->].
  split; [vm_compute; reflexivity|]. exists b. split; [reflexivity|]. rewrite Hcb. vm_compute. reflexivity.
Defined.

Lemma ak_filepath_join_spec_witness :
  wp (ak_filepath_join Linux (ready Linux) [Some (bytes_of "a/"%str); None; Some (bytes_of "/b"%str); Some (bytes_of "c"%str)])
    (λ r s', m_fails s' = 0%nat → ∃ b, r = Some b ∧ contents b = bytes_of "a/b/c"%str) mem0.
Proof.
  destruct (ak_filepath_join_spec Linux
    [Some (bytes_of "a/"%str); None; Some (bytes_of "/b"%str); Some (bytes_of "c"%str)] mem0) as [Hj _];
    [by repeat (constructor; [by apply bytes_chars|])|done|].
  eapply wp_mono; [exact Hj|]. intros [b|] s'; [|intros [_ Hf]; simpl in *; lia].
  intros (_ & _ & _ & Hc) E. exists b. split; [reflexivity|].
  rewrite (Hc E). vm_compute. reflexivity.
Defined.

Lemma ak_filepath_parts_spec_witness :
  wp (ak_filepath_dirname Linux (ready Linux) (Some (bytes_of "/a/b.c"%str))) (λ r _,
    ∀ b, r = Some b → contents b = bytes_of "/a"%str) mem0.
Proof.
  destruct (ak_filepath_parts_spec Linux (bytes_of "/a/b.c"%str) (bytes_of "/a/"%str) (bytes_of "b.c"%str) mem0) as (_ & Hd & _);
    [done|by apply bytes_chars|done| |].
  { split; [done|]. split; [by repeat constructor|]. right. by exists (bytes_of "/a"%str), 0x2F. }
  eapply wp_mono; [exact Hd|]. intros r s' Hr b ->. apply Hr.
Defined.
End witnesses.
