(* ===== verification/Sockets.v ===== *)
(** The platform interface of the TCP module: [kernel/tcp/include/tcp_internal.h].

    The functions that reach the operating system or the TLS library are the
    methods of the class [Sockets], over a type of states of the network; what the
    rest of the module relies on is the class [SocketLaws].  Two streams of bytes
    belong to a channel, a socket or a TLS connection over one: those its peer will
    still send and those that were sent to it. *)

From Stdlib Require String.
From stdpp Require Import gmap.
From S2P Require Import Prelude.
Import Stdlib.Strings.String.StringSyntax.
#[local] Delimit Scope string_scope with str.

(** [const char **error]: null, or a place for a message. *)
Definition error_ptr : Type := option (option String.string).

Definition set_error (error : error_ptr) (message : String.string) : error_ptr :=
  match error with
  | None => None
  | Some _ => Some (Some message)
  end.

Definition AK_INVALID_SOCKET : Z := -1.

(** How a connection is reached. *)
Inductive channel : Type :=
| Socket (fd : Z)
| Tls (ssl : positive).

Class Sockets := {
  net : Type;
  ak_tcp_socket_create_for_addr : option (list Z) → error_ptr → net → Z * error_ptr * net;
  ak_tcp_socket_bind : Z → option (list Z) → Z → error_ptr → net → Z * error_ptr * net;
  ak_tcp_socket_listen : Z → Z → error_ptr → net → Z * error_ptr * net;
  (** The socket, the address and the port of the peer. *)
  ak_tcp_socket_accept : Z → error_ptr → net → Z * list Z * Z * error_ptr * net;
  ak_tcp_socket_poll_read : Z → Z → net → Z * net;
  ak_tcp_socket_send : Z → list Z → error_ptr → net → Z * error_ptr * net;
  (** The answer and the bytes put into the buffer. *)
  ak_tcp_socket_recv : Z → Z → error_ptr → net → Z * list Z * error_ptr * net;
  ak_tcp_socket_close : Z → net → net;
  ak_tcp_socket_shutdown : Z → net → net;
  ak_tcp_socket_peer_closed : Z → net → bool * net;
  ak_tcp_socket_set_timeout : Z → Z → Z → error_ptr → net → Z * error_ptr * net;
  ak_tcp_socket_set_keepalive : Z → Z → Z → Z → error_ptr → net → Z * error_ptr * net;
  ak_tcp_socket_set_linger : Z → bool → Z → error_ptr → net → Z * error_ptr * net;
  ak_tcp_socket_set_buffers : Z → Z → Z → error_ptr → net → Z * error_ptr * net;
  ak_tcp_tls_ctx_new : list Z → list Z → option (list Z) → bool → option (list Z) → Z → error_ptr → net →
    option positive * error_ptr * net;
  ak_tcp_tls_ctx_free : positive → net → net;
  ak_tcp_tls_accept : positive → Z → error_ptr → net → option positive * error_ptr * net;
  ak_tcp_tls_send : positive → list Z → error_ptr → net → Z * error_ptr * net;
  ak_tcp_tls_recv : positive → Z → error_ptr → net → Z * list Z * error_ptr * net;
  ak_tcp_tls_shutdown : positive → net → net;
  ak_tcp_tls_free : positive → net → net;
}.

Section channels.
Context `{Sockets}.

Definition channel_send (ch : channel) : list Z → error_ptr → net → Z * error_ptr * net :=
  match ch with
  | Socket fd => ak_tcp_socket_send fd
  | Tls ssl => ak_tcp_tls_send ssl
  end.

Definition channel_recv (ch : channel) : Z → error_ptr → net → Z * list Z * error_ptr * net :=
  match ch with
  | Socket fd => ak_tcp_socket_recv fd
  | Tls ssl => ak_tcp_tls_recv ssl
  end.
End channels.

(** What the module relies on.  A send takes a beginning of the data, a receive
    hands over the next bytes of the peer, and none when there are no more; closing
    a socket closes that socket, and nothing else opens or closes one but accepting
    a connection, which opens one that was not open. *)
Class SocketLaws `{Sockets} := {
  arriving : net → channel → list Z;
  delivered : net → channel → list Z;
  open_sockets : net → gset Z;
  invalid_law n : AK_INVALID_SOCKET ∉ open_sockets n;
  send_law ch data e n r e' n' : channel_send ch data e n = (r, e', n') →
    -1 <= r <= zlen data
    ∧ delivered n' ch = delivered n ch ++ take (Z.to_nat r) data
    ∧ arriving n' ch = arriving n ch ∧ open_sockets n' = open_sockets n;
  recv_law ch len e n r bytes e' n' : channel_recv ch len e n = (r, bytes, e', n') → 0 <= len < 2 ^ 31 →
    -1 <= r <= len ∧ zlen bytes = Z.max 0 r ∧ Forall is_byte bytes
    ∧ arriving n ch = bytes ++ arriving n' ch
    ∧ (r = 0 → 0 < len → arriving n ch = [])
    ∧ delivered n' ch = delivered n ch;
  recv_open_law ch len e n r bytes e' n' : channel_recv ch len e n = (r, bytes, e', n') →
    open_sockets n' = open_sockets n;
  peer_closed_law fd n b n' : ak_tcp_socket_peer_closed fd n = (b, n') →
    (∀ c, arriving n' c = arriving n c) ∧ (∀ c, delivered n' c = delivered n c)
    ∧ open_sockets n' = open_sockets n;
  accept_law fd e n r ip port e' n' : ak_tcp_socket_accept fd e n = (r, ip, port, e', n') →
    (r = AK_INVALID_SOCKET ∧ open_sockets n' = open_sockets n)
    ∨ (0 <= r ∧ (r ∉ open_sockets n) ∧ open_sockets n' = {[ r ]} ∪ open_sockets n ∧ zlen ip < 46 ∧ Forall is_char ip);
  close_law fd n : open_sockets (ak_tcp_socket_close fd n) = (open_sockets n ∖ {[ fd ]});
  shutdown_law fd n : open_sockets (ak_tcp_socket_shutdown fd n) = open_sockets n;
  poll_law fd t n r n' : ak_tcp_socket_poll_read fd t n = (r, n') → open_sockets n' = open_sockets n;
  set_timeout_law fd a b e n r e' n' : ak_tcp_socket_set_timeout fd a b e n = (r, e', n') →
    open_sockets n' = open_sockets n;
  set_keepalive_law fd a b c e n r e' n' : ak_tcp_socket_set_keepalive fd a b c e n = (r, e', n') →
    open_sockets n' = open_sockets n;
  set_linger_law fd a b e n r e' n' : ak_tcp_socket_set_linger fd a b e n = (r, e', n') →
    open_sockets n' = open_sockets n;
  set_buffers_law fd a b e n r e' n' : ak_tcp_socket_set_buffers fd a b e n = (r, e', n') →
    open_sockets n' = open_sockets n;
  create_law addr e n r e' n' : ak_tcp_socket_create_for_addr addr e n = (r, e', n') →
    (r = AK_INVALID_SOCKET ∧ open_sockets n' = open_sockets n)
    ∨ (0 <= r ∧ (r ∉ open_sockets n) ∧ open_sockets n' = {[ r ]} ∪ open_sockets n);
  bind_law fd addr port e n r e' n' : ak_tcp_socket_bind fd addr port e n = (r, e', n') →
    open_sockets n' = open_sockets n;
  listen_law fd backlog e n r e' n' : ak_tcp_socket_listen fd backlog e n = (r, e', n') →
    open_sockets n' = open_sockets n;
  tls_ctx_new_law cert key ca verify ciphers v e n r e' n' :
    ak_tcp_tls_ctx_new cert key ca verify ciphers v e n = (r, e', n') → open_sockets n' = open_sockets n;
  tls_ctx_free_law c n : open_sockets (ak_tcp_tls_ctx_free c n) = open_sockets n;
  tls_accept_law c fd e n r e' n' : ak_tcp_tls_accept c fd e n = (r, e', n') →
    open_sockets n' = open_sockets n;
  tls_shutdown_law ssl n : open_sockets (ak_tcp_tls_shutdown ssl n) = open_sockets n;
  tls_free_law ssl n : open_sockets (ak_tcp_tls_free ssl n) = open_sockets n;
}.

(** * Clients *)

(** The functions that only clients use. *)
Class ClientSockets `{Sockets} := {
  ak_tcp_socket_set_reuseaddr : Z → bool → error_ptr → net → Z * error_ptr * net;
  ak_tcp_socket_set_nodelay : Z → bool → error_ptr → net → Z * error_ptr * net;
  ak_tcp_socket_connect : Z → option (list Z) → Z → Z → error_ptr → net → Z * error_ptr * net;
  ak_tcp_tls_client_ctx_new : option (list Z) → option (list Z) → option (list Z) → bool → option (list Z) → Z →
    error_ptr → net → option positive * error_ptr * net;
  ak_tcp_tls_connect : option positive → Z → option (list Z) → error_ptr → net → option positive * error_ptr * net;
}.

(** None of them opens or closes a socket. *)
Class ClientSocketLaws `{SocketLaws, !ClientSockets} := {
  set_reuseaddr_law fd b e n r e' n' : ak_tcp_socket_set_reuseaddr fd b e n = (r, e', n') →
    open_sockets n' = open_sockets n;
  set_nodelay_law fd b e n r e' n' : ak_tcp_socket_set_nodelay fd b e n = (r, e', n') →
    open_sockets n' = open_sockets n;
  connect_law fd host port t e n r e' n' : ak_tcp_socket_connect fd host port t e n = (r, e', n') →
    open_sockets n' = open_sockets n;
  tls_client_ctx_law ca cert key verify ciphers v e n r e' n' :
    ak_tcp_tls_client_ctx_new ca cert key verify ciphers v e n = (r, e', n') → open_sockets n' = open_sockets n;
  tls_connect_law c fd name e n r e' n' : ak_tcp_tls_connect c fd name e n = (r, e', n') →
    open_sockets n' = open_sockets n;
}.

(** * A network *)

(** A small network, to evaluate on: one stream each way, bytes coming three at a
    time and taken two at a time. *)
Record toy := mk_toy {
  incoming : list Z;
  outgoing : list Z;
  descriptors : list Z;
  peers : list (list Z);
}.

Definition toy_send (data : list Z) (e : error_ptr) (n : toy) : Z * error_ptr * toy :=
  let r := Z.min 2 (zlen data) in
  (r, e, mk_toy (incoming n) (outgoing n ++ take (Z.to_nat r) data) (descriptors n) (peers n)).

Definition toy_recv (len : Z) (e : error_ptr) (n : toy) : Z * list Z * error_ptr * toy :=
  let r := Z.min (Z.min 3 len) (zlen (incoming n)) in
  (r, (λ x, x mod 256) <$> take (Z.to_nat r) (incoming n), e,
   mk_toy (drop (Z.to_nat r) (incoming n)) (outgoing n) (descriptors n) (peers n)).

(** A number that is not in a list. *)
Definition above (l : list Z) : Z := 1 + foldr Z.max 0 l.

Lemma above_spec l : 0 < above l ∧ above l ∉ l.
Proof.
  assert (∀ l x, x ∈ l → x <= foldr Z.max 0 l) as Hmax.
  { clear l. intros l x. induction 1 as [|x y l _ IH]; simpl; lia. }
  assert (∀ l, 0 <= foldr Z.max 0 l) as Hpos by (clear l; intros l; induction l; simpl; lia).
  unfold above. split; [pose proof (Hpos l); lia|]. intros Hin%Hmax. lia.
Qed.

Definition toy_fresh (n : toy) : Z := above (descriptors n).

#[local] Instance toy_sockets : Sockets := {|
  net := toy;
  ak_tcp_socket_create_for_addr := λ _ e n,
    (toy_fresh n, e, mk_toy (incoming n) (outgoing n) (toy_fresh n :: descriptors n) (peers n));
  ak_tcp_socket_bind := λ _ _ _ e n, (0, e, n);
  ak_tcp_socket_listen := λ _ _ e n, (0, e, n);
  ak_tcp_socket_accept := λ _ e n,
    match peers n with
    | [] => (AK_INVALID_SOCKET, [], 0, e, n)
    | ip :: ips =>
        (toy_fresh n, take 45 (filter (λ x, 0 < x < 256) ip), 80, e, mk_toy (incoming n) (outgoing n) (toy_fresh n :: descriptors n) ips)
    end;
  ak_tcp_socket_poll_read := λ _ _ n, (match peers n with [] => 0 | _ => 1 end, n);
  ak_tcp_socket_send := λ _, toy_send;
  ak_tcp_socket_recv := λ _, toy_recv;
  ak_tcp_socket_close := λ fd n,
    mk_toy (incoming n) (outgoing n) (filter (λ x, x ≠ fd) (descriptors n)) (peers n);
  ak_tcp_socket_shutdown := λ _ n, n;
  ak_tcp_socket_peer_closed := λ _ n, (false, n);
  ak_tcp_socket_set_timeout := λ _ _ _ e n, (0, e, n);
  ak_tcp_socket_set_keepalive := λ _ _ _ _ e n, (0, e, n);
  ak_tcp_socket_set_linger := λ _ _ _ e n, (0, e, n);
  ak_tcp_socket_set_buffers := λ _ _ _ e n, (0, e, n);
  ak_tcp_tls_ctx_new := λ _ _ _ _ _ _ e n, (None, e, n);
  ak_tcp_tls_ctx_free := λ _ n, n;
  ak_tcp_tls_accept := λ _ _ e n, (None, e, n);
  ak_tcp_tls_send := λ _, toy_send;
  ak_tcp_tls_recv := λ _, toy_recv;
  ak_tcp_tls_shutdown := λ _ n, n;
  ak_tcp_tls_free := λ _ n, n;
|}.

Definition toy_open (n : toy) : gset Z := list_to_set (filter (λ x, 0 < x) (descriptors n)).

Lemma toy_fresh_spec n : 0 < toy_fresh n ∧ toy_fresh n ∉ descriptors n.
Proof. apply above_spec. Qed.

Lemma toy_send_law data e (n : toy) r e' n' :
  toy_send data e n = (r, e', n') →
  -1 <= r <= zlen data ∧ outgoing n' = outgoing n ++ take (Z.to_nat r) data
  ∧ incoming n' = incoming n ∧ descriptors n' = descriptors n.
Proof. pose proof (zlen_nonneg data). intros [= <- <- <-]. simpl. split_and!; [lia|lia|done..]. Qed.

Lemma toy_recv_law len e (n : toy) r bytes e' n' :
  toy_recv len e n = (r, bytes, e', n') → 0 <= len →
  0 <= r <= len ∧ zlen bytes = r ∧ Forall is_byte bytes
  ∧ (λ x, x mod 256) <$> incoming n = bytes ++ ((λ x, x mod 256) <$> incoming n')
  ∧ (r = 0 → 0 < len → incoming n = [])
  ∧ outgoing n' = outgoing n ∧ descriptors n' = descriptors n.
Proof.
  intros [= <- <- <- <-] Hlen. pose proof (zlen_nonneg (incoming n)). simpl. split_and!; [lia|lia| | | | |done|done].
  - unfold zlen in *. rewrite length_fmap, length_take. lia.
  - apply Forall_fmap, Forall_true. intros x. unfold is_byte. simpl. pose proof (Z.mod_pos_bound x 256). lia.
  - by rewrite <- fmap_app, take_drop.
  - intros Hr Hp. destruct (incoming n); [done|]. rewrite zlen_cons in *. pose proof (zlen_nonneg l). lia.
Qed.

#[local] Instance toy_laws : @SocketLaws toy_sockets.
Proof.
  unshelve refine (@Build_SocketLaws toy_sockets (λ (n : toy) _, (λ x, x mod 256) <$> incoming n)
    (λ (n : toy) _, outgoing n) toy_open _ _ _ _ _ _ _ _ _ _ _ _ _ _ _ _ _ _ _ _ _).
  - intros n. unfold toy_open. rewrite elem_of_list_to_set, list_elem_of_filter. unfold AK_INVALID_SOCKET. lia.
  - intros ch data e n r e' n' E.
    assert (toy_send data e n = (r, e', n')) as (H1 & H2 & H3 & H4)%toy_send_law by by destruct ch.
    split_and!; [lia|lia|done|by rewrite H3|]. unfold toy_open. by rewrite H4.
  - intros ch len e n r bytes e' n' E Hlen.
    assert (toy_recv len e n = (r, bytes, e', n')) as (H1 & H2 & H3 & H4 & H5 & H6 & H7)%toy_recv_law by by destruct ch.
    2:{ lia. }
    split_and!; try done; try lia.
    intros Hr Hp. by rewrite H5.
  - intros ch len e n r bytes e' n' E. unfold toy_open. destruct ch; revert E; by intros [= <- <- <- <-].
  - by intros fd n b n' [= <- <-].
  - intros fd e n r ip port e' n'. simpl. destruct (peers n) as [|a ips]; intros [= <- <- <- <- <-]; [by left|right].
    destruct (toy_fresh_spec n) as [Hp Hn]. split_and!; [lia| | | |].
    + unfold toy_open. rewrite elem_of_list_to_set, list_elem_of_filter. by intros [_ ?].
    + unfold toy_open. simpl. rewrite filter_cons_True by done. by rewrite list_to_set_cons.
    + unfold zlen. rewrite length_take. lia.
    + apply Forall_take, Forall_forall. intros x Hx. apply list_elem_of_In, list_elem_of_filter in Hx. apply Hx.
  - intros fd n. unfold toy_open. simpl. apply set_eq. intros x.
    rewrite elem_of_difference, !elem_of_list_to_set, !list_elem_of_filter, elem_of_singleton. tauto.
  - done.
  - by intros fd t n r n' [= <- <-].
  - by intros fd a b e n r e' n' [= <- <- <-].
  - by intros fd a b c e n r e' n' [= <- <- <-].
  - by intros fd a b e n r e' n' [= <- <- <-].
  - by intros fd a b e n r e' n' [= <- <- <-].
  - intros addr e n r e' n' [= <- <- <-]. right. destruct (toy_fresh_spec n) as [Hp Hn]. split_and!; [lia| |].
    + unfold toy_open. rewrite elem_of_list_to_set, list_elem_of_filter. by intros [_ ?].
    + unfold toy_open. simpl. rewrite filter_cons_True by done. by rewrite list_to_set_cons.
  - by intros fd addr port e n r e' n' [= <- <- <-].
  - by intros fd b e n r e' n' [= <- <- <-].
  - by intros cert key ca verify ciphers v e n r e' n' [= <- <- <-].
  - done.
  - by intros c fd e n r e' n' [= <- <- <-].
  - done.
  - done.
Defined.

(** Connecting succeeds while there are peers. *)
Definition toy_connect (e : error_ptr) (n : toy) : Z * error_ptr * toy :=
  match peers n with
  | [] => (-1, e, n)
  | _ :: ps => (0, e, mk_toy (incoming n) (outgoing n) (descriptors n) ps)
  end.

#[local] Instance toy_client_sockets : @ClientSockets toy_sockets := {|
  ak_tcp_socket_set_reuseaddr := λ _ _ e n, (0, e, n);
  ak_tcp_socket_set_nodelay := λ _ _ e n, (0, e, n);
  ak_tcp_socket_connect := λ _ _ _ _, toy_connect;
  ak_tcp_tls_client_ctx_new := λ _ _ _ _ _ _ e n, (None, e, n);
  ak_tcp_tls_connect := λ _ _ _ e n, (None, e, n);
|}.

#[local] Instance toy_client_laws : @ClientSocketLaws toy_sockets toy_laws toy_client_sockets.
Proof.
  split.
  - by intros fd b e n r e' n' [= <- <- <-].
  - by intros fd b e n r e' n' [= <- <- <-].
  - intros fd host port t e n r e' n'. simpl. unfold toy_connect. destruct (peers n); by intros [= <- <- <-].
  - by intros ca cert key verify ciphers v e n r e' n' [= <- <- <-].
  - by intros c fd name e n r e' n' [= <- <- <-].
Defined.
