(* ===== verification/Connections.v ===== *)
(** Connections: the part of [kernel/tcp/src/tcp.c] that is about one connection.

    A connection is passed by value, as it belongs to the thread that handles it;
    its user data is in a context of the store of [Contexts].  The build without
    TLS has no field [ssl]; it is the model with [ssl] null. *)

From Stdlib Require String.
From stdpp Require Import gmap.
From S2P Require Import Prelude Buffer Lists Maps Contexts Sockets.
Import Stdlib.Strings.String.StringSyntax.
#[local] Delimit Scope string_scope with str.

Definition TCP_READ_BUFFER_SIZE : Z := 4096.
Definition TCP_WRITE_BUFFER_SIZE : Z := 4096.
Definition TCP_RECV_CHUNK_SIZE : Z := 1024.

Inductive ak_tcp_error_t : Type :=
| AK_TCP_OK
| AK_TCP_ERR_TIMEOUT
| AK_TCP_ERR_CLOSED
| AK_TCP_ERR_RESET
| AK_TCP_ERR_NETWORK
| AK_TCP_ERR_MEMORY
| AK_TCP_ERR_INVALID
| AK_TCP_ERR_LIMIT
| AK_TCP_ERR_WOULDBLOCK
| AK_TCP_ERR_BUFFER_FULL
| AK_TCP_ERR_QUEUE_FULL
| AK_TCP_ERR_RATE_LIMIT
| AK_TCP_ERR_TLS_INIT
| AK_TCP_ERR_TLS_CERT
| AK_TCP_ERR_TLS_HANDSHAKE.

Definition ak_tcp_error_string (err : ak_tcp_error_t) : String.string :=
  match err with
  | AK_TCP_OK => "Success"
  | AK_TCP_ERR_TIMEOUT => "Operation timed out"
  | AK_TCP_ERR_CLOSED => "Connection closed"
  | AK_TCP_ERR_RESET => "Connection reset by peer"
  | AK_TCP_ERR_NETWORK => "Network error"
  | AK_TCP_ERR_MEMORY => "Memory allocation failed"
  | AK_TCP_ERR_INVALID => "Invalid argument"
  | AK_TCP_ERR_LIMIT => "Limit exceeded"
  | AK_TCP_ERR_WOULDBLOCK => "Operation would block"
  | AK_TCP_ERR_BUFFER_FULL => "Receive buffer full"
  | AK_TCP_ERR_QUEUE_FULL => "Task queue full"
  | AK_TCP_ERR_RATE_LIMIT => "Rate limit exceeded"
  | AK_TCP_ERR_TLS_INIT => "TLS initialization failed"
  | AK_TCP_ERR_TLS_CERT => "TLS certificate error"
  | AK_TCP_ERR_TLS_HANDSHAKE => "TLS handshake failed"
  end%str.

Record ak_tcp_ctx_t := mk_ctx {
  socket_fd : Z;
  remote_ip : list Z;
  remote_port : Z;
  read_buffer : option ak_buffer_t;
  write_buffer : option ak_buffer_t;
  alive : bool;
  metadata : option positive;
  recv_timeout_ms : Z;
  send_timeout_ms : Z;
  buffered_bytes : Z;
  max_recv_buffer_bytes : Z;
  detached : bool;
  ssl : option positive;
}.

Definition with_alive (c : ak_tcp_ctx_t) (b : bool) : ak_tcp_ctx_t :=
  mk_ctx (socket_fd c) (remote_ip c) (remote_port c) (read_buffer c) (write_buffer c) b (metadata c)
    (recv_timeout_ms c) (send_timeout_ms c) (buffered_bytes c) (max_recv_buffer_bytes c) (detached c) (ssl c).

Definition with_socket (c : ak_tcp_ctx_t) (fd : Z) : ak_tcp_ctx_t :=
  mk_ctx fd (remote_ip c) (remote_port c) (read_buffer c) (write_buffer c) (alive c) (metadata c)
    (recv_timeout_ms c) (send_timeout_ms c) (buffered_bytes c) (max_recv_buffer_bytes c) (detached c) (ssl c).

Definition with_ssl (c : ak_tcp_ctx_t) (s : option positive) : ak_tcp_ctx_t :=
  mk_ctx (socket_fd c) (remote_ip c) (remote_port c) (read_buffer c) (write_buffer c) (alive c) (metadata c)
    (recv_timeout_ms c) (send_timeout_ms c) (buffered_bytes c) (max_recv_buffer_bytes c) (detached c) s.

Definition with_detached (c : ak_tcp_ctx_t) (d : bool) : ak_tcp_ctx_t :=
  mk_ctx (socket_fd c) (remote_ip c) (remote_port c) (read_buffer c) (write_buffer c) (alive c) (metadata c)
    (recv_timeout_ms c) (send_timeout_ms c) (buffered_bytes c) (max_recv_buffer_bytes c) d (ssl c).

Definition with_timeouts (c : ak_tcp_ctx_t) (r s : Z) : ak_tcp_ctx_t :=
  mk_ctx (socket_fd c) (remote_ip c) (remote_port c) (read_buffer c) (write_buffer c) (alive c) (metadata c)
    r s (buffered_bytes c) (max_recv_buffer_bytes c) (detached c) (ssl c).

Definition with_buffered (c : ak_tcp_ctx_t) (n : Z) : ak_tcp_ctx_t :=
  mk_ctx (socket_fd c) (remote_ip c) (remote_port c) (read_buffer c) (write_buffer c) (alive c) (metadata c)
    (recv_timeout_ms c) (send_timeout_ms c) n (max_recv_buffer_bytes c) (detached c) (ssl c).

Definition with_max_recv (c : ak_tcp_ctx_t) (n : Z) : ak_tcp_ctx_t :=
  mk_ctx (socket_fd c) (remote_ip c) (remote_port c) (read_buffer c) (write_buffer c) (alive c) (metadata c)
    (recv_timeout_ms c) (send_timeout_ms c) (buffered_bytes c) n (detached c) (ssl c).

Definition sizeof_ak_tcp_ctx_t : Z := 192.

(** The channel data of a connection goes through. *)
Definition channel_of (c : ak_tcp_ctx_t) : channel :=
  match ssl c with
  | Some s => Tls s
  | None => Socket (socket_fd c)
  end.

(** [strstr(s, part) != NULL] *)
Definition contains (s part : String.string) : bool :=
  match String.index 0 part s with
  | Some _ => true
  | None => false
  end.

(** Some bytes of a block. *)
Definition bytes_at (block : list Z) (off len : Z) : outcome (list Z) :=
  if (0 <=? off) && (0 <=? len) && (off + len <=? zlen block)
  then Ret (take (Z.to_nat len) (drop (Z.to_nat off) block))
  else Undef.

Section connections.
Context `{Allocator} `{Sockets}.

Definition ak_tcp_ctx_new (st : Contexts.store) (fd : Z) (ip : option (list Z)) (port : Z)
    (recv_buf_size send_buf_size : Z) : M (option ak_tcp_ctx_t * Contexts.store) :=
  ok ← alloc_obj sizeof_ak_tcp_ctx_t;
  if negb ok then mret (None, st) else
  let ip := match ip with Some ip => take 45 ip | None => [] end in
  read_buffer ← ak_buffer_new (if 0 <? recv_buf_size then recv_buf_size else TCP_READ_BUFFER_SIZE);
  match read_buffer with
  | None => _ ← free_obj; mret (None, st)
  | Some _ =>
      write_buffer ← ak_buffer_new (if 0 <? send_buf_size then send_buf_size else TCP_WRITE_BUFFER_SIZE);
      match write_buffer with
      | None => _ ← ak_buffer_free read_buffer; _ ← free_obj; mret (None, st)
      | Some _ =>
          '(metadata, st) ← ak_context_new st;
          match metadata with
          | None =>
              _ ← ak_buffer_free write_buffer;
              _ ← ak_buffer_free read_buffer;
              _ ← free_obj;
              mret (None, st)
          | Some _ =>
              mret (Some (mk_ctx fd ip port read_buffer write_buffer true metadata 0 0 0 0 false None), st)
          end
      end
  end.

Definition ak_tcp_ctx_free (st : Contexts.store) (ctx : option ak_tcp_ctx_t) (n : net)
    : M (Contexts.store * net) :=
  match ctx with
  | None => mret (st, n)
  | Some c =>
      let n := match ssl c with
               | Some s => ak_tcp_tls_free s (ak_tcp_tls_shutdown s n)
               | None => n
               end in
      let n := if negb (socket_fd c =? AK_INVALID_SOCKET) then ak_tcp_socket_close (socket_fd c) n else n in
      _ ← match read_buffer c with Some _ => ak_buffer_free (read_buffer c) | None => mret () end;
      _ ← match write_buffer c with Some _ => ak_buffer_free (write_buffer c) | None => mret () end;
      st ← match metadata c with Some _ => ak_context_free st (metadata c) | None => mret st end;
      _ ← free_obj;
      mret (st, n)
  end.

Definition ak_tcp_ctx_detach (ctx : option ak_tcp_ctx_t) : option ak_tcp_ctx_t :=
  match ctx with
  | None => None
  | Some c => Some (with_detached c true)
  end.

Definition ak_tcp_ctx_is_detached (ctx : option ak_tcp_ctx_t) : bool :=
  match ctx with
  | None => false
  | Some c => detached c
  end.

Definition ak_tcp_ctx_fd (ctx : option ak_tcp_ctx_t) : Z :=
  match ctx with
  | None => AK_INVALID_SOCKET
  | Some c => socket_fd c
  end.

(** * Sending and receiving *)

Definition ak_tcp_send (ctx : option ak_tcp_ctx_t) (data : option ak_buffer_t) (error : error_ptr) (n : net)
    : outcome (Z * option ak_tcp_ctx_t * error_ptr * net) :=
  match ctx, data with
  | Some c, Some b =>
      if negb (alive c) then Ret (-1, ctx, set_error error "Connection closed"%str, n) else
      let to_send := b_count b in
      loop (S (Z.to_nat to_send)) (λ '(total_sent, error, n),
        if total_sent <? to_send then
          data ← bytes_at (b_data b) total_sent (to_send - total_sent);
          let '(sent, error, n) := channel_send (channel_of c) data error n in
          if sent <? 0 then Ret (inr (-1, ctx, error, n))
          else if sent =? 0 then
            Ret (inr (-1, Some (with_alive c false), set_error error "Connection closed by peer"%str, n))
          else Ret (inl (u64 (total_sent + sent), error, n))
        else Ret (inr (total_sent, ctx, error, n))) (0, error, n)
  | _, _ => Ret (-1, ctx, set_error error "Invalid arguments"%str, n)
  end.

Definition ak_tcp_recv (ctx : option ak_tcp_ctx_t) (buffer : option ak_buffer_t) (max_bytes : Z)
    (error : error_ptr) (n : net) : M (Z * option ak_tcp_ctx_t * option ak_buffer_t * error_ptr * net) :=
  match ctx, buffer with
  | Some c, Some _ =>
      if negb (alive c) then mret (-1, ctx, buffer, set_error error "Connection closed"%str, n) else
      let limit := max_recv_buffer_bytes c in
      let buffered := buffered_bytes c in
      let to_recv := if max_bytes <? TCP_RECV_CHUNK_SIZE then max_bytes else TCP_RECV_CHUNK_SIZE in
      if (0 <? limit) && (limit <=? buffered) then
        mret (-2, ctx, buffer, set_error error "Receive buffer full (backpressure limit)"%str, n)
      else
        let to_recv := if (0 <? limit) && (limit - buffered <? to_recv) then limit - buffered else to_recv in
        let '(received, temp, error, n) := channel_recv (channel_of c) to_recv error n in
        if received <? 0 then mret (-1, ctx, buffer, error, n)
        else if received =? 0 then mret (0, Some (with_alive c false), buffer, error, n)
        else
          '(rc, buffer) ← ak_buffer_copy_to buffer (Some temp) received;
          if negb (rc =? 0) then
            mret (-1, ctx, buffer, set_error error "Buffer allocation failed"%str, n)
          else mret (received, Some (with_buffered c (u64 (buffered + received))), buffer, error, n)
  | _, _ => mret (-1, ctx, buffer, set_error error "Invalid arguments"%str, n)
  end.

(** The connection, updated, and the answer. *)
Definition ak_tcp_is_alive (ctx : option ak_tcp_ctx_t) (n : net) : bool * option ak_tcp_ctx_t * net :=
  match ctx with
  | None => (false, ctx, n)
  | Some c =>
      if negb (alive c) || (socket_fd c =? AK_INVALID_SOCKET) then (false, ctx, n) else
      let '(closed, n) := ak_tcp_socket_peer_closed (socket_fd c) n in
      if closed : bool then (false, Some (with_alive c false), n) else (true, ctx, n)
  end.

(** The index from [i] on at which [delim] is found in the first [count] bytes. *)
Definition find_delim (data delim : list Z) (count : Z) : outcome (option Z) :=
  let delim_len := zlen delim in
  if negb (delim_len <=? count) then Ret None else
  loop (S (S (Z.to_nat count))) (λ i,
    if i <=? count - delim_len then
      d ← memcmp (drop (Z.to_nat i) data) delim (length delim);
      if d =? 0 then Ret (inr (Some i)) else Ret (inl (u64 (i + 1)))
    else Ret (inr None)) 0.

(** The number of bytes to ask for. *)
Definition bytes_to_read (max_bytes count limit buffered : Z) : Z :=
  let to_read := TCP_RECV_CHUNK_SIZE in
  let to_read :=
    if (0 <? max_bytes) && (max_bytes <? u64 (count + to_read)) then
      let to_read := max_bytes - count in if to_read =? 0 then 1 else to_read
    else to_read in
  if (0 <? limit) && (limit - buffered <? to_read) then limit - buffered else to_read.

(** What a turn of the loop of [ak_tcp_recv_until] ends it with: an answer, or the
    end of the loop. *)
Definition recv_result : Type := option ak_buffer_t * option ak_tcp_ctx_t * error_ptr * net.

Definition recv_until_step (delim : list Z) (max_bytes : Z)
    : ak_tcp_ctx_t * ak_buffer_t * error_ptr * net →
      M ((ak_tcp_ctx_t * ak_buffer_t * error_ptr * net) + (recv_result + recv_result)) :=
  λ '(c, result, error, n),
    let '(up, ctx, n) := ak_tcp_is_alive (Some c) n in
    if negb up then mret (inr (inr (Some result, ctx, error, n))) else
    let count := b_count result in
    found ← lift (find_delim (b_data result) delim count);
    match found with
    | Some i =>
        mret (inr (inl (Some (mk_buffer (b_data result) (b_capacity result) (u64 (i + zlen delim))
          (b_origin_offset result)), ctx, error, n)))
    | None =>
        if (0 <? max_bytes) && (max_bytes <=? count) then
          _ ← ak_buffer_free (Some result);
          mret (inr (inl (None, ctx,
            set_error error "Maximum receive size exceeded before delimiter found"%str, n)))
        else if negb (alive c) then mret (inr (inr (Some result, ctx, error, n)))
        else
        let limit := max_recv_buffer_bytes c in
        let buffered := buffered_bytes c in
        if (0 <? limit) && (limit <=? buffered) then
          _ ← ak_buffer_free (Some result);
          mret (inr (inl (None, ctx, set_error error "Receive buffer full (backpressure limit)"%str, n)))
        else
          let to_read := bytes_to_read max_bytes count limit buffered in
          let '(received, temp, error, n) := channel_recv (channel_of c) to_read error n in
          if received <? 0 then
            _ ← ak_buffer_free (Some result); mret (inr (inl (None, ctx, error, n)))
          else if received =? 0 then
            mret (inr (inr (Some result, Some (with_alive c false), error, n)))
          else
            '(rc, result) ← ak_buffer_copy_to (Some result) (Some temp) received;
            match result with
            | Some result =>
                if negb (rc =? 0) then
                  _ ← ak_buffer_free (Some result);
                  mret (inr (inl (None, ctx, set_error error "Buffer allocation failed"%str, n)))
                else mret (inl (with_buffered c (u64 (buffered + received)), result, error, n))
            | None => lift Undef
            end
    end.

(** The loop ends when the peer has no more bytes, so its turns are given. *)
Definition ak_tcp_recv_until (turns : nat) (ctx : option ak_tcp_ctx_t) (delim : option (list Z))
    (max_bytes : Z) (error : error_ptr) (n : net) : M recv_result :=
  match ctx, delim with
  | Some c, Some delim =>
      if zlen delim =? 0 then mret (None, ctx, set_error error "Empty delimiter"%str, n) else
      result ← ak_buffer_new 256;
      match result with
      | None => mret (None, ctx, set_error error "Buffer allocation failed"%str, n)
      | Some result =>
          r ← loopM turns (recv_until_step delim max_bytes) (c, result, error, n);
          match r with
          | inl answer => mret answer
          | inr (result, ctx, error, n) =>
              if ak_buffer_count result =? 0 then _ ← ak_buffer_free result; mret (None, ctx, error, n)
              else mret (result, ctx, error, n)
          end
      end
  | _, _ => mret (None, ctx, set_error error "Invalid arguments"%str, n)
  end.

(** * The state of a connection *)

Definition ak_tcp_is_tls (ctx : option ak_tcp_ctx_t) : bool :=
  match ctx with
  | None => false
  | Some c => match ssl c with Some _ => true | None => false end
  end.

Definition ak_tcp_close (ctx : option ak_tcp_ctx_t) (n : net) : option ak_tcp_ctx_t * net :=
  match ctx with
  | None => (None, n)
  | Some c =>
      if alive c then
        let c := with_alive c false in
        let '(c, n) := match ssl c with
                       | Some s => (with_ssl c None, ak_tcp_tls_free s (ak_tcp_tls_shutdown s n))
                       | None => (c, n)
                       end in
        if negb (socket_fd c =? AK_INVALID_SOCKET) then
          (Some (with_socket c AK_INVALID_SOCKET), ak_tcp_socket_close (socket_fd c) n)
        else (Some c, n)
      else (ctx, n)
  end.

Definition ak_tcp_kill (ctx : option ak_tcp_ctx_t) (n : net) : option ak_tcp_ctx_t * net := ak_tcp_close ctx n.

Definition ak_tcp_abort (ctx : option ak_tcp_ctx_t) (n : net) : option ak_tcp_ctx_t * net := ak_tcp_close ctx n.

Definition ak_tcp_set_meta (st : Contexts.store) (ctx : option ak_tcp_ctx_t) (key : option cstr) (value : value_t)
    : M Contexts.store :=
  match ctx, key with
  | Some c, Some _ => '(_, st) ← ak_context_set st (metadata c) key value; mret st
  | _, _ => mret st
  end.

Definition ak_tcp_get_meta (st : Contexts.store) (ctx : option ak_tcp_ctx_t) (key : option cstr) : outcome value_t :=
  match ctx, key with
  | Some c, Some _ => ak_context_get st (metadata c) key
  | _, _ => Ret 0
  end.

Definition ak_tcp_set_timeout (ctx : option ak_tcp_ctx_t) (recv_ms send_ms : Z) (n : net)
    : ak_tcp_error_t * option ak_tcp_ctx_t * net :=
  match ctx with
  | None => (AK_TCP_ERR_INVALID, ctx, n)
  | Some c =>
      if negb (alive c) || (socket_fd c =? AK_INVALID_SOCKET) then (AK_TCP_ERR_CLOSED, ctx, n) else
      let '(rc, _, n) := ak_tcp_socket_set_timeout (socket_fd c) recv_ms send_ms (Some None) n in
      if negb (rc =? 0) then (AK_TCP_ERR_NETWORK, ctx, n)
      else (AK_TCP_OK, Some (with_timeouts c recv_ms send_ms), n)
  end.

(** The two times, for pointers that are not null. *)
Definition ak_tcp_get_timeout (ctx : option ak_tcp_ctx_t) : ak_tcp_error_t * option (Z * Z) :=
  match ctx with
  | None => (AK_TCP_ERR_INVALID, None)
  | Some c => (AK_TCP_OK, Some (recv_timeout_ms c, send_timeout_ms c))
  end.

Definition ak_tcp_set_keepalive (ctx : option ak_tcp_ctx_t) (idle_sec interval_sec probe_count : Z) (n : net)
    : ak_tcp_error_t * net :=
  match ctx with
  | None => (AK_TCP_ERR_INVALID, n)
  | Some c =>
      if negb (alive c) || (socket_fd c =? AK_INVALID_SOCKET) then (AK_TCP_ERR_CLOSED, n) else
      let '(rc, _, n) := ak_tcp_socket_set_keepalive (socket_fd c) idle_sec interval_sec probe_count (Some None) n in
      if negb (rc =? 0) then (AK_TCP_ERR_NETWORK, n) else (AK_TCP_OK, n)
  end.

Definition ak_tcp_shutdown (ctx : option ak_tcp_ctx_t) (n : net) : option ak_tcp_ctx_t * net :=
  match ctx with
  | None => (None, n)
  | Some c =>
      if alive c && negb (socket_fd c =? AK_INVALID_SOCKET) then
        let n := match ssl c with Some s => ak_tcp_tls_shutdown s n | None => n end in
        (Some (with_alive c false), ak_tcp_socket_shutdown (socket_fd c) n)
      else (ctx, n)
  end.

Definition ak_tcp_consume_bytes (ctx : option ak_tcp_ctx_t) (bytes : Z) : option ak_tcp_ctx_t :=
  match ctx with
  | None => None
  | Some c =>
      Some (with_buffered c (if buffered_bytes c <? bytes then 0 else buffered_bytes c - bytes))
  end.

(** * The variants that answer an error *)

(** The error, the number of bytes sent, the rest. *)
Definition ak_tcp_send_ex (ctx : option ak_tcp_ctx_t) (data : option ak_buffer_t) (error : error_ptr) (n : net)
    : outcome (ak_tcp_error_t * Z * option ak_tcp_ctx_t * error_ptr * net) :=
  '(result, ctx, error, n) ← ak_tcp_send ctx data error n;
  if result <? 0 then
    match ctx with
    | None => Ret (AK_TCP_ERR_INVALID, 0, ctx, error, n)
    | Some _ =>
        let '(up, ctx, n) := ak_tcp_is_alive ctx n in
        Ret (if up : bool then AK_TCP_ERR_NETWORK else AK_TCP_ERR_CLOSED, 0, ctx, error, n)
    end
  else Ret (AK_TCP_OK, result, ctx, error, n).

(** [error && *error && strstr( *error, part)] *)
Definition error_has (error : error_ptr) (part : String.string) : bool :=
  match error with
  | Some (Some message) => contains message part
  | _ => false
  end.

Definition ak_tcp_recv_ex (ctx : option ak_tcp_ctx_t) (buffer : option ak_buffer_t) (max_bytes : Z)
    (error : error_ptr) (n : net)
    : M (ak_tcp_error_t * Z * option ak_tcp_ctx_t * option ak_buffer_t * error_ptr * net) :=
  '(result, ctx, buffer, error, n) ← ak_tcp_recv ctx buffer max_bytes error n;
  if result =? -2 then mret (AK_TCP_ERR_BUFFER_FULL, 0, ctx, buffer, error, n)
  else if result <? 0 then
    match ctx with
    | None => mret (AK_TCP_ERR_INVALID, 0, ctx, buffer, error, n)
    | Some _ =>
        let '(up, ctx, n) := ak_tcp_is_alive ctx n in
        if negb up then mret (AK_TCP_ERR_CLOSED, 0, ctx, buffer, error, n)
        else if error_has error "timed out"%str then mret (AK_TCP_ERR_TIMEOUT, 0, ctx, buffer, error, n)
        else mret (AK_TCP_ERR_NETWORK, 0, ctx, buffer, error, n)
    end
  else if result =? 0 then mret (AK_TCP_ERR_CLOSED, 0, ctx, buffer, error, n)
  else mret (AK_TCP_OK, result, ctx, buffer, error, n).

(** The pointer for the answer is not null. *)
Definition ak_tcp_recv_until_ex (turns : nat) (ctx : option ak_tcp_ctx_t) (delim : option (list Z))
    (max_bytes : Z) (error : error_ptr) (n : net) : M (ak_tcp_error_t * recv_result) :=
  match ctx, delim with
  | Some _, Some _ =>
      '(buf, ctx, error, n) ← ak_tcp_recv_until turns ctx delim max_bytes error n;
      match buf with
      | Some _ => mret (AK_TCP_OK, (buf, ctx, error, n))
      | None =>
          let '(up, ctx, n) := ak_tcp_is_alive ctx n in
          if negb up then mret (AK_TCP_ERR_CLOSED, (None, ctx, error, n))
          else if error_has error "Maximum receive size exceeded"%str then
            mret (AK_TCP_ERR_LIMIT, (None, ctx, error, n))
          else if error_has error "timed out"%str then mret (AK_TCP_ERR_TIMEOUT, (None, ctx, error, n))
          else mret (AK_TCP_ERR_NETWORK, (None, ctx, error, n))
      end
  | _, _ => mret (AK_TCP_ERR_INVALID, (None, ctx, set_error error "Invalid arguments"%str, n))
  end.
End connections.

(** * Proofs *)

#[local] Arguments ak_tcp_is_alive : simpl never.
#[local] Arguments recv_until_step : simpl never.
#[local] Arguments with_buffered : simpl never.
#[local] Arguments ak_buffer_free : simpl never.

Lemma bytes_at_ok block off len :
  0 <= off → 0 <= len → off + len <= zlen block →
  bytes_at block off len = Ret (take (Z.to_nat len) (drop (Z.to_nat off) block)).
Proof.
  intros H1 H2 H3. unfold bytes_at. by rewrite !(proj2 (Z.leb_le _ _)) by lia.
Qed.

(** The rest of the contents of a buffer. *)
Lemma contents_rest b off :
  buffer_wf b → 0 <= off <= b_count b →
  bytes_at (b_data b) off (b_count b - off) = Ret (drop (Z.to_nat off) (contents b)).
Proof.
  intros [Hblk Hcnt Hcap _ _] Hoff. rewrite bytes_at_ok by lia. f_equal. unfold contents.
  rewrite skipn_firstn_comm. f_equal. lia.
Qed.

Section sending.
Context `{Allocator} `{SocketLaws}.

Lemma send_loop_ok c b error n :
  buffer_wf b → alive c = true →
  wpo (ak_tcp_send (Some c) (Some b) error n) (λ '(r, ctx, _, n'), ∃ sent,
    0 <= sent <= b_count b
    ∧ delivered n' (channel_of c) = delivered n (channel_of c) ++ take (Z.to_nat sent) (contents b)
    ∧ arriving n' (channel_of c) = arriving n (channel_of c) ∧ open_sockets n' = open_sockets n
    ∧ ((r = b_count b ∧ sent = b_count b ∧ ctx = Some c)
       ∨ (r = -1 ∧ sent < b_count b ∧ (ctx = Some c ∨ ctx = Some (with_alive c false))))).
Proof.
  intros Hwf Hal. pose proof Hwf as [Hblk Hcnt Hcap _ _]. unfold ak_tcp_send. rewrite Hal. cbn [negb]. cbv iota.
  apply (loop_wpo (λ '(total, e, n1), 0 <= total <= b_count b
      ∧ delivered n1 (channel_of c) = delivered n (channel_of c) ++ take (Z.to_nat total) (contents b)
      ∧ arriving n1 (channel_of c) = arriving n (channel_of c) ∧ open_sockets n1 = open_sockets n)
    (λ '(total, _, _), Z.to_nat (b_count b - total))).
  - split_and!; [lia|lia| |done|done]. by rewrite app_nil_r.
  - lia.
  - intros [[total e] n1] (Ht & Hd & Har & Hop). destruct (Z.ltb_spec total (b_count b)) as [Hlt|Hge].
    2:{ simpl. exists total. split_and!; [lia|lia|done|done|done|]. left. split_and!; [lia|lia|done]. }
    rewrite contents_rest by (done || lia). simpl.
    pose proof (length_contents b Hwf) as Hlen.
    destruct (channel_send _ _ _ _) as [[r e'] n2] eqn:E. apply send_law in E as (Hr & Hd2 & Har2 & Hop2).
    assert (zlen (drop (Z.to_nat total) (contents b)) = b_count b - total) as Hdl by (rewrite zlen_drop; lia).
    assert (0 <= r → take (Z.to_nat total) (contents b) ++ take (Z.to_nat r) (drop (Z.to_nat total) (contents b))
      = take (Z.to_nat (total + r)) (contents b)) as Hjoin.
    { intros Hr0. rewrite Z2Nat.inj_add, <- take_take_drop by lia. done. }
    destruct (Z.ltb_spec r 0) as [Hneg|Hpos]; [|destruct (Z.eqb_spec r 0) as [->|Hnz]]; simpl.
    + exists total. split_and!; [lia|lia| |by rewrite Har2|by rewrite Hop2|].
      * replace (Z.to_nat r) with 0%nat in Hd2 by lia. by rewrite Hd2, app_nil_r.
      * right. split_and!; [done|lia|by left].
    + exists total. split_and!; [lia|lia| |by rewrite Har2|by rewrite Hop2|].
      * by rewrite Hd2, app_nil_r.
      * right. split_and!; [done|lia|by right].
    + rewrite u64_small by lia. split; [|lia].
      split_and!; [lia|lia| |by rewrite Har2|by rewrite Hop2].
      rewrite Hd2, Hd, <- app_assoc, Hjoin by lia. done.
Qed.
End sending.

(** * Delimiters *)

Lemma memcmp_ok a b n :
  (n <= length a)%nat → (n <= length b)%nat → ∃ d, memcmp a b n = Ret d ∧ (d = 0 ↔ take n a = take n b).
Proof.
  revert a b. induction n as [|n IH]; intros a b Ha Hb; simpl; [exists 0; split; [by destruct a|by split]|].
  destruct a as [|x a], b as [|y b]; simpl in *; try lia. destruct (Z.eqb_spec x y) as [->|Hne].
  - destruct (IH a b) as (d & -> & Hd); [lia..|]. exists d. split; [done|]. rewrite Hd. split; [by intros ->|congruence].
  - exists (x - y). split; [done|]. split; [lia|congruence].
Qed.

(** [delim] is in [xs] at [i]. *)
Definition occurs_at (delim xs : list Z) (i : Z) : Prop :=
  0 <= i ∧ i + zlen delim <= zlen xs ∧ take (length delim) (drop (Z.to_nat i) xs) = delim.

Lemma occurs_in_take delim xs n i :
  0 <= n <= zlen xs → occurs_at delim (take (Z.to_nat n) xs) i ↔
    0 <= i ∧ i + zlen delim <= n ∧ take (length delim) (drop (Z.to_nat i) xs) = delim.
Proof.
  intros Hn. unfold occurs_at. rewrite zlen_take by done. unfold zlen.
  split; intros (H1 & H2 & H3); (split_and!; [done|done|]).
  - rewrite skipn_firstn_comm, take_take, Nat.min_l in H3 by lia. done.
  - rewrite skipn_firstn_comm, take_take, Nat.min_l by lia. done.
Qed.

Lemma occurs_bounds delim xs n i :
  0 <= n <= zlen xs → occurs_at delim (take (Z.to_nat n) xs) i → 0 <= i ∧ i + zlen delim <= n.
Proof. intros Hn Ho. rewrite occurs_in_take in Ho by done. lia. Qed.

Lemma find_delim_ok data delim count :
  0 <= count <= zlen data → count < 2 ^ 63 → 0 < zlen delim →
  wpo (find_delim data delim count) (λ r, match r with
    | Some i => occurs_at delim (take (Z.to_nat count) data) i
        ∧ ∀ j, j < i → ¬ occurs_at delim (take (Z.to_nat count) data) j
    | None => ∀ j, ¬ occurs_at delim (take (Z.to_nat count) data) j
    end).
Proof.
  intros Hc Hb Hd. unfold find_delim. destruct (Z.leb_spec (zlen delim) count) as [Hle|Hgt]; simpl.
  2:{ intros j Ho%occurs_bounds; lia. }
  apply (loop_wpo (λ i, 0 <= i <= count - zlen delim + 1
      ∧ ∀ j, j < i → ¬ occurs_at delim (take (Z.to_nat count) data) j) (λ i, Z.to_nat (count + 1 - i))).
  - split; [lia|]. intros j Hj Ho%occurs_bounds; lia.
  - lia.
  - intros i (Hi & Hno). destruct (Z.leb_spec i (count - zlen delim)) as [Hin|Hout].
    2:{ simpl. intros j Ho. apply (Hno j); [|done]. apply occurs_bounds in Ho; lia. }
    destruct (memcmp_ok (drop (Z.to_nat i) data) delim (length delim)) as (d & -> & Hdz).
    { rewrite length_drop. unfold zlen in *. lia. }
    { done. }
    rewrite (firstn_all delim) in Hdz. simpl. destruct (Z.eqb_spec d 0) as [->|Hnz]; simpl.
    + split; [|done]. rewrite occurs_in_take by lia. split_and!; [lia|lia|by apply Hdz].
    + rewrite u64_small by lia. split; [|lia]. split; [lia|]. intros j Hj Ho.
      destruct (decide (j = i)) as [->|]; [|by apply (Hno j); [lia|]].
      rewrite occurs_in_take in Ho by lia. apply Hnz, Hdz, Ho.
Qed.

Section receiving.
Context `{Allocator} `{SocketLaws}.

Lemma is_alive_ok ctx n :
  let '(up, ctx', n') := ak_tcp_is_alive ctx n in
  (∀ ch, arriving n' ch = arriving n ch) ∧ (∀ ch, delivered n' ch = delivered n ch) ∧ open_sockets n' = open_sockets n
  ∧ (up = true → ctx' = ctx ∧ ∃ c, ctx = Some c ∧ alive c = true ∧ socket_fd c ≠ AK_INVALID_SOCKET)
  ∧ (up = false → ∀ c, ctx = Some c → ctx' = Some (with_alive c false)
       ∨ (ctx' = ctx ∧ (alive c = false ∨ socket_fd c = AK_INVALID_SOCKET))).
Proof.
  unfold ak_tcp_is_alive. destruct ctx as [c|]; [|done].
  destruct (alive c) eqn:Ha; simpl; [|split_and!; [done..|]; intros _ ? [= <-]; right; auto].
  destruct (Z.eqb_spec (socket_fd c) AK_INVALID_SOCKET) as [E|E].
  { split_and!; [done..|]. intros _ ? [= <-]. right. auto. }
  destruct (ak_tcp_socket_peer_closed (socket_fd c) n) as [closed n'] eqn:Ep.
  apply peer_closed_law in Ep as (Pa & Pd & Po). destruct closed; split_and!; try done.
  - intros _ ? [= <-]. by left.
  - intros _. split; [done|]. by exists c.
Qed.

Lemma recv_ok c b max_bytes error n s :
  alive c = true → buffer_wf b → 0 <= max_bytes → b_count b < 2 ^ 60 →
  0 <= buffered_bytes c < 2 ^ 60 → 0 <= max_recv_buffer_bytes c →
  wp (ak_tcp_recv (Some c) (Some b) max_bytes error n) (λ '(r, ctx, buf, _, n') s',
    open_sockets n' = open_sockets n ∧
    ((r = -2 ∧ 0 < max_recv_buffer_bytes c <= buffered_bytes c ∧ n' = n ∧ ctx = Some c ∧ buf = Some b ∧ s' = s)
     ∨ (r = -1 ∧ ctx = Some c ∧ buf = Some b
        ∧ ((s' = s ∧ arriving n' (channel_of c) = arriving n (channel_of c)) ∨ balance 0 true s s'))
     ∨ (r = 0 ∧ ctx = Some (with_alive c false) ∧ buf = Some b ∧ s' = s
        ∧ arriving n' (channel_of c) = arriving n (channel_of c)
        ∧ (0 < max_bytes → arriving n (channel_of c) = []))
     ∨ (0 < r <= Z.min max_bytes TCP_RECV_CHUNK_SIZE ∧ ctx = Some (with_buffered c (buffered_bytes c + r))
        ∧ (0 < max_recv_buffer_bytes c → buffered_bytes c + r <= max_recv_buffer_bytes c)
        ∧ balance 0 false s s' ∧ ∃ bytes b', zlen bytes = r
        ∧ arriving n (channel_of c) = bytes ++ arriving n' (channel_of c)
        ∧ buf = Some b' ∧ buffer_wf b' ∧ contents b' = contents b ++ bytes))) s.
Proof.
  intros Ha Hwf Hmax Hcnt Hbuf Hlim. pose proof Hwf as [_ Hc _ _ _].
  assert (TCP_RECV_CHUNK_SIZE = 1024) as Hchunk by done.
  unfold ak_tcp_recv. rewrite Ha. cbn [negb]. cbv iota zeta.
  set (want := if max_bytes <? TCP_RECV_CHUNK_SIZE then max_bytes else TCP_RECV_CHUNK_SIZE).
  assert (want = Z.min max_bytes TCP_RECV_CHUNK_SIZE) as Hwant.
  { unfold want. destruct (Z.ltb_spec max_bytes TCP_RECV_CHUNK_SIZE); lia. }
  clearbody want. destruct ((0 <? max_recv_buffer_bytes c) && (max_recv_buffer_bytes c <=? buffered_bytes c)) eqn:Efull.
  { apply andb_true_iff in Efull as [E1%Z.ltb_lt E2%Z.leb_le]. wsteps. split; [done|]. left. split_and!; try done; lia. }
  set (len := if (0 <? max_recv_buffer_bytes c) && (max_recv_buffer_bytes c - buffered_bytes c <? want)
    then max_recv_buffer_bytes c - buffered_bytes c else want).
  assert (0 <= len <= want ∧ (0 < max_recv_buffer_bytes c → buffered_bytes c + len <= max_recv_buffer_bytes c)
    ∧ (0 < max_bytes → 0 < len)) as (Hlen & Hroom & Hsome).
  { unfold len. clear len. destruct (Z.ltb_spec 0 (max_recv_buffer_bytes c)) as [Hp|Hz]; simpl in *; [|lia].
    apply Z.leb_gt in Efull. destruct (Z.ltb_spec (max_recv_buffer_bytes c - buffered_bytes c) want); lia. }
  clearbody len. destruct (channel_recv (channel_of c) len error n) as [[[r bytes] e'] n'] eqn:Er.
  pose proof (recv_open_law _ _ _ _ _ _ _ _ Er) as Hop. apply recv_law in Er as (Hr & Hbl & Hby & Har & Hend & _); [|lia].
  destruct (Z.ltb_spec r 0) as [Hneg|Hpos]; [|destruct (Z.eqb_spec r 0) as [->|Hnz]]; wsteps.
  - split; [done|]. right. left. split_and!; [lia|done|done|]. left. split; [done|].
    assert (bytes = []) as -> by (destruct bytes; [done|rewrite zlen_cons in Hbl; pose proof (zlen_nonneg bytes); lia]). done.
  - split; [done|]. right. right. left. assert (bytes = []) as ->
      by (destruct bytes; [done|rewrite zlen_cons in Hbl; pose proof (zlen_nonneg bytes); lia]).
    split_and!; try done. intros Hm. apply Hend; [done|]. by apply Hsome.
  - eapply wp_mono; [apply (copy_to_ok b bytes r); [done|done|lia|lia]|].
    intros [rc ob] s' (b' & -> & Hwf' & [(-> & HB & Hct & _)|(-> & HB & -> & _)]); simpl; wsteps; (split; [done|]).
    + right. right. right. rewrite u64_small by lia. split_and!; [lia|lia|done|intros Hp; specialize (Hroom Hp); lia|done|].
      exists bytes, b'. split_and!; [lia|done|done|done|]. rewrite Hct. f_equal. apply take_ge. unfold zlen in Hbl. lia.
    + right. left. split_and!; [done|done|done|]. by right.
Qed.
End receiving.

Section until.
Context `{Allocator} `{SocketLaws}.

(** The delimiter does not occur in what was received, but perhaps for the last piece. *)
Definition searched (delim xs : list Z) : Prop :=
  ∃ old last, xs = old ++ last ∧ (∀ j, ¬ occurs_at delim old j) ∧ zlen last <= TCP_RECV_CHUNK_SIZE.

(** What has been received since [n] on a connection that was [c], and is in the
    buffer. *)
Record receiving (c : ak_tcp_ctx_t) (delim : list Z) (max_bytes : Z) (n : net) (s : mem)
    (st : ak_tcp_ctx_t * ak_buffer_t * error_ptr * net) (m : mem) : Prop := {
  re_ctx : st.1.1.1 = with_buffered c (buffered_bytes c + zlen (contents st.1.1.2));
  re_wf : buffer_wf st.1.1.2;
  re_arrived : arriving n (channel_of c) = contents st.1.1.2 ++ arriving st.2 (channel_of c);
  re_max : 0 < max_bytes → zlen (contents st.1.1.2) <= max_bytes;
  re_limit : 0 < max_recv_buffer_bytes c →
    contents st.1.1.2 = [] ∨ buffered_bytes c + zlen (contents st.1.1.2) <= max_recv_buffer_bytes c;
  re_open : open_sockets st.2 = open_sockets n;
  re_searched : searched delim (contents st.1.1.2);
  re_mem : balance 2 false s m;
}.

(** The answers: a message up to its delimiter, all there was before the connection
    went down, or nothing. *)
Definition received (c : ak_tcp_ctx_t) (delim : list Z) (max_bytes : Z) (n : net) (s : mem)
    (r : recv_result) (s' : mem) : Prop :=
  let '(buf, ctx, _, n') := r in
  open_sockets n' = open_sockets n ∧ ∃ got, arriving n (channel_of c) = got ++ arriving n' (channel_of c)
  ∧ (0 < max_bytes → zlen got <= max_bytes)
  ∧ (0 < max_recv_buffer_bytes c → got = [] ∨ buffered_bytes c + zlen got <= max_recv_buffer_bytes c)
  ∧ match buf with
    | None => m_live s' = m_live s ∧ ((m_fails s < m_fails s')%nat ∨ ∀ j, ¬ occurs_at delim got j)
    | Some b => buffer_wf b ∧ balance 2 false s s' ∧
        ((∃ i, occurs_at delim got i ∧ (∀ j, j < i → ¬ occurs_at delim got j)
            ∧ contents b = take (Z.to_nat (i + zlen delim)) got)
         ∨ (contents b = got ∧ got ≠ [] ∧ searched delim got ∧ ∃ c', ctx = Some c' ∧ alive c' = false))
    end.

Lemma searched_all delim xs : (∀ j, ¬ occurs_at delim xs j) → searched delim xs.
Proof. intros Hno. exists xs, []. by rewrite app_nil_r. Qed.

Lemma nothing_occurs delim j : 0 < zlen delim → ¬ occurs_at delim [] j.
Proof. intros Hd (Hj1 & Hj2 & _). change (@zlen Z []) with 0 in Hj2. lia. Qed.

Lemma bytes_to_read_ok max_bytes count limit buffered :
  0 <= max_bytes → 0 <= count < 2 ^ 60 → (0 < max_bytes → count < max_bytes) → (0 < limit → 0 <= buffered < limit) →
  let r := bytes_to_read max_bytes count limit buffered in
  0 < r <= TCP_RECV_CHUNK_SIZE ∧ (0 < max_bytes → count + r <= max_bytes) ∧ (0 < limit → buffered + r <= limit).
Proof.
  intros Hm Hc Hcm Hl. assert (TCP_RECV_CHUNK_SIZE = 1024) as E by done. unfold bytes_to_read. rewrite u64_small by lia.
  set (a := if (0 <? max_bytes) && _ then _ else _).
  assert (0 < a <= TCP_RECV_CHUNK_SIZE ∧ (0 < max_bytes → count + a <= max_bytes)) as [Ha1 Ha2].
  { unfold a. clear a. destruct (Z.ltb_spec 0 max_bytes); simpl; [|lia].
    destruct (Z.ltb_spec max_bytes (count + TCP_RECV_CHUNK_SIZE)); [|lia].
    destruct (Z.eqb_spec (max_bytes - count) 0); lia. }
  clearbody a. cbv zeta. destruct (Z.ltb_spec 0 limit); simpl; [|lia].
  destruct (Z.ltb_spec (limit - buffered) a); lia.
Qed.

Lemma recv_until_step_ok c delim max_bytes n s st m :
  receiving c delim max_bytes n s st m → alive c = true → socket_fd c ≠ AK_INVALID_SOCKET → 0 < zlen delim → 0 <= max_bytes →
  zlen (arriving n (channel_of c)) < 2 ^ 60 → 0 <= buffered_bytes c < 2 ^ 60 → 0 <= max_recv_buffer_bytes c →
  wp (recv_until_step delim max_bytes st) (λ r m', match r with
    | inl st' => receiving c delim max_bytes n s st' m'
        ∧ (length (arriving st'.2 (channel_of c)) < length (arriving st.2 (channel_of c)))%nat
    | inr (inl answer) => received c delim max_bytes n s answer m'
    | inr (inr (buf, ctx, e, n')) => balance 2 false s m' ∧ ∃ b c', buf = Some b ∧ ctx = Some c' ∧ buffer_wf b
        ∧ alive c' = false ∧ open_sockets n' = open_sockets n
        ∧ arriving n (channel_of c) = contents b ++ arriving n' (channel_of c)
        ∧ (0 < max_bytes → zlen (contents b) <= max_bytes)
        ∧ (0 < max_recv_buffer_bytes c →
             contents b = [] ∨ buffered_bytes c + zlen (contents b) <= max_recv_buffer_bytes c)
        ∧ searched delim (contents b)
    end) m.
Proof.
  destruct st as [[[c1 b] e] n1]. intros [Hc Hwf Har Hmx Hlm Hop Hse Hb] Hal Hsock Hd Hmax Hin Hbuf Hl0. simpl in *. subst c1.
  pose proof (length_contents b Hwf) as Hlen. pose proof Hwf as [Hblk Hcnt Hcap _ _]. pose proof (zlen_nonneg (contents b)).
  assert (zlen (contents b) < 2 ^ 60) as Hsmall by (rewrite Har, zlen_app in Hin; pose proof (zlen_nonneg (arriving n1 (channel_of c))); lia).
  set (c1 := with_buffered c _). unfold recv_until_step. cbv beta iota zeta. pose proof (is_alive_ok (Some c1) n1) as Hup.
  destruct (ak_tcp_is_alive (Some c1) n1) as [[up ctx] n2]. destruct Hup as (Ar2 & _ & Op2 & Hyes & Hno).
  assert (arriving n (channel_of c) = contents b ++ arriving n2 (channel_of c)) as Har2 by by rewrite Ar2.
  destruct up; cbn [negb]; cbv iota zeta; wsteps.
  2:{ split; [done|]. destruct (Hno eq_refl c1 eq_refl) as [->|[-> [Hdead|Hinv]]]; [|by change (alive c = false) in Hdead; congruence|done].
      exists b, (with_alive c1 false). split_and!; try done. congruence. }
  destruct (Hyes eq_refl) as (-> & _). clear Hyes Hno.
  eapply wpo_mono; [apply (find_delim_ok (b_data b) delim (b_count b)); lia|]. fold (contents b).
  intros [i|] Hf; wsteps.
  - destruct Hf as [Hocc Hfirst]. pose proof Hocc as (Hi0 & Hi1 & _). rewrite u64_small by lia.
    split; [congruence|]. exists (contents b). split_and!; try done.
    + split; simpl; [done|lia|lia|apply Hwf|apply Hwf].
    + left. exists i. split_and!; [done|done|]. unfold contents. simpl. rewrite take_take. f_equal. unfold contents in *. lia.
  - destruct ((0 <? max_bytes) && (max_bytes <=? b_count b)) eqn:Emax.
    { wsteps. apply wp_buffer_free. intros m2 [HL HF]. wsteps. split; [congruence|]. exists (contents b).
      split_and!; try done; [destruct Hb; lia|by right]. }
    assert (alive c1 = true) as -> by done. cbn [negb]. cbv iota zeta.
    destruct ((0 <? max_recv_buffer_bytes c1) && (max_recv_buffer_bytes c1 <=? buffered_bytes c1)) eqn:Efull.
    { wsteps. apply wp_buffer_free. intros m2 [HL HF]. wsteps. split; [congruence|]. exists (contents b).
      split_and!; try done; [destruct Hb; lia|by right]. }
    change (max_recv_buffer_bytes c1) with (max_recv_buffer_bytes c) in *.
    change (buffered_bytes c1) with (buffered_bytes c + zlen (contents b)) in *.
    destruct (bytes_to_read_ok max_bytes (b_count b) (max_recv_buffer_bytes c) (buffered_bytes c + zlen (contents b)))
      as (Hr1 & Hr2 & Hr3); [done|lia| | |].
    { intros Hp. rewrite (proj2 (Z.ltb_lt _ _) Hp) in Emax. simpl in Emax. lia. }
    { intros Hp. rewrite (proj2 (Z.ltb_lt _ _) Hp) in Efull. simpl in Efull. lia. }
    set (want := bytes_to_read _ _ _ _) in *. clearbody want.
    assert (TCP_RECV_CHUNK_SIZE = 1024) as Hchunk by done.
    change (channel_of c1) with (channel_of c).
    destruct (channel_recv (channel_of c) want e n2) as [[[r bytes] e'] n3] eqn:Er.
    pose proof (recv_open_law _ _ _ _ _ _ _ _ Er) as Op3. apply recv_law in Er as (Hr & Hbl & Hby & Ar3 & Hend & _); [|lia].
    assert (open_sockets n3 = open_sockets n) as Hop3 by congruence.
    assert (r <= 0 → arriving n (channel_of c) = contents b ++ arriving n3 (channel_of c)) as Hnone.
    { intros Hr0. rewrite Har2, Ar3. destruct bytes; [done|]. rewrite zlen_cons in Hbl. pose proof (zlen_nonneg bytes). lia. }
    destruct (Z.ltb_spec r 0) as [Hneg|Hpos]; [|destruct (Z.eqb_spec r 0) as [->|Hnz]]; wsteps.
    + apply wp_buffer_free. intros m2 [HL HF]. wsteps. split; [done|]. exists (contents b).
      split_and!; try done; [apply Hnone; lia|destruct Hb; lia|by right].
    + split; [done|]. exists b, (with_alive c1 false). split_and!; try done. by apply Hnone.
    + assert (zlen (contents b) + r < 2 ^ 60) as Hsum.
      { rewrite Har2, Ar3, !zlen_app in Hin. pose proof (zlen_nonneg (arriving n3 (channel_of c))). lia. }
      eapply wp_mono; [apply (copy_to_ok b bytes r); [done|done|lia|lia]|].
      intros [rc ob] m2 (b' & -> & Hwf' & [(-> & HB & Hct & _)|(-> & HB & -> & _)]); simpl; wsteps.
      * assert (contents b' = contents b ++ bytes) as Hct'.
        { rewrite Hct. f_equal. apply take_ge. unfold zlen in *. lia. }
        rewrite u64_small by lia. split.
        -- split; simpl; rewrite ?Hct', ?zlen_app, ?Hbl.
           ++ unfold c1, with_buffered. simpl. f_equal. lia.
           ++ done.
           ++ by rewrite Har2, Ar3, app_assoc.
           ++ intros Hp. specialize (Hr2 Hp). lia.
           ++ intros Hp. specialize (Hr3 Hp). right. lia.
           ++ done.
           ++ exists (contents b), bytes. split_and!; [done|done|lia].
           ++ balance.
        -- cbn [snd]. rewrite <- (Ar2 (channel_of c)), Ar3, length_app. unfold zlen in *. lia.
      * apply wp_buffer_free. intros m3 [HL HF]. wsteps. split; [done|]. exists (contents b ++ bytes).
        rewrite zlen_app, Hbl. split_and!.
        -- by rewrite Har2, Ar3, app_assoc.
        -- intros Hp. specialize (Hr2 Hp). lia.
        -- intros Hp. specialize (Hr3 Hp). right. lia.
        -- destruct Hb, HB. lia.
        -- left. destruct Hb, HB. lia.
Qed.

Lemma recv_until_ok turns c delim max_bytes error n s :
  alive c = true → socket_fd c ≠ AK_INVALID_SOCKET → 0 < zlen delim → 0 <= max_bytes →
  (length (arriving n (channel_of c)) < turns)%nat → zlen (arriving n (channel_of c)) < 2 ^ 60 →
  0 <= buffered_bytes c < 2 ^ 60 → 0 <= max_recv_buffer_bytes c →
  wp (ak_tcp_recv_until turns (Some c) (Some delim) max_bytes error n) (received c delim max_bytes n s) s.
Proof.
  intros Hal Hsock Hd Hmax Hturns Hin Hbuf Hl. unfold ak_tcp_recv_until.
  rewrite (proj2 (Z.eqb_neq (zlen delim) 0)) by lia. wsteps. apply wp_buffer_new; [lia| |].
  - intros s' [HL HF]. wsteps. split; [done|]. exists []. change (@zlen Z []) with 0. split_and!; try done; [intros _; by left|lia|]. left. lia.
  - intros d s1 Hb1 Hdl Hdb. wsteps. set (b := mk_buffer d (Z.max 16 256) 0 0).
    assert (buffer_wf b) as Hwf by (split; simpl; [lia|lia|lia|done|unfold is_size; lia]).
    apply (loopM_wp (receiving c delim max_bytes n s) (λ st, length (arriving st.2 (channel_of c)))).
    + split; simpl; try done; [|intros _; by left|apply searched_all; intros j; by apply nothing_occurs].
      unfold with_buffered. destruct c. simpl. f_equal. change (zlen (contents b)) with 0. lia.
    + done.
    + intros st m Hinv.
      eapply wp_mono; [by apply (recv_until_step_ok c delim max_bytes n s st m)|].
      intros [st'|[r|[[[buf ctx] e] n']]] m' Hr; [done| |].
      * wsteps. done.
      * destruct Hr as (HB & b' & c' & -> & -> & Hwf' & Hdead & Hop & Har & Hmx & Hlm & Hse). wsteps.
        pose proof (length_contents b' Hwf'). simpl. destruct (Z.eqb_spec (b_count b') 0) as [Hz|Hnz].
        -- wsteps. apply wp_buffer_free. intros m2 [HL HF]. wsteps. split; [done|]. exists (contents b').
           split_and!; try done; [destruct HB; lia|]. right. intros j. assert (contents b' = []) as ->; [|by apply nothing_occurs].
           destruct (contents b') as [|x l]; [done|]. rewrite zlen_cons in *. pose proof (zlen_nonneg l). lia.
        -- wsteps. split; [done|]. exists (contents b'). split_and!; try done. right. split_and!; [done| |done|by exists c'].
           intros E. rewrite E, zlen_nil in *. lia.
Qed.
End until.

(** * Lifetimes *)

Section lifetimes.
Context `{Allocator} `{SocketLaws}.

(** A connection that can be used and freed: its buffers are there, its user data is
    in a context of its own, and its socket is open unless it has none. *)
Record conn_ok (st : Contexts.store) (n : net) (c : ak_tcp_ctx_t) (p : positive) (cx : ak_context_t)
    (queue : list cstr) : Prop := {
  co_read : is_Some (read_buffer c);
  co_write : is_Some (write_buffer c);
  co_meta : metadata c = Some p;
  co_object : objects st !! p = Some cx;
  co_live : live st p cx queue;
  co_leaf : leaf st p;
  co_root : parent cx = None;
  co_socket : socket_fd c = AK_INVALID_SOCKET ∨ socket_fd c ∈ open_sockets n;
}.

(** The blocks of a connection. *)
Definition conn_blocks (cx : ak_context_t) : Z := 6 + Maps.owned (data cx) + Lists.owned (hoist_queue cx).

Definition new_context : ak_context_t := mk_context None (map_init_generic sizeof_ptr) (list_init sizeof_ptr).

Definition with_context (st : Contexts.store) : Contexts.store :=
  Contexts.mk_store (Pos.succ (next_addr st)) (<[next_addr st := new_context]> (objects st)).

Lemma context_new_ok st s :
  wp (ak_context_new st) (λ '(r, st') s',
    (r = None ∧ st' = st ∧ balance 0 true s s')
    ∨ (r = Some (next_addr st) ∧ st' = with_context st ∧ balance 1 false s s')) s.
Proof.
  unfold ak_context_new. wsteps. apply wp_alloc_obj. intros [|] s' HA; wsteps; [right|left]; (split_and!; [done|done|balance]).
Qed.

Lemma leaf_new st : store_wf st → leaf (with_context st) (next_addr st).
Proof.
  intros Hwf r c Hr. simpl in Hr. apply lookup_insert_Some in Hr as [[<- <-]|[Hne Hr]]; [done|].
  destruct (Hwf _ _ Hr) as [q Hl]. intros Hp. destruct (live_parent _ _ _ _ Hl _ Hp) as [? [c' Hc']].
  by rewrite (fresh_addr st Hwf) in Hc'.
Qed.

Lemma ctx_new_ok st n fd ip port recv_size send_size s :
  store_wf st → fd ∈ open_sockets n → recv_size < 2 ^ 60 → send_size < 2 ^ 60 →
  wp (ak_tcp_ctx_new st fd ip port recv_size send_size) (λ '(oc, st') s', store_wf st' ∧
    ((oc = None ∧ st' = st ∧ balance 0 true s s')
     ∨ ∃ c, oc = Some c ∧ st' = with_context st ∧ balance (conn_blocks new_context) false s s'
        ∧ conn_ok st' n c (next_addr st) new_context [] ∧ socket_fd c = fd ∧ remote_port c = port
        ∧ remote_ip c = match ip with Some ip => take 45 ip | None => [] end
        ∧ alive c = true ∧ detached c = false ∧ ssl c = None ∧ buffered_bytes c = 0)) s.
Proof.
  intros Hwf Hfd Hr Hs. unfold ak_tcp_ctx_new. wsteps. apply wp_alloc_obj. intros [|] s1 HA1; cbn [negb]; cbv iota zeta; wsteps.
  2:{ split; [done|]. left. split_and!; [done|done|balance]. }
  apply wp_buffer_new; [destruct (Z.ltb_spec 0 recv_size); unfold TCP_READ_BUFFER_SIZE; lia| |].
  { intros s2 HB. wsteps. apply wp_free_obj. intros s3 HL HF. wsteps. split; [done|]. left. split_and!; [done|done|balance]. }
  intros d1 s2 HB2 _ _. wsteps.
  apply wp_buffer_new; [destruct (Z.ltb_spec 0 send_size); unfold TCP_WRITE_BUFFER_SIZE; lia| |].
  { intros s3 HB. wsteps. apply wp_buffer_free. intros s4 HB4. wsteps. apply wp_free_obj. intros s5 HL HF. wsteps.
    split; [done|]. left. split_and!; [done|done|balance]. }
  intros d2 s3 HB3 _ _. wsteps. eapply wp_mono; [apply context_new_ok|].
  intros [r st'] s4 [(-> & -> & HB4)|(-> & -> & HB4)]; wsteps.
  - apply wp_buffer_free. intros s5 HB5. wsteps. apply wp_buffer_free. intros s6 HB6. wsteps.
    apply wp_free_obj. intros s7 HL HF. wsteps. split; [done|]. left. split_and!; [done|done|balance].
  - split; [by apply store_wf_new|]. right. eexists. split_and!; try done; [change (conn_blocks new_context) with 6; balance|].
    split; simpl; try done; [apply lookup_insert_eq| |by apply leaf_new|by right].
    split; simpl; [apply empty_map_wf|apply empty_list_wf|lia|done].
Qed.

Lemma ctx_free_ok st n c p cx queue s :
  store_wf st → conn_ok st n c p cx queue →
  wp (ak_tcp_ctx_free st (Some c) n) (λ '(st', n') s', store_wf st'
    ∧ st' = Contexts.mk_store (next_addr st) (delete p (objects st))
    ∧ open_sockets n' = (open_sockets n ∖ {[ socket_fd c ]})
    ∧ balance (- conn_blocks cx) false s s') s.
Proof.
  intros Hwf [[rb Hrb] [wb Hwb] Hm Ho Hl Hleaf Hroot Hsock]. unfold ak_tcp_ctx_free. rewrite Hrb, Hwb, Hm.
  set (n1 := match ssl c with Some _ => _ | None => _ end).
  assert (open_sockets n1 = open_sockets n) as Hn1.
  { unfold n1. destruct (ssl c); [|done]. by rewrite tls_free_law, tls_shutdown_law. }
  clearbody n1. set (n2 := if _ : bool then _ else _).
  assert (open_sockets n2 = (open_sockets n ∖ {[ socket_fd c ]})) as Hn2.
  { unfold n2. destruct (Z.eqb_spec (socket_fd c) AK_INVALID_SOCKET) as [E|E]; simpl.
    - rewrite Hn1. rewrite difference_disjoint_L; [done|].
      rewrite E. apply disjoint_singleton_r, invalid_law.
    - by rewrite close_law, Hn1. }
  clearbody n2. wsteps. apply wp_buffer_free. intros s1 HB1. wsteps. apply wp_buffer_free. intros s2 HB2. wsteps.
  unfold ak_context_free. wsteps. rewrite (deref_ok _ _ _ Ho). wsteps.
  eapply wp_mono; [apply map_deinit_ok, Hl|]. intros ? s3 HB3. cbv beta in HB3. wsteps.
  eapply wp_mono; [apply (list_deinit_ok _ queue), Hl|]. intros _ s4 (_ & _ & HB4). wsteps.
  apply wp_free_obj. intros s5 HL5 HF5. wsteps. apply wp_free_obj. intros s6 HL6 HF6. wsteps.
  split_and!; [by apply store_wf_delete|done|done|]. unfold conn_blocks. balance.
Qed.
End lifetimes.

(** * What calls keep *)

Section keeping.
Context `{Allocator} `{SocketLaws}.

(** A call on a connection leaves its buffers, its user data and the address of its
    peer, and its socket open unless it closes it. *)
Record kept (n : net) (c : ak_tcp_ctx_t) (n' : net) (c' : ak_tcp_ctx_t) : Prop := {
  ke_ip : remote_ip c' = remote_ip c;
  ke_read : read_buffer c' = read_buffer c;
  ke_write : write_buffer c' = write_buffer c;
  ke_meta : metadata c' = metadata c;
  ke_socket : (socket_fd c' = socket_fd c ∧ open_sockets n' = open_sockets n)
    ∨ (socket_fd c' = AK_INVALID_SOCKET ∧ open_sockets n' = (open_sockets n ∖ {[ socket_fd c ]}));
}.

Lemma kept_refl n n' c : open_sockets n' = open_sockets n → kept n c n' c.
Proof. intros E. split; try done. by left. Qed.

Lemma invalid_absent n : (open_sockets n ∖ {[ AK_INVALID_SOCKET ]}) = open_sockets n.
Proof. apply difference_disjoint_L, disjoint_singleton_r, invalid_law. Qed.

Lemma kept_trans n1 c1 n2 c2 n3 c3 : kept n1 c1 n2 c2 → kept n2 c2 n3 c3 → kept n1 c1 n3 c3.
Proof.
  intros [I1 R1 W1 M1 S1] [I2 R2 W2 M2 S2]. split; try congruence.
  destruct S1 as [[E1 O1]|[E1 O1]], S2 as [[E2 O2]|[E2 O2]].
  - left. split; congruence.
  - right. split; congruence.
  - right. split; congruence.
  - right. split; [done|]. rewrite O2, O1, E1. rewrite <- O1 at 1. rewrite invalid_absent. congruence.
Qed.

(** The same, for calls that do not close the socket. *)
Lemma kept_open n n' c c' :
  open_sockets n' = open_sockets n → remote_ip c' = remote_ip c → read_buffer c' = read_buffer c →
  write_buffer c' = write_buffer c → metadata c' = metadata c → socket_fd c' = socket_fd c → kept n c n' c'.
Proof. intros. split; try done. by left. Qed.

Lemma send_open ch data e n r e' n' :
  channel_send ch data e n = (r, e', n') → open_sockets n' = open_sockets n.
Proof. by intros (_ & _ & _ & ?)%send_law. Qed.

Lemma recv_open ch len e n r bytes e' n' :
  channel_recv ch len e n = (r, bytes, e', n') → open_sockets n' = open_sockets n.
Proof. apply recv_open_law. Qed.

Lemma is_alive_kept c n up ctx n' :
  ak_tcp_is_alive (Some c) n = (up, ctx, n') → ∃ c', ctx = Some c' ∧ kept n c n' c'.
Proof.
  unfold ak_tcp_is_alive. destruct (negb (alive c) || _); [intros [= <- <- <-]; exists c; by split; [|apply kept_refl]|].
  destruct (ak_tcp_socket_peer_closed (socket_fd c) n) as [closed n2] eqn:E.
  apply peer_closed_law in E as (_ & _ & Ho). destruct closed; intros [= <- <- <-]; eexists; (split; [done|]);
    by apply kept_open.
Qed.

Lemma close_kept c n ctx n' :
  ak_tcp_close (Some c) n = (ctx, n') → ∃ c', ctx = Some c' ∧ kept n c n' c'.
Proof.
  unfold ak_tcp_close. destruct (alive c); [|intros [= <- <-]; exists c; by split; [|apply kept_refl]].
  set (r := match ssl _ with Some _ => _ | None => _ end).
  assert (∃ c1 n1, r = (c1, n1) ∧ kept n c n1 c1 ∧ socket_fd c1 = socket_fd c ∧ open_sockets n1 = open_sockets n)
    as (c1 & n1 & -> & K1 & F1 & O1).
  { unfold r. simpl. destruct (ssl c); (eexists; eexists; split; [done|]); (split_and!; [apply kept_open; try done|done|]).
    all: try done. all: by rewrite tls_free_law, tls_shutdown_law. }
  destruct (Z.eqb_spec (socket_fd c1) AK_INVALID_SOCKET) as [E|E]; simpl; intros [= <- <-].
  - by exists c1.
  - eexists. split; [done|]. eapply kept_trans; [exact K1|]. split; try done. right. split; [done|].
    by rewrite close_law.
Qed.

Lemma shutdown_kept c n ctx n' :
  ak_tcp_shutdown (Some c) n = (ctx, n') → ∃ c', ctx = Some c' ∧ kept n c n' c'.
Proof.
  unfold ak_tcp_shutdown. destruct (alive c && _); intros [= <- <-]; eexists; (split; [done|]); [|by apply kept_refl].
  apply kept_open; try done. rewrite shutdown_law. destruct (ssl c); [by rewrite tls_shutdown_law|done].
Qed.

Lemma set_timeout_kept c a b n err ctx n' :
  ak_tcp_set_timeout (Some c) a b n = (err, ctx, n') → ∃ c', ctx = Some c' ∧ kept n c n' c'.
Proof.
  unfold ak_tcp_set_timeout. destruct (negb (alive c) || _); [intros [= <- <- <-]; exists c; by split; [|apply kept_refl]|].
  destruct (ak_tcp_socket_set_timeout _ _ _ _ _) as [[rc e] n2] eqn:E. apply set_timeout_law in E.
  destruct (negb (rc =? 0)); intros [= <- <- <-]; eexists; (split; [done|]); by apply kept_open.
Qed.

Lemma send_kept c data error n r ctx e' n' :
  ak_tcp_send (Some c) data error n = Ret (r, ctx, e', n') → ∃ c', ctx = Some c' ∧ kept n c n' c'.
Proof.
  unfold ak_tcp_send. destruct data as [b|]; [|intros [= <- <- <- <-]; exists c; by split; [|apply kept_refl]].
  destruct (negb (alive c)); [intros [= <- <- <- <-]; exists c; by split; [|apply kept_refl]|].
  intros E. revert E. apply (loop_answers (λ st, open_sockets st.2 = open_sockets n)
    (λ '(_, ctx, _, n'), ∃ c', ctx = Some c' ∧ kept n c n' c')); [|done].
  clear r ctx e' n'. intros [[total e1] n1] r Ho. simpl in Ho.
  destruct (total <? b_count b); [|intros [= <-]; exists c; by split; [|apply kept_refl]].
  destruct (bytes_at _ _ _) as [data| |]; simpl; [|done..].
  destruct (channel_send _ _ _ _) as [[k e2] n2] eqn:Es. apply send_open in Es.
  destruct (k <? 0); [|destruct (k =? 0)]; intros [= <-]; simpl; [exists c|eexists|congruence].
  - split; [done|]. apply kept_refl. congruence.
  - split; [done|]. apply kept_open; try done. simpl. congruence.
Qed.

Lemma recv_kept c buffer max_bytes error n :
  0 <= max_bytes →
  answers (ak_tcp_recv (Some c) buffer max_bytes error n) (λ '(_, ctx, _, _, n'), ∃ c', ctx = Some c' ∧ kept n c n' c').
Proof.
  intros Hmax. unfold ak_tcp_recv. destruct buffer as [b|]; [|apply answers_ret; exists c; by split; [|apply kept_refl]].
  destruct (negb (alive c)); [apply answers_ret; exists c; by split; [|apply kept_refl]|]. cbv zeta.
  destruct ((0 <? max_recv_buffer_bytes c) && (max_recv_buffer_bytes c <=? buffered_bytes c)) eqn:Efull.
  { apply answers_ret. exists c. by split; [|apply kept_refl]. }
  destruct (channel_recv _ _ _ _) as [[[r bytes] e'] n'] eqn:Er. apply recv_open in Er.
  destruct (r <? 0); [apply answers_ret; exists c; by split; [|apply kept_refl]|].
  destruct (r =? 0); [apply answers_ret; eexists; by split; [|apply kept_open]|].
  apply answers_seq. intros [rc buf]. destruct (negb (rc =? 0)); apply answers_ret; eexists; by split; [|apply kept_open].
Qed.

(** The connection an answer of [ak_tcp_recv_until] hands back. *)
Definition result_kept (n : net) (c : ak_tcp_ctx_t) (r : recv_result) : Prop :=
  let '(_, ctx, _, n') := r in ∃ c', ctx = Some c' ∧ kept n c n' c'.

Lemma recv_until_step_kept delim max_bytes n c st :
  kept n c st.2 st.1.1.1 →
  answers (recv_until_step delim max_bytes st) (λ r, match r with
    | inl st' => kept n c st'.2 st'.1.1.1
    | inr (inl answer) | inr (inr answer) => result_kept n c answer
    end).
Proof.
  destruct st as [[[c1 b] e] n1]. cbn [fst snd]. intros HK. unfold recv_until_step. cbv beta iota zeta.
  pose proof (is_alive_ok (Some c1) n1) as Hup.
  destruct (ak_tcp_is_alive (Some c1) n1) as [[up ctx] n2] eqn:Ea.
  destruct Hup as (_ & _ & _ & Hyes & _). apply is_alive_kept in Ea as (c2 & -> & K2). pose proof (kept_trans _ _ _ _ _ _ HK K2) as HK2.
  destruct up; cbn [negb]; cbv iota; [|apply answers_ret; by exists c2].
  destruct (Hyes eq_refl) as [[= ->] _]. clear K2 Hyes.
  eapply answers_bind; [apply answers_lift; intros a Ea; exact Ea|]. intros [i|] _; [apply answers_ret; by exists c1|].
  destruct ((0 <? max_bytes) && (max_bytes <=? b_count b)) eqn:Emax.
  { apply answers_seq. intros _. apply answers_ret. by exists c1. }
  destruct (negb (alive c1)); [apply answers_ret; by exists c1|].
  destruct ((0 <? max_recv_buffer_bytes c1) && (max_recv_buffer_bytes c1 <=? buffered_bytes c1)) eqn:Efull.
  { apply answers_seq. intros _. apply answers_ret. by exists c1. }
  destruct (channel_recv _ _ _ _) as [[[r bytes] e'] n3] eqn:Er. apply recv_open in Er.
  assert (kept n c n3 c1) as HK3 by (eapply kept_trans; [exact HK2|by apply kept_refl]).
  destruct (r <? 0); [apply answers_seq; intros _; apply answers_ret; by exists c1|].
  destruct (r =? 0).
  { apply answers_ret. eexists. split; [done|]. eapply kept_trans; [exact HK3|by apply kept_open]. }
  apply answers_seq. intros [rc [b'|]]; [|by apply answers_lift].
  destruct (negb (rc =? 0)); [apply answers_seq; intros _; apply answers_ret; by exists c1|].
  apply answers_ret. simpl. eapply kept_trans; [exact HK3|by apply kept_open].
Qed.

Lemma recv_until_kept turns c delim max_bytes error n :
  answers (ak_tcp_recv_until turns (Some c) delim max_bytes error n) (result_kept n c).
Proof.
  unfold ak_tcp_recv_until. destruct delim as [delim|]; [|apply answers_ret; exists c; by split; [|apply kept_refl]].
  destruct (zlen delim =? 0); [apply answers_ret; exists c; by split; [|apply kept_refl]|].
  apply answers_seq. intros [b|]; [|apply answers_ret; exists c; by split; [|apply kept_refl]].
  eapply answers_bind; [apply (answers_loop (λ st, kept n c st.2 st.1.1.1) (λ r, match r with
    inl answer | inr answer => result_kept n c answer end))|].
  - intros st HK. eapply answers_mono; [by apply (recv_until_step_kept _ _ n c)|]. by intros [?|[?|?]].
  - by apply kept_refl.
  - intros [answer|[[[buf ctx] e'] n']] Hr; [by apply answers_ret|].
    destruct (ak_buffer_count buf =? 0); [apply answers_seq; intros _|]; by apply answers_ret.
Qed.
End keeping.

(** * Calls on a connection *)

Section calls.
Context `{Allocator} `{SocketLaws}.

(** The contexts, the network and a connection. *)
Definition conn_state : Type := Contexts.store * net * ak_tcp_ctx_t.

(** A call that a handler makes on its connection and that returns; its table of
    user data is not full. *)
Inductive conn_op : conn_state → conn_state → Prop :=
| op_send st n c data e r e' n' c' :
    ak_tcp_send (Some c) data e n = Ret (r, Some c', e', n') → conn_op (st, n, c) (st, n', c')
| op_recv st n c buffer max_bytes e m r buffer' e' n' c' m' :
    0 <= max_bytes → ak_tcp_recv (Some c) buffer max_bytes e n m = Ret (r, Some c', buffer', e', n', m') →
    conn_op (st, n, c) (st, n', c')
| op_recv_until st n c turns delim max_bytes e m buf e' n' c' m' :
    ak_tcp_recv_until turns (Some c) delim max_bytes e n m = Ret (buf, Some c', e', n', m') →
    conn_op (st, n, c) (st, n', c')
| op_is_alive st n c up n' c' : ak_tcp_is_alive (Some c) n = (up, Some c', n') → conn_op (st, n, c) (st, n', c')
| op_close st n c n' c' : ak_tcp_close (Some c) n = (Some c', n') → conn_op (st, n, c) (st, n', c')
| op_shutdown st n c n' c' : ak_tcp_shutdown (Some c) n = (Some c', n') → conn_op (st, n, c) (st, n', c')
| op_detach st n c c' : ak_tcp_ctx_detach (Some c) = Some c' → conn_op (st, n, c) (st, n, c')
| op_consume st n c bytes c' : ak_tcp_consume_bytes (Some c) bytes = Some c' → conn_op (st, n, c) (st, n, c')
| op_set_timeout st n c a b err n' c' :
    ak_tcp_set_timeout (Some c) a b n = (err, Some c', n') → conn_op (st, n, c) (st, n', c')
| op_set_keepalive st n c a b d err n' :
    ak_tcp_set_keepalive (Some c) a b d n = (err, n') → conn_op (st, n, c) (st, n', c)
| op_set_meta st n c key v m st' m' :
    (∀ p cx, metadata c = Some p → objects st !! p = Some cx → nnodes (data cx) < 2 ^ 30) →
    ak_tcp_set_meta st (Some c) key v m = Ret (st', m') → conn_op (st, n, c) (st', n, c).

Lemma keepalive_open c a b d n err n' :
  ak_tcp_set_keepalive (Some c) a b d n = (err, n') → open_sockets n' = open_sockets n.
Proof.
  unfold ak_tcp_set_keepalive. destruct (negb (alive c) || _); [by intros [= <- <-]|].
  destruct (ak_tcp_socket_set_keepalive _ _ _ _ _ _) as [[rc e] n2] eqn:E. apply set_keepalive_law in E.
  destruct (negb (rc =? 0)); by intros [= <- <-].
Qed.

Lemma set_meta_ok st n c key v p cx queue m :
  conn_ok st n c p cx queue → nnodes (data cx) < 2 ^ 30 →
  wp (ak_tcp_set_meta st (Some c) (Some key) v) (λ st' _,
    ∃ d, map_wf d ∧ st' = update st p (mk_context (parent cx) d (hoist_queue cx))) m.
Proof.
  intros [_ _ M O L _ _ _] Hsmall. unfold ak_tcp_set_meta. rewrite M. simpl. wsteps. rewrite (deref_ok _ _ _ O). wsteps.
  eapply wp_mono; [apply map_set_ok; [apply L|done]|]. intros [rc d] s' [Hd _]. wsteps. by exists d.
Qed.

Lemma update_context_ok st n c p cx queue d :
  store_wf st → conn_ok st n c p cx queue → map_wf d → let cx' := mk_context (parent cx) d (hoist_queue cx) in
  store_wf (update st p cx') ∧ conn_ok (update st p cx') n c p cx' queue.
Proof.
  intros Hwf [R W M O L F P S] Hd cx'.
  assert (live st p cx' queue) as L' by (destruct L; by split).
  split; [by eapply store_wf_update|]. split; try done; [apply lookup_insert_eq|by apply live_update|].
  intros r c' Hr. simpl in Hr. apply lookup_insert_Some in Hr as [[<- <-]|[_ Hr]]; [exact (F p cx O)|by apply (F r)].
Qed.

(** What the kept parts are enough for. *)
Lemma kept_ok st n c n' c' p cx queue :
  conn_ok st n c p cx queue → kept n c n' c' → conn_ok st n' c' p cx queue.
Proof.
  intros [R W M O L F P S] [Ki Kr Kw Km Ks]. split; try done; [by rewrite Kr|by rewrite Kw|congruence|].
  destruct Ks as [[E Ho]|[E Ho]]; [|by left]. rewrite E, Ho. done.
Qed.

Lemma conn_op_ok st n c st' n' c' p cx queue :
  conn_op (st, n, c) (st', n', c') → store_wf st → conn_ok st n c p cx queue →
  store_wf st' ∧ kept n c n' c' ∧ next_addr st' = next_addr st
  ∧ ∃ cx', conn_ok st' n' c' p cx' queue ∧ objects st' = <[p := cx']> (objects st).
Proof.
  intros Hop Hwf Hok. pose proof (co_object _ _ _ _ _ _ Hok) as Ho.
  assert (∀ n1 c1, kept n c n1 c1 → store_wf st ∧ kept n c n1 c1 ∧ next_addr st = next_addr st
    ∧ ∃ cx', conn_ok st n1 c1 p cx' queue ∧ objects st = <[p := cx']> (objects st)) as Hkeep.
  { intros n1 c1 HK. split_and!; [done|done|done|]. exists cx. split; [by eapply kept_ok|]. by rewrite insert_id. }
  inversion Hop; subst; clear Hop.
  - apply Hkeep. by match goal with E : _ = Ret _ |- _ => apply send_kept in E as (? & [= <-] & ?) end.
  - apply Hkeep. match goal with E : _ = Ret _ |- _ => apply recv_kept in E as (? & [= <-] & ?); done end.
  - apply Hkeep. match goal with E : _ = Ret _ |- _ => apply recv_until_kept in E as (? & [= <-] & ?); done end.
  - apply Hkeep. by match goal with E : ak_tcp_is_alive _ _ = _ |- _ => apply is_alive_kept in E as (? & [= <-] & ?) end.
  - apply Hkeep. by match goal with E : ak_tcp_close _ _ = _ |- _ => apply close_kept in E as (? & [= <-] & ?) end.
  - apply Hkeep. by match goal with E : ak_tcp_shutdown _ _ = _ |- _ => apply shutdown_kept in E as (? & [= <-] & ?) end.
  - apply Hkeep. simplify_eq/=. by apply kept_open.
  - apply Hkeep. simplify_eq/=. by apply kept_open.
  - apply Hkeep. by match goal with E : ak_tcp_set_timeout _ _ _ _ = _ |- _ => apply set_timeout_kept in E as (? & [= <-] & ?) end.
  - apply Hkeep. apply kept_refl. by eapply keepalive_open.
  - match goal with E : ak_tcp_set_meta _ _ ?key _ _ = _ |- _ => rename E into Em; destruct key as [key|] end.
    2:{ injection Em as <- <-. apply Hkeep. by apply kept_refl. }
    assert (nnodes (data cx) < 2 ^ 30) as Hsmall.
    { match goal with Hs : ∀ p cx, metadata _ = Some p → _ |- _ => apply (Hs p cx) end; apply Hok. }
    match goal with E : ak_tcp_set_meta _ _ _ ?v ?m = _ |- _ =>
      pose proof (set_meta_ok st n' c' key v p cx queue m Hok Hsmall) as Hset end.
    unfold wp in Hset. rewrite Em in Hset. destruct Hset as (d & Hd & ->).
    destruct (update_context_ok st n' c' p cx queue d Hwf Hok Hd) as [Hwf' Hok'].
    split_and!; [done|by apply kept_refl|done|]. by eexists.
Qed.

Lemma conn_ops_ok st n c st' n' c' p cx queue :
  rtc conn_op (st, n, c) (st', n', c') → store_wf st → conn_ok st n c p cx queue →
  store_wf st' ∧ kept n c n' c' ∧ next_addr st' = next_addr st
  ∧ ∃ cx', conn_ok st' n' c' p cx' queue ∧ objects st' = <[p := cx']> (objects st).
Proof.
  intros Hops. remember (st, n, c) as a eqn:Ea. remember (st', n', c') as b eqn:Eb. revert st n c cx Ea Eb.
  induction Hops as [a|a [[st1 n1] c1] b Hop _ IH]; intros st n c cx -> Eb Hwf Hok.
  - simplify_eq. split_and!; [done|by apply kept_refl|done|]. exists cx. split; [done|]. rewrite insert_id; [done|apply Hok].
  - destruct (conn_op_ok _ _ _ _ _ _ _ _ _ Hop Hwf Hok) as (Hwf1 & K1 & A1 & cx1 & Hok1 & O1).
    destruct (IH st1 n1 c1 cx1 eq_refl Eb Hwf1 Hok1) as (Hwf2 & K2 & A2 & cx2 & Hok2 & O2).
    split_and!; [done|by eapply kept_trans|congruence|]. exists cx2. split; [done|]. rewrite O2, O1. by rewrite insert_insert_eq.
Qed.
End calls.

(** * The theorems *)

Section theorems.
Context `{Allocator} `{SocketLaws}.

(** Sending.  [ak_tcp_send] answers the size of the data and has then sent
    exactly the data, however small the pieces the network takes; or it answers -1,
    a beginning of the data has been sent, and at most the connection is marked as
    closed.  It ends. *)
Theorem ak_tcp_send_spec c b error n :
  buffer_wf b → alive c = true →
  wpo (ak_tcp_send (Some c) (Some b) error n) (λ '(r, ctx, _, n'), ∃ sent,
    0 <= sent <= b_count b
    ∧ delivered n' (channel_of c) = delivered n (channel_of c) ++ take (Z.to_nat sent) (contents b)
    ∧ arriving n' (channel_of c) = arriving n (channel_of c) ∧ open_sockets n' = open_sockets n
    ∧ ((r = b_count b ∧ sent = b_count b ∧ ctx = Some c)
       ∨ (r = -1 ∧ sent < b_count b ∧ (ctx = Some c ∨ ctx = Some (with_alive c false))))).
Proof. apply send_loop_ok. Qed.

(** Receiving.  [ak_tcp_recv] appends the next bytes of the peer to the buffer,
    no more than asked for, than a chunk, and than the limit of the connection leaves
    room for; it answers -2 and does nothing when the limit is reached, 0 when the
    peer has closed, and -1 when the network fails or the buffer cannot grow; in
    that last case the bytes are lost.  Asked for no bytes it takes the connection
    for closed, whatever is still to come. *)
Theorem ak_tcp_recv_spec c b max_bytes error n s :
  alive c = true → buffer_wf b → 0 <= max_bytes → b_count b < 2 ^ 60 →
  0 <= buffered_bytes c < 2 ^ 60 → 0 <= max_recv_buffer_bytes c →
  wp (ak_tcp_recv (Some c) (Some b) max_bytes error n) (λ '(r, ctx, buf, _, n') s',
    open_sockets n' = open_sockets n ∧
    ((r = -2 ∧ 0 < max_recv_buffer_bytes c <= buffered_bytes c ∧ n' = n ∧ ctx = Some c ∧ buf = Some b ∧ s' = s)
     ∨ (r = -1 ∧ ctx = Some c ∧ buf = Some b
        ∧ ((s' = s ∧ arriving n' (channel_of c) = arriving n (channel_of c)) ∨ balance 0 true s s'))
     ∨ (r = 0 ∧ ctx = Some (with_alive c false) ∧ buf = Some b ∧ s' = s
        ∧ arriving n' (channel_of c) = arriving n (channel_of c)
        ∧ (0 < max_bytes → arriving n (channel_of c) = []))
     ∨ (0 < r <= Z.min max_bytes TCP_RECV_CHUNK_SIZE ∧ ctx = Some (with_buffered c (buffered_bytes c + r))
        ∧ (0 < max_recv_buffer_bytes c → buffered_bytes c + r <= max_recv_buffer_bytes c)
        ∧ balance 0 false s s' ∧ ∃ bytes b', zlen bytes = r
        ∧ arriving n (channel_of c) = bytes ++ arriving n' (channel_of c)
        ∧ buf = Some b' ∧ buffer_wf b' ∧ contents b' = contents b ++ bytes))) s.
Proof. apply recv_ok. Qed.

(** C12: Receiving up to a delimiter that is not empty, from a connection that is alive and
    has less than 2^60 bytes to come.  [ak_tcp_recv_until] ends within as many turns
    as bytes are to come, and one.  The buffer it answers holds the bytes received up
    to the first occurrence of the delimiter, and what was received after it is in
    no buffer; or, when the connection went down, all the bytes received, in which the
    delimiter does not occur, but perhaps in the last piece, of at most 1024 bytes,
    which is not searched when the connection is found down after it.  It never
    receives more than its maximum or than the limit of the connection.  An answer of
    null keeps no block, and is only given when the delimiter does not occur in what was
    received or an allocation failed. *)
Theorem ak_tcp_recv_until_spec turns c delim max_bytes error n s :
  alive c = true → socket_fd c ≠ AK_INVALID_SOCKET → 0 < zlen delim → 0 <= max_bytes →
  (length (arriving n (channel_of c)) < turns)%nat → zlen (arriving n (channel_of c)) < 2 ^ 60 →
  0 <= buffered_bytes c < 2 ^ 60 → 0 <= max_recv_buffer_bytes c →
  wp (ak_tcp_recv_until turns (Some c) (Some delim) max_bytes error n) (λ '(buf, ctx, _, n') s',
    open_sockets n' = open_sockets n ∧ ∃ got, arriving n (channel_of c) = got ++ arriving n' (channel_of c)
    ∧ (0 < max_bytes → zlen got <= max_bytes)
    ∧ (0 < max_recv_buffer_bytes c → got = [] ∨ buffered_bytes c + zlen got <= max_recv_buffer_bytes c)
    ∧ match buf with
      | None => m_live s' = m_live s ∧ ((m_fails s < m_fails s')%nat ∨ ∀ j, ¬ occurs_at delim got j)
      | Some b => buffer_wf b ∧ balance 2 false s s' ∧
          ((∃ i, occurs_at delim got i ∧ (∀ j, j < i → ¬ occurs_at delim got j)
              ∧ contents b = take (Z.to_nat (i + zlen delim)) got)
           ∨ (contents b = got ∧ got ≠ [] ∧ searched delim got ∧ ∃ c', ctx = Some c' ∧ alive c' = false))
      end) s.
Proof. intros. eapply wp_mono; [by apply recv_until_ok|]. by intros [[[buf ctx] e'] n'] s'. Qed.

(** C13: The life of a connection.  From [ak_tcp_ctx_new] through any calls on it to
    [ak_tcp_ctx_free], a connection keeps its buffers and its user data usable; its
    socket is closed once, by a call or at the end, and no other socket is; the
    context of its user data is released and no other is touched. *)
Theorem ak_tcp_ctx_lifetime_spec st n fd ip port recv_size send_size s :
  store_wf st → fd ∈ open_sockets n → recv_size < 2 ^ 60 → send_size < 2 ^ 60 →
  wp (ak_tcp_ctx_new st fd ip port recv_size send_size) (λ '(oc, st1) s1, match oc with
    | None => st1 = st ∧ balance 0 true s s1
    | Some c => balance 6 false s s1 ∧ alive c = true ∧ socket_fd c = fd
        ∧ ∀ st2 n2 c2 m, rtc conn_op (st1, n, c) (st2, n2, c2) →
          (fd ∈ open_sockets n2 ↔ socket_fd c2 = fd)
          ∧ wp (ak_tcp_ctx_free st2 (Some c2) n2) (λ '(st3, n3) m3, store_wf st3
              ∧ open_sockets n3 = (open_sockets n ∖ {[ fd ]}) ∧ objects st3 = objects st
              ∧ m_live m3 <= m_live m - 6 ∧ m_fails m3 = m_fails m) m
    end) s.
Proof.
  intros Hwf Hfd Hr Hs. eapply wp_mono; [by apply (ctx_new_ok st n fd ip port)|].
  intros [oc st1] s1 [Hwf1 [(-> & -> & HB)|(c & -> & -> & HB & Hok & Hsock & _ & _ & Hal & _)]]; [done|].
  split_and!; [done|done|done|]. intros st2 n2 c2 m Hops.
  destruct (conn_ops_ok _ _ _ _ _ _ _ _ _ Hops Hwf1 Hok) as (Hwf2 & K & A2 & cx2 & Hok2 & O2). split.
  - destruct K as [_ _ _ _ [[E Ho]|[E Ho]]]; rewrite Ho, E, Hsock; [done|]. rewrite elem_of_difference, elem_of_singleton.
    split; [by intros [_ []]|]. intros E2. by rewrite <- E2 in Hfd; apply invalid_law in Hfd.
  - eapply wp_mono; [by eapply (ctx_free_ok st2 n2 c2)|]. intros [st3 n3] m3 (Hwf3 & -> & Ho3 & [HL HF]).
    split_and!; [done| | | |done].
    + rewrite Ho3. destruct K as [_ _ _ _ [[E Ho]|[E Ho]]]; rewrite Ho, E, ?Hsock; [done|].
      by rewrite <- Hsock, <- Ho, invalid_absent.
    + simpl. rewrite O2. simpl. rewrite insert_insert_eq. apply delete_insert_id. by apply fresh_addr.
    + rewrite HL. unfold conn_blocks. destruct Hok2 as [_ _ _ _ [Ld Lq _ _] _ _ _].
      assert (0 <= Maps.owned (data cx2)) as Hd.
      { unfold Maps.owned. rewrite nnodes_size by done. destruct (buckets (data cx2)); lia. }
      assert (0 <= Lists.owned (hoist_queue cx2)) as Hq.
      { unfold Lists.owned. pose proof (list_wf_count _ _ Lq). destruct (items (hoist_queue cx2)); lia. }
      lia.
Qed.
End theorems.

(** * Witnesses *)

Section witnesses.
#[local] Existing Instances always_alloc toy_sockets toy_laws.

(** A connection whose peer sends two lines. *)
Definition w_conn : ak_tcp_ctx_t := mk_ctx 1 [] 80 None None true None 0 0 0 0 false None.
Definition w_net : @net toy_sockets := mk_toy (bytes_of "one two"%str ++ [10] ++ bytes_of "x"%str) [] [1] [].
Definition w_buffer : ak_buffer_t := mk_buffer (bytes_of "hello"%str ++ replicate 11 0) 16 5 0.

Lemma w_buffer_wf : buffer_wf w_buffer.
Proof.
  split; [done|simpl; lia|simpl; lia|by repeat constructor|unfold is_size; simpl; lia].
Qed.

(** The line is answered, and the byte after it is gone. *)
Example rest_of_chunk_lost :
  match ak_tcp_recv_until 20 (Some w_conn) (Some [10]) 0 None w_net mem0 with
  | Ret (Some b, _, _, n', _) => contents b = bytes_of "one two"%str ++ [10] ∧ incoming n' = []
  | _ => False
  end.
Proof. vm_compute. done. Qed.

(** Asked for no bytes, the connection is taken for closed. *)
Example recv_nothing_closes :
  match ak_tcp_recv (Some w_conn) (Some w_buffer) 0 None w_net mem0 with
  | Ret (r, Some c, _, _, n', _) => r = 0 ∧ alive c = false ∧ incoming n' = incoming w_net
  | _ => False
  end.
Proof. vm_compute. done. Qed.

Lemma ak_tcp_send_spec_witness :
  wpo (ak_tcp_send (Some w_conn) (Some w_buffer) None w_net) (λ '(r, _, _, n'),
    r = 5 → outgoing n' = bytes_of "hello"%str).
Proof.
  eapply wpo_mono; [apply (ak_tcp_send_spec w_conn w_buffer None w_net w_buffer_wf); reflexivity|].
  intros [[[r ctx] e] n'] (sent & Hs & Hd & _ & _ & [(_ & -> & _)|(-> & _)]) Hr; [|lia]. exact Hd.
Defined.

Lemma ak_tcp_recv_spec_witness :
  wp (ak_tcp_recv (Some w_conn) (Some w_buffer) 2 None w_net) (λ '(r, _, _, _, _) _, r <= 2) mem0.
Proof.
  eapply wp_mono; [apply (ak_tcp_recv_spec w_conn w_buffer 2 None w_net mem0); [reflexivity|apply w_buffer_wf|lia|simpl; lia|simpl; lia|simpl; lia]|].
  intros [[[[r ctx] buf] e] n'] s' (_ & [(-> & _)|[(-> & _)|[(-> & _)|(Hr & _)]]]); lia.
Defined.

(** As [toy_sockets], but the peer closes when it has sent everything. *)
Definition closing_sockets : Sockets := {|
  net := toy;
  ak_tcp_socket_create_for_addr := @ak_tcp_socket_create_for_addr toy_sockets;
  ak_tcp_socket_bind := @ak_tcp_socket_bind toy_sockets;
  ak_tcp_socket_listen := @ak_tcp_socket_listen toy_sockets;
  ak_tcp_socket_accept := @ak_tcp_socket_accept toy_sockets;
  ak_tcp_socket_poll_read := @ak_tcp_socket_poll_read toy_sockets;
  ak_tcp_socket_send := λ _, toy_send;
  ak_tcp_socket_recv := λ _, toy_recv;
  ak_tcp_socket_close := @ak_tcp_socket_close toy_sockets;
  ak_tcp_socket_shutdown := λ _ n, n;
  ak_tcp_socket_peer_closed := λ _ n, (bool_decide (incoming n = []), n);
  ak_tcp_socket_set_timeout := λ _ _ _ e n, (0, e, n);
  ak_tcp_socket_set_keepalive := λ _ _ _ _ e n, (0, e, n);
  ak_tcp_socket_set_linger := λ _ _ _ e n, (0, e, n);
  ak_tcp_socket_set_buffers := λ _ _ _ e n, (0, e, n);
  ak_tcp_tls_ctx_new := λ _ _ _ _ _ _ e n, (None, e, n);
  ak_tcp_tls_ctx_free := λ _ n, n;
  ak_tcp_tls_accept := λ _ _ e n, (None, e, n);
  ak_tcp_tls_send := λ _, toy_send;
  ak_tcp_tls_recv := λ _, toy_recv;
  ak_tcp_tls_shutdown := λ _ n, n;
  ak_tcp_tls_free := λ _ n, n;
|}.

(** A line that comes in one piece with what follows it, before the peer closes, is not
    looked for: the answer has both. *)
Theorem ak_tcp_recv_until_unsearched :
  match @ak_tcp_recv_until always_alloc closing_sockets 20 (Some w_conn) (Some [10]) 0 None
          (mk_toy (bytes_of "one two"%str ++ [10] ++ bytes_of "x"%str) [] [1] []) mem0 with
  | Ret (Some b, _, _, _, _) => contents b = bytes_of "one two"%str ++ [10] ++ bytes_of "x"%str
  | _ => False
  end.
Proof. vm_compute. reflexivity. Qed.

Lemma ak_tcp_recv_until_spec_witness :
  wp (ak_tcp_recv_until 20 (Some w_conn) (Some [10]) 4 None w_net) (λ '(buf, _, _, _) s',
    buf = None → m_live s' = 0) mem0.
Proof.
  eapply wp_mono.
  { apply (ak_tcp_recv_until_spec 20 w_conn [10] 4 None w_net mem0);
      [reflexivity|done|done|lia|vm_compute; lia|vm_compute; done|simpl; lia|simpl; lia]. }
  intros [[[buf ctx] e] n'] s' (_ & got & _ & _ & _ & Hb) ->. apply Hb.
Defined.

Definition w_contexts : Contexts.store := Contexts.mk_store 1 ∅.

Lemma ak_tcp_ctx_lifetime_spec_witness :
  wp (ak_tcp_ctx_new w_contexts 1 None 80 0 0) (λ '(oc, st1) _, ∀ c, oc = Some c →
    wp (ak_tcp_ctx_free st1 (Some c) w_net) (λ '(_, n3) _, open_sockets n3 = ∅) mem0) mem0.
Proof.
  eapply wp_mono.
  { apply (ak_tcp_ctx_lifetime_spec w_contexts w_net 1 None 80 0 0 mem0); [|vm_compute; done|lia|lia].
    intros p c Hc. simpl in Hc. by rewrite lookup_empty in Hc. }
  intros [oc st1] s1 Hl c ->. destruct Hl as (_ & _ & _ & Hall).
  destruct (Hall st1 w_net c mem0) as [_ Hf]; [apply rtc_refl|].
  eapply wp_mono; [exact Hf|]. intros [st3 n3] m3 (_ & -> & _). vm_compute. reflexivity.
Defined.
End witnesses.
