(* ===== verification/Server.v ===== *)
(** The server: the part of [kernel/tcp/src/tcp.c] that accepts connections.

    This file has the server's record, the functions that make, start and free it,
    and its critical sections, one function each; [Serving] has the threads that
    run them.  The fields that are copied from the configuration stay together, as
    the configuration with its defaults filled in.  The build has TLS. *)

From Stdlib Require String.
From stdpp Require Import gmap.
From S2P Require Import Prelude Lambdas Threads Buffer Lists Maps Contexts Sockets Connections.
Import Stdlib.Strings.String.StringSyntax.
#[local] Delimit Scope string_scope with str.

Definition TCP_DEFAULT_KEEPALIVE_IDLE : Z := 60.
Definition TCP_DEFAULT_KEEPALIVE_INTERVAL : Z := 10.
Definition TCP_DEFAULT_KEEPALIVE_COUNT : Z := 5.

Record ak_tcp_server_config_t := mk_server_config {
  bind_addr : option (list Z);
  port : Z;
  thread_pool_size : Z;
  backlog : Z;
  on_connect : option positive;
  on_handle : option positive;
  on_disconnect : option positive;
  max_connections : Z;
  max_pending_tasks : Z;
  max_recv_bytes : Z;
  max_connections_per_ip : Z;
  connection_rate_limit : Z;
  default_recv_timeout_ms : Z;
  default_send_timeout_ms : Z;
  shutdown_drain_timeout_ms : Z;
  enable_linger : bool;
  linger_timeout_sec : Z;
  enable_keepalive : bool;
  keepalive_idle_sec : Z;
  keepalive_interval_sec : Z;
  keepalive_count : Z;
  recv_buffer_size : Z;
  send_buffer_size : Z;
  socket_recv_buffer : Z;
  socket_send_buffer : Z;
  cfg_use_tls : bool;
  cert_file : option (list Z);
  key_file : option (list Z);
  ca_file : option (list Z);
  verify_client : bool;
  tls_ciphers : option (list Z);
  tls_min_version : Z;
}.

Definition ak_tcp_server_config_default : ak_tcp_server_config_t :=
  mk_server_config None 0 4 128 None None None 0 0 0 0 0 0 0 0 false 0 false
    TCP_DEFAULT_KEEPALIVE_IDLE TCP_DEFAULT_KEEPALIVE_INTERVAL TCP_DEFAULT_KEEPALIVE_COUNT
    TCP_READ_BUFFER_SIZE TCP_WRITE_BUFFER_SIZE 0 0 false None None None false None 0.

Record ak_tcp_ip_tracker_t := mk_tracker {
  ip : list Z;
  active_count : Z;
  last_connect_time : Z;
  connects_this_second : Z;
}.

(** The counters of the statistics. *)
Record counters := mk_counters {
  connections_accepted : Z;
  connections_rejected_limit : Z;
  connections_rejected_queue : Z;
  connections_rejected_rate : Z;
  connections_rejected_ip_limit : Z;
  total_bytes_received : Z;
  total_bytes_sent : Z;
}.

(** The list of trackers, newest first. *)
Record ak_tcp_server_internal_t := mk_server {
  settings : ak_tcp_server_config_t;
  listen_fd : Z;
  running : bool;
  draining : bool;
  active_connections : Z;
  ip_trackers : list ak_tcp_ip_tracker_t;
  stats : counters;
  ssl_ctx : option positive;
}.

Definition sizeof_ak_tcp_server_t : Z := 8.
Definition sizeof_ak_tcp_server_internal_t : Z := 464.
Definition sizeof_ak_tcp_ip_tracker_t : Z := 80.
Definition sizeof_ak_tcp_worker_task_t : Z := 16.

Definition with_listen (s : ak_tcp_server_internal_t) (fd : Z) : ak_tcp_server_internal_t :=
  mk_server (settings s) fd (running s) (draining s) (active_connections s) (ip_trackers s) (stats s) (ssl_ctx s).

Definition with_running (s : ak_tcp_server_internal_t) (r d : bool) : ak_tcp_server_internal_t :=
  mk_server (settings s) (listen_fd s) r d (active_connections s) (ip_trackers s) (stats s) (ssl_ctx s).

Definition with_count (s : ak_tcp_server_internal_t) (n : Z) (c : counters) : ak_tcp_server_internal_t :=
  mk_server (settings s) (listen_fd s) (running s) (draining s) n (ip_trackers s) c (ssl_ctx s).

Definition with_trackers (s : ak_tcp_server_internal_t) (l : list ak_tcp_ip_tracker_t) : ak_tcp_server_internal_t :=
  mk_server (settings s) (listen_fd s) (running s) (draining s) (active_connections s) l (stats s) (ssl_ctx s).

(** * The trackers *)

(** The position of the tracker of an address. *)
Fixpoint ip_tracker_find (trackers : list ak_tcp_ip_tracker_t) (addr : list Z) : option nat :=
  match trackers with
  | [] => None
  | t :: ts => if strcmp (ip t) addr =? 0 then Some O else S <$> ip_tracker_find ts addr
  end.

Definition set_active (t : ak_tcp_ip_tracker_t) (n : Z) : ak_tcp_ip_tracker_t :=
  mk_tracker (ip t) n (last_connect_time t) (connects_this_second t).

Definition ip_tracker_decrement (s : ak_tcp_server_internal_t) (addr : list Z) : ak_tcp_server_internal_t :=
  match ip_tracker_find (ip_trackers s) addr with
  | None => s
  | Some i => with_trackers s (alter (λ t, if 0 <? active_count t then set_active t (active_count t - 1) else t) i
                                 (ip_trackers s))
  end.

(** What the tracker of an address says to one more connection from it: whether
    the address has too many, whether it comes too often, and the tracker. *)
Definition track_connection (cfg : ak_tcp_server_config_t) (now : Z) (t : ak_tcp_ip_tracker_t)
    : bool * bool * ak_tcp_ip_tracker_t :=
  let ip_limited := (0 <? max_connections_per_ip cfg) && (max_connections_per_ip cfg <=? active_count t) in
  let '(rate_limited, t) :=
    if negb ip_limited && (0 <? connection_rate_limit cfg) then
      if last_connect_time t =? now then
        if connection_rate_limit cfg <=? connects_this_second t then (true, t)
        else (false, mk_tracker (ip t) (active_count t) (last_connect_time t) (u64 (connects_this_second t + 1)))
      else (false, mk_tracker (ip t) (active_count t) now 1)
    else (false, t) in
  let t := if negb ip_limited && negb rate_limited then set_active t (u64 (active_count t + 1)) else t in
  (ip_limited, rate_limited, t).

Section trackers.
Context `{Allocator}.

Definition ip_tracker_get_or_create (s : ak_tcp_server_internal_t) (addr : list Z)
    : M (option nat * ak_tcp_server_internal_t) :=
  match ip_tracker_find (ip_trackers s) addr with
  | Some i => mret (Some i, s)
  | None =>
      ok ← alloc_obj sizeof_ak_tcp_ip_tracker_t;
      if negb ok then mret (None, s) else
      mret (Some O, with_trackers s (mk_tracker (take 45 addr) 0 0 0 :: ip_trackers s))
  end.

(** The section of [accept_loop] under the mutex of the trackers, when a limit
    needs them: whether the address has too many connections, whether it comes too
    often.  Without memory for a tracker it is let in. *)
Definition track_ip (s : ak_tcp_server_internal_t) (addr : list Z) (now : Z)
    : M (bool * bool * ak_tcp_server_internal_t) :=
  let cfg := settings s in
  if (0 <? max_connections_per_ip cfg) || (0 <? connection_rate_limit cfg) then
    '(tracker, s) ← ip_tracker_get_or_create s addr;
    match tracker with
    | None => mret (false, false, s)
    | Some i =>
        t ← lift (rd (ip_trackers s) (Z.of_nat i));
        let '(ip_limited, rate_limited, t) := track_connection cfg now t in
        mret (ip_limited, rate_limited, with_trackers s (<[i := t]> (ip_trackers s)))
    end
  else mret (false, false, s).

Fixpoint ip_trackers_free (trackers : list ak_tcp_ip_tracker_t) : M () :=
  match trackers with
  | [] => mret ()
  | _ :: ts => _ ← free_obj; ip_trackers_free ts
  end.
End trackers.

(** * Critical sections under the mutex of the server *)

(** Whether the server is full; a connection it refuses is counted. *)
Definition check_limit (s : ak_tcp_server_internal_t) : bool * ak_tcp_server_internal_t :=
  let limit_reached := (0 <? max_connections (settings s)) && (max_connections (settings s) <=? active_connections s) in
  let c := stats s in
  (limit_reached,
   if limit_reached then
     with_count s (active_connections s)
       (mk_counters (connections_accepted c) (u64 (connections_rejected_limit c + 1)) (connections_rejected_queue c)
          (connections_rejected_rate c) (connections_rejected_ip_limit c) (total_bytes_received c) (total_bytes_sent c))
   else s).

Definition count_ip_limited (s : ak_tcp_server_internal_t) : ak_tcp_server_internal_t :=
  let c := stats s in
  with_count s (active_connections s)
    (mk_counters (connections_accepted c) (connections_rejected_limit c) (connections_rejected_queue c)
       (connections_rejected_rate c) (u64 (connections_rejected_ip_limit c + 1)) (total_bytes_received c) (total_bytes_sent c)).

Definition count_rate_limited (s : ak_tcp_server_internal_t) : ak_tcp_server_internal_t :=
  let c := stats s in
  with_count s (active_connections s)
    (mk_counters (connections_accepted c) (connections_rejected_limit c) (connections_rejected_queue c)
       (u64 (connections_rejected_rate c + 1)) (connections_rejected_ip_limit c) (total_bytes_received c) (total_bytes_sent c)).

Definition count_accepted (s : ak_tcp_server_internal_t) : ak_tcp_server_internal_t :=
  let c := stats s in
  with_count s (u64 (active_connections s + 1))
    (mk_counters (u64 (connections_accepted c + 1)) (connections_rejected_limit c) (connections_rejected_queue c)
       (connections_rejected_rate c) (connections_rejected_ip_limit c) (total_bytes_received c) (total_bytes_sent c)).

(** [if (server->active_connections > 0) server->active_connections--] *)
Definition one_less (s : ak_tcp_server_internal_t) : Z :=
  if 0 <? active_connections s then active_connections s - 1 else active_connections s.

(** When there is no task for a connection that was counted. *)
Definition uncount (s : ak_tcp_server_internal_t) : ak_tcp_server_internal_t :=
  with_count s (one_less s) (stats s).

(** When the queue of the pool is full. *)
Definition count_queue_full (s : ak_tcp_server_internal_t) : ak_tcp_server_internal_t :=
  let c := stats s in
  with_count s (one_less s)
    (mk_counters (connections_accepted c) (connections_rejected_limit c) (u64 (connections_rejected_queue c + 1))
       (connections_rejected_rate c) (connections_rejected_ip_limit c) (total_bytes_received c) (total_bytes_sent c)).

(** The end of [worker_task_fn]; true when it signals the end of the last handler
    to a server that shuts down. *)
Definition handler_over (s : ak_tcp_server_internal_t) : bool * ak_tcp_server_internal_t :=
  let s := uncount s in
  (draining s && (active_connections s =? 0), s).

(** The first section of [ak_tcp_server_stop]; false when the server is not running. *)
Definition stop_begin (s : ak_tcp_server_internal_t) : bool * ak_tcp_server_internal_t :=
  if negb (running s) then (false, s) else (true, with_running s false true).

(** The section in which it looks for handlers to wait for; true when it waits. *)
Definition drain_check (s : ak_tcp_server_internal_t) : bool * ak_tcp_server_internal_t :=
  if 0 <? active_connections s then (true, s) else (false, with_running s (running s) false).

Definition ak_tcp_server_connection_count (server : option ak_tcp_server_internal_t) : Z :=
  match server with
  | None => 0
  | Some s => active_connections s
  end.

Definition ak_tcp_server_get_stats (server : option ak_tcp_server_internal_t) (out : bool) : Z * option (counters * Z) :=
  match server with
  | None => (-1, None)
  | Some s => if negb out then (-1, None) else (0, Some (stats s, active_connections s))
  end.

Definition ak_tcp_server_is_draining (server : option ak_tcp_server_internal_t) : bool :=
  match server with
  | None => false
  | Some s => draining s
  end.

(** * A connection that is let in *)

Section accepting.
Context `{Allocator} `{Sockets}.

(** The options of its socket.  An option that fails is logged. *)
Definition set_options (cfg : ak_tcp_server_config_t) (fd : Z) (error : error_ptr) (n : net) : error_ptr * net :=
  let '(_, error, n) :=
    if (0 <? default_recv_timeout_ms cfg) || (0 <? default_send_timeout_ms cfg)
    then ak_tcp_socket_set_timeout fd (default_recv_timeout_ms cfg) (default_send_timeout_ms cfg) error n
    else (0, error, n) in
  let '(_, error, n) :=
    if enable_linger cfg then ak_tcp_socket_set_linger fd true (linger_timeout_sec cfg) error n
    else (0, error, n) in
  let '(_, error, n) :=
    if (0 <? socket_recv_buffer cfg) || (0 <? socket_send_buffer cfg)
    then ak_tcp_socket_set_buffers fd (socket_recv_buffer cfg) (socket_send_buffer cfg) error n
    else (0, error, n) in
  let '(_, error, n) :=
    if enable_keepalive cfg
    then ak_tcp_socket_set_keepalive fd (keepalive_idle_sec cfg) (keepalive_interval_sec cfg) (keepalive_count cfg) error n
    else (0, error, n) in
  (error, n).

(** What becomes of the connection. *)
Inductive opened : Type :=
| No_context
| No_handshake (c : ak_tcp_ctx_t)    (* the connection is to be freed *)
| Opened (c : ak_tcp_ctx_t).

(** Its context, and the handshake when the server uses TLS. *)
Definition open_connection (s : ak_tcp_server_internal_t) (st : Contexts.store) (fd : Z) (addr : list Z) (rport : Z)
    (error : error_ptr) (n : net) : M (opened * Contexts.store * error_ptr * net) :=
  let cfg := settings s in
  let '(error, n) := set_options cfg fd error n in
  '(ctx, st) ← ak_tcp_ctx_new st fd (Some addr) rport (recv_buffer_size cfg) (send_buffer_size cfg);
  match ctx with
  | None => mret (No_context, st, error, n)
  | Some c =>
      let '(tls, error, n) :=
        match ssl_ctx s with
        | Some sc => if cfg_use_tls cfg
                     then let '(ssl, error, n) := ak_tcp_tls_accept sc fd error n in (Some ssl, error, n)
                     else (None, error, n)
        | None => (None, error, n)
        end in
      match tls with
      | Some None => mret (No_handshake c, st, error, n)
      | _ =>
          let c := match tls with Some ssl => with_ssl c ssl | None => c end in
          let c := with_timeouts c (default_recv_timeout_ms cfg) (default_send_timeout_ms cfg) in
          let c := with_buffered (with_max_recv c (max_recv_bytes cfg)) 0 in
          mret (Opened c, st, error, n)
      end
  end.

(** How the task of a connection fares: there is no memory for it or its lambda;
    the pool takes it; the pool does not. *)
Inductive handed : Type :=
| No_task
| No_lambda
| Taken
| Refused (lambda : positive).

(** [worker_task_fn] as a function pointer, and a task at an address. *)
Definition hand_over (worker_task_fn task : Z) (lams : lstore) (pool : ak_thread_pool_t) (lock_ok : bool)
    : M (handed * lstore * ak_thread_pool_t) :=
  ok ← alloc_obj sizeof_ak_tcp_worker_task_t;
  if negb ok then mret (No_task, lams, pool) else
  '(worker_lambda, lams) ← ak_lambda_new lams worker_task_fn task 0;
  match worker_lambda with
  | None => mret (No_lambda, lams, pool)
  | Some l =>
      '(rc, lams, pool) ← ak_thread_pool_enqueue lams pool lock_ok (Some l) None;
      if rc =? 0 then mret (Taken, lams, pool) else mret (Refused l, lams, pool)
  end.

(** What [accept_loop] frees of a task that the pool did not take. *)
Definition drop_task (h : handed) (lams : lstore) : M lstore :=
  match h with
  | No_task | Taken => mret lams
  | No_lambda => _ ← free_obj; mret lams
  | Refused l => lams ← ak_lambda_free lams (Some l); _ ← free_obj; mret lams
  end.
End accepting.

(** * Making, starting and freeing a server *)

(** The configuration as the server keeps it. *)
Definition settings_of (cfg : ak_tcp_server_config_t) : ak_tcp_server_config_t :=
  mk_server_config (bind_addr cfg) (port cfg) (thread_pool_size cfg)
    (if 0 <? backlog cfg then backlog cfg else 128) (on_connect cfg) (on_handle cfg) (on_disconnect cfg)
    (max_connections cfg) (max_pending_tasks cfg) (max_recv_bytes cfg) (max_connections_per_ip cfg)
    (connection_rate_limit cfg) (default_recv_timeout_ms cfg) (default_send_timeout_ms cfg)
    (shutdown_drain_timeout_ms cfg) (enable_linger cfg) (linger_timeout_sec cfg) (enable_keepalive cfg)
    (if 0 <? keepalive_idle_sec cfg then keepalive_idle_sec cfg else TCP_DEFAULT_KEEPALIVE_IDLE)
    (if 0 <? keepalive_interval_sec cfg then keepalive_interval_sec cfg else TCP_DEFAULT_KEEPALIVE_INTERVAL)
    (if 0 <? keepalive_count cfg then keepalive_count cfg else TCP_DEFAULT_KEEPALIVE_COUNT)
    (if 0 <? recv_buffer_size cfg then recv_buffer_size cfg else TCP_READ_BUFFER_SIZE)
    (if 0 <? send_buffer_size cfg then send_buffer_size cfg else TCP_WRITE_BUFFER_SIZE)
    (socket_recv_buffer cfg) (socket_send_buffer cfg) (cfg_use_tls cfg) (cert_file cfg) (key_file cfg)
    (ca_file cfg) (verify_client cfg) (tls_ciphers cfg) (tls_min_version cfg).

Definition pool_config (cfg : ak_tcp_server_config_t) : ak_thread_pool_config_t :=
  mk_config (if 0 <? thread_pool_size cfg then thread_pool_size cfg else 4) (max_pending_tasks cfg).

Section lifecycle.
Context `{Allocator} `{Sockets}.

(** [ak_thread_pool_new]; [threads_ok]: every thread starts. *)
Definition new_pool (cfg : ak_thread_pool_config_t) (sys : inits) (threads_ok : bool) : M (option ak_thread_pool_t) :=
  pool ← pool_init (Some cfg) sys;
  match pool with
  | None => mret None
  | Some p => if threads_ok then mret (Some p) else _ ← pool_abandon; mret None
  end.

(** The frees that [ak_tcp_server_new] undoes its allocations with. *)
Definition discard_server (addr : option (list Z)) : M () :=
  _ ← match addr with Some _ => free_obj | None => mret () end;
  _ ← free_obj;
  free_obj.

(** [ak_thread_pool_free] on a pool that has nothing to do. *)
Definition free_pool (lams : lstore) (p : ak_thread_pool_t) : M lstore :=
  '(lams, _) ← pool_destroy lams (with_state p AK24_POOL_STATE_SHUTTING_DOWN);
  mret lams.

Definition ak_tcp_server_new (cfg : option ak_tcp_server_config_t) (sys : inits) (threads_ok : bool) (lams : lstore)
    (error : error_ptr) (n : net)
    : M (option (ak_tcp_server_internal_t * ak_thread_pool_t) * lstore * error_ptr * net) :=
  match cfg with
  | None => mret (None, lams, set_error error "Configuration is required"%str, n)
  | Some cfg =>
      if bool_decide (on_handle cfg = None)
      then mret (None, lams, set_error error "on_handle lambda is required"%str, n) else
      if port cfg =? 0 then mret (None, lams, set_error error "Port must be non-zero"%str, n) else
      ok ← alloc_obj sizeof_ak_tcp_server_t;
      if negb ok then mret (None, lams, set_error error "Memory allocation failed"%str, n) else
      ok ← alloc_obj sizeof_ak_tcp_server_internal_t;
      if negb ok then _ ← free_obj; mret (None, lams, set_error error "Memory allocation failed"%str, n) else
      ok ← match bind_addr cfg with Some addr => alloc_obj (zlen addr + 1) | None => mret true end;
      if negb ok then
        _ ← free_obj; _ ← free_obj; mret (None, lams, set_error error "Memory allocation failed"%str, n)
      else
      let internal := mk_server (settings_of cfg) AK_INVALID_SOCKET false false 0 [] (mk_counters 0 0 0 0 0 0 0) None in
      pool ← new_pool (pool_config cfg) sys threads_ok;
      match pool with
      | None =>
          _ ← discard_server (bind_addr cfg);
          mret (None, lams, set_error error "Failed to create thread pool"%str, n)
      | Some p =>
          if negb (cfg_use_tls cfg) then mret (Some (internal, p), lams, error, n) else
          match cert_file cfg, key_file cfg with
          | Some cert, Some key =>
              let '(ssl_ctx, error, n) :=
                ak_tcp_tls_ctx_new cert key (ca_file cfg) (verify_client cfg) (tls_ciphers cfg) (tls_min_version cfg)
                  error n in
              match ssl_ctx with
              | None => lams ← free_pool lams p; _ ← discard_server (bind_addr cfg); mret (None, lams, error, n)
              | Some _ =>
                  mret (Some (mk_server (settings_of cfg) AK_INVALID_SOCKET false false 0 []
                                (mk_counters 0 0 0 0 0 0 0) ssl_ctx, p), lams, error, n)
              end
          | _, _ =>
              lams ← free_pool lams p;
              _ ← discard_server (bind_addr cfg);
              mret (None, lams, set_error error "TLS requires cert_file and key_file"%str, n)
          end
      end
  end.

(** The listening socket of a server that starts; false when there is none. *)
Definition open_listener (s : ak_tcp_server_internal_t) (error : error_ptr) (n : net)
    : bool * ak_tcp_server_internal_t * error_ptr * net :=
  let cfg := settings s in
  let '(fd, error, n) := ak_tcp_socket_create_for_addr (bind_addr cfg) error n in
  if fd =? AK_INVALID_SOCKET then (false, with_listen s fd, error, n) else
  let '(rc, error, n) := ak_tcp_socket_bind fd (bind_addr cfg) (port cfg) error n in
  if negb (rc =? 0) then (false, with_listen s AK_INVALID_SOCKET, error, ak_tcp_socket_close fd n) else
  let '(rc, error, n) := ak_tcp_socket_listen fd (backlog cfg) error n in
  if negb (rc =? 0) then (false, with_listen s AK_INVALID_SOCKET, error, ak_tcp_socket_close fd n) else
  (true, with_listen s fd, error, n).

(** [if (listen_fd != AK_INVALID_SOCKET)] close it. *)
Definition close_listener (s : ak_tcp_server_internal_t) (n : net) : ak_tcp_server_internal_t * net :=
  if listen_fd s =? AK_INVALID_SOCKET then (s, n)
  else (with_listen s AK_INVALID_SOCKET, ak_tcp_socket_close (listen_fd s) n).

(** [thread_ok]: the thread of [accept_loop] starts. *)
Definition ak_tcp_server_start (server : option ak_tcp_server_internal_t) (thread_ok : bool) (error : error_ptr) (n : net)
    : Z * option ak_tcp_server_internal_t * error_ptr * net :=
  match server with
  | None => (-1, None, set_error error "Invalid server"%str, n)
  | Some s =>
      if running s then (-1, server, set_error error "Server already running"%str, n) else
      let '(ok, s, error, n) := open_listener s error n in
      if negb ok then (-1, Some s, error, n) else
      if negb thread_ok then
        (-1, Some (with_running (with_listen s AK_INVALID_SOCKET) false (draining s)),
         set_error error "Failed to create accept thread"%str, ak_tcp_socket_close (listen_fd s) n)
      else (0, Some (with_running s true (draining s)), error, n)
  end.

(** [ak_tcp_server_free] once [ak_tcp_server_stop] is over. *)
Definition ak_tcp_server_free (server : option (ak_tcp_server_internal_t * ak_thread_pool_t)) (lams : lstore) (n : net)
    : M (lstore * net) :=
  match server with
  | None => mret (lams, n)
  | Some (s, pool) =>
      lams ← free_pool lams pool;
      let n := match ssl_ctx s with Some sc => ak_tcp_tls_ctx_free sc n | None => n end in
      lams ← ak_lambda_free lams (on_connect (settings s));
      lams ← ak_lambda_free lams (on_handle (settings s));
      lams ← ak_lambda_free lams (on_disconnect (settings s));
      _ ← ip_trackers_free (ip_trackers s);
      _ ← discard_server (bind_addr (settings s));
      mret (lams, n)
  end.
End lifecycle.

(** * Trackers by their addresses *)

(** An address as [ak_tcp_socket_accept] writes it. *)
Definition is_ip (addr : list Z) : Prop := zlen addr < 46 ∧ Forall is_char addr.

Definition trackers_ok (ts : list ak_tcp_ip_tracker_t) : Prop :=
  NoDup (ip <$> ts) ∧ Forall (λ t, is_ip (ip t)) ts.

(** The tracker of an address. *)
Definition tracker_of (ts : list ak_tcp_ip_tracker_t) (addr : list Z) : option ak_tcp_ip_tracker_t :=
  i ← ip_tracker_find ts addr; ts !! i.

(** The connections counted for an address. *)
Definition active_of (ts : list ak_tcp_ip_tracker_t) (addr : list Z) : Z :=
  match tracker_of ts addr with
  | Some t => active_count t
  | None => 0
  end.

Lemma tracker_of_cons t ts addr :
  is_ip (ip t) → is_ip addr →
  tracker_of (t :: ts) addr = if bool_decide (ip t = addr) then Some t else tracker_of ts addr.
Proof.
  intros [_ Ht] [_ Ha]. unfold tracker_of. simpl. rewrite strcmp_chars by done.
  case_bool_decide; [done|]. by destruct (ip_tracker_find ts addr).
Qed.

Lemma ip_tracker_find_ok ts addr :
  trackers_ok ts → is_ip addr →
  match ip_tracker_find ts addr with
  | Some i => ∃ t, ts !! i = Some t ∧ ip t = addr
  | None => addr ∉ ip <$> ts
  end.
Proof.
  intros [_ Hts] Ha. induction Hts as [|t ts Ht Hts IH]; simpl; [apply not_elem_of_nil|].
  rewrite strcmp_chars by (apply Ht || apply Ha). case_bool_decide as E; [by exists t|].
  destruct (ip_tracker_find ts addr) as [i|]; simpl; [done|]. rewrite not_elem_of_cons. by split.
Qed.

(** Replacing the tracker of an address by another one for it. *)
Lemma tracker_of_insert ts i t t' a :
  trackers_ok ts → ts !! i = Some t → ip t' = ip t → is_ip a →
  tracker_of (<[i := t']> ts) a = if bool_decide (a = ip t) then Some t' else tracker_of ts a.
Proof.
  intros [Hnd Hok]. revert i. induction ts as [|x ts IH]; intros [|i] Hi Ht' Ha; simplify_eq/=.
  - apply Forall_cons_1 in Hok as [Hx Hok]. rewrite !tracker_of_cons by (try rewrite Ht'; done). rewrite Ht'.
    do 2 case_bool_decide; congruence.
  - apply Forall_cons_1 in Hok as [Hx Hok]. apply list.NoDup_cons in Hnd as [Hn Hnd].
    rewrite !tracker_of_cons by done. rewrite (IH Hnd Hok i) by done.
    assert (ip x ≠ ip t) by (intros E; apply Hn; rewrite E; apply list_elem_of_fmap_2; by eapply list_elem_of_lookup_2).
    do 2 case_bool_decide; congruence.
Qed.

Lemma trackers_ok_insert ts i t t' :
  trackers_ok ts → ts !! i = Some t → ip t' = ip t → trackers_ok (<[i := t']> ts).
Proof.
  intros [Hnd Hok] Hi Ht'. split.
  - rewrite list_fmap_insert, Ht', list_insert_id; [done|]. by rewrite list_lookup_fmap, Hi.
  - apply Forall_insert; [done|]. rewrite Ht'. by apply (Forall_lookup_1 _ _ _ _ Hok Hi).
Qed.

Lemma tracker_of_ip ts addr t : trackers_ok ts → is_ip addr → tracker_of ts addr = Some t → ip t = addr.
Proof.
  intros Hts Ha. unfold tracker_of. pose proof (ip_tracker_find_ok ts addr Hts Ha) as Hf.
  destruct (ip_tracker_find ts addr) as [i|]; [|done]. destruct Hf as (t' & Hi & Ht'). simpl. congruence.
Qed.

Lemma list_alter_insert {A} (f : A → A) (l : list A) i x : l !! i = Some x → alter f i l = <[i := f x]> l.
Proof. revert i. induction l as [|y l IH]; intros [|i] Hi; simplify_eq/=; [done|]. by f_equal; apply IH. Qed.

(** A connection from an address goes. *)
Lemma ip_tracker_decrement_ok s addr :
  trackers_ok (ip_trackers s) → is_ip addr →
  let s' := ip_tracker_decrement s addr in
  trackers_ok (ip_trackers s') ∧ s' = with_trackers s (ip_trackers s')
  ∧ (∀ a, is_ip a → tracker_of (ip_trackers s') a =
       if bool_decide (a = addr)
       then (λ t, if 0 <? active_count t then set_active t (active_count t - 1) else t) <$> tracker_of (ip_trackers s) a
       else tracker_of (ip_trackers s) a).
Proof.
  intros Hts Ha. unfold ip_tracker_decrement. pose proof (ip_tracker_find_ok _ _ Hts Ha) as Hf.
  destruct (ip_tracker_find (ip_trackers s) addr) as [i|] eqn:E; simpl.
  - destruct Hf as (t & Hi & <-). set (f := λ t : ak_tcp_ip_tracker_t, if 0 <? active_count t then _ else t).
    rewrite (list_alter_insert f _ _ t) by done.
    assert (ip (f t) = ip t) as Hft by (unfold f; by destruct (0 <? active_count t)).
    split_and!; [by eapply trackers_ok_insert|done|]. intros a Ha'. rewrite (tracker_of_insert _ _ t) by done.
    case_bool_decide as Ea; [|done]. subst a. unfold tracker_of. by rewrite E; simpl; rewrite Hi.
  - split_and!; [done|by destruct s|]. intros a Ha'. case_bool_decide as Ea; [|done]. subst a. unfold tracker_of. by rewrite E.
Qed.

Definition new_tracker (addr : list Z) : ak_tcp_ip_tracker_t := mk_tracker addr 0 0 0.

Definition tracking (cfg : ak_tcp_server_config_t) : bool :=
  (0 <? max_connections_per_ip cfg) || (0 <? connection_rate_limit cfg).

Lemma track_connection_ip cfg now t il rl t' : track_connection cfg now t = (il, rl, t') → ip t' = ip t.
Proof. unfold track_connection. repeat case_match; intros; simplify_eq; done. Qed.

Section tracking.
Context `{Allocator}.

(** What [track_ip] does: the tracker of the address, a new one perhaps, says what
    becomes of the connection; without memory for a tracker it is let in. *)
Definition tracked (s : ak_tcp_server_internal_t) (addr : list Z) (now : Z) (m : mem)
    : bool * bool * ak_tcp_server_internal_t → mem → Prop := λ '(il, rl, s') m',
  trackers_ok (ip_trackers s') ∧ s' = with_trackers s (ip_trackers s')
  ∧ (∀ a, is_ip a → a ≠ addr → tracker_of (ip_trackers s') a = tracker_of (ip_trackers s) a)
  ∧ if tracking (settings s) && bool_decide (is_Some (tracker_of (ip_trackers s') addr)) then ∃ t',
      track_connection (settings s) now (default (new_tracker addr) (tracker_of (ip_trackers s) addr)) = (il, rl, t')
      ∧ tracker_of (ip_trackers s') addr = Some t' ∧ m_fails m' = m_fails m
    else il = false ∧ rl = false ∧ s' = s ∧ (tracking (settings s) = true → balance 0 true m m').

Lemma track_found_ok s addr now m s0 i t m0 :
  is_ip addr → tracking (settings s) = true → trackers_ok (ip_trackers s0) → settings s0 = settings s →
  ip_trackers s0 !! i = Some t → t = default (new_tracker addr) (tracker_of (ip_trackers s) addr) → ip t = addr →
  (∀ a, is_ip a → a ≠ addr → tracker_of (ip_trackers s0) a = tracker_of (ip_trackers s) a) →
  s0 = with_trackers s (ip_trackers s0) → m_fails m0 = m_fails m →
  wp (t ← lift (rd (ip_trackers s0) (Z.of_nat i));
      let '(il, rl, t) := track_connection (settings s) now t in
      mret (il, rl, with_trackers s0 (<[i := t]> (ip_trackers s0)))) (tracked s addr now m) m0.
Proof.
  intros Ha Htr Hts0 Hset Hi Hd Hip Hoth Heq Hm0. wsteps.
  rewrite (rd_lookup _ _ t) by (rewrite ?Nat2Z.id; done || lia). wsteps.
  destruct (track_connection (settings s) now t) as [[il rl] t'] eqn:E. wsteps.
  pose proof (track_connection_ip _ _ _ _ _ _ E) as Hip'.
  assert (∀ a, is_ip a → tracker_of (<[i := t']> (ip_trackers s0)) a
    = if bool_decide (a = addr) then Some t' else tracker_of (ip_trackers s0) a) as Hof.
  { intros a Ha'. rewrite (tracker_of_insert _ _ t) by done. by rewrite Hip. }
  split_and!; simpl; [by eapply trackers_ok_insert|by rewrite Heq| |].
  - intros a Ha' Hne. rewrite Hof by done. rewrite bool_decide_eq_false_2 by done. by apply Hoth.
  - rewrite Htr, Hof, (bool_decide_eq_true_2 (addr = addr)) by done. rewrite bool_decide_eq_true_2 by done.
    exists t'. by rewrite <- Hd.
Qed.

Lemma track_ip_ok s addr now m :
  trackers_ok (ip_trackers s) → is_ip addr → wp (track_ip s addr now) (tracked s addr now m) m.
Proof.
  intros Hts Ha. unfold track_ip. fold (tracking (settings s)). destruct (tracking (settings s)) eqn:Htr; simpl.
  2:{ wsteps. unfold tracked. rewrite Htr. split_and!; try done. by destruct s. }
  unfold ip_tracker_get_or_create. pose proof (ip_tracker_find_ok _ _ Hts Ha) as Hf.
  destruct (ip_tracker_find (ip_trackers s) addr) as [i|] eqn:E; apply wp_bind.
  - destruct Hf as (t & Hi & Hip). assert (tracker_of (ip_trackers s) addr = Some t) as Ht by (unfold tracker_of; by rewrite E).
    apply wp_ret. apply (track_found_ok s addr now m s i t m); try done; [by rewrite Ht|by destruct s].
  - assert (tracker_of (ip_trackers s) addr = None) as Ht by (unfold tracker_of; by rewrite E).
    apply wp_bind, wp_alloc_obj. intros [|] m1 HA; cbn [negb]; apply wp_ret.
    + assert (take 45 addr = addr) as Htake by (apply take_ge; destruct Ha; unfold zlen in *; lia).
      rewrite Htake. fold (new_tracker addr).
      apply (track_found_ok s addr now m (with_trackers s (new_tracker addr :: ip_trackers s)) 0%nat (new_tracker addr));
        simpl; try done.
      * split; simpl; [apply list.NoDup_cons; split; [exact Hf|apply Hts]|apply Forall_cons; [exact Ha|apply Hts]].
      * by rewrite Ht.
      * intros a Ha' Hne. rewrite tracker_of_cons by done. by rewrite bool_decide_eq_false_2.
      * destruct HA as [_ ->]. lia.
    + split_and!; try done; [by destruct s|]. rewrite Htr, (bool_decide_eq_false_2 (is_Some _)) by (rewrite Ht; by intros []).
      split_and!; try done. intros _. balance.
Qed.
End tracking.

(** * Histories of the trackers *)

Definition count {A} `{EqDecision A} (x : A) (l : list A) : Z := zlen (filter (x =.) l).

Lemma count_nil {A} `{EqDecision A} (x : A) : count x [] = 0.
Proof. done. Qed.

Lemma count_cons {A} `{EqDecision A} (x y : A) l : count x (y :: l) = (if bool_decide (x = y) then 1 else 0) + count x l.
Proof.
  unfold count. rewrite filter_cons. destruct (decide (x = y)) as [E|E].
  - rewrite bool_decide_eq_true_2 by done. by rewrite zlen_cons.
  - by rewrite bool_decide_eq_false_2.
Qed.

Lemma count_app {A} `{EqDecision A} (x : A) l k : count x (l ++ k) = count x l + count x k.
Proof. unfold count. by rewrite list.filter_app, zlen_app. Qed.

Lemma count_nonneg {A} `{EqDecision A} (x : A) l : 0 <= count x l <= zlen l.
Proof. unfold count. split; [apply zlen_nonneg|]. unfold zlen. pose proof (list.length_filter (x =.) l). lia. Qed.

Section histories.
Context `{Allocator}.

(** What has happened to the trackers of a server by a time: the connections let in
    with their times, newest first, and the addresses of those that are there.
    Time does not run backward, and there was memory for the trackers. *)
Inductive history : ak_tcp_server_internal_t → list (list Z * Z) → list (list Z) → Z → Prop :=
| h_start s now : ip_trackers s = [] → 0 <= now → history s [] [] now
| h_try s adm pres t now addr m il rl s' m' :
    history s adm pres t → t <= now → is_ip addr →
    track_ip s addr now m = Ret (il, rl, s', m') → m_fails m' = m_fails m →
    history s' (if il || rl then adm else (addr, now) :: adm) (if il || rl then pres else addr :: pres) now
| h_leave s adm pres1 addr pres2 t :
    history s adm (pres1 ++ addr :: pres2) t → history (ip_tracker_decrement s addr) adm (pres1 ++ pres2) t
| h_other s s' adm pres t :
    history s adm pres t → settings s' = settings s → ip_trackers s' = ip_trackers s → history s' adm pres t.

(** What a tracker knows of the history. *)
Definition tracker_ok (rate : Z) (adm : list (list Z * Z)) (pres : list (list Z)) (t : Z) (a : list Z)
    (tr : option ak_tcp_ip_tracker_t) : Prop :=
  match tr with
  | None => count a pres = 0 ∧ ∀ u, count (a, u) adm = 0
  | Some tr => active_count tr = count a pres ∧
      (0 < rate → 0 <= last_connect_time tr <= t ∧ connects_this_second tr = count (a, last_connect_time tr) adm
         ∧ ∀ u, last_connect_time tr < u → count (a, u) adm = 0)
  end.

Record history_ok (s : ak_tcp_server_internal_t) (adm : list (list Z * Z)) (pres : list (list Z)) (t : Z) : Prop := {
  hi_trackers : trackers_ok (ip_trackers s);
  hi_time : 0 <= t;
  hi_size : zlen pres <= zlen adm;
  hi_ips : Forall is_ip pres;
  hi_each a : is_ip a →
    tracker_ok (connection_rate_limit (settings s)) adm pres t a (tracker_of (ip_trackers s) a);
  hi_rate : 0 < connection_rate_limit (settings s) →
    ∀ a u, count (a, u) adm <= connection_rate_limit (settings s);
  hi_ip : 0 < max_connections_per_ip (settings s) → ∀ a, count a pres <= max_connections_per_ip (settings s);
}.

(** What the tracker of an address answers, in terms of the history. *)
Lemma track_connection_ok cfg adm pres t now a tr il rl tr' :
  track_connection cfg now (default (new_tracker a) tr) = (il, rl, tr') →
  tracker_ok (connection_rate_limit cfg) adm pres t a tr → t <= now → 0 <= t →
  zlen pres < 2 ^ 63 → connection_rate_limit cfg < 2 ^ 63 →
  il = (0 <? max_connections_per_ip cfg) && (max_connections_per_ip cfg <=? count a pres)
  ∧ rl = negb il && (0 <? connection_rate_limit cfg) && (connection_rate_limit cfg <=? count (a, now) adm)
  ∧ tracker_ok (connection_rate_limit cfg) (if il || rl then adm else (a, now) :: adm)
      (if il || rl then pres else a :: pres) now a (Some tr').
Proof.
  intros Htr Hok Ht H0 Hp Hr. set (tr0 := default (new_tracker a) tr) in *.
  assert (tracker_ok (connection_rate_limit cfg) adm pres t a (Some tr0)) as [Hact Hrate].
  { unfold tr0. destruct tr as [tr|]; [done|]. destruct Hok as [H1 H2]. split; [by rewrite H1|]. intros _. simpl.
    split_and!; [lia|lia|by rewrite H2|done]. }
  clearbody tr0. clear Hok. pose proof (count_nonneg a pres) as Hc. unfold track_connection in Htr. rewrite Hact in Htr.
  destruct ((0 <? max_connections_per_ip cfg) && _); simpl in Htr.
  { simplify_eq/=. split_and!; [done|done|done|]. intros Hpos. destruct (Hrate Hpos) as (? & ? & ?). split_and!; [lia|lia|done|done]. }
  assert (u64 (count a pres + 1) = 1 + count a pres) as Hu by (rewrite u64_small; lia).
  assert (count a (a :: pres) = 1 + count a pres) as Hc1 by (rewrite count_cons; by rewrite bool_decide_eq_true_2).
  assert (∀ u, count (a, u) ((a, now) :: adm) = (if bool_decide (u = now) then 1 else 0) + count (a, u) adm) as Hc2.
  { intros u. rewrite count_cons. f_equal. do 2 case_bool_decide; congruence. }
  destruct (Z.ltb_spec 0 (connection_rate_limit cfg)) as [Hpos|Hpos]; simpl in Htr.
  2:{ simplify_eq/=. split_and!; try done; [by rewrite ?Hact, ?Hu, Hc1|lia]. }
  destruct (Hrate Hpos) as (Hlast & Hcon & Hnone).
  destruct (Z.eqb_spec (last_connect_time tr0) now) as [Enow|Enow].
  - rewrite Hcon, Enow in Htr. destruct (Z.leb_spec (connection_rate_limit cfg) (count (a, now) adm)); simplify_eq/=.
    + split_and!; try done. intros _. split_and!; [lia|lia|done|done].
    + rewrite ?Hact, ?Hu. split_and!; try done. intros _. simpl. rewrite Hc2, bool_decide_eq_true_2 by done.
      pose proof (count_nonneg (a, last_connect_time tr0) adm).
      split_and!; [lia|lia|rewrite u64_small by lia; lia|]. intros u Hlt. rewrite Hc2, bool_decide_eq_false_2 by lia. by apply Hnone.
  - simplify_eq/=. rewrite ?Hact, ?Hu, (Hnone now) by lia.
    split_and!; [done|by destruct (Z.leb_spec (connection_rate_limit cfg) 0); [lia|]|done|]. intros _.
    rewrite Hc2, bool_decide_eq_true_2, (Hnone now) by (done || lia). split_and!; [lia|lia|done|].
    intros u Hlt. rewrite Hc2, bool_decide_eq_false_2 by lia. apply Hnone. lia.
Qed.

Lemma tracker_ok_ext rate adm adm' pres pres' t t' a tr :
  tracker_ok rate adm pres t a tr → t <= t' → count a pres' = count a pres →
  (∀ u, count (a, u) adm' = count (a, u) adm) → tracker_ok rate adm' pres' t' a tr.
Proof.
  intros Hok Ht Hp Ha. destruct tr as [tr|]; destruct Hok as [H1 H2].
  - split; [congruence|]. intros Hpos. destruct (H2 Hpos) as (? & ? & Hn).
    split_and!; [lia|lia|by rewrite Ha|]. intros u Hu. rewrite Ha. by apply Hn.
  - split; [congruence|]. intros u. by rewrite Ha.
Qed.

Lemma history_try s adm pres t now addr m il rl s' m' :
  history_ok s adm pres t → zlen adm < 2 ^ 63 → connection_rate_limit (settings s) < 2 ^ 63 →
  tracking (settings s) = true → t <= now → is_ip addr →
  track_ip s addr now m = Ret (il, rl, s', m') → m_fails m' = m_fails m →
  il = (0 <? max_connections_per_ip (settings s)) && (max_connections_per_ip (settings s) <=? count addr pres)
  ∧ rl = negb il && (0 <? connection_rate_limit (settings s)) && (connection_rate_limit (settings s) <=? count (addr, now) adm)
  ∧ settings s' = settings s
  ∧ history_ok s' (if il || rl then adm else (addr, now) :: adm) (if il || rl then pres else addr :: pres) now.
Proof.
  intros [Hts H0 Hsz Hips Heach Hrate Hmax] Hbig Hr Htr Ht Ha E Hf.
  pose proof (track_ip_ok s addr now m Hts Ha) as Hw. unfold wp in Hw. rewrite E in Hw. unfold tracked in Hw.
  destruct Hw as (Hts' & Heq & Hoth & Hw). rewrite Htr in Hw. simpl in Hw.
  case_bool_decide as Hsome.
  2:{ destruct Hw as (_ & _ & _ & Hb). specialize (Hb eq_refl) as [_ Hb]. exfalso. lia. }
  destruct Hw as (t' & Hcon & Hof & _).
  assert (settings s' = settings s) as Hset by (by rewrite Heq).
  destruct (track_connection_ok _ _ _ _ _ _ _ _ _ _ Hcon (Heach addr Ha) Ht H0) as (Hil & Hrl & Hok); [lia|lia|].
  split_and!; [done|done|done|]. split; rewrite ?Hset; try done.
  - lia.
  - destruct (il || rl); rewrite ?zlen_cons; lia.
  - destruct (il || rl); [done|]. by apply Forall_cons.
  - intros a Ha'. destruct (decide (a = addr)) as [->|Hne]; [by rewrite Hof|]. rewrite Hoth by done.
    apply (tracker_ok_ext _ adm _ pres _ t); [by apply Heach|done| |]; intros; destruct (il || rl); try done;
      rewrite count_cons, bool_decide_eq_false_2 by congruence; lia.
  - intros Hpos a u. destruct (il || rl) eqn:Ed; [by apply Hrate|]. apply orb_false_elim in Ed as [-> ->].
    rewrite count_cons. specialize (Hrate Hpos a u). case_bool_decide as Eau; [|lia]. injection Eau as -> ->.
    symmetry in Hrl. simpl in Hrl. rewrite (proj2 (Z.ltb_lt _ _) Hpos) in Hrl. simpl in Hrl. apply Z.leb_gt in Hrl. lia.
  - intros Hpos a. destruct (il || rl) eqn:Ed; [by apply Hmax|]. apply orb_false_elim in Ed as [-> ->].
    rewrite count_cons. specialize (Hmax Hpos a). case_bool_decide as Eau; [|lia]. subst a.
    symmetry in Hil. rewrite (proj2 (Z.ltb_lt _ _) Hpos) in Hil. simpl in Hil. apply Z.leb_gt in Hil. lia.
Qed.

Lemma history_leave s adm pres1 addr pres2 t :
  history_ok s adm (pres1 ++ addr :: pres2) t → history_ok (ip_tracker_decrement s addr) adm (pres1 ++ pres2) t.
Proof.
  intros [Hts H0 Hsz Hips Heach Hrate Hmax]. apply Forall_app in Hips as [Hi1 Hi2]. apply Forall_cons_1 in Hi2 as [Ha Hi2].
  destruct (ip_tracker_decrement_ok s addr Hts Ha) as (Hts' & Heq & Hof).
  set (s' := ip_tracker_decrement s addr) in *. assert (settings s' = settings s) as Hset by (by rewrite Heq).
  assert (∀ a, count a (pres1 ++ addr :: pres2) = (if bool_decide (a = addr) then 1 else 0) + count a (pres1 ++ pres2)) as Hc.
  { intros a. rewrite !count_app, count_cons. lia. }
  split; rewrite ?Hset; try done.
  - rewrite zlen_app, zlen_cons in Hsz. rewrite zlen_app. lia.
  - by apply Forall_app.
  - intros a Ha'. rewrite Hof by done. specialize (Heach a Ha'). destruct (tracker_of (ip_trackers s) a) as [tr|].
    + destruct Heach as [H1 H2]. rewrite Hc in H1. pose proof (count_nonneg a (pres1 ++ pres2)).
      case_bool_decide; simpl; [|split; [lia|done]].
      destruct (Z.ltb_spec 0 (active_count tr)); simpl; (split; [lia|done]).
    + destruct Heach as [H1 H2]. rewrite Hc in H1. pose proof (count_nonneg a (pres1 ++ pres2)).
      case_bool_decide; simpl; (split; [lia|done]).
  - intros Hpos a. specialize (Hmax Hpos a). rewrite Hc in Hmax. case_bool_decide; lia.
Qed.

Lemma history_invariant s adm pres t :
  history s adm pres t → zlen adm < 2 ^ 63 → connection_rate_limit (settings s) < 2 ^ 63 →
  tracking (settings s) = true → history_ok s adm pres t.
Proof.
  induction 1 as [s now Hts H0|s adm pres t now addr m il rl s' m' _ IH Ht Ha E Hf|s adm pres1 addr pres2 t _ IH|
    s s' adm pres t _ IH Hset Hts]; intros Hbig Hr Htr.
  - split; rewrite ?Hts; try done.
    + by split; [apply NoDup_nil_2|].
    + intros Hpos a u. rewrite count_nil. lia.
    + intros Hpos a. rewrite count_nil. lia.
  - assert (settings s' = settings s) as Hset.
    { revert E. unfold track_ip, ip_tracker_get_or_create, mbind, M_bind, mret, M_ret, lift, alloc_obj.
      repeat case_match; intros; simplify_eq/=; done. }
    rewrite Hset in *. assert (history_ok s adm pres t) as Hok.
    { apply IH; try done. destruct (il || rl); rewrite ?zlen_cons in Hbig; lia. }
    assert (zlen adm < 2 ^ 63) by (destruct (il || rl); rewrite ?zlen_cons in Hbig; lia).
    by eapply history_try in E as (_ & _ & _ & ?).
  - assert (settings (ip_tracker_decrement s addr) = settings s) as Hset.
    { unfold ip_tracker_decrement. by destruct (ip_tracker_find _ _). }
    rewrite Hset in *. apply history_leave. by apply IH.
  - rewrite Hset in *. destruct IH as [I1 I2 I3 I4 I5 I6 I7]; try done. by split; rewrite ?Hset, ?Hts.
Qed.
End histories.

(** * Pools, tasks and servers *)

Section making.
Context `{Allocator} `{SocketLaws}.

(** The lambdas of a store have addresses that were handed out. *)
Definition lambdas_fresh (st : lstore) : Prop := ∀ x l, lambdas st !! x = Some l → (x < next_lambda st)%positive.

Lemma next_lambda_none st : lambdas_fresh st → lambdas st !! next_lambda st = None.
Proof. intros Hf. destruct (lambdas st !! next_lambda st) as [l|] eqn:E; [|done]. apply Hf in E. lia. Qed.

Lemma new_pool_ok cfg sys threads_ok s :
  wp (new_pool cfg sys threads_ok) (λ r s', match r with
    | None => m_live s' = m_live s
        ∧ (cfg_max_workers cfg = 0 ∨ threads_ok = false ∨ (m_fails s < m_fails s')%nat
           ∨ sys ≠ mk_inits true true true)
    | Some p => balance 2 false s s' ∧ threads_ok = true ∧ queue p = [] ∧ queue_size p = 0
        ∧ max_queue_size p = cfg_max_queue_size cfg ∧ max_workers p = cfg_max_workers cfg
        ∧ state p = AK24_POOL_STATE_RUNNING
    end) s.
Proof.
  unfold new_pool, pool_init. simpl. apply wp_bind. destruct (Z.eqb_spec (cfg_max_workers cfg) 0) as [|_].
  { wsteps. split; [done|by left]. }
  apply wp_bind, wp_alloc_obj. intros [|] s1 HA1; cbn [negb]; wsteps.
  2:{ destruct HA1 as [-> ->]. split; [lia|]. right. right. left. lia. }
  destruct sys as [[|] [|] [|]]; simpl; wsteps;
    try (apply wp_free_obj; intros s2 HL HF; wsteps; destruct HA1 as [HL1 _]; split; [lia|by repeat right]).
  apply wp_alloc_obj. intros [|] s2 HA2; cbn [negb]; wsteps.
  - destruct threads_ok; wsteps; [split_and!; try done; balance|]. unfold pool_abandon. wsteps.
    apply wp_free_obj. intros s3 HL3 HF3. wsteps. apply wp_free_obj. intros s4 HL4 HF4. wsteps.
    destruct HA1 as [HL1 _], HA2 as [HL2 _]. split; [lia|]. by right; left.
  - apply wp_free_obj. intros s3 HL3 HF3. wsteps. destruct HA1 as [HL1 HF1], HA2 as [HL2 HF2].
    split; [lia|]. right. right. left. lia.
Qed.

Lemma free_pool_ok lams p s :
  queue p = [] → wp (free_pool lams p) (λ lams' s', lams' = lams ∧ balance (-2) false s s') s.
Proof.
  intros Hq. unfold free_pool, pool_destroy. cbn [with_state queue]. rewrite Hq. cbn [free_queue]. wsteps.
  apply wp_free_obj. intros s1 HL1 HF1. wsteps. apply wp_free_obj. intros s2 HL2 HF2. wsteps. split; [done|balance].
Qed.

Definition addr_blocks (addr : option (list Z)) : Z := match addr with Some _ => 1 | None => 0 end.

Lemma discard_server_ok addr s :
  wp (discard_server addr) (λ _ s', balance (-2 - addr_blocks addr) false s s') s.
Proof.
  unfold discard_server. destruct addr; wsteps.
  - apply wp_free_obj. intros s1 HL1 HF1. wsteps. apply wp_free_obj. intros s2 HL2 HF2. wsteps.
    apply wp_free_obj. intros s3 HL3 HF3. cbn [addr_blocks]. balance.
  - apply wp_free_obj. intros s2 HL2 HF2. wsteps. apply wp_free_obj. intros s3 HL3 HF3. cbn [addr_blocks]. balance.
Qed.

Lemma ip_trackers_free_ok ts s : wp (ip_trackers_free ts) (λ _ s', balance (- zlen ts) false s s') s.
Proof.
  revert s. induction ts as [|t ts IH]; intros s; cbn [ip_trackers_free]; wsteps; [split; [unfold zlen; simpl; lia|done]|].
  apply wp_free_obj. intros s1 HL1 HF1. wsteps. eapply wp_mono; [apply IH|]. intros ? s2 [HL2 HF2]. rewrite zlen_cons. split; [lia|congruence].
Qed.

(** The blocks of a new server, its pool included. *)
Definition server_blocks (cfg : ak_tcp_server_config_t) : Z := 4 + addr_blocks (bind_addr cfg).

(** A server as [ak_tcp_server_new] leaves it. *)
Definition fresh_server (cfg : ak_tcp_server_config_t) (ssl : option positive) : ak_tcp_server_internal_t :=
  mk_server (settings_of cfg) AK_INVALID_SOCKET false false 0 [] (mk_counters 0 0 0 0 0 0 0) ssl.

(** What [ak_tcp_server_new] answers. *)
Definition made (cfg : option ak_tcp_server_config_t) (lams : lstore) (n : net) (s : mem)
    : option (ak_tcp_server_internal_t * ak_thread_pool_t) * lstore * error_ptr * net → mem → Prop :=
  λ '(r, lams', _, n') s', lams' = lams ∧ open_sockets n' = open_sockets n ∧ match r with
    | None => m_live s' = m_live s
    | Some (srv, p) => ∃ c, cfg = Some c ∧ on_handle c ≠ None ∧ port c ≠ 0
        ∧ srv = fresh_server c (ssl_ctx srv) ∧ (is_Some (ssl_ctx srv) ↔ cfg_use_tls c = true)
        ∧ balance (server_blocks c) false s s'
        ∧ queue p = [] ∧ state p = AK24_POOL_STATE_RUNNING ∧ max_queue_size p = max_pending_tasks c ∧ max_workers p ≠ 0
    end.

Lemma alloc_addr_ok (addr : option (list Z)) s :
  wp (match addr with Some a => alloc_obj (zlen a + 1) | None => mret true end) (λ ok s',
    m_live s' = m_live s + (if ok : bool then addr_blocks addr else 0) ∧ (ok = true → m_fails s' = m_fails s)) s.
Proof.
  destruct addr as [a|]; [|wsteps; simpl; split; [lia|done]].
  apply wp_alloc_obj. intros [|] s1 [HL HF]; simpl; split; [lia|lia|lia|done].
Qed.

Lemma server_new_ok cfg sys threads_ok lams error n s :
  wp (ak_tcp_server_new cfg sys threads_ok lams error n) (made cfg lams n s) s.
Proof.
  unfold ak_tcp_server_new. destruct cfg as [cfg|]; [|by wsteps]. case_bool_decide as Hh; [by wsteps|].
  destruct (Z.eqb_spec (port cfg) 0) as [|Hp]; [by wsteps|]. wsteps.
  apply wp_alloc_obj. intros [|] s1 [HL1 HF1]; cbn [negb]; wsteps; [|split_and!; [done|done|lia]].
  apply wp_alloc_obj. intros [|] s2 [HL2 HF2]; cbn [negb]; wsteps.
  2:{ apply wp_free_obj. intros s3 HL3 _. wsteps. split_and!; [done|done|lia]. }
  eapply wp_mono; [apply alloc_addr_ok|]. intros [|] s3 [HL3 HF3]; cbn [negb]; wsteps.
  2:{ apply wp_free_obj. intros s4 HL4 _. wsteps. apply wp_free_obj. intros s5 HL5 _. wsteps. split_and!; [done|done|lia]. }
  eapply wp_mono; [apply new_pool_ok|].
  intros [p|] s4 Hp4; wsteps.
  2:{ destruct Hp4 as [HL4 _]. eapply wp_mono; [apply discard_server_ok|]. intros ? s5 [HL5 _]. wsteps. split_and!; [done|done|lia]. }
  specialize (HF3 eq_refl). destruct Hp4 as ([HL4 HF4] & _ & Hq & _ & Hmq & Hmw & Hst).
  assert (∀ msg n', open_sockets n' = open_sockets n →
    wp (lams ← free_pool lams p; _ ← discard_server (bind_addr cfg); mret (None, lams, msg, n'))
      (made (Some cfg) lams n s) s4) as Hfail.
  { intros msg n' Hn'. wsteps. eapply wp_mono; [by apply free_pool_ok|]. intros ? s5 [-> [HL5 HF5]]. wsteps.
    eapply wp_mono; [apply discard_server_ok|]. intros ? s6 [HL6 HF6]. wsteps. split_and!; [done|done|lia]. }
  assert (balance (server_blocks cfg) false s s4) as Hbal by (unfold server_blocks; split; lia).
  assert (max_workers p ≠ 0) by (rewrite Hmw; unfold pool_config; cbn [cfg_max_workers]; destruct (Z.ltb_spec 0 (thread_pool_size cfg)); lia).
  destruct (cfg_use_tls cfg) eqn:Etls; cbn [negb].
  2:{ wsteps. split_and!; [done|done|]. exists cfg. split_and!; try done. split; [by intros []|by rewrite Etls]. }
  destruct (cert_file cfg) as [cert|], (key_file cfg) as [key|]; try by apply Hfail.
  destruct (ak_tcp_tls_ctx_new _ _ _ _ _ _ _ _) as [[ssl e'] n'] eqn:Essl. apply tls_ctx_new_law in Essl.
  destruct ssl as [ssl|]; [|by apply Hfail]. wsteps. split_and!; [done|done|]. exists cfg. split_and!; try done.
Qed.
End making.

Section operations.
Context `{Allocator} `{SocketLaws}.

Lemma open_close_open fd n0 n :
  fd ∉ open_sockets n0 → open_sockets n = {[ fd ]} ∪ open_sockets n0 → (open_sockets n ∖ {[ fd ]}) = open_sockets n0.
Proof.
  intros Hfd ->. apply set_eq. intros x. rewrite elem_of_difference, elem_of_union, elem_of_singleton.
  split; [tauto|]. intros Hx. split; [by right|by intros ->].
Qed.

Lemma open_listener_ok s error n :
  let '(ok, s', _, n') := open_listener s error n in
  s' = with_listen s (listen_fd s')
  ∧ if ok : bool then (listen_fd s' ∉ open_sockets n) ∧ open_sockets n' = {[ listen_fd s' ]} ∪ open_sockets n ∧ 0 <= listen_fd s'
    else listen_fd s' = AK_INVALID_SOCKET ∧ open_sockets n' = open_sockets n.
Proof.
  unfold open_listener. destruct (ak_tcp_socket_create_for_addr _ _ _) as [[fd e1] n1] eqn:E1. apply create_law in E1.
  destruct (Z.eqb_spec fd AK_INVALID_SOCKET) as [->|Hne].
  { split; [done|]. split; [done|]. destruct E1 as [[_ E1]|(? & _)]; [done|]. by unfold AK_INVALID_SOCKET in *. }
  destruct E1 as [[? _]|(Hpos & Hnew & E1)]; [done|].
  destruct (ak_tcp_socket_bind _ _ _ _ _) as [[rc e2] n2] eqn:E2. apply bind_law in E2.
  destruct (negb (rc =? 0)).
  { split; [done|]. split; [done|]. rewrite close_law. apply (open_close_open _ n); [done|congruence]. }
  destruct (ak_tcp_socket_listen _ _ _ _) as [[rc' e3] n3] eqn:E3. apply listen_law in E3.
  destruct (negb (rc' =? 0)).
  { split; [done|]. split; [done|]. rewrite close_law. apply (open_close_open _ n); [done|congruence]. }
  split; [done|]. simpl. split_and!; [done|congruence|done].
Qed.

(** [lambdas lams'] is [lambdas lams] without some. *)
Lemma lambda_frees_ok lams (x : option positive) s :
  (∀ y, x = Some y → is_Some (lambdas lams !! y)) →
  wp (ak_lambda_free lams x) (λ lams' s', m_live s' = m_live s - zlen (option_list x)
    ∧ lambdas lams' = match x with Some y => delete y (lambdas lams) | None => lambdas lams end) s.
Proof.
  intros Hx. destruct x as [y|]; simpl.
  - eapply wp_mono; [apply wp_lambda_free; by apply Hx|]. intros lams' s' (HL & _ & Hs & _). split; [|done].
    unfold zlen. simpl. lia.
  - wsteps. split; [unfold zlen; simpl; lia|done].
Qed.

(** The lambdas of some pointers. *)
Definition lambdas_of (xs : list (option positive)) : list positive := xs ≫= option_list.

(** Three lambdas, all different, are freed one after the other. *)
Lemma three_frees_ok {A} lams x y z (k : lstore → M A) Q s :
  NoDup (lambdas_of [x; y; z]) → Forall (λ l, is_Some (lambdas lams !! l)) (lambdas_of [x; y; z]) →
  (∀ lams' s', m_live s' = m_live s - zlen (lambdas_of [x; y; z]) →
     (∀ l, l ∈ lambdas_of [x; y; z] → lambdas lams' !! l = None) →
     (∀ l, l ∉ lambdas_of [x; y; z] → lambdas lams' !! l = lambdas lams !! l) → wp (k lams') Q s') →
  wp (lams ← ak_lambda_free lams x; lams ← ak_lambda_free lams y; lams ← ak_lambda_free lams z; k lams) Q s.
Proof.
  unfold lambdas_of. simpl. rewrite app_nil_r. intros Hnd Hl Hk. rewrite !Forall_app in Hl. destruct Hl as (Hl1 & Hl2 & Hl3).
  apply list.NoDup_app in Hnd as (_ & Hd1 & Hnd). apply list.NoDup_app in Hnd as (_ & Hd2 & _).
  assert (∀ l (x : option positive), x = Some l → l ∈ option_list x) as Hin by (intros l ? ->; by left).
  wsteps. eapply wp_mono; [apply lambda_frees_ok|]. { intros l Hx. rewrite Forall_forall in Hl1. by apply Hl1, list_elem_of_In, Hin. }
  intros lams1 s1 [HL1 E1]. wsteps. eapply wp_mono; [apply lambda_frees_ok|].
  { intros l Hy. rewrite Forall_forall in Hl2. rewrite E1. assert (is_Some (lambdas lams !! l)) by by apply Hl2, list_elem_of_In, Hin.
    destruct x as [p|]; [|done]. rewrite lookup_delete_ne; [done|]. intros ->.
    apply (Hd1 l); [by left|]. apply elem_of_app. left. by apply Hin. }
  intros lams2 s2 [HL2 E2]. wsteps. eapply wp_mono; [apply lambda_frees_ok|].
  { intros l Hz. rewrite Forall_forall in Hl3. rewrite E2, E1. assert (is_Some (lambdas lams !! l)) by by apply Hl3, list_elem_of_In, Hin.
    assert (∀ p, y = Some p → p ≠ l) by (intros p Hp ->; apply (Hd2 l); by apply Hin).
    assert (∀ p, x = Some p → p ≠ l).
    { intros p Hp ->. apply (Hd1 l); [by apply Hin|]. apply elem_of_app. right. by apply Hin. }
    destruct x, y; rewrite ?lookup_delete_ne by auto; done. }
  intros lams3 s3 [HL3 E3]. apply Hk.
  - rewrite !zlen_app. lia.
  - intros l. rewrite !elem_of_app, E3, E2, E1.
    destruct x, y, z; simpl; rewrite ?list_elem_of_singleton, ?elem_of_nil; intros [Hx|[Hx|Hx]]; try done; subst;
      rewrite ?lookup_delete_None; naive_solver.
  - intros l. rewrite !elem_of_app, E3, E2, E1.
    destruct x, y, z; simpl; rewrite ?list_elem_of_singleton; intros Hx; rewrite ?lookup_delete_ne by naive_solver; done.
Qed.

Definition server_lambdas (cfg : ak_tcp_server_config_t) : list positive :=
  lambdas_of [on_connect cfg; on_handle cfg; on_disconnect cfg].

Lemma server_free_ok s pool lams n m :
  queue pool = [] → NoDup (server_lambdas (settings s)) →
  Forall (λ x, is_Some (lambdas lams !! x)) (server_lambdas (settings s)) →
  wp (ak_tcp_server_free (Some (s, pool)) lams n) (λ '(lams', n') m',
    open_sockets n' = open_sockets n
    ∧ m_live m' = m_live m - server_blocks (settings s) - zlen (ip_trackers s) - zlen (server_lambdas (settings s))
    ∧ (∀ x, x ∈ server_lambdas (settings s) → lambdas lams' !! x = None)
    ∧ (∀ x, x ∉ server_lambdas (settings s) → lambdas lams' !! x = lambdas lams !! x)) m.
Proof.
  intros Hq Hnd Hl. unfold ak_tcp_server_free. apply wp_bind.
  eapply wp_mono; [by apply free_pool_ok|]. intros ? m1 [-> [HL1 _]].
  set (n1 := match ssl_ctx s with Some _ => _ | None => n end).
  assert (open_sockets n1 = open_sockets n) as Hn1 by (unfold n1; destruct (ssl_ctx s); [apply tls_ctx_free_law|done]).
  clearbody n1. apply three_frees_ok; [done|done|]. intros lams' m2 HL2 Hgone Hkept. wsteps.
  eapply wp_mono; [apply ip_trackers_free_ok|]. intros ? m3 [HL3 _]. wsteps.
  eapply wp_mono; [apply discard_server_ok|]. intros ? m4 [HL4 _]. wsteps.
  unfold server_blocks, server_lambdas in *. split_and!; [done|lia|done|done].
Qed.

(** What the pool does with the task of a connection. *)
Definition worker_task (l : positive) : ak_task_t := mk_task l None AK24_TASK_STATE_PENDING.

Lemma hand_over_ok f task lams pool lock_ok s :
  lambdas_fresh lams → f ≠ 0 →
  wp (hand_over f task lams pool lock_ok) (λ '(h, lams', pool') s', match h with
    | No_task => lams' = lams ∧ pool' = pool ∧ m_live s' = m_live s
    | No_lambda => lams' = lams ∧ pool' = pool ∧ m_live s' = m_live s + 1
    | Taken => pool' = with_queue pool (queue pool ++ [worker_task (next_lambda lams)]) (u64 (queue_size pool + 1))
        ∧ lambdas lams' = <[next_lambda lams := mk_lambda f task 0]> (lambdas lams) ∧ m_live s' = m_live s + 4
        ∧ state pool = AK24_POOL_STATE_RUNNING ∧ (0 < max_queue_size pool → queue_size pool < max_queue_size pool)
    | Refused l => pool' = pool ∧ l = next_lambda lams ∧
        ((lambdas lams' = <[l := mk_lambda f task 0]> (lambdas lams) ∧ m_live s' = m_live s + 2)
         ∨ (lambdas lams' = lambdas lams ∧ m_live s' = m_live s + 1))
    end) s.
Proof.
  intros Hf Hfn. unfold hand_over. wsteps. apply wp_alloc_obj. intros [|] s1 [HL1 HF1]; cbn [negb]; wsteps; [|split_and!; [done|done|lia]].
  unfold ak_lambda_new. rewrite (proj2 (Z.eqb_neq f 0)) by done. unfold add_lambda. wsteps.
  apply wp_alloc_obj. intros [|] s2 [HL2 HF2]; wsteps; [|split_and!; [done|done|lia]].
  set (st := mk_lstore _ _ _). set (l := next_lambda lams).
  assert (lambdas st = <[l := mk_lambda f task 0]> (lambdas lams)) as Est by done. clearbody st.
  unfold ak_thread_pool_enqueue. case_bool_decide as Hst; cbn [negb]; wsteps; [|by (split_and!; [done|done|left; split; [done|lia]])].
  destruct (_ && _) eqn:Efull; wsteps; [by (split_and!; [done|done|left; split; [done|lia]])|].
  unfold task_new. wsteps. apply wp_alloc_obj. intros [|] s3 [HL3 HF3]; cbn [negb]; wsteps;
    [|by (split_and!; [done|done|left; split; [done|lia]])].
  destruct lock_ok; cbn [negb]; wsteps.
  2:{ apply wp_free_obj. intros s4 HL4 HF4. wsteps. split_and!; [done|done|]. left. split; [done|lia]. }
  apply wp_alloc_obj. intros [|] s4 [HL4 HF4]; cbn [negb]; wsteps.
  - split_and!; try done; [lia|]. intros Hpos. rewrite (proj2 (Z.ltb_lt _ _) Hpos) in Efull. simpl in Efull. apply Z.leb_gt in Efull. lia.
  - unfold task_free. cbn [task_lambda completion_callback]. wsteps.
    eapply wp_mono; [apply wp_lambda_free; rewrite Est, lookup_insert_eq; by eexists|]. intros st2 s5 (Hd & _ & HL5 & _). wsteps.
    unfold ak_lambda_free. wsteps. apply wp_free_obj. intros s6 HL6 _. wsteps. split_and!; [done|done|]. right. split; [|lia].
    rewrite Hd, Est. apply delete_insert_id. by apply next_lambda_none.
Qed.
End operations.

(** * The theorems *)

Section theorems.
Context `{Allocator} `{SocketLaws}.

(** C11: The limits of an address.  In every history of connections that come and
    go, the tracker of an address has the number of those that are there, which is
    at most the limit for one address, and no second has more new connections from it
    than the rate; a connection is turned away in exactly these two cases. *)
Theorem ak_tcp_ip_limits_spec s adm pres t :
  history s adm pres t → tracking (settings s) = true →
  zlen adm < 2 ^ 63 → connection_rate_limit (settings s) < 2 ^ 63 →
  let ip_limit := max_connections_per_ip (settings s) in
  let rate := connection_rate_limit (settings s) in
  (∀ a, is_ip a → active_of (ip_trackers s) a = count a pres)
  ∧ (0 < ip_limit → ∀ a, count a pres <= ip_limit)
  ∧ (0 < rate → ∀ a u, count (a, u) adm <= rate)
  ∧ ∀ now a m, t <= now → is_ip a →
      wp (track_ip s a now) (λ '(ip_limited, rate_limited, s') m', m_fails m' = m_fails m →
        ip_limited = (0 <? ip_limit) && (ip_limit <=? count a pres)
        ∧ rate_limited = negb ip_limited && (0 <? rate) && (rate <=? count (a, now) adm)
        ∧ active_of (ip_trackers s') a = count a pres + (if ip_limited || rate_limited then 0 else 1)) m.
Proof.
  intros Hh Htr Hbig Hr ip_limit rate. pose proof (history_invariant s adm pres t Hh Hbig Hr Htr) as Hok.
  assert (∀ s adm pres t, history_ok s adm pres t → ∀ a, is_ip a → active_of (ip_trackers s) a = count a pres) as Hact.
  { intros s1 adm1 pres1 t1 Hok1 a Ha. pose proof (hi_each _ _ _ _ Hok1 a Ha) as He. unfold active_of.
    destruct (tracker_of (ip_trackers s1) a) as [tr|]; destruct He as [He _]; [done|by rewrite He]. }
  split_and!; [by eapply Hact|apply Hok|apply Hok|]. intros now a m Ht Ha.
  pose proof (track_ip_ok s a now m (hi_trackers _ _ _ _ Hok) Ha) as Hw. unfold wp in *.
  destruct (track_ip s a now m) as [[[[il rl] s'] m']| |] eqn:E; try done. intros Hf.
  destruct (history_try _ _ _ _ _ _ _ _ _ _ _ Hok Hbig Hr Htr Ht Ha E Hf) as (Hil & Hrl & Hset & Hok').
  split_and!; [done|done|]. rewrite (Hact _ _ _ _ Hok') by done.
  destruct (il || rl); [lia|]. rewrite count_cons, bool_decide_eq_true_2 by done. lia.
Qed.

(** Making and freeing a server.  [ak_tcp_server_new] answers a server that is
    stopped, has the configuration with its defaults, and a pool with room for
    the pending tasks, in a known number of blocks; or null, with no block kept.
    Freeing it later gives back these blocks, its trackers and its lambdas, and
    touches no other lambda and no socket. *)
Theorem ak_tcp_server_lifetime_spec cfg sys threads_ok lams error n s :
  wp (ak_tcp_server_new cfg sys threads_ok lams error n) (λ '(r, lams', _, n') s',
    lams' = lams ∧ open_sockets n' = open_sockets n ∧ match r with
    | None => m_live s' = m_live s
    | Some (srv, p) => ∃ c ssl, cfg = Some c ∧ on_handle c ≠ None ∧ port c ≠ 0 ∧ srv = fresh_server c ssl
        ∧ (is_Some ssl ↔ cfg_use_tls c = true) ∧ balance (server_blocks c) false s s'
        ∧ queue p = [] ∧ state p = AK24_POOL_STATE_RUNNING ∧ max_queue_size p = max_pending_tasks c
        ∧ ∀ srv2 p2 lams2 n2 m, settings srv2 = settings srv → queue p2 = [] →
          NoDup (server_lambdas c) → Forall (λ x, is_Some (lambdas lams2 !! x)) (server_lambdas c) →
          wp (ak_tcp_server_free (Some (srv2, p2)) lams2 n2) (λ '(lams3, n3) m',
            open_sockets n3 = open_sockets n2
            ∧ m_live m' = m_live m - server_blocks c - zlen (ip_trackers srv2) - zlen (server_lambdas c)
            ∧ (∀ x, lambdas lams3 !! x = if bool_decide (x ∈ server_lambdas c) then None else lambdas lams2 !! x)) m
    end) s.
Proof.
  eapply wp_mono; [apply server_new_ok|]. intros [[[[[srv p]|] lams'] e'] n'] s' (Hl & Hn & Hr); [|done].
  split_and!; [done|done|]. destruct Hr as (c & -> & Hh & Hp & Hsrv & Hssl & HB & Hq & Hst & Hmq & _).
  exists c, (ssl_ctx srv). split_and!; try done. intros srv2 p2 lams2 n2 m Hset Hq2 Hnd Hlive.
  rewrite Hsrv in Hset. eapply wp_mono; [by apply server_free_ok; rewrite ?Hset|].
  intros [lams3 n3] m' (Hn3 & HL & Hin & Hout). rewrite Hset in *. split_and!; [done|done|].
  intros x. case_bool_decide; [by apply Hin|by apply Hout].
Qed.

(** Handing a connection to the pool.  Its task is queued last, once, when the
    pool runs and its queue has room; when it is refused, what was made for it is
    freed.  But if the pool refuses it because a node of its queue cannot be
    allocated, the pool has freed the lambda already, and the accepting thread frees
    it again. *)
Theorem ak_tcp_hand_over_spec f task lams pool lock_ok s :
  lambdas_fresh lams → f ≠ 0 →
  wp (hand_over f task lams pool lock_ok) (λ '(h, lams', pool') s', match h with
    | Taken => queue pool' = queue pool ++ [worker_task (next_lambda lams)]
        ∧ state pool = AK24_POOL_STATE_RUNNING ∧ (0 < max_queue_size pool → queue_size pool < max_queue_size pool)
        ∧ lambdas lams' = <[next_lambda lams := mk_lambda f task 0]> (lambdas lams) ∧ m_live s' = m_live s + 4
    | _ => pool' = pool ∧
        (wp (drop_task h lams') (λ lams2 s2, lambdas lams2 = lambdas lams ∧ m_live s2 = m_live s) s'
         ∨ (∃ l, h = Refused l) ∧ lambdas lams' = lambdas lams ∧ drop_task h lams' s' = Undef)
    end) s.
Proof.
  intros Hf Hfn. eapply wp_mono; [by apply hand_over_ok|]. intros [[h lams'] pool'] s' Hh. destruct h as [| | |l].
  - destruct Hh as (-> & -> & HL). split; [done|]. left. simpl. by wsteps.
  - destruct Hh as (-> & -> & HL). split; [done|]. left. simpl. wsteps. apply wp_free_obj. intros s2 HL2 _. wsteps. split; [done|lia].
  - destruct Hh as (-> & El & HL & Hst & Hq). by split_and!.
  - destruct Hh as (-> & -> & [[El HL]|[El HL]]); (split; [done|]); [left|right].
    + simpl. apply wp_bind. eapply wp_mono; [apply wp_lambda_free; rewrite El, lookup_insert_eq; by eexists|].
      intros lams2 s2 (Hd & _ & HL2 & _). wsteps. apply wp_free_obj. intros s3 HL3 _. wsteps. split; [|lia].
      rewrite Hd, El. apply delete_insert_id. by apply next_lambda_none.
    + split_and!; [by eexists|done|]. simpl. unfold mbind, M_bind, ak_lambda_free, lift, deref_lambda.
      unfold mbind, M_bind. by rewrite El, next_lambda_none.
Qed.
End theorems.

(** * Witnesses *)

Section witnesses.
#[local] Existing Instances always_alloc toy_sockets toy_laws.

(** A server that takes two connections of an address, one in a second. *)
Definition w_cfg : ak_tcp_server_config_t :=
  mk_server_config None 80 2 0 None (Some 1%positive) None 4 0 0 2 1 0 0 100 false 0 false 0 0 0 0 0 0 0
    false None None None false None 0.
Definition w_ip : list Z := bytes_of "10.0.0.1"%str.
Definition w_server : ak_tcp_server_internal_t := fresh_server w_cfg None.
Definition w_tracked : ak_tcp_server_internal_t := with_trackers w_server [mk_tracker w_ip 1 7 1].

Lemma w_is_ip : is_ip w_ip.
Proof. split; [done|]. repeat constructor. Qed.

Example w_rate_limited : track_ip w_tracked w_ip 7 mem0 = Ret (false, true, w_tracked, mem0).
Proof. reflexivity. Qed.

Lemma ak_tcp_ip_limits_spec_witness :
  active_of (ip_trackers w_tracked) w_ip = 1
  ∧ wp (track_ip w_tracked w_ip 8) (λ '(ip_limited, rate_limited, s') m', m_fails m' = m_fails mem0 →
      ip_limited = false ∧ rate_limited = false ∧ active_of (ip_trackers s') w_ip = 2) mem0.
Proof.
  assert (history w_tracked [(w_ip, 7)] [w_ip] 7) as Hh.
  { apply (h_try w_server [] [] 0 7 w_ip mem0 false false w_tracked (Mem 1 1 0)); try done; [by apply h_start|apply w_is_ip]. }
  pose proof (ak_tcp_ip_limits_spec w_tracked [(w_ip, 7)] [w_ip] 7 Hh eq_refl ltac:(done) ltac:(done)) as (Ha & _ & _ & Hw).
  split; [exact (Ha w_ip w_is_ip)|exact (Hw 8 w_ip mem0 ltac:(lia) w_is_ip)].
Defined.

Definition w_lstore : lstore := mk_lstore {[ 1%positive := mk_lambda 5 0 0 ]} 2 [].
Definition w_task_pool : ak_thread_pool_t := mk_pool 2 0 2 0 [] 0 AK24_POOL_STATE_RUNNING.

(** Memory that fails at the fourth request. *)
Definition fourth_fails : Allocator := {|
  alloc_ok n _ := negb (n =? 3)%nat;
  alloc_fill _ _ := 0;
|}.

Example refused_twice :
  match @hand_over fourth_fails 9 100 w_lstore w_task_pool true mem0 with
  | Ret (h, lams, _, s) => match h with Refused 2 => true | _ => false end && match drop_task h lams s with Undef => true | _ => false end
  | _ => false
  end = true.
Proof. vm_compute. reflexivity. Qed.

Lemma ak_tcp_hand_over_spec_witness :
  wp (hand_over 9 100 w_lstore w_task_pool true) (λ '(h, lams', pool') s', match h with
    | Taken => queue pool' = [worker_task 2] ∧ m_live s' = 4
    | _ => True
    end) mem0.
Proof.
  assert (lambdas_fresh w_lstore) as Hf by (intros x l; simpl; intros [<- _]%lookup_singleton_Some; lia).
  eapply wp_mono; [by apply (ak_tcp_hand_over_spec 9 100 w_lstore w_task_pool true mem0 Hf)|].
  intros [[h lams'] pool'] s' Hh. destruct h; try done. destruct Hh as (Hq & _ & _ & _ & HL). by split.
Defined.
End witnesses.
