(* ===== verification/Serving.v ===== *)
(** Serving: the threads of the server of [kernel/tcp/src/tcp.c].

    The thread of [accept_loop], the handlers that the pool runs for the
    connections, and the thread that starts and stops the server share the record of
    [Server], the network and the store of contexts.  A critical section is one step
    of [serve_step], as is what a thread does between two of them on what only it
    holds.  The pool may run the tasks it took in any order ([Threads] shows that it
    runs each once); a handler makes any calls on its connection. *)

From stdpp Require Import gmap relations.
From S2P Require Import Prelude Lambdas Threads Buffer Lists Maps Contexts Sockets Connections Server.

Section serving.
Context `{Allocator} `{Sockets}.

(** Where [accept_loop] is, with the connection it holds. *)
Inductive acceptor : Type :=
| A_top                                              (* about to read [running] *)
| A_poll                                             (* about to poll the listening socket *)
| A_accept                                           (* a connection is there *)
| A_failed                                           (* no connection; reads [running] *)
| A_limit (fd : Z) (addr : list Z) (rport : Z)       (* accepted *)
| A_track (fd : Z) (addr : list Z) (rport : Z)       (* the server is not full *)
| A_ip_limited (fd : Z)
| A_rate_limited (fd : Z)
| A_close (fd : Z)                                   (* refused *)
| A_ask (fd : Z) (addr : list Z) (rport : Z)         (* tracked; about to ask [on_connect] *)
| A_drop (fd : Z) (addr : list Z)                    (* about to untrack and close *)
| A_open (fd : Z) (addr : list Z) (rport : Z)        (* let in *)
| A_count (c : ak_tcp_ctx_t)                         (* has a context *)
| A_task (c : ak_tcp_ctx_t)                          (* counted; to be handed over *)
| A_uncount (c : ak_tcp_ctx_t) (full : bool)         (* not handed over *)
| A_untrack (c : ak_tcp_ctx_t)
| A_free (c : ak_tcp_ctx_t)
| A_left.                                            (* the thread has ended, or is none *)

(** Where the task of a connection is. *)
Inductive handler : Type :=
| H_queued (c : ak_tcp_ctx_t)
| H_handle (c : ak_tcp_ctx_t)                        (* in [on_handle] *)
| H_disconnect (c : ak_tcp_ctx_t)                    (* in [on_disconnect] *)
| H_untrack (c : ak_tcp_ctx_t) (det : bool)          (* [det]: it was detached *)
| H_uncount (c : option ak_tcp_ctx_t)                (* none: it was detached *)
| H_free (c : ak_tcp_ctx_t)
| H_over.

(** Where the thread is that starts and stops the server. *)
Inductive owner : Type :=
| O_stopped
| O_serving
| O_closing                                          (* [running] is cleared *)
| O_joining                                          (* waits for [accept_loop] *)
| O_draining                                         (* about to look for handlers *)
| O_waiting                                          (* in [AK24_COND_TIMEDWAIT] *)
| O_pool.                                            (* in [ak_thread_pool_wait] *)

(** The connections that handlers detached stay with the program, which frees them
    when their handlers are over; [untracked] records that a tracker could not be
    allocated. *)
Record world := mk_world {
  server : ak_tcp_server_internal_t;
  w_acceptor : acceptor;
  handlers : list handler;
  w_owner : owner;
  w_net : net;
  w_contexts : Contexts.store;
  detached_conns : list ak_tcp_ctx_t;
  untracked : bool;
}.

(** A signal wakes the thread that waits for the handlers. *)
Definition wake_owner (o : owner) : owner :=
  match o with
  | O_waiting => O_draining
  | _ => o
  end.

(** A step of [accept_loop]. *)
Inductive accept_step : world → world → Prop :=
| as_top s hs o n st ds u :
    accept_step (mk_world s A_top hs o n st ds u)
      (mk_world s (if running s then A_poll else A_left) hs o n st ds u)
| as_poll s hs o n st ds u r n' :
    ak_tcp_socket_poll_read (listen_fd s) 1000 n = (r, n') →
    accept_step (mk_world s A_poll hs o n st ds u)
      (mk_world s (if r =? 0 then A_top else if r <? 0 then A_failed else A_accept) hs o n' st ds u)
| as_accept s hs o n st ds u fd addr rport e e' n' :
    ak_tcp_socket_accept (listen_fd s) e n = (fd, addr, rport, e', n') →
    accept_step (mk_world s A_accept hs o n st ds u)
      (mk_world s (if fd =? AK_INVALID_SOCKET then A_failed else A_limit fd addr rport) hs o n' st ds u)
| as_failed s hs o n st ds u :
    accept_step (mk_world s A_failed hs o n st ds u)
      (mk_world s (if running s then A_top else A_left) hs o n st ds u)
| as_limit s hs o n st ds u fd addr rport full s' :
    check_limit s = (full, s') →
    accept_step (mk_world s (A_limit fd addr rport) hs o n st ds u)
      (mk_world s' (if full : bool then A_close fd else A_track fd addr rport) hs o n st ds u)
| as_track s hs o n st ds u fd addr rport now m m' il rl s' :
    track_ip s addr now m = Ret (il, rl, s', m') →
    accept_step (mk_world s (A_track fd addr rport) hs o n st ds u)
      (mk_world s' (if il : bool then A_ip_limited fd else if rl : bool then A_rate_limited fd else A_ask fd addr rport)
         hs o n st ds (u || tracking (settings s) && bool_decide (tracker_of (ip_trackers s') addr = None)))
| as_ip_limited s hs o n st ds u fd :
    accept_step (mk_world s (A_ip_limited fd) hs o n st ds u) (mk_world (count_ip_limited s) (A_close fd) hs o n st ds u)
| as_rate_limited s hs o n st ds u fd :
    accept_step (mk_world s (A_rate_limited fd) hs o n st ds u) (mk_world (count_rate_limited s) (A_close fd) hs o n st ds u)
| as_close s hs o n st ds u fd :
    accept_step (mk_world s (A_close fd) hs o n st ds u) (mk_world s A_top hs o (ak_tcp_socket_close fd n) st ds u)
| as_ask s hs o n st ds u fd addr rport (accept : bool) :
    accept = true ∨ on_connect (settings s) ≠ None →
    accept_step (mk_world s (A_ask fd addr rport) hs o n st ds u)
      (mk_world s (if accept then A_open fd addr rport else A_drop fd addr) hs o n st ds u)
| as_drop s hs o n st ds u fd addr :
    accept_step (mk_world s (A_drop fd addr) hs o n st ds u)
      (mk_world (ip_tracker_decrement s addr) (A_close fd) hs o n st ds u)
| as_open s hs o n st ds u fd addr rport e m r st' e' n' m' :
    open_connection s st fd addr rport e n m = Ret (r, st', e', n', m') →
    accept_step (mk_world s (A_open fd addr rport) hs o n st ds u)
      (mk_world s (match r with
                   | No_context => A_drop fd addr
                   | No_handshake c => A_untrack c
                   | Opened c => A_count c
                   end) hs o n' st' ds u)
| as_count s hs o n st ds u c :
    accept_step (mk_world s (A_count c) hs o n st ds u) (mk_world (count_accepted s) (A_task c) hs o n st ds u)
| as_task_failed s hs o n st ds u c full :
    accept_step (mk_world s (A_task c) hs o n st ds u) (mk_world s (A_uncount c full) hs o n st ds u)
| as_task_taken s hs o n st ds u c :
    accept_step (mk_world s (A_task c) hs o n st ds u) (mk_world s A_top (hs ++ [H_queued c]) o n st ds u)
| as_uncount s hs o n st ds u c (full : bool) :
    accept_step (mk_world s (A_uncount c full) hs o n st ds u)
      (mk_world (if full then count_queue_full s else uncount s) (A_untrack c) hs o n st ds u)
| as_untrack s hs o n st ds u c :
    accept_step (mk_world s (A_untrack c) hs o n st ds u)
      (mk_world (ip_tracker_decrement s (remote_ip c)) (A_free c) hs o n st ds u)
| as_free s hs o n st ds u c m st' n' m' :
    ak_tcp_ctx_free st (Some c) n m = Ret (st', n', m') →
    accept_step (mk_world s (A_free c) hs o n st ds u) (mk_world s A_top hs o n' st' ds u).

(** A step of a handler. *)
Inductive handle_step : world → world → Prop :=
| hs_begin s a hs o n st ds u i c :
    hs !! i = Some (H_queued c) →
    handle_step (mk_world s a hs o n st ds u) (mk_world s a (<[i := H_handle c]> hs) o n st ds u)
| hs_handled s a hs o n st ds u i c :
    hs !! i = Some (H_handle c) →
    handle_step (mk_world s a hs o n st ds u)
      (mk_world s a (<[i := if ak_tcp_ctx_is_detached (Some c) then H_untrack c true
                           else if bool_decide (is_Some (on_disconnect (settings s))) then H_disconnect c
                           else H_untrack c false]> hs) o n st ds u)
| hs_disconnected s a hs o n st ds u i c :
    hs !! i = Some (H_disconnect c) →
    handle_step (mk_world s a hs o n st ds u) (mk_world s a (<[i := H_untrack c false]> hs) o n st ds u)
| hs_untrack s a hs o n st ds u i c (det : bool) :
    hs !! i = Some (H_untrack c det) →
    handle_step (mk_world s a hs o n st ds u)
      (mk_world (ip_tracker_decrement s (remote_ip c)) a (<[i := H_uncount (if det then None else Some c)]> hs) o n st
         (if det then c :: ds else ds) u)
| hs_uncount s a hs o n st ds u i c signal s' :
    hs !! i = Some (H_uncount c) → handler_over s = (signal, s') →
    handle_step (mk_world s a hs o n st ds u)
      (mk_world s' a (<[i := match c with Some c => H_free c | None => H_over end]> hs)
         (if signal : bool then wake_owner o else o) n st ds u)
| hs_free s a hs o n st ds u i c m st' n' m' :
    hs !! i = Some (H_free c) → ak_tcp_ctx_free st (Some c) n m = Ret (st', n', m') →
    handle_step (mk_world s a hs o n st ds u) (mk_world s a (<[i := H_over]> hs) o n' st' ds u).

(** A step of the thread that starts and stops the server. *)
Inductive owner_step : world → world → Prop :=
| os_start s hs n st ds u thread_ok e rc s' e' n' :
    ak_tcp_server_start (Some s) thread_ok e n = (rc, Some s', e', n') →
    owner_step (mk_world s A_left hs O_stopped n st ds u)
      (mk_world s' (if rc =? 0 then A_top else A_left) hs (if rc =? 0 then O_serving else O_stopped) n' st ds u)
| os_stop s a hs n st ds u s' :
    stop_begin s = (true, s') →
    owner_step (mk_world s a hs O_serving n st ds u) (mk_world s' a hs O_closing n st ds u)
| os_close s a hs n st ds u s' n' :
    close_listener s n = (s', n') →
    owner_step (mk_world s a hs O_closing n st ds u) (mk_world s' a hs O_joining n' st ds u)
| os_join s hs n st ds u :
    owner_step (mk_world s A_left hs O_joining n st ds u)
      (mk_world s A_left hs (if 0 <? shutdown_drain_timeout_ms (settings s) then O_draining else O_pool) n st ds u)
| os_drain s a hs n st ds u waits s' :
    drain_check s = (waits, s') →
    owner_step (mk_world s a hs O_draining n st ds u) (mk_world s' a hs (if waits : bool then O_waiting else O_pool) n st ds u)
| os_pool s a hs n st ds u :
    Forall (.= H_over) hs →
    owner_step (mk_world s a hs O_pool n st ds u) (mk_world s a hs O_stopped n st ds u).

(** The wait ends by its timeout, or for no reason. *)
Inductive wait_step : world → world → Prop :=
| wt_timeout s a hs n st ds u :
    wait_step (mk_world s a hs O_waiting n st ds u) (mk_world (with_running s (running s) false) a hs O_pool n st ds u)
| wt_spurious s a hs n st ds u :
    wait_step (mk_world s a hs O_waiting n st ds u) (mk_world s a hs O_draining n st ds u).

(** What the program does: calls on the connections of its handlers and on those
    that were detached, which it may free. *)
Inductive program_step : world → world → Prop :=
| pr_handle s a hs o n st ds u i c st' n' c' :
    hs !! i = Some (H_handle c) → conn_op (st, n, c) (st', n', c') →
    program_step (mk_world s a hs o n st ds u) (mk_world s a (<[i := H_handle c']> hs) o n' st' ds u)
| pr_disconnect s a hs o n st ds u i c st' n' c' :
    hs !! i = Some (H_disconnect c) → conn_op (st, n, c) (st', n', c') →
    program_step (mk_world s a hs o n st ds u) (mk_world s a (<[i := H_disconnect c']> hs) o n' st' ds u)
| pr_detached s a hs o n st ds1 c ds2 u st' n' c' :
    conn_op (st, n, c) (st', n', c') →
    program_step (mk_world s a hs o n st (ds1 ++ c :: ds2) u) (mk_world s a hs o n' st' (ds1 ++ c' :: ds2) u)
| pr_free s a hs o n st ds1 c ds2 u m st' n' m' :
    ak_tcp_ctx_free st (Some c) n m = Ret (st', n', m') →
    program_step (mk_world s a hs o n st (ds1 ++ c :: ds2) u) (mk_world s a hs o n' st' (ds1 ++ ds2) u).

Inductive serve_step : world → world → Prop :=
| ss_accept w w' : accept_step w w' → serve_step w w'
| ss_handle w w' : handle_step w w' → serve_step w w'
| ss_owner w w' : owner_step w w' → serve_step w w'
| ss_wait w w' : wait_step w w' → serve_step w w'
| ss_program w w' : program_step w w' → serve_step w w'.

(** A server that [ak_tcp_server_new] has just made. *)
Definition new_world (cfg : ak_tcp_server_config_t) (ssl : option positive) (n : net) (st : Contexts.store) : world :=
  mk_world (fresh_server cfg ssl) A_left [] O_stopped n st [] false.
End serving.

(** * Sockets and connections that are owned *)

Section owning.
Context `{Allocator} `{SocketLaws}.

Definition socks (cs : list ak_tcp_ctx_t) : list Z := filter (λ fd, fd ≠ AK_INVALID_SOCKET) (socket_fd <$> cs).

(** The server has the sockets [raws] and the connections [cs]: the connections are
    usable, each has user data of its own, and the sockets, all different, are the
    open ones besides those of the rest of the program, [base]. *)
Record owns (base : gset Z) (n : net) (st : Contexts.store) (raws : list Z) (cs : list ak_tcp_ctx_t) : Prop := {
  ow_contexts : store_wf st;
  ow_conns : Forall (λ c, ∃ p cx queue, conn_ok st n c p cx queue) cs;
  ow_meta : NoDup (metadata <$> cs);
  ow_socks : NoDup (raws ++ socks cs);
  ow_base fd : fd ∈ raws ++ socks cs → fd ∉ base;
  ow_open fd : fd ∈ open_sockets n ↔ fd ∈ base ∨ fd ∈ raws ++ socks cs;
}.

#[export] Instance socks_perm : Proper ((≡ₚ) ==> (≡ₚ)) socks.
Proof. intros cs cs' Hcs. unfold socks. by rewrite Hcs. Qed.

Lemma owns_perm base n st raws raws' cs cs' :
  owns base n st raws cs → raws ≡ₚ raws' → cs ≡ₚ cs' → owns base n st raws' cs'.
Proof.
  intros [W C M S B O] Hr Hc. split; try done.
  - by rewrite <- Hc.
  - by rewrite <- Hc.
  - by rewrite <- Hr, <- Hc.
  - intros fd. rewrite <- Hr, <- Hc. apply B.
  - intros fd. rewrite <- Hr, <- Hc. apply O.
Qed.

Lemma socks_cons c cs :
  socks (c :: cs) = (if bool_decide (socket_fd c = AK_INVALID_SOCKET) then [] else [socket_fd c]) ++ socks cs.
Proof.
  unfold socks. rewrite fmap_cons, filter_cons. destruct (decide (socket_fd c ≠ AK_INVALID_SOCKET)) as [E|E].
  - by rewrite bool_decide_eq_false_2.
  - rewrite bool_decide_eq_true_2; [done|]. by destruct (decide (socket_fd c = AK_INVALID_SOCKET)).
Qed.

Lemma socks_valid fd cs : fd ∈ socks cs ↔ fd ≠ AK_INVALID_SOCKET ∧ ∃ c, c ∈ cs ∧ fd = socket_fd c.
Proof.
  unfold socks. rewrite list_elem_of_filter, list_elem_of_fmap.
  split; [intros [Hv (c & -> & Hc)]|intros [Hv (c & Hc & ->)]]; (split; [done|by exists c]).
Qed.

(** A connection is usable in any network in which its socket is open. *)
Lemma conn_ok_net st n n' c p cx queue :
  conn_ok st n c p cx queue → socket_fd c = AK_INVALID_SOCKET ∨ socket_fd c ∈ open_sockets n' → conn_ok st n' c p cx queue.
Proof. intros [R W M O L F P S] Hs. by split. Qed.

Lemma owns_net base n n' st raws cs :
  owns base n st raws cs → open_sockets n' = open_sockets n → owns base n' st raws cs.
Proof.
  intros [W C M S B O] Hn. split; try done; [|by rewrite Hn].
  eapply Forall_impl; [|exact C]. intros c (p & cx & q & Hc). exists p, cx, q.
  eapply conn_ok_net; [done|]. rewrite Hn. apply Hc.
Qed.

(** The store changes at another connection's context, or loses it. *)
Lemma conn_ok_other st st' n c p cx queue q :
  conn_ok st n c p cx queue → q ≠ p → next_addr st' = next_addr st → objects st' !! p = objects st !! p →
  (∀ r c', objects st' !! r = Some c' → r = q ∧ parent c' = None ∨ objects st !! r = Some c') →
  conn_ok st' n c p cx queue.
Proof.
  intros [R W M O L F P S] Hne Ha Hp Hr. split; try done; [by rewrite Hp| |].
  - destruct L as [Ld Lq La Lp]. split; [done|done|by rewrite Ha|]. rewrite P. done.
  - intros r c' Hc'. destruct (Hr r c' Hc') as [[_ E]|E]; [by rewrite E|by apply (F r)].
Qed.

Lemma metas_other c cs st n p cx queue c2 p2 cx2 queue2 :
  NoDup (metadata <$> c :: cs) → conn_ok st n c p cx queue → c2 ∈ cs → conn_ok st n c2 p2 cx2 queue2 → p ≠ p2.
Proof.
  intros [Hn _]%list.NoDup_cons Hc Hin Hc2 ->. apply Hn. rewrite (co_meta _ _ _ _ _ _ Hc), <- (co_meta _ _ _ _ _ _ Hc2).
  by apply list_elem_of_fmap_2.
Qed.

(** The sockets that stay when the first connection loses its own. *)
Lemma owns_lose (base : gset Z) n raws c cs :
  NoDup (raws ++ socks (c :: cs)) → (∀ fd, fd ∈ raws ++ socks (c :: cs) → fd ∉ base) →
  (∀ fd, fd ∈ open_sockets n ↔ fd ∈ base ∨ fd ∈ raws ++ socks (c :: cs)) →
  ∀ n', open_sockets n' = (open_sockets n ∖ {[ socket_fd c ]}) →
  NoDup (raws ++ socks cs) ∧ (∀ fd, fd ∈ raws ++ socks cs → fd ∉ base)
  ∧ (∀ fd, fd ∈ open_sockets n' ↔ fd ∈ base ∨ fd ∈ raws ++ socks cs).
Proof.
  intros S B O n' Hn'. pose proof (socks_cons c cs) as Hcons. case_bool_decide as E; simpl in Hcons.
  - rewrite Hcons in *. split_and!; [done|done|]. by rewrite Hn', E, invalid_absent.
  - assert (raws ++ socks (c :: cs) ≡ₚ socket_fd c :: raws ++ socks cs) as Hp.
    { rewrite Hcons. by rewrite Permutation_middle. }
    rewrite Hp in S. apply list.NoDup_cons in S as [Sn S]. split_and!; [done| |].
    + intros fd Hfd. apply B. rewrite Hp. by right.
    + intros fd. rewrite Hn', elem_of_difference, elem_of_singleton, O, Hp, elem_of_cons.
      specialize (B (socket_fd c)). rewrite Hp, elem_of_cons in B.
      split; [tauto|]. intros Hfd. split; [tauto|]. intros ->. tauto.
Qed.

Lemma owns_others base n n' st st' raws c cs p cx queue :
  owns base n st raws (c :: cs) → conn_ok st n c p cx queue → next_addr st' = next_addr st →
  (∀ r, r ≠ p → objects st' !! r = objects st !! r) → (∀ c', objects st' !! p = Some c' → parent c' = None) →
  (∀ fd, fd ∈ socks cs → fd ∈ open_sockets n') →
  Forall (λ c, ∃ p cx queue, conn_ok st' n' c p cx queue) cs.
Proof.
  intros Ho Hc Ha Hr Hp Hs. apply Forall_forall. intros c2 Hin%list_elem_of_In.
  destruct (Forall_cons_1 _ _ _ (ow_conns _ _ _ _ _ Ho)) as [_ HC]. rewrite Forall_forall in HC.
  destruct (HC c2) as (p2 & cx2 & q2 & Hc2); [by apply list_elem_of_In|].
  pose proof (metas_other _ _ _ _ _ _ _ _ _ _ _ (ow_meta _ _ _ _ _ Ho) Hc Hin Hc2) as Hne.
  exists p2, cx2, q2. apply (conn_ok_net _ n).
  - apply (conn_ok_other st _ _ _ _ _ _ p); [done|done|done|by apply Hr|]. intros r c' Hc'.
    destruct (decide (r = p)) as [->|Hrp]; [left; split; [done|by apply Hp]|right]. by rewrite <- Hr.
  - destruct (decide (socket_fd c2 = AK_INVALID_SOCKET)); [by left|right]. apply Hs, socks_valid. split; [done|by exists c2].
Qed.

(** A call on a connection. *)
Lemma owns_op base n st raws c cs n' st' c' :
  owns base n st raws (c :: cs) → conn_op (st, n, c) (st', n', c') →
  owns base n' st' raws (c' :: cs) ∧ remote_ip c' = remote_ip c.
Proof.
  intros Ho Hop. pose proof Ho as [W C M S B O]. apply Forall_cons_1 in C as [(p & cx & q & Hc) _].
  destruct (conn_op_ok _ _ _ _ _ _ _ _ _ Hop W Hc) as (W' & [Ki Kr Kw Km Ks] & A & cx' & Hc' & E).
  split; [|done].
  assert (NoDup (raws ++ socks (c' :: cs)) ∧ (∀ fd, fd ∈ raws ++ socks (c' :: cs) → fd ∉ base)
    ∧ (∀ fd, fd ∈ open_sockets n' ↔ fd ∈ base ∨ fd ∈ raws ++ socks (c' :: cs))) as (S' & B' & O').
  { rewrite socks_cons. destruct Ks as [[Es En]|[Es En]]; rewrite Es.
    - rewrite <- socks_cons. by rewrite En.
    - rewrite bool_decide_eq_true_2 by done. by apply (owns_lose base n raws c). }
  split; try done; [|by rewrite fmap_cons, Km].
  apply Forall_cons; [by exists p, cx', q|].
  apply (owns_others base n n' st st' raws c cs p cx q Ho Hc A).
  - intros r Hne. rewrite E. by apply lookup_insert_ne.
  - intros c2. rewrite E, lookup_insert_eq. intros [= <-]. apply Hc'.
  - intros fd Hfd. apply O'. right. rewrite socks_cons, !elem_of_app. tauto.
Qed.

(** Freeing a connection. *)
Lemma owns_free base n st raws c cs m :
  owns base n st raws (c :: cs) →
  wp (ak_tcp_ctx_free st (Some c) n) (λ '(st', n') _, owns base n' st' raws cs) m.
Proof.
  intros Ho. pose proof Ho as [W C M S B O]. apply Forall_cons_1 in C as [(p & cx & q & Hc) _].
  eapply wp_mono; [by apply (ctx_free_ok st n c p cx q)|]. intros [st' n'] s' (W' & -> & En & _).
  destruct (owns_lose base n raws c cs S B O n' En) as (S' & B' & O'). apply list.NoDup_cons in M as [_ M].
  set (st2 := mk_store _ _) in *. split; try done.
  apply (owns_others base n n' st st2 raws c cs p cx q Ho Hc); simpl; [done| | |].
  - intros r Hne. by apply lookup_delete_ne.
  - intros c2. by rewrite lookup_delete_eq.
  - intros fd Hfd. apply O'. right. rewrite elem_of_app. by right.
Qed.

(** A connection over a socket. *)
Lemma owns_new base n st fd raws cs addr rport rs ss m :
  owns base n st (fd :: raws) cs → fd ≠ AK_INVALID_SOCKET → rs < 2 ^ 60 → ss < 2 ^ 60 →
  wp (ak_tcp_ctx_new st fd addr rport rs ss) (λ '(oc, st') _, match oc with
    | None => st' = st
    | Some c => owns base n st' raws (c :: cs) ∧ remote_ip c = take 45 (default [] addr)
    end) m.
Proof.
  intros [W C M S B O] Hv Hr Hs. assert (fd ∈ open_sockets n) as Hfd by (apply O; right; by left).
  eapply wp_mono; [by apply (ctx_new_ok st n fd)|]. intros [oc st'] s' [W' Hoc].
  destruct Hoc as [(-> & -> & _)|(c & -> & -> & _ & Hc & Ef & _ & Ei & _)]; [done|].
  split; [|rewrite Ei; by destruct addr].
  assert ((fd :: raws) ++ socks cs ≡ₚ raws ++ socks (c :: cs)) as Hp.
  { rewrite socks_cons, Ef, bool_decide_eq_false_2 by done. simpl. by rewrite Permutation_middle. }
  split; try done.
  - apply Forall_cons; [by do 3 eexists|]. eapply Forall_impl; [|exact C]. intros c2 (p & cx & q & Hc2). exists p, cx, q.
    pose proof (live_addr _ _ _ _ (co_live _ _ _ _ _ _ Hc2)) as Hlt.
    destruct Hc2 as [R2 W2 M2 O2 L2 F2 P2 S2]. split; try done; simpl.
    + rewrite lookup_insert_ne by lia. done.
    + destruct L2 as [Ld Lq La Lp]. split; [done|done|simpl; lia|]. by rewrite P2.
    + intros r c' Hr'. simpl in Hr'. apply lookup_insert_Some in Hr' as [[_ <-]|[_ Hr']]; [done|by apply (F2 r)].
  - rewrite fmap_cons, (co_meta _ _ _ _ _ _ Hc). apply list.NoDup_cons. split; [|done]. intros Hin.
    apply list_elem_of_fmap in Hin as (c2 & E2 & Hin). rewrite Forall_forall in C.
    destruct (C c2) as (p & cx & q & Hc2); [by apply list_elem_of_In|].
    pose proof (live_addr _ _ _ _ (co_live _ _ _ _ _ _ Hc2)). rewrite (co_meta _ _ _ _ _ _ Hc2) in E2. simplify_eq. lia.
  - by rewrite <- Hp.
  - intros x. rewrite <- Hp. apply B.
  - intros x. rewrite <- Hp. apply O.
Qed.

(** A socket comes, or goes. *)
Lemma owns_accept base n n' st fd raws cs :
  owns base n st raws cs → fd ∉ open_sockets n → open_sockets n' = {[ fd ]} ∪ open_sockets n →
  owns base n' st (fd :: raws) cs.
Proof.
  intros [W C M S B O] Hfd Hn. rewrite O in Hfd. split; try done.
  - eapply Forall_impl; [|exact C]. intros c (p & cx & q & Hc). exists p, cx, q. eapply conn_ok_net; [done|].
    destruct (co_socket _ _ _ _ _ _ Hc); [by left|right]. rewrite Hn. by apply elem_of_union_r.
  - simpl. apply list.NoDup_cons. split; [tauto|done].
  - intros x. simpl. rewrite elem_of_cons. intros [->|Hx]; [tauto|by apply B].
  - intros x. rewrite Hn, elem_of_union, elem_of_singleton, O. simpl. rewrite elem_of_cons. tauto.
Qed.

Lemma owns_close base n st fd raws cs :
  owns base n st (fd :: raws) cs → owns base (ak_tcp_socket_close fd n) st raws cs.
Proof.
  intros [W C M S B O]. simpl in S. apply list.NoDup_cons in S as [Sn S].
  assert (∀ x, x ∈ open_sockets (ak_tcp_socket_close fd n) ↔ x ∈ base ∨ x ∈ raws ++ socks cs) as O'.
  { intros x. rewrite close_law, elem_of_difference, elem_of_singleton, O. simpl. rewrite elem_of_cons.
    specialize (B fd). simpl in B. rewrite elem_of_cons in B.
    split; [tauto|]. intros Hx. split; [tauto|]. intros ->. tauto. }
  split; try done.
  - apply Forall_forall. intros c Hin. rewrite Forall_forall in C. destruct (C c Hin) as (p & cx & q & Hc). exists p, cx, q.
    eapply conn_ok_net; [done|]. destruct (decide (socket_fd c = AK_INVALID_SOCKET)); [by left|right]. apply O'. right.
    apply elem_of_app. right. apply socks_valid. split; [done|]. exists c. split; [by apply list_elem_of_In|done].
  - intros x Hx. apply B. simpl. rewrite elem_of_cons. tauto.
Qed.

(** Fields that do not matter to its owner. *)
Lemma owns_same base n st raws c c' cs :
  owns base n st raws (c :: cs) → socket_fd c' = socket_fd c → metadata c' = metadata c →
  read_buffer c' = read_buffer c → write_buffer c' = write_buffer c → owns base n st raws (c' :: cs).
Proof.
  intros [W C M S B O] Es Em Er Ew. apply Forall_cons_1 in C as [(p & cx & q & [R2 W2 M2 O2 L2 F2 P2 S2]) C].
  split; try done.
  - apply Forall_cons; [|done]. exists p, cx, q. split; rewrite ?Es, ?Em, ?Er, ?Ew; done.
  - by rewrite fmap_cons, Em.
  - by rewrite socks_cons, Es, <- socks_cons.
  - intros fd. rewrite socks_cons, Es, <- socks_cons. apply B.
  - intros fd. rewrite (socks_cons c'), Es, <- socks_cons. apply O.
Qed.
End owning.

(** * What holds in every run *)

#[local] Arguments settings_of : simpl never.

Section parts.
Context `{Sockets}.

(** Sockets without a context, connections, addresses that are tracked and places
    among the active connections, of the thread that accepts and of a handler. *)
Definition acc_raws (a : acceptor) : list Z :=
  match a with
  | A_limit fd _ _ | A_track fd _ _ | A_ip_limited fd | A_rate_limited fd | A_close fd | A_ask fd _ _
  | A_drop fd _ | A_open fd _ _ => [fd]
  | _ => []
  end.

Definition acc_conns (a : acceptor) : list ak_tcp_ctx_t :=
  match a with
  | A_count c | A_task c | A_uncount c _ | A_untrack c | A_free c => [c]
  | _ => []
  end.

Definition acc_addrs (a : acceptor) : list (list Z) :=
  match a with
  | A_ask _ addr _ | A_drop _ addr | A_open _ addr _ => [addr]
  | A_count c | A_task c | A_uncount c _ | A_untrack c => [remote_ip c]
  | _ => []
  end.

Definition acc_slots (a : acceptor) : list () :=
  match a with
  | A_task _ | A_uncount _ _ => [()]
  | _ => []
  end.

Definition h_conns (h : handler) : list ak_tcp_ctx_t :=
  match h with
  | H_queued c | H_handle c | H_disconnect c | H_untrack c _ | H_free c => [c]
  | H_uncount c => option_list c
  | H_over => []
  end.

Definition h_addrs (h : handler) : list (list Z) :=
  match h with
  | H_queued c | H_handle c | H_disconnect c | H_untrack c _ => [remote_ip c]
  | _ => []
  end.

Definition h_slots (h : handler) : list () :=
  match h with
  | H_free _ | H_over => []
  | _ => [()]
  end.

Definition conns (w : world) : list ak_tcp_ctx_t :=
  acc_conns (w_acceptor w) ++ concat (h_conns <$> handlers w) ++ detached_conns w.
Definition addrs (w : world) : list (list Z) := acc_addrs (w_acceptor w) ++ concat (h_addrs <$> handlers w).
Definition slots (w : world) : list () := acc_slots (w_acceptor w) ++ concat (h_slots <$> handlers w).

Definition listen_socks (s : ak_tcp_server_internal_t) : list Z :=
  if bool_decide (listen_fd s = AK_INVALID_SOCKET) then [] else [listen_fd s].

(** The thread that accepts is between the test of the limit and the count. *)
Definition let_in (a : acceptor) : bool :=
  match a with
  | A_track _ _ _ | A_ask _ _ _ | A_open _ _ _ | A_count _ => true
  | _ => false
  end.

(** The address of a connection that is not tracked yet. *)
Definition acc_addr_ok (a : acceptor) : Prop :=
  match a with
  | A_limit fd addr _ | A_track fd addr _ | A_ask fd addr _ | A_open fd addr _ => is_ip addr ∧ fd ≠ AK_INVALID_SOCKET
  | _ => True
  end.

End parts.

(** The trackers and the addresses [xs] of the connections that are there; [u]: a
    tracker could not be allocated. *)
Record ips_ok (s : ak_tcp_server_internal_t) (xs : list (list Z)) (u : bool) : Prop := {
  ip_trackers_ok : trackers_ok (ip_trackers s);
  ip_addrs : Forall is_ip xs;
  ip_active a : is_ip a → 0 <= active_of (ip_trackers s) a <= count a xs;
  ip_exact a : is_ip a → tracking (settings s) = true → u = false → active_of (ip_trackers s) a = count a xs;
  ip_limit a : is_ip a → 0 < max_connections_per_ip (settings s) →
    active_of (ip_trackers s) a <= max_connections_per_ip (settings s);
}.

Definition limit_ok (s : ak_tcp_server_internal_t) (a : acceptor) : Prop :=
  0 < max_connections (settings s) →
  active_connections s <= max_connections (settings s)
  ∧ (let_in a = true → active_connections s < max_connections (settings s)).

Definition owner_ok (s : ak_tcp_server_internal_t) (a : acceptor) (hs : list handler) (o : owner) : Prop :=
  match o with
  | O_stopped => running s = false ∧ listen_fd s = AK_INVALID_SOCKET ∧ a = A_left ∧ Forall (.= H_over) hs
  | O_serving => running s = true ∧ listen_fd s ≠ AK_INVALID_SOCKET ∧ a ≠ A_left
  | O_closing => running s = false ∧ draining s = true
  | O_joining => running s = false ∧ draining s = true ∧ listen_fd s = AK_INVALID_SOCKET
  | O_draining => running s = false ∧ draining s = true ∧ listen_fd s = AK_INVALID_SOCKET ∧ a = A_left
  | O_waiting => running s = false ∧ draining s = true ∧ listen_fd s = AK_INVALID_SOCKET ∧ a = A_left
      ∧ 0 < active_connections s
  | O_pool => running s = false ∧ listen_fd s = AK_INVALID_SOCKET ∧ a = A_left
  end.

Section invariant.
Context `{Allocator} `{SocketLaws}.
Context (base : gset Z) (cfg : ak_tcp_server_config_t).

Record world_ok (w : world) : Prop := {
  wo_settings : settings (server w) = settings_of cfg;
  wo_owns : owns base (w_net w) (w_contexts w) (listen_socks (server w) ++ acc_raws (w_acceptor w)) (conns w);
  wo_active : active_connections (server w) = zlen (slots w);
  wo_limit : limit_ok (server w) (w_acceptor w);
  wo_addr : acc_addr_ok (w_acceptor w);
  wo_ips : ips_ok (server w) (addrs w) (untracked w);
  wo_owner : owner_ok (server w) (w_acceptor w) (handlers w) (w_owner w);
}.

(** * The addresses *)

#[export] Instance count_perm {A} `{EqDecision A} (x : A) : Proper ((≡ₚ) ==> (=)) (count x).
Proof. intros l l' Hl. unfold count, zlen. by rewrite Hl. Qed.

Lemma ips_ext s s' xs xs' u :
  ips_ok s xs u → ip_trackers s' = ip_trackers s → settings s' = settings s → xs' ≡ₚ xs → ips_ok s' xs' u.
Proof.
  intros [T X A E L] Ht Hs Hx. split; rewrite ?Ht, ?Hs; try done; [by rewrite Hx| |]; intros a Ha; rewrite Hx; auto.
Qed.

Lemma ips_decrement s addr xs xs' u :
  ips_ok s xs u → xs ≡ₚ addr :: xs' → ips_ok (ip_tracker_decrement s addr) xs' u.
Proof.
  intros [T X A E L] Hx. assert (is_ip addr ∧ Forall is_ip xs') as [Ha X'] by (rewrite Hx in X; by apply Forall_cons_1).
  destruct (ip_tracker_decrement_ok s addr T Ha) as (T' & Eq & Hof).
  assert (settings (ip_tracker_decrement s addr) = settings s) as Hset by by rewrite Eq.
  set (s' := ip_tracker_decrement s addr) in *.
  assert (∀ a, is_ip a → active_of (ip_trackers s') a
    = if bool_decide (a = addr) then Z.max 0 (active_of (ip_trackers s) a - 1) else active_of (ip_trackers s) a) as Hact.
  { intros a Ha'. pose proof (A a Ha') as HA. unfold active_of in *. rewrite Hof by done. case_bool_decide; [|done].
    destruct (tracker_of (ip_trackers s) a) as [t|]; simpl; [|lia]. destruct (Z.ltb_spec 0 (active_count t)); simpl; lia. }
  assert (∀ a, count a xs = (if bool_decide (a = addr) then 1 else 0) + count a xs') as Hc.
  { intros a. by rewrite Hx, count_cons. }
  split; rewrite ?Hset; try done; intros a Ha'.
  - rewrite Hact by done. specialize (A a Ha'). rewrite Hc in A. pose proof (count_nonneg a xs'). case_bool_decide; lia.
  - intros Htr Hu. rewrite Hact by done. specialize (E a Ha' Htr Hu). rewrite Hc in E.
    pose proof (count_nonneg a xs'). case_bool_decide; lia.
  - intros Hpos. rewrite Hact by done. specialize (L a Ha' Hpos). pose proof (A a Ha'). case_bool_decide; lia.
Qed.

Lemma track_connection_active c now t il rl t' :
  track_connection c now t = (il, rl, t') →
  active_count t' = (if il || rl then active_count t else u64 (active_count t + 1))
  ∧ (il = false → 0 < max_connections_per_ip c → active_count t < max_connections_per_ip c).
Proof.
  unfold track_connection. destruct (Z.ltb_spec 0 (max_connections_per_ip c)), (Z.leb_spec (max_connections_per_ip c) (active_count t));
    simpl; repeat case_match; intros; simplify_eq/=; (split; [done|]); intros; done || lia.
Qed.

Lemma ips_track s addr now m il rl s' m' xs u :
  ips_ok s xs u → is_ip addr → zlen xs < 2 ^ 63 → track_ip s addr now m = Ret (il, rl, s', m') →
  s' = with_trackers s (ip_trackers s')
  ∧ ips_ok s' (if il || rl then xs else addr :: xs)
      (u || tracking (settings s) && bool_decide (tracker_of (ip_trackers s') addr = None)).
Proof.
  intros [T X A E L] Ha Hbig Etrack. pose proof (track_ip_ok s addr now m T Ha) as Hw. unfold wp in Hw. rewrite Etrack in Hw.
  destruct Hw as (T' & Eq & Hoth & Hw). assert (settings s' = settings s) as Hset by by rewrite Eq.
  split; [done|]. destruct (tracking (settings s)) eqn:Htr; [case_bool_decide as Hsome|]; simpl in Hw.
  - destruct Hw as (t' & Hcon & Hof & _). destruct (track_connection_active _ _ _ _ _ _ Hcon) as [Hact Hlim].
    assert (active_count (default (new_tracker addr) (tracker_of (ip_trackers s) addr)) = active_of (ip_trackers s) addr) as Hd.
    { unfold active_of. by destruct (tracker_of (ip_trackers s) addr). }
    rewrite Hd in Hact, Hlim. pose proof (A addr Ha) as HA. pose proof (count_nonneg addr xs) as Hc.
    assert (∀ a, is_ip a → active_of (ip_trackers s') a
      = active_of (ip_trackers s) a + (if bool_decide (a = addr) && negb (il || rl) then 1 else 0)) as Hall.
    { intros a Ha'. case_bool_decide as Ea; simpl.
      - subst a. unfold active_of at 1. rewrite Hof, Hact. destruct (il || rl); simpl; [lia|]. rewrite u64_small; lia.
      - unfold active_of. rewrite Hoth by done. lia. }
    rewrite bool_decide_eq_false_2 by (rewrite Hof; done). rewrite orb_false_r.
    assert (∀ a, count a (if il || rl then xs else addr :: xs)
      = count a xs + (if bool_decide (a = addr) && negb (il || rl) then 1 else 0)) as Hcount.
    { intros a. destruct (il || rl); rewrite ?count_cons; case_bool_decide; simpl; lia. }
    split; rewrite ?Hset; try done.
    + destruct (il || rl); [done|by apply Forall_cons].
    + intros a Ha'. rewrite Hall, Hcount by done. specialize (A a Ha'). destruct (_ && _); lia.
    + intros a Ha' _ Hu. rewrite Hall, Hcount by done. by rewrite (E a Ha').
    + intros a Ha' Hpos. rewrite Hall by done. specialize (L a Ha' Hpos).
      case_bool_decide as Ea; [subst a|simpl; lia]. destruct il; simpl; [lia|]. specialize (Hlim eq_refl Hpos). destruct rl; simpl; lia.
  - destruct Hw as (-> & -> & -> & _). simpl. rewrite bool_decide_eq_true_2, orb_true_r.
    2:{ destruct (tracker_of (ip_trackers s) addr); [|done]. exfalso. by apply Hsome. }
    split; try done; [by apply Forall_cons|]. intros a Ha'. rewrite count_cons. specialize (A a Ha'). case_bool_decide; lia.
  - destruct Hw as (-> & -> & -> & _). simpl. rewrite orb_false_r. split; try done; [by apply Forall_cons| |congruence].
    intros a Ha'. rewrite count_cons. specialize (A a Ha'). case_bool_decide; lia.
Qed.

(** * The thread that accepts *)

Lemma owner_accept s s' a a' hs hs' o :
  owner_ok s a hs o → a ≠ A_left → (running s = true → a' ≠ A_left) →
  running s' = running s → draining s' = draining s → listen_fd s' = listen_fd s → owner_ok s' a' hs' o.
Proof.
  intros Ho Ha Ha' Hr Hd Hl. destruct o; simpl in *; rewrite ?Hr, ?Hd, ?Hl; try tauto; naive_solver.
Qed.

Lemma accept_intro s s' a a' hs o n n' st st' ds u u' :
  world_ok (mk_world s a hs o n st ds u) → a ≠ A_left → (running s = true → a' ≠ A_left) →
  settings s' = settings s → running s' = running s → draining s' = draining s → listen_fd s' = listen_fd s →
  active_connections s' = active_connections s + zlen (acc_slots a') - zlen (acc_slots a) →
  owns base n' st' (listen_socks s ++ acc_raws a') (acc_conns a' ++ concat (h_conns <$> hs) ++ ds) →
  limit_ok s' a' → acc_addr_ok a' → ips_ok s' (acc_addrs a' ++ concat (h_addrs <$> hs)) u' →
  world_ok (mk_world s' a' hs o n' st' ds u').
Proof.
  intros [Hset Hown Hact Hlim Haddr Hips Howner] Ha Ha' Es Er Ed El Eact Hown' Hlim' Haddr' Hips'.
  unfold slots, listen_socks in *. simpl in *. split; simpl; try done; [congruence|unfold listen_socks; by rewrite El| |].
  - unfold slots. simpl. rewrite Eact, Hact, !zlen_app. lia.
  - by eapply owner_accept.
Qed.

(** Steps that leave the record alone. *)
Lemma accept_same s a a' hs o n n' st ds u :
  world_ok (mk_world s a hs o n st ds u) → a ≠ A_left → (running s = true → a' ≠ A_left) →
  open_sockets n' = open_sockets n → acc_raws a' = acc_raws a → acc_conns a' = acc_conns a →
  acc_addrs a' = acc_addrs a → acc_slots a' = acc_slots a → let_in a' = let_in a → acc_addr_ok a' →
  world_ok (mk_world s a' hs o n' st ds u).
Proof.
  intros Hok Ha Ha' Hn Er Ec Ea Es El Haddr. pose proof Hok as [Hset Hown Hact Hlim _ Hips Howner].
  apply (accept_intro s s a a' hs o n n' st st ds u u); try done; rewrite ?Er, ?Ec, ?Ea, ?Es, ?El; try done; [lia| |].
  - by eapply owns_net.
  - unfold limit_ok. by rewrite El.
Qed.

(** Counting changes the statistics only, and the active connections. *)
Lemma ips_count s xs u k c : ips_ok s xs u → ips_ok (with_count s k c) xs u.
Proof. intros Hips. by eapply ips_ext. Qed.

Lemma limit_same s s' a a' :
  limit_ok s a → let_in a' = false → settings s' = settings s → active_connections s' = active_connections s → limit_ok s' a'.
Proof. intros Hl E Es Ea Hpos. rewrite E, Ea, Es in *. split; [by apply Hl|done]. Qed.

Lemma slots_nonneg a hs : 0 <= zlen (acc_slots a ++ concat (h_slots <$> hs)).
Proof. apply zlen_nonneg. Qed.

Lemma slots_bound a hs : zlen (acc_slots a ++ concat (h_slots <$> hs)) <= 1 + zlen hs.
Proof.
  rewrite zlen_app. assert (zlen (concat (h_slots <$> hs)) <= zlen hs).
  { induction hs as [|h hs IH]; [done|]. rewrite fmap_cons. simpl. rewrite zlen_app, zlen_cons.
    destruct h; unfold zlen in *; simpl in *; lia. }
  destruct a; unfold zlen in *; simpl in *; lia.
Qed.

Lemma addrs_bound a hs : zlen (acc_addrs a ++ concat (h_addrs <$> hs)) <= 1 + zlen hs.
Proof.
  rewrite zlen_app. assert (zlen (concat (h_addrs <$> hs)) <= zlen hs).
  { induction hs as [|h hs IH]; [done|]. rewrite fmap_cons. simpl. rewrite zlen_app, zlen_cons.
    destruct h; unfold zlen in *; simpl in *; lia. }
  destruct a; unfold zlen in *; simpl in *; lia.
Qed.

Context (Hrecv : recv_buffer_size (settings_of cfg) < 2 ^ 60) (Hsend : send_buffer_size (settings_of cfg) < 2 ^ 60).

Lemma set_options_open c fd e n e' n' : set_options c fd e n = (e', n') → open_sockets n' = open_sockets n.
Proof.
  unfold set_options.
  destruct (if (_ || _) : bool then ak_tcp_socket_set_timeout _ _ _ _ _ else _) as [[r1 e1] n1] eqn:E1.
  destruct (if _ : bool then ak_tcp_socket_set_linger _ _ _ _ _ else _) as [[r2 e2] n2] eqn:E2.
  destruct (if (_ || _) : bool then ak_tcp_socket_set_buffers _ _ _ _ _ else _) as [[r3 e3] n3] eqn:E3.
  destruct (if _ : bool then ak_tcp_socket_set_keepalive _ _ _ _ _ _ else _) as [[r4 e4] n4] eqn:E4. intros [= <- <-].
  assert (open_sockets n1 = open_sockets n) by (destruct (_ || _) in E1; [by apply set_timeout_law in E1|congruence]).
  assert (open_sockets n2 = open_sockets n1) by (destruct (enable_linger c) in E2; [by apply set_linger_law in E2|congruence]).
  assert (open_sockets n3 = open_sockets n2) by (destruct (_ || _) in E3; [by apply set_buffers_law in E3|congruence]).
  assert (open_sockets n4 = open_sockets n3) by (destruct (enable_keepalive c) in E4; [by apply set_keepalive_law in E4|congruence]).
  congruence.
Qed.

(** A connection gets its context. *)
Lemma open_connection_ok s st fd addr rport e n raws cs m :
  settings s = settings_of cfg → owns base n st (fd :: raws) cs → fd ≠ AK_INVALID_SOCKET → is_ip addr →
  wp (open_connection s st fd addr rport e n) (λ '(r, st', _, n') _, match r with
    | No_context => owns base n' st' (fd :: raws) cs
    | No_handshake c | Opened c => owns base n' st' raws (c :: cs) ∧ remote_ip c = addr
    end) m.
Proof.
  intros Hset Ho Hv Ha. unfold open_connection. rewrite Hset.
  destruct (set_options _ _ _ _) as [e1 n1] eqn:E1. apply set_options_open in E1.
  assert (take 45 addr = addr) as Htake by (apply take_ge; destruct Ha; unfold zlen in *; lia).
  wsteps. eapply wp_mono; [apply (owns_new base n1); [by eapply owns_net|done..]|].
  intros [[c|] st'] s'; [|intros ->; wsteps; by eapply owns_net]. intros [Hoc Hip]. simpl in Hip. rewrite Htake in Hip.
  set (tls := match ssl_ctx s with Some _ => _ | None => _ end).
  destruct tls as [[t e2] n2] eqn:E2. assert (open_sockets n2 = open_sockets n1) as Hn2.
  { unfold tls in E2. destruct (ssl_ctx s) as [sc|]; [|congruence]. destruct (cfg_use_tls _); [|congruence].
    destruct (ak_tcp_tls_accept sc fd e1 n1) as [[ssl' e3] n3] eqn:E3. apply tls_accept_law in E3. congruence. }
  clear E2 tls. apply (owns_net base _ n2) in Hoc; [|done].
  destruct t as [[ssl|]|]; wsteps; (split; [|done]); [|done|]; by eapply owns_same.
Qed.

(** A step of the thread that accepts, by its parts. *)
Ltac by_parts := eapply accept_intro; try done; first [simpl; lia | by eapply limit_same | by eapply ips_ext | idtac].

(** What one more active connection, or one less, means. *)
Lemma one_less_slot s a a' hs :
  active_connections s = zlen (acc_slots a ++ concat (h_slots <$> hs)) →
  zlen (acc_slots a) = 1 → acc_slots a' = [] → one_less s = active_connections s + zlen (acc_slots a') - zlen (acc_slots a).
Proof.
  intros Hact Hone ->. rewrite zlen_app in Hact. pose proof (zlen_nonneg (concat (h_slots <$> hs))).
  unfold one_less. destruct (Z.ltb_spec 0 (active_connections s)); unfold zlen in *; simpl in *; lia.
Qed.

Lemma one_less_limit s a a' c :
  limit_ok s a → let_in a' = false → 0 <= active_connections s → limit_ok (with_count s (one_less s) c) a'.
Proof.
  intros Hl E Hnn Hpos. simpl in *. rewrite E. split; [|done]. destruct (Hl Hpos) as [Hle _].
  unfold one_less. destruct (Z.ltb_spec 0 (active_connections s)); lia.
Qed.

Lemma accept_limits s hs o n st ds u fd addr rport full s' :
  world_ok (mk_world s (A_limit fd addr rport) hs o n st ds u) → check_limit s = (full, s') →
  world_ok (mk_world s' (if full : bool then A_close fd else A_track fd addr rport) hs o n st ds u).
Proof.
  intros Hok E. pose proof Hok as [Hset Hown Hact Hlim Haddr Hips Howner]. simpl in *. unfold check_limit in E.
  destruct ((0 <? max_connections (settings s)) && (max_connections (settings s) <=? active_connections s)) eqn:Efull;
    injection E as <- <-.
  - by_parts.
  - by_parts. intros Hpos. specialize (Hlim Hpos) as [Hle _]. split; [done|]. intros _.
    rewrite (proj2 (Z.ltb_lt _ _) Hpos) in Efull. by apply Z.leb_gt in Efull.
Qed.

Lemma accept_tracks s hs o n st ds u fd addr rport now m m' il rl s' :
  world_ok (mk_world s (A_track fd addr rport) hs o n st ds u) → zlen hs < 2 ^ 62 →
  track_ip s addr now m = Ret (il, rl, s', m') →
  world_ok (mk_world s' (if il : bool then A_ip_limited fd else if rl : bool then A_rate_limited fd else A_ask fd addr rport)
    hs o n st ds (u || tracking (settings s) && bool_decide (tracker_of (ip_trackers s') addr = None))).
Proof.
  intros Hok Hbig E. pose proof Hok as [Hset Hown Hact Hlim [Ha Hv] Hips Howner]. simpl in *.
  pose proof (addrs_bound (A_track fd addr rport) hs) as Hb. simpl in Hb.
  destruct (ips_track s addr now m il rl s' m' _ u Hips Ha ltac:(unfold addrs; simpl; lia) E) as [Eq Hips'].
  assert (limit_ok s' (A_track fd addr rport)) as Hlim' by (rewrite Eq; done).
  assert (active_connections s' = active_connections s ∧ settings s' = settings s ∧ running s' = running s
    ∧ draining s' = draining s ∧ listen_fd s' = listen_fd s) as (Ea & Es & Er & Ed & El) by by rewrite Eq.
  clear Eq E. apply (accept_intro s s' (A_track fd addr rport) _ hs o n n st st ds u _ Hok); try done.
  - by destruct il, rl.
  - destruct il, rl; simpl; lia.
  - by destruct il, rl.
  - destruct il, rl; try done; by eapply limit_same.
  - by destruct il, rl.
  - by destruct il, rl.
Qed.

Lemma accept_opens s hs o n st ds u fd addr rport e m r st' e' n' m' :
  world_ok (mk_world s (A_open fd addr rport) hs o n st ds u) →
  open_connection s st fd addr rport e n m = Ret (r, st', e', n', m') →
  world_ok (mk_world s (match r with No_context => A_drop fd addr | No_handshake c => A_untrack c | Opened c => A_count c end)
    hs o n' st' ds u).
Proof.
  intros Hok E. pose proof Hok as [Hset Hown Hact Hlim [Ha Hv] Hips Howner]. simpl in *.
  apply (owns_perm _ _ _ _ (fd :: listen_socks s) _ (conns (mk_world s (A_open fd addr rport) hs o n st ds u))) in Hown;
    [|by rewrite Permutation_app_comm|done].
  pose proof (open_connection_ok s st fd addr rport e n _ _ m Hset Hown Hv Ha) as Hw. unfold wp in Hw. rewrite E in Hw.
  apply (accept_intro s s (A_open fd addr rport) _ hs o n n' st st' ds u u Hok); try done; destruct r as [|c|c]; simpl; try done;
    try lia; try (by eapply limit_same); try (by destruct Hw as [_ ->]); rewrite ?app_nil_r.
  - eapply owns_perm; [exact Hw|by rewrite Permutation_app_comm|done].
  - apply Hw.
  - apply Hw.
Qed.

Lemma accept_counts s hs o n st ds u c :
  world_ok (mk_world s (A_count c) hs o n st ds u) → zlen hs < 2 ^ 62 →
  world_ok (mk_world (count_accepted s) (A_task c) hs o n st ds u).
Proof.
  intros Hok Hbig. pose proof Hok as [Hset Hown Hact Hlim Haddr Hips Howner]. unfold slots in Hact. simpl in *.
  pose proof (slots_bound (A_count c) hs) as Hb. pose proof (slots_nonneg (A_count c) hs) as Hnn. simpl in Hb, Hnn.
  assert (active_connections (count_accepted s) = active_connections s + 1) as Ha by (simpl; rewrite u64_small; lia).
  eapply accept_intro; try done; [by rewrite Ha; unfold zlen; simpl; lia| |by eapply ips_ext].
  intros Hpos. rewrite Ha. specialize (Hlim Hpos) as [_ Hlt]. specialize (Hlt eq_refl). split; [simpl in *; lia|done].
Qed.

Lemma accept_hands_over s hs o n st ds u c :
  world_ok (mk_world s (A_task c) hs o n st ds u) → world_ok (mk_world s A_top (hs ++ [H_queued c]) o n st ds u).
Proof.
  intros [Hset Hown Hact Hlim Haddr Hips Howner]. unfold conns, slots, addrs in *. simpl in *.
  assert (∀ A (f : handler → list A), f (H_queued c) ++ concat (f <$> hs) ≡ₚ concat (f <$> hs ++ [H_queued c])) as Hp.
  { intros A f. rewrite fmap_app, concat_app. simpl. by rewrite app_nil_r, Permutation_app_comm. }
  split; unfold conns, slots, addrs; simpl; try done.
  - eapply owns_perm; [exact Hown|done|]. by rewrite <- Hp.
  - rewrite Hact. unfold zlen. by rewrite <- (Hp unit h_slots).
  - eapply ips_ext; [exact Hips|done|done|]. by rewrite <- Hp.
  - by eapply owner_accept.
Qed.

Lemma accept_uncounts s hs o n st ds u c (full : bool) :
  world_ok (mk_world s (A_uncount c full) hs o n st ds u) →
  world_ok (mk_world (if full then count_queue_full s else uncount s) (A_untrack c) hs o n st ds u).
Proof.
  intros Hok. pose proof Hok as [Hset Hown Hact Hlim Haddr Hips Howner]. unfold slots in Hact. simpl in *.
  pose proof (one_less_slot s (A_uncount c full) (A_untrack c) hs Hact eq_refl eq_refl) as Hone.
  assert (0 <= active_connections s) by (rewrite Hact; apply zlen_nonneg).
  assert (∀ k, world_ok (mk_world (with_count s (one_less s) k) (A_untrack c) hs o n st ds u)) as Hk.
  { intros k. eapply accept_intro; try done; [by eapply one_less_limit|by apply ips_count]. }
  destruct full; apply Hk.
Qed.

Lemma decrement_same s addr :
  let s' := ip_tracker_decrement s addr in
  settings s' = settings s ∧ running s' = running s ∧ draining s' = draining s ∧ listen_fd s' = listen_fd s
  ∧ active_connections s' = active_connections s ∧ stats s' = stats s.
Proof. unfold ip_tracker_decrement. by destruct (ip_tracker_find _ _). Qed.

Lemma accept_untracks s a a' hs o n st ds u addr :
  world_ok (mk_world s a hs o n st ds u) → a ≠ A_left → a' ≠ A_left → acc_raws a' = acc_raws a → acc_conns a' = acc_conns a →
  acc_addrs a = [addr] → acc_addrs a' = [] → acc_slots a' = acc_slots a → let_in a' = false → acc_addr_ok a' →
  world_ok (mk_world (ip_tracker_decrement s addr) a' hs o n st ds u).
Proof.
  intros Hok Ha Ha' Er Ec Ea Ea' Es El Haddr. pose proof Hok as [Hset Hown Hact Hlim _ Hips Howner]. simpl in *.
  destruct (decrement_same s addr) as (Es1 & Er1 & Ed1 & El1 & Ea1 & _).
  apply (accept_intro s _ a a' hs o n n st st ds u u Hok); try done; rewrite ?Er, ?Ec, ?Es, ?Ea'; try done; [lia|by eapply limit_same|].
  eapply ips_decrement; [exact Hips|]. unfold addrs. simpl. by rewrite Ea.
Qed.

Lemma accept_ok w w' : world_ok w → zlen (handlers w') < 2 ^ 62 → accept_step w w' → world_ok w'.
Proof.
  intros Hok Hbig Hstep. destruct Hstep; simpl in Hbig; pose proof Hok as [Hset Hown Hact Hlim Haddr Hips Howner];
    cbn [server w_acceptor handlers w_owner w_net w_contexts detached_conns untracked] in *.
  - destruct (running s) eqn:Er; by (eapply accept_same; try done; intros Er'; rewrite Er in Er').
  - apply poll_law in H2. eapply accept_same; try done; by destruct (r =? 0), (r <? 0).
  - apply accept_law in H2. destruct (Z.eqb_spec fd AK_INVALID_SOCKET) as [->|Hv].
    + destruct H2 as [[_ Hn]|(? & _)]; [|by unfold AK_INVALID_SOCKET in *]. by eapply accept_same.
    + destruct H2 as [[? _]|(Hpos & Hnew & Hn & Hip)]; [done|].
      eapply (owns_accept _ _ n' _ fd) in Hown; [|done..]. by_parts.
      eapply owns_perm; [exact Hown|simpl; rewrite app_nil_r; by rewrite <- Permutation_cons_append|done].
  - destruct (running s) eqn:Er; by (eapply accept_same; try done; intros Er'; rewrite Er in Er').
  - by eapply accept_limits.
  - by eapply accept_tracks.
  - by_parts.
  - by_parts.
  - by_parts. apply owns_close. eapply owns_perm; [exact Hown|simpl; rewrite app_nil_r; by rewrite <- Permutation_cons_append|done].
  - destruct accept; [by eapply accept_same|by_parts].
  - by eapply accept_untracks.
  - by eapply accept_opens.
  - by apply accept_counts.
  - eapply accept_same; try done.
  - by apply accept_hands_over.
  - by apply accept_uncounts.
  - by eapply accept_untracks.
  - pose proof (owns_free base n st _ c _ m Hown) as Hw. unfold wp in Hw.
    match goal with E : ak_tcp_ctx_free _ _ _ _ = _ |- _ => rewrite E in Hw end. by_parts.
Qed.

(** * Handlers and the program *)

Lemma owner_handle s s' a hs hs' o i h :
  owner_ok s a hs o → hs !! i = Some h → h ≠ H_over → (o = O_waiting → 0 < active_connections s') →
  running s' = running s → draining s' = draining s → listen_fd s' = listen_fd s → owner_ok s' a hs' o.
Proof.
  intros Ho Hi Hh Hw Hr Hd Hl. destruct o; simpl in *; rewrite ?Hr, ?Hd, ?Hl; try tauto.
  destruct Ho as (_ & _ & _ & Hall). rewrite Forall_lookup in Hall. by destruct Hh, (Hall i h Hi).
Qed.

(** A step of a handler, by its parts. *)
Lemma handle_intro s s' a hs o o' n n' st st' ds ds' u i h h' :
  world_ok (mk_world s a hs o n st ds u) → hs !! i = Some h →
  settings s' = settings s → listen_fd s' = listen_fd s →
  active_connections s' = active_connections s + zlen (h_slots h') - zlen (h_slots h) → zlen (h_slots h') <= zlen (h_slots h) →
  (∀ raws rest, owns base n st raws (h_conns h ++ ds ++ rest) → owns base n' st' raws (h_conns h' ++ ds' ++ rest)) →
  (∀ rest, ips_ok s (h_addrs h ++ rest) u → ips_ok s' (h_addrs h' ++ rest) u) →
  owner_ok s' a (<[i := h']> hs) o' →
  world_ok (mk_world s' a (<[i := h']> hs) o' n' st' ds' u).
Proof.
  intros [Hset Hown Hact Hlim Haddr Hips Howner] Hi Es El Eact Hle Hc Ha Ho. unfold conns, slots, addrs, limit_ok in *.
  cbn [server w_acceptor handlers w_owner w_net w_contexts detached_conns untracked] in *.
  destruct (concat_fmap_update h_conns hs i h Hi) as (rc & Ec & Ec').
  destruct (concat_fmap_update h_addrs hs i h Hi) as (ra & Ea & Ea').
  destruct (concat_fmap_update h_slots hs i h Hi) as (rs & Els & Els').
  split; unfold conns, slots, addrs, limit_ok; simpl; try done.
  - congruence.
  - unfold listen_socks in *. rewrite El.
    eapply owns_perm; [apply (Hc _ (acc_conns a ++ rc))|done|].
    + eapply owns_perm; [exact Hown|done|]. rewrite Ec. solve_Permutation.
    + rewrite Ec'. solve_Permutation.
  - rewrite Eact, Hact, !zlen_app. unfold zlen. rewrite Els, Els', !length_app. lia.
  - intros Hpos. rewrite Es in *. destruct (Hlim Hpos) as [H2 H3]. split; [lia|]. intros E. specialize (H3 E). lia.
  - eapply ips_ext; [apply (Ha (acc_addrs a ++ ra))|done|done|].
    + eapply ips_ext; [exact Hips|done|done|]. rewrite Ea. solve_Permutation.
    + rewrite Ea'. solve_Permutation.
Qed.

(** Steps that only move a handler on. *)
Lemma handle_same s a hs o n st ds u i h h' :
  world_ok (mk_world s a hs o n st ds u) → hs !! i = Some h → h ≠ H_over →
  h_conns h' = h_conns h → h_addrs h' = h_addrs h → h_slots h' = h_slots h →
  world_ok (mk_world s a (<[i := h']> hs) o n st ds u).
Proof.
  intros Hok Hi Hh Ec Ea Es. pose proof Hok as [Hset Hown Hact Hlim Haddr Hips Howner].
  eapply handle_intro; try done; rewrite ?Ec, ?Ea, ?Es; try done; [lia|].
  eapply owner_handle; try done. simpl in Howner. intros ->. apply Howner.
Qed.

Lemma handle_untracks s a hs o n st ds u i c (det : bool) :
  world_ok (mk_world s a hs o n st ds u) → hs !! i = Some (H_untrack c det) →
  world_ok (mk_world (ip_tracker_decrement s (remote_ip c)) a (<[i := H_uncount (if det then None else Some c)]> hs) o n st
    (if det then c :: ds else ds) u).
Proof.
  intros Hok Hi. pose proof Hok as [Hset Hown Hact Hlim Haddr Hips Howner].
  destruct (decrement_same s (remote_ip c)) as (Es1 & Er1 & Ed1 & El1 & Ea1 & _).
  eapply handle_intro; try done.
  - rewrite Ea1. unfold zlen. simpl. lia.
  - intros raws rest. destruct det; simpl; done.
  - intros rest Hr. by eapply ips_decrement.
  - eapply owner_handle; try done. rewrite Ea1. simpl in Howner. intros ->. apply Howner.
Qed.

Lemma handle_uncounts s a hs o n st ds u i c signal s' :
  world_ok (mk_world s a hs o n st ds u) → hs !! i = Some (H_uncount c) → handler_over s = (signal, s') →
  world_ok (mk_world s' a (<[i := match c with Some c => H_free c | None => H_over end]> hs)
    (if signal : bool then wake_owner o else o) n st ds u).
Proof.
  intros Hok Hi E. pose proof Hok as [Hset Hown Hact Hlim Haddr Hips Howner]. unfold slots in Hact.
  cbn [server w_acceptor handlers w_owner] in Hact, Howner.
  destruct (concat_fmap_update h_slots hs i _ Hi) as (rs & Els & _).
  assert (0 < active_connections s) as Hpos.
  { rewrite Hact, zlen_app. unfold zlen. rewrite Els, !length_app. simpl. lia. }
  unfold handler_over, uncount, one_less in E. rewrite (proj2 (Z.ltb_lt _ _) Hpos) in E. injection E as <- <-.
  eapply handle_intro; try done.
  - destruct c; unfold zlen; simpl; lia.
  - destruct c; unfold zlen; simpl; lia.
  - intros raws rest. by destruct c.
  - intros rest Hr. apply ips_count. by destruct c.
  - cbn [draining with_count active_connections].
    destruct (draining s && (active_connections s - 1 =? 0)) eqn:Esig.
    + assert (owner_ok s a hs (wake_owner o)) as Howner' by (destruct o; simpl in *; tauto).
      eapply owner_handle; try done. by destruct o.
    + eapply owner_handle; try done. intros ->. simpl in *. destruct Howner as (_ & Hd & _). rewrite Hd in Esig.
      apply Z.eqb_neq in Esig. lia.
Qed.

Lemma handle_ok w w' : world_ok w → handle_step w w' → world_ok w'.
Proof.
  intros Hok Hstep. destruct Hstep.
  - by eapply handle_same.
  - eapply handle_same; try done; by destruct (ak_tcp_ctx_is_detached (Some c)), (bool_decide (is_Some (on_disconnect (settings s)))).
  - by eapply handle_same.
  - by apply handle_untracks.
  - by eapply handle_uncounts.
  - pose proof Hok as [Hset Hown Hact Hlim Haddr Hips Howner].
    eapply handle_intro; try done; [simpl; lia| |by eapply owner_handle; try done; intros ->; apply Howner].
    intros raws rest Ho. pose proof (owns_free base n st raws c (ds ++ rest) m Ho) as Hw. unfold wp in Hw.
    match goal with E : ak_tcp_ctx_free _ _ _ _ = _ |- _ => by rewrite E in Hw end.
Qed.

Lemma program_call s a hs o n st ds u i h h' n' st' c c' :
  world_ok (mk_world s a hs o n st ds u) → hs !! i = Some h → h ≠ H_over →
  h_conns h = [c] → h_conns h' = [c'] → h_addrs h = [remote_ip c] → h_addrs h' = [remote_ip c'] → h_slots h' = h_slots h →
  conn_op (st, n, c) (st', n', c') → world_ok (mk_world s a (<[i := h']> hs) o n' st' ds u).
Proof.
  intros Hok Hi Hh Ec Ec' Ea Ea' Es Hop. pose proof Hok as [Hset Hown Hact Hlim Haddr Hips Howner].
  assert (remote_ip c' = remote_ip c) as Hip.
  { destruct (concat_fmap_update h_conns hs i _ Hi) as (rc & Ep & _). unfold conns in Hown.
    cbn [server w_acceptor handlers w_owner w_net w_contexts detached_conns untracked] in *.
    eapply (owns_perm _ _ _ _ _ _ (c :: acc_conns a ++ rc ++ ds)) in Hown; [|done|rewrite Ep, Ec; solve_Permutation].
    by apply (owns_op _ _ _ _ _ _ n' st' c') in Hown as [_ ?]. }
  eapply handle_intro; try done; rewrite ?Es, ?Ec, ?Ec', ?Ea, ?Ea', ?Hip; try done; [lia| |].
  - intros raws rest Ho. by apply (owns_op base n st raws c).
  - eapply owner_handle; try done. simpl in Howner. intros ->. apply Howner.
Qed.

Lemma program_ok w w' : world_ok w → program_step w w' → world_ok w'.
Proof.
  intros Hok Hstep. destruct Hstep; [by eapply program_call|by eapply program_call| |];
    pose proof Hok as [Hset Hown Hact Hlim Haddr Hips Howner];
    unfold conns in *; cbn [server w_acceptor handlers w_owner w_net w_contexts detached_conns untracked] in *;
    apply (owns_perm _ _ _ _ (listen_socks s ++ acc_raws a) _ (c :: acc_conns a ++ concat (h_conns <$> hs) ++ ds1 ++ ds2)) in Hown;
      try done; try solve_Permutation; split; try done; unfold conns; simpl.
  - eapply owns_perm; [by eapply (owns_op _ _ _ _ _ _ n' st' c')|done|solve_Permutation].
  - pose proof (owns_free base n st _ c _ m Hown) as Hw. unfold wp in Hw.
    match goal with E : ak_tcp_ctx_free _ _ _ _ = _ |- _ => by rewrite E in Hw end.
Qed.

(** * The thread that starts and stops the server *)

(** A step of that thread, by its parts. *)
Lemma owner_intro s s' a a' hs o o' n n' st ds u :
  world_ok (mk_world s a hs o n st ds u) → settings s' = settings s → active_connections s' = active_connections s →
  ip_trackers s' = ip_trackers s → a' = a ∨ a = A_left ∧ a' = A_top →
  (∀ cs, owns base n st (listen_socks s ++ acc_raws a) cs → owns base n' st (listen_socks s' ++ acc_raws a) cs) →
  owner_ok s' a' hs o' → world_ok (mk_world s' a' hs o' n' st ds u).
Proof.
  intros [Hset Hown Hact Hlim Haddr Hips Howner] Es Ea Et Ha Ho Ho'. simpl in *.
  assert (acc_raws a' = acc_raws a ∧ acc_conns a' = acc_conns a ∧ acc_addrs a' = acc_addrs a ∧ acc_slots a' = acc_slots a
    ∧ let_in a' = let_in a ∧ (acc_addr_ok a → acc_addr_ok a')) as (E1 & E2 & E3 & E4 & E5 & E6)
    by (destruct Ha as [->|[-> ->]]; done).
  split; unfold conns, slots, addrs, limit_ok in *; simpl in *; rewrite ?E1, ?E2, ?E3, ?E4, ?E5, ?Es, ?Ea; try done; try congruence.
  - by apply Ho.
  - by apply E6.
  - by eapply ips_ext.
Qed.

Lemma owner_starts s hs n st ds u thread_ok e rc s' e' n' :
  world_ok (mk_world s A_left hs O_stopped n st ds u) →
  ak_tcp_server_start (Some s) thread_ok e n = (rc, Some s', e', n') →
  world_ok (mk_world s' (if rc =? 0 then A_top else A_left) hs (if rc =? 0 then O_serving else O_stopped) n' st ds u).
Proof.
  intros Hok E. pose proof Hok as [_ _ _ _ _ _ (Hr & Hl & _ & Hhs)]. simpl in *. rewrite Hr in E.
  pose proof (open_listener_ok s e n) as Hopen. destruct (open_listener s e n) as [[[ok s1] e1] n1].
  assert (listen_socks s = []) as Hls by (unfold listen_socks; by rewrite bool_decide_eq_true_2).
  destruct Hopen as [Es1 Hopen]. destruct ok; cbn [negb] in E.
  - destruct Hopen as (Hnew & Hn1 & Hpos). destruct thread_ok; cbn [negb] in E; injection E as <- <- <- <-; rewrite Es1 in *; simpl in *.
    + eapply owner_intro; try done; [by right| |].
      * intros cs Ho. rewrite Hls in Ho. unfold listen_socks. simpl. rewrite bool_decide_eq_false_2 by (unfold AK_INVALID_SOCKET; lia).
        simpl. by eapply owns_accept.
      * split_and!; try done. simpl. unfold AK_INVALID_SOCKET. lia.
    + eapply owner_intro; try done; [by left|].
      intros cs Ho. eapply owns_net; [by rewrite Hls in *|]. rewrite close_law. by apply (open_close_open _ n).
  - destruct Hopen as [Hinv Hn1]. injection E as <- <- <- <-. rewrite Es1 in *; simpl in *.
    eapply owner_intro; try done; [by left|]. intros cs Ho. unfold listen_socks in *. simpl. rewrite Hinv. rewrite Hl in Ho. by eapply owns_net.
Qed.

Lemma owner_closes s a hs n st ds u s' n' :
  world_ok (mk_world s a hs O_closing n st ds u) → close_listener s n = (s', n') →
  world_ok (mk_world s' a hs O_joining n' st ds u).
Proof.
  intros Hok E. pose proof Hok as [_ _ _ _ _ _ (Hr & Hd)]. unfold close_listener in E.
  destruct (Z.eqb_spec (listen_fd s) AK_INVALID_SOCKET) as [El|El]; injection E as <- <-.
  - eapply owner_intro; try done. by left.
  - eapply owner_intro; try done; [by left|]. intros cs Ho. unfold listen_socks in *. simpl.
    rewrite bool_decide_eq_false_2 in Ho by done. by apply owns_close.
Qed.

Lemma owner_step_ok w w' : world_ok w → owner_step w w' → world_ok w'.
Proof.
  intros Hok Hstep. destruct Hstep; [by eapply owner_starts| |by eapply owner_closes|..];
    pose proof Hok as [_ _ _ _ _ _ Howner]; simpl in Howner.
  - unfold stop_begin in *. destruct (running s) eqn:Er; simplify_eq/=.
    eapply owner_intro; try done. by left.
  - eapply owner_intro; try done; [by left|]. destruct (0 <? _); simpl; tauto.
  - unfold drain_check in *. destruct (Z.ltb_spec 0 (active_connections s)) as [Hpos|]; simplify_eq/=;
      (eapply owner_intro; try done; [by left|]); simpl; tauto.
  - eapply owner_intro; try done; [by left|]. simpl. tauto.
Qed.

Lemma wait_ok w w' : world_ok w → wait_step w w' → world_ok w'.
Proof.
  intros Hok Hstep. destruct Hstep; pose proof Hok as [_ _ _ _ _ _ Howner]; simpl in Howner;
    (eapply owner_intro; try done; [by left|]); simpl; tauto.
Qed.

(** * Runs *)

Lemma serve_handlers w w' : serve_step w w' → (length (handlers w) <= length (handlers w'))%nat.
Proof.
  intros [? ? Hs|? ? Hs|? ? Hs|? ? Hs|? ? Hs]; destruct Hs; simpl; rewrite ?length_insert, ?length_app; simpl; lia.
Qed.

Lemma serve_ok w w' : world_ok w → zlen (handlers w') < 2 ^ 62 → serve_step w w' → world_ok w'.
Proof.
  intros Hok Hbig Hstep. destruct Hstep as [w w' Hs|w w' Hs|w w' Hs|w w' Hs|w w' Hs].
  - by eapply accept_ok.
  - by eapply handle_ok.
  - by eapply owner_step_ok.
  - by eapply wait_ok.
  - by eapply program_ok.
Qed.

Lemma serve_runs_ok w w' : world_ok w → zlen (handlers w') < 2 ^ 62 → rtc serve_step w w' → world_ok w'.
Proof.
  intros Hok Hbig Hrun. induction Hrun as [w|w w1 w' Hs Hr IH]; [done|].
  apply IH; [|done]. eapply serve_ok; [done| |done].
  assert ((length (handlers w1) <= length (handlers w'))%nat) as Hle.
  { clear -Hr. induction Hr as [|w w1 w' Hs _ IH]; [done|]. pose proof (serve_handlers _ _ Hs). lia. }
  unfold zlen in *. lia.
Qed.

Lemma new_world_ok ssl n st :
  store_wf st → (∀ fd, fd ∈ open_sockets n ↔ fd ∈ base) → world_ok (new_world cfg ssl n st).
Proof.
  intros Hst Hb. split; simpl; try done.
  - split; simpl; try done; [apply NoDup_nil_2|apply NoDup_nil_2|by intros fd ?%elem_of_nil|].
    intros fd. rewrite Hb, elem_of_nil. tauto.
  - intros Hpos. simpl in *. split; [lia|done].
  - split; simpl; try done; [by split; [apply NoDup_nil_2|]|]. intros a Ha Hpos. unfold active_of. simpl in *. lia.
Qed.
End invariant.

(** * Stopping *)

Section stopping.
Context `{Allocator} `{SocketLaws}.

(** The steps of the server's own threads. *)
Inductive own_step : world → world → Prop :=
| ow_accept w w' : accept_step w w' → own_step w w'
| ow_handle w w' : handle_step w w' → own_step w w'
| ow_owner w w' : owner_step w w' → own_step w w'.

Definition stopping (w : world) : Prop := w_owner w ≠ O_stopped ∧ w_owner w ≠ O_serving.

(** How far a thread has to go once [running] is cleared. *)
Definition acc_rank (a : acceptor) : nat :=
  match a with
  | A_poll => 16 | A_accept => 15 | A_limit _ _ _ => 14 | A_track _ _ _ => 13 | A_ask _ _ _ => 12 | A_open _ _ _ => 11
  | A_count _ => 10 | A_task _ => 9 | A_uncount _ _ => 4 | A_untrack _ | A_drop _ _ | A_ip_limited _ | A_rate_limited _ => 3
  | A_free _ | A_close _ => 2 | A_top | A_failed => 1 | A_left => 0
  end.

Definition h_rank (h : handler) : nat :=
  match h with
  | H_queued _ => 7 | H_handle _ => 6 | H_disconnect _ => 5 | H_untrack _ _ => 4 | H_uncount _ => 3 | H_free _ => 1 | H_over => 0
  end.

Definition o_rank (o : owner) : nat :=
  match o with
  | O_serving => 6 | O_closing => 5 | O_joining => 4 | O_draining => 3 | O_waiting => 2 | O_pool => 1 | O_stopped => 0
  end.

Definition stop_measure (w : world) : nat :=
  (acc_rank (w_acceptor w) + sum_list (h_rank <$> handlers w) + o_rank (w_owner w))%nat.

Lemma sum_rank_insert hs i h h' :
  hs !! i = Some h → (sum_list (h_rank <$> <[i := h']> hs) + h_rank h = sum_list (h_rank <$> hs) + h_rank h')%nat.
Proof.
  revert i. induction hs as [|x hs IH]; intros [|i] Hi; simplify_eq/=; [lia|]. specialize (IH i Hi). lia.
Qed.

Lemma sum_list_app (l k : list nat) : sum_list (l ++ k) = (sum_list l + sum_list k)%nat.
Proof. induction l as [|x l IH]; simpl; [done|]. rewrite IH. lia. Qed.

Lemma stopping_not_running base cfg w : world_ok base cfg w → stopping w → running (server w) = false.
Proof. intros [_ _ _ _ _ _ Ho] [Hs1 Hs2]. destruct (w_owner w); simpl in Ho; try done; apply Ho. Qed.

Lemma own_step_counts_down base cfg w w' :
  world_ok base cfg w → stopping w → own_step w w' → (stop_measure w' < stop_measure w)%nat.
Proof.
  intros Hok Hst Hstep. pose proof (stopping_not_running _ _ _ Hok Hst) as Hr. destruct Hst as [Hs1 Hs2].
  unfold stop_measure. destruct Hstep as [w w' Hs|w w' Hs|w w' Hs]; destruct Hs; simpl in *;
    try (match goal with E : ?hs !! ?i = Some ?h |- context [<[?i := ?h']> ?hs] =>
           pose proof (sum_rank_insert hs i h h' E) end; simpl in * ); try done.
  all: rewrite ?Hr; try (repeat case_match; simpl in *; lia).
  - rewrite fmap_app, sum_list_app. simpl. lia.
  - destruct c, signal; simpl in *; destruct o; simpl; lia.
Qed.

(** A computation that cannot go wrong answers something. *)
Lemma wp_returns {A} (m : M A) Q s : wp m Q s → ∃ a s', m s = Ret (a, s').
Proof. unfold wp. destruct (m s) as [[a s']| |]; [|done|done]. by exists a, s'. Qed.

Lemma accept_progress base cfg s a hs o n st ds u :
  world_ok base cfg (mk_world s a hs o n st ds u) → a ≠ A_left →
  recv_buffer_size (settings_of cfg) < 2 ^ 60 → send_buffer_size (settings_of cfg) < 2 ^ 60 →
  ∃ w', accept_step (mk_world s a hs o n st ds u) w'.
Proof.
  intros Hok Ha Hr Hs. pose proof Hok as [Hset Hown _ _ Haddr Hips _]. unfold conns in Hown.
  cbn [server w_acceptor handlers w_owner w_net w_contexts detached_conns untracked] in *.
  destruct a as [| | | |fd addr rport|fd addr rport|fd|fd|fd|fd addr rport|fd addr|fd addr rport|c|c|c full|c|c|];
    try done; try (eexists; apply as_task_taken); try (eexists; econstructor; fail).
  - destruct (ak_tcp_socket_poll_read (listen_fd s) 1000 n) as [r n'] eqn:E. eexists. by econstructor.
  - destruct (ak_tcp_socket_accept (listen_fd s) None n) as [[[[fd addr] rport] e'] n'] eqn:E. eexists. by econstructor.
  - destruct (check_limit s) as [full s'] eqn:E. eexists. by econstructor.
  - destruct (wp_returns _ _ _ (track_ip_ok s addr 0 mem0 (ip_trackers_ok _ _ _ Hips) (proj1 Haddr))) as ([[il rl] s'] & m' & E).
    eexists. by econstructor.
  - eexists. eapply (as_ask _ _ _ _ _ _ _ _ _ _ true). by left.
  - eapply (owns_perm _ _ _ _ (fd :: listen_socks s)) in Hown; [|by rewrite Permutation_app_comm|done].
    destruct (wp_returns _ _ _ (open_connection_ok base cfg Hr Hs s st fd addr rport None n _ _ mem0 Hset Hown (proj2 Haddr) (proj1 Haddr)))
      as ([[[r st'] e'] n'] & m' & E).
    eexists. by econstructor.
  - destruct (wp_returns _ _ _ (owns_free _ _ _ _ _ _ mem0 Hown)) as ([st' n'] & m' & E). eexists. by econstructor.
Qed.

Lemma handle_progress base cfg s a hs o n st ds u i h :
  world_ok base cfg (mk_world s a hs o n st ds u) → hs !! i = Some h → h ≠ H_over →
  ∃ w', handle_step (mk_world s a hs o n st ds u) w'.
Proof.
  intros Hok Hi Hh. pose proof Hok as [_ Hown _ _ _ _ _]. unfold conns in Hown.
  cbn [server w_acceptor handlers w_owner w_net w_contexts detached_conns untracked] in *.
  destruct h as [c|c|c|c det|c|c|]; try done; try (eexists; (by eapply hs_begin) || (by eapply hs_handled) || (by eapply hs_disconnected) || by eapply hs_untrack).
  - destruct (handler_over s) as [signal s'] eqn:E. eexists. by eapply hs_uncount.
  - destruct (concat_fmap_update h_conns hs i _ Hi) as (rc & Ep & _).
    eapply (owns_perm _ _ _ _ _ _ (c :: acc_conns a ++ rc ++ ds)) in Hown; [|done|rewrite Ep; simpl; solve_Permutation].
    destruct (wp_returns _ _ _ (owns_free _ _ _ _ _ _ mem0 Hown)) as ([st' n'] & m' & E). eexists. by eapply hs_free.
Qed.

Lemma has_left a : a = A_left ∨ a ≠ A_left.
Proof. destruct a; (by left) || by right. Qed.

Lemma is_over h : h = H_over ∨ h ≠ H_over.
Proof. destruct h; (by left) || by right. Qed.

Lemma over_parts hs : Forall (.= H_over) hs →
  concat (h_conns <$> hs) = [] ∧ concat (h_addrs <$> hs) = [] ∧ concat (h_slots <$> hs) = [].
Proof. induction 1 as [|h hs -> _ IH]; [done|]. rewrite !fmap_cons. simpl. apply IH. Qed.

Lemma some_slot hs : concat (h_slots <$> hs) ≠ [] → ∃ i h, hs !! i = Some h ∧ h_slots h ≠ [].
Proof.
  induction hs as [|h hs IH]; [done|]. rewrite fmap_cons. simpl. intros Hne.
  destruct (decide (h_slots h = [])) as [E|E]; [|by exists O, h].
  rewrite E in Hne. destruct (IH Hne) as (i & h' & Hi & Hh'). by exists (S i), h'.
Qed.

Lemma all_over hs : Forall (.= H_over) hs ∨ ∃ i h, hs !! i = Some h ∧ h ≠ H_over.
Proof.
  induction hs as [|h hs IH]; [by left|]. destruct (is_over h) as [->|Hh]; [|by right; exists O, h].
  destruct IH as [IH|(i & h' & Hi & Hh')]; [left; by apply Forall_cons|right; by exists (S i), h'].
Qed.

Lemma server_goes_on base cfg w :
  world_ok base cfg w → stopping w →
  recv_buffer_size (settings_of cfg) < 2 ^ 60 → send_buffer_size (settings_of cfg) < 2 ^ 60 → ∃ w', own_step w w'.
Proof.
  intros Hok [Hs1 Hs2] Hr Hs. destruct w as [s a hs o n st ds u]. pose proof Hok as [_ _ Hact _ _ _ Howner]. simpl in *.
  assert (∀ i h, hs !! i = Some h → h ≠ H_over → ∃ w', own_step (mk_world s a hs o n st ds u) w') as Hhandle.
  { intros i h Hi Hh. destruct (handle_progress _ _ _ _ _ _ _ _ _ _ _ _ Hok Hi Hh) as [w' Hw]. exists w'. by apply ow_handle. }
  destruct o; try done.
  - destruct (close_listener s n) as [s' n'] eqn:E. eexists. by apply ow_owner, os_close.
  - destruct (has_left a) as [->|Ha].
    + eexists. apply ow_owner, os_join.
    + destruct (accept_progress _ _ _ _ _ _ _ _ _ _ Hok Ha Hr Hs) as [w' Hw]. exists w'. by apply ow_accept.
  - destruct (drain_check s) as [waits s'] eqn:E. eexists. by apply ow_owner, os_drain.
  - destruct Howner as (_ & _ & _ & -> & Hpos). unfold slots in Hact. simpl in Hact.
    destruct (some_slot hs) as (i & h & Hi & Hh); [|by apply (Hhandle i h Hi); intros ->]. intros E. rewrite E in Hact. unfold zlen in Hact. simpl in Hact. lia.
  - destruct (all_over hs) as [Hall|(i & h & Hi & Hh)]; [|by eapply Hhandle]. eexists. by apply ow_owner, os_pool.
Qed.

Lemma own_step_stops w w' : own_step w w' → stopping w → stopping w' ∨ w_owner w' = O_stopped.
Proof.
  intros Hstep [Hs1 Hs2]. unfold stopping. destruct Hstep as [w w' Hs|w w' Hs|w w' Hs]; destruct Hs; simpl in *; try done;
    try (by left; split); repeat case_match; simpl; try (by left); try (by right).
  by left; destruct o.
Qed.

Lemma own_handlers w w' : own_step w w' → (length (handlers w') <= S (length (handlers w)))%nat.
Proof.
  intros [? ? Hs|? ? Hs|? ? Hs]; destruct Hs; simpl; rewrite ?length_insert, ?length_app; simpl; lia.
Qed.

Lemma own_serve w w' : own_step w w' → serve_step w w'.
Proof. intros [? ? Hs|? ? Hs|? ? Hs]; [by apply ss_accept|by apply ss_handle|by apply ss_owner]. Qed.

Lemma program_measure w w' : program_step w w' → stop_measure w' = stop_measure w.
Proof.
  intros Hs. unfold stop_measure. destruct Hs; simpl; try done;
    match goal with E : ?hs !! ?i = Some ?h |- context [<[?i := ?h']> ?hs] => pose proof (sum_rank_insert hs i h h' E) end;
    simpl in *; lia.
Qed.

Lemma server_stops base cfg k w :
  recv_buffer_size (settings_of cfg) < 2 ^ 60 → send_buffer_size (settings_of cfg) < 2 ^ 60 →
  (stop_measure w <= k)%nat → world_ok base cfg w → stopping w ∨ w_owner w = O_stopped → zlen (handlers w) + Z.of_nat k < 2 ^ 62 →
  ∃ w', rtc own_step w w' ∧ w_owner w' = O_stopped.
Proof.
  intros Hr Hs. revert w. induction k as [|k IH]; intros w Hk Hok Hst Hbig; (destruct Hst as [Hst|Hst]; [|by exists w]);
    destruct (server_goes_on base cfg w Hok Hst Hr Hs) as [w1 Hw1];
    pose proof (own_step_counts_down base cfg w w1 Hok Hst Hw1); [lia|].
  pose proof (own_handlers _ _ Hw1).
  destruct (IH w1) as (w' & Hrun & Hend); [lia| |by eapply own_step_stops|unfold zlen in *; lia|].
  - eapply serve_ok; [done|done|done| |by apply own_serve]. unfold zlen in *. lia.
  - exists w'. split; [by eapply rtc_l|done].
Qed.
End stopping.

(** * The theorems *)

Section theorems.
Context `{Allocator} `{SocketLaws}.

(** The worlds that runs of a server lead to; [base] are the sockets the rest of
    the program had open when it was made. *)
Record served (base : gset Z) (cfg : ak_tcp_server_config_t) (w : world) : Prop := {
  sv_buffers : recv_buffer_size (settings_of cfg) < 2 ^ 60 ∧ send_buffer_size (settings_of cfg) < 2 ^ 60;
  sv_run : ∃ ssl n st, store_wf st ∧ (∀ fd, fd ∈ open_sockets n ↔ fd ∈ base) ∧ rtc serve_step (new_world cfg ssl n st) w;
  sv_size : zlen (handlers w) < 2 ^ 62;
}.

Lemma served_ok base cfg w : served base cfg w → world_ok base cfg w.
Proof.
  intros [[Hr Hs] (ssl & n & st & Hst & Hb & Hrun) Hsz]. eapply serve_runs_ok; [done|done| |done|done].
  by apply new_world_ok.
Qed.

(** C4: A server serves.  In every interleaving of the accepting thread, the
    handlers, the thread that starts and stops the server and the program's calls
    on its connections:
    the number of active connections is that of the connections handed over or being
    handed over and not finished, and within the limit; no address has more connections
    than its limit, as long as trackers could be allocated; the open sockets are those
    of the rest of the program, the listening one, and one for each connection that
    has not closed its own, all different, so that each is closed once; every
    connection is usable, has user data of its own and can be freed; a server that
    waits for its handlers has one to wait for, which will signal; and a stopped server
    has only the connections that handlers detached. *)
Theorem ak_tcp_server_runs_spec base cfg w :
  served base cfg w → let s := server w in
  active_connections s = zlen (slots w)
  ∧ (0 < max_connections cfg → active_connections s <= max_connections cfg)
  ∧ (0 < max_connections_per_ip cfg → untracked w = false → ∀ a, is_ip a → count a (addrs w) <= max_connections_per_ip cfg)
  ∧ (NoDup (listen_socks s ++ acc_raws (w_acceptor w) ++ socks (conns w))
     ∧ ∀ fd, fd ∈ open_sockets (w_net w) ↔
         fd ∈ base ∨ fd ∈ listen_socks s ++ acc_raws (w_acceptor w) ++ socks (conns w))
  ∧ (NoDup (metadata <$> conns w) ∧ ∀ c m, c ∈ conns w →
       wp (ak_tcp_ctx_free (w_contexts w) (Some c) (w_net w)) (λ '(_, n') _,
         open_sockets n' = (open_sockets (w_net w) ∖ {[ socket_fd c ]})) m)
  ∧ (w_owner w = O_waiting → draining s = true ∧ ∃ i h, handlers w !! i = Some h ∧ h_slots h ≠ [])
  ∧ (w_owner w = O_stopped → running s = false ∧ listen_fd s = AK_INVALID_SOCKET ∧ active_connections s = 0
       ∧ conns w = detached_conns w ∧ ∀ a, is_ip a → active_of (ip_trackers s) a = 0).
Proof.
  intros Hserved s. pose proof (served_ok _ _ _ Hserved) as [Hset Hown Hact Hlim Haddr Hips Howner]. fold s in Hset, Hact, Hlim, Hips, Howner.
  assert (max_connections (settings s) = max_connections cfg ∧ max_connections_per_ip (settings s) = max_connections_per_ip cfg)
    as [Em Ei] by by rewrite Hset.
  pose proof Hown as [W C M S B O]. rewrite <- !(assoc_L (++)) in S. split_and!; try done.
  - intros Hpos. rewrite <- Em in *. by apply Hlim.
  - intros Hpos Hu a Ha. rewrite <- Ei in *. rewrite <- (ip_exact _ _ _ Hips a Ha); [by apply Hips| |done].
    unfold tracking. by rewrite (proj2 (Z.ltb_lt _ _) Hpos).
  - intros fd. rewrite O. by rewrite !(assoc_L (++)).
  - intros c m Hc. rewrite Forall_forall in C. destruct (C c) as (p & cx & q & Hok); [by apply list_elem_of_In|].
    eapply wp_mono; [by apply (ctx_free_ok _ _ c p cx q)|]. intros [st' n'] m' (_ & _ & Hn & _). done.
  - intros E. rewrite E in Howner. destruct Howner as (_ & Hd & _ & Ha & Hpos). split; [done|].
    unfold slots in Hact. rewrite Ha in Hact. simpl in Hact. apply some_slot. intros En. rewrite En in Hact. unfold zlen in Hact. simpl in *. lia.
  - intros E. rewrite E in Howner. destruct Howner as (Hr & Hl & Ha & Hall).
    destruct (over_parts _ Hall) as (Ec & Ed & Es). unfold conns, slots in *. rewrite Ha, Ec, Es in *. simpl in *.
    split_and!; try done. intros a Hip. pose proof (ip_active _ _ _ Hips a Hip) as Hc. unfold addrs in Hc. rewrite Ha, Ed in Hc.
    simpl in Hc. rewrite count_nil in Hc. lia.
Qed.

(** C5: Stopping ends.  Once [ak_tcp_server_stop] has cleared [running], one of the
    server's threads can always go on; every step of them counts down a measure,
    which no call of the program raises; so, when handlers return, the accepting
    thread leaves, the handlers finish and the stop returns. *)
Theorem ak_tcp_server_stop_terminates base cfg w :
  served base cfg w → stopping w → zlen (handlers w) + Z.of_nat (stop_measure w) < 2 ^ 62 →
  (∃ w', own_step w w')
  ∧ (∀ w', own_step w w' → (stop_measure w' < stop_measure w)%nat ∧ (stopping w' ∨ w_owner w' = O_stopped))
  ∧ (∀ w', program_step w w' → stop_measure w' = stop_measure w)
  ∧ ∃ w', rtc own_step w w' ∧ w_owner w' = O_stopped.
Proof.
  intros Hserved Hst Hbig. pose proof (served_ok _ _ _ Hserved) as Hok. destruct Hserved as [[Hr Hs] _ _]. split_and!.
  - by eapply server_goes_on.
  - intros w' Hw'. split; [by eapply own_step_counts_down|by eapply own_step_stops].
  - apply program_measure.
  - eapply (server_stops base cfg (stop_measure w)); try done. by left.
Qed.
End theorems.

(** * Witnesses *)

Section witnesses.
#[local] Existing Instances always_alloc toy_sockets toy_laws.

(** A server with a connection whose handler has not begun, and that is stopped. *)
Definition w_serve_cfg : ak_tcp_server_config_t :=
  mk_server_config None 80 2 0 None (Some 1%positive) None 4 0 0 2 1 0 0 100 false 0 false 0 0 0 16 16 0 0
    false None None None false None 0.
Definition w_start_net : @net toy_sockets := mk_toy [] [] [] [w_ip].
Definition w_start : world := new_world w_serve_cfg None w_start_net (Contexts.mk_store 1 ∅).

Ltac serve_to r := eapply rtc_l; [eapply r|]; cbn [Z.eqb].

Lemma w_stopping : ∃ w, rtc serve_step w_start w ∧ stopping w ∧ active_connections (server w) = 1
  ∧ length (handlers w) = 1%nat ∧ (stop_measure w < 40)%nat.
Proof.
  eexists. split.
  { unfold w_start, new_world.
    serve_to ss_owner. { eapply (os_start _ _ _ _ _ _ true None). vm_compute. reflexivity. }
    serve_to ss_accept. { eapply as_top. }
    serve_to ss_accept. { eapply as_poll. vm_compute. reflexivity. }
    serve_to ss_accept. { eapply (as_accept _ _ _ _ _ _ _ _ _ _ None). vm_compute. reflexivity. }
    serve_to ss_accept. { eapply as_limit. vm_compute. reflexivity. }
    serve_to ss_accept. { eapply (as_track _ _ _ _ _ _ _ _ _ _ 7 mem0). vm_compute. reflexivity. }
    serve_to ss_accept. { eapply (as_ask _ _ _ _ _ _ _ _ _ _ true). by left. }
    serve_to ss_accept. { eapply (as_open _ _ _ _ _ _ _ _ _ _ None mem0). vm_compute. reflexivity. }
    serve_to ss_accept. { eapply as_count. }
    serve_to ss_accept. { eapply as_task_taken. }
    serve_to ss_owner. { eapply os_stop. vm_compute. reflexivity. }
    apply rtc_refl. }
  split_and!; [by split|vm_compute; reflexivity|done|apply Nat.ltb_lt; vm_compute; reflexivity].
Qed.

Lemma w_served w : rtc serve_step w_start w → zlen (handlers w) < 2 ^ 62 → served ∅ w_serve_cfg w.
Proof.
  intros Hrun Hsz. split; [done| |done]. exists None, w_start_net, (Contexts.mk_store 1 ∅).
  split_and!; [by intros ? ? ?| |done]. intros fd. done.
Qed.

Lemma ak_tcp_server_runs_spec_witness : ∃ w, served ∅ w_serve_cfg w ∧ active_connections (server w) = 1
  ∧ active_connections (server w) <= 4.
Proof.
  destruct w_stopping as (w & Hrun & _ & Ha & Hl & _). exists w.
  assert (served ∅ w_serve_cfg w) as Hs by (apply w_served; [done|unfold zlen; rewrite Hl; lia]).
  split_and!; [done|done|]. destruct (ak_tcp_server_runs_spec ∅ w_serve_cfg w Hs) as (_ & Hm & _). by apply Hm.
Defined.

Lemma ak_tcp_server_stop_terminates_witness : ∃ w, served ∅ w_serve_cfg w ∧ stopping w
  ∧ active_connections (server w) = 1 ∧ ∃ w', rtc own_step w w' ∧ w_owner w' = O_stopped.
Proof.
  destruct w_stopping as (w & Hrun & Hst & Ha & Hl & Hm). exists w.
  assert (served ∅ w_serve_cfg w) as Hs by (apply w_served; [done|unfold zlen; rewrite Hl; lia]).
  split_and!; [done|done|done|].
  destruct (ak_tcp_server_stop_terminates ∅ w_serve_cfg w Hs Hst) as (_ & _ & _ & Hend); [unfold zlen; rewrite Hl; lia|done].
Defined.
End witnesses.
