(* ===== verification/Posix.v ===== *)
(** The sockets of POSIX systems: [kernel/tcp/src/tcp_posix.c].

    The calls of the system are the methods of the class [System], over the state
    of the system; [SystemLaws] is what its documentation says of them.  Together
    with [Tls] this file implements the interface of [Sockets]. *)

From Stdlib Require String.
From stdpp Require Import gmap.
From S2P Require Import Prelude Maps Sockets Connections.
Import Stdlib.Strings.String.StringSyntax.
#[local] Delimit Scope string_scope with str.

Inductive family : Type := AF_INET | AF_INET6.

#[export] Instance family_eq_dec : EqDecision family.
Proof. solve_decision. Defined.

(** [struct sockaddr_in] and [sockaddr_in6]: the bytes of the address, and the
    port in the order of the network. *)
Record sockaddr := mk_sockaddr {
  sa_family : family;
  sa_addr : list Z;
  sa_port : Z;
}.

(** The options that are set, with their values. *)
Inductive sockopt : Type :=
| SO_REUSEADDR (v : Z)
| IPV6_V6ONLY (v : Z)
| TCP_NODELAY (v : Z)
| SO_RCVTIMEO (tv_sec tv_usec : Z)
| SO_SNDTIMEO (tv_sec tv_usec : Z)
| SO_KEEPALIVE (v : Z)
| TCP_KEEPIDLE (v : Z)
| TCP_KEEPINTVL (v : Z)
| TCP_KEEPCNT (v : Z)
| SO_LINGER (l_onoff l_linger : Z)
| SO_RCVBUF (v : Z)
| SO_SNDBUF (v : Z).

(** What [poll] reports. *)
Record revents := mk_revents {
  POLLIN : bool;
  POLLHUP : bool;
  POLLERR : bool;
  POLLNVAL : bool;
}.

(** The error numbers the code names. *)
Inductive errnum : Type :=
| ENONE | ETIMEDOUT | EAGAIN | EWOULDBLOCK | ECONNRESET | EPIPE | ENOTCONN | ECONNREFUSED | ECONNABORTED
| ENOMEM | EINVAL | EBADF | EINPROGRESS | EOTHER (n : Z).

#[export] Instance errnum_eq_dec : EqDecision errnum.
Proof. solve_decision. Defined.

Class System := {
  sys : Type;
  errno : sys → errnum;
  set_errno : errnum → sys → sys;
  strerror : errnum → String.string;
  sys_ignore_sigpipe : sys → sys;
  sys_socket : family → sys → Z * sys;
  sys_setsockopt : Z → sockopt → sys → Z * sys;
  (** [SO_RCVTIMEO], [SO_SNDTIMEO] and [SO_ERROR]; none when the call fails. *)
  sys_get_rcvtimeo : Z → sys → option (Z * Z) * sys;
  sys_get_sndtimeo : Z → sys → option (Z * Z) * sys;
  sys_get_so_error : Z → sys → option errnum * sys;
  sys_bind : Z → sockaddr → sys → Z * sys;
  sys_listen : Z → Z → sys → Z * sys;
  sys_accept : Z → sys → Z * sockaddr * sys;
  sys_send : Z → list Z → sys → Z * sys;
  (** With [MSG_PEEK | MSG_DONTWAIT] or without. *)
  sys_recv : bool → Z → Z → sys → Z * list Z * sys;
  sys_shutdown : bool → Z → sys → sys;
  sys_close : Z → sys → sys;
  sys_getfl : Z → sys → Z * sys;
  sys_setfl : Z → Z → sys → Z * sys;
  sys_poll_in : Z → Z → sys → Z * revents * sys;
  sys_poll_out : Z → Z → sys → Z * sys;
  sys_connect : Z → sockaddr → sys → Z * sys;
  sys_getaddrinfo : list Z → Z → sys → Z * list sockaddr * sys;
  sys_freeaddrinfo : sys → sys;
  gai_strerror : Z → String.string;
  inet_pton : family → list Z → option (list Z);
  inet_ntop : family → list Z → list Z;
  O_NONBLOCK : Z;
}.

(** [*error = strerror(errno)] *)
Definition set_errno_error `{System} (error : error_ptr) (w : sys) : error_ptr := set_error error (strerror (errno w)).

Definition u16 (x : Z) : Z := x mod 2 ^ 16.

(** On a machine with the low byte first. *)
Definition htons (x : Z) : Z := u16 (Z.lor (Z.shiftl x 8) (Z.shiftr x 8)).
Definition ntohs (x : Z) : Z := htons x.

Definition any4 : list Z := [0; 0; 0; 0].
Definition in6addr_any : list Z := replicate 16 0.

Definition ip4_any : list Z := bytes_of "0.0.0.0"%str.
Definition ip6_any : list Z := bytes_of "::"%str.
Definition ip6_zero : list Z := bytes_of "::0"%str.
Definition colon : Z := 58.

Definition ak_tcp_detect_addr_family (addr : option (list Z)) : family :=
  match addr with
  | None => AF_INET
  | Some a =>
      if strcmp a ip4_any =? 0 then AF_INET
      else if (strcmp a ip6_any =? 0) || (strcmp a ip6_zero =? 0) then AF_INET6
      else if bool_decide (colon ∈ a) then AF_INET6
      else AF_INET
  end.

(** The milliseconds of a timeout as a [struct timeval], and back. *)
Definition timeval_of (ms : Z) : Z * Z := if 0 <? ms then (ms / 1000, (ms mod 1000) * 1000) else (0, 0).
Definition ms_of (tv : Z * Z) : Z := u32 (tv.1 * 1000 + tv.2 / 1000).

(** [IN6_IS_ADDR_V4MAPPED] *)
Definition is_v4mapped (a : list Z) : bool := bool_decide (take 12 a = replicate 10 0 ++ [255; 255]).

Definition ak_tcp_map_error (platform_errno : errnum) : ak_tcp_error_t :=
  match platform_errno with
  | ENONE => AK_TCP_OK
  | ETIMEDOUT | EAGAIN | EWOULDBLOCK => AK_TCP_ERR_TIMEOUT
  | ECONNRESET | EPIPE => AK_TCP_ERR_RESET
  | ENOTCONN | ECONNREFUSED | ECONNABORTED => AK_TCP_ERR_CLOSED
  | ENOMEM => AK_TCP_ERR_MEMORY
  | EINVAL | EBADF => AK_TCP_ERR_INVALID
  | EINPROGRESS | EOTHER _ => AK_TCP_ERR_NETWORK
  end.

Section posix.
Context `{System}.

(** [sigpipe_handled] *)
Definition ak_tcp_platform_init (handled : bool) (w : sys) : bool * sys :=
  if handled then (handled, w) else (true, sys_ignore_sigpipe w).

Definition ak_tcp_platform_deinit (w : sys) : sys := w.

Definition ak_tcp_socket_create_for_addr (addr : option (list Z)) (error : error_ptr) (w : sys) : Z * error_ptr * sys :=
  let family := ak_tcp_detect_addr_family addr in
  let '(fd, w) := sys_socket family w in
  if fd <? 0 then (AK_INVALID_SOCKET, set_errno_error error w, w) else
  let '(rc, w) := sys_setsockopt fd (SO_REUSEADDR 1) w in
  if rc <? 0 then (AK_INVALID_SOCKET, set_errno_error error w, sys_close fd w) else
  if bool_decide (family = AF_INET6) then
    let '(rc, w) := sys_setsockopt fd (IPV6_V6ONLY 0) w in
    if rc <? 0 then (AK_INVALID_SOCKET, set_errno_error error w, sys_close fd w) else (fd, error, w)
  else (fd, error, w).

Definition ak_tcp_socket_create (error : error_ptr) (w : sys) : Z * error_ptr * sys :=
  ak_tcp_socket_create_for_addr None error w.

(** The address a server binds; none when its text is no address. *)
Definition bind_target (addr : option (list Z)) (port : Z) : option sockaddr :=
  match ak_tcp_detect_addr_family addr with
  | AF_INET6 =>
      match addr with
      | None => Some (mk_sockaddr AF_INET6 in6addr_any (htons port))
      | Some a =>
          if (strcmp a ip6_any =? 0) || (strcmp a ip6_zero =? 0) then Some (mk_sockaddr AF_INET6 in6addr_any (htons port))
          else b ← inet_pton AF_INET6 a; Some (mk_sockaddr AF_INET6 b (htons port))
      end
  | AF_INET =>
      match addr with
      | None => Some (mk_sockaddr AF_INET any4 (htons port))
      | Some a =>
          if strcmp a ip4_any =? 0 then Some (mk_sockaddr AF_INET any4 (htons port))
          else b ← inet_pton AF_INET a; Some (mk_sockaddr AF_INET b (htons port))
      end
  end.

Definition ak_tcp_socket_bind (fd : Z) (addr : option (list Z)) (port : Z) (error : error_ptr) (w : sys)
    : Z * error_ptr * sys :=
  match bind_target addr port with
  | None =>
      (-1, set_error error (match ak_tcp_detect_addr_family addr with
                            | AF_INET6 => "Invalid IPv6 address format"
                            | AF_INET => "Invalid IPv4 address format"
                            end)%str, w)
  | Some sa =>
      let '(rc, w) := sys_bind fd sa w in
      if rc <? 0 then (-1, set_errno_error error w, w) else (0, error, w)
  end.

Definition ak_tcp_socket_listen (fd backlog : Z) (error : error_ptr) (w : sys) : Z * error_ptr * sys :=
  let backlog := if backlog <=? 0 then 128 else backlog in
  let '(rc, w) := sys_listen fd backlog w in
  if rc <? 0 then (-1, set_errno_error error w, w) else (0, error, w).

(** The text of the peer's address. *)
Definition peer_text (sa : sockaddr) : list Z :=
  match sa_family sa with
  | AF_INET6 =>
      if is_v4mapped (sa_addr sa) then inet_ntop AF_INET (drop 12 (sa_addr sa)) else inet_ntop AF_INET6 (sa_addr sa)
  | AF_INET => inet_ntop AF_INET (sa_addr sa)
  end.

Definition ak_tcp_socket_accept (fd : Z) (error : error_ptr) (w : sys) : Z * list Z * Z * error_ptr * sys :=
  let '(client_fd, sa, w) := sys_accept fd w in
  if client_fd <? 0 then (AK_INVALID_SOCKET, [], 0, set_errno_error error w, w)
  else (client_fd, peer_text sa, ntohs (sa_port sa), error, w).

Definition ak_tcp_socket_send (fd : Z) (data : list Z) (error : error_ptr) (w : sys) : Z * error_ptr * sys :=
  let '(sent, w) := sys_send fd data w in
  if sent <? 0 then (-1, set_errno_error error w, w) else (sent, error, w).

Definition ak_tcp_socket_recv (fd len : Z) (error : error_ptr) (w : sys) : Z * list Z * error_ptr * sys :=
  let '(received, bytes, w) := sys_recv false fd len w in
  if received <? 0 then (-1, [], set_errno_error error w, w) else (received, bytes, error, w).

Definition ak_tcp_socket_close (fd : Z) (w : sys) : sys :=
  if negb (fd =? AK_INVALID_SOCKET) then sys_close fd (sys_shutdown true fd w) else w.

Definition ak_tcp_socket_set_nonblocking (fd : Z) (nonblocking : bool) (error : error_ptr) (w : sys) : Z * error_ptr * sys :=
  let '(flags, w) := sys_getfl fd w in
  if flags <? 0 then (-1, set_errno_error error w, w) else
  let flags := if nonblocking then Z.lor flags O_NONBLOCK else Z.land flags (Z.lnot O_NONBLOCK) in
  let '(rc, w) := sys_setfl fd flags w in
  if rc <? 0 then (-1, set_errno_error error w, w) else (0, error, w).

(** One option after the other, until one fails. *)
Fixpoint set_options (fd : Z) (opts : list sockopt) (error : error_ptr) (w : sys) : Z * error_ptr * sys :=
  match opts with
  | [] => (0, error, w)
  | o :: opts =>
      let '(rc, w) := sys_setsockopt fd o w in
      if rc <? 0 then (-1, set_errno_error error w, w) else set_options fd opts error w
  end.

Definition ak_tcp_socket_set_reuseaddr (fd : Z) (enable : bool) (error : error_ptr) (w : sys) : Z * error_ptr * sys :=
  set_options fd [SO_REUSEADDR (Z.b2z enable)] error w.

Definition ak_tcp_socket_set_nodelay (fd : Z) (enable : bool) (error : error_ptr) (w : sys) : Z * error_ptr * sys :=
  set_options fd [TCP_NODELAY (Z.b2z enable)] error w.

Definition ak_tcp_socket_set_timeout (fd recv_timeout_ms send_timeout_ms : Z) (error : error_ptr) (w : sys)
    : Z * error_ptr * sys :=
  let '(rs, ru) := timeval_of recv_timeout_ms in
  let '(ss, su) := timeval_of send_timeout_ms in
  set_options fd [SO_RCVTIMEO rs ru; SO_SNDTIMEO ss su] error w.

(** [recv], [send]: whether there is a place for the timeout; its new value. *)
Definition ak_tcp_socket_get_timeout (fd : Z) (recv send : bool) (error : error_ptr) (w : sys)
    : Z * option Z * option Z * error_ptr * sys :=
  let '(ok, r, w) :=
    if recv then let '(tv, w) := sys_get_rcvtimeo fd w in (bool_decide (is_Some tv), ms_of <$> tv, w) else (true, None, w) in
  if negb ok then (-1, None, None, set_errno_error error w, w) else
  let '(ok, s, w) :=
    if send then let '(tv, w) := sys_get_sndtimeo fd w in (bool_decide (is_Some tv), ms_of <$> tv, w) else (true, None, w) in
  if negb ok then (-1, r, None, set_errno_error error w, w) else (0, r, s, error, w).

Definition ak_tcp_socket_set_keepalive (fd idle_sec interval_sec probe_count : Z) (error : error_ptr) (w : sys)
    : Z * error_ptr * sys :=
  let '(rc, error, w) := set_options fd [SO_KEEPALIVE (if 0 <? idle_sec then 1 else 0)] error w in
  if rc <? 0 then (-1, error, w) else
  if idle_sec <=? 0 then (0, error, w) else
  set_options fd [TCP_KEEPIDLE idle_sec; TCP_KEEPINTVL interval_sec; TCP_KEEPCNT probe_count] error w.

Definition ak_tcp_socket_set_linger (fd : Z) (enable : bool) (timeout_sec : Z) (error : error_ptr) (w : sys)
    : Z * error_ptr * sys :=
  set_options fd [SO_LINGER (Z.b2z enable) timeout_sec] error w.

Definition ak_tcp_socket_set_buffers (fd recv_size send_size : Z) (error : error_ptr) (w : sys) : Z * error_ptr * sys :=
  set_options fd ((if 0 <? recv_size then [SO_RCVBUF (i32 recv_size)] else [])
                  ++ (if 0 <? send_size then [SO_SNDBUF (i32 send_size)] else [])) error w.

Definition ak_tcp_socket_poll_read (fd timeout_ms : Z) (w : sys) : Z * sys :=
  let '(ret, _, w) := sys_poll_in fd timeout_ms w in
  (if ret <? 0 then -1 else if ret =? 0 then 0 else 1, w).

Definition ak_tcp_socket_shutdown (fd : Z) (w : sys) : sys :=
  if negb (fd =? AK_INVALID_SOCKET) then sys_shutdown false fd w else w.

Definition ak_tcp_socket_peer_closed (fd : Z) (w : sys) : bool * sys :=
  if fd =? AK_INVALID_SOCKET then (true, w) else
  let '(ret, ev, w) := sys_poll_in fd 0 w in
  if ret <? 0 then (true, w) else
  if ret =? 0 then (false, w) else
  if POLLHUP ev || POLLERR ev || POLLNVAL ev then (true, w) else
  if POLLIN ev then
    let '(n, _, w) := sys_recv true fd 1 w in
    if n =? 0 then (true, w) else
    if (n <? 0) && negb (bool_decide (errno w = EAGAIN)) && negb (bool_decide (errno w = EWOULDBLOCK)) then (true, w)
    else (false, w)
  else (false, w).

(** What an attempt to connect leads to: an answer, or the next address. *)
Inductive attempt : Type :=
| Connected
| Failed (error : error_ptr)
| Try_next.

Definition try_address (fd timeout_ms : Z) (sa : sockaddr) (error : error_ptr) (w : sys) : attempt * sys :=
  let '(rc, w) := sys_connect fd sa w in
  if rc =? 0 then (Connected, w) else
  if bool_decide (errno w = EINPROGRESS) && (0 <? timeout_ms) then
    let '(poll_result, w) := sys_poll_out fd (i32 timeout_ms) w in
    if poll_result <? 0 then (Failed (set_errno_error error w), w) else
    if poll_result =? 0 then (Failed (set_error error "Connection timed out"%str), w) else
    let '(so_error, w) := sys_get_so_error fd w in
    match so_error with
    | None => (Failed (set_errno_error error w), w)
    | Some e => if bool_decide (e = ENONE) then (Connected, w) else (Try_next, set_errno e w)
    end
  else (Try_next, w).

Fixpoint try_addresses (fd timeout_ms : Z) (sas : list sockaddr) (error : error_ptr) (w : sys) : attempt * sys :=
  match sas with
  | [] => (Try_next, w)
  | sa :: sas =>
      match try_address fd timeout_ms sa error w with
      | (Try_next, w) => try_addresses fd timeout_ms sas error w
      | (a, w) => (a, w)
      end
  end.

Definition ak_tcp_socket_connect (fd : Z) (host : option (list Z)) (port timeout_ms : Z) (error : error_ptr) (w : sys)
    : Z * error_ptr * sys :=
  match host with
  | None => (-1, set_error error "Host is required"%str, w)
  | Some host =>
      let '(gai_result, sas, w) := sys_getaddrinfo host port w in
      if negb (gai_result =? 0) then (-1, set_error error (gai_strerror gai_result), w) else
      let '(rc, error, w) :=
        if 0 <? timeout_ms then ak_tcp_socket_set_nonblocking fd true error w else (0, error, w) in
      if negb (rc =? 0) then (-1, error, sys_freeaddrinfo w) else
      let '(a, w) := try_addresses fd timeout_ms sas error w in
      let w := sys_freeaddrinfo w in
      let '(_, _, w) :=
        if 0 <? timeout_ms then ak_tcp_socket_set_nonblocking fd false None w else (0, None, w) in
      match a with
      | Connected => (0, error, w)
      | Failed error => (-1, error, w)
      | Try_next => (-1, set_errno_error error w, w)
      end
  end.
End posix.

(** * What the system promises *)

(** An open socket: the bytes that will be received and those that were sent, its
    flags, its timeouts in microseconds, and whether it is connected. *)
Record socket_state := mk_socket {
  s_in : list Z;
  s_out : list Z;
  s_flags : Z;
  s_rcvtimeo : Z;
  s_sndtimeo : Z;
  s_connected : bool;
}.

(** The open sockets, and the address lists not yet given back. *)
Record kernel := mk_kernel {
  k_sockets : gmap Z socket_state;
  k_infos : nat;
}.

Definition with_in (l : list Z) (s : socket_state) : socket_state :=
  mk_socket l (s_out s) (s_flags s) (s_rcvtimeo s) (s_sndtimeo s) (s_connected s).
Definition with_out (l : list Z) (s : socket_state) : socket_state :=
  mk_socket (s_in s) l (s_flags s) (s_rcvtimeo s) (s_sndtimeo s) (s_connected s).
Definition with_flags (f : Z) (s : socket_state) : socket_state :=
  mk_socket (s_in s) (s_out s) f (s_rcvtimeo s) (s_sndtimeo s) (s_connected s).
Definition with_timeouts (r t : Z) (s : socket_state) : socket_state :=
  mk_socket (s_in s) (s_out s) (s_flags s) r t (s_connected s).
Definition with_socket (fd : Z) (s : socket_state) (k : kernel) : kernel := mk_kernel (<[fd := s]> (k_sockets k)) (k_infos k).

Definition microseconds (tv : Z * Z) : Z := tv.1 * 1000000 + tv.2.

(** A timeout is kept in units of [tick] microseconds, rounded up. *)
Definition option_set (tick : Z) (o : sockopt) (s s' : socket_state) : Prop :=
  match o with
  | SO_RCVTIMEO a b =>
      ∃ t, microseconds (a, b) <= t < microseconds (a, b) + tick ∧ s' = with_timeouts t (s_sndtimeo s) s
  | SO_SNDTIMEO a b =>
      ∃ t, microseconds (a, b) <= t < microseconds (a, b) + tick ∧ s' = with_timeouts (s_rcvtimeo s) t s
  | _ => s' = s
  end.

Definition flags_of (k : kernel) : gmap Z Z := s_flags <$> k_sockets k.
Definition connected (fd : Z) (k : kernel) : Prop := s_connected <$> k_sockets k !! fd = Some true.

(** Nothing is opened or closed, and no address list is made or given back. *)
Definition undisturbed (k k' : kernel) : Prop := dom (k_sockets k') = dom (k_sockets k) ∧ k_infos k' = k_infos k.

Class SystemLaws `{System} := {
  kernel_of : sys → kernel;
  tick : Z;
  nonblock_law : ∃ k, 0 <= k ∧ O_NONBLOCK = 2 ^ k;
  set_errno_law e w : kernel_of (set_errno e w) = kernel_of w;
  negative_law fd w : fd < 0 → k_sockets (kernel_of w) !! fd = None;
  socket_law f w r w' : sys_socket f w = (r, w') →
    (r < 0 ∧ kernel_of w' = kernel_of w)
    ∨ (0 <= r ∧ k_sockets (kernel_of w) !! r = None ∧ ∃ s, kernel_of w' = with_socket r s (kernel_of w));
  setsockopt_law fd o w r w' : sys_setsockopt fd o w = (r, w') →
    (r < 0 ∧ kernel_of w' = kernel_of w)
    ∨ (0 <= r ∧ ∃ s s', k_sockets (kernel_of w) !! fd = Some s ∧ option_set tick o s s'
       ∧ kernel_of w' = with_socket fd s' (kernel_of w));
  get_rcvtimeo_law fd w tv w' : sys_get_rcvtimeo fd w = (tv, w') →
    kernel_of w' = kernel_of w ∧ ∀ tv', tv = Some tv' → 0 <= tv'.2 < 1000000
      ∧ ∃ s, k_sockets (kernel_of w) !! fd = Some s ∧ microseconds tv' = s_rcvtimeo s;
  get_sndtimeo_law fd w tv w' : sys_get_sndtimeo fd w = (tv, w') →
    kernel_of w' = kernel_of w ∧ ∀ tv', tv = Some tv' → 0 <= tv'.2 < 1000000
      ∧ ∃ s, k_sockets (kernel_of w) !! fd = Some s ∧ microseconds tv' = s_sndtimeo s;
  bind_call_law fd sa w r w' : sys_bind fd sa w = (r, w') → undisturbed (kernel_of w) (kernel_of w');
  listen_call_law fd backlog w r w' : sys_listen fd backlog w = (r, w') → undisturbed (kernel_of w) (kernel_of w');
  accept_call_law fd w r sa w' : sys_accept fd w = (r, sa, w') →
    (r < 0 ∧ kernel_of w' = kernel_of w)
    ∨ (0 <= r ∧ k_sockets (kernel_of w) !! r = None ∧ ∃ s, kernel_of w' = with_socket r s (kernel_of w));
  send_call_law fd data w r w' : sys_send fd data w = (r, w') →
    (r < 0 ∧ kernel_of w' = kernel_of w)
    ∨ (0 <= r <= zlen data ∧ ∃ s, k_sockets (kernel_of w) !! fd = Some s
       ∧ kernel_of w' = with_socket fd (with_out (s_out s ++ take (Z.to_nat r) data) s) (kernel_of w));
  recv_call_law fd len w r bytes w' : sys_recv false fd len w = (r, bytes, w') → 0 <= len →
    (r < 0 ∧ kernel_of w' = kernel_of w)
    ∨ (0 <= r <= len ∧ zlen bytes = r ∧ Forall is_byte bytes ∧ ∃ s rest, k_sockets (kernel_of w) !! fd = Some s
       ∧ s_in s = bytes ++ rest ∧ (r = 0 → 0 < len → rest = [])
       ∧ kernel_of w' = with_socket fd (with_in rest s) (kernel_of w));
  recv_frame_law fd len w : undisturbed (kernel_of w) (kernel_of (sys_recv false fd len w).2);
  peek_law fd len w r bytes w' : sys_recv true fd len w = (r, bytes, w') → kernel_of w' = kernel_of w;
  shutdown_call_law b fd w : undisturbed (kernel_of w) (kernel_of (sys_shutdown b fd w));
  close_call_law fd w : kernel_of (sys_close fd w) = mk_kernel (delete fd (k_sockets (kernel_of w))) (k_infos (kernel_of w));
  getfl_law fd w r w' : sys_getfl fd w = (r, w') →
    kernel_of w' = kernel_of w
    ∧ ((r < 0 ∧ k_sockets (kernel_of w) !! fd = None)
       ∨ (0 <= r ∧ ∃ s, k_sockets (kernel_of w) !! fd = Some s ∧ s_flags s = r));
  setfl_law fd f w r w' : sys_setfl fd f w = (r, w') → 0 <= f →
    (r < 0 ∧ k_sockets (kernel_of w) !! fd = None ∧ kernel_of w' = kernel_of w)
    ∨ (0 <= r ∧ ∃ s, k_sockets (kernel_of w) !! fd = Some s ∧ kernel_of w' = with_socket fd (with_flags f s) (kernel_of w));
  poll_in_law fd t w r ev w' : sys_poll_in fd t w = (r, ev, w') → kernel_of w' = kernel_of w;
  poll_out_law fd t w r w' : sys_poll_out fd t w = (r, w') →
    undisturbed (kernel_of w) (kernel_of w') ∧ flags_of (kernel_of w') = flags_of (kernel_of w);
  so_error_law fd w e w' : sys_get_so_error fd w = (e, w') → kernel_of w' = kernel_of w;
  connect_law fd sa w r w' : sys_connect fd sa w = (r, w') →
    undisturbed (kernel_of w) (kernel_of w') ∧ flags_of (kernel_of w') = flags_of (kernel_of w)
    ∧ (r = 0 → connected fd (kernel_of w'));
  (** A connection that was being made is made when the socket can be written to and
      has no error. *)
  in_progress_law fd sa t w r w1 n w2 w3 : sys_connect fd sa w = (r, w1) → r ≠ 0 → errno w1 = EINPROGRESS →
    sys_poll_out fd t w1 = (n, w2) → 0 < n → sys_get_so_error fd w2 = (Some ENONE, w3) → connected fd (kernel_of w3);
  getaddrinfo_law host port w r sas w' : sys_getaddrinfo host port w = (r, sas, w') →
    kernel_of w' = mk_kernel (k_sockets (kernel_of w))
      (if r =? 0 then S (k_infos (kernel_of w)) else k_infos (kernel_of w));
  freeaddrinfo_law w : kernel_of (sys_freeaddrinfo w) = mk_kernel (k_sockets (kernel_of w)) (pred (k_infos (kernel_of w)));
  ntop_law f a : zlen (inet_ntop f a) < 46 ∧ Forall is_char (inet_ntop f a);
}.

Section laws.
Context `{SystemLaws}.

Lemma undisturbed_refl k : undisturbed k k.
Proof. done. Qed.

Lemma undisturbed_trans k1 k2 k3 : undisturbed k1 k2 → undisturbed k2 k3 → undisturbed k1 k3.
Proof. intros [D1 I1] [D2 I2]. split; congruence. Qed.

Lemma with_socket_undisturbed fd s s' k : k_sockets k !! fd = Some s → undisturbed k (with_socket fd s' k).
Proof.
  intros Hs. split; [|done]. simpl. rewrite dom_insert_L. apply subseteq_union_1_L, singleton_subseteq_l.
  by apply elem_of_dom_2 in Hs.
Qed.

Lemma set_error_some (error : error_ptr) m : is_Some error → is_Some (set_error error m).
Proof. intros [x ->]. by eexists. Qed.

(** ** Options *)

Lemma set_options_ok fd opts error w rc e' w' :
  set_options fd opts error w = (rc, e', w') →
  undisturbed (kernel_of w) (kernel_of w') ∧ (rc = 0 ∨ rc = -1).
Proof.
  revert error w. induction opts as [|o opts IH]; intros error w; simpl.
  { intros [= <- <- <-]. split; [apply undisturbed_refl|by left]. }
  destruct (sys_setsockopt fd o w) as [r w1] eqn:E. apply setsockopt_law in E.
  destruct E as [[Hr Hk]|(Hr & s & s' & Hs & _ & Hk)]; destruct (Z.ltb_spec r 0); try lia.
  - intros [= <- <- <-]. rewrite Hk. split; [apply undisturbed_refl|by right].
  - intros [Hu Hrc]%IH. split; [|done]. eapply undisturbed_trans; [|exact Hu]. rewrite Hk.
    by eapply with_socket_undisturbed.
Qed.

Lemma set_timeout_undisturbed fd r s error w rc e' w' :
  ak_tcp_socket_set_timeout fd r s error w = (rc, e', w') →
  undisturbed (kernel_of w) (kernel_of w') ∧ (rc = 0 ∨ rc = -1).
Proof. unfold ak_tcp_socket_set_timeout. destruct (timeval_of r), (timeval_of s). apply set_options_ok. Qed.

Lemma set_keepalive_undisturbed fd a b c error w rc e' w' :
  ak_tcp_socket_set_keepalive fd a b c error w = (rc, e', w') → undisturbed (kernel_of w) (kernel_of w').
Proof.
  unfold ak_tcp_socket_set_keepalive. destruct (set_options fd [SO_KEEPALIVE _] error w) as [[r e1] w1] eqn:E.
  apply set_options_ok in E as [Hu _]. destruct (r <? 0); [by intros [= <- <- <-]|].
  destruct (a <=? 0); [by intros [= <- <- <-]|]. intros [Hu2 _]%set_options_ok. by eapply undisturbed_trans.
Qed.

(** ** Timeouts *)

Lemma timeval_of_spec ms : 0 <= ms → microseconds (timeval_of ms) = 1000 * ms.
Proof.
  intros Hms. unfold timeval_of, microseconds. destruct (Z.ltb_spec 0 ms); simpl; [|lia].
  pose proof (Z.div_mod ms 1000). lia.
Qed.

Lemma ms_of_spec tv ms t :
  0 <= tv.2 < 1000000 → microseconds tv = t → 1000 * ms <= t < 1000 * ms + tick →
  ∃ x, ms_of tv = u32 x ∧ ms <= x ∧ 1000 * (x - ms) < tick.
Proof.
  unfold microseconds, ms_of. intros Hu <- Ht. exists (tv.1 * 1000 + tv.2 / 1000). split; [done|].
  pose proof (Z.div_mod tv.2 1000). pose proof (Z.mod_pos_bound tv.2 1000). lia.
Qed.

(** What a socket says of a timeout of [ms] milliseconds. *)
Definition timeout_read (ms : Z) (answer : option Z) : Prop :=
  ∃ x, answer = Some (u32 x) ∧ ms <= x ∧ 1000 * (x - ms) < tick.

Lemma set_timeout_ok fd r s error w e' w' :
  0 <= r → 0 <= s → ak_tcp_socket_set_timeout fd r s error w = (0, e', w') →
  ∃ st, k_sockets (kernel_of w') !! fd = Some st ∧ 1000 * r <= s_rcvtimeo st < 1000 * r + tick
    ∧ 1000 * s <= s_sndtimeo st < 1000 * s + tick.
Proof.
  intros Hr Hs. unfold ak_tcp_socket_set_timeout.
  pose proof (timeval_of_spec r Hr) as Tr. pose proof (timeval_of_spec s Hs) as Ts.
  destruct (timeval_of r) as [rs ru], (timeval_of s) as [ss su]. simpl.
  destruct (sys_setsockopt fd _ w) as [r1 w1] eqn:E1. apply setsockopt_law in E1.
  destruct (Z.ltb_spec r1 0); [by intros [=]|].
  destruct E1 as [[? _]|(_ & s0 & s1 & _ & (t1 & Ht1 & ->) & K1)]; [lia|].
  destruct (sys_setsockopt fd _ w1) as [r2 w2] eqn:E2. apply setsockopt_law in E2.
  destruct (Z.ltb_spec r2 0); [by intros [=]|].
  destruct E2 as [[? _]|(_ & s2 & s3 & L2 & (t2 & Ht2 & ->) & K2)]; [lia|].
  intros [= <- <-]. rewrite K1 in L2. unfold with_socket in L2. simpl in L2. rewrite lookup_insert_eq in L2.
  injection L2 as <-. rewrite K2. simpl. rewrite lookup_insert_eq. eexists. split; [done|]. simpl.
  rewrite Tr in Ht1. rewrite Ts in Ht2. lia.
Qed.

Lemma get_timeout_ok fd r s error w st rc a b e' w' :
  k_sockets (kernel_of w) !! fd = Some st →
  1000 * r <= s_rcvtimeo st < 1000 * r + tick → 1000 * s <= s_sndtimeo st < 1000 * s + tick →
  ak_tcp_socket_get_timeout fd true true error w = (rc, a, b, e', w') →
  kernel_of w' = kernel_of w
  ∧ ((rc = 0 ∧ e' = error ∧ timeout_read r a ∧ timeout_read s b) ∨ (rc = -1 ∧ b = None)).
Proof.
  intros Hst Hr Hs. unfold ak_tcp_socket_get_timeout.
  destruct (sys_get_rcvtimeo fd w) as [tv1 w1] eqn:E1. apply get_rcvtimeo_law in E1 as [K1 T1].
  destruct tv1 as [tv1|]; simpl; [|intros [= <- <- <- <- <-]; split; [done|by right]].
  destruct (sys_get_sndtimeo fd w1) as [tv2 w2] eqn:E2. apply get_sndtimeo_law in E2 as [K2 T2].
  destruct tv2 as [tv2|]; simpl; intros [= <- <- <- <- <-]; (split; [congruence|]); [left|by right].
  specialize (T1 _ eq_refl) as (U1 & s1 & L1 & M1). specialize (T2 _ eq_refl) as (U2 & s2 & L2 & M2).
  assert (s1 = st) as -> by congruence. assert (s2 = st) as -> by congruence.
  split_and!; [done|done| |].
  - destruct (ms_of_spec tv1 r _ U1 M1 Hr) as (x & -> & ?). by exists x.
  - destruct (ms_of_spec tv2 s _ U2 M2 Hs) as (x & -> & ?). by exists x.
Qed.

(** ** Connecting *)

(** What the calls of an attempt to connect leave as it was. *)
Definition keeps_flags (k k' : kernel) : Prop := undisturbed k k' ∧ flags_of k' = flags_of k.

Lemma keeps_flags_refl k : keeps_flags k k.
Proof. done. Qed.

Lemma keeps_flags_trans k1 k2 k3 : keeps_flags k1 k2 → keeps_flags k2 k3 → keeps_flags k1 k3.
Proof. intros [U1 F1] [U2 F2]. split; [by eapply undisturbed_trans|congruence]. Qed.

Definition attempt_result (fd : Z) (error : error_ptr) (k : kernel) (a : attempt) : Prop :=
  match a with
  | Connected => connected fd k
  | Failed e => ∃ m, e = set_error error m
  | Try_next => True
  end.

Lemma try_address_ok fd t sa error w a w' :
  try_address fd t sa error w = (a, w') →
  keeps_flags (kernel_of w) (kernel_of w') ∧ attempt_result fd error (kernel_of w') a.
Proof.
  unfold try_address. destruct (sys_connect fd sa w) as [r w1] eqn:E1. pose proof (connect_law _ _ _ _ _ E1) as (U1 & F1 & C1).
  assert (keeps_flags (kernel_of w) (kernel_of w1)) as K1 by done.
  destruct (Z.eqb_spec r 0) as [->|Hr]; [intros [= <- <-]; split; [done|by apply C1]|].
  case_bool_decide as Hp; simpl; [|by intros [= <- <-]]. destruct (0 <? t); [|by intros [= <- <-]].
  destruct (sys_poll_out fd (i32 t) w1) as [n w2] eqn:E2. pose proof (poll_out_law _ _ _ _ _ E2) as [U2 F2].
  assert (keeps_flags (kernel_of w) (kernel_of w2)) as K2 by by eapply keeps_flags_trans.
  destruct (Z.ltb_spec n 0); [intros [= <- <-]; split; [done|by eexists]|].
  destruct (Z.eqb_spec n 0); [intros [= <- <-]; split; [done|by eexists]|].
  destruct (sys_get_so_error fd w2) as [so w3] eqn:E3. pose proof (so_error_law _ _ _ _ E3) as K3.
  destruct so as [e|]; [|intros [= <- <-]; rewrite K3; split; [done|by eexists]].
  case_bool_decide as He; intros [= <- <-].
  - subst e. rewrite K3. split; [done|]. rewrite <- K3. simpl. eapply in_progress_law; try done. lia.
  - by rewrite set_errno_law, K3.
Qed.

Lemma try_addresses_ok fd t sas error w a w' :
  try_addresses fd t sas error w = (a, w') →
  keeps_flags (kernel_of w) (kernel_of w') ∧ attempt_result fd error (kernel_of w') a.
Proof.
  revert w. induction sas as [|sa sas IH]; intros w; simpl; [by intros [= <- <-]|].
  destruct (try_address fd t sa error w) as [a1 w1] eqn:E. apply try_address_ok in E as [K1 R1].
  destruct a1; [by intros [= <- <-]|by intros [= <- <-]|]. intros [K2 R2]%IH.
  split; [by eapply keeps_flags_trans|done].
Qed.

(** Setting the mode of a socket changes its flags, and fails only when it is not
    open. *)
Lemma set_nonblocking_ok fd b error w rc e' w' :
  ak_tcp_socket_set_nonblocking fd b error w = (rc, e', w') →
  let f x := if b then Z.lor x O_NONBLOCK else Z.land x (Z.lnot O_NONBLOCK) in
  undisturbed (kernel_of w) (kernel_of w')
  ∧ (∀ i, connected i (kernel_of w) → connected i (kernel_of w'))
  ∧ flags_of (kernel_of w') = alter f fd (flags_of (kernel_of w))
  ∧ ((rc = 0 ∧ e' = error) ∨ (rc = -1 ∧ (∃ m, e' = set_error error m) ∧ k_sockets (kernel_of w) !! fd = None)).
Proof.
  intros E f. revert E. unfold ak_tcp_socket_set_nonblocking.
  destruct (sys_getfl fd w) as [r w1] eqn:E1. apply getfl_law in E1 as [K1 R1].
  assert (k_sockets (kernel_of w) !! fd = None → flags_of (kernel_of w) = alter f fd (flags_of (kernel_of w))) as Hno.
  { intros Hn. symmetry. apply alter_id. intros x. unfold flags_of. by rewrite lookup_fmap, Hn. }
  destruct (Z.ltb_spec r 0).
  { destruct R1 as [[_ Hn]|[? _]]; [|lia]. intros [= <- <- <-]. rewrite K1. split_and!; [done|auto|by apply Hno|right; by eauto]. }
  destruct R1 as [[? _]|(_ & s & Hs & Hf)]; [lia|].
  destruct (sys_setfl fd _ w1) as [r2 w2] eqn:E2.
  apply setfl_law in E2 as [(Hneg & Hn & K2)|(Hpos & s2 & Hs2 & K2)].
  3:{ destruct nonblock_law as (k & Hk & ->). destruct b; [apply Z.lor_nonneg|apply Z.land_nonneg; lia]. split; [done|].
      apply Z.pow_nonneg. lia. }
  - rewrite K1 in Hn. congruence.
  - destruct (Z.ltb_spec r2 0); [lia|]. intros [= <- <- <-]. rewrite K1 in Hs2. assert (s2 = s) as -> by congruence.
    rewrite K2, K1. split_and!; [by eapply with_socket_undisturbed| | |by left].
    + intros i. unfold connected, with_socket. simpl. destruct (decide (i = fd)) as [->|Hi].
      * rewrite Hs, lookup_insert_eq. done.
      * by rewrite lookup_insert_ne by done.
    + unfold flags_of, with_socket. simpl. rewrite fmap_insert. apply map_eq. intros i.
      destruct (decide (i = fd)) as [->|Hi].
      * rewrite lookup_insert_eq, lookup_alter_eq, lookup_fmap, Hs. simpl. f_equal. unfold f. rewrite Hf. by destruct b.
      * by rewrite lookup_insert_ne, lookup_alter_ne.
Qed.

Lemma cleared_mode f : Z.land f O_NONBLOCK = 0 →
  Z.land (Z.lor f O_NONBLOCK) (Z.lnot O_NONBLOCK) = f ∧ Z.land f (Z.lnot O_NONBLOCK) = f.
Proof.
  intros Hf. assert (Z.land f (Z.lnot O_NONBLOCK) = f) as Hid.
  { apply Z.bits_inj'. intros i Hi. rewrite Z.land_spec, Z.lnot_spec by done.
    apply (f_equal (λ x, Z.testbit x i)) in Hf. rewrite Z.land_spec, Z.bits_0 in Hf.
    by destruct (Z.testbit f i), (Z.testbit O_NONBLOCK i). }
  split; [|done]. by rewrite Z.land_lor_distr_l, Z.land_lnot_diag, Z.lor_0_r.
Qed.

(** ** What decides an attempt *)

(** The system lets [fd] connect to [sa]: at once, or before the time is over. *)
Inductive granted (fd t : Z) (sa : sockaddr) (w : sys) : sys → Prop :=
| granted_at_once w1 : sys_connect fd sa w = (0, w1) → granted fd t sa w w1
| granted_later r w1 n w2 w3 :
    sys_connect fd sa w = (r, w1) → r ≠ 0 → errno w1 = EINPROGRESS → 0 < t →
    sys_poll_out fd (i32 t) w1 = (n, w2) → 0 < n → sys_get_so_error fd w2 = (Some ENONE, w3) →
    granted fd t sa w w3.

(** The system refuses [sa]: at once, or by the error the socket has when it can be
    written to. *)
Inductive refused (fd t : Z) (sa : sockaddr) (w : sys) : sys → Prop :=
| refused_at_once r w1 :
    sys_connect fd sa w = (r, w1) → r ≠ 0 → ¬ (errno w1 = EINPROGRESS ∧ 0 < t) → refused fd t sa w w1
| refused_later r w1 n w2 e w3 :
    sys_connect fd sa w = (r, w1) → r ≠ 0 → errno w1 = EINPROGRESS → 0 < t →
    sys_poll_out fd (i32 t) w1 = (n, w2) → 0 < n → sys_get_so_error fd w2 = (Some e, w3) → e ≠ ENONE →
    refused fd t sa w (set_errno e w3).

(** Waiting for [sa] fails, or takes too long; the other addresses are not tried. *)
Inductive abandoned (fd t : Z) (sa : sockaddr) (w : sys) : String.string → sys → Prop :=
| abandoned_poll r w1 n w2 :
    sys_connect fd sa w = (r, w1) → r ≠ 0 → errno w1 = EINPROGRESS → 0 < t →
    sys_poll_out fd (i32 t) w1 = (n, w2) → n < 0 → abandoned fd t sa w (strerror (errno w2)) w2
| abandoned_timeout r w1 w2 :
    sys_connect fd sa w = (r, w1) → r ≠ 0 → errno w1 = EINPROGRESS → 0 < t →
    sys_poll_out fd (i32 t) w1 = (0, w2) → abandoned fd t sa w "Connection timed out"%str w2
| abandoned_error r w1 n w2 w3 :
    sys_connect fd sa w = (r, w1) → r ≠ 0 → errno w1 = EINPROGRESS → 0 < t →
    sys_poll_out fd (i32 t) w1 = (n, w2) → 0 < n → sys_get_so_error fd w2 = (None, w3) →
    abandoned fd t sa w (strerror (errno w3)) w3.

(** Addresses refused one after the other. *)
Inductive all_refused (fd t : Z) : list sockaddr → sys → sys → Prop :=
| refused_none w : all_refused fd t [] w w
| refused_next sa sas w w1 w2 :
    refused fd t sa w w1 → all_refused fd t sas w1 w2 → all_refused fd t (sa :: sas) w w2.

(** The addresses up to some one are refused in their order, then that one decides. *)
Definition attempted (fd t : Z) (sas : list sockaddr) (error : error_ptr) (w : sys) (a : attempt) (w' : sys) : Prop :=
  match a with
  | Try_next => all_refused fd t sas w w'
  | Connected => ∃ before sa after w1, sas = before ++ sa :: after ∧ all_refused fd t before w w1 ∧ granted fd t sa w1 w'
  | Failed e => ∃ before sa after w1 m, sas = before ++ sa :: after ∧ all_refused fd t before w w1
      ∧ abandoned fd t sa w1 m w' ∧ e = set_error error m
  end.

Lemma try_address_attempted fd t sa error w a w' :
  try_address fd t sa error w = (a, w') →
  match a with
  | Try_next => refused fd t sa w w'
  | Connected => granted fd t sa w w'
  | Failed e => ∃ m, abandoned fd t sa w m w' ∧ e = set_error error m
  end.
Proof.
  unfold try_address. destruct (sys_connect fd sa w) as [r w1] eqn:E1.
  destruct (Z.eqb_spec r 0) as [->|Hr]; [intros [= <- <-]; by constructor|].
  case_bool_decide as Hp; simpl; [|intros [= <- <-]; eapply refused_at_once; try done; tauto].
  destruct (Z.ltb_spec 0 t); [|intros [= <- <-]; eapply refused_at_once; try done; lia].
  destruct (sys_poll_out fd (i32 t) w1) as [n w2] eqn:E2.
  destruct (Z.ltb_spec n 0); [intros [= <- <-]; eexists; split; [by eapply abandoned_poll|done]|].
  destruct (Z.eqb_spec n 0) as [->|]; [intros [= <- <-]; eexists; split; [by eapply abandoned_timeout|done]|].
  assert (0 < n) by lia. destruct (sys_get_so_error fd w2) as [so w3] eqn:E3.
  destruct so as [e|]; [|intros [= <- <-]; eexists; split; [by eapply abandoned_error|done]].
  case_bool_decide; intros [= <- <-]; [subst e; by eapply granted_later|by eapply refused_later].
Qed.

Lemma try_addresses_attempted fd t sas error w a w' :
  try_addresses fd t sas error w = (a, w') → attempted fd t sas error w a w'.
Proof.
  revert w. induction sas as [|sa sas IH]; intros w; simpl; [intros [= <- <-]; constructor|].
  destruct (try_address fd t sa error w) as [a1 w1] eqn:E. apply try_address_attempted in E.
  destruct a1 as [|e|].
  - intros [= <- <-]. exists [], sa, sas, w. split_and!; [done|constructor|done].
  - intros [= <- <-]. destruct E as (m & ? & ->). exists [], sa, sas, w, m. split_and!; [done|constructor|done..].
  - intros Hn%IH. destruct a as [|e|]; simpl in *.
    + destruct Hn as (before & sb & after & w2 & -> & ? & ?). exists (sa :: before), sb, after, w2.
      split_and!; [done|by econstructor|done].
    + destruct Hn as (before & sb & after & w2 & m & -> & ? & ? & ->). exists (sa :: before), sb, after, w2, m.
      split_and!; [done|by econstructor|done..].
    + by econstructor.
Qed.

Lemma refused_passed fd t sa error w w' : refused fd t sa w w' → try_address fd t sa error w = (Try_next, w').
Proof.
  unfold try_address. intros [r w1 -> Hr%Z.eqb_neq Hp|r w1 n w2 e w3 -> Hr%Z.eqb_neq Hp Ht E2 Hn E3 He]; rewrite Hr.
  - case_bool_decide; simpl; [|done]. destruct (Z.ltb_spec 0 t); tauto.
  - rewrite bool_decide_true by done. rewrite (proj2 (Z.ltb_lt 0 t)), E2 by done. simpl.
    rewrite (proj2 (Z.ltb_ge n 0)), (proj2 (Z.eqb_neq n 0)), E3 by lia. by rewrite bool_decide_false.
Qed.

Lemma granted_connects fd t sa error w w' : granted fd t sa w w' → try_address fd t sa error w = (Connected, w').
Proof.
  unfold try_address. intros [w1 ->|r w1 n w2 w3 -> Hr%Z.eqb_neq Hp Ht E2 Hn E3]; [done|rewrite Hr].
  rewrite bool_decide_true by done. rewrite (proj2 (Z.ltb_lt 0 t)), E2 by done. simpl.
  rewrite (proj2 (Z.ltb_ge n 0)), (proj2 (Z.eqb_neq n 0)), E3 by lia. by rewrite bool_decide_true.
Qed.

Lemma try_addresses_connects fd t before sa after error w w1 w' :
  all_refused fd t before w w1 → granted fd t sa w1 w' →
  try_addresses fd t (before ++ sa :: after) error w = (Connected, w').
Proof.
  intros Hb Ha. induction Hb as [w|sb before w w2 w3 Hr _ IH]; simpl; [by rewrite (granted_connects _ _ _ error _ _ Ha)|].
  rewrite (refused_passed _ _ _ error _ _ Hr). by apply IH.
Qed.

(** The socket is made not to block when there is a time to wait for. *)
Definition prepared (fd t : Z) (w w' : sys) : Prop :=
  if 0 <? t then ∃ f w1 r, sys_getfl fd w = (f, w1) ∧ 0 <= f ∧ sys_setfl fd (Z.lor f O_NONBLOCK) w1 = (r, w') ∧ 0 <= r
  else w' = w.

(** The host has addresses, and the first of them that is not refused is granted. *)
Definition reaches (fd : Z) (host : option (list Z)) (port t : Z) (w : sys) : Prop :=
  ∃ name w1 w2 before sa after w3 w4,
    host = Some name ∧ sys_getaddrinfo name port w = (0, before ++ sa :: after, w1) ∧ prepared fd t w1 w2
    ∧ all_refused fd t before w2 w3 ∧ granted fd t sa w3 w4.

(** The ways in which a host is not reached, with what the message says; nothing
    is said of the message when the flags cannot be changed, or when all addresses
    are refused, since then the address list is freed before the error is read. *)
Inductive misses (fd : Z) (host : option (list Z)) (port t : Z) (w : sys) (m : String.string) : Prop :=
| no_host : host = None → m = "Host is required"%str → misses fd host port t w m
| no_address name g sas w1 :
    host = Some name → sys_getaddrinfo name port w = (g, sas, w1) → g ≠ 0 → m = gai_strerror g →
    misses fd host port t w m
| not_open name sas w1 :
    host = Some name → sys_getaddrinfo name port w = (0, sas, w1) → 0 < t → k_sockets (kernel_of w1) !! fd = None →
    misses fd host port t w m
| none_left name sas w1 w2 w3 :
    host = Some name → sys_getaddrinfo name port w = (0, sas, w1) → prepared fd t w1 w2 → all_refused fd t sas w2 w3 →
    misses fd host port t w m
| waited_in_vain name w1 w2 before sa after w3 w4 :
    host = Some name → sys_getaddrinfo name port w = (0, before ++ sa :: after, w1) → prepared fd t w1 w2 →
    all_refused fd t before w2 w3 → abandoned fd t sa w3 m w4 → misses fd host port t w m.

Lemma prepared_set fd t error w w' :
  prepared fd t w w' ↔
  (if 0 <? t then ak_tcp_socket_set_nonblocking fd true error w else (0, error, w)) = (0, error, w').
Proof.
  unfold prepared, ak_tcp_socket_set_nonblocking. destruct (0 <? t); [|split; [by intros ->|congruence]]. split.
  - intros (f & w1 & r & -> & Hf & E & Hr). rewrite (proj2 (Z.ltb_ge f 0)) by done. rewrite E.
    by rewrite (proj2 (Z.ltb_ge r 0)).
  - destruct (sys_getfl fd w) as [f w1] eqn:E1. destruct (Z.ltb_spec f 0); [by intros [= ?]|].
    destruct (sys_setfl fd (Z.lor f O_NONBLOCK) w1) as [r w2] eqn:E2. destruct (Z.ltb_spec r 0); [by intros [= ?]|].
    intros [= <-]. by exists f, w1, r.
Qed.

(** The answer is 0 exactly for a host that is reached. *)
Lemma connect_reaches fd host port t error w r e' w' :
  ak_tcp_socket_connect fd host port t error w = (r, e', w') → reaches fd host port t w → r = 0.
Proof.
  intros E (name & w1 & w2 & before & sa & after & w3 & w4 & -> & Eg & Hp & Hb & Ha). revert E.
  unfold ak_tcp_socket_connect. rewrite Eg. simpl. rewrite (proj1 (prepared_set fd t error w1 w2) Hp). simpl.
  rewrite (try_addresses_connects _ _ _ _ _ error _ _ _ Hb Ha).
  destruct (if 0 <? t then _ else _) as [[? ?] ?]. by intros [= <- _ _].
Qed.

Lemma connect_decides fd host port t error w r e' w' :
  ak_tcp_socket_connect fd host port t error w = (r, e', w') →
  (r = 0 ∧ reaches fd host port t w) ∨ (r = -1 ∧ ∃ m, misses fd host port t w m ∧ e' = set_error error m).
Proof.
  unfold ak_tcp_socket_connect. destruct host as [host|].
  2:{ intros [= <- <- <-]. right. split; [done|]. eexists. split; [by apply no_host|done]. }
  destruct (sys_getaddrinfo host port w) as [[g sas] w1] eqn:E1. destruct (Z.eqb_spec g 0) as [->|Hg]; simpl.
  2:{ intros [= <- <- <-]. right. split; [done|]. eexists. split; [by eapply no_address|done]. }
  destruct (if 0 <? t then ak_tcp_socket_set_nonblocking fd true error w1 else _) as [[rc e1] w2] eqn:E2.
  destruct (Z.eqb_spec rc 0) as [->|Hrc]; simpl.
  2:{ intros [= <- <- <-]. right. split; [done|]. destruct (Z.ltb_spec 0 t); [|congruence].
      apply set_nonblocking_ok in E2 as (_ & _ & _ & [[? _]|(_ & (m & ->) & Hn)]); [done|].
      exists m. split; [by eapply not_open|done]. }
  assert (e1 = error) as ->.
  { destruct (0 <? t); [|congruence]. by apply set_nonblocking_ok in E2 as (_ & _ & _ & [[_ ?]|[? _]]). }
  apply prepared_set in E2. destruct (try_addresses fd t sas error w2) as [a w3] eqn:E3.
  apply try_addresses_attempted in E3. destruct (if 0 <? t then _ else _) as [[rc5 e5] w5].
  destruct a as [|e|]; simpl in E3; intros [= <- <- <-].
  - destruct E3 as (before & sa & after & w4 & -> & ? & ?). left. split; [done|]. by exists host, w1, w2, before, sa, after, w4, w3.
  - destruct E3 as (before & sa & after & w4 & m & -> & ? & ? & ->). right. split; [done|].
    exists m. split; [by eapply waited_in_vain|done].
  - right. split; [done|]. eexists. split; [by eapply none_left|done].
Qed.

Definition blocking (fd : Z) (k : kernel) : Prop := ∀ f, flags_of k !! fd = Some f → Z.land f O_NONBLOCK = 0.

Lemma restored_mode fd k :
  blocking fd k →
  alter (λ x, Z.land x (Z.lnot O_NONBLOCK)) fd (alter (λ x, Z.lor x O_NONBLOCK) fd (flags_of k)) = flags_of k.
Proof.
  intros Hb. apply map_eq. intros i. destruct (decide (i = fd)) as [->|Hi].
  - rewrite !lookup_alter_eq. destruct (flags_of k !! fd) as [f|] eqn:Hf; [|done]. simpl. f_equal. by apply cleared_mode, Hb.
  - by rewrite !lookup_alter_ne by done.
Qed.


Lemma connect_ok fd host port timeout_ms error w r e' w' :
  blocking fd (kernel_of w) →
  ak_tcp_socket_connect fd host port timeout_ms error w = (r, e', w') →
  keeps_flags (kernel_of w) (kernel_of w')
  ∧ ((r = 0 ∧ e' = error ∧ connected fd (kernel_of w')) ∨ (r = -1 ∧ ∃ m, e' = set_error error m)).
Proof.
  intros Hb. unfold ak_tcp_socket_connect. destruct host as [host|].
  2:{ intros [= <- <- <-]. split; [done|right]. by eauto. }
  destruct (sys_getaddrinfo host port w) as [[g sas] w1] eqn:E1. apply getaddrinfo_law in E1.
  destruct (Z.eqb_spec g 0) as [->|Hg]; simpl.
  2:{ intros [= <- <- <-]. rewrite E1. split; [by destruct (kernel_of w)|right; by eauto]. }
  destruct (if 0 <? timeout_ms then ak_tcp_socket_set_nonblocking fd true error w1 else (0, error, w1)) as [[rc e1] w2] eqn:E2.
  assert (let f x := if 0 <? timeout_ms then Z.lor x O_NONBLOCK else x in
     undisturbed (kernel_of w1) (kernel_of w2) ∧ flags_of (kernel_of w2) = alter f fd (flags_of (kernel_of w1))
     ∧ ((rc = 0 ∧ e1 = error) ∨ (rc = -1 ∧ (∃ m, e1 = set_error error m)
          ∧ flags_of (kernel_of w2) = flags_of (kernel_of w1)))) as (U2 & F2 & R2).
  { destruct (0 <? timeout_ms).
    - apply set_nonblocking_ok in E2 as (U & _ & F & [?|(? & ? & Hn)]); split_and!; try done; [by left|right].
      split_and!; try done. rewrite F. apply alter_id. intros x. unfold flags_of. by rewrite lookup_fmap, Hn.
    - injection E2 as <- <- <-. split_and!; [done| |by left]. symmetry. by apply alter_id. }
  assert (flags_of (kernel_of w1) = flags_of (kernel_of w)) as F1 by by rewrite E1.
  destruct (Z.eqb_spec rc 0) as [->|Hrc]; simpl.
  2:{ intros [= <- <- <-]. destruct R2 as [[? _]|(_ & Hm & Hf)]; [done|]. split; [|by right].
      split; rewrite freeaddrinfo_law.
      - destruct U2 as [D2 I2]. split; simpl; rewrite ?D2, ?I2, E1; done.
      - unfold flags_of in *. simpl. congruence. }
  destruct (try_addresses fd timeout_ms sas e1 w2) as [a w3] eqn:E3. apply try_addresses_ok in E3 as [[U3 F3] R3].
  destruct R2 as [[_ ->]|[? _]]; [|done].
  set (w4 := sys_freeaddrinfo w3). assert (undisturbed (kernel_of w) (kernel_of w4)) as U4.
  { unfold w4. rewrite freeaddrinfo_law. destruct U2 as [D2 I2], U3 as [D3 I3]. split; simpl; rewrite ?D3, ?I3, ?D2, ?I2, E1; done. }
  assert (flags_of (kernel_of w4) = alter (λ x, if 0 <? timeout_ms then Z.lor x O_NONBLOCK else x) fd (flags_of (kernel_of w))) as F4.
  { unfold w4. rewrite freeaddrinfo_law. unfold flags_of in *. simpl. congruence. }
  assert (∀ i, connected i (kernel_of w3) → connected i (kernel_of w4)) as C4.
  { intros i. unfold w4. by rewrite freeaddrinfo_law. }
  clearbody w4. destruct (if 0 <? timeout_ms then ak_tcp_socket_set_nonblocking fd false None w4 else (0, None, w4)) as [[rc2 e2] w5] eqn:E5.
  assert (keeps_flags (kernel_of w) (kernel_of w5) ∧ (∀ i, connected i (kernel_of w4) → connected i (kernel_of w5))) as [K5 C5].
  { destruct (0 <? timeout_ms).
    - apply set_nonblocking_ok in E5 as (U5 & C5 & F5 & _). split; [|done]. split; [by eapply undisturbed_trans|].
      rewrite F5, F4. by apply restored_mode.
    - injection E5 as <- <- <-. split; [|done]. split; [done|]. rewrite F4. by apply alter_id. }
  destruct a as [|e|]; simpl in R3; intros [= <- <- <-]; (split; [done|]); [left|right; by eauto..].
  split_and!; [done|done|]. by apply C5, C4.
Qed.
End laws.

(** ** The interface *)

Section interface.
Context `{SystemLaws}.

Definition open_fds (w : sys) : gset Z := dom (k_sockets (kernel_of w)).

Lemma undisturbed_open w w' : undisturbed (kernel_of w) (kernel_of w') → open_fds w' = open_fds w.
Proof. by intros [? _]. Qed.

Lemma invalid_closed w : AK_INVALID_SOCKET ∉ open_fds w.
Proof. unfold open_fds. rewrite not_elem_of_dom. by apply negative_law. Qed.

Lemma close_open fd w : open_fds (sys_close fd w) = (open_fds w ∖ {[ fd ]}).
Proof. unfold open_fds. rewrite close_call_law. simpl. by rewrite dom_delete_L. Qed.

Lemma new_open fd s w w' : k_sockets (kernel_of w) !! fd = None → kernel_of w' = with_socket fd s (kernel_of w) →
  (fd ∉ open_fds w) ∧ open_fds w' = {[ fd ]} ∪ open_fds w.
Proof.
  intros Hn HK. unfold open_fds. rewrite HK. simpl. rewrite dom_insert_L, not_elem_of_dom. done.
Qed.

Lemma discard_open fd s : (fd ∉ s) → ({[ fd ]} ∪ s) ∖ {[ fd ]} = (s : gset Z).
Proof.
  intros Hn. apply set_eq. intros x. rewrite elem_of_difference, elem_of_union, elem_of_singleton.
  split; [tauto|]. intros Hx. split; [by right|]. by intros ->.
Qed.

Lemma setsockopt_open fd o w r w' : sys_setsockopt fd o w = (r, w') → open_fds w' = open_fds w.
Proof.
  intros [[_ HK]|(_ & s & s' & Hs & _ & HK)]%setsockopt_law; apply undisturbed_open; rewrite HK; [done|].
  by eapply with_socket_undisturbed.
Qed.

Lemma create_ok addr e w r e' w' :
  ak_tcp_socket_create_for_addr addr e w = (r, e', w') →
  (r = AK_INVALID_SOCKET ∧ open_fds w' = open_fds w)
  ∨ (0 <= r ∧ (r ∉ open_fds w) ∧ open_fds w' = {[ r ]} ∪ open_fds w).
Proof.
  unfold ak_tcp_socket_create_for_addr. destruct (sys_socket _ w) as [fd w1] eqn:E1. apply socket_law in E1.
  destruct E1 as [[Hr HK]|(Hr & Hn & s & HK)]; destruct (Z.ltb_spec fd 0); try lia.
  { intros [= <- <- <-]. left. split; [done|]. unfold open_fds. by rewrite HK. }
  destruct (new_open fd s w w1 Hn HK) as [Hfresh Ho].
  assert (∀ w2, open_fds w2 = open_fds w1 → open_fds (sys_close fd w2) = open_fds w) as Hclose.
  { intros w2 Ho2. rewrite close_open, Ho2, Ho. by apply discard_open. }
  destruct (sys_setsockopt fd _ w1) as [r2 w2] eqn:E2. apply setsockopt_open in E2.
  destruct (r2 <? 0); [intros [= <- <- <-]; left; split; [done|by apply Hclose]|].
  case_bool_decide.
  - destruct (sys_setsockopt fd _ w2) as [r3 w3] eqn:E3. apply setsockopt_open in E3.
    destruct (r3 <? 0); intros [= <- <- <-]; [left; split; [done|apply Hclose; congruence]|right].
    split_and!; [done|done|congruence].
  - intros [= <- <- <-]. right. split_and!; [done|done|congruence].
Qed.

Lemma socket_accept_ok fd e w r ip port e' w' :
  ak_tcp_socket_accept fd e w = (r, ip, port, e', w') →
  (r = AK_INVALID_SOCKET ∧ open_fds w' = open_fds w)
  ∨ (0 <= r ∧ (r ∉ open_fds w) ∧ open_fds w' = {[ r ]} ∪ open_fds w ∧ zlen ip < 46 ∧ Forall is_char ip).
Proof.
  unfold ak_tcp_socket_accept. destruct (sys_accept fd w) as [[c sa] w1] eqn:E1. apply accept_call_law in E1.
  destruct E1 as [[Hr HK]|(Hr & Hn & s & HK)]; destruct (Z.ltb_spec c 0); try lia; intros [= <- <- <- <- <-].
  - left. split; [done|]. unfold open_fds. by rewrite HK.
  - right. destruct (new_open c s w w1 Hn HK) as [Hfresh Ho]. split_and!; try done;
      unfold peer_text; destruct (sa_family sa); try destruct (is_v4mapped _); apply ntop_law.
Qed.

(** Connecting opens and closes nothing, whatever the mode of the socket. *)
Lemma connect_open fd host port t e w r e' w' :
  ak_tcp_socket_connect fd host port t e w = (r, e', w') → open_fds w' = open_fds w.
Proof.
  assert (∀ fd b e w r e' w', ak_tcp_socket_set_nonblocking fd b e w = (r, e', w') → open_fds w' = open_fds w) as Hmode.
  { intros ? ? ? ? ? ? ? (HU & _)%set_nonblocking_ok. by apply undisturbed_open. }
  unfold ak_tcp_socket_connect. destruct host as [host|]; [|by intros [= <- <- <-]].
  destruct (sys_getaddrinfo host port w) as [[g sas] w1] eqn:E1. apply getaddrinfo_law in E1.
  assert (open_fds w1 = open_fds w) as H1 by (unfold open_fds; by rewrite E1).
  assert (∀ w, open_fds (sys_freeaddrinfo w) = open_fds w) as Hfree by (intros w0; unfold open_fds; by rewrite freeaddrinfo_law).
  destruct (negb (g =? 0)); [by intros [= <- <- <-]|].
  assert (∀ b e w r e' w', (if 0 <? t then ak_tcp_socket_set_nonblocking fd b e w else (0, e, w)) = (r, e', w') →
    open_fds w' = open_fds w) as Hset.
  { intros ? ? ? ? ? ?. destruct (0 <? t); [apply Hmode|by intros [= <- <- <-]]. }
  destruct (if 0 <? t then ak_tcp_socket_set_nonblocking fd true e w1 else (0, e, w1)) as [[rc e1] w2] eqn:E2. apply Hset in E2.
  destruct (negb (rc =? 0)); [intros [= <- <- <-]; rewrite Hfree; congruence|].
  destruct (try_addresses fd t sas e1 w2) as [a w3] eqn:E3. apply try_addresses_ok in E3 as [[U3 _] _].
  apply undisturbed_open in U3.
  destruct (if 0 <? t then ak_tcp_socket_set_nonblocking fd false None (sys_freeaddrinfo w3) else (0, None, sys_freeaddrinfo w3))
    as [[rc2 e2] w5] eqn:E5. apply Hset in E5. rewrite Hfree in E5.
  destruct a; intros [= <- <- <-]; congruence.
Qed.

Lemma bind_ok fd addr port e w r e' w' :
  ak_tcp_socket_bind fd addr port e w = (r, e', w') → open_fds w' = open_fds w.
Proof.
  unfold ak_tcp_socket_bind. destruct (bind_target addr port); [|by intros [= <- <- <-]].
  destruct (sys_bind fd s w) as [rc w1] eqn:E. apply bind_call_law, undisturbed_open in E.
  destruct (rc <? 0); by intros [= <- <- <-].
Qed.

Lemma listen_ok fd backlog e w r e' w' :
  ak_tcp_socket_listen fd backlog e w = (r, e', w') → open_fds w' = open_fds w.
Proof.
  unfold ak_tcp_socket_listen. destruct (sys_listen fd _ w) as [rc w1] eqn:E. apply listen_call_law, undisturbed_open in E.
  destruct (rc <? 0); by intros [= <- <- <-].
Qed.

Lemma close_ok fd w : open_fds (ak_tcp_socket_close fd w) = (open_fds w ∖ {[ fd ]}).
Proof.
  unfold ak_tcp_socket_close. destruct (Z.eqb_spec fd AK_INVALID_SOCKET) as [->|Hfd]; simpl.
  - apply set_eq. intros x. rewrite elem_of_difference, elem_of_singleton. pose proof (invalid_closed w).
    split; [|tauto]. intros Hx. split; [done|]. by intros ->.
  - rewrite close_open. f_equal. apply undisturbed_open, shutdown_call_law.
Qed.

Lemma shutdown_ok fd w : open_fds (ak_tcp_socket_shutdown fd w) = open_fds w.
Proof. unfold ak_tcp_socket_shutdown. destruct (negb _); [|done]. apply undisturbed_open, shutdown_call_law. Qed.

Lemma poll_read_ok fd t w r w' : ak_tcp_socket_poll_read fd t w = (r, w') → kernel_of w' = kernel_of w.
Proof.
  unfold ak_tcp_socket_poll_read. destruct (sys_poll_in fd t w) as [[x ev] w1] eqn:E. apply poll_in_law in E. by intros [= <- <-].
Qed.

Lemma peer_closed_ok fd w b w' :
  ak_tcp_socket_peer_closed fd w = (b, w') → kernel_of w' = kernel_of w.
Proof.
  unfold ak_tcp_socket_peer_closed. destruct (fd =? AK_INVALID_SOCKET); [by intros [= <- <-]|].
  destruct (sys_poll_in fd 0 w) as [[x ev] w1] eqn:E1. apply poll_in_law in E1.
  destruct (x <? 0); [by intros [= <- <-]|]. destruct (x =? 0); [by intros [= <- <-]|].
  destruct (_ || _); [by intros [= <- <-]|]. destruct (POLLIN ev); [|by intros [= <- <-]].
  destruct (sys_recv true fd 1 w1) as [[n bytes] w2] eqn:E2. apply peek_law in E2.
  destruct (n =? 0); [intros [= <- <-]; congruence|]. destruct (_ && _); intros [= <- <-]; congruence.
Qed.

(** The bytes that will be received on a socket, and those sent on it. *)
Definition socket_in (fd : Z) (w : sys) : list Z := from_option s_in [] (k_sockets (kernel_of w) !! fd).
Definition socket_out (fd : Z) (w : sys) : list Z := from_option s_out [] (k_sockets (kernel_of w) !! fd).

Lemma send_ok fd data e w r e' w' :
  ak_tcp_socket_send fd data e w = (r, e', w') →
  -1 <= r <= zlen data ∧ socket_out fd w' = socket_out fd w ++ take (Z.to_nat r) data
  ∧ socket_in fd w' = socket_in fd w ∧ open_fds w' = open_fds w.
Proof.
  pose proof (zlen_nonneg data). unfold ak_tcp_socket_send, socket_in, socket_out, open_fds.
  destruct (sys_send fd data w) as [n w1] eqn:E. apply send_call_law in E.
  destruct E as [[Hr HK]|(Hr & s & Hs & HK)]; destruct (Z.ltb_spec n 0); try lia; intros [= <- <- <-]; rewrite HK.
  - split_and!; [lia|lia|by rewrite app_nil_r|done..].
  - simpl. rewrite lookup_insert_eq, Hs. split_and!; [lia|lia|done|done|].
    apply (with_socket_undisturbed fd s (with_out _ s) _ Hs).
Qed.

Lemma recv_frame fd len e w r bytes e' w' :
  ak_tcp_socket_recv fd len e w = (r, bytes, e', w') → open_fds w' = open_fds w.
Proof.
  unfold ak_tcp_socket_recv. pose proof (undisturbed_open _ _ (recv_frame_law fd len w)) as Ho.
  destruct (sys_recv false fd len w) as [[n bs] w1]. simpl in Ho. destruct (n <? 0); by intros [= <- <- <- <-].
Qed.

Lemma socket_recv_ok fd len e w r bytes e' w' :
  ak_tcp_socket_recv fd len e w = (r, bytes, e', w') → 0 <= len →
  -1 <= r <= len ∧ zlen bytes = Z.max 0 r ∧ Forall is_byte bytes
  ∧ socket_in fd w = bytes ++ socket_in fd w' ∧ (r = 0 → 0 < len → socket_in fd w = [])
  ∧ socket_out fd w' = socket_out fd w.
Proof.
  intros E Hlen. revert E. unfold ak_tcp_socket_recv, socket_in, socket_out.
  destruct (sys_recv false fd len w) as [[n bs] w1] eqn:E. apply recv_call_law in E; [|done].
  destruct E as [[Hr HK]|(Hr & Hb & Hby & s & rest & Hs & Hin & Hend & HK)]; destruct (Z.ltb_spec n 0); try lia;
    intros [= <- <- <- <-]; rewrite HK.
  - split_and!; [lia|lia|done|constructor|done|lia|done].
  - simpl. rewrite lookup_insert_eq, Hs. simpl. split_and!; [lia|lia|lia|done|done| |done].
    intros -> Hp. rewrite Hin, (Hend eq_refl Hp), app_nil_r. destruct bs; [done|]. rewrite zlen_cons in Hb. pose proof (zlen_nonneg bs). lia.
Qed.
End interface.

(** * A system *)

(** A small system to evaluate on: every call succeeds on an open socket, and
    connecting a socket that does not block goes on after the call.  It carries a
    value of another type, for the TLS library over it. *)
Record toy_sys (X : Type) := mk_toy_sys {
  y_kernel : kernel;
  y_errno : errnum;
  y_extra : X;
}.
#[global] Arguments mk_toy_sys {_}.
#[global] Arguments y_kernel {_}.
#[global] Arguments y_errno {_}.
#[global] Arguments y_extra {_}.

Lemma with_socket_flags fd s s' k :
  k_sockets k !! fd = Some s → s_flags s' = s_flags s → flags_of (with_socket fd s' k) = flags_of k.
Proof.
  intros Hs Hf. unfold flags_of, with_socket. simpl. rewrite fmap_insert, Hf. apply insert_id. by rewrite lookup_fmap, Hs.
Qed.

Section toy_system.
Context {X : Type}.

Definition y_with_kernel (k : kernel) (w : toy_sys X) : toy_sys X := mk_toy_sys k (y_errno w) (y_extra w).
Definition y_with_errno (e : errnum) (w : toy_sys X) : toy_sys X := mk_toy_sys (y_kernel w) e (y_extra w).
Definition y_with_extra (x : X) (w : toy_sys X) : toy_sys X := mk_toy_sys (y_kernel w) (y_errno w) x.

(** Only descriptors and flags that are not negative count. *)
Definition y_norm (s : socket_state) : socket_state := with_flags (Z.max 0 (s_flags s)) s.
Definition y_view (w : toy_sys X) : kernel :=
  mk_kernel (y_norm <$> filter (λ p, 0 <= p.1) (k_sockets (y_kernel w))) (k_infos (y_kernel w)).
Definition y_get (fd : Z) (w : toy_sys X) : option socket_state :=
  if 0 <=? fd then y_norm <$> k_sockets (y_kernel w) !! fd else None.
Definition y_put (fd : Z) (s : socket_state) (w : toy_sys X) : toy_sys X := y_with_kernel (with_socket fd s (y_kernel w)) w.
Definition y_fresh (w : toy_sys X) : Z := above (map_to_list (k_sockets (y_kernel w))).*1.
Definition new_socket : socket_state := mk_socket [104; 105] [] 0 0 0 false.

(** A call on an open socket. *)
Definition y_on {A} (fd : Z) (f : socket_state → A * toy_sys X) (fail : A) (w : toy_sys X) : A * toy_sys X :=
  match y_get fd w with
  | Some s => f s
  | None => (fail, y_with_errno EBADF w)
  end.

Definition y_option (o : sockopt) (s : socket_state) : socket_state :=
  match o with
  | SO_RCVTIMEO a b => with_timeouts (microseconds (a, b)) (s_sndtimeo s) s
  | SO_SNDTIMEO a b => with_timeouts (s_rcvtimeo s) (microseconds (a, b)) s
  | _ => s
  end.

Definition y_recv (peek : bool) (fd len : Z) (w : toy_sys X) : Z * list Z * toy_sys X :=
  y_on fd (λ s,
    let n := Z.min len (zlen (s_in s)) in
    if bool_decide (Forall is_byte (s_in s)) && (0 <=? len) then
      (n, take (Z.to_nat n) (s_in s), if peek then w else y_put fd (with_in (drop (Z.to_nat n) (s_in s)) s) w)
    else (-1, [], w)) (-1, []) w.

#[local] Instance toy_system : System := {|
  sys := toy_sys X;
  errno := y_errno;
  set_errno := y_with_errno;
  strerror := λ _, "error"%str;
  sys_ignore_sigpipe := λ w, w;
  sys_socket := λ _ w, (y_fresh w, y_put (y_fresh w) new_socket w);
  sys_setsockopt := λ fd o w, y_on fd (λ s, (0, y_put fd (y_option o s) w)) (-1) w;
  sys_get_rcvtimeo := λ fd w, y_on fd (λ s, (Some (s_rcvtimeo s / 1000000, s_rcvtimeo s mod 1000000), w)) None w;
  sys_get_sndtimeo := λ fd w, y_on fd (λ s, (Some (s_sndtimeo s / 1000000, s_sndtimeo s mod 1000000), w)) None w;
  sys_get_so_error := λ fd w, y_on fd (λ s, (Some ENONE, w)) None w;
  sys_bind := λ _ _ w, (0, w);
  sys_listen := λ _ _ w, (0, w);
  sys_accept := λ _ w, (y_fresh w, mk_sockaddr AF_INET [127; 0; 0; 1] (htons 80), y_put (y_fresh w) new_socket w);
  sys_send := λ fd data w, y_on fd (λ s, (zlen data, y_put fd (with_out (s_out s ++ data) s) w)) (-1) w;
  sys_recv := y_recv;
  sys_shutdown := λ _ _ w, w;
  sys_close := λ fd w, y_with_kernel (mk_kernel (delete fd (k_sockets (y_kernel w))) (k_infos (y_kernel w))) w;
  sys_getfl := λ fd w, y_on fd (λ s, (s_flags s, w)) (-1) w;
  sys_setfl := λ fd f w, y_on fd (λ s, (0, y_put fd (with_flags f s) w)) (-1) w;
  sys_poll_in := λ _ _ w, (0, mk_revents false false false false, w);
  sys_poll_out := λ _ _ w, (1, w);
  sys_connect := λ fd _ w, y_on fd (λ s,
    let w := y_put fd (mk_socket (s_in s) (s_out s) (s_flags s) (s_rcvtimeo s) (s_sndtimeo s) true) w in
    if Z.testbit (s_flags s) 11 then (-1, y_with_errno EINPROGRESS w) else (0, w)) (-1) w;
  sys_getaddrinfo := λ _ port w,
    (0, [mk_sockaddr AF_INET [127; 0; 0; 1] (htons port)],
     y_with_kernel (mk_kernel (k_sockets (y_kernel w)) (S (k_infos (y_kernel w)))) w);
  sys_freeaddrinfo := λ w, y_with_kernel (mk_kernel (k_sockets (y_kernel w)) (pred (k_infos (y_kernel w)))) w;
  gai_strerror := λ _, "error"%str;
  inet_pton := λ f a, if bool_decide (f = AF_INET) then Some a else None;
  inet_ntop := λ _ _, bytes_of "127.0.0.1"%str;
  O_NONBLOCK := 2048;
|}.

Lemma y_get_spec fd w : k_sockets (y_view w) !! fd = y_get fd w.
Proof.
  unfold y_view, y_get. simpl. rewrite lookup_fmap, map_lookup_filter.
  destruct (Z.leb_spec 0 fd), (k_sockets (y_kernel w) !! fd); simpl; try done.
  - by rewrite option_guard_True.
  - rewrite option_guard_False; [done|simpl; lia].
Qed.

Lemma y_norm_id s : 0 <= s_flags s → y_norm s = s.
Proof. intros Hf. unfold y_norm, with_flags. rewrite Z.max_r by done. by destruct s. Qed.

Lemma y_put_spec fd s w : 0 <= fd → 0 <= s_flags s → y_view (y_put fd s w) = with_socket fd s (y_view w).
Proof.
  intros Hfd Hf. unfold y_view, y_put, with_socket. simpl. f_equal.
  by rewrite map_filter_insert_True, fmap_insert, y_norm_id.
Qed.

Lemma y_get_some fd s w : y_get fd w = Some s → 0 <= fd ∧ 0 <= s_flags s.
Proof.
  unfold y_get. destruct (Z.leb_spec 0 fd); [|done]. destruct (_ !! fd); intros [= <-]. split; [done|].
  unfold y_norm. simpl. lia.
Qed.

(** A call on an open socket, or on one that is not. *)
Lemma y_on_spec {A} fd (f : socket_state → A * toy_sys X) fail w r w' :
  y_on fd f fail w = (r, w') →
  (r = fail ∧ y_get fd w = None ∧ y_view w' = y_view w)
  ∨ (∃ s, k_sockets (y_view w) !! fd = Some s ∧ 0 <= fd ∧ 0 <= s_flags s ∧ f s = (r, w')).
Proof.
  unfold y_on. destruct (y_get fd w) as [s|] eqn:Hg.
  - intros E. right. exists s. rewrite y_get_spec. destruct (y_get_some _ _ _ Hg). done.
  - intros [= <- <-]. by left.
Qed.

Lemma y_fresh_spec w : 0 <= y_fresh w ∧ k_sockets (y_view w) !! y_fresh w = None.
Proof.
  unfold y_fresh. destruct (above_spec (map_to_list (k_sockets (y_kernel w))).*1) as [Hp Hn]. split; [lia|].
  rewrite y_get_spec. unfold y_get. destruct (0 <=? _); [|done]. destruct (_ !! _) as [s|] eqn:E; [|done].
  exfalso. apply Hn. apply list_elem_of_fmap. exists (above (map_to_list (k_sockets (y_kernel w))).*1, s).
  split; [done|]. by apply elem_of_map_to_list.
Qed.

#[local] Arguments y_view : simpl never.

Lemma y_opened w : ∃ s, y_view (y_put (y_fresh w) new_socket w) = with_socket (y_fresh w) s (y_view w).
Proof. exists new_socket. apply y_put_spec; [apply y_fresh_spec|done]. Qed.

Lemma y_recv_spec peek fd len w r bytes w' :
  y_recv peek fd len w = (r, bytes, w') →
  (r < 0 ∧ y_view w' = y_view w)
  ∨ (0 <= r <= len ∧ zlen bytes = r ∧ Forall is_byte bytes ∧ ∃ s rest,
      k_sockets (y_view w) !! fd = Some s ∧ s_in s = bytes ++ rest ∧ (r = 0 → 0 < len → rest = [])
      ∧ y_view w' = if peek then y_view w else with_socket fd (with_in rest s) (y_view w)).
Proof.
  unfold y_recv. intros E. apply y_on_spec in E as [([= -> ->] & _ & HV)|(s & Hs & Hfd & Hf & E)]; [by left|].
  destruct (bool_decide (Forall is_byte (s_in s)) && (0 <=? len)) eqn:Eg; [|injection E as <- <- <-; by left].
  apply andb_true_iff in Eg as [Hby%bool_decide_eq_true_1 Hlen%Z.leb_le]. injection E as <- <- <-. right.
  pose proof (zlen_nonneg (s_in s)). set (n := Z.min len (zlen (s_in s))) in *.
  assert (zlen (take (Z.to_nat n) (s_in s)) = n) as Hn by (rewrite zlen_take; lia).
  split_and!; [lia|lia|done|by apply Forall_take|].
  exists s, (drop (Z.to_nat n) (s_in s)). split_and!; [done|by rewrite take_drop| |].
  - intros Hz Hp. apply drop_ge. unfold zlen in *. lia.
  - destruct peek; [done|]. by apply y_put_spec.
Qed.

#[local] Instance toy_system_laws : @SystemLaws toy_system.
Proof.
  unshelve refine (@Build_SystemLaws toy_system y_view 1 _ _ _ _ _ _ _ _ _ _ _ _ _ _ _ _ _ _ _ _ _ _ _ _ _ _).
  - exists 11. done.
  - done.
  - intros fd w Hfd. rewrite y_get_spec. unfold y_get. destruct (Z.leb_spec 0 fd); [lia|done].
  - intros f w r w' [= <- <-]. right. destruct (y_fresh_spec w). split_and!; [done..|apply y_opened].
  - intros fd o w r w' E. apply y_on_spec in E as [(-> & _ & HV)|(s & Hs & Hfd & Hf & [= <- <-])]; [by left|right].
    split; [done|]. exists s, (y_option o s). split_and!; [done| |].
    + destruct o; simpl; try done; eexists; (split; [|done]); lia.
    + apply y_put_spec; [done|]. by destruct o.
  - intros fd w tv w' E. apply y_on_spec in E as [(-> & _ & HV)|(s & Hs & Hfd & Hf & [= <- <-])]; [done|].
    split; [done|]. intros tv' [= <-]. simpl. split; [apply Z.mod_pos_bound; lia|]. exists s. split; [done|].
    unfold microseconds. simpl. pose proof (Z.div_mod (s_rcvtimeo s) 1000000). lia.
  - intros fd w tv w' E. apply y_on_spec in E as [(-> & _ & HV)|(s & Hs & Hfd & Hf & [= <- <-])]; [done|].
    split; [done|]. intros tv' [= <-]. simpl. split; [apply Z.mod_pos_bound; lia|]. exists s. split; [done|].
    unfold microseconds. simpl. pose proof (Z.div_mod (s_sndtimeo s) 1000000). lia.
  - by intros fd sa w r w' [= <- <-].
  - by intros fd b w r w' [= <- <-].
  - intros fd w r sa w' [= <- <- <-]. right. destruct (y_fresh_spec w). split_and!; [done..|apply y_opened].
  - intros fd data w r w' E. apply y_on_spec in E as [(-> & _ & HV)|(s & Hs & Hfd & Hf & [= <- <-])]; [by left|right].
    pose proof (zlen_nonneg data). split; [lia|]. exists s. split; [done|]. rewrite y_put_spec by done.
    rewrite take_ge by (unfold zlen; lia). done.
  - intros fd len w r bytes w' E Hlen. apply y_recv_spec in E as [?|(? & ? & ? & s & rest & ? & ? & ? & ?)]; [by left|right].
    split_and!; [lia|lia|done|done|]. by exists s, rest.
  - intros fd len w. destruct (sys_recv false fd len w) as [[r bytes] w'] eqn:E.
    apply y_recv_spec in E as [[_ HV]|(_ & _ & _ & s & rest & Hs & _ & _ & HV)]; simpl; rewrite HV; [done|].
    by eapply with_socket_undisturbed.
  - intros fd len w r bytes w' E. by apply y_recv_spec in E as [[_ ?]|(_ & _ & _ & s & rest & _ & _ & _ & ?)].
  - done.
  - intros fd w. unfold y_view. simpl. by rewrite map_filter_delete, fmap_delete.
  - intros fd w r w' E. apply y_on_spec in E as [(-> & Hn & HV)|(s & Hs & Hfd & Hf & [= <- <-])]; (split; [done|]).
    + left. split; [lia|]. by rewrite <- y_get_spec in Hn.
    + right. split; [done|]. by exists s.
  - intros fd f w r w' E Hf0. apply y_on_spec in E as [(-> & Hn & HV)|(s & Hs & Hfd & Hf & [= <- <-])].
    + left. rewrite <- y_get_spec in Hn. by split_and!.
    + right. split; [done|]. exists s. split; [done|]. by apply y_put_spec.
  - by intros fd t w r ev w' [= <- <- <-].
  - by intros fd t w r w' [= <- <-].
  - intros fd w e w' E. by apply y_on_spec in E as [(-> & _ & HV)|(s & Hs & Hfd & Hf & [= <- <-])].
  - intros fd sa w r w' E. apply y_on_spec in E as [(-> & _ & HV)|(s & Hs & Hfd & Hf & E)].
    { rewrite HV. split_and!; [done..|lia]. }
    set (s' := mk_socket (s_in s) (s_out s) (s_flags s) (s_rcvtimeo s) (s_sndtimeo s) true) in *.
    assert (y_view w' = with_socket fd s' (y_view w)) as HV.
    { destruct (Z.testbit (s_flags s) 11); injection E as _ <-; by apply (y_put_spec fd s'). }
    rewrite HV. split; [by eapply with_socket_undisturbed|]. split.
    + by apply (with_socket_flags fd s).
    + intros _. unfold connected. simpl. by rewrite lookup_insert_eq.
  - intros fd sa t w r w1 n w2 w3 E Hr He [= <- <-] _ E3.
    apply y_on_spec in E as [(-> & Hn & HV)|(s & Hs & Hfd & Hf & E)].
    { apply y_on_spec in E3 as [([=] & _)|(s & Hs & _)]. rewrite HV, y_get_spec, Hn in Hs. done. }
    set (s' := mk_socket (s_in s) (s_out s) (s_flags s) (s_rcvtimeo s) (s_sndtimeo s) true) in *.
    apply y_on_spec in E3 as [([=] & _)|(s3 & Hs3 & _ & _ & [= <-])].
    destruct (Z.testbit (s_flags s) 11); injection E as <- <-; [|done].
    unfold connected. change (y_view (y_with_errno EINPROGRESS (y_put fd s' w))) with (y_view (y_put fd s' w)) in *.
    rewrite y_put_spec by done. simpl. by rewrite lookup_insert_eq.
  - by intros host port w r sas w' [= <- <- <-].
  - done.
  - intros f a. split; [done|]. vm_compute. repeat constructor.
Defined.
End toy_system.

(** * Properties *)

Section posix_properties.
Context `{SystemLaws}.

(** The timeouts of a socket are read back as they were set: when
    [ak_tcp_socket_set_timeout] answers 0 for any two timeouts of 32 bits,
    [ak_tcp_socket_get_timeout] answers for each the value that was set, rounded up
    by less than the unit the system keeps timeouts in, and exactly that value when
    the unit is at most a millisecond.  Nothing is opened or closed. *)
Theorem ak_tcp_socket_timeout_spec fd r s error w rc e1 w1 :
  0 <= r < 2 ^ 32 → 0 <= s < 2 ^ 32 → ak_tcp_socket_set_timeout fd r s error w = (rc, e1, w1) →
  undisturbed (kernel_of w) (kernel_of w1)
  ∧ (rc = -1
     ∨ (rc = 0 ∧ ∀ error2 rc2 a b e2 w2, ak_tcp_socket_get_timeout fd true true error2 w1 = (rc2, a, b, e2, w2) →
          kernel_of w2 = kernel_of w1
          ∧ ((rc2 = -1 ∧ b = None)
             ∨ (rc2 = 0 ∧ e2 = error2 ∧ timeout_read r a ∧ timeout_read s b
                ∧ (tick <= 1000 → a = Some r ∧ b = Some s))))).
Proof.
  intros Hr Hs E. destruct (set_timeout_undisturbed _ _ _ _ _ _ _ _ E) as [HU Hrc]. split; [done|].
  destruct Hrc as [-> | ->]; [right|by left]. split; [done|]. intros error2 rc2 a b e2 w2 E2.
  destruct (set_timeout_ok fd r s error w e1 w1) as (st & Hst & Hrt & Hsn); [lia|lia|done|].
  destruct (get_timeout_ok fd r s error2 w1 st rc2 a b e2 w2 Hst Hrt Hsn E2) as [HK [(-> & -> & Ha & Hb)|[-> ->]]];
    (split; [done|]); [right|by left]. split_and!; [done..|]. intros Htick.
  destruct Ha as (x & -> & ? & ?), Hb as (y & -> & ? & ?). assert (x = r) as -> by lia. assert (y = s) as -> by lia.
  by rewrite !u32_small by lia.
Qed.

(** C17: For a socket that blocks, or is not open, [ak_tcp_socket_connect] answers 0
    exactly when the host has addresses, the socket could be made not to block where there is a time to wait for, and the
    system, asked for one address after the other, refuses those before some one
    and accepts that one; the socket is then connected and the error as it was.
    Otherwise it answers -1 with a message, for one of the five reasons of
    [misses]: no host, no addresses, a socket that is not open, every address
    refused, or one whose attempt failed or took too long while it was waited
    for.  On every path the list of addresses is given back once, nothing is
    opened or closed, and the socket still blocks: the flags of all sockets are
    as before. *)
Theorem ak_tcp_socket_connect_spec fd host port timeout_ms error w r e' w' :
  blocking fd (kernel_of w) →
  ak_tcp_socket_connect fd host port timeout_ms error w = (r, e', w') →
  undisturbed (kernel_of w) (kernel_of w') ∧ flags_of (kernel_of w') = flags_of (kernel_of w)
  ∧ (r = 0 ↔ reaches fd host port timeout_ms w)
  ∧ ((r = 0 ∧ e' = error ∧ connected fd (kernel_of w'))
     ∨ (r = -1 ∧ ∃ m, misses fd host port timeout_ms w m ∧ e' = set_error error m)).
Proof.
  intros Hb E. pose proof (connect_decides _ _ _ _ _ _ _ _ _ E) as D. pose proof (connect_reaches _ _ _ _ _ _ _ _ _ E) as R.
  apply connect_ok in E as [[? ?] C]; [|done]. split_and!; [done|done| |].
  - split; [|done]. by destruct D as [[_ ?]|[-> _]].
  - destruct D as [[-> _]|?]; [|by right]. left. by destruct C as [?|[? _]].
Qed.
End posix_properties.

Section posix_witnesses.
#[local] Instance w_system : System := toy_system (X := unit).
#[local] Instance w_system_laws : SystemLaws := toy_system_laws (X := unit).

Definition w_sys : sys := mk_toy_sys (mk_kernel {[ 3 := new_socket ]} 0) ENONE ().

Lemma ak_tcp_socket_timeout_spec_witness :
  ∃ w1, ak_tcp_socket_set_timeout 3 1500 70000 None w_sys = (0, None, w1)
  ∧ ∃ w2, ak_tcp_socket_get_timeout 3 true true None w1 = (0, Some 1500, Some 70000, None, w2)
  ∧ (0 = -1 ∨ (0 = 0 ∧ ∀ error2 rc2 a b e2 w2, ak_tcp_socket_get_timeout 3 true true error2 w1 = (rc2, a, b, e2, w2) →
          kernel_of w2 = kernel_of w1
          ∧ ((rc2 = -1 ∧ b = None)
             ∨ (rc2 = 0 ∧ e2 = error2 ∧ timeout_read 1500 a ∧ timeout_read 70000 b
                ∧ (tick <= 1000 → a = Some 1500 ∧ b = Some 70000))))).
Proof.
  eexists. split; [vm_compute; reflexivity|]. eexists. split; [vm_compute; reflexivity|].
  eapply (ak_tcp_socket_timeout_spec 3 1500 70000 None w_sys 0 None); [lia|lia|vm_compute; reflexivity].
Defined.

Lemma ak_tcp_socket_connect_spec_witness :
  ∃ w', ak_tcp_socket_connect 3 (Some [104]) 80 1000 None w_sys = (0, None, w')
  ∧ undisturbed (kernel_of w_sys) (kernel_of w') ∧ flags_of (kernel_of w') = flags_of (kernel_of w_sys)
  ∧ (0 = 0 ↔ reaches 3 (Some [104]) 80 1000 w_sys)
  ∧ ((0 = 0 ∧ None = (None : error_ptr) ∧ connected 3 (kernel_of w'))
     ∨ (0 = -1 ∧ ∃ m, misses 3 (Some [104]) 80 1000 w_sys m ∧ None = set_error None m)).
Proof.
  eexists. split; [vm_compute; reflexivity|].
  apply (ak_tcp_socket_connect_spec 3 (Some [104]) 80 1000 None w_sys 0 None).
  - intros f [= <-]. reflexivity.
  - vm_compute. reflexivity.
Defined.
End posix_witnesses.
