(* ===== verification/Tls.v ===== *)
(** TLS over the sockets: [kernel/tcp/src/tcp_tls.c].

    The functions of OpenSSL the code calls are the methods of the class [OpenSSL],
    over the same state as the calls of the system; [OpenSSLLaws] is what their
    documentation says.  With [Posix] this file implements the interface of
    [Sockets]: the instance [posix_sockets]. *)

From Stdlib Require String.
From stdpp Require Import gmap.
From S2P Require Import Prelude Maps Sockets Connections Posix.
Import Stdlib.Strings.String.StringSyntax.
#[local] Delimit Scope string_scope with str.

(** The errors the code tells apart. *)
Inductive ssl_error : Type :=
| SSL_ERROR_NONE | SSL_ERROR_SSL | SSL_ERROR_WANT_READ | SSL_ERROR_WANT_WRITE | SSL_ERROR_SYSCALL
| SSL_ERROR_ZERO_RETURN | SSL_ERROR_OTHER (n : Z).

#[export] Instance ssl_error_eq_dec : EqDecision ssl_error.
Proof. solve_decision. Defined.

Inductive ssl_option : Type :=
| SSL_OP_NO_SSLv2 | SSL_OP_NO_SSLv3 | SSL_OP_NO_COMPRESSION | SSL_OP_CIPHER_SERVER_PREFERENCE.

Inductive ssl_verify : Type :=
| SSL_VERIFY_NONE
| SSL_VERIFY_PEER
| SSL_VERIFY_PEER_FAIL_IF_NO_PEER_CERT.

Class OpenSSL `{System} := {
  (** [SSL_library_init], [SSL_load_error_strings] and [OpenSSL_add_all_algorithms]. *)
  SSL_library_init : sys → sys;
  (** [EVP_cleanup] and [ERR_free_strings]. *)
  EVP_cleanup : sys → sys;
  ERR_get_error : sys → Z * sys;
  ERR_peek_error : sys → Z;
  ERR_clear_error : sys → sys;
  ERR_error_string_n : Z → String.string;
  TLS1_2_VERSION : Z;
  (** With the method of servers or the method of clients. *)
  SSL_CTX_new : bool → sys → option positive * sys;
  SSL_CTX_set_min_proto_version : positive → Z → sys → Z * sys;
  SSL_CTX_set_options : positive → list ssl_option → sys → sys;
  SSL_CTX_set_cipher_list : positive → list Z → sys → Z * sys;
  SSL_CTX_use_certificate_chain_file : positive → list Z → sys → Z * sys;
  SSL_CTX_use_PrivateKey_file : positive → list Z → sys → Z * sys;
  SSL_CTX_check_private_key : positive → sys → Z * sys;
  SSL_CTX_load_verify_locations : positive → list Z → sys → Z * sys;
  SSL_CTX_set_default_verify_paths : positive → sys → Z * sys;
  SSL_CTX_set_verify : positive → ssl_verify → sys → sys;
  SSL_CTX_free : positive → sys → sys;
  SSL_new : positive → sys → option positive * sys;
  SSL_set_fd : positive → Z → sys → Z * sys;
  SSL_set_tlsext_host_name : positive → list Z → sys → Z * sys;
  SSL_accept : positive → sys → Z * sys;
  SSL_connect : positive → sys → Z * sys;
  SSL_get_error : positive → Z → sys → ssl_error;
  SSL_write : positive → list Z → Z → sys → Z * sys;
  SSL_read : positive → Z → sys → Z * list Z * sys;
  SSL_shutdown : positive → sys → Z * sys;
  SSL_free : positive → sys → sys;
}.

Section tls.
Context `{OpenSSL}.

(** [tls_initialized] *)
Definition ak_tcp_tls_init (tls_initialized : bool) (w : sys) : bool * sys :=
  if tls_initialized then (tls_initialized, w) else (true, SSL_library_init w).

Definition ak_tcp_tls_deinit (tls_initialized : bool) (w : sys) : bool * sys :=
  if negb tls_initialized then (tls_initialized, w) else (false, EVP_cleanup w).

Definition ak_tcp_tls_error_string (w : sys) : String.string * sys :=
  let '(err, w) := ERR_get_error w in
  (if err =? 0 then "Unknown TLS error"%str else ERR_error_string_n err, w).

(** What an error is reported with: a text, or the error OpenSSL has queued. *)
Inductive message : Type :=
| Text (text : String.string)
| Queued.

(** [if (error) { *error = ... }] *)
Definition report (m : message) (error : error_ptr) (w : sys) : error_ptr * sys :=
  match error, m with
  | None, _ => (None, w)
  | Some _, Text text => (set_error error text, w)
  | Some _, Queued => let '(text, w) := ak_tcp_tls_error_string w in (set_error error text, w)
  end.

(** Calls that must answer 1, one after the other, until one does not. *)
Fixpoint require (steps : list ((sys → Z * sys) * message)) (error : error_ptr) (w : sys) : bool * error_ptr * sys :=
  match steps with
  | [] => (true, error, w)
  | (call, m) :: steps =>
      let '(rc, w) := call w in
      if negb (rc =? 1) then let '(error, w) := report m error w in (false, error, w) else require steps error w
  end.

(** A call without an answer, among such calls. *)
Definition always (call : sys → sys) : (sys → Z * sys) * message := (λ w, (1, call w), Queued).

Definition min_proto (ctx : positive) (min_version : Z) : (sys → Z * sys) * message :=
  let tls_ver := if 0 <? min_version then min_version else TLS1_2_VERSION in
  (SSL_CTX_set_min_proto_version ctx tls_ver, Text "Failed to set minimum TLS version"%str).

Definition cipher_list (ctx : positive) (ciphers : option (list Z)) : list ((sys → Z * sys) * message) :=
  match ciphers with
  | Some c => [(SSL_CTX_set_cipher_list ctx c, Text "Failed to set cipher list"%str)]
  | None => []
  end.

Definition key_pair (ctx : positive) (cert_file key_file : list Z) : list ((sys → Z * sys) * message) :=
  [(SSL_CTX_use_certificate_chain_file ctx cert_file, Queued);
   (SSL_CTX_use_PrivateKey_file ctx key_file, Queued);
   (SSL_CTX_check_private_key ctx, Text "Certificate and private key do not match"%str)].

(** The calls on a new context, and then its mode of verification; a context that
    cannot be set up is freed. *)
Definition set_up_ctx (server : bool) (steps : positive → list ((sys → Z * sys) * message)) (mode : ssl_verify)
    (error : error_ptr) (w : sys) : option positive * error_ptr * sys :=
  let '(ctx, w) := SSL_CTX_new server w in
  match ctx with
  | None => let '(error, w) := report Queued error w in (None, error, w)
  | Some ctx =>
      let '(ok, error, w) := require (steps ctx) error w in
      if ok then (Some ctx, error, SSL_CTX_set_verify ctx mode w) else (None, error, SSL_CTX_free ctx w)
  end.

Definition server_options : list ssl_option :=
  [SSL_OP_NO_SSLv2; SSL_OP_NO_SSLv3; SSL_OP_NO_COMPRESSION; SSL_OP_CIPHER_SERVER_PREFERENCE].
Definition client_options : list ssl_option := [SSL_OP_NO_SSLv2; SSL_OP_NO_SSLv3; SSL_OP_NO_COMPRESSION].

Definition ak_tcp_tls_ctx_new (cert_file key_file ca_file : option (list Z)) (verify_client : bool)
    (ciphers : option (list Z)) (min_version : Z) (error : error_ptr) (init : bool) (w : sys)
    : option positive * error_ptr * bool * sys :=
  match cert_file, key_file with
  | Some cert_file, Some key_file =>
      let '(init, w) := ak_tcp_tls_init init w in
      let '(ctx, error, w) :=
        set_up_ctx true (λ ctx,
          [min_proto ctx min_version; always (SSL_CTX_set_options ctx server_options)]
          ++ cipher_list ctx ciphers ++ key_pair ctx cert_file key_file
          ++ match ca_file with Some ca => [(SSL_CTX_load_verify_locations ctx ca, Queued)] | None => [] end)
          (if verify_client then SSL_VERIFY_PEER_FAIL_IF_NO_PEER_CERT else SSL_VERIFY_NONE) error w in
      (ctx, error, init, w)
  | _, _ => (None, set_error error "Certificate and key files are required for TLS"%str, init, w)
  end.

Definition ak_tcp_tls_client_ctx_new (ca_file cert_file key_file : option (list Z)) (verify_server : bool)
    (ciphers : option (list Z)) (min_version : Z) (error : error_ptr) (init : bool) (w : sys)
    : option positive * error_ptr * bool * sys :=
  let '(init, w) := ak_tcp_tls_init init w in
  let '(ctx, error, w) :=
    set_up_ctx false (λ ctx,
      [min_proto ctx min_version; always (SSL_CTX_set_options ctx client_options)]
      ++ cipher_list ctx ciphers
      ++ match ca_file with
         | Some ca => [(SSL_CTX_load_verify_locations ctx ca, Queued)]
         | None => [(SSL_CTX_set_default_verify_paths ctx, Text "Failed to load system CA certificates"%str)]
         end
      ++ match cert_file, key_file with
         | Some cert_file, Some key_file => key_pair ctx cert_file key_file
         | _, _ => []
         end)
      (if verify_server then SSL_VERIFY_PEER else SSL_VERIFY_NONE) error w in
  (ctx, error, init, w).

Definition ak_tcp_tls_ctx_free (ctx : option positive) (w : sys) : sys :=
  match ctx with
  | None => w
  | Some ctx => SSL_CTX_free ctx w
  end.

(** What a handshake that failed is reported with. *)
Definition handshake_message (ssl_err : ssl_error) : message :=
  match ssl_err with
  | SSL_ERROR_ZERO_RETURN => Text "TLS handshake: connection closed"
  | SSL_ERROR_WANT_READ | SSL_ERROR_WANT_WRITE => Text "TLS handshake: would block (timeout?)"
  | SSL_ERROR_SYSCALL => Text "TLS handshake: system call error"
  | SSL_ERROR_SSL => Queued
  | _ => Text "TLS handshake failed"
  end%str.

(** A new connection with its calls, and then the handshake. *)
Definition handshake (ssl_ctx : option positive) (steps : positive → list ((sys → Z * sys) * message))
    (shake : positive → sys → Z * sys) (error : error_ptr) (w : sys) : option positive * error_ptr * sys :=
  match ssl_ctx with
  | None => let '(error, w) := report (Text "SSL context is NULL"%str) error w in (None, error, w)
  | Some ssl_ctx =>
      let '(ssl, w) := SSL_new ssl_ctx w in
      match ssl with
      | None => let '(error, w) := report Queued error w in (None, error, w)
      | Some ssl =>
          let '(ok, error, w) := require (steps ssl) error w in
          if negb ok then (None, error, SSL_free ssl w) else
          let '(result, w) := shake ssl w in
          if negb (result =? 1) then
            let '(error, w) := report (handshake_message (SSL_get_error ssl result w)) error w in
            (None, error, SSL_free ssl w)
          else (Some ssl, error, w)
      end
  end.

Definition ak_tcp_tls_accept (ssl_ctx : option positive) (socket_fd : Z) (error : error_ptr) (w : sys)
    : option positive * error_ptr * sys :=
  handshake ssl_ctx (λ ssl, [(SSL_set_fd ssl socket_fd, Queued)]) SSL_accept error w.

Definition ak_tcp_tls_connect (ssl_ctx : option positive) (socket_fd : Z) (sni_hostname : option (list Z))
    (error : error_ptr) (w : sys) : option positive * error_ptr * sys :=
  handshake ssl_ctx (λ ssl,
    match sni_hostname with
    | Some name => [(SSL_set_tlsext_host_name ssl name, Text "Failed to set SNI hostname"%str)]
    | None => []
    end ++ [(SSL_set_fd ssl socket_fd, Queued)]) SSL_connect error w.

(** [data]: null, or the bytes. *)
Definition ak_tcp_tls_send (ssl : option positive) (data : option (list Z)) (error : error_ptr) (w : sys)
    : Z * error_ptr * sys :=
  match ssl, data with
  | Some ssl, Some data =>
      let w := ERR_clear_error w in
      let '(result, w) := SSL_write ssl data (i32 (zlen data)) w in
      if result <=? 0 then
        let fail m := let '(error, w) := report m error w in (-1, error, w) in
        match SSL_get_error ssl result w with
        | SSL_ERROR_ZERO_RETURN => (0, error, w)
        | SSL_ERROR_WANT_READ | SSL_ERROR_WANT_WRITE => fail (Text "Operation would block"%str)
        | SSL_ERROR_SYSCALL => fail (Text "TLS send: system call error"%str)
        | SSL_ERROR_SSL => fail Queued
        | _ => fail (Text "TLS send failed"%str)
        end
      else (result, error, w)
  | _, _ => (-1, set_error error "Invalid arguments"%str, w)
  end.

(** [buffer]: whether there is one; the bytes put into it are answered. *)
Definition ak_tcp_tls_recv (ssl : option positive) (buffer : bool) (len : Z) (error : error_ptr) (w : sys)
    : Z * list Z * error_ptr * sys :=
  match ssl, buffer with
  | Some ssl, true =>
      let w := ERR_clear_error w in
      let '(result, bytes, w) := SSL_read ssl (i32 len) w in
      if result <=? 0 then
        let fail m := let '(error, w) := report m error w in (-1, [], error, w) in
        match SSL_get_error ssl result w with
        | SSL_ERROR_ZERO_RETURN => (0, [], error, w)
        | SSL_ERROR_WANT_READ | SSL_ERROR_WANT_WRITE => fail (Text "Operation would block"%str)
        | SSL_ERROR_SYSCALL =>
            if bool_decide (is_Some error) && (ERR_peek_error w =? 0) && (result =? 0) then (0, [], error, w)
            else fail (Text "TLS recv: system call error"%str)
        | SSL_ERROR_SSL => fail Queued
        | _ => fail (Text "TLS recv failed"%str)
        end
      else (result, bytes, error, w)
  | _, _ => (-1, [], set_error error "Invalid arguments"%str, w)
  end.

Definition ak_tcp_tls_shutdown (ssl : option positive) (w : sys) : sys :=
  match ssl with
  | None => w
  | Some ssl => let '(result, w) := SSL_shutdown ssl w in if result =? 0 then (SSL_shutdown ssl w).2 else w
  end.

Definition ak_tcp_tls_free (ssl : option positive) (w : sys) : sys :=
  match ssl with
  | None => w
  | Some ssl => SSL_free ssl w
  end.
End tls.

(** * What OpenSSL promises *)

(** How a context is set up. *)
Record ctx_state := mk_ctx {
  x_server : bool;
  x_min : Z;
  x_options : list ssl_option;
  x_ciphers : option (list Z);
  x_cert : option (list Z);
  x_key : option (list Z);
  x_matched : bool;
  (** Some null stands for the default locations. *)
  x_ca : option (option (list Z));
  x_verify : ssl_verify;
}.

Definition x_with_min (v : Z) (x : ctx_state) : ctx_state :=
  mk_ctx (x_server x) v (x_options x) (x_ciphers x) (x_cert x) (x_key x) (x_matched x) (x_ca x) (x_verify x).
Definition x_with_options (o : list ssl_option) (x : ctx_state) : ctx_state :=
  mk_ctx (x_server x) (x_min x) (x_options x ++ o) (x_ciphers x) (x_cert x) (x_key x) (x_matched x) (x_ca x) (x_verify x).
Definition x_with_ciphers (c : list Z) (x : ctx_state) : ctx_state :=
  mk_ctx (x_server x) (x_min x) (x_options x) (Some c) (x_cert x) (x_key x) (x_matched x) (x_ca x) (x_verify x).
Definition x_with_cert (c : list Z) (x : ctx_state) : ctx_state :=
  mk_ctx (x_server x) (x_min x) (x_options x) (x_ciphers x) (Some c) (x_key x) (x_matched x) (x_ca x) (x_verify x).
Definition x_with_key (k : list Z) (x : ctx_state) : ctx_state :=
  mk_ctx (x_server x) (x_min x) (x_options x) (x_ciphers x) (x_cert x) (Some k) (x_matched x) (x_ca x) (x_verify x).
Definition x_with_match (x : ctx_state) : ctx_state :=
  mk_ctx (x_server x) (x_min x) (x_options x) (x_ciphers x) (x_cert x) (x_key x) true (x_ca x) (x_verify x).
Definition x_with_ca (c : option (list Z)) (x : ctx_state) : ctx_state :=
  mk_ctx (x_server x) (x_min x) (x_options x) (x_ciphers x) (x_cert x) (x_key x) (x_matched x) (Some c) (x_verify x).
Definition x_with_verify (v : ssl_verify) (x : ctx_state) : ctx_state :=
  mk_ctx (x_server x) (x_min x) (x_options x) (x_ciphers x) (x_cert x) (x_key x) (x_matched x) (x_ca x) v.

Definition new_ctx (server : bool) : ctx_state := mk_ctx server 0 [] None None None false None SSL_VERIFY_NONE.

(** A connection: its context and socket, the name it asks for, whether the
    handshake is done, and the bytes of the program in both directions. *)
Record ssl_state := mk_ssl {
  l_ctx : positive;
  l_fd : option Z;
  l_name : option (list Z);
  l_established : bool;
  l_in : list Z;
  l_out : list Z;
}.

Definition l_with_fd (fd : Z) (l : ssl_state) : ssl_state :=
  mk_ssl (l_ctx l) (Some fd) (l_name l) (l_established l) (l_in l) (l_out l).
Definition l_with_name (n : list Z) (l : ssl_state) : ssl_state :=
  mk_ssl (l_ctx l) (l_fd l) (Some n) (l_established l) (l_in l) (l_out l).
Definition l_with_in (i : list Z) (l : ssl_state) : ssl_state :=
  mk_ssl (l_ctx l) (l_fd l) (l_name l) (l_established l) i (l_out l).
Definition l_with_out (o : list Z) (l : ssl_state) : ssl_state :=
  mk_ssl (l_ctx l) (l_fd l) (l_name l) (l_established l) (l_in l) o.

(** The contexts and the connections that are not freed. *)
Record tls_world := mk_tls {
  t_ctxs : gmap positive ctx_state;
  t_ssls : gmap positive ssl_state;
}.

Definition with_ctx (c : positive) (x : ctx_state) (t : tls_world) : tls_world := mk_tls (<[c := x]> (t_ctxs t)) (t_ssls t).
Definition with_ssl (l : positive) (y : ssl_state) (t : tls_world) : tls_world := mk_tls (t_ctxs t) (<[l := y]> (t_ssls t)).

(** A call on a context or on a connection changes that one only. *)
Definition ctx_changed (c : positive) (t t' : tls_world) : Prop :=
  t' = t ∨ ∃ x x', t_ctxs t !! c = Some x ∧ t' = with_ctx c x' t.
Definition ssl_changed (l : positive) (t t' : tls_world) : Prop :=
  t' = t ∨ ∃ y y', t_ssls t !! l = Some y ∧ t' = with_ssl l y' t.

(** Calls on objects that were freed are not defined; here they are taken to fail. *)
Class OpenSSLLaws `{SystemLaws, !OpenSSL} := {
  tls_of : sys → tls_world;
  library_law w : kernel_of (SSL_library_init w) = kernel_of w ∧ tls_of (SSL_library_init w) = tls_of w;
  cleanup_law w : kernel_of (EVP_cleanup w) = kernel_of w ∧ tls_of (EVP_cleanup w) = tls_of w;
  get_error_law w : kernel_of (ERR_get_error w).2 = kernel_of w ∧ tls_of (ERR_get_error w).2 = tls_of w;
  clear_error_law w : kernel_of (ERR_clear_error w) = kernel_of w ∧ tls_of (ERR_clear_error w) = tls_of w
    ∧ ERR_peek_error (ERR_clear_error w) = 0;
  peek_call_law fd len w : tls_of (sys_recv true fd len w).2 = tls_of w;
  poll_call_law fd t w : tls_of (sys_poll_in fd t w).2 = tls_of w;
  ctx_new_law server w c w' : SSL_CTX_new server w = (c, w') → kernel_of w' = kernel_of w
    ∧ match c with
      | None => tls_of w' = tls_of w
      | Some c => t_ctxs (tls_of w) !! c = None ∧ tls_of w' = with_ctx c (new_ctx server) (tls_of w)
      end;
  ctx_set_options_law c o w x : t_ctxs (tls_of w) !! c = Some x →
    kernel_of (SSL_CTX_set_options c o w) = kernel_of w
    ∧ tls_of (SSL_CTX_set_options c o w) = with_ctx c (x_with_options o x) (tls_of w);
  ctx_set_verify_law c v w x : t_ctxs (tls_of w) !! c = Some x →
    kernel_of (SSL_CTX_set_verify c v w) = kernel_of w
    ∧ tls_of (SSL_CTX_set_verify c v w) = with_ctx c (x_with_verify v x) (tls_of w);
  ctx_set_law c call f w r w' :
    (∃ v, call = SSL_CTX_set_min_proto_version c v ∧ f = x_with_min v)
    ∨ (∃ l, call = SSL_CTX_set_cipher_list c l ∧ f = x_with_ciphers l)
    ∨ (∃ p, call = SSL_CTX_use_certificate_chain_file c p ∧ f = x_with_cert p)
    ∨ (∃ p, call = SSL_CTX_use_PrivateKey_file c p ∧ f = x_with_key p)
    ∨ (call = SSL_CTX_check_private_key c ∧ f = x_with_match)
    ∨ (∃ p, call = SSL_CTX_load_verify_locations c p ∧ f = x_with_ca (Some p))
    ∨ (call = SSL_CTX_set_default_verify_paths c ∧ f = x_with_ca None) →
    call w = (r, w') → kernel_of w' = kernel_of w
    ∧ (r = 1 → ∃ x, t_ctxs (tls_of w) !! c = Some x ∧ tls_of w' = with_ctx c (f x) (tls_of w))
    ∧ (r ≠ 1 → ctx_changed c (tls_of w) (tls_of w'));
  ctx_free_law c w : kernel_of (SSL_CTX_free c w) = kernel_of w
    ∧ tls_of (SSL_CTX_free c w) = mk_tls (delete c (t_ctxs (tls_of w))) (t_ssls (tls_of w));
  ssl_new_law c w l w' : SSL_new c w = (l, w') → kernel_of w' = kernel_of w
    ∧ match l with
      | None => tls_of w' = tls_of w
      | Some l => t_ssls (tls_of w) !! l = None ∧ ∃ i, tls_of w' = with_ssl l (mk_ssl c None None false i []) (tls_of w)
      end;
  ssl_set_law l call f w r w' :
    (∃ fd, call = SSL_set_fd l fd ∧ f = l_with_fd fd)
    ∨ (∃ n, call = SSL_set_tlsext_host_name l n ∧ f = l_with_name n) →
    call w = (r, w') → kernel_of w' = kernel_of w
    ∧ (r = 1 → ∃ y, t_ssls (tls_of w) !! l = Some y ∧ tls_of w' = with_ssl l (f y) (tls_of w))
    ∧ (r ≠ 1 → ssl_changed l (tls_of w) (tls_of w'));
  ssl_shake_law l shake w r w' : shake = SSL_accept l ∨ shake = SSL_connect l → shake w = (r, w') →
    undisturbed (kernel_of w) (kernel_of w')
    ∧ (r = 1 → ∃ y i o, t_ssls (tls_of w) !! l = Some y
         ∧ tls_of w' = with_ssl l (mk_ssl (l_ctx y) (l_fd y) (l_name y) true i o) (tls_of w))
    ∧ (r ≠ 1 → ssl_changed l (tls_of w) (tls_of w'));
  ssl_write_law l data num w r w' : SSL_write l data num w = (r, w') → 
    undisturbed (kernel_of w) (kernel_of w')
    ∧ ((r <= 0 ∧ tls_of w' = tls_of w)
       ∨ (0 < r <= num ∧ ∃ y, t_ssls (tls_of w) !! l = Some y
          ∧ tls_of w' = with_ssl l (l_with_out (l_out y ++ take (Z.to_nat r) data) y) (tls_of w)));
  ssl_read_law l num w r bytes w' : SSL_read l num w = (r, bytes, w') →
    undisturbed (kernel_of w) (kernel_of w')
    ∧ ((r <= 0 ∧ tls_of w' = tls_of w)
       ∨ (0 < r <= num ∧ zlen bytes = r ∧ Forall is_byte bytes ∧ ∃ y rest, t_ssls (tls_of w) !! l = Some y
          ∧ l_in y = bytes ++ rest ∧ tls_of w' = with_ssl l (l_with_in rest y) (tls_of w)));
  (** The end of the connection: announced by the peer, or found by the system. *)
  ssl_end_law l num w r bytes w' : ERR_peek_error w = 0 → SSL_read l num w = (r, bytes, w') → r <= 0 → 0 < num →
    SSL_get_error l r w' = SSL_ERROR_ZERO_RETURN
      ∨ (SSL_get_error l r w' = SSL_ERROR_SYSCALL ∧ ERR_peek_error w' = 0 ∧ r = 0) →
    from_option l_in [] (t_ssls (tls_of w') !! l) = [];
  ssl_shutdown_law l w : undisturbed (kernel_of w) (kernel_of (SSL_shutdown l w).2)
    ∧ ssl_changed l (tls_of w) (tls_of (SSL_shutdown l w).2);
  ssl_free_law l w : undisturbed (kernel_of w) (kernel_of (SSL_free l w))
    ∧ tls_of (SSL_free l w) = mk_tls (t_ctxs (tls_of w)) (delete l (t_ssls (tls_of w)));
}.

Section contexts.
Context `{OpenSSLLaws}.

Lemma with_ctx_twice c x x' t : with_ctx c x' (with_ctx c x t) = with_ctx c x' t.
Proof. unfold with_ctx. simpl. by rewrite insert_insert_eq. Qed.

Lemma with_ssl_twice l y y' t : with_ssl l y' (with_ssl l y t) = with_ssl l y' t.
Proof. unfold with_ssl. simpl. by rewrite insert_insert_eq. Qed.

Lemma report_ok m error w e' w' :
  report m error w = (e', w') →
  kernel_of w' = kernel_of w ∧ tls_of w' = tls_of w
  ∧ (error = None → e' = None) ∧ (is_Some error → ∃ t, e' = Some (Some t)).
Proof.
  unfold report. destruct error as [x|]; [|intros [= <- <-]; split_and!; [done..|by intros [? ?]]].
  destruct m as [text|]; [intros [= <- <-]; split_and!; [done..|by eauto]|].
  unfold ak_tcp_tls_error_string. destruct (ERR_get_error w) as [err w1] eqn:E.
  pose proof (get_error_law w) as [HK HT]. rewrite E in HK, HT. intros [= <- <-]. split_and!; [done..|by eauto].
Qed.

(** A call that changes a context by [f] when it answers 1. *)
Definition ctx_call (c : positive) (f : ctx_state → ctx_state) (step : (sys → Z * sys) * message) : Prop :=
  ∀ w r w', step.1 w = (r, w') → is_Some (t_ctxs (tls_of w) !! c) → kernel_of w' = kernel_of w
    ∧ (r = 1 → ∃ x, t_ctxs (tls_of w) !! c = Some x ∧ tls_of w' = with_ctx c (f x) (tls_of w))
    ∧ (r ≠ 1 → ctx_changed c (tls_of w) (tls_of w')).

Lemma ctx_set_call c call f m :
  (∃ v, call = SSL_CTX_set_min_proto_version c v ∧ f = x_with_min v)
  ∨ (∃ l, call = SSL_CTX_set_cipher_list c l ∧ f = x_with_ciphers l)
  ∨ (∃ p, call = SSL_CTX_use_certificate_chain_file c p ∧ f = x_with_cert p)
  ∨ (∃ p, call = SSL_CTX_use_PrivateKey_file c p ∧ f = x_with_key p)
  ∨ (call = SSL_CTX_check_private_key c ∧ f = x_with_match)
  ∨ (∃ p, call = SSL_CTX_load_verify_locations c p ∧ f = x_with_ca (Some p))
  ∨ (call = SSL_CTX_set_default_verify_paths c ∧ f = x_with_ca None) → ctx_call c f (call, m).
Proof. intros Hcall w r w' E _. by eapply ctx_set_law. Qed.

Lemma options_call c o : ctx_call c (x_with_options o) (always (SSL_CTX_set_options c o)).
Proof.
  intros w r w' [= <- <-] [x Hx]. destruct (ctx_set_options_law c o w x Hx) as [HK HT].
  split_and!; [done| |done]. intros _. by exists x.
Qed.

Definition apply_all (fs : list (ctx_state → ctx_state)) (x : ctx_state) : ctx_state := foldl (λ x f, f x) x fs.

Lemma require_ctx c fs steps error w ok e' w' x :
  Forall2 (ctx_call c) fs steps → t_ctxs (tls_of w) !! c = Some x →
  require steps error w = (ok, e', w') →
  kernel_of w' = kernel_of w
  ∧ if ok then e' = error ∧ tls_of w' = with_ctx c (apply_all fs x) (tls_of w)
    else (is_Some error → ∃ t, e' = Some (Some t)) ∧ ∃ x', tls_of w' = with_ctx c x' (tls_of w).
Proof.
  intros Hall. revert w x. induction Hall as [|f step fs steps Hcall Hall IH]; intros w x Hx; simpl.
  { intros [= <- <- <-]. split_and!; [done..|]. destruct (tls_of w) as [cs ls] eqn:E. unfold with_ctx. simpl in *.
    f_equal. by rewrite insert_id. }
  destruct step as [call m]. destruct (call w) as [r w1] eqn:E. destruct (Hcall w r w1 E) as (HK & Hgood & Hbad); [done|].
  destruct (Z.eqb_spec r 1) as [Hr|Hr]; simpl.
  - destruct (Hgood Hr) as (x1 & Hx1 & HT). assert (x1 = x) as -> by congruence.
    intros Hrest. destruct (IH w1 (f x)) as [HK2 HT2]; [|done|].
    { rewrite HT. simpl. by rewrite lookup_insert_eq. }
    split; [congruence|]. rewrite HT in HT2. destruct ok.
    + destruct HT2 as [-> ->]. by rewrite with_ctx_twice.
    + destruct HT2 as [He (x' & ->)]. split; [done|]. exists x'. by rewrite with_ctx_twice.
  - destruct (report m error w1) as [e1 w2] eqn:Er. apply report_ok in Er as (HK2 & HT2 & _ & He).
    intros [= <- <- <-]. split; [congruence|]. split; [done|]. rewrite HT2.
    destruct (Hbad Hr) as [->|(x1 & x' & Hx1 & ->)]; [|by exists x'].
    exists x. destruct (tls_of w) as [cs ls]. unfold with_ctx. simpl in *. f_equal. by rewrite insert_id.
Qed.

Lemma set_up_ctx_ok server steps fs mode error w c e' w' :
  (∀ c, Forall2 (ctx_call c) fs (steps c)) →
  set_up_ctx server steps mode error w = (c, e', w') →
  kernel_of w' = kernel_of w
  ∧ match c with
    | Some c => e' = error ∧ t_ctxs (tls_of w) !! c = None
        ∧ tls_of w' = with_ctx c (x_with_verify mode (apply_all fs (new_ctx server))) (tls_of w)
    | None => tls_of w' = tls_of w ∧ (is_Some error → ∃ t, e' = Some (Some t))
    end.
Proof.
  intros Hsteps. unfold set_up_ctx. destruct (SSL_CTX_new server w) as [o w1] eqn:E. apply ctx_new_law in E as [HK HT].
  destruct o as [c0|].
  2:{ destruct (report Queued error w1) as [e1 w2] eqn:Er. apply report_ok in Er as (HK2 & HT2 & _ & He).
      intros [= <- <- <-]. split_and!; [congruence|congruence|done]. }
  destruct HT as [Hfresh HT]. assert (t_ctxs (tls_of w1) !! c0 = Some (new_ctx server)) as Hc0.
  { rewrite HT. simpl. by rewrite lookup_insert_eq. }
  destruct (require (steps c0) error w1) as [[ok e1] w2] eqn:Er.
  apply (require_ctx c0 fs _ _ _ _ _ _ _ (Hsteps c0) Hc0) in Er as [HK2 HT2]. rewrite HT in HT2.
  destruct ok; intros [= <- <- <-].
  - destruct HT2 as [-> HT2]. rewrite with_ctx_twice in HT2.
    destruct (ctx_set_verify_law c0 mode w2 (apply_all fs (new_ctx server))) as [HK3 HT3].
    { rewrite HT2. simpl. by rewrite lookup_insert_eq. }
    split_and!; [congruence|done|done|]. by rewrite HT3, HT2, with_ctx_twice.
  - destruct HT2 as [He (x' & HT2)]. rewrite with_ctx_twice in HT2. destruct (ctx_free_law c0 w2) as [HK3 HT3].
    split_and!; [congruence| |done]. rewrite HT3, HT2. destruct (tls_of w) as [cs ls]. unfold with_ctx. simpl in *.
    f_equal. by rewrite delete_insert_id.
Qed.

Lemma tls_init_ok i w i' w' :
  ak_tcp_tls_init i w = (i', w') → i' = true ∧ kernel_of w' = kernel_of w ∧ tls_of w' = tls_of w.
Proof. unfold ak_tcp_tls_init. destruct i; intros [= <- <-]; [done|]. split; [done|]. apply library_law. Qed.

(** What a new context for [server] has been set up with. *)
Definition ctx_as_asked (server : bool) (cert key : option (list Z)) (ca : option (option (list Z))) (ciphers : option (list Z))
    (min_version : Z) (mode : ssl_verify) : ctx_state :=
  {| x_server := server;
     x_min := if 0 <? min_version then min_version else TLS1_2_VERSION;
     x_options := if server then server_options else client_options;
     x_ciphers := ciphers;
     x_cert := cert; x_key := key; x_matched := bool_decide (is_Some key);
     x_ca := ca;
     x_verify := mode |}.

Ltac ctx_calls := repeat apply Forall2_cons_2; try apply Forall2_nil_2; try apply options_call; apply ctx_set_call; eauto 12.

Definition set_ciphers (ciphers : option (list Z)) : list (ctx_state → ctx_state) :=
  match ciphers with Some l => [x_with_ciphers l] | None => [] end.

Lemma cipher_calls c ciphers : Forall2 (ctx_call c) (set_ciphers ciphers) (cipher_list c ciphers).
Proof. destruct ciphers; [ctx_calls|constructor]. Qed.

Lemma key_calls c cert key :
  Forall2 (ctx_call c) [x_with_cert cert; x_with_key key; x_with_match] (key_pair c cert key).
Proof. ctx_calls. Qed.

Lemma first_calls c v o :
  Forall2 (ctx_call c) [x_with_min (if 0 <? v then v else TLS1_2_VERSION); x_with_options o]
    [min_proto c v; always (SSL_CTX_set_options c o)].
Proof. ctx_calls. Qed.

Lemma server_ctx_ok cert key ca verify ciphers v error i w c e' i' w' :
  ak_tcp_tls_ctx_new cert key ca verify ciphers v error i w = (c, e', i', w') →
  kernel_of w' = kernel_of w
  ∧ match c with
    | Some c => is_Some cert ∧ is_Some key ∧ e' = error ∧ i' = true ∧ t_ctxs (tls_of w) !! c = None
        ∧ tls_of w' = with_ctx c (ctx_as_asked true cert key (Some <$> ca) ciphers v
             (if verify then SSL_VERIFY_PEER_FAIL_IF_NO_PEER_CERT else SSL_VERIFY_NONE)) (tls_of w)
    | None => tls_of w' = tls_of w ∧ (is_Some error → ∃ t, e' = Some (Some t))
    end.
Proof.
  unfold ak_tcp_tls_ctx_new.
  assert (is_Some error → ∃ t, set_error error "Certificate and key files are required for TLS"%str = Some (Some t)) as Hmsg.
  { intros [x ->]. by eexists. }
  destruct cert as [cert|], key as [key|]; try (by intros [= <- <- <- <-]).
  destruct (ak_tcp_tls_init i w) as [i1 w1] eqn:Ei. apply tls_init_ok in Ei as (-> & HK1 & HT1).
  match goal with |- context [set_up_ctx true ?steps ?mode error w1] =>
    destruct (set_up_ctx true steps mode error w1) as [[c0 e1] w2] eqn:E end.
  apply (set_up_ctx_ok _ _ ([x_with_min (if 0 <? v then v else TLS1_2_VERSION); x_with_options server_options]
      ++ set_ciphers ciphers ++ [x_with_cert cert; x_with_key key; x_with_match]
      ++ match ca with Some p => [x_with_ca (Some p)] | None => [] end)) in E as [HK2 HT2].
  2:{ intros c1. apply Forall2_app; [apply first_calls|]. apply Forall2_app; [apply cipher_calls|].
      apply Forall2_app; [apply key_calls|]. destruct ca; [ctx_calls|constructor]. }
  intros [= <- <- <- <-]. split; [congruence|]. rewrite HT1 in HT2. destruct c0 as [c0|]; [|done].
  destruct HT2 as (-> & Hf & ->). split_and!; [done..|]. by destruct ciphers, ca.
Qed.

Lemma client_ctx_ok ca cert key verify ciphers v error i w c e' i' w' :
  ak_tcp_tls_client_ctx_new ca cert key verify ciphers v error i w = (c, e', i', w') →
  let given := bool_decide (is_Some cert ∧ is_Some key) in
  kernel_of w' = kernel_of w
  ∧ match c with
    | Some c => e' = error ∧ i' = true ∧ t_ctxs (tls_of w) !! c = None
        ∧ tls_of w' = with_ctx c (ctx_as_asked false (if given then cert else None) (if given then key else None)
             (Some ca) ciphers v (if verify then SSL_VERIFY_PEER else SSL_VERIFY_NONE)) (tls_of w)
    | None => tls_of w' = tls_of w ∧ (is_Some error → ∃ t, e' = Some (Some t))
    end.
Proof.
  unfold ak_tcp_tls_client_ctx_new.
  destruct (ak_tcp_tls_init i w) as [i1 w1] eqn:Ei. apply tls_init_ok in Ei as (-> & HK1 & HT1).
  match goal with |- context [set_up_ctx false ?steps ?mode error w1] =>
    destruct (set_up_ctx false steps mode error w1) as [[c0 e1] w2] eqn:E end.
  apply (set_up_ctx_ok _ _ ([x_with_min (if 0 <? v then v else TLS1_2_VERSION); x_with_options client_options]
      ++ set_ciphers ciphers ++ [x_with_ca ca]
      ++ match cert, key with Some cert, Some key => [x_with_cert cert; x_with_key key; x_with_match] | _, _ => [] end))
    in E as [HK2 HT2].
  2:{ intros c1. apply Forall2_app; [apply first_calls|]. apply Forall2_app; [apply cipher_calls|].
      apply Forall2_app; [destruct ca; ctx_calls|]. destruct cert, key; try apply key_calls; constructor. }
  intros [= <- <- <- <-]. split; [congruence|]. rewrite HT1 in HT2. destruct c0 as [c0|]; [|done].
  destruct HT2 as (-> & Hf & ->). split_and!; [done..|]. destruct ciphers, cert, key; done.
Qed.

(** ** Handshakes *)

Lemma report_undisturbed m error w e' w' k :
  report m error w = (e', w') → undisturbed k (kernel_of w) → undisturbed k (kernel_of w').
Proof. by intros (-> & _)%report_ok. Qed.

(** A call that changes a connection by [f] when it answers 1. *)
Definition ssl_call (l : positive) (f : ssl_state → ssl_state) (step : (sys → Z * sys) * message) : Prop :=
  ∀ w r w', step.1 w = (r, w') → kernel_of w' = kernel_of w
    ∧ (r = 1 → ∃ y, t_ssls (tls_of w) !! l = Some y ∧ tls_of w' = with_ssl l (f y) (tls_of w))
    ∧ (r ≠ 1 → ssl_changed l (tls_of w) (tls_of w')).

Lemma with_ssl_same l y t : t_ssls t !! l = Some y → with_ssl l y t = t.
Proof. destruct t as [cs ls]. intros Hy. unfold with_ssl. simpl in *. f_equal. by rewrite insert_id. Qed.

Lemma ssl_changed_live l y t t' : t_ssls t !! l = Some y → ssl_changed l t t' → ∃ y', t' = with_ssl l y' t.
Proof. intros Hy [->|(y1 & y' & _ & ->)]; [exists y; by rewrite with_ssl_same|by exists y']. Qed.

Lemma require_ssl l fs steps error w ok e' w' y :
  Forall2 (ssl_call l) fs steps → t_ssls (tls_of w) !! l = Some y →
  require steps error w = (ok, e', w') →
  kernel_of w' = kernel_of w
  ∧ if ok then e' = error ∧ tls_of w' = with_ssl l (foldl (λ y f, f y) y fs) (tls_of w)
    else (is_Some error → ∃ t, e' = Some (Some t)) ∧ ∃ y', tls_of w' = with_ssl l y' (tls_of w).
Proof.
  intros Hall. revert w y. induction Hall as [|f step fs steps Hcall Hall IH]; intros w y Hy; simpl.
  { intros [= <- <- <-]. by rewrite with_ssl_same. }
  destruct step as [call m]. destruct (call w) as [r w1] eqn:E. destruct (Hcall w r w1 E) as (HK & Hgood & Hbad).
  destruct (Z.eqb_spec r 1) as [Hr|Hr]; simpl.
  - destruct (Hgood Hr) as (y1 & Hy1 & HT). assert (y1 = y) as -> by congruence.
    intros Hrest. destruct (IH w1 (f y)) as [HK2 HT2]; [|done|].
    { rewrite HT. simpl. by rewrite lookup_insert_eq. }
    split; [congruence|]. rewrite HT in HT2. destruct ok.
    + destruct HT2 as [-> ->]. by rewrite with_ssl_twice.
    + destruct HT2 as [He (y' & ->)]. split; [done|]. exists y'. by rewrite with_ssl_twice.
  - destruct (report m error w1) as [e1 w2] eqn:Er. apply report_ok in Er as (HK2 & HT2 & _ & He).
    intros [= <- <- <-]. split; [congruence|]. split; [done|]. rewrite HT2. apply (ssl_changed_live _ _ _ _ Hy (Hbad Hr)).
Qed.

(** The connection is set up as asked and its handshake done, or it is freed. *)
Lemma handshake_ok ctx steps fs shake error w l e' w' :
  (∀ l, Forall2 (ssl_call l) fs (steps l)) → (∀ l, shake l = SSL_accept l ∨ shake l = SSL_connect l) →
  handshake ctx steps shake error w = (l, e', w') →
  undisturbed (kernel_of w) (kernel_of w')
  ∧ match l with
    | Some l => e' = error ∧ t_ssls (tls_of w) !! l = None ∧ ∃ c i0 i o, ctx = Some c
        ∧ let y := foldl (λ y f, f y) (mk_ssl c None None false i0 []) fs in
          tls_of w' = with_ssl l (mk_ssl (l_ctx y) (l_fd y) (l_name y) true i o) (tls_of w)
    | None => tls_of w' = tls_of w ∧ (is_Some error → ∃ t, e' = Some (Some t))
    end.
Proof.
  intros Hsteps Hshake. unfold handshake. destruct ctx as [c|].
  2:{ destruct (report _ error w) as [e1 w1] eqn:Er. apply report_ok in Er as (HK & HT & _ & He).
      intros [= <- <- <-]. rewrite HK. by split_and!. }
  destruct (SSL_new c w) as [o w1] eqn:En. apply ssl_new_law in En as [HK1 HT1]. destruct o as [l0|].
  2:{ destruct (report _ error w1) as [e1 w2] eqn:Er. apply report_ok in Er as (HK & HT & _ & He).
      intros [= <- <- <-]. rewrite HK, HK1. split_and!; [done..|congruence|done]. }
  destruct HT1 as (Hfresh & i0 & HT1). set (y0 := mk_ssl c None None false i0 []) in *.
  assert (t_ssls (tls_of w1) !! l0 = Some y0) as Hy0. { rewrite HT1. simpl. by rewrite lookup_insert_eq. }
  assert (∀ y w2, tls_of w2 = with_ssl l0 y (tls_of w) → tls_of (SSL_free l0 w2) = tls_of w) as Hfree.
  { intros y w2 HT. destruct (ssl_free_law l0 w2) as [_ ->]. rewrite HT. destruct (tls_of w) as [cs ls]. simpl in *.
    f_equal. by rewrite delete_insert_id. }
  assert (∀ w2, kernel_of w2 = kernel_of w → undisturbed (kernel_of w) (kernel_of (SSL_free l0 w2))) as Hfreed.
  { intros w2 HK. destruct (ssl_free_law l0 w2) as [HU _]. by rewrite HK in HU. }
  destruct (require (steps l0) error w1) as [[ok e1] w2] eqn:Er.
  apply (require_ssl l0 fs _ _ _ _ _ _ _ (Hsteps l0) Hy0) in Er as [HK2 HT2]. rewrite HT1 in HT2.
  destruct ok; simpl.
  2:{ destruct HT2 as [He (y' & HT2)]. rewrite with_ssl_twice in HT2. intros [= <- <- <-].
      split; [apply Hfreed; congruence|]. split; [by eapply Hfree|done]. }
  destruct HT2 as [-> HT2]. rewrite with_ssl_twice in HT2. set (y1 := foldl _ y0 fs) in *.
  destruct (shake l0 w2) as [r w3] eqn:Es. apply (ssl_shake_law l0) in Es as (HU3 & Hgood & Hbad); [|apply Hshake].
  assert (t_ssls (tls_of w2) !! l0 = Some y1) as Hy1. { rewrite HT2. simpl. by rewrite lookup_insert_eq. }
  assert (undisturbed (kernel_of w) (kernel_of w3)) as HU. { by rewrite HK2, HK1 in HU3. }
  destruct (Z.eqb_spec r 1) as [Hr|Hr]; simpl.
  - intros [= <- <- <-]. split; [done|]. split_and!; [done..|]. destruct (Hgood Hr) as (y & i & o & Hy & HT3).
    assert (y = y1) as -> by congruence. exists c, i0, i, o. split; [done|].
    by rewrite HT3, HT2, with_ssl_twice.
  - destruct (report _ error w3) as [e2 w4] eqn:Er2. apply report_ok in Er2 as (HK4 & HT4 & _ & He).
    intros [= <- <- <-]. destruct (ssl_changed_live _ _ _ _ Hy1 (Hbad Hr)) as [y' HT3].
    rewrite HT2, with_ssl_twice in HT3. split; [|split; [|done]].
    + destruct (ssl_free_law l0 w4) as [HU4 _]. rewrite HK4 in HU4. by eapply undisturbed_trans.
    + apply (Hfree y'). congruence.
Qed.

Lemma ssl_set_call l call f m :
  (∃ fd, call = SSL_set_fd l fd ∧ f = l_with_fd fd) ∨ (∃ n, call = SSL_set_tlsext_host_name l n ∧ f = l_with_name n) →
  ssl_call l f (call, m).
Proof. intros Hcall w r w' E. by eapply ssl_set_law. Qed.

Lemma tls_accept_ok ctx fd error w l e' w' :
  ak_tcp_tls_accept ctx fd error w = (l, e', w') →
  undisturbed (kernel_of w) (kernel_of w')
  ∧ match l with
    | Some l => e' = error ∧ t_ssls (tls_of w) !! l = None ∧ ∃ c i o, ctx = Some c
        ∧ tls_of w' = with_ssl l (mk_ssl c (Some fd) None true i o) (tls_of w)
    | None => tls_of w' = tls_of w ∧ (is_Some error → ∃ t, e' = Some (Some t))
    end.
Proof.
  intros E. apply (handshake_ok _ _ [l_with_fd fd]) in E as [HU HT].
  - split; [done|]. destruct l as [l|]; [|done]. destruct HT as (? & ? & c & i0 & i & o & ? & ?). split_and!; eauto 10.
  - intros l0. apply Forall2_cons_2; [apply ssl_set_call; eauto|constructor].
  - by left.
Qed.

Lemma tls_connect_ok ctx fd name error w l e' w' :
  ak_tcp_tls_connect ctx fd name error w = (l, e', w') →
  undisturbed (kernel_of w) (kernel_of w')
  ∧ match l with
    | Some l => e' = error ∧ t_ssls (tls_of w) !! l = None ∧ ∃ c i o, ctx = Some c
        ∧ tls_of w' = with_ssl l (mk_ssl c (Some fd) name true i o) (tls_of w)
    | None => tls_of w' = tls_of w ∧ (is_Some error → ∃ t, e' = Some (Some t))
    end.
Proof.
  intros E. apply (handshake_ok _ _ (match name with Some n => [l_with_name n] | None => [] end ++ [l_with_fd fd])) in E as [HU HT].
  - split; [done|]. destruct l as [l|]; [|done]. destruct HT as (? & ? & c & i0 & i & o & ? & HT). split_and!; [done..|].
    exists c, i, o. split; [done|]. by destruct name.
  - intros l0. apply Forall2_app; [destruct name; [|constructor]|]; (apply Forall2_cons_2; [apply ssl_set_call; eauto|constructor]).
  - by right.
Qed.
End contexts.

(** * The interface of the sockets *)

(** The state: whether the library is initialized, and the system. *)
#[export] Instance posix_sockets `{OpenSSL} : Sockets := {|
  net := bool * sys;
  Sockets.ak_tcp_socket_create_for_addr := λ addr e n, let '(r, e, w) := Posix.ak_tcp_socket_create_for_addr addr e n.2 in (r, e, (n.1, w));
  Sockets.ak_tcp_socket_bind := λ fd addr port e n, let '(r, e, w) := Posix.ak_tcp_socket_bind fd addr port e n.2 in (r, e, (n.1, w));
  Sockets.ak_tcp_socket_listen := λ fd backlog e n, let '(r, e, w) := Posix.ak_tcp_socket_listen fd backlog e n.2 in (r, e, (n.1, w));
  Sockets.ak_tcp_socket_accept := λ fd e n,
    let '(r, ip, port, e, w) := Posix.ak_tcp_socket_accept fd e n.2 in (r, ip, port, e, (n.1, w));
  Sockets.ak_tcp_socket_poll_read := λ fd t n, let '(r, w) := Posix.ak_tcp_socket_poll_read fd t n.2 in (r, (n.1, w));
  Sockets.ak_tcp_socket_send := λ fd data e n, let '(r, e, w) := Posix.ak_tcp_socket_send fd data e n.2 in (r, e, (n.1, w));
  Sockets.ak_tcp_socket_recv := λ fd len e n,
    let '(r, bytes, e, w) := Posix.ak_tcp_socket_recv fd len e n.2 in (r, bytes, e, (n.1, w));
  Sockets.ak_tcp_socket_close := λ fd n, (n.1, Posix.ak_tcp_socket_close fd n.2);
  Sockets.ak_tcp_socket_shutdown := λ fd n, (n.1, Posix.ak_tcp_socket_shutdown fd n.2);
  Sockets.ak_tcp_socket_peer_closed := λ fd n, let '(b, w) := Posix.ak_tcp_socket_peer_closed fd n.2 in (b, (n.1, w));
  Sockets.ak_tcp_socket_set_timeout := λ fd a b e n, let '(r, e, w) := Posix.ak_tcp_socket_set_timeout fd a b e n.2 in (r, e, (n.1, w));
  Sockets.ak_tcp_socket_set_keepalive := λ fd a b c e n,
    let '(r, e, w) := Posix.ak_tcp_socket_set_keepalive fd a b c e n.2 in (r, e, (n.1, w));
  Sockets.ak_tcp_socket_set_linger := λ fd a b e n, let '(r, e, w) := Posix.ak_tcp_socket_set_linger fd a b e n.2 in (r, e, (n.1, w));
  Sockets.ak_tcp_socket_set_buffers := λ fd a b e n, let '(r, e, w) := Posix.ak_tcp_socket_set_buffers fd a b e n.2 in (r, e, (n.1, w));
  Sockets.ak_tcp_tls_ctx_new := λ cert key ca verify ciphers v e n,
    let '(r, e, i, w) := Tls.ak_tcp_tls_ctx_new (Some cert) (Some key) ca verify ciphers v e n.1 n.2 in (r, e, (i, w));
  Sockets.ak_tcp_tls_ctx_free := λ c n, (n.1, Tls.ak_tcp_tls_ctx_free (Some c) n.2);
  Sockets.ak_tcp_tls_accept := λ c fd e n, let '(r, e, w) := Tls.ak_tcp_tls_accept (Some c) fd e n.2 in (r, e, (n.1, w));
  Sockets.ak_tcp_tls_send := λ ssl data e n, let '(r, e, w) := Tls.ak_tcp_tls_send (Some ssl) (Some data) e n.2 in (r, e, (n.1, w));
  Sockets.ak_tcp_tls_recv := λ ssl len e n,
    let '(r, bytes, e, w) := Tls.ak_tcp_tls_recv (Some ssl) true len e n.2 in (r, bytes, e, (n.1, w));
  Sockets.ak_tcp_tls_shutdown := λ ssl n, (n.1, Tls.ak_tcp_tls_shutdown (Some ssl) n.2);
  Sockets.ak_tcp_tls_free := λ ssl n, (n.1, Tls.ak_tcp_tls_free (Some ssl) n.2);
|}.

Lemma i32_le x : 0 <= x → i32 x <= x.
Proof.
  intros Hx. unfold i32. destruct (Z_lt_le_dec (x + 2 ^ 31) (2 ^ 32)); [rewrite Z.mod_small by lia; lia|].
  pose proof (Z.mod_pos_bound (x + 2 ^ 31) (2 ^ 32)). lia.
Qed.

Section interface.
Context `{OpenSSLLaws}.

Definition tls_in (ssl : positive) (w : sys) : list Z := from_option l_in [] (t_ssls (tls_of w) !! ssl).
Definition tls_out (ssl : positive) (w : sys) : list Z := from_option l_out [] (t_ssls (tls_of w) !! ssl).

Lemma cleared w : kernel_of (ERR_clear_error w) = kernel_of w ∧ tls_of (ERR_clear_error w) = tls_of w.
Proof. destruct (clear_error_law w) as (? & ? & _). done. Qed.

Lemma tls_send_ok ssl data e w r e' w' :
  ak_tcp_tls_send (Some ssl) (Some data) e w = (r, e', w') →
  -1 <= r <= zlen data ∧ tls_out ssl w' = tls_out ssl w ++ take (Z.to_nat r) data
  ∧ tls_in ssl w' = tls_in ssl w ∧ open_fds w' = open_fds w.
Proof.
  pose proof (zlen_nonneg data). pose proof (i32_le (zlen data)). unfold ak_tcp_tls_send, tls_in, tls_out.
  destruct (cleared w) as [HKc HTc]. set (w0 := ERR_clear_error w) in *.
  destruct (SSL_write ssl data (i32 (zlen data)) w0) as [n w1] eqn:E. apply ssl_write_law in E as [HU HT].
  rewrite HKc in HU. pose proof (undisturbed_open _ _ HU) as Ho. rewrite HTc in HT.
  destruct HT as [[Hn HT]|(Hn & y & Hy & HT)]; destruct (Z.leb_spec n 0); try lia.
  - assert (∀ r w', (r = 0 ∨ r = -1) → kernel_of w' = kernel_of w1 → tls_of w' = tls_of w1 →
      -1 <= r <= zlen data ∧ from_option l_out [] (t_ssls (tls_of w') !! ssl)
        = from_option l_out [] (t_ssls (tls_of w) !! ssl) ++ take (Z.to_nat r) data
      ∧ from_option l_in [] (t_ssls (tls_of w') !! ssl) = from_option l_in [] (t_ssls (tls_of w) !! ssl)
      ∧ open_fds w' = open_fds w) as Hnone.
    { intros r0 w2 Hr HK2 HT2. rewrite HT2, HT. unfold open_fds in *. rewrite HK2.
      destruct Hr as [-> | ->]; (split_and!; [lia|lia|by rewrite app_nil_r|done|done]). }
    assert (∀ m, (let '(e0, w2) := report m e w1 in (-1, e0, w2)) = (r, e', w') → r = -1 ∧ kernel_of w' = kernel_of w1 ∧ tls_of w' = tls_of w1)
      as Hfail.
    { intros m. destruct (report m e w1) as [e1 w2] eqn:Er. apply report_ok in Er as (? & ? & _). by intros [= <- <- <-]. }
    cbv zeta. destruct (SSL_get_error ssl n w1);
      try (intros (-> & HK2 & HT2)%Hfail; apply Hnone; auto). intros [= <- <- <-]. apply (Hnone 0); auto.
  - intros [= <- <- <-]. rewrite HT. simpl. rewrite lookup_insert_eq, Hy. simpl. split_and!; [lia|lia|done..].
Qed.

Lemma tls_recv_frame ssl len e w r bytes e' w' :
  ak_tcp_tls_recv (Some ssl) true len e w = (r, bytes, e', w') → open_fds w' = open_fds w.
Proof.
  unfold ak_tcp_tls_recv. destruct (cleared w) as [HKc _]. set (w0 := ERR_clear_error w) in *.
  destruct (SSL_read ssl (i32 len) w0) as [[n bs] w1] eqn:E. apply ssl_read_law in E as [HU _].
  rewrite HKc in HU. apply undisturbed_open in HU. rewrite <- HU. destruct (n <=? 0); [|by intros [= <- <- <- <-]].
  assert (∀ m, (let '(e0, w2) := report m e w1 in (-1, [], e0, w2)) = (r, bytes, e', w') → open_fds w' = open_fds w1) as Hfail.
  { intros m. destruct (report m e w1) as [e1 w2] eqn:Er. apply report_ok in Er as (HK & _).
    intros [= <- <- <- <-]. unfold open_fds. by rewrite HK. }
  cbv zeta. destruct (SSL_get_error ssl n w1); try apply Hfail; try by intros [= <- <- <- <-].
  destruct (_ && _); [by intros [= <- <- <- <-]|apply Hfail].
Qed.

Lemma tls_recv_ok ssl len e w r bytes e' w' :
  ak_tcp_tls_recv (Some ssl) true len e w = (r, bytes, e', w') → 0 <= len < 2 ^ 31 →
  -1 <= r <= len ∧ zlen bytes = Z.max 0 r ∧ Forall is_byte bytes
  ∧ tls_in ssl w = bytes ++ tls_in ssl w' ∧ (r = 0 → 0 < len → tls_in ssl w = [])
  ∧ tls_out ssl w' = tls_out ssl w.
Proof.
  intros E Hlen. revert E. unfold ak_tcp_tls_recv, tls_in, tls_out. rewrite i32_small by lia.
  destruct (clear_error_law w) as (_ & HTc & Hpeek). set (w0 := ERR_clear_error w) in *.
  destruct (SSL_read ssl len w0) as [[n bs] w1] eqn:E. pose proof (ssl_end_law ssl len w0 n bs w1 Hpeek E) as Hend.
  apply ssl_read_law in E as [_ HT]. rewrite HTc in HT.
  destruct HT as [[Hn HT]|(Hn & Hb & Hby & y & rest & Hy & Hin & HT)]; destruct (Z.leb_spec n 0); try lia.
  - assert (∀ m, (let '(e0, w2) := report m e w1 in (-1, [], e0, w2)) = (r, bytes, e', w') →
      r = -1 ∧ bytes = [] ∧ tls_of w' = tls_of w) as Hfail.
    { intros m. destruct (report m e w1) as [e1 w2] eqn:Er. apply report_ok in Er as (_ & HT2 & _).
      intros [= <- <- <- <-]. split_and!; [done|done|congruence]. }
    assert (∀ m, (let '(e0, w2) := report m e w1 in (-1, [], e0, w2)) = (r, bytes, e', w') →
      -1 <= r <= len ∧ zlen bytes = Z.max 0 r ∧ Forall is_byte bytes
      ∧ from_option l_in [] (t_ssls (tls_of w) !! ssl) = bytes ++ from_option l_in [] (t_ssls (tls_of w') !! ssl)
      ∧ (r = 0 → 0 < len → from_option l_in [] (t_ssls (tls_of w) !! ssl) = [])
      ∧ from_option l_out [] (t_ssls (tls_of w') !! ssl) = from_option l_out [] (t_ssls (tls_of w) !! ssl)) as Hfailed.
    { intros m (-> & -> & ->)%Hfail. split_and!; [lia|lia|done|constructor|done|lia|done]. }
    rewrite HT in Hend. cbv zeta. destruct (SSL_get_error ssl n w1); try apply Hfailed.
    + destruct (bool_decide (is_Some e) && (ERR_peek_error w1 =? 0) && (n =? 0)) eqn:Eof; [|apply Hfailed].
      apply andb_true_iff in Eof as [[_ E1%Z.eqb_eq]%andb_true_iff E2%Z.eqb_eq].
      intros [= <- <- <- <-]. rewrite HT. split_and!; [lia|lia|done|constructor|done| |done]. intros _ Hp. apply Hend; auto.
    + intros [= <- <- <- <-]. rewrite HT. split_and!; [lia|lia|done|constructor|done| |done]. intros _ Hp. apply Hend; auto.
  - intros [= <- <- <- <-]. rewrite HT. simpl. rewrite lookup_insert_eq, Hy. simpl.
    split_and!; [lia|lia|lia|done|done|lia|done].
Qed.

Lemma tls_shutdown_ok ssl w : open_fds (ak_tcp_tls_shutdown ssl w) = open_fds w.
Proof.
  unfold ak_tcp_tls_shutdown. destruct ssl as [l|]; [|done].
  pose proof (undisturbed_open _ _ (proj1 (ssl_shutdown_law l w))) as Ho1.
  destruct (SSL_shutdown l w) as [r w1]. simpl in Ho1. destruct (r =? 0); [|done].
  by rewrite (undisturbed_open _ _ (proj1 (ssl_shutdown_law l w1))).
Qed.

Lemma peer_closed_tls fd w b w' : ak_tcp_socket_peer_closed fd w = (b, w') → tls_of w' = tls_of w.
Proof.
  unfold ak_tcp_socket_peer_closed. destruct (fd =? AK_INVALID_SOCKET); [by intros [= <- <-]|].
  pose proof (poll_call_law fd 0 w) as E1. destruct (sys_poll_in fd 0 w) as [[x ev] w1]. simpl in E1.
  destruct (x <? 0); [by intros [= <- <-]|]. destruct (x =? 0); [by intros [= <- <-]|].
  destruct (_ || _); [by intros [= <- <-]|]. destruct (POLLIN ev); [|by intros [= <- <-]].
  pose proof (peek_call_law fd 1 w1) as E2. destruct (sys_recv true fd 1 w1) as [[n bytes] w2]. simpl in E2.
  destruct (n =? 0); [intros [= <- <-]; congruence|]. destruct (_ && _); intros [= <- <-]; congruence.
Qed.

Definition channel_in (n : bool * sys) (ch : channel) : list Z :=
  match ch with Socket fd => socket_in fd n.2 | Tls ssl => tls_in ssl n.2 end.
Definition channel_out (n : bool * sys) (ch : channel) : list Z :=
  match ch with Socket fd => socket_out fd n.2 | Tls ssl => tls_out ssl n.2 end.

#[local] Arguments set_options : simpl never.
#[local] Arguments ak_tcp_tls_ctx_new : simpl never.
#[local] Arguments ak_tcp_tls_accept : simpl never.

(** The answer of a call of the system as an answer of the interface. *)
Ltac unwrap E :=
  cbn; match goal with |- context [match ?c with (_, _) => _ end] => destruct c eqn:E end;
  repeat match goal with x : (_ * _)%type |- _ => destruct x end; cbn in *;
  let H := fresh in intros H; injection H; clear H; repeat match goal with |- _ = _ → _ => intros <- end.

#[export] Instance posix_laws : @SocketLaws posix_sockets.
Proof.
  unshelve refine (@Build_SocketLaws posix_sockets channel_in channel_out (λ n, open_fds n.2)
    _ _ _ _ _ _ _ _ _ _ _ _ _ _ _ _ _ _ _ _ _).
  - intros n. apply invalid_closed.
  - intros [fd|ssl] data e n r e' n'; unwrap E; [by apply send_ok in E|by apply tls_send_ok in E].
  - intros [fd|ssl] len e n r bytes e' n'; unwrap E; intros Hlen; [by apply socket_recv_ok in E; [|lia]|by apply tls_recv_ok in E].
  - intros [fd|ssl] len e n r bytes e' n'; unwrap E; [by apply recv_frame in E|by apply tls_recv_frame in E].
  - intros fd n b n'; unwrap E. pose proof (peer_closed_tls _ _ _ _ E) as HT. apply peer_closed_ok in E as HK.
    unfold channel_in, channel_out, socket_in, socket_out, tls_in, tls_out, open_fds. simpl. rewrite HK, HT.
    split_and!; [by intros []|by intros []|done].
  - intros fd e n r ip port e' n'; unwrap E. by apply socket_accept_ok in E.
  - intros fd n. apply close_ok.
  - intros fd n. apply shutdown_ok.
  - intros fd t n r n'; unwrap E. apply poll_read_ok in E. unfold open_fds. simpl. by rewrite E.
  - intros fd a b e n r e' n'; unwrap E. apply set_timeout_undisturbed in E as [E _]. by apply undisturbed_open.
  - intros fd a b c e n r e' n'; unwrap E. apply set_keepalive_undisturbed in E. by apply undisturbed_open.
  - intros fd a b e n r e' n'; unwrap E. apply set_options_ok in E as [E _]. by apply undisturbed_open.
  - intros fd a b e n r e' n'; unwrap E. apply set_options_ok in E as [E _]. by apply undisturbed_open.
  - intros addr e n r e' n'; unwrap E. by apply create_ok in E.
  - intros fd addr port e n r e' n'; unwrap E. by apply bind_ok in E.
  - intros fd backlog e n r e' n'; unwrap E. by apply listen_ok in E.
  - intros cert key ca verify ciphers v e n r e' n'; unwrap E. apply server_ctx_ok in E as [HK _]. unfold open_fds. simpl. by rewrite HK.
  - intros c n. unfold open_fds. simpl. by rewrite (proj1 (ctx_free_law c n.2)).
  - intros c fd e n r e' n'; unwrap E. apply tls_accept_ok in E as [E _]. by apply undisturbed_open.
  - intros ssl n. apply tls_shutdown_ok.
  - intros ssl n. by apply undisturbed_open, ssl_free_law.
Defined.
(** ** Clients *)

#[export] Instance posix_client_sockets : @ClientSockets posix_sockets := {|
  Sockets.ak_tcp_socket_set_reuseaddr := λ fd b e n,
    let '(r, e, w) := Posix.ak_tcp_socket_set_reuseaddr fd b e n.2 in (r, e, (n.1, w));
  Sockets.ak_tcp_socket_set_nodelay := λ fd b e n,
    let '(r, e, w) := Posix.ak_tcp_socket_set_nodelay fd b e n.2 in (r, e, (n.1, w));
  Sockets.ak_tcp_socket_connect := λ fd host port t e n,
    let '(r, e, w) := Posix.ak_tcp_socket_connect fd host port t e n.2 in (r, e, (n.1, w));
  Sockets.ak_tcp_tls_client_ctx_new := λ ca cert key verify ciphers v e n,
    let '(r, e, i, w) := Tls.ak_tcp_tls_client_ctx_new ca cert key verify ciphers v e n.1 n.2 in (r, e, (i, w));
  Sockets.ak_tcp_tls_connect := λ c fd name e n,
    let '(r, e, w) := Tls.ak_tcp_tls_connect c fd name e n.2 in (r, e, (n.1, w));
|}.

#[local] Arguments ak_tcp_tls_client_ctx_new : simpl never.
#[local] Arguments ak_tcp_tls_connect : simpl never.
#[local] Arguments Posix.ak_tcp_socket_connect : simpl never.

#[export] Instance posix_client_laws : @ClientSocketLaws posix_sockets posix_laws posix_client_sockets.
Proof.
  split.
  - intros fd b e n r e' n'; unwrap E. apply set_options_ok in E as [E _]. by apply undisturbed_open.
  - intros fd b e n r e' n'; unwrap E. apply set_options_ok in E as [E _]. by apply undisturbed_open.
  - intros fd host port t e n r e' n'; unwrap E. by apply connect_open in E.
  - intros ca cert key verify ciphers v e n r e' n'; unwrap E. apply client_ctx_ok in E as [HK _]. unfold open_fds. simpl. by rewrite HK.
  - intros c fd name e n r e' n'; unwrap E. apply tls_connect_ok in E as [E _]. by apply undisturbed_open.
Defined.

End interface.

(** * Properties *)

Section tls_properties.
Context `{OpenSSLLaws}.

(** C14: The functions of [tcp_posix.c] and [tcp_tls.c] implement the interface the
    TCP module is built on: over any system and TLS library that keep what their
    documentation says, they satisfy all its laws, where the open sockets are those of
    the system, and the bytes of a channel are those of its socket or of its TLS
    connection.  For TLS this takes transfers whose length fits an int: longer ones
    are cut to the low 32 bits. *)
Theorem ak_tcp_posix_spec :
  ∃ L : @SocketLaws posix_sockets,
    (∀ n, @open_sockets posix_sockets L n = dom (k_sockets (kernel_of n.2)))
    ∧ (∀ n fd, @arriving posix_sockets L n (Socket fd) = socket_in fd n.2
         ∧ @delivered posix_sockets L n (Socket fd) = socket_out fd n.2)
    ∧ (∀ n ssl, @arriving posix_sockets L n (Sockets.Tls ssl) = tls_in ssl n.2
         ∧ @delivered posix_sockets L n (Sockets.Tls ssl) = tls_out ssl n.2).
Proof. by exists posix_laws. Qed.

(** C16: A new TLS context is set up as it was asked: the lowest version, TLS 1.2 when
    none is given, the options, the ciphers, a certificate with the key that matches
    it, the authorities and the mode of verification; a server needs certificate and
    key.  A new TLS connection is on the socket, with the name it asks for, and its
    handshake is done.  When any of the calls this takes fails, null is answered with
    a message, and no context or connection is left; no other one is ever changed, and
    no socket is opened or closed. *)
Theorem ak_tcp_tls_new_spec cert key ca verify ciphers v error i w c e' i' w' ctx fd name l :
  (ak_tcp_tls_ctx_new cert key ca verify ciphers v error i w = (c, e', i', w') →
    kernel_of w' = kernel_of w
    ∧ match c with
      | Some c => is_Some cert ∧ is_Some key ∧ e' = error ∧ i' = true ∧ t_ctxs (tls_of w) !! c = None
          ∧ tls_of w' = with_ctx c (ctx_as_asked true cert key (Some <$> ca) ciphers v
               (if verify then SSL_VERIFY_PEER_FAIL_IF_NO_PEER_CERT else SSL_VERIFY_NONE)) (tls_of w)
      | None => tls_of w' = tls_of w ∧ (is_Some error → ∃ t, e' = Some (Some t))
      end)
  ∧ (ak_tcp_tls_client_ctx_new ca cert key verify ciphers v error i w = (c, e', i', w') →
      let given := bool_decide (is_Some cert ∧ is_Some key) in
      kernel_of w' = kernel_of w
      ∧ match c with
        | Some c => e' = error ∧ i' = true ∧ t_ctxs (tls_of w) !! c = None
            ∧ tls_of w' = with_ctx c (ctx_as_asked false (if given then cert else None) (if given then key else None)
                 (Some ca) ciphers v (if verify then SSL_VERIFY_PEER else SSL_VERIFY_NONE)) (tls_of w)
        | None => tls_of w' = tls_of w ∧ (is_Some error → ∃ t, e' = Some (Some t))
        end)
  ∧ (ak_tcp_tls_accept ctx fd error w = (l, e', w') →
      undisturbed (kernel_of w) (kernel_of w')
      ∧ match l with
        | Some l => e' = error ∧ t_ssls (tls_of w) !! l = None ∧ ∃ c i o, ctx = Some c
            ∧ tls_of w' = with_ssl l (mk_ssl c (Some fd) None true i o) (tls_of w)
        | None => tls_of w' = tls_of w ∧ (is_Some error → ∃ t, e' = Some (Some t))
        end)
  ∧ (ak_tcp_tls_connect ctx fd name error w = (l, e', w') →
      undisturbed (kernel_of w) (kernel_of w')
      ∧ match l with
        | Some l => e' = error ∧ t_ssls (tls_of w) !! l = None ∧ ∃ c i o, ctx = Some c
            ∧ tls_of w' = with_ssl l (mk_ssl c (Some fd) name true i o) (tls_of w)
        | None => tls_of w' = tls_of w ∧ (is_Some error → ∃ t, e' = Some (Some t))
        end).
Proof.
  split; [apply server_ctx_ok|]. split; [apply client_ctx_ok|]. split; [apply tls_accept_ok|apply tls_connect_ok].
Qed.
End tls_properties.

(** * A TLS library *)

Section toy_tls.
#[local] Instance toy_tls_system : System := toy_system (X := tls_world).
#[local] Instance toy_tls_system_laws : SystemLaws := toy_system_laws (X := tls_world).

Definition z_put (t : tls_world) (w : toy_sys tls_world) : toy_sys tls_world := y_with_extra t w.

(** A call on a context or a connection that is not freed and meets a condition. *)
Definition z_ctx (c : positive) (ok : ctx_state → bool) (f : ctx_state → ctx_state) (w : toy_sys tls_world)
    : Z * toy_sys tls_world :=
  match t_ctxs (y_extra w) !! c with
  | Some x => if ok x then (1, z_put (with_ctx c (f x) (y_extra w)) w) else (0, w)
  | None => (0, w)
  end.
Definition z_ssl (l : positive) (f : ssl_state → ssl_state) (w : toy_sys tls_world) : Z * toy_sys tls_world :=
  match t_ssls (y_extra w) !! l with
  | Some y => (1, z_put (with_ssl l (f y) (y_extra w)) w)
  | None => (0, w)
  end.

Definition z_shake (y : ssl_state) : ssl_state := mk_ssl (l_ctx y) (l_fd y) (l_name y) true [72; 105] [].

Definition z_write (l : positive) (data : list Z) (num : Z) (w : toy_sys tls_world) : Z * toy_sys tls_world :=
  match t_ssls (y_extra w) !! l with
  | Some y => if 0 <? num then (num, z_put (with_ssl l (l_with_out (l_out y ++ take (Z.to_nat num) data) y) (y_extra w)) w)
              else (-1, w)
  | None => (-1, w)
  end.

Definition z_read (l : positive) (num : Z) (w : toy_sys tls_world) : Z * list Z * toy_sys tls_world :=
  match t_ssls (y_extra w) !! l with
  | Some y =>
      let n := Z.min num (zlen (l_in y)) in
      if (0 <? n) && bool_decide (Forall is_byte (l_in y)) then
        (n, take (Z.to_nat n) (l_in y), z_put (with_ssl l (l_with_in (drop (Z.to_nat n) (l_in y)) y) (y_extra w)) w)
      else (0, [], w)
  | None => (0, [], w)
  end.

(** The first key that is no key of a map. *)
Definition z_fresh {A} (m : gmap positive A) : positive := fresh (dom m).

#[local] Instance toy_openssl : OpenSSL := {|
  SSL_library_init := λ w, w;
  EVP_cleanup := λ w, w;
  ERR_get_error := λ w, (0, w);
  ERR_peek_error := λ _, 0;
  ERR_clear_error := λ w, w;
  ERR_error_string_n := λ _, "error"%str;
  TLS1_2_VERSION := 771;
  SSL_CTX_new := λ server w,
    let c := z_fresh (t_ctxs (y_extra w)) in (Some c, z_put (with_ctx c (new_ctx server) (y_extra w)) w);
  SSL_CTX_set_min_proto_version := λ c v, z_ctx c (λ _, true) (x_with_min v);
  SSL_CTX_set_options := λ c o w, (z_ctx c (λ _, true) (x_with_options o) w).2;
  SSL_CTX_set_cipher_list := λ c l, z_ctx c (λ _, true) (x_with_ciphers l);
  SSL_CTX_use_certificate_chain_file := λ c p, z_ctx c (λ _, true) (x_with_cert p);
  SSL_CTX_use_PrivateKey_file := λ c p, z_ctx c (λ _, true) (x_with_key p);
  SSL_CTX_check_private_key := λ c, z_ctx c (λ x, bool_decide (x_cert x = x_key x)) x_with_match;
  SSL_CTX_load_verify_locations := λ c p, z_ctx c (λ _, true) (x_with_ca (Some p));
  SSL_CTX_set_default_verify_paths := λ c, z_ctx c (λ _, true) (x_with_ca None);
  SSL_CTX_set_verify := λ c v w, (z_ctx c (λ _, true) (x_with_verify v) w).2;
  SSL_CTX_free := λ c w, z_put (mk_tls (delete c (t_ctxs (y_extra w))) (t_ssls (y_extra w))) w;
  SSL_new := λ c w,
    let l := z_fresh (t_ssls (y_extra w)) in (Some l, z_put (with_ssl l (mk_ssl c None None false [] []) (y_extra w)) w);
  SSL_set_fd := λ l fd, z_ssl l (l_with_fd fd);
  SSL_set_tlsext_host_name := λ l n, z_ssl l (l_with_name n);
  SSL_accept := λ l, z_ssl l z_shake;
  SSL_connect := λ l, z_ssl l z_shake;
  SSL_get_error := λ l _ w,
    if bool_decide (from_option l_in [] (t_ssls (y_extra w) !! l) = []) then SSL_ERROR_ZERO_RETURN else SSL_ERROR_SSL;
  SSL_write := z_write;
  SSL_read := z_read;
  SSL_shutdown := λ _ w, (1, w);
  SSL_free := λ l w, z_put (mk_tls (t_ctxs (y_extra w)) (delete l (t_ssls (y_extra w)))) w;
|}.

Lemma z_fresh_spec {A} (m : gmap positive A) : m !! z_fresh m = None.
Proof. apply not_elem_of_dom. unfold z_fresh. apply is_fresh. Qed.

Lemma z_ctx_ok c ok f w r w' : z_ctx c ok f w = (r, w') →
  y_view w' = y_view w
  ∧ (r = 1 → ∃ x, t_ctxs (y_extra w) !! c = Some x ∧ y_extra w' = with_ctx c (f x) (y_extra w))
  ∧ (r ≠ 1 → ctx_changed c (y_extra w) (y_extra w')).
Proof.
  unfold z_ctx. destruct (_ !! c) as [x|]; [destruct (ok x)|]; intros [= <- <-].
  - split; [done|]. split; [intros _; by exists x|done].
  - split; [done|]. split; [done|]. intros _. by left.
  - split; [done|]. split; [done|]. intros _. by left.
Qed.

Lemma z_ssl_ok l f w r w' : z_ssl l f w = (r, w') →
  y_view w' = y_view w
  ∧ (r = 1 → ∃ y, t_ssls (y_extra w) !! l = Some y ∧ y_extra w' = with_ssl l (f y) (y_extra w))
  ∧ (r ≠ 1 → ssl_changed l (y_extra w) (y_extra w')).
Proof.
  unfold z_ssl. destruct (_ !! l) as [y|]; intros [= <- <-].
  - split; [done|]. split; [intros _; by exists y|done].
  - split; [done|]. split; [done|]. intros _. by left.
Qed.

#[local] Instance toy_openssl_laws : OpenSSLLaws.
Proof.
  unshelve refine (@Build_OpenSSLLaws _ _ toy_openssl y_extra _ _ _ _ _ _ _ _ _ _ _ _ _ _ _ _ _ _ _).
  - done.
  - done.
  - done.
  - done.
  - intros fd len w. simpl. unfold y_recv, y_on. destruct (y_get fd w); [|done]. by destruct (_ && _).
  - done.
  - intros server w c w' [= <- <-]. split; [done|]. split; [apply z_fresh_spec|done].
  - intros c o w x Hx. simpl in *. unfold z_ctx. by rewrite Hx.
  - intros c o w x Hx. simpl in *. unfold z_ctx. by rewrite Hx.
  - intros c call f w r w' Hcall.
    decompose [or ex and] Hcall; subst; intros E; by apply z_ctx_ok in E.
  - done.
  - intros c w l w' [= <- <-]. split; [done|]. split; [apply z_fresh_spec|by eexists].
  - intros l call f w r w' Hcall. decompose [or ex and] Hcall; subst; intros E; by apply z_ssl_ok in E.
  - intros l shake w r w' Hcall E. assert (z_ssl l z_shake w = (r, w')) as (HV & Hg & Hb)%z_ssl_ok by by destruct Hcall; subst.
    change (undisturbed (y_view w) (y_view w') ∧ (r = 1 → ∃ y i o, t_ssls (y_extra w) !! l = Some y
        ∧ y_extra w' = with_ssl l (mk_ssl (l_ctx y) (l_fd y) (l_name y) true i o) (y_extra w))
      ∧ (r ≠ 1 → ssl_changed l (y_extra w) (y_extra w'))).
    rewrite HV. split; [apply undisturbed_refl|]. split; [|done]. intros (y & Hy & HT)%Hg. by exists y, [72; 105], [].
  - intros l data num w r w'. simpl. unfold z_write. destruct (_ !! l) as [y|] eqn:Hy; [destruct (Z.ltb_spec 0 num)|];
      intros [= <- <-]; (split; [apply undisturbed_refl|]); [right|by left..]. split; [lia|]. by exists y.
  - intros l num w r bytes w'. simpl. unfold z_read. destruct (_ !! l) as [y|] eqn:Hy; [|intros [= <- <- <-]; split; [done|by left]].
    destruct ((0 <? Z.min num (zlen (l_in y))) && bool_decide (Forall is_byte (l_in y))) eqn:Eg; intros [= <- <- <-].
    + apply andb_true_iff in Eg as [Hn%Z.ltb_lt Hby%bool_decide_eq_true_1]. split; [done|right].
      split_and!; [lia|lia|rewrite zlen_take; lia|by apply Forall_take|].
      exists y, (drop (Z.to_nat (Z.min num (zlen (l_in y)))) (l_in y)). split_and!; [done|by rewrite take_drop|done].
    + split; [done|by left].
  - intros l num w r bytes w' _ _ _ _. simpl. by case_bool_decide as Hin; intros [?|[? _]].
  - intros l w. split; [done|by left].
  - done.
Defined.

Definition w_sys : sys := mk_toy_sys (mk_kernel {[ 3 := new_socket ]} 0) ENONE (mk_tls ∅ ∅).
Definition w_file : list Z := [112].

Lemma ak_tcp_posix_spec_witness :
  ∃ L : @SocketLaws posix_sockets,
    (∀ n, @open_sockets posix_sockets L n = dom (k_sockets (kernel_of n.2)))
    ∧ (∀ n fd, @arriving posix_sockets L n (Socket fd) = socket_in fd n.2
         ∧ @delivered posix_sockets L n (Socket fd) = socket_out fd n.2)
    ∧ (∀ n ssl, @arriving posix_sockets L n (Sockets.Tls ssl) = tls_in ssl n.2
         ∧ @delivered posix_sockets L n (Sockets.Tls ssl) = tls_out ssl n.2).
Proof. apply ak_tcp_posix_spec. Defined.

(** A context for a server, and a handshake on a socket; a key that does not match. *)
Lemma ak_tcp_tls_new_spec_witness :
  ∃ c w1 l w2 w3,
    ak_tcp_tls_ctx_new (Some w_file) (Some w_file) None true None 0 None false w_sys = (Some c, None, true, w1)
    ∧ ak_tcp_tls_accept (Some c) 3 None w1 = (Some l, None, w2)
    ∧ ak_tcp_tls_client_ctx_new None (Some w_file) (Some [107]) true None 0 (Some None) true w1
      = (None, Some (Some "Certificate and private key do not match"%str), true, w3)
    ∧ tls_of w1 = with_ctx c (ctx_as_asked true (Some w_file) (Some w_file) None None 0 SSL_VERIFY_PEER_FAIL_IF_NO_PEER_CERT)
        (tls_of w_sys)
    ∧ undisturbed (kernel_of w1) (kernel_of w2) ∧ tls_of w3 = tls_of w1.
Proof.
  do 5 eexists. split; [vm_compute; reflexivity|]. split; [vm_compute; reflexivity|]. split; [vm_compute; reflexivity|].
  split_and!.
  - eapply (proj1 (ak_tcp_tls_new_spec (Some w_file) (Some w_file) None true None 0 None false w_sys (Some _) None true _
      None 0 None None)). vm_compute. reflexivity.
  - eapply (proj1 (proj2 (proj2 (ak_tcp_tls_new_spec None None None true None 0 None false _ None None true _ (Some _) 3 None
      (Some _))))). vm_compute. reflexivity.
  - eapply (proj1 (proj2 (ak_tcp_tls_new_spec (Some w_file) (Some [107]) None true None 0 (Some None) true _ None
      (Some (Some "Certificate and private key do not match"%str)) true _ None 0 None None))). vm_compute. reflexivity.
Defined.
End toy_tls.
