(* ===== verification/Client.v ===== *)
(** The TCP client: [kernel/tcp/src/tcp_client.c].

    This file has the client's record, the functions that make and free it, the
    making of a connection, the critical sections under its mutex, one function
    each, and the calls on its connection; [Reconnecting] has the thread that
    connects again and its interleavings with the program.  The build has TLS. *)

From Stdlib Require String.
From stdpp Require Import gmap.
From S2P Require Import Prelude Lambdas Threads Buffer Lists Maps Contexts Sockets Connections Server.
Import Stdlib.Strings.String.StringSyntax.
#[local] Delimit Scope string_scope with str.

Definition TCP_CLIENT_DEFAULT_RECV_BUF : Z := 4096.
Definition TCP_CLIENT_DEFAULT_SEND_BUF : Z := 4096.
Definition TCP_CLIENT_DEFAULT_RECONNECT_DELAY : Z := 1000.
Definition TCP_CLIENT_DEFAULT_RECONNECT_MAX_DELAY : Z := 30000.
Definition TCP_CLIENT_DEFAULT_KEEPALIVE_IDLE : Z := 60.
Definition TCP_CLIENT_DEFAULT_KEEPALIVE_INTERVAL : Z := 10.
Definition TCP_CLIENT_DEFAULT_KEEPALIVE_COUNT : Z := 5.

(** The bits of the [float] 2.0. *)
Definition TCP_CLIENT_DEFAULT_BACKOFF_MULT : Z := 0x40000000.

Inductive ak_tcp_client_state_t : Type :=
| AK_TCP_CLIENT_DISCONNECTED
| AK_TCP_CLIENT_CONNECTING
| AK_TCP_CLIENT_CONNECTED
| AK_TCP_CLIENT_RECONNECTING.

#[export] Instance client_state_eq_dec : EqDecision ak_tcp_client_state_t.
Proof. solve_decision. Defined.

Definition ak_tcp_client_state_string (state : ak_tcp_client_state_t) : String.string :=
  match state with
  | AK_TCP_CLIENT_DISCONNECTED => "Disconnected"
  | AK_TCP_CLIENT_CONNECTING => "Connecting"
  | AK_TCP_CLIENT_CONNECTED => "Connected"
  | AK_TCP_CLIENT_RECONNECTING => "Reconnecting"
  end%str.

(** [reconnect_backoff_mult] is the bits of a [float]. *)
Record ak_tcp_client_config_t := mk_client_config {
  host : option (list Z);
  port : Z;
  on_connect : option positive;
  on_disconnect : option positive;
  on_data : option positive;
  connect_timeout_ms : Z;
  recv_timeout_ms : Z;
  send_timeout_ms : Z;
  auto_reconnect : bool;
  reconnect_delay_ms : Z;
  reconnect_max_delay_ms : Z;
  reconnect_max_attempts : Z;
  reconnect_backoff_mult : Z;
  enable_keepalive : bool;
  keepalive_idle_sec : Z;
  keepalive_interval_sec : Z;
  keepalive_count : Z;
  enable_nodelay : bool;
  recv_buffer_size : Z;
  send_buffer_size : Z;
  socket_recv_buffer : Z;
  socket_send_buffer : Z;
  use_tls : bool;
  ca_file : option (list Z);
  cert_file : option (list Z);
  key_file : option (list Z);
  verify_server : bool;
  sni_hostname : option (list Z);
  tls_ciphers : option (list Z);
  tls_min_version : Z;
}.

Definition ak_tcp_client_config_default : ak_tcp_client_config_t :=
  mk_client_config None 0 None None None 0 0 0 false TCP_CLIENT_DEFAULT_RECONNECT_DELAY
    TCP_CLIENT_DEFAULT_RECONNECT_MAX_DELAY 0 TCP_CLIENT_DEFAULT_BACKOFF_MULT false TCP_CLIENT_DEFAULT_KEEPALIVE_IDLE
    TCP_CLIENT_DEFAULT_KEEPALIVE_INTERVAL TCP_CLIENT_DEFAULT_KEEPALIVE_COUNT false TCP_CLIENT_DEFAULT_RECV_BUF
    TCP_CLIENT_DEFAULT_SEND_BUF 0 0 false None None None false None None 0.

Record ak_tcp_client_stats_t := mk_client_stats {
  connection_attempts : Z;
  successful_connections : Z;
  total_bytes_sent : Z;
  total_bytes_received : Z;
  reconnect_count : Z;
}.

(** The fields that are copied from the configuration stay together, as the
    configuration with its defaults filled in; [auto_reconnect] and the timeouts
    among them change later.  The connection is apart, in [Reconnecting]. *)
Record ak_tcp_client_internal_t := mk_client {
  settings : ak_tcp_client_config_t;
  state : ak_tcp_client_state_t;
  current_reconnect_delay : Z;
  current_attempt : Z;
  stats : ak_tcp_client_stats_t;
  reconnect_thread_running : bool;
  stop_reconnect : bool;
  ssl_ctx : option positive;
}.

Definition sizeof_ak_tcp_client_t : Z := 8.
Definition sizeof_ak_tcp_client_internal_t : Z := 392.

(** * The delay between attempts *)

(** The [float] nearest to [n * 2 ^ k], for [n] positive and far from underflow: a
    significand of 24 bits and its exponent. *)
Definition float_near (n k : Z) : Z * Z :=
  let drop := Z.log2 n + 1 - 24 in
  if drop <=? 0 then (n, k) else (round_half_even n drop, k + drop).

(** [(uint32_t)x] for the number [n * 2 ^ k], which must be less than [2 ^ 32]. *)
Definition to_uint32 (n k : Z) : outcome Z :=
  let x := if 0 <=? k then n * 2 ^ k else n / 2 ^ (- k) in
  if x <? 2 ^ 32 then Ret x else Undef.

(** [(uint32_t)(delay * mult)], the product in [float]. *)
Definition scale_delay (delay mult : Z) : outcome Z :=
  if exponent_of 23 8 mult =? 255 then Undef else
  let '(d, k) := float_near delay 0 in
  let n := d * significand 23 8 mult in
  let '(n, k) := float_near n (k + Z.max (exponent_of 23 8 mult) 1 - 150) in
  to_uint32 n k.

Definition next_delay (cfg : ak_tcp_client_config_t) (delay : Z) : outcome Z :=
  delay ← scale_delay delay (reconnect_backoff_mult cfg);
  Ret (if reconnect_max_delay_ms cfg <? delay then reconnect_max_delay_ms cfg else delay).

(** * Making and freeing a client *)

(** Whether the [float] is greater than zero. *)
Definition float_positive (x : Z) : bool :=
  (sign_of 23 8 x =? 0) && negb (x =? 0) && negb ((exponent_of 23 8 x =? 255) && negb (fraction_of 23 x =? 0)).

Definition settings_of (cfg : ak_tcp_client_config_t) : ak_tcp_client_config_t :=
  mk_client_config (host cfg) (port cfg) (on_connect cfg) (on_disconnect cfg) (on_data cfg) (connect_timeout_ms cfg)
    (recv_timeout_ms cfg) (send_timeout_ms cfg) (auto_reconnect cfg)
    (if 0 <? reconnect_delay_ms cfg then reconnect_delay_ms cfg else TCP_CLIENT_DEFAULT_RECONNECT_DELAY)
    (if 0 <? reconnect_max_delay_ms cfg then reconnect_max_delay_ms cfg else TCP_CLIENT_DEFAULT_RECONNECT_MAX_DELAY)
    (reconnect_max_attempts cfg)
    (if float_positive (reconnect_backoff_mult cfg) then reconnect_backoff_mult cfg else TCP_CLIENT_DEFAULT_BACKOFF_MULT)
    (enable_keepalive cfg)
    (if 0 <? keepalive_idle_sec cfg then keepalive_idle_sec cfg else TCP_CLIENT_DEFAULT_KEEPALIVE_IDLE)
    (if 0 <? keepalive_interval_sec cfg then keepalive_interval_sec cfg else TCP_CLIENT_DEFAULT_KEEPALIVE_INTERVAL)
    (if 0 <? keepalive_count cfg then keepalive_count cfg else TCP_CLIENT_DEFAULT_KEEPALIVE_COUNT)
    (enable_nodelay cfg)
    (if 0 <? recv_buffer_size cfg then recv_buffer_size cfg else TCP_CLIENT_DEFAULT_RECV_BUF)
    (if 0 <? send_buffer_size cfg then send_buffer_size cfg else TCP_CLIENT_DEFAULT_SEND_BUF)
    (socket_recv_buffer cfg) (socket_send_buffer cfg) false None None None false None None 0.

Definition with_tls (cfg from : ak_tcp_client_config_t) (ca cert key sni ciphers : option (list Z)) : ak_tcp_client_config_t :=
  mk_client_config (host cfg) (port cfg) (on_connect cfg) (on_disconnect cfg) (on_data cfg) (connect_timeout_ms cfg)
    (recv_timeout_ms cfg) (send_timeout_ms cfg) (auto_reconnect cfg) (reconnect_delay_ms cfg) (reconnect_max_delay_ms cfg)
    (reconnect_max_attempts cfg) (reconnect_backoff_mult cfg) (enable_keepalive cfg) (keepalive_idle_sec cfg)
    (keepalive_interval_sec cfg) (keepalive_count cfg) (enable_nodelay cfg) (recv_buffer_size cfg) (send_buffer_size cfg)
    (socket_recv_buffer cfg) (socket_send_buffer cfg) true ca cert key (verify_server from) sni ciphers (tls_min_version from).

Definition client_of (cfg : ak_tcp_client_config_t) (ssl : option positive) : ak_tcp_client_internal_t :=
  mk_client cfg AK_TCP_CLIENT_DISCONNECTED (reconnect_delay_ms cfg) 0 (mk_client_stats 0 0 0 0 0) false false ssl.

Section lifecycle.
Context `{Allocator} `{ClientSockets}.

(** The copy of a string; null for null, and when there is no memory. *)
Definition client_strdup (s : option (list Z)) : M (option (list Z)) :=
  match s with
  | None => mret None
  | Some s => ok ← alloc_obj (zlen s + 1); mret (if ok : bool then Some s else None)
  end.

Definition free_string (s : option (list Z)) : M () :=
  match s with
  | None => mret ()
  | Some _ => free_obj
  end.

Definition client_internal_free (c : ak_tcp_client_internal_t) (ctx : option ak_tcp_ctx_t) (st : Contexts.store)
    (lams : lstore) (n : net) : M (Contexts.store * lstore * net) :=
  '(st, n) ← match ctx with Some _ => ak_tcp_ctx_free st ctx n | None => mret (st, n) end;
  _ ← free_string (host (settings c));
  lams ← ak_lambda_free lams (on_connect (settings c));
  lams ← ak_lambda_free lams (on_disconnect (settings c));
  lams ← ak_lambda_free lams (on_data (settings c));
  let n := match ssl_ctx c with Some sc => ak_tcp_tls_ctx_free sc n | None => n end in
  _ ← free_string (ca_file (settings c));
  _ ← free_string (cert_file (settings c));
  _ ← free_string (key_file (settings c));
  _ ← free_string (sni_hostname (settings c));
  _ ← free_string (tls_ciphers (settings c));
  _ ← free_obj;
  mret (st, lams, n).

Definition ak_tcp_client_new (cfg : option ak_tcp_client_config_t) (st : Contexts.store) (lams : lstore)
    (error : error_ptr) (n : net) : M (option ak_tcp_client_internal_t * lstore * error_ptr * net) :=
  let fail message := mret (None, lams, set_error error message, n) in
  match cfg with
  | None => fail "Configuration is required"%str
  | Some cfg =>
      if match host cfg with Some (_ :: _) => false | _ => true end then fail "Host is required"%str else
      if port cfg =? 0 then fail "Port must be non-zero"%str else
      ok ← alloc_obj sizeof_ak_tcp_client_t;
      if negb ok then fail "Memory allocation failed"%str else
      ok ← alloc_obj sizeof_ak_tcp_client_internal_t;
      if negb ok then _ ← free_obj; fail "Memory allocation failed"%str else
      host_copy ← client_strdup (host cfg);
      match host_copy with
      | None => _ ← free_obj; _ ← free_obj; fail "Memory allocation failed"%str
      | Some _ =>
          let internal := settings_of cfg in
          if negb (use_tls cfg) then mret (Some (client_of internal None), lams, error, n) else
          ca ← client_strdup (ca_file cfg);
          cert ← client_strdup (cert_file cfg);
          key ← client_strdup (key_file cfg);
          sni ← client_strdup (sni_hostname cfg);
          ciphers ← client_strdup (tls_ciphers cfg);
          let internal := with_tls internal cfg ca cert key sni ciphers in
          let '(ssl, error, n) :=
            ak_tcp_tls_client_ctx_new ca cert key (verify_server cfg) ciphers (tls_min_version cfg) error n in
          match ssl with
          | None =>
              '(_, lams, n) ← client_internal_free (client_of internal None) None st lams n;
              _ ← free_obj;
              mret (None, lams, error, n)
          | Some _ => mret (Some (client_of internal ssl), lams, error, n)
          end
      end
  end.

(** [ak_tcp_client_free] once [ak_tcp_client_disconnect] is over. *)
Definition ak_tcp_client_free (client : option ak_tcp_client_internal_t) (ctx : option ak_tcp_ctx_t) (st : Contexts.store)
    (lams : lstore) (n : net) : M (Contexts.store * lstore * net) :=
  match client with
  | None => mret (st, lams, n)
  | Some c => '(st, lams, n) ← client_internal_free c ctx st lams n; _ ← free_obj; mret (st, lams, n)
  end.
End lifecycle.

(** * Connecting *)

Definition with_state (c : ak_tcp_client_internal_t) (s : ak_tcp_client_state_t) : ak_tcp_client_internal_t :=
  mk_client (settings c) s (current_reconnect_delay c) (current_attempt c) (stats c) (reconnect_thread_running c)
    (stop_reconnect c) (ssl_ctx c).

Definition with_thread (c : ak_tcp_client_internal_t) (running stop : bool) : ak_tcp_client_internal_t :=
  mk_client (settings c) (state c) (current_reconnect_delay c) (current_attempt c) (stats c) running stop (ssl_ctx c).

Definition with_attempt (c : ak_tcp_client_internal_t) (delay attempt : Z) (s : ak_tcp_client_stats_t) : ak_tcp_client_internal_t :=
  mk_client (settings c) (state c) delay attempt s (reconnect_thread_running c) (stop_reconnect c) (ssl_ctx c).

Definition with_settings (c : ak_tcp_client_internal_t) (cfg : ak_tcp_client_config_t) : ak_tcp_client_internal_t :=
  mk_client cfg (state c) (current_reconnect_delay c) (current_attempt c) (stats c) (reconnect_thread_running c)
    (stop_reconnect c) (ssl_ctx c).

Definition set_auto (cfg : ak_tcp_client_config_t) (enable : bool) : ak_tcp_client_config_t :=
  mk_client_config (host cfg) (port cfg) (on_connect cfg) (on_disconnect cfg) (on_data cfg) (connect_timeout_ms cfg)
    (recv_timeout_ms cfg) (send_timeout_ms cfg) enable (reconnect_delay_ms cfg) (reconnect_max_delay_ms cfg)
    (reconnect_max_attempts cfg) (reconnect_backoff_mult cfg) (enable_keepalive cfg) (keepalive_idle_sec cfg)
    (keepalive_interval_sec cfg) (keepalive_count cfg) (enable_nodelay cfg) (recv_buffer_size cfg) (send_buffer_size cfg)
    (socket_recv_buffer cfg) (socket_send_buffer cfg) (use_tls cfg) (ca_file cfg) (cert_file cfg) (key_file cfg)
    (verify_server cfg) (sni_hostname cfg) (tls_ciphers cfg) (tls_min_version cfg).

Definition set_timeouts (cfg : ak_tcp_client_config_t) (recv_ms send_ms : Z) : ak_tcp_client_config_t :=
  mk_client_config (host cfg) (port cfg) (on_connect cfg) (on_disconnect cfg) (on_data cfg) (connect_timeout_ms cfg)
    recv_ms send_ms (auto_reconnect cfg) (reconnect_delay_ms cfg) (reconnect_max_delay_ms cfg)
    (reconnect_max_attempts cfg) (reconnect_backoff_mult cfg) (enable_keepalive cfg) (keepalive_idle_sec cfg)
    (keepalive_interval_sec cfg) (keepalive_count cfg) (enable_nodelay cfg) (recv_buffer_size cfg) (send_buffer_size cfg)
    (socket_recv_buffer cfg) (socket_send_buffer cfg) (use_tls cfg) (ca_file cfg) (cert_file cfg) (key_file cfg)
    (verify_server cfg) (sni_hostname cfg) (tls_ciphers cfg) (tls_min_version cfg).

Section connecting.
Context `{Allocator} `{ClientSockets}.

(** What [client_do_connect] has before it takes the mutex. *)
Inductive dialed : Type :=
| Dial_failed (e : ak_tcp_error_t)
| Dialed (x : ak_tcp_ctx_t).

(** The options of the socket before it is connected, and after.  An option that
    fails is logged. *)
Definition options_before (cfg : ak_tcp_client_config_t) (fd : Z) (error : error_ptr) (n : net) : error_ptr * net :=
  let '(_, error, n) := ak_tcp_socket_set_reuseaddr fd true error n in
  let '(_, error, n) :=
    if enable_nodelay cfg then ak_tcp_socket_set_nodelay fd true error n else (0, error, n) in
  let '(_, error, n) :=
    if (0 <? socket_recv_buffer cfg) || (0 <? socket_send_buffer cfg)
    then ak_tcp_socket_set_buffers fd (socket_recv_buffer cfg) (socket_send_buffer cfg) error n
    else (0, error, n) in
  (error, n).

Definition options_after (cfg : ak_tcp_client_config_t) (fd : Z) (error : error_ptr) (n : net) : error_ptr * net :=
  let '(_, error, n) :=
    if (0 <? recv_timeout_ms cfg) || (0 <? send_timeout_ms cfg)
    then ak_tcp_socket_set_timeout fd (recv_timeout_ms cfg) (send_timeout_ms cfg) error n
    else (0, error, n) in
  let '(_, error, n) :=
    if enable_keepalive cfg
    then ak_tcp_socket_set_keepalive fd (keepalive_idle_sec cfg) (keepalive_interval_sec cfg) (keepalive_count cfg) error n
    else (0, error, n) in
  (error, n).

Definition dial (c : ak_tcp_client_internal_t) (st : Contexts.store) (error : error_ptr) (n : net)
    : M (dialed * Contexts.store * error_ptr * net) :=
  let cfg := settings c in
  let '(fd, error, n) := ak_tcp_socket_create_for_addr None error n in
  if fd =? AK_INVALID_SOCKET then mret (Dial_failed AK_TCP_ERR_NETWORK, st, error, n) else
  let '(error, n) := options_before cfg fd error n in
  let '(rc, error, n) := ak_tcp_socket_connect fd (host cfg) (port cfg) (connect_timeout_ms cfg) error n in
  if negb (rc =? 0) then mret (Dial_failed AK_TCP_ERR_NETWORK, st, error, ak_tcp_socket_close fd n) else
  let '(error, n) := options_after cfg fd error n in
  '(ctx, st) ← ak_tcp_ctx_new st fd (host cfg) (port cfg) (recv_buffer_size cfg) (send_buffer_size cfg);
  match ctx with
  | None =>
      mret (Dial_failed AK_TCP_ERR_MEMORY, st, set_error error "Failed to create connection context"%str,
            ak_tcp_socket_close fd n)
  | Some x =>
      let x := with_timeouts x (recv_timeout_ms cfg) (send_timeout_ms cfg) in
      if negb (use_tls cfg) then mret (Dialed x, st, error, n) else
      let sni := match sni_hostname cfg with Some s => Some s | None => host cfg end in
      let '(ssl, error, n) := ak_tcp_tls_connect (ssl_ctx c) fd sni error n in
      match ssl with
      | None =>
          '(st, n) ← ak_tcp_ctx_free st (Some x) n;
          mret (Dial_failed AK_TCP_ERR_TLS_HANDSHAKE, st, error, n)
      | Some l => mret (Dialed (with_ssl x (Some l)), st, error, n)
      end
  end.

(** The end of [client_do_connect], under the mutex: the connection the client had
    is freed. *)
Definition install (c : ak_tcp_client_internal_t) (old : option ak_tcp_ctx_t) (st : Contexts.store) (n : net)
    : M (ak_tcp_client_internal_t * Contexts.store * net) :=
  '(st, n) ← match old with Some _ => ak_tcp_ctx_free st old n | None => mret (st, n) end;
  let s := stats c in
  let s := mk_client_stats (connection_attempts s) (u64 (successful_connections s + 1)) (total_bytes_sent s)
    (total_bytes_received s) (reconnect_count s) in
  mret (with_state (with_attempt c (reconnect_delay_ms (settings c)) 0 s) AK_TCP_CLIENT_CONNECTED, st, n).
End connecting.

(** * Critical sections *)

(** The first section of [ak_tcp_client_connect]. *)
Inductive connect_begun : Type :=
| Already_connected
| In_progress
| Begun (c : ak_tcp_client_internal_t).

Definition one_attempt (s : ak_tcp_client_stats_t) (reconnects : Z) : ak_tcp_client_stats_t :=
  mk_client_stats (u64 (connection_attempts s + 1)) (successful_connections s) (total_bytes_sent s)
    (total_bytes_received s) reconnects.

Definition connect_begin (c : ak_tcp_client_internal_t) : connect_begun :=
  match state c with
  | AK_TCP_CLIENT_CONNECTED => Already_connected
  | AK_TCP_CLIENT_CONNECTING | AK_TCP_CLIENT_RECONNECTING => In_progress
  | AK_TCP_CLIENT_DISCONNECTED =>
      Begun (with_attempt (with_state c AK_TCP_CLIENT_CONNECTING) (current_reconnect_delay c) 1
               (one_attempt (stats c) (reconnect_count (stats c))))
  end.

(** The top of [reconnect_loop]: the thread leaves, gives up, or waits. *)
Inductive loop_top : Type :=
| Leave (c : ak_tcp_client_internal_t)
| Too_many (c : ak_tcp_client_internal_t)
| Wait (delay : Z).

(** [reconnect_thread_running = false] *)
Definition thread_over (c : ak_tcp_client_internal_t) : ak_tcp_client_internal_t := with_thread c false (stop_reconnect c).

Definition reconnect_check (c : ak_tcp_client_internal_t) : loop_top :=
  if stop_reconnect c then Leave (thread_over c) else
  if bool_decide (state c = AK_TCP_CLIENT_CONNECTED) then Leave (thread_over c) else
  if (0 <? reconnect_max_attempts (settings c)) && (reconnect_max_attempts (settings c) <=? current_attempt c)
  then Too_many (thread_over (with_state c AK_TCP_CLIENT_DISCONNECTED))
  else Wait (current_reconnect_delay c).

(** After the wait; none when the thread goes on. *)
Definition reconnect_waited (c : ak_tcp_client_internal_t) : option ak_tcp_client_internal_t :=
  if stop_reconnect c then Some (thread_over c) else None.

Definition count_attempt (c : ak_tcp_client_internal_t) : ak_tcp_client_internal_t :=
  with_attempt (with_state c AK_TCP_CLIENT_RECONNECTING) (current_reconnect_delay c) (u64 (current_attempt c + 1))
    (one_attempt (stats c) (u64 (reconnect_count (stats c) + 1))).

Definition back_off (c : ak_tcp_client_internal_t) : outcome ak_tcp_client_internal_t :=
  delay ← next_delay (settings c) (current_reconnect_delay c);
  Ret (with_attempt c delay (current_attempt c) (stats c)).

(** [start_reconnect_thread]; none when a thread is running. *)
Definition start_reconnect_thread (c : ak_tcp_client_internal_t) : option ak_tcp_client_internal_t :=
  if reconnect_thread_running c then None
  else Some (with_state (with_thread c true false) AK_TCP_CLIENT_RECONNECTING).

(** [stop_reconnect_thread]; none when no thread is running, and otherwise it is
    signalled and joined. *)
Definition stop_reconnect_thread (c : ak_tcp_client_internal_t) : option ak_tcp_client_internal_t :=
  if negb (reconnect_thread_running c) then None else Some (with_thread c true true).

Section sections.
Context `{Allocator} `{ClientSockets}.

(** [ak_tcp_client_disconnect] under the mutex; the state it was in is answered. *)
Definition disconnect_section (c : ak_tcp_client_internal_t) (ctx : option ak_tcp_ctx_t) (st : Contexts.store) (n : net)
    : M (ak_tcp_client_state_t * ak_tcp_client_internal_t * Contexts.store * net) :=
  '(st, n) ← match ctx with
             | Some _ => let '(ctx, n) := ak_tcp_close ctx n in ak_tcp_ctx_free st ctx n
             | None => mret (st, n)
             end;
  mret (state c, with_state (with_settings c (set_auto (settings c) false)) AK_TCP_CLIENT_DISCONNECTED, st, n).
End sections.

(** [ak_tcp_client_set_auto_reconnect] before it stops the thread. *)
Definition set_auto_reconnect (c : ak_tcp_client_internal_t) (enable : bool) : ak_tcp_client_internal_t :=
  with_settings c (set_auto (settings c) enable).

(** * Calls on the connection *)

Definition count_sent (c : ak_tcp_client_internal_t) (bytes : Z) : ak_tcp_client_internal_t :=
  let s := stats c in
  with_attempt c (current_reconnect_delay c) (current_attempt c)
    (mk_client_stats (connection_attempts s) (successful_connections s) (u64 (total_bytes_sent s + bytes))
       (total_bytes_received s) (reconnect_count s)).

Definition count_received (c : ak_tcp_client_internal_t) (bytes : Z) : ak_tcp_client_internal_t :=
  let s := stats c in
  with_attempt c (current_reconnect_delay c) (current_attempt c)
    (mk_client_stats (connection_attempts s) (successful_connections s) (total_bytes_sent s)
       (u64 (total_bytes_received s + bytes)) (reconnect_count s)).

#[export] Instance error_eq_dec : EqDecision ak_tcp_error_t.
Proof. solve_decision. Defined.

Section calls.
Context `{Allocator} `{ClientSockets}.

Definition ak_tcp_client_is_connected (c : ak_tcp_client_internal_t) (ctx : option ak_tcp_ctx_t) (n : net)
    : bool * option ak_tcp_ctx_t * net :=
  if bool_decide (state c = AK_TCP_CLIENT_CONNECTED) && bool_decide (is_Some ctx) then ak_tcp_is_alive ctx n
  else (false, ctx, n).

Definition not_connected (error : error_ptr) : error_ptr := set_error error "Not connected"%str.

Definition ak_tcp_client_send (c : ak_tcp_client_internal_t) (ctx : option ak_tcp_ctx_t) (data : option ak_buffer_t)
    (error : error_ptr) (n : net) : outcome (Z * ak_tcp_client_internal_t * option ak_tcp_ctx_t * error_ptr * net) :=
  match ctx with
  | None => Ret (-1, c, ctx, not_connected error, n)
  | Some _ =>
      '(result, ctx, error, n) ← ak_tcp_send ctx data error n;
      Ret (result, if 0 <? result then count_sent c result else c, ctx, error, n)
  end.

(** Also: whether the connection is lost, so that [on_disconnect] is told and
    [start_reconnect_thread] called. *)
Definition ak_tcp_client_recv (c : ak_tcp_client_internal_t) (ctx : option ak_tcp_ctx_t) (buffer : option ak_buffer_t)
    (max_bytes : Z) (error : error_ptr) (n : net)
    : M (Z * bool * ak_tcp_client_internal_t * option ak_tcp_ctx_t * option ak_buffer_t * error_ptr * net) :=
  match ctx with
  | None => mret (-1, false, c, ctx, buffer, not_connected error, n)
  | Some _ =>
      '(result, ctx, buffer, error, n) ← ak_tcp_recv ctx buffer max_bytes error n;
      let c := if 0 <? result then count_received c result else c in
      let '(lost, ctx, n) :=
        if result =? 0 then (true, ctx, n)
        else if result <? 0 then let '(up, ctx, n) := ak_tcp_is_alive ctx n in (negb up, ctx, n)
        else (false, ctx, n) in
      mret (result, lost && auto_reconnect (settings c), c, ctx, buffer, error, n)
  end.

Definition ak_tcp_client_recv_until (turns : nat) (c : ak_tcp_client_internal_t) (ctx : option ak_tcp_ctx_t)
    (delim : option (list Z)) (max_bytes : Z) (error : error_ptr) (n : net)
    : M (option ak_buffer_t * ak_tcp_client_internal_t * option ak_tcp_ctx_t * error_ptr * net) :=
  match ctx with
  | None => mret (None, c, ctx, not_connected error, n)
  | Some _ =>
      '(result, ctx, error, n) ← ak_tcp_recv_until turns ctx delim max_bytes error n;
      let c := match result with Some b => count_received c (b_count b) | None => c end in
      mret (result, c, ctx, error, n)
  end.

Definition ak_tcp_client_send_ex (c : ak_tcp_client_internal_t) (ctx : option ak_tcp_ctx_t) (data : option ak_buffer_t)
    (bytes_sent : bool) (error : error_ptr) (n : net)
    : outcome (ak_tcp_error_t * Z * ak_tcp_client_internal_t * option ak_tcp_ctx_t * error_ptr * net) :=
  match ctx with
  | None => Ret (AK_TCP_ERR_CLOSED, 0, c, ctx, not_connected error, n)
  | Some _ =>
      '(err, sent, ctx, error, n) ← ak_tcp_send_ex ctx data error n;
      let c := if bool_decide (err = AK_TCP_OK) && bytes_sent && (0 <? sent) then count_sent c sent else c in
      Ret (err, sent, c, ctx, error, n)
  end.

Definition ak_tcp_client_recv_ex (c : ak_tcp_client_internal_t) (ctx : option ak_tcp_ctx_t) (buffer : option ak_buffer_t)
    (max_bytes : Z) (bytes_received : bool) (error : error_ptr) (n : net)
    : M (ak_tcp_error_t * Z * ak_tcp_client_internal_t * option ak_tcp_ctx_t * option ak_buffer_t * error_ptr * net) :=
  match ctx with
  | None => mret (AK_TCP_ERR_CLOSED, 0, c, ctx, buffer, not_connected error, n)
  | Some _ =>
      '(err, received, ctx, buffer, error, n) ← ak_tcp_recv_ex ctx buffer max_bytes error n;
      let c := if bool_decide (err = AK_TCP_OK) && bytes_received && (0 <? received) then count_received c received else c in
      mret (err, received, c, ctx, buffer, error, n)
  end.

Definition ak_tcp_client_recv_until_ex (turns : nat) (c : ak_tcp_client_internal_t) (ctx : option ak_tcp_ctx_t)
    (delim : option (list Z)) (max_bytes : Z) (error : error_ptr) (n : net)
    : M (ak_tcp_error_t * option ak_buffer_t * ak_tcp_client_internal_t * option ak_tcp_ctx_t * error_ptr * net) :=
  match ctx with
  | None => mret (AK_TCP_ERR_CLOSED, None, c, ctx, not_connected error, n)
  | Some _ =>
      '(err, (result, ctx, error, n)) ← ak_tcp_recv_until_ex turns ctx delim max_bytes error n;
      let c := match err, result with AK_TCP_OK, Some b => count_received c (b_count b) | _, _ => c end in
      mret (err, result, c, ctx, error, n)
  end.

Definition ak_tcp_client_set_timeout (c : ak_tcp_client_internal_t) (ctx : option ak_tcp_ctx_t) (recv_ms send_ms : Z) (n : net)
    : ak_tcp_error_t * ak_tcp_client_internal_t * option ak_tcp_ctx_t * net :=
  let c := with_settings c (set_timeouts (settings c) recv_ms send_ms) in
  match ctx with
  | None => (AK_TCP_OK, c, ctx, n)
  | Some _ => let '(err, ctx, n) := ak_tcp_set_timeout ctx recv_ms send_ms n in (err, c, ctx, n)
  end.

Definition ak_tcp_client_get_timeout (c : ak_tcp_client_internal_t) : ak_tcp_error_t * (Z * Z) :=
  (AK_TCP_OK, (recv_timeout_ms (settings c), send_timeout_ms (settings c))).

Definition ak_tcp_client_set_meta (st : Contexts.store) (ctx : option ak_tcp_ctx_t) (key : option cstr) (value : value_t)
    : M Contexts.store :=
  match ctx with
  | None => mret st
  | Some _ => ak_tcp_set_meta st ctx key value
  end.

Definition ak_tcp_client_get_meta (st : Contexts.store) (ctx : option ak_tcp_ctx_t) (key : option cstr) : outcome value_t :=
  match ctx with
  | None => Ret 0
  | Some _ => ak_tcp_get_meta st ctx key
  end.

Definition ak_tcp_client_is_tls (ctx : option ak_tcp_ctx_t) : bool :=
  match ctx with
  | None => false
  | Some _ => ak_tcp_is_tls ctx
  end.

Definition ak_tcp_client_get_stats (c : option ak_tcp_client_internal_t) (out : bool) : Z * option ak_tcp_client_stats_t :=
  match c with
  | None => (-1, None)
  | Some c => if negb out then (-1, None) else (0, Some (stats c))
  end.

Definition ak_tcp_client_state (c : option ak_tcp_client_internal_t) : ak_tcp_client_state_t :=
  match c with
  | None => AK_TCP_CLIENT_DISCONNECTED
  | Some c => state c
  end.

Definition ak_tcp_client_remote_host (c : option ak_tcp_client_internal_t) : option (list Z) :=
  c ← c; host (settings c).

Definition ak_tcp_client_remote_port (c : option ak_tcp_client_internal_t) : Z :=
  match c with
  | None => 0
  | Some c => port (settings c)
  end.
End calls.

(** * Proofs *)

(** ** The delay *)

Lemma float_near_small n k : 0 <= n < 2 ^ 24 → float_near n k = (n, k).
Proof.
  intros Hn. unfold float_near. destruct (Z.leb_spec (Z.log2 n + 1 - 24) 0); [done|].
  assert (Z.log2 n < 24); [|lia]. destruct (Z.eq_dec n 0) as [->|]; [done|]. apply Z.log2_lt_pow2; lia.
Qed.

(** A power of two leaves the significand of a delay as it is. *)
Lemma float_near_shift m j k : 0 < m < 2 ^ 24 → 0 <= j →
  ∃ n' k', float_near (m * 2 ^ j) k = (n', k') ∧ n' * 2 ^ (k' - k) = m * 2 ^ j ∧ 0 <= n' ∧ k <= k' <= k + j.
Proof.
  intros Hm Hj. unfold float_near. pose proof (Z.pow_pos_nonneg 2 j ltac:(lia) Hj).
  assert (Z.log2 (m * 2 ^ j) = Z.log2 m + j) as Hl by (rewrite Z.log2_mul_pow2; lia).
  assert (0 <= Z.log2 m < 24) as Hlm. { split; [apply Z.log2_nonneg|]. apply Z.log2_lt_pow2; lia. }
  rewrite Hl. destruct (Z.leb_spec (Z.log2 m + j + 1 - 24) 0) as [Hd|Hd].
  - exists (m * 2 ^ j), k. rewrite Z.sub_diag, Z.pow_0_r, Z.mul_1_r. split_and!; [done|done|lia|lia|lia].
  - set (d := Z.log2 m + j + 1 - 24) in *. assert (d <= j) by lia.
    exists (m * 2 ^ (j - d)), (k + d).
    assert (m * 2 ^ j = m * 2 ^ (j - d) * 2 ^ d) as Hsplit.
    { rewrite <- Z.mul_assoc, <- Z.pow_add_r by lia. do 2 f_equal. lia. }
    split_and!; [by rewrite Hsplit, round_exact by lia| |apply Z.mul_nonneg_nonneg; [lia|apply Z.pow_nonneg; lia]|lia|lia].
    rewrite Hsplit. f_equal. f_equal. lia.
Qed.

(** With the default factor the delay doubles. *)
Lemma scale_double d : 0 <= d < 2 ^ 24 → scale_delay d TCP_CLIENT_DEFAULT_BACKOFF_MULT = Ret (2 * d).
Proof.
  intros Hd. unfold scale_delay.
  change (exponent_of 23 8 TCP_CLIENT_DEFAULT_BACKOFF_MULT) with 128.
  change (significand 23 8 TCP_CLIENT_DEFAULT_BACKOFF_MULT) with (2 ^ 23).
  change (128 =? 255) with false. cbv iota. rewrite float_near_small by done.
  change (0 + Z.max 128 1 - 150) with (-22).
  destruct (Z.eq_dec d 0) as [->|Hne]; [reflexivity|].
  destruct (float_near_shift d 23 (-22)) as (n & k & -> & Hval & Hn & Hk); [lia|lia|].
  unfold to_uint32. assert ((if 0 <=? k then n * 2 ^ k else n / 2 ^ (- k)) = 2 * d) as ->.
  { replace (k - -22) with (k + 22) in Hval by lia. change (2 ^ 23) with (2 * 2 ^ 22) in Hval.
    destruct (Z.leb_spec 0 k).
    - rewrite Z.pow_add_r in Hval by lia. nia.
    - assert (2 ^ 22 = 2 ^ (k + 22) * 2 ^ (- k)) as Hp by (rewrite <- Z.pow_add_r by lia; f_equal; lia).
      assert (0 < 2 ^ (k + 22)) by (apply Z.pow_pos_nonneg; lia). assert (0 < 2 ^ (- k)) by (apply Z.pow_pos_nonneg; lia).
      rewrite Hp in Hval. assert (n = 2 * d * 2 ^ (- k)) as -> by nia. apply Z.div_mul. lia. }
  destruct (Z.ltb_spec (2 * d) (2 ^ 32)); [done|lia].
Qed.

(** The delay after some attempts have failed. *)
Fixpoint delay_after (cfg : ak_tcp_client_config_t) (failures : nat) : outcome Z :=
  match failures with
  | O => Ret (reconnect_delay_ms cfg)
  | S m => d ← delay_after cfg m; next_delay cfg d
  end.

Lemma delay_after_ok cfg m :
  reconnect_backoff_mult cfg = TCP_CLIENT_DEFAULT_BACKOFF_MULT →
  0 <= reconnect_delay_ms cfg <= reconnect_max_delay_ms cfg → reconnect_max_delay_ms cfg < 2 ^ 24 →
  delay_after cfg m = Ret (Z.min (reconnect_delay_ms cfg * 2 ^ Z.of_nat m) (reconnect_max_delay_ms cfg)).
Proof.
  intros Hm Hd Hmax. induction m as [|m IH]; simpl delay_after.
  - f_equal. change (2 ^ Z.of_nat 0) with 1. lia.
  - rewrite IH. simpl. pose proof (Z.pow_pos_nonneg 2 (Z.of_nat m) ltac:(lia) ltac:(lia)).
    rewrite Nat2Z.inj_succ, Z.pow_succ_r by lia.
    set (p := 2 ^ Z.of_nat m) in *. assert (0 <= reconnect_delay_ms cfg * p) as Hprod by (apply Z.mul_nonneg_nonneg; lia).
    unfold next_delay. rewrite Hm, scale_double by lia. simpl. f_equal.
    replace (reconnect_delay_ms cfg * (2 * p)) with (2 * (reconnect_delay_ms cfg * p)) by ring.
    destruct (Z.ltb_spec (reconnect_max_delay_ms cfg) (2 * Z.min (reconnect_delay_ms cfg * p) (reconnect_max_delay_ms cfg))); lia.
Qed.

(** ** Making a connection *)

Section dialing.
Context `{Allocator} `{ClientSocketLaws}.

Lemma before_open cfg fd e n e' n' : options_before cfg fd e n = (e', n') → open_sockets n' = open_sockets n.
Proof.
  unfold options_before. destruct (ak_tcp_socket_set_reuseaddr _ _ _ _) as [[r1 e1] n1] eqn:E1. apply set_reuseaddr_law in E1.
  destruct (if enable_nodelay cfg then ak_tcp_socket_set_nodelay fd true e1 n1 else (0, e1, n1)) as [[r2 e2] n2] eqn:E2.
  assert (open_sockets n2 = open_sockets n1) as O2.
  { destruct (enable_nodelay cfg); [by apply set_nodelay_law in E2|by injection E2 as _ _ <-]. }
  destruct (if _ || _ then ak_tcp_socket_set_buffers fd _ _ e2 n2 else (0, e2, n2)) as [[r3 e3] n3] eqn:E3.
  assert (open_sockets n3 = open_sockets n2) as O3.
  { destruct (_ || _); [by apply set_buffers_law in E3|by injection E3 as _ _ <-]. }
  intros [= <- <-]. congruence.
Qed.

Lemma after_open cfg fd e n e' n' : options_after cfg fd e n = (e', n') → open_sockets n' = open_sockets n.
Proof.
  unfold options_after.
  destruct (if _ || _ then ak_tcp_socket_set_timeout fd _ _ e n else (0, e, n)) as [[r1 e1] n1] eqn:E1.
  assert (open_sockets n1 = open_sockets n) as O1.
  { destruct (_ || _); [by apply set_timeout_law in E1|by injection E1 as _ _ <-]. }
  destruct (if enable_keepalive cfg then ak_tcp_socket_set_keepalive fd _ _ _ e1 n1 else (0, e1, n1)) as [[r2 e2] n2] eqn:E2.
  assert (open_sockets n2 = open_sockets n1) as O2.
  { destruct (enable_keepalive cfg); [by apply set_keepalive_law in E2|by injection E2 as _ _ <-]. }
  intros [= <- <-]. congruence.
Qed.

(** What [client_do_connect] has before it takes the mutex. *)
Definition dial_result (cfg : ak_tcp_client_config_t) (st : Contexts.store) (n : net) (s : mem) (r : dialed) (st' : Contexts.store)
    (n' : net) (s' : mem) : Prop :=
  match r with
  | Dial_failed e => (e = AK_TCP_ERR_NETWORK ∨ e = AK_TCP_ERR_MEMORY ∨ (e = AK_TCP_ERR_TLS_HANDSHAKE ∧ use_tls cfg = true))
      ∧ open_sockets n' = open_sockets n ∧ objects st' = objects st ∧ m_live s' = m_live s
  | Dialed x => (socket_fd x ∉ open_sockets n) ∧ open_sockets n' = {[ socket_fd x ]} ∪ open_sockets n
      ∧ socket_fd x ≠ AK_INVALID_SOCKET
      ∧ st' = with_context st ∧ conn_ok st' n' x (next_addr st) new_context []
      ∧ remote_ip x = take 45 (from_option id [] (host cfg)) ∧ remote_port x = port cfg ∧ alive x = true
      ∧ (is_Some (ssl x) ↔ use_tls cfg = true) ∧ balance (conn_blocks new_context) false s s'
  end.

Lemma dial_ok c st error n s :
  store_wf st → recv_buffer_size (settings c) < 2 ^ 60 → send_buffer_size (settings c) < 2 ^ 60 →
  wp (dial c st error n) (λ '(r, st', _, n') s', store_wf st' ∧ dial_result (settings c) st n s r st' n' s') s.
Proof.
  intros Hwf Hrs Hss. unfold dial. set (cfg := settings c) in *.
  destruct (ak_tcp_socket_create_for_addr None error n) as [[fd e1] n1] eqn:E1. apply create_law in E1.
  destruct (Z.eqb_spec fd AK_INVALID_SOCKET) as [->|Hfd].
  { wsteps. split; [done|]. split_and!; [by left| |done|done]. destruct E1 as [[_ ?]|(? & _)]; [done|]. by unfold AK_INVALID_SOCKET in *. }
  destruct E1 as [[? _]|(Hpos & Hnew & Ho1)]; [done|].
  destruct (options_before cfg fd e1 n1) as [e2 n2] eqn:E2. apply before_open in E2.
  destruct (ak_tcp_socket_connect _ _ _ _ _ _) as [[rc e3] n3] eqn:E3. apply connect_law in E3.
  assert (∀ n0, open_sockets n0 = open_sockets n1 → open_sockets (ak_tcp_socket_close fd n0) = open_sockets n) as Hclose.
  { intros n0 Hn0. rewrite close_law. apply (open_close_open _ n); [done|congruence]. }
  destruct (Z.eqb_spec rc 0); cbn [negb].
  2:{ wsteps. split; [done|]. split_and!; [by left|apply Hclose; congruence|done|done]. }
  destruct (options_after cfg fd e3 n3) as [e4 n4] eqn:E4. apply after_open in E4.
  assert (open_sockets n4 = open_sockets n1) as Ho4 by congruence.
  wsteps. eapply wp_mono; [apply (ctx_new_ok st n4); [done| |done|done]|].
  { rewrite Ho4, Ho1, elem_of_union, elem_of_singleton. by left. }
  intros [oc st1] s1 [Hwf1 [(-> & -> & HB)|(x & -> & -> & HB & Hok & Hx & Hport & Hip & Hal & Hdet & Hssl & Hbuf)]]; wsteps.
  { split; [done|]. split_and!; [by right; left|by apply Hclose|done|]. by destruct HB as [HL _]; lia. }
  assert (remote_ip x = take 45 (from_option id [] (host cfg))) as Hip2 by (rewrite Hip; by destruct (host cfg)).
  assert (∀ n5 l, open_sockets n5 = open_sockets n1 → (is_Some l ↔ use_tls cfg = true) →
    dial_result cfg st n s (Dialed (with_ssl (with_timeouts x (recv_timeout_ms cfg) (send_timeout_ms cfg)) l)) (with_context st) n5 s1)
    as Hgood.
  { intros n5 l Hn5 Hl. simpl. rewrite Hx. split_and!; try done; [congruence|].
    destruct Hok as [R W M O L F P S]. split; try done. simpl. rewrite Hn5, <- Ho4. done. }
  destruct (use_tls cfg) eqn:Etls; cbn [negb].
  2:{ wsteps. split; [done|]. assert (with_timeouts x (recv_timeout_ms cfg) (send_timeout_ms cfg)
        = with_ssl (with_timeouts x (recv_timeout_ms cfg) (send_timeout_ms cfg)) None) as -> by (destruct x; simpl in *; by subst).
      apply Hgood; [done|]. split; [by intros []|done]. }
  destruct (ak_tcp_tls_connect _ _ _ _ _) as [[l e5] n5] eqn:E5. apply tls_connect_law in E5.
  destruct l as [l|]; wsteps.
  { split; [done|]. apply Hgood; [congruence|]. split; [done|by eexists]. }
  eapply wp_mono; [apply (ctx_free_ok _ _ _ (next_addr st) new_context []); [done|]|].
  { destruct Hok as [R W M O L F P S]. split; try done. simpl. rewrite E5. done. }
  intros [st2 n6] s2 (Hwf2 & -> & Ho6 & HB2). wsteps. split; [done|]. split_and!.
  - right. right. done.
  - rewrite Ho6. simpl. rewrite Hx. apply (open_close_open _ n); [done|congruence].
  - simpl. apply delete_insert_id. destruct (objects st !! next_addr st) eqn:E; [|done].
    by rewrite (fresh_addr st Hwf) in E.
  - destruct HB as [HL _], HB2 as [HL2 _]. lia.
Qed.
End dialing.

(** ** Making and freeing a client *)

Section making.
Context `{Allocator} `{ClientSocketLaws}.

Definition client_lambdas (cfg : ak_tcp_client_config_t) : list positive :=
  lambdas_of [on_connect cfg; on_disconnect cfg; on_data cfg].

(** The blocks of a client, without its connection. *)
Definition client_blocks (cfg : ak_tcp_client_config_t) : Z :=
  2 + addr_blocks (host cfg) + addr_blocks (ca_file cfg) + addr_blocks (cert_file cfg) + addr_blocks (key_file cfg)
  + addr_blocks (sni_hostname cfg) + addr_blocks (tls_ciphers cfg).

Lemma strdup_ok x s :
  wp (client_strdup x) (λ r s', m_live s' = m_live s + addr_blocks r
    ∧ ((r = x ∧ m_fails s' = m_fails s) ∨ (r = None ∧ (m_fails s < m_fails s')%nat))) s.
Proof.
  unfold client_strdup. destruct x as [x|]; [|wsteps; split; [simpl; lia|by left]].
  wsteps. apply wp_alloc_obj. intros [|] s1 [HL HF]; wsteps; simpl; (split; [lia|]); [left|right]; (split; [done|lia]).
Qed.

Lemma free_string_ok x s : wp (free_string x) (λ _ s', m_live s' = m_live s - addr_blocks x) s.
Proof.
  destruct x as [x|]; simpl; [apply wp_free_obj; intros s1 HL _; lia|]. wsteps. lia.
Qed.

Lemma internal_free_ok c st lams n s :
  NoDup (client_lambdas (settings c)) → Forall (λ l, is_Some (lambdas lams !! l)) (client_lambdas (settings c)) →
  wp (client_internal_free c None st lams n) (λ '(st', lams', n') s', st' = st ∧ open_sockets n' = open_sockets n
    ∧ m_live s' = m_live s + 1 - client_blocks (settings c) - zlen (client_lambdas (settings c))
    ∧ (∀ l, l ∈ client_lambdas (settings c) → lambdas lams' !! l = None)
    ∧ (∀ l, l ∉ client_lambdas (settings c) → lambdas lams' !! l = lambdas lams !! l)) s.
Proof.
  intros Hnd Hl. unfold client_internal_free. apply wp_bind, wp_ret. apply wp_bind.
  eapply wp_mono; [apply free_string_ok|]. intros ? s1 HL1. cbv beta in HL1. apply three_frees_ok; [done|done|].
  intros lams' s2 HL2 Hgone Hkept. set (n1 := match ssl_ctx c with Some _ => _ | None => n end).
  assert (open_sockets n1 = open_sockets n) as Hn1 by (unfold n1; destruct (ssl_ctx c); [apply tls_ctx_free_law|done]).
  clearbody n1. cbv zeta.
  do 5 (apply wp_bind; eapply wp_mono; [apply free_string_ok|]; intros ? ? ?; cbv beta in *).
  apply wp_bind, wp_free_obj. intros s8 HL8 _. wsteps. unfold client_lambdas, client_blocks in *.
  split_and!; [done|done|lia|done|done].
Qed.

(** What [ak_tcp_client_new] answers.  The lambdas are the caller's when it fails,
    but for the one failure at which they are freed. *)
Definition client_made (cfg : option ak_tcp_client_config_t) (lams : lstore) (n : net) (s : mem)
    (r : option ak_tcp_client_internal_t) (lams' : lstore) (n' : net) (s' : mem) : Prop :=
  open_sockets n' = open_sockets n ∧ match r with
  | Some c => lams' = lams ∧ ∃ cfg', cfg = Some cfg' ∧ host cfg' ≠ None ∧ host cfg' ≠ Some [] ∧ port cfg' ≠ 0
      ∧ (is_Some (ssl_ctx c) ↔ use_tls cfg' = true)
      ∧ (∃ ca cert key sni ciphers, let cfg0 := settings_of cfg' in
           c = client_of (if use_tls cfg' then with_tls cfg0 cfg' ca cert key sni ciphers else cfg0) (ssl_ctx c)
           ∧ (m_fails s' = m_fails s → use_tls cfg' = true → ca = ca_file cfg' ∧ cert = cert_file cfg' ∧ key = key_file cfg'
                ∧ sni = sni_hostname cfg' ∧ ciphers = tls_ciphers cfg'))
      ∧ m_live s' = m_live s + client_blocks (settings c)
  | None => (lams' = lams ∧ m_live s' = m_live s)
      ∨ ∃ cfg', cfg = Some cfg' ∧ use_tls cfg' = true
          ∧ m_live s' = m_live s - zlen (client_lambdas cfg') ∧ ∀ l, l ∈ client_lambdas cfg' → lambdas lams' !! l = None
  end.

Lemma client_new_ok cfg st lams error n s :
  (∀ c, cfg = Some c → NoDup (client_lambdas c) ∧ Forall (λ l, is_Some (lambdas lams !! l)) (client_lambdas c)) →
  wp (ak_tcp_client_new cfg st lams error n) (λ '(r, lams', _, n') s', client_made cfg lams n s r lams' n' s') s.
Proof.
  intros Hlams. unfold ak_tcp_client_new. destruct cfg as [cfg|]; [|wsteps; split; [done|by left]].
  destruct (Hlams cfg eq_refl) as [Hnd Hlive]. clear Hlams.
  destruct (host cfg) as [[|h hs]|] eqn:Hh; [wsteps; split; [done|by left]| |wsteps; split; [done|by left]].
  destruct (Z.eqb_spec (port cfg) 0) as [|Hp]; [wsteps; split; [done|by left]|]. wsteps.
  apply wp_alloc_obj. intros [|] s1 [HL1 HF1]; cbn [negb]; wsteps; [|split; [done|left; split; [done|lia]]].
  apply wp_alloc_obj. intros [|] s2 [HL2 HF2]; cbn [negb]; wsteps.
  2:{ apply wp_free_obj. intros s3 HL3 _. wsteps. split; [done|left; split; [done|lia]]. }
  eapply wp_mono; [apply strdup_ok|]. intros hc s3 (HL3 & Hhc). destruct hc as [hc|]; wsteps.
  2:{ simpl in HL3. apply wp_free_obj. intros s4 HL4 _. wsteps. apply wp_free_obj. intros s5 HL5 _. wsteps.
      split; [done|left; split; [done|lia]]. }
  destruct Hhc as [[[= ->] HF3]|[? _]]; [|done]. simpl in HL3.
  assert (client_blocks (settings_of cfg) = 3) as Hb0 by (unfold client_blocks, settings_of; simpl; by rewrite Hh).
  destruct (use_tls cfg) eqn:Etls; cbn [negb].
  2:{ wsteps. split; [done|]. split; [done|]. exists cfg. split_and!; try done; [by rewrite Hh|by rewrite Hh|by rewrite Etls; split; [intros []|]| |].
      - exists None, None, None, None, None. rewrite Etls. done.
      - simpl. lia. }
  apply wp_bind. eapply wp_mono; [apply strdup_ok|]. intros ca s4 (HL4 & HF4). cbv zeta.
  apply wp_bind. eapply wp_mono; [apply strdup_ok|]. intros cert s5 (HL5 & HF5). cbv zeta.
  apply wp_bind. eapply wp_mono; [apply strdup_ok|]. intros key s6 (HL6 & HF6). cbv zeta.
  apply wp_bind. eapply wp_mono; [apply strdup_ok|]. intros sni s7 (HL7 & HF7). cbv zeta.
  apply wp_bind. eapply wp_mono; [apply strdup_ok|]. intros ciphers s8 (HL8 & HF8). cbv zeta.
  destruct (ak_tcp_tls_client_ctx_new _ _ _ _ _ _ _ _) as [[ssl e'] n'] eqn:Essl. apply tls_client_ctx_law in Essl.
  set (cfg1 := with_tls (settings_of cfg) cfg ca cert key sni ciphers).
  assert (client_blocks cfg1 = 3 + addr_blocks ca + addr_blocks cert + addr_blocks key + addr_blocks sni + addr_blocks ciphers) as Hb1
    by (unfold client_blocks, cfg1; simpl; rewrite Hh; simpl; lia).
  destruct ssl as [ssl|]; wsteps.
  - split; [done|]. split; [done|]. exists cfg.
    split_and!; [done|by rewrite Hh|by rewrite Hh|done|by rewrite Etls| |simpl; lia].
    exists ca, cert, key, sni, ciphers. rewrite Etls. split; [done|]. intros HF _.
    destruct HF4 as [[-> HF4]|[_ HF4]], HF5 as [[-> HF5]|[_ HF5]], HF6 as [[-> HF6]|[_ HF6]], HF7 as [[-> HF7]|[_ HF7]],
      HF8 as [[-> HF8]|[_ HF8]]; try lia. done.
  - eapply wp_mono; [apply internal_free_ok; [done|done]|]. intros [[? lams'] n2] s9 (-> & Ho & HL9 & Hgone & _). wsteps.
    apply wp_free_obj. intros s10 HL10 _. wsteps. split; [congruence|]. right. exists cfg. split_and!; [done|done| |done].
    simpl in HL9. change (client_lambdas cfg1) with (client_lambdas cfg) in HL9. lia.
Qed.

(** A client that is disconnected is freed with what it has. *)
Lemma client_free_ok c st lams n s :
  NoDup (client_lambdas (settings c)) → Forall (λ l, is_Some (lambdas lams !! l)) (client_lambdas (settings c)) →
  wp (ak_tcp_client_free (Some c) None st lams n) (λ '(st', lams', n') s', st' = st ∧ open_sockets n' = open_sockets n
    ∧ m_live s' = m_live s - client_blocks (settings c) - zlen (client_lambdas (settings c))
    ∧ (∀ l, l ∈ client_lambdas (settings c) → lambdas lams' !! l = None)
    ∧ (∀ l, l ∉ client_lambdas (settings c) → lambdas lams' !! l = lambdas lams !! l)) s.
Proof.
  intros Hnd Hl. unfold ak_tcp_client_free. wsteps. eapply wp_mono; [by apply internal_free_ok|].
  intros [[st' lams'] n'] s1 (-> & Ho & HL & Hgone & Hkept). wsteps. apply wp_free_obj. intros s2 HL2 _. wsteps.
  split_and!; [done|done|lia|done|done].
Qed.
End making.

(** From 2^31 on the product does not fit. *)
Lemma scale_large d : 2 ^ 31 <= d < 2 ^ 32 → scale_delay d TCP_CLIENT_DEFAULT_BACKOFF_MULT = Undef.
Proof.
  intros Hd. unfold scale_delay.
  change (exponent_of 23 8 TCP_CLIENT_DEFAULT_BACKOFF_MULT) with 128.
  change (significand 23 8 TCP_CLIENT_DEFAULT_BACKOFF_MULT) with (2 ^ 23).
  change (128 =? 255) with false. cbv iota.
  assert (Z.log2 d = 31) as Hl by (apply Z.log2_unique; lia).
  unfold float_near at 1. rewrite Hl. change (31 + 1 - 24 <=? 0) with false. cbv iota. change (31 + 1 - 24) with 8.
  set (q := round_half_even d 8). assert (2 ^ 23 <= q <= 2 ^ 24) as Hq.
  { unfold q, round_half_even. change (8 <=? 0) with false. cbv iota zeta. change (2 ^ 8) with 256.
    pose proof (Z.div_mod d 256 ltac:(lia)). pose proof (Z.mod_pos_bound d 256 ltac:(lia)).
    destruct (_ || _); lia. }
  clearbody q. change (0 + 8 + Z.max 128 1 - 150) with (-14).
  assert (∃ m j, 0 < m < 2 ^ 24 ∧ 0 <= j <= 47 ∧ q * 2 ^ 23 = m * 2 ^ j) as (m & j & Hm & Hj & Heq).
  { destruct (Z.eq_dec q (2 ^ 24)) as [->|Hne]; [exists 1, 47|exists q, 23]; lia. }
  rewrite Heq. destruct (float_near_shift m j (-14)) as (n & k & -> & Hval & Hn & Hk); [lia|lia|].
  unfold to_uint32. replace (k - -14) with (k + 14) in Hval by lia. rewrite <- Heq in Hval.
  change (2 ^ 23) with (512 * 2 ^ 14) in Hval.
  assert (2 ^ 32 <= (if 0 <=? k then n * 2 ^ k else n / 2 ^ (- k))) as Hbig.
  { destruct (Z.leb_spec 0 k).
    - rewrite Z.pow_add_r in Hval by lia. assert (n * 2 ^ k = q * 512) as -> by nia. lia.
    - assert (2 ^ 14 = 2 ^ (k + 14) * 2 ^ (- k)) as Hp by (rewrite <- Z.pow_add_r by lia; f_equal; lia).
      assert (0 < 2 ^ (k + 14)) by (apply Z.pow_pos_nonneg; lia). assert (0 < 2 ^ (- k)) by (apply Z.pow_pos_nonneg; lia).
      rewrite Hp in Hval. assert (n = q * 512 * 2 ^ (- k)) as -> by nia. rewrite Z.div_mul by lia. lia. }
  destruct (Z.ltb_spec (if 0 <=? k then n * 2 ^ k else n / 2 ^ (- k)) (2 ^ 32)); [lia|done].
Qed.

(** * Properties *)

Section client_properties.
Context `{Allocator} `{ClientSocketLaws}.

(** What [client_do_connect] has when it takes the mutex.  Either a connection on
    a new socket, the only one that was opened, with its own user data, to the host
    and the port of the client, and with TLS exactly when the client uses it; or an
    error, and then every socket, block and user data is as before: the socket is
    closed whichever step failed. *)
Theorem ak_tcp_client_dial_spec c st error n s :
  store_wf st → recv_buffer_size (settings c) < 2 ^ 60 → send_buffer_size (settings c) < 2 ^ 60 →
  wp (dial c st error n) (λ '(r, st', _, n') s', store_wf st' ∧ dial_result (settings c) st n s r st' n' s') s.
Proof. apply dial_ok. Qed.

(** C19: Making and freeing a client.  [ak_tcp_client_new] answers a disconnected
    client with the settings of its configuration and their defaults, and its own
    copies of the strings: a copy of a TLS file for which there is no memory is null,
    as if the file had not been given.  When it fails no block is kept and the lambdas
    stay with the caller, except when the TLS context cannot be made: then they have
    been freed.  [ak_tcp_client_free] gives back the blocks, strings and lambdas of a
    disconnected client and touches no other lambda. *)
Theorem ak_tcp_client_lifetime_spec cfg st lams error n s :
  (∀ c, cfg = Some c → NoDup (client_lambdas c) ∧ Forall (λ l, is_Some (lambdas lams !! l)) (client_lambdas c)) →
  wp (ak_tcp_client_new cfg st lams error n) (λ '(r, lams', _, n') s',
    client_made cfg lams n s r lams' n' s'
    ∧ ∀ c, r = Some c → state c = AK_TCP_CLIENT_DISCONNECTED ∧ reconnect_thread_running c = false ∧
        wp (ak_tcp_client_free (Some c) None st lams' n') (λ '(st', lams2, n2) s2, st' = st
          ∧ open_sockets n2 = open_sockets n ∧ m_live s2 = m_live s - zlen (client_lambdas (settings c))
          ∧ ∀ l, lambdas lams2 !! l = if bool_decide (l ∈ client_lambdas (settings c)) then None else lambdas lams !! l) s') s.
Proof.
  intros Hl. eapply wp_mono; [by apply client_new_ok|]. intros [[[r lams'] e'] n'] s' Hmade. split; [done|].
  intros c ->. destruct Hmade as (Ho & -> & cfg' & -> & _ & _ & _ & _ & (ca & cert & key & sni & ciphers & Hc & _) & HL).
  destruct (Hl cfg' eq_refl) as [Hnd Hlive].
  assert (client_lambdas (settings c) = client_lambdas cfg') as Hsame by (rewrite Hc; by destruct (use_tls cfg')).
  split; [by rewrite Hc|]. split; [by rewrite Hc|].
  eapply wp_mono; [apply client_free_ok; by rewrite Hsame|]. intros [[st2 lams2] n2] s2 (-> & Ho2 & HL2 & Hgone & Hkept).
  split_and!; [done|congruence|lia|]. intros l. case_bool_decide; auto.
Qed.
End client_properties.

(** C20: The delay between attempts to reconnect, for the default factor of 2.0.  When
    the first delay is at most the limit and the limit is below 2^24 milliseconds, the
    delay doubles with each failed attempt, exactly although it is computed with
    [float]s, up to the limit.  With any settings the first delay is the one of the
    configuration, which the code does not compare with the limit, and those computed
    after it are at most the limit.  With the default factor a delay of 2^31
    milliseconds or more, which the limit may allow, makes the conversion of the next
    one undefined. *)
Theorem ak_tcp_client_backoff_spec cfg :
  reconnect_backoff_mult cfg = TCP_CLIENT_DEFAULT_BACKOFF_MULT →
  (0 <= reconnect_delay_ms cfg <= reconnect_max_delay_ms cfg → reconnect_max_delay_ms cfg < 2 ^ 24 →
     ∀ m, delay_after cfg m = Ret (Z.min (reconnect_delay_ms cfg * 2 ^ Z.of_nat m) (reconnect_max_delay_ms cfg)))
  ∧ (∀ cfg' d d', next_delay cfg' d = Ret d' → d' <= reconnect_max_delay_ms cfg')
  ∧ (∀ cfg', delay_after cfg' 0 = Ret (reconnect_delay_ms cfg')
       ∧ ∀ m d, delay_after cfg' (S m) = Ret d → d <= reconnect_max_delay_ms cfg')
  ∧ (∀ d, 2 ^ 31 <= d < 2 ^ 32 → next_delay cfg d = Undef).
Proof.
  intros Hm. assert (∀ cfg' d d', next_delay cfg' d = Ret d' → d' <= reconnect_max_delay_ms cfg') as Hle.
  { intros cfg' d d'. unfold next_delay. destruct (scale_delay _ _) as [x| |]; try done. intros [= <-].
    destruct (Z.ltb_spec (reconnect_max_delay_ms cfg') x); lia. }
  split_and!.
  - intros Hd Hmax m. by apply delay_after_ok.
  - done.
  - intros cfg'. split; [done|]. intros m d. simpl. destruct (delay_after cfg' m) as [x| |]; try done. apply Hle.
  - intros d Hd. unfold next_delay. by rewrite Hm, scale_large.
Qed.

(** * Witnesses *)

Section client_witnesses.
#[local] Existing Instances always_alloc toy_sockets toy_laws toy_client_sockets toy_client_laws.

Definition w_client_config : ak_tcp_client_config_t :=
  settings_of (mk_client_config (Some (bytes_of "localhost"%str)) 80 (Some 1%positive) None None 0 0 0 true 0 0 3 0 false 0 0 0 true
    0 0 0 0 false None None None false None None 0).
Definition w_client_net : @net toy_sockets := mk_toy (bytes_of "hi"%str) [] [7] [bytes_of "1.2.3.4"%str].
Definition w_client_lams : lstore := mk_lstore {[ 1%positive := mk_lambda 9 0 0 ]} 2 [].

Lemma ak_tcp_client_dial_spec_witness :
  wp (dial (client_of w_client_config None) w_contexts (Some None) w_client_net) (λ '(r, st', _, n') s',
    store_wf st' ∧ dial_result w_client_config w_contexts w_client_net mem0 r st' n' s') mem0
  ∧ wp (dial (client_of w_client_config None) w_contexts (Some None) w_client_net) (λ '(r, _, _, _) _, 
      match r with Dialed x => socket_fd x = 8 | _ => False end) mem0.
Proof.
  split; [|vm_compute; reflexivity].
  apply (ak_tcp_client_dial_spec (client_of w_client_config None) w_contexts (Some None) w_client_net mem0);
    [|vm_compute; reflexivity|vm_compute; reflexivity].
  intros p c Hp. simpl in Hp. by rewrite lookup_empty in Hp.
Defined.

Lemma ak_tcp_client_lifetime_spec_witness :
  wp (ak_tcp_client_new (Some w_client_config) w_contexts w_client_lams (Some None) w_client_net) (λ '(r, lams', _, n') s',
    client_made (Some w_client_config) w_client_lams w_client_net mem0 r lams' n' s'
    ∧ ∀ c, r = Some c → state c = AK_TCP_CLIENT_DISCONNECTED ∧ reconnect_thread_running c = false ∧
        wp (ak_tcp_client_free (Some c) None w_contexts lams' n') (λ '(st', lams2, n2) s2, st' = w_contexts
          ∧ open_sockets n2 = open_sockets w_client_net ∧ m_live s2 = m_live mem0 - zlen (client_lambdas (settings c))
          ∧ ∀ l, lambdas lams2 !! l = if bool_decide (l ∈ client_lambdas (settings c)) then None else lambdas w_client_lams !! l) s')
    mem0.
Proof.
  apply (ak_tcp_client_lifetime_spec (Some w_client_config) w_contexts w_client_lams (Some None) w_client_net mem0).
  intros c [= <-]. split; [apply NoDup_singleton|]. apply Forall_cons; [by eexists|constructor].
Defined.

Lemma ak_tcp_client_backoff_spec_witness :
  delay_after w_client_config 3 = Ret 8000
  ∧ delay_after w_client_config 7 = Ret (Z.min (reconnect_delay_ms w_client_config * 2 ^ Z.of_nat 7) (reconnect_max_delay_ms w_client_config)).
Proof.
  split; [vm_compute; reflexivity|].
  refine (proj1 (ak_tcp_client_backoff_spec w_client_config eq_refl) _ _ 7%nat); vm_compute; [by split|reflexivity].
Defined.
End client_witnesses.
