(* ===== verification/Reconnecting.v ===== *)
(** The thread of a client that connects again: [reconnect_loop] of
    [kernel/tcp/src/tcp_client.c], and its interleavings with the program.

    The program makes its calls one after the other; the thread and the program share
    the record of [Client] and its connection.  A critical section is one step of
    [client_step], as is what either does between two of them on what only it holds.
    The connection has a number that no other one of the client had, so that a
    pointer to a connection that was freed is known.  A thread that gave up still
    calls [on_disconnect] when another one may have been started. *)

From Stdlib Require String.
From stdpp Require Import gmap relations.
From S2P Require Import Prelude Lambdas Threads Buffer Lists Maps Contexts Sockets Connections Server Serving Client.
Import Stdlib.Strings.String.StringSyntax.
#[local] Delimit Scope string_scope with str.

(** * Calls on the connection of a client *)

Section client_calls.
Context `{Allocator} `{ClientSockets}.

(** The client, the contexts, the network and the connection. *)
Definition call_state : Type := ak_tcp_client_internal_t * Contexts.store * net * ak_tcp_ctx_t.

(** A call that returns; true when it finds the connection lost and is about to call
    [start_reconnect_thread]. *)
Inductive client_call : call_state → bool → call_state → Prop :=
| cc_send c st n x data e r c' e' n' x' :
    ak_tcp_client_send c (Some x) data e n = Ret (r, c', Some x', e', n') → client_call (c, st, n, x) false (c', st, n', x')
| cc_recv c st n x buffer max_bytes e m r lost c' buffer' e' n' x' m' :
    0 <= max_bytes →
    ak_tcp_client_recv c (Some x) buffer max_bytes e n m = Ret (r, lost, c', Some x', buffer', e', n', m') →
    client_call (c, st, n, x) lost (c', st, n', x')
| cc_recv_until c st n x turns delim max_bytes e m buf c' e' n' x' m' :
    ak_tcp_client_recv_until turns c (Some x) delim max_bytes e n m = Ret (buf, c', Some x', e', n', m') →
    client_call (c, st, n, x) false (c', st, n', x')
| cc_send_ex c st n x data want e err r c' e' n' x' :
    ak_tcp_client_send_ex c (Some x) data want e n = Ret (err, r, c', Some x', e', n') →
    client_call (c, st, n, x) false (c', st, n', x')
| cc_recv_ex c st n x buffer max_bytes want e m err r c' buffer' e' n' x' m' :
    0 <= max_bytes →
    ak_tcp_client_recv_ex c (Some x) buffer max_bytes want e n m = Ret (err, r, c', Some x', buffer', e', n', m') →
    client_call (c, st, n, x) false (c', st, n', x')
| cc_recv_until_ex c st n x turns delim max_bytes e m err buf c' e' n' x' m' :
    ak_tcp_client_recv_until_ex turns c (Some x) delim max_bytes e n m = Ret (err, buf, c', Some x', e', n', m') →
    client_call (c, st, n, x) false (c', st, n', x')
| cc_set_timeout c st n x a b err c' n' x' :
    ak_tcp_client_set_timeout c (Some x) a b n = (err, c', Some x', n') → client_call (c, st, n, x) false (c', st, n', x')
| cc_is_connected c st n x up n' x' :
    ak_tcp_client_is_connected c (Some x) n = (up, Some x', n') → client_call (c, st, n, x) false (c, st, n', x')
| cc_context c st n x st' n' x' :
    conn_op (st, n, x) (st', n', x') → client_call (c, st, n, x) false (c, st', n', x').
End client_calls.

(** * Steps *)

Section reconnecting.
Context `{Allocator} `{ClientSockets}.

(** Where [reconnect_loop] is. *)
Inductive reconnector : Type :=
| R_none                      (* there is no thread, or it has ended *)
| R_top
| R_wait                      (* about to wait *)
| R_waiting                   (* in [AK24_COND_TIMEDWAIT] *)
| R_waited
| R_attempt                   (* about to count an attempt *)
| R_dial                      (* in [client_do_connect] *)
| R_install (x : ak_tcp_ctx_t)
| R_connected                 (* tells [on_connect] *)
| R_backoff.                  (* tells [on_connect] that it failed *)

(** What follows after a thread is stopped. *)
Inductive after_stop : Type :=
| To_idle                               (* [ak_tcp_client_set_auto_reconnect] *)
| To_disconnect (free : bool).          (* [ak_tcp_client_disconnect], [ak_tcp_client_free] *)

(** Where the program is.  [good]: the client was connected when it took the
    pointer to the connection. *)
Inductive caller : Type :=
| P_idle
| P_dial
| P_install (x : ak_tcp_ctx_t)
| P_dial_failed
| P_op (id : nat) (good : bool)         (* has a pointer to the connection *)
| P_lost                                (* tells [on_disconnect] *)
| P_create                              (* about to start the thread *)
| P_stop (k : after_stop)
| P_join (k : after_stop)
| P_disconnect (free : bool)
| P_free
| P_freed.

(** [given_up]: the threads that gave up and have not ended. *)
Record world := mk_world {
  client : ak_tcp_client_internal_t;
  conn : option (nat * ak_tcp_ctx_t);
  next_conn : nat;
  thread : reconnector;
  given_up : nat;
  w_caller : caller;
  w_net : net;
  w_contexts : Contexts.store;
}.

Definition next_of (k : after_stop) : caller :=
  match k with
  | To_idle => P_idle
  | To_disconnect free => P_disconnect free
  end.

(** A signal wakes the thread that waits. *)
Definition wake (t : reconnector) : reconnector :=
  match t with
  | R_waiting => R_waited
  | _ => t
  end.

(** A step of the thread. *)
Inductive reconnect_step : world → world → Prop :=
| rs_leave c k i g p n st c' :
    reconnect_check c = Leave c' →
    reconnect_step (mk_world c k i R_top g p n st) (mk_world c' k i R_none g p n st)
| rs_too_many c k i g p n st c' :
    reconnect_check c = Too_many c' →
    reconnect_step (mk_world c k i R_top g p n st) (mk_world c' k i R_none (S g) p n st)
| rs_given_up c k i t g p n st :
    reconnect_step (mk_world c k i t (S g) p n st) (mk_world c k i t g p n st)
| rs_go_on c k i g p n st delay :
    reconnect_check c = Wait delay →
    reconnect_step (mk_world c k i R_top g p n st) (mk_world c k i R_wait g p n st)
| rs_wait c k i g p n st :
    reconnect_step (mk_world c k i R_wait g p n st)
      (match reconnect_waited c with
       | Some c' => mk_world c' k i R_none g p n st
       | None => mk_world c k i R_waiting g p n st
       end)
| rs_wake c k i g p n st :
    reconnect_step (mk_world c k i R_waiting g p n st) (mk_world c k i R_waited g p n st)
| rs_waited c k i g p n st :
    reconnect_step (mk_world c k i R_waited g p n st)
      (match reconnect_waited c with
       | Some c' => mk_world c' k i R_none g p n st
       | None => mk_world c k i R_attempt g p n st
       end)
| rs_attempt c k i g p n st :
    reconnect_step (mk_world c k i R_attempt g p n st) (mk_world (count_attempt c) k i R_dial g p n st)
| rs_dial c k i g p n st e m r st' e' n' m' :
    dial c st e n m = Ret (r, st', e', n', m') →
    reconnect_step (mk_world c k i R_dial g p n st)
      (mk_world c k i (match r with Dial_failed _ => R_backoff | Dialed x => R_install x end) g p n' st')
| rs_install c k i g p n st x m c' st' n' m' :
    install c (snd <$> k) st n m = Ret (c', st', n', m') →
    reconnect_step (mk_world c k i (R_install x) g p n st) (mk_world c' (Some (i, x)) (S i) R_connected g p n' st')
| rs_connected c k i g p n st :
    reconnect_step (mk_world c k i R_connected g p n st) (mk_world (thread_over c) k i R_none g p n st)
| rs_backoff c k i g p n st c' :
    back_off c = Ret c' →
    reconnect_step (mk_world c k i R_backoff g p n st) (mk_world c' k i R_top g p n st).

(** A step of the program. *)
Inductive caller_step : world → world → Prop :=
| ps_connect c k i t g n st c' :
    connect_begin c = Begun c' →
    caller_step (mk_world c k i t g P_idle n st) (mk_world c' k i t g P_dial n st)
| ps_dial c k i t g n st e m r st' e' n' m' :
    dial c st e n m = Ret (r, st', e', n', m') →
    caller_step (mk_world c k i t g P_dial n st)
      (mk_world c k i t g (match r with Dial_failed _ => P_dial_failed | Dialed x => P_install x end) n' st')
| ps_install c k i t g n st x m c' st' n' m' :
    install c (snd <$> k) st n m = Ret (c', st', n', m') →
    caller_step (mk_world c k i t g (P_install x) n st) (mk_world c' (Some (i, x)) (S i) t g P_idle n' st')
| ps_dial_failed c k i t g n st :
    auto_reconnect (settings c) = false →
    caller_step (mk_world c k i t g P_dial_failed n st)
      (mk_world (with_state c AK_TCP_CLIENT_DISCONNECTED) k i t g P_idle n st)
| ps_reconnect c k i t g p n st :
    (p = P_dial_failed ∧ auto_reconnect (settings c) = true) ∨ p = P_lost →
    caller_step (mk_world c k i t g p n st)
      (match start_reconnect_thread c with
       | Some c' => mk_world c' k i t g P_create n st
       | None => mk_world c k i t g P_idle n st
       end)
| ps_create c k i g n st :
    caller_step (mk_world c k i R_none g P_create n st) (mk_world c k i R_top g P_idle n st)
| ps_context c id x i t g n st :
    caller_step (mk_world c (Some (id, x)) i t g P_idle n st)
      (mk_world c (Some (id, x)) i t g (P_op id (bool_decide (state c = AK_TCP_CLIENT_CONNECTED))) n st)
| ps_call c id x i t g good n st lost c' st' n' x' :
    client_call (c, st, n, x) lost (c', st', n', x') →
    caller_step (mk_world c (Some (id, x)) i t g (P_op id good) n st)
      (mk_world c' (Some (id, x')) i t g (if lost : bool then P_lost else P_idle) n' st')
| ps_auto c k i t g n st enable :
    caller_step (mk_world c k i t g P_idle n st)
      (mk_world (set_auto_reconnect c enable) k i t g (if enable : bool then P_idle else P_stop To_idle) n st)
| ps_disconnect c k i t g n st free :
    caller_step (mk_world c k i t g P_idle n st) (mk_world c k i t g (P_stop (To_disconnect free)) n st)
| ps_stop c k i t g n st a :
    caller_step (mk_world c k i t g (P_stop a) n st)
      (match stop_reconnect_thread c with
       | Some c' => mk_world c' k i (wake t) g (P_join a) n st
       | None => mk_world c k i t g (next_of a) n st
       end)
| ps_join c k i g n st a :
    caller_step (mk_world c k i R_none g (P_join a) n st) (mk_world c k i R_none g (next_of a) n st)
| ps_close c k i t g n st free m prev c' st' n' m' :
    disconnect_section c (snd <$> k) st n m = Ret (prev, c', st', n', m') →
    caller_step (mk_world c k i t g (P_disconnect free) n st)
      (mk_world c' None i t g (if free : bool then P_free else P_idle) n' st')
| ps_free c k i t g n st lams m st' lams' n' m' :
    ak_tcp_client_free (Some c) (snd <$> k) st lams n m = Ret (st', lams', n', m') →
    caller_step (mk_world c k i t g P_free n st) (mk_world c None i t g P_freed n' st').

Inductive client_step : world → world → Prop :=
| cs_thread w w' : reconnect_step w w' → client_step w w'
| cs_caller w w' : caller_step w w' → client_step w w'.

(** A client that [ak_tcp_client_new] has just made. *)
Definition new_client_world (cfg : ak_tcp_client_config_t) (ssl : option positive) (n : net) (st : Contexts.store) : world :=
  mk_world (client_of cfg ssl) None 0 R_none 0 P_idle n st.
End reconnecting.

(** * What calls keep *)

Section keeping.
Context `{Allocator} `{ClientSocketLaws}.

(** The settings that never change. *)
Definition fixed (cfg cfg' : ak_tcp_client_config_t) : Prop :=
  set_timeouts (set_auto cfg' false) 0 0 = set_timeouts (set_auto cfg false) 0 0.

(** A call on the connection changes the statistics and the timeouts only. *)
Record same_control (c c' : ak_tcp_client_internal_t) : Prop := {
  sc_settings : fixed (settings c) (settings c') ∧ auto_reconnect (settings c') = auto_reconnect (settings c);
  sc_state : state c' = state c;
  sc_delay : current_reconnect_delay c' = current_reconnect_delay c;
  sc_attempt : current_attempt c' = current_attempt c;
  sc_running : reconnect_thread_running c' = reconnect_thread_running c;
  sc_stop : stop_reconnect c' = stop_reconnect c;
}.

Lemma same_control_refl c : same_control c c.
Proof. done. Qed.

Lemma sent_control (b : bool) c r : same_control c (if b then count_sent c r else c).
Proof. by destruct b. Qed.

Lemma received_control (b : bool) c r : same_control c (if b then count_received c r else c).
Proof. by destruct b. Qed.

#[local] Arguments ak_tcp_is_alive : simpl never.

(** Two calls on a connection, the second one [ak_tcp_is_alive]. *)
Lemma then_alive st n x n1 x1 up ctx n2 x2 :
  conn_op (st, n, x) (st, n1, x1) → ak_tcp_is_alive (Some x1) n1 = (up, ctx, n2) → ctx = Some x2 →
  rtc conn_op (st, n, x) (st, n2, x2).
Proof. intros Hop E ->. eapply rtc_l; [exact Hop|]. apply rtc_once. by econstructor. Qed.

Lemma send_call_ok c st n x data e r c' o e' n' x' :
  ak_tcp_client_send c (Some x) data e n = Ret (r, c', o, e', n') → o = Some x' →
  rtc conn_op (st, n, x) (st, n', x') ∧ same_control c c'.
Proof.
  unfold ak_tcp_client_send. destruct (ak_tcp_send (Some x) data e n) as [[[[r0 o0] e0] n0]| |] eqn:E; try done.
  simpl. intros [= <- <- <- <- <-] ->. split; [|apply sent_control]. apply rtc_once. by econstructor.
Qed.

Lemma recv_call_ok c st n x buffer max_bytes e m r lost c' o buffer' e' n' x' m' :
  0 <= max_bytes → ak_tcp_client_recv c (Some x) buffer max_bytes e n m = Ret (r, lost, c', o, buffer', e', n', m') →
  o = Some x' → rtc conn_op (st, n, x) (st, n', x') ∧ same_control c c'.
Proof.
  intros Hm. unfold ak_tcp_client_recv, mbind, M_bind.
  destruct (ak_tcp_recv (Some x) buffer max_bytes e n m) as [[[[[[r0 o0] b0] e0] n0] m0]| |] eqn:E; try done.
  pose proof E as Hk. apply recv_kept in Hk as (x0 & -> & _); [|done].
  assert (conn_op (st, n, x) (st, n0, x0)) as Hop by by econstructor.
  destruct (r0 =? 0); [|destruct (r0 <? 0)].
  - intros [= <- <- <- <- <- <- <- <-] [= <-]. split; [by apply rtc_once|apply received_control].
  - destruct (ak_tcp_is_alive (Some x0) n0) as [[up o2] n2] eqn:E2. intros [= <- <- <- <- <- <- <- <-] Ho.
    split; [by eapply then_alive|apply received_control].
  - intros [= <- <- <- <- <- <- <- <-] [= <-]. split; [by apply rtc_once|apply received_control].
Qed.
Lemma recv_until_call_ok c st n x turns delim max_bytes e m buf c' o e' n' x' m' :
  ak_tcp_client_recv_until turns c (Some x) delim max_bytes e n m = Ret (buf, c', o, e', n', m') → o = Some x' →
  rtc conn_op (st, n, x) (st, n', x') ∧ same_control c c'.
Proof.
  unfold ak_tcp_client_recv_until, mbind, M_bind.
  destruct (ak_tcp_recv_until turns (Some x) delim max_bytes e n m) as [[[[[b0 o0] e0] n0] m0]| |] eqn:E; try done.
  intros [= <- <- <- <- <- <-] ->. split; [apply rtc_once; by econstructor|by destruct b0].
Qed.

Lemma send_ex_call_ok c st n x data want e err r c' o e' n' x' :
  ak_tcp_client_send_ex c (Some x) data want e n = Ret (err, r, c', o, e', n') → o = Some x' →
  rtc conn_op (st, n, x) (st, n', x') ∧ same_control c c'.
Proof.
  unfold ak_tcp_client_send_ex, ak_tcp_send_ex.
  destruct (ak_tcp_send (Some x) data e n) as [[[[r0 o0] e0] n0]| |] eqn:E; try done.
  pose proof E as Hk. apply send_kept in Hk as (x0 & -> & _). simpl.
  assert (conn_op (st, n, x) (st, n0, x0)) as Hop by by econstructor.
  destruct (r0 <? 0); simpl.
  - destruct (ak_tcp_is_alive (Some x0) n0) as [[up o2] n2] eqn:E2. simpl. intros [= <- <- <- <- <- <-] Ho.
    split; [by eapply then_alive|apply sent_control].
  - intros [= <- <- <- <- <- <-] [= <-]. split; [by apply rtc_once|apply (sent_control (want && (0 <? r0)))].
Qed.

Lemma recv_ex_call_ok c st n x buffer max_bytes want e m err r c' o buffer' e' n' x' m' :
  0 <= max_bytes → ak_tcp_client_recv_ex c (Some x) buffer max_bytes want e n m = Ret (err, r, c', o, buffer', e', n', m') →
  o = Some x' → rtc conn_op (st, n, x) (st, n', x') ∧ same_control c c'.
Proof.
  intros Hm. unfold ak_tcp_client_recv_ex, ak_tcp_recv_ex, mbind, M_bind.
  destruct (ak_tcp_recv (Some x) buffer max_bytes e n m) as [[[[[[r0 o0] b0] e0] n0] m0]| |] eqn:E; try done.
  pose proof E as Hk. apply recv_kept in Hk as (x0 & -> & _); [|done].
  assert (conn_op (st, n, x) (st, n0, x0)) as Hop by by econstructor.
  destruct (r0 =? -2); [|destruct (r0 <? 0); [|destruct (r0 =? 0)]].
  - intros [= <- <- <- <- <- <- <- <-] [= <-]. split; [by apply rtc_once|apply same_control_refl].
  - destruct (ak_tcp_is_alive (Some x0) n0) as [[up o2] n2] eqn:E2.
    destruct (negb up); [|destruct (error_has _ _)]; intros [= <- <- <- <- <- <- <- <-] Ho;
      (split; [by eapply then_alive|apply same_control_refl]).
  - intros [= <- <- <- <- <- <- <- <-] [= <-]. split; [by apply rtc_once|apply same_control_refl].
  - intros [= <- <- <- <- <- <- <- <-] [= <-]. split; [by apply rtc_once|apply (received_control (want && (0 <? r0)))].
Qed.

Lemma recv_until_ex_call_ok c st n x turns delim max_bytes e m err buf c' o e' n' x' m' :
  ak_tcp_client_recv_until_ex turns c (Some x) delim max_bytes e n m = Ret (err, buf, c', o, e', n', m') → o = Some x' →
  rtc conn_op (st, n, x) (st, n', x') ∧ same_control c c'.
Proof.
  unfold ak_tcp_client_recv_until_ex, ak_tcp_recv_until_ex, mbind, M_bind.
  destruct delim as [delim|]; [|intros [= <- <- <- <- <- <- <-] [= <-]; by split; [apply rtc_refl|]].
  destruct (ak_tcp_recv_until turns (Some x) (Some delim) max_bytes e n m) as [[[[[b0 o0] e0] n0] m0]| |] eqn:E; try done.
  pose proof (recv_until_kept turns x (Some delim) max_bytes e n m _ _ E) as Hk. unfold result_kept in Hk. destruct Hk as (x0 & -> & _).
  assert (conn_op (st, n, x) (st, n0, x0)) as Hop by by econstructor.
  destruct b0 as [b0|].
  - intros [= <- <- <- <- <- <- <-] [= <-]. split; [by apply rtc_once|done].
  - destruct (ak_tcp_is_alive (Some x0) n0) as [[up o2] n2] eqn:E2.
    destruct (negb up); [|destruct (error_has _ _); [|destruct (error_has _ _)]]; intros [= <- <- <- <- <- <- <-] Ho;
      (split; [by eapply then_alive|done]).
Qed.

Lemma client_call_ok c st n x lost c' st' n' x' :
  client_call (c, st, n, x) lost (c', st', n', x') → rtc conn_op (st, n, x) (st', n', x') ∧ same_control c c'.
Proof.
  intros Hc. inversion Hc; subst; clear Hc.
  - by eapply send_call_ok.
  - by eapply recv_call_ok.
  - by eapply recv_until_call_ok.
  - by eapply send_ex_call_ok.
  - by eapply recv_ex_call_ok.
  - by eapply recv_until_ex_call_ok.
  - match goal with E : ak_tcp_client_set_timeout _ _ _ _ _ = _ |- _ => rename E into Ec end.
    unfold ak_tcp_client_set_timeout in Ec. destruct (ak_tcp_set_timeout (Some x) a b n) as [[e0 o] n0] eqn:E.
    injection Ec as <- <- -> <-. split; [apply rtc_once; by econstructor|done].
  - match goal with E : ak_tcp_client_is_connected _ _ _ = _ |- _ => rename E into Ec end.
    unfold ak_tcp_client_is_connected in Ec. destruct (_ && _).
    + split; [apply rtc_once; by econstructor|done].
    + injection Ec as _ <- <-. by split; [apply rtc_refl|].
  - split; [by apply rtc_once|done].
Qed.

Lemma owns_ops base n st raws c cs n' st' c' :
  owns base n st raws (c :: cs) → rtc conn_op (st, n, c) (st', n', c') → owns base n' st' raws (c' :: cs).
Proof.
  intros Ho Hops. remember (st, n, c) as a eqn:Ea. remember (st', n', c') as b eqn:Eb. revert st n c Ea Ho.
  induction Hops as [a|a [[st1 n1] c1] b Hop _ IH]; intros st n c -> Ho; [by simplify_eq|].
  apply (IH Eb st1 n1 c1 eq_refl). by eapply owns_op.
Qed.

(** What [client_do_connect] makes is owned. *)
Lemma dial_owns base n st cs c error m :
  owns base n st [] cs → recv_buffer_size (settings c) < 2 ^ 60 → send_buffer_size (settings c) < 2 ^ 60 →
  wp (dial c st error n) (λ '(r, st', _, n') _, match r with
    | Dial_failed _ => owns base n' st' [] cs
    | Dialed x => owns base n' st' [] (x :: cs)
    end) m.
Proof.
  intros Ho Hrs Hss. unfold dial. set (cfg := settings c) in *.
  destruct (ak_tcp_socket_create_for_addr None error n) as [[fd e1] n1] eqn:E1. apply create_law in E1.
  destruct (Z.eqb_spec fd AK_INVALID_SOCKET) as [->|Hfd].
  { wsteps. eapply owns_net; [done|]. destruct E1 as [[_ ?]|(? & _)]; [done|]. by unfold AK_INVALID_SOCKET in *. }
  destruct E1 as [[? _]|(Hpos & Hnew & Ho1)]; [done|].
  assert (owns base n1 st [fd] cs) as Hown1 by by eapply owns_accept.
  destruct (options_before cfg fd e1 n1) as [e2 n2] eqn:E2. apply before_open in E2.
  destruct (ak_tcp_socket_connect _ _ _ _ _ _) as [[rc e3] n3] eqn:E3. apply connect_law in E3.
  assert (owns base n3 st [fd] cs) as Hown3 by (eapply owns_net; [done|congruence]).
  destruct (Z.eqb_spec rc 0); cbn [negb]; [|wsteps; by apply owns_close].
  destruct (options_after cfg fd e3 n3) as [e4 n4] eqn:E4. apply after_open in E4.
  wsteps. eapply wp_mono; [apply (owns_new base n4); [by eapply owns_net|done..]|].
  intros [[x|] st1] s1.
  2:{ intros ->. wsteps. apply owns_close. by eapply owns_net. }
  intros [Hx _]. wsteps. set (x1 := with_timeouts x _ _).
  assert (owns base n4 st1 [] (x1 :: cs)) as Hx1 by by eapply owns_same.
  destruct (use_tls cfg); cbn [negb]; [|by wsteps].
  destruct (ak_tcp_tls_connect _ _ _ _ _) as [[l e5] n5] eqn:E5. apply tls_connect_law in E5.
  assert (owns base n5 st1 [] (x1 :: cs)) as Hx5 by by eapply owns_net.
  destruct l as [l|]; wsteps; [by eapply owns_same|].
  eapply wp_mono; [by apply (owns_free base)|]. intros [st2 n6] s2 Hown. by wsteps.
Qed.

(** Freeing the connection there is, if there is one. *)
Lemma free_owned base n st k cs m :
  owns base n st [] (option_list k ++ cs) →
  wp (match k with Some _ => ak_tcp_ctx_free st k n | None => mret (st, n) end) (λ '(st', n') _, owns base n' st' [] cs) m.
Proof. intros Ho. destruct k as [x|]; [by apply (owns_free base)|by wsteps]. Qed.
End keeping.

(** * What holds in every run *)

Section flight.
Context `{Sockets}.

(** The connections of a client: of a thread that is about to install one, and the
    client's own. *)
Definition thread_conns (t : reconnector) : list ak_tcp_ctx_t := match t with R_install x => [x] | _ => [] end.
Definition caller_conns (p : caller) : list ak_tcp_ctx_t := match p with P_install x => [x] | _ => [] end.
Definition conns (w : world) : list ak_tcp_ctx_t :=
  option_list (snd <$> conn w) ++ thread_conns (thread w) ++ caller_conns (w_caller w).

(** In [ak_tcp_client_connect] once it has begun. *)
Definition is_connecting (p : caller) : bool :=
  match p with
  | P_dial | P_install _ | P_dial_failed => true
  | _ => false
  end.

(** Between the check of the limit and the attempt. *)
Definition may_attempt (t : reconnector) : bool :=
  match t with
  | R_wait | R_waiting | R_waited | R_attempt => true
  | _ => false
  end.

Record control_ok (cfg : ak_tcp_client_config_t) (c : ak_tcp_client_internal_t) (k : option (nat * ak_tcp_ctx_t)) (i : nat)
    (t : reconnector) (p : caller) : Prop := {
  ct_fixed : fixed cfg (settings c);
  ct_running : reconnect_thread_running c = true ↔ t ≠ R_none ∨ p = P_create;
  ct_create : p = P_create → t = R_none ∧ state c = AK_TCP_CLIENT_RECONNECTING;
  ct_connecting : state c = AK_TCP_CLIENT_CONNECTING ↔ is_connecting p = true;
  ct_connected : state c = AK_TCP_CLIENT_CONNECTED → is_Some k;
  ct_thread : match t with
              | R_none => True
              | R_connected => state c = AK_TCP_CLIENT_CONNECTED
              | _ => state c = AK_TCP_CLIENT_RECONNECTING
              end;
  ct_good id : p = P_op id true → state c = AK_TCP_CLIENT_CONNECTED ∧ ∃ x, k = Some (id, x);
  ct_next id x : k = Some (id, x) → (id < i)%nat;
  ct_attempt : 0 <= current_attempt c;
  ct_limit : 0 < reconnect_max_attempts cfg →
    current_attempt c <= Z.max 1 (reconnect_max_attempts cfg)
    ∧ (may_attempt t = true → current_attempt c < reconnect_max_attempts cfg);
  ct_delay : 0 <= current_reconnect_delay c <= Z.max (reconnect_delay_ms cfg) (reconnect_max_delay_ms cfg);
  ct_closed : match p with P_disconnect _ => t = R_none | P_free | P_freed => t = R_none ∧ k = None | _ => True end;
  ct_joining a : p = P_join a → reconnect_thread_running c = true → stop_reconnect c = true;
  ct_awake a : p = P_join a → t ≠ R_waiting;
}.
End flight.

Lemma fixed_refl cfg : fixed cfg cfg.
Proof. done. Qed.

Lemma fixed_trans a b c : fixed a b → fixed b c → fixed a c.
Proof. unfold fixed. congruence. Qed.

Lemma fixed_auto cfg b : fixed cfg (set_auto cfg b).
Proof. done. Qed.

Lemma fixed_fields cfg cfg' : fixed cfg cfg' →
  reconnect_delay_ms cfg' = reconnect_delay_ms cfg ∧ reconnect_max_delay_ms cfg' = reconnect_max_delay_ms cfg
  ∧ reconnect_max_attempts cfg' = reconnect_max_attempts cfg ∧ reconnect_backoff_mult cfg' = reconnect_backoff_mult cfg
  ∧ recv_buffer_size cfg' = recv_buffer_size cfg ∧ send_buffer_size cfg' = send_buffer_size cfg.
Proof. destruct cfg, cfg'. unfold fixed, set_timeouts, set_auto. simpl. intros [=]. subst. done. Qed.

(** ** Delays *)

Lemma round_nonneg n k : 0 <= n → 0 <= round_half_even n k.
Proof.
  intros Hn. unfold round_half_even. destruct (Z.leb_spec k 0); [apply Z.mul_nonneg_nonneg; [done|apply Z.pow_nonneg; lia]|].
  pose proof (Z.div_pos n (2 ^ k) Hn ltac:(apply Z.pow_pos_nonneg; lia)). destruct (_ || _); lia.
Qed.

Lemma float_near_nonneg n k n' k' : 0 <= n → float_near n k = (n', k') → 0 <= n'.
Proof.
  intros Hn. unfold float_near. destruct (_ <=? 0); intros [= <- <-]; [done|by apply round_nonneg].
Qed.

Lemma next_delay_range cfg d d' :
  0 <= d → 0 <= reconnect_max_delay_ms cfg → next_delay cfg d = Ret d' → 0 <= d' <= reconnect_max_delay_ms cfg.
Proof.
  intros Hd Hm. unfold next_delay, scale_delay. destruct (_ =? 255); [done|].
  destruct (float_near d 0) as [f k] eqn:Ef. pose proof (float_near_nonneg _ _ _ _ Hd Ef) as Hf.
  set (mult := reconnect_backoff_mult cfg).
  assert (0 <= significand 23 8 mult) as Hs.
  { unfold significand, fraction_of. pose proof (Z.mod_pos_bound mult (2 ^ 23) ltac:(lia)). destruct (_ =? 0); lia. }
  destruct (float_near (f * significand 23 8 mult) _) as [q k2] eqn:Eq.
  assert (0 <= q) as Hq by (eapply float_near_nonneg; [|exact Eq]; by apply Z.mul_nonneg_nonneg).
  unfold to_uint32. set (x := if 0 <=? k2 then q * 2 ^ k2 else q / 2 ^ (- k2)).
  assert (0 <= x) as Hx.
  { unfold x. destruct (Z.leb_spec 0 k2); [apply Z.mul_nonneg_nonneg; [done|apply Z.pow_nonneg; lia]|].
    apply Z.div_pos; [done|apply Z.pow_pos_nonneg; lia]. }
  destruct (x <? 2 ^ 32); simpl; [|done]. intros [= <-]. destruct (Z.ltb_spec (reconnect_max_delay_ms cfg) x); lia.
Qed.

Lemma u64_le x : 0 <= x → u64 x <= x.
Proof. intros Hx. by apply Z.mod_le. Qed.

(** ** Control *)

Section control.
Context `{Allocator} `{ClientSocketLaws}.
Context (cfg : ak_tcp_client_config_t).
Hypothesis Hdelay : 0 <= reconnect_delay_ms cfg.
Hypothesis Hmax : 0 <= reconnect_max_delay_ms cfg.

Ltac control Hc :=
  let F := fresh "F" in let R := fresh "R" in let C := fresh "C" in let K := fresh "K" in let D := fresh "D" in
  let T := fresh "T" in let G := fresh "G" in let N := fresh "N" in let A := fresh "A" in let L := fresh "L" in
  let Y := fresh "Y" in let Z := fresh "Z" in let J := fresh "J" in let W := fresh "W" in
  destruct Hc as [F R C K D T G N A L Y Z J W]; split; simpl in *; try done.

(** The thread ends, when it does not hold a connection. *)
Lemma control_end c k i t p :
  control_ok cfg c k i t p → t ≠ R_none → control_ok cfg (thread_over c) k i R_none p.
Proof.
  intros Hc Ht. control Hc.
  - split; [done|]. intros [?|Hp]; [done|]. destruct (C Hp). done.
  - intros Hp. destruct (C Hp). done.
  - intros HL. destruct (L HL). by split.
  - destruct p; try done; by destruct Z.
Qed.

(** The thread goes on, in the loop. *)
Lemma control_move c k i t t' p :
  control_ok cfg c k i t p → t ≠ R_none → t ≠ R_connected → t' ≠ R_none → t' ≠ R_connected →
  (may_attempt t' = true → 0 < reconnect_max_attempts cfg → current_attempt c < reconnect_max_attempts cfg) →
  (t' = R_waiting → stop_reconnect c = false) → control_ok cfg c k i t' p.
Proof.
  intros Hc Ht1 Ht2 Ht3 Ht4 Hl Hw. control Hc.
  - split; [by left|]. intros _. apply R. by left.
  - intros Hp. destruct (C Hp). done.
  - by destruct t', t.
  - intros HL. destruct (L HL). split; [done|auto].
  - destruct p; try done; destruct Z; done.
  - intros a Hp Ht'. rewrite (J a Hp) in Hw; [by specialize (Hw Ht')|]. apply R. by left.
Qed.

Lemma control_top c k i p c' :
  control_ok cfg c k i R_top p → reconnect_check c = c' →
  match c' with
  | Leave c' => control_ok cfg c' k i R_none p
  | Too_many c' => control_ok cfg c' k i R_none p
  | Wait _ => control_ok cfg c k i R_wait p
  end.
Proof.
  intros Hc. unfold reconnect_check. destruct (stop_reconnect c) eqn:Es; [intros <-; by eapply control_end|].
  case_bool_decide as Hst; [intros <-; by eapply control_end|].
  destruct ((0 <? reconnect_max_attempts (settings c)) && (reconnect_max_attempts (settings c) <=? current_attempt c)) eqn:El; intros <-.
  - assert (control_ok cfg (thread_over c) k i R_none p) as Hc2 by by eapply control_end.
    assert (state c = AK_TCP_CLIENT_RECONNECTING) as Hrec by exact (ct_thread _ _ _ _ _ _ Hc).
    control Hc2.
    + intros Hp. destruct (ct_create _ _ _ _ _ _ Hc Hp). done.
    + split; [done|]. intros Hp. apply K in Hp. congruence.
    + intros id Hp. destruct (G id Hp) as [Hg _]. congruence.
  - eapply control_move; [done..| |done]. intros _ Hp. destruct (fixed_fields _ _ (ct_fixed _ _ _ _ _ _ Hc)) as (_ & _ & Hm & _).
    rewrite Hm in El. apply andb_false_iff in El as [El|El]; [apply Z.ltb_ge in El; lia|by apply Z.leb_gt in El].
Qed.

Lemma control_waited c k i t t' p :
  control_ok cfg c k i t p → t = R_wait ∨ t = R_waited → t' = R_waiting ∨ t' = R_attempt →
  match reconnect_waited c with
  | Some c' => control_ok cfg c' k i R_none p
  | None => control_ok cfg c k i t' p
  end.
Proof.
  intros Hc Ht Ht'. unfold reconnect_waited. destruct (stop_reconnect c) eqn:Es.
  - eapply control_end; [done|]. by destruct Ht as [-> | ->].
  - eapply control_move; [done|by destruct Ht; subst..|by destruct Ht'; subst|by destruct Ht'; subst| |done].
    intros _ HL. destruct (ct_limit _ _ _ _ _ _ Hc HL) as [_ Hl]. apply Hl. by destruct Ht; subst.
Qed.

Lemma control_attempt c k i p :
  control_ok cfg c k i R_attempt p → control_ok cfg (count_attempt c) k i R_dial p.
Proof.
  intros Hc. pose proof (u64_le (current_attempt c + 1)) as Hu. pose proof (u64_range (current_attempt c + 1)) as Hr.
  control Hc.
  - split; [by left|]. intros _. apply R. by left.
  - intros Hp. destruct (C Hp). done.
  - split; [done|]. intros Hp. apply K in Hp. congruence.
  - intros id Hp. destruct (G id Hp). congruence.
  - lia.
  - intros HL. destruct (L HL) as [L1 L2]. specialize (L2 eq_refl). split; [lia|done].
  - destruct p; try done; destruct Z; done.
Qed.

(** A connection is installed, by the thread or by the program. *)
Lemma control_installed c k i t p x m st n c' st' n' m' t' p' :
  control_ok cfg c k i t p → install c (snd <$> k) st n m = Ret (c', st', n', m') →
  (t = R_install x ∧ t' = R_connected ∧ p' = p) ∨ (p = P_install x ∧ p' = P_idle ∧ t' = t) →
  control_ok cfg c' (Some (i, x)) (S i) t' p'.
Proof.
  intros Hc E Hwho. pose proof (fixed_fields _ _ (ct_fixed _ _ _ _ _ _ Hc)) as (Hd & _).
  assert (c' = with_state (with_attempt c (reconnect_delay_ms (settings c)) 0 (stats c')) AK_TCP_CLIENT_CONNECTED) as ->.
  { revert E. unfold install, mbind, M_bind. destruct (match snd <$> k with Some _ => ak_tcp_ctx_free st (snd <$> k) n | None => mret (st, n) end m) as [[[? ?] ?]| |]; try done.
    by intros [= <- <- <- <-]. }
  clear E. destruct Hwho as [(-> & -> & ->)|(-> & -> & ->)].
  - control Hc.
    + split; [by left|]. intros _. apply R. by left.
    + intros Hp. destruct (C Hp). done.
    + split; [done|]. intros Hp. apply K in Hp. congruence.
    + intros id Hp. destruct (G id Hp). congruence.
    + intros id y [= <- <-]. lia.
    + intros HL. split; [lia|done].
    + rewrite Hd. lia.
    + destruct p; try done; by destruct Z.
  - assert (t = R_none) as ->.
    { pose proof (ct_thread _ _ _ _ _ _ Hc) as Ht. pose proof (proj2 (ct_connecting _ _ _ _ _ _ Hc) eq_refl) as Hs.
      destruct t; congruence. }
    control Hc.
    + split; [|by intros []]. intros Hr. apply R in Hr as [?|?]; [by left|done].
    + intros id y [= <- <-]. lia.
    + intros HL. split; [lia|done].
    + rewrite Hd. lia.
Qed.

Lemma control_backoff c k i p c' :
  control_ok cfg c k i R_backoff p → back_off c = Ret c' → control_ok cfg c' k i R_top p.
Proof.
  intros Hc. unfold back_off. destruct (next_delay (settings c) (current_reconnect_delay c)) as [d| |] eqn:E; simpl; [|done..].
  intros [= <-]. destruct (fixed_fields _ _ (ct_fixed _ _ _ _ _ _ Hc)) as (_ & Hm & _).
  apply next_delay_range in E; [|apply Hc|by rewrite Hm]. rewrite Hm in E.
  eapply (control_move _ _ _ _ R_top) in Hc; [|done..]. control Hc. lia.
Qed.

(** The client is connecting, or disconnected: there is no thread. *)
Lemma control_alone c k i t p :
  control_ok cfg c k i t p → state c ≠ AK_TCP_CLIENT_RECONNECTING → state c ≠ AK_TCP_CLIENT_CONNECTED → t = R_none.
Proof. intros Hc Hp1 Hp2. pose proof (ct_thread _ _ _ _ _ _ Hc) as Ht. by destruct t. Qed.

Lemma control_idle c k i t p :
  control_ok cfg c k i t p → reconnect_thread_running c = false → t = R_none.
Proof.
  intros Hc Hr. destruct t; [done|..]; pose proof (proj2 (ct_running _ _ _ _ _ _ Hc)) as Ht; rewrite Hr in Ht;
    (discriminate Ht; by left).
Qed.

(** The program moves between two places that say nothing of the client. *)
Definition plain (p : caller) : bool :=
  match p with
  | P_idle | P_lost | P_stop _ | P_op _ false => true
  | _ => false
  end.

Lemma control_plain c k i t p p' :
  control_ok cfg c k i t p → is_connecting p = false → p ≠ P_create → plain p' = true → control_ok cfg c k i t p'.
Proof.
  intros Hc Hp1 Hp2 Hp3. control Hc.
  - rewrite R. split; [intros [?|?]; [by left|done]|]. intros [?| ->]; [by left|done].
  - by intros ->.
  - rewrite K, Hp1. by destruct p'.
  - by intros id ->.
  - by destruct p'.
  - by intros a ->.
  - by intros a ->.
Qed.

Lemma control_connect c k i t c' :
  control_ok cfg c k i t P_idle → connect_begin c = Begun c' → control_ok cfg c' k i t P_dial.
Proof.
  intros Hc. unfold connect_begin. destruct (state c) eqn:Es; try done. intros [= <-].
  assert (t = R_none) as -> by (eapply control_alone; [done|congruence..]).
  control Hc.
  - rewrite R. split; [intros [?|?]; done|]. by intros [?|?].
  - intros HL. split; [lia|done].
Qed.

Lemma control_dialed c k i t p :
  control_ok cfg c k i t P_dial → p = P_dial_failed ∨ (∃ x, p = P_install x) → control_ok cfg c k i t p.
Proof.
  intros Hc Hp. control Hc; destruct Hp as [->|[x ->]]; try done; rewrite R; by split; [intros [?|?]; [left|]|intros [?|?]; [left|]].
Qed.

Lemma control_dial_failed c k i t :
  control_ok cfg c k i t P_dial_failed → control_ok cfg (with_state c AK_TCP_CLIENT_DISCONNECTED) k i t P_idle.
Proof.
  intros Hc. pose proof (proj2 (ct_connecting _ _ _ _ _ _ Hc) eq_refl) as Hs.
  assert (t = R_none) as -> by (eapply control_alone; [done|congruence..]).
  control Hc. rewrite R. by split; intros [?|?].
Qed.

Lemma control_reconnect c k i t p :
  control_ok cfg c k i t p → p = P_dial_failed ∨ p = P_lost →
  match start_reconnect_thread c with
  | Some c' => control_ok cfg c' k i t P_create
  | None => control_ok cfg c k i t P_idle
  end.
Proof.
  intros Hc Hp. unfold start_reconnect_thread. destruct (reconnect_thread_running c) eqn:Er.
  - destruct Hp as [->| ->]; [|by eapply control_plain]. exfalso.
    pose proof (proj2 (ct_connecting _ _ _ _ _ _ Hc) eq_refl) as Hs.
    assert (t = R_none) as -> by (eapply control_alone; [done|congruence..]).
    apply (ct_running _ _ _ _ _ _ Hc) in Er as [?|?]; done.
  - apply (control_idle _ _ _ _ _ Hc) in Er as ->. control Hc.
    + split; [by right|done].
Qed.

Lemma control_create c k i :
  control_ok cfg c k i R_none P_create → control_ok cfg c k i R_top P_idle.
Proof.
  intros Hc. destruct (ct_create _ _ _ _ _ _ Hc eq_refl) as [_ Hs]. control Hc.
  rewrite R. split; [by left|by right].
Qed.

Lemma control_context c id x i t :
  control_ok cfg c (Some (id, x)) i t P_idle →
  control_ok cfg c (Some (id, x)) i t (P_op id (bool_decide (state c = AK_TCP_CLIENT_CONNECTED))).
Proof.
  intros Hc. case_bool_decide; [|by eapply control_plain]. control Hc.
  - rewrite R. by split; intros [?|?]; [left|done|left|done].
  - intros id' [= <-]. split; [done|by eexists].
Qed.

Lemma control_call c c' id x x' i t good lost :
  control_ok cfg c (Some (id, x)) i t (P_op id good) → same_control c c' →
  control_ok cfg c' (Some (id, x')) i t (if lost : bool then P_lost else P_idle).
Proof.
  intros Hc [[Hf _] Hs Hd Ha Hr _]. assert (is_connecting (if lost then P_lost else P_idle) = false) as Hcon by by destruct lost.
  control Hc.
  - by eapply fixed_trans.
  - rewrite Hr, R. split; intros [?|?]; [by left|done|by left|by destruct lost].
  - by destruct lost.
  - by rewrite Hs, Hcon.
  - by rewrite Hs.
  - by destruct lost.
  - intros id' y [= <- <-]. by eapply N.
  - by rewrite Ha.
  - by rewrite Ha.
  - by rewrite Hd.
  - by destruct lost.
  - by destruct lost.
  - by destruct lost.
Qed.

Lemma control_auto c k i t enable :
  control_ok cfg c k i t P_idle →
  control_ok cfg (set_auto_reconnect c enable) k i t (if enable : bool then P_idle else P_stop To_idle).
Proof.
  intros Hc. apply (control_plain _ _ _ _ P_idle); [|done..|by destruct enable]. control Hc.
Qed.

(** The program goes on when no thread is left. *)
Lemma control_next c k i p a :
  control_ok cfg c k i R_none p → is_connecting p = false → p ≠ P_create → control_ok cfg c k i R_none (next_of a).
Proof.
  intros Hc Hp1 Hp2. destruct a as [|free]; [by eapply control_plain|]. control Hc.
  - rewrite R. split; [by intros [?|?]|by intros [?|?]].
  - by rewrite K, Hp1.
Qed.

Lemma control_stop c k i t a :
  control_ok cfg c k i t (P_stop a) →
  match stop_reconnect_thread c with
  | Some c' => control_ok cfg c' k i (wake t) (P_join a)
  | None => control_ok cfg c k i t (next_of a)
  end.
Proof.
  intros Hc. unfold stop_reconnect_thread. destruct (reconnect_thread_running c) eqn:Er; simpl.
  - assert (t ≠ R_none) as Ht by by apply (ct_running _ _ _ _ _ _ Hc) in Er as [?|?].
    assert (wake t ≠ R_none) as Hw by by destruct t. control Hc.
    + split; [by left|done].
    + by destruct t.
    + intros HL. destruct (L HL) as [L1 L2]. split; [done|]. intros Hm. apply L2. by destruct t.
    + by destruct t.
  - apply (control_idle _ _ _ _ _ Hc) in Er as ->. by eapply control_next.
Qed.

Lemma control_close c k i t free m st n prev c' st' n' m' :
  control_ok cfg c k i t (P_disconnect free) → disconnect_section c (snd <$> k) st n m = Ret (prev, c', st', n', m') →
  control_ok cfg c' None i t (if free : bool then P_free else P_idle).
Proof.
  intros Hc E. assert (c' = with_state (set_auto_reconnect c false) AK_TCP_CLIENT_DISCONNECTED) as ->.
  { revert E. unfold disconnect_section, mbind, M_bind.
    destruct (match snd <$> k with Some _ => let '(ctx, n) := ak_tcp_close (snd <$> k) n in ak_tcp_ctx_free st ctx n
              | None => mret (st, n) end m) as [[[? ?] ?]| |]; try done. by intros [= <- <- <- <- <-]. }
  pose proof (ct_closed _ _ _ _ _ _ Hc) as ->. control Hc.
  - rewrite R. split; intros [?|?]; try done. by destruct free.
  - by destruct free.
  - by destruct free.
  - by destruct free.
  - by destruct free.
  - by destruct free.
Qed.

Lemma control_freed c i t : control_ok cfg c None i t P_free → control_ok cfg c None i t P_freed.
Proof.
  intros Hc. control Hc. rewrite R. by split; intros [?|?]; [left|done|left|done].
Qed.
End control.

(** ** Worlds *)

Lemma wp_answers {A} (m : M A) Q s a s' : wp m Q s → m s = Ret (a, s') → Q a s'.
Proof. unfold wp. intros Hw E. by rewrite E in Hw. Qed.

Section worlds.
Context `{Allocator} `{ClientSocketLaws}.
Context (base : gset Z) (cfg : ak_tcp_client_config_t).
Hypothesis Hdelay : 0 <= reconnect_delay_ms cfg.
Hypothesis Hmax : 0 <= reconnect_max_delay_ms cfg.
Hypothesis Hrs : recv_buffer_size cfg < 2 ^ 60.
Hypothesis Hss : send_buffer_size cfg < 2 ^ 60.

Record world_ok (w : world) : Prop := {
  wo_owns : owns base (w_net w) (w_contexts w) [] (conns w);
  wo_control : control_ok cfg (client w) (conn w) (next_conn w) (thread w) (w_caller w);
}.

(** What a thread or the program dials joins the connections. *)
Lemma dialed_owned c k i t p n st cs e m r st' e' n' m' :
  control_ok cfg c k i t p → owns base n st [] cs → dial c st e n m = Ret (r, st', e', n', m') →
  match r with
  | Dial_failed _ => owns base n' st' [] cs
  | Dialed x => owns base n' st' [] (x :: cs)
  end.
Proof.
  intros Hc Ho E. destruct (fixed_fields _ _ (ct_fixed _ _ _ _ _ _ Hc)) as (_ & _ & _ & _ & Er & Es).
  refine (wp_answers _ _ _ _ _ (dial_owns base n st cs c e m Ho _ _) E); by rewrite ?Er, ?Es.
Qed.

Lemma installed_owned c (k : option (nat * ak_tcp_ctx_t)) n st m c' st' n' m' x cs :
  owns base n st [] (option_list (snd <$> k) ++ x :: cs) → install c (snd <$> k) st n m = Ret (c', st', n', m') →
  owns base n' st' [] (x :: cs).
Proof.
  intros Ho. unfold install, mbind, M_bind. pose proof (free_owned base n st (snd <$> k) (x :: cs) m Ho) as Hf.
  unfold wp in Hf. destruct (match snd <$> k with Some _ => ak_tcp_ctx_free st (snd <$> k) n | None => mret (st, n) end m)
    as [[[st1 n1] m1]| |]; try done. by intros [= <- <- <- <-].
Qed.

#[local] Arguments ak_tcp_close : simpl never.

Lemma closed_owned c (k : option (nat * ak_tcp_ctx_t)) n st m prev c' st' n' m' cs :
  owns base n st [] (option_list (snd <$> k) ++ cs) → disconnect_section c (snd <$> k) st n m = Ret (prev, c', st', n', m') →
  owns base n' st' [] cs.
Proof.
  intros Ho E. refine (wp_answers _ (λ '(_, _, st', n') _, owns base n' st' [] cs) _ _ _ _ E).
  unfold disconnect_section. destruct k as [[id x]|]; simpl in *; [|by wsteps].
  destruct (ak_tcp_close (Some x) n) as [[x'|] n2] eqn:Ex.
  - apply wp_bind. eapply wp_mono; [apply (owns_free base)|].
    + eapply owns_op; [exact Ho|]. by apply op_close.
    + intros [st2 n3] s2 Hown. by wsteps.
  - exfalso. revert Ex. unfold ak_tcp_close. destruct (alive x), (ssl x); simpl; by repeat case_match.
Qed.

Lemma reconnect_step_ok w w' : world_ok w → reconnect_step w w' → world_ok w'.
Proof.
  intros [Ho Hc] Hstep. unfold conns in Ho. destruct Hstep; cbn [client conn next_conn thread w_caller w_net w_contexts thread_conns] in *.
  - split; [done|]. exact (control_top cfg _ _ _ _ _ Hc ltac:(eassumption)).
  - split; [done|]. exact (control_top cfg _ _ _ _ _ Hc ltac:(eassumption)).
  - by split.
  - split; [done|]. exact (control_top cfg _ _ _ _ _ Hc ltac:(eassumption)).
  - pose proof (control_waited cfg _ _ _ _ R_waiting _ Hc (or_introl eq_refl) (or_introl eq_refl)) as Hw.
    by destruct (reconnect_waited c).
  - split; [done|]. eapply control_move; [done..| |done]. intros _ HL. by apply (ct_limit _ _ _ _ _ _ Hc HL).
  - pose proof (control_waited cfg _ _ _ _ R_attempt _ Hc (or_intror eq_refl) (or_intror eq_refl)) as Hw.
    by destruct (reconnect_waited c).
  - split; [done|]. by apply control_attempt.
  - match goal with E : dial _ _ _ _ _ = _ |- _ => pose proof (dialed_owned _ _ _ _ _ _ _ _ _ _ _ _ _ _ _ Hc Ho E) as Hd end.
    destruct r as [err|x]; (split; [|by eapply control_move]); [done|]. unfold conns. cbn [client conn next_conn thread w_caller w_net w_contexts thread_conns].
    eapply owns_perm; [done|done|]. simpl. by rewrite Permutation_middle.
  - split; [|eapply (control_installed cfg); [done..|by left]].
    match goal with E : install _ _ _ _ _ = _ |- _ => exact (installed_owned _ _ _ _ _ _ _ _ _ _ _ Ho E) end.
  - split; [done|]. by eapply control_end.
  - split; [done|]. by eapply control_backoff.
Qed.

(** Freeing a client without a connection leaves the sockets and contexts alone. *)
Lemma client_free_quiet c st lams n :
  answers (ak_tcp_client_free (Some c) None st lams n) (λ '(st', _, n'), st' = st ∧ open_sockets n' = open_sockets n).
Proof.
  set (n1 := match ssl_ctx c with Some sc => ak_tcp_tls_ctx_free sc n | None => n end).
  assert (open_sockets n1 = open_sockets n) as Hn1 by (unfold n1; destruct (ssl_ctx c); [apply tls_ctx_free_law|done]).
  unfold ak_tcp_client_free, client_internal_free. eapply (answers_bind _ _ (λ '(st', _, n'), st' = st ∧ n' = n1)).
  - apply (answers_bind _ _ (λ '(st', n'), st' = st ∧ n' = n)); [by apply answers_ret|]. intros [? ?] [-> ->].
    do 10 (apply answers_seq; intros ?). by apply answers_ret.
  - intros [[? ?] ?] [-> ->]. apply answers_seq. intros ?. by apply answers_ret.
Qed.

Lemma caller_step_ok w w' : world_ok w → caller_step w w' → world_ok w'.
Proof.
  intros [Ho Hc] Hstep. unfold conns in Ho.
  destruct Hstep; cbn [client conn next_conn thread w_caller w_net w_contexts caller_conns] in *; rewrite ?app_nil_r in Ho.
  - split; [unfold conns; simpl; by rewrite app_nil_r|]. by eapply control_connect.
  - match goal with E : dial _ _ _ _ _ = _ |- _ => pose proof (dialed_owned _ _ _ _ _ _ _ _ _ _ _ _ _ _ _ Hc Ho E) as Hd end.
    destruct r as [err|x]; (split; [unfold conns; cbn [client conn next_conn thread w_caller w_net w_contexts caller_conns]|]).
    + by rewrite app_nil_r.
    + eapply control_dialed; [done|by left].
    + eapply owns_perm; [done|done|]. by rewrite app_assoc, <- Permutation_cons_append.
    + eapply control_dialed; [done|right; by eexists].
  - assert (t = R_none) as ->.
    { pose proof (proj2 (ct_connecting _ _ _ _ _ _ Hc) eq_refl) as Hs. eapply control_alone; [done|congruence..]. }
    split; [|eapply (control_installed cfg); [done..|by right]].
    match goal with E : install _ _ _ _ _ = _ |- _ => exact (installed_owned _ _ _ _ _ _ _ _ _ _ _ Ho E) end.
  - split; [unfold conns; simpl; by rewrite app_nil_r|]. by eapply control_dial_failed.
  - assert (caller_conns p = []) as Hp by (match goal with E : _ ∨ _ |- _ => by destruct E as [[-> _]| ->] end). rewrite Hp, app_nil_r in Ho.
    assert (p = P_dial_failed ∨ p = P_lost) as Hp2 by tauto.
    pose proof (control_reconnect cfg _ _ _ _ _ Hc Hp2) as Hr.
    destruct (start_reconnect_thread c); (split; [unfold conns; simpl; by rewrite app_nil_r|done]).
  - split; [unfold conns; simpl; by rewrite app_nil_r|]. by eapply control_create.
  - split; [unfold conns; simpl; by rewrite app_nil_r|]. by eapply control_context.
  - match goal with E : client_call _ _ _ |- _ => apply client_call_ok in E as [Hops Hsame] end.
    split; [|by eapply control_call]. unfold conns. cbn [client conn next_conn thread w_caller w_net w_contexts].
    assert (caller_conns (if lost then P_lost else P_idle) = []) as -> by by destruct lost.
    rewrite app_nil_r. simpl in *. by eapply owns_ops.
  - split; [unfold conns; cbn [conn thread w_net w_contexts w_caller]|by apply control_auto].
    by destruct enable; simpl; rewrite app_nil_r.
  - split; [unfold conns; simpl; by rewrite app_nil_r|]. by eapply control_plain.
  - pose proof (control_stop cfg _ _ _ _ _ Hc) as Hs. assert (thread_conns (wake t) = thread_conns t) as Hw by by destruct t.
    destruct (stop_reconnect_thread c); (split; [unfold conns; cbn [conn thread w_net w_contexts w_caller]|done]).
    + by rewrite Hw, app_nil_r.
    + by destruct a; simpl; rewrite app_nil_r.
  - split; [|by eapply control_next]. unfold conns. cbn [conn thread w_net w_contexts w_caller]. by destruct a; simpl; rewrite ?app_nil_r.
  - split; [|by eapply control_close]. unfold conns. cbn [conn thread w_net w_contexts w_caller].
    assert (caller_conns (if free then P_free else P_idle) = []) as -> by by destruct free.
    rewrite app_nil_r. by eapply closed_owned.
  - pose proof (ct_closed _ _ _ _ _ _ Hc) as [-> ->]. simpl in Ho.
    match goal with E : ak_tcp_client_free _ _ _ _ _ _ = _ |- _ => apply client_free_quiet in E as [-> Hn] end.
    split; [by eapply owns_net|by apply control_freed].
Qed.

Lemma client_step_ok w w' : world_ok w → client_step w w' → world_ok w'.
Proof. intros Hw Hstep. destruct Hstep; [by eapply reconnect_step_ok|by eapply caller_step_ok]. Qed.

Lemma client_run_ok w w' : world_ok w → rtc client_step w w' → world_ok w'.
Proof. intros Hw Hrun. induction Hrun as [|w1 w2 w3 Hs _ IH]; [done|]. apply IH. by eapply client_step_ok. Qed.

Lemma new_client_ok ssl n st :
  store_wf st → (∀ fd, fd ∈ open_sockets n ↔ fd ∈ base) → world_ok (new_client_world cfg ssl n st).
Proof.
  intros Hwf Hb. split.
  - unfold conns. simpl. split; [done|constructor|constructor|constructor| |].
    + intros fd Hfd. by apply elem_of_nil in Hfd.
    + intros fd. rewrite Hb. simpl. rewrite elem_of_nil. tauto.
  - split; simpl; try done.
    + split; [done|by intros [?|?]].
    + intros HL. split; [lia|done].
    + lia.
Qed.

(** ** Stopping the thread *)

(** The steps left of a thread that is to stop. *)
Definition steps_left (t : reconnector) : nat :=
  match t with
  | R_none => 0
  | R_top | R_wait | R_waited | R_connected => 1
  | R_waiting | R_backoff | R_install _ => 2
  | R_dial => 3
  | R_attempt => 4
  end.

Definition join_measure (w : world) : nat := steps_left (thread w) + given_up w.

Lemma join_step w w' a :
  world_ok w → w_caller w = P_join a → client_step w w' →
  (w_caller w' = P_join a ∧ (join_measure w' < join_measure w)%nat) ∨ (thread w' = R_none ∧ w_caller w' = next_of a).
Proof.
  intros [_ Hc] Hw Hstep. assert (thread w ≠ R_none → stop_reconnect (client w) = true) as Hstop.
  { intros Ht. apply (ct_joining _ _ _ _ _ _ Hc a Hw), (ct_running _ _ _ _ _ _ Hc). by left. }
  unfold join_measure. destruct Hstep as [w w' Hs|w w' Hs]; [left|right]; destruct Hs; simpl in *; simplify_eq; try (split; [done|]).
  all: try specialize (Hstop ltac:(done)).
  all: repeat match goal with E : reconnect_check _ = _ |- _ => unfold reconnect_check in E; rewrite Hstop in E; simplify_eq end.
  all: try (unfold reconnect_waited; rewrite Hstop; simpl). all: try lia. all: try done.
  all: try (destruct r; simpl; lia). all: try (split; [done|lia]).
  by match goal with E : _ ∨ _ |- _ => destruct E as [[? _]|?] end.
Qed.

Lemma install_returns c (k : option (nat * ak_tcp_ctx_t)) n st cs m :
  owns base n st [] (option_list (snd <$> k) ++ cs) → ∃ c' st' n' m', install c (snd <$> k) st n m = Ret (c', st', n', m').
Proof.
  intros Ho. unfold install, mbind, M_bind. destruct (wp_returns _ _ _ (free_owned base n st (snd <$> k) cs m Ho)) as ([st' n'] & m' & ->).
  by do 4 eexists.
Qed.

(** A thread that is to stop can go on. *)
Lemma join_progress w a :
  reconnect_backoff_mult cfg = TCP_CLIENT_DEFAULT_BACKOFF_MULT → reconnect_delay_ms cfg < 2 ^ 24 → reconnect_max_delay_ms cfg < 2 ^ 24 →
  world_ok w → w_caller w = P_join a → ∃ w', client_step w w'.
Proof.
  intros Hb Hd1 Hd2 [Ho Hc] Hw. destruct w as [c k i t g p n st]. unfold conns in Ho.
  cbn [client conn next_conn thread w_caller w_net w_contexts] in *. subst p. simpl in Ho. rewrite app_nil_r in Ho.
  assert (t ≠ R_none → stop_reconnect c = true) as Hstop.
  { intros Ht. apply (ct_joining _ _ _ _ _ _ Hc a eq_refl), (ct_running _ _ _ _ _ _ Hc). by left. }
  pose proof (ct_awake _ _ _ _ _ _ Hc a eq_refl) as Hawake. pose proof (fixed_fields _ _ (ct_fixed _ _ _ _ _ _ Hc)) as (_ & Hm & _ & Hmult & Er & Es).
  destruct t as [| | | | | | |x| |]; try (eexists; apply cs_thread; by constructor); try done.
  - eexists. apply cs_caller, ps_join.
  - eexists. apply cs_thread, rs_leave. unfold reconnect_check. by rewrite Hstop.
  - destruct (wp_returns _ _ _ (dial_owns base n st _ c None mem0 Ho ltac:(by rewrite Er) ltac:(by rewrite Es)))
      as ([[[r st'] e'] n'] & m' & E). eexists. apply cs_thread. by eapply rs_dial.
  - destruct (install_returns c k n st _ mem0 Ho) as (c' & st' & n' & m' & E). eexists. apply cs_thread. by eapply rs_install.
  - pose proof (ct_delay _ _ _ _ _ _ Hc) as Hdl. eexists. apply cs_thread, rs_backoff.
    unfold back_off, next_delay. rewrite Hmult, Hb, scale_double by lia. simpl. done.
Qed.

Lemma join_returns k w a :
  reconnect_backoff_mult cfg = TCP_CLIENT_DEFAULT_BACKOFF_MULT → reconnect_delay_ms cfg < 2 ^ 24 → reconnect_max_delay_ms cfg < 2 ^ 24 →
  (join_measure w <= k)%nat → world_ok w → w_caller w = P_join a →
  ∃ w', rtc client_step w w' ∧ thread w' = R_none ∧ w_caller w' = next_of a.
Proof.
  intros Hb Hd1 Hd2. revert w. induction k as [|k IH]; intros w Hk Hok Hw;
    destruct (join_progress w a Hb Hd1 Hd2 Hok Hw) as [w1 Hs]; destruct (join_step w w1 a Hok Hw Hs) as [[Hw1 Hlt]|[Ht Hw1]].
  - lia.
  - exists w1. by split; [apply rtc_once|].
  - destruct (IH w1) as (w' & Hrun & Hend); [lia|by eapply client_step_ok|done|]. exists w'. by split; [eapply rtc_l|].
  - exists w1. by split; [apply rtc_once|].
Qed.
End worlds.

(** * Properties *)

Section properties.
Context `{Allocator} `{ClientSocketLaws}.

(** The worlds that runs of a client lead to; [base] are the sockets the rest of the
    program had open when it was made. *)
Record ran (base : gset Z) (cfg : ak_tcp_client_config_t) (w : world) : Prop := {
  rn_delays : 0 <= reconnect_delay_ms cfg ∧ 0 <= reconnect_max_delay_ms cfg;
  rn_buffers : recv_buffer_size cfg < 2 ^ 60 ∧ send_buffer_size cfg < 2 ^ 60;
  rn_run : ∃ ssl n st, store_wf st ∧ (∀ fd, fd ∈ open_sockets n ↔ fd ∈ base) ∧ rtc client_step (new_client_world cfg ssl n st) w;
}.

Lemma ran_ok base cfg w : ran base cfg w → world_ok base cfg w.
Proof.
  intros [[Hd Hm] [Hr Hs] (ssl & n & st & Hst & Hb & Hrun)].
  eapply client_run_ok; [done|done|done|done| |done]. by apply new_client_ok.
Qed.

(** C6: A client and its thread.  In every interleaving of the thread that connects
    again with the program's calls, connecting, disconnecting and freeing:
    the open sockets are those of the rest of the program and one for each connection
    of the client, installed or about to be, that has not closed its own, all
    different, and each of these connections can be used and freed; the thread and
    [ak_tcp_client_connect] never both make a connection; a client that is connected
    has a connection, and one taken while the client was connected is still the
    client's when the program uses it; the number of attempts stays within the limit,
    and the delay between them within the larger of the first and the maximal one;
    and a freed client has left none of its sockets open, and the thread it had is
    over.  Threads that gave up before are not joined and may still be running, which
    [given_up] counts; the memory of the client is not counted here. *)
Theorem ak_tcp_client_runs_spec base cfg w :
  ran base cfg w →
  NoDup (socks (conns w))
  ∧ (∀ fd, fd ∈ open_sockets (w_net w) ↔ (fd ∈ base ∧ (fd ∉ socks (conns w))) ∨ ((fd ∉ base) ∧ fd ∈ socks (conns w)))
  ∧ Forall (λ x, ∃ p cx queue, conn_ok (w_contexts w) (w_net w) x p cx queue) (conns w)
  ∧ (is_connecting (w_caller w) = true → thread w = R_none)
  ∧ (state (client w) = AK_TCP_CLIENT_CONNECTED → is_Some (conn w))
  ∧ (∀ id, w_caller w = P_op id true → ∃ x, conn w = Some (id, x))
  ∧ (0 < reconnect_max_attempts cfg → current_attempt (client w) <= Z.max 1 (reconnect_max_attempts cfg))
  ∧ 0 <= current_reconnect_delay (client w) <= Z.max (reconnect_delay_ms cfg) (reconnect_max_delay_ms cfg)
  ∧ (w_caller w = P_freed → thread w = R_none ∧ ∀ fd, fd ∈ open_sockets (w_net w) ↔ fd ∈ base).
Proof.
  intros [Ho Hc]%ran_ok. pose proof (ow_open _ _ _ _ _ Ho) as Hopen. pose proof (ow_base _ _ _ _ _ Ho) as Hb. simpl in Hopen, Hb.
  split_and!.
  - exact (ow_socks _ _ _ _ _ Ho).
  - intros fd. rewrite Hopen. specialize (Hb fd). destruct (decide (fd ∈ base)), (decide (fd ∈ socks (conns w))); tauto.
  - exact (ow_conns _ _ _ _ _ Ho).
  - intros Hp. pose proof (proj2 (ct_connecting _ _ _ _ _ _ Hc) Hp) as Hs. eapply control_alone; [done|congruence..].
  - apply Hc.
  - intros id Hp. by apply (ct_good _ _ _ _ _ _ Hc).
  - intros HL. by apply (ct_limit _ _ _ _ _ _ Hc).
  - apply Hc.
  - apply Hc.
  - intros Hp. pose proof (ct_closed _ _ _ _ _ _ Hc) as Hcl. rewrite Hp in Hcl. destruct Hcl as [Ht Hk]. split; [done|].
    intros fd. rewrite Hopen. unfold conns. rewrite Hk, Ht, Hp. simpl. rewrite elem_of_nil. tauto.
Qed.

(** C18: Stopping the thread, for a client with the default factor of 2.0 between delays
    and both delays, the first and the maximal one, below 2^24 milliseconds.  Once
    [stop_reconnect_thread] has signalled the thread, it is not asleep and will not
    sleep again, whatever it was doing; every step that is taken lowers a measure of at
    most four and the threads that gave up, or is the end of the join; and the join does
    return, with no thread left.  (With larger delays the thread may come to one
    for which the conversion from [float] in [next_delay] is undefined.) *)
Theorem ak_tcp_client_stop_terminates base cfg w a :
  ran base cfg w → reconnect_backoff_mult cfg = TCP_CLIENT_DEFAULT_BACKOFF_MULT →
  reconnect_delay_ms cfg < 2 ^ 24 → reconnect_max_delay_ms cfg < 2 ^ 24 → w_caller w = P_join a →
  thread w ≠ R_waiting
  ∧ (join_measure w <= 4 + given_up w)%nat
  ∧ (∀ w', client_step w w' →
       (w_caller w' = P_join a ∧ (join_measure w' < join_measure w)%nat) ∨ (thread w' = R_none ∧ w_caller w' = next_of a))
  ∧ (∃ w', client_step w w')
  ∧ ∃ w', rtc client_step w w' ∧ thread w' = R_none ∧ w_caller w' = next_of a.
Proof.
  intros Hran Hb Hd1 Hd2 Hw. pose proof (ran_ok _ _ _ Hran) as Hok. destruct Hran as [[Hd Hm] [Hr Hs] _]. split_and!.
  - by apply (ct_awake _ _ _ _ _ _ (wo_control _ _ _ Hok) a).
  - unfold join_measure. assert (steps_left (thread w) <= 4)%nat by (destruct (thread w); simpl; lia). lia.
  - intros w' Hstep. by eapply join_step.
  - by eapply join_progress.
  - by eapply join_returns.
Qed.
End properties.

(** * Races *)

Section reconnecting_witnesses.
#[local] Existing Instances always_alloc toy_sockets toy_laws toy_client_sockets toy_client_laws.

Definition w_reconnect_config (limit : Z) : ak_tcp_client_config_t :=
  settings_of (mk_client_config (Some (bytes_of "localhost"%str)) 80 None None None 0 0 0 true 0 0 limit 0 false 0 0 0 false
    0 0 0 0 false None None None false None None 0).

(** A network with no more input, and with the peers that answer. *)
Definition w_peers (peers : list (list Z)) : @net toy_sockets := mk_toy [] [] [7] peers.

Definition w_new_world (limit : Z) (peers : list (list Z)) : world :=
  new_client_world (w_reconnect_config limit) None (w_peers peers) Connections.w_contexts.

#[local] Tactic Notation "thread" uconstr(rule) := eapply rtc_l; [apply cs_thread; eapply rule|simpl].
#[local] Tactic Notation "thread" uconstr(rule) "by" tactic3(side) := eapply rtc_l; [apply cs_thread; eapply rule; side|simpl].
#[local] Tactic Notation "program" uconstr(rule) := eapply rtc_l; [apply cs_caller; eapply rule|simpl].
#[local] Tactic Notation "program" uconstr(rule) "by" tactic3(side) := eapply rtc_l; [apply cs_caller; eapply rule; side|simpl].

Ltac computed := vm_compute; reflexivity.

(** [ak_tcp_client_connect]. *)
Ltac dials := program (ps_connect _ _ _ _ _ _ _) by computed; program (ps_dial _ _ _ _ _ _ _ None mem0) by computed.
Ltac connects := dials; program (ps_install _ _ _ _ _ _ _ _ mem0) by computed.

(** The first attempt of a thread that has been made. *)
Ltac attempts :=
  thread (rs_go_on _ _ _ _ _ _ _) by computed; thread (rs_wait _ _ _ _ _ _ _); thread (rs_wake _ _ _ _ _ _ _);
  thread (rs_waited _ _ _ _ _ _ _); thread (rs_attempt _ _ _ _ _ _ _); thread (rs_dial _ _ _ _ _ _ _ None mem0) by computed;
  thread (rs_install _ _ _ _ _ _ _ _ mem0) by computed.

(** The program receives from its connection, finds it lost, and calls [start_reconnect_thread]. *)
Ltac receives :=
  program (ps_call _ _ _ _ _ _ _ _ _) by (eapply (cc_recv _ _ _ _ (Some w_buffer) 10 None mem0); [lia|computed]);
  program (ps_reconnect _ _ _ _ _ _ _) by (right; reflexivity).

Lemma gave_up_run : ∃ w, rtc client_step (w_new_world 1 []) w ∧ w_caller w = P_freed ∧ given_up w = 1%nat.
Proof.
  eexists. split.
  - dials. program (ps_reconnect _ _ _ _ _ _ _) by (left; split; reflexivity). program (ps_create _ _ _ _ _ _).
    thread (rs_too_many _ _ _ _ _ _ _) by computed. program (ps_disconnect _ _ _ _ _ _ _ true). program (ps_stop _ _ _ _ _ _ _ _).
    program (ps_close _ _ _ _ _ _ _ _ mem0) by computed.
    program (ps_free _ _ _ _ _ _ _ (mk_lstore ∅ 1 []) mem0) by computed. apply rtc_refl.
  - done.
Qed.

Lemma stale_run : ∃ w id x y, rtc client_step (w_new_world 0 [[]; []]) w ∧ w_caller w = P_op id false ∧ conn w = Some (y, x) ∧ id ≠ y.
Proof.
  do 4 eexists. split_and!.
  - connects. program (ps_context _ _ _ _ _ _ _ _). receives. program (ps_create _ _ _ _ _ _). program (ps_context _ _ _ _ _ _ _ _).
    attempts. apply rtc_refl.
  - reflexivity.
  - reflexivity.
  - done.
Qed.

Lemma lost_run : ∃ w x id, rtc client_step (w_new_world 0 [[]; []]) w ∧ w_caller w = P_idle ∧ conn w = Some (id, x) ∧ alive x = false
  ∧ state (client w) = AK_TCP_CLIENT_CONNECTED ∧ auto_reconnect (settings (client w)) = true ∧ thread w = R_none ∧ given_up w = O.
Proof.
  do 3 eexists. split_and!.
  - connects. program (ps_context _ _ _ _ _ _ _ _). receives. program (ps_create _ _ _ _ _ _).
    attempts. program (ps_context _ _ _ _ _ _ _ _). receives. thread (rs_connected _ _ _ _ _ _ _). apply rtc_refl.
  - reflexivity.
  - reflexivity.
  - reflexivity.
  - reflexivity.
  - reflexivity.
  - reflexivity.
  - reflexivity.
Qed.

Lemma reconnecting_run : ∃ w, rtc client_step (w_new_world 0 []) w ∧ w_caller w = P_idle ∧ thread w = R_none ∧ given_up w = O
  ∧ connect_begin (client w) = In_progress.
Proof.
  eexists. split_and!.
  - dials. program (ps_reconnect _ _ _ _ _ _ _) by (left; split; reflexivity). program (ps_create _ _ _ _ _ _).
    program (ps_auto _ _ _ _ _ _ _ false). program (ps_stop _ _ _ _ _ _ _ _). thread (rs_leave _ _ _ _ _ _ _) by computed.
    program (ps_join _ _ _ _ _ _ _). apply rtc_refl.
  - reflexivity.
  - reflexivity.
  - reflexivity.
  - reflexivity.
Qed.

Lemma join_run : ∃ w, rtc client_step (w_new_world 0 []) w ∧ w_caller w = P_join To_idle ∧ thread w = R_waited.
Proof.
  eexists. split_and!.
  - dials. program (ps_reconnect _ _ _ _ _ _ _) by (left; split; reflexivity). program (ps_create _ _ _ _ _ _).
    program (ps_auto _ _ _ _ _ _ _ false). thread (rs_go_on _ _ _ _ _ _ _) by computed. thread (rs_wait _ _ _ _ _ _ _).
    program (ps_stop _ _ _ _ _ _ _ _). apply rtc_refl.
  - reflexivity.
  - reflexivity.
Qed.

Lemma w_ran limit peers w :
  rtc client_step (w_new_world limit peers) w → ran {[7]} (w_reconnect_config limit) w.
Proof.
  intros Hrun. split; [done|done|]. exists None, (w_peers peers), Connections.w_contexts. split_and!; [|intros fd; set_solver|done].
  intros p c Hp. simpl in Hp. by rewrite lookup_empty in Hp.
Qed.

(** C21: What the client does not promise, each with a run that shows it on a network
    that closes its connections.  A thread that gave up may call [on_disconnect] when
    the client is freed already.  A connection the program took while the thread was
    at work is freed by it.  When the connection is lost before the thread has ended,
    no thread is started: the client stays connected, to a dead connection.  And
    [ak_tcp_client_set_auto_reconnect] may leave the client reconnecting without a
    thread, where [ak_tcp_client_connect] answers that a connection is in progress. *)
Theorem ak_tcp_client_races :
  (∃ w, rtc client_step (w_new_world 1 []) w ∧ w_caller w = P_freed ∧ given_up w = 1%nat)
  ∧ (∃ w id x y, rtc client_step (w_new_world 0 [[]; []]) w ∧ w_caller w = P_op id false ∧ conn w = Some (y, x) ∧ id ≠ y)
  ∧ (∃ w x id, rtc client_step (w_new_world 0 [[]; []]) w ∧ w_caller w = P_idle ∧ conn w = Some (id, x) ∧ alive x = false
       ∧ state (client w) = AK_TCP_CLIENT_CONNECTED ∧ auto_reconnect (settings (client w)) = true ∧ thread w = R_none ∧ given_up w = O)
  ∧ (∃ w, rtc client_step (w_new_world 0 []) w ∧ w_caller w = P_idle ∧ thread w = R_none ∧ given_up w = O
       ∧ connect_begin (client w) = In_progress).
Proof. split_and!; [exact gave_up_run|exact stale_run|exact lost_run|exact reconnecting_run]. Qed.

(** * Witnesses *)

Lemma ak_tcp_client_runs_spec_witness :
  ∃ w, ran {[7]} (w_reconnect_config 1) w ∧ thread w = R_none ∧ ∀ fd, fd ∈ open_sockets (w_net w) ↔ fd ∈ ({[7]} : gset Z).
Proof.
  destruct gave_up_run as (w & Hrun & Hw & _). apply w_ran in Hrun. exists w. split; [done|].
  by apply (ak_tcp_client_runs_spec {[7]} (w_reconnect_config 1) w Hrun).
Defined.

Lemma ak_tcp_client_stop_terminates_witness :
  ∃ w, ran {[7]} (w_reconnect_config 0) w ∧ thread w = R_waited
    ∧ ∃ w', rtc client_step w w' ∧ thread w' = R_none ∧ w_caller w' = P_idle.
Proof.
  destruct join_run as (w & Hrun & Hw & Ht). apply w_ran in Hrun. exists w. split; [done|]. split; [done|].
  by apply (ak_tcp_client_stop_terminates {[7]} (w_reconnect_config 0) w To_idle Hrun).
Defined.
End reconnecting_witnesses.
