(* ===== verification/Modules.v ===== *)
(** Modules loaded from shared libraries: [kernel/src/modules.c].

    The dynamic loader and the libraries are calls on a state that is a parameter,
    with their documented behaviour as laws.  Instances and handles are shared by
    pointer and live in stores, as lambdas do.  Calling a function that is in no
    loaded library is undefined.  A path is the string it is when it is used: the
    registry keeps the pointer of the caller, who must keep the string. *)

From Stdlib Require String.
From stdpp Require Import gmap.
From S2P Require Import Prelude Lambdas Maps.
Import Stdlib.Strings.String.StringSyntax.
#[local] Delimit Scope string_scope with str.

(** A message is one of the code's, or a pointer that the loader or a module gave. *)
Inductive message : Type :=
| Text (s : String.string)
| Foreign (p : Z).

(** [const char **error], null when there is no place for a message. *)
Definition error_ptr : Type := option (option message).

Definition set_error (error : error_ptr) (m : message) : error_ptr :=
  match error with
  | None => None
  | Some _ => Some (Some m)
  end.

Inductive ak_module_result_e : Type :=
| AK_MODULE_OK
| AK_MODULE_ERROR_VERSION
| AK_MODULE_ERROR_INIT
| AK_MODULE_ERROR_INVALID.

Definition AK24_MODULE_API_VERSION : Z := 1.

Inductive module_state_e : Type :=
| MODULE_STATE_LOADING
| MODULE_STATE_LOADED
| MODULE_STATE_UNLOADING
| MODULE_STATE_FAILED.

#[export] Instance module_state_eq_dec : EqDecision module_state_e.
Proof. solve_decision. Defined.

(** * The loader *)

(** Handles and addresses are numbers, null is 0.  [call_...] is what a function of a
    module does when it is called through its address. *)
Class Loader := {
  loader : Type;
  dlopen : cstr → loader → Z * loader;
  dlerror : loader → Z * loader;
  dlsym : Z → String.string → loader → Z;
  dlclose : Z → loader → loader;
  (** None: the address is in no object; the name may be missing. *)
  dladdr : Z → loader → option (option cstr);
  call_version : Z → loader → Z * loader;
  call_init : Z → loader → ak_module_result_e * Z * Z * loader;
  call_deinit : Z → Z → loader → loader;
  call_info : Z → cstr → loader → Z * loader;
  call_get : Z → Z → cstr → loader → Z * loader;
}.

(** The loader counts how often each library is open ([dlopen(3)]).  While one stays
    open its symbols keep their addresses, which are inside it.  The functions of a
    module do not load or unload libraries. *)
Class LoaderLaws `{Loader} := {
  refs : loader → Z → nat;
  stays (w w' : loader) : Prop := ∀ h s, (0 < refs w h)%nat → (0 < refs w' h)%nat →
    dlsym h s w' = dlsym h s w ∧ dladdr (dlsym h s w) w' = dladdr (dlsym h s w) w;
  dlopen_law path w h w' : dlopen path w = (h, w') →
    stays w w' ∧ ((h = 0 ∧ ∀ k, refs w' k = refs w k)
                  ∨ (h ≠ 0 ∧ refs w' h = S (refs w h) ∧ ∀ k, k ≠ h → refs w' k = refs w k));
  dlclose_law h w : (0 < refs w h)%nat →
    stays w (dlclose h w) ∧ refs w h = S (refs (dlclose h w) h) ∧ ∀ k, k ≠ h → refs (dlclose h w) k = refs w k;
  dlsym_law h s w : (0 < refs w h)%nat → dlsym h s w ≠ 0 → dladdr (dlsym h s w) w ≠ None;
  dlerror_law w m w' : dlerror w = (m, w') → stays w w' ∧ ∀ k, refs w' k = refs w k;
  call_version_law f w r w' : call_version f w = (r, w') → stays w w' ∧ ∀ k, refs w' k = refs w k;
  call_init_law f w r ctx e w' : call_init f w = (r, ctx, e, w') → stays w w' ∧ ∀ k, refs w' k = refs w k;
  call_deinit_law f ctx w : stays w (call_deinit f ctx w) ∧ ∀ k, refs (call_deinit f ctx w) k = refs w k;
  call_info_law f key w r w' : call_info f key w = (r, w') → stays w w' ∧ ∀ k, refs w' k = refs w k;
  call_get_law f ctx name w r w' : call_get f ctx name w = (r, w') → stays w w' ∧ ∀ k, refs w' k = refs w k;
}.

(** * Data *)

Record ak_module_vtable_t := mk_vtable {
  ak_module_version : Z;
  ak_module_init : Z;
  ak_module_deinit : Z;
  ak_module_info : Z;
  ak_module_get_function : Z;
  ak_module_get_function_signature : Z;
}.

Record ak_module_load_options_t := mk_options {
  module_path : option cstr;
  o_unload_callback : option positive;
  o_unload_callback_ctx : Z;
  o_thread_safe : bool;
}.

(** [access_mutex]: whether there is one. *)
Record module_instance_t := mk_instance {
  dl_handle : Z;
  path : cstr;
  module_ctx : Z;
  vtable : ak_module_vtable_t;
  unload_callback : option positive;
  unload_callback_ctx : Z;
  access_mutex : bool;
  ref_count : Z;
  state : module_state_e;
  thread_safe : bool;
}.

Record ak_module_handle_t := mk_handle {
  module_handle : Z;
  h_module_ctx : Z;
  h_vtable : ak_module_vtable_t;
  unload_cb : option positive;
  unload_cb_ctx : Z;
  h_thread_safe : bool;
  lock : bool;
  internal_instance : option positive;
}.

(** The registry that the paths lead to instances in. *)
Definition module_manager_t : Type := map_base_t cstr positive.

Definition sizeof_module_manager_t : Z := 72.
Definition sizeof_module_instance_t : Z := 112.
Definition sizeof_ak_module_handle_t : Z := 104.
Definition sizeof_ak_module_ctx_t : Z := 24.
Definition sizeof_mutex : Z := 40.
Definition offsetof_access_mutex : Z := 88.

Section operations.
Context `{Allocator} `{Loader}.

(** What the code works on. *)
Record modules := mk_modules {
  g_module_manager : option module_manager_t;
  instances : gmap positive module_instance_t;
  handles : gmap positive ak_module_handle_t;
  next_object : positive;
  lams : lstore;
  dl : loader;
}.

Definition with_manager (w : modules) (m : module_manager_t) : modules :=
  mk_modules (Some m) (instances w) (handles w) (next_object w) (lams w) (dl w).

Definition with_dl (w : modules) (d : loader) : modules :=
  mk_modules (g_module_manager w) (instances w) (handles w) (next_object w) (lams w) d.

Definition with_lams (w : modules) (l : lstore) : modules :=
  mk_modules (g_module_manager w) (instances w) (handles w) (next_object w) l (dl w).

Definition add_instance (w : modules) (i : module_instance_t) : positive * modules :=
  (next_object w, mk_modules (g_module_manager w) (<[next_object w := i]> (instances w)) (handles w)
                    (Pos.succ (next_object w)) (lams w) (dl w)).

Definition set_instance (w : modules) (p : positive) (i : module_instance_t) : modules :=
  mk_modules (g_module_manager w) (<[p := i]> (instances w)) (handles w) (next_object w) (lams w) (dl w).

Definition drop_instance (w : modules) (p : positive) : modules :=
  mk_modules (g_module_manager w) (delete p (instances w)) (handles w) (next_object w) (lams w) (dl w).

Definition add_handle (w : modules) (h : ak_module_handle_t) : positive * modules :=
  (next_object w, mk_modules (g_module_manager w) (instances w) (<[next_object w := h]> (handles w))
                    (Pos.succ (next_object w)) (lams w) (dl w)).

Definition drop_handle (w : modules) (p : positive) : modules :=
  mk_modules (g_module_manager w) (instances w) (delete p (handles w)) (next_object w) (lams w) (dl w).

Definition deref_instance (w : modules) (p : positive) : outcome module_instance_t :=
  match instances w !! p with
  | Some i => Ret i
  | None => Undef
  end.

Definition deref_handle (w : modules) (p : positive) : outcome ak_module_handle_t :=
  match handles w !! p with
  | Some h => Ret h
  | None => Undef
  end.

(** Calling through an address that is in no object is undefined. *)
Definition mapped {A} (f : Z) (d : loader) (r : A) : outcome A :=
  match dladdr f d with
  | None => Undef
  | Some _ => Ret r
  end.

Definition verify_function_in_module (fn_ptr : Z) (expected_path : cstr) (d : loader) : bool :=
  if fn_ptr =? 0 then false else
  match dladdr fn_ptr d with
  | Some (Some name) => map_cmp_str (chars name) (chars expected_path) =? 0
  | _ => false
  end.

Definition validate_module_ctx (ctx : Z) : bool :=
  if ctx =? 0 then false else
  if negb (Z.land ctx 7 =? 0) then false else true.

Definition get_or_create_manager (w : modules) : M (option module_manager_t * modules) :=
  match g_module_manager w with
  | Some m => mret (Some m, w)
  | None =>
      ok ← alloc_obj sizeof_module_manager_t;
      if negb ok then mret (None, w) else
      let m := map_init_generic 8 in
      mret (Some m, with_manager w m)
  end.

(** [if (instance->access_mutex) { destroy it; free it; }] *)
Definition free_mutex (access_mutex : bool) : M () :=
  if access_mutex then free_obj else mret ().

(** The instance before the mutex is made, with the bytes of its block. *)
Definition create_module_instance (options : ak_module_load_options_t) (error : error_ptr) (w : modules)
    : M (option positive * error_ptr * modules) :=
  let fail m w := mret (None, set_error error (Text m), w) in
  match module_path options with
  | None => fail "Invalid module load options"%str w
  | Some module_path =>
      let '(h, d) := dlopen module_path (dl w) in
      if h =? 0 then
        match error with
        | None => mret (None, error, with_dl w d)
        | Some _ =>
            let '(m, d) := dlerror d in
            mret (None, set_error error (if m =? 0 then Text "Failed to load module"%str else Foreign m), with_dl w d)
        end
      else
        let vt := mk_vtable (dlsym h "ak_module_version"%str d) (dlsym h "ak_module_init"%str d)
          (dlsym h "ak_module_deinit"%str d) (dlsym h "ak_module_info"%str d)
          (dlsym h "ak_module_get_function"%str d) (dlsym h "ak_module_get_function_signature"%str d) in
        if (ak_module_version vt =? 0) || (ak_module_init vt =? 0) || (ak_module_deinit vt =? 0) || (ak_module_info vt =? 0)
        then fail "Module missing required functions"%str (with_dl w (dlclose h d)) else
        '(version, d) ← lift (mapped (ak_module_version vt) d (call_version (ak_module_version vt) d));
        if negb (version =? AK24_MODULE_API_VERSION)
        then fail "Module API version mismatch"%str (with_dl w (dlclose h d)) else
        block ← alloc_bytes sizeof_module_instance_t;
        match block with
        | None => fail "Failed to allocate module instance"%str (with_dl w (dlclose h d))
        | Some block =>
            ok ← alloc_obj (zlen (chars module_path) + 1);
            if negb ok then
              _ ← free_obj; fail "Failed to allocate path string"%str (with_dl w (dlclose h d)) else
            if negb (verify_function_in_module (ak_module_version vt) module_path d) then
              (* [access_mutex] is what the block held *)
              let held := take 8 (drop (Z.to_nat offsetof_access_mutex) block) in
              if negb (forallb (λ b, b =? 0) held) then lift Undef else
              _ ← free_obj; _ ← free_obj; fail "Function pointer validation failed"%str (with_dl w (dlclose h d)) else
            ok ← (if o_thread_safe options then alloc_obj sizeof_mutex else mret true);
            if negb ok then
              _ ← free_obj; _ ← free_obj; fail "Failed to allocate mutex"%str (with_dl w (dlclose h d)) else
            let mutex := o_thread_safe options in
            '(result, ctx, init_error, d) ← lift (mapped (ak_module_init vt) d (call_init (ak_module_init vt) d));
            match result with
            | AK_MODULE_OK =>
                if negb (validate_module_ctx ctx) then
                  d ← lift (mapped (ak_module_deinit vt) d (call_deinit (ak_module_deinit vt) ctx d));
                  _ ← free_mutex mutex; _ ← free_obj; _ ← free_obj;
                  fail "Module context validation failed"%str (with_dl w (dlclose h d))
                else
                  let i := mk_instance h module_path ctx vt (o_unload_callback options) (o_unload_callback_ctx options)
                    mutex 0 MODULE_STATE_LOADED (o_thread_safe options) in
                  let '(p, w) := add_instance (with_dl w d) i in
                  mret (Some p, error, w)
            | _ =>
                _ ← free_mutex mutex; _ ← free_obj; _ ← free_obj;
                mret (None, set_error error (if init_error =? 0 then Text "Module init failed"%str else Foreign init_error),
                      with_dl w (dlclose h d))
            end
        end
  end.

(** [atomic_store(&state, MODULE_STATE_UNLOADING)] *)
Definition set_unloading (p : positive) (w : modules) : outcome modules :=
  i ← deref_instance w p;
  Ret (set_instance w p (mk_instance (dl_handle i) (path i) (module_ctx i) (vtable i) (unload_callback i) (unload_callback_ctx i)
                           (access_mutex i) (ref_count i) MODULE_STATE_UNLOADING (thread_safe i))).

(** One turn of [while (ref_count > 0)]. *)
Definition still_used (p : positive) (w : modules) : outcome bool :=
  i ← deref_instance w p;
  Ret (0 <? ref_count i).

(** The rest of [destroy_module_instance]. *)
Definition release_instance (p : positive) (w : modules) : M modules :=
  i ← lift (deref_instance w p);
  lams' ← lift (match unload_callback i with
                | Some _ => ak_lambda_invoke (lams w) (unload_callback i) (unload_callback_ctx i)
                | None => Ret (lams w)
                end);
  let w := with_lams w lams' in
  d ← lift (if negb (ak_module_deinit (vtable i) =? 0) && negb (module_ctx i =? 0)
            then mapped (ak_module_deinit (vtable i)) (dl w) (call_deinit (ak_module_deinit (vtable i)) (module_ctx i) (dl w))
            else Ret (dl w));
  let d := if negb (dl_handle i =? 0) then dlclose (dl_handle i) d else d in
  _ ← free_mutex (access_mutex i);
  _ ← free_obj;
  _ ← free_obj;
  mret (drop_instance (with_dl w d) p).

(** When nothing else runs, the wait for a count that is not zero never ends. *)
Definition destroy_module_instance (instance : option positive) (w : modules) : M modules :=
  match instance with
  | None => mret w
  | Some p =>
      w ← lift (set_unloading p w);
      used ← lift (still_used p w);
      if used : bool then lift Hang else release_instance p w
  end.

(** The loop takes a key, and then the value of it.  The call is never made. *)
Definition destroy_manager (mgr : option module_manager_t) (w : modules) : M modules :=
  match mgr with
  | None => mret w
  | Some m =>
      w ← loopM (S (S (Z.to_nat (nnodes m)))) (λ '(iter, w),
            '(key, iter) ← lift (map_next_ m iter);
            match key with
            | None => mret (inr w)
            | Some key =>
                inst ← lift (map_get_ m key);
                w ← destroy_module_instance inst w;
                mret (inl (iter, w))
            end) (map_iter_, w);
      _ ← map_deinit_ m;
      _ ← free_obj;
      mret w
  end.

(** The key of a null path is not read as long as the registry has no buckets. *)
Definition find_loaded (m : module_manager_t) (path : option cstr) : outcome (option positive) :=
  match path with
  | Some path => map_get_ m path
  | None => if 0 <? nbuckets m then Undef else Ret None
  end.

Definition load_module_impl (options : ak_module_load_options_t) (error : error_ptr) (w : modules)
    : M (option positive * error_ptr * modules) :=
  '(mgr, w) ← get_or_create_manager w;
  match mgr with
  | None => mret (None, set_error error (Text "Failed to initialize module manager"%str), w)
  | Some m =>
      existing ← lift (find_loaded m (module_path options));
      match existing with
      | Some _ => mret (None, set_error error (Text "Module already loaded"%str), w)
      | None =>
          '(instance, error, w) ← create_module_instance options error w;
          match instance, module_path options with
          | Some p, Some module_path =>
              '(_, m) ← map_set_ m module_path p 8;
              let w := with_manager w m in
              ok ← alloc_obj sizeof_ak_module_handle_t;
              if negb ok then
                m ← map_remove_ m module_path;
                w ← destroy_module_instance (Some p) (with_manager w m);
                mret (None, set_error error (Text "Failed to allocate module handle"%str), w)
              else
                i ← lift (deref_instance w p);
                let h := mk_handle (dl_handle i) (module_ctx i) (vtable i) (unload_callback i) (unload_callback_ctx i)
                  (thread_safe i) (access_mutex i) (Some p) in
                let '(hp, w) := add_handle w h in
                mret (Some hp, error, w)
          | _, _ => mret (None, error, w)
          end
      end
  end.

(** The first instance of the registry that has this library, with its path. *)
Definition find_by_handle (m : module_manager_t) (h : Z) (w : modules) : outcome (option (positive * cstr)) :=
  loop (S (S (Z.to_nat (nnodes m)))) (λ iter,
    '(key, iter) ← map_next_ m iter;
    match key with
    | None => Ret (inr None)
    | Some key =>
        inst ← map_get_ m key;
        match inst with
        | None => Ret (inl iter)
        | Some p =>
            i ← deref_instance w p;
            Ret (if dl_handle i =? h then inr (Some (p, key)) else inl iter)
        end
    end) map_iter_.

(** [unload_module_impl] under the mutex: the instance to destroy, if it is not
    refused. *)
Definition begin_unload (hp : positive) (error : error_ptr) (w : modules) : M (option positive * error_ptr * modules) :=
  let fail m w := mret (None, set_error error (Text m), w) in
  '(mgr, w) ← get_or_create_manager w;
  match mgr with
  | None => fail "Module manager not initialized"%str w
  | Some m =>
      h ← lift (deref_handle w hp);
      found ← lift (find_by_handle m (module_handle h) w);
      match found with
      | None => fail "Module not found in registry"%str w
      | Some (p, found_path) =>
          i ← lift (deref_instance w p);
          match state i with
          | MODULE_STATE_UNLOADING => fail "Module is already being unloaded"%str w
          | MODULE_STATE_LOADING => fail "Module is still loading"%str w
          | MODULE_STATE_FAILED => fail "Module is in invalid state"%str w
          | MODULE_STATE_LOADED =>
              if 0 <? ref_count i then fail "Module still in use"%str w else
              m ← map_remove_ m found_path;
              mret (Some p, error, with_manager w m)
          end
      end
  end.

Definition unload_module_impl (handle : option positive) (error : error_ptr) (w : modules)
    : M (bool * error_ptr * modules) :=
  match handle with
  | None => mret (false, set_error error (Text "Invalid module handle"%str), w)
  | Some hp =>
      '(found, error, w) ← begin_unload hp error w;
      match found with
      | None => mret (false, error, w)
      | Some p =>
          w ← destroy_module_instance (Some p) w;
          _ ← free_obj;
          mret (true, error, drop_handle w hp)
      end
  end.

(** The context is the two functions and the manager: whether there is one. *)
Definition ak_module_get_system_ctx (w : modules) : M (bool * modules) :=
  '(mgr, w) ← get_or_create_manager w;
  match mgr with
  | None => mret (false, w)
  | Some _ => ok ← alloc_obj sizeof_ak_module_ctx_t; mret (ok, w)
  end.

Definition ak_module_free_system_ctx (ctx : bool) : M () :=
  if negb ctx then mret () else free_obj.

(** The handle and its instance, when it is loaded. *)
Definition loaded_instance (handle : option positive) (w : modules)
    : outcome (option (ak_module_handle_t * positive * module_instance_t)) :=
  match handle with
  | None => Ret None
  | Some hp =>
      h ← deref_handle w hp;
      match internal_instance h with
      | None => Ret None
      | Some p =>
          i ← deref_instance w p;
          Ret (if bool_decide (state i = MODULE_STATE_LOADED) then Some (h, p, i) else None)
      end
  end.

Definition ak_handle_get_info (handle : option positive) (key : option cstr) (w : modules) : outcome (Z * modules) :=
  match key with
  | None => Ret (0, w)
  | Some key =>
      found ← loaded_instance handle w;
      match found with
      | None => Ret (0, w)
      | Some (h, _, _) =>
          '(r, d) ← mapped (ak_module_info (h_vtable h)) (dl w) (call_info (ak_module_info (h_vtable h)) key (dl w));
          Ret (r, with_dl w d)
      end
  end.

(** [atomic_fetch_add(&ref_count, n)] *)
Definition count_ref (w : modules) (p : positive) (n : Z) : outcome modules :=
  i ← deref_instance w p;
  Ret (set_instance w p (mk_instance (dl_handle i) (path i) (module_ctx i) (vtable i) (unload_callback i) (unload_callback_ctx i)
                           (access_mutex i) (u64 (ref_count i + n)) (state i) (thread_safe i))).

(** A call of the module's [f] between the counting of a reference and its return. *)
Definition counted_call (f : Z) (h : ak_module_handle_t) (p : positive) (name : cstr) (w : modules) : outcome (Z * modules) :=
  w ← count_ref w p 1;
  '(r, d) ← mapped f (dl w) (call_get f (h_module_ctx h) name (dl w));
  w ← count_ref (with_dl w d) p (-1);
  Ret (r, w).

Definition ak_handle_get_function (handle : option positive) (function_name : option cstr) (w : modules)
    : outcome (Z * modules) :=
  match function_name with
  | None => Ret (0, w)
  | Some name =>
      found ← loaded_instance handle w;
      match found with
      | None => Ret (0, w)
      | Some (h, p, _) =>
          let f := ak_module_get_function (h_vtable h) in
          if f =? 0 then Ret (0, w) else counted_call f h p name w
      end
  end.

Definition ak_handle_get_function_signature (handle : option positive) (function_name : option cstr) (w : modules)
    : outcome (Z * modules) :=
  match function_name with
  | None => Ret (0, w)
  | Some name =>
      found ← loaded_instance handle w;
      match found with
      | None => Ret (0, w)
      | Some (h, p, _) =>
          let f := ak_module_get_function_signature (h_vtable h) in
          if f =? 0 then Ret (0, w) else counted_call f h p name w
      end
  end.
End operations.

(** * Representation *)

Section representation.
Context `{Allocator} `{LoaderLaws}.

Definition vtable_of (h : Z) (d : loader) : ak_module_vtable_t :=
  mk_vtable (dlsym h "ak_module_version"%str d) (dlsym h "ak_module_init"%str d)
    (dlsym h "ak_module_deinit"%str d) (dlsym h "ak_module_info"%str d)
    (dlsym h "ak_module_get_function"%str d) (dlsym h "ak_module_get_function_signature"%str d).

(** The loaded modules of the registry, by path. *)
Definition registry (w : modules) : gmap cstr positive :=
  match g_module_manager w with
  | Some m => entries m
  | None => ∅
  end.

Definition manager_blocks (w : modules) : Z :=
  match g_module_manager w with
  | Some m => 1 + owned m
  | None => 0
  end.

(** How many instances have a library open. *)
Definition open_with (h : Z) (insts : gmap positive module_instance_t) : nat := size (filter (λ pi, dl_handle pi.2 = h) insts).

Definition callback_live (l : lstore) (callback : option positive) : Prop :=
  match callback with
  | Some p => is_Some (lambdas l !! p)
  | None => True
  end.

(** An instance between calls: its functions are those of its library, whose file is
    the one of its path. *)
Record instance_ok (d : loader) (i : module_instance_t) : Prop := {
  io_state : state i = MODULE_STATE_LOADED;
  io_refs : ref_count i = 0;
  io_handle : dl_handle i ≠ 0;
  io_vtable : vtable i = vtable_of (dl_handle i) d;
  io_deinit : ak_module_deinit (vtable i) ≠ 0;
  io_info : ak_module_info (vtable i) ≠ 0;
  io_file : dladdr (ak_module_version (vtable i)) d = Some (Some (path i));
  io_ctx : validate_module_ctx (module_ctx i) = true;
}.

(** A handle has what its instance has. *)
Definition handle_of (p : positive) (i : module_instance_t) : ak_module_handle_t :=
  mk_handle (dl_handle i) (module_ctx i) (vtable i) (unload_callback i) (unload_callback_ctx i) (thread_safe i) (access_mutex i)
    (Some p).

(** Between calls; [base]: how often the rest of the program has each library open. *)
Record modules_ok (base : Z → nat) (w : modules) : Prop := {
  mo_manager m : g_module_manager w = Some m → map_wf m;
  mo_registry k p : registry w !! k = Some p → ∃ i, instances w !! p = Some i ∧ path i = k;
  mo_instances p i : instances w !! p = Some i → instance_ok (dl w) i ∧ callback_live (lams w) (unload_callback i);
  mo_handles hp h : handles w !! hp = Some h → ∃ p i, instances w !! p = Some i ∧ h = handle_of p i;
  mo_apart hp hq h : handles w !! hp = Some h → handles w !! hq = Some h → hp = hq;
  mo_open h : refs (dl w) h = (base h + open_with h (instances w))%nat;
  mo_fresh p : (next_object w <= p)%positive → instances w !! p = None ∧ handles w !! p = None;
}.

(** ** Loader states *)

Definition quiet (d d' : loader) : Prop := stays d d' ∧ ∀ h, refs d' h = refs d h.
Definition opened (h : Z) (d d' : loader) : Prop := stays d d' ∧ refs d' h = S (refs d h) ∧ ∀ k, k ≠ h → refs d' k = refs d k.

Lemma stays_refl d : stays d d.
Proof. by intros h s _ _. Qed.

Lemma stays_trans d1 d2 d3 :
  stays d1 d2 → stays d2 d3 → (∀ h, (0 < refs d1 h)%nat → (0 < refs d3 h)%nat → (0 < refs d2 h)%nat) → stays d1 d3.
Proof.
  intros H12 H23 Hmid h s Hp1 Hp3. specialize (Hmid h Hp1 Hp3). destruct (H12 h s Hp1 Hmid) as [E1 E2], (H23 h s Hmid Hp3) as [E3 E4].
  split; [congruence|]. rewrite <- E1. rewrite E4. by rewrite E1.
Qed.

Lemma quiet_refl d : quiet d d.
Proof. split; [apply stays_refl|done]. Qed.

Lemma quiet_trans d1 d2 d3 : quiet d1 d2 → quiet d2 d3 → quiet d1 d3.
Proof.
  intros [S1 R1] [S2 R2]. split; [|intros h; by rewrite R2]. eapply stays_trans; [done|done|]. intros h. by rewrite R1.
Qed.

Lemma opened_quiet h d1 d2 d3 : opened h d1 d2 → quiet d2 d3 → opened h d1 d3.
Proof.
  intros (S1 & R1 & O1) [S2 R2]. split_and!; [|by rewrite R2|intros k Hk; rewrite R2; by apply O1].
  eapply stays_trans; [done|done|]. intros k Hk1. by rewrite R2.
Qed.

Lemma opened_closed h d1 d2 : opened h d1 d2 → quiet d1 (dlclose h d2).
Proof.
  intros (S1 & R1 & O1). destruct (dlclose_law h d2) as (S2 & R2 & O2); [lia|].
  assert (∀ k, refs (dlclose h d2) k = refs d1 k) as Hr.
  { intros k. destruct (decide (k = h)) as [->|Hk]; [lia|]. rewrite O2, O1; done. }
  split; [|done]. eapply stays_trans; [done|done|]. intros k Hk1 _. destruct (decide (k = h)) as [->|Hk]; [lia|]. by rewrite O1.
Qed.

Lemma vtable_stays h d d' : stays d d' → (0 < refs d h)%nat → (0 < refs d' h)%nat → vtable_of h d' = vtable_of h d.
Proof.
  intros Hs Hd Hd'. unfold vtable_of.
  f_equal; by apply Hs.
Qed.

(** An instance stays as it is while its library is open. *)
Lemma instance_stays d d' i :
  instance_ok d i → stays d d' → (0 < refs d (dl_handle i))%nat → (0 < refs d' (dl_handle i))%nat → instance_ok d' i.
Proof.
  intros [S R Hh V D I F C] Hs Hd Hd'. split; try done; [by rewrite (vtable_stays _ d)|].
  rewrite V in *. simpl in *. destruct (Hs _ "ak_module_version"%str Hd Hd') as [_ ->]. done.
Qed.

(** A function of an open library can be called. *)
Lemma mapped_ok {A} h s d (r : A) Q :
  (0 < refs d h)%nat → dlsym h s d ≠ 0 → Q r → wpo (mapped (dlsym h s d) d r) Q.
Proof.
  intros Hd Hs HQ. unfold mapped. pose proof (dlsym_law h s d Hd Hs). by destruct (dladdr (dlsym h s d) d).
Qed.

(** ** Making and destroying an instance *)

Definition mutex_blocks (b : bool) : Z := if b then 1 else 0.

Lemma free_mutex_ok b s : wp (free_mutex b) (λ _ s', m_live s' = m_live s - mutex_blocks b ∧ m_fails s' = m_fails s) s.
Proof. destruct b; simpl; [apply wp_free_obj; intros s' HL HF; by split|wsteps; split; [lia|done]]. Qed.

(** The state after a function of an opened library has been called. *)
Lemma call_opened h d1 d2 d3 : opened h d1 d2 → (stays d2 d3 ∧ ∀ k, refs d3 k = refs d2 k) → opened h d1 d3.
Proof. intros Ho Hq. by eapply opened_quiet. Qed.

Lemma verify_ok f path d :
  verify_function_in_module f path d = true → f ≠ 0 ∧ dladdr f d = Some (Some path).
Proof.
  unfold verify_function_in_module. destruct (Z.eqb_spec f 0); [done|]. destruct (dladdr f d) as [[name|]|]; [|done..].
  intros Hc%Z.eqb_eq. split; [done|]. do 2 f_equal. by apply (cmp_fn_eq (MapKeyLaws := cstr_key_laws)).
Qed.

(** Whether the allocator hands out blocks of zeroes, as the collector does. *)
Definition clears : Prop := ∀ n i, u8 (alloc_fill n i) = 0.

Lemma module_block_cleared n size : clears → forallb (λ b, b =? 0) (take 8 (drop (Z.to_nat offsetof_access_mutex) (fresh_bytes n size))) = true.
Proof.
  intros Hc. apply Is_true_true, forallb_True, Forall_take, Forall_drop. unfold fresh_bytes.
  apply Forall_fmap, Forall_true. intros i. simpl. by rewrite Hc.
Qed.

Lemma alloc_block_ok size Q s :
  (∀ s', mem_alloc false s s' → Q None s') → (∀ n s', mem_alloc true s s' → Q (Some (fresh_bytes n size)) s') →
  wp (alloc_bytes size) Q s.
Proof.
  intros HN HS. unfold wp, alloc_bytes, alloc_obj. destruct (alloc_ok _ _); [apply HS|apply HN]; split; simpl; lia.
Qed.

Lemma discard_ok {A} (a : A) b Q s :
  (∀ s', m_live s' = m_live s - 2 - mutex_blocks b → Q a s') →
  wp (_ ← free_mutex b; _ ← free_obj; _ ← free_obj; mret a) Q s.
Proof.
  intros HQ. wsteps. eapply wp_mono; [apply free_mutex_ok|]. intros [] s1 [HL1 _]. wsteps. apply wp_free_obj. intros s2 HL2 _.
  wsteps. apply wp_free_obj. intros s3 HL3 _. wsteps. apply HQ. lia.
Qed.

Lemma create_instance_ok options path0 error w s :
  clears → module_path options = Some path0 →
  wp (create_module_instance options error w) (λ '(r, error', w') s', match r with
    | None => quiet (dl w) (dl w') ∧ w' = with_dl w (dl w') ∧ m_live s' = m_live s
    | Some p => p = next_object w ∧ error' = error ∧ ∃ i, w' = (add_instance (with_dl w (dl w')) i).2
        ∧ instance_ok (dl w') i ∧ opened (dl_handle i) (dl w) (dl w')
        ∧ path i = path0 ∧ unload_callback i = o_unload_callback options ∧ unload_callback_ctx i = o_unload_callback_ctx options
        ∧ thread_safe i = o_thread_safe options ∧ access_mutex i = o_thread_safe options
        ∧ m_live s' = m_live s + 2 + mutex_blocks (o_thread_safe options) ∧ m_fails s' = m_fails s
    end) s.
Proof.
  intros Hclear Hpath. unfold create_module_instance. rewrite Hpath.
  destruct (dlopen path0 (dl w)) as [h d] eqn:Eo. apply dlopen_law in Eo as [Hst Hrefs].
  destruct (Z.eqb_spec h 0) as [->|Hh].
  { destruct Hrefs as [[_ Hrefs]|[? _]]; [|done]. assert (quiet (dl w) d) as Hq by done. destruct error.
    - destruct (dlerror d) as [m d2] eqn:Ed. apply dlerror_law in Ed. wsteps. split; [by eapply quiet_trans|done].
    - wsteps. done. }
  destruct Hrefs as [[? _]|(_ & Hr & Hoth)]; [done|]. assert (opened h (dl w) d) as Hop by done.
  fold (vtable_of h d). set (vt := vtable_of h d).
  destruct ((ak_module_version vt =? 0) || _ || _ || _) eqn:Ereq.
  { wsteps. split; [by apply opened_closed|done]. }
  repeat (apply orb_false_iff in Ereq as [Ereq ?%Z.eqb_neq]). apply Z.eqb_neq in Ereq.
  assert (0 < refs d h)%nat as Hd by lia.
  wsteps. apply mapped_ok; [done|done|].
  destruct (call_version (ak_module_version vt) d) as [version d1] eqn:E1. apply call_version_law in E1.
  pose proof (opened_quiet _ _ _ _ Hop E1) as Hop1.
  destruct (version =? AK24_MODULE_API_VERSION); cbn [negb]; [|wsteps; split; [by apply opened_closed|done]].
  apply wp_bind, alloc_block_ok; [intros s1 [HL1 HF1]|intros blk s1 [HL1 HF1]].
  { wsteps. split; [by apply opened_closed|]. split; [done|lia]. }
  wsteps. apply wp_alloc_obj. intros [|] s2 [HL2 HF2]; cbn [negb].
  2:{ wsteps. apply wp_free_obj. intros s3 HL3 _. wsteps. split; [by apply opened_closed|]. split; [done|lia]. }
  destruct (verify_function_in_module _ _ _) eqn:Ever; cbn [negb].
  2:{ rewrite module_block_cleared by done. simpl. wsteps. apply wp_free_obj. intros s3 HL3 _. wsteps. apply wp_free_obj. intros s4 HL4 _. wsteps.
      split; [by apply opened_closed|]. split; [done|lia]. }
  apply verify_ok in Ever as [_ Hfile].
  set (ts := o_thread_safe options). apply wp_bind.
  eapply (wp_mono _ (λ ok s', if ok : bool then m_live s' = m_live s2 + mutex_blocks ts ∧ m_fails s' = m_fails s2 else m_live s' = m_live s2)).
  { destruct ts; simpl; [|wsteps; split; [lia|done]]. apply wp_alloc_obj. intros [|] s3 [HL3 HF3]; simpl; lia. }
  intros [|] s3 Hm; cbv beta iota in Hm; cbn [negb].
  2:{ wsteps. apply wp_free_obj. intros s4 HL4 _. wsteps. apply wp_free_obj. intros s5 HL5 _. wsteps.
      split; [by apply opened_closed|]. split; [done|lia]. }
  destruct Hm as [HL3 HF3]. pose proof Hop1 as (Hs1 & Hr1 & Ho1). assert (0 < refs d1 h)%nat as Hd1 by lia.
  assert (stays d d1) as Hdd by apply E1.
  assert (vtable_of h d1 = vt) as Hvt1 by by apply vtable_stays.
  assert (dlsym h "ak_module_init"%str d1 = ak_module_init vt) as Hinit by by rewrite <- Hvt1.
  apply wp_bind, wp_lift. rewrite <- Hinit. apply mapped_ok; [done|congruence|].
  destruct (call_init _ d1) as [[[result ctx] ie] d2] eqn:E2. apply call_init_law in E2.
  pose proof (opened_quiet _ _ _ _ Hop1 E2) as Hop2. cbv beta iota.
  destruct result; try (apply discard_ok; intros s4 HL4; split; [by apply opened_closed|]; split; [done|lia]).
  pose proof Hop2 as (Hs2 & Hr2 & Ho2). assert (0 < refs d2 h)%nat as Hd2 by lia.
  assert (vtable_of h d2 = vt) as Hvt2 by (rewrite <- Hvt1; apply (vtable_stays _ d1); [apply E2|done|done]).
  destruct (validate_module_ctx ctx) eqn:Ectx; cbn [negb].
  - wsteps. split; [done|]. split; [done|]. eexists. split; [done|]. simpl. split_and!; try done; try lia.
    apply (instance_stays d1); [by split|apply E2|done|done].
  - apply wp_bind, wp_lift. assert (dlsym h "ak_module_deinit"%str d2 = ak_module_deinit vt) as Hdeinit by by rewrite <- Hvt2.
    rewrite <- Hdeinit. apply mapped_ok; [done|congruence|]. cbv beta iota.
    apply discard_ok. intros s4 HL4. split; [|split; [done|lia]]. apply opened_closed. eapply opened_quiet; [done|apply call_deinit_law].
Qed.

Definition closed (h : Z) (d d' : loader) : Prop := stays d d' ∧ refs d h = S (refs d' h) ∧ ∀ k, k ≠ h → refs d' k = refs d k.

(** The event of calling a callback. *)
Definition callback_event (l : lstore) (callback : option positive) (ctx : Z) : list event :=
  match callback with
  | Some q =>
      match lambdas l !! q with
      | Some f => if fn f =? 0 then [] else [Invoked (fn f) (captured_ctx f) ctx]
      | None => []
      end
  | None => []
  end.

Definition called_back (l : lstore) (i : module_instance_t) : list event :=
  callback_event l (unload_callback i) (unload_callback_ctx i).

(** The loader after the clean-up of an instance has been called with its context and
    then its library closed. *)
Definition cleaned_up (i : module_instance_t) (d : loader) : loader :=
  dlclose (dl_handle i) (call_deinit (ak_module_deinit (vtable i)) (module_ctx i) d).

(** A world without an instance, its callback called, its clean-up called and its
    library closed. *)
Definition destroyed (w : modules) (p : positive) (i : module_instance_t) (w' : modules) : Prop :=
  ∃ d, w' = mk_modules (g_module_manager w) (delete p (instances w)) (handles w) (next_object w)
              (called (lams w) (called_back (lams w) i)) d
       ∧ closed (dl_handle i) (dl w) d ∧ d = cleaned_up i (dl w).

Lemma called_none l : called l [] = l.
Proof. destruct l as [m n t]. unfold called. simpl. by rewrite app_nil_r. Qed.

Lemma invoke_ok l i :
  callback_live l (unload_callback i) →
  match unload_callback i with
  | Some _ => ak_lambda_invoke l (unload_callback i) (unload_callback_ctx i)
  | None => Ret l
  end = Ret (called l (called_back l i)).
Proof.
  unfold called_back, callback_event, ak_lambda_invoke, deref_lambda. destruct (unload_callback i) as [q|]; simpl; [|by rewrite called_none].
  intros [f Hf]. rewrite Hf. simpl. destruct (fn f =? 0); [by rewrite called_none|done].
Qed.

Lemma closed_quiet h d1 d2 : quiet d1 d2 → (0 < refs d1 h)%nat → closed h d1 (dlclose h d2).
Proof.
  intros [S1 R1] Hd. rewrite <- R1 in Hd. destruct (dlclose_law h d2 Hd) as (S2 & R2 & O2). split_and!.
  - eapply stays_trans; [done|done|]. intros k Hk _. by rewrite R1.
  - by rewrite <- R1.
  - intros k Hk. by rewrite O2.
Qed.

(** An instance with another state and another count. *)
Definition counted (i : module_instance_t) (st : module_state_e) (n : Z) : module_instance_t :=
  mk_instance (dl_handle i) (path i) (module_ctx i) (vtable i) (unload_callback i) (unload_callback_ctx i)
    (access_mutex i) n st (thread_safe i).

Lemma release_instance_ok p i st n w s :
  instances w !! p = Some (counted i st n) → instance_ok (dl w) i → callback_live (lams w) (unload_callback i) →
  (0 < refs (dl w) (dl_handle i))%nat →
  wp (release_instance p w) (λ w' s', destroyed w p i w'
    ∧ m_live s' = m_live s - 2 - mutex_blocks (access_mutex i) ∧ m_fails s' = m_fails s) s.
Proof.
  intros Hp [Hst Hrc Hh Hv Hde Hinfo Hfile Hctx] Hcb Hd. unfold release_instance, deref_instance. rewrite Hp. wsteps.
  cbn [counted unload_callback unload_callback_ctx lams dl with_lams vtable module_ctx dl_handle access_mutex].
  rewrite (invoke_ok _ _ Hcb). wsteps.
  assert (module_ctx i ≠ 0) as Hc. { intros E. rewrite E in Hctx. done. }
  rewrite (proj2 (Z.eqb_neq _ _) Hde), (proj2 (Z.eqb_neq _ _) Hc), (proj2 (Z.eqb_neq _ _) Hh). cbn [negb andb].
  assert (ak_module_deinit (vtable i) = dlsym (dl_handle i) "ak_module_deinit"%str (dl w)) as Hsym by by rewrite Hv.
  unfold destroyed, cleaned_up. rewrite Hsym. apply mapped_ok; [done|congruence|]. wsteps.
  eapply wp_mono; [apply free_mutex_ok|]. intros [] s1 [HL1 HF1]. wsteps. apply wp_free_obj. intros s2 HL2 HF2. wsteps.
  apply wp_free_obj. intros s3 HL3 HF3. wsteps. split; [|split; [lia|congruence]].
  eexists. split; [done|]. split; [|done]. apply closed_quiet; [apply call_deinit_law|done].
Qed.

Lemma destroy_ok p i w s :
  instances w !! p = Some i → instance_ok (dl w) i → callback_live (lams w) (unload_callback i) →
  (0 < refs (dl w) (dl_handle i))%nat →
  wp (destroy_module_instance (Some p) w) (λ w' s', destroyed w p i w'
    ∧ m_live s' = m_live s - 2 - mutex_blocks (access_mutex i) ∧ m_fails s' = m_fails s) s.
Proof.
  intros Hp Hin Hcb Hd. unfold destroy_module_instance, set_unloading, still_used, deref_instance. rewrite Hp. wsteps.
  simpl. rewrite lookup_insert_eq. simpl. rewrite (io_refs _ _ Hin). simpl.
  fold (counted i MODULE_STATE_UNLOADING 0). set (w1 := set_instance w p (counted i MODULE_STATE_UNLOADING 0)).
  eapply wp_mono; [apply (release_instance_ok p i MODULE_STATE_UNLOADING 0 w1); [simpl; by rewrite lookup_insert_eq|done..]|].
  intros w' s' [(d & -> & Hcl) Hs]. split; [|done]. exists d. split; [|exact Hcl]. simpl. by rewrite delete_insert_eq.
Qed.

(** ** Searching the registry *)

Lemma node_entry (m : module_manager_t) n : map_wf m → n ∈ nodes m → entries m !! n_key n = Some (n_value n).
Proof.
  intros Hwf Hn. apply elem_of_list_to_map_1.
  - rewrite <- list_fmap_compose. apply (mw_nodup _ Hwf).
  - apply list_elem_of_fmap. by exists n.
Qed.

Lemma entry_node (m : module_manager_t) k p : entries m !! k = Some p → ∃ n, n ∈ nodes m ∧ n_key n = k ∧ n_value n = p.
Proof. intros Hk%elem_of_list_to_map_2. apply list_elem_of_fmap in Hk as (n & [= -> ->] & Hn). by exists n. Qed.

Lemma find_ok m h w :
  map_wf m → (∀ k p, entries m !! k = Some p → is_Some (instances w !! p)) →
  wpo (find_by_handle m h w) (λ r, match r with
    | Some (p, k) => entries m !! k = Some p ∧ ∃ i, instances w !! p = Some i ∧ dl_handle i = h
    | None => ∀ k p i, entries m !! k = Some p → instances w !! p = Some i → dl_handle i ≠ h
    end).
Proof.
  intros Hwf Hlive. unfold find_by_handle. pose proof (nbuckets_ok_range _ (mw_nbuckets _ Hwf)). pose proof (mw_nnodes _ Hwf) as Hnn.
  apply (loop_wpo (λ iter, iter_ok m iter ∧ ∃ seen, nodes m = seen ++ to_visit m iter
      ∧ ∀ n i, n ∈ seen → instances w !! n_value n = Some i → dl_handle i ≠ h)
    (λ iter, length (to_visit m iter))).
  - split; [unfold iter_ok; change (u32 (bucketidx map_iter_ + 1)) with 0; lia|]. exists []. split; [done|]. by intros n i Hn%elem_of_nil.
  - change (to_visit m map_iter_) with (nodes m). unfold zlen in Hnn. lia.
  - intros iter [Hok (seen & Hseen & Hnot)]. apply wpo_bind. eapply wpo_mono; [by apply map_next_ok|].
    intros [r iter'] Hr. destruct (to_visit m iter) as [|n ns] eqn:Ev.
    + subst r. simpl. intros k p i Hk Hp. destruct (entry_node _ _ _ Hk) as (n & Hn & <- & <-).
      rewrite Hseen, app_nil_r in Hn. by apply (Hnot n).
    + destruct Hr as (-> & Hok' & Hv). assert (n ∈ nodes m) as Hn by (rewrite Hseen; apply elem_of_app; right; by left).
      pose proof (node_entry m n Hwf Hn) as He. rewrite map_get_ok by done. rewrite He. simpl.
      destruct (Hlive _ _ He) as [i Hi]. unfold deref_instance. rewrite Hi. simpl. destruct (Z.eqb_spec (dl_handle i) h) as [E|E].
      * split; [done|]. by exists i.
      * rewrite Hv. split; [|simpl; lia]. split; [done|]. exists (seen ++ [n]). split; [by rewrite Hseen, <- app_assoc|].
        intros n2 i2 [Hn2|Hn2%list_elem_of_singleton]%elem_of_app Hi2; [by apply (Hnot n2)|]. subst n2. by simplify_eq.
Qed.

(** ** Counting open libraries *)

Lemma open_with_insert h insts p i :
  insts !! p = None → open_with h (<[p := i]> insts) = (open_with h insts + if bool_decide (dl_handle i = h) then 1 else 0)%nat.
Proof.
  intros Hp. unfold open_with. case_bool_decide as E.
  - rewrite map_filter_insert_True by done. rewrite map_size_insert_None; [lia|]. apply map_lookup_filter_None. by left.
  - rewrite map_filter_insert_False by done. rewrite delete_id by done. lia.
Qed.

Lemma open_with_delete h insts p i :
  insts !! p = Some i → open_with h insts = (open_with h (delete p insts) + if bool_decide (dl_handle i = h) then 1 else 0)%nat.
Proof.
  intros Hp. rewrite <- (open_with_insert h (delete p insts) p i) by apply lookup_delete_eq. by rewrite insert_delete_id.
Qed.

(** ** The invariant *)

Lemma manager_ok base w m :
  modules_ok base w → map_wf m → (∀ k p, entries m !! k = Some p → ∃ i, instances w !! p = Some i ∧ path i = k) →
  modules_ok base (with_manager w m).
Proof. intros [Hm Hr Hi Hh Ha Ho Hf] Hwf He. split; try done. by intros m' [= <-]. Qed.

Lemma some_refs base w p i : modules_ok base w → instances w !! p = Some i → (0 < refs (dl w) (dl_handle i))%nat.
Proof.
  intros Hok Hp. rewrite (mo_open _ _ Hok), (open_with_delete _ _ _ _ Hp), bool_decide_eq_true_2 by done. lia.
Qed.

Lemma quiet_ok base w d : modules_ok base w → quiet (dl w) d → modules_ok base (with_dl w d).
Proof.
  intros Hok [Hs Hq]. pose proof Hok as [Hm Hr Hi Hh Ha Ho Hf]. split; try done.
  - intros p i Hp. destruct (Hi p i Hp) as [Hin Hcb]. split; [|done]. pose proof (some_refs _ _ _ _ Hok Hp).
    eapply instance_stays; [done|done|done|]. simpl. by rewrite Hq.
  - intros h. simpl. by rewrite Hq.
Qed.

Lemma opened_ok base w d i :
  modules_ok base w → instance_ok d i → callback_live (lams w) (unload_callback i) → opened (dl_handle i) (dl w) d →
  modules_ok base (add_instance (with_dl w d) i).2.
Proof.
  intros Hok Hin Hcb (Hs & Hr & Ho). pose proof Hok as [Hm Hreg Hi Hh Ha Hop Hf]. destruct (Hf (next_object w)) as [Hnone _]; [lia|].
  assert (∀ p j, instances w !! p = Some j → p ≠ next_object w) as Hne by (intros p j Hp ->; congruence).
  assert (∀ k, (refs (dl w) k <= refs d k)%nat) as Hle.
  { intros k. destruct (decide (k = dl_handle i)) as [->|Hk]; [lia|]. rewrite Ho by done. lia. }
  split; simpl; try done.
  - intros k p Hk. destruct (Hreg k p Hk) as (j & Hj & Hp). exists j. split; [|done].
    rewrite lookup_insert_ne by (apply not_eq_sym; by eapply Hne). done.
  - intros p j [[<- <-]|[_ Hj]]%lookup_insert_Some; [done|]. destruct (Hi p j Hj) as [Hin2 Hcb2]. split; [|done].
    pose proof (some_refs _ _ _ _ Hok Hj). eapply instance_stays; [done|done|done|]. specialize (Hle (dl_handle j)). lia.
  - intros hp h Hhp. destruct (Hh hp h Hhp) as (p & j & Hj & ->). exists p, j. split; [|done].
    rewrite lookup_insert_ne by (apply not_eq_sym; by eapply Hne). done.
  - intros h. rewrite (open_with_insert _ _ _ _ Hnone). case_bool_decide as E.
    + subst h. rewrite Hr, Hop. lia.
    + rewrite Ho by done. rewrite Hop. lia.
  - intros p Hp. destruct (Hf p) as [Hp1 Hp2]; [lia|]. split; [|done]. rewrite lookup_insert_ne by lia. done.
Qed.

Lemma destroyed_ok base w p i d :
  modules_ok base w → instances w !! p = Some i → (∀ k, registry w !! k ≠ Some p) →
  (∀ hp h, handles w !! hp = Some h → internal_instance h ≠ Some p) → closed (dl_handle i) (dl w) d →
  modules_ok base (mk_modules (g_module_manager w) (delete p (instances w)) (handles w) (next_object w)
    (called (lams w) (called_back (lams w) i)) d).
Proof.
  intros Hok Hp Hnr Hnh (Hs & Hr & Ho). pose proof Hok as [Hm Hreg Hi Hh Ha Hop Hf]. split; simpl; try done.
  - intros k q Hk. destruct (Hreg k q Hk) as (j & Hj & Hq). exists j. split; [|done].
    rewrite lookup_delete_ne; [done|]. intros <-. by apply (Hnr k).
  - intros q j [Hne Hj]%lookup_delete_Some. destruct (Hi q j Hj) as [Hin Hcb]. split; [|done].
    pose proof (some_refs _ _ _ _ Hok Hj). eapply instance_stays; [done|done|done|].
    pose proof (Hop (dl_handle j)) as Hj1. rewrite (open_with_delete _ _ _ _ Hp), (open_with_delete _ (delete p (instances w)) q j) in Hj1
      by (by rewrite lookup_delete_ne).
    rewrite (bool_decide_eq_true_2 (dl_handle j = dl_handle j)) in Hj1 by done. case_bool_decide as E.
    + rewrite E in Hr. lia.
    + rewrite Ho by congruence. lia.
  - intros hp h Hhp. destruct (Hh hp h Hhp) as (q & j & Hj & ->). exists q, j. split; [|done].
    rewrite lookup_delete_ne; [done|]. intros <-. by apply (Hnh hp (handle_of p j) Hhp).
  - intros h. pose proof (Hop h) as Hh1. rewrite (open_with_delete _ _ _ _ Hp) in Hh1. case_bool_decide as E.
    + subst h. lia.
    + rewrite Ho by congruence. lia.
  - intros q Hq. destruct (Hf q Hq) as [Hq1 Hq2]. split; [|done]. rewrite lookup_delete_None. by right.
Qed.

Lemma module_handle_ok base w p i :
  modules_ok base w → instances w !! p = Some i → (∀ hp h, handles w !! hp = Some h → internal_instance h ≠ Some p) →
  modules_ok base (add_handle w (handle_of p i)).2.
Proof.
  intros [Hm Hreg Hi Hh Ha Hop Hf] Hp Hnh. split; simpl; try done.
  - intros hp h [[<- <-]|[_ Hhp]]%lookup_insert_Some; [by exists p, i|by apply (Hh hp)].
  - intros hp hq h [[<- <-]|[_ Hhp]]%lookup_insert_Some [[<- Hx]|[_ Hhq]]%lookup_insert_Some; [done| | |by eapply Ha].
    + by destruct (Hnh _ _ Hhq).
    + subst h. by destruct (Hnh _ _ Hhp).
  - intros q Hq. destruct (Hf q) as [Hq1 Hq2]; [lia|]. split; [done|]. rewrite lookup_insert_ne by lia. done.
Qed.

Lemma drop_handle_ok base w hp : modules_ok base w → modules_ok base (drop_handle w hp).
Proof.
  intros [Hm Hreg Hi Hh Ha Hop Hf]. split; simpl; try done.
  - intros hq h [_ Hhq]%lookup_delete_Some. by apply (Hh hq).
  - intros h1 h2 h [_ Hx1]%lookup_delete_Some [_ Hx2]%lookup_delete_Some. by eapply Ha.
  - intros q Hq. destruct (Hf q Hq) as [Hq1 Hq2]. split; [done|]. apply lookup_delete_None. by right.
Qed.

(** The path of a registered instance leads to it alone, and so does its library:
    the code has checked that the library is the file of the path. *)
Lemma library_unique base w k1 p1 i1 k2 p2 i2 :
  modules_ok base w → registry w !! k1 = Some p1 → instances w !! p1 = Some i1 →
  registry w !! k2 = Some p2 → instances w !! p2 = Some i2 → dl_handle i1 = dl_handle i2 → p1 = p2 ∧ k1 = k2.
Proof.
  intros Hok Hk1 Hp1 Hk2 Hp2 Hh. destruct (mo_instances _ _ Hok _ _ Hp1) as [[_ _ _ Hv1 _ _ Hf1 _] _].
  destruct (mo_instances _ _ Hok _ _ Hp2) as [[_ _ _ Hv2 _ _ Hf2 _] _].
  destruct (mo_registry _ _ Hok _ _ Hk1) as (j1 & Hj1 & <-). destruct (mo_registry _ _ Hok _ _ Hk2) as (j2 & Hj2 & <-). simplify_eq.
  rewrite Hv1 in Hf1. rewrite Hv2 in Hf2. rewrite Hh in Hf1. assert (path i1 = path i2) as E by congruence.
  rewrite E in Hk1. split; congruence.
Qed.

Lemma get_manager_ok base w s :
  modules_ok base w →
  wp (get_or_create_manager w) (λ '(r, w') s', match r with
    | None => w' = w ∧ m_live s' = m_live s ∧ g_module_manager w = None
    | Some m => w' = with_manager w m ∧ map_wf m ∧ entries m = registry w ∧ m_fails s' = m_fails s
        ∧ (g_module_manager w = Some m ∨ (g_module_manager w = None ∧ nnodes m = 0))
        ∧ m_live s' - m_live s = 1 + owned m - manager_blocks w
    end) s.
Proof.
  intros Hok. unfold get_or_create_manager, registry, manager_blocks. destruct (g_module_manager w) as [m|] eqn:Em.
  - wsteps. split; [destruct w; simpl in *; by subst|]. split; [by apply (mo_manager _ _ Hok)|].
    split_and!; [done|done|by left|lia].
  - wsteps. apply wp_alloc_obj. intros [|] s1 [HL HF]; cbn [negb]; wsteps.
    + split; [done|]. split; [|split_and!; [done|lia|by right|unfold owned; simpl; lia]].
      split; simpl; try done; [by left|constructor].
    + split_and!; [done|lia|done].
Qed.

(** ** Loading *)

(** What [load_module_impl] answers: a handle of a new instance, registered unless
    there was no memory for its entry; or null, with the instances, handles, entries
    and libraries as before.  Null may come after the unload callback, which is
    called when there is no memory for the handle, and after the registry was
    made, which stays. *)
Definition loaded (options : ak_module_load_options_t) (path0 : cstr) (w : modules) (s : mem) (r : option positive)
    (w' : modules) (s' : mem) : Prop :=
  match r with
  | Some hp => ∃ p i, registry w !! path0 = None ∧ instances w !! p = None ∧ handles w !! hp = None
      ∧ instances w' = <[p := i]> (instances w) ∧ handles w' = <[hp := handle_of p i]> (handles w)
      ∧ (registry w' = <[path0 := p]> (registry w) ∨ (registry w' = registry w ∧ (m_fails s < m_fails s')%nat))
      ∧ path i = path0 ∧ unload_callback i = o_unload_callback options ∧ unload_callback_ctx i = o_unload_callback_ctx options
      ∧ access_mutex i = o_thread_safe options
      ∧ (∀ h, refs (dl w') h = refs (dl w) h + if bool_decide (h = dl_handle i) then 1 else 0)%nat ∧ lams w' = lams w
      ∧ m_live s' - m_live s = 3 + mutex_blocks (o_thread_safe options) + manager_blocks w' - manager_blocks w
  | None => instances w' = instances w ∧ handles w' = handles w ∧ registry w' = registry w
      ∧ (∀ h, refs (dl w') h = refs (dl w) h)
      ∧ lambdas (lams w') = lambdas (lams w)
      ∧ (lams w' = lams w
         ∨ (lams w' = called (lams w) (callback_event (lams w) (o_unload_callback options) (o_unload_callback_ctx options))
            ∧ (m_fails s < m_fails s')%nat))
      ∧ (is_Some (registry w !! path0) → dl w' = dl w)
      ∧ m_live s' - m_live s = manager_blocks w' - manager_blocks w
  end.

Lemma load_ok base options path0 error w s :
  clears → modules_ok base w → module_path options = Some path0 → callback_live (lams w) (o_unload_callback options) →
  Z.of_nat (size (registry w)) < 2 ^ 30 →
  wp (load_module_impl options error w) (λ '(r, _, w') s', modules_ok base w' ∧ loaded options path0 w s r w' s') s.
Proof.
  intros Hclear Hok Hpath Hcb Hsize. unfold load_module_impl. rewrite Hpath. apply wp_bind.
  eapply wp_mono; [by apply (get_manager_ok base)|]. intros [[m|] w1] s1; cbv beta iota.
  2:{ intros (-> & HL1 & Hnone). wsteps. split; [done|]. simpl. split_and!; try done; try (by left); lia. }
  intros (-> & Hwf & Hent & HF1 & _ & HL1).
  assert (modules_ok base (with_manager w m)) as Hok1.
  { apply manager_ok; [done|done|]. rewrite Hent. apply (mo_registry _ _ Hok). }
  assert (registry (with_manager w m) = registry w) as Hreg1 by done.
  unfold find_loaded. rewrite map_get_ok by done. wsteps. rewrite Hent. destruct (registry w !! path0) as [q|] eqn:Hq.
  { wsteps. split; [done|]. simpl. unfold manager_blocks at 1. simpl. split_and!; try done; try (by left); lia. }
  wsteps. eapply wp_mono; [by apply create_instance_ok|]. intros [[[p|] error'] w2] s2; cbv beta iota.
  2:{ intros (Hquiet & -> & HL2). wsteps. split; [by apply quiet_ok|]. simpl. unfold manager_blocks at 1. simpl.
      split_and!; try done; [apply Hquiet|by left|rewrite Hq; by intros []|lia]. }
  intros (-> & -> & i & -> & Hin & Hopen & Hpi & Hcbi & Hcbx & Hts & Hmx & HL2 & HF2). wsteps. set (d := dl w2) in *.
  assert (nnodes m < 2 ^ 30) as Hnn by (rewrite (nnodes_size m Hwf), Hent; lia).
  destruct (mo_fresh _ _ Hok (next_object w)) as [Hnewi Hnewh]; [lia|].
  assert (modules_ok base (add_instance (with_dl (with_manager w m) d) i).2) as Hok2 by (apply opened_ok; [done|done|by rewrite Hcbi|done]).
  eapply wp_mono; [by apply map_set_ok|]. intros [rc m3] s3 [Hwf3 Hset]. cbn [fst snd] in *. wsteps.
  set (p := next_object w) in *.
  assert (entries m3 = <[path0 := p]> (registry w) ∨ (entries m3 = registry w ∧ (m_fails s2 < m_fails s3)%nat)) as Hent3.
  { rewrite <- Hent. destruct Hset as [(_ & He & _)|(_ & He & _ & HF)]; [by left|by right]. }
  assert (m_live s3 - m_live s2 = owned m3 - owned m ∧ (m_fails s2 <= m_fails s3)%nat) as [HL3 HF3].
  { destruct Hset as [(_ & _ & HL & HF)|(_ & _ & HL & HF)]; simpl in HF; lia. }
  assert (delete path0 (entries m3) = registry w) as Hdel.
  { destruct Hent3 as [->|[-> _]]; [by apply delete_insert_id|by apply delete_id]. }
  clear Hset. set (w3 := with_manager _ m3).
  assert (∀ m', map_wf m' → (∀ k q, entries m' !! k = Some q → entries m3 !! k = Some q) → modules_ok base (with_manager w3 m')) as Hok3.
  { intros m' Hwf' Hsub. apply (manager_ok base (add_instance (with_dl (with_manager w m) d) i).2 m' Hok2 Hwf').
    intros k q Hk%Hsub. simpl. destruct Hent3 as [He|[He _]]; rewrite He in Hk.
    - apply lookup_insert_Some in Hk as [[<- <-]|[_ Hk]]; [exists i; by rewrite lookup_insert_eq|].
      destruct (mo_registry _ _ Hok k q Hk) as (j & Hj & Hpj). exists j. rewrite lookup_insert_ne; [done|]. intros E; unfold p in *; congruence.
    - destruct (mo_registry _ _ Hok k q Hk) as (j & Hj & Hpj). exists j. rewrite lookup_insert_ne; [done|]. intros E; unfold p in *; congruence. }
  assert (instances w3 !! p = Some i) as Hpi3 by (simpl; by rewrite lookup_insert_eq).
  assert (∀ hp h, handles w !! hp = Some h → internal_instance h ≠ Some p) as Hnoh.
  { intros hp h Hhp E. destruct (mo_handles _ _ Hok _ _ Hhp) as (q & j & Hj & ->). simpl in E. unfold p in *. congruence. }
  assert (∀ h, (refs d h = refs (dl w) h + if bool_decide (h = dl_handle i) then 1 else 0)%nat) as Hrefs.
  { intros h. destruct Hopen as (_ & Hr & Ho). simpl in *. case_bool_decide as E; [subst h; lia|]. rewrite Ho by done. lia. }
  apply wp_alloc_obj. intros [|] s4 [HL4 HF4]; cbn [negb].
  - unfold deref_instance. change (next_object (with_manager w m)) with p. rewrite Hpi3. wsteps. split.
    + apply (module_handle_ok base w3 p i); [|done|done]. by apply (Hok3 m3 Hwf3).
    + exists p, i. simpl. split_and!; try done.
      * destruct (mo_fresh _ _ Hok (Pos.succ p)) as [_ Hf]; [unfold p; lia|done].
      * destruct Hent3 as [He|[He HF]]; [by left|right; split; [done|lia]].
      * unfold manager_blocks at 1. simpl. lia.
  - wsteps. eapply wp_mono; [by apply map_remove_ok|]. intros m4 s5 (Hwf4 & He4 & HL5 & HF5). rewrite Hdel in He4.
    assert (modules_ok base (with_manager w3 m4)) as Hok4.
    { apply Hok3; [done|]. intros k q. rewrite He4, <- Hdel. intros Hk. by apply lookup_delete_Some in Hk as [_ Hk]. }
    apply wp_bind. eapply wp_mono; [apply (destroy_ok p i); [done|done|by rewrite Hcbi|]|].
    { eapply (some_refs base (with_manager w3 m4)); done. }
    intros w5 s6 ((d' & -> & Hclosed & _) & HL6 & HF6). wsteps. split.
    + eapply (destroyed_ok base (with_manager w3 m4) p i); [exact Hok4|done| |done|done].
      intros k Hk. unfold registry in Hk. simpl in Hk. rewrite He4 in Hk.
      destruct (mo_registry _ _ Hok k p Hk) as (j & Hj & _). unfold p in *. congruence.
    + simpl. split_and!.
      * by apply delete_insert_id.
      * done.
      * unfold registry at 1. simpl. done.
      * intros h. destruct Hclosed as (_ & Hr & Ho). simpl in *. pose proof (Hrefs h) as Hrh. case_bool_decide as E; [subst h; lia|]. rewrite Ho by done. lia.
      * done.
      * right. split; [|lia]. unfold called_back. by rewrite Hcbi, Hcbx.
      * rewrite Hq. by intros [].
      * unfold manager_blocks at 1. simpl. rewrite Hmx in HL6. lia.
Qed.

(** ** Unloading *)

(** What is left of a world when an instance and its handle are gone. *)
Definition unloaded (hp p : positive) (i : module_instance_t) (w : modules) (s : mem) (w' : modules) (s' : mem) : Prop :=
  instances w' = delete p (instances w) ∧ handles w' = delete hp (handles w)
  ∧ registry w' = delete (path i) (registry w)
  ∧ (∀ h, refs (dl w) h = refs (dl w') h + if bool_decide (h = dl_handle i) then 1 else 0)%nat
  ∧ lams w' = called (lams w) (called_back (lams w) i)
  ∧ dl w' = cleaned_up i (dl w)
  ∧ m_live s - m_live s' = 3 + mutex_blocks (access_mutex i) + manager_blocks w - manager_blocks w'.

(** A loaded module is taken out of the registry when it is not in use. *)
Lemma begin_counted base hp p i n error w s :
  modules_ok base w → handles w !! hp = Some (handle_of p i) → instances w !! p = Some i → registry w !! path i = Some p →
  let w1 := set_instance w p (counted i MODULE_STATE_LOADED n) in
  wp (begin_unload hp error w1) (λ '(r, error', w') s', ∃ m, g_module_manager w = Some m ∧
    if 0 <? n then r = None ∧ w' = w1
    else r = Some p ∧ error' = error ∧ ∃ m', w' = with_manager w1 m' ∧ modules_ok base (with_manager w m')
      ∧ entries m' = delete (path i) (registry w) ∧ m_live s' - m_live s = owned m' - owned m ∧ m_fails s' = m_fails s) s.
Proof.
  intros Hok Hhp Hp Hk w1. unfold begin_unload. unfold registry in Hk. destruct (g_module_manager w) as [m|] eqn:Em; [|done].
  pose proof (mo_manager _ _ Hok m Em) as Hwf. assert (registry w = entries m) as Hreg by (unfold registry; by rewrite Em).
  unfold get_or_create_manager. change (g_module_manager w1) with (g_module_manager w). rewrite Em. wsteps.
  unfold deref_handle. change (handles w1) with (handles w). rewrite Hhp. wsteps.
  assert (∀ q j, instances w1 !! q = Some j → ∃ j', instances w !! q = Some j' ∧ dl_handle j' = dl_handle j) as Hback.
  { intros q j Hj. simpl in Hj. apply lookup_insert_Some in Hj as [[<- <-]|[_ Hj]]; [by exists i|by exists j]. }
  assert (∀ k q, entries m !! k = Some q → is_Some (instances w1 !! q)) as Hlive.
  { intros k q Hq. rewrite <- Hreg in Hq. destruct (mo_registry _ _ Hok k q Hq) as (j & Hj & _). simpl.
    destruct (decide (q = p)) as [->|Hne]; [by rewrite lookup_insert_eq|rewrite lookup_insert_ne by done; by eexists]. }
  eapply wpo_mono; [by apply find_ok|]. intros [[q k]|] Hfound; cbv beta iota in Hfound.
  2:{ exfalso. apply (Hfound (path i) p (counted i MODULE_STATE_LOADED n)); [done|simpl; by rewrite lookup_insert_eq|done]. }
  destruct Hfound as (Hqk & j & Hj & Hsame). destruct (Hback q j Hj) as (j' & Hj' & Edl).
  destruct (library_unique base w k q j' (path i) p i Hok) as [-> ->]; [by rewrite Hreg|done|by rewrite Hreg|done|by rewrite Edl|].
  wsteps. unfold deref_instance. simpl instances. rewrite lookup_insert_eq. wsteps. simpl. destruct (0 <? n).
  { wsteps. by exists m. }
  apply wp_bind. eapply wp_mono; [by apply map_remove_ok|].
  intros m2 s1 (Hwf2 & He2 & HL1 & HF1). wsteps. exists m. split; [done|]. split; [done|]. split; [done|]. exists m2. rewrite Hreg. split_and!; try done.
  - apply manager_ok; [done|done|]. intros k q. rewrite He2, <- Hreg. intros [_ Hq]%lookup_delete_Some. by apply (mo_registry _ _ Hok).
  - simpl in HL1. lia.
Qed.

Lemma counted_same w p i : instances w !! p = Some i → state i = MODULE_STATE_LOADED → ref_count i = 0 →
  set_instance w p (counted i MODULE_STATE_LOADED 0) = w.
Proof.
  intros Hp Hs Hr. unfold set_instance. rewrite insert_id; [by destruct w|]. rewrite Hp. destruct i. simpl in *. by subst.
Qed.

Lemma begin_ok base hp p i error w s :
  modules_ok base w → handles w !! hp = Some (handle_of p i) → instances w !! p = Some i → registry w !! path i = Some p →
  wp (begin_unload hp error w) (λ '(r, error', w') s', r = Some p ∧ error' = error ∧ ∃ m m', g_module_manager w = Some m
    ∧ w' = with_manager w m' ∧ modules_ok base w' ∧ entries m' = delete (path i) (registry w)
    ∧ m_live s' - m_live s = owned m' - owned m ∧ m_fails s' = m_fails s) s.
Proof.
  intros Hok Hhp Hp Hk. destruct (mo_instances _ _ Hok p i Hp) as [Hin _].
  pose proof (begin_counted base hp p i 0 error w s Hok Hhp Hp Hk) as Hb. simpl in Hb.
  rewrite (counted_same w p i) in Hb by (done || apply Hin). eapply wp_mono; [exact Hb|].
  intros [[r error'] w'] s' (m & Hm & -> & -> & m' & -> & Hrest). split; [done|]. split; [done|]. exists m, m'.
  split; [done|]. by split.
Qed.

(** An instance that is in the registry no more is released with its handle. *)
Lemma released_ok base hp p i w d :
  modules_ok base w → handles w !! hp = Some (handle_of p i) → instances w !! p = Some i → (∀ k, registry w !! k ≠ Some p) →
  closed (dl_handle i) (dl w) d →
  modules_ok base (mk_modules (g_module_manager w) (delete p (instances w)) (delete hp (handles w)) (next_object w)
    (called (lams w) (called_back (lams w) i)) d).
Proof.
  intros Hok Hhp Hp Hnr Hcl. apply (destroyed_ok base (drop_handle w hp) p i); [by apply drop_handle_ok|done|done| |done].
  intros hq h Hhq E. simpl in Hhq. apply lookup_delete_Some in Hhq as [Hne Hhq].
  destruct (mo_handles _ _ Hok _ _ Hhq) as (q & j & Hj2 & ->).
  simpl in E. injection E as ->. assert (j = i) as -> by congruence. apply Hne. by eapply (mo_apart _ _ Hok).
Qed.

Lemma removed_gone base w p i m :
  modules_ok base w → instances w !! p = Some i → entries m = delete (path i) (registry w) →
  ∀ k, registry (with_manager w m) !! k ≠ Some p.
Proof.
  intros Hok Hp He k Hk. unfold registry in Hk. simpl in Hk. rewrite He in Hk. apply lookup_delete_Some in Hk as [Hne Hk].
  destruct (mo_registry _ _ Hok k p Hk) as (j & Hj2 & E). congruence.
Qed.

Lemma unload_ok base hp p i error w s :
  modules_ok base w → handles w !! hp = Some (handle_of p i) → instances w !! p = Some i → registry w !! path i = Some p →
  wp (unload_module_impl (Some hp) error w) (λ '(r, error', w') s', r = true ∧ error' = error ∧ modules_ok base w'
    ∧ unloaded hp p i w s w' s') s.
Proof.
  intros Hok Hhp Hp Hk. unfold unload_module_impl. apply wp_bind. eapply wp_mono; [by apply (begin_ok base hp p i)|].
  intros [[r error'] w2] s1 (-> & -> & m & m2 & Em & -> & Hok2 & He2 & HL1 & HF1). cbv beta iota.
  destruct (mo_instances _ _ Hok p i Hp) as [Hin Hcb].
  apply wp_bind. eapply wp_mono; [apply (destroy_ok p i (with_manager w m2)); [done|done|done|by apply (some_refs base w p i)]|].
  intros w3 s2 ((d & -> & Hclosed & Hclean) & HL2 & HF2). wsteps. apply wp_free_obj. intros s3 HL3 HF3. wsteps.
  split; [done|]. split; [done|]. split.
  - apply (released_ok base hp p i (with_manager w m2) d); [done|done|done|by eapply removed_gone|done].
  - unfold unloaded. simpl. split_and!; try done.
    + intros h. destruct Hclosed as (_ & Hr & Ho). simpl in *. case_bool_decide as E; [subst h; lia|]. rewrite Ho by done. lia.
    + unfold manager_blocks. simpl. rewrite Em. lia.
Qed.

(** A handle whose module is not registered, nor another one of its library, cannot
    be unloaded. *)
Lemma unload_refused base hp p i error w s :
  modules_ok base w → handles w !! hp = Some (handle_of p i) → g_module_manager w ≠ None →
  (∀ k q j, registry w !! k = Some q → instances w !! q = Some j → dl_handle j ≠ dl_handle i) →
  unload_module_impl (Some hp) error w s = Ret (false, set_error error (Text "Module not found in registry"%str), w, s).
Proof.
  intros Hok Hhp Hm Hnone. unfold unload_module_impl, begin_unload, get_or_create_manager, mbind, M_bind, mret, M_ret, lift, deref_handle. destruct (g_module_manager w) as [m|] eqn:Em; [|done].
  pose proof (mo_manager _ _ Hok m Em) as Hwf. assert (registry w = entries m) as Hreg by (unfold registry; by rewrite Em).
  rewrite Hhp. simpl.
  assert (find_by_handle m (dl_handle i) w = Ret None) as ->; [|done].
  apply wpo_eq. eapply wpo_mono; [apply find_ok; [done|]|].
  - intros k q Hq. rewrite <- Hreg in Hq. destruct (mo_registry _ _ Hok k q Hq) as (j & Hj & _). by eexists.
  - intros [[q k]|]; [|done]. intros (Hq & j & Hj & E). rewrite <- Hreg in Hq. by destruct (Hnone k q j Hq Hj).
Qed.

End representation.

(** * Calls while a module is unloaded *)

Section interleavings.
Context `{Allocator} `{LoaderLaws}.

(** Where a call of [ak_handle_get_function] is, with the instance it has read. *)
Inductive call_pc : Type :=
| C_start
| C_checked (p : positive)     (* the module was loaded *)
| C_counted (p : positive)     (* a reference is counted *)
| C_leaving (p : positive)     (* the function of the module has returned *)
| C_over.

(** Where a call of [unload_module_impl] is. *)
Inductive unload_pc : Type :=
| U_start
| U_taken (p : positive)       (* out of the registry *)
| U_waiting (p : positive)     (* in the loop that waits *)
| U_closing (p : positive)
| U_unloaded
| U_refused.

(** The next step of a call: an atomic operation, or the function of the module. *)
Definition call_next (hp : positive) (name : cstr) (pc : call_pc) (w : modules) : outcome (call_pc * modules) :=
  match pc with
  | C_start =>
      found ← loaded_instance (Some hp) w;
      Ret (match found with
           | Some (h, p, _) => if ak_module_get_function (h_vtable h) =? 0 then C_over else C_checked p
           | None => C_over
           end, w)
  | C_checked p => w ← count_ref w p 1; Ret (C_counted p, w)
  | C_counted p =>
      h ← deref_handle w hp;
      let f := ak_module_get_function (h_vtable h) in
      '(_, d) ← mapped f (dl w) (call_get f (h_module_ctx h) name (dl w));
      Ret (C_leaving p, with_dl w d)
  | C_leaving p => w ← count_ref w p (-1); Ret (C_over, w)
  | C_over => Ret (C_over, w)
  end.

(** The next step of unloading: the section under the mutex, an atomic operation, or
    the end, when no call can count a reference any more. *)
Definition unload_next (hp : positive) (pc : unload_pc) (w : modules) : M (unload_pc * modules) :=
  match pc with
  | U_start | U_refused =>
      '(found, _, w) ← begin_unload hp None w;
      mret (match found with Some p => U_taken p | None => U_refused end, w)
  | U_taken p => w ← lift (set_unloading p w); mret (U_waiting p, w)
  | U_waiting p => used ← lift (still_used p w); mret (if used : bool then U_waiting p else U_closing p, w)
  | U_closing p => w ← release_instance p w; _ ← free_obj; mret (U_unloaded, drop_handle w hp)
  | U_unloaded => mret (U_unloaded, w)
  end.

(** Threads that call, and one that unloads. *)
Record conf := mk_conf {
  mods : modules;
  calls : list call_pc;
  unloader : unload_pc;
}.

Definition can_begin (u : unload_pc) : bool :=
  match u with
  | U_closing _ | U_unloaded => false
  | _ => true
  end.

Inductive conf_step (hp : positive) (name : cstr) : conf → conf → Prop :=
| cf_begin w cs u : can_begin u = true → conf_step hp name (mk_conf w cs u) (mk_conf w (C_start :: cs) u)
| cf_call w cs u i pc pc' w' :
    cs !! i = Some pc → call_next hp name pc w = Ret (pc', w') →
    conf_step hp name (mk_conf w cs u) (mk_conf w' (<[i := pc']> cs) u)
| cf_unload w cs u s u' w' s' :
    unload_next hp u w s = Ret (u', w', s') → conf_step hp name (mk_conf w cs u) (mk_conf w' cs u').

(** A call that has begun, and counts no reference yet. *)
Definition entering (pc : call_pc) : bool :=
  match pc with
  | C_start | C_checked _ => true
  | _ => false
  end.

(** A step that does not end the wait for the references while a call is entering. *)
Definition careful_step (hp : positive) (name : cstr) (c c' : conf) : Prop :=
  conf_step hp name c c' ∧
  match unloader c, unloader c' with
  | U_waiting _, U_closing _ => Forall (λ pc, entering pc = false) (calls c)
  | _, _ => True
  end.

(** The next step of some thread is undefined. *)
Definition goes_wrong (hp : positive) (name : cstr) (c : conf) : Prop :=
  (∃ i pc, calls c !! i = Some pc ∧ call_next hp name pc (mods c) = Undef) ∨ (∃ s, unload_next hp (unloader c) (mods c) s = Undef).

(** The references that are counted. *)
Definition inside (pc : call_pc) : Z :=
  match pc with
  | C_counted _ | C_leaving _ => 1
  | _ => 0
  end.

Definition uses (cs : list call_pc) : Z := foldr (λ pc n, inside pc + n) 0 cs.

(** What a call holds: [f] is [ak_module_get_function]. *)
Definition on_instance (p : positive) (f : Z) (pc : call_pc) : Prop :=
  match pc with
  | C_checked q | C_counted q => q = p ∧ f ≠ 0
  | C_leaving q => q = p
  | _ => True
  end.

(** The module while it is not unloaded, with its references. *)
Definition busy (base : Z → nat) (hp p : positive) (st : module_state_e) (registered : bool) (c : conf) : Prop :=
  ∃ w i, modules_ok base w ∧ handles w !! hp = Some (handle_of p i) ∧ instances w !! p = Some i
    ∧ (if registered then registry w !! path i = Some p else ∀ k, registry w !! k ≠ Some p)
    ∧ mods c = set_instance w p (counted i st (uses (calls c)))
    ∧ Forall (on_instance p (ak_module_get_function (vtable i))) (calls c).

Definition conf_ok (base : Z → nat) (hp p : positive) (c : conf) : Prop :=
  match unloader c with
  | U_start | U_refused => busy base hp p MODULE_STATE_LOADED true c
  | U_taken q => q = p ∧ busy base hp p MODULE_STATE_LOADED false c
  | U_waiting q => q = p ∧ busy base hp p MODULE_STATE_UNLOADING false c
  | U_closing q => q = p ∧ busy base hp p MODULE_STATE_UNLOADING false c ∧ Forall (λ pc, pc = C_over) (calls c)
  | U_unloaded => modules_ok base (mods c) ∧ instances (mods c) !! p = None ∧ handles (mods c) !! hp = None
      ∧ Forall (λ pc, pc = C_over) (calls c)
  end.

Lemma uses_nonneg cs : 0 <= uses cs.
Proof. induction cs as [|pc cs IH]; [done|]. simpl. destruct pc; simpl; lia. Qed.

Lemma uses_le cs : uses cs <= zlen cs.
Proof. induction cs as [|pc cs IH]; [done|]. rewrite zlen_cons. simpl. destruct pc; simpl; lia. Qed.

Lemma uses_insert cs i pc pc' : cs !! i = Some pc → uses (<[i := pc']> cs) = uses cs - inside pc + inside pc'.
Proof.
  revert i. induction cs as [|x cs IH]; intros [|i] Hi; simpl in *; [done|done| |].
  - injection Hi as ->. lia.
  - rewrite (IH _ Hi). lia.
Qed.

Lemma set_counted w p i st n : instances (set_instance w p (counted i st n)) !! p = Some (counted i st n).
Proof. simpl. apply lookup_insert_eq. Qed.

Lemma recount w p i st n m :
  count_ref (set_instance w p (counted i st n)) p m = Ret (set_instance w p (counted i st (u64 (n + m)))).
Proof. unfold count_ref, deref_instance. rewrite set_counted. simpl. unfold set_instance. simpl. by rewrite insert_insert_eq. Qed.

Lemma busy_call base hp name p st registered w cs u i pc :
  busy base hp p st registered (mk_conf w cs u) → cs !! i = Some pc → zlen cs < 2 ^ 63 →
  wpo (call_next hp name pc w) (λ '(pc', w'), busy base hp p st registered (mk_conf w' (<[i := pc']> cs) u)
    ∧ (entering pc = false → entering pc' = false)).
Proof.
  intros (w0 & j & Hok & Hhp & Hp & Hreg & Hw & Hall) Hi Hlen. simpl in Hw, Hall.
  pose proof (Forall_lookup_1 _ _ _ _ Hall Hi) as Hpc. pose proof (uses_nonneg cs) as Hn. pose proof (uses_le cs) as Hle.
  destruct (mo_instances _ _ Hok p j Hp) as [Hin _]. pose proof (uses_insert cs i pc) as Hu.
  assert (∀ pc', inside pc' = inside pc → on_instance p (ak_module_get_function (vtable j)) pc' →
    busy base hp p st registered (mk_conf w (<[i := pc']> cs) u)) as Hquiet.
  { intros pc' E Hpc'. exists w0, j. split_and!; try done; [|by apply Forall_insert]. simpl. rewrite (Hu _ Hi), E, Z.sub_add. done. }
  destruct pc as [|q|q|q|]; simpl in Hpc; simpl call_next.
  - unfold deref_handle. rewrite Hw. simpl. rewrite Hhp. simpl. unfold deref_instance. rewrite set_counted. simpl.
    rewrite <- Hw. case_bool_decide; simpl.
    + destruct (Z.eqb_spec (ak_module_get_function (vtable j)) 0); split; try done; by apply Hquiet.
    + split; [by apply Hquiet|done].
  - destruct Hpc as [-> Hf]. rewrite Hw, recount. simpl. split; [|done]. exists w0, j. split_and!; try done; [|by apply Forall_insert].
    simpl. rewrite (Hu _ Hi). simpl. rewrite u64_small by lia. do 2 f_equal. lia.
  - destruct Hpc as [-> Hf]. unfold deref_handle. rewrite Hw. simpl. rewrite Hhp. simpl.
    assert (ak_module_get_function (vtable j) = dlsym (dl_handle j) "ak_module_get_function"%str (dl w0)) as Hsym
      by by rewrite (io_vtable _ _ Hin).
    rewrite Hsym at 1. apply wpo_bind, mapped_ok; [by apply (some_refs base w0 p j)|congruence|].
    destruct (call_get _ _ _ _) as [r d] eqn:E. apply call_get_law in E. simpl. split; [|done].
    exists (with_dl w0 d), j. split_and!; try done; [by apply quiet_ok| |by apply Forall_insert]. simpl.
    rewrite (Hu _ Hi). simpl. rewrite Z.sub_add. done.
  - subst q. rewrite Hw, recount. simpl. split; [|done].
    assert (1 <= uses cs) as Hone.
    { pose proof (Hu C_over Hi) as E. pose proof (uses_nonneg (<[i := C_over]> cs)). simpl in E. lia. }
    exists w0, j. split_and!; try done; [|by apply Forall_insert]. simpl.
    rewrite (Hu _ Hi). simpl. rewrite u64_small by lia. do 2 f_equal. lia.
  - split; [by apply Hquiet|done].
Qed.

Lemma over_quiet cs : uses cs <= 0 → Forall (λ pc, entering pc = false) cs → Forall (λ pc, pc = C_over) cs.
Proof.
  intros Hu Hall. induction Hall as [|pc cs Hpc Hall IH]; [constructor|]. simpl in Hu. pose proof (uses_nonneg cs).
  apply Forall_cons; destruct pc; simpl in *; try done; try lia; apply IH; lia.
Qed.

Lemma start_step base hp p w cs u s :
  busy base hp p MODULE_STATE_LOADED true (mk_conf w cs u) →
  wp ('(found, _, w) ← begin_unload hp None w; mret (match found with Some p => U_taken p | None => U_refused end, w))
    (λ '(u', w') _, conf_ok base hp p (mk_conf w' cs u') ∧ ∀ q, u' ≠ U_closing q) s.
Proof.
  intros (w0 & i & Hok & Hhp & Hp & Hk & Hw & Hall). simpl in Hw, Hall.
  apply wp_bind. rewrite Hw. eapply wp_mono; [by apply (begin_counted base hp p i)|].
  intros [[r e] w'] s' (m & Hm & Hr). destruct (0 <? uses cs).
  - destruct Hr as [-> ->]. wsteps. split; [|done]. exists w0, i. by split_and!.
  - destruct Hr as (-> & _ & m' & -> & Hok' & He & _). wsteps. split; [|done]. split; [done|]. exists (with_manager w0 m'), i.
    split_and!; try done. by apply (removed_gone base w0 p i).
Qed.

Lemma unload_step base hp p w cs u s :
  conf_ok base hp p (mk_conf w cs u) →
  wp (unload_next hp u w) (λ '(u', w') _,
    ((∃ q, u = U_waiting q ∧ u' = U_closing q) → Forall (λ pc, entering pc = false) cs) → conf_ok base hp p (mk_conf w' cs u')) s.
Proof.
  intros Hc. unfold conf_ok in Hc. simpl in Hc. destruct u as [|q|q|q| |]; simpl unload_next.
  - eapply wp_mono; [exact (start_step base hp p w cs _ s Hc)|]. intros [u' w'] _ [Ho _] _. done.
  - destruct Hc as (-> & w0 & i & Hok & Hhp & Hp & Hk & Hw & Hall). simpl in Hw, Hall. rewrite Hw.
    unfold set_unloading, deref_instance. rewrite set_counted. wsteps. intros _. split; [done|].
    exists w0, i. split_and!; try done. unfold set_instance. simpl. by rewrite insert_insert_eq.
  - destruct Hc as (-> & Hb). pose proof Hb as (w0 & i & Hok & Hhp & Hp & Hk & Hw & Hall). simpl in Hw, Hall.
    unfold still_used, deref_instance. rewrite Hw, set_counted. wsteps. simpl. destruct (Z.ltb_spec 0 (uses cs)) as [Hu|Hu].
    + intros _. split; [done|]. by rewrite <- Hw.
    + intros Hcare. split; [done|]. rewrite <- Hw. split; [done|]. apply over_quiet; [done|]. apply Hcare. by exists p.
  - destruct Hc as (-> & (w0 & i & Hok & Hhp & Hp & Hk & Hw & Hall) & Hover). simpl in Hw, Hall, Hover.
    destruct (mo_instances _ _ Hok p i Hp) as [Hin Hcb]. apply wp_bind. rewrite Hw.
    eapply wp_mono; [apply (release_instance_ok p i MODULE_STATE_UNLOADING (uses cs)); [apply set_counted|done|done|by apply (some_refs base w0 p i)]|].
    intros w2 s2 ((d & -> & Hcl & _) & _ & _). wsteps. apply wp_free_obj. intros s3 _ _. wsteps. intros _. simpl.
    assert (delete p (<[p := counted i MODULE_STATE_UNLOADING (uses cs)]> (instances w0)) = delete p (instances w0)) as Hdel
      by apply delete_insert_eq.
    unfold conf_ok. simpl. rewrite Hdel, !lookup_delete_eq. split_and!; try done. by apply (released_ok base hp p i w0 d).
  - wsteps. intros _. done.
  - eapply wp_mono; [exact (start_step base hp p w cs _ s Hc)|]. intros [u' w'] _ [Ho _] _. done.
Qed.

Lemma conf_step_ok base hp name p c c' :
  conf_ok base hp p c → careful_step hp name c c' → zlen (calls c) < 2 ^ 63 → conf_ok base hp p c'.
Proof.
  intros Hc [Hstep Hcare] Hlen. destruct Hstep as [w cs u Hu|w cs u i pc pc' w' Hi Hn|w cs u s u' w' s' Hn]; simpl in *.
  - assert (∀ st r, busy base hp p st r (mk_conf w cs u) → busy base hp p st r (mk_conf w (C_start :: cs) u)) as Hb.
    { intros st r (w0 & i & Hok & Hhp & Hp & Hk & Hw & Hall). exists w0, i. split_and!; try done. by apply Forall_cons. }
    unfold conf_ok in *. simpl in *. destruct u; try done; [by apply Hb| | |by apply Hb]; (split; [apply Hc|apply Hb, Hc]).
  - assert (∀ st r, busy base hp p st r (mk_conf w cs u) → busy base hp p st r (mk_conf w' (<[i := pc']> cs) u)) as Hb.
    { intros st r Hbusy. pose proof (busy_call base hp name p st r w cs u i pc Hbusy Hi Hlen) as Hw. rewrite Hn in Hw. apply Hw. }
    assert (Forall (λ pc, pc = C_over) cs → pc' = C_over ∧ w' = w ∧ <[i := pc']> cs = cs) as Hov.
    { intros Hall. pose proof (Forall_lookup_1 _ _ _ _ Hall Hi) as ->. injection Hn as <- <-. split_and!; [done|done|by apply list_insert_id]. }
    unfold conf_ok in *. simpl in *. destruct u; [by apply Hb| | | | |by apply Hb]; try (split; [apply Hc|apply Hb, Hc]).
    + destruct Hc as (-> & Hbusy & Hover). destruct (Hov Hover) as (-> & -> & ->). done.
    + destruct Hc as (Hok & Hi1 & Hh1 & Hover). destruct (Hov Hover) as (-> & -> & ->). done.
  - pose proof (unload_step base hp p w cs u s Hc) as Hw. unfold wp in Hw. rewrite Hn in Hw. apply Hw.
    intros (q & -> & ->). done.
Qed.

Lemma conf_runs_ok base hp name p c c' :
  conf_ok base hp p c → rtc (careful_step hp name) c c' → zlen (calls c') < 2 ^ 63 → conf_ok base hp p c'.
Proof.
  intros Hc Hrun. induction Hrun as [c|c1 c2 c3 Hs Hrun IH]; intros Hlen; [done|]. apply IH; [|done].
  eapply conf_step_ok; [done|done|].
  assert (∀ a b, rtc (careful_step hp name) a b → zlen (calls a) <= zlen (calls b)) as Hmono.
  { clear. intros a b Hr. induction Hr as [|a b c [Hs _] _ IH]; [done|]. destruct Hs; simpl in *; unfold zlen in *;
      rewrite ?length_insert in *; simpl in *; lia. }
  specialize (Hmono c1 c3 (rtc_l _ _ _ _ Hs Hrun)). lia.
Qed.

Lemma conf_fine base hp name p c : conf_ok base hp p c → zlen (calls c) < 2 ^ 63 → ¬ goes_wrong hp name c.
Proof.
  intros Hc Hlen [(i & pc & Hi & Hn)|[s Hn]]; destruct c as [w cs u]; simpl in *.
  - assert (∀ st r, ¬ busy base hp p st r (mk_conf w cs u)) as Hb.
    { intros st r Hbusy. pose proof (busy_call base hp name p st r w cs u i pc Hbusy Hi Hlen) as Hw. by rewrite Hn in Hw. }
    unfold conf_ok in Hc. simpl in Hc. destruct u; try (by eapply Hb); try (by eapply Hb, Hc).
    destruct Hc as (_ & _ & _ & Hover). pose proof (Forall_lookup_1 _ _ _ _ Hover Hi) as ->. done.
  - pose proof (unload_step base hp p w cs u s Hc) as Hw. unfold wp in Hw. by rewrite Hn in Hw.
Qed.
End interleavings.

(** * Properties *)

Section properties.
Context `{Allocator} `{LoaderLaws}.


(** C24: Unloading.  A registered module that is not in use is unloaded whatever else is
    loaded: its callback is called; its clean-up, [ak_module_deinit], is called with
    its context, and then the library is closed once, and nothing else is asked of
    the loader; its instance, its handle, its entry and their blocks are gone, and
    nothing else.  The instance that is found is that of the handle although the
    code looks for the library: two registered instances never have the same one,
    because the code checks that a library is the file of its path.  When there is a
    registry and no entry of it has the library of the handle, the call answers
    false and changes nothing. *)
Theorem unload_module_impl_spec base hp p i error w s :
  modules_ok base w → handles w !! hp = Some (handle_of p i) → instances w !! p = Some i →
  (registry w !! path i = Some p →
     wp (unload_module_impl (Some hp) error w) (λ '(r, error', w') s', r = true ∧ error' = error ∧ modules_ok base w'
       ∧ unloaded hp p i w s w' s') s)
  ∧ (∀ k1 p1 i1 k2 p2 i2, registry w !! k1 = Some p1 → instances w !! p1 = Some i1 → registry w !! k2 = Some p2 →
       instances w !! p2 = Some i2 → dl_handle i1 = dl_handle i2 → p1 = p2 ∧ k1 = k2)
  ∧ (g_module_manager w ≠ None →
     (∀ k q j, registry w !! k = Some q → instances w !! q = Some j → dl_handle j ≠ dl_handle i) →
     unload_module_impl (Some hp) error w s = Ret (false, set_error error (Text "Module not found in registry"%str), w, s)).
Proof.
  intros Hok Hhp Hp. split_and!.
  - intros Hk. by apply (unload_ok base).
  - intros k1 p1 i1 k2 p2 i2. by apply (library_unique base).
  - intros Hm Hnone. by apply (unload_refused base hp p i).
Qed.

(** C25: Loading and unloading.  After a module has been loaded and registered, unloading
    it through its handle leaves every instance, handle and entry as they were, every
    library open as often as it was, and no block but those of the registry. *)
Theorem load_unload_roundtrip base options path0 error w s :
  clears → modules_ok base w → module_path options = Some path0 → callback_live (lams w) (o_unload_callback options) →
  Z.of_nat (size (registry w)) < 2 ^ 30 →
  wp (load_module_impl options error w) (λ '(r, _, w1) s1, ∀ hp, r = Some hp → is_Some (registry w1 !! path0) →
    wp (unload_module_impl (Some hp) error w1) (λ '(ok, _, w2) s2, ok = true ∧ modules_ok base w2
      ∧ instances w2 = instances w ∧ handles w2 = handles w ∧ registry w2 = registry w
      ∧ (∀ h, refs (dl w2) h = refs (dl w) h)
      ∧ m_live s2 - m_live s = manager_blocks w2 - manager_blocks w) s1) s.
Proof.
  intros Hclear Hok Hpath Hcb Hsize. eapply wp_mono; [by apply (load_ok base)|]. intros [[r e] w1] s1 [Hok1 Hl] hp -> [q Hq].
  destruct Hl as (p & i & Hnone & Hni & Hnh & Hi1 & Hh1 & Hr1 & Hpi & _ & _ & Hmx & Hrefs & _ & HL).
  assert (registry w1 = <[path0 := p]> (registry w)) as Hreg. { destruct Hr1 as [E|[E _]]; [done|]. rewrite E in Hq. congruence. }
  eapply wp_mono; [apply (unload_ok base hp p i); [done|by rewrite Hh1, lookup_insert_eq|by rewrite Hi1, lookup_insert_eq|]|].
  { rewrite Hreg, Hpi. by rewrite lookup_insert_eq. }
  intros [[ok e2] w2] s2 (-> & _ & Hok2 & Hi2 & Hh2 & Hr2 & Hrefs2 & _ & _ & HL2). split_and!; [done|done| | | | |].
  - rewrite Hi2, Hi1. by apply delete_insert_id.
  - rewrite Hh2, Hh1. by apply delete_insert_id.
  - rewrite Hr2, Hreg, Hpi. by apply delete_insert_id.
  - intros h. specialize (Hrefs h). specialize (Hrefs2 h). destruct (bool_decide _); lia.
  - rewrite Hmx in HL2. lia.
Qed.

(** C22: Calls of [ak_handle_get_function] while a thread unloads the module, in every
    interleaving in which no call is between its test of the state and the counting of
    its reference when the unloading thread sees no references.  No step of any thread
    is undefined: no call uses the instance or the handle after they are freed, or the
    function of the module after the library is closed.  Every call that counted a
    reference is waited for, the module is not unloaded while one does, and when it is
    gone all calls are over and the invariant holds. *)
Theorem ak_handle_calls_spec base hp p i name w c :
  modules_ok base w → handles w !! hp = Some (handle_of p i) → instances w !! p = Some i → registry w !! path i = Some p →
  rtc (careful_step hp name) (mk_conf w [] U_start) c → zlen (calls c) < 2 ^ 63 →
  ¬ goes_wrong hp name c
  ∧ (Exists (λ pc, inside pc = 1) (calls c) →
       ∃ j, instances (mods c) !! p = Some j ∧ ref_count j = uses (calls c) ∧ (0 < refs (dl (mods c)) (dl_handle j))%nat)
  ∧ (unloader c = U_unloaded → Forall (λ pc, pc = C_over) (calls c) ∧ modules_ok base (mods c)
       ∧ instances (mods c) !! p = None ∧ handles (mods c) !! hp = None).
Proof.
  intros Hok Hhp Hp Hk Hrun Hlen.
  assert (conf_ok base hp p c) as Hc.
  { eapply conf_runs_ok; [|done|done]. exists w, i. simpl. destruct (mo_instances _ _ Hok p i Hp) as [Hin _].
    split_and!; try done. symmetry. apply counted_same; [done|apply Hin|apply Hin]. }
  split_and!.
  - by apply (conf_fine base hp name p).
  - intros Hex. assert (∀ st r, busy base hp p st r c →
      ∃ j, instances (mods c) !! p = Some j ∧ ref_count j = uses (calls c) ∧ (0 < refs (dl (mods c)) (dl_handle j))%nat) as Hb.
    { intros st r (w0 & j & Hok0 & Hhp0 & Hp0 & _ & Hw & _). rewrite Hw. exists (counted j st (uses (calls c))).
      split; [apply set_counted|]. split; [done|]. simpl. by apply (some_refs base w0 p j). }
    assert (¬ Forall (λ pc, pc = C_over) (calls c)) as Hnot.
    { intros Hall. apply Exists_exists in Hex as (pc & Hin & Hpc). rewrite Forall_forall in Hall.
      rewrite (Hall pc) in Hpc; [done|]. done. }
    unfold conf_ok in Hc. destruct (unloader c); [by eapply Hb|by eapply Hb, Hc|by eapply Hb, Hc| | |by eapply Hb].
    + by destruct Hc as (_ & _ & Hover).
    + by destruct Hc as (_ & _ & _ & Hover).
  - intros Hu. unfold conf_ok in Hc. rewrite Hu in Hc. by destruct Hc as (Hm & Hi & Hh & Hover).
Qed.
End properties.

(** * Witnesses *)

(** A library is the first letter of its path, and so is its handle; an address is in
    the sixteen that belong to its library, whose name is the letter.  The state is the handles that are open. *)
Definition toy : Type := list Z.

Definition toy_dlopen (path : cstr) (w : toy) : Z * toy :=
  match chars path with
  | c :: _ => (c, c :: w)
  | [] => (0, w)
  end.

Fixpoint toy_dlclose (h : Z) (w : toy) : toy :=
  match w with
  | [] => []
  | k :: w => if k =? h then w else k :: toy_dlclose h w
  end.

Fixpoint toy_refs (w : toy) (h : Z) : nat :=
  match w with
  | [] => 0
  | k :: w => (if k =? h then 1 else 0) + toy_refs w h
  end.

Definition toy_symbol (s : String.string) : Z :=
  if String.eqb s "ak_module_version" then 1 else if String.eqb s "ak_module_init" then 2
  else if String.eqb s "ak_module_deinit" then 3 else if String.eqb s "ak_module_info" then 4
  else if String.eqb s "ak_module_get_function" then 5 else 6.

Definition toy_name (c : Z) : option cstr :=
  match decide (forallb (λ c, (0 <? c) && (c <? 256)) [c] = true) with
  | left Hc => Some (mk_cstr [c] Hc)
  | right _ => None
  end.

#[local] Instance toy_loader : Loader := {|
  loader := toy;
  dlopen := toy_dlopen;
  dlerror w := (0, w);
  dlsym h s _ := 16 * h + toy_symbol s;
  dlclose := toy_dlclose;
  dladdr p w := match toy_refs w (p / 16) with O => None | S _ => Some (toy_name (p / 16)) end;
  call_version _ w := (AK24_MODULE_API_VERSION, w);
  call_init _ w := (AK_MODULE_OK, 4096, 0, w);
  call_deinit _ _ w := w;
  call_info _ _ w := (8, w);
  call_get _ _ _ w := (24, w);
|}.

Lemma toy_address h s : (16 * h + toy_symbol s) / 16 = h.
Proof.
  assert (0 <= toy_symbol s < 16) by (unfold toy_symbol; repeat case_match; lia).
  rewrite (Z.mul_comm 16), Z.div_add_l by lia. rewrite Z.div_small by lia. lia.
Qed.

Lemma toy_stays (w w' : toy) : ∀ h s, (0 < toy_refs w h)%nat → (0 < toy_refs w' h)%nat →
  dlsym h s w' = dlsym h s w ∧ dladdr (dlsym h s w) w' = dladdr (dlsym h s w) w.
Proof.
  intros h s Hw Hw'. split; [done|]. simpl. rewrite toy_address. destruct (toy_refs w h), (toy_refs w' h); lia || done.
Qed.

Lemma toy_close_refs h w : (0 < toy_refs w h)%nat →
  toy_refs w h = S (toy_refs (toy_dlclose h w) h) ∧ ∀ k, k ≠ h → toy_refs (toy_dlclose h w) k = toy_refs w k.
Proof.
  induction w as [|x w IH]; simpl; [lia|]. destruct (Z.eqb_spec x h) as [->|Hx].
  - intros _. split; [done|]. intros k Hk. by destruct (Z.eqb_spec h k).
  - intros Hp. destruct IH as [IH1 IH2]; [done|]. simpl. destruct (Z.eqb_spec x h); [done|]. split; [done|].
    intros k Hk. by rewrite IH2.
Qed.

#[local] Instance toy_loader_laws : @LoaderLaws toy_loader.
Proof.
  unshelve refine (@Build_LoaderLaws toy_loader toy_refs _ _ _ _ _ _ _ _ _).
  all: intros; try (split; [exact (toy_stays _ _)|]); try (by simplify_eq/=); try done.
  - simpl in *. unfold toy_dlopen in *. destruct (chars path0) as [|c cs] eqn:E; simplify_eq; [by left|].
    right. simpl. split_and!.
    + intros ->. pose proof (chars_ok path0) as Hc. by rewrite E in Hc.
    + by rewrite Z.eqb_refl.
    + intros k Hk. by destruct (Z.eqb_spec h k).
  - by apply toy_close_refs.
  - simpl. rewrite toy_address. destruct (toy_refs w h); [lia|done].
Defined.

Section module_witnesses.
#[local] Existing Instances always_alloc.

Definition w_empty : @modules toy_loader := mk_modules None ∅ ∅ 1 (mk_lstore {[ 1%positive := mk_lambda 9 0 0 ]} 2 []) [].
Definition w_options : ak_module_load_options_t := mk_options (Some wa) (Some 1%positive) 7 true.

Lemma w_empty_ok : modules_ok (λ _, O) w_empty.
Proof. by split. Qed.

Lemma w_clears : clears.
Proof. done. Qed.

(** A module that has been loaded, with its handle. *)
Definition w_loaded : @modules toy_loader :=
  match load_module_impl w_options None w_empty mem0 with
  | Ret (_, _, w, _) => w
  | _ => w_empty
  end.

Definition w_instance : module_instance_t :=
  mk_instance 0x61 wa 4096 (vtable_of 0x61 []) (Some 1%positive) 7 true 0 MODULE_STATE_LOADED true.

Lemma w_loaded_ok : modules_ok (λ _, O) w_loaded.
Proof.
  pose proof (load_ok (λ _, O) w_options wa None w_empty mem0 w_clears w_empty_ok eq_refl) as Hw. unfold wp in Hw.
  unfold w_loaded. destruct (load_module_impl w_options None w_empty mem0) as [[[[r e] w] s]| |].
  - by apply Hw; [by eexists|].
  - by destruct Hw; [by eexists|].
  - by destruct Hw; [by eexists|].
Qed.

Lemma w_loaded_parts : handles w_loaded !! 2%positive = Some (handle_of 1 w_instance)
  ∧ instances w_loaded !! 1%positive = Some w_instance ∧ registry w_loaded !! wa = Some 1%positive.
Proof. split_and!; vm_compute; reflexivity. Qed.

Lemma unload_module_impl_spec_witness :
  wp (unload_module_impl (Some 2%positive) None w_loaded) (λ '(r, _, w') s', r = true
    ∧ unloaded 2 1 w_instance w_loaded mem0 w' s') mem0.
Proof.
  destruct w_loaded_parts as (Hh & Hi & Hr).
  eapply wp_mono; [exact (proj1 (unload_module_impl_spec (λ _, O) 2 1 w_instance None w_loaded mem0 w_loaded_ok Hh Hi) Hr)|].
  intros [[r e] w'] s' (-> & _ & _ & Hun). done.
Defined.

Lemma load_unload_roundtrip_witness :
  wp (load_module_impl w_options None w_empty) (λ '(r, _, w1) s1, ∀ hp, r = Some hp → is_Some (registry w1 !! wa) →
    wp (unload_module_impl (Some hp) None w1) (λ '(ok, _, w2) _, ok = true ∧ instances w2 = ∅ ∧ toy_refs (dl w2) 0x61 = O) s1) mem0.
Proof.
  eapply wp_mono.
  - apply (load_unload_roundtrip (λ _, O) w_options wa None w_empty mem0 w_clears w_empty_ok eq_refl); [by eexists|done].
  - intros [[r e] w1] s1 Hrt hp Hr Hreg. eapply wp_mono; [by apply Hrt|].
    intros [[ok e2] w2] s2 (Hok & _ & Hi & _ & _ & Hrefs & _). split_and!; [done|done|apply Hrefs].
Defined.

(** An execution by the threads that take a step: [None] begins a call, [Some None] is a
    step of the unloading thread and [Some (Some i)] one of call [i]. *)
Definition toy_step (hp : positive) (name : cstr) (c : @conf toy_loader) (who : option (option nat)) : option (@conf toy_loader) :=
  match who with
  | None => if can_begin (unloader c) then Some (mk_conf (mods c) (C_start :: calls c) (unloader c)) else None
  | Some None =>
      match unload_next hp (unloader c) (mods c) mem0 with
      | Ret (u, w, _) => Some (mk_conf w (calls c) u)
      | _ => None
      end
  | Some (Some i) =>
      pc ← calls c !! i;
      match call_next hp name pc (mods c) with
      | Ret (pc, w) => Some (mk_conf w (<[i := pc]> (calls c)) (unloader c))
      | _ => None
      end
  end.

Definition toy_careful (c c' : @conf toy_loader) : bool :=
  match unloader c, unloader c' with
  | U_waiting _, U_closing _ => forallb (λ pc, negb (entering pc)) (calls c)
  | _, _ => true
  end.

Fixpoint toy_run (careful : bool) (hp : positive) (name : cstr) (c : @conf toy_loader) (whos : list (option (option nat)))
    : option (@conf toy_loader) :=
  match whos with
  | [] => Some c
  | who :: whos =>
      c' ← toy_step hp name c who;
      if implb careful (toy_careful c c') then toy_run careful hp name c' whos else None
  end.

Lemma toy_step_step hp name c who c' : toy_step hp name c who = Some c' → conf_step hp name c c'.
Proof.
  destruct c as [w cs u], who as [[i|]|]; simpl.
  - destruct (cs !! i) as [pc|] eqn:Hi; simpl; [|done]. destruct (call_next hp name pc w) as [[pc' w']| |] eqn:E; simpl; [|done..].
    intros [= <-]. by eapply cf_call.
  - destruct (unload_next hp u w mem0) as [[[u' w'] s']| |] eqn:E; simpl; [|done..]. intros [= <-]. by eapply cf_unload.
  - destruct (can_begin u) eqn:E; [|done]. intros [= <-]. by apply cf_begin.
Qed.

Lemma toy_careful_step hp name c who c' :
  toy_step hp name c who = Some c' → toy_careful c c' = true → careful_step hp name c c'.
Proof.
  intros Hs Hc. split; [by eapply toy_step_step|]. unfold toy_careful in Hc. destruct (unloader c), (unloader c'); try done.
  apply Forall_forall. rewrite forallb_forall in Hc. intros pc Hin.
  assert (negb (entering pc) = true) as Hn. { by apply Hc. }
  by destruct (entering pc).
Qed.

Lemma toy_run_run careful hp name whos : ∀ c c', toy_run careful hp name c whos = Some c' →
  rtc (if careful then careful_step hp name else conf_step hp name) c c'.
Proof.
  induction whos as [|who whos IH]; simpl; intros c c'; [by intros [= ->]|].
  destruct (toy_step hp name c who) as [c1|] eqn:Hs; simpl; [|done].
  destruct careful; simpl in *.
  - destruct (toy_careful c c1) eqn:Hc; [|done]. intros Hr. eapply rtc_l; [by eapply toy_careful_step|by apply IH].
  - intros Hr. eapply rtc_l; [by eapply toy_step_step|by apply IH].
Qed.

Lemma toy_reaches careful hp name c whos (P : conf → Prop) :
  match toy_run careful hp name c whos with Some c' => P c' | None => False end →
  ∃ c', rtc (if careful then careful_step hp name else conf_step hp name) c c' ∧ P c'.
Proof.
  destruct (toy_run careful hp name c whos) as [c'|] eqn:E; [|done]. intros HP. exists c'.
  split; [by eapply toy_run_run|done].
Qed.

(** A call, and then unloading; and a call that is overtaken by it. *)
Definition w_calm : list (option (option nat)) :=
  [None; Some (Some O); Some (Some O); Some (Some O); Some (Some O); Some None; Some None; Some None; Some None].

Definition w_entering : list (option (option nat)) := [None; Some (Some O); Some None; Some None; Some None; Some None].

Lemma calm_run : ∃ c, rtc (careful_step 2 wb) (mk_conf w_loaded [] U_start) c ∧ unloader c = U_unloaded ∧ calls c = [C_over].
Proof.
  refine (toy_reaches true 2 wb (mk_conf w_loaded [] U_start) w_calm (λ c, unloader c = U_unloaded ∧ calls c = [C_over]) _).
  vm_compute. by split.
Qed.

Lemma entering_run : ∃ c, rtc (conf_step 2 wb) (mk_conf w_loaded [] U_start) c
  ∧ calls c = [C_checked 1] ∧ call_next 2 wb (C_checked 1) (mods c) = Undef.
Proof.
  refine (toy_reaches false 2 wb (mk_conf w_loaded [] U_start) w_entering
    (λ c, calls c = [C_checked 1] ∧ call_next 2 wb (C_checked 1) (mods c) = Undef) _).
  vm_compute. by split.
Qed.

Lemma ak_handle_calls_spec_witness :
  ∃ c, unloader c = U_unloaded ∧ modules_ok (λ _, O) (mods c) ∧ instances (mods c) !! 1%positive = None.
Proof.
  destruct calm_run as (c & Hrun & Hu & Hcs). destruct w_loaded_parts as (Hh & Hi & Hr). exists c. split; [done|].
  destruct (ak_handle_calls_spec (λ _, O) 2 1 w_instance wb w_loaded c w_loaded_ok Hh Hi Hr Hrun) as (_ & _ & Hend);
    [by rewrite Hcs|]. by destruct (Hend Hu) as (_ & Hok & Hnone & _).
Defined.

(** A path whose library has another name. *)
Definition w_alias : cstr := mk_cstr [0x61; 0x62] eq_refl.

Definition never_clears : Allocator := {|
  alloc_ok _ _ := true;
  alloc_fill _ _ := 1;
|}.

(** What goes wrong.  A call that has tested the state, and counts its reference
    only when the unloading thread has seen none, uses an instance that is freed.  And
    when the file of a library is not named as the path it was opened by, as dladdr
    sees it, the code reads the pointer to a mutex that it has not set: from an
    allocator that does not clear its blocks, that is undefined. *)
Theorem modules_undefined :
  (∃ c, rtc (conf_step 2 wb) (mk_conf w_loaded [] U_start) c ∧ goes_wrong 2 wb c)
  ∧ @load_module_impl never_clears toy_loader (mk_options (Some w_alias) None 0 true) None w_empty mem0 = Undef
  ∧ wp (load_module_impl (mk_options (Some w_alias) None 0 true) (Some None) w_empty) (λ '(r, error, _) _,
      r = None ∧ error = Some (Some (Text "Function pointer validation failed"%str))) mem0.
Proof.
  split_and!; [|vm_compute; reflexivity|vm_compute; by split].
  destruct entering_run as (c & Hrun & Hcs & Hc). exists c. split; [done|]. left. exists O, (C_checked 1).
  split; [|done]. by rewrite Hcs.
Qed.
End module_witnesses.
