(* ===== verification/Signals.v ===== *)
(** Signal handlers: [kernel/src/posix.c].

    A handler is a lambda for a signal.  The entries of the table live in a store and
    the table is a list of pointers to them.  The system keeps an action for every
    signal; [sigaction] is a call on its state.  The mutex is explicit, because the
    function that the system calls for a signal takes it too: a thread that takes it
    again never returns.  The argument of a handler is the number of the signal, in
    a block of its own. *)

From stdpp Require Import gmap.
From S2P Require Import Prelude Lists Lambdas.

(** * The system *)

(** [dispatch_action] is the action that [sa] describes: call [ak_signal_dispatch].
    [sigaction] answers its result and the action there was. *)
Class SignalSystem := {
  action : Type;
  sigsys : Type;
  dispatch_action : action;
  sigaction : Z → action → sigsys → Z * action * sigsys;
}.

(** [sigaction(2)]: whether an action can be set depends on the signal. *)
Class SignalLaws `{SignalSystem} := {
  disposition : sigsys → Z → action;
  settable : Z → bool;
  sigaction_law n a w :
    let '(rc, old, w') := sigaction n a w in
    if settable n
    then rc = 0 ∧ old = disposition w n ∧ disposition w' n = a ∧ ∀ m, m ≠ n → disposition w' m = disposition w m
    else rc = -1 ∧ ∀ m, disposition w' m = disposition w m;
}.

(** * Data *)

Section signals.
Context `{Allocator} `{SignalSystem}.

Record ak_signal_handler_entry_t := mk_sig_entry {
  signum : Z;
  handler : option positive;
  old_action : action;
}.

Definition sizeof_ak_signal_handler_entry_t : Z := 168.
Definition sizeof_int : Z := 4.

(** The globals, the entries that were made and what else the code works on;
    [passed]: how many arguments of handlers were allocated. *)
Record signals := mk_signals {
  signal_handlers : list_base_t positive;
  signal_handlers_initialized : bool;
  signal_mutex : bool;
  sig_entries : gmap positive ak_signal_handler_entry_t;
  next_entry : positive;
  passed : Z;
  sig_lams : lstore;
  sig_sys : sigsys;
}.

Definition with_table (w : signals) (l : list_base_t positive) : signals :=
  mk_signals l (signal_handlers_initialized w) (signal_mutex w) (sig_entries w) (next_entry w) (passed w) (sig_lams w) (sig_sys w).

Definition with_initialized (w : signals) (b : bool) : signals :=
  mk_signals (signal_handlers w) b (signal_mutex w) (sig_entries w) (next_entry w) (passed w) (sig_lams w) (sig_sys w).

Definition with_mutex (w : signals) (b : bool) : signals :=
  mk_signals (signal_handlers w) (signal_handlers_initialized w) b (sig_entries w) (next_entry w) (passed w) (sig_lams w) (sig_sys w).

Definition with_entry (w : signals) (p : positive) (e : ak_signal_handler_entry_t) : signals :=
  mk_signals (signal_handlers w) (signal_handlers_initialized w) (signal_mutex w) (<[p := e]> (sig_entries w))
    (Pos.max (Pos.succ p) (next_entry w)) (passed w) (sig_lams w) (sig_sys w).

Definition with_passed (w : signals) (l : lstore) : signals :=
  mk_signals (signal_handlers w) (signal_handlers_initialized w) (signal_mutex w) (sig_entries w) (next_entry w)
    (passed w + 1) l (sig_sys w).

Definition with_sys (w : signals) (d : sigsys) : signals :=
  mk_signals (signal_handlers w) (signal_handlers_initialized w) (signal_mutex w) (sig_entries w) (next_entry w) (passed w)
    (sig_lams w) d.

Definition deref_entry (w : signals) (p : positive) : outcome ak_signal_handler_entry_t :=
  match sig_entries w !! p with
  | Some e => Ret e
  | None => Undef
  end.

(** [AK24_MUTEX_LOCK]: waiting for a mutex the thread itself holds does not end. *)
Definition lock_signals (w : signals) : outcome signals :=
  if signal_mutex w then Hang else Ret (with_mutex w true).

Definition unlock_signals (w : signals) : signals := with_mutex w false.

(** * Operations *)

(** One entry of the table, when a signal has arrived. *)
Definition dispatch_entry (n : Z) (p : positive) (w : signals) : M (signals + False) :=
  e ← lift (deref_entry w p);
  if (signum e =? n) && (match handler e with Some _ => true | None => false end) then
    ok ← alloc_obj sizeof_int;
    if negb ok then mret (inl w) else
    l ← lift (ak_lambda_invoke (sig_lams w) (handler e) n);
    mret (inl (with_passed w l))
  else mret (inl w).

Definition ak_signal_dispatch (n : Z) (w : signals) : M signals :=
  w ← lift (lock_signals w);
  if negb (signal_handlers_initialized w) then mret (unlock_signals w) else
  r ← list_while (signal_handlers w) (dispatch_entry n) w;
  match r with
  | inl w => mret (unlock_signals w)
  | inr f => match f : False with end
  end.

(** The entry of a signal, with its handler replaced. *)
Definition update_entry (n : Z) (h : option positive) (p : positive) (w : signals) : M (signals + signals) :=
  e ← lift (deref_entry w p);
  if signum e =? n then mret (inr (with_entry w p (mk_sig_entry (signum e) h (old_action e)))) else mret (inl w).

Definition ak_register_signal_handler (n : Z) (h : option positive) (w : signals) : M signals :=
  match h with
  | None => mret w
  | Some _ =>
      if negb (signal_handlers_initialized w) then mret w else
      w ← lift (lock_signals w);
      r ← list_while (signal_handlers w) (update_entry n h) w;
      match r with
      | inr w => mret (unlock_signals w)
      | inl w =>
          ok ← alloc_obj sizeof_ak_signal_handler_entry_t;
          if negb ok then mret (unlock_signals w) else
          let '(rc, old, d) := sigaction n dispatch_action (sig_sys w) in
          let p := next_entry w in
          let w := with_sys (with_entry w p (mk_sig_entry n h old)) d in
          if rc =? 0 then
            '(_, l) ← list_push_ (signal_handlers w) p sizeof_pointer;
            mret (unlock_signals (with_table w l))
          else mret (unlock_signals w)
      end
  end.

(** The index of the entry of a signal, whose action is set back. *)
Definition restore_found (n : Z) (p : positive) (acc : signals * Z) : M (signals * Z + signals * Z) :=
  let '(w, index) := acc in
  e ← lift (deref_entry w p);
  if signum e =? n then
    let '(_, _, d) := sigaction n (old_action e) (sig_sys w) in
    mret (inr (with_sys w d, index))
  else mret (inl (w, u64 (index + 1))).

Definition ak_unregister_signal_handler (n : Z) (w : signals) : M signals :=
  w ← lift (lock_signals w);
  if negb (signal_handlers_initialized w) then mret (unlock_signals w) else
  r ← list_while (signal_handlers w) (restore_found n) (w, 0);
  match r with
  | inr (w, index) =>
      '(_, l) ← list_remove_ (signal_handlers w) (u32 index);
      mret (unlock_signals (with_table w l))
  | inl (w, _) => mret (unlock_signals w)
  end.

Definition ak_signal_handlers_init (w : signals) : signals :=
  with_initialized (with_table w (list_init sizeof_pointer)) true.

Definition restore_entry (p : positive) (w : signals) : M (signals + False) :=
  e ← lift (deref_entry w p);
  let '(_, _, d) := sigaction (signum e) (old_action e) (sig_sys w) in
  mret (inl (with_sys w d)).

Definition ak_signal_handlers_deinit (w : signals) : M signals :=
  if negb (signal_handlers_initialized w) then mret w else
  w ← lift (lock_signals w);
  r ← list_while (signal_handlers w) restore_entry w;
  match r with
  | inl w =>
      l ← list_deinit_ (signal_handlers w);
      mret (unlock_signals (with_initialized (with_table w l) false))
  | inr f => match f : False with end
  end.
End signals.

(** The end of a wait of [timeout_ms], in seconds and nanoseconds; the fields of a
    [timespec] are 64 bits wide. *)
Definition wait_until (tv_sec tv_nsec timeout_ms : Z) : Z * Z :=
  let tv_sec := i64 (tv_sec + timeout_ms / 1000) in
  let tv_nsec := i64 (tv_nsec + u32 (timeout_ms mod 1000 * 1000000)) in
  if 1000000000 <=? tv_nsec then (i64 (tv_sec + 1), tv_nsec - 1000000000) else (tv_sec, tv_nsec).

Definition ETIMEDOUT : Z := 110.

(** * Loops over a list *)

Section each.
Context {T S R : Type}.

Lemma wp_each_app (xs ys : list T) (body : T → S → M (S + R)) acc Q s :
  wp (each xs body acc) (λ r s', match r with inl acc' => wp (each ys body acc') Q s' | inr _ => Q r s' end) s →
  wp (each (xs ++ ys) body acc) Q s.
Proof.
  revert acc s. induction xs as [|x xs IH]; intros acc s; simpl; [done|]. unfold wp, mbind, M_bind.
  destruct (body x acc s) as [[[acc'|r] s']| |]; [apply IH|done..].
Qed.

Lemma wp_each_cons x (xs : list T) (body : T → S → M (S + R)) acc Q s :
  wp (body x acc) (λ r s', match r with inl acc' => wp (each xs body acc') Q s' | inr res => Q (inr res) s' end) s →
  wp (each (x :: xs) body acc) Q s.
Proof. simpl. unfold wp, mbind, M_bind. by destruct (body x acc s) as [[[acc'|r] s']| |]. Qed.

(** Items that only change what is carried along, while [P] holds of it. *)
Lemma each_skip (P : S → Prop) (xs : list T) (body : T → S → M (S + R)) (f : S → S) acc s :
  P acc → (∀ a, P a → P (f a)) → (∀ x a s, x ∈ xs → P a → body x a s = Ret (inl (f a), s)) →
  each xs body acc s = Ret (inl (Nat.iter (length xs) f acc), s).
Proof.
  intros HP Hf Hb. revert acc HP. induction xs as [|x xs IH]; intros acc HP; [done|].
  change (each (x :: xs) body acc s) with ((r ← body x acc; match r with inl a => each xs body a | inr r => mret (inr r) end) s).
  unfold mbind, M_bind. rewrite Hb; [|apply list_elem_of_here|done].
  rewrite IH; [|by intros y a s' Hy; apply Hb, list_elem_of_further|by apply Hf]. simpl length. by rewrite Nat.iter_succ_r.
Qed.

Lemma wp_done {A} (m : M A) a s s' (Q : A → mem → Prop) : m s = Ret (a, s') → Q a s' → wp m Q s.
Proof. unfold wp. by intros ->. Qed.

Lemma iter_id n (acc : S) : Nat.iter n (λ a, a) acc = acc.
Proof. by induction n. Qed.
End each.

Lemma list_wf_fun {A} (l : list_base_t A) xs ys : list_wf l xs → list_wf l ys → xs = ys.
Proof. intros Hx%list_drain_ok Hy%list_drain_ok. congruence. Qed.

(** * The table *)

Section table.
Context `{Allocator} `{SignalLaws}.

(** The pointers [ps] to the entries of the table [T]; [base]: the actions that the
    table's own hides. *)
Record table_of (base : Z → action) (T : gmap Z positive) (es : gmap positive ak_signal_handler_entry_t) (ps : list positive)
    : Prop := {
  to_entry : ∀ p, p ∈ ps → ∃ e h, es !! p = Some e ∧ handler e = Some h ∧ T !! signum e = Some h
    ∧ old_action e = base (signum e) ∧ settable (signum e) = true;
  to_find : ∀ n h, T !! n = Some h → ∃ p e, p ∈ ps ∧ es !! p = Some e ∧ signum e = n;
  to_unique : ∀ p q e f, p ∈ ps → q ∈ ps → es !! p = Some e → es !! q = Some f → signum e = signum f → p = q;
  to_nodup : NoDup ps;
  to_size : length ps = size T;
}.

(** Between calls, with the handlers [T] of the signals. *)
Record signals_ok (base : Z → action) (T : gmap Z positive) (w : signals) : Prop := {
  so_free : signal_mutex w = false;
  so_on : signal_handlers_initialized w = true;
  so_list : ∃ ps, list_wf (signal_handlers w) ps ∧ table_of base T (sig_entries w) ps;
  so_action : ∀ n, disposition (sig_sys w) n = match T !! n with Some _ => dispatch_action | None => base n end;
  so_live : ∀ n h, T !! n = Some h → is_Some (lambdas (sig_lams w) !! h);
  so_fresh : ∀ p, is_Some (sig_entries w !! p) → (p < next_entry w)%positive;
}.

(** The blocks of the table, those of entries no pointer leads to any more included. *)
Definition sig_blocks (w : signals) : Z := owned (signal_handlers w) + Z.of_nat (size (sig_entries w)) + passed w.

Definition accounted (w w' : signals) (s s' : mem) : Prop := m_live s' - m_live s = sig_blocks w' - sig_blocks w.

Lemma locked_again w : signal_mutex w = true → lock_signals w = Hang.
Proof. unfold lock_signals. by intros ->. Qed.

Lemma lock_ok w : signal_mutex w = false → lock_signals w = Ret (with_mutex w true).
Proof. unfold lock_signals. by intros ->. Qed.

Lemma unlock_lock w : signal_mutex w = false → unlock_signals (with_mutex w true) = w.
Proof. destruct w. simpl. by intros ->. Qed.

Lemma table_none base T es ps n :
  table_of base T es ps → T !! n = None → ∀ p, p ∈ ps → ∃ e, es !! p = Some e ∧ signum e ≠ n.
Proof.
  intros HT Hn p Hp. destruct (to_entry _ _ _ _ HT p Hp) as (e & h & He & _ & Hh & _). exists e. split; [done|].
  intros <-. congruence.
Qed.

Lemma table_some base T es ps n h :
  table_of base T es ps → T !! n = Some h → ∃ l1 p l2 e, ps = l1 ++ p :: l2 ∧ es !! p = Some e ∧ signum e = n ∧ handler e = Some h
    ∧ old_action e = base n ∧ settable n = true ∧ ∀ q, q ∈ l1 ++ l2 → q ≠ p ∧ ∃ f, es !! q = Some f ∧ signum f ≠ n.
Proof.
  intros HT Hn. destruct (to_find _ _ _ _ HT n h Hn) as (p & e & Hp & He & Hs).
  destruct (to_entry _ _ _ _ HT p Hp) as (e' & h' & He' & Hh & HTs & Hold & Hset). rewrite He in He'. injection He' as <-.
  pose proof (to_nodup _ _ _ _ HT) as Hnd. apply list_elem_of_split in Hp as (l1 & l2 & ->). exists l1, p, l2, e.
  rewrite Hs in *. split_and!; [done|done|done|congruence|done|done|]. intros q Hq.
  assert (q ∈ l1 ++ p :: l2) as Hq'. { apply elem_of_app in Hq as [?|?]; apply elem_of_app; [by left|right; by apply list_elem_of_further]. }
  assert (q ≠ p) as Hqp.
  { intros ->. apply list.NoDup_app in Hnd as (_ & Hd & Hnd). apply list.NoDup_cons in Hnd as [Hn2 _].
    apply elem_of_app in Hq as [Hq|Hq]; [|done]. apply (Hd _ Hq), list_elem_of_here. }
  split; [done|]. destruct (to_entry _ _ _ _ HT q Hq') as (f & _ & Hf & _). exists f. split; [done|]. intros Hfn. apply Hqp.
  apply (to_unique _ _ _ _ HT q p f e); [done| |done|done|congruence]. apply elem_of_app. right. apply list_elem_of_here.
Qed.

(** How the operations change it. *)
Lemma table_update base T es ps n h0 h p e :
  table_of base T es ps → T !! n = Some h0 → p ∈ ps → es !! p = Some e → signum e = n →
  table_of base (<[n := h]> T) (<[p := mk_sig_entry n (Some h) (old_action e)]> es) ps.
Proof.
  intros HT Hn Hp He Hs. set (e' := mk_sig_entry n (Some h) (old_action e)).
  assert (∀ q f, q ∈ ps → <[p := e']> es !! q = Some f → ∃ f0, es !! q = Some f0 ∧ signum f0 = signum f) as Hback.
  { intros q f Hq Hf. apply lookup_insert_Some in Hf as [[<- <-]|[Hqp Hf]]; [exists e|exists f]; by split. }
  split.
  - intros q Hq. destruct (decide (q = p)) as [->|Hqp].
    + destruct (to_entry _ _ _ _ HT p Hp) as (f & k & Hf & _ & _ & Hold & Hset). rewrite He in Hf. injection Hf as <-.
      exists e', h. rewrite !lookup_insert_eq. simpl. rewrite Hs in *. by split_and!.
    + destruct (to_entry _ _ _ _ HT q Hq) as (f & k & Hf & Hk & HTf & Hold & Hset). exists f, k. rewrite lookup_insert_ne by done.
      split_and!; try done. rewrite lookup_insert_ne; [done|]. intros E. apply Hqp.
      apply (to_unique _ _ _ _ HT q p f e); [done..|congruence].
  - intros m k Hm. destruct (decide (m = n)) as [->|Hmn].
    + exists p, e'. rewrite lookup_insert_eq. by split_and!.
    + rewrite lookup_insert_ne in Hm by done. destruct (to_find _ _ _ _ HT m k Hm) as (q & f & Hq & Hf & Hfm).
      exists q, f. rewrite lookup_insert_ne; [done|]. intros ->. congruence.
  - intros q r f g Hq Hr Hf Hg Hfg. destruct (Hback _ _ Hq Hf) as (f0 & Hf0 & E1), (Hback _ _ Hr Hg) as (g0 & Hg0 & E2).
    apply (to_unique _ _ _ _ HT q r f0 g0); [done..|congruence].
  - apply (to_nodup _ _ _ _ HT).
  - rewrite map_size_insert_Some by by eexists. apply (to_size _ _ _ _ HT).
Qed.

Lemma table_weaken base base' T es es' ps :
  table_of base T es ps → (∀ n, is_Some (T !! n) → base' n = base n) → (∀ p e, es !! p = Some e → es' !! p = Some e) →
  table_of base' T es' ps.
Proof.
  intros HT Hb Hes. split.
  - intros p Hp. destruct (to_entry _ _ _ _ HT p Hp) as (e & h & He & Hh & HTe & Hold & Hset). exists e, h.
    split_and!; try done; [by apply Hes|]. rewrite Hb; [done|by exists h].
  - intros n h Hn. destruct (to_find _ _ _ _ HT n h Hn) as (p & e & Hp & He & Hs). exists p, e. split_and!; [done|by apply Hes|done].
  - intros p q e f Hp Hq He Hf. destruct (to_entry _ _ _ _ HT p Hp) as (e0 & _ & He0 & _), (to_entry _ _ _ _ HT q Hq) as (f0 & _ & Hf0 & _).
    rewrite (Hes _ _ He0) in He. rewrite (Hes _ _ Hf0) in Hf. simplify_eq. by apply (to_unique _ _ _ _ HT).
  - apply (to_nodup _ _ _ _ HT).
  - apply (to_size _ _ _ _ HT).
Qed.

Lemma table_add base T es ps n h p :
  table_of base T es ps → T !! n = None → settable n = true → es !! p = None →
  table_of base (<[n := h]> T) (<[p := mk_sig_entry n (Some h) (base n)]> es) (ps ++ [p]).
Proof.
  intros HT Hn Hset Hp. set (e := mk_sig_entry n (Some h) (base n)).
  assert (∀ q, q ∈ ps → q ≠ p) as Hne.
  { intros q Hq ->. destruct (to_entry _ _ _ _ HT p Hq) as (f & _ & Hf & _). congruence. }
  assert (∀ q f, q ∈ ps → <[p := e]> es !! q = Some f → es !! q = Some f ∧ signum f ≠ n) as Hold.
  { intros q f Hq Hf. rewrite lookup_insert_ne in Hf by (symmetry; by apply Hne). split; [done|].
    destruct (table_none _ _ _ _ n HT Hn q Hq) as (g & Hg & Hgn). congruence. }
  split.
  - intros q Hq. apply elem_of_app in Hq as [Hq|Hq%list_elem_of_singleton].
    + destruct (to_entry _ _ _ _ HT q Hq) as (f & k & Hf & Hk & HTf & Hb & Hs). exists f, k.
      rewrite lookup_insert_ne by (symmetry; by apply Hne). split_and!; try done. rewrite lookup_insert_ne; [done|].
      intros E. rewrite E in Hn. congruence.
    + subst q. exists e, h. rewrite !lookup_insert_eq. by split_and!.
  - intros m k Hm. destruct (decide (m = n)) as [->|Hmn].
    + exists p, e. rewrite lookup_insert_eq. split_and!; [|done|done]. apply elem_of_app. right. by apply list_elem_of_singleton.
    + rewrite lookup_insert_ne in Hm by done. destruct (to_find _ _ _ _ HT m k Hm) as (q & f & Hq & Hf & Hfm). exists q, f.
      rewrite lookup_insert_ne by (symmetry; by apply Hne). split_and!; try done. apply elem_of_app. by left.
  - intros q r f g Hq Hr Hf Hg Hfg. apply elem_of_app in Hq as [Hq|Hq%list_elem_of_singleton], Hr as [Hr|Hr%list_elem_of_singleton].
    + apply Hold in Hf as [Hf _]; [|done]. apply Hold in Hg as [Hg _]; [|done]. by apply (to_unique _ _ _ _ HT q r f g).
    + subst r. rewrite lookup_insert_eq in Hg. injection Hg as <-. apply Hold in Hf as [_ Hf]; done.
    + subst q. rewrite lookup_insert_eq in Hf. injection Hf as <-. apply Hold in Hg as [_ Hg]; [|done]. simpl in Hfg. congruence.
    + congruence.
  - apply list.NoDup_app. split_and!; [apply (to_nodup _ _ _ _ HT)| |apply list.NoDup_singleton].
    intros q Hq Hq'%list_elem_of_singleton. by apply (Hne q Hq).
  - rewrite length_app, map_size_insert_None, (to_size _ _ _ _ HT) by done. simpl. lia.
Qed.

Lemma table_remove base T es l1 l2 p e n h :
  table_of base T es (l1 ++ p :: l2) → es !! p = Some e → signum e = n → T !! n = Some h →
  (∀ q, q ∈ l1 ++ l2 → q ≠ p ∧ ∃ f, es !! q = Some f ∧ signum f ≠ n) → table_of base (delete n T) es (l1 ++ l2).
Proof.
  intros HT He Hs Hn Ho.
  assert (∀ q, q ∈ l1 ++ l2 → q ∈ l1 ++ p :: l2) as Hin.
  { intros q Hq. apply elem_of_app in Hq as [?|?]; apply elem_of_app; [by left|right; by apply list_elem_of_further]. }
  split.
  - intros q Hq. destruct (Ho q Hq) as (_ & f & Hf & Hfn), (to_entry _ _ _ _ HT q (Hin q Hq)) as (g & k & Hg & Hk & HTg & Hb).
    rewrite Hf in Hg. injection Hg as <-. exists f, k. by rewrite lookup_delete_ne.
  - intros m k Hm. apply lookup_delete_Some in Hm as [Hmn Hm]. destruct (to_find _ _ _ _ HT m k Hm) as (q & f & Hq & Hf & Hfm).
    exists q, f. split_and!; try done. apply elem_of_app in Hq as [Hq|Hq]; [apply elem_of_app; by left|].
    apply elem_of_cons in Hq as [->|Hq]; [congruence|]. apply elem_of_app. by right.
  - intros q r f g Hq Hr. apply (to_unique _ _ _ _ HT); by apply Hin.
  - eapply sublist_NoDup; [apply (to_nodup _ _ _ _ HT)|]. apply sublist_app; [done|]. by constructor.
  - rewrite map_size_delete, Hn, <- (to_size _ _ _ _ HT). rewrite !length_app. simpl. lia.
Qed.
End table.

(** * The operations *)

Section operations.
Context `{Allocator} `{SignalLaws}.

Lemma deref_entry_eq w p e : sig_entries w !! p = Some e → deref_entry w p = Ret e.
Proof. unfold deref_entry. by intros ->. Qed.

(** Loops over entries of other signals. *)
Definition others (n : Z) (es : gmap positive ak_signal_handler_entry_t) (ps : list positive) : Prop :=
  ∀ q, q ∈ ps → ∃ f, es !! q = Some f ∧ signum f ≠ n.

Lemma others_app n es l1 l2 : others n es (l1 ++ l2) → others n es l1 ∧ others n es l2.
Proof. intros Ho. split; intros q Hq; apply Ho, elem_of_app; [by left|by right]. Qed.

Lemma others_none base T es ps n : table_of base T es ps → T !! n = None → others n es ps.
Proof. intros HT Hn q. by apply (table_none base T). Qed.

Lemma dispatch_others n es ps w s :
  sig_entries w = es → others n es ps → each ps (dispatch_entry n) w s = Ret (inl w, s).
Proof.
  intros Hes Ho. rewrite (each_skip (λ a, sig_entries a = es) _ _ (λ a, a)), iter_id; [done|done|done|].
  intros q a s' Hq <-. destruct (Ho q Hq) as (f & Hf & Hs).
  unfold dispatch_entry, mbind, M_bind, lift. rewrite (deref_entry_eq _ _ _ Hf). by rewrite (proj2 (Z.eqb_neq _ _) Hs).
Qed.

Lemma update_others n h es ps w s :
  sig_entries w = es → others n es ps → each ps (update_entry n h) w s = Ret (inl w, s).
Proof.
  intros Hes Ho. rewrite (each_skip (λ a, sig_entries a = es) _ _ (λ a, a)), iter_id; [done|done|done|].
  intros q a s' Hq <-. destruct (Ho q Hq) as (f & Hf & Hs).
  unfold update_entry, mbind, M_bind, lift. rewrite (deref_entry_eq _ _ _ Hf). by rewrite (proj2 (Z.eqb_neq _ _) Hs).
Qed.

Lemma update_hit n h w p e s :
  sig_entries w !! p = Some e → signum e = n →
  update_entry n h p w s = Ret (inr (with_entry w p (mk_sig_entry n h (old_action e))), s).
Proof. intros He <-. unfold update_entry, mbind, M_bind, lift. by rewrite (deref_entry_eq _ _ _ He), Z.eqb_refl. Qed.

Lemma count_up n w i : Nat.iter n (λ '(w, i), (w, u64 (i + 1))) (w : signals, i) = (w, Nat.iter n (λ i, u64 (i + 1)) i).
Proof. induction n as [|n IH]; [done|]. simpl. by rewrite IH. Qed.

Lemma iter_u64 n i : 0 <= i → i + Z.of_nat n < 2 ^ 64 → Nat.iter n (λ i, u64 (i + 1)) i = i + Z.of_nat n.
Proof. intros Hi. induction n as [|n IH]; simpl; intros Hn; [lia|]. rewrite IH, u64_small by lia. lia. Qed.

Lemma find_others n es ps w s :
  sig_entries w = es → others n es ps → zlen ps < 2 ^ 32 → each ps (restore_found n) (w, 0) s = Ret (inl (w, zlen ps), s).
Proof.
  intros Hes Ho Hlen.
  rewrite (each_skip (λ a, sig_entries a.1 = es) _ _ (λ '(w, i), (w, u64 (i + 1)))), count_up, iter_u64; try done.
  - unfold zlen in Hlen. lia.
  - by intros [a i].
  - intros q [a i] s' Hq <-. destruct (Ho q Hq) as (f & Hf & Hs). simpl in Hf.
    unfold restore_found, mbind, M_bind, lift. rewrite (deref_entry_eq _ _ _ Hf). by rewrite (proj2 (Z.eqb_neq _ _) Hs).
Qed.

Lemma invoke_live st h n : is_Some (lambdas st !! h) → ∃ l, ak_lambda_invoke st (Some h) n = Ret l ∧ lambdas l = lambdas st.
Proof.
  intros [l Hl]. unfold ak_lambda_invoke, deref_lambda. rewrite Hl. simpl. case_match; [by exists st|].
  eexists. by split.
Qed.

Lemma passed_ok base T w l : signals_ok base T w → lambdas l = lambdas (sig_lams w) → signals_ok base T (with_passed w l).
Proof. intros [Hf Ho Hl Ha Hlive Hfr] E. split; simpl; try done. by rewrite E. Qed.

(** A signal calls the handler of the table with its number, if there is one and there
    is memory for it. *)
Lemma dispatch_ok base T n w s :
  signals_ok base T w →
  wp (ak_signal_dispatch n w) (λ w' s', signals_ok base T w' ∧ accounted w w' s s' ∧
    match T !! n with
    | None => w' = w ∧ s' = s
    | Some h => (w' = w ∧ mem_alloc false s s')
        ∨ (mem_alloc true s s' ∧ ∃ l, ak_lambda_invoke (sig_lams w) (Some h) n = Ret l ∧ w' = with_passed w l)
    end) s.
Proof.
  intros Hok. pose proof Hok as [Hfree Hon (ps & Hwf & HT) Hact Hlive Hfresh]. unfold ak_signal_dispatch.
  rewrite lock_ok by done. wsteps. rewrite Hon. simpl. apply wp_bind. apply (wp_list_while _ ps); [done|].
  destruct (T !! n) as [h|] eqn:Hn.
  - destruct (table_some _ _ _ _ n h HT Hn) as (l1 & p & l2 & e & -> & He & Hs & Hh & _ & _ & Ho).
    assert (others n (sig_entries w) (l1 ++ l2)) as [Ho1 Ho2]%others_app by by intros q Hq; apply Ho.
    apply wp_each_app. eapply wp_done; [by apply (dispatch_others n (sig_entries w))|]. cbv beta iota.
    apply wp_each_cons. unfold dispatch_entry at 1. rewrite (deref_entry_eq _ _ e) by done. wsteps.
    rewrite Hs, Z.eqb_refl, Hh. change (true && true) with true. cbv iota.
    destruct (invoke_live (sig_lams w) h n) as (l & Hl & Hlams); [by eapply Hlive|].
    apply wp_bind, wp_alloc_obj. intros [|] s1 Hm; cbv beta iota delta [negb].
    + change (sig_lams (with_mutex w true)) with (sig_lams w). rewrite Hl. wsteps.
      eapply wp_done; [by apply (dispatch_others n (sig_entries w))|]. apply wp_ret.
      assert (unlock_signals (with_passed (with_mutex w true) l) = with_passed w l) as ->.
      { destruct w. simpl in *. by subst. }
      split; [by apply passed_ok|]. split; [|by right; split; [|exists l]].
      unfold accounted, sig_blocks. simpl. destruct Hm as [HL _]. lia.
    + wsteps. eapply wp_done; [by apply (dispatch_others n (sig_entries w))|]. apply wp_ret. rewrite unlock_lock by done.
      split; [done|]. split; [unfold accounted; destruct Hm as [HL _]; lia|]. by left.
  - eapply wp_done; [apply (dispatch_others n (sig_entries w)); [done|by eapply others_none]|]. apply wp_ret. rewrite unlock_lock by done.
    split; [done|]. split; [unfold accounted; lia|done].
Qed.

(** The actions under the table when the handler of [n] stayed without an entry. *)
Definition leftover (base : Z → action) (n : Z) : Z → action := λ m, if bool_decide (m = n) then dispatch_action else base m.

Lemma entry_fresh base T w : signals_ok base T w → sig_entries w !! next_entry w = None.
Proof.
  intros Hok. destruct (sig_entries w !! next_entry w) as [e|] eqn:E; [|done].
  pose proof (so_fresh _ _ _ Hok (next_entry w) (ex_intro _ e E)). lia.
Qed.

(** A registration whose signal has a handler. *)
Lemma update_ok base T n h0 h ps p e w :
  signals_ok base T w → list_wf (signal_handlers w) ps → table_of base T (sig_entries w) ps →
  T !! n = Some h0 → p ∈ ps → sig_entries w !! p = Some e → signum e = n → is_Some (lambdas (sig_lams w) !! h) →
  signals_ok base (<[n := h]> T) (with_entry w p (mk_sig_entry n (Some h) (old_action e))).
Proof.
  intros [Hfree Hon _ Hact Hlive Hfresh] Hwf HT Hn Hp He Hs Hh. split; simpl; try done.
  - exists ps. split; [done|]. by apply (table_update base T _ ps n h0).
  - intros m. rewrite Hact. destruct (decide (m = n)) as [->|Hmn]; [by rewrite lookup_insert_eq, Hn|by rewrite lookup_insert_ne].
  - intros m k Hm. apply lookup_insert_Some in Hm as [[<- <-]|[_ Hm]]; [done|by eapply Hlive].
  - intros q [f Hq]. apply lookup_insert_Some in Hq as [[<- _]|[_ Hq]]; [lia|]. specialize (Hfresh q (ex_intro _ f Hq)). lia.
Qed.

(** A new entry, before it is in the list, whatever its signal. *)
Lemma unlisted_ok base T w p e :
  signals_ok base T w → sig_entries w !! p = None → signals_ok base T (with_entry w p e).
Proof.
  intros [Hfree Hon (ps & Hwf & HT) Hact Hlive Hfresh] Hp. split; simpl; try done.
  - exists ps. split; [done|]. apply (table_weaken base base T _ _ ps HT); [done|].
    intros q f Hq. rewrite lookup_insert_ne; [done|]. intros ->. congruence.
  - intros q [f Hq]. apply lookup_insert_Some in Hq as [[<- _]|[_ Hq]]; [lia|]. specialize (Hfresh q (ex_intro _ f Hq)). lia.
Qed.

(** The system has the handler of [n], the table does not. *)
Lemma installed_ok base T w d n :
  signals_ok base T w → T !! n = None → disposition d n = dispatch_action →
  (∀ m, m ≠ n → disposition d m = disposition (sig_sys w) m) → signals_ok (leftover base n) T (with_sys w d).
Proof.
  intros [Hfree Hon (ps & Hwf & HT) Hact Hlive Hfresh] Hn Hd Hd'. split; simpl; try done.
  - exists ps. split; [done|]. apply (table_weaken base _ T (sig_entries w) _ ps HT); [|done].
    intros m [k Hm]. unfold leftover. rewrite bool_decide_eq_false_2; [done|]. intros ->. congruence.
  - intros m. unfold leftover. case_bool_decide as Hm; [subst m; by rewrite Hn|]. rewrite Hd' by done. apply Hact.
Qed.

(** The new entry enters the list. *)
Lemma listed_ok base T w d n h l :
  signals_ok base T w → T !! n = None → settable n = true → is_Some (lambdas (sig_lams w) !! h) →
  disposition d n = dispatch_action → (∀ m, m ≠ n → disposition d m = disposition (sig_sys w) m) →
  (∀ ps, list_wf (signal_handlers w) ps → list_wf l (ps ++ [next_entry w])) →
  signals_ok base (<[n := h]> T) (with_table (with_sys (with_entry w (next_entry w) (mk_sig_entry n (Some h) (base n))) d) l).
Proof.
  intros Hok Hn Hset Hh Hd Hd' Hl. pose proof (entry_fresh _ _ _ Hok) as Hp. destruct Hok as [Hfree Hon (ps & Hwf & HT) Hact Hlive Hfresh].
  split; simpl; try done.
  - exists (ps ++ [next_entry w]). split; [by apply Hl|]. by apply table_add.
  - intros m. destruct (decide (m = n)) as [->|Hmn]; [by rewrite lookup_insert_eq|]. by rewrite lookup_insert_ne, Hd'.
  - intros m k Hm. apply lookup_insert_Some in Hm as [[<- <-]|[_ Hm]]; [done|by eapply Hlive].
  - intros q [f Hq]. apply lookup_insert_Some in Hq as [[<- _]|[_ Hq]]; [lia|]. specialize (Hfresh q (ex_intro _ f Hq)). lia.
Qed.

(** What [ak_register_signal_handler] does. *)
Definition registered_as (base : Z → action) (T : gmap Z positive) (n : Z) (h : positive) (s : mem) (w' : signals) (s' : mem) : Prop :=
  if settable n then
    (signals_ok base (<[n := h]> T) w' ∧ m_fails s' = m_fails s)
    ∨ (T !! n = None ∧ (m_fails s < m_fails s')%nat ∧ (signals_ok base T w' ∨ signals_ok (leftover base n) T w'))
  else signals_ok base T w' ∧ T !! n = None ∧ (m_fails s <= m_fails s')%nat.

Lemma register_ok base T n h w s :
  signals_ok base T w → is_Some (lambdas (sig_lams w) !! h) → Z.of_nat (size T) < 2 ^ 31 →
  wp (ak_register_signal_handler n (Some h) w) (λ w' s', sig_lams w' = sig_lams w ∧ passed w' = passed w
    ∧ accounted w w' s s' ∧ registered_as base T n h s w' s') s.
Proof.
  intros Hok Hh Hsize. pose proof Hok as [Hfree Hon (ps & Hwf & HT) Hact Hlive Hfresh]. unfold ak_register_signal_handler, registered_as.
  rewrite Hon. cbv beta iota delta [negb]. rewrite lock_ok by done. apply wp_bind, wp_lift. cbv beta iota delta [wpo].
  apply wp_bind. apply (wp_list_while _ ps); [done|].
  destruct (T !! n) as [h0|] eqn:Hn.
  - destruct (table_some _ _ _ _ n h0 HT Hn) as (l1 & p & l2 & e & Eps & He & Hs & _ & _ & Hset & Ho).
    assert (others n (sig_entries w) (l1 ++ l2)) as [Ho1 Ho2]%others_app by by intros q Hq; apply Ho.
    rewrite Hset. subst ps. apply wp_each_app. eapply wp_done; [by apply (update_others n _ (sig_entries w))|]. cbv beta iota.
    apply wp_each_cons. eapply wp_done; [by apply update_hit|]. apply wp_ret.
    set (w' := with_entry w p (mk_sig_entry n (Some h) (old_action e))).
    assert (unlock_signals (with_entry (with_mutex w true) p (mk_sig_entry n (Some h) (old_action e))) = w') as ->.
    { destruct w. simpl in *. by subst. }
    split_and!; [done|done| |left; split; [|done]].
    + unfold accounted, sig_blocks. simpl. rewrite map_size_insert_Some by by eexists. lia.
    + apply (update_ok base T n h0 h (l1 ++ p :: l2) p); try done. apply elem_of_app. right. apply list_elem_of_here.
  - eapply wp_done; [apply (update_others n _ (sig_entries w)); [done|by eapply others_none]|]. cbv beta iota.
    apply wp_bind, wp_alloc_obj. intros [|] s1 [HL1 HF1]; cbv beta iota delta [negb].
    2:{ apply wp_ret. rewrite unlock_lock by done. split_and!; [done|done|unfold accounted; lia|].
        destruct (settable n); [right; split_and!; [done|lia|by left]|split_and!; [done|done|lia]]. }
    pose proof (entry_fresh _ _ _ Hok) as Hp. change (sig_sys (with_mutex w true)) with (sig_sys w).
    pose proof (sigaction_law n dispatch_action (sig_sys w)) as Hlaw.
    destruct (sigaction n dispatch_action (sig_sys w)) as [[rc old] d]. destruct (settable n) eqn:Hset.
    + destruct Hlaw as (-> & -> & Hd & Hd'). rewrite Z.eqb_refl. set (e := mk_sig_entry n (Some h) (disposition (sig_sys w) n)).
      assert (disposition (sig_sys w) n = base n) as Hbase by by rewrite Hact, Hn.
      apply wp_bind. eapply wp_mono; [apply (list_push_ok _ ps); [done|]|].
        { change (count (signal_handlers w) < 2 ^ 31). rewrite (lw_count _ _ Hwf). unfold zlen. by rewrite (to_size _ _ _ _ HT). }
      assert (Z.of_nat (size (<[next_entry w := e]> (sig_entries w))) = Z.of_nat (size (sig_entries w)) + 1) as Hsz.
      { rewrite map_size_insert_None by done. lia. }
      intros [rc l] s2 [(_ & Hl & HB)|(_ & Hl & HB)]; apply wp_ret; simpl in HB, Hl;
        (match goal with |- context [unlock_signals ?x] => assert (unlock_signals x = with_table (with_sys (with_entry w (next_entry w) e) d) l) as -> by (destruct w; simpl in *; by subst) end);
        (split_and!; [done|done|unfold accounted, sig_blocks; simpl; rewrite Hsz; destruct HB; simpl in *; lia|]).
      * left. split; [|destruct HB; lia]. unfold e. rewrite Hbase. apply listed_ok; try done.
        intros ps' Hps'. assert (ps' = ps) as -> by by eapply list_wf_fun. done.
      * right. split_and!; [done|destruct HB; simpl in *; lia|]. right.
        pose proof (installed_ok base T _ d n (unlisted_ok base T w (next_entry w) e Hok Hp) Hn Hd Hd') as [A1 A2 (qs & Hqs & A3) A4 A5 A6].
        split; simpl in *; try done. exists qs. split; [|done]. assert (qs = ps) as -> by by eapply list_wf_fun. done.
    + destruct Hlaw as (-> & Hd). change (-1 =? 0) with false. cbv iota. apply wp_ret.
      set (e := mk_sig_entry n (Some h) old).
      assert (unlock_signals (with_sys (with_entry (with_mutex w true) (next_entry (with_mutex w true)) e) d) = with_sys (with_entry w (next_entry w) e) d) as ->.
      { destruct w. simpl in *. by subst. }
      split_and!; [done|done| | |done|lia].
      * unfold accounted, sig_blocks. simpl. rewrite map_size_insert_None by done. lia.
      * pose proof (unlisted_ok base T w (next_entry w) e Hok Hp) as [A1 A2 A3 A4 A5 A6]. split; simpl in *; try done.
        intros m. by rewrite Hd.
Qed.

Lemma restore_hit n w p e i s :
  sig_entries w !! p = Some e → signum e = n →
  restore_found n p (w, i) s = Ret (inr (with_sys w (sigaction n (old_action e) (sig_sys w)).2, i), s).
Proof.
  intros He <-. unfold restore_found, mbind, M_bind, lift. rewrite (deref_entry_eq _ _ _ He), Z.eqb_refl.
  by destruct (sigaction _ _ _) as [[rc old] d].
Qed.

Lemma sigaction_set n a w :
  settable n = true → disposition (sigaction n a w).2 n = a ∧ ∀ m, m ≠ n → disposition (sigaction n a w).2 m = disposition w m.
Proof.
  intros Hset. pose proof (sigaction_law n a w) as Hlaw. destruct (sigaction n a w) as [[rc old] d]. rewrite Hset in Hlaw.
  destruct Hlaw as (_ & _ & Hd & Hd'). by split.
Qed.

Lemma delete_middle {A} (l1 l2 : list A) x : delete (length l1) (l1 ++ x :: l2) = l1 ++ l2.
Proof. by rewrite delete_middle. Qed.

(** Without its handler a signal has the action it had before. *)
Lemma unregister_ok base T n w s :
  signals_ok base T w → Z.of_nat (size T) < 2 ^ 31 →
  wp (ak_unregister_signal_handler n w) (λ w' s', signals_ok base (delete n T) w' ∧ sig_lams w' = sig_lams w ∧ passed w' = passed w
    ∧ accounted w w' s s' ∧ m_fails s' = m_fails s) s.
Proof.
  intros Hok Hsize. pose proof Hok as [Hfree Hon (ps & Hwf & HT) Hact Hlive Hfresh]. unfold ak_unregister_signal_handler.
  rewrite lock_ok by done. apply wp_bind, wp_lift. cbv beta iota delta [wpo].
  change (signal_handlers_initialized (with_mutex w true)) with (signal_handlers_initialized w). rewrite Hon. cbv beta iota delta [negb].
  apply wp_bind. apply (wp_list_while _ ps); [done|]. pose proof (to_size _ _ _ _ HT) as Hlen.
  destruct (T !! n) as [h|] eqn:Hn.
  - destruct (table_some _ _ _ _ n h HT Hn) as (l1 & p & l2 & e & -> & He & Hs & _ & Hold & Hset & Ho).
    assert (others n (sig_entries w) (l1 ++ l2)) as [Ho1 Ho2]%others_app by by intros q Hq; apply Ho.
    rewrite length_app in Hlen. simpl in Hlen.
    apply wp_each_app. eapply wp_done; [apply (find_others n (sig_entries w)); [done|done|unfold zlen; lia]|]. cbv beta iota.
    apply wp_each_cons. eapply wp_done; [by apply restore_hit|]. cbv beta iota. apply wp_bind.
    rewrite u32_small by (unfold zlen; lia). eapply wp_mono; [apply (list_remove_ok _ (l1 ++ p :: l2)); [done|unfold zlen; lia|]|].
    { change (count (signal_handlers w) < 2 ^ 32). rewrite (lw_count _ _ Hwf). unfold zlen. rewrite length_app. simpl. lia. }
    change (count (signal_handlers (with_sys _ _))) with (count (signal_handlers w)).
    rewrite (lw_count _ _ Hwf). rewrite bool_decide_eq_true_2 by (rewrite zlen_app, zlen_cons; pose proof (zlen_nonneg l2); lia).
    intros [rc l] s1 (_ & Hl & HB & Hown). apply wp_ret. unfold zlen in Hl. rewrite Nat2Z.id, delete_middle in Hl.
    destruct (sigaction_set n (old_action e) (sig_sys w) Hset) as [Hd Hd'].
    change (sig_sys (with_mutex w true)) with (sig_sys w). set (d := (sigaction n (old_action e) (sig_sys w)).2) in *.
    assert (unlock_signals (with_table (with_sys (with_mutex w true) d) l) = with_table (with_sys w d) l) as ->.
    { destruct w. simpl in *. by subst. }
    split_and!; [|done|done|unfold accounted, sig_blocks; simpl; destruct HB; simpl in *; lia|apply HB].
    split; simpl; try done.
    + exists (l1 ++ l2). split; [done|]. by apply (table_remove _ _ _ _ _ p e n h).
    + intros m. destruct (decide (m = n)) as [->|Hmn]; [by rewrite lookup_delete_eq, Hd|]. by rewrite lookup_delete_ne, Hd'.
    + intros m k Hm. apply lookup_delete_Some in Hm as [_ Hm]. by eapply Hlive.
  - eapply wp_done; [apply (find_others n (sig_entries w)); [done|by eapply others_none|unfold zlen; lia]|]. cbv beta iota.
    apply wp_ret. rewrite unlock_lock, delete_id by done. split_and!; try done. unfold accounted. lia.
Qed.

(** * The life of the table *)

(** Outside [ak_signal_handlers_init] and [ak_signal_handlers_deinit]. *)
Record signals_off (w : signals) : Prop := {
  sf_free : signal_mutex w = false;
  sf_off : signal_handlers_initialized w = false;
  sf_list : owned (signal_handlers w) = 0;
  sf_fresh : ∀ p, is_Some (sig_entries w !! p) → (p < next_entry w)%positive;
}.

Lemma init_ok w : signals_off w → signals_ok (disposition (sig_sys w)) ∅ (ak_signal_handlers_init w).
Proof.
  intros [Hf _ _ Hfr]. split; simpl; try done. exists []. split.
  - split; [by left|done|done|by exists []|done].
  - split; [intros p Hp|intros n h Hn|intros p q e f Hp|apply base.NoDup_nil_2|by rewrite map_size_empty].
    + by apply not_elem_of_nil in Hp.
    + by rewrite lookup_empty in Hn.
    + by apply not_elem_of_nil in Hp.
Qed.

Lemma restore_each base es qs w s :
  sig_entries w = es → (∀ q, q ∈ qs → ∃ e, es !! q = Some e ∧ old_action e = base (signum e) ∧ settable (signum e) = true) →
  ∃ d, each qs restore_entry w s = Ret (inl (with_sys w d), s)
    ∧ ∀ m, disposition d m = base m ∨ (disposition d m = disposition (sig_sys w) m ∧ ∀ q e, q ∈ qs → es !! q = Some e → signum e ≠ m).
Proof.
  revert w. induction qs as [|q qs IH]; intros w Hes Hq.
  { exists (sig_sys w). split; [by destruct w|]. intros m. right. split; [done|]. intros q e Hin. by apply not_elem_of_nil in Hin. }
  destruct (Hq q) as (e & He & Hold & Hset); [apply list_elem_of_here|]. destruct (sigaction_set _ (old_action e) (sig_sys w) Hset) as [Hd Hd'].
  set (d1 := (sigaction (signum e) (old_action e) (sig_sys w)).2) in *.
  destruct (IH (with_sys w d1)) as (d & Hd1 & Hall); [done|by intros r Hr; apply Hq, list_elem_of_further|]. exists d. split.
  - simpl. unfold mbind, M_bind. assert (restore_entry q w s = Ret (inl (with_sys w d1), s)) as ->; [|done].
    unfold restore_entry, mbind, M_bind, lift. rewrite (deref_entry_eq _ _ e) by by rewrite Hes. unfold d1.
    by destruct (sigaction _ _ _) as [[rc old] d2].
  - intros m. destruct (Hall m) as [Hm|[Hm Hno]]; [by left|]. simpl in Hm. destruct (decide (signum e = m)) as [<-|Hne].
    + left. by rewrite Hm, Hd.
    + right. rewrite Hm, Hd' by done. split; [done|]. intros r f [->|Hr]%elem_of_cons Hf; [congruence|by apply (Hno r)].
Qed.

(** The end of the table gives every signal its action back. *)
Lemma deinit_ok base T w s :
  signals_ok base T w →
  wp (ak_signal_handlers_deinit w) (λ w' s', signals_off w' ∧ (∀ n, disposition (sig_sys w') n = base n)
    ∧ sig_lams w' = sig_lams w ∧ passed w' = passed w ∧ sig_entries w' = sig_entries w ∧ accounted w w' s s' ∧ m_fails s' = m_fails s) s.
Proof.
  intros [Hfree Hon (ps & Hwf & HT) Hact Hlive Hfresh]. unfold ak_signal_handlers_deinit. rewrite Hon. cbv beta iota delta [negb].
  rewrite lock_ok by done. apply wp_bind, wp_lift. cbv beta iota delta [wpo]. apply wp_bind. apply (wp_list_while _ ps); [done|].
  destruct (restore_each base (sig_entries w) ps (with_mutex w true) s) as (d & Hd & Hall); [done| |].
  { intros q Hq. destruct (to_entry _ _ _ _ HT q Hq) as (e & h & He & _ & _ & Hold & Hset). by exists e. }
  eapply wp_done; [done|]. cbv beta iota. apply wp_bind. eapply wp_mono; [by apply (list_deinit_ok _ ps)|].
  intros l s1 (Hl & Hown & HB). apply wp_ret. simpl in HB.
  split; [by split|]. split; [intros n|split_and!; [done|done|done|unfold accounted, sig_blocks; simpl; destruct HB; lia|apply HB]].
  change (disposition d n = base n). destruct (Hall n) as [Hn|[Hn Hno]]; [done|].
  rewrite Hn. change (disposition (sig_sys w) n = base n). rewrite Hact. destruct (T !! n) as [h|] eqn:ET; [|done].
  destruct (to_find _ _ _ _ HT n h ET) as (p & e & Hp & He & Hs). by destruct (Hno p e Hp He).
Qed.

(** ** Histories *)

Inductive sig_call : Type :=
| Call_register (n : Z) (h : positive)
| Call_unregister (n : Z)
| Call_signal (n : Z).

Definition run_call (c : sig_call) (w : signals) : M signals :=
  match c with
  | Call_register n h => ak_register_signal_handler n (Some h) w
  | Call_unregister n => ak_unregister_signal_handler n w
  | Call_signal n => ak_signal_dispatch n w
  end.

Fixpoint run_calls (cs : list sig_call) (w : signals) : M signals :=
  match cs with
  | [] => mret w
  | c :: cs => w ← run_call c w; run_calls cs w
  end.

(** What the table is meant to be: a finite map. *)
Definition spec_call (c : sig_call) (T : gmap Z positive) : gmap Z positive :=
  match c with
  | Call_register n h => if settable n then <[n := h]> T else T
  | Call_unregister n => delete n T
  | Call_signal _ => T
  end.

Definition invoked (lams : gmap positive ak_lambda_t) (h : positive) (n : Z) : list event :=
  match lams !! h with
  | Some l => if fn l =? 0 then [] else [Invoked (fn l) (captured_ctx l) n]
  | None => []
  end.

Definition spec_events (lams : gmap positive ak_lambda_t) (c : sig_call) (T : gmap Z positive) : list event :=
  match c with
  | Call_signal n => match T !! n with Some h => invoked lams h n | None => [] end
  | _ => []
  end.

Definition spec_calls (cs : list sig_call) (T : gmap Z positive) : gmap Z positive := foldl (λ T c, spec_call c T) T cs.

Fixpoint calls_events (lams : gmap positive ak_lambda_t) (cs : list sig_call) (T : gmap Z positive) : list event :=
  match cs with
  | [] => []
  | c :: cs => spec_events lams c T ++ calls_events lams cs (spec_call c T)
  end.

Definition handlers_live (lams : gmap positive ak_lambda_t) (cs : list sig_call) : Prop :=
  Forall (λ c, match c with Call_register _ h => is_Some (lams !! h) | _ => True end) cs.

Lemma invoked_trace st h n l :
  ak_lambda_invoke st (Some h) n = Ret l → trace l = trace st ++ invoked (lambdas st) h n ∧ lambdas l = lambdas st.
Proof.
  unfold ak_lambda_invoke, deref_lambda, invoked. destruct (lambdas st !! h) as [x|]; [|done]. simpl.
  destruct (fn x =? 0); intros [= <-]; [by rewrite app_nil_r|done].
Qed.

Lemma run_call_ok base T c w s :
  signals_ok base T w → handlers_live (lambdas (sig_lams w)) [c] → Z.of_nat (size T) < 2 ^ 31 →
  wp (run_call c w) (λ w' s', ∃ base' T', signals_ok base' T' w' ∧ (size T' <= S (size T))%nat
    ∧ lambdas (sig_lams w') = lambdas (sig_lams w) ∧ accounted w w' s s' ∧ (m_fails s <= m_fails s')%nat
    ∧ (m_fails s' = m_fails s → base' = base ∧ T' = spec_call c T
         ∧ trace (sig_lams w') = trace (sig_lams w) ++ spec_events (lambdas (sig_lams w)) c T)) s.
Proof.
  intros Hok Hlive Hsize. apply Forall_cons_1 in Hlive as [Hlive _].
  assert (∀ n h, (size (<[n := h]> T) <= S (size T))%nat) as Hins.
  { intros n h. destruct (T !! n) eqn:E; [rewrite map_size_insert_Some; [lia|by eexists]|]. by rewrite map_size_insert_None. }
  destruct c as [n h|n|n]; simpl.
  - eapply wp_mono; [by apply (register_ok base T)|]. intros w' s' (HL & _ & Hacc & Hr). rewrite HL, app_nil_r. unfold registered_as in Hr.
    destruct (settable n).
    + destruct Hr as [[Hok' HF]|(Hn & HF & [Hok'|Hok'])].
      * exists base, (<[n := h]> T). split_and!; [done|apply Hins|done|done|lia|done].
      * exists base, T. split_and!; [done|lia|done|done|lia|lia].
      * exists (leftover base n), T. split_and!; [done|lia|done|done|lia|lia].
    + destruct Hr as (Hok' & _ & HF). exists base, T. split_and!; try done; lia.
  - eapply wp_mono; [by apply (unregister_ok base T)|]. intros w' s' (Hok' & HL & _ & Hacc & HF).
    exists base, (delete n T). rewrite HL, app_nil_r. split_and!; [done| |done|done|lia|done]. pose proof (map_size_delete n T) as E. destruct (T !! n); rewrite E; unfold id; lia.
  - eapply wp_mono; [by apply (dispatch_ok base T)|]. intros w' s' (Hok' & Hacc & Hd). exists base, T.
    split; [done|]. split; [lia|]. destruct (T !! n) as [k|].
    + destruct Hd as [[-> [HL HF]]|([HL HF] & l & Hl & ->)]; simpl in HF.
      * split_and!; try done; lia.
      * apply invoked_trace in Hl as [Htr Hlams]. simpl. rewrite Hlams. split_and!; try done; lia.
    + destruct Hd as [-> ->]. rewrite app_nil_r. split_and!; try done; lia.
Qed.

Lemma run_calls_ok base T cs w s :
  signals_ok base T w → handlers_live (lambdas (sig_lams w)) cs → Z.of_nat (size T) + zlen cs < 2 ^ 31 →
  wp (run_calls cs w) (λ w' s', ∃ base' T', signals_ok base' T' w'
    ∧ lambdas (sig_lams w') = lambdas (sig_lams w) ∧ accounted w w' s s' ∧ (m_fails s <= m_fails s')%nat
    ∧ (m_fails s' = m_fails s → base' = base ∧ T' = spec_calls cs T
         ∧ trace (sig_lams w') = trace (sig_lams w) ++ calls_events (lambdas (sig_lams w)) cs T)) s.
Proof.
  revert base T w s. induction cs as [|c cs IH]; intros base T w s Hok Hlive Hsize.
  { apply wp_ret. exists base, T. rewrite app_nil_r. split_and!; try done. unfold accounted. lia. }
  rewrite zlen_cons in Hsize. pose proof (zlen_nonneg cs). apply Forall_cons_1 in Hlive as [Hc Hcs].
  change (run_calls (c :: cs) w) with (w1 ← run_call c w; run_calls cs w1). apply wp_bind.
  eapply wp_mono; [apply (run_call_ok base T); [done|by constructor|lia]|].
  intros w1 s1 (base1 & T1 & Hok1 & Hs1 & HL1 & Hacc1 & HF1 & Hno1).
  eapply wp_mono; [apply (IH base1 T1); [done|by rewrite HL1|lia]|].
  intros w2 s2 (base2 & T2 & Hok2 & HL2 & Hacc2 & HF2 & Hno2). exists base2, T2.
  split_and!; [done|congruence|unfold accounted in *; lia|lia|]. intros HF.
  destruct Hno1 as (-> & -> & Htr1); [lia|]. destruct Hno2 as (-> & -> & Htr2); [lia|]. split_and!; [done|done|].
  rewrite Htr2, Htr1, HL1. by rewrite <- app_assoc.
Qed.
End operations.

Section properties.
Context `{Allocator} `{SignalLaws}.

(** C28: The table of signal handlers.  Whatever live lambdas are registered and removed
    and whatever signals arrive, in fewer than 2^31 calls after
    [ak_signal_handlers_init], and whichever
    allocations fail, nothing is undefined, no call waits for ever, and
    [ak_signal_handlers_deinit] frees the list; what is left are the blocks of the
    entries that were made and of the arguments of the handlers.  Only when no
    allocation failed up to then is the table the finite map of the registrations:
    each signal invoked the handler registered for it last, with its number, and no
    other, the system calls [ak_signal_dispatch] for exactly the signals in the
    table, and, when none failed to the end, every signal has the action it had
    before.  What goes wrong otherwise is [ak_signal_handlers_failures]. *)
Theorem ak_signal_handlers_spec cs w s :
  signals_off w → handlers_live (lambdas (sig_lams w)) cs → zlen cs < 2 ^ 31 →
  wp (run_calls cs (ak_signal_handlers_init w)) (λ w1 s1,
    (m_fails s1 = m_fails s →
       trace (sig_lams w1) = trace (sig_lams w) ++ calls_events (lambdas (sig_lams w)) cs ∅
       ∧ ∀ n, disposition (sig_sys w1) n
           = match spec_calls cs ∅ !! n with Some _ => dispatch_action | None => disposition (sig_sys w) n end)
    ∧ wp (ak_signal_handlers_deinit w1) (λ w2 s2, signals_off w2
        ∧ (m_fails s2 = m_fails s → ∀ n, disposition (sig_sys w2) n = disposition (sig_sys w) n)
        ∧ m_live s2 - m_live s = (Z.of_nat (size (sig_entries w2)) - Z.of_nat (size (sig_entries w))) + (passed w2 - passed w)) s1) s.
Proof.
  intros Hoff Hlive Hlen. pose proof (init_ok w Hoff) as Hok. eapply wp_mono; [apply (run_calls_ok _ _ cs _ s Hok)|].
  - done.
  - by rewrite map_size_empty.
  - intros w1 s1 (base & T & Hok1 & HL1 & Hacc1 & HF1 & Hno). split.
    + intros HF. destruct Hno as (-> & -> & Htr); [done|]. split; [done|]. intros n. apply (so_action _ _ _ Hok1).
    + eapply wp_mono; [by apply (deinit_ok base T)|]. intros w2 s2 (Hoff2 & Hd & _ & Hp & He & Hacc2 & HF2). split_and!; [done| |].
      * intros HF n. destruct Hno as (-> & _); [lia|]. apply Hd.
      * pose proof (sf_list _ Hoff2) as Ho2. unfold accounted, sig_blocks in *. simpl in *. unfold owned at 2 in Hacc1. simpl in Hacc1. lia.
Qed.
End properties.

(** The end of a wait is [timeout_ms] after now, with less than a second of nanoseconds,
    until the seconds since 1970 do not fit 63 bits. *)
Lemma wait_until_ok tv_sec tv_nsec timeout_ms :
  0 <= tv_sec < 2 ^ 62 → 0 <= tv_nsec < 1000000000 → 0 <= timeout_ms < 2 ^ 32 →
  let '(sec, nsec) := wait_until tv_sec tv_nsec timeout_ms in
  0 <= nsec < 1000000000 ∧ sec * 1000000000 + nsec = tv_sec * 1000000000 + tv_nsec + timeout_ms * 1000000.
Proof.
  intros Hs Hn Ht. unfold wait_until. pose proof (Z.div_mod timeout_ms 1000 ltac:(lia)) as Hdm.
  pose proof (Z.mod_pos_bound timeout_ms 1000 ltac:(lia)). assert (0 <= timeout_ms / 1000 < 2 ^ 32) by (split; [apply Z.div_pos; lia|apply Z.div_lt_upper_bound; lia]).
  rewrite u32_small by lia. rewrite (i64_small (tv_sec + timeout_ms / 1000)), (i64_small (tv_nsec + _)) by lia. destruct (Z.leb_spec 1000000000 (tv_nsec + timeout_ms mod 1000 * 1000000));
    [rewrite i64_small by lia|]; lia.
Qed.

(** * Witnesses *)

(** Actions are numbers; the action of signal 9 cannot be set. *)
Definition toy_sigaction (n a : Z) (w : gmap Z Z) : Z * Z * gmap Z Z :=
  if n =? 9 then (-1, 0, w) else (0, default 0 (w !! n), <[n := a]> w).

#[local] Instance toy_signals : SignalSystem := {|
  action := Z;
  sigsys := gmap Z Z;
  dispatch_action := 1;
  sigaction := toy_sigaction;
|}.

#[local] Instance toy_signal_laws : @SignalLaws toy_signals.
Proof.
  refine (@Build_SignalLaws toy_signals (λ w n, default 0 (w !! n)) (λ n, negb (n =? 9)) _).
  intros n a w. simpl. unfold toy_sigaction. destruct (Z.eqb_spec n 9); simpl; [done|].
  split_and!; [done|done|by rewrite lookup_insert_eq|]. intros m Hm. by rewrite lookup_insert_ne.
Defined.

Definition w_signals : @signals toy_signals :=
  mk_signals (list_init 8) false false ∅ 1 0 (mk_lstore {[ 1%positive := mk_lambda 5 6 0; 2%positive := mk_lambda 7 0 0 ]} 3 []) {[ 2 := 33 ]}.

Definition w_calls : list sig_call :=
  [Call_register 2 1; Call_signal 2; Call_register 15 2; Call_register 2 2; Call_signal 2; Call_register 9 1; Call_unregister 15;
   Call_signal 15].

Section signal_witnesses.

(** The third request fails. *)
Definition third_fails : Allocator := {|
  alloc_ok n _ := negb (n =? 2)%nat;
  alloc_fill _ _ := 0;
|}.

Lemma w_signals_off : signals_off w_signals.
Proof. split; try done. intros p [e He]. simpl in He. by rewrite lookup_empty in He. Qed.

#[local] Existing Instance always_alloc.

Lemma w_calls_live : handlers_live (lambdas (sig_lams w_signals)) w_calls.
Proof. repeat constructor; by eexists. Qed.

Lemma ak_signal_handlers_spec_witness :
  wp (run_calls w_calls (ak_signal_handlers_init w_signals)) (λ w1 s1,
    trace (sig_lams w1) = [Invoked 5 6 2; Invoked 7 0 2]
    ∧ wp (ak_signal_handlers_deinit w1) (λ w2 s2, default 0 (sig_sys w2 !! 2) = 33 ∧ m_live s2 = 5) s1) mem0.
Proof.
  pose proof (ak_signal_handlers_spec w_calls w_signals mem0 w_signals_off w_calls_live eq_refl) as Hw. unfold wp in Hw |- *.
  assert (match run_calls w_calls (ak_signal_handlers_init w_signals) mem0 with
          | Ret (w1, s1) => m_fails s1 = O ∧ match ak_signal_handlers_deinit w1 s1 with
              | Ret (w2, s2) => m_fails s2 = O ∧ m_live s2 = 5
              | _ => False end
          | _ => False end) as Hrun by (vm_compute; by split_and!).
  destruct (run_calls w_calls (ak_signal_handlers_init w_signals) mem0) as [[w1 s1]| |]; [|done..].
  destruct Hw as [Htr Hw]. destruct Hrun as [HF1 Hrun]. destruct (Htr HF1) as [E _]. split; [exact E|].
  destruct (ak_signal_handlers_deinit w1 s1) as [[w2 s2]| |]; [|done..]. destruct Hw as (_ & Hd & _), Hrun as [HF2 HL2].
  split; [exact (Hd HF2 2)|done].
Defined.

(** What goes wrong with signals.  Without memory for its place in the list a signal
    keeps [ak_signal_dispatch] as its action, which nothing takes back: registered again
    it is even what the end of the table gives back.  A signal that arrives at its own
    thread while a call has the mutex never returns. *)
Theorem ak_signal_handlers_failures :
  wp (@ak_register_signal_handler third_fails toy_signals 15 (Some 1%positive) (ak_signal_handlers_init w_signals)) (λ w1 s1,
    wp (@ak_register_signal_handler third_fails toy_signals 15 (Some 1%positive) w1) (λ w2 s2,
      wp (ak_signal_handlers_deinit w2) (λ w3 _,
        default 0 (sig_sys w_signals !! 15) = 0 ∧ default 0 (sig_sys w3 !! 15) = dispatch_action
        ∧ signal_handlers_initialized w3 = false) s2) s1) mem0
  ∧ (∀ (w : @signals toy_signals) n s, signal_mutex w = true → ak_signal_dispatch n w s = Hang).
Proof.
  split; [vm_compute; by split_and!|]. intros w n s Hw. unfold ak_signal_dispatch, mbind, M_bind, lift. by rewrite (locked_again w Hw).
Qed.
End signal_witnesses.
