(* ===== verification/Jit.v ===== *)
(** Compiling C at run time: [kernel/cjit/src/cjit.c].

    The compiler is libtcc.  What it answers to a call, and which messages it has, may
    depend on all the calls that were made before, so the state of the library is the
    list of those calls, and its answers are a function of it.  Units are shared by
    pointer and live in a store; the [TCCState] of a unit goes by the unit's address. *)

From stdpp Require Import gmap.
From S2P Require Import Prelude.
From Stdlib Require String.
Import Stdlib.Strings.String.StringSyntax.
#[local] Delimit Scope string_scope with str.

(** * The compiler *)

(** Strings are their characters; a null value is [None]. *)
Inductive tcc_call : Type :=
| Tcc_new
| Tcc_set_error_func
| Tcc_set_output_type
| Tcc_add_include_path (path : list Z)
| Tcc_add_library_path (path : list Z)
| Tcc_add_library (name : list Z)
| Tcc_define_symbol (name : list Z) (value : option (list Z))
| Tcc_compile_string (source : list Z)
| Tcc_add_file (path : list Z)
| Tcc_add_symbol (name : list Z) (ptr : Z)
| Tcc_relocate
| Tcc_get_symbol (name : list Z)
| Tcc_delete.

(** The answer to the last call of a list, and the messages it gave. *)
Class Tcc := {
  tcc_answer : list (positive * tcc_call) → Z;
  tcc_messages : list (positive * tcc_call) → list Z;
}.

(** * Data *)

Inductive ak_cjit_state_e : Type :=
| AK_CJIT_STATE_INIT
| AK_CJIT_STATE_COMPILED
| AK_CJIT_STATE_RELOCATED
| AK_CJIT_STATE_ERROR.

Inductive ak_cjit_error_e : Type :=
| AK_CJIT_OK
| AK_CJIT_ERROR_ALLOC
| AK_CJIT_ERROR_COMPILE
| AK_CJIT_ERROR_RELOCATE
| AK_CJIT_ERROR_SYMBOL_NOT_FOUND
| AK_CJIT_ERROR_INVALID_STATE
| AK_CJIT_ERROR_NOT_AVAILABLE.

#[export] Instance ak_cjit_state_eq_dec : EqDecision ak_cjit_state_e.
Proof. solve_decision. Defined.

(** Arrays of strings, any of which may be null. *)
Record ak_cjit_config_t := mk_cjit_config {
  include_paths : list (option (list Z));
  library_paths : list (option (list Z));
  libraries : list (option (list Z));
  defines : list (option (list Z));
}.

Record ak_cjit_unit_t := mk_unit {
  tcc : bool;
  unit_state : ak_cjit_state_e;
  error_fn : Z;
  error_ctx : Z;
}.

Definition sizeof_ak_cjit_unit_t : Z := 32.

(** The live units, the calls of the compiler and those of error functions: a function,
    its context and the message. *)
Record jit := mk_jit {
  units : gmap positive ak_cjit_unit_t;
  next_unit : positive;
  tcc_calls : list (positive * tcc_call);
  reports : list (Z * Z * Z);
}.

Section jit.
Context `{Allocator} `{Tcc}.

Definition deref_unit (w : jit) (p : positive) : outcome ak_cjit_unit_t :=
  match units w !! p with
  | Some u => Ret u
  | None => Undef
  end.

Definition set_unit (w : jit) (p : positive) (u : ak_cjit_unit_t) : jit :=
  mk_jit (<[p := u]> (units w)) (Pos.max (Pos.succ p) (next_unit w)) (tcc_calls w) (reports w).

Definition set_state (w : jit) (p : positive) (u : ak_cjit_unit_t) (st : ak_cjit_state_e) : jit :=
  set_unit w p (mk_unit (tcc u) st (error_fn u) (error_ctx u)).

Definition tcc_error_handler (u : ak_cjit_unit_t) (msg : Z) : list (Z * Z * Z) :=
  if negb (error_fn u =? 0) then [(error_fn u, error_ctx u, msg)] else [].

(** A call of the compiler on the state of a unit; the compiler has the handler of the
    unit when it has a state. *)
Definition ask (p : positive) (c : tcc_call) (w : jit) : outcome (Z * jit) :=
  u ← deref_unit w p;
  let calls := tcc_calls w ++ [(p, c)] in
  Ret (tcc_answer calls,
       mk_jit (units w) (next_unit w) calls
         (reports w ++ if tcc u then concat (tcc_error_handler u <$> tcc_messages calls) else [])).

Definition ak_cjit_available : bool := true.

Definition ak_cjit_backend_name : String.string := "tcc"%str.

Definition ak_cjit_config_default : ak_cjit_config_t := mk_cjit_config [] [] [] [].

(** [for (i...) if (paths[i]) call(paths[i])] *)
Fixpoint ask_all (p : positive) (c : list Z → tcc_call) (paths : list (option (list Z))) (w : jit) : outcome jit :=
  match paths with
  | [] => Ret w
  | Some path :: paths => '(_, w) ← ask p (c path) w; ask_all p c paths w
  | None :: paths => ask_all p c paths w
  end.

(** [strchr(s, c)], as an offset. *)
Fixpoint strchr (s : list Z) (c : Z) : option nat :=
  match s with
  | [] => None
  | x :: s => if x =? c then Some O else S <$> strchr s c
  end.

Definition define_one (p : positive) (def : list Z) (w : jit) : M jit :=
  match strchr def 0x3D with
  | Some name_len =>
      name ← alloc_obj (Z.of_nat name_len + 1);
      if negb name then mret w else
      '(_, w) ← lift (ask p (Tcc_define_symbol (take name_len def) (Some (drop (S name_len) def))) w);
      _ ← free_obj;
      mret w
  | None =>
      '(_, w) ← lift (ask p (Tcc_define_symbol def None) w);
      mret w
  end.

Fixpoint define_all (p : positive) (defs : list (option (list Z))) (w : jit) : M jit :=
  match defs with
  | [] => mret w
  | Some def :: defs => w ← define_one p def w; define_all p defs w
  | None :: defs => define_all p defs w
  end.

Definition ak_cjit_unit_new (config : option ak_cjit_config_t) (error_fn error_ctx : Z) (w : jit) : M (option positive * jit) :=
  ok ← alloc_obj sizeof_ak_cjit_unit_t;
  if negb ok then mret (None, w) else
  let p := next_unit w in
  let w := set_unit w p (mk_unit false AK_CJIT_STATE_INIT error_fn error_ctx) in
  '(tcc, w) ← lift (ask p Tcc_new w);
  if tcc =? 0 then
    _ ← free_obj;
    mret (None, mk_jit (delete p (units w)) (next_unit w) (tcc_calls w) (reports w))
  else
  let w := set_unit w p (mk_unit true AK_CJIT_STATE_INIT error_fn error_ctx) in
  '(_, w) ← lift (ask p Tcc_set_error_func w);
  '(_, w) ← lift (ask p Tcc_set_output_type w);
  match config with
  | None => mret (Some p, w)
  | Some config =>
      w ← lift (ask_all p Tcc_add_include_path (include_paths config) w);
      w ← lift (ask_all p Tcc_add_library_path (library_paths config) w);
      w ← lift (ask_all p Tcc_add_library (libraries config) w);
      w ← define_all p (defines config) w;
      mret (Some p, w)
  end.

Definition ak_cjit_unit_free (unit : option positive) (w : jit) : M jit :=
  match unit with
  | None => mret w
  | Some p =>
      u ← lift (deref_unit w p);
      w ← (if tcc u then '(_, w) ← lift (ask p Tcc_delete w); mret w else mret w);
      _ ← free_obj;
      mret (mk_jit (delete p (units w)) (next_unit w) (tcc_calls w) (reports w))
  end.

Definition ak_cjit_unit_state (unit : option positive) (w : jit) : outcome ak_cjit_state_e :=
  match unit with
  | None => Ret AK_CJIT_STATE_ERROR
  | Some p => u ← deref_unit w p; Ret (unit_state u)
  end.

(** The guard of the calls that add to a unit. *)
Definition closed (u : ak_cjit_unit_t) : bool :=
  bool_decide (unit_state u = AK_CJIT_STATE_RELOCATED) || bool_decide (unit_state u = AK_CJIT_STATE_ERROR).

(** [ak_cjit_add_source] and [ak_cjit_add_file]: [c] is the call, null if an argument is. *)
Definition add_code (unit : option positive) (c : option tcc_call) (w : jit) : outcome (ak_cjit_error_e * jit) :=
  match unit, c with
  | Some p, Some c =>
      u ← deref_unit w p;
      if closed u then Ret (AK_CJIT_ERROR_INVALID_STATE, w) else
      '(rc, w) ← ask p c w;
      if rc =? -1 then Ret (AK_CJIT_ERROR_COMPILE, set_state w p u AK_CJIT_STATE_ERROR)
      else Ret (AK_CJIT_OK, set_state w p u AK_CJIT_STATE_COMPILED)
  | _, _ => Ret (AK_CJIT_ERROR_INVALID_STATE, w)
  end.

(** [filename] is not used. *)
Definition ak_cjit_add_source (unit : option positive) (source filename : option (list Z)) (w : jit)
    : outcome (ak_cjit_error_e * jit) := add_code unit (Tcc_compile_string <$> source) w.

Definition ak_cjit_add_file (unit : option positive) (filepath : option (list Z)) (w : jit)
    : outcome (ak_cjit_error_e * jit) := add_code unit (Tcc_add_file <$> filepath) w.

(** The calls that configure a unit, whose answers are ignored. *)
Definition configure (unit : option positive) (c : option tcc_call) (w : jit) : outcome (ak_cjit_error_e * jit) :=
  match unit, c with
  | Some p, Some c =>
      u ← deref_unit w p;
      if closed u then Ret (AK_CJIT_ERROR_INVALID_STATE, w) else
      '(_, w) ← ask p c w;
      Ret (AK_CJIT_OK, w)
  | _, _ => Ret (AK_CJIT_ERROR_INVALID_STATE, w)
  end.

Definition ak_cjit_add_symbol (unit : option positive) (name : option (list Z)) (ptr : Z) (w : jit) : outcome (ak_cjit_error_e * jit) :=
  configure unit (if ptr =? 0 then None else (λ n, Tcc_add_symbol n ptr) <$> name) w.

Definition ak_cjit_relocate (unit : option positive) (w : jit) : outcome (ak_cjit_error_e * jit) :=
  match unit with
  | None => Ret (AK_CJIT_ERROR_INVALID_STATE, w)
  | Some p =>
      u ← deref_unit w p;
      if negb (bool_decide (unit_state u = AK_CJIT_STATE_COMPILED)) then Ret (AK_CJIT_ERROR_INVALID_STATE, w) else
      '(rc, w) ← ask p Tcc_relocate w;
      if rc <? 0 then Ret (AK_CJIT_ERROR_RELOCATE, set_state w p u AK_CJIT_STATE_ERROR)
      else Ret (AK_CJIT_OK, set_state w p u AK_CJIT_STATE_RELOCATED)
  end.

Definition ak_cjit_get_symbol (unit : option positive) (name : option (list Z)) (w : jit) : outcome (Z * jit) :=
  match unit, name with
  | Some p, Some name =>
      u ← deref_unit w p;
      if negb (bool_decide (unit_state u = AK_CJIT_STATE_RELOCATED)) then Ret (0, w) else ask p (Tcc_get_symbol name) w
  | _, _ => Ret (0, w)
  end.

Definition ak_cjit_add_include_path (unit : option positive) (path : option (list Z)) (w : jit) : outcome (ak_cjit_error_e * jit) :=
  configure unit (Tcc_add_include_path <$> path) w.

Definition ak_cjit_add_library_path (unit : option positive) (path : option (list Z)) (w : jit) : outcome (ak_cjit_error_e * jit) :=
  configure unit (Tcc_add_library_path <$> path) w.

Definition ak_cjit_add_library (unit : option positive) (name : option (list Z)) (w : jit) : outcome (ak_cjit_error_e * jit) :=
  configure unit (Tcc_add_library <$> name) w.

Definition ak_cjit_define (unit : option positive) (name value : option (list Z)) (w : jit) : outcome (ak_cjit_error_e * jit) :=
  configure unit ((λ n, Tcc_define_symbol n value) <$> name) w.
End jit.

Definition ak_cjit_error_string (error : ak_cjit_error_e) : String.string :=
  match error with
  | AK_CJIT_OK => "Success"
  | AK_CJIT_ERROR_ALLOC => "Memory allocation failed"
  | AK_CJIT_ERROR_COMPILE => "Compilation failed"
  | AK_CJIT_ERROR_RELOCATE => "Relocation failed"
  | AK_CJIT_ERROR_SYMBOL_NOT_FOUND => "Symbol not found"
  | AK_CJIT_ERROR_INVALID_STATE => "Invalid state for operation"
  | AK_CJIT_ERROR_NOT_AVAILABLE => "CJIT not available"
  end%str.

(** * The protocol of the compiler *)

(** What libtcc allows: a state is made, configured and given code, relocated once
    after code was added, asked for symbols after that, and deleted once.  After an
    error it is only deleted. *)
Inductive phase : Type :=
| P_none
| P_open
| P_code
| P_done
| P_failed
| P_over
| P_broken.

#[export] Instance phase_eq_dec : EqDecision phase.
Proof. solve_decision. Defined.

Definition phase_next (ph : phase) (c : tcc_call) (answer : Z) : phase :=
  match c, ph with
  | Tcc_new, P_none => if answer =? 0 then P_over else P_open
  | (Tcc_set_error_func | Tcc_set_output_type), P_open => P_open
  | (Tcc_add_include_path _ | Tcc_add_library_path _ | Tcc_add_library _ | Tcc_define_symbol _ _ | Tcc_add_symbol _ _), (P_open | P_code) => ph
  | (Tcc_compile_string _ | Tcc_add_file _), (P_open | P_code) => if answer =? -1 then P_failed else P_code
  | Tcc_relocate, P_code => if answer <? 0 then P_failed else P_done
  | Tcc_get_symbol _, P_done => P_done
  | Tcc_delete, (P_open | P_code | P_done | P_failed) => P_over
  | _, _ => P_broken
  end.

Definition phase_state (st : ak_cjit_state_e) : phase :=
  match st with
  | AK_CJIT_STATE_INIT => P_open
  | AK_CJIT_STATE_COMPILED => P_code
  | AK_CJIT_STATE_RELOCATED => P_done
  | AK_CJIT_STATE_ERROR => P_failed
  end.

Section protocol.
Context `{Allocator} `{Tcc}.

(** The phase of the state of [p] after some calls. *)
Fixpoint replay (p : positive) (before calls : list (positive * tcc_call)) (ph : phase) : phase :=
  match calls with
  | [] => ph
  | x :: calls =>
      let before := before ++ [x] in
      replay p before calls (if bool_decide (x.1 = p) then phase_next ph x.2 (tcc_answer before) else ph)
  end.

Definition phase_of (p : positive) (calls : list (positive * tcc_call)) : phase := replay p [] calls P_none.

Lemma replay_snoc p before calls x ph :
  replay p before (calls ++ [x]) ph
  = if bool_decide (x.1 = p) then phase_next (replay p before calls ph) x.2 (tcc_answer (before ++ calls ++ [x]))
    else replay p before calls ph.
Proof.
  revert before ph. induction calls as [|y calls IH]; intros before ph; simpl; [done|]. rewrite IH. by rewrite <- app_assoc.
Qed.

Lemma phase_snoc p calls q c :
  phase_of p (calls ++ [(q, c)]) = if bool_decide (q = p) then phase_next (phase_of p calls) c (tcc_answer (calls ++ [(q, c)])) else phase_of p calls.
Proof. unfold phase_of. by rewrite replay_snoc. Qed.

(** Every unit is in the phase of its state, and what is no unit has no state of the
    compiler: none was made for it, or it was deleted. *)
Record jit_ok (w : jit) : Prop := {
  jo_unit : ∀ p u, units w !! p = Some u → tcc u = true ∧ phase_of p (tcc_calls w) = phase_state (unit_state u) ∧ (p < next_unit w)%positive;
  jo_over : ∀ p, units w !! p = None → (p < next_unit w)%positive → phase_of p (tcc_calls w) = P_over;
  jo_none : ∀ p, (next_unit w <= p)%positive → phase_of p (tcc_calls w) = P_none;
}.

(** [w'] is [w] after the calls [cs] on [p], and perhaps other states of [p]. *)
Record asked (p : positive) (cs : list tcc_call) (w w' : jit) : Prop := {
  as_calls : tcc_calls w' = tcc_calls w ++ ((λ c, (p, c)) <$> cs);
  as_units : units w' = units w;
  as_next : next_unit w' = next_unit w;
}.

Lemma asked_nil p w : asked p [] w w.
Proof. split; simpl; [by rewrite app_nil_r|done|done]. Qed.

Lemma asked_app p cs ds w1 w2 w3 : asked p cs w1 w2 → asked p ds w2 w3 → asked p (cs ++ ds) w1 w3.
Proof.
  intros [C1 U1 N1] [C2 U2 N2]. split; [|congruence|congruence]. rewrite C2, C1, fmap_app. by rewrite <- app_assoc.
Qed.

Lemma ask_ok p c u w :
  units w !! p = Some u → wpo (ask p c w) (λ '(rc, w'), rc = tcc_answer (tcc_calls w ++ [(p, c)]) ∧ asked p [c] w w').
Proof. intros Hu. unfold ask, deref_unit. rewrite Hu. simpl. split; [done|]. by split. Qed.

(** A unit takes another state, or none, when its phase is that of it. *)
Lemma asked_other p cs w w' q : asked p cs w w' → q ≠ p → phase_of q (tcc_calls w') = phase_of q (tcc_calls w).
Proof.
  intros [-> _ _] Hq. induction cs as [|c cs IH] using rev_ind; [by rewrite app_nil_r|].
  rewrite fmap_app, app_assoc. simpl. rewrite phase_snoc. rewrite bool_decide_eq_false_2; done.
Qed.

Lemma jit_step p cs u' w w1 w' :
  jit_ok w → asked p cs w w1 → (p < next_unit w')%positive → (next_unit w <= next_unit w')%positive →
  (∀ q, (next_unit w <= q)%positive → (q < next_unit w')%positive → q = p) →
  tcc_calls w' = tcc_calls w1 → (∀ q, q ≠ p → units w' !! q = units w !! q) → units w' !! p = u' →
  match u' with
  | Some u => tcc u = true ∧ phase_of p (tcc_calls w1) = phase_state (unit_state u)
  | None => phase_of p (tcc_calls w1) = P_over
  end → jit_ok w'.
Proof.
  intros [Hu Ho Hn] Ha Hp Hle Hnew Hc Hother Hp' Hph. split.
  - intros q u Hq. rewrite Hc. destruct (decide (q = p)) as [->|Hqp].
    + rewrite Hq in Hp'. subst u'. destruct Hph as [Ht Hph]. by split_and!.
    + rewrite (asked_other _ _ _ _ q Ha Hqp). rewrite Hother in Hq by done. destruct (Hu q u Hq) as (A1 & A2 & A3).
      split_and!; [done|done|lia].
  - intros q Hq Hlt. rewrite Hc. destruct (decide (q = p)) as [->|Hqp]; [rewrite Hq in Hp'; by subst u'|].
    rewrite (asked_other _ _ _ _ q Ha Hqp). rewrite Hother in Hq by done. apply Ho; [done|].
    destruct (Pos.lt_total q (next_unit w)) as [Hl|[He|Hg]]; [done| |]; (exfalso; apply Hqp, Hnew; lia).
  - intros q Hq. rewrite Hc, (asked_other _ _ _ _ q Ha) by lia. apply Hn. lia.
Qed.
End protocol.

(** * The operations *)

(** What a program calls on a unit, and the call of the compiler it stands for, if its
    arguments are not null. *)
Inductive jit_op : Type :=
| J_source (source filename : option (list Z))
| J_file (filepath : option (list Z))
| J_symbol (name : option (list Z)) (ptr : Z)
| J_include_path (path : option (list Z))
| J_library_path (path : option (list Z))
| J_library (name : option (list Z))
| J_define (name value : option (list Z))
| J_relocate.

Definition op_call (op : jit_op) : option tcc_call :=
  match op with
  | J_source source _ => Tcc_compile_string <$> source
  | J_file path => Tcc_add_file <$> path
  | J_symbol name ptr => if ptr =? 0 then None else (λ n, Tcc_add_symbol n ptr) <$> name
  | J_include_path path => Tcc_add_include_path <$> path
  | J_library_path path => Tcc_add_library_path <$> path
  | J_library name => Tcc_add_library <$> name
  | J_define name value => (λ n, Tcc_define_symbol n value) <$> name
  | J_relocate => Some Tcc_relocate
  end.

(** The answer for a call that led to a phase. *)
Definition op_result (c : tcc_call) (ph : phase) : ak_cjit_error_e :=
  match ph, c with
  | P_broken, _ => AK_CJIT_ERROR_INVALID_STATE
  | P_failed, Tcc_relocate => AK_CJIT_ERROR_RELOCATE
  | P_failed, _ => AK_CJIT_ERROR_COMPILE
  | _, _ => AK_CJIT_OK
  end.

Section operations.
Context `{Allocator} `{Tcc}.

Definition run_op (unit : option positive) (op : jit_op) (w : jit) : outcome (ak_cjit_error_e * jit) :=
  match op with
  | J_source source filename => ak_cjit_add_source unit source filename w
  | J_file path => ak_cjit_add_file unit path w
  | J_symbol name ptr => ak_cjit_add_symbol unit name ptr w
  | J_include_path path => ak_cjit_add_include_path unit path w
  | J_library_path path => ak_cjit_add_library_path unit path w
  | J_library name => ak_cjit_add_library unit name w
  | J_define name value => ak_cjit_define unit name value w
  | J_relocate => ak_cjit_relocate unit w
  end.

(** What a call does to a unit: nothing when libtcc would not allow it. *)
Definition op_effect (p : positive) (c : tcc_call) (w : jit) (rc : ak_cjit_error_e) (w' : jit) : Prop :=
  let ph := phase_next (phase_of p (tcc_calls w)) c (tcc_answer (tcc_calls w ++ [(p, c)])) in
  rc = op_result c ph
  ∧ if bool_decide (ph = P_broken) then w' = w
    else tcc_calls w' = tcc_calls w ++ [(p, c)] ∧ phase_of p (tcc_calls w') = ph ∧ next_unit w' = next_unit w
         ∧ is_Some (units w' !! p) ∧ ∀ q, q ≠ p → units w' !! q = units w !! q.

Lemma op_refused p c u w :
  jit_ok w → units w !! p = Some u → phase_next (phase_state (unit_state u)) c (tcc_answer (tcc_calls w ++ [(p, c)])) = P_broken →
  jit_ok w ∧ op_effect p c w AK_CJIT_ERROR_INVALID_STATE w.
Proof.
  intros Hok Hu Hph. destruct (jo_unit _ Hok p u Hu) as (_ & Hp & _). split; [done|]. unfold op_effect. rewrite Hp, Hph.
  split; [by destruct c|]. by rewrite bool_decide_eq_true_2.
Qed.

(** A call that is made on a unit, which has the state of its phase after it. *)
Lemma op_made p c u u' w w1 w' rc :
  jit_ok w → units w !! p = Some u → asked p [c] w w1 →
  phase_next (phase_state (unit_state u)) c (tcc_answer (tcc_calls w ++ [(p, c)])) = phase_state (unit_state u') →
  rc = op_result c (phase_state (unit_state u')) → tcc u' = true →
  tcc_calls w' = tcc_calls w1 → next_unit w' = next_unit w → units w' = <[p := u']> (units w) →
  jit_ok w' ∧ op_effect p c w rc w'.
Proof.
  intros Hok Hu Ha Hph -> Ht Hc Hn Hus. destruct (jo_unit _ Hok p u Hu) as (_ & Hp & Hlt).
  assert (phase_of p (tcc_calls w1) = phase_state (unit_state u')) as Hph1.
  { rewrite (as_calls _ _ _ _ Ha). simpl. rewrite phase_snoc, bool_decide_eq_true_2 by done. by rewrite Hp. }
  assert (∀ q, q ≠ p → units w' !! q = units w !! q) as Hq by (intros q Hq; by rewrite Hus, lookup_insert_ne).
  assert (units w' !! p = Some u') as Hp' by by rewrite Hus, lookup_insert_eq. split.
  - apply (jit_step p [c] (Some u') w w1); try done; [lia|lia|lia].
  - unfold op_effect. rewrite Hp, Hph. split; [done|]. rewrite bool_decide_eq_false_2 by by destruct (unit_state u').
    rewrite Hc, Hph1. split_and!; [apply (as_calls _ _ _ _ Ha)|done|done|by eexists|done].
Qed.

Lemma add_code_ok p c u w :
  jit_ok w → units w !! p = Some u → (∃ s, c = Tcc_compile_string s ∨ c = Tcc_add_file s) →
  wpo (add_code (Some p) (Some c) w) (λ '(rc, w'), jit_ok w' ∧ op_effect p c w rc w').
Proof.
  intros Hok Hu (src & Hc). destruct (jo_unit _ Hok p u Hu) as (Ht & _ & Hlt). unfold add_code, deref_unit. rewrite Hu. simpl. unfold closed.
  assert (∀ ph a, phase_next ph c a = match ph with P_open | P_code => if a =? -1 then P_failed else P_code | _ => P_broken end) as Hnext
    by by destruct Hc as [-> | ->].
  assert (op_result c P_failed = AK_CJIT_ERROR_COMPILE) as Hfail by by destruct Hc as [-> | ->].
  destruct (unit_state u) eqn:Hst; simpl; try (apply (op_refused p c u w); [done|done|by rewrite Hst, Hnext]).
  all: apply wpo_bind; eapply wpo_mono; [by apply (ask_ok p c u)|]; intros [rc w1] [-> Ha];
    pose proof (as_units _ _ _ _ Ha) as Hus; pose proof (as_next _ _ _ _ Ha) as Hn;
    destruct (Z.eqb_spec (tcc_answer (tcc_calls w ++ [(p, c)])) (-1)) as [E|E]; simpl.
  1,3: apply (op_made p c u (mk_unit (tcc u) AK_CJIT_STATE_ERROR (error_fn u) (error_ctx u)) w w1); try done;
    [by rewrite Hst, Hnext, E|simpl; lia|simpl; by rewrite Hus].
  all: apply (op_made p c u (mk_unit (tcc u) AK_CJIT_STATE_COMPILED (error_fn u) (error_ctx u)) w w1); try done;
    [by rewrite Hst, Hnext, (proj2 (Z.eqb_neq _ _) E)|simpl; lia|simpl; by rewrite Hus].
Qed.

(** The calls that configure a unit. *)
Definition configures (c : tcc_call) : Prop :=
  match c with
  | Tcc_add_include_path _ | Tcc_add_library_path _ | Tcc_add_library _ | Tcc_define_symbol _ _ | Tcc_add_symbol _ _ => True
  | _ => False
  end.

Lemma configure_ok p c u w :
  jit_ok w → units w !! p = Some u → configures c →
  wpo (configure (Some p) (Some c) w) (λ '(rc, w'), jit_ok w' ∧ op_effect p c w rc w').
Proof.
  intros Hok Hu Hc. destruct (jo_unit _ Hok p u Hu) as (Ht & _ & Hlt). unfold configure, deref_unit. rewrite Hu. simpl. unfold closed.
  destruct (unit_state u) eqn:Hst; simpl; try (apply (op_refused p c u w); [done|done|by rewrite Hst; destruct c]).
  all: apply wpo_bind; eapply wpo_mono; [by apply (ask_ok p c u)|]; intros [rc w1] [-> Ha];
    pose proof (as_units _ _ _ _ Ha) as Hus; pose proof (as_next _ _ _ _ Ha) as Hn; simpl;
    apply (op_made p c u u w w1); try done;
    [by rewrite Hst; destruct c|by rewrite Hst; destruct c|by rewrite Hus, insert_id].
Qed.

Lemma relocate_ok p u w :
  jit_ok w → units w !! p = Some u →
  wpo (ak_cjit_relocate (Some p) w) (λ '(rc, w'), jit_ok w' ∧ op_effect p Tcc_relocate w rc w').
Proof.
  intros Hok Hu. destruct (jo_unit _ Hok p u Hu) as (Ht & _ & Hlt). unfold ak_cjit_relocate, deref_unit. rewrite Hu. simpl.
  destruct (unit_state u) eqn:Hst; simpl; try (apply (op_refused p Tcc_relocate u w); [done|done|by rewrite Hst]).
  apply wpo_bind; eapply wpo_mono; [by apply (ask_ok p Tcc_relocate u)|]. intros [rc w1] [-> Ha].
  pose proof (as_units _ _ _ _ Ha) as Hus. pose proof (as_next _ _ _ _ Ha) as Hn.
  destruct (Z.ltb_spec (tcc_answer (tcc_calls w ++ [(p, Tcc_relocate)])) 0) as [E|E]; simpl.
  - apply (op_made p Tcc_relocate u (mk_unit (tcc u) AK_CJIT_STATE_ERROR (error_fn u) (error_ctx u)) w w1); try done;
      [by rewrite Hst; simpl; rewrite (proj2 (Z.ltb_lt _ _) E)|simpl; lia|simpl; by rewrite Hus].
  - apply (op_made p Tcc_relocate u (mk_unit (tcc u) AK_CJIT_STATE_RELOCATED (error_fn u) (error_ctx u)) w w1); try done;
      [by rewrite Hst; simpl; rewrite (proj2 (Z.ltb_ge _ _) E)|simpl; lia|simpl; by rewrite Hus].
Qed.

(** Every call on a unit is made or refused as the protocol says. *)
Lemma run_op_ok p u op w :
  jit_ok w → units w !! p = Some u →
  wpo (run_op (Some p) op w) (λ '(rc, w'), jit_ok w' ∧
    match op_call op with
    | None => rc = AK_CJIT_ERROR_INVALID_STATE ∧ w' = w
    | Some c => op_effect p c w rc w'
    end).
Proof.
  intros Hok Hu.
  destruct op as [[src|] f|[path|]|[name|] ptr|[path|]|[path|]|[name|]|[name|] value|]; simpl; try done;
    try (by apply (configure_ok p _ u)).
  - apply (add_code_ok p _ u); try done. exists src. by left.
  - apply (add_code_ok p _ u); try done. exists path. by right.
  - unfold ak_cjit_add_symbol. destruct (ptr =? 0); [done|by apply (configure_ok p _ u)].
  - unfold ak_cjit_add_symbol. by destruct (ptr =? 0).
  - by apply (relocate_ok p u).
Qed.

(** A symbol is asked for in a relocated unit only. *)
Lemma get_symbol_ok p u name w :
  jit_ok w → units w !! p = Some u →
  wpo (ak_cjit_get_symbol (Some p) (Some name) w) (λ '(r, w'), jit_ok w' ∧ units w' = units w ∧
    if bool_decide (phase_of p (tcc_calls w) = P_done)
    then r = tcc_answer (tcc_calls w ++ [(p, Tcc_get_symbol name)]) ∧ tcc_calls w' = tcc_calls w ++ [(p, Tcc_get_symbol name)]
    else r = 0 ∧ w' = w).
Proof.
  intros Hok Hu. destruct (jo_unit _ Hok p u Hu) as (Ht & Hp & Hlt). unfold ak_cjit_get_symbol, deref_unit. rewrite Hu. simpl. rewrite Hp.
  destruct (unit_state u) eqn:Hst; simpl; try by split_and!.
  eapply wpo_mono; [by apply (ask_ok p _ u)|]. intros [rc w1] [-> Ha]. pose proof (as_units _ _ _ _ Ha) as Hus.
  split_and!; [|done|done|apply (as_calls _ _ _ _ Ha)].
  apply (jit_step p [Tcc_get_symbol name] (Some u) w w1); try done; rewrite ?(as_next _ _ _ _ Ha); try lia; [by rewrite Hus|by rewrite Hus|].
  split; [done|]. rewrite (as_calls _ _ _ _ Ha). simpl. rewrite phase_snoc, bool_decide_eq_true_2 by done. by rewrite Hp, Hst.
Qed.

(** * Making and freeing units *)

(** The calls of a configuration; a define is a name and, after the first [=], a
    value. *)
Definition config_calls (config : ak_cjit_config_t) : list tcc_call :=
  (Tcc_add_include_path <$> omap id (include_paths config)) ++ (Tcc_add_library_path <$> omap id (library_paths config))
  ++ (Tcc_add_library <$> omap id (libraries config))
  ++ ((λ def, match strchr def 0x3D with
              | Some i => Tcc_define_symbol (take i def) (Some (drop (S i) def))
              | None => Tcc_define_symbol def None
              end) <$> omap id (defines config)).

Lemma strchr_some s c i : strchr s c = Some i → s = take i s ++ c :: drop (S i) s ∧ ¬ c ∈ take i s.
Proof.
  revert i. induction s as [|x s IH]; simpl; intros i; [done|]. destruct (Z.eqb_spec x c) as [->|Hx].
  - intros [= <-]. simpl. split; [done|]. by apply not_elem_of_nil.
  - destruct (strchr s c) as [j|]; [|done]. intros [= <-]. destruct (IH j eq_refl) as [E Hn]. simpl. split; [by rewrite <- E|].
    intros [->|Hin]%elem_of_cons; done.
Qed.

Lemma strchr_none s c : strchr s c = None → ¬ c ∈ s.
Proof.
  induction s as [|x s IH]; simpl; [by intros _ ?%not_elem_of_nil|]. destruct (Z.eqb_spec x c) as [->|Hx]; [done|].
  destruct (strchr s c); [done|]. intros _ [->|Hin]%elem_of_cons; [done|by apply IH].
Qed.

Lemma ask_all_ok p c paths u w :
  units w !! p = Some u → wpo (ask_all p c paths w) (λ w', asked p (c <$> omap id paths) w w').
Proof.
  revert w. induction paths as [|[path|] paths IH]; intros w Hu; simpl; [apply asked_nil| |by apply IH].
  apply wpo_bind. eapply wpo_mono; [by apply (ask_ok p (c path) u)|]. intros [rc w1] [_ Ha].
  eapply wpo_mono; [apply IH; by rewrite (as_units _ _ _ _ Ha)|]. intros w2 Ha2. by apply (asked_app p [c path] _ w w1).
Qed.

(** Without memory for its name a definition is left out. *)
Lemma define_all_ok p defs u w s :
  units w !! p = Some u →
  wp (define_all p defs w) (λ w' s', ∃ cs, asked p cs w w' ∧ Forall configures cs ∧ m_live s' = m_live s ∧ (m_fails s <= m_fails s')%nat
    ∧ (m_fails s' = m_fails s → cs = (λ def, match strchr def 0x3D with
              | Some i => Tcc_define_symbol (take i def) (Some (drop (S i) def))
              | None => Tcc_define_symbol def None
              end) <$> omap id defs)) s.
Proof.
  revert w s. induction defs as [|[def|] defs IH]; intros w s Hu; simpl.
  { apply wp_ret. exists []. split_and!; [apply asked_nil|done|done|lia|done]. }
  2:{ by apply IH. }
  apply wp_bind. unfold define_one. destruct (strchr def 0x3D) as [i|] eqn:E.
  - apply wp_bind, wp_alloc_obj. intros [|] s1 [HL1 HF1]; simpl in HL1, HF1; cbv beta iota delta [negb].
    + apply wp_bind, wp_lift. eapply wpo_mono; [by apply (ask_ok p _ u)|]. intros [rc w1] [_ Ha]. apply wp_bind, wp_free_obj.
      intros s2 HL2 HF2. apply wp_ret. eapply wp_mono; [apply IH; by rewrite (as_units _ _ _ _ Ha)|].
      intros w2 s3 (cs & Ha2 & Hc & HL3 & HF3 & Hcs). exists (Tcc_define_symbol (take i def) (Some (drop (S i) def)) :: cs).
      split_and!; [by apply (asked_app p [_] cs w w1)|by constructor|lia|lia|]. intros HF. by rewrite Hcs by lia.
    + apply wp_ret. eapply wp_mono; [by apply IH|]. intros w2 s3 (cs & Ha2 & Hc & HL3 & HF3 & Hcs). exists cs.
      split_and!; [done|done|lia|lia|]. intros HF. lia.
  - apply wp_bind, wp_lift. eapply wpo_mono; [by apply (ask_ok p _ u)|]. intros [rc w1] [_ Ha].
    apply wp_ret. eapply wp_mono; [apply IH; by rewrite (as_units _ _ _ _ Ha)|].
    intros w2 s3 (cs & Ha2 & Hc & HL3 & HF3 & Hcs). exists (Tcc_define_symbol def None :: cs).
    split_and!; [by apply (asked_app p [_] cs w w1)|by constructor|lia|lia|]. intros HF. by rewrite Hcs by lia.
Qed.

Lemma phase_open p cs w w' : asked p cs w w' → Forall configures cs → phase_of p (tcc_calls w) = P_open → phase_of p (tcc_calls w') = P_open.
Proof.
  intros [-> _ _] Hcs Hp. induction cs as [|c cs IH] using rev_ind; [by rewrite app_nil_r|]. apply Forall_app in Hcs as [Hcs Hc].
  rewrite fmap_app, app_assoc. simpl. rewrite phase_snoc, bool_decide_eq_true_2 by done. rewrite IH by done.
  apply Forall_cons_1 in Hc as [Hc _]. by destruct c.
Qed.

Lemma config_configures ps ls ns : Forall configures ((Tcc_add_include_path <$> ps) ++ (Tcc_add_library_path <$> ls) ++ (Tcc_add_library <$> ns)).
Proof. rewrite !Forall_app, !Forall_fmap. split_and!; by apply Forall_true. Qed.

(** A new unit is made with its configuration, or there is none and nothing is left. *)
Definition unit_made (config : option ak_cjit_config_t) (error_fn error_ctx : Z) (w : jit) (s : mem) (r : option positive) (w' : jit) (s' : mem)
    : Prop :=
  match r with
  | Some p => p = next_unit w ∧ units w' = <[p := mk_unit true AK_CJIT_STATE_INIT error_fn error_ctx]> (units w) ∧ units w !! p = None
      ∧ ∃ cs, tcc_calls w' = tcc_calls w ++ ((λ c, (p, c)) <$> [Tcc_new; Tcc_set_error_func; Tcc_set_output_type] ++ cs)
          ∧ (m_fails s' = m_fails s → cs = match config with Some config => config_calls config | None => [] end)
  | None => units w' = units w ∧ ((m_fails s < m_fails s')%nat ∨ tcc_answer (tcc_calls w ++ [(next_unit w, Tcc_new)]) = 0)
  end.

Lemma no_unit w p : jit_ok w → (next_unit w <= p)%positive → units w !! p = None.
Proof.
  intros Hok Hp. destruct (units w !! p) as [u|] eqn:E; [|done]. destruct (jo_unit _ Hok p u E) as (_ & _ & Hlt). lia.
Qed.

Lemma jit_made p cs u w w' :
  jit_ok w → p = next_unit w → next_unit w' = Pos.succ p → tcc_calls w' = tcc_calls w ++ ((λ c, (p, c)) <$> cs) →
  units w' = (match u with Some u => <[p := u]> (units w) | None => units w end) →
  match u with
  | Some u => tcc u = true ∧ phase_of p (tcc_calls w') = phase_state (unit_state u)
  | None => phase_of p (tcc_calls w') = P_over
  end → jit_ok w'.
Proof.
  intros Hok -> Hn Hc Hu Hph.
  apply (jit_step (next_unit w) cs u w (mk_jit (units w) (next_unit w) (tcc_calls w') [])); try done; try lia.
  - intros q Hq. rewrite Hu. destruct u; [by rewrite lookup_insert_ne|done].
  - rewrite Hu. destruct u; [by rewrite lookup_insert_eq|]. by apply no_unit; [|lia].
Qed.

Lemma unit_new_ok config fn ctx w s :
  jit_ok w →
  wp (ak_cjit_unit_new config fn ctx w) (λ '(r, w') s', jit_ok w' ∧ unit_made config fn ctx w s r w' s'
    ∧ m_live s' - m_live s = Z.of_nat (size (units w')) - Z.of_nat (size (units w))) s.
Proof.
  intros Hok. pose proof (no_unit w _ Hok (Pos.le_refl _)) as Hfree. unfold ak_cjit_unit_new.
  apply wp_bind, wp_alloc_obj. intros [|] s1 [HL1 HF1]; simpl in HL1, HF1; cbv beta iota delta [negb].
  2:{ apply wp_ret. split; [done|]. split; [split; [done|left; lia]|lia]. }
  set (p := next_unit w) in *. set (u0 := mk_unit false AK_CJIT_STATE_INIT fn ctx).
  assert (units (set_unit w p u0) !! p = Some u0) as Hu0 by apply lookup_insert_eq.
  apply wp_bind, wp_lift. eapply wpo_mono; [by apply (ask_ok p Tcc_new u0)|]. intros [rc w1] [-> Ha1].
  pose proof (as_units _ _ _ _ Ha1) as Hu1. pose proof (as_next _ _ _ _ Ha1) as Hn1. pose proof (as_calls _ _ _ _ Ha1) as Hc1. simpl in Hu1, Hn1, Hc1.
  change (tcc_calls (set_unit w p u0)) with (tcc_calls w) in *.
  assert (phase_of p (tcc_calls w1) = if tcc_answer (tcc_calls w ++ [(p, Tcc_new)]) =? 0 then P_over else P_open) as Hph1.
  { rewrite Hc1, phase_snoc, bool_decide_eq_true_2 by done. rewrite (jo_none _ Hok p) by (unfold p; lia). done. }
  destruct (Z.eqb_spec (tcc_answer (tcc_calls w ++ [(p, Tcc_new)])) 0) as [E|E].
  - apply wp_bind, wp_free_obj. intros s2 HL2 HF2. apply wp_ret. simpl. rewrite Hu1, delete_insert_eq, delete_id by done. split.
    + apply (jit_made p [Tcc_new] None w); try done; simpl; unfold p in *; lia.
    + split; [split; [done|by right]|lia].
  - set (u1 := mk_unit true AK_CJIT_STATE_INIT fn ctx). set (w2 := set_unit w1 p u1).
    assert (units w2 = <[p := u1]> (units w)) as Hu2 by (simpl; by rewrite Hu1, insert_insert_eq).
    assert (units w2 !! p = Some u1) as Hp2 by (rewrite Hu2; apply lookup_insert_eq).
    apply wp_bind, wp_lift. eapply wpo_mono; [by apply (ask_ok p _ u1)|]. intros [rc3 w3] [_ Ha3].
    apply wp_bind, wp_lift. eapply wpo_mono; [apply (ask_ok p _ u1); by rewrite (as_units _ _ _ _ Ha3)|]. intros [rc4 w4] [_ Ha4].
    pose proof (asked_app _ _ _ _ _ _ Ha3 Ha4) as Ha. simpl in Ha.
    assert (phase_of p (tcc_calls w4) = P_open) as Hph4.
    { rewrite (as_calls _ _ _ _ Ha4), (as_calls _ _ _ _ Ha3). simpl. rewrite !phase_snoc, !bool_decide_eq_true_2 by done. by rewrite Hph1. }
    assert (∀ cs w5 s5, asked p cs w4 w5 → Forall configures cs → m_live s5 = m_live s1 →
      (m_fails s5 = m_fails s1 → cs = match config with Some config => config_calls config | None => [] end) →
      jit_ok w5 ∧ unit_made config fn ctx w s (Some p) w5 s5
      ∧ m_live s5 - m_live s = Z.of_nat (size (units w5)) - Z.of_nat (size (units w))) as Hend.
    { intros cs w5 s5 Ha5 Hcs HL5 Hcfg. pose proof (asked_app _ _ _ _ _ _ Ha Ha5) as Hall.
      assert (tcc_calls w5 = tcc_calls w ++ ((λ c, (p, c)) <$> [Tcc_new; Tcc_set_error_func; Tcc_set_output_type] ++ cs)) as Hc5.
      { rewrite (as_calls _ _ _ _ Hall). simpl. rewrite Hc1. by rewrite <- app_assoc. }
      assert (units w5 = <[p := u1]> (units w)) as Hu5 by by rewrite (as_units _ _ _ _ Hall).
      split_and!.
      - apply (jit_made p ([Tcc_new; Tcc_set_error_func; Tcc_set_output_type] ++ cs) (Some u1) w); try done.
        + rewrite (as_next _ _ _ _ Hall). simpl. rewrite Hn1. unfold p. lia.
        + split; [done|]. by apply (phase_open p cs w4).
      - split; [done|]. split; [done|]. split; [done|]. exists cs. split; [done|]. intros HF. apply Hcfg. lia.
      - rewrite Hu5, map_size_insert_None by done. lia. }
    destruct config as [config|]; [|by apply wp_ret, (Hend []); [apply asked_nil|..]].
    assert (units w4 !! p = Some u1) as Hp4 by by rewrite (as_units _ _ _ _ Ha).
    apply wp_bind, wp_lift. eapply wpo_mono; [by apply (ask_all_ok p Tcc_add_include_path _ u1)|]. intros w5 Ha5.
    apply wp_bind, wp_lift. eapply wpo_mono; [apply (ask_all_ok p Tcc_add_library_path _ u1); by rewrite (as_units _ _ _ _ Ha5)|]. intros w6 Ha6.
    pose proof (asked_app _ _ _ _ _ _ Ha5 Ha6) as Ha46.
    apply wp_bind, wp_lift. eapply wpo_mono; [apply (ask_all_ok p Tcc_add_library _ u1); by rewrite (as_units _ _ _ _ Ha46)|]. intros w7 Ha7.
    pose proof (asked_app _ _ _ _ _ _ Ha46 Ha7) as Ha47.
    apply wp_bind. eapply wp_mono; [apply (define_all_ok p _ u1); by rewrite (as_units _ _ _ _ Ha47)|].
    intros w8 s8 (cs & Ha8 & Hcs & HL8 & HF8 & Hcfg). apply wp_ret. pose proof (asked_app _ _ _ _ _ _ Ha47 Ha8) as Ha48.
    apply (Hend _ _ _ Ha48); [|done|].
    + apply Forall_app. split; [|done]. rewrite <- app_assoc. apply config_configures.
    + intros HF. rewrite (Hcfg HF). unfold config_calls. by rewrite <- !app_assoc.
Qed.

Lemma unit_free_ok p u w s :
  jit_ok w → units w !! p = Some u →
  wp (ak_cjit_unit_free (Some p) w) (λ w' s', jit_ok w' ∧ units w' = delete p (units w) ∧ next_unit w' = next_unit w
    ∧ tcc_calls w' = tcc_calls w ++ [(p, Tcc_delete)] ∧ m_live s' = m_live s - 1 ∧ m_fails s' = m_fails s) s.
Proof.
  intros Hok Hu. destruct (jo_unit _ Hok p u Hu) as (Ht & Hp & Hlt). unfold ak_cjit_unit_free, deref_unit. rewrite Hu.
  apply wp_bind, wp_lift. cbv beta iota delta [wpo]. rewrite Ht. apply wp_bind, wp_bind, wp_lift.
  eapply wpo_mono; [by apply (ask_ok p Tcc_delete u)|]. intros [rc w1] [_ Ha]. apply wp_ret. apply wp_bind, wp_free_obj. intros s1 HL HF. apply wp_ret.
  pose proof (as_units _ _ _ _ Ha) as Hus. pose proof (as_next _ _ _ _ Ha) as Hn. pose proof (as_calls _ _ _ _ Ha) as Hc. simpl in Hc |- *.
  split_and!; [|by rewrite Hus|done|done|done|done].
  apply (jit_step p [Tcc_delete] None w w1); try done; simpl; rewrite ?Hus, ?Hn; try lia.
  - intros q Hq. by rewrite lookup_delete_ne.
  - apply lookup_delete_eq.
  - rewrite Hc, phase_snoc, bool_decide_eq_true_2 by done. rewrite Hp. by destruct (unit_state u).
Qed.
End operations.

(** * Properties *)

Section properties.
Context `{Allocator} `{Tcc}.

(** What a program does with units that it has not freed. *)
Inductive jit_call : jit * mem → jit * mem → Prop :=
| jc_new config fn ctx w s r w' s' : ak_cjit_unit_new config fn ctx w s = Ret (r, w', s') → jit_call (w, s) (w', s')
| jc_op p op w s rc w' : is_Some (units w !! p) → run_op (Some p) op w = Ret (rc, w') → jit_call (w, s) (w', s)
| jc_get_symbol p name w s r w' : is_Some (units w !! p) → ak_cjit_get_symbol (Some p) (Some name) w = Ret (r, w') → jit_call (w, s) (w', s)
| jc_free p w s w' s' : is_Some (units w !! p) → ak_cjit_unit_free (Some p) w s = Ret (w', s') → jit_call (w, s) (w', s').

Definition jit0 : jit := mk_jit ∅ 1 [] [].

Definition jit_inv (s0 : mem) (c : jit * mem) : Prop :=
  jit_ok c.1 ∧ m_live c.2 = m_live s0 + Z.of_nat (size (units c.1)).

Lemma jit0_ok : jit_ok jit0.
Proof. split; simpl; [by intros p u; rewrite lookup_empty|lia|done]. Qed.

Lemma op_size p c w rc w' : is_Some (units w !! p) → op_effect p c w rc w' → size (units w') = size (units w).
Proof.
  intros Hp [_ He]. case_bool_decide; [by subst w'|]. destruct He as (_ & _ & _ & [u Hu] & Hq).
  assert (units w' = <[p := u]> (units w)) as ->; [|by rewrite map_size_insert_Some].
  apply map_eq. intros q. destruct (decide (q = p)) as [->|Hne]; [by rewrite lookup_insert_eq|]. rewrite lookup_insert_ne by done. by apply Hq.
Qed.

Lemma jit_call_inv s0 c c' : jit_inv s0 c → jit_call c c' → jit_inv s0 c'.
Proof.
  intros [Hok HL]. destruct 1 as [config fn ctx w s r w' s' E|p op w s rc w' [u Hu] E|p name w s r w' [u Hu] E|p w s w' s' [u Hu] E]; simpl in Hok, HL.
  - pose proof (unit_new_ok config fn ctx w s Hok) as Hw. unfold wp in Hw. rewrite E in Hw. destruct Hw as (Hok' & _ & HL'). split; simpl; [done|lia].
  - pose proof (run_op_ok p u op w Hok Hu) as Hw. rewrite E in Hw. destruct Hw as [Hok' He]. split; [done|]. simpl.
    destruct (op_call op) as [c|]; [|by destruct He as [_ ->]]. rewrite (op_size p c w rc w'); [done|by eexists|done].
  - pose proof (get_symbol_ok p u name w Hok Hu) as Hw. rewrite E in Hw. destruct Hw as (Hok' & Hus & _). split; [done|]. simpl. by rewrite Hus.
  - pose proof (unit_free_ok p u w s Hok Hu) as Hw. unfold wp in Hw. rewrite E in Hw. destruct Hw as (Hok' & Hus & _ & _ & HL' & _).
    split; [done|]. simpl. rewrite Hus, HL', HL. pose proof (map_size_delete_Some p (units w) ltac:(by eexists)) as Hs.
    rewrite Hs. destruct (size (units w)) as [|n] eqn:Esz; [|simpl; lia].
    apply map_size_empty_inv in Esz. by rewrite Esz, lookup_empty in Hu.
Qed.

Lemma jit_runs_ok s0 c : rtc jit_call (jit0, s0) c → jit_inv s0 c.
Proof.
  intros Hrun. remember (jit0, s0) as c0 eqn:E. assert (jit_inv s0 c0) as Hinv by (subst c0; split; [apply jit0_ok|simpl; rewrite map_size_empty; lia]).
  clear E. induction Hrun as [c|c c1 c2 Hs Hr IH]; [done|]. by apply IH, (jit_call_inv s0 c).
Qed.

(** C31: The life of units.  Whatever a program does with units that it has not freed,
    in any order and whatever libtcc answers, the calls libtcc gets on each state keep
    to its protocol; the units there are have a state of the compiler each, every other
    state was deleted once, and the only blocks are the units.  Each call on a unit
    returns: it is made, with its answer turned into a result, or it is refused as an
    invalid state, with nothing changed, exactly when the protocol does not allow it.
    Symbols are asked for in relocated units only. *)
Theorem ak_cjit_runs_spec s0 w s :
  rtc jit_call (jit0, s0) (w, s) →
  (∀ p, phase_of p (tcc_calls w) ≠ P_broken)
  ∧ (∀ p, is_Some (units w !! p) ↔ phase_of p (tcc_calls w) ≠ P_none ∧ phase_of p (tcc_calls w) ≠ P_over)
  ∧ m_live s = m_live s0 + Z.of_nat (size (units w))
  ∧ ∀ p, is_Some (units w !! p) →
      (∀ op, wpo (run_op (Some p) op w) (λ '(rc, w'),
         match op_call op with None => rc = AK_CJIT_ERROR_INVALID_STATE ∧ w' = w | Some c => op_effect p c w rc w' end))
      ∧ (∀ name, wpo (ak_cjit_get_symbol (Some p) (Some name) w) (λ '(r, w'), units w' = units w ∧
           if bool_decide (phase_of p (tcc_calls w) = P_done)
           then r = tcc_answer (tcc_calls w ++ [(p, Tcc_get_symbol name)]) ∧ tcc_calls w' = tcc_calls w ++ [(p, Tcc_get_symbol name)]
           else r = 0 ∧ w' = w))
      ∧ wp (ak_cjit_unit_free (Some p) w) (λ w' s', units w' = delete p (units w) ∧ phase_of p (tcc_calls w') = P_over
           ∧ m_live s' = m_live s - 1) s.
Proof.
  intros [Hok HL]%jit_runs_ok. simpl in *.
  assert (∀ p, match units w !! p with
    | Some u => phase_of p (tcc_calls w) = phase_state (unit_state u)
    | None => phase_of p (tcc_calls w) = P_none ∨ phase_of p (tcc_calls w) = P_over end) as Hph.
  { intros p. destruct (units w !! p) as [u|] eqn:E; [by apply (jo_unit _ Hok p u)|].
    destruct (Pos.lt_total p (next_unit w)) as [Hl|[->|Hg]]; [right; by apply (jo_over _ Hok)|left|left]; apply (jo_none _ Hok); lia. }
  split_and!; [| |done|].
  - intros p. specialize (Hph p). destruct (units w !! p) as [u|]; [rewrite Hph; by destruct (unit_state u)|by destruct Hph as [-> | ->]].
  - intros p. specialize (Hph p). destruct (units w !! p) as [u|].
    + rewrite Hph. split; [by destruct (unit_state u)|by eexists].
    + split; [by intros [? ?]|]. intros [Hn Ho]. by destruct Hph.
  - intros p [u Hu]. split_and!.
    + intros op. eapply wpo_mono; [by apply (run_op_ok p u)|]. by intros [rc w'] [_ He].
    + intros name. eapply wpo_mono; [by apply (get_symbol_ok p u)|]. by intros [r w'] (_ & He).
    + eapply wp_mono; [by apply (unit_free_ok p u)|]. intros w' s' (Hok' & Hus & Hn & _ & HL' & _). split_and!; [done| |done].
      apply (jo_over _ Hok'); [rewrite Hus; apply lookup_delete_eq|]. rewrite Hn. by apply (jo_unit _ Hok p u).
Qed.

(** Making a unit.  [ak_cjit_unit_new] answers a new unit whose state has got its
    configuration in order, the null entries left out and each definition split at its
    first [=]; or null, and then there is no block more than before, because an
    allocation failed or libtcc made no state.  Only a definition for whose name there is
    no memory is left out of a unit that is answered. *)
Theorem ak_cjit_unit_new_spec config fn ctx w s :
  jit_ok w →
  wp (ak_cjit_unit_new config fn ctx w) (λ '(r, w') s', jit_ok w' ∧ unit_made config fn ctx w s r w' s'
    ∧ m_live s' - m_live s = Z.of_nat (size (units w')) - Z.of_nat (size (units w))) s
  ∧ ∀ def, match strchr def 0x3D with
      | Some i => def = take i def ++ 0x3D :: drop (S i) def ∧ ¬ 0x3D ∈ take i def
      | None => ¬ 0x3D ∈ def
      end.
Proof.
  intros Hok. split; [by apply unit_new_ok|]. intros def. destruct (strchr def 0x3D) as [i|] eqn:E; [by apply strchr_some|by apply strchr_none].
Qed.
End properties.

(** * Witnesses *)

Section jit_witnesses.
#[local] Existing Instance always_alloc.

(** A compiler that answers 7 to everything but a call to relocate, and says so. *)
#[local] Instance toy_tcc : Tcc := {|
  tcc_answer calls := match list.last calls with Some (_, Tcc_relocate) => 0 | _ => 7 end;
  tcc_messages calls := match list.last calls with Some (_, Tcc_compile_string _) => [99] | _ => [] end;
|}.

Definition w_jit_config : ak_cjit_config_t :=
  mk_cjit_config [Some [0x2F]; None] [] [Some [0x6D]] [Some [0x41; 0x3D; 0x31]; Some [0x42]].

Definition w_jit : jit :=
  match ak_cjit_unit_new (Some w_jit_config) 5 6 jit0 mem0 with
  | Ret (_, w, _) => w
  | _ => jit0
  end.

Lemma ak_cjit_unit_new_spec_witness :
  wp (ak_cjit_unit_new (Some w_jit_config) 5 6 jit0) (λ '(r, w') s', jit_ok w' ∧ r = Some 1%positive
    ∧ tcc_calls w' = (λ c, (1%positive, c)) <$> [Tcc_new; Tcc_set_error_func; Tcc_set_output_type; Tcc_add_include_path [0x2F];
        Tcc_add_library [0x6D]; Tcc_define_symbol [0x41] (Some [0x31]); Tcc_define_symbol [0x42] None]) mem0.
Proof.
  pose proof (proj1 (ak_cjit_unit_new_spec (Some w_jit_config) 5 6 jit0 mem0 jit0_ok)) as Hw. unfold wp in Hw |- *.
  assert (match ak_cjit_unit_new (Some w_jit_config) 5 6 jit0 mem0 with Ret (r, _, s') => r = Some 1%positive ∧ m_fails s' = O | _ => False end)
    as Hrun by (vm_compute; by split).
  destruct (ak_cjit_unit_new (Some w_jit_config) 5 6 jit0 mem0) as [[[r w'] s']| |]; [|done..]. destruct Hw as (Hok & Hmade & _).
  destruct Hrun as [-> HF]. destruct Hmade as (_ & _ & _ & cs & Hcs & Hcfg). split_and!; [done|done|]. by rewrite Hcs, (Hcfg HF).
Defined.

Definition w_source : jit_op := J_source (Some [0x3B]) None.

Lemma w_run : ∃ w, rtc jit_call (jit0, mem0) (w, Mem 2 1 0) ∧ is_Some (units w !! 1%positive)
  ∧ phase_of 1 (tcc_calls w) = P_code ∧ reports w = [(5, 6, 99)].
Proof.
  eexists. split_and!.
  - eapply rtc_l; [eapply (jc_new (Some w_jit_config) 5 6); vm_compute; reflexivity|].
    eapply rtc_l; [eapply (jc_op 1 w_source); [by eexists|vm_compute; reflexivity]|]. apply rtc_refl.
  - by eexists.
  - reflexivity.
  - reflexivity.
Qed.

Lemma ak_cjit_runs_spec_witness :
  ∃ w, phase_of 1 (tcc_calls w) = P_code ∧ wpo (run_op (Some 1%positive) J_relocate w) (λ '(rc, w'), rc = AK_CJIT_OK ∧ phase_of 1 (tcc_calls w') = P_done).
Proof.
  destruct w_run as (w & Hrun & Hp & Hph & _). exists w. split; [done|].
  destruct (ak_cjit_runs_spec mem0 w (Mem 2 1 0) Hrun) as (_ & _ & _ & Hall). destruct (Hall 1%positive Hp) as [Hops _].
  eapply wpo_mono; [exact (Hops J_relocate)|]. intros [rc w'] [Hrc He]. rewrite Hph in Hrc, He. simpl in Hrc, He.
  rewrite list.last_snoc in Hrc, He. simpl in Hrc, He. split; [done|]. by destruct He as (_ & -> & _).
Defined.
End jit_witnesses.
