(* ===== verification/Runtime.v ===== *)
(** The runtime directory and the lock file of a program: [kernel/src/runtime.c], and
    the clean-up of [kernel/src/kernel.c].

    The files are those of the system: what it answers to [mkdir], [fopen], [kill] and
    so on are calls on its state.  This is the code as it is compiled for Linux and
    macOS.  A string is the list of its characters.  What the code prints is not
    modelled, but for which message it leaves the process with. *)

From Stdlib Require String.
From stdpp Require Import relations.
From S2P Require Import Prelude Buffer Maps Interns Filepath.
Import Stdlib.Strings.String.StringSyntax.
#[local] Delimit Scope string_scope with str.

(** * The system *)

(** [os_read]: the bytes of a file, if it can be opened.  [os_create] opens a file for
    writing, which empties it; [os_print] writes to it and closes it.  [os_kill] is
    [kill(pid, 0)] with its [errno]. *)
Class OS := {
  os : Type;
  os_mkdir : list Z → os → Z * os;
  os_errno : os → Z;
  os_read : list Z → os → option (list Z);
  os_create : list Z → os → bool * os;
  os_print : list Z → list Z → os → os;
  os_remove : list Z → os → os;
  os_kill : Z → os → Z * Z;
  os_getpid : os → Z;
}.

Definition ESRCH : Z := 3.
Definition EEXIST : Z := 17.

(** The messages that [exit(1)] follows. *)
Inductive exit_reason : Type :=
| Empty_id
| No_data_dir
| No_memory
| No_runtime_dir
| Cannot_make_dir
| No_lock_path
| Already_running (pid : Z)
| Cannot_lock.

(** * Text *)

(** Lower-case hexadecimal, as [%016llx]. *)
Definition hex_digit (d : Z) : Z := if d <? 10 then 0x30 + d else 0x57 + d.

Definition hex16 (h : Z) : list Z := (λ i, hex_digit (h / 16 ^ (15 - i) mod 16)) <$> seqZ 0 16.

(** Decimal, as [%ld]; 20 digits are enough for 64 bits. *)
Fixpoint digits (fuel : nat) (n : Z) (acc : list Z) : list Z :=
  match fuel with
  | O => acc
  | S fuel => if n <? 10 then 0x30 + n :: acc else digits fuel (n / 10) (0x30 + n mod 10 :: acc)
  end.

Definition decimal (n : Z) : list Z := if n <? 0 then 0x2D :: digits 20 (- n) [] else digits 20 n [].

Definition NEWLINE : Z := 0x0A.

(** [fgets]: at most [n - 1] bytes, up to and with a newline; and what is left. *)
Fixpoint line_of (n : nat) (file : list Z) : list Z :=
  match n, file with
  | S n, c :: file => if c =? NEWLINE then [c] else c :: line_of n file
  | _, _ => []
  end.

Definition fgets (n : Z) (file : list Z) : option (list Z * list Z) :=
  match file with
  | [] => None
  | _ => let line := line_of (Z.to_nat (n - 1)) file in Some (line, drop (length line) file)
  end.

Definition is_space (c : Z) : bool := (c =? 0x20) || ((9 <=? c) && (c <=? 13)).
Definition is_digit (c : Z) : bool := (0x30 <=? c) && (c <=? 0x39).

Fixpoint skip_spaces (s : list Z) : list Z :=
  match s with
  | c :: rest => if is_space c then skip_spaces rest else s
  | [] => []
  end.

Fixpoint value_of (s : list Z) (acc : Z) : Z :=
  match s with
  | c :: s => if is_digit c then value_of s (acc * 10 + (c - 0x30)) else acc
  | [] => acc
  end.

(** [atol], undefined for what a [long] cannot hold. *)
Definition atol (s : list Z) : outcome Z :=
  let s := skip_spaces s in
  let n := match s with
           | c :: rest => if c =? 0x2D then - value_of rest 0 else if c =? 0x2B then value_of rest 0 else value_of s 0
           | [] => 0
           end in
  if (- 2 ^ 63 <=? n) && (n <? 2 ^ 63) then Ret n else Undef.

(** * The runtime directory *)

Section runtime.
Context `{Allocator} `{OS} (p : platform) (g : filepath_state_t) (env : environment).

(** The constants are those of [intern.c]. *)
Definition hash_string (str : list Z) : outcome Z :=
  loop (S (length str)) (λ '(hash, i),
    if i <? zlen str then
      c ← rd str i;
      Ret (inl (u64 (Z.lxor hash c * FNV_PRIME), i + 1))
    else Ret (inr hash)) (FNV_OFFSET_BASIS, 0).

Definition is_process_running (pid : Z) (w : os) : bool :=
  let '(rc, errno) := os_kill pid w in
  if rc =? 0 then true else negb (errno =? ESRCH).

Definition is_slash (c : Z) : bool := (c =? 0x2F) || (c =? 0x5C).

(** The loop of [mkdir_recursive]: [before] is the string up to [p], with its
    separators written as [/]. *)
Fixpoint mkdir_parents (before rest : list Z) (w : os) : os * list Z :=
  match rest with
  | [] => (w, before)
  | c :: rest =>
      if is_slash c then
        let skip := (zlen before =? 2) && (match before with _ :: d :: _ => d =? 0x3A | _ => false end) in
        let w := if (0 <? zlen before) && negb skip then (os_mkdir before w).2 else w in
        mkdir_parents (before ++ [0x2F]) rest w
      else mkdir_parents (before ++ [c]) rest w
  end.

(** [tmp] has 4096 bytes.  A trailing separator is cut off; of [/] alone nothing is
    left, and the loop, which starts at the second byte, sees the terminator. *)
Definition mkdir_recursive (path : list Z) (w : os) : outcome (Z * os) :=
  let tmp := take 4095 path in
  match list.last tmp with
  | None => Undef
  | Some c =>
      let tmp := if is_slash c then take (length tmp - 1) tmp else tmp in
      match tmp with
      | [] => Ret (os_mkdir [] w)
      | c :: rest => let '(w, tmp) := mkdir_parents [c] rest w in Ret (os_mkdir tmp w)
      end
  end.

(** [count], [data], [AK24_ALLOC_ATOMIC(len + 1)], [memcpy] and the terminator. *)
Definition buffer_to_cstr_safe (buf : option ak_buffer_t) : M (option (list Z)) :=
  match buf with
  | None => mret None
  | Some b =>
      let len := b_count b in
      str ← alloc_bytes (u64 (len + 1));
      match str with
      | None => mret None
      | Some str =>
          str ← lift (blit str 0 (b_data b) 0 len);
          str ← lift (wr str len 0);
          str ← lift (c_string str);
          mret (Some str)
      end
  end.

Definition AK24 : list Z := bytes_of "ak24"%str.
Definition RUNTIME : list Z := bytes_of "runtime"%str.
Definition TEST_ID : list Z := bytes_of "ak24-test"%str.

Definition lock_name (hash : Z) : list Z := hex16 hash ++ bytes_of ".ak24"%str.

(** [init_runtime_directory] up to the string [lock_file]: the reason to leave the
    process, or the path, with the buffer it is a copy of. *)
Definition lock_file_path (app_id : list Z) (w : os) : M ((exit_reason + list Z * ak_buffer_t) * os) :=
  data_dir ← ak_filepath_data p g env;
  match data_dir with
  | None => mret (inl No_data_dir, w)
  | Some _ =>
      data_dir_str ← buffer_to_cstr_safe data_dir;
      match data_dir_str with
      | None => _ ← ak_buffer_free data_dir; mret (inl No_memory, w)
      | Some data_dir_str =>
          runtime_dir ← ak_filepath_join p g [Some data_dir_str; Some AK24; Some RUNTIME];
          _ ← free_obj;
          _ ← ak_buffer_free data_dir;
          match runtime_dir with
          | None => mret (inl No_runtime_dir, w)
          | Some _ =>
              dir_path ← buffer_to_cstr_safe runtime_dir;
              match dir_path with
              | None => _ ← ak_buffer_free runtime_dir; mret (inl No_memory, w)
              | Some dir_path =>
                  '(rc, w) ← lift (mkdir_recursive dir_path w);
                  if negb (rc =? 0) && negb (os_errno w =? EEXIST) then
                    _ ← free_obj; _ ← ak_buffer_free runtime_dir; mret (inl Cannot_make_dir, w)
                  else
                  hash ← lift (hash_string app_id);
                  lock_path ← ak_filepath_join p g [Some dir_path; Some (lock_name hash)];
                  _ ← free_obj;
                  _ ← ak_buffer_free runtime_dir;
                  match lock_path with
                  | None => mret (inl No_lock_path, w)
                  | Some b =>
                      lock_file ← buffer_to_cstr_safe lock_path;
                      match lock_file with
                      | None => _ ← ak_buffer_free lock_path; mret (inl No_memory, w)
                      | Some lock_file => mret (inr (lock_file, b), w)
                      end
                  end
              end
          end
      end
  end.

(** The process in a lock file; a line that cannot be read is no process. *)
Definition existing_pid (file : list Z) : outcome Z :=
  match fgets 256 file with
  | None => Ret 0
  | Some (_, file) =>
      match fgets 64 file with
      | None => Ret 0
      | Some (line2, _) => line2 ← c_string (line2 ++ [0]); n ← atol line2; Ret (i32 n)
      end
  end.

(** The process that has the lock. *)
Definition lock_holder (lock_file : list Z) (w : os) : outcome (option Z) :=
  match os_read lock_file w with
  | None => Ret None
  | Some file =>
      pid ← existing_pid file;
      Ret (if (0 <? pid) && is_process_running pid w then Some pid else None)
  end.

Definition lock_text (app_id : list Z) (pid : Z) : list Z := app_id ++ [NEWLINE] ++ decimal pid ++ [NEWLINE].

(** The end of [init_runtime_directory]: the new value of [ak24_kernel_lock_file_path],
    a block of the C library. *)
Definition write_lock (app_id lock_file : list Z) (w : os) : M ((exit_reason + option (list Z)) * os) :=
  let '(ok, w) := os_create lock_file w in
  if negb ok then mret (inl Cannot_lock, w) else
  let w := os_print lock_file (lock_text app_id (os_getpid w)) w in
  ok ← alloc_obj (zlen lock_file + 1);
  mret (inr (if ok : bool then Some lock_file else None), w).

Definition init_runtime_directory (app_id : option (list Z)) (w : os) : M ((exit_reason + option (list Z)) * os) :=
  match app_id with
  | None | Some [] => mret (inl Empty_id, w)
  | Some app_id =>
      '(r, w) ← lock_file_path app_id w;
      match r with
      | inl e => mret (inl e, w)
      | inr (lock_file, lock_path) =>
          holder ← lift (if bool_decide (app_id = TEST_ID) then Ret None else lock_holder lock_file w);
          match holder with
          | Some pid => _ ← free_obj; _ ← ak_buffer_free (Some lock_path); mret (inl (Already_running pid), w)
          | None =>
              '(r, w) ← write_lock app_id lock_file w;
              _ ← free_obj;
              _ ← ak_buffer_free (Some lock_path);
              mret (r, w)
          end
      end
  end.

(** [strncmp(path, prefix, strlen(prefix)) == 0] *)
Fixpoint starts_with (path prefix : list Z) : bool :=
  match prefix, path with
  | [], _ => true
  | c :: prefix, d :: path => (c =? d) && starts_with path prefix
  | _ :: _, [] => false
  end.

(** [cleanup_lock_file] of kernel.c; the path is freed whether or not the file is
    removed. *)
Definition cleanup_lock_file (lock_file_path : option (list Z)) (w : os) : M os :=
  match lock_file_path with
  | None => mret w
  | Some path =>
      data_dir ← ak_filepath_data p g env;
      w ← match data_dir with
          | None => mret w
          | Some _ =>
              data_dir_str ← buffer_to_cstr_safe data_dir;
              _ ← ak_buffer_free data_dir;
              match data_dir_str with
              | None => mret w
              | Some data_dir_str =>
                  expected_runtime_dir ← ak_filepath_join p g [Some data_dir_str; Some AK24; Some RUNTIME];
                  _ ← free_obj;
                  match expected_runtime_dir with
                  | None => mret w
                  | Some _ =>
                      expected_path ← buffer_to_cstr_safe expected_runtime_dir;
                      _ ← ak_buffer_free expected_runtime_dir;
                      match expected_path with
                      | None => mret w
                      | Some expected_path =>
                          let w := if starts_with path expected_path then os_remove path w else w in
                          _ ← free_obj;
                          mret w
                      end
                  end
              end
          end;
      _ ← free_obj;
      mret w
  end.
End runtime.

(** * Text *)

Lemma digit_is c : is_digit c = true → 0x30 <= c <= 0x39.
Proof. unfold is_digit. intros [H1%Z.leb_le H2%Z.leb_le]%andb_prop. lia. Qed.

(** The digits of a number and what they are worth. *)
Lemma digits_value fuel n acc : 0 <= n < 10 ^ Z.of_nat fuel → fuel ≠ O →
  ∃ ds, digits fuel n acc = ds ++ acc ∧ Forall (λ c, is_digit c = true) ds ∧ ds ≠ [] ∧ zlen ds <= Z.of_nat fuel
    ∧ ∀ rest a, value_of (ds ++ rest) a = value_of rest (a * 10 ^ zlen ds + n).
Proof.
  revert n acc. induction fuel as [|fuel IH]; intros n acc Hn Hf; [done|]. simpl.
  assert (∀ d, 0 <= d < 10 → is_digit (0x30 + d) = true) as Hd.
  { intros d Hd. unfold is_digit. apply andb_true_intro. split; apply Z.leb_le; lia. }
  destruct (Z.ltb_spec n 10) as [Hlt|Hge].
  - exists [0x30 + n]. split_and!; [done|constructor; [apply Hd; lia|constructor]|done|change (zlen [_]) with 1; lia|]. intros rest a. cbn [app value_of].
    rewrite Hd by lia. f_equal. change (zlen [0x30 + n]) with 1. lia.
  - destruct fuel as [|fuel]; [simpl in Hn; lia|].
    assert (0 <= n / 10 < 10 ^ Z.of_nat (S fuel)) as Hq.
    { split; [apply Z.div_pos; lia|]. apply Z.div_lt_upper_bound; [lia|]. rewrite (Nat2Z.inj_succ (S fuel)) in Hn.
      rewrite Z.pow_succ_r in Hn by lia. lia. }
    destruct (IH (n / 10) (0x30 + n mod 10 :: acc) Hq) as (ds & Eds & Hds & Hne & Hl & Hval); [done|]. exists (ds ++ [0x30 + n mod 10]).
    pose proof (Z.mod_pos_bound n 10 ltac:(lia)) as Hm. split_and!.
    + by rewrite <- app_assoc.
    + apply Forall_app. split; [done|]. constructor; [by apply Hd|constructor].
    + by destruct ds.
    + rewrite zlen_app. change (zlen [_]) with 1. lia.
    + intros rest a. rewrite <- app_assoc, Hval. cbn [app value_of]. rewrite Hd by done. f_equal.
      rewrite zlen_app. change (zlen [_]) with 1. rewrite Z.pow_add_r by (pose proof (zlen_nonneg ds); lia).
      pose proof (Z.div_mod n 10 ltac:(lia)). nia.
Qed.

Lemma decimal_digits n : 0 <= n < 2 ^ 63 →
  Forall (λ c, is_digit c = true) (decimal n) ∧ decimal n ≠ [] ∧ zlen (decimal n) <= 20
  ∧ ∀ rest, value_of (decimal n ++ rest) 0 = value_of rest n.
Proof.
  intros Hn. unfold decimal. rewrite (proj2 (Z.ltb_ge n 0)) by lia.
  destruct (digits_value 20 n []) as (ds & E & Hds & Hne & Hl & Hv); [lia|done|]. rewrite E, app_nil_r.
  split_and!; [done|done|lia|]. intros rest. by rewrite Hv.
Qed.

(** [atol] reads what was printed, up to what is no digit. *)
Lemma atol_decimal n c rest : 0 <= n < 2 ^ 63 → is_digit c = false → atol (decimal n ++ c :: rest) = Ret n.
Proof.
  intros Hn Hc. destruct (decimal_digits n Hn) as (Hds & Hne & _ & Hv). unfold atol.
  assert (value_of (decimal n ++ c :: rest) 0 = n) as Hval by (rewrite Hv; simpl; by rewrite Hc).
  destruct (decimal n) as [|d ds]; [done|]. apply Forall_cons_1 in Hds as [Hd _]. pose proof (digit_is d Hd) as Hr.
  simpl app in *. cbn [skip_spaces]. unfold is_space.
  rewrite (proj2 (Z.eqb_neq d 0x20)), (proj2 (Z.leb_gt d 13)), andb_false_r by lia. simpl orb. cbv iota.
  rewrite (proj2 (Z.eqb_neq d 0x2D)), (proj2 (Z.eqb_neq d 0x2B)), Hval by lia.
  rewrite (proj2 (Z.leb_le (- 2 ^ 63) n)), (proj2 (Z.ltb_lt n (2 ^ 63))) by lia. done.
Qed.

Lemma line_of_short n line rest :
  Forall (λ c, c ≠ NEWLINE) line → (length line < n)%nat → line_of n (line ++ NEWLINE :: rest) = line ++ [NEWLINE].
Proof.
  intros Hline. revert n. induction Hline as [|c line Hc _ IH]; intros [|n] Hn; simpl in *; try lia; [done|].
  rewrite (proj2 (Z.eqb_neq _ _) Hc). rewrite IH by lia. done.
Qed.

Lemma fgets_short n line rest :
  Forall (λ c, c ≠ NEWLINE) line → zlen line < n - 1 → fgets n (line ++ NEWLINE :: rest) = Some (line ++ [NEWLINE], rest).
Proof.
  intros Hline Hn. unfold fgets. destruct (line ++ NEWLINE :: rest) eqn:E; [by destruct line|]. rewrite <- E.
  rewrite line_of_short by (done || (unfold zlen in Hn; lia)). do 2 f_equal.
  change (NEWLINE :: rest) with ([NEWLINE] ++ rest). rewrite app_assoc. apply drop_app_length.
Qed.

(** The process of a lock file that was written for a name without newlines that fits
    the buffer. *)
Lemma existing_pid_ok id pid :
  Forall (λ c, c ≠ NEWLINE) id → zlen id < 255 → 0 <= pid < 2 ^ 31 → existing_pid (lock_text id pid) = Ret pid.
Proof.
  intros Hid Hl Hp. destruct (decimal_digits pid ltac:(lia)) as (Hds & Hne & Hdl & _). unfold existing_pid, lock_text. simpl app.
  rewrite fgets_short by (done || lia). rewrite fgets_short.
  2:{ revert Hds. apply Forall_impl. intros c Hc%digit_is. unfold NEWLINE. lia. }
  2:{ lia. }
  rewrite <- app_assoc. simpl app.
  assert (c_string (decimal pid ++ [NEWLINE; 0]) = Ret (decimal pid ++ [NEWLINE])) as ->.
  { change ([NEWLINE; 0]) with ([NEWLINE] ++ 0 :: []). rewrite app_assoc. apply c_string_ok. apply Forall_app. split.
    - revert Hds. apply Forall_impl. intros c Hc%digit_is. unfold is_char. lia.
    - repeat constructor; unfold NEWLINE; lia. }
  simpl. rewrite atol_decimal by (done || lia). simpl. by rewrite i32_small by lia.
Qed.

(** Sixteen digits tell 64-bit numbers apart. *)
Lemma hex_digit_inj a b : 0 <= a < 16 → 0 <= b < 16 → hex_digit a = hex_digit b → a = b.
Proof. unfold hex_digit. intros Ha Hb. destruct (Z.ltb_spec a 10), (Z.ltb_spec b 10); lia. Qed.

Lemma hex16_inj a b : 0 <= a < 2 ^ 64 → 0 <= b < 2 ^ 64 → hex16 a = hex16 b → a = b.
Proof.
  intros Ha Hb E.
  assert (∀ k, 0 <= k < 16 → a / 16 ^ k mod 16 = b / 16 ^ k mod 16) as Hk.
  { intros k Hk. assert (hex16 a !! Z.to_nat (15 - k) = hex16 b !! Z.to_nat (15 - k)) as El by by rewrite E.
    unfold hex16 in El. rewrite !list_lookup_fmap, !lookup_seqZ_lt in El by lia. simpl in El. injection El as El.
    replace (15 - (0 + Z.of_nat (Z.to_nat (15 - k)))) with k in El by lia.
    apply hex_digit_inj in El; [done|apply Z.mod_pos_bound; lia|apply Z.mod_pos_bound; lia]. }
  assert (∀ k : nat, (k <= 16)%nat → a mod 16 ^ Z.of_nat k = b mod 16 ^ Z.of_nat k) as Hmod.
  { induction k as [|k IH]; intros Hle; [by rewrite !Z.mod_1_r|]. rewrite Nat2Z.inj_succ, Z.pow_succ_r, Z.mul_comm by lia.
    rewrite !Z.rem_mul_r by lia. rewrite IH, (Hk (Z.of_nat k)) by lia. done. }
  specialize (Hmod 16%nat ltac:(lia)). change (16 ^ Z.of_nat 16) with (2 ^ 64) in Hmod. rewrite !Z.mod_small in Hmod by lia. done.
Qed.

Lemma c_string_nul xs rest : ∃ str, c_string (xs ++ 0 :: rest) = Ret str.
Proof. induction xs as [|x xs [str IH]]; simpl; [by eexists|]. destruct (x =? 0); [by eexists|]. rewrite IH. simpl. by eexists. Qed.

Lemma starts_with_app a b : starts_with (a ++ b) a = true.
Proof. induction a as [|x a IH]; simpl; [by destruct b|]. by rewrite Z.eqb_refl. Qed.

Lemma starts_with_prefix a b : starts_with a b = true → ∃ c, a = b ++ c.
Proof.
  revert a. induction b as [|x b IH]; intros a; [by exists a|]. destruct a as [|y a]; [done|]. simpl.
  intros [->%Z.eqb_eq [c ->]%IH]%andb_prop. by exists c.
Qed.

(** * Paths *)

Lemma wp_both {A} (m : M A) (P Q : A → mem → Prop) s : wp m P s → wp m Q s → wp m (λ a s', P a s' ∧ Q a s') s.
Proof. unfold wp. by destruct (m s) as [[a s']| |]. Qed.

#[local] Arguments buffer_append_str : simpl never.
#[local] Arguments buffer_append_char : simpl never.
#[local] Arguments ak_filepath_join : simpl never.
#[local] Arguments Z.pow : simpl never.

Section paths.
Context `{Allocator} (p : platform).

(** Appending what fits the block needs no allocation. *)
Lemma append_room b str s :
  buffer_wf b → b_count b + zlen str <= b_capacity b → b_count b + zlen str < 2 ^ 61 →
  wp (buffer_append_str (Some b) (Some str)) (λ '(_, r) _, ∃ b', r = Some b' ∧ b_count b' = b_count b + zlen str) s.
Proof.
  intros Hwf Hroom Hlen. pose proof Hwf as [Hblk Hcnt Hcap Hby Horg]. pose proof (zlen_nonneg str). unfold buffer_append_str.
  rewrite u64_small by lia. rewrite (proj2 (Z.ltb_ge _ _)) by lia. wsteps.
  eapply wpo_mono; [apply (full_blit _ (contents b)); [lia|lia|done]|]. intros d _. wsteps. eexists. split; [done|]. simpl. done.
Qed.

(** What appending keeps, if an allocation fails too. *)
Lemma append_keeps b str s :
  buffer_wf b → Forall is_char (contents b) → Forall is_char str → b_count b + zlen str < 2 ^ 60 →
  wp (buffer_append_str (Some b) (Some str)) (λ '(_, r) _, ∃ b', r = Some b' ∧ buffer_wf b' ∧ Forall is_char (contents b')
    ∧ b_count b <= b_count b' <= b_count b + zlen str ∧ (b_count b' = 0 → b' = b ∨ str = [])
    ∧ (b_count b + zlen str <= b_capacity b → b_count b' = b_count b + zlen str)) s.
Proof.
  intros Hwf Hb Hstr Hlen. pose proof (zlen_nonneg str). pose proof Hwf as [_ Hcnt _ _ _].
  destruct (Z.leb_spec (b_count b + zlen str) (b_capacity b)) as [Hroom|Hno].
  - eapply wp_mono; [apply wp_both; [apply (append_str_ok b str); [done|done|lia]|apply (append_room b str); [done|done|lia]]|].
    intros [rc r] s' [(b' & -> & Hwf' & Hcase) (b2 & [= <-] & Hc)]. exists b'.
    assert (Forall is_char (contents b')) as Hch'.
    { destruct Hcase as [(_ & _ & ->)|(_ & _ & ->)]; [by apply Forall_app|done]. }
    split_and!; [done|done|done|lia|lia| |done]. intros Hz. right. destruct str as [|x str]; [done|].
    rewrite zlen_cons in *. pose proof (zlen_nonneg str). lia.
  - eapply wp_mono; [apply (append_str_ok b str); [done|done|lia]|]. intros [rc r] s' (b' & -> & Hwf' & Hcase). exists b'.
    pose proof (length_contents b Hwf). pose proof (length_contents b' Hwf').
    destruct Hcase as [(_ & _ & Hc)|(_ & _ & ->)].
    + assert (Forall is_char (contents b')) as Hch' by (rewrite Hc; by apply Forall_app). rewrite Hc, zlen_app in *.
      split_and!; [done|done|done|lia|lia| |lia]. intros Hz. right. destruct str as [|x str]; [done|].
      rewrite zlen_cons in *. pose proof (zlen_nonneg str). lia.
    + split_and!; [done|done|done|lia|lia| |lia]. intros _. by left.
Qed.

(** A buffer that is built from 256 bytes on. *)
Record kept (n : Z) (b : ak_buffer_t) : Prop := {
  kp_wf : buffer_wf b;
  kp_chars : Forall is_char (contents b);
  kp_count : b_count b <= n;
  kp_room : b_count b = 0 → 256 <= b_capacity b;
}.

Lemma append_kept n b str s :
  kept n b → Forall is_char str → n + zlen str < 2 ^ 60 → str ≠ [] ∨ 0 < b_count b →
  wp (buffer_append_str (Some b) (Some str)) (λ '(_, r) _, ∃ b', r = Some b' ∧ kept (n + zlen str) b' ∧ b_count b <= b_count b'
    ∧ (0 < zlen str <= 256 → 0 < b_count b')) s.
Proof.
  intros [Hwf Hch Hc Hroom] Hstr Hn Hne. pose proof (zlen_nonneg str). pose proof Hwf as [_ Hcnt _ _ _].
  eapply wp_mono; [apply append_keeps; [done|done|done|lia]|]. intros [rc r] s' (b' & -> & Hwf' & Hch' & Hc' & Hz & Hfull).
  exists b'. split_and!; [done| |lia|].
  - split; [done|done|lia|]. intros E. destruct (Hz E) as [-> | ->]; [by apply Hroom|]. destruct Hne; [done|lia].
  - intros Hs. destruct (decide (b_count b = 0)) as [E|E]; [|lia]. specialize (Hroom E). rewrite Hfull by lia. lia.
Qed.

Lemma join_component_kept n b c s :
  kept n b → Forall is_char c → n + 1 + zlen c < 2 ^ 60 →
  wp (join_component p (ready p) (Some b) (Some c)) (λ r _, ∃ b', r = Some b' ∧ kept (n + 1 + zlen c) b' ∧ b_count b <= b_count b'
    ∧ (0 < zlen c <= 256 → 0 < b_count b')) s.
Proof.
  intros Hk Hc Hn. pose proof (zlen_nonneg c). pose proof Hk as [Hwf Hch Hcnt Hroom]. pose proof Hwf as [_ Hcnt' _ _ _].
  assert (∀ m b', kept m b' → m <= n + 1 + zlen c → kept (n + 1 + zlen c) b') as Hmore.
  { intros m b' [W C N R] Hm. split; [done|done|lia|done]. }
  destruct (ready_separator p) as (_ & Hsep & _). destruct c as [|x rest].
  { apply wp_ret. exists b. rewrite zlen_nil in *. split_and!; [done|apply (Hmore n b Hk); lia|lia|lia]. }
  unfold join_component. simpl ak_buffer_count. rewrite zlen_cons in *. pose proof (zlen_nonneg rest).
  destruct (Z.eqb_spec (b_count b) 0) as [Hz|Hnz].
  - wsteps. eapply wp_mono; [apply (append_kept n b); [done|done|rewrite zlen_cons; lia|by left]|]. intros [rc r] s1 (b1 & -> & Hk1 & Hc1 & Hs1).
    wsteps. exists b1. rewrite zlen_cons in *. split_and!; [done|apply (Hmore _ _ Hk1); lia|lia|done].
  - wsteps. destruct (last_byte b Hwf Hnz) as (y & Hrd & _). simpl ak_buffer_data. cbv iota. rewrite Hrd. wsteps.
    assert (∀ str, Forall is_char str → zlen str <= 1 + zlen rest →
      wp (buffer_append_str (Some b) (Some str)) (λ '(_, r) _, ∃ b', r = Some b' ∧ kept (n + 1 + (1 + zlen rest)) b' ∧ b_count b <= b_count b'
        ∧ (0 < 1 + zlen rest <= 256 → 0 < b_count b')) s) as Hput.
    { intros str Hstr Hl. pose proof (zlen_nonneg str). eapply wp_mono; [apply (append_kept n b str); [done|done|lia|right; lia]|].
      intros [rc r] s1 (b1 & -> & Hk1 & Hc1 & _). exists b1. split_and!; [done|apply (Hmore _ _ Hk1); lia|lia|lia]. }
    apply Forall_cons_1 in Hc as [Hx Hrest].
    destruct (is_separator p y), (is_separator p x); cbn [negb andb]; wsteps.
    + eapply wp_mono; [by apply Hput; [done|lia]|]. intros [rc r] s1 Hr. by wsteps.
    + eapply wp_mono; [apply Hput; [by constructor|rewrite zlen_cons; lia]|]. intros [rc r] s1 Hr. by wsteps.
    + eapply wp_mono; [apply Hput; [by constructor|rewrite zlen_cons; lia]|]. intros [rc r] s1 Hr. by wsteps.
    + unfold buffer_append_char. rewrite (proj2 (Z.eqb_neq (separator (ready p)) 0)) by (unfold is_char in Hsep; lia).
      eapply wp_mono; [apply (append_kept n b [separator (ready p)]); [done|by constructor|change (zlen [_]) with 1; lia|by left]|].
      intros [rc r] s1 (b1 & -> & Hk1 & Hc1 & _). wsteps. change (zlen [_]) with 1 in Hk1.
      eapply wp_mono; [apply (append_kept (n + 1) b1 (x :: rest)); [done|by constructor|rewrite zlen_cons; lia|by left]|].
      intros [rc' r] s2 (b2 & -> & Hk2 & Hc2 & Hs2). wsteps. exists b2. rewrite zlen_cons in *.
      split_and!; [done|apply (Hmore _ _ Hk2); lia|lia|done].
Qed.

Definition room (args : list (option (list Z))) : Z := zlen (omap id args) + zlen (concat (omap id args)).

Lemma join_components_kept args : ∀ n b s,
  kept n b → Forall (Forall is_char) (omap id args) → n + room args < 2 ^ 60 →
  wp (join_components p (ready p) (Some b) args) (λ r _, ∃ b', r = Some b' ∧ kept (n + room args) b' ∧ b_count b <= b_count b'
    ∧ (Exists (λ c, 0 < zlen c <= 256) (omap id args) → 0 < b_count b')) s.
Proof.
  unfold room. induction args as [|[c|] args IH]; intros n b s Hk Hch Hn.
  - apply wp_ret. exists b. change (omap id []) with (@nil (list Z)). simpl concat. unfold zlen. simpl length. rewrite !Z.add_0_r. split_and!; [done|done|lia|]. intros Hex. by apply Exists_nil in Hex.
  - change (omap id (Some c :: args)) with (c :: omap id args) in *. simpl concat in *. rewrite zlen_cons, zlen_app in *.
    apply Forall_cons_1 in Hch as [Hc Hch]. pose proof (zlen_nonneg (omap id args)). pose proof (zlen_nonneg (concat (omap id args))).
    simpl join_components. apply wp_bind. eapply wp_mono; [apply (join_component_kept n b c); [done|done|lia]|].
    intros r s1 (b1 & -> & Hk1 & Hc1 & Hs1). eapply wp_mono; [apply (IH (n + 1 + zlen c) b1); [done|done|lia]|].
    intros r s2 (b2 & -> & Hk2 & Hc2 & Hs2). exists b2.
    replace (n + (1 + zlen (omap id args) + (zlen c + zlen (concat (omap id args)))))
      with (n + 1 + zlen c + (zlen (omap id args) + zlen (concat (omap id args)))) by lia.
    split_and!; [done|done|lia|]. intros Hex. apply Exists_cons in Hex as [Hex|Hex]; [specialize (Hs1 Hex); lia|by apply Hs2].
  - by apply IH.
Qed.

(** A path that is made: [want], unless an allocation failed. *)
Definition built (want : option (list Z)) (n : Z) (s : mem) (r : option ak_buffer_t) (s' : mem) : Prop :=
  (m_fails s <= m_fails s')%nat ∧
  match r with
  | None => m_live s' = m_live s ∧ (m_fails s' = m_fails s → want = None)
  | Some b => m_live s' = m_live s + 2 ∧ buffer_wf b ∧ Forall is_char (contents b) ∧ b_count b <= n
      ∧ (m_fails s' = m_fails s → want = Some (contents b))
  end.

Lemma join_ok args s :
  Forall (Forall is_char) (omap id args) → room args < 2 ^ 59 →
  wp (ak_filepath_join p (ready p) args) (λ r s', built (Some (joined p (separator (ready p)) args)) (room args) s r s'
    ∧ ∀ b, r = Some b → Exists (λ c, 0 < zlen c <= 256) (omap id args) → contents b ≠ []) s.
Proof.
  intros Hch Hn. destruct (ready_separator p) as (Hi & Hsep & His). pose proof (zlen_nonneg (omap id args)).
  pose proof (zlen_nonneg (concat (omap id args))). unfold ak_filepath_join. rewrite Hi. cbn [negb]. cbv iota. wsteps.
  apply wp_buffer_new; [lia| |].
  { intros s' [HL HF]. wsteps. split; [|done]. split; [simpl in HF; lia|]. split; [lia|]. simpl in HF. lia. }
  intros d s1 [HL1 HF1] Hd Hdb. wsteps. simpl in HF1. set (b0 := mk_buffer d (Z.max 16 256) 0 0).
  assert (buffer_wf b0) as Hwf0 by (split; simpl; [lia|lia|lia|done|unfold is_size; lia]).
  assert (holding s1 [] 0 b0 s1) as Hb0 by (split; [done|simpl; lia|done|done]).
  assert (kept 0 b0) as Hk0 by (split; [done|by constructor|simpl; lia|simpl; lia]).
  eapply wp_mono; [apply wp_both; [apply (join_components_ok p (ready p) Hsep s1 args [] 0 b0 s1 Hb0 Hch); unfold room in Hn; lia|
    apply (join_components_kept args 0 b0 s1 Hk0 Hch); lia]|].
  intros r s2 [(b & n & -> & [W C F E] & Hm) (b2 & [= <-] & [_ Hkc Hkn _] & _ & Hpos)]. split.
  - split; [lia|]. split_and!; [lia|done|done|lia|]. intros HF. unfold joined. by rewrite E by lia.
  - intros b' [= <-] Hex Hnil. specialize (Hpos Hex). pose proof (length_contents b W) as Hl. rewrite Hnil, zlen_nil in Hl. lia.
Qed.
End paths.

(** * The runtime directory *)

Lemma room_one b : room [None; Some b] = 1 + zlen b.
Proof. unfold room. change (omap id [None; Some b]) with [b]. simpl concat. rewrite app_nil_r. done. Qed.

Lemma room_two a b : room [Some a; Some b] = 2 + zlen a + zlen b.
Proof. unfold room. change (omap id [Some a; Some b]) with [a; b]. simpl concat. rewrite app_nil_r, zlen_app. change (zlen [a; b]) with 2. lia. Qed.

Lemma room_three a b c : room [Some a; Some b; Some c] = 3 + zlen a + zlen b + zlen c.
Proof.
  unfold room. change (omap id [Some a; Some b; Some c]) with [a; b; c]. simpl concat. rewrite app_nil_r, !zlen_app.
  change (zlen [a; b; c]) with 3. lia.
Qed.

Section directories.
Context `{Allocator} `{OS} (p : platform) (env : environment).

(** No variable is longer than a terabyte. *)
Definition short_env : Prop :=
  (∀ name v, getenv env name = Some v → zlen (chars v) < 2 ^ 40) ∧ (∀ v, pw_dir env = Some v → zlen (chars v) < 2 ^ 40).

Definition home_path : option (list Z) :=
  match set_variable env "HOME"%str with
  | Some h => Some h
  | None => chars <$> pw_dir env
  end.

Definition in_home (name : String.string) : option (list Z) :=
  (λ h, joined p (separator (ready p)) [Some h; Some (bytes_of name)]) <$> home_path.

(** Where the data of applications is. *)
Definition data_path : option (list Z) :=
  match p with
  | Linux => match set_variable env "XDG_DATA_HOME"%str with Some v => Some v | None => in_home ".local/share"%str end
  | Apple => in_home "Library/Application Support"%str
  | Windows => None
  end.

Hypothesis Hp : p ≠ Windows.
Hypothesis Henv : short_env.

Lemma variable_ok name v : set_variable env name = Some v → Forall is_char v ∧ zlen v < 2 ^ 40.
Proof.
  unfold set_variable. destruct (getenv env name) as [c|] eqn:E; [|done]. destruct (chars c) as [|x xs] eqn:Ec; [done|]. intros [= <-].
  rewrite <- Ec. split; [apply cstr_chars|by apply (proj1 Henv name)].
Qed.

Lemma built_str str n s :
  Forall is_char str → zlen str < 2 ^ 40 → zlen str <= n → wp (buffer_from_str (Some str)) (built (Some str) n s) s.
Proof.
  intros Hch Hl Hn. eapply wp_mono; [apply (from_str_ok str); [done|lia]|]. intros [b|] s'.
  - intros (Hwf & <- & HL & HF). split; [lia|]. rewrite <- (length_contents b Hwf). by split_and!.
  - intros [HL HF]. split; [lia|]. split; lia.
Qed.

Lemma home_ok s : wp (ak_filepath_home p (ready p) env) (built home_path (2 ^ 40) s) s.
Proof.
  destruct (ready_separator p) as (Hi & _). unfold ak_filepath_home, home_path. rewrite Hi. cbn [negb]. cbv iota.
  assert (wp (match set_variable env "HOME"%str with
              | Some home => buffer_from_str (Some home)
              | None => match pw_dir env with Some dir => buffer_from_str (Some (chars dir)) | None => mret None end
              end) (built home_path (2 ^ 40) s) s) as Hw.
  { unfold home_path. destruct (set_variable env "HOME"%str) as [h|] eqn:E.
    - destruct (variable_ok _ _ E). apply built_str; [done|done|lia].
    - destruct (pw_dir env) as [v|] eqn:Ev; simpl.
      + pose proof (proj2 Henv v Ev). apply built_str; [apply cstr_chars|done|lia].
      + apply wp_ret. split; [done|]. by split. }
  destruct p; [exact Hw|exact Hw|done].
Qed.

Lemma in_home_ok name s :
  Forall is_char (bytes_of name) → 0 < zlen (bytes_of name) <= 256 →
  wp (under_home p (ready p) env name) (built (in_home name) (2 ^ 42) s) s.
Proof.
  intros Hch Hname. unfold under_home. apply wp_bind. eapply wp_mono; [apply home_ok|]. intros [b|] s1 [HF1 Hb]; cbv beta iota.
  2:{ destruct Hb as [HL1 Hw]. apply wp_ret. split; [done|]. split; [done|]. intros HF. unfold in_home. by rewrite Hw. }
  destruct Hb as (HL1 & Hwf & Hc & Hn & Hw). apply wp_bind. eapply wp_mono; [apply (to_cstr_ok b); [done|done|lia]|].
  intros [str ob] s2 (b' & -> & Hwf' & Hc' & Hcase). apply wp_bind. pose proof (length_contents b Hwf) as Hlen.
  assert (∃ args, [str; Some (bytes_of name)] = args ∧ Forall (Forall is_char) (omap id args) ∧ room args <= 2 ^ 40 + 258
    ∧ (m_fails s2 = m_fails s → joined p (separator (ready p)) args = default [] (in_home name) ∧ is_Some (in_home name))
    ∧ m_live s2 = m_live s + 2 ∧ (m_fails s <= m_fails s2)%nat) as (args & -> & Hargs & Hroom & Hj & HL2 & HF2).
  { eexists. split; [done|]. destruct Hcase as [(-> & HL & HF)|(-> & HL & HF)]; simpl in HF.
    - split; [by repeat constructor|]. split; [|split; [|split; lia]].
      + rewrite room_two. lia.
      + intros E. unfold in_home. rewrite (Hw ltac:(lia)). simpl. by split; [|eexists].
    - split; [by repeat constructor|]. split; [|split; [|split; lia]].
      + rewrite room_one. lia.
      + intros E. exfalso. lia. }
  eapply wp_mono; [apply (join_ok p args); [done|lia]|]. intros r s3 [[HF3 Hr] _]. apply wp_bind, wp_buffer_free. intros s4 [HL4 HF4].
  apply wp_ret. split; [lia|]. destruct r as [r|].
  - destruct Hr as (HL3 & Hwf3 & Hc3 & Hn3 & Hw3). split_and!; [lia|done|done|lia|]. intros HF.
    destruct (Hj ltac:(lia)) as [Ej [d Ed]]. rewrite Ed in *. simpl in Ej. rewrite <- Ej. apply Hw3. lia.
  - destruct Hr as [HL3 Hw3]. split; [lia|]. intros HF. specialize (Hw3 ltac:(lia)). done.
Qed.

Lemma data_ok s : wp (ak_filepath_data p (ready p) env) (built data_path (2 ^ 42) s) s.
Proof.
  destruct (ready_separator p) as (Hi & _). unfold ak_filepath_data, ak_filepath_config, data_path, from_variable. rewrite Hi. cbn [negb]. cbv iota.
  pose proof (in_home_ok ".local/share"%str s ltac:(repeat constructor; unfold is_char; lia) ltac:(done)) as Hl.
  pose proof (in_home_ok "Library/Application Support"%str s ltac:(repeat constructor; unfold is_char; lia) ltac:(done)) as Ha.
  pose proof (variable_ok "XDG_DATA_HOME"%str) as Hv. destruct p; [|exact Ha|done].
  destruct (set_variable env "XDG_DATA_HOME"%str) as [v|]; [|exact Hl]. destruct (Hv v eq_refl). apply built_str; [done|done|lia].
Qed.

Lemma cstr_safe_ok b s :
  buffer_wf b → Forall is_char (contents b) → b_count b < 2 ^ 61 →
  wp (buffer_to_cstr_safe (Some b)) (λ r s', (r = None ∧ balance 0 true s s') ∨ (r = Some (contents b) ∧ balance 1 false s s')) s.
Proof.
  intros Hwf Hch Hl. pose proof Hwf as [Hblk Hcnt Hcap Hby Horg]. unfold buffer_to_cstr_safe. rewrite u64_small by lia. apply wp_bind.
  apply wp_alloc_bytes; [lia| |].
  - intros s' HA. apply wp_ret. left. split; [done|balance].
  - intros d s' HA Hd Hdb. apply wp_bind, wp_lift. apply blit_wpo; [lia..|]. intros d1 [Hl1 Hp1 _ HF1].
    rewrite Z.add_0_l in Hp1. simpl in Hp1.
    destruct (terminate_ok b d1 (b_count b + 1)) as (d2 & Hwr & Hs & _); try done; try lia; [by apply HF1|].
    apply wp_bind, wp_lift. rewrite Hwr. simpl. apply wp_bind, wp_lift. rewrite Hs. simpl. apply wp_ret. right. split; [done|balance].
Qed.

Lemma hash_ok str : hash_string str = Ret (fnv str).
Proof.
  unfold hash_string. pose proof (hash_string_ok str (zlen str)) as Hh. rewrite <- (take_ge str (Z.to_nat (zlen str))) at 2 by (unfold zlen; lia).
  rewrite <- Hh by (pose proof (zlen_nonneg str); lia). unfold Interns.hash_string, zlen. by rewrite Nat2Z.id.
Qed.

(** Making directories. *)
Definition mkdir_step (w w' : os) : Prop := ∃ q, w' = (os_mkdir q w).2.

Lemma parents_mkdirs before rest w : rtc mkdir_step w (mkdir_parents before rest w).1.
Proof.
  revert before w. induction rest as [|c rest IH]; intros before w; [done|]. simpl. destruct (is_slash c); [|apply IH].
  destruct (_ && _); [|apply IH]. eapply rtc_l; [by eexists|apply IH].
Qed.

Lemma mkdir_ok path w : path ≠ [] → ∃ rc w', mkdir_recursive path w = Ret (rc, w') ∧ rtc mkdir_step w w'.
Proof.
  intros Hne. unfold mkdir_recursive. destruct (list.last (take 4095 path)) as [c|] eqn:E.
  2:{ apply last_None in E. by destruct path. }
  destruct (if is_slash c then _ else _) as [|x tmp].
  - destruct (os_mkdir [] w) as [rc w'] eqn:Em. exists rc, w'. split; [done|]. apply rtc_once. exists []. by rewrite Em.
  - pose proof (parents_mkdirs [x] tmp w) as Hm. destruct (mkdir_parents [x] tmp w) as [w1 dir]. simpl in Hm.
    destruct (os_mkdir dir w1) as [rc w'] eqn:Em. exists rc, w'. split; [done|]. eapply rtc_r; [done|]. exists dir. by rewrite Em.
Qed.
End directories.

(** Making a directory leaves the files, and who runs, as they were. *)
Class OSLaws `{OS} := {
  mkdir_read f q w : os_read f (os_mkdir q w).2 = os_read f w;
  mkdir_kill pid q w : os_kill pid (os_mkdir q w).2 = os_kill pid w;
}.

Section locking.
Context `{Allocator} `{OSLaws} (p : platform) (env : environment).
Hypothesis Hp : p ≠ Windows.
Hypothesis Henv : short_env env.

Definition runtime_path (d : list Z) : list Z := joined p (separator (ready p)) [Some d; Some AK24; Some RUNTIME].

Definition lock_path (d app_id : list Z) : list Z :=
  joined p (separator (ready p)) [Some (runtime_path d); Some (lock_name (fnv app_id))].

Lemma mkdirs_read w w' : rtc mkdir_step w w' → (∀ f, os_read f w' = os_read f w) ∧ ∀ pid, is_process_running pid w' = is_process_running pid w.
Proof.
  induction 1 as [w|w1 w2 w3 [q ->] _ [IHr IHk]]; [done|]. split; [intros f; rewrite IHr; apply mkdir_read|].
  intros pid. rewrite IHk. unfold is_process_running. by rewrite mkdir_kill.
Qed.

Lemma lock_name_chars hash : Forall is_char (lock_name hash) ∧ zlen (lock_name hash) = 21.
Proof.
  split; [|done]. apply Forall_app. split; [|repeat constructor; unfold is_char; lia]. unfold hex16. apply Forall_fmap, Forall_true. intros i. simpl.
  pose proof (Z.mod_pos_bound (hash / 16 ^ (15 - i)) 16 ltac:(lia)). unfold hex_digit, is_char. destruct (Z.ltb_spec (hash / 16 ^ (15 - i) mod 16) 10); lia.
Qed.

(** The path of the lock file, or the reason to leave without a change to a file. *)
Definition path_found (app_id : list Z) (w : os) (s : mem) (r : exit_reason + list Z * ak_buffer_t) (w' : os) (s' : mem) : Prop :=
  rtc mkdir_step w w' ∧ (m_fails s <= m_fails s')%nat
  ∧ m_live s' = m_live s + (match r with inl _ => 0 | inr _ => 3 end)
  ∧ (m_fails s' = m_fails s → match data_path p env with
      | None => r = inl No_data_dir ∧ w' = w
      | Some d => ∃ rc, mkdir_recursive (runtime_path d) w = Ret (rc, w') ∧
          if negb (rc =? 0) && negb (os_errno w' =? EEXIST) then r = inl Cannot_make_dir else ∃ b, r = inr (lock_path d app_id, b)
      end).

Lemma lock_file_path_ok app_id w s :
  wp (lock_file_path p (ready p) env app_id w) (λ '(r, w') s', path_found app_id w s r w' s') s.
Proof.
  unfold lock_file_path, path_found. apply wp_bind. eapply wp_mono; [by apply data_ok|]. intros [b|] s1 [HF1 Hb]; cbv beta iota.
  2:{ destruct Hb as [HL1 Hw]. apply wp_ret. split_and!; [done|done|lia|]. intros HF. by rewrite Hw. }
  destruct Hb as (HL1 & Hwf & Hc & Hn & Hw). apply wp_bind. pose proof (length_contents b Hwf) as Hlen.
  eapply wp_mono; [apply cstr_safe_ok; [done|done|lia]|]. intros r s2 [[-> [HL2 HF2]]|[-> [HL2 HF2]]]; simpl in HF2; cbv beta iota.
  { apply wp_bind, wp_buffer_free. intros s3 [HL3 HF3]. simpl in HF3. apply wp_ret. split_and!; [done|lia|lia|]. intros HF. lia. }
  apply wp_bind. eapply wp_mono; [apply (join_ok p)|].
  { simpl. repeat constructor; [done|..]; unfold is_char; lia. }
  { rewrite room_three. change (zlen AK24) with 4. change (zlen RUNTIME) with 7. lia. }
  rewrite room_three. change (zlen AK24) with 4. change (zlen RUNTIME) with 7.
  intros r s3 [[HF3 Hr] Hne]. apply wp_bind, wp_free_obj. intros s4 HL4 HF4. apply wp_bind, wp_buffer_free. intros s5 [HL5 HF5]. simpl in HF5.
  destruct r as [r|]; cbv beta iota.
  2:{ destruct Hr as [HL3 Hw3]. apply wp_ret. split_and!; [done|lia|lia|]. intros HF. specialize (Hw3 ltac:(lia)). done. }
  destruct Hr as (HL3 & Hwf3 & Hc3 & Hn3 & Hw3). pose proof (length_contents r Hwf3) as Hlen3.
  assert (contents r ≠ []) as Hr by (apply (Hne r eq_refl); right; left; done).
  apply wp_bind. eapply wp_mono; [apply cstr_safe_ok; [done|done|lia]|]. intros dir s6 [[-> [HL6 HF6]]|[-> [HL6 HF6]]]; simpl in HF6; cbv beta iota.
  { apply wp_bind, wp_buffer_free. intros s7 [HL7 HF7]. simpl in HF7. apply wp_ret. split_and!; [done|lia|lia|]. intros HF. lia. }
  destruct (mkdir_ok (contents r) w Hr) as (rc & w1 & Hmk & Hrtc). apply wp_bind, wp_lift. rewrite Hmk. cbv beta iota delta [wpo].
  assert (m_fails s6 = m_fails s → data_path p env = Some (contents b) ∧ runtime_path (contents b) = contents r) as Hpaths.
  { intros HF. split; [apply Hw; lia|]. specialize (Hw3 ltac:(lia)). by injection Hw3. }
  destruct (negb (rc =? 0) && negb (os_errno w1 =? EEXIST)) eqn:Erc.
  { apply wp_bind, wp_free_obj. intros s7 HL7 HF7. apply wp_bind, wp_buffer_free. intros s8 [HL8 HF8]. simpl in HF8. apply wp_ret.
    split_and!; [done|lia|lia|]. intros HF. destruct (Hpaths ltac:(lia)) as [-> ->]. exists rc. by rewrite Erc. }
  apply wp_bind, wp_lift. rewrite hash_ok. cbv beta iota delta [wpo]. destruct (lock_name_chars (fnv app_id)) as [Hlc Hll].
  apply wp_bind. eapply wp_mono; [apply (join_ok p)|].
  { change (Forall (Forall is_char) [contents r; lock_name (fnv app_id)]). constructor; [done|]. constructor; [done|constructor]. }
  { rewrite room_two, Hll. lia. }
  rewrite room_two, Hll. intros f s7 [[HF7 Hf] _]. apply wp_bind, wp_free_obj. intros s8 HL8 HF8. apply wp_bind, wp_buffer_free. intros s9 [HL9 HF9]. simpl in HF9.
  destruct f as [f|]; cbv beta iota.
  2:{ destruct Hf as [HLf Hwf']. apply wp_ret. split_and!; [done|lia|lia|]. intros HF. specialize (Hwf' ltac:(lia)). done. }
  destruct Hf as (HLf & Hwff & Hcf & Hnf & Hwf'). apply wp_bind. eapply wp_mono; [apply cstr_safe_ok; [done|done|lia]|].
  intros str s10 [[-> [HL10 HF10]]|[-> [HL10 HF10]]]; simpl in HF10; cbv beta iota.
  { apply wp_bind, wp_buffer_free. intros s11 [HL11 HF11]. simpl in HF11. apply wp_ret. split_and!; [done|lia|lia|]. intros HF. lia. }
  apply wp_ret. split_and!; [done|lia|lia|]. intros HF. destruct (Hpaths ltac:(lia)) as [-> Er]. rewrite Er. exists rc. split; [done|]. rewrite Erc.
  exists f. do 2 f_equal. specialize (Hwf' ltac:(lia)). injection Hwf' as <-. unfold lock_path. by rewrite Er.
Qed.

(** What [init_runtime_directory] is meant to do. *)
Definition init_spec (app_id : list Z) (w : os) : outcome ((exit_reason + option (list Z)) * os) :=
  match data_path p env with
  | None => Ret (inl No_data_dir, w)
  | Some d =>
      '(rc, w) ← mkdir_recursive (runtime_path d) w;
      if negb (rc =? 0) && negb (os_errno w =? EEXIST) then Ret (inl Cannot_make_dir, w) else
      holder ← (if bool_decide (app_id = TEST_ID) then Ret None else lock_holder (lock_path d app_id) w);
      match holder with
      | Some pid => Ret (inl (Already_running pid), w)
      | None =>
          let '(ok, w) := os_create (lock_path d app_id) w in
          if negb ok then Ret (inl Cannot_lock, w)
          else Ret (inr (Some (lock_path d app_id)), os_print (lock_path d app_id) (lock_text app_id (os_getpid w)) w)
      end
  end.

(** No file has a number that [atol] is undefined for. *)
Definition readable (w : os) : Prop := ∀ f file, os_read f w = Some file → ∃ n, existing_pid file = Ret n.

Lemma holder_ok w f : readable w → ∃ h, lock_holder f w = Ret h.
Proof.
  intros Hr. unfold lock_holder. destruct (os_read f w) as [file|] eqn:E; [|by eexists]. destruct (Hr f file E) as [n ->]. simpl. by eexists.
Qed.

Lemma runtime_init_ok app_id w s :
  app_id ≠ [] → readable w →
  wp (init_runtime_directory p (ready p) env (Some app_id) w) (λ '(r, w') s',
    (m_fails s <= m_fails s')%nat ∧ m_live s' = m_live s + (match r with inr (Some _) => 1 | _ => 0 end)
    ∧ (m_fails s' = m_fails s → init_spec app_id w = Ret (r, w'))
    ∧ (∀ e, r = inl e → e ≠ Cannot_lock → rtc mkdir_step w w')) s.
Proof.
  intros Hne Hr. destruct app_id as [|c id]; [done|]. unfold init_runtime_directory. set (app_id := c :: id).
  apply wp_bind. eapply wp_mono; [apply lock_file_path_ok|]. intros [r w1] s1 (Hm & HF1 & HL1 & Hspec).
  destruct r as [e|[f b]]; cbv beta iota.
  { apply wp_ret. split_and!; [done|lia| |done]. intros HF. specialize (Hspec HF). unfold init_spec. destruct (data_path p env) as [d|].
    - destruct Hspec as (rc & -> & Hspec). simpl. destruct (_ && _); [by injection Hspec as ->|]. by destruct Hspec.
    - by destruct Hspec as [[= ->] ->]. }
  assert (readable w1) as Hr1 by (intros g file; rewrite (proj1 (mkdirs_read w w1 Hm)); apply Hr).
  assert (∃ h, (if bool_decide (app_id = TEST_ID) then Ret None else lock_holder f w1) = Ret h) as [h Hh].
  { case_bool_decide; [by eexists|by apply holder_ok]. }
  assert (∀ r w2 s2, m_fails s2 = m_fails s → (h = None → let '(ok, w2') := os_create f w1 in
      (r, w2) = if negb ok then (inl Cannot_lock, w2') else (inr (Some f), os_print f (lock_text app_id (os_getpid w2')) w2')) →
    (∀ pid, h = Some pid → r = inl (Already_running pid) ∧ w2 = w1) → (m_fails s1 <= m_fails s2)%nat → init_spec app_id w = Ret (r, w2)) as Hend.
  { intros r w2 s2 HF Hnone Hsome Hle. specialize (Hspec ltac:(lia)). unfold init_spec. destruct (data_path p env) as [d|]; [|by destruct Hspec].
    destruct Hspec as (rc & -> & Hspec). simpl. destruct (_ && _); [done|]. destruct Hspec as (b' & Hb'). injection Hb' as Ef _. rewrite <- Ef, Hh.
    simpl. destruct h as [pid|]; [by destruct (Hsome pid eq_refl) as [-> ->]|]. specialize (Hnone eq_refl).
    destruct (os_create f w1) as [[|] w2']; simpl in Hnone |- *; by injection Hnone as -> ->. }
  apply wp_bind, wp_lift. rewrite Hh. cbv beta iota delta [wpo]. destruct h as [pid|].
  - apply wp_bind, wp_free_obj. intros s2 HL2 HF2. apply wp_bind, wp_buffer_free. intros s3 [HL3 HF3]. simpl in HF3. apply wp_ret.
    split_and!; [lia|lia| |done]. intros HF. apply (Hend _ _ s3); [done|done| |lia]. intros q [= <-]. done.
  - unfold write_lock. destruct (os_create f w1) as [ok w2] eqn:Ec. destruct ok; cbv beta iota delta [negb].
    + apply wp_bind, wp_bind, wp_alloc_obj. intros ok s2 [HL2 HF2]. apply wp_ret.
      apply wp_bind, wp_free_obj. intros s3 HL3 HF3. apply wp_bind, wp_buffer_free. intros s4 [HL4 HF4]. simpl in HF4. apply wp_ret.
      split_and!; [destruct ok; lia|destruct ok; lia| |done]. intros HF. destruct ok; [|lia]. apply (Hend _ _ s4); [done| |done|lia]. done.
    + apply wp_bind, wp_ret. apply wp_bind, wp_free_obj. intros s3 HL3 HF3. apply wp_bind, wp_buffer_free. intros s4 [HL4 HF4]. simpl in HF4. apply wp_ret.
      split_and!; [lia|lia| |by intros e [= <-]]. intros HF. apply (Hend _ _ s4); [done| |done|lia]. done.
Qed.

Lemma cleanup_ok f w s :
  wp (cleanup_lock_file p (ready p) env (Some f) w) (λ w' s', m_live s' = m_live s - 1 ∧ (m_fails s <= m_fails s')%nat
    ∧ (w' = w ∨ w' = os_remove f w)
    ∧ (m_fails s' = m_fails s → w' = match data_path p env with
         | Some d => if starts_with f (runtime_path d) then os_remove f w else w
         | None => w
         end)) s.
Proof.
  unfold cleanup_lock_file. apply wp_bind. eapply wp_mono; [by apply data_ok|]. intros r s1 [HF1 Hb]. apply wp_bind.
  eapply (wp_mono _ (λ w' s', m_live s' = m_live s ∧ (m_fails s <= m_fails s')%nat ∧ (w' = w ∨ w' = os_remove f w)
    ∧ (m_fails s' = m_fails s → w' = match data_path p env with
         | Some d => if starts_with f (runtime_path d) then os_remove f w else w
         | None => w
         end))).
  2:{ intros w' s2 (HL2 & HF2 & Hor & Hw2). apply wp_bind, wp_free_obj. intros s3 HL3 HF3. apply wp_ret. split_and!; [lia|lia|done|].
      intros HF. apply Hw2. lia. }
  destruct r as [b|]; cbv beta iota.
  2:{ destruct Hb as [HL1 Hw]. apply wp_ret. split_and!; [done|done|by left|]. intros HF. by rewrite Hw. }
  destruct Hb as (HL1 & Hwf & Hc & Hn & Hw). apply wp_bind. pose proof (length_contents b Hwf) as Hlen.
  eapply wp_mono; [apply cstr_safe_ok; [done|done|lia]|]. intros r s2 [[-> [HL2 HF2]]|[-> [HL2 HF2]]]; simpl in HF2;
    apply wp_bind, wp_buffer_free; intros s3 [HL3 HF3]; simpl in HF3; cbv beta iota.
  { apply wp_ret. split_and!; [lia|lia|by left|]. intros HF. lia. }
  apply wp_bind. eapply wp_mono; [apply (join_ok p)|].
  { simpl. repeat constructor; [done|..]; unfold is_char; lia. }
  { rewrite room_three. change (zlen AK24) with 4. change (zlen RUNTIME) with 7. lia. }
  rewrite room_three. change (zlen AK24) with 4. change (zlen RUNTIME) with 7.
  intros r s4 [[HF4 Hr] _]. apply wp_bind, wp_free_obj. intros s5 HL5 HF5. destruct r as [r|]; cbv beta iota.
  2:{ destruct Hr as [HL4 Hw4]. apply wp_ret. split_and!; [lia|lia|by left|]. intros HF. specialize (Hw4 ltac:(lia)). done. }
  destruct Hr as (HL4 & Hwf4 & Hc4 & Hn4 & Hw4). pose proof (length_contents r Hwf4) as Hlen4.
  apply wp_bind. eapply wp_mono; [apply cstr_safe_ok; [done|done|lia]|]. intros x s6 [[-> [HL6 HF6]]|[-> [HL6 HF6]]]; simpl in HF6;
    apply wp_bind, wp_buffer_free; intros s7 [HL7 HF7]; simpl in HF7; cbv beta iota.
  { apply wp_ret. split_and!; [lia|lia|by left|]. intros HF. lia. }
  apply wp_bind, wp_free_obj. intros s8 HL8 HF8. apply wp_ret. split_and!; [lia|lia|destruct (starts_with f (contents r)); [by right|by left]|].
  intros HF. rewrite (Hw ltac:(lia)). specialize (Hw4 ltac:(lia)). injection Hw4 as <-. done.
Qed.

(** The lock file is inside the runtime directory. *)
Lemma lock_path_inside d app_id : runtime_path d ≠ [] → starts_with (lock_path d app_id) (runtime_path d) = true.
Proof.
  intros Hne. unfold lock_path, joined. set (x := runtime_path d) in *. change (omap id [Some x; Some (lock_name (fnv app_id))]) with [x; lock_name (fnv app_id)].
  cbn [fold_left]. assert (join_two p (separator (ready p)) [] x = x) as -> by by destruct x.
  destruct (lock_name (fnv app_id)) as [|c rest] eqn:E; [pose proof (proj2 (lock_name_chars (fnv app_id))) as Hl; by rewrite E in Hl|].
  unfold join_two. destruct (list.last x) as [y|] eqn:El; [|by apply last_None in El].
  destruct (is_separator p y), (is_separator p c); apply starts_with_app.
Qed.

Lemma runtime_path_nonempty d : runtime_path d ≠ [].
Proof.
  unfold runtime_path, joined. change (omap id [Some d; Some AK24; Some RUNTIME]) with [d; AK24; RUNTIME]. cbn [fold_left].
  assert (∀ a c, c ≠ [] → join_two p (separator (ready p)) a c ≠ []) as Hj.
  { intros a [|x c] Hc; [done|]. unfold join_two. destruct (list.last a) as [y|] eqn:El; [|done].
    assert (a ≠ []) as Ha by by intros ->.
    destruct (is_separator p y), (is_separator p x); intros E; try (by apply app_eq_nil in E as [? ?]); by destruct a. }
  by apply Hj.
Qed.

Lemma init_spec_taken app_id w f o :
  init_spec app_id w = Ret (inr f, o) → ∃ d, data_path p env = Some d ∧ f = Some (lock_path d app_id)
    ∧ starts_with (lock_path d app_id) (runtime_path d) = true.
Proof.
  unfold init_spec. destruct (data_path p env) as [d|]; [|done]. destruct (mkdir_ok (runtime_path d) w (runtime_path_nonempty d)) as (rc & w3 & -> & _).
  simpl. destruct (_ && _); [done|]. destruct (if bool_decide (app_id = TEST_ID) then _ else _) as [[pid|]| |]; simpl; [done| |done|done].
  destruct (os_create (lock_path d app_id) w3) as [[|] w4]; simpl; [|done]. intros [= <- _]. exists d.
  split_and!; [done|done|]. apply lock_path_inside, runtime_path_nonempty.
Qed.

(** The file of another instance that runs. *)
Definition locked_by (app_id : list Z) (pid : Z) (w : os) : Prop :=
  ∃ d, data_path p env = Some d ∧ os_read (lock_path d app_id) w = Some (lock_text app_id pid)
    ∧ 0 < pid < 2 ^ 31 ∧ is_process_running pid w = true.

Lemma excluded app_id pid w :
  locked_by app_id pid w → app_id ≠ TEST_ID → zlen app_id < 255 → Forall (λ c, c ≠ NEWLINE) app_id →
  ∃ w' e, init_spec app_id w = Ret (inl e, w') ∧ (e = Already_running pid ∨ e = Cannot_make_dir) ∧ rtc mkdir_step w w'.
Proof.
  intros (d & Hd & Hf & Hpid & Hrun) Htest Hlen Hline. unfold init_spec. rewrite Hd.
  destruct (mkdir_ok (runtime_path d) w (runtime_path_nonempty d)) as (rc & w1 & -> & Hm). simpl. destruct (mkdirs_read w w1 Hm) as [Hread Hk].
  destruct (_ && _); [exists w1, Cannot_make_dir; by split_and!; [|right|]|]. rewrite bool_decide_eq_false_2 by done.
  unfold lock_holder. rewrite Hread, Hf, existing_pid_ok by (done || lia). simpl. rewrite (proj2 (Z.ltb_lt 0 pid)), Hk, Hrun by lia. simpl.
  exists w1, (Already_running pid). split_and!; [done|by left|done].
Qed.
End locking.

(** * Properties *)

(** C27: Starting a program.  [init_runtime_directory] leaves nothing behind but, when it
    succeeds, the path of the lock file; when no allocation fails it does what
    [init_spec] says: it makes the runtime directory and takes the lock file named by
    the hash of the application, unless a process that runs has it.  While one has, with
    a name of less than 255 characters and no newline, another start leaves the process
    and makes nothing but directories.  [cleanup_lock_file] removes the file that was
    taken, only a path in the runtime directory, and gives the path back. *)
Theorem ak_lock_file_spec `{Allocator} `{OSLaws} p env app_id w s :
  p ≠ Windows → short_env env → app_id ≠ [] → readable w →
  wp (init_runtime_directory p (ready p) env (Some app_id) w) (λ '(r, w') s',
    m_live s' = m_live s + (match r with inr (Some _) => 1 | _ => 0 end)
    ∧ (m_fails s' = m_fails s → init_spec p env app_id w = Ret (r, w'))
    ∧ (∀ e, r = inl e → e ≠ Cannot_lock → rtc mkdir_step w w')
    ∧ (∀ f, r = inr (Some f) → ∀ w1,
        wp (cleanup_lock_file p (ready p) env (Some f) w1) (λ w2 s2, m_live s2 = m_live s
          ∧ (w2 = w1 ∨ w2 = os_remove f w1) ∧ (m_fails s2 = m_fails s → w2 = os_remove f w1)) s')) s
  ∧ (∀ pid, locked_by p env app_id pid w → app_id ≠ TEST_ID → zlen app_id < 255 → Forall (λ c, c ≠ NEWLINE) app_id →
      ∃ w' e, init_spec p env app_id w = Ret (inl e, w') ∧ (e = Already_running pid ∨ e = Cannot_make_dir)
        ∧ ∀ f, os_read f w' = os_read f w)
  ∧ (∀ f w1, wp (cleanup_lock_file p (ready p) env (Some f) w1) (λ w2 s2, w2 ≠ w1 → m_fails s2 = m_fails s →
      ∃ d rest, data_path p env = Some d ∧ f = runtime_path p d ++ rest ∧ w2 = os_remove f w1) s).
Proof.
  intros Hp Henv Hne Hr. split_and!.
  - eapply wp_mono; [by apply runtime_init_ok|]. intros [r w'] s' (HF & HL & Hspec & Hm). split_and!; [done|done|done|].
    intros f -> w1. eapply wp_mono; [by apply cleanup_ok|]. intros w2 s2 (HL2 & HF2 & Hor & Hw2). split_and!; [lia|done|].
    intros E. rewrite (Hw2 ltac:(lia)). destruct (init_spec_taken p env app_id w (Some f) w' (Hspec ltac:(lia))) as (d & -> & [= ->] & ->). done.
  - intros pid Hl Ht Hlen Hline. destruct (excluded p env app_id pid w Hl Ht Hlen Hline) as (w' & e & E & He & Hm). exists w', e.
    split_and!; [done|done|]. apply (mkdirs_read w w' Hm).
  - intros f w1. eapply wp_mono; [by apply cleanup_ok|]. intros w2 s2 (_ & _ & _ & Hw2) Hne2 HF. specialize (Hw2 HF).
    destruct (data_path p env) as [d|]; [|done]. destruct (starts_with f (runtime_path p d)) eqn:E; [|done].
    apply starts_with_prefix in E as [rest ->]. by exists d, rest.
Qed.

(** * Witnesses *)

(** Files by name, every process below 100 running, directories that can always be
    made. *)
#[local] Instance toy_os : OS := {|
  os := list (list Z * list Z);
  os_mkdir _ w := (0, w);
  os_errno _ := 0;
  os_read f w := snd <$> List.find (λ e, bool_decide (e.1 = f)) w;
  os_create f w := (true, (f, []) :: w);
  os_print f text w := (f, text) :: w;
  os_remove f w := List.filter (λ e, negb (bool_decide (e.1 = f))) w;
  os_kill pid _ := if pid <? 100 then (0, 0) else (-1, ESRCH);
  os_getpid _ := 42;
|}.

#[local] Instance toy_os_laws : OSLaws.
Proof. by split. Defined.

Section runtime_witnesses.
#[local] Existing Instance always_alloc.

Definition w_env : environment := mk_environment
  (λ name, if String.eqb name "HOME"%str then Some wa else None) None (λ _, None).

Definition w_id : list Z := bytes_of "demo"%str.

(** A name of 256 letters. *)
Definition w_long_id : list Z := replicate 256 0x61.

Lemma w_short_env : short_env w_env.
Proof. split; [|done]. intros name v. simpl. destruct (String.eqb _ _); [|done]. by intros [= <-]. Qed.

(** No files at all. *)
Definition no_files : os := @nil (list Z * list Z).

(** What a start makes of the files. *)
Definition w_started (id : list Z) (w : os) : option ((exit_reason + option (list Z)) * os) :=
  match init_runtime_directory Linux (ready Linux) w_env (Some id) w mem0 with
  | Ret (r, w, _) => Some (r, w)
  | _ => None
  end.

Lemma wp_run {A} (m : M A) (Q : A → mem → Prop) s x s' : m s = Ret (x, s') → wp m Q s ↔ Q x s'.
Proof. unfold wp. by intros ->. Qed.

Lemma ak_lock_file_spec_witness :
  wp (init_runtime_directory Linux (ready Linux) w_env (Some w_id) no_files) (λ '(r, w') s', m_live s' = 1 ∧ is_Some (w_started w_id w')
    ∧ wp (cleanup_lock_file Linux (ready Linux) w_env (match r with inr f => f | _ => None end) w') (λ w2 s2, m_live s2 = 0 ∧ w2 = no_files) s') mem0
  ∧ match w_started w_id no_files with
    | Some (_, w') => w_started w_id w' = Some (inl (Already_running 42), w')
    | None => False
    end.
Proof.
  destruct (ak_lock_file_spec Linux w_env w_id no_files mem0 ltac:(done) w_short_env ltac:(done) ltac:(intros f file; done)) as (Hw & _ & _).
  split; [|vm_compute; reflexivity].
  assert (match init_runtime_directory Linux (ready Linux) w_env (Some w_id) no_files mem0 with
          | Ret (r, w', s') => (∃ f, r = inr (Some f)) ∧ is_Some (w_started w_id w') ∧
              match cleanup_lock_file Linux (ready Linux) w_env (match r with inr f => f | _ => None end) w' s' with
              | Ret (w2, s2) => w2 = no_files
              | _ => False
              end
          | _ => False
          end) as Hrun by (vm_compute; split_and!; [by eexists|by eexists|done]).
  destruct (init_runtime_directory Linux (ready Linux) w_env (Some w_id) no_files mem0) as [[[r w'] s']| |] eqn:E; [|destruct Hrun..].
  refine (proj2 (wp_run _ _ _ _ _ E) _). pose proof (proj1 (wp_run _ _ _ _ _ E) Hw) as Hw1. clear Hw. destruct Hw1 as (HL & _ & _ & Hclean), Hrun as ([f ->] & Hst & Hrun). split; [exact HL|]. split; [exact Hst|].
  specialize (Hclean f eq_refl w'). cbv beta iota in Hrun |- *.
  destruct (cleanup_lock_file Linux (ready Linux) w_env (Some f) w' s') as [[w2 s2]| |] eqn:E2; [|destruct Hrun..].
  refine (proj2 (wp_run _ _ _ _ _ E2) _). pose proof (proj1 (wp_run _ _ _ _ _ E2) Hclean) as Hc2. split; [exact (proj1 Hc2)|exact Hrun].
Defined.

(** Two instances at once.  The lock file of an application whose name has 255
    characters, or a newline, is not understood: a second start takes the lock although
    the first process runs.  And between the reading of the lock file and its writing
    another process can do the same, whatever the name is. *)
Theorem ak_lock_file_failures :
  (∃ r w1 w2, w_started w_long_id no_files = Some (inr (Some r), w1) ∧ is_process_running 42 w1 = true
    ∧ os_read r w1 = Some (lock_text w_long_id 42) ∧ w_started w_long_id w1 = Some (inr (Some r), w2))
  ∧ (∃ r w1 w2, w_started (0x0A :: w_id) no_files = Some (inr (Some r), w1) ∧ is_process_running 42 w1 = true
    ∧ w_started (0x0A :: w_id) w1 = Some (inr (Some r), w2))
  ∧ (∀ f w, lock_holder f w = Ret None → wp (write_lock w_id f w) (λ '(r, w1) s1, r = inr (Some f) ∧ is_process_running 42 w1 = true
      ∧ wp (write_lock w_id f w1) (λ '(r', _) _, r' = inr (Some f)) s1) mem0).
Proof.
  split_and!.
  - do 3 eexists. split_and!; [vm_compute; reflexivity..].
  - do 3 eexists. split_and!; [vm_compute; reflexivity..].
  - intros f w _. unfold wp. lazy. split_and!; reflexivity.
Qed.
End runtime_witnesses.
