(* ===== verification/Kernel.v ===== *)
(** The life of the kernel: [kernel/src/kernel.c], the build without a collector.

    [ak_kernel_init] and [ak_kernel_deinit] call the other components; the state of the
    kernel is theirs together with its own globals.  With a collector the two functions
    also call it, and the scheduler.  A shutdown lambda is invoked as it is in [Lambdas];
    it calls nothing of the kernel. *)

From stdpp Require Import gmap relations.
From S2P Require Import Prelude Maps Lists Lambdas Interns Sourceloc Filepath Runtime Signals.

(** * Data *)

(** What a shutdown lambda is called with a pointer to. *)
Record kernel_shutdown_info_t := mk_shutdown_info { start_time : Z }.

Section kernel.
Context `{Allocator} `{OS} `{SignalSystem} (p : platform) (env : environment).

(** The globals of the components, with the intern table among those of the source
    files; [shutdown_info] is the record that [info] of [ak_kernel_deinit] was last. *)
Record kernel := mk_kernel {
  k_sources : world;
  k_paths : filepath_state_t;
  ak24_kernel_lock_file_path : option (list Z);
  k_os : os;
  shutdown_lambdas : list_base_t positive;
  shutdown_lambdas_initialized : bool;
  kernel_start_time : Z;
  shutdown_info : option kernel_shutdown_info_t;
  k_signals : signals;
}.

Definition with_intern_table (w : world) (t : intern_table_t) : world :=
  mk_world t (w_system w) (w_files w) (w_next w).

Definition with_lambdas (w : signals) (l : lstore) : signals :=
  mk_signals (signal_handlers w) (signal_handlers_initialized w) (signal_mutex w) (sig_entries w) (next_entry w) (passed w) l (sig_sys w).

Definition with_sources (k : kernel) (w : world) : kernel :=
  mk_kernel w (k_paths k) (ak24_kernel_lock_file_path k) (k_os k) (shutdown_lambdas k) (shutdown_lambdas_initialized k)
    (kernel_start_time k) (shutdown_info k) (k_signals k).

Definition with_signals (k : kernel) (w : signals) : kernel :=
  mk_kernel (k_sources k) (k_paths k) (ak24_kernel_lock_file_path k) (k_os k) (shutdown_lambdas k) (shutdown_lambdas_initialized k)
    (kernel_start_time k) (shutdown_info k) w.

Definition with_shutdown (k : kernel) (l : list_base_t positive) : kernel :=
  mk_kernel (k_sources k) (k_paths k) (ak24_kernel_lock_file_path k) (k_os k) l (shutdown_lambdas_initialized k)
    (kernel_start_time k) (shutdown_info k) (k_signals k).

(** * Operations *)

(** The reason, when [init_runtime_directory] leaves the process. *)
Definition ak_kernel_init (app_id : option (list Z)) (now : Z) (k : kernel) : M (option exit_reason * kernel) :=
  t ← ak_intern_init (w_table (k_sources k));
  let w := ak_sourceloc_init (with_intern_table (k_sources k) t) in
  let g := ak_filepath_init p (k_paths k) in
  '(r, o) ← init_runtime_directory p g env app_id (k_os k);
  match r with
  | inl e => mret (Some e, mk_kernel w g (ak24_kernel_lock_file_path k) o (shutdown_lambdas k) (shutdown_lambdas_initialized k)
                             now (shutdown_info k) (k_signals k))
  | inr f => mret (None, mk_kernel w g f o (list_init sizeof_pointer) true now (shutdown_info k) (ak_signal_handlers_init (k_signals k)))
  end.

Definition shutdown_entry (info : Z) (h : positive) (l : lstore) : M (lstore + False) :=
  l ← lift (ak_lambda_invoke l (Some h) info);
  mret (inl l).

(** The lambdas, if there is a list of them; [info] is the address of the record. *)
Definition run_shutdown (info : Z) (k : kernel) : M kernel :=
  if negb (shutdown_lambdas_initialized k) then mret k else
  r ← list_while (shutdown_lambdas k) (shutdown_entry info) (sig_lams (k_signals k));
  match r with
  | inl lams =>
      l ← list_deinit_ (shutdown_lambdas k);
      mret (mk_kernel (k_sources k) (k_paths k) (ak24_kernel_lock_file_path k) (k_os k) l false (kernel_start_time k)
              (Some (mk_shutdown_info (kernel_start_time k))) (with_lambdas (k_signals k) lams))
  | inr f => match f : False with end
  end.

Definition ak_kernel_deinit (info : Z) (k : kernel) : M kernel :=
  k ← run_shutdown info k;
  o ← cleanup_lock_file p (k_paths k) env (ak24_kernel_lock_file_path k) (k_os k);
  w ← ak_signal_handlers_deinit (k_signals k);
  let g := ak_filepath_shutdown (k_paths k) in
  let src := ak_sourceloc_shutdown (k_sources k) in
  t ← ak_intern_shutdown (w_table src);
  mret (mk_kernel (with_intern_table src t) g None o (shutdown_lambdas k) (shutdown_lambdas_initialized k)
          (kernel_start_time k) (shutdown_info k) w).

Definition ak_on_shutdown (lambda : option positive) (k : kernel) : M kernel :=
  match lambda with
  | None => mret k
  | Some h =>
      if negb (shutdown_lambdas_initialized k) then mret k else
      '(_, l) ← list_push_ (shutdown_lambdas k) h sizeof_pointer;
      mret (with_shutdown k l)
  end.

(** The arguments are pointers to strings. *)
Definition ak_args_to_list {A} (argc : Z) (argv : list A) : M (list_base_t A) :=
  loopM (S (Z.to_nat argc)) (λ '(args, i),
    if i <? argc then
      x ← lift (rd argv i);
      '(_, args) ← list_push_ args x sizeof_pointer;
      mret (inl (args, i + 1))
    else mret (inr args)) (list_init sizeof_pointer, 0).
End kernel.

(** * Histories *)

(** What a program does between the start and the end of the kernel. *)
Inductive kernel_call : Type :=
| K_shutdown (h : positive)
| K_signal (c : sig_call)
| K_intern (str : cstr).

Section histories.
Context `{Allocator} `{OS} `{SignalSystem}.

Definition run_kernel_call (c : kernel_call) (k : kernel) : M kernel :=
  match c with
  | K_shutdown h => ak_on_shutdown (Some h) k
  | K_signal c => w ← run_call c (k_signals k); mret (with_signals k w)
  | K_intern str =>
      '(_, t) ← ak_intern (w_table (k_sources k)) (Some (chars str ++ [0]));
      mret (with_sources k (with_intern_table (k_sources k) t))
  end.

Fixpoint run_kernel (cs : list kernel_call) (k : kernel) : M kernel :=
  match cs with
  | [] => mret k
  | c :: cs => k ← run_kernel_call c k; run_kernel cs k
  end.
End histories.

Definition signal_calls (cs : list kernel_call) : list sig_call :=
  omap (λ c, match c with K_signal c => Some c | _ => None end) cs.

Definition shutdown_calls (cs : list kernel_call) : list positive :=
  omap (λ c, match c with K_shutdown h => Some h | _ => None end) cs.

(** What the end of the kernel calls. *)
Definition shutdown_events (lams : gmap positive ak_lambda_t) (info : Z) (hs : list positive) : list event :=
  hs ≫= (λ h, invoked lams h info).

(** The lambdas are there, and strings are shorter than memory. *)
Definition calls_ok (lams : gmap positive ak_lambda_t) (cs : list kernel_call) : Prop :=
  Forall (λ c, match c with
               | K_shutdown h => is_Some (lams !! h)
               | K_signal c => handlers_live lams [c]
               | K_intern str => zlen (chars str) < 2 ^ 63
               end) cs.

(** * The state of the kernel *)

Section life.
Context `{Allocator} `{OSLaws} `{SignalLaws} (p : platform) (env : environment).

(** Before [ak_kernel_init] and after [ak_kernel_deinit]. *)
Record kernel_off (k : kernel) : Prop := {
  kf_table : Interns.initialized (w_table (k_sources k)) = false;
  kf_paths : Filepath.initialized (k_paths k) = false;
  kf_lock : ak24_kernel_lock_file_path k = None;
  kf_list : shutdown_lambdas_initialized k = false ∧ owned (shutdown_lambdas k) = 0;
  kf_signals : signals_off (k_signals k);
}.

(** Between them, with the shutdown lambdas [hs] and the signal handlers [T]. *)
Record kernel_ok (base : Z → action) (T : gmap Z positive) (hs : list positive) (k : kernel) : Prop := {
  ko_table : Interns.initialized (w_table (k_sources k)) = true → table_wf (w_table (k_sources k));
  ko_paths : k_paths k = ready p;
  ko_on : shutdown_lambdas_initialized k = true;
  ko_list : list_wf (shutdown_lambdas k) hs;
  ko_live : Forall (λ h, is_Some (lambdas (sig_lams (k_signals k)) !! h)) hs;
  ko_signals : signals_ok base T (k_signals k);
}.

Definition table_blocks (t : intern_table_t) : Z := if Interns.initialized t then 2 * zlen (entries t) + 1 else 0.

Definition lock_blocks (f : option (list Z)) : Z := match f with Some _ => 1 | None => 0 end.

Definition kernel_blocks (k : kernel) : Z :=
  table_blocks (w_table (k_sources k)) + lock_blocks (ak24_kernel_lock_file_path k) + owned (shutdown_lambdas k)
  + sig_blocks (k_signals k).

Definition kernel_lams (k : kernel) : lstore := sig_lams (k_signals k).

(** ** Shutdown lambdas *)

Lemma with_lambdas_ok base T w l :
  signals_ok base T w → lambdas l = lambdas (sig_lams w) → signals_ok base T (with_lambdas w l).
Proof. intros [A1 A2 A3 A4 A5 A6] HL. split; simpl; try done. by rewrite HL. Qed.

Lemma shutdown_each info hs l s :
  Forall (λ h, is_Some (lambdas l !! h)) hs →
  ∃ l', each hs (shutdown_entry info) l s = Ret (inl l', s) ∧ lambdas l' = lambdas l
    ∧ trace l' = trace l ++ shutdown_events (lambdas l) info hs.
Proof.
  revert l. induction hs as [|h hs IH]; intros l Hl; [exists l; by rewrite app_nil_r|].
  apply Forall_cons_1 in Hl as [Hh Hhs]. destruct (invoke_live l h info Hh) as (l1 & Hi & Hl1).
  destruct (invoked_trace l h info l1 Hi) as [Ht _]. destruct (IH l1) as (l2 & Hr & Hl2 & Ht2); [by rewrite Hl1|]. exists l2.
  simpl. unfold mbind at 1, M_bind at 1. assert (shutdown_entry info h l s = Ret (inl l1, s)) as ->.
  { unfold shutdown_entry, mbind, M_bind, lift. by rewrite Hi. }
  split_and!; [done|congruence|]. rewrite Ht2, Ht, Hl1. by rewrite <- app_assoc.
Qed.

Lemma run_shutdown_ok base T hs info k s :
  kernel_ok base T hs k →
  wp (run_shutdown info k) (λ k' s', k_sources k' = k_sources k ∧ k_paths k' = k_paths k ∧ k_os k' = k_os k
    ∧ ak24_kernel_lock_file_path k' = ak24_kernel_lock_file_path k
    ∧ shutdown_lambdas_initialized k' = false ∧ owned (shutdown_lambdas k') = 0
    ∧ shutdown_info k' = Some (mk_shutdown_info (kernel_start_time k))
    ∧ signals_ok base T (k_signals k') ∧ sig_blocks (k_signals k') = sig_blocks (k_signals k)
    ∧ sig_entries (k_signals k') = sig_entries (k_signals k) ∧ passed (k_signals k') = passed (k_signals k)
    ∧ trace (kernel_lams k') = trace (kernel_lams k) ++ shutdown_events (lambdas (kernel_lams k)) info hs
    ∧ balance (- owned (shutdown_lambdas k)) false s s') s.
Proof.
  intros [_ _ Hon Hwf Hlive Hsig]. unfold run_shutdown. rewrite Hon. cbv beta iota delta [negb]. apply wp_bind, (wp_list_while _ hs); [done|].
  destruct (shutdown_each info hs (sig_lams (k_signals k)) s Hlive) as (l & Hl & HL & Htr). eapply wp_done; [exact Hl|]. cbv beta iota.
  apply wp_bind. eapply wp_mono; [by apply (list_deinit_ok _ hs)|]. intros l' s' (_ & Ho & HB). apply wp_ret.
  split_and!; try done. simpl. by apply with_lambdas_ok.
Qed.

(** ** Calls *)

Lemma chars_nonzero (str : cstr) : Forall (λ c, c ≠ 0) (chars str).
Proof.
  apply list.Forall_forall. intros c Hc. pose proof (chars_ok str) as Hok. rewrite forallb_forall in Hok.
  apply list_elem_of_In, Hok in Hc. lia.
Qed.

Lemma intern_blocks t str s :
  (Interns.initialized t = true → table_wf t) → zlen (chars str) < 2 ^ 63 →
  wp (ak_intern t (Some (chars str ++ [0]))) (λ '(_, t') s', (Interns.initialized t' = true → table_wf t')
    ∧ m_live s' - m_live s = table_blocks t' - table_blocks t ∧ (m_fails s <= m_fails s')%nat) s.
Proof.
  intros Ht Hlen. unfold ak_intern. apply wp_bind, wp_lift. rewrite (strlen_ok _ (chars str)).
  3: apply chars_nonzero.
  2:{ rewrite drop_ge by (rewrite length_app; simpl; lia). done. }
  cbv beta iota delta [wpo]. destruct (Interns.initialized t) eqn:Hi.
  - specialize (Ht eq_refl). eapply wp_mono; [apply ak_intern_n_ok|].
    { done. } { rewrite zlen_app. pose proof (zlen_nonneg (chars str)). change (zlen [0]) with 1. lia. } { lia. }
    intros [r t'] s' (Hwf & _ & Hr). simpl in Hwf, Hr. split; [done|]. unfold table_blocks. rewrite Hi, (tw_init _ Hwf).
    destruct r as [q|].
    + destruct Hr as [_ [(_ & -> & ->)|(_ & [HL HF] & Hz)]]; simpl in *; lia.
    + destruct Hr as (_ & -> & [HL HF]). simpl in *. lia.
  - rewrite uninitialized_null by done. apply wp_ret. split_and!; [congruence|lia|done].
Qed.

Lemma blocks_shutdown k l : kernel_blocks (with_shutdown k l) - kernel_blocks k = owned l - owned (shutdown_lambdas k).
Proof. unfold kernel_blocks. cbn [k_sources k_signals ak24_kernel_lock_file_path shutdown_lambdas with_shutdown]. lia. Qed.

Lemma blocks_signals k w : kernel_blocks (with_signals k w) - kernel_blocks k = sig_blocks w - sig_blocks (k_signals k).
Proof. unfold kernel_blocks. cbn [k_sources k_signals ak24_kernel_lock_file_path shutdown_lambdas with_signals]. lia. Qed.

Lemma blocks_sources k w : kernel_blocks (with_sources k w) - kernel_blocks k = table_blocks (w_table w) - table_blocks (w_table (k_sources k)).
Proof. unfold kernel_blocks. cbn [k_sources k_signals ak24_kernel_lock_file_path shutdown_lambdas with_sources]. lia. Qed.

Lemma kernel_call_ok base T hs c k s :
  kernel_ok base T hs k → calls_ok (lambdas (kernel_lams k)) [c] → Z.of_nat (size T) < 2 ^ 31 → zlen hs < 2 ^ 31 →
  wp (run_kernel_call c k) (λ k' s', ∃ base' T' hs', kernel_ok base' T' hs' k' ∧ (size T' <= S (size T))%nat ∧ zlen hs' <= zlen hs + 1
    ∧ k_os k' = k_os k ∧ ak24_kernel_lock_file_path k' = ak24_kernel_lock_file_path k ∧ kernel_start_time k' = kernel_start_time k
    ∧ lambdas (kernel_lams k') = lambdas (kernel_lams k)
    ∧ m_live s' - m_live s = kernel_blocks k' - kernel_blocks k ∧ (m_fails s <= m_fails s')%nat
    ∧ (∃ new, hs' = hs ++ new ∧ new `sublist_of` shutdown_calls [c])
    ∧ (m_fails s' = m_fails s → base' = base ∧ hs' = hs ++ shutdown_calls [c] ∧ T' = spec_calls (signal_calls [c]) T
         ∧ trace (kernel_lams k') = trace (kernel_lams k) ++ calls_events (lambdas (kernel_lams k)) (signal_calls [c]) T)) s.
Proof.
  intros [Htab Hpaths Hon Hwf Hlive Hsig] Hok HT Hhs. apply Forall_cons_1 in Hok as [Hok _].
  destruct c as [h|c|str]; cbn [run_kernel_call].
  - unfold ak_on_shutdown. rewrite Hon. cbv beta iota delta [negb]. apply wp_bind. eapply wp_mono; [apply (list_push_ok _ hs); [done|by rewrite (lw_count _ _ Hwf)]|].
    intros [rc l] s' Hr. apply wp_ret. unfold inserted in Hr. cbn [fst snd] in Hr. destruct Hr as [(_ & Hys & [HL HF])|(_ & Hys & [HL HF])].
    + exists base, T, (hs ++ [h]). split_and!; try done; try lia.
      * split; try done. apply Forall_app. split; [done|]. by constructor.
      * rewrite zlen_app. change (zlen [h]) with 1. lia.
      * rewrite blocks_shutdown. lia.
      * by exists [h].
      * intros _. by rewrite app_nil_r.
    + exists base, T, hs. split_and!; try done; try lia; [rewrite blocks_shutdown; lia|]. exists []. rewrite app_nil_r. split; [done|apply sublist_nil_l].
  - apply wp_bind. eapply wp_mono; [by apply (run_call_ok base T)|]. intros w s' (base' & T' & Hsig' & Hs & HL & Hacc & HF & Hno).
    apply wp_ret. exists base', T', hs. split_and!; try done; try lia.
    + split; try done. simpl. by rewrite HL.
    + rewrite blocks_signals. exact Hacc.
    + exists []. rewrite app_nil_r. by split.
    + intros HF'. destruct (Hno HF') as (-> & -> & Htr). rewrite app_nil_r. split_and!; try done. simpl. by rewrite app_nil_r.
  - apply wp_bind. eapply wp_mono; [by apply intern_blocks|]. intros [r t] s' (Hwf' & HL & HF). apply wp_ret. exists base, T, hs.
    split_and!; try done; try lia; [rewrite blocks_sources; exact HL| |].
    + exists []. rewrite app_nil_r. by split.
    + intros _. by rewrite !app_nil_r.
Qed.

Lemma spec_calls_app cs ds T : spec_calls (cs ++ ds) T = spec_calls ds (spec_calls cs T).
Proof. apply foldl_app. Qed.

Lemma calls_events_app lams cs ds T :
  calls_events lams (cs ++ ds) T = calls_events lams cs T ++ calls_events lams ds (spec_calls cs T).
Proof. revert T. induction cs as [|c cs IH]; intros T; [done|]. simpl. by rewrite IH, <- app_assoc. Qed.

Lemma run_kernel_ok base T hs cs k s :
  kernel_ok base T hs k → calls_ok (lambdas (kernel_lams k)) cs → Z.of_nat (size T) + zlen cs < 2 ^ 31 → zlen hs + zlen cs < 2 ^ 31 →
  wp (run_kernel cs k) (λ k' s', ∃ base' T' hs', kernel_ok base' T' hs' k'
    ∧ k_os k' = k_os k ∧ ak24_kernel_lock_file_path k' = ak24_kernel_lock_file_path k ∧ kernel_start_time k' = kernel_start_time k
    ∧ lambdas (kernel_lams k') = lambdas (kernel_lams k)
    ∧ m_live s' - m_live s = kernel_blocks k' - kernel_blocks k ∧ (m_fails s <= m_fails s')%nat
    ∧ (∃ new, hs' = hs ++ new ∧ new `sublist_of` shutdown_calls cs)
    ∧ (m_fails s' = m_fails s → base' = base ∧ hs' = hs ++ shutdown_calls cs ∧ T' = spec_calls (signal_calls cs) T
         ∧ trace (kernel_lams k') = trace (kernel_lams k) ++ calls_events (lambdas (kernel_lams k)) (signal_calls cs) T)) s.
Proof.
  revert base T hs k s. induction cs as [|c cs IH]; intros base T hs k s Hok Hcalls HT Hhs.
  { apply wp_ret. exists base, T, hs. split_and!; try done; [lia| |].
    - exists []. rewrite app_nil_r. by split.
    - intros _. by rewrite !app_nil_r. }
  rewrite zlen_cons in HT, Hhs. pose proof (zlen_nonneg cs). apply Forall_cons_1 in Hcalls as [Hc Hcs].
  change (run_kernel (c :: cs) k) with (k1 ← run_kernel_call c k; run_kernel cs k1). apply wp_bind.
  eapply wp_mono; [apply (kernel_call_ok base T hs); [done|by constructor|lia|lia]|].
  intros k1 s1 (base1 & T1 & hs1 & Hok1 & Hs1 & Hz1 & HO1 & HP1 & HN1 & HL1 & HB1 & HF1 & (new1 & E1 & Hn1) & Hno1).
  eapply wp_mono; [apply (IH base1 T1 hs1); [done|by rewrite HL1|lia|lia]|].
  intros k2 s2 (base2 & T2 & hs2 & Hok2 & HO2 & HP2 & HN2 & HL2 & HB2 & HF2 & (new2 & E2 & Hn2) & Hno2). exists base2, T2, hs2.
  assert (shutdown_calls (c :: cs) = shutdown_calls [c] ++ shutdown_calls cs) as Es by apply (omap_app _ [c]).
  assert (signal_calls (c :: cs) = signal_calls [c] ++ signal_calls cs) as Eg by apply (omap_app _ [c]).
  split_and!; [done|congruence..|lia|lia| |].
  - exists (new1 ++ new2). rewrite Es. subst. split; [by rewrite app_assoc|by apply sublist_app].
  - intros HF. destruct Hno1 as (-> & -> & -> & Htr1); [lia|]. destruct Hno2 as (-> & -> & -> & Htr2); [lia|].
    rewrite Es, Eg, spec_calls_app, calls_events_app. split_and!; [done|by rewrite app_assoc|done|].
    rewrite Htr2, Htr1, HL1. by rewrite <- app_assoc.
Qed.

(** ** Start and end *)

Hypothesis Hp : p ≠ Windows.
Hypothesis Henv : short_env env.

Lemma intern_init_ok t s :
  Interns.initialized t = false →
  wp (ak_intern_init t) (λ t' s', (Interns.initialized t' = true → table_wf t') ∧ m_live s' - m_live s = table_blocks t'
    ∧ (m_fails s <= m_fails s')%nat) s.
Proof.
  intros Hi. unfold ak_intern_init. rewrite Hi. apply wp_bind, wp_alloc_obj. intros [|] s1 [HL HF]; cbv beta iota delta [negb]; apply wp_ret.
  - destruct (table_wf_empty (next_str t)) as [Hwf He]. split; [done|]. unfold table_blocks. rewrite He. simpl. change (zlen []) with 0. lia.
  - split; [done|]. change (table_blocks _) with 0. lia.

Qed.

Lemma kernel_init_ok app_id now k s :
  kernel_off k → app_id ≠ [] → readable (k_os k) →
  wp (ak_kernel_init p env (Some app_id) now k) (λ '(e, k1) s1, (m_fails s <= m_fails s1)%nat ∧
    match e with
    | Some e => e ≠ Cannot_lock → rtc mkdir_step (k_os k) (k_os k1)
    | None => kernel_ok (disposition (sig_sys (k_signals k))) ∅ [] k1 ∧ kernel_lams k1 = kernel_lams k ∧ kernel_start_time k1 = now
        ∧ sig_entries (k_signals k1) = sig_entries (k_signals k) ∧ passed (k_signals k1) = passed (k_signals k)
        ∧ m_live s1 - m_live s = kernel_blocks k1 - (Z.of_nat (size (sig_entries (k_signals k))) + passed (k_signals k))
        ∧ (m_fails s1 = m_fails s → init_spec p env app_id (k_os k) = Ret (inr (ak24_kernel_lock_file_path k1), k_os k1))
    end) s.
Proof.
  intros [Htab Hpaths Hlock [Hon Hown] Hsig] Hne Hr. unfold ak_kernel_init. apply wp_bind.
  eapply wp_mono; [by apply intern_init_ok|]. intros t s1 (Hwf & HL1 & HF1). apply wp_bind.
  assert (ak_filepath_init p (k_paths k) = ready p) as -> by (unfold ready, ak_filepath_init; rewrite Hpaths; by destruct p).
  eapply wp_mono; [by apply runtime_init_ok|]. intros [r o] s2 (HF2 & HL2 & Hspec & Hm). destruct r as [e|f]; apply wp_ret.
  { split; [lia|]. intros He. by apply (Hm e). }
  split; [lia|]. pose proof (init_ok (k_signals k) Hsig) as Hok. destruct Hsig as [_ _ Hso _].
  assert (w_table (ak_sourceloc_init (with_intern_table (k_sources k) t)) = t) as Ht.
  { unfold ak_sourceloc_init. by destruct (sl_initialized _). }
  split_and!; try done.
  - split; try done; [cbn [k_sources]; by rewrite Ht|]. simpl. split; [by left|done|done|by exists []|done].
  - unfold kernel_blocks. cbn [k_sources ak24_kernel_lock_file_path shutdown_lambdas k_signals]. rewrite Ht. unfold sig_blocks.
    cbn [ak_signal_handlers_init with_initialized with_table signal_handlers sig_entries passed]. change (owned (list_init sizeof_pointer)) with 0.
    change (owned (list_init sizeof_pointer)) with 0. unfold lock_blocks. destruct f; lia.
  - intros HF. apply Hspec. lia.
Qed.

Lemma intern_shutdown_ok t s :
  (Interns.initialized t = true → table_wf t) →
  wp (ak_intern_shutdown t) (λ t' s', Interns.initialized t' = false ∧ balance (- table_blocks t) false s s') s.
Proof.
  intros Hwf. unfold ak_intern_shutdown, table_blocks. destruct (Interns.initialized t) eqn:Hi; cbv beta iota delta [negb].
  - apply wp_bind. eapply wp_mono; [apply free_entries_ok|]. intros [] s1 [HL1 HF1]. apply wp_bind, wp_free_obj. intros s2 HL2 HF2.
    apply wp_ret. split; [done|]. unfold entries in *. split; simpl in *; lia.
  - apply wp_ret. split; [done|]. split; simpl; lia.
Qed.

Lemma cleanup_any f o s :
  wp (cleanup_lock_file p (ready p) env f o) (λ o' s', m_live s' - m_live s = - lock_blocks f ∧ (m_fails s <= m_fails s')%nat
    ∧ ∀ g, f = Some g → m_fails s' = m_fails s → o' = match data_path p env with
         | Some d => if starts_with g (runtime_path p d) then os_remove g o else o
         | None => o
         end) s.
Proof.
  destruct f as [f|]; [|apply wp_ret; split_and!; [simpl; lia|done|done]].
  eapply wp_mono; [by apply cleanup_ok|]. intros o' s' (HL & HF & _ & Ho). split_and!; [simpl; lia|done|]. intros g [= <-] E. by apply Ho.
Qed.

Lemma kernel_deinit_ok base T hs info k s :
  kernel_ok base T hs k →
  wp (ak_kernel_deinit p env info k) (λ k' s', kernel_off k' ∧ (m_fails s <= m_fails s')%nat
    ∧ m_live s' - m_live s = (Z.of_nat (size (sig_entries (k_signals k'))) + passed (k_signals k')) - kernel_blocks k
    ∧ (∀ n, disposition (sig_sys (k_signals k')) n = base n)
    ∧ shutdown_info k' = Some (mk_shutdown_info (kernel_start_time k))
    ∧ trace (kernel_lams k') = trace (kernel_lams k) ++ shutdown_events (lambdas (kernel_lams k)) info hs
    ∧ ∀ f, ak24_kernel_lock_file_path k = Some f → m_fails s' = m_fails s → k_os k' = match data_path p env with
         | Some d => if starts_with f (runtime_path p d) then os_remove f (k_os k) else k_os k
         | None => k_os k
         end) s.
Proof.
  intros Hok. pose proof Hok as [Htab Hpaths _ _ _ _]. unfold ak_kernel_deinit. apply wp_bind. eapply wp_mono; [by apply (run_shutdown_ok base T hs)|].
  intros k1 s1 (Esrc & Epaths & Eos & Elock & Hon1 & Hown1 & Hinfo1 & Hsig1 & Hb1 & He1 & Hp1 & Htr1 & [HL1 HF1]). simpl in HF1.
  apply wp_bind. rewrite Epaths, Eos, Elock, Hpaths. eapply wp_mono; [apply cleanup_any|]. intros o s2 (HL2 & HF2 & Ho).
  apply wp_bind. eapply wp_mono; [by apply (deinit_ok base T)|]. intros w s3 (Hoff & Hd & Hlams & Hpass & Hent & Hacc & HF3).
  assert (w_table (ak_sourceloc_shutdown (k_sources k1)) = w_table (k_sources k)) as Ht.
  { rewrite Esrc. unfold ak_sourceloc_shutdown. by destruct (negb _). }
  apply wp_bind. rewrite Ht. eapply wp_mono; [by apply intern_shutdown_ok|]. intros t s4 [Hi [HL4 HF4]]. simpl in HF4. apply wp_ret.
  split_and!; try done.
  - lia.
  - simpl. unfold kernel_blocks. unfold accounted, sig_blocks in *. rewrite (sf_list _ Hoff), <- Hpass, <- Hent in *. lia.
  - simpl. unfold kernel_lams in *. simpl. by rewrite Hlams.
  - intros f Ef HF. simpl. apply Ho; [done|]. lia.
Qed.

(** * The arguments of the program *)

Lemma args_ok {A} argc (argv : list A) s :
  0 <= argc <= zlen argv → argc < 2 ^ 31 →
  wp (ak_args_to_list argc argv) (λ l s', ∃ xs, list_wf l xs ∧ m_live s' - m_live s = owned l ∧ (m_fails s <= m_fails s')%nat
    ∧ xs `sublist_of` take (Z.to_nat argc) argv ∧ (m_fails s' = m_fails s → xs = take (Z.to_nat argc) argv)) s.
Proof.
  intros Hargc Hsmall. unfold ak_args_to_list.
  apply (loopM_wp (λ '(l, i) s1, 0 <= i <= argc ∧ ∃ xs, list_wf l xs ∧ m_live s1 - m_live s = owned l ∧ (m_fails s <= m_fails s1)%nat
    ∧ xs `sublist_of` take (Z.to_nat i) argv ∧ (m_fails s1 = m_fails s → xs = take (Z.to_nat i) argv))
    (λ '(_, i), Z.to_nat (argc - i))); [|lia|].
  { split; [lia|]. exists []. split_and!; try done; [|change (owned (list_init sizeof_pointer)) with 0; lia].
    split; [by left|done|done|by exists []|done]. }
  intros [l i] s1 (Hi & xs & Hwf & HL & HF & Hsub & Hall). destruct (Z.ltb_spec i argc) as [Hlt|Hge].
  2:{ apply wp_ret. exists xs. assert (i = argc) as -> by lia. by split_and!. }
  apply wp_bind, wp_lift. apply rd_wpo; [lia|]. intros x Hx. pose proof (list_wf_count _ _ Hwf) as Hc.
  assert (take (Z.to_nat (i + 1)) argv = take (Z.to_nat i) argv ++ [x]) as Htake.
  { replace (Z.to_nat (i + 1)) with (S (Z.to_nat i)) by lia. by apply take_S_r. }
  assert (count l <= i) as Hcount.
  { rewrite (lw_count _ _ Hwf). apply sublist_length in Hsub. rewrite length_take in Hsub. unfold zlen. lia. }
  apply wp_bind. eapply wp_mono; [apply (list_push_ok _ xs); [done|lia]|]. intros [rc l'] s2 Hr. apply wp_ret.
  unfold inserted in Hr. cbn [fst snd] in Hr. rewrite Htake. destruct Hr as [(_ & Hwf' & [HL' HF'])|(_ & Hwf' & [HL' HF'])]; simpl in HF'.
  - split; [|lia]. split; [lia|]. exists (xs ++ [x]). split_and!; [done|lia|lia|by apply sublist_app|]. intros E. by rewrite Hall by lia.
  - split; [|lia]. split; [lia|]. exists xs. split_and!; [done|lia|lia|by apply sublist_inserts_r|lia].
Qed.

End life.

(** * Properties *)

(** C26: From [ak_kernel_init] to [ak_kernel_deinit].  Whatever is asked for in between and
    whatever allocations fail, nothing is undefined, no call waits for ever, and in the
    end the kernel is as before the start, with every block given back but those that the
    signal handlers lose.  The shutdown lambdas that were accepted are invoked once each,
    in the order they were given.  When no allocation fails these are all of them, the
    lock file that the start made is removed, and each signal has the action it had
    before.  A start that leaves the process has made nothing but directories, unless the
    lock file could not be opened. *)
Theorem ak_kernel_lifecycle_spec `{Allocator} `{OSLaws} `{SignalLaws} p env app_id now info cs k s :
  p ≠ Windows → short_env env → app_id ≠ [] → readable (k_os k) → kernel_off k →
  calls_ok (lambdas (kernel_lams k)) cs → zlen cs < 2 ^ 31 →
  wp (ak_kernel_init p env (Some app_id) now k) (λ '(e, k1) s1,
    match e with
    | Some e => e ≠ Cannot_lock → rtc mkdir_step (k_os k) (k_os k1)
    | None => wp (run_kernel cs k1) (λ k2 s2, wp (ak_kernel_deinit p env info k2) (λ k3 s3,
        kernel_off k3 ∧ shutdown_info k3 = Some (mk_shutdown_info now)
        ∧ m_live s3 - m_live s = (Z.of_nat (size (sig_entries (k_signals k3))) - Z.of_nat (size (sig_entries (k_signals k))))
            + (passed (k_signals k3) - passed (k_signals k))
        ∧ (∃ hs, hs `sublist_of` shutdown_calls cs
            ∧ trace (kernel_lams k3) = trace (kernel_lams k2) ++ shutdown_events (lambdas (kernel_lams k)) info hs)
        ∧ (m_fails s3 = m_fails s →
            trace (kernel_lams k3) = trace (kernel_lams k) ++ calls_events (lambdas (kernel_lams k)) (signal_calls cs) ∅
              ++ shutdown_events (lambdas (kernel_lams k)) info (shutdown_calls cs)
            ∧ (∀ n, disposition (sig_sys (k_signals k3)) n = disposition (sig_sys (k_signals k)) n)
            ∧ ∃ f o, init_spec p env app_id (k_os k) = Ret (inr (Some f), o) ∧ k_os k3 = os_remove f o)) s2) s1
    end) s.
Proof.
  intros Hp Henv Hne Hr Hoff Hcs Hlen. eapply wp_mono; [by apply kernel_init_ok|]. intros [[e|] k1] s1 [HF1 Hk1]; [done|].
  destruct Hk1 as (Hok1 & HL1 & Hnow & Hent & Hpass & HB1 & Hspec).
  eapply wp_mono; [apply (run_kernel_ok p _ ∅ [] cs k1 s1 Hok1); [by rewrite HL1|by rewrite map_size_empty|done]|].
  intros k2 s2 (base & T & hs & Hok2 & HO2 & HP2 & HN2 & HL2 & HB2 & HF2 & (new & -> & Hnew) & Hno2).
  eapply wp_mono; [exact (kernel_deinit_ok p env Hp Henv base T _ info k2 s2 Hok2)|]. intros k3 s3 (Hoff3 & HF3 & HB3 & Hd3 & Hi3 & Htr3 & Hos3).
  rewrite HL2, HL1 in Htr3. rewrite HN2, Hnow in Hi3. split_and!; [done|done|lia|by exists new|]. intros HF.
  destruct Hno2 as (-> & [= Hhs] & -> & Htr2); [lia|]. subst new. rewrite HL1 in Htr2. split_and!.
  - by rewrite Htr3, Htr2, <- app_assoc.
  - done.
  - specialize (Hspec ltac:(lia)). destruct (init_spec_taken p env app_id _ _ _ Hspec) as (d & Hd & Hf & Hin).
    exists (lock_path p d app_id), (k_os k1). rewrite Hspec, Hf. split; [done|]. rewrite HP2, HO2, Hd in Hos3.
    specialize (Hos3 _ Hf ltac:(lia)). by rewrite Hin in Hos3.
Qed.

(** * Witness *)

Section kernel_witness.
#[local] Existing Instance always_alloc.
#[local] Existing Instance toy_os.
#[local] Existing Instance toy_os_laws.
#[local] Existing Instance toy_signals.
#[local] Existing Instance toy_signal_laws.

Definition w_kernel : kernel :=
  mk_kernel (mk_world g_intern_table (mk_system 0 0 false) ∅ 1) g_filepath_state None no_files (list_init sizeof_pointer) false 0 None
    w_signals.

Definition w_kernel_calls : list kernel_call :=
  [K_shutdown 1; K_intern wa; K_signal (Call_register 2 2); K_signal (Call_signal 2); K_shutdown 2].

Lemma w_kernel_off : kernel_off w_kernel.
Proof. split; try done. apply w_signals_off. Qed.

Lemma ak_kernel_lifecycle_spec_witness :
  wp (ak_kernel_init Linux w_env (Some w_id) 1000 w_kernel) (λ '(e, k1) s1, e = None ∧ wp (run_kernel w_kernel_calls k1) (λ k2 s2,
    wp (ak_kernel_deinit Linux w_env 99 k2) (λ k3 s3, trace (kernel_lams k3) = [Invoked 7 0 2; Invoked 5 6 99; Invoked 7 0 99]
      ∧ k_os k3 = no_files ∧ m_live s3 = 2 ∧ shutdown_info k3 = Some (mk_shutdown_info 1000)) s2) s1) mem0.
Proof.
  assert (calls_ok (lambdas (kernel_lams w_kernel)) w_kernel_calls) as Hcs.
  { repeat constructor; try (by eexists); done. }
  pose proof (ak_kernel_lifecycle_spec Linux w_env w_id 1000 99 w_kernel_calls w_kernel mem0 ltac:(done) w_short_env ltac:(done)
    ltac:(intros f file; done) w_kernel_off Hcs eq_refl) as Hw.
  assert (match ak_kernel_init Linux w_env (Some w_id) 1000 w_kernel mem0 with
          | Ret (e, k1, s1) => e = None ∧ match run_kernel w_kernel_calls k1 s1 with
              | Ret (k2, s2) => match ak_kernel_deinit Linux w_env 99 k2 s2 with
                  | Ret (k3, s3) => m_fails s3 = O ∧ m_live s3 = 2 ∧ k_os k3 = no_files
                  | _ => False end
              | _ => False end
          | _ => False
          end) as Hrun by (vm_compute; by split_and!).
  destruct (ak_kernel_init Linux w_env (Some w_id) 1000 w_kernel mem0) as [[[e k1] s1]| |] eqn:E1; [|destruct Hrun..].
  refine (proj2 (wp_run _ _ _ _ _ E1) _). pose proof (proj1 (wp_run _ _ _ _ _ E1) Hw) as Hw1. clear Hw. cbv beta iota in Hw1 |- *.
  destruct Hrun as [-> Hrun]. cbv beta iota in Hw1. split; [reflexivity|].
  destruct (run_kernel w_kernel_calls k1 s1) as [[k2 s2]| |] eqn:E2; [|destruct Hrun..].
  refine (proj2 (wp_run _ _ _ _ _ E2) _). pose proof (proj1 (wp_run _ _ _ _ _ E2) Hw1) as Hw2. clear Hw1. cbv beta iota in Hw2 |- *.
  destruct (ak_kernel_deinit Linux w_env 99 k2 s2) as [[k3 s3]| |] eqn:E3; [|destruct Hrun..].
  refine (proj2 (wp_run _ _ _ _ _ E3) _). pose proof (proj1 (wp_run _ _ _ _ _ E3) Hw2) as Hw3. clear Hw2. cbv beta iota in Hw3 |- *.
  destruct Hrun as (HF & HL & Ho), Hw3 as (_ & Hi & _ & _ & Hall). destruct (Hall HF) as [Ht _].
  split; [exact Ht|]. split; [exact Ho|]. split; [exact HL|exact Hi].
Defined.
End kernel_witness.
