(* ===== verification/Logs.v ===== *)
(** Logging: [kernel/log/src/log.c].

    What is written and called is a list of events.  A string is the list of its
    characters.  The message is what [vfprintf] makes of a format and its arguments; it
    is made again for every target, from the same arguments.  What [strftime] makes of
    a time is a parameter.  A callback is a function of the program: it is called with
    the event, and calls nothing of this module. *)

From Stdlib Require String.
From S2P Require Import Prelude Filepath Runtime.
Import Stdlib.Strings.String.StringSyntax.
#[local] Delimit Scope string_scope with str.

(** * Data *)

(** [tm]: a time of day; [hms] and [ymd] are its texts in the formats of the console
    and of files. *)
Class Clock := {
  tm : Type;
  hms : tm → list Z;
  ymd : tm → list Z;
}.

Definition AK24_LOG_MAX_CALLBACKS : Z := 32.

(** Levels; C lets a program pass any number. *)
Definition AK24_LOG_LEVEL_TRACE : Z := 0.
Definition AK24_LOG_LEVEL_DEBUG : Z := 1.
Definition AK24_LOG_LEVEL_INFO : Z := 2.
Definition AK24_LOG_LEVEL_WARN : Z := 3.
Definition AK24_LOG_LEVEL_ERROR : Z := 4.
Definition AK24_LOG_LEVEL_FATAL : Z := 5.

Inductive ak_log_path_format_t : Type :=
| AK24_LOG_PATH_FULL
| AK24_LOG_PATH_ABBREV.

(** A function that handles an event: the one for files, or one of the program. *)
Inductive ak_log_fn_t : Type :=
| File_callback
| User_callback (f : Z).

Record Callback := mk_callback {
  cb_fn : option ak_log_fn_t;
  cb_udata : Z;
  cb_level : Z;
}.

Record log_state := mk_log {
  L_udata : Z;
  L_lock : option Z;
  L_level : Z;
  quiet : bool;
  use_color : bool;
  path_format : ak_log_path_format_t;
  callbacks : list Callback;
}.

Definition level_strings : list (list Z) :=
  bytes_of <$> ["TRACE"; "DEBUG"; "INFO"; "WARN"; "ERROR"; "FATAL"]%str.

Definition ESC : Z := 0x1B.

Definition level_colors : list (list Z) :=
  (λ s, ESC :: bytes_of s) <$> ["[94m"; "[36m"; "[32m"; "[33m"; "[31m"; "[35m"]%str.

(** The static variable a program starts with. *)
Definition L0 : log_state :=
  mk_log 0 None 0 false false AK24_LOG_PATH_FULL (replicate 32 (mk_callback None 0 0)).

Section log.
Context `{Clock}.

Record ak_log_event_t := mk_log_event {
  ev_message : list Z;
  ev_file : list Z;
  ev_time : option tm;
  ev_udata : Z;
  ev_line : Z;
  ev_level : Z;
}.

(** What happens: the lock function is called; a line is written to a stream; a function
    of the program is called. *)
Inductive log_event : Type :=
| Locked (fn : Z) (lock : bool) (udata : Z)
| Written (stream : Z) (text : list Z)
| Called (fn : Z) (ev : ak_log_event_t).

(** * Operations *)

Fixpoint strrchr (s : list Z) (c : Z) : option (list Z) :=
  match s with
  | [] => None
  | x :: s' => match strrchr s' c with
               | Some found => Some found
               | None => if x =? c then Some s else None
               end
  end.

Definition SLASH : Z := 0x2F.

Definition format_file_path (L : log_state) (file : list Z) : list Z :=
  match path_format L with
  | AK24_LOG_PATH_ABBREV =>
      match strrchr file SLASH with
      | Some last_slash => drop 1 last_slash
      | None => file
      end
  | AK24_LOG_PATH_FULL => file
  end.

(** [%-5s] *)
Definition pad5 (s : list Z) : list Z := s ++ replicate (5 - length s) 0x20.

Definition SPACE : list Z := [0x20].

(** [file_display:line:] *)
Definition place (L : log_state) (ev : ak_log_event_t) : list Z :=
  format_file_path L (ev_file ev) ++ [0x3A] ++ decimal (ev_line ev) ++ [0x3A].

(** The time; a null pointer is not followed. *)
Definition time_text (f : tm → list Z) (ev : ak_log_event_t) : outcome (list Z) :=
  match ev_time ev with
  | Some t => Ret (f t)
  | None => Undef
  end.

Definition stdout_callback (L : log_state) (ev : ak_log_event_t) : outcome log_event :=
  buf ← time_text hms ev;
  head ← (if use_color L then
            color ← rd level_colors (ev_level ev);
            level ← rd level_strings (ev_level ev);
            Ret (buf ++ SPACE ++ color ++ pad5 level ++ (ESC :: bytes_of "[0m "%str) ++ (ESC :: bytes_of "[90m"%str) ++ place L ev
                   ++ (ESC :: bytes_of "[0m "%str))
          else
            level ← rd level_strings (ev_level ev);
            Ret (buf ++ SPACE ++ pad5 level ++ SPACE ++ place L ev ++ SPACE));
  Ret (Written (ev_udata ev) (head ++ ev_message ev ++ [NEWLINE])).

Definition file_callback (L : log_state) (ev : ak_log_event_t) : outcome log_event :=
  buf ← time_text ymd ev;
  level ← rd level_strings (ev_level ev);
  Ret (Written (ev_udata ev) (buf ++ SPACE ++ pad5 level ++ SPACE ++ place L ev ++ SPACE ++ ev_message ev ++ [NEWLINE])).

Definition lock (L : log_state) : list log_event :=
  match L_lock L with
  | Some fn => [Locked fn true (L_udata L)]
  | None => []
  end.

Definition unlock (L : log_state) : list log_event :=
  match L_lock L with
  | Some fn => [Locked fn false (L_udata L)]
  | None => []
  end.

Definition ak_log_level_string (level : Z) : outcome (list Z) := rd level_strings level.

Definition ak_log_set_lock (fn : option Z) (udata : Z) (L : log_state) : log_state :=
  mk_log udata fn (L_level L) (quiet L) (use_color L) (path_format L) (callbacks L).

Definition ak_log_set_level (level : Z) (L : log_state) : log_state :=
  mk_log (L_udata L) (L_lock L) level (quiet L) (use_color L) (path_format L) (callbacks L).

Definition ak_log_set_quiet (enable : bool) (L : log_state) : log_state :=
  mk_log (L_udata L) (L_lock L) (L_level L) enable (use_color L) (path_format L) (callbacks L).

Definition ak_log_set_color (enable : bool) (L : log_state) : log_state :=
  mk_log (L_udata L) (L_lock L) (L_level L) (quiet L) enable (path_format L) (callbacks L).

Definition ak_log_set_path_format (format : ak_log_path_format_t) (L : log_state) : log_state :=
  mk_log (L_udata L) (L_lock L) (L_level L) (quiet L) (use_color L) format (callbacks L).

Definition ak_log_add_callback (fn : option ak_log_fn_t) (udata level : Z) (L : log_state) : outcome (Z * log_state) :=
  loop 33 (λ i,
    if i <? AK24_LOG_MAX_CALLBACKS then
      cb ← rd (callbacks L) i;
      match cb_fn cb with
      | Some _ => Ret (inl (i + 1))
      | None =>
          cbs ← wr (callbacks L) i (mk_callback fn udata level);
          Ret (inr (0, mk_log (L_udata L) (L_lock L) (L_level L) (quiet L) (use_color L) (path_format L) cbs))
      end
    else Ret (inr (-1, L))) 0.

Definition ak_log_add_fp (fp level : Z) (L : log_state) : outcome (Z * log_state) :=
  ak_log_add_callback (Some File_callback) fp level L.

(** [now]: the answer of [localtime], which is asked once. *)
Definition init_event (now : tm) (ev : ak_log_event_t) (udata : Z) : ak_log_event_t :=
  mk_log_event (ev_message ev) (ev_file ev) (Some (match ev_time ev with Some t => t | None => now end)) udata (ev_line ev) (ev_level ev).

Definition call_back (L : log_state) (fn : ak_log_fn_t) (ev : ak_log_event_t) : outcome log_event :=
  match fn with
  | File_callback => file_callback L ev
  | User_callback f => Ret (Called f ev)
  end.

(** [stderr]: the console stream. *)
Definition ak_log_log (level : Z) (file : list Z) (line : Z) (message : list Z) (stderr : Z) (now : tm) (L : log_state)
    : outcome (list log_event) :=
  let ev := mk_log_event message file None 0 line level in
  '(ev, console) ← (if negb (quiet L) && (L_level L <=? level) then
                      let ev := init_event now ev stderr in e ← stdout_callback L ev; Ret (ev, [e])
                    else Ret (ev, []));
  events ← loop 33 (λ '(i, ev, events),
    if i <? AK24_LOG_MAX_CALLBACKS then
      cb ← rd (callbacks L) i;
      match cb_fn cb with
      | None => Ret (inr events)
      | Some fn =>
          if cb_level cb <=? level then
            let ev := init_event now ev (cb_udata cb) in
            e ← call_back L fn ev;
            Ret (inl (i + 1, ev, events ++ [e]))
          else Ret (inl (i + 1, ev, events))
      end
    else Ret (inr events)) (0, ev, lock L ++ console);
  Ret (events ++ unlock L).
End log.

(** * Histories *)

Inductive log_call : Type :=
| Set_lock (fn : option Z) (udata : Z)
| Set_level (level : Z)
| Set_quiet (enable : bool)
| Set_color (enable : bool)
| Set_path_format (format : ak_log_path_format_t)
| Add_callback (fn : option ak_log_fn_t) (udata level : Z)
| Add_fp (fp level : Z).

Definition run_log_call (c : log_call) (L : log_state) : outcome (list Z * log_state) :=
  match c with
  | Set_lock fn udata => Ret ([], ak_log_set_lock fn udata L)
  | Set_level level => Ret ([], ak_log_set_level level L)
  | Set_quiet enable => Ret ([], ak_log_set_quiet enable L)
  | Set_color enable => Ret ([], ak_log_set_color enable L)
  | Set_path_format format => Ret ([], ak_log_set_path_format format L)
  | Add_callback fn udata level => '(rc, L) ← ak_log_add_callback fn udata level L; Ret ([rc], L)
  | Add_fp fp level => '(rc, L) ← ak_log_add_fp fp level L; Ret ([rc], L)
  end.

(** The answers of the calls that have one, and the state. *)
Fixpoint run_log (cs : list log_call) (L : log_state) : outcome (list Z * log_state) :=
  match cs with
  | [] => Ret ([], L)
  | c :: cs => '(a, L) ← run_log_call c L; '(b, L) ← run_log cs L; Ret (a ++ b, L)
  end.

(** A target of messages. *)
Record target := mk_target {
  t_fn : ak_log_fn_t;
  t_udata : Z;
  t_level : Z;
}.

(** What a call gives to the table, if there is room. *)
Definition added (c : log_call) : option target :=
  match c with
  | Add_callback (Some fn) udata level => Some (mk_target fn udata level)
  | Add_fp fp level => Some (mk_target File_callback fp level)
  | _ => None
  end.

Definition with_callbacks (L : log_state) (cbs : list Callback) : log_state :=
  mk_log (L_udata L) (L_lock L) (L_level L) (quiet L) (use_color L) (path_format L) cbs.

Definition set_by (L : log_state) (c : log_call) : log_state :=
  match c with
  | Set_lock fn udata => ak_log_set_lock fn udata L
  | Set_level level => ak_log_set_level level L
  | Set_quiet enable => ak_log_set_quiet enable L
  | Set_color enable => ak_log_set_color enable L
  | Set_path_format format => ak_log_set_path_format format L
  | _ => L
  end.

(** [n]: how many targets there are. *)
Fixpoint answers_of (n : nat) (cs : list log_call) : list Z :=
  match cs with
  | [] => []
  | c :: cs =>
      let room := if (n <? 32)%nat then 0 else -1 in
      let m := if (n <? 32)%nat then match added c with Some _ => S n | None => n end else n in
      match c with
      | Add_callback _ _ _ | Add_fp _ _ => room :: answers_of m cs
      | _ => answers_of n cs
      end
  end.

Definition slot_of (t : target) : Callback := mk_callback (Some (t_fn t)) (t_udata t) (t_level t).

(** The table holds the targets [ts], in order. *)
Record log_ok (L : log_state) (ts : list target) : Prop := {
  lk_size : length (callbacks L) = 32%nat;
  lk_slots : ∃ free, callbacks L = (slot_of <$> ts) ++ free ∧ Forall (λ cb, cb_fn cb = None) free;
}.

Lemma log_ok_0 : log_ok L0 [].
Proof. split; [done|]. exists (callbacks L0). split; [done|]. repeat constructor. Qed.

Lemma log_ok_room L ts : log_ok L ts → (length ts <= 32)%nat.
Proof. intros [Hs (free & E & _)]. rewrite E, length_app, length_fmap in Hs. lia. Qed.

Lemma slot_read L ts t rest i :
  log_ok L ts → ts = take i ts ++ t :: rest → (i <= length ts)%nat → rd (callbacks L) (Z.of_nat i) = Ret (slot_of t).
Proof.
  intros [_ (free & -> & _)] E Hi. apply rd_lookup; [lia|]. rewrite Nat2Z.id, E, fmap_app, lookup_app_l.
  - rewrite lookup_app_r; rewrite length_fmap, length_take_le by done; [|lia]. by rewrite Nat.sub_diag.
  - rewrite length_app, !length_fmap, length_take_le by done. simpl. lia.
Qed.

Lemma slot_free L ts : log_ok L ts → (length ts < 32)%nat → ∃ cb, rd (callbacks L) (zlen ts) = Ret cb ∧ cb_fn cb = None.
Proof.
  intros [Hs (free & E & Hf)] Hlt. destruct free as [|cb free].
  { rewrite E, app_nil_r, length_fmap in Hs. lia. }
  exists cb. split; [|by apply Forall_inv in Hf]. apply rd_lookup; [unfold zlen; lia|]. unfold zlen. rewrite Nat2Z.id, E, lookup_app_r; rewrite length_fmap; [|lia].
  by rewrite Nat.sub_diag.
Qed.

(** [ak_log_add_callback] takes the first free place. *)
Lemma add_callback_ok L ts fn udata level :
  log_ok L ts →
  ∃ cbs, ak_log_add_callback fn udata level L = Ret (if (length ts <? 32)%nat then 0 else -1, with_callbacks L cbs)
    ∧ log_ok (with_callbacks L cbs)
        (ts ++ (if (length ts <? 32)%nat then match fn with Some f => [mk_target f udata level] | None => [] end else [])).
Proof.
  intros Hok. pose proof (log_ok_room _ _ Hok) as Hroom. unfold ak_log_add_callback.
  match goal with |- context [loop 33 ?f 0] => set (step := f) end.
  assert (∀ i n, loop (S n) step i = r ← step i; match r with inl s => loop n step s | inr v => Ret v end) as HS by done.
  assert (∀ i cb, i < 32 → rd (callbacks L) i = Ret cb → step i = match cb_fn cb with
    | Some _ => Ret (inl (i + 1))
    | None => cbs ← wr (callbacks L) i (mk_callback fn udata level); Ret (inr (0, with_callbacks L cbs)) end) as Hstep.
  { intros i cb Hi E. unfold step. rewrite (proj2 (Z.ltb_lt i AK24_LOG_MAX_CALLBACKS)) by done. by rewrite E. }
  assert (∀ i, 32 <= i → step i = Ret (inr (-1, L))) as Hend.
  { intros i Hi. unfold step. by rewrite (proj2 (Z.ltb_ge i AK24_LOG_MAX_CALLBACKS)). }
  clearbody step.
  assert (∀ n i, (i + n = length ts)%nat → loop (33 - i) step (Z.of_nat i) = loop (33 - length ts) step (zlen ts)) as Hskip.
  { induction n as [|n IH]; intros i Hi; [by replace i with (length ts) by lia|].
    replace (33 - i)%nat with (S (33 - S i)) by lia. destruct (lookup_lt_is_Some_2 ts i) as [t Ht]; [lia|].
    rewrite HS, (Hstep _ (slot_of t)); [|lia|apply (slot_read L ts t (drop (S i) ts)); [done|by rewrite take_drop_middle|lia]].
    cbn [slot_of cb_fn mbind outcome_bind]. replace (Z.of_nat i + 1) with (Z.of_nat (S i)) by lia. change (r ← Ret (inl (Z.of_nat (S i)));
      match r with inl s => loop (33 - S i) step s | inr v => Ret v end) with (loop (33 - S i) step (Z.of_nat (S i))). apply IH. lia. }
  change 33%nat with (33 - 0)%nat. change 0 with (Z.of_nat 0) at 2. rewrite (Hskip (length ts)) by lia.
  destruct (Nat.ltb_spec (length ts) 32) as [Hlt|Hge].
  - destruct (slot_free _ _ Hok Hlt) as (cb & Hrd & Hcb). replace (33 - length ts)%nat with (S (32 - length ts)) by lia.
    rewrite HS, (Hstep _ cb) by (done || unfold zlen; lia). rewrite Hcb.
    destruct Hok as [Hs (free & E & Hf)]. rewrite wr_ok by (unfold zlen; lia). simpl. eexists. split; [done|]. unfold zlen. rewrite Nat2Z.id.
    split; [simpl; by rewrite length_insert|]. destruct free as [|c free]; [rewrite E, app_nil_r, length_fmap in Hs; lia|]. apply Forall_cons_1 in Hf as [_ Hf].
    simpl. rewrite E. rewrite insert_app_r_alt by by rewrite length_fmap. rewrite length_fmap, Nat.sub_diag. simpl.
    destruct fn as [f|]; [exists free|exists (mk_callback None udata level :: free)]; rewrite ?fmap_app, ?app_nil_r, <- ?app_assoc; (split; [done|]); [done|by constructor].
  - replace (33 - length ts)%nat with 1%nat by lia. rewrite HS, Hend by (unfold zlen; lia). simpl. exists (callbacks L). rewrite app_nil_r. by destruct L.
Qed.

(** * Messages *)

Section messages.
Context `{Clock}.

(** The event a target with [udata] sees. *)
Definition event_for (level : Z) (file : list Z) (line : Z) (message : list Z) (now : tm) (udata : Z) : ak_log_event_t :=
  mk_log_event message file (Some now) udata line level.

Definition hears (level : Z) (t : target) : Prop := t_level t <= level.

#[export] Instance hears_dec level t : Decision (hears level t).
Proof. unfold hears. apply _. Defined.

Lemma level_names level : 0 <= level < 6 → is_Some (level_strings !! Z.to_nat level) ∧ is_Some (level_colors !! Z.to_nat level).
Proof. intros Hl. split; apply lookup_lt_is_Some_2; simpl; lia. Qed.

Lemma rd_some {A} (l : list A) i : 0 <= i → is_Some (l !! Z.to_nat i) → ∃ x, rd l i = Ret x.
Proof. intros Hi [x Hx]. exists x. by apply rd_lookup. Qed.

Lemma call_back_ok L fn level file line message now udata :
  0 <= level < 6 → ∃ e, call_back L fn (event_for level file line message now udata) = Ret e.
Proof.
  intros Hl. destruct (level_names level Hl) as [Hs _]. destruct (rd_some level_strings level) as [x Hx]; [lia|done|].
  destruct fn as [|f]; simpl; [|by eexists]. unfold file_callback. simpl. rewrite Hx. simpl. by eexists.
Qed.

Lemma stdout_ok L level file line message now udata :
  0 <= level < 6 → ∃ e, stdout_callback L (event_for level file line message now udata) = Ret e.
Proof.
  intros Hl. destruct (level_names level Hl) as [Hs Hc]. destruct (rd_some level_strings level) as [x Hx]; [lia|done|].
  destruct (rd_some level_colors level) as [c Hcx]; [lia|done|]. unfold stdout_callback. simpl. rewrite Hx, Hcx.
  destruct (use_color L); simpl; by eexists.
Qed.

(** The event of a call between two targets: its time is set by the first. *)
Definition same_event (level : Z) (file : list Z) (line : Z) (message : list Z) (now : tm) (ev : ak_log_event_t) : Prop :=
  ev_message ev = message ∧ ev_file ev = file ∧ ev_line ev = line ∧ ev_level ev = level ∧ (ev_time ev = None ∨ ev_time ev = Some now).

Lemma init_event_ok level file line message now ev udata :
  same_event level file line message now ev → init_event now ev udata = event_for level file line message now udata.
Proof. intros (<- & <- & <- & <- & Ht). unfold init_event, event_for. by destruct Ht as [->| ->]. Qed.

Lemma log_log_ok L ts level file line message stderr now :
  log_ok L ts → 0 <= level < 6 →
  ∃ console es, ak_log_log level file line message stderr now L = Ret (lock L ++ console ++ es ++ unlock L)
    ∧ (if negb (quiet L) && (L_level L <=? level)
       then ∃ e, stdout_callback L (event_for level file line message now stderr) = Ret e ∧ console = [e] else console = [])
    ∧ Forall2 (λ t e, call_back L (t_fn t) (event_for level file line message now (t_udata t)) = Ret e) (filter (hears level) ts) es.
Proof.
  intros Hok Hl. pose proof (log_ok_room _ _ Hok) as Hroom. unfold ak_log_log.
  match goal with |- context [loop 33 ?f _] => set (step := f) end.
  assert (∀ n i ev acc, loop (S n) step (i, ev, acc) = r ← step (i, ev, acc); match r with inl s => loop n step s | inr v => Ret v end) as HS by done.
  assert (∀ i ev acc cb, i < 32 → rd (callbacks L) i = Ret cb → step (i, ev, acc) = match cb_fn cb with
    | None => Ret (inr acc)
    | Some fn => if cb_level cb <=? level
        then e ← call_back L fn (init_event now ev (cb_udata cb)); Ret (inl (i + 1, init_event now ev (cb_udata cb), acc ++ [e]))
        else Ret (inl (i + 1, ev, acc)) end) as Hstep.
  { intros i ev acc cb Hi E. unfold step. rewrite (proj2 (Z.ltb_lt i AK24_LOG_MAX_CALLBACKS)) by done. by rewrite E. }
  assert (∀ i ev acc, 32 <= i → step (i, ev, acc) = Ret (inr acc)) as Hend.
  { intros i ev acc Hi. unfold step. by rewrite (proj2 (Z.ltb_ge i AK24_LOG_MAX_CALLBACKS)). }
  clearbody step.
  assert (∀ ts2 ts1 ev acc, ts = ts1 ++ ts2 → same_event level file line message now ev →
    ∃ es, loop (33 - length ts1) step (zlen ts1, ev, acc) = Ret (acc ++ es)
      ∧ Forall2 (λ t e, call_back L (t_fn t) (event_for level file line message now (t_udata t)) = Ret e) (filter (hears level) ts2) es) as Hloop.
  { induction ts2 as [|t ts2 IH]; intros ts1 ev acc E Hev.
    - exists []. rewrite app_nil_r in *. subst ts1. split; [|constructor]. replace (33 - length ts)%nat with (S (32 - length ts)) by lia.
      rewrite HS. destruct (decide (length ts < 32)%nat) as [Hlt|Hge]; [|by rewrite Hend by (unfold zlen; lia)].
      destruct (slot_free _ _ Hok Hlt) as (cb & Hrd & Hcb). rewrite (Hstep _ _ _ cb) by (done || unfold zlen; lia). by rewrite Hcb.
    - assert (length ts = length ts1 + S (length ts2))%nat as Hlen by by rewrite E, length_app.
      replace (33 - length ts1)%nat with (S (33 - length (ts1 ++ [t]))) by (rewrite length_app; simpl; lia).
      rewrite HS, (Hstep _ _ _ (slot_of t)); [|unfold zlen; lia|apply (slot_read L ts t ts2); [done|rewrite E; by rewrite take_app_length|lia]].
      cbn [slot_of cb_fn cb_level cb_udata]. replace (zlen ts1 + 1) with (zlen (ts1 ++ [t])) by (rewrite zlen_app; done).
      rewrite filter_cons. destruct (Z.leb_spec (t_level t) level) as [Hle|Hgt].
      + rewrite decide_True by done. rewrite (init_event_ok _ _ _ _ _ _ (t_udata t) Hev).
        destruct (call_back_ok L (t_fn t) level file line message now (t_udata t) Hl) as [e He].
        destruct (IH (ts1 ++ [t]) (event_for level file line message now (t_udata t)) (acc ++ [e])) as (es & Hes & HF); [by rewrite <- app_assoc|by split_and!; try right|].
        exists (e :: es). split; [|by constructor]. rewrite He. simpl. simpl in Hes. rewrite Hes. by rewrite <- app_assoc.
      + rewrite decide_False by (unfold hears; lia). destruct (IH (ts1 ++ [t]) ev acc) as (es & Hes & HF); [by rewrite <- app_assoc|done|].
        exists es. split; [|done]. exact Hes. }
  assert (same_event level file line message now (mk_log_event message file None 0 line level)) as Hev by by split_and!; try left.
  destruct (negb (quiet L) && (L_level L <=? level)).
  - rewrite (init_event_ok _ _ _ _ _ _ stderr Hev). destruct (stdout_ok L level file line message now stderr Hl) as [e He]. simpl. rewrite He. simpl.
    destruct (Hloop ts [] (event_for level file line message now stderr) (lock L ++ [e])) as (es & Hes & HF); [done|by split_and!; try right|].
    exists [e], es. split_and!; [|by exists e|done]. change 0 with (zlen (@nil target)). change 33%nat with (33 - length (@nil target))%nat. rewrite Hes. simpl. by rewrite <- !app_assoc.
  - simpl. destruct (Hloop ts [] _ (lock L ++ []) eq_refl Hev) as (es & Hes & HF). exists [], es. split_and!; [|done|done].
    change 0 with (zlen (@nil target)) at 1. change 33%nat with (33 - length (@nil target))%nat. rewrite Hes. simpl. by rewrite app_nil_r, <- !app_assoc.
Qed.
End messages.

(** * Runs *)

Section runs.
Context `{Clock}.

Lemma set_with_callbacks cs L cbs : foldl set_by (with_callbacks L cbs) cs = with_callbacks (foldl set_by L cs) cbs.
Proof.
  revert L. induction cs as [|c cs IH]; intros L; [done|]. simpl.
  assert (set_by (with_callbacks L cbs) c = with_callbacks (set_by L c) cbs) as -> by by destruct c. apply IH.
Qed.

Lemma log_ok_set L ts c : log_ok L ts → log_ok (set_by L c) ts.
Proof. intros [Hs Hf]. destruct c; split; done. Qed.

(** One call that may give a target. *)
Lemma add_step_ok cs c fn udata level L ts L1 :
  added c = (λ f, mk_target f udata level) <$> fn → set_by L c = L →
  log_ok L ts → run_log_call c L = ('(rc, L) ← ak_log_add_callback fn udata level L; Ret ([rc], L)) →
  (∀ ts1 cbs, log_ok (with_callbacks L cbs) ts1 → ∃ L', run_log cs (with_callbacks L cbs) = Ret (answers_of (length ts1) cs, L')
     ∧ L' = with_callbacks (foldl set_by (with_callbacks L cbs) cs) (callbacks L') ∧ log_ok L' (take 32 (ts1 ++ omap added cs))) →
  L1 = (if (length ts <? 32)%nat then match added c with Some _ => S (length ts) | None => length ts end else length ts) →
  ∃ L', run_log (c :: cs) L = Ret ((if (length ts <? 32)%nat then 0 else -1) :: answers_of L1 cs, L')
    ∧ L' = with_callbacks (foldl set_by L (c :: cs)) (callbacks L') ∧ log_ok L' (take 32 (ts ++ omap added (c :: cs))).
Proof.
  intros Hadd Hset Hok Hrun IH ->. destruct (add_callback_ok L ts fn udata level Hok) as (cbs & Ha & Hok1).
  destruct (IH _ _ Hok1) as (L' & Hr & EL & Hok'). exists L'. simpl run_log. rewrite Hrun, Ha. simpl. rewrite Hr. simpl.
  rewrite set_with_callbacks in EL. rewrite Hset. split_and!.
  - do 3 f_equal. rewrite length_app, Hadd. destruct (length ts <? 32)%nat, fn; simpl; f_equal; lia.
  - by rewrite EL at 1.
  - rewrite <- app_assoc in Hok'. rewrite Hadd. destruct (Nat.ltb_spec (length ts) 32) as [Hlt|Hge]; [by destruct fn|].
    simpl in Hok'. assert (length ts <= 32)%nat by by eapply log_ok_room. destruct fn as [f|]; [|done]. simpl.
    rewrite take_app_le in Hok' |- * by lia. done.
Qed.

Lemma run_log_ok cs L ts :
  log_ok L ts →
  ∃ L', run_log cs L = Ret (answers_of (length ts) cs, L') ∧ L' = with_callbacks (foldl set_by L cs) (callbacks L')
    ∧ log_ok L' (take 32 (ts ++ omap added cs)).
Proof.
  revert L ts. induction cs as [|c cs IH]; intros L ts Hok.
  { exists L. rewrite app_nil_r, take_ge by by eapply log_ok_room. split_and!; [done|by destruct L|done]. }
  assert (∀ L1, set_by L c = L1 → added c = None → run_log_call c L = Ret ([], L1) → (∀ n, answers_of n (c :: cs) = answers_of n cs) →
    ∃ L', run_log (c :: cs) L = Ret (answers_of (length ts) (c :: cs), L') ∧ L' = with_callbacks (foldl set_by L (c :: cs)) (callbacks L')
      ∧ log_ok L' (take 32 (ts ++ omap added (c :: cs)))) as Hsetter.
  { intros L1 Hset Hadd Hrun Hans. destruct (IH L1 ts) as (L' & Hr & EL & Hok'); [rewrite <- Hset; by apply log_ok_set|].
    exists L'. rewrite Hans. simpl. rewrite Hrun, Hadd, Hset. simpl. rewrite Hr. by split_and!. }
  destruct c as [fn u|l|q|cl|f|fn u l|fp l]; try by eapply Hsetter.
  - apply (add_step_ok cs (Add_callback fn u l) fn u l L ts _); try done; try (by destruct fn). intros ts1 cbs Hok1. by apply IH.
  - apply (add_step_ok cs (Add_fp fp l) (Some File_callback) fp l L ts _); try done. intros ts1 cbs Hok1. by apply IH.
Qed.
End runs.

(** * Properties *)

(** C32: Logging.  After any calls the state is that of the last setting of each kind and
    of the first 32 targets that were added, and a call that adds one answers 0 as long
    as there is room and -1 then.  A message of one of the six levels calls the lock
    function, writes its line to the console unless that is quiet or set to a higher
    level, passes the event, with the target's own data, to the targets of its level or
    a lower one in the order they were added, and calls the lock function again. *)
Theorem ak_log_spec `{Clock} cs :
  ∃ L, run_log cs L0 = Ret (answers_of 0 cs, L) ∧ L = with_callbacks (foldl set_by L0 cs) (callbacks L)
    ∧ ∀ level file line message stderr now, 0 <= level < 6 →
      ∃ console es, ak_log_log level file line message stderr now L = Ret (lock L ++ console ++ es ++ unlock L)
        ∧ (if negb (quiet L) && (L_level L <=? level)
           then ∃ e, stdout_callback L (event_for level file line message now stderr) = Ret e ∧ console = [e] else console = [])
        ∧ Forall2 (λ t e, call_back L (t_fn t) (event_for level file line message now (t_udata t)) = Ret e)
            (filter (hears level) (take 32 (omap added cs))) es.
Proof.
  destruct (run_log_ok cs L0 [] log_ok_0) as (L & Hr & EL & Hok). exists L. split_and!; [done|done|].
  intros level file line message stderr now Hl. by apply log_log_ok.
Qed.

(** * Witness *)

#[local] Instance toy_clock : Clock := {|
  tm := unit;
  hms _ := bytes_of "12:30:00"%str;
  ymd _ := bytes_of "2025-01-02 12:30:00"%str;
|}.

(** A lock, a file for errors and a function for everything, and short paths. *)
Definition w_log_calls : list log_call :=
  [Add_fp 5 AK24_LOG_LEVEL_ERROR; Set_lock (Some 9) 1; Add_callback (Some (User_callback 7)) 3 AK24_LOG_LEVEL_TRACE; Add_callback None 0 0;
   Set_path_format AK24_LOG_PATH_ABBREV; Set_level AK24_LOG_LEVEL_INFO].

Definition w_line : list Z := bytes_of "12:30:00 WARN  a.c:42: hi"%str ++ [NEWLINE].

Lemma ak_log_spec_witness :
  ∃ L, run_log w_log_calls L0 = Ret ([0; 0; 0], L)
    ∧ ak_log_log AK24_LOG_LEVEL_WARN (bytes_of "src/a.c"%str) 42 (bytes_of "hi"%str) 2 () L
      = Ret [Locked 9 true 1; Written 2 w_line; Called 7 (event_for AK24_LOG_LEVEL_WARN (bytes_of "src/a.c"%str) 42 (bytes_of "hi"%str) () 3);
             Locked 9 false 1].
Proof.
  destruct (ak_log_spec w_log_calls) as (L & Hr & HL & Hall). exists L. split; [exact Hr|].
  destruct (Hall AK24_LOG_LEVEL_WARN (bytes_of "src/a.c"%str) 42 (bytes_of "hi"%str) 2 () ltac:(done)) as (console & es & E & Hcon & Hes).
  rewrite E. rewrite HL in Hcon |- *. destruct Hcon as (e & He & ->). vm_compute in He. injection He as <-.
  destruct (Forall2_cons_inv_l _ _ _ _ Hes) as (e1 & es1 & He1 & Hnil & ->). apply Forall2_nil_inv_l in Hnil. subst es1.
  rewrite HL in He1. vm_compute in He1. injection He1 as <-. vm_compute. reflexivity.
Defined.
