(* ===== verification/Memory.v ===== *)
(** Memory tracking of debug builds: [kernel/src/nogc.c]; [kernel/src/gc.c] is the same
    text over the functions of the collector.

    The counters are a global behind a mutex that every function holds while it reads
    or writes them, so a run of threads is a sequence of calls.  A pointer is the block
    it leads to. *)

From Stdlib Require String.
From S2P Require Import Prelude Filepath Runtime.
Import Stdlib.Strings.String.StringSyntax.
#[local] Delimit Scope string_scope with str.

Record ak_memory_stats_t := mk_stats {
  total_allocations : Z;
  total_frees : Z;
  total_reallocs : Z;
  bytes_allocated : Z;
  bytes_freed : Z;
  current_bytes : Z;
  peak_bytes : Z;
}.

(** The zeroed global. *)
Definition mem_stats : ak_memory_stats_t := mk_stats 0 0 0 0 0 0 0.

Section tracked.
Context `{Allocator}.

(** What [malloc], [realloc] and [free] of the C library do, of which the counters are
    kept. *)
Definition c_realloc (ptr : option (list Z)) (size : Z) : M (option (list Z)) :=
  match ptr with
  | Some old => realloc_bytes old size
  | None => alloc_bytes size
  end.

Definition c_free (ptr : option (list Z)) : M () :=
  match ptr with
  | Some _ => free_obj
  | None => mret ()
  end.

(** The bytes of a block that was granted. *)
Definition grant (size : Z) (allocs reallocs : Z) (st : ak_memory_stats_t) : ak_memory_stats_t :=
  let current := u64 (current_bytes st + size) in
  mk_stats allocs (total_frees st) reallocs (u64 (bytes_allocated st + size)) (bytes_freed st) current
    (if peak_bytes st <? current then current else peak_bytes st).

Definition ak_mem_alloc_tracked (size : Z) (st : ak_memory_stats_t) : M (option (list Z) * ak_memory_stats_t) :=
  ptr ← alloc_bytes size;
  match ptr with
  | Some _ => mret (ptr, grant size (u64 (total_allocations st + 1)) (total_reallocs st) st)
  | None => mret (ptr, st)
  end.

Definition ak_mem_alloc_atomic_tracked (size : Z) (st : ak_memory_stats_t) : M (option (list Z) * ak_memory_stats_t) :=
  ptr ← alloc_bytes size;
  match ptr with
  | Some _ => mret (ptr, grant size (u64 (total_allocations st + 1)) (total_reallocs st) st)
  | None => mret (ptr, st)
  end.

Definition ak_mem_realloc_tracked (ptr : option (list Z)) (size : Z) (st : ak_memory_stats_t) : M (option (list Z) * ak_memory_stats_t) :=
  new_ptr ← c_realloc ptr size;
  match new_ptr with
  | Some _ => mret (new_ptr, grant size (total_allocations st) (u64 (total_reallocs st + 1)) st)
  | None => mret (new_ptr, st)
  end.

Definition ak_mem_free_tracked (ptr : option (list Z)) (st : ak_memory_stats_t) : M ak_memory_stats_t :=
  match ptr with
  | Some _ =>
      let st := mk_stats (total_allocations st) (u64 (total_frees st + 1)) (total_reallocs st) (bytes_allocated st) (bytes_freed st)
                  (current_bytes st) (peak_bytes st) in
      _ ← free_obj;
      mret st
  | None => mret st
  end.

Definition ak_mem_get_stats (st : ak_memory_stats_t) : ak_memory_stats_t := st.

(** What is printed. *)
Definition ak_mem_print_stats (st : ak_memory_stats_t) : list Z :=
  let stats := ak_mem_get_stats st in
  let line (name : String.string) (n : Z) := bytes_of name ++ decimal n ++ [NEWLINE] in
  [NEWLINE] ++ bytes_of "=== Memory Statistics ==="%str ++ [NEWLINE]
  ++ line "Total allocations: "%str (total_allocations stats) ++ line "Total frees: "%str (total_frees stats)
  ++ line "Total reallocs: "%str (total_reallocs stats) ++ line "Bytes allocated: "%str (bytes_allocated stats)
  ++ line "Bytes freed: "%str (bytes_freed stats) ++ line "Current bytes: "%str (current_bytes stats)
  ++ line "Peak bytes: "%str (peak_bytes stats) ++ bytes_of "========================="%str ++ [NEWLINE; NEWLINE].

(** * Runs *)

Inductive mem_call : Type :=
| M_alloc (size : Z)
| M_alloc_atomic (size : Z)
| M_realloc (ptr : option (list Z)) (size : Z)
| M_free (ptr : option (list Z)).

Definition run_mem_call (c : mem_call) (st : ak_memory_stats_t) : M (option (list Z) * ak_memory_stats_t) :=
  match c with
  | M_alloc size => ak_mem_alloc_tracked size st
  | M_alloc_atomic size => ak_mem_alloc_atomic_tracked size st
  | M_realloc ptr size => ak_mem_realloc_tracked ptr size st
  | M_free ptr => st ← ak_mem_free_tracked ptr st; mret (None, st)
  end.

Fixpoint run_mem (cs : list mem_call) (st : ak_memory_stats_t) : M (list (option (list Z)) * ak_memory_stats_t) :=
  match cs with
  | [] => mret ([], st)
  | c :: cs => '(r, st) ← run_mem_call c st; '(rs, st) ← run_mem cs st; mret (r :: rs, st)
  end.

(** The calls of builds without counters. *)
Definition plain_call (c : mem_call) : M (option (list Z)) :=
  match c with
  | M_alloc size | M_alloc_atomic size => alloc_bytes size
  | M_realloc ptr size => c_realloc ptr size
  | M_free ptr => _ ← c_free ptr; mret None
  end.

Fixpoint run_plain (cs : list mem_call) : M (list (option (list Z))) :=
  match cs with
  | [] => mret []
  | c :: cs => r ← plain_call c; rs ← run_plain cs; mret (r :: rs)
  end.

(** What the counters are meant to count, given the answers. *)
Definition size_of (c : mem_call) : Z :=
  match c with
  | M_alloc size | M_alloc_atomic size | M_realloc _ size => size
  | M_free _ => 0
  end.

Definition counted (c : mem_call) (r : option (list Z)) (st : ak_memory_stats_t) : ak_memory_stats_t :=
  let bytes := bytes_allocated st + match r with Some _ => size_of c | None => 0 end in
  let got := match r with Some _ => 1 | None => 0 end in
  match c with
  | M_alloc _ | M_alloc_atomic _ => mk_stats (total_allocations st + got) (total_frees st) (total_reallocs st) bytes 0 bytes bytes
  | M_realloc _ _ => mk_stats (total_allocations st) (total_frees st) (total_reallocs st + got) bytes 0 bytes bytes
  | M_free ptr => mk_stats (total_allocations st) (total_frees st + match ptr with Some _ => 1 | None => 0 end) (total_reallocs st) bytes 0 bytes bytes
  end.

Fixpoint counted_all (cs : list mem_call) (rs : list (option (list Z))) (st : ak_memory_stats_t) : ak_memory_stats_t :=
  match cs, rs with
  | c :: cs, r :: rs => counted_all cs rs (counted c r st)
  | _, _ => st
  end.

Definition requested (cs : list mem_call) : Z := foldr (λ c n, size_of c + n) 0 cs.

(** Every counter below [n], and nothing counted as freed. *)
Record stats_below (n bytes : Z) (st : ak_memory_stats_t) : Prop := {
  sb_allocs : 0 <= total_allocations st <= n;
  sb_frees : 0 <= total_frees st <= n;
  sb_reallocs : 0 <= total_reallocs st <= n;
  sb_bytes : 0 <= bytes_allocated st <= bytes;
  sb_freed : bytes_freed st = 0;
  sb_current : current_bytes st = bytes_allocated st;
  sb_peak : peak_bytes st = bytes_allocated st;
}.

Lemma run_call_counted c st n bytes s :
  stats_below n bytes st → 0 <= size_of c → bytes + size_of c < 2 ^ 64 → n < 2 ^ 64 - 1 →
  run_mem_call c st s = (r ← plain_call c; mret (r, counted c r st)) s
  ∧ ∀ r, stats_below (n + 1) (bytes + size_of c) (counted c r st).
Proof.
  intros [A B C D E F G] Hs Hb Hn. split.
  - assert (∀ size al re, 0 <= size → bytes + size < 2 ^ 64 → grant size al re st
      = mk_stats al (total_frees st) re (bytes_allocated st + size) 0 (bytes_allocated st + size) (bytes_allocated st + size)) as Hg.
    { intros size al re H1 H2. unfold grant. rewrite E, F, G, u64_small by lia.
      destruct (Z.ltb_spec (bytes_allocated st) (bytes_allocated st + size)); [done|]. f_equal. lia. }
    destruct c as [size|size|ptr size|ptr]; simpl in *; unfold ak_mem_alloc_tracked, ak_mem_alloc_atomic_tracked, ak_mem_realloc_tracked, ak_mem_free_tracked, mbind, M_bind.
    + destruct (alloc_bytes size s) as [[[d|] s1]| |]; try done; unfold mret, M_ret, counted; [|rewrite !Z.add_0_r; destruct st; simpl in *; by subst].
      by rewrite Hg, u64_small by lia.
    + destruct (alloc_bytes size s) as [[[d|] s1]| |]; try done; unfold mret, M_ret, counted; [|rewrite !Z.add_0_r; destruct st; simpl in *; by subst].
      by rewrite Hg, u64_small by lia.
    + destruct (c_realloc ptr size s) as [[[d|] s1]| |]; try done; unfold mret, M_ret, counted; [|rewrite !Z.add_0_r; destruct st; simpl in *; by subst].
      by rewrite Hg, u64_small by lia.
    + unfold mret, M_ret, counted. destruct ptr as [d|]; simpl.
      * rewrite Z.add_0_r, u64_small by lia. destruct st; simpl in *; by subst.
      * rewrite !Z.add_0_r. destruct st; simpl in *; by subst.
  - intros r. destruct c, r; split; simpl in *; try lia; try (destruct ptr; lia).
Qed.
End tracked.

Section properties.
Context `{Allocator}.

Lemma run_mem_counted cs n bytes st s :
  stats_below n bytes st → Forall (λ c, 0 <= size_of c) cs → bytes + requested cs < 2 ^ 64 → n + zlen cs < 2 ^ 64 →
  run_mem cs st s = (rs ← run_plain cs; mret (rs, counted_all cs rs st)) s
  ∧ ∀ rs, stats_below (n + zlen cs) (bytes + requested cs) (counted_all cs rs st).
Proof.
  revert n bytes st s. induction cs as [|c cs IH]; intros n bytes st s Hst Hs Hb Hn.
  { split; [done|]. intros rs. simpl. unfold zlen. by rewrite !Z.add_0_r. }
  apply Forall_cons_1 in Hs as [Hc Hs]. rewrite zlen_cons in Hn |- *. pose proof (zlen_nonneg cs). simpl requested in *.
  assert (0 <= requested cs) as Hr.
  { clear -Hs. induction Hs as [|c cs Hc _ IHs]; simpl; lia. }
  destruct (run_call_counted c st n bytes s Hst Hc) as [Hrun Hbelow]; [lia|lia|].
  assert (∀ r s, run_mem cs (counted c r st) s = (rs ← run_plain cs; mret (rs, counted_all cs rs (counted c r st))) s) as Hcs.
  { intros r s1. apply (IH (n + 1) (bytes + size_of c)); [apply Hbelow|done|lia|lia]. }
  split.
  - simpl. unfold mbind, M_bind in *. rewrite Hrun. destruct (plain_call c s) as [[r s1]| |]; [|done..]. unfold mret at 1, M_ret. rewrite Hcs.
    by destruct (run_plain cs s1) as [[rs s2]| |].
  - intros rs. destruct (IH (n + 1) (bytes + size_of c) (counted c (default None (head rs)) st) s) as [_ Hall]; [apply Hbelow|done|lia|lia|].
    replace (n + (1 + zlen cs)) with (n + 1 + zlen cs) by lia. replace (bytes + (size_of c + requested cs)) with (bytes + size_of c + requested cs) by lia.
    destruct rs as [|r rs]; [|apply Hall]. destruct Hst as [A B C D E F G]. split; simpl; try lia; try done.
Qed.

(** C33: The counters of debug builds.  Tracking changes nothing of what the program is
    given: the answers, and what they do to the allocator, are those of a build without
    it.  Below the point where they wrap, the counters are the numbers of granted
    requests and of frees and the bytes granted.  The bytes of a block that is freed or
    moved are never taken off: nothing is counted as freed, and the bytes in use and
    their peak are all the bytes ever granted. *)
Theorem ak_mem_stats_spec cs s :
  Forall (λ c, 0 <= size_of c) cs → requested cs < 2 ^ 64 → zlen cs < 2 ^ 64 →
  run_mem cs mem_stats s = (rs ← run_plain cs; mret (rs, counted_all cs rs mem_stats)) s
  ∧ ∀ rs, let st := ak_mem_get_stats (counted_all cs rs mem_stats) in
      bytes_freed st = 0 ∧ current_bytes st = bytes_allocated st ∧ peak_bytes st = bytes_allocated st.
Proof.
  intros Hs Hb Hn. destruct (run_mem_counted cs 0 0 mem_stats s) as [Hrun Hall]; [|done|lia|lia|].
  - by split.
  - split; [done|]. intros rs. by destruct (Hall rs).
Qed.
End properties.

(** * Witness *)

Section memory_witness.
#[local] Existing Instance always_alloc.

(** Two blocks, of which one is freed and one made larger. *)
Definition w_mem_calls : list mem_call :=
  [M_alloc 10; M_alloc_atomic 4; M_free (Some (replicate 10 0)); M_realloc (Some [0; 0; 0; 0]) 8; M_free None].

Lemma ak_mem_stats_spec_witness :
  match run_mem w_mem_calls mem_stats mem0 with
  | Ret (rs, st, s) => ak_mem_get_stats st = mk_stats 2 1 1 22 0 22 22 ∧ m_live s = 1
  | _ => False
  end.
Proof.
  rewrite (proj1 (ak_mem_stats_spec w_mem_calls mem0 ltac:(repeat constructor; done) eq_refl eq_refl)). vm_compute. by split.
Defined.
End memory_witness.
