(* ===== verification/Winsock.v ===== *)
(** The sockets of Windows: [kernel/tcp/src/tcp_win.c].

    The calls of the system are the methods of the class [WinSystem], over its state;
    [WinLaws] is what its documentation says of them, in the terms of [Posix].  A
    [SOCKET] is a number, and [INVALID_SOCKET], which has all bits set, is -1.  The text
    of an error is a parameter; the code keeps it in a static buffer. *)

From Stdlib Require String.
From stdpp Require Import gmap.
From S2P Require Import Prelude Maps Sockets Connections Posix.
Import Stdlib.Strings.String.StringSyntax.
#[local] Delimit Scope string_scope with str.

(** * Data *)

(** The options that are set, with their values; times are in milliseconds. *)
Inductive winopt : Type :=
| W_REUSEADDR (v : Z)
| W_V6ONLY (v : Z)
| W_NODELAY (v : Z)
| W_RCVTIMEO (ms : Z)
| W_SNDTIMEO (ms : Z)
| W_KEEPALIVE (v : Z)
| W_LINGER (l_onoff l_linger : Z)
| W_RCVBUF (v : Z)
| W_SNDBUF (v : Z).

(** The error numbers the code names. *)
Inductive werr : Type :=
| WSAENONE | WSAETIMEDOUT | WSAEWOULDBLOCK | WSAECONNRESET | WSAENOTCONN | WSAECONNREFUSED | WSAECONNABORTED
| WSA_NOT_ENOUGH_MEMORY | WSAEINVAL | WSAEBADF | WSAEOTHER (n : Z).

#[export] Instance werr_eq_dec : EqDecision werr.
Proof. solve_decision. Defined.

Definition SOCKET_ERROR : Z := -1.

Class WinSystem := {
  wsys : Type;
  WSAGetLastError : wsys → werr;
  win_message : werr → String.string;
  WSAStartup : wsys → Z * wsys;
  WSACleanup : wsys → wsys;
  win_socket : family → wsys → Z * wsys;
  win_setsockopt : Z → winopt → wsys → Z * wsys;
  (** None when the call fails. *)
  win_get_rcvtimeo : Z → wsys → option Z * wsys;
  win_get_sndtimeo : Z → wsys → option Z * wsys;
  win_get_so_error : Z → wsys → option werr * wsys;
  win_bind : Z → sockaddr → wsys → Z * wsys;
  win_listen : Z → Z → wsys → Z * wsys;
  win_accept : Z → wsys → Z * sockaddr * wsys;
  (** The data and the length that is passed. *)
  win_send : Z → list Z → Z → wsys → Z * wsys;
  (** With [MSG_PEEK] or without. *)
  win_recv : bool → Z → Z → wsys → Z * list Z * wsys;
  win_shutdown : bool → Z → wsys → wsys;
  win_closesocket : Z → wsys → wsys;
  (** [FIONBIO], and [SIO_KEEPALIVE_VALS] with its two times. *)
  win_ioctl_nonblock : Z → bool → wsys → Z * wsys;
  win_ioctl_keepalive : Z → Z → Z → wsys → Z * wsys;
  (** [select] for one socket: for reading; for writing and errors. *)
  win_select_in : Z → Z * Z → wsys → Z * bool * wsys;
  win_select_out : Z → Z * Z → wsys → Z * bool * bool * wsys;
  win_connect : Z → sockaddr → wsys → Z * wsys;
  win_getaddrinfo : list Z → Z → wsys → Z * list sockaddr * wsys;
  win_freeaddrinfo : wsys → wsys;
  win_gai_strerror : Z → String.string;
  win_pton : family → list Z → option (list Z);
  win_ntop : family → list Z → list Z;
}.

Definition ak_tcp_detect_addr_family (addr : option (list Z)) : family :=
  match addr with
  | None => AF_INET
  | Some a =>
      if strcmp a ip4_any =? 0 then AF_INET
      else if (strcmp a ip6_any =? 0) || (strcmp a ip6_zero =? 0) then AF_INET6
      else if bool_decide (colon ∈ a) then AF_INET6
      else AF_INET
  end.

Definition ak_tcp_map_error (platform_errno : werr) : ak_tcp_error_t :=
  match platform_errno with
  | WSAENONE => AK_TCP_OK
  | WSAETIMEDOUT | WSAEWOULDBLOCK => AK_TCP_ERR_TIMEOUT
  | WSAECONNRESET => AK_TCP_ERR_RESET
  | WSAENOTCONN | WSAECONNREFUSED | WSAECONNABORTED => AK_TCP_ERR_CLOSED
  | WSA_NOT_ENOUGH_MEMORY => AK_TCP_ERR_MEMORY
  | WSAEINVAL | WSAEBADF => AK_TCP_ERR_INVALID
  | WSAEOTHER _ => AK_TCP_ERR_NETWORK
  end.

(** [ms / 1000] and [(ms % 1000) * 1000]; C rounds towards zero. *)
Definition win_timeval (ms : Z) : Z * Z := (Z.quot ms 1000, Z.rem ms 1000 * 1000).

(** * Operations *)

Section winsock.
Context `{WinSystem}.

Definition wsa_error_string (error_code : werr) : String.string := win_message error_code.

(** [*error = wsa_error_string(WSAGetLastError())] *)
Definition set_wsa_error (error : error_ptr) (w : wsys) : error_ptr := set_error error (wsa_error_string (WSAGetLastError w)).

(** [wsa_initialized] *)
Definition ak_tcp_platform_init (initialized : bool) (w : wsys) : bool * wsys :=
  if initialized then (initialized, w) else
  let '(result, w) := WSAStartup w in
  (result =? 0, w).

Definition ak_tcp_platform_deinit (initialized : bool) (w : wsys) : bool * wsys :=
  if initialized then (false, WSACleanup w) else (initialized, w).

Definition ak_tcp_socket_create_for_addr (addr : option (list Z)) (error : error_ptr) (w : wsys) : Z * error_ptr * wsys :=
  let family := ak_tcp_detect_addr_family addr in
  let '(sock, w) := win_socket family w in
  if sock =? AK_INVALID_SOCKET then (AK_INVALID_SOCKET, set_wsa_error error w, w) else
  let '(rc, w) := win_setsockopt sock (W_REUSEADDR 1) w in
  if rc =? SOCKET_ERROR then (AK_INVALID_SOCKET, set_wsa_error error w, win_closesocket sock w) else
  if bool_decide (family = AF_INET6) then
    let '(rc, w) := win_setsockopt sock (W_V6ONLY 0) w in
    if rc =? SOCKET_ERROR then (AK_INVALID_SOCKET, set_wsa_error error w, win_closesocket sock w) else (sock, error, w)
  else (sock, error, w).

Definition ak_tcp_socket_create (error : error_ptr) (w : wsys) : Z * error_ptr * wsys := ak_tcp_socket_create_for_addr None error w.

(** The address a server binds; none when its text is no address. *)
Definition bind_target (addr : option (list Z)) (port : Z) : option sockaddr :=
  match ak_tcp_detect_addr_family addr with
  | AF_INET6 =>
      match addr with
      | None => Some (mk_sockaddr AF_INET6 in6addr_any (htons port))
      | Some a =>
          if (strcmp a ip6_any =? 0) || (strcmp a ip6_zero =? 0) then Some (mk_sockaddr AF_INET6 in6addr_any (htons port))
          else b ← win_pton AF_INET6 a; Some (mk_sockaddr AF_INET6 b (htons port))
      end
  | AF_INET =>
      match addr with
      | None => Some (mk_sockaddr AF_INET any4 (htons port))
      | Some a =>
          if strcmp a ip4_any =? 0 then Some (mk_sockaddr AF_INET any4 (htons port))
          else b ← win_pton AF_INET a; Some (mk_sockaddr AF_INET b (htons port))
      end
  end.

Definition ak_tcp_socket_bind (fd : Z) (addr : option (list Z)) (port : Z) (error : error_ptr) (w : wsys) : Z * error_ptr * wsys :=
  match bind_target addr port with
  | None =>
      (-1, set_error error (match ak_tcp_detect_addr_family addr with
                            | AF_INET6 => "Invalid IPv6 address format"
                            | AF_INET => "Invalid IPv4 address format"
                            end)%str, w)
  | Some sa =>
      let '(rc, w) := win_bind fd sa w in
      if rc =? SOCKET_ERROR then (-1, set_wsa_error error w, w) else (0, error, w)
  end.

Definition ak_tcp_socket_listen (fd backlog : Z) (error : error_ptr) (w : wsys) : Z * error_ptr * wsys :=
  let backlog := if backlog <=? 0 then 128 else backlog in
  let '(rc, w) := win_listen fd backlog w in
  if rc =? SOCKET_ERROR then (-1, set_wsa_error error w, w) else (0, error, w).

(** The text of the peer's address. *)
Definition peer_text (sa : sockaddr) : list Z :=
  match sa_family sa with
  | AF_INET6 => if is_v4mapped (sa_addr sa) then win_ntop AF_INET (drop 12 (sa_addr sa)) else win_ntop AF_INET6 (sa_addr sa)
  | AF_INET => win_ntop AF_INET (sa_addr sa)
  end.

Definition ak_tcp_socket_accept (fd : Z) (error : error_ptr) (w : wsys) : Z * list Z * Z * error_ptr * wsys :=
  let '(client_fd, sa, w) := win_accept fd w in
  if client_fd =? AK_INVALID_SOCKET then (AK_INVALID_SOCKET, [], 0, set_wsa_error error w, w)
  else (client_fd, peer_text sa, ntohs (sa_port sa), error, w).

(** The length is converted to [int]. *)
Definition ak_tcp_socket_send (fd : Z) (data : list Z) (error : error_ptr) (w : wsys) : Z * error_ptr * wsys :=
  let '(sent, w) := win_send fd data (i32 (zlen data)) w in
  if sent =? SOCKET_ERROR then (-1, set_wsa_error error w, w) else (sent, error, w).

Definition ak_tcp_socket_recv (fd len : Z) (error : error_ptr) (w : wsys) : Z * list Z * error_ptr * wsys :=
  let '(received, bytes, w) := win_recv false fd (i32 len) w in
  if received =? SOCKET_ERROR then (-1, [], set_wsa_error error w, w) else (received, bytes, error, w).

Definition ak_tcp_socket_close (fd : Z) (w : wsys) : wsys :=
  if negb (fd =? AK_INVALID_SOCKET) then win_closesocket fd (win_shutdown true fd w) else w.

Definition ak_tcp_socket_set_nonblocking (fd : Z) (nonblocking : bool) (error : error_ptr) (w : wsys) : Z * error_ptr * wsys :=
  let '(rc, w) := win_ioctl_nonblock fd nonblocking w in
  if rc =? SOCKET_ERROR then (-1, set_wsa_error error w, w) else (0, error, w).

(** One option after the other, until one fails. *)
Fixpoint set_options (fd : Z) (opts : list winopt) (error : error_ptr) (w : wsys) : Z * error_ptr * wsys :=
  match opts with
  | [] => (0, error, w)
  | o :: opts =>
      let '(rc, w) := win_setsockopt fd o w in
      if rc =? SOCKET_ERROR then (-1, set_wsa_error error w, w) else set_options fd opts error w
  end.

Definition ak_tcp_socket_set_reuseaddr (fd : Z) (enable : bool) (error : error_ptr) (w : wsys) : Z * error_ptr * wsys :=
  set_options fd [W_REUSEADDR (Z.b2z enable)] error w.

Definition ak_tcp_socket_set_nodelay (fd : Z) (enable : bool) (error : error_ptr) (w : wsys) : Z * error_ptr * wsys :=
  set_options fd [W_NODELAY (Z.b2z enable)] error w.

Definition ak_tcp_socket_set_timeout (fd recv_timeout_ms send_timeout_ms : Z) (error : error_ptr) (w : wsys) : Z * error_ptr * wsys :=
  set_options fd [W_RCVTIMEO recv_timeout_ms; W_SNDTIMEO send_timeout_ms] error w.

(** [recv], [send]: whether there is a place for the timeout; its new value. *)
Definition ak_tcp_socket_get_timeout (fd : Z) (recv send : bool) (error : error_ptr) (w : wsys)
    : Z * option Z * option Z * error_ptr * wsys :=
  let '(ok, r, w) :=
    if recv then let '(t, w) := win_get_rcvtimeo fd w in (bool_decide (is_Some t), t, w) else (true, None, w) in
  if negb ok then (-1, None, None, set_wsa_error error w, w) else
  let '(ok, s, w) :=
    if send then let '(t, w) := win_get_sndtimeo fd w in (bool_decide (is_Some t), t, w) else (true, None, w) in
  if negb ok then (-1, r, None, set_wsa_error error w, w) else (0, r, s, error, w).

(** The products are of the type [int], and undefined past it. *)
Definition ak_tcp_socket_set_keepalive (fd idle_sec interval_sec probe_count : Z) (error : error_ptr) (w : wsys)
    : outcome (Z * error_ptr * wsys) :=
  let '(rc, error, w) := set_options fd [W_KEEPALIVE (if 0 <? idle_sec then 1 else 0)] error w in
  if rc <? 0 then Ret (-1, error, w) else
  if idle_sec <=? 0 then Ret (0, error, w) else
  if negb ((idle_sec * 1000 <? 2 ^ 31) && (- 2 ^ 31 <=? interval_sec * 1000) && (interval_sec * 1000 <? 2 ^ 31)) then Undef else
  let '(rc, w) := win_ioctl_keepalive fd (u32 (idle_sec * 1000)) (u32 (interval_sec * 1000)) w in
  if rc =? SOCKET_ERROR then Ret (-1, set_wsa_error error w, w) else Ret (0, error, w).

Definition ak_tcp_socket_set_linger (fd : Z) (enable : bool) (timeout_sec : Z) (error : error_ptr) (w : wsys) : Z * error_ptr * wsys :=
  set_options fd [W_LINGER (Z.b2z enable) (u16 timeout_sec)] error w.

Definition ak_tcp_socket_set_buffers (fd recv_size send_size : Z) (error : error_ptr) (w : wsys) : Z * error_ptr * wsys :=
  set_options fd ((if 0 <? recv_size then [W_RCVBUF (i32 recv_size)] else [])
                  ++ (if 0 <? send_size then [W_SNDBUF (i32 send_size)] else [])) error w.

Definition ak_tcp_socket_poll_read (fd timeout_ms : Z) (w : wsys) : Z * wsys :=
  let '(ret, _, w) := win_select_in fd (win_timeval timeout_ms) w in
  (if ret =? SOCKET_ERROR then -1 else if ret =? 0 then 0 else 1, w).

Definition ak_tcp_socket_shutdown (fd : Z) (w : wsys) : wsys :=
  if negb (fd =? AK_INVALID_SOCKET) then win_shutdown false fd w else w.

Definition ak_tcp_socket_peer_closed (fd : Z) (w : wsys) : bool * wsys :=
  if fd =? AK_INVALID_SOCKET then (true, w) else
  let '(ret, readable, w) := win_select_in fd (0, 0) w in
  if ret <? 0 then (true, w) else
  if ret =? 0 then (false, w) else
  if readable : bool then
    let '(n, _, w) := win_recv true fd 1 w in
    if n =? 0 then (true, w) else
    if (n =? SOCKET_ERROR) && negb (bool_decide (WSAGetLastError w = WSAEWOULDBLOCK)) then (true, w)
    else (false, w)
  else (false, w).

(** What an attempt to connect leads to: an answer, or the next address; with the error
    so far. *)
Inductive win_attempt : Type :=
| W_connected
| W_failed
| W_next.

Definition try_address (fd timeout_ms : Z) (sa : sockaddr) (error : error_ptr) (w : wsys) : win_attempt * error_ptr * wsys :=
  let '(rc, w) := win_connect fd sa w in
  if rc =? 0 then (W_connected, error, w) else
  if bool_decide (WSAGetLastError w = WSAEWOULDBLOCK) && (0 <? timeout_ms) then
    let '(select_result, writable, failed, w) := win_select_out fd (win_timeval timeout_ms) w in
    if select_result =? SOCKET_ERROR then (W_failed, set_wsa_error error w, w) else
    if select_result =? 0 then (W_failed, set_error error "Connection timed out"%str, w) else
    if failed : bool then (W_failed, set_error error "Connection failed"%str, w) else
    if writable : bool then
      let '(so_error, w) := win_get_so_error fd w in
      match so_error with
      | None => (W_failed, set_wsa_error error w, w)
      | Some e => if bool_decide (e = WSAENONE) then (W_connected, error, w) else (W_next, set_error error (wsa_error_string e), w)
      end
    else (W_next, error, w)
  else (W_next, error, w).

Fixpoint try_addresses (fd timeout_ms : Z) (sas : list sockaddr) (error : error_ptr) (w : wsys) : win_attempt * error_ptr * wsys :=
  match sas with
  | [] => (W_next, error, w)
  | sa :: sas =>
      match try_address fd timeout_ms sa error w with
      | (W_next, error, w) => try_addresses fd timeout_ms sas error w
      | (a, error, w) => (a, error, w)
      end
  end.

(** [if (error && !*error) *error = ...] *)
Definition set_if_unset (error : error_ptr) (w : wsys) : error_ptr :=
  match error with
  | Some None => set_wsa_error error w
  | _ => error
  end.

Definition ak_tcp_socket_connect (fd : Z) (host : option (list Z)) (port timeout_ms : Z) (error : error_ptr) (w : wsys)
    : Z * error_ptr * wsys :=
  match host with
  | None => (-1, set_error error "Host is required"%str, w)
  | Some host =>
      let '(gai_result, sas, w) := win_getaddrinfo host port w in
      if negb (gai_result =? 0) then (-1, set_error error (win_gai_strerror gai_result), w) else
      let '(rc, error, w) := if 0 <? timeout_ms then ak_tcp_socket_set_nonblocking fd true error w else (0, error, w) in
      if negb (rc =? 0) then (-1, error, win_freeaddrinfo w) else
      let '(a, error, w) := try_addresses fd timeout_ms sas error w in
      let w := win_freeaddrinfo w in
      let '(_, _, w) := if 0 <? timeout_ms then ak_tcp_socket_set_nonblocking fd false None w else (0, None, w) in
      match a with
      | W_connected => (0, error, w)
      | W_failed => (-1, error, w)
      | W_next => (-1, set_if_unset error w, w)
      end
  end.
End winsock.

(** * What the system promises *)

(** In a [socket_state] of Windows [s_flags] is 1 for a socket that does not block, and
    the timeouts are in milliseconds. *)
Definition win_option_set (o : winopt) (s s' : socket_state) : Prop :=
  match o with
  | W_RCVTIMEO ms => s' = with_timeouts ms (s_sndtimeo s) s
  | W_SNDTIMEO ms => s' = with_timeouts (s_rcvtimeo s) ms s
  | _ => s' = s
  end.

Class WinLaws `{WinSystem} := {
  wkernel : wsys → kernel;
  winvalid_law w : k_sockets (wkernel w) !! AK_INVALID_SOCKET = None;
  wstartup_law w : wkernel (WSAStartup w).2 = wkernel w;
  wsocket_law f w r w' : win_socket f w = (r, w') →
    (r = AK_INVALID_SOCKET ∧ wkernel w' = wkernel w)
    ∨ (0 <= r ∧ k_sockets (wkernel w) !! r = None ∧ ∃ s, wkernel w' = with_socket r s (wkernel w));
  wsetsockopt_law fd o w r w' : win_setsockopt fd o w = (r, w') →
    (r = SOCKET_ERROR ∧ wkernel w' = wkernel w)
    ∨ (r = 0 ∧ ∃ s s', k_sockets (wkernel w) !! fd = Some s ∧ win_option_set o s s' ∧ wkernel w' = with_socket fd s' (wkernel w));
  wget_rcvtimeo_law fd w t w' : win_get_rcvtimeo fd w = (t, w') →
    wkernel w' = wkernel w ∧ ∀ ms, t = Some ms → ∃ s, k_sockets (wkernel w) !! fd = Some s ∧ s_rcvtimeo s = ms;
  wget_sndtimeo_law fd w t w' : win_get_sndtimeo fd w = (t, w') →
    wkernel w' = wkernel w ∧ ∀ ms, t = Some ms → ∃ s, k_sockets (wkernel w) !! fd = Some s ∧ s_sndtimeo s = ms;
  wbind_law fd sa w : undisturbed (wkernel w) (wkernel (win_bind fd sa w).2);
  wlisten_law fd backlog w : undisturbed (wkernel w) (wkernel (win_listen fd backlog w).2);
  waccept_law fd w r sa w' : win_accept fd w = (r, sa, w') →
    (r = AK_INVALID_SOCKET ∧ wkernel w' = wkernel w)
    ∨ (0 <= r ∧ k_sockets (wkernel w) !! r = None ∧ ∃ s, wkernel w' = with_socket r s (wkernel w));
  wsend_law fd data len w r w' : win_send fd data len w = (r, w') → len <= zlen data →
    (r = SOCKET_ERROR ∧ wkernel w' = wkernel w)
    ∨ (0 <= r <= len ∧ ∃ s, k_sockets (wkernel w) !! fd = Some s
       ∧ wkernel w' = with_socket fd (with_out (s_out s ++ take (Z.to_nat r) data) s) (wkernel w));
  wrecv_law fd len w r bytes w' : win_recv false fd len w = (r, bytes, w') → 0 <= len →
    (r = SOCKET_ERROR ∧ wkernel w' = wkernel w)
    ∨ (0 <= r <= len ∧ zlen bytes = r ∧ Forall is_byte bytes ∧ ∃ s rest, k_sockets (wkernel w) !! fd = Some s
       ∧ s_in s = bytes ++ rest ∧ (r = 0 → 0 < len → rest = [])
       ∧ wkernel w' = with_socket fd (with_in rest s) (wkernel w));
  wrecv_frame_law fd len w : undisturbed (wkernel w) (wkernel (win_recv false fd len w).2);
  wpeek_law fd len w : wkernel (win_recv true fd len w).2 = wkernel w;
  wshutdown_law b fd w : undisturbed (wkernel w) (wkernel (win_shutdown b fd w));
  wclose_law fd w : wkernel (win_closesocket fd w) = mk_kernel (delete fd (k_sockets (wkernel w))) (k_infos (wkernel w));
  wnonblock_law fd b w r w' : win_ioctl_nonblock fd b w = (r, w') →
    (r = SOCKET_ERROR ∧ k_sockets (wkernel w) !! fd = None ∧ wkernel w' = wkernel w)
    ∨ (r = 0 ∧ ∃ s, k_sockets (wkernel w) !! fd = Some s ∧ wkernel w' = with_socket fd (with_flags (Z.b2z b) s) (wkernel w));
  wkeepalive_law fd a b w : wkernel (win_ioctl_keepalive fd a b w).2 = wkernel w;
  wselect_in_law fd tv w : wkernel (win_select_in fd tv w).2 = wkernel w;
  wselect_out_law fd tv w r x y w' : win_select_out fd tv w = (r, x, y, w') → keeps_flags (wkernel w) (wkernel w');
  wso_error_law fd w : wkernel (win_get_so_error fd w).2 = wkernel w;
  wconnect_law fd sa w r w' : win_connect fd sa w = (r, w') →
    keeps_flags (wkernel w) (wkernel w') ∧ (r = 0 → connected fd (wkernel w'));
  (** A connection that was being made is made when the socket is writable and has no
      error. *)
  wpending_law fd sa tv w r w1 n w2 w3 : win_connect fd sa w = (r, w1) → r ≠ 0 → WSAGetLastError w1 = WSAEWOULDBLOCK →
    win_select_out fd tv w1 = (n, true, false, w2) → win_get_so_error fd w2 = (Some WSAENONE, w3) → connected fd (wkernel w3);
  wgetaddrinfo_law host port w r sas w' : win_getaddrinfo host port w = (r, sas, w') →
    wkernel w' = mk_kernel (k_sockets (wkernel w)) (if r =? 0 then S (k_infos (wkernel w)) else k_infos (wkernel w));
  wfreeaddrinfo_law w : wkernel (win_freeaddrinfo w) = mk_kernel (k_sockets (wkernel w)) (pred (k_infos (wkernel w)));
  wntop_law f a : zlen (win_ntop f a) < 46 ∧ Forall is_char (win_ntop f a);
}.

Section winsock_laws.
Context `{WinLaws}.

Definition win_open (w : wsys) : gset Z := dom (k_sockets (wkernel w)).
Definition win_in (fd : Z) (w : wsys) : list Z := from_option s_in [] (k_sockets (wkernel w) !! fd).
Definition win_out (fd : Z) (w : wsys) : list Z := from_option s_out [] (k_sockets (wkernel w) !! fd).

(** The laws of the interface [SocketLaws] that are about sockets, for the functions of
    this file. *)
Record winsock_interface : Prop := {
  wi_invalid w : AK_INVALID_SOCKET ∉ win_open w;
  wi_send fd data e w r e' w' : ak_tcp_socket_send fd data e w = (r, e', w') →
    -1 <= r <= zlen data ∧ win_out fd w' = win_out fd w ++ take (Z.to_nat r) data
    ∧ win_in fd w' = win_in fd w ∧ win_open w' = win_open w;
  wi_recv fd len e w r bytes e' w' : ak_tcp_socket_recv fd len e w = (r, bytes, e', w') → 0 <= len < 2 ^ 31 →
    -1 <= r <= len ∧ zlen bytes = Z.max 0 r ∧ Forall is_byte bytes ∧ win_in fd w = bytes ++ win_in fd w'
    ∧ (r = 0 → 0 < len → win_in fd w = []) ∧ win_out fd w' = win_out fd w;
  wi_recv_open fd len e w r bytes e' w' : ak_tcp_socket_recv fd len e w = (r, bytes, e', w') → win_open w' = win_open w;
  wi_peer_closed fd w b w' : ak_tcp_socket_peer_closed fd w = (b, w') → wkernel w' = wkernel w;
  wi_accept fd e w r ip port e' w' : ak_tcp_socket_accept fd e w = (r, ip, port, e', w') →
    (r = AK_INVALID_SOCKET ∧ win_open w' = win_open w)
    ∨ (0 <= r ∧ (r ∉ win_open w) ∧ win_open w' = {[ r ]} ∪ win_open w ∧ zlen ip < 46 ∧ Forall is_char ip);
  wi_create addr e w r e' w' : ak_tcp_socket_create_for_addr addr e w = (r, e', w') →
    (r = AK_INVALID_SOCKET ∧ win_open w' = win_open w) ∨ (0 <= r ∧ (r ∉ win_open w) ∧ win_open w' = {[ r ]} ∪ win_open w);
  wi_close fd w : win_open (ak_tcp_socket_close fd w) = (win_open w ∖ {[ fd ]});
  wi_shutdown fd w : win_open (ak_tcp_socket_shutdown fd w) = win_open w;
  wi_poll fd t w r w' : ak_tcp_socket_poll_read fd t w = (r, w') → wkernel w' = wkernel w;
  wi_bind fd addr port e w r e' w' : ak_tcp_socket_bind fd addr port e w = (r, e', w') → win_open w' = win_open w;
  wi_listen fd backlog e w r e' w' : ak_tcp_socket_listen fd backlog e w = (r, e', w') → win_open w' = win_open w;
  wi_timeout fd a b e w r e' w' : ak_tcp_socket_set_timeout fd a b e w = (r, e', w') → win_open w' = win_open w;
  wi_keepalive fd a b c e w r e' w' : ak_tcp_socket_set_keepalive fd a b c e w = Ret (r, e', w') → win_open w' = win_open w;
  wi_linger fd a b e w r e' w' : ak_tcp_socket_set_linger fd a b e w = (r, e', w') → win_open w' = win_open w;
  wi_buffers fd a b e w r e' w' : ak_tcp_socket_set_buffers fd a b e w = (r, e', w') → win_open w' = win_open w;
  wi_reuseaddr fd b e w r e' w' : ak_tcp_socket_set_reuseaddr fd b e w = (r, e', w') → win_open w' = win_open w;
  wi_nodelay fd b e w r e' w' : ak_tcp_socket_set_nodelay fd b e w = (r, e', w') → win_open w' = win_open w;
}.

Lemma win_undisturbed w w' : undisturbed (wkernel w) (wkernel w') → win_open w' = win_open w.
Proof. by intros [? _]. Qed.

Lemma win_invalid w : AK_INVALID_SOCKET ∉ win_open w.
Proof. unfold win_open. rewrite not_elem_of_dom. apply winvalid_law. Qed.

Lemma win_new fd s w w' : k_sockets (wkernel w) !! fd = None → wkernel w' = with_socket fd s (wkernel w) →
  (fd ∉ win_open w) ∧ win_open w' = {[ fd ]} ∪ win_open w.
Proof. intros Hn HK. unfold win_open. rewrite HK. simpl. rewrite dom_insert_L, not_elem_of_dom. done. Qed.

Lemma win_close_open fd w : win_open (win_closesocket fd w) = (win_open w ∖ {[ fd ]}).
Proof. unfold win_open. rewrite wclose_law. simpl. by rewrite dom_delete_L. Qed.

Lemma win_setsockopt_open fd o w r w' : win_setsockopt fd o w = (r, w') → win_open w' = win_open w.
Proof.
  intros [[_ HK]|(_ & s & s' & Hs & _ & HK)]%wsetsockopt_law; apply win_undisturbed; rewrite HK; [done|].
  by eapply with_socket_undisturbed.
Qed.

Lemma win_options_open fd opts e w r e' w' : set_options fd opts e w = (r, e', w') → win_open w' = win_open w.
Proof.
  revert e w. induction opts as [|o opts IH]; intros e w; simpl; [by intros [= <- <- <-]|].
  destruct (win_setsockopt fd o w) as [rc w1] eqn:E. apply win_setsockopt_open in E.
  destruct (rc =? SOCKET_ERROR); [by intros [= <- <- <-]|]. intros ->%IH. done.
Qed.

(** A socket that was not there: made, or nothing. *)
Lemma win_opened (r : Z) w w1 :
  (r = AK_INVALID_SOCKET ∧ wkernel w1 = wkernel w)
  ∨ (0 <= r ∧ k_sockets (wkernel w) !! r = None ∧ ∃ s, wkernel w1 = with_socket r s (wkernel w)) →
  ((r =? AK_INVALID_SOCKET) = true ∧ win_open w1 = win_open w)
  ∨ ((r =? AK_INVALID_SOCKET) = false ∧ 0 <= r ∧ (r ∉ win_open w) ∧ win_open w1 = {[ r ]} ∪ win_open w).
Proof.
  intros [[-> HK]|(Hr & Hn & s & HK)]; [left; split; [done|unfold win_open; by rewrite HK]|right].
  destruct (win_new _ _ _ _ Hn HK) as [Hf Ho]. split_and!; try done. apply Z.eqb_neq. unfold AK_INVALID_SOCKET. lia.
Qed.

Lemma win_create_ok addr e w r e' w' : ak_tcp_socket_create_for_addr addr e w = (r, e', w') →
  (r = AK_INVALID_SOCKET ∧ win_open w' = win_open w) ∨ (0 <= r ∧ (r ∉ win_open w) ∧ win_open w' = {[ r ]} ∪ win_open w).
Proof.
  unfold ak_tcp_socket_create_for_addr. destruct (win_socket _ w) as [fd w1] eqn:E1.
  destruct (win_opened fd w w1 (wsocket_law _ _ _ _ E1)) as [[-> Ho]|(-> & Hfd & Hfresh & Ho)].
  { intros [= <- <- <-]. by left. }
  assert (∀ w2, win_open w2 = win_open w1 → win_open (win_closesocket fd w2) = win_open w) as Hclose.
  { intros w2 Ho2. rewrite win_close_open, Ho2, Ho. by apply discard_open. }
  destruct (win_setsockopt fd _ w1) as [r2 w2] eqn:E2. apply win_setsockopt_open in E2.
  destruct (r2 =? SOCKET_ERROR); [intros [= <- <- <-]; left; split; [done|by apply Hclose]|].
  case_bool_decide.
  - destruct (win_setsockopt fd _ w2) as [r3 w3] eqn:E3. apply win_setsockopt_open in E3.
    destruct (r3 =? SOCKET_ERROR); intros [= <- <- <-]; [left; split; [done|apply Hclose; congruence]|right].
    split_and!; [done|done|congruence].
  - intros [= <- <- <-]. right. split_and!; [done|done|congruence].
Qed.

Lemma win_accept_ok fd e w r ip port e' w' : ak_tcp_socket_accept fd e w = (r, ip, port, e', w') →
  (r = AK_INVALID_SOCKET ∧ win_open w' = win_open w)
  ∨ (0 <= r ∧ (r ∉ win_open w) ∧ win_open w' = {[ r ]} ∪ win_open w ∧ zlen ip < 46 ∧ Forall is_char ip).
Proof.
  unfold ak_tcp_socket_accept. destruct (win_accept fd w) as [[c sa] w1] eqn:E1.
  destruct (win_opened c w w1 (waccept_law _ _ _ _ _ E1)) as [[-> Ho]|(-> & Hc & Hfresh & Ho)]; intros [= <- <- <- <- <-]; [by left|right].
  split_and!; try done; unfold peer_text; destruct (sa_family sa); try destruct (is_v4mapped _); apply wntop_law.
Qed.

Lemma win_send_ok fd data e w r e' w' : ak_tcp_socket_send fd data e w = (r, e', w') →
  -1 <= r <= zlen data ∧ win_out fd w' = win_out fd w ++ take (Z.to_nat r) data
  ∧ win_in fd w' = win_in fd w ∧ win_open w' = win_open w.
Proof.
  pose proof (zlen_nonneg data) as Hz. unfold ak_tcp_socket_send, win_in, win_out.
  assert (i32 (zlen data) <= zlen data) as Hi.
  { unfold i32. pose proof (Z.mod_le (zlen data + 2 ^ 31) (2 ^ 32)). lia. }
  destruct (win_send fd data _ w) as [n w1] eqn:E. apply wsend_law in E; [|done].
  destruct E as [[-> HK]|(Hr & s & Hs & HK)].
  - intros [= <- <- <-]. rewrite HK. split_and!; [lia|lia|by rewrite app_nil_r|done|]. apply win_undisturbed. by rewrite HK.
  - destruct (Z.eqb_spec n SOCKET_ERROR) as [->|]; [unfold SOCKET_ERROR in Hr; lia|]. intros [= <- <- <-].
    rewrite HK. simpl. rewrite lookup_insert_eq, Hs. split_and!; [lia|lia|done|done|]. apply win_undisturbed. rewrite HK.
    by eapply with_socket_undisturbed.
Qed.

Lemma win_recv_open fd len e w r bytes e' w' : ak_tcp_socket_recv fd len e w = (r, bytes, e', w') → win_open w' = win_open w.
Proof.
  unfold ak_tcp_socket_recv. pose proof (win_undisturbed _ _ (wrecv_frame_law fd (i32 len) w)) as Ho.
  destruct (win_recv false fd (i32 len) w) as [[n bs] w1]. simpl in Ho. destruct (n =? SOCKET_ERROR); by intros [= <- <- <- <-].
Qed.

Lemma win_recv_ok fd len e w r bytes e' w' : ak_tcp_socket_recv fd len e w = (r, bytes, e', w') → 0 <= len < 2 ^ 31 →
  -1 <= r <= len ∧ zlen bytes = Z.max 0 r ∧ Forall is_byte bytes ∧ win_in fd w = bytes ++ win_in fd w'
  ∧ (r = 0 → 0 < len → win_in fd w = []) ∧ win_out fd w' = win_out fd w.
Proof.
  intros E Hlen. revert E. unfold ak_tcp_socket_recv, win_in, win_out. rewrite i32_small by lia.
  destruct (win_recv false fd len w) as [[n bs] w1] eqn:E. apply wrecv_law in E; [|lia].
  destruct E as [[-> HK]|(Hr & Hb & Hby & s & rest & Hs & Hin & Hend & HK)].
  - intros [= <- <- <- <-]. rewrite HK. split_and!; [lia|lia|done|constructor|done|lia|done].
  - destruct (Z.eqb_spec n SOCKET_ERROR) as [->|]; [unfold SOCKET_ERROR in Hr; lia|]. intros [= <- <- <- <-].
    rewrite HK. simpl. rewrite lookup_insert_eq, Hs. simpl. split_and!; [lia|lia|lia|done|done| |done].
    intros -> Hp. rewrite Hin, (Hend eq_refl Hp), app_nil_r. destruct bs; [done|]. rewrite zlen_cons in Hb. pose proof (zlen_nonneg bs). lia.
Qed.

Lemma win_peer_closed_ok fd w b w' : ak_tcp_socket_peer_closed fd w = (b, w') → wkernel w' = wkernel w.
Proof.
  unfold ak_tcp_socket_peer_closed. destruct (fd =? AK_INVALID_SOCKET); [by intros [= <- <-]|].
  pose proof (wselect_in_law fd (0, 0) w) as H1. destruct (win_select_in fd (0, 0) w) as [[x readable] w1]. simpl in H1.
  destruct (x <? 0); [by intros [= <- <-]|]. destruct (x =? 0); [by intros [= <- <-]|]. destruct readable; [|by intros [= <- <-]].
  pose proof (wpeek_law fd 1 w1) as H2. destruct (win_recv true fd 1 w1) as [[n bytes] w2]. simpl in H2.
  destruct (n =? 0); [intros [= <- <-]; congruence|]. destruct (_ && _); intros [= <- <-]; congruence.
Qed.

Lemma win_close_ok fd w : win_open (ak_tcp_socket_close fd w) = (win_open w ∖ {[ fd ]}).
Proof.
  unfold ak_tcp_socket_close. destruct (Z.eqb_spec fd AK_INVALID_SOCKET) as [->|Hfd]; simpl.
  - apply set_eq. intros x. rewrite elem_of_difference, elem_of_singleton. pose proof (win_invalid w).
    split; [|tauto]. intros Hx. split; [done|]. by intros ->.
  - rewrite win_close_open. f_equal. apply win_undisturbed, wshutdown_law.
Qed.

Lemma win_keepalive_ok fd a b c e w r e' w' :
  ak_tcp_socket_set_keepalive fd a b c e w = Ret (r, e', w') → win_open w' = win_open w.
Proof.
  unfold ak_tcp_socket_set_keepalive. destruct (set_options fd _ e w) as [[rc e1] w1] eqn:E. apply win_options_open in E.
  destruct (rc <? 0); [by intros [= <- <- <-]|]. destruct (a <=? 0); [by intros [= <- <- <-]|]. destruct (negb _); [done|].
  pose proof (wkeepalive_law fd (u32 (a * 1000)) (u32 (b * 1000)) w1) as Hk. destruct (win_ioctl_keepalive _ _ _ w1) as [r2 w2]. simpl in Hk.
  destruct (r2 =? SOCKET_ERROR); intros [= <- <- <-]; unfold win_open in *; congruence.
Qed.

(** ** Connecting *)

(** A message was left where there is room for one. *)
Definition told (error : error_ptr) : Prop := match error with Some None => False | _ => True end.

Lemma told_set error m : told (set_error error m).
Proof. by destruct error as [[]|]. Qed.

Definition attempt_ok (fd : Z) (k : kernel) (a : win_attempt) (error : error_ptr) : Prop :=
  match a with
  | W_connected => connected fd k
  | W_failed => told error
  | W_next => True
  end.

Lemma win_try_ok fd t sa error w a e' w' :
  try_address fd t sa error w = (a, e', w') → keeps_flags (wkernel w) (wkernel w') ∧ attempt_ok fd (wkernel w') a e'.
Proof.
  unfold try_address. destruct (win_connect fd sa w) as [r w1] eqn:E1. pose proof (wconnect_law _ _ _ _ _ E1) as [K1 C1].
  destruct (Z.eqb_spec r 0) as [->|Hr]; [intros [= <- <- <-]; split; [done|by apply C1]|].
  case_bool_decide as Hp; simpl; [|by intros [= <- <- <-]]. destruct (0 <? t); [|by intros [= <- <- <-]].
  destruct (win_select_out fd (win_timeval t) w1) as [[[n x] y] w2] eqn:E2. pose proof (wselect_out_law _ _ _ _ _ _ _ E2) as K2.
  assert (keeps_flags (wkernel w) (wkernel w2)) as K12 by by eapply keeps_flags_trans.
  destruct (n =? SOCKET_ERROR); [intros [= <- <- <-]; split; [done|apply told_set]|].
  destruct (n =? 0); [intros [= <- <- <-]; split; [done|apply told_set]|].
  destruct y; [intros [= <- <- <-]; split; [done|apply told_set]|]. destruct x; [|by intros [= <- <- <-]].
  pose proof (wso_error_law fd w2) as K3. destruct (win_get_so_error fd w2) as [so w3] eqn:E3. simpl in K3.
  destruct so as [e|]; [|intros [= <- <- <-]; rewrite K3; split; [done|apply told_set]].
  case_bool_decide as He; intros [= <- <- <-].
  - subst e. rewrite K3. split; [done|]. simpl. rewrite <- K3. by eapply wpending_law.
  - rewrite K3. by split.
Qed.

Lemma win_tries_ok fd t sas error w a e' w' :
  try_addresses fd t sas error w = (a, e', w') → keeps_flags (wkernel w) (wkernel w') ∧ attempt_ok fd (wkernel w') a e'.
Proof.
  revert error w. induction sas as [|sa sas IH]; intros error w; simpl; [by intros [= <- <- <-]|].
  destruct (try_address fd t sa error w) as [[a1 e1] w1] eqn:E. apply win_try_ok in E as [K1 R1].
  destruct a1; [by intros [= <- <- <-]|by intros [= <- <- <-]|]. intros [K2 R2]%IH.
  split; [by eapply keeps_flags_trans|done].
Qed.

Lemma win_mode_ok fd b error w rc e' w' :
  ak_tcp_socket_set_nonblocking fd b error w = (rc, e', w') →
  undisturbed (wkernel w) (wkernel w') ∧ (∀ i, connected i (wkernel w) → connected i (wkernel w'))
  ∧ flags_of (wkernel w') = alter (λ _, Z.b2z b) fd (flags_of (wkernel w))
  ∧ ((rc = 0 ∧ e' = error) ∨ (rc = -1 ∧ told e' ∧ wkernel w' = wkernel w)).
Proof.
  unfold ak_tcp_socket_set_nonblocking. destruct (win_ioctl_nonblock fd b w) as [r w1] eqn:E. apply wnonblock_law in E.
  destruct E as [(-> & Hn & HK)|(-> & s & Hs & HK)]; simpl; intros [= <- <- <-]; rewrite HK.
  - split_and!; [done|done| |right; split_and!; [done|apply told_set|done]].
    symmetry. apply alter_id. intros x. unfold flags_of. by rewrite lookup_fmap, Hn.
  - split_and!; [by eapply with_socket_undisturbed| | |by left].
    + intros i. unfold connected, with_socket. simpl. destruct (decide (i = fd)) as [->|Hi].
      * by rewrite Hs, lookup_insert_eq.
      * by rewrite lookup_insert_ne by done.
    + unfold flags_of, with_socket. simpl. rewrite fmap_insert. apply map_eq. intros i. destruct (decide (i = fd)) as [->|Hi].
      * by rewrite lookup_insert_eq, lookup_alter_eq, lookup_fmap, Hs.
      * by rewrite lookup_insert_ne, lookup_alter_ne.
Qed.

Definition win_blocking (fd : Z) (k : kernel) : Prop := ∀ f, flags_of k !! fd = Some f → f = 0.

Lemma win_restored fd k : win_blocking fd k → alter (λ _, Z.b2z false) fd (alter (λ _, Z.b2z true) fd (flags_of k)) = flags_of k.
Proof.
  intros Hb. apply map_eq. intros i. destruct (decide (i = fd)) as [->|Hi]; [|by rewrite !lookup_alter_ne by done].
  rewrite !lookup_alter_eq. destruct (flags_of k !! fd) as [f|] eqn:Hf; [|done]. simpl. by rewrite (Hb f Hf).
Qed.

Lemma win_connect_ok fd host port timeout_ms error w r e' w' :
  win_blocking fd (wkernel w) →
  ak_tcp_socket_connect fd host port timeout_ms error w = (r, e', w') →
  keeps_flags (wkernel w) (wkernel w') ∧ ((r = 0 ∧ connected fd (wkernel w')) ∨ (r = -1 ∧ told e')).
Proof.
  intros Hb. unfold ak_tcp_socket_connect. destruct host as [host|].
  2:{ intros [= <- <- <-]. split; [done|right]. split; [done|apply told_set]. }
  destruct (win_getaddrinfo host port w) as [[g sas] w1] eqn:E1. apply wgetaddrinfo_law in E1.
  destruct (Z.eqb_spec g 0) as [->|Hg]; cbn [negb].
  2:{ intros [= <- <- <-]. rewrite E1. split; [by destruct (wkernel w)|right]. split; [done|apply told_set]. }
  set (mode b e w := if 0 <? timeout_ms then ak_tcp_socket_set_nonblocking fd b e w else (0, e, w)).
  set (f (b : bool) := λ x : Z, if 0 <? timeout_ms then Z.b2z b else x).
  assert (∀ b e w rc e' w', mode b e w = (rc, e', w') → undisturbed (wkernel w) (wkernel w')
    ∧ (∀ i, connected i (wkernel w) → connected i (wkernel w')) ∧ flags_of (wkernel w') = alter (f b) fd (flags_of (wkernel w))
    ∧ (rc = 0 ∨ (rc = -1 ∧ told e' ∧ wkernel w' = wkernel w))) as Hmode.
  { intros b e v rc e2 v'. unfold mode, f. destruct (0 <? timeout_ms).
    - intros (U & C & F & [[? _]|(? & ? & ?)])%win_mode_ok; split_and!; try done; [by left|by right].
    - intros [= <- <- <-]. split_and!; [done|done| |by left]. symmetry. by apply alter_id. }
  change (if 0 <? timeout_ms then ak_tcp_socket_set_nonblocking fd true error w1 else (0, error, w1)) with (mode true error w1).
  destruct (mode true error w1) as [[rc e1] w2] eqn:E2. apply Hmode in E2 as (U2 & _ & F2 & R2).
  assert (flags_of (wkernel w1) = flags_of (wkernel w)) as F1 by by rewrite E1.
  assert (∀ v, wkernel (win_freeaddrinfo v) = mk_kernel (k_sockets (wkernel v)) (pred (k_infos (wkernel v)))) as Hfree by apply wfreeaddrinfo_law.
  destruct (Z.eqb_spec rc 0) as [->|Hrc]; cbn [negb].
  2:{ intros [= <- <- <-]. destruct R2 as [?|(_ & Ht & HK)]; [done|]. split; [|by right].
      unfold keeps_flags, undisturbed, flags_of. rewrite Hfree, HK, E1. done. }
  destruct (try_addresses fd timeout_ms sas e1 w2) as [[a e2] w3] eqn:E3. apply win_tries_ok in E3 as [[U3 F3] R3].
  pose proof (Hfree w3) as K4. set (w4 := win_freeaddrinfo w3) in *. clearbody w4.
  change (if 0 <? timeout_ms then ak_tcp_socket_set_nonblocking fd false None w4 else (0, None, w4)) with (mode false None w4).
  destruct (mode false None w4) as [[rc2 e3] w5] eqn:E5. apply Hmode in E5 as (U5 & C5 & F5 & _).
  assert (undisturbed (wkernel w) (wkernel w4)) as U4.
  { rewrite K4. destruct U2 as [D2 I2], U3 as [D3 I3]. split; simpl; rewrite ?D3, ?I3, ?D2, ?I2, E1; done. }
  assert (flags_of (wkernel w4) = alter (f true) fd (flags_of (wkernel w))) as F4.
  { rewrite K4. unfold flags_of in *. simpl. congruence. }
  assert (keeps_flags (wkernel w) (wkernel w5)) as K5.
  { split; [by eapply undisturbed_trans|]. rewrite F5, F4. unfold f. destruct (0 <? timeout_ms); [by apply win_restored|].
    rewrite !alter_id; done. }
  destruct a; simpl in R3; intros [= <- <- <-]; (split; [done|]); [left|right; by split..|right; split; [done|]].
  - split; [done|]. apply C5. rewrite K4. exact R3.
  - unfold set_if_unset. destruct e2 as [[m|]|]; [done|apply told_set|done].
Qed.

(** ** Timeouts *)

Lemma win_timeout_ok fd r s error w e1 w1 :
  ak_tcp_socket_set_timeout fd r s error w = (0, e1, w1) →
  ∀ error2 rc2 a b e2 w2, ak_tcp_socket_get_timeout fd true true error2 w1 = (rc2, a, b, e2, w2) →
    (rc2 = 0 ∧ a = Some r ∧ b = Some s) ∨ (rc2 = -1 ∧ b = None).
Proof.
  unfold ak_tcp_socket_set_timeout. simpl. destruct (win_setsockopt fd (W_RCVTIMEO r) w) as [r1 w1'] eqn:E1. apply wsetsockopt_law in E1.
  destruct E1 as [[-> _]|(-> & s0 & s1 & _ & H1 & K1)]; [by intros [=]|]. simpl in H1. subst s1. simpl.
  destruct (win_setsockopt fd (W_SNDTIMEO s) w1') as [r2 w2'] eqn:E2. apply wsetsockopt_law in E2.
  destruct E2 as [[-> _]|(-> & s2 & s3 & L2 & H2 & K2)]; [by intros [=]|]. simpl in H2. subst s3. simpl. intros [= <- <-].
  rewrite K1 in L2. simpl in L2. rewrite lookup_insert_eq in L2. injection L2 as <-. intros error2 rc2 a b e2 w2.
  unfold ak_tcp_socket_get_timeout. destruct (win_get_rcvtimeo fd w2') as [t1 v1] eqn:E3. apply wget_rcvtimeo_law in E3 as [K3 T3].
  destruct t1 as [t1|]; simpl; [|intros [= <- <- <- <- <-]; by right].
  destruct (win_get_sndtimeo fd v1) as [t2 v2] eqn:E4. apply wget_sndtimeo_law in E4 as [_ T4].
  destruct t2 as [t2|]; simpl; intros [= <- <- <- <- <-]; [left|by right].
  destruct (T3 _ eq_refl) as (x & Hx & <-), (T4 _ eq_refl) as (y & Hy & <-). rewrite K3, K2 in Hy. rewrite K2 in Hx. simpl in Hx, Hy.
  rewrite lookup_insert_eq in Hx, Hy. injection Hx as <-. injection Hy as <-. done.
Qed.
End winsock_laws.

(** * Properties *)

Section winsock_properties.
Context `{WinLaws}.

(** C15: The functions of [tcp_win.c] keep the laws about sockets of the interface that
    connections and servers are proved against: a send takes a beginning of the data, a
    receive hands over the next bytes of the peer and none only at their end, making and
    accepting open one socket that was not open or nothing, closing closes that socket,
    and nothing else opens or closes one. *)
Theorem ak_tcp_winsock_spec : winsock_interface.
Proof.
  split.
  - apply win_invalid.
  - apply win_send_ok.
  - apply win_recv_ok.
  - apply win_recv_open.
  - apply win_peer_closed_ok.
  - apply win_accept_ok.
  - apply win_create_ok.
  - apply win_close_ok.
  - intros fd w. unfold ak_tcp_socket_shutdown. destruct (negb _); [|done]. apply win_undisturbed, wshutdown_law.
  - intros fd t w r w'. unfold ak_tcp_socket_poll_read. pose proof (wselect_in_law fd (win_timeval t) w) as HK.
    destruct (win_select_in fd (win_timeval t) w) as [[x y] w1]. by intros [= <- <-].
  - intros fd addr port e w r e' w'. unfold ak_tcp_socket_bind. destruct (bind_target addr port) as [sa|]; [|by intros [= <- <- <-]].
    pose proof (win_undisturbed _ _ (wbind_law fd sa w)) as HK. destruct (win_bind fd sa w) as [rc w1]. destruct (rc =? SOCKET_ERROR); by intros [= <- <- <-].
  - intros fd backlog e w r e' w'. unfold ak_tcp_socket_listen. set (n := if backlog <=? 0 then 128 else backlog).
    pose proof (win_undisturbed _ _ (wlisten_law fd n w)) as HK. destruct (win_listen fd n w) as [rc w1]. destruct (rc =? SOCKET_ERROR); by intros [= <- <- <-].
  - intros fd a b e w r e' w'. apply win_options_open.
  - apply win_keepalive_ok.
  - intros fd a b e w r e' w'. apply win_options_open.
  - intros fd a b e w r e' w'. apply win_options_open.
  - intros fd b e w r e' w'. apply win_options_open.
  - intros fd b e w r e' w'. apply win_options_open.
Qed.

(** On Windows [ak_tcp_socket_connect] answers 0 only when the socket has been
    connected to one of the addresses of the host, and -1 with a message otherwise; on
    every path the list of addresses is given back once, nothing is opened or closed,
    and a socket that blocks still does.  Timeouts are read back as they were set. *)
Theorem ak_tcp_winsock_connect_spec fd host port timeout_ms error w r e' w' :
  win_blocking fd (wkernel w) →
  ak_tcp_socket_connect fd host port timeout_ms error w = (r, e', w') →
  (undisturbed (wkernel w) (wkernel w') ∧ flags_of (wkernel w') = flags_of (wkernel w)
   ∧ ((r = 0 ∧ connected fd (wkernel w')) ∨ (r = -1 ∧ told e')))
  ∧ ∀ a b error1 e1 w1, ak_tcp_socket_set_timeout fd a b error1 w' = (0, e1, w1) →
      ∀ error2 rc2 a' b' e2 w2, ak_tcp_socket_get_timeout fd true true error2 w1 = (rc2, a', b', e2, w2) →
        (rc2 = 0 ∧ a' = Some a ∧ b' = Some b) ∨ (rc2 = -1 ∧ b' = None).
Proof.
  intros Hb E. split; [by apply win_connect_ok in E as [[? ?] ?]|]. intros a b error1 e1 w1 Hset. by eapply win_timeout_ok.
Qed.
End winsock_properties.

(** * Witnesses *)

(** A small system: every call succeeds on an open socket, and connecting a socket that
    does not block goes on after the call. *)
Definition twin : Type := kernel * werr.

Definition twin_view (w : twin) : kernel := mk_kernel (delete (-1) (k_sockets w.1)) (k_infos w.1).
Definition twin_put (fd : Z) (s : socket_state) (w : twin) : twin := (with_socket fd s w.1, w.2).
Definition twin_fresh (w : twin) : Z := above (map_to_list (k_sockets w.1)).*1.

Definition twin_on {A} (fd : Z) (f : socket_state → A * twin) (fail : A) (w : twin) : A * twin :=
  match k_sockets (twin_view w) !! fd with
  | Some s => f s
  | None => (fail, (w.1, WSAEBADF))
  end.

Definition twin_option (o : winopt) (s : socket_state) : socket_state :=
  match o with
  | W_RCVTIMEO ms => with_timeouts ms (s_sndtimeo s) s
  | W_SNDTIMEO ms => with_timeouts (s_rcvtimeo s) ms s
  | _ => s
  end.

Definition twin_recv (peek : bool) (fd len : Z) (w : twin) : Z * list Z * twin :=
  twin_on fd (λ s,
    let n := Z.min len (zlen (s_in s)) in
    if bool_decide (Forall is_byte (s_in s)) && (0 <=? len) then
      (n, take (Z.to_nat n) (s_in s), if peek then w else twin_put fd (with_in (drop (Z.to_nat n) (s_in s)) s) w)
    else (-1, [], w)) (-1, []) w.

#[local] Instance toy_windows : WinSystem := {|
  wsys := twin;
  WSAGetLastError := snd;
  win_message := λ _, "error"%str;
  WSAStartup := λ w, (0, w);
  WSACleanup := λ w, w;
  win_socket := λ _ w, (twin_fresh w, twin_put (twin_fresh w) new_socket w);
  win_setsockopt := λ fd o w, twin_on fd (λ s, (0, twin_put fd (twin_option o s) w)) (-1) w;
  win_get_rcvtimeo := λ fd w, twin_on fd (λ s, (Some (s_rcvtimeo s), w)) None w;
  win_get_sndtimeo := λ fd w, twin_on fd (λ s, (Some (s_sndtimeo s), w)) None w;
  win_get_so_error := λ fd w, twin_on fd (λ s, (Some WSAENONE, w)) None w;
  win_bind := λ _ _ w, (0, w);
  win_listen := λ _ _ w, (0, w);
  win_accept := λ _ w, (twin_fresh w, mk_sockaddr AF_INET [127; 0; 0; 1] (htons 80), twin_put (twin_fresh w) new_socket w);
  win_send := λ fd data len w,
    if len <? 0 then (-1, w) else twin_on fd (λ s, (len, twin_put fd (with_out (s_out s ++ take (Z.to_nat len) data) s) w)) (-1) w;
  win_recv := twin_recv;
  win_shutdown := λ _ _ w, w;
  win_closesocket := λ fd w, (mk_kernel (delete fd (k_sockets w.1)) (k_infos w.1), w.2);
  win_ioctl_nonblock := λ fd b w, twin_on fd (λ s, (0, twin_put fd (with_flags (Z.b2z b) s) w)) (-1) w;
  win_ioctl_keepalive := λ _ _ _ w, (0, w);
  win_select_in := λ _ _ w, (0, false, w);
  win_select_out := λ _ _ w, (1, true, false, w);
  win_connect := λ fd _ w, twin_on fd (λ s,
    let w := twin_put fd (mk_socket (s_in s) (s_out s) (s_flags s) (s_rcvtimeo s) (s_sndtimeo s) true) w in
    if s_flags s =? 0 then (0, w) else (-1, (w.1, WSAEWOULDBLOCK))) (-1) w;
  win_getaddrinfo := λ _ port w,
    (0, [mk_sockaddr AF_INET [127; 0; 0; 1] (htons port)], (mk_kernel (k_sockets w.1) (S (k_infos w.1)), w.2));
  win_freeaddrinfo := λ w, (mk_kernel (k_sockets w.1) (pred (k_infos w.1)), w.2);
  win_gai_strerror := λ _, "error"%str;
  win_pton := λ f a, if bool_decide (f = AF_INET) then Some a else None;
  win_ntop := λ _ _, bytes_of "127.0.0.1"%str;
|}.

Lemma twin_put_spec fd s w : fd ≠ -1 → twin_view (twin_put fd s w) = with_socket fd s (twin_view w).
Proof. intros Hfd. unfold twin_view, twin_put, with_socket. simpl. f_equal. by rewrite delete_insert_ne. Qed.

Lemma twin_get_some fd s w : k_sockets (twin_view w) !! fd = Some s → fd ≠ -1.
Proof. intros Hs ->. simpl in Hs. by rewrite lookup_delete_eq in Hs. Qed.

Lemma twin_on_spec {A} fd (f : socket_state → A * twin) fail w r w' :
  twin_on fd f fail w = (r, w') →
  (r = fail ∧ k_sockets (twin_view w) !! fd = None ∧ twin_view w' = twin_view w)
  ∨ (∃ s, k_sockets (twin_view w) !! fd = Some s ∧ fd ≠ -1 ∧ f s = (r, w')).
Proof.
  unfold twin_on. destruct (k_sockets (twin_view w) !! fd) as [s|] eqn:Hs.
  - intros E. right. exists s. split_and!; [done|by eapply twin_get_some|done].
  - intros [= <- <-]. by left.
Qed.

Lemma twin_fresh_spec w : 0 <= twin_fresh w ∧ k_sockets (twin_view w) !! twin_fresh w = None
  ∧ ∃ s, twin_view (twin_put (twin_fresh w) new_socket w) = with_socket (twin_fresh w) s (twin_view w).
Proof.
  unfold twin_fresh. destruct (above_spec (map_to_list (k_sockets w.1)).*1) as [Hp Hn]. split_and!; [lia| |].
  - simpl. rewrite lookup_delete_ne by lia. destruct (_ !! _) as [s|] eqn:E; [|done]. exfalso. apply Hn, list_elem_of_fmap.
    exists (above (map_to_list (k_sockets w.1)).*1, s). split; [done|]. by apply elem_of_map_to_list.
  - exists new_socket. apply twin_put_spec. lia.
Qed.

Lemma twin_recv_spec peek fd len w r bytes w' :
  twin_recv peek fd len w = (r, bytes, w') →
  (r = -1 ∧ twin_view w' = twin_view w)
  ∨ (0 <= r <= len ∧ zlen bytes = r ∧ Forall is_byte bytes ∧ ∃ s rest,
      k_sockets (twin_view w) !! fd = Some s ∧ s_in s = bytes ++ rest ∧ (r = 0 → 0 < len → rest = [])
      ∧ twin_view w' = if peek then twin_view w else with_socket fd (with_in rest s) (twin_view w)).
Proof.
  unfold twin_recv. intros E. apply twin_on_spec in E as [([= -> ->] & _ & HV)|(s & Hs & Hfd & E)]; [by left|].
  destruct (bool_decide (Forall is_byte (s_in s)) && (0 <=? len)) eqn:Eg; [|injection E as <- <- <-; by left].
  apply andb_true_iff in Eg as [Hby%bool_decide_eq_true_1 Hlen%Z.leb_le]. injection E as <- <- <-. right.
  pose proof (zlen_nonneg (s_in s)). set (n := Z.min len (zlen (s_in s))) in *.
  assert (zlen (take (Z.to_nat n) (s_in s)) = n) as Hn by (rewrite zlen_take; lia).
  split_and!; [lia|lia|done|by apply Forall_take|].
  exists s, (drop (Z.to_nat n) (s_in s)). split_and!; [done|by rewrite take_drop| |].
  - intros Hz Hp. apply drop_ge. unfold zlen in *. lia.
  - destruct peek; [done|]. by apply twin_put_spec.
Qed.

#[local] Arguments twin_view : simpl never.

#[local] Instance toy_windows_laws : @WinLaws toy_windows.
Proof.
  unshelve refine (@Build_WinLaws toy_windows twin_view _ _ _ _ _ _ _ _ _ _ _ _ _ _ _ _ _ _ _ _ _ _ _ _ _).
  - intros w. unfold twin_view. simpl. by rewrite lookup_delete_eq.
  - done.
  - intros f w r w' [= <- <-]. right. apply twin_fresh_spec.
  - intros fd o w r w' E. apply twin_on_spec in E as [(-> & _ & HV)|(s & Hs & Hfd & [= <- <-])]; [by left|right].
    split; [done|]. exists s, (twin_option o s). split_and!; [done|by destruct o|by apply twin_put_spec].
  - intros fd w t w' E. apply twin_on_spec in E as [(-> & _ & HV)|(s & Hs & Hfd & [= <- <-])]; [done|].
    split; [done|]. intros ms [= <-]. by exists s.
  - intros fd w t w' E. apply twin_on_spec in E as [(-> & _ & HV)|(s & Hs & Hfd & [= <- <-])]; [done|].
    split; [done|]. intros ms [= <-]. by exists s.
  - done.
  - done.
  - intros fd w r sa w' [= <- <- <-]. right. apply twin_fresh_spec.
  - intros fd data len w r w' E Hlen. simpl in E. destruct (Z.ltb_spec len 0); [injection E as <- <-; by left|].
    apply twin_on_spec in E as [(-> & _ & HV)|(s & Hs & Hfd & [= <- <-])]; [by left|right].
    split; [lia|]. exists s. split; [done|]. by apply twin_put_spec.
  - intros fd len w r bytes w' E Hlen. apply twin_recv_spec in E as [?|(? & ? & ? & s & rest & ? & ? & ? & ?)]; [by left|right].
    split_and!; [lia|lia|done|done|]. by exists s, rest.
  - intros fd len w. destruct (win_recv false fd len w) as [[r bytes] w'] eqn:E.
    apply twin_recv_spec in E as [[_ HV]|(_ & _ & _ & s & rest & Hs & _ & _ & HV)]; simpl; rewrite HV; [done|].
    by eapply with_socket_undisturbed.
  - intros fd len w. destruct (win_recv true fd len w) as [[r bytes] w'] eqn:E.
    by apply twin_recv_spec in E as [[_ ?]|(_ & _ & _ & s & rest & _ & _ & _ & ?)].
  - done.
  - intros fd w. unfold twin_view. simpl. f_equal. apply delete_delete.
  - intros fd b w r w' E. apply twin_on_spec in E as [(-> & Hn & HV)|(s & Hs & Hfd & [= <- <-])]; [by left|right].
    split; [done|]. exists s. split; [done|]. by apply twin_put_spec.
  - done.
  - done.
  - by intros fd tv w r x y w' [= <- <- <- <-].
  - intros fd w. destruct (win_get_so_error fd w) as [e w'] eqn:E. by apply twin_on_spec in E as [(-> & _ & HV)|(s & Hs & Hfd & [= <- <-])].
  - intros fd sa w r w' E. apply twin_on_spec in E as [(-> & _ & HV)|(s & Hs & Hfd & E)]; [by rewrite HV|].
    set (s' := mk_socket (s_in s) (s_out s) (s_flags s) (s_rcvtimeo s) (s_sndtimeo s) true) in *.
    assert (twin_view w' = with_socket fd s' (twin_view w)) as HV.
    { destruct (s_flags s =? 0); injection E as _ <-; by apply (twin_put_spec fd s'). }
    rewrite HV. split; [split; [by eapply with_socket_undisturbed|by apply (with_socket_flags fd s)]|].
    intros _. unfold connected. simpl. by rewrite lookup_insert_eq.
  - intros fd sa tv w r w1 n w2 w3 E Hr He [= <- <-] E3. apply twin_on_spec in E3 as [([=] & _)|(s3 & Hs3 & _ & [= <-])].
    apply twin_on_spec in E as [(-> & Hn & HV)|(s & Hs & Hfd & E)]; [by rewrite HV, Hn in Hs3|].
    set (s' := mk_socket (s_in s) (s_out s) (s_flags s) (s_rcvtimeo s) (s_sndtimeo s) true) in *.
    assert (twin_view w1 = with_socket fd s' (twin_view w)) as HV.
    { destruct (s_flags s =? 0); injection E as _ <-; by apply (twin_put_spec fd s'). }
    change (connected fd (twin_view w1)). rewrite HV. unfold connected. simpl. by rewrite lookup_insert_eq.
  - by intros host port w r sas w' [= <- <- <-].
  - done.
  - intros f a. split; [done|]. vm_compute. repeat constructor.
Defined.

Definition w_windows : wsys := (mk_kernel {[ 3 := new_socket ]} 0, WSAENONE).

Lemma ak_tcp_winsock_connect_spec_witness :
  ∃ w', ak_tcp_socket_connect 3 (Some [104]) 80 1000 (Some None) w_windows = (0, Some None, w')
  ∧ (undisturbed (wkernel w_windows) (wkernel w') ∧ flags_of (wkernel w') = flags_of (wkernel w_windows)
     ∧ ((0 = 0 ∧ connected 3 (wkernel w')) ∨ (0 = -1 ∧ told (Some None))))
  ∧ ∃ w1 w2, ak_tcp_socket_set_timeout 3 1500 7 None w' = (0, None, w1)
    ∧ ak_tcp_socket_get_timeout 3 true true None w1 = (0, Some 1500, Some 7, None, w2).
Proof.
  eexists. split; [vm_compute; reflexivity|]. split.
  - apply (ak_tcp_winsock_connect_spec 3 (Some [104]) 80 1000 (Some None) w_windows 0 (Some None)).
    + intros f [= <-]. reflexivity.
    + vm_compute. reflexivity.
  - do 2 eexists. split; [vm_compute; reflexivity|vm_compute; reflexivity].
Defined.

Lemma ak_tcp_winsock_spec_witness :
  win_open (ak_tcp_socket_close 3 w_windows) = (win_open w_windows ∖ {[ 3 ]}).
Proof. apply (wi_close ak_tcp_winsock_spec). Defined.
