(* ===== verification/Platform.v ===== *)
(** Locks, condition variables and threads of a platform, and the functions of
    [kernel/threads/src/thread_platform.c] over them.

    [Platform] is the interface of [kernel.h] that [posix.c] and [win.c] implement, one
    of them in each build.  [thread_call] lists its calls, [view] is what a program can
    rely on of the state, and [promised] what each call does to it; [Pthreads] and
    [Winthreads] prove it of the two files.  The model is of one thread: a call that
    waits for others is seen when it returns. *)

From stdpp Require Import gmap.
From S2P Require Import Prelude.

(** A pointer is its address, or none when it is null. *)
Class Platform := {
  host : Type;
  mutex_init : option Z → host → outcome (Z * host);
  mutex_destroy : option Z → host → outcome (Z * host);
  mutex_lock : option Z → host → outcome (Z * host);
  mutex_unlock : option Z → host → outcome (Z * host);
  cond_init : option Z → host → outcome (Z * host);
  cond_destroy : option Z → host → outcome (Z * host);
  cond_wait : option Z → option Z → host → outcome (Z * host);
  cond_timedwait : option Z → option Z → Z → host → outcome (Z * host);
  cond_signal : option Z → host → outcome (Z * host);
  cond_broadcast : option Z → host → outcome (Z * host);
  (** The answer and what is stored as the thread's handle. *)
  thread_create : option Z → option Z → Z → host → M (Z * option Z * host);
  thread_join : Z → host → outcome (Z * host);
  thread_detach : Z → host → outcome (Z * host);
}.

(** * What a platform promises *)

Inductive thread_call : Type :=
| C_mutex_init (m : option Z)
| C_mutex_destroy (m : option Z)
| C_mutex_lock (m : option Z)
| C_mutex_unlock (m : option Z)
| C_cond_init (c : option Z)
| C_cond_destroy (c : option Z)
| C_cond_wait (c m : option Z)
| C_cond_timedwait (c m : option Z) (timeout_ms : Z)
| C_cond_signal (c : option Z)
| C_cond_broadcast (c : option Z)
| C_create (thread routine : option Z) (arg : Z)
| C_join (thread : Z)
| C_detach (thread : Z).

(** The mutexes that are initialised, true when this thread holds them; the condition
    variables; the threads that may be joined; the time in nanoseconds. *)
Record view := mk_view { v_mutexes : gmap Z bool; v_conds : gset Z; v_threads : gset Z; v_time : Z }.

Definition with_mutexes (f : gmap Z bool → gmap Z bool) (v : view) : view := mk_view (f (v_mutexes v)) (v_conds v) (v_threads v) (v_time v).
Definition with_threads (f : gset Z → gset Z) (v : view) : view := mk_view (v_mutexes v) (v_conds v) (f (v_threads v)) (v_time v).

(** Equal but for the time, and for the condition variables of [X]. *)
Definition same_view (X : gset Z) (v v' : view) : Prop :=
  v_mutexes v' = v_mutexes v ∧ v_conds v' ∖ X = v_conds v ∖ X ∧ v_threads v' = v_threads v.

(** A pointer is null, or what it points to satisfies [P]. *)
Definition null_or (P : Z → bool) (p : option Z) : bool := match p with None => true | Some a => P a end.

(** May the program make the call? *)
Definition allowed (c : thread_call) (v : view) : bool :=
  match c with
  | C_mutex_init m => null_or (λ a, bool_decide (v_mutexes v !! a = None)) m
  | C_mutex_destroy m | C_mutex_lock m => null_or (λ a, bool_decide (v_mutexes v !! a = Some false)) m
  | C_mutex_unlock m => null_or (λ a, bool_decide (v_mutexes v !! a = Some true)) m
  | C_cond_init d => null_or (λ a, bool_decide (a ∉ v_conds v)) d
  | C_cond_destroy d | C_cond_signal d | C_cond_broadcast d => null_or (λ a, bool_decide (a ∈ v_conds v)) d
  | C_cond_wait d m => null_or (λ a, bool_decide (a ∈ v_conds v)) d && null_or (λ a, bool_decide (v_mutexes v !! a = Some true)) m
  | C_cond_timedwait d m t =>
      null_or (λ a, bool_decide (a ∈ v_conds v)) d && null_or (λ a, bool_decide (v_mutexes v !! a = Some true)) m
      && (0 <=? t) && (t <? 2 ^ 32)
  | C_create _ _ _ => true
  | C_join h | C_detach h => bool_decide (h ∈ v_threads v)
  end.

(** What the call answers, what it stores, and the view after it.  The view is that of
    the calling thread: of a signal and a broadcast it has that they change nothing
    of it, and not which sleeping threads they wake. *)
Definition promised (c : thread_call) (v : view) (rc : Z) (stored : option Z) (v' : view) : Prop :=
  match c with
  | C_mutex_init (Some m) => same_view ∅ (if rc =? 0 then with_mutexes <[m := false]> v else v) v'
  | C_mutex_destroy (Some m) => same_view ∅ (if rc =? 0 then with_mutexes (delete m) v else v) v'
  | C_mutex_lock (Some m) => same_view ∅ (if rc =? 0 then with_mutexes <[m := true]> v else v) v'
  | C_mutex_unlock (Some m) => same_view ∅ (if rc =? 0 then with_mutexes <[m := false]> v else v) v'
  | C_cond_init (Some d) => same_view {[d]} v v' ∧ (rc = 0 → d ∈ v_conds v')
  | C_cond_destroy (Some d) => same_view {[d]} v v'
  | C_cond_wait (Some _) (Some _) | C_cond_signal (Some _) | C_cond_broadcast (Some _) => same_view ∅ v v'
  | C_cond_timedwait (Some _) (Some _) t =>
      same_view ∅ v v' ∧ (rc = 0 ∨ rc = 1 ∨ rc = -1) ∧ (rc = 1 → v_time v + t * 1000000 <= v_time v')
  | C_create (Some _) (Some _) _ =>
      if rc =? 0 then ∃ h, stored = Some h ∧ (h ∉ v_threads v) ∧ same_view ∅ (with_threads (union {[h]}) v) v'
      else same_view ∅ v v'
  | C_join h | C_detach h => same_view ∅ (if rc =? 0 then with_threads (λ X, X ∖ {[h]}) v else v) v'
  | _ => rc = -1 ∧ v' = v
  end.

Section platform.
Context `{Platform}.

Definition plain (o : outcome (Z * host)) : M (Z * option Z * host) := '(rc, w) ← lift o; mret (rc, None, w).

Definition perform (c : thread_call) (w : host) : M (Z * option Z * host) :=
  match c with
  | C_mutex_init m => plain (mutex_init m w)
  | C_mutex_destroy m => plain (mutex_destroy m w)
  | C_mutex_lock m => plain (mutex_lock m w)
  | C_mutex_unlock m => plain (mutex_unlock m w)
  | C_cond_init d => plain (cond_init d w)
  | C_cond_destroy d => plain (cond_destroy d w)
  | C_cond_wait d m => plain (cond_wait d m w)
  | C_cond_timedwait d m t => plain (cond_timedwait d m t w)
  | C_cond_signal d => plain (cond_signal d w)
  | C_cond_broadcast d => plain (cond_broadcast d w)
  | C_create t f arg => thread_create t f arg w
  | C_join h => plain (thread_join h w)
  | C_detach h => plain (thread_detach h w)
  end.
End platform.

Class PlatformLaws `{Platform} := {
  host_ok : host → Prop;
  seen : host → view;
  keeps c w s : host_ok w → allowed c (seen w) = true →
    wp (perform c w) (λ '(rc, stored, w') _, host_ok w' ∧ promised c (seen w) rc stored (seen w')) s;
}.

(** * The functions of [thread_platform.c] *)

Section wrappers.
Context `{Platform}.

(** [&mutex->mutex] is the address of its only member. *)
Definition ak_mutex_init (mutex : option Z) (w : host) : outcome (Z * host) :=
  match mutex with None => mret (-1, w) | Some m => mutex_init (Some m) w end.
Definition ak_mutex_destroy (mutex : option Z) (w : host) : outcome (Z * host) :=
  match mutex with None => mret (-1, w) | Some m => mutex_destroy (Some m) w end.
Definition ak_mutex_lock (mutex : option Z) (w : host) : outcome (Z * host) :=
  match mutex with None => mret (-1, w) | Some m => mutex_lock (Some m) w end.
Definition ak_mutex_unlock (mutex : option Z) (w : host) : outcome (Z * host) :=
  match mutex with None => mret (-1, w) | Some m => mutex_unlock (Some m) w end.
Definition ak_cond_init (cond : option Z) (w : host) : outcome (Z * host) :=
  match cond with None => mret (-1, w) | Some c => cond_init (Some c) w end.
Definition ak_cond_destroy (cond : option Z) (w : host) : outcome (Z * host) :=
  match cond with None => mret (-1, w) | Some c => cond_destroy (Some c) w end.
Definition ak_cond_wait (cond mutex : option Z) (w : host) : outcome (Z * host) :=
  match cond, mutex with Some c, Some m => cond_wait (Some c) (Some m) w | _, _ => mret (-1, w) end.
Definition ak_cond_signal (cond : option Z) (w : host) : outcome (Z * host) :=
  match cond with None => mret (-1, w) | Some c => cond_signal (Some c) w end.
Definition ak_cond_broadcast (cond : option Z) (w : host) : outcome (Z * host) :=
  match cond with None => mret (-1, w) | Some c => cond_broadcast (Some c) w end.
Definition ak_thread_create (thread start_routine : option Z) (arg : Z) (w : host) : M (Z * option Z * host) :=
  match thread, start_routine with
  | Some t, Some f => thread_create (Some t) (Some f) arg w
  | _, _ => mret (-1, None, w)
  end.
Definition ak_thread_join (thread : Z) (w : host) : outcome (Z * host) := thread_join thread w.

(** The interface that [threads.c] uses; it has neither of the last two calls. *)
Definition thread_platform : Platform := {|
  host := host;
  mutex_init := ak_mutex_init;
  mutex_destroy := ak_mutex_destroy;
  mutex_lock := ak_mutex_lock;
  mutex_unlock := ak_mutex_unlock;
  cond_init := ak_cond_init;
  cond_destroy := ak_cond_destroy;
  cond_wait := ak_cond_wait;
  cond_timedwait := cond_timedwait;
  cond_signal := ak_cond_signal;
  cond_broadcast := ak_cond_broadcast;
  thread_create := ak_thread_create;
  thread_join := ak_thread_join;
  thread_detach := thread_detach;
|}.
End wrappers.

(** The functions of [thread_platform.c] keep the promises of the platform they are
    built on. *)
Section laws.
Context `{HL : PlatformLaws}.

#[export] Instance thread_platform_laws : @PlatformLaws thread_platform.
Proof.
  refine (@Build_PlatformLaws thread_platform (@host_ok _ HL) (@seen _ HL) _). intros c w s Hok Ha. pose proof (@keeps _ HL c w s Hok Ha) as Hk.
  destruct c as [m|m|m|m|d|d|d m|d m t|d|d|t f arg|h|h]; try exact Hk;
    repeat match goal with p : option Z |- _ => destruct p as [p|] end; try exact Hk; by split.
Defined.
End laws.
