(* ===== verification/Pthreads.v ===== *)
(** Locks, condition variables and threads of POSIX: the wrappers of
    [kernel/src/posix.c] over pthreads.  The functions of the system are the methods of
    [PthreadSystem]; [PthreadLaws] is what its documentation says of them. *)

From stdpp Require Import gmap.
From S2P Require Import Prelude Signals Platform.

Class PthreadSystem := {
  psys : Type;
  (** With the attributes [NULL]. *)
  pthread_mutex_init : Z → psys → Z * psys;
  pthread_mutex_destroy : Z → psys → Z * psys;
  pthread_mutex_lock : Z → psys → Z * psys;
  pthread_mutex_unlock : Z → psys → Z * psys;
  pthread_cond_init : Z → psys → Z * psys;
  pthread_cond_destroy : Z → psys → Z * psys;
  pthread_cond_wait : Z → Z → psys → Z * psys;
  pthread_cond_timedwait : Z → Z → Z * Z → psys → Z * psys;
  pthread_cond_signal : Z → psys → Z * psys;
  pthread_cond_broadcast : Z → psys → Z * psys;
  (** Seconds and nanoseconds of [CLOCK_REALTIME]. *)
  clock_gettime : psys → Z * Z;
  (** The answer and the handle; with the collector, [GC_pthread_create]. *)
  pthread_create : bool → Z → Z → psys → Z * Z * psys;
  pthread_join : Z → psys → Z * psys;
  pthread_detach : Z → psys → Z * psys;
}.

(** * The functions of [posix.c] *)

Section pthreads.
Context `{PthreadSystem}.

Definition AK24_mutex_init (mutex : option Z) (w : psys) : Z * psys :=
  match mutex with None => (-1, w) | Some m => pthread_mutex_init m w end.
Definition AK24_mutex_destroy (mutex : option Z) (w : psys) : Z * psys :=
  match mutex with None => (-1, w) | Some m => pthread_mutex_destroy m w end.
Definition AK24_mutex_lock (mutex : option Z) (w : psys) : Z * psys :=
  match mutex with None => (-1, w) | Some m => pthread_mutex_lock m w end.
Definition AK24_mutex_unlock (mutex : option Z) (w : psys) : Z * psys :=
  match mutex with None => (-1, w) | Some m => pthread_mutex_unlock m w end.
Definition AK24_cond_init (cond : option Z) (w : psys) : Z * psys :=
  match cond with None => (-1, w) | Some c => pthread_cond_init c w end.
Definition AK24_cond_destroy (cond : option Z) (w : psys) : Z * psys :=
  match cond with None => (-1, w) | Some c => pthread_cond_destroy c w end.
Definition AK24_cond_wait (cond mutex : option Z) (w : psys) : Z * psys :=
  match cond, mutex with Some c, Some m => pthread_cond_wait c m w | _, _ => (-1, w) end.

Definition AK24_cond_timedwait (cond mutex : option Z) (timeout_ms : Z) (w : psys) : Z * psys :=
  match cond, mutex with
  | Some c, Some m =>
      let ts := clock_gettime w in
      let '(result, w) := pthread_cond_timedwait c m (wait_until ts.1 ts.2 timeout_ms) w in
      (if result =? 0 then 0 else if result =? ETIMEDOUT then 1 else -1, w)
  | _, _ => (-1, w)
  end.

Definition AK24_cond_signal (cond : option Z) (w : psys) : Z * psys :=
  match cond with None => (-1, w) | Some c => pthread_cond_signal c w end.
Definition AK24_cond_broadcast (cond : option Z) (w : psys) : Z * psys :=
  match cond with None => (-1, w) | Some c => pthread_cond_broadcast c w end.

(** [gc]: is [AK24_GC_ENABLED] set in the build? *)
Definition AK24_THREAD_CREATE (gc : bool) (thread start_routine : option Z) (arg : Z) (w : psys) : Z * option Z * psys :=
  match thread, start_routine with
  | Some _, Some f => let '(rc, handle, w) := pthread_create gc f arg w in (rc, Some handle, w)
  | _, _ => (-1, None, w)
  end.

Definition AK24_THREAD_JOIN (thread : Z) (w : psys) : Z * psys := pthread_join thread w.
Definition AK24_THREAD_DETACH (thread : Z) (w : psys) : Z * psys := pthread_detach thread w.

#[export] Instance posix_platform (gc : bool) : Platform := {|
  host := psys;
  mutex_init m w := Ret (AK24_mutex_init m w);
  mutex_destroy m w := Ret (AK24_mutex_destroy m w);
  mutex_lock m w := Ret (AK24_mutex_lock m w);
  mutex_unlock m w := Ret (AK24_mutex_unlock m w);
  cond_init c w := Ret (AK24_cond_init c w);
  cond_destroy c w := Ret (AK24_cond_destroy c w);
  cond_wait c m w := Ret (AK24_cond_wait c m w);
  cond_timedwait c m t w := Ret (AK24_cond_timedwait c m t w);
  cond_signal c w := Ret (AK24_cond_signal c w);
  cond_broadcast c w := Ret (AK24_cond_broadcast c w);
  thread_create t f arg w := mret (AK24_THREAD_CREATE gc t f arg w);
  thread_join h w := Ret (AK24_THREAD_JOIN h w);
  thread_detach h w := Ret (AK24_THREAD_DETACH h w);
|}.
End pthreads.

(** * What the system does *)

(** A call that answers 0 has done [f], and any other answer nothing. *)
Definition did {A} (see : A → view) (X : gset Z) (f : view → view) (w : A) (r : Z * A) : Prop :=
  same_view X (if r.1 =? 0 then f (see w) else see w) (see r.2).

Definition nanoseconds (ts : Z * Z) : Z := ts.1 * 1000000000 + ts.2.

Class PthreadLaws `{PthreadSystem} := {
  sees : psys → view;
  time_ok w : v_time (sees w) = nanoseconds (clock_gettime w) ∧ 0 <= (clock_gettime w).1 < 2 ^ 62 ∧ 0 <= (clock_gettime w).2 < 1000000000;
  init_ok m w : v_mutexes (sees w) !! m = None → did sees ∅ (with_mutexes <[m := false]>) w (pthread_mutex_init m w);
  destroy_ok m w : v_mutexes (sees w) !! m = Some false → did sees ∅ (with_mutexes (delete m)) w (pthread_mutex_destroy m w);
  lock_ok m w : v_mutexes (sees w) !! m = Some false → did sees ∅ (with_mutexes <[m := true]>) w (pthread_mutex_lock m w);
  unlock_ok m w : v_mutexes (sees w) !! m = Some true → did sees ∅ (with_mutexes <[m := false]>) w (pthread_mutex_unlock m w);
  cond_init_ok c w : c ∉ v_conds (sees w) →
    let r := pthread_cond_init c w in same_view {[c]} (sees w) (sees r.2) ∧ (r.1 = 0 → c ∈ v_conds (sees r.2));
  cond_destroy_ok c w : c ∈ v_conds (sees w) → same_view {[c]} (sees w) (sees (pthread_cond_destroy c w).2);
  (** The mutex is held again when the call returns, whatever it answers. *)
  wait_ok c m w : c ∈ v_conds (sees w) → v_mutexes (sees w) !! m = Some true → same_view ∅ (sees w) (sees (pthread_cond_wait c m w).2);
  timedwait_ok c m ts w : c ∈ v_conds (sees w) → v_mutexes (sees w) !! m = Some true → 0 <= ts.2 < 1000000000 →
    let r := pthread_cond_timedwait c m ts w in
    same_view ∅ (sees w) (sees r.2) ∧ (r.1 = ETIMEDOUT → nanoseconds ts <= v_time (sees r.2));
  signal_ok c w : c ∈ v_conds (sees w) → same_view ∅ (sees w) (sees (pthread_cond_signal c w).2);
  broadcast_ok c w : c ∈ v_conds (sees w) → same_view ∅ (sees w) (sees (pthread_cond_broadcast c w).2);
  create_ok gc f arg w :
    let '(rc, h, w') := pthread_create gc f arg w in
    if rc =? 0 then (h ∉ v_threads (sees w)) ∧ same_view ∅ (with_threads (union {[h]}) (sees w)) (sees w')
    else same_view ∅ (sees w) (sees w');
  join_ok h w : h ∈ v_threads (sees w) → did sees ∅ (with_threads (λ X, X ∖ {[h]})) w (pthread_join h w);
  detach_ok h w : h ∈ v_threads (sees w) → did sees ∅ (with_threads (λ X, X ∖ {[h]})) w (pthread_detach h w);
}.

(** * POSIX keeps the promises *)

Section posix_laws.
Context `{HL : PthreadLaws}.

Lemma cond_timedwait_ok c m t w :
  c ∈ v_conds (sees w) → v_mutexes (sees w) !! m = Some true → 0 <= t < 2 ^ 32 →
  let '(rc, w') := AK24_cond_timedwait (Some c) (Some m) t w in
  same_view ∅ (sees w) (sees w') ∧ (rc = 0 ∨ rc = 1 ∨ rc = -1) ∧ (rc = 1 → v_time (sees w) + t * 1000000 <= v_time (sees w')).
Proof.
  intros Hc Hm Ht. simpl. destruct (time_ok w) as (Hnow & Hs & Hn).
  pose proof (wait_until_ok (clock_gettime w).1 (clock_gettime w).2 t Hs Hn Ht) as Hu.
  destruct (wait_until _ _ _) as [sec nsec]. destruct Hu as [Hr He].
  pose proof (timedwait_ok c m (sec, nsec) w Hc Hm Hr) as [HV HT]. destruct (pthread_cond_timedwait _ _ _ _) as [rc w']. simpl in *.
  split; [done|]. unfold nanoseconds in *. simpl in *. repeat zcase; (split; [by auto|lia]).
Qed.

(** A call with a law [did]. *)
Lemma plain_did (f : view → view) w (o : Z * psys) s :
  did sees ∅ f w o → wp (plain (H := posix_platform false) (Ret o)) (λ '(rc, _, w') _, True ∧ same_view ∅ (if rc =? 0 then f (sees w) else sees w) (sees w')) s.
Proof. destruct o as [rc w']. intros Hd. by split. Qed.

#[export] Instance posix_laws (gc : bool) : @PlatformLaws (posix_platform gc).
Proof.
  refine (@Build_PlatformLaws (posix_platform gc) (λ _, True) sees _). intros c w s _ Ha.
  destruct c as [[m|]|[m|]|[m|]|[m|]|[d|]|[d|]|[d|] [m|]|[d|] [m|] t|[d|]|[d|]|[t|] [f|] arg|h|h]; simpl in Ha |- *;
    try (by split); rewrite ?andb_true_iff, ?bool_decide_eq_true in Ha.
  - by apply plain_did, init_ok.
  - by apply plain_did, destroy_ok.
  - by apply plain_did, lock_ok.
  - by apply plain_did, unlock_ok.
  - pose proof (cond_init_ok d w Ha) as Hk. by destruct (pthread_cond_init d w).
  - pose proof (cond_destroy_ok d w Ha) as Hk. by destruct (pthread_cond_destroy d w).
  - pose proof (wait_ok d m w (proj1 Ha) (proj2 Ha)) as Hk. by destruct (pthread_cond_wait d m w).
  - destruct Ha as [[[Hd Hm] Ht%Z.leb_le] Ht'%Z.ltb_lt]. pose proof (cond_timedwait_ok d m t w Hd Hm ltac:(lia)) as Hk.
    unfold wp, plain. simpl. simpl in Hk. by destruct (pthread_cond_timedwait _ _ _ _).
  - pose proof (signal_ok d w Ha) as Hk. by destruct (pthread_cond_signal d w).
  - pose proof (broadcast_ok d w Ha) as Hk. by destruct (pthread_cond_broadcast d w).
  - pose proof (create_ok gc f arg w) as Hk. unfold wp. simpl. destruct (pthread_create gc f arg w) as [[rc h] w']. simpl.
    split; [done|]. destruct (rc =? 0); [by exists h|done].
  - by apply plain_did, join_ok.
  - by apply plain_did, detach_ok.
Defined.
End posix_laws.

(** * A small system

    Every call succeeds, and a wait ends by its time. *)

Definition toy_clock (t : Z) : Z := t mod (2 ^ 62 * 1000000000).
Definition with_time (t : Z) (v : view) : view := mk_view (v_mutexes v) (v_conds v) (v_threads v) t.
Definition toy_sees (v : view) : view := with_time (toy_clock (v_time v)) v.

Definition toy_timedwait (c m : Z) (ts : Z * Z) (v : view) : Z * view :=
  if toy_clock (nanoseconds ts) =? nanoseconds ts then (ETIMEDOUT, with_time (nanoseconds ts) v) else (22, v).

Definition toy_handle (v : view) : Z := fresh (v_threads v).

#[export] Instance toy_pthreads : PthreadSystem := {|
  psys := view;
  pthread_mutex_init m v := (0, with_mutexes <[m := false]> v);
  pthread_mutex_destroy m v := (0, with_mutexes (delete m) v);
  pthread_mutex_lock m v := (0, with_mutexes <[m := true]> v);
  pthread_mutex_unlock m v := (0, with_mutexes <[m := false]> v);
  pthread_cond_init c v := (0, mk_view (v_mutexes v) ({[c]} ∪ v_conds v) (v_threads v) (v_time v));
  pthread_cond_destroy _ v := (0, v);
  pthread_cond_wait _ _ v := (0, v);
  pthread_cond_timedwait := toy_timedwait;
  pthread_cond_signal _ v := (0, v);
  pthread_cond_broadcast _ v := (0, v);
  clock_gettime v := (toy_clock (v_time v) / 1000000000, toy_clock (v_time v) mod 1000000000);
  pthread_create _ _ _ v := (0, toy_handle v, with_threads (union {[toy_handle v]}) v);
  pthread_join h v := (0, with_threads (λ X, X ∖ {[h]}) v);
  pthread_detach h v := (0, with_threads (λ X, X ∖ {[h]}) v);
|}.

#[export] Instance toy_pthread_laws : @PthreadLaws toy_pthreads.
Proof.
  refine (@Build_PthreadLaws toy_pthreads toy_sees _ _ _ _ _ _ _ _ _ _ _ _ _ _); try done.
  - intros v. simpl. pose proof (Z.mod_pos_bound (v_time v) (2 ^ 62 * 1000000000) ltac:(lia)) as Hb. fold (toy_clock (v_time v)) in Hb.
    set (t := toy_clock (v_time v)) in *. pose proof (Z.div_mod t 1000000000 ltac:(lia)) as Hdm.
    pose proof (Z.mod_pos_bound t 1000000000 ltac:(lia)). unfold nanoseconds. simpl. split; [lia|]. split; [|lia].
    split; [apply Z.div_pos; lia|apply Z.div_lt_upper_bound; lia].
  - intros c v _. simpl. unfold same_view. simpl. split; [|by intros _; apply elem_of_union_l, elem_of_singleton].
    split_and!; [done| |done]. by rewrite difference_union_distr_l_L, difference_diag_L, (left_id_L ∅ (∪)).
  - intros c m ts v _ _ _. simpl. unfold toy_timedwait. destruct (Z.eqb_spec (toy_clock (nanoseconds ts)) (nanoseconds ts)) as [E|_]; simpl.
    + split; [by split_and!|]. intros _. lia.
    + by split_and!.
  - intros gc f arg v. simpl. split; [exact (is_fresh (v_threads v))|by split_and!].
Defined.
