(* ===== verification/Winthreads.v ===== *)
(** Locks, condition variables and threads of Windows: [kernel/src/win.c].  The
    functions of the system are the methods of [WinThreadSystem]; [WinThreadLaws] is
    what its documentation says of them.

    A thread of Windows gets one pointer, so [AK24_THREAD_CREATE] passes the routine and
    its argument in a block, which the new thread releases.  The model has these blocks,
    the threads that the system has made and not yet begun, and the calls of routines. *)

From Stdlib Require String.
From stdpp Require Import gmap.
From S2P Require Import Prelude Platform Pthreads.
Import Stdlib.Strings.String.StringSyntax.
#[local] Delimit Scope string_scope with str.

Class WinThreadSystem := {
  wsys : Type;
  GetStdHandle : wsys → Z;
  (** The attributes; none when the output is no console. *)
  GetConsoleScreenBufferInfo : Z → wsys → option Z;
  SetConsoleTextAttribute : Z → Z → wsys → wsys;
  vprintf : String.string → wsys → wsys;
  InitializeCriticalSection : Z → wsys → wsys;
  (** Undefined for a section that is not initialised. *)
  DeleteCriticalSection : Z → wsys → outcome wsys;
  EnterCriticalSection : Z → wsys → outcome wsys;
  LeaveCriticalSection : Z → wsys → outcome wsys;
  InitializeConditionVariable : Z → wsys → wsys;
  SleepConditionVariableCS : Z → Z → Z → wsys → outcome (bool * wsys);
  GetLastError : wsys → Z;
  WakeConditionVariable : Z → wsys → wsys;
  WakeAllConditionVariable : Z → wsys → wsys;
  (** With the parameter of the new thread, which runs [ak_win_thread_wrapper]. *)
  CreateThread : Z → wsys → Z * wsys;
  WaitForSingleObject : Z → Z → wsys → Z * wsys;
  CloseHandle : Z → wsys → bool * wsys;
}.

Definition INFINITE : Z := 2 ^ 32 - 1.
Definition ERROR_TIMEOUT : Z := 1460.
Definition WAIT_OBJECT_0 : Z := 0.
Definition FOREGROUND_BLUE : Z := 1.
Definition FOREGROUND_GREEN : Z := 2.
Definition FOREGROUND_RED : Z := 4.
Definition FOREGROUND_INTENSITY : Z := 8.

(** A routine and its argument. *)
Record ak_win_thread_adapter_t := mk_adapter { start_routine : Z; adapter_arg : Z }.
Definition sizeof_ak_win_thread_adapter_t : Z := 16.

#[export] Instance adapter_eq_dec : EqDecision ak_win_thread_adapter_t.
Proof. solve_decision. Defined.

Section win.
Context `{Allocator} `{WinThreadSystem}.

Record win_host := mk_win {
  w_sys : wsys;
  w_adapters : gmap Z ak_win_thread_adapter_t;
  w_next : Z;
  (** The parameters of the threads that have not begun. *)
  w_waiting : list Z;
  (** The calls of the routines of threads. *)
  w_calls : list ak_win_thread_adapter_t;
}.

Definition with_sys (w : win_host) (y : wsys) : win_host := mk_win y (w_adapters w) (w_next w) (w_waiting w) (w_calls w).
Definition with_adapters (w : win_host) (m : gmap Z ak_win_thread_adapter_t) : win_host := mk_win (w_sys w) m (w_next w) (w_waiting w) (w_calls w).
Definition with_waiting (w : win_host) (l : list Z) : win_host := mk_win (w_sys w) (w_adapters w) (w_next w) l (w_calls w).

(** * The functions of [win.c] *)

Definition ak_print_warning (text : String.string) (y : wsys) : wsys :=
  let hConsole := GetStdHandle y in
  let saved_attributes := match GetConsoleScreenBufferInfo hConsole y with
                          | Some a => a
                          | None => Z.lor (Z.lor FOREGROUND_RED FOREGROUND_GREEN) FOREGROUND_BLUE
                          end in
  let y := SetConsoleTextAttribute hConsole (Z.lor FOREGROUND_RED FOREGROUND_INTENSITY) y in
  let y := vprintf text y in
  SetConsoleTextAttribute hConsole saved_attributes y.

(** Windows has no signals. *)
Definition ak_register_signal_handler (signum : Z) (handler : option positive) (w : win_host) : win_host := w.
Definition ak_unregister_signal_handler (signum : Z) (w : win_host) : win_host := w.
Definition ak_signal_handlers_init (w : win_host) : win_host := w.
Definition ak_signal_handlers_deinit (w : win_host) : win_host := w.

Definition AK24_mutex_init (mutex : option Z) (w : win_host) : outcome (Z * win_host) :=
  match mutex with None => mret (-1, w) | Some m => mret (0, with_sys w (InitializeCriticalSection m (w_sys w))) end.
Definition AK24_mutex_destroy (mutex : option Z) (w : win_host) : outcome (Z * win_host) :=
  match mutex with None => mret (-1, w) | Some m => y ← DeleteCriticalSection m (w_sys w); mret (0, with_sys w y) end.
Definition AK24_mutex_lock (mutex : option Z) (w : win_host) : outcome (Z * win_host) :=
  match mutex with None => mret (-1, w) | Some m => y ← EnterCriticalSection m (w_sys w); mret (0, with_sys w y) end.
Definition AK24_mutex_unlock (mutex : option Z) (w : win_host) : outcome (Z * win_host) :=
  match mutex with None => mret (-1, w) | Some m => y ← LeaveCriticalSection m (w_sys w); mret (0, with_sys w y) end.
Definition AK24_cond_init (cond : option Z) (w : win_host) : outcome (Z * win_host) :=
  match cond with None => mret (-1, w) | Some c => mret (0, with_sys w (InitializeConditionVariable c (w_sys w))) end.
Definition AK24_cond_destroy (cond : option Z) (w : win_host) : outcome (Z * win_host) :=
  match cond with None => mret (-1, w) | Some _ => mret (0, w) end.

Definition AK24_cond_wait (cond mutex : option Z) (w : win_host) : outcome (Z * win_host) :=
  match cond, mutex with
  | Some c, Some m =>
      '(b, y) ← SleepConditionVariableCS c m INFINITE (w_sys w);
      mret (if b : bool then 0 else -1, with_sys w y)
  | _, _ => mret (-1, w)
  end.

Definition AK24_cond_timedwait (cond mutex : option Z) (timeout_ms : Z) (w : win_host) : outcome (Z * win_host) :=
  match cond, mutex with
  | Some c, Some m =>
      '(result, y) ← SleepConditionVariableCS c m timeout_ms (w_sys w);
      if result : bool then mret (0, with_sys w y) else
      if GetLastError y =? ERROR_TIMEOUT then mret (1, with_sys w y) else mret (-1, with_sys w y)
  | _, _ => mret (-1, w)
  end.

Definition AK24_cond_signal (cond : option Z) (w : win_host) : outcome (Z * win_host) :=
  match cond with None => mret (-1, w) | Some c => mret (0, with_sys w (WakeConditionVariable c (w_sys w))) end.
Definition AK24_cond_broadcast (cond : option Z) (w : win_host) : outcome (Z * win_host) :=
  match cond with None => mret (-1, w) | Some c => mret (0, with_sys w (WakeAllConditionVariable c (w_sys w))) end.

(** [*adapter] *)
Definition deref_adapter (p : Z) (w : win_host) : outcome ak_win_thread_adapter_t :=
  match w_adapters w !! p with Some a => Ret a | None => Undef end.

(** [AK24_FREE(adapter)] *)
Definition free_adapter (p : Z) (w : win_host) : M win_host :=
  _ ← lift (deref_adapter p w);
  _ ← free_obj;
  mret (with_adapters w (delete p (w_adapters w))).

(** What a new thread does with its parameter; [result] is what the routine answers. *)
Definition ak_win_thread_wrapper (param result : Z) (w : win_host) : M (Z * win_host) :=
  adapter ← lift (deref_adapter param w);
  let start_routine := start_routine adapter in
  let arg := adapter_arg adapter in
  w ← free_adapter param w;
  let w := mk_win (w_sys w) (w_adapters w) (w_next w) (w_waiting w) (w_calls w ++ [mk_adapter start_routine arg]) in
  mret (u32 result, w).

Definition untested : String.string := "WARNING: Windows threading implementation is UNTESTED CODE
"%str.

(** [CreateThread]: the new thread will run with its parameter. *)
Definition create_thread (param : Z) (w : win_host) : Z * win_host :=
  let '(handle, y) := CreateThread param (w_sys w) in
  (handle, with_waiting (with_sys w y) (if handle =? 0 then w_waiting w else w_waiting w ++ [param])).

Definition AK24_THREAD_CREATE (thread start_routine : option Z) (arg : Z) (w : win_host) : M (Z * option Z * win_host) :=
  match thread, start_routine with
  | Some _, Some f =>
      let w := with_sys w (ak_print_warning untested (w_sys w)) in
      ok ← alloc_obj sizeof_ak_win_thread_adapter_t;
      if negb ok then mret (-1, None, w) else
      let adapter := w_next w in
      let w := mk_win (w_sys w) (<[adapter := mk_adapter f arg]> (w_adapters w)) (adapter + 1) (w_waiting w) (w_calls w) in
      let '(handle, w) := create_thread adapter w in
      if handle =? 0 then
        w ← free_adapter adapter w;
        mret (-1, Some handle, w)
      else mret (0, Some handle, w)
  | _, _ => mret (-1, None, w)
  end.

Definition AK24_THREAD_JOIN (thread : Z) (w : win_host) : outcome (Z * win_host) :=
  if thread =? 0 then mret (-1, w) else
  let '(result, y) := WaitForSingleObject thread INFINITE (w_sys w) in
  if result =? WAIT_OBJECT_0 then mret (0, with_sys w (CloseHandle thread y).2) else mret (-1, with_sys w y).

Definition AK24_THREAD_DETACH (thread : Z) (w : win_host) : outcome (Z * win_host) :=
  if thread =? 0 then mret (-1, w) else
  let '(closed, y) := CloseHandle thread (w_sys w) in
  mret (if closed : bool then 0 else -1, with_sys w y).

#[export] Instance windows_platform : Platform := {|
  host := win_host;
  mutex_init := AK24_mutex_init;
  mutex_destroy := AK24_mutex_destroy;
  mutex_lock := AK24_mutex_lock;
  mutex_unlock := AK24_mutex_unlock;
  cond_init := AK24_cond_init;
  cond_destroy := AK24_cond_destroy;
  cond_wait := AK24_cond_wait;
  cond_timedwait := AK24_cond_timedwait;
  cond_signal := AK24_cond_signal;
  cond_broadcast := AK24_cond_broadcast;
  thread_create := AK24_THREAD_CREATE;
  thread_join := AK24_THREAD_JOIN;
  thread_detach := AK24_THREAD_DETACH;
|}.
End win.

(** * What the system does *)

(** The system accepts the call, and [P] holds of the state after it. *)
Class WinThreadLaws `{WinThreadSystem} := {
  sees : wsys → view;
  (** The attributes of the console, and what has been printed, with its attributes. *)
  attributes : wsys → Z;
  printed : wsys → list (Z * String.string);
  info_ok h y a : GetConsoleScreenBufferInfo h y = Some a → a = attributes y;
  set_ok h a y : attributes (SetConsoleTextAttribute h a y) = a ∧ printed (SetConsoleTextAttribute h a y) = printed y
    ∧ same_view ∅ (sees y) (sees (SetConsoleTextAttribute h a y));
  vprintf_ok t y : attributes (vprintf t y) = attributes y ∧ printed (vprintf t y) = printed y ++ [(attributes y, t)]
    ∧ same_view ∅ (sees y) (sees (vprintf t y));
  init_ok m y : v_mutexes (sees y) !! m = None → same_view ∅ (with_mutexes <[m := false]> (sees y)) (sees (InitializeCriticalSection m y));
  delete_ok m y : v_mutexes (sees y) !! m = Some false →
    wpo (DeleteCriticalSection m y) (λ y', same_view ∅ (with_mutexes (delete m) (sees y)) (sees y'));
  enter_ok m y : v_mutexes (sees y) !! m = Some false →
    wpo (EnterCriticalSection m y) (λ y', same_view ∅ (with_mutexes <[m := true]> (sees y)) (sees y'));
  leave_ok m y : v_mutexes (sees y) !! m = Some true →
    wpo (LeaveCriticalSection m y) (λ y', same_view ∅ (with_mutexes <[m := false]> (sees y)) (sees y'));
  condition_ok c y : c ∉ v_conds (sees y) →
    let y' := InitializeConditionVariable c y in same_view {[c]} (sees y) (sees y') ∧ c ∈ v_conds (sees y');
  (** The section is entered again when the call returns; an infinite time does not end. *)
  sleep_ok c m ms y : c ∈ v_conds (sees y) → v_mutexes (sees y) !! m = Some true → 0 <= ms < 2 ^ 32 →
    wpo (SleepConditionVariableCS c m ms y) (λ '(b, y'), same_view ∅ (sees y) (sees y')
      ∧ (b = false → GetLastError y' = ERROR_TIMEOUT → ms ≠ INFINITE ∧ v_time (sees y) + ms * 1000000 <= v_time (sees y')));
  wake_ok c y : c ∈ v_conds (sees y) → same_view ∅ (sees y) (sees (WakeConditionVariable c y));
  wake_all_ok c y : c ∈ v_conds (sees y) → same_view ∅ (sees y) (sees (WakeAllConditionVariable c y));
  (** The handle is null when the call fails. *)
  create_ok p y :
    let '(h, y') := CreateThread p y in
    if h =? 0 then same_view ∅ (sees y) (sees y')
    else (h ∉ v_threads (sees y)) ∧ same_view ∅ (with_threads (union {[h]}) (sees y)) (sees y');
  join_ok h ms y : h ∈ v_threads (sees y) → same_view ∅ (sees y) (sees (WaitForSingleObject h ms y).2);
  (** An open handle can be closed. *)
  close_ok h y : h ∈ v_threads (sees y) →
    let '(b, y') := CloseHandle h y in b = true ∧ same_view ∅ (with_threads (λ X, X ∖ {[h]}) (sees y)) (sees y');
}.

(** * Windows keeps the promises *)

Section win_laws.
Context `{Allocator} `{HL : WinThreadLaws}.
Implicit Types (w : win_host) (s : mem).

(** Each thread that has not begun has its block, and there are no others. *)
Record win_ok (w : win_host) : Prop := {
  wo_nodup : NoDup (w_waiting w);
  wo_blocks p : p ∈ w_waiting w ↔ is_Some (w_adapters w !! p);
  wo_fresh p : is_Some (w_adapters w !! p) → p < w_next w;
}.

(** The routines that threads have still to call. *)
Definition pending (w : win_host) : list ak_win_thread_adapter_t := omap (λ p, w_adapters w !! p) (w_waiting w).

Lemma same_view_refl X v : same_view X v v.
Proof. by split_and!. Qed.

Lemma same_view_trans X v1 v2 v3 : same_view X v1 v2 → same_view X v2 v3 → same_view X v1 v3.
Proof. intros (A1 & B1 & C1) (A2 & B2 & C2). split_and!; congruence. Qed.

Lemma same_view_threads f v v' : same_view ∅ v v' → same_view ∅ (with_threads f v) (with_threads f v').
Proof. intros (A & B & C). split_and!; simpl; congruence. Qed.

(** A warning is printed in bright red; the attributes are then as before, or white when
    there is no console to ask. *)
Lemma ak_print_warning_ok text y :
  let y' := ak_print_warning text y in
  same_view ∅ (sees y) (sees y') ∧ printed y' = printed y ++ [(12, text)]
  ∧ attributes y' = match GetConsoleScreenBufferInfo (GetStdHandle y) y with Some _ => attributes y | None => 7 end.
Proof.
  unfold ak_print_warning. change (Z.lor FOREGROUND_RED FOREGROUND_INTENSITY) with 12.
  change (Z.lor (Z.lor FOREGROUND_RED FOREGROUND_GREEN) FOREGROUND_BLUE) with 7. simpl. set (saved := match GetConsoleScreenBufferInfo (GetStdHandle y) y with Some a => a | None => 7 end).
  destruct (set_ok (GetStdHandle y) 12 y) as (Ha & Hp & Hv). set (y1 := SetConsoleTextAttribute _ 12 y) in *.
  destruct (vprintf_ok text y1) as (Ha1 & Hp1 & Hv1). set (y2 := vprintf text y1) in *.
  destruct (set_ok (GetStdHandle y) saved y2) as (Ha2 & Hp2 & Hv2). split_and!.
  - eapply same_view_trans; [exact Hv|]. by eapply same_view_trans.
  - by rewrite Hp2, Hp1, Hp, Ha.
  - rewrite Ha2. unfold saved. destruct (GetConsoleScreenBufferInfo _ _) as [a|] eqn:E; [|done]. by eapply info_ok.
Qed.

Lemma omap_same {A} (f g : Z → option A) (l : list Z) : (∀ q, q ∈ l → f q = g q) → omap f l = omap g l.
Proof.
  induction l as [|q l IH]; intros Hl; [done|]. csimpl. rewrite (Hl q), IH; [done| |].
  - intros q' Hq'. apply Hl. by right.
  - by left.
Qed.

Lemma pending_insert (l : list Z) p a (m : gmap Z ak_win_thread_adapter_t) :
  p ∉ l → omap (λ q, <[p := a]> m !! q) l = omap (λ q, m !! q) l.
Proof. intros Hp. apply omap_same. intros q Hq. rewrite lookup_insert_ne; [done|]. by intros ->. Qed.

Lemma pending_delete (l : list Z) p (m : gmap Z ak_win_thread_adapter_t) :
  p ∉ l → omap (λ q, delete p m !! q) l = omap (λ q, m !! q) l.
Proof. intros Hp. apply omap_same. intros q Hq. rewrite lookup_delete_ne; [done|]. by intros ->. Qed.

Lemma win_ok_sys w y : win_ok w → win_ok (with_sys w y).
Proof. intros [H1 H2 H3]. by split. Qed.

(** What the creation of a thread does with its block. *)
Definition created (f arg : Z) (w : win_host) (rc : Z) (w' : win_host) : Prop :=
  w_calls w' = w_calls w
  ∧ if rc =? 0 then pending w' = pending w ++ [mk_adapter f arg] ∧ zlen (w_waiting w') = zlen (w_waiting w) + 1
    else pending w' = pending w ∧ zlen (w_waiting w') = zlen (w_waiting w).

Lemma wp_free_adapter p a w Q s :
  w_adapters w !! p = Some a →
  (∀ s', m_live s' = m_live s - 1 → Q (with_adapters w (delete p (w_adapters w))) s') → wp (free_adapter p w) Q s.
Proof.
  intros Hp HQ. unfold free_adapter, deref_adapter. rewrite Hp. simpl. apply wp_bind, wp_lift. simpl. apply wp_bind, wp_free_obj.
  intros s' Hs' _. by apply HQ.
Qed.

Lemma fresh_block w : win_ok w → w_adapters w !! w_next w = None ∧ w_next w ∉ w_waiting w.
Proof.
  intros [_ Hb Hf]. assert (w_adapters w !! w_next w = None) as Hn.
  { apply eq_None_not_Some. intros Hs%Hf. lia. }
  split; [done|]. intros [a Ha]%Hb. congruence.
Qed.

Lemma thread_create_ok t f arg w s :
  win_ok w →
  wp (AK24_THREAD_CREATE (Some t) (Some f) arg w) (λ '(rc, stored, w') s',
    win_ok w' ∧ created f arg w rc w' ∧ m_live s' = m_live s + zlen (w_waiting w') - zlen (w_waiting w)
    ∧ promised (C_create (Some t) (Some f) arg) (sees (w_sys w)) rc stored (sees (w_sys w'))) s.
Proof.
  intros Hok. destruct (fresh_block _ Hok) as [Hn Hnw]. pose proof Hok as [Hnd Hb Hf].
  destruct (ak_print_warning_ok untested (w_sys w)) as (Hv & _).
  unfold AK24_THREAD_CREATE. apply wp_bind, wp_alloc_obj. intros ok s1 [HL1 _]. destruct ok; simpl in *.
  - unfold create_thread. simpl. pose proof (create_ok (w_next w) (ak_print_warning untested (w_sys w))) as Hc.
    destruct (CreateThread _ _) as [h y]. simpl in Hc |- *. destruct (Z.eqb_spec h 0) as [->|Hh].
    + eapply wp_bind, wp_free_adapter; [apply lookup_insert_eq|]. intros s2 HL2. simpl.
      unfold with_adapters. simpl. rewrite delete_insert_id by done. apply wp_ret.
      split; [split; simpl; [done|done|]|split; [by repeat split|split; [simpl; lia|]]].
      * intros p Hp%Hf. lia.
      * by eapply same_view_trans.
    + destruct Hc as [Hfr Hc]. assert (w_waiting w ++ [w_next w] ≡ₚ w_next w :: w_waiting w) as Hperm by (symmetry; apply Permutation_cons_append).
      apply wp_ret. split; [split; simpl|split; [split; [done|split; [unfold pending; simpl|]]|split]].
      * by rewrite Hperm; constructor.
      * intros p. rewrite Hperm, elem_of_cons, lookup_insert_is_Some', Hb. split; (intros [<-|?]; [by left|by right]).
      * intros p. rewrite lookup_insert_is_Some'. intros [<-|Hp%Hf]; lia.
      * rewrite omap_app, pending_insert by done. csimpl. by rewrite lookup_insert_eq.
      * unfold with_waiting. simpl. rewrite zlen_app. done.
      * simpl. rewrite zlen_app. unfold zlen at 2. simpl. lia.
      * exists h. destruct Hv as (A & B & C). rewrite C in Hfr. split_and!; [done|done|].
        eapply same_view_trans; [|exact Hc]. by apply same_view_threads.
  - apply wp_ret. split; [by split|split; [by repeat split|split; [simpl; lia|done]]].
Qed.

(** A thread begins: it calls its routine with its argument, once, and its block is
    released. *)
Lemma thread_wrapper_ok l1 p l2 result w s :
  win_ok w → w_waiting w = l1 ++ p :: l2 →
  ∃ a, pending w ≡ₚ a :: pending (with_waiting w (l1 ++ l2)) ∧
  wp (ak_win_thread_wrapper p result (with_waiting w (l1 ++ l2))) (λ '(code, w') s',
    win_ok w' ∧ code = u32 result ∧ w_calls w' = w_calls w ++ [a] ∧ pending w' = pending (with_waiting w (l1 ++ l2))
    ∧ w_sys w' = w_sys w ∧ w_waiting w' = l1 ++ l2 ∧ m_live s' = m_live s - 1) s.
Proof.
  intros [Hnd Hb Hf] Hl. assert (w_waiting w ≡ₚ p :: l1 ++ l2) as Hperm by (rewrite Hl; by rewrite Permutation_middle).
  assert (is_Some (w_adapters w !! p)) as [a Ha] by (apply Hb; rewrite Hperm; by left).
  rewrite Hperm in Hnd. apply list.NoDup_cons in Hnd as [Hp Hnd].
  exists a. split.
  - unfold pending. simpl. rewrite Hperm. csimpl. by rewrite Ha.
  - unfold ak_win_thread_wrapper, deref_adapter. simpl. rewrite Ha. apply wp_bind, wp_lift. simpl.
    eapply wp_bind, wp_free_adapter; [exact Ha|]. intros s1 HL1. simpl. split_and!; try done.
    + split; simpl; [done| |].
      * intros q. rewrite lookup_delete_is_Some, <- Hb, Hperm, elem_of_cons.
        split; [intros Hq; split; [by intros ->|by right]|by intros [Hq [->|Hq']]].
      * intros q [_ Hq]%lookup_delete_is_Some. by apply Hf.
    + by destruct a.
    + unfold pending. simpl. by apply pending_delete.
Qed.
(** The thread that a call makes, if it makes one. *)
Definition makes (c : thread_call) : option ak_win_thread_adapter_t :=
  match c with C_create (Some _) (Some f) arg => Some (mk_adapter f arg) | _ => None end.

Lemma plain_wpo (o : outcome (Z * win_host)) (Q : Z → win_host → Prop) s :
  wpo o (λ '(rc, w'), Q rc w') → wp (plain (H := windows_platform) o) (λ '(rc, _, w') s', s' = s ∧ Q rc w') s.
Proof. by destruct o as [[rc w']| |]. Qed.

(** The call of the system answers 0, and changes nothing but its state. *)
Lemma sys_wpo (P : wsys → Prop) (o : outcome wsys) w :
  wpo o P → wpo (y ← o; Ret (0, with_sys w y)) (λ '(rc, w'), (∃ y, w' = with_sys w y) ∧ rc = 0 ∧ P (w_sys w')).
Proof. intros Ho. destruct o as [y| |]; [|done..]. simpl. split; [by exists y|done]. Qed.

Lemma detach_ok h w :
  h ∈ v_threads (sees (w_sys w)) →
  wpo (AK24_THREAD_DETACH h w) (λ '(rc, w'), (∃ y, w' = with_sys w y) ∧ promised (C_detach h) (sees (w_sys w)) rc None (sees (w_sys w'))).
Proof.
  intros Hh. unfold AK24_THREAD_DETACH. destruct (Z.eqb_spec h 0) as [->|_].
  - split; [exists (w_sys w); by destruct w|done].
  - pose proof (close_ok h (w_sys w) Hh) as Hc. destruct (CloseHandle h (w_sys w)) as [b y]. destruct Hc as [-> Hc].
    split; [by exists y|done].
Qed.

(** Joining waits for the thread, then closes its handle. *)
Lemma join_thread_ok h w :
  h ∈ v_threads (sees (w_sys w)) →
  wpo (AK24_THREAD_JOIN h w) (λ '(rc, w'), (∃ y, w' = with_sys w y) ∧ promised (C_join h) (sees (w_sys w)) rc None (sees (w_sys w'))).
Proof.
  intros Hh. unfold AK24_THREAD_JOIN. destruct (Z.eqb_spec h 0) as [->|_].
  - split; [exists (w_sys w); by destruct w|done].
  - pose proof (join_ok h INFINITE (w_sys w) Hh) as Hj. destruct (WaitForSingleObject h INFINITE (w_sys w)) as [r y]. simpl in Hj.
    destruct (Z.eqb_spec r WAIT_OBJECT_0) as [->|_]; [|split; [by exists y|done]].
    assert (h ∈ v_threads (sees y)) as Hh' by (destruct Hj as (_ & _ & ->); done).
    pose proof (close_ok h y Hh') as Hc. destruct (CloseHandle h y) as [b y']. destruct Hc as [_ Hc]. simpl.
    split; [by exists y'|]. eapply same_view_trans; [|exact Hc]. by apply same_view_threads.
Qed.

(** Waiting answers 0, 1 for the end of the time, or -1, and the mutex is held again. *)
Lemma timed_ok c m t w :
  c ∈ v_conds (sees (w_sys w)) → v_mutexes (sees (w_sys w)) !! m = Some true → 0 <= t < 2 ^ 32 →
  wpo (AK24_cond_timedwait (Some c) (Some m) t w) (λ '(rc, w'), (∃ y, w' = with_sys w y) ∧
    promised (C_cond_timedwait (Some c) (Some m) t) (sees (w_sys w)) rc None (sees (w_sys w')) ∧ (t = INFINITE → rc ≠ 1)).
Proof.
  intros Hc Hm Ht. simpl. pose proof (sleep_ok c m t (w_sys w) Hc Hm Ht) as Hs.
  destruct (SleepConditionVariableCS c m t (w_sys w)) as [[b y]| |]; [|done..]. simpl in Hs |- *. destruct Hs as [HV HT].
  destruct b; simpl; [split; [by exists y|]; split; [split_and!; auto; lia|lia]|].
  destruct (Z.eqb_spec (GetLastError y) ERROR_TIMEOUT) as [E|E]; simpl.
  - destruct (HT eq_refl E) as [Hi Hn]. split; [by exists y|]. split; [split_and!; auto|done].
  - split; [by exists y|]. split; [split_and!; auto; lia|lia].
Qed.

(** Every call that makes no thread goes to the system and nowhere else, and keeps its
    promise. *)
Lemma other_call_ok c w s :
  allowed c (sees (w_sys w)) = true → makes c = None →
  wp (perform (H := windows_platform) c w) (λ '(rc, stored, w') s',
    s' = s ∧ (∃ y, w' = with_sys w y) ∧ promised c (sees (w_sys w)) rc stored (sees (w_sys w'))) s.
Proof.
  intros Ha Hm. assert (∃ y, w = with_sys w y) as Hself by (exists (w_sys w); by destruct w).
  destruct c as [[m|]|[m|]|[m|]|[m|]|[d|]|[d|]|[d|] [m|]|[d|] [m|] t|[d|]|[d|]|[t|] [f|] arg|h|h]; simpl in Ha |- *;
    try (by split_and!); try discriminate Hm; rewrite ?andb_true_iff, ?bool_decide_eq_true in Ha.
  - split_and!; [done|by eexists|by apply init_ok].
  - apply plain_wpo. eapply wpo_mono; [apply (sys_wpo _ _ w (delete_ok m (w_sys w) Ha))|]. by intros [rc w'] (Hy & -> & HV).
  - apply plain_wpo. eapply wpo_mono; [apply (sys_wpo _ _ w (enter_ok m (w_sys w) Ha))|]. by intros [rc w'] (Hy & -> & HV).
  - apply plain_wpo. eapply wpo_mono; [apply (sys_wpo _ _ w (leave_ok m (w_sys w) Ha))|]. by intros [rc w'] (Hy & -> & HV).
  - pose proof (condition_ok d (w_sys w) Ha) as [HV Hin]. split_and!; [done|by eexists|exact HV|done].
  - pose proof (sleep_ok d m INFINITE (w_sys w) (proj1 Ha) (proj2 Ha) ltac:(done)) as Hs. apply plain_wpo.
    destruct (SleepConditionVariableCS _ _ _ _) as [[b y]| |]; [|done..]. simpl in *. split; [by exists y|apply Hs].
  - destruct Ha as [[[Hd Hp] Ht%Z.leb_le] Ht'%Z.ltb_lt]. apply plain_wpo.
    eapply wpo_mono; [by apply (timed_ok d m t w)|]. intros [rc w'] (Hy & Hk & _). by split.
  - split_and!; [done|by eexists|by apply wake_ok].
  - split_and!; [done|by eexists|by apply wake_all_ok].
  - apply plain_wpo. by apply join_thread_ok.
  - apply plain_wpo. by apply detach_ok.
Qed.

#[export] Instance windows_laws : @PlatformLaws windows_platform.
Proof.
  refine (@Build_PlatformLaws windows_platform win_ok (λ w, sees (w_sys w)) _). intros c w s Hok Ha.
  destruct (makes c) as [a|] eqn:Hm.
  - destruct c as [| | | | | | | | | |[t|] [f|] arg| |]; try done. eapply wp_mono; [by apply thread_create_ok|].
    by intros [[rc st] w'] s' (Hok' & _ & _ & Hp).
  - eapply wp_mono; [by apply other_call_ok|]. intros [[rc st] w'] s' (_ & [y ->] & Hp). split; [by apply win_ok_sys|done].
Defined.

(** * The threads of a program *)

(** The program makes a call, or the [i]-th of the threads that wait begins, and its
    routine answers [result]. *)
Inductive win_event : Type :=
| W_call (c : thread_call)
| W_begin (i : nat) (result : Z).

(** The routine and the argument of the thread that a call has made. *)
Definition made (c : thread_call) (rc : Z) : list ak_win_thread_adapter_t :=
  match makes c with Some a => if rc =? 0 then [a] else [] | None => [] end.

(** A program does not make a call that is not allowed. *)
Definition run_event (e : win_event) (w : win_host) : M (list ak_win_thread_adapter_t * win_host) :=
  match e with
  | W_call c =>
      if allowed c (sees (w_sys w)) then
        '(rc, _, w) ← perform (H := windows_platform) c w;
        mret (made c rc, w)
      else mret ([], w)
  | W_begin i result =>
      match w_waiting w !! i with
      | Some p =>
          '(_, w) ← ak_win_thread_wrapper p result (with_waiting w (delete i (w_waiting w)));
          mret ([], w)
      | None => mret ([], w)
      end
  end.

Fixpoint run_events (es : list win_event) (w : win_host) : M (list ak_win_thread_adapter_t * win_host) :=
  match es with
  | [] => mret ([], w)
  | e :: es =>
      '(m1, w) ← run_event e w;
      '(m2, w) ← run_events es w;
      mret (m1 ++ m2, w)
  end.

(** The threads that [made] lists have been made from [w] to [w'], and the live blocks are
    those of the threads that have not begun. *)
Definition threads_run (w : win_host) (s : mem) (made : list ak_win_thread_adapter_t) (w' : win_host) (s' : mem) : Prop :=
  win_ok w' ∧ w_calls w' ++ pending w' ≡ₚ (w_calls w ++ pending w) ++ made
  ∧ m_live s' - zlen (w_waiting w') = m_live s - zlen (w_waiting w).

Lemma pending_sys w y : pending (with_sys w y) = pending w.
Proof. done. Qed.

Lemma run_event_ok e w s : win_ok w → wp (run_event e w) (λ '(m, w') s', threads_run w s m w' s') s.
Proof.
  intros Hok. assert (threads_run w s [] w s) as Hnone by (split_and!; [done|by rewrite app_nil_r|done]).
  destruct e as [c|i result]; simpl.
  - destruct (allowed c (sees (w_sys w))) eqn:Ha; [|done]. apply wp_bind. unfold made. destruct (makes c) as [a|] eqn:Hm.
    + destruct c as [| | | | | | | | | |[t|] [f|] arg| |]; try done. injection Hm as <-.
      eapply wp_mono; [by apply thread_create_ok|]. intros [[rc st] w'] s' (Hok' & [Hc Hmade] & HB & _). simpl.
      destruct (rc =? 0); destruct Hmade as [Hp Hz]; (split_and!; [done|rewrite Hc, Hp|lia]).
      * by rewrite (assoc (++)).
      * by rewrite app_nil_r.
    + eapply wp_mono; [by apply other_call_ok|]. intros [[rc st] w'] s' (-> & [y ->] & _).
      split_and!; [by apply win_ok_sys|by rewrite app_nil_r|done].
  - destruct (w_waiting w !! i) as [p|] eqn:Hi; [|done]. rewrite delete_take_drop.
    pose proof (take_drop_middle _ _ _ Hi) as Hl. destruct (thread_wrapper_ok (take i (w_waiting w)) p (drop (S i) (w_waiting w)) result w s Hok (eq_sym Hl)) as (a & Hp & Hw).
    apply wp_bind. eapply wp_mono; [exact Hw|]. intros [code w'] s' (Hok' & _ & Hc & Hp' & _ & Hwait & HB). apply wp_ret. split_and!; [done| |].
    + rewrite Hc, Hp', app_nil_r, Hp, <- (assoc (++)). done.
    + pose proof (f_equal zlen Hl) as Hz. rewrite zlen_app, zlen_cons in Hz. rewrite Hwait, HB, zlen_app. lia.
Qed.

Lemma run_events_ok es w s : win_ok w → wp (run_events es w) (λ '(m, w') s', threads_run w s m w' s') s.
Proof.
  revert w s. induction es as [|e es IH]; intros w s Hok; simpl; [split_and!; [done|by rewrite app_nil_r|done]|].
  apply wp_bind. eapply wp_mono; [by apply run_event_ok|]. intros [m1 w1] s1 (Hok1 & Hp1 & HL1).
  apply wp_bind. eapply wp_mono; [by apply IH|]. intros [m2 w2] s2 (Hok2 & Hp2 & HL2). apply wp_ret. split_and!; [done| |lia].
  by rewrite Hp2, Hp1, (assoc (++)).
Qed.
End win_laws.

(** * Properties *)

Section properties.
Context `{Allocator} `{HL : WinThreadLaws}.

(** C30: The threads of a program on Windows, in whichever order they begin and whatever
    the program calls in between: nothing is undefined, every thread that
    [AK24_THREAD_CREATE] answers 0 for calls its routine with its argument exactly once or
    has still to, no thread calls anything else, and the blocks that pass the arguments
    are released: those that live belong to the threads that have not begun. *)
Theorem win_threads_spec es w s :
  win_ok w → w_waiting w = [] →
  wp (run_events es w) (λ '(made, w') s',
    win_ok w' ∧ w_calls w' ++ pending w' ≡ₚ w_calls w ++ made ∧ m_live s' = m_live s + zlen (w_waiting w')
    ∧ (w_waiting w' = [] → w_calls w' ≡ₚ w_calls w ++ made ∧ m_live s' = m_live s)) s.
Proof.
  intros Hok Hno. eapply wp_mono; [by apply run_events_ok|]. intros [m w'] s' (Hok' & Hp & HB).
  assert (pending w = []) as Hp0 by (unfold pending; by rewrite Hno). rewrite Hp0, app_nil_r in Hp. rewrite Hno in HB. rewrite zlen_nil in HB.
  split_and!; [done|done|lia|]. intros Hno'. unfold pending in Hp. rewrite Hno' in Hp, HB. simpl in Hp. rewrite app_nil_r in Hp.
  rewrite zlen_nil in HB. split; [done|lia].
Qed.
End properties.

(** C29: The functions of [thread_platform.c] over [posix.c] and over [win.c] keep one
    contract.  On both platforms a call that the program may make returns, does what
    [promised] says when it answers 0 and nothing that can be seen otherwise, waits give
    the mutex back, and a wait that answers 1 has lasted its time; a call with a null
    pointer answers -1 and does nothing.  Which threads a signal or a broadcast wakes
    is no part of the contract. *)
Theorem ak_thread_platform_spec `{Allocator} c s :
  (∀ (P : PthreadSystem) (L : PthreadLaws) gc w, allowed c (Pthreads.sees w) = true →
    wp (perform (H := @thread_platform (posix_platform gc)) c w)
      (λ '(rc, stored, w') _, promised c (Pthreads.sees w) rc stored (Pthreads.sees w')) s)
  ∧ (∀ (W : WinThreadSystem) (L : WinThreadLaws) w, win_ok w → allowed c (sees (w_sys w)) = true →
    wp (perform (H := @thread_platform windows_platform) c w)
      (λ '(rc, stored, w') _, win_ok w' ∧ promised c (sees (w_sys w)) rc stored (sees (w_sys w'))) s).
Proof.
  split.
  - intros P L gc w Ha. eapply wp_mono; [exact (@keeps _ (@thread_platform_laws _ (posix_laws gc)) c w s I Ha)|].
    by intros [[rc stored] w'] s' [_ Hp].
  - intros W L w Hok Ha. exact (@keeps _ (@thread_platform_laws _ windows_laws) c w s Hok Ha).
Qed.

(** * Witnesses *)

(** A small system: a wait ends by its time, and there is one handle for each parameter. *)
Definition toy_state : Type := view * (Z * list (Z * String.string)).

Definition toy_see (f : view → view) (y : toy_state) : toy_state := (f y.1, y.2).

Definition toy_section (held : bool) (f : gmap Z bool → gmap Z bool) (m : Z) (y : toy_state) : outcome toy_state :=
  if bool_decide (v_mutexes y.1 !! m = Some held) then Ret (toy_see (with_mutexes f) y) else Undef.

Definition toy_sleep (c m ms : Z) (y : toy_state) : outcome (bool * toy_state) :=
  if bool_decide (v_mutexes y.1 !! m = Some true) then
    if ms =? INFINITE then Ret (true, y)
    else Ret (false, toy_see (λ v, mk_view (v_mutexes v) (v_conds v) (v_threads v) (v_time v + ms * 1000000)) y)
  else Undef.

#[local] Instance toy_threads : WinThreadSystem := {|
  wsys := toy_state;
  GetStdHandle _ := 1;
  GetConsoleScreenBufferInfo _ y := Some y.2.1;
  SetConsoleTextAttribute _ a y := (y.1, (a, y.2.2));
  vprintf t y := (y.1, (y.2.1, y.2.2 ++ [(y.2.1, t)]));
  InitializeCriticalSection m y := toy_see (with_mutexes <[m := false]>) y;
  DeleteCriticalSection m y := toy_section false (delete m) m y;
  EnterCriticalSection m y := toy_section false <[m := true]> m y;
  LeaveCriticalSection m y := toy_section true <[m := false]> m y;
  InitializeConditionVariable c y := toy_see (λ v, mk_view (v_mutexes v) ({[c]} ∪ v_conds v) (v_threads v) (v_time v)) y;
  SleepConditionVariableCS := toy_sleep;
  GetLastError _ := ERROR_TIMEOUT;
  WakeConditionVariable _ y := y;
  WakeAllConditionVariable _ y := y;
  CreateThread p y := if bool_decide (p + 1 ∈ v_threads y.1) || (p + 1 =? 3) || (p + 1 =? 0) then (0, y) else (p + 1, toy_see (with_threads (union {[p + 1]})) y);
  WaitForSingleObject _ _ y := (WAIT_OBJECT_0, y);
  CloseHandle h y := (bool_decide (h ∈ v_threads y.1), toy_see (with_threads (λ X, X ∖ {[h]})) y);
|}.

Lemma toy_section_ok held f m (y : toy_state) :
  v_mutexes y.1 !! m = Some held → wpo (toy_section held f m y) (λ y', same_view ∅ (with_mutexes f y.1) y'.1).
Proof. intros Hm. unfold toy_section. rewrite bool_decide_true by done. by split_and!. Qed.

#[local] Instance toy_thread_laws : @WinThreadLaws toy_threads.
Proof.
  refine (@Build_WinThreadLaws toy_threads fst (λ y, y.2.1) (λ y, y.2.2) _ _ _ _ _ _ _ _ _ _ _ _ _ _).
  - by intros h y a [= ->].
  - done.
  - done.
  - done.
  - intros m y. apply toy_section_ok.
  - intros m y. apply toy_section_ok.
  - intros m y. apply toy_section_ok.
  - intros c y _. simpl. unfold same_view. simpl. split; [|by apply elem_of_union_l, elem_of_singleton].
    split_and!; [done| |done]. by rewrite difference_union_distr_l_L, difference_diag_L, (left_id_L ∅ (∪)).
  - intros c m ms y _ Hm Ht. simpl. unfold toy_sleep. rewrite bool_decide_true by done.
    destruct (Z.eqb_spec ms INFINITE) as [->|Hi]; simpl; (split; [by split_and!|]); [done|]. intros _ _. split; [done|lia].
  - done.
  - done.
  - intros p y. simpl. destruct (_ || _) eqn:E; [done|]. apply orb_false_iff in E as [[E1%bool_decide_eq_false_1 _]%orb_false_iff E2]. simpl.
    rewrite E2. by split_and!.
  - done.
  - intros h y Hh. simpl. by rewrite bool_decide_true.
Defined.

Definition w_view : view := mk_view ∅ ∅ ∅ 0.
Definition w_win : @win_host toy_threads := mk_win (H0 := toy_threads) (w_view, (7, [])) ∅ 0 [] [].

Definition w_win_events : list win_event :=
  [W_call (C_mutex_init (Some 100)); W_call (C_create (Some 500) (Some 60) 61); W_call (C_create (Some 501) (Some 70) 71);
   W_begin 1 5; W_call (C_mutex_lock (Some 100)); W_call (C_create (Some 502) (Some 80) 81); W_call (C_create None (Some 90) 91);
   W_call (C_mutex_unlock (Some 100)); W_call (C_join 2); W_begin 0 (-1)].

Lemma w_win_ok : win_ok w_win.
Proof.
  split; simpl; [constructor| |].
  - intros p. rewrite lookup_empty. split; [by intros ?%elem_of_nil|by intros []].
  - intros p. rewrite lookup_empty. by intros [].
Qed.

Section win_witnesses.
#[local] Existing Instance always_alloc.

(** The third thread cannot be made; the others run, the second one first, and no block
    is left. *)
Lemma win_threads_spec_witness :
  (∃ w' s', run_events (HL := toy_thread_laws) w_win_events w_win (Mem 0 0 0) = Ret (([mk_adapter 60 61; mk_adapter 70 71], w'), s')
    ∧ w_calls w' = [mk_adapter 70 71; mk_adapter 60 61] ∧ w_waiting w' = [] ∧ m_calls s' = 3%nat ∧ m_live s' = 0)
  ∧ wp (run_events (HL := toy_thread_laws) w_win_events w_win) (λ '(made, w') s',
    win_ok w' ∧ w_calls w' ++ pending w' ≡ₚ w_calls w_win ++ made ∧ m_live s' = 0 + zlen (w_waiting w')
    ∧ (w_waiting w' = [] → w_calls w' ≡ₚ w_calls w_win ++ made ∧ m_live s' = 0)) (Mem 0 0 0).
Proof.
  split; [do 2 eexists; split; [vm_compute; reflexivity|vm_compute; split_and!; reflexivity]|].
  exact (win_threads_spec (HL := toy_thread_laws) w_win_events w_win (Mem 0 0 0) w_win_ok eq_refl).
Defined.

Definition w_posix : view := mk_view {[ 100 := true ]} {[ 200 ]} ∅ 5.

(** A wait of 3 milliseconds on both platforms. *)
Lemma ak_thread_platform_spec_witness :
  wp (perform (H := @thread_platform (posix_platform (H := toy_pthreads) false)) (C_cond_timedwait (Some 200) (Some 100) 3) w_posix)
    (λ '(rc, stored, w') _, promised (C_cond_timedwait (Some 200) (Some 100) 3) (Pthreads.sees w_posix) rc stored (Pthreads.sees w')) (Mem 0 0 0)
  ∧ (let w := with_sys w_win (w_posix, (7, [])) in
     wp (perform (H := @thread_platform windows_platform) (C_cond_timedwait (Some 200) (Some 100) 3) w)
      (λ '(rc, stored, w') _, win_ok w' ∧ promised (C_cond_timedwait (Some 200) (Some 100) 3) (sees (w_sys w)) rc stored (sees (w_sys w'))) (Mem 0 0 0)).
Proof.
  split.
  - apply (proj1 (ak_thread_platform_spec (C_cond_timedwait (Some 200) (Some 100) 3) (Mem 0 0 0)) toy_pthreads toy_pthread_laws false w_posix).
    vm_compute. reflexivity.
  - apply (proj2 (ak_thread_platform_spec (C_cond_timedwait (Some 200) (Some 100) 3) (Mem 0 0 0)) toy_threads toy_thread_laws).
    + apply win_ok_sys, w_win_ok.
    + vm_compute. reflexivity.
Defined.

(** [AK24_MUTEX_INITIALIZER] fills a section with zeros on Windows, which does not
    initialise it: a system that keeps its documented behaviour need not be able to
    enter it.  The locks of modules and of memory statistics are made so. *)
Theorem win_static_mutex_undefined : AK24_mutex_lock (Some 100) w_win = Undef.
Proof. vm_compute. reflexivity. Qed.
End win_witnesses.
